(* ===== verification/_CoqProject ===== *)
-Q . S2P
Prelude.v
JsString.v
JsMap.v
Hlc.v
Encoding.v
Cookie.v
Messages.v
Json.v
Keys.v
RecordCodec.v
Effects.v
SyncQueue.v
SyncState.v
SyncVerify.v
SyncEngine.v
SyncInvariant.v
SyncConvergence.v
SyncLocal.v
Hosts.v
GatewayCookie.v
Transport.v
TransportProps.v
TransportSafety.v
HubStorage.v
GatewayJar.v
HubCore.v
HubProps.v
GatewayProps.v
GatewaySafety.v
HubSafety.v
HubHistory.v
HubCoordination.v
Chunking.v
Egress.v
EgressService.v
CloudFetch.v
Relay.v
Workspace.v
WorkspaceStore.v
WorkspaceCoherent.v
WorkspaceSync.v
WorkspaceSyncProps.v
WorkspaceMerge.v
Tokens.v
TokenProps.v
WebAuthn.v
CborProps.v
WebAuthnProps.v
Threads.v
ControlDb.v
ControlAuth.v
ControlInv.v
ControlRules.v
ControlHandlers.v
ControlAuthProps.v
ControlOutbox.v
ControlDemo.v
FilesRules.v
FilesDb.v
ControlFiles.v
FilesInv.v
FilesSafety.v
FilesRoutes.v
FilesProps.v
FilesDurable.v
FilesRoundtrip.v
FilesDemo.v
Lifecycle.v
ControlMachine.v
MachineSafety.v
MachineProps.v
AuditTrail.v
ControlSpaces.v
SpacesProps.v
NodeFs.v
LocalVfs.v
VfsPaths.v
VfsRequests.v
VfsWrites.v
VfsDemo.v
