(* ===== verification/Prelude.v ===== *)
(** * Suma: a verification development of a browser whose sessions follow its user

    Suma keeps the browser sessions of one person alive on all their devices.
    A desktop application captures cookie changes and workspace edits, seals
    them and sends them to a session hub, which stores and forwards what it
    cannot read; a control plane holds accounts, devices, credentials, files
    and the home computer; an egress path gives the sessions one address.

    This library models the parts that decide: the shared rules of
    packages/, the sync side and the local file system of
    apps/desktop/src/main, services/sessionhub and the routes of
    services/control, prices and inference apart.  Definitions are translated
    from the TypeScript and keep its names; they compute.

    ** How the parts interact

    - A cookie change becomes a plaintext record (Cookie, RecordCodec), gets a
      timestamp (Hlc), a pseudonymous id and a sealed payload (Keys) and a
      device signature, and is published through the offline queue (SyncQueue)
      by the sync engine (SyncState, SyncEngine) over the websocket transport
      (Transport).
    - The session hub (HubCore over HubStorage) admits, stores, numbers and
      forwards it; on another device the engine verifies (SyncVerify), opens
      and resolves it against what it knows, and applies it.
    - The workspace (WorkspaceStore) is a file of last-writer-wins registers
      (Workspace); WorkspaceSync publishes and merges them over the same
      transport and hub.
    - The edge in front of the hub (Tokens) admits the device tokens that the
      control plane mints (ControlAuth), after a passkey (WebAuthn), a device
      key, an invite or an enrollment code; revocations reach the hub through
      the outbox (ControlOutbox).
    - Files are chunked on a device (Chunking), admitted, counted and read back
      through the Files API (ControlFiles); downloads may be handed to the
      cloud (CloudFetch).
    - The user's computer is a machine of the control plane (Lifecycle,
      ControlMachine) or the Mac itself, which then answers the requests of the
      vfs channel (LocalVfs over the disk of NodeFs).
    - The routes of the control plane share its tables: accounts, devices and
      invites (ControlDb), files (FilesDb), machines and usage
      (ControlMachine), spaces, wrapped keys and the audit trail
      (ControlSpaces, AuditTrail).
    - The gateway jar (GatewayCookie, GatewayJar) shares the hub's storage and
      serves requests with the cookies of a space; the egress policy (Egress,
      EgressService) picks the proxy of each session; the relay (Relay) joins
      a home machine and its remote clients.

    ** Files, and the sources they model

    Foundations: Prelude (tactics, hints, list lemmas); JsString (strings,
    slices and numbers as ECMAScript has them); JsMap (Map in insertion order);
    Json (JSON.stringify and JSON.parse on trees); Effects (state and
    exceptions); Threads (handlers that interleave at awaits, the pool, rely
    and guarantee, handlers whose statements stay within a relation, and an
    executable scheduler that is sound for the pool).

    Protocol: Hlc (protocol/src/hlc.ts); Encoding (encoding.ts); Cookie
    (cookie.ts, continuity.ts, config/src/corpus.ts); Messages (messages.ts);
    Keys (keys.ts); RecordCodec (the payload codec of cookie.ts, ids.ts,
    device.ts); Hosts (dotted quads, IPv6 prefixes and parsed URLs, shared);
    CloudFetch (files.ts); Tokens (token.ts, agent.ts, the control plane's
    capabilities.ts, the hub's auth.ts and index.ts) with TokenProps.

    Sync engine: SyncQueue (sync-engine/src/queue.ts), SyncState and SyncEngine
    (engine.ts, types.ts), SyncVerify (verify.ts); SyncInvariant,
    SyncConvergence and SyncLocal hold its theorems.

    Desktop: Transport (main/sync/transport.ts) with TransportProps and
    TransportSafety; Workspace (protocol/src/workspace.ts and
    main/sync/workspace-map.ts), WorkspaceStore (main/workspace-store.ts) with
    WorkspaceCoherent, WorkspaceSync (main/sync/workspace-sync.ts) with
    WorkspaceSyncProps and WorkspaceMerge; Egress
    (egress-policy/src/index.ts) and EgressService (main/egress); Chunking
    (chunking/src/index.ts); NodeFs (what the port asks of node:fs), LocalVfs
    (main/compute/local-vfs.ts) with VfsPaths, VfsRequests, VfsWrites and
    VfsDemo.

    Session hub: HubStorage, HubCore (sessionhub/src/hub-core.ts) with
    HubProps, HubSafety, HubHistory and HubCoordination; GatewayCookie and
    GatewayJar (gateway-core.ts, protocol/src/gateway.ts) with GatewayProps and
    GatewaySafety.

    Control plane: WebAuthn (control/src/webauthn.ts) with CborProps and
    WebAuthnProps; ControlDb (db/schema.ts) and ControlAuth (app.ts, auth.ts,
    outbox.ts, gateway.ts, invites.ts) with ControlInv, ControlRules,
    ControlHandlers, ControlAuthProps, ControlOutbox and ControlDemo;
    FilesRules (files.ts), FilesDb (schema.ts and helpers of app.ts) and
    ControlFiles (the Files routes of app.ts) with FilesInv, FilesSafety,
    FilesRoutes, FilesProps, FilesDurable, FilesRoundtrip and FilesDemo;
    Lifecycle (protocol/src/machine.ts, lifecycle.ts, abuse.ts) and
    ControlMachine (the machine and usage routes of app.ts) with MachineSafety
    and MachineProps; AuditTrail (audit-format.ts) and ControlSpaces (the routes
    of spaces, wrappers and the audit trail of app.ts, recovery.ts) with
    SpacesProps; Relay (relay.ts).

    ** What the theorems show

    - Clocks and bytes: the sortable form of a timestamp orders as timestamps
      do, one clock never repeats itself, and the bytes that are signed or
      hashed determine the identity or record they stand for.
    - Convergence: replicas that receive the same records in any order end with
      the same winner; a write that never saw a deletion does not undo it; a
      failed application is retried; every reachable engine state is
      consistent.  The same for workspace documents, whose merge loses no tab.
    - Hub: watermarks cover what is stored; each record of a publish is stored,
      refused or throttled by the stated rules and nothing else changes; a
      revoked device is out; a batch of documents has no order.
    - Egress, gateway and downloads: in a session whose space is on the
      identity address the hosts the policy does not send direct are behind the
      local proxy, and no entry of the bypass list covers them, while the lists
      of the space hold plain host names; gateway requests carry only cookies
      in scope and spaces are isolated; a download that carries a credential
      never goes to the cloud.
    - Transport and relay: one driver per connection, recovery, isolation of
      accounts.
    - Credentials: nobody but the holder of an issued token is served; a login
      is bound to its ceremony; whatever requests race, codes are used once,
      revocations are for good and are delivered or given up after twenty
      recorded attempts; two texts of one key are two keys.
    - Files: whatever requests race, references, quota and caps are exact and
      accounts are isolated; without races what is complete is stored, and an
      upload is read back; races that break this are shown as runs.
    - Machines: whatever requests race, a machine moves only by legal steps, is
      stopped only behind its guards, and only the gateway's reports count as
      proxied bytes.
    - Spaces: wrapped keys stay in the spaces of their account, and the pages of
      the audit trail list every entry once while others are written.
    - The local file system: a request that runs alone, its lookups answering
      what the disk says, changes nothing outside the served directory unless a
      path leaves it and comes back through links; requests that interleave
      around the lock, whichever calls fail, change nothing outside when no link
      is below the directory; a write is all or nothing whichever calls fail; a
      rename overwrites nothing while lookups work; every loop ends.  Runs show
      what goes wrong with links when a lookup fails or requests race.

    ** Conventions

    - Strings are sequences of Latin-1 code units; text outside it is not in
      the model.  Numbers are integers in JavaScript's exact range, except the
      32-bit hash of Chunking, written with its wrap-around, and the seconds of
      cookie expiry, which are rationals.
    - Uuids are canonical lower-case text.  Random bytes and fresh identifiers
      are arguments; a fresh identifier never repeats an earlier one where a
      theorem needs it ([fw_ids] remembers those of files).
    - Objects mutated in place are values here where nothing else holds them;
      the sharing of published history visits is modelled in WorkspaceStore,
      the mutation of pins while a document is being sealed is not.
    - Code outside src/ is a parameter: [WebCrypto] with [WebCryptoLaws],
      [WebAuthnCrypto], [Blake3], [HubStorage] with [HubStorageLaws],
      [UrlParser], [UrlText], [GatewayPlatform], the matching of Chromium's
      bypass entries ([ProxyBypass] with [ProxyBypassLaws]), the collations of the
      database and of the list of tabs, the import of token keys.  A theorem
      that needs a law has a witness with a concrete instance.
    - Callbacks, frames, socket closes, timers and settled promises are appended
      to traces.  Outcomes that come from outside (lease answers, store
      failures, other services, the bucket) are universally quantified.

    ** Granularity

    - A synchronous method is one step.  A method that awaits is one step where
      the source serialises it (the Durable Object of the hub) and is cut at
      its awaits otherwise: [handleClose], the gateway's fetch, the flush,
      synchronise and hydrate of WorkspaceSync, and every route of the control
      plane.  The methods of the sync engine are atomic: two of its calls do
      not interleave, so the joining of concurrent flushes has no counterpart.
    - A route of the control plane is a [Thread]: an atomic piece is one
      statement with the code up to the next await.  A transaction that first
      takes the lock of its account is one piece; the transaction of
      files/complete, which takes none, is cut statement by statement, and its
      writes are visible from the statement on.  A read that the source splits
      into batches of a thousand rows is one piece.
    - A request carries what its zod schema lets through.
    - A request of the vfs channel is resolved at one time and runs at a later
      one ([vfs_step] of LocalVfs): others may run between, as the lock is taken
      after the resolution, which may see any state of the disk.  What runs
      under the lock is one step; what only reads changes nothing and is one as
      well.  The chain of promises that makes the lock is not modelled.  The
      theorems about one request are about it running alone.

    ** Bounds and fuel

    - The ancestry walk of the engine is cut at MAX_ANCESTRY_WALK, as in the
      source.
    - The walk of a tree has the number of entries of the disk and one as fuel,
      the walk up a path its length, a read the bytes wanted; all are proved
      enough.
    - The JSON parser has the length of its text as fuel, the CBOR reader the
      length of its input and one, the chunk loops the bytes left, the batches
      of rows the number of rows: each turn consumes at least one.  The CBOR
      bound and the chunk loops are proved enough.
    - The depth of the JavaScript stack is not bounded.

    ** Idealisations in hypotheses

    - The verification key of the edge accepts only what the control plane
      signed (the honest key of TokenProps), and an honest client names content
      by its hash ([honest] of FilesDurable, over a function from hashes to
      lengths).
    - Workspace values are compared at the level of their payload; a sealed
      value is represented by what it contains, justified by the seal of Keys
      and the layouts of Workspace.
    - Every entry of a disk lies in a directory ([tree_wf]); a call may fail
      before or in the middle of its work, a lookup and the closing of a file as
      well.
    - A timer event is enabled only when the source has armed the timer.

    ** Not modelled

    The Rust programs (agent, sidecar, services/egressgw) are another language.
    The renderer, the preload bridge, apps/files and apps/www are user
    interface.  The Electron services of apps/desktop/src/main outside sync,
    egress, the workspace store and the local file system drive windows,
    processes and models, with little logic that does not go through those.  Of
    the control plane prices and the inference proxy are missing; they compute
    money in floating point.  The database driver, the S3 client, the HTTP frameworks, the
    session hub's Durable Object adapter and zod are third-party or thin
    adapters of it. *)

From stdpp Require Export base list option strings sorting sets gmap.
From Stdlib Require Export ZArith Lia Bool.
From Stdlib Require Import Sorting.Permutation.

#[global] Set Default Goal Selector "1".

Declare Scope suma_scope.
Delimit Scope suma_scope with suma.
#[global] Open Scope Z_scope.

(** ** Hint database: lemmas that close the routine goals of the components. *)
Create HintDb suma discriminated.
Create Rewrite HintDb suma.

(** ** Tactics *)

(** Case analysis on the boolean tests and options that guard a handler. *)
Ltac split_guard :=
  match goal with
  | |- context [if ?b then _ else _] => destruct b eqn:?
  | |- context [match ?o with Some _ => _ | None => _ end] => destruct o eqn:?
  end.

Ltac split_guard_in H :=
  match type of H with
  | context [if ?b then _ else _] => destruct b eqn:?
  | context [match ?o with Some _ => _ | None => _ end] => destruct o eqn:?
  end.

(** Boolean hypotheses to propositions. *)
Ltac bprop :=
  repeat match goal with
  | H : (_ && _) = true |- _ => apply andb_true_iff in H as [? ?]
  | H : (_ || _) = false |- _ => apply orb_false_iff in H as [? ?]
  | H : (_ && _) = false |- _ => apply andb_false_iff in H
  | H : (_ || _) = true |- _ => apply orb_true_iff in H
  | H : negb _ = true |- _ => apply negb_true_iff in H
  | H : negb _ = false |- _ => apply negb_false_iff in H
  | H : bool_decide _ = true |- _ => apply bool_decide_eq_true in H
  | H : bool_decide _ = false |- _ => apply bool_decide_eq_false in H
  | H : (_ <? _) = true |- _ => apply Z.ltb_lt in H
  | H : (_ <? _) = false |- _ => apply Z.ltb_ge in H
  | H : (_ <=? _) = true |- _ => apply Z.leb_le in H
  | H : (_ <=? _) = false |- _ => apply Z.leb_gt in H
  | H : (_ >? _) = true |- _ => rewrite Z.gtb_ltb in H
  | H : (_ >? _) = false |- _ => rewrite Z.gtb_ltb in H
  | H : (_ >=? _) = true |- _ => rewrite Z.geb_leb in H
  | H : (_ >=? _) = false |- _ => rewrite Z.geb_leb in H
  | H : (_ =? _) = true |- _ => apply Z.eqb_eq in H
  | H : (_ =? _) = false |- _ => apply Z.eqb_neq in H
  end.

(** Finish a goal of arithmetic after normalising booleans. *)
Ltac blia := bprop; lia.

(** ** Lists *)

(** [last_some f l]: the last element kept by [f], as a JavaScript loop that
    overwrites its result computes it. *)
Definition list_last {A} (l : list A) : option A := last l.

Lemma Forall_filter_sub {A} (P : A → Prop) (f : A → bool) (l : list A) :
  Forall P l → Forall P (List.filter f l).
Proof.
  intros H. induction H as [|x l Hx Hl IH]; simpl; [constructor|].
  destruct (f x); [constructor|]; done.
Qed.

Lemma filter_filter_and {A} (f g : A → bool) (l : list A) :
  List.filter f (List.filter g l) = List.filter (λ x, g x && f x) l.
Proof.
  induction l as [|x l IH]; simpl; [done|].
  destruct (g x); simpl; [destruct (f x)|]; simpl; rewrite ?IH; done.
Qed.

Lemma In_filter_iff {A} (f : A → bool) (l : list A) x :
  x ∈ List.filter f l ↔ x ∈ l ∧ f x = true.
Proof. rewrite !list_elem_of_In. apply filter_In. Qed.

Lemma filter_all {A} (f : A → bool) (l : list A) :
  (∀ x, x ∈ l → f x = true) → List.filter f l = l.
Proof.
  induction l as [|x l IH]; intros H; simpl; [done|].
  rewrite H by set_solver. f_equal. apply IH. set_solver.
Qed.

Lemma filter_none {A} (f : A → bool) (l : list A) :
  (∀ x, x ∈ l → f x = false) → List.filter f l = [].
Proof.
  induction l as [|x l IH]; intros H; simpl; [done|].
  rewrite H by set_solver. apply IH. set_solver.
Qed.

Lemma StronglySorted_filter {A} (R : A → A → Prop) (f : A → bool) (l : list A) :
  StronglySorted R l → StronglySorted R (List.filter f l).
Proof.
  induction 1 as [|x l Hs IH Hall]; simpl; [constructor|].
  destruct (f x); [|done]. constructor; [done|]. by apply Forall_filter_sub.
Qed.

Lemma StronglySorted_map {A B} (R : A → A → Prop) (R' : B → B → Prop) (f : A → B) l :
  (∀ x y, x ∈ l → y ∈ l → R x y → R' (f x) (f y)) →
  StronglySorted R l → StronglySorted R' (map f l).
Proof.
  induction l as [|x l IH]; intros Hf Hs; simpl; [constructor|].
  apply StronglySorted_inv in Hs as [Hs Hall]. constructor.
  - apply IH; [|done]. intros. apply Hf; [by right|by right|done].
  - rewrite Forall_forall in Hall. apply Forall_forall. intros y (z & -> & Hz)%list_elem_of_fmap.
    apply Hf; [left|by right|auto].
Qed.

Lemma elem_of_snoc {A} (x y : A) l : x ∈ l ++ [y] ↔ x ∈ l ∨ x = y.
Proof. rewrite elem_of_app, list_elem_of_singleton. done. Qed.

Lemma elem_of_take_in {A} (x : A) n l : x ∈ take n l → x ∈ l.
Proof. intros H. rewrite <- (take_drop n l). apply elem_of_app. by left. Qed.

Lemma elem_of_drop_in {A} (x : A) n l : x ∈ drop n l → x ∈ l.
Proof. intros H. rewrite <- (take_drop n l). apply elem_of_app. by right. Qed.

(** In a sorted list the front is below the back. *)
Lemma StronglySorted_split {A} (R : A → A → Prop) n l x y :
  StronglySorted R l → x ∈ take n l → y ∈ drop n l → R x y.
Proof.
  revert n. induction l as [|z l IH]; intros [|n] Hs Hx Hy; simpl in *; try set_solver.
  apply StronglySorted_inv in Hs as [Hs Hall]. apply elem_of_cons in Hx as [->|Hx]; [|by eapply IH].
  rewrite Forall_forall in Hall. apply Hall. by eapply elem_of_drop_in.
Qed.

Lemma NoDup_map_filter {A B} (f : A → B) (g : A → bool) (l : list A) :
  NoDup (map f l) → NoDup (map f (List.filter g l)).
Proof.
  induction l as [|x l IH]; simpl; intros H; [done|].
  apply NoDup_cons in H as [Hx H]. destruct (g x); simpl; [|auto].
  apply NoDup_cons. split; [|auto]. intros Hin. apply Hx.
  apply list_elem_of_fmap in Hin as (y & -> & Hy). apply In_filter_iff in Hy as [Hy _].
  apply list_elem_of_fmap. eauto.
Qed.

#[export] Hint Resolve Forall_filter_sub StronglySorted_filter : suma.

(** Induction three elements at a time, for codecs that work on groups. *)
Lemma list_ind3 {A} (P : list A → Prop) :
  P [] → (∀ a, P [a]) → (∀ a b, P [a; b]) →
  (∀ a b c l, P l → P (a :: b :: c :: l)) → ∀ l, P l.
Proof.
  intros H0 H1 H2 H3. fix IH 1. intros [|a [|b [|c l]]]; [done|done|done|].
  apply H3, IH.
Qed.

(** ** [Array.prototype.sort] with a comparator: a stable sort *)

Section SortBy.
Context {A : Type} (cmp : A → A → Z).

Fixpoint insert_by (x : A) (l : list A) : list A :=
  match l with
  | [] => [x]
  | y :: l' => if cmp x y <? 0 then x :: y :: l' else y :: insert_by x l'
  end.

Definition sort_by (l : list A) : list A := fold_left (λ acc x, insert_by x acc) l [].

Lemma insert_by_perm x l : Permutation (insert_by x l) (x :: l).
Proof.
  induction l as [|y l IH]; simpl; [done|]. destruct (_ <? _); [done|].
  rewrite IH. apply perm_swap.
Qed.

Lemma sort_by_acc_perm l acc :
  Permutation (fold_left (λ acc x, insert_by x acc) l acc) (l ++ acc).
Proof.
  revert acc. induction l as [|x l IH]; intros acc; simpl; [done|].
  rewrite IH, insert_by_perm. symmetry. apply Permutation_middle.
Qed.

Lemma sort_by_perm l : Permutation (sort_by l) l.
Proof. unfold sort_by. by rewrite sort_by_acc_perm, app_nil_r. Qed.

Context (cmp_antisym : ∀ a b, cmp b a = - cmp a b)
        (cmp_trans : ∀ a b c, cmp a b <= 0 → cmp b c <= 0 → cmp a c <= 0).

Lemma insert_by_sorted x l :
  StronglySorted (λ a b, cmp a b <= 0) l →
  StronglySorted (λ a b, cmp a b <= 0) (insert_by x l).
Proof.
  induction 1 as [|y l Hs IH Hall]; simpl; [repeat constructor|].
  destruct (cmp x y <? 0) eqn:E; bprop.
  - constructor; [by constructor|]. constructor; [lia|].
    eapply Forall_impl; [exact Hall|]. simpl. intros z Hz. eapply cmp_trans; [|done]. lia.
  - constructor; [done|]. rewrite insert_by_perm. constructor; [|done].
    rewrite cmp_antisym. lia.
Qed.

Lemma sort_by_sorted l : StronglySorted (λ a b, cmp a b <= 0) (sort_by l).
Proof.
  unfold sort_by. assert (StronglySorted (λ a b, cmp a b <= 0) []) as H by constructor.
  revert H. generalize (@nil A). induction l as [|x l IH]; intros acc H; simpl; [done|].
  apply IH. by apply insert_by_sorted.
Qed.
End SortBy.
