(* ===== verification/JsString.v ===== *)
(** * JavaScript strings, numbers and the string methods the sources call.

    A JavaScript string is modelled by Stdlib's [string]: a sequence of code
    units below 256 (the Latin-1 block).  On that range every function below
    is the ECMAScript function: comparison by code unit, [toLowerCase],
    [indexOf], [slice], [startsWith], [endsWith], [split], [str_join],
    [padStart], [Number.prototype.toString(16)] and [Number.parseInt]. *)

From S2P Require Export Prelude.
From Stdlib Require Import Ascii.
From Stdlib Require Import Structures.Orders Structures.OrdersTac.

#[global] Open Scope Z_scope.
#[global] Arguments String.append !_ _ / : simpl nomatch.

(** ** Code units *)

Definition code (c : ascii) : Z := Z.of_N (N_of_ascii c).
Definition chr (z : Z) : ascii := ascii_of_N (Z.to_N z).

(** ** Definitions *)

Definition js_length (s : string) : Z := Z.of_nat (String.length s).

Fixpoint chars (s : string) : list ascii :=
  match s with
  | EmptyString => []
  | String c s' => c :: chars s'
  end.

Fixpoint of_chars (l : list ascii) : string :=
  match l with
  | [] => EmptyString
  | c :: l' => String c (of_chars l')
  end.

(** [a < b] on strings compares code units lexicographically. *)
Definition str_ltb (a b : string) : bool :=
  match String.compare a b with Lt => true | _ => false end.

Definition str_lt (a b : string) : Prop := str_ltb a b = true.

(** [toLowerCase] on one Latin-1 code unit: A-Z and the accented capitals
    0xC0-0xDE, except the multiplication sign 0xD7. *)
Definition lower_char (c : ascii) : ascii :=
  let n := code c in
  if ((65 <=? n) && (n <=? 90))
     || ((192 <=? n) && (n <=? 222) && negb (n =? 215))
  then chr (n + 32) else c.

Fixpoint toLowerCase (s : string) : string :=
  match s with
  | EmptyString => EmptyString
  | String c s' => String (lower_char c) (toLowerCase s')
  end.

Fixpoint startsWith (s prefix : string) {struct prefix} : bool :=
  match prefix, s with
  | EmptyString, _ => true
  | String c p, String d s' => Ascii.eqb c d && startsWith s' p
  | String _ _, EmptyString => false
  end.

(** [s.slice(n)] for a non-negative index. *)
Fixpoint slice_from (n : nat) (s : string) : string :=
  match n, s with
  | O, _ => s
  | S n', String _ s' => slice_from n' s'
  | S _, EmptyString => EmptyString
  end.

(** [s.slice(0, n)]. *)
Fixpoint slice_to (n : nat) (s : string) : string :=
  match n, s with
  | O, _ => EmptyString
  | S n', String c s' => String c (slice_to n' s')
  | S _, EmptyString => EmptyString
  end.

Definition slice (i j : nat) (s : string) : string :=
  slice_to (j - i) (slice_from i s).

Definition endsWith (s suffix : string) : bool :=
  let n := String.length s in
  let m := String.length suffix in
  if (m <=? n)%nat then String.eqb (slice_from (n - m) s) suffix else false.

(** [s.indexOf(c)] for a one-character needle; [None] is [-1]. *)
Fixpoint indexOf_char (c : ascii) (s : string) : option nat :=
  match s with
  | EmptyString => None
  | String d s' =>
      if Ascii.eqb c d then Some O else option_map S (indexOf_char c s')
  end.

(** [s.indexOf(c, from)]. *)
Definition indexOf_from (c : ascii) (from : nat) (s : string) : option nat :=
  option_map (λ i, (from + i)%nat) (indexOf_char c (slice_from from s)).

Fixpoint lastIndexOf_char (c : ascii) (s : string) : option nat :=
  match s with
  | EmptyString => None
  | String d s' =>
      match lastIndexOf_char c s' with
      | Some i => Some (S i)
      | None => if Ascii.eqb c d then Some O else None
      end
  end.

Definition includes_char (c : ascii) (s : string) : bool :=
  match indexOf_char c s with Some _ => true | None => false end.

(** [s.split(c)] for a one-character separator: never empty. *)
Fixpoint split_char (c : ascii) (s : string) : list string :=
  match s with
  | EmptyString => [EmptyString]
  | String d s' =>
      if Ascii.eqb c d then EmptyString :: split_char c s'
      else match split_char c s' with
           | [] => [String d EmptyString]
           | p :: ps => String d p :: ps
           end
  end.

(** [parts.str_join(sep)]. *)
Fixpoint str_join (sep : string) (parts : list string) : string :=
  match parts with
  | [] => EmptyString
  | [p] => p
  | p :: ps => p +:+ sep +:+ str_join sep ps
  end.

Fixpoint repeat_char (c : ascii) (n : nat) : string :=
  match n with O => EmptyString | S n' => String c (repeat_char c n') end.

(** [s.padStart(n, c)]. *)
Definition padStart (n : nat) (c : ascii) (s : string) : string :=
  repeat_char c (n - String.length s) +:+ s.

(** ** Numbers in base 16 *)

(** The lower-case hexadecimal digit of a value below 16. *)
Definition hex_digit (n : Z) : ascii :=
  if n <? 10 then chr (48 + n) else chr (87 + n).

(** The value of a digit accepted by [parseInt(_, 16)]. *)
Definition hex_value (c : ascii) : option Z :=
  let n := code c in
  if (48 <=? n) && (n <=? 57) then Some (n - 48)
  else if (97 <=? n) && (n <=? 102) then Some (n - 87)
  else if (65 <=? n) && (n <=? 70) then Some (n - 55)
  else None.

Fixpoint hex_digits (fuel : nat) (n : Z) (acc : string) : string :=
  match fuel with
  | O => acc
  | S f =>
      let acc' := String (hex_digit (n mod 16)) acc in
      if n <? 16 then acc' else hex_digits f (n / 16) acc'
  end.

(** [n.toString(16)] for an integer. *)
Definition toString16 (n : Z) : string :=
  if n <? 0 then String "-" (hex_digits (S (Z.to_nat (Z.log2 (- n)))) (- n) "")
  else hex_digits (S (Z.to_nat (Z.log2 n))) n "".

(** Decimal printing, [String(n)] for an integer in the exact range. *)
Fixpoint dec_digits (fuel : nat) (n : Z) (acc : string) : string :=
  match fuel with
  | O => acc
  | S f =>
      let acc' := String (chr (48 + n mod 10)) acc in
      if n <? 10 then acc' else dec_digits f (n / 10) acc'
  end.

Definition toString10 (n : Z) : string :=
  if n <? 0 then String "-" (dec_digits (S (Z.to_nat (Z.log2 (- n)))) (- n) "")
  else dec_digits (S (Z.to_nat (Z.log2 n))) n "".

(** White space skipped by [parseInt] (and stripped by [trim]). *)
Definition is_space (c : ascii) : bool :=
  let n := code c in
  ((9 <=? n) && (n <=? 13)) || (n =? 32) || (n =? 160).

Fixpoint trim_start (s : string) : string :=
  match s with
  | String c s' => if is_space c then trim_start s' else s
  | EmptyString => EmptyString
  end.

(** The longest run of digits of [digit], accumulated in base [base];
    [None] when the run is empty. *)
Fixpoint parse_run (base : Z) (digit : ascii → option Z) (s : string)
    (acc : option Z) : option Z :=
  match s with
  | EmptyString => acc
  | String c s' =>
      match digit c with
      | None => acc
      | Some d => parse_run base digit s' (Some (default 0 acc * base + d))
      end
  end.

(** [Number.parseInt(s, 16)]; [None] is [NaN]. *)
Definition parseInt16 (s : string) : option Z :=
  let s := trim_start s in
  let '(neg, s) :=
    match s with
    | String c s' =>
        if Ascii.eqb c "-" then (true, s')
        else if Ascii.eqb c "+" then (false, s') else (false, s)
    | EmptyString => (false, s)
    end in
  let s :=
    match s with
    | String c (String d s') =>
        if Ascii.eqb c "0" && (Ascii.eqb d "x" || Ascii.eqb d "X") then s' else s
    | _ => s
    end in
  match parse_run 16 hex_value s None with
  | None => None
  | Some n => Some (if neg then - n else n)
  end.

Definition dec_value (c : ascii) : option Z :=
  let n := code c in if (48 <=? n) && (n <=? 57) then Some (n - 48) else None.

(** [Number.parseInt(s, 10)]. *)
Definition parseInt10 (s : string) : option Z :=
  let s := trim_start s in
  let '(neg, s) :=
    match s with
    | String c s' =>
        if Ascii.eqb c "-" then (true, s')
        else if Ascii.eqb c "+" then (false, s') else (false, s)
    | EmptyString => (false, s)
    end in
  match parse_run 10 dec_value s None with
  | None => None
  | Some n => Some (if neg then - n else n)
  end.

(** ** Code-unit lemmas *)

(** Evaluate the code units of literal characters. *)
Ltac eval_codes :=
  repeat match goal with
  | |- context [code (Ascii ?a ?b ?c ?d ?e ?f ?g ?h)] =>
      let v := eval vm_compute in (code (Ascii a b c d e f g h)) in
      change (code (Ascii a b c d e f g h)) with v
  end.

Lemma code_range c : 0 <= code c < 256.
Proof. unfold code. pose proof (N_ascii_bounded c). lia. Qed.

Lemma chr_code c : chr (code c) = c.
Proof. unfold chr, code. rewrite N2Z.id. apply ascii_N_embedding. Qed.

Lemma code_chr z : 0 <= z < 256 → code (chr z) = z.
Proof. intros. unfold chr, code. rewrite N_ascii_embedding; lia. Qed.

Lemma code_inj a b : code a = code b → a = b.
Proof. intros H. rewrite <- (chr_code a), <- (chr_code b). by rewrite H. Qed.

Lemma ascii_compare_code a b : Ascii.compare a b = Z.compare (code a) (code b).
Proof. unfold Ascii.compare, code. by rewrite N2Z.inj_compare. Qed.

Lemma chr_inj x y : 0 <= x < 256 → 0 <= y < 256 → chr x = chr y → x = y.
Proof. intros Hx Hy H. rewrite <- (code_chr x), <- (code_chr y) by done. by rewrite H. Qed.

Lemma ascii_eqb_refl c : Ascii.eqb c c = true.
Proof. apply Ascii.eqb_refl. Qed.

Lemma ascii_eqb_ne a b : a ≠ b → Ascii.eqb a b = false.
Proof. intros. by apply Ascii.eqb_neq. Qed.

(** ** Append, length, slices *)

Lemma sapp_nil_r s : s +:+ "" = s.
Proof. induction s as [|c s IH]; simpl; [done|]. by rewrite IH. Qed.

Lemma sapp_assoc a b c : (a +:+ b) +:+ c = a +:+ (b +:+ c).
Proof. induction a as [|x a IH]; simpl; [done|]. by rewrite IH. Qed.

Lemma slength_app a b :
  String.length (a +:+ b) = (String.length a + String.length b)%nat.
Proof. induction a as [|x a IH]; simpl; [done|]. by rewrite IH. Qed.

Lemma sapp_inj_l a b c : a +:+ b = a +:+ c → b = c.
Proof. induction a as [|x a IH]; simpl; [done|]. intros [=]. auto. Qed.

Lemma sapp_inj_len a b a' b' :
  String.length a = String.length a' → a +:+ b = a' +:+ b' → a = a' ∧ b = b'.
Proof.
  revert a'. induction a as [|x a IH]; intros [|x' a'] Hl H; simpl in *; try done.
  injection H as -> H. destruct (IH a') as [-> ->]; auto.
Qed.

Lemma slice_from_app a b : slice_from (String.length a) (a +:+ b) = b.
Proof. induction a as [|x a IH]; simpl; done. Qed.

Lemma slice_from_app_plus n a b :
  slice_from (String.length a + n) (a +:+ b) = slice_from n b.
Proof. induction a as [|x a IH]; simpl; done. Qed.

Lemma slice_to_app a b : slice_to (String.length a) (a +:+ b) = a.
Proof. induction a as [|x a IH]; simpl; [by destruct b|]. by rewrite IH. Qed.

Lemma slice_0_app a b : slice 0 (String.length a) (a +:+ b) = a.
Proof. unfold slice. rewrite Nat.sub_0_r. apply slice_to_app. Qed.

Lemma slice_to_all s : slice_to (String.length s) s = s.
Proof. rewrite <- (sapp_nil_r s) at 2. apply slice_to_app. Qed.

Lemma repeat_char_length c n : String.length (repeat_char c n) = n.
Proof. induction n; simpl; auto. Qed.

Lemma chars_app a b : chars (a +:+ b) = chars a ++ chars b.
Proof. induction a as [|x a IH]; simpl; [done|]. by rewrite IH. Qed.

Lemma chars_length s : length (chars s) = String.length s.
Proof. induction s; simpl; auto. Qed.

Lemma of_chars_chars s : of_chars (chars s) = s.
Proof. induction s as [|c s IH]; simpl; [done|]. by rewrite IH. Qed.

Lemma chars_of_chars l : chars (of_chars l) = l.
Proof. induction l as [|c l IH]; simpl; [done|]. by rewrite IH. Qed.

Lemma chars_inj a b : chars a = chars b → a = b.
Proof. intros H. rewrite <- (of_chars_chars a), <- (of_chars_chars b). by rewrite H. Qed.

(** Every character of [s] satisfies [P]. *)
Definition all_chars (P : ascii → Prop) (s : string) : Prop := Forall P (chars s).

Lemma all_chars_app P a b : all_chars P (a +:+ b) ↔ all_chars P a ∧ all_chars P b.
Proof. unfold all_chars. rewrite chars_app. apply Forall_app. Qed.

Lemma all_chars_impl (P Q : ascii → Prop) s :
  (∀ c, P c → Q c) → all_chars P s → all_chars Q s.
Proof. intros HPQ H. by eapply Forall_impl. Qed.

Lemma all_chars_repeat (P : ascii → Prop) c n : P c → all_chars P (repeat_char c n).
Proof. intros. unfold all_chars. induction n; simpl; constructor; auto. Qed.

(** ** Searching *)

Lemma indexOf_char_app c a b :
  all_chars (λ d, d ≠ c) a →
  indexOf_char c (a +:+ String c b) = Some (String.length a).
Proof.
  unfold all_chars. induction a as [|x a IH]; simpl; intros H.
  - by rewrite ascii_eqb_refl.
  - inversion H as [|? ? Hx Ha]; subst.
    rewrite ascii_eqb_ne by congruence. by rewrite IH.
Qed.

Lemma indexOf_char_none c s :
  all_chars (λ d, d ≠ c) s → indexOf_char c s = None.
Proof.
  unfold all_chars. induction s as [|x s IH]; simpl; intros H; [done|].
  inversion H as [|? ? Hx Hs]; subst.
  rewrite ascii_eqb_ne by congruence. by rewrite IH.
Qed.

Lemma indexOf_from_app c a b d :
  all_chars (λ e, e ≠ c) b →
  indexOf_from c (String.length a) (a +:+ b +:+ String c d)
  = Some (String.length a + String.length b)%nat.
Proof.
  intros H. unfold indexOf_from. rewrite slice_from_app, indexOf_char_app by done. done.
Qed.

Lemma startsWith_iff s p : startsWith s p = true ↔ ∃ t, s = p +:+ t.
Proof.
  revert s. induction p as [|x p IH]; intros s; simpl.
  - split; [intros _; by exists s|by destruct s].
  - destruct s as [|y s]; [split; [done|intros [t Ht]; done]|].
    rewrite andb_true_iff, Ascii.eqb_eq, IH. split.
    + intros [-> [t ->]]. by exists t.
    + intros [t [= -> ->]]. eauto.
Qed.

Lemma startsWith_app a b : startsWith (a +:+ b) a = true.
Proof. apply startsWith_iff. eauto. Qed.

Lemma endsWith_iff s q : endsWith s q = true ↔ ∃ t, s = t +:+ q.
Proof.
  unfold endsWith. split.
  - destruct (_ <=? _)%nat eqn:Hle; [|done]. intros H%String.eqb_eq.
    apply Nat.leb_le in Hle. exists (slice_to (String.length s - String.length q) s).
    rewrite <- H at 2. clear.
    generalize (String.length s - String.length q)%nat as n. intros n.
    revert s. induction n as [|n IH]; intros [|c s]; simpl; try done.
    by rewrite <- IH.
  - intros [t ->]. rewrite slength_app.
    destruct (_ <=? _)%nat eqn:Hle; [|apply Nat.leb_gt in Hle; lia].
    replace (String.length t + String.length q - String.length q)%nat
      with (String.length t) by lia.
    rewrite slice_from_app. apply String.eqb_refl.
Qed.

(** ** Lexicographic order *)

Lemma str_compare_refl s : String.compare s s = Eq.
Proof.
  induction s as [|c s IH]; simpl; [done|].
  by rewrite ascii_compare_code, Z.compare_refl.
Qed.

Lemma str_compare_eq a b : String.compare a b = Eq ↔ a = b.
Proof.
  split; [apply String.compare_eq_iff|]. intros ->. apply str_compare_refl.
Qed.

Lemma str_compare_lt_trans a b c :
  String.compare a b = Lt → String.compare b c = Lt → String.compare a c = Lt.
Proof.
  revert b c. induction a as [|x a IH]; intros [|y b] [|z c]; simpl; try done.
  rewrite !ascii_compare_code.
  destruct (Z.compare_spec (code x) (code y)),
           (Z.compare_spec (code y) (code z)),
           (Z.compare_spec (code x) (code z)); try done; try lia. eauto.
Qed.

Lemma str_ltb_lt a b : str_ltb a b = true ↔ String.compare a b = Lt.
Proof. unfold str_ltb. destruct (String.compare a b); split; done. Qed.

Lemma str_lt_irrefl a : ¬ str_lt a a.
Proof. unfold str_lt, str_ltb. by rewrite str_compare_refl. Qed.

Lemma str_lt_trans a b c : str_lt a b → str_lt b c → str_lt a c.
Proof. unfold str_lt. rewrite !str_ltb_lt. apply str_compare_lt_trans. Qed.

Lemma str_lt_total a b : str_lt a b ∨ a = b ∨ str_lt b a.
Proof.
  unfold str_lt. rewrite !str_ltb_lt, (String.compare_antisym b a).
  destruct (String.compare a b) eqn:E; simpl; auto.
  apply str_compare_eq in E. auto.
Qed.

(** Comparison of two concatenations whose heads have the same length. *)
Lemma str_compare_app a b a' b' :
  String.length a = String.length a' →
  String.compare (a +:+ b) (a' +:+ b') =
  match String.compare a a' with Eq => String.compare b b' | r => r end.
Proof.
  revert a'. induction a as [|x a IH]; intros [|x' a'] Hl; simpl in *; try done.
  destruct (Ascii.compare x x'); auto.
Qed.

(** ** Hexadecimal printing and parsing *)

(** A digit printed by [toString16]: 0-9 or a-f. *)
Definition is_lower_hex (c : ascii) : Prop :=
  48 <= code c <= 57 ∨ 97 <= code c <= 102.

(** The value of a digit string, most significant digit first. *)
Fixpoint hex_val (s : string) (acc : Z) : Z :=
  match s with
  | EmptyString => acc
  | String c s' => hex_val s' (acc * 16 + default 0 (hex_value c))
  end.

Lemma hex_digit_lower n : 0 <= n < 16 → is_lower_hex (hex_digit n).
Proof.
  intros H. unfold is_lower_hex, hex_digit.
  destruct (n <? 10) eqn:E; bprop; rewrite code_chr; lia.
Qed.

Lemma hex_value_digit n : 0 <= n < 16 → hex_value (hex_digit n) = Some n.
Proof.
  intros H. unfold hex_value, hex_digit.
  destruct (n <? 10) eqn:E; bprop; rewrite code_chr by lia.
  - replace ((48 <=? 48 + n) && (48 + n <=? 57)) with true by (symmetry; blia).
    f_equal; lia.
  - replace ((48 <=? 87 + n) && (87 + n <=? 57)) with false by (symmetry; blia).
    replace ((97 <=? 87 + n) && (87 + n <=? 102)) with true by (symmetry; blia).
    f_equal; lia.
Qed.

Lemma hex_value_lower c :
  is_lower_hex c → ∃ d, hex_value c = Some d ∧ 0 <= d < 16
    ∧ d = (if code c <=? 57 then code c - 48 else code c - 87).
Proof.
  unfold is_lower_hex, hex_value. intros H.
  destruct ((48 <=? code c) && (code c <=? 57)) eqn:E1.
  - bprop. eexists; split; [done|]. rewrite (proj2 (Z.leb_le _ _)) by lia. lia.
  - destruct ((97 <=? code c) && (code c <=? 102)) eqn:E2; bprop.
    + eexists; split; [done|]. rewrite (proj2 (Z.leb_gt _ _)) by lia. lia.
    + lia.
Qed.

Lemma hex_val_app a b acc : hex_val (a +:+ b) acc = hex_val b (hex_val a acc).
Proof. revert acc. induction a as [|c a IH]; intros acc; simpl; auto. Qed.

Lemma hex_digits_app fuel n acc :
  hex_digits fuel n acc = hex_digits fuel n "" +:+ acc.
Proof.
  revert n acc. induction fuel as [|f IH]; intros n acc; simpl; [done|].
  destruct (n <? 16); [done|].
  rewrite IH, (IH _ (String _ "")), sapp_assoc. done.
Qed.

Lemma hex_digits_spec fuel n :
  0 <= n < 16 ^ Z.of_nat fuel → (1 <= fuel)%nat →
  let s := hex_digits fuel n "" in
  all_chars is_lower_hex s ∧ hex_val s 0 = n ∧ (1 <= String.length s)%nat
  ∧ ∀ k : nat, (1 <= k)%nat → n < 16 ^ Z.of_nat k → (String.length s <= k)%nat.
Proof.
  revert n. induction fuel as [|f IH]; intros n Hn Hf; [lia|]. cbn [hex_digits].
  assert (0 <= n mod 16 < 16) as Hm by (apply Z.mod_pos_bound; lia).
  destruct (n <? 16) eqn:E; bprop.
  - rewrite Z.mod_small by lia.
    repeat split; cbn [String.length hex_val]; try lia.
    + apply Forall_singleton. apply hex_digit_lower; lia.
    + rewrite hex_value_digit by lia. simpl. lia.
  - destruct f as [|f]; [simpl in Hn; lia|].
    assert (0 <= n / 16 < 16 ^ Z.of_nat (S f)) as Hd.
    { split; [apply Z.div_pos; lia|]. apply Z.div_lt_upper_bound; [lia|].
      rewrite (Nat2Z.inj_succ (S f)), Z.pow_succ_r in Hn by lia. lia. }
    destruct (IH (n / 16) Hd) as (Hc & Hv & Hl1 & Hl); [lia|].
    rewrite hex_digits_app. repeat split.
    + apply all_chars_app. split; [done|]. apply Forall_singleton. by apply hex_digit_lower.
    + rewrite hex_val_app, Hv. cbn [hex_val]. rewrite hex_value_digit by done.
      simpl. pose proof (Z.div_mod n 16). lia.
    + rewrite slength_app. lia.
    + intros k Hk Hnk. rewrite slength_app.
      destruct k as [|[|k]]; [lia|simpl in Hnk; lia|].
      cut (String.length (hex_digits (S f) (n / 16) "") <= S k)%nat;
        [cbn [String.length]; lia|].
      apply Hl; [lia|]. apply Z.div_lt_upper_bound; [lia|].
      rewrite (Nat2Z.inj_succ (S k)), Z.pow_succ_r in Hnk by lia. lia.
Qed.

Lemma log2_fuel_16 n : 0 <= n → n < 16 ^ Z.of_nat (S (Z.to_nat (Z.log2 n))).
Proof.
  intros Hn. destruct (decide (n = 0)) as [->|Hne]; [done|].
  rewrite Nat2Z.inj_succ, Z2Nat.id by apply Z.log2_nonneg.
  pose proof (Z.log2_spec n ltac:(lia)) as [_ H].
  eapply Z.lt_le_trans; [exact H|].
  apply Z.pow_le_mono_l. pose proof (Z.log2_nonneg n). lia.
Qed.

Lemma toString16_spec n :
  0 <= n →
  all_chars is_lower_hex (toString16 n) ∧ hex_val (toString16 n) 0 = n
  ∧ (1 <= String.length (toString16 n))%nat
  ∧ ∀ k : nat, (1 <= k)%nat → n < 16 ^ Z.of_nat k →
      (String.length (toString16 n) <= k)%nat.
Proof.
  intros Hn. unfold toString16. rewrite (proj2 (Z.ltb_ge n 0)) by lia.
  apply hex_digits_spec; [split; [done|by apply log2_fuel_16]|lia].
Qed.

Lemma parse_run_hex s t a :
  all_chars is_lower_hex s →
  parse_run 16 hex_value (s +:+ t) (Some a)
  = parse_run 16 hex_value t (Some (hex_val s a)).
Proof.
  unfold all_chars. revert a. induction s as [|c s IH]; intros a H; simpl in *; [done|].
  inversion H as [|? ? Hc Hs]; subst.
  destruct (hex_value_lower c Hc) as (d & Hd & _). rewrite Hd. simpl. auto.
Qed.

Lemma lower_hex_not c d : is_lower_hex c →
  (code d < 48 ∨ 57 < code d < 97 ∨ 102 < code d) → Ascii.eqb c d = false.
Proof. intros Hc Hd. apply ascii_eqb_ne. intros ->. unfold is_lower_hex in Hc. lia. Qed.

Lemma hex_not_space c : is_lower_hex c → is_space c = false.
Proof. unfold is_lower_hex, is_space. intros H. destruct (_ || _) eqn:E; [|done]. bprop.
  destruct E as [E|E]; [apply orb_true_iff in E as [E|E]|]; blia. Qed.

(** [parseInt(s, 16)] reads a whole non-empty string of printed digits. *)
Lemma parseInt16_hex s :
  all_chars is_lower_hex s → (1 <= String.length s)%nat →
  parseInt16 s = Some (hex_val s 0).
Proof.
  intros Hs Hl. destruct s as [|c s]; [simpl in Hl; lia|].
  pose proof Hs as Hs0. inversion Hs as [|? ? Hc Hs']; subst.
  unfold parseInt16. cbn [trim_start]. rewrite (hex_not_space c Hc).
  rewrite (lower_hex_not c "-"), (lower_hex_not c "+") by (done || (eval_codes; lia)).
  assert (∀ d, is_lower_hex d → Ascii.eqb d "x" || Ascii.eqb d "X" = false) as Hx.
  { intros d Hd. by rewrite !(lower_hex_not d) by (done || (eval_codes; lia)). }
  assert (parse_run 16 hex_value (String c s) None = Some (hex_val (String c s) 0)) as Hr.
  { cbn [parse_run]. destruct (hex_value_lower c Hc) as (d & Hd & _). rewrite Hd.
    rewrite <- (sapp_nil_r s), parse_run_hex by done. simpl. rewrite Hd. simpl.
    by rewrite sapp_nil_r. }
  destruct s as [|d s]; [by rewrite Hr|].
  inversion Hs' as [|? ? Hd _]; subst. rewrite Hx, andb_false_r, Hr by done. done.
Qed.

(** Padding with zeros changes neither the value nor the digit class. *)
Lemma hex_pad k n :
  0 <= n < 16 ^ Z.of_nat k → (1 <= k)%nat →
  let s := padStart k "0" (toString16 n) in
  String.length s = k ∧ all_chars is_lower_hex s ∧ hex_val s 0 = n.
Proof.
  intros Hn Hk. destruct (toString16_spec n) as (Hc & Hv & _ & Hl); [lia|].
  specialize (Hl k Hk ltac:(lia)). unfold padStart. simpl. repeat split.
  - rewrite slength_app, repeat_char_length. lia.
  - apply all_chars_app. split; [|done]. apply all_chars_repeat. left. eval_codes. lia.
  - rewrite hex_val_app. assert (∀ m, hex_val (repeat_char "0" m) 0 = 0) as ->; [|done].
    intros m. induction m; simpl; auto.
Qed.

(** Digit strings of equal length compare as the numbers they denote. *)
Lemma hex_val_lt s t a b :
  String.length s = String.length t →
  all_chars is_lower_hex s → all_chars is_lower_hex t →
  a < b → hex_val s a < hex_val t b.
Proof.
  unfold all_chars. revert t a b.
  induction s as [|c s IH]; intros [|d t] a b Hl Hs Ht Hab; simpl in *; try done.
  inversion Hs as [|? ? Hc Hs']; inversion Ht as [|? ? Hd Ht']; subst.
  destruct (hex_value_lower c Hc) as (x & -> & Hxr & _).
  destruct (hex_value_lower d Hd) as (y & -> & Hyr & _).
  apply IH; auto. simpl. lia.
Qed.

Lemma lower_hex_code_compare c d x y :
  is_lower_hex c → is_lower_hex d →
  hex_value c = Some x → hex_value d = Some y →
  (code c ?= code d) = (x ?= y).
Proof.
  intros Hc Hd Hx Hy.
  destruct (hex_value_lower c Hc) as (x' & Hx' & _ & Hxc).
  destruct (hex_value_lower d Hd) as (y' & Hy' & _ & Hyc).
  simplify_eq. unfold is_lower_hex in *.
  destruct (code c <=? 57) eqn:?, (code d <=? 57) eqn:?; bprop; 
    destruct (Z.compare_spec (code c) (code d)); symmetry;
    rewrite ?Z.compare_eq_iff, ?Z.compare_lt_iff, ?Z.compare_gt_iff; lia.
Qed.

Lemma hex_compare_acc s t a :
  String.length s = String.length t →
  all_chars is_lower_hex s → all_chars is_lower_hex t →
  String.compare s t = Z.compare (hex_val s a) (hex_val t a).
Proof.
  unfold all_chars. revert t a.
  induction s as [|c s IH]; intros [|d t] a Hl Hs Ht; simpl in *; try done.
  { by rewrite Z.compare_refl. }
  inversion Hs as [|? ? Hc Hs']; inversion Ht as [|? ? Hd Ht']; subst.
  destruct (hex_value_lower c Hc) as (x & Hx & _).
  destruct (hex_value_lower d Hd) as (y & Hy & _).
  rewrite ascii_compare_code, (lower_hex_code_compare c d x y), Hx, Hy by done. simpl.
  destruct (Z.compare_spec x y) as [->|Hlt|Hgt]; symmetry.
  - by rewrite (IH t (a * 16 + y)) by auto.
  - apply Z.compare_lt_iff, hex_val_lt; [lia|done..|lia].
  - apply Z.compare_gt_iff, hex_val_lt; [lia|done..|lia].
Qed.

Lemma hex_compare s t :
  String.length s = String.length t →
  all_chars is_lower_hex s → all_chars is_lower_hex t →
  String.compare s t = Z.compare (hex_val s 0) (hex_val t 0).
Proof. apply hex_compare_acc. Qed.

(** A printed number contains none of the separators the sources split on. *)
Lemma lower_hex_sep s (d : ascii) :
  all_chars is_lower_hex s → (code d < 48 ∨ 57 < code d < 97 ∨ 102 < code d) →
  all_chars (λ c, c ≠ d) s.
Proof.
  intros H Hd. eapply all_chars_impl; [|exact H]. intros c Hc ->.
  unfold is_lower_hex in Hc. lia.
Qed.

(** ** Splitting *)

Definition no_char (c : ascii) (s : string) : Prop := all_chars (λ d, d ≠ c) s.

Lemma split_char_no_sep c s p : p ∈ split_char c s → no_char c p.
Proof.
  unfold no_char, all_chars. revert p. induction s as [|d s IH]; intros p; simpl.
  { intros ->%list_elem_of_singleton. constructor. }
  destruct (Ascii.eqb_spec c d) as [->|Hne].
  - intros [->|Hp]%elem_of_cons; [constructor|by apply IH].
  - destruct (split_char c s) as [|q qs].
    + intros ->%list_elem_of_singleton. by repeat constructor.
    + intros [->|Hp]%elem_of_cons; [|apply IH; by right].
      constructor; [done|]. apply IH. left.
Qed.

Lemma split_char_sub c s p x : p ∈ split_char c s → x ∈ chars p → x ∈ chars s.
Proof.
  revert p. induction s as [|d s IH]; intros p; simpl.
  { intros ->%list_elem_of_singleton. done. }
  destruct (Ascii.eqb_spec c d) as [->|Hne].
  - intros [->|Hp]%elem_of_cons Hx; [by apply not_elem_of_nil in Hx|]. right. by eapply IH.
  - destruct (split_char c s) as [|q qs].
    + intros ->%list_elem_of_singleton [->|Hx%not_elem_of_nil]%elem_of_cons; [left|done].
    + intros [->|Hp]%elem_of_cons Hx; [|right; eapply IH; [by right|done]].
      apply elem_of_cons in Hx as [->|Hx]; [left|right]. eapply IH; [left|done].
Qed.

Lemma split_char_app c a b : no_char c a → split_char c (a +:+ String c b) = a :: split_char c b.
Proof.
  intros Ha. induction a as [|d a IH]; simpl; [by rewrite ascii_eqb_refl|].
  apply Forall_cons in Ha as [Hd Ha]. rewrite ascii_eqb_ne by done. by rewrite IH.
Qed.

Lemma split_char_one c a : no_char c a → split_char c a = [a].
Proof.
  intros Ha. induction a as [|d a IH]; simpl; [done|].
  apply Forall_cons in Ha as [Hd Ha]. rewrite ascii_eqb_ne by done. by rewrite IH.
Qed.

Lemma split_join c ps :
  ps ≠ [] → Forall (no_char c) ps → split_char c (str_join (String c "") ps) = ps.
Proof.
  induction ps as [|p ps IH]; [done|]. intros _ [Hp Hps]%Forall_cons.
  destruct ps as [|p' ps]; [by apply split_char_one|].
  change (str_join (String c "") (p :: p' :: ps)) with (p +:+ String c (str_join (String c "") (p' :: ps))).
  rewrite split_char_app by done. by rewrite IH.
Qed.
