(* ===== verification/JsMap.v ===== *)
(** * JavaScript's [Map]: a finite map that iterates in insertion order.

    [set] on a present key keeps its position, [set] on a fresh key appends,
    [delete] removes the entry.  The laws below are the only facts the
    components use. *)

From S2P Require Export Prelude.

Section JsMap.
Context {K : Type} `{EqDecision K} {V : Type}.

(** The entries, oldest insertion first. *)
Definition jsmap : Type := list (K * V).

Definition jsmap_empty : jsmap := [].

Fixpoint map_get (k : K) (m : jsmap) : option V :=
  match m with
  | [] => None
  | (k', v) :: m' => if decide (k = k') then Some v else map_get k m'
  end.

Definition map_has (k : K) (m : jsmap) : bool :=
  match map_get k m with Some _ => true | None => false end.

Fixpoint map_set (k : K) (v : V) (m : jsmap) : jsmap :=
  match m with
  | [] => [(k, v)]
  | (k', v') :: m' =>
      if decide (k = k') then (k, v) :: m' else (k', v') :: map_set k v m'
  end.

Definition map_delete (k : K) (m : jsmap) : jsmap :=
  List.filter (λ '(k', _), negb (bool_decide (k = k'))) m.

Definition map_keys (m : jsmap) : list K := map fst m.
Definition map_values (m : jsmap) : list V := map snd m.
Definition map_size (m : jsmap) : nat := length m.

(** Keys are distinct: the invariant every operation keeps. *)
Definition map_wf (m : jsmap) : Prop := NoDup (map_keys m).

(** ** Laws *)

Lemma map_get_empty k : map_get k jsmap_empty = None.
Proof. done. Qed.

Lemma map_get_set_eq k v m : map_get k (map_set k v m) = Some v.
Proof.
  induction m as [|[k' v'] m IH]; simpl; [by rewrite decide_True|].
  destruct (decide (k = k')); simpl; [by rewrite decide_True|by rewrite decide_False].
Qed.

Lemma map_get_set_ne k k' v m : k ≠ k' → map_get k' (map_set k v m) = map_get k' m.
Proof.
  intros Hne. induction m as [|[k1 v1] m IH]; simpl; [by rewrite decide_False|].
  destruct (decide (k = k1)) as [<-|]; simpl; [by rewrite !decide_False|].
  destruct (decide (k' = k1)); done.
Qed.

Lemma map_get_set k k' v m :
  map_get k' (map_set k v m) = if decide (k = k') then Some v else map_get k' m.
Proof.
  destruct (decide (k = k')) as [<-|]; [apply map_get_set_eq|by apply map_get_set_ne].
Qed.

Lemma map_get_delete_eq k m : map_get k (map_delete k m) = None.
Proof.
  induction m as [|[k' v'] m IH]; simpl; [done|].
  case_bool_decide as E; simpl; [done|]. by rewrite decide_False.
Qed.

Lemma map_get_delete_ne k k' m : k ≠ k' → map_get k' (map_delete k m) = map_get k' m.
Proof.
  intros Hne. induction m as [|[k1 v1] m IH]; simpl; [done|].
  case_bool_decide as E; simpl.
  - subst k1. by rewrite decide_False.
  - destruct (decide (k' = k1)); done.
Qed.

Lemma map_get_delete k k' m :
  map_get k' (map_delete k m) = if decide (k = k') then None else map_get k' m.
Proof.
  destruct (decide (k = k')) as [<-|]; [apply map_get_delete_eq|by apply map_get_delete_ne].
Qed.

Lemma map_get_In k v m : map_get k m = Some v → (k, v) ∈ m.
Proof.
  induction m as [|[k' v'] m IH]; simpl; [done|].
  destruct (decide (k = k')) as [->|]; [intros [= ->]; left|].
  intros. right. auto.
Qed.

Lemma map_In_get k v m : map_wf m → (k, v) ∈ m → map_get k m = Some v.
Proof.
  unfold map_wf, map_keys. induction m as [|[k' v'] m IH]; simpl; intros Hnd Hin;
    [by apply not_elem_of_nil in Hin|].
  apply NoDup_cons in Hnd as [Hk Hnd].
  apply elem_of_cons in Hin as [[= -> ->]|Hin]; [by rewrite decide_True|].
  rewrite decide_False; [auto|]. intros ->. apply Hk.
  apply list_elem_of_fmap. by exists (k', v).
Qed.

Lemma map_get_keys k m : is_Some (map_get k m) ↔ k ∈ map_keys m.
Proof.
  unfold map_keys. induction m as [|[k' v'] m IH]; simpl.
  - split; [by intros [? ?]|by intros ?%not_elem_of_nil].
  - rewrite elem_of_cons. destruct (decide (k = k')) as [->|]; [by split; eauto|].
    rewrite IH. split; [auto|intros [?|?]; [congruence|done]].
Qed.

Lemma map_keys_set k v m k' :
  k' ∈ map_keys (map_set k v m) ↔ k' = k ∨ k' ∈ map_keys m.
Proof.
  rewrite <- !map_get_keys, map_get_set.
  destruct (decide (k = k')) as [->|].
  - split; eauto.
  - split; [auto|intros [?|?]; [congruence|done]].
Qed.

Lemma map_delete_absent k m : map_get k m = None → map_delete k m = m.
Proof.
  unfold map_delete. induction m as [|[k' v'] m IH]; simpl; [done|].
  destruct (decide (k = k')) as [->|Hne]; [done|]. intros Hk.
  rewrite bool_decide_false by done. simpl. by rewrite IH.
Qed.

Lemma map_delete_set_fresh k v m : map_get k m = None → map_delete k (map_set k v m) = m.
Proof.
  intros Hk. unfold map_delete. induction m as [|[k' v'] m IH]; simpl in *.
  - by rewrite bool_decide_true.
  - destruct (decide (k = k')) as [->|Hne]; [done|]. simpl.
    rewrite bool_decide_false by done. simpl. by rewrite IH.
Qed.

Lemma map_set_set k v v' m : map_set k v (map_set k v' m) = map_set k v m.
Proof.
  induction m as [|[k1 v1] m IH]; simpl; [by rewrite decide_True|].
  destruct (decide (k = k1)) as [->|]; simpl; [by rewrite decide_True|].
  rewrite decide_False by done. by rewrite IH.
Qed.

Lemma map_wf_empty : map_wf jsmap_empty.
Proof. constructor. Qed.

Lemma map_wf_set k v m : map_wf m → map_wf (map_set k v m).
Proof.
  unfold map_wf. induction m as [|[k' v'] m IH]; simpl; intros H.
  - apply NoDup_singleton.
  - apply NoDup_cons in H as [Hk Hnd].
    destruct (decide (k = k')) as [->|Hne]; simpl; apply NoDup_cons; [done|].
    split; [|auto]. rewrite map_keys_set. intros [?|?]; congruence.
Qed.

Lemma map_wf_filter (f : K * V → bool) m : map_wf m → map_wf (List.filter f m).
Proof.
  unfold map_wf, map_keys. induction m as [|x m IH]; simpl; intros H; [constructor|].
  apply NoDup_cons in H as [Hk Hnd]. destruct (f x); simpl; [|auto].
  apply NoDup_cons. split; [|auto]. intros Hin. apply Hk.
  apply list_elem_of_fmap in Hin as (y & -> & Hy). apply list_elem_of_fmap.
  exists y. split; [done|]. by apply In_filter_iff in Hy as [? _].
Qed.

Lemma map_wf_delete k m : map_wf m → map_wf (map_delete k m).
Proof. apply map_wf_filter. Qed.

Lemma map_get_filter (f : K * V → bool) k m :
  map_wf m →
  map_get k (List.filter f m) =
  match map_get k m with
  | Some v => if f (k, v) then Some v else None
  | None => None
  end.
Proof.
  unfold map_wf. induction m as [|[k' v'] m IH]; simpl; intros H; [done|].
  apply NoDup_cons in H as [Hk Hnd].
  destruct (decide (k = k')) as [<-|Hne].
  - destruct (f (k, v')); simpl; [by rewrite decide_True|].
    rewrite IH by done. destruct (map_get k m) eqn:E; [|done].
    exfalso. apply Hk, map_get_keys. eauto.
  - destruct (f (k', v')); simpl; [rewrite decide_False by done|]; auto.
Qed.

Lemma map_values_get v m : map_wf m → v ∈ map_values m ↔ ∃ k, map_get k m = Some v.
Proof.
  intros Hwf. unfold map_values. rewrite list_elem_of_fmap. split.
  - intros ([k v'] & -> & Hin). exists k. by apply map_In_get.
  - intros [k Hk]. exists (k, v). split; [done|]. by apply map_get_In.
Qed.

Lemma map_size_delete k m : (map_size (map_delete k m) <= map_size m)%nat.
Proof.
  unfold map_size, map_delete. induction m as [|[k' v'] m IH]; simpl; [done|].
  case_bool_decide; simpl; lia.
Qed.

Lemma map_size_delete_in k m :
  is_Some (map_get k m) → (map_size (map_delete k m) < map_size m)%nat.
Proof.
  unfold map_size, map_delete. induction m as [|[k' v'] m IH]; simpl;
    [by intros [? ?]|].
  destruct (decide (k = k')) as [->|]; intros H.
  - rewrite bool_decide_true by done. simpl.
    pose proof (map_size_delete k' m). unfold map_size, map_delete in *. lia.
  - rewrite bool_decide_false by done. simpl. apply IH in H. lia.
Qed.

Lemma map_size_set k v m : (map_size (map_set k v m) <= S (map_size m))%nat.
Proof.
  unfold map_size. induction m as [|[k' v'] m IH]; simpl; [done|].
  destruct (decide _); simpl; lia.
Qed.
End JsMap.

Arguments jsmap : clear implicits.
#[export] Hint Resolve map_wf_empty map_wf_set map_wf_delete map_wf_filter : suma.
#[export] Hint Rewrite @map_get_set_eq @map_get_delete_eq @map_get_empty : suma.
