(* ===== verification/Hlc.v ===== *)
(** * Hybrid logical clocks (packages/protocol/src/hlc.ts)

    Timestamps, their total order, the sortable string form, and the clock
    that issues and merges them.  Integers are JavaScript numbers in the exact
    range; [compareHlc] returns -1, 0 or 1 as the source does. *)

From S2P Require Export JsString.
From Stdlib Require Import Ascii Sorting.Permutation.
From Stdlib Require Import Structures.Orders Structures.OrdersTac.

(** ** Data *)

Record Hlc := mkHlc {
  physicalMs : Z;
  logical : Z;
  deviceId : string
}.

#[export] Instance Hlc_eq_dec : EqDecision Hlc.
Proof. solve_decision. Defined.

Definition MAX_CLOCK_DRIFT_MS : Z := 60000.

(** ** Order *)

Definition compareHlc (a b : Hlc) : Z :=
  if negb (physicalMs a =? physicalMs b) then
    if physicalMs a <? physicalMs b then -1 else 1
  else if negb (logical a =? logical b) then
    if logical a <? logical b then -1 else 1
  else if negb (String.eqb (deviceId a) (deviceId b)) then
    if str_ltb (deviceId a) (deviceId b) then -1 else 1
  else 0.

Definition hlcEquals (a b : Hlc) : bool := compareHlc a b =? 0.

(** ** The sortable string form *)

Definition encodeHlc (h : Hlc) : string :=
  let p := padStart 14 "0" (toString16 (physicalMs h)) in
  let l := padStart 8 "0" (toString16 (logical h)) in
  p +:+ "-" +:+ l +:+ "-" +:+ deviceId h.

(** [None] is the thrown [malformed HLC] error. *)
Definition decodeHlc (s : string) : option Hlc :=
  match indexOf_char "-" s with
  | None => None
  | Some first =>
      match indexOf_from "-" (S first) s with
      | None => None
      | Some second =>
          if negb (Nat.eqb first 14) || negb (Nat.eqb second 23) then None
          else
            let physical := parseInt16 (slice 0 first s) in
            let logic := parseInt16 (slice (S first) second s) in
            let device := slice_from (S second) s in
            match physical, logic with
            | Some p, Some l =>
                if (String.length device =? 0)%nat then None
                else Some (mkHlc p l device)
            | _, _ => None
            end
      end
  end.

(** ** The clock *)

Record HlcClock := mkClock {
  clockDevice : string;
  lastPhysicalMs : Z;
  lastLogical : Z
}.

Definition newClock (device : string) : HlcClock := mkClock device 0 0.

(** [send]: a timestamp for a local event, at wall time [wall]. *)
Definition clock_send (wall : Z) (c : HlcClock) : Hlc * HlcClock :=
  let c' :=
    if wall >? lastPhysicalMs c
    then mkClock (clockDevice c) wall 0
    else mkClock (clockDevice c) (lastPhysicalMs c) (lastLogical c + 1) in
  (mkHlc (lastPhysicalMs c') (lastLogical c') (clockDevice c), c').

(** [receive]: merge a remote timestamp, clamped to the drift bound. *)
Definition clock_receive (wall : Z) (remote : Hlc) (c : HlcClock) : Hlc * HlcClock :=
  let remotePhysical := Z.min (physicalMs remote) (wall + MAX_CLOCK_DRIFT_MS) in
  let maxPhysical := Z.max (Z.max wall remotePhysical) (lastPhysicalMs c) in
  let logic :=
    if (maxPhysical =? lastPhysicalMs c) && (maxPhysical =? remotePhysical) then
      Z.max (lastLogical c) (logical remote) + 1
    else if maxPhysical =? lastPhysicalMs c then lastLogical c + 1
    else if maxPhysical =? remotePhysical then logical remote + 1
    else 0 in
  (mkHlc maxPhysical logic (clockDevice c),
   mkClock (clockDevice c) maxPhysical logic).

(** [restore]: persisted clock state never moves the clock backwards. *)
Definition clock_restore (last : Hlc) (c : HlcClock) : HlcClock :=
  if (physicalMs last >? lastPhysicalMs c)
     || ((physicalMs last =? lastPhysicalMs c) && (logical last >? lastLogical c))
  then mkClock (clockDevice c) (physicalMs last) (logical last)
  else c.

(** The events a clock sees, each at its wall time, and the run over them:
    the timestamps issued, oldest first, and the final clock. *)
Inductive ClockEvent :=
| EvSend (wall : Z)
| EvReceive (wall : Z) (remote : Hlc)
| EvRestore (last : Hlc).

Definition clock_step (e : ClockEvent) (c : HlcClock) : list Hlc * HlcClock :=
  match e with
  | EvSend wall => let '(h, c') := clock_send wall c in ([h], c')
  | EvReceive wall remote => let '(h, c') := clock_receive wall remote c in ([h], c')
  | EvRestore last => ([], clock_restore last c)
  end.

Fixpoint clock_run (es : list ClockEvent) (c : HlcClock) : list Hlc * HlcClock :=
  match es with
  | [] => ([], c)
  | e :: es' =>
      let '(hs, c1) := clock_step e c in
      let '(hs', c2) := clock_run es' c1 in (hs ++ hs', c2)
  end.

(** ** The total order *)

Definition hlc_lt (a b : Hlc) : Prop := compareHlc a b < 0.
Definition hlc_le (a b : Hlc) : Prop := compareHlc a b <= 0.

(** The ranges for which the string form is fixed width. *)
Definition hlc_bounded (h : Hlc) : Prop :=
  0 <= physicalMs h < 16 ^ 14 ∧ 0 <= logical h < 16 ^ 8.

Lemma compareHlc_alt a b :
  compareHlc a b =
  match Z.compare (physicalMs a) (physicalMs b) with
  | Lt => -1 | Gt => 1
  | Eq =>
      match Z.compare (logical a) (logical b) with
      | Lt => -1 | Gt => 1
      | Eq =>
          match String.compare (deviceId a) (deviceId b) with
          | Lt => -1 | Gt => 1 | Eq => 0
          end
      end
  end.
Proof.
  unfold compareHlc, str_ltb.
  destruct (Z.compare_spec (physicalMs a) (physicalMs b)) as [->|H|H].
  2-3: rewrite (proj2 (Z.eqb_neq _ _)) by lia; simpl;
       destruct (_ <? _) eqn:?; blia.
  rewrite Z.eqb_refl. simpl.
  destruct (Z.compare_spec (logical a) (logical b)) as [->|H|H].
  2-3: rewrite (proj2 (Z.eqb_neq _ _)) by lia; simpl;
       destruct (_ <? _) eqn:?; blia.
  rewrite Z.eqb_refl. simpl.
  destruct (String.compare (deviceId a) (deviceId b)) eqn:E.
  - apply str_compare_eq in E as ->. by rewrite String.eqb_refl.
  - destruct (String.eqb_spec (deviceId a) (deviceId b)) as [H|]; [|done].
    rewrite H, str_compare_refl in E. done.
  - destruct (String.eqb_spec (deviceId a) (deviceId b)) as [H|]; [|done].
    rewrite H, str_compare_refl in E. done.
Qed.

Lemma compareHlc_refl a : compareHlc a a = 0.
Proof. by rewrite compareHlc_alt, !Z.compare_refl, str_compare_refl. Qed.

Lemma compareHlc_eq a b : compareHlc a b = 0 → a = b.
Proof.
  rewrite compareHlc_alt. destruct a as [pa la da], b as [pb lb db]; simpl.
  destruct (Z.compare_spec pa pb) as [->| |], (Z.compare_spec la lb) as [->| |]; try done.
  destruct (String.compare da db) eqn:E; try done. by apply str_compare_eq in E as ->.
Qed.

Lemma compareHlc_antisym a b : compareHlc b a = - compareHlc a b.
Proof.
  rewrite (compareHlc_alt a), (compareHlc_alt b).
  rewrite (Z.compare_antisym (physicalMs a) (physicalMs b)).
  rewrite (Z.compare_antisym (logical a) (logical b)).
  rewrite (String.compare_antisym (deviceId b) (deviceId a)).
  destruct (physicalMs a ?= physicalMs b), (logical a ?= logical b),
    (String.compare (deviceId a) (deviceId b)); done.
Qed.

Lemma hlc_lt_iff a b :
  hlc_lt a b ↔
  physicalMs a < physicalMs b
  ∨ physicalMs a = physicalMs b ∧
    (logical a < logical b
     ∨ logical a = logical b ∧ str_lt (deviceId a) (deviceId b)).
Proof.
  unfold hlc_lt, str_lt. rewrite compareHlc_alt, str_ltb_lt.
  destruct (Z.compare_spec (physicalMs a) (physicalMs b)),
    (Z.compare_spec (logical a) (logical b)),
    (String.compare (deviceId a) (deviceId b)); intuition (try lia; try done).
Qed.

Lemma hlc_lt_irrefl a : ¬ hlc_lt a a.
Proof. unfold hlc_lt. rewrite compareHlc_refl. lia. Qed.

Lemma hlc_lt_trans a b c : hlc_lt a b → hlc_lt b c → hlc_lt a c.
Proof.
  rewrite !hlc_lt_iff. intros H1 H2.
  destruct H1 as [|(? & [|[? ?]])], H2 as [|(? & [|[? ?]])]; try lia.
  right. split; [lia|]. right. split; [lia|]. by eapply str_lt_trans.
Qed.

(** Three-way case analysis on a comparison. *)
Lemma compareHlc_cases a b :
  (compareHlc a b = -1 ∧ hlc_lt a b) ∨ (compareHlc a b = 0 ∧ a = b)
  ∨ (compareHlc a b = 1 ∧ hlc_lt b a).
Proof.
  pose proof (compareHlc_antisym a b) as Ha. unfold hlc_lt.
  assert (compareHlc a b = -1 ∨ compareHlc a b = 0 ∨ compareHlc a b = 1) as Hc.
  { rewrite compareHlc_alt. repeat case_match; lia. }
  destruct Hc as [H|[H|H]]; [left; lia|right; left|right; right; lia].
  split; [done|]. by apply compareHlc_eq.
Qed.

Module HlcEq.
Definition t := Hlc.
Definition eq := @eq Hlc.
Definition lt := hlc_lt.
Definition le := hlc_le.
End HlcEq.

Module HlcTotal.
Definition eq_equiv : Equivalence (@eq Hlc) := eq_equivalence.
Lemma lt_strorder : StrictOrder hlc_lt.
Proof. split; [intros ?; apply hlc_lt_irrefl|intros ???; apply hlc_lt_trans]. Qed.
Lemma lt_compat : Proper (eq ==> eq ==> iff) hlc_lt.
Proof. by intros ?? -> ?? ->. Qed.
Lemma lt_total : ∀ x y, hlc_lt x y ∨ x = y ∨ hlc_lt y x.
Proof. intros x y. destruct (compareHlc_cases x y) as [[_ ?]|[[_ ?]|[_ ?]]]; auto. Qed.
Lemma le_lteq : ∀ x y, hlc_le x y ↔ hlc_lt x y ∨ x = y.
Proof.
  intros x y. unfold hlc_le, hlc_lt. split.
  - destruct (compareHlc_cases x y) as [[? ?]|[[? ->]|[? ?]]]; auto; lia.
  - intros [?| ->]; [lia|]. rewrite compareHlc_refl. lia.
Qed.
End HlcTotal.

(** [HlcOrder.order] decides goals about [hlc_lt], [hlc_le] and [=]. *)
Module HlcOrder := MakeOrderTac HlcEq HlcTotal.

Ltac hlc_order := change hlc_lt with HlcEq.lt in *; change hlc_le with HlcEq.le in *;
  HlcOrder.order.

(** The tests the sources write, as facts of the order. *)
Lemma compareHlc_gtb a b : (compareHlc a b >? 0) = true ↔ hlc_lt b a.
Proof.
  rewrite Z.gtb_ltb, Z.ltb_lt. unfold hlc_lt. rewrite (compareHlc_antisym a b). lia.
Qed.

Lemma compareHlc_gtb_false a b : (compareHlc a b >? 0) = false ↔ hlc_le a b.
Proof. rewrite Z.gtb_ltb, Z.ltb_ge. done. Qed.

Lemma compareHlc_geb a b : (compareHlc a b >=? 0) = true ↔ hlc_le b a.
Proof. rewrite Z.geb_leb, Z.leb_le. unfold hlc_le. rewrite (compareHlc_antisym a b). lia. Qed.

Lemma compareHlc_geb_false a b : (compareHlc a b >=? 0) = false ↔ hlc_lt a b.
Proof. rewrite Z.geb_leb, Z.leb_gt. done. Qed.

Lemma compareHlc_leb a b : (compareHlc a b <=? 0) = true ↔ hlc_le a b.
Proof. rewrite Z.leb_le. done. Qed.

Lemma compareHlc_leb_false a b : (compareHlc a b <=? 0) = false ↔ hlc_lt b a.
Proof. rewrite Z.leb_gt. unfold hlc_lt. rewrite (compareHlc_antisym a b). lia. Qed.

Lemma compareHlc_ltb a b : (compareHlc a b <? 0) = true ↔ hlc_lt a b.
Proof. rewrite Z.ltb_lt. done. Qed.

Lemma compareHlc_ltb_false a b : (compareHlc a b <? 0) = false ↔ hlc_le b a.
Proof. rewrite Z.ltb_ge. unfold hlc_le. rewrite (compareHlc_antisym a b). lia. Qed.

Lemma compareHlc_eqb a b : (compareHlc a b =? 0) = true ↔ a = b.
Proof.
  rewrite Z.eqb_eq. split; [apply compareHlc_eq|]. intros ->. apply compareHlc_refl.
Qed.

Lemma compareHlc_eqb_false a b : (compareHlc a b =? 0) = false ↔ a ≠ b.
Proof. rewrite <- not_true_iff_false, compareHlc_eqb. done. Qed.

(** Turn every comparison test in the context into a fact of the order. *)
Ltac hlc_prop :=
  repeat match goal with
  | H : (compareHlc _ _ >? 0) = true |- _ => apply compareHlc_gtb in H
  | H : (compareHlc _ _ >? 0) = false |- _ => apply compareHlc_gtb_false in H
  | H : (compareHlc _ _ >=? 0) = true |- _ => apply compareHlc_geb in H
  | H : (compareHlc _ _ >=? 0) = false |- _ => apply compareHlc_geb_false in H
  | H : (compareHlc _ _ <=? 0) = true |- _ => apply compareHlc_leb in H
  | H : (compareHlc _ _ <=? 0) = false |- _ => apply compareHlc_leb_false in H
  | H : (compareHlc _ _ <? 0) = true |- _ => apply compareHlc_ltb in H
  | H : (compareHlc _ _ <? 0) = false |- _ => apply compareHlc_ltb_false in H
  | H : (compareHlc _ _ =? 0) = true |- _ => apply compareHlc_eqb in H
  | H : (compareHlc _ _ =? 0) = false |- _ => apply compareHlc_eqb_false in H
  end.

Lemma hlc_le_refl a : hlc_le a a.
Proof. hlc_order. Qed.

Lemma hlc_le_trans a b c : hlc_le a b → hlc_le b c → hlc_le a c.
Proof. intros. hlc_order. Qed.

Lemma hlc_lt_le a b : hlc_lt a b → hlc_le a b.
Proof. intros. hlc_order. Qed.

Lemma hlc_le_antisym a b : hlc_le a b → hlc_le b a → a = b.
Proof. intros. hlc_order. Qed.

#[export] Hint Resolve hlc_le_refl hlc_lt_le hlc_lt_irrefl : suma.

#[export] Instance hlc_le_preorder : PreOrder hlc_le.
Proof. split; [exact hlc_le_refl|exact hlc_le_trans]. Qed.
#[export] Instance hlc_lt_strict : StrictOrder hlc_lt := HlcTotal.lt_strorder.
#[export] Instance hlc_lt_dec a b : Decision (hlc_lt a b).
Proof. unfold hlc_lt. apply _. Defined.
#[export] Instance hlc_le_dec a b : Decision (hlc_le a b).
Proof. unfold hlc_le. apply _. Defined.

(** ** The string form *)

Definition hlc_string_order (c : Z) : comparison :=
  if c <? 0 then Lt else if c =? 0 then Eq else Gt.

Lemma encodeHlc_compare a b :
  hlc_bounded a → hlc_bounded b →
  String.compare (encodeHlc a) (encodeHlc b) = hlc_string_order (compareHlc a b).
Proof.
  intros [Hpa Hla] [Hpb Hlb]. unfold encodeHlc.
  destruct (hex_pad 14 (physicalMs a)) as (Epa & Cpa & Vpa); [done|lia|].
  destruct (hex_pad 14 (physicalMs b)) as (Epb & Cpb & Vpb); [done|lia|].
  destruct (hex_pad 8 (logical a)) as (Ela & Cla & Vla); [done|lia|].
  destruct (hex_pad 8 (logical b)) as (Elb & Clb & Vlb); [done|lia|].
  rewrite compareHlc_alt, str_compare_app by lia.
  rewrite hex_compare, Vpa, Vpb by (done || lia).
  destruct (physicalMs a ?= physicalMs b); [|done|done].
  rewrite str_compare_app, str_compare_refl by done.
  rewrite str_compare_app by lia. rewrite hex_compare, Vla, Vlb by (done || lia).
  destruct (logical a ?= logical b); [|done|done].
  rewrite str_compare_app, str_compare_refl by done.
  destruct (String.compare _ _); done.
Qed.

Lemma decode_encode h :
  hlc_bounded h → deviceId h ≠ "" → decodeHlc (encodeHlc h) = Some h.
Proof.
  intros [Hp Hl] Hd. unfold encodeHlc.
  destruct (hex_pad 14 (physicalMs h)) as (Ep & Cp & Vp); [done|lia|].
  destruct (hex_pad 8 (logical h)) as (El & Cl & Vl); [done|lia|].
  set (p := padStart 14 "0" _) in *. set (l := padStart 8 "0" _) in *.
  unfold decodeHlc. change ("-" +:+ l +:+ "-" +:+ deviceId h)
    with (String "-" (l +:+ String "-" (deviceId h))).
  rewrite indexOf_char_app by (apply lower_hex_sep; [done|eval_codes; lia]).
  assert (∀ t, p +:+ String "-" t = (p +:+ "-") +:+ t) as Hsplit
    by (intros; by rewrite sapp_assoc).
  assert (S (String.length p) = String.length (p +:+ "-")) as HS
    by (rewrite slength_app; simpl; lia).
  rewrite HS, (Hsplit (l +:+ _)), indexOf_from_app
    by (apply lower_hex_sep; [done|eval_codes; lia]).
  rewrite <- HS, Ep, El. simpl negb. cbn [orb].
  rewrite <- (Hsplit (l +:+ _)), <- Ep, slice_0_app, Hsplit.
  rewrite parseInt16_hex, Vp by (done || lia).
  unfold slice at 1.
  rewrite HS, slice_from_app, slength_app.
  replace (String.length p + String.length "-" + 8 - (String.length p + String.length "-"))%nat
    with (String.length l) by (rewrite El; lia).
  rewrite slice_to_app, parseInt16_hex, Vl by (done || lia).
  replace (S (String.length p + String.length "-" + 8))%nat
    with (String.length ((p +:+ "-") +:+ l +:+ "-") + 0)%nat
    by (rewrite !slength_app; simpl; lia).
  replace ((p +:+ "-") +:+ l +:+ String "-" (deviceId h))
    with (((p +:+ "-") +:+ l +:+ "-") +:+ deviceId h)
    by (rewrite !sapp_assoc; done).
  rewrite slice_from_app_plus. simpl slice_from.
  destruct h as [ph lh [|c dh]]; simpl in *; done.
Qed.

(** ** Clock lemmas *)

(** The timestamp a clock last reached, as an [Hlc]. *)
Definition clock_last (c : HlcClock) : Hlc :=
  mkHlc (lastPhysicalMs c) (lastLogical c) (clockDevice c).

Lemma hlc_lt_same_device p l p' l' d :
  hlc_lt (mkHlc p l d) (mkHlc p' l' d) ↔ p < p' ∨ p = p' ∧ l < l'.
Proof.
  rewrite hlc_lt_iff. simpl. pose proof (str_lt_irrefl d).
  split; [intros [?|[? [?|[? ?]]]]|intros [?|[? ?]]]; auto; done.
Qed.

Lemma clock_send_spec wall c :
  let '(h, c') := clock_send wall c in
  h = clock_last c' ∧ clockDevice c' = clockDevice c
  ∧ hlc_lt (clock_last c) h ∧ wall <= physicalMs h
  ∧ (physicalMs h = wall ∨ physicalMs h = lastPhysicalMs c).
Proof.
  unfold clock_send, clock_last.
  destruct (wall >? lastPhysicalMs c) eqn:E; bprop; simpl;
    rewrite hlc_lt_same_device; repeat split; try lia.
Qed.

Lemma clock_receive_spec wall remote c :
  let '(h, c') := clock_receive wall remote c in
  h = clock_last c' ∧ clockDevice c' = clockDevice c
  ∧ (0 <= lastLogical c → 0 <= logical remote → 0 <= logical h)
  ∧ hlc_lt (clock_last c) h ∧ wall <= physicalMs h
  ∧ (physicalMs remote <= wall + MAX_CLOCK_DRIFT_MS → hlc_lt remote h)
  ∧ physicalMs h <= Z.max (wall + MAX_CLOCK_DRIFT_MS) (lastPhysicalMs c).
Proof.
  unfold clock_receive, clock_last.
  assert (0 <= MAX_CLOCK_DRIFT_MS) by (unfold MAX_CLOCK_DRIFT_MS; lia).
  set (m := Z.max _ _). set (r := Z.min _ _) in *. cbn [clockDevice lastPhysicalMs lastLogical
    physicalMs logical].
  assert (r <= m ∧ wall <= m ∧ lastPhysicalMs c <= m
          ∧ m <= Z.max (wall + MAX_CLOCK_DRIFT_MS) (lastPhysicalMs c)) as (? & ? & ? & ?)
    by (unfold m, r; lia).
  rewrite hlc_lt_same_device, hlc_lt_iff. simpl.
  destruct (m =? lastPhysicalMs c) eqn:E1; [destruct (m =? r) eqn:E2|destruct (m =? r) eqn:E2];
    cbn [andb]; bprop; repeat split; try lia; intros Hr;
    assert (r = physicalMs remote) by (unfold r; lia); lia.
Qed.

Lemma clock_restore_le last c :
  clockDevice (clock_restore last c) = clockDevice c
  ∧ hlc_le (clock_last c) (clock_last (clock_restore last c)).
Proof.
  unfold clock_restore, clock_last.
  destruct (_ || _) eqn:E; simpl; [|split; [done|apply hlc_le_refl]].
  split; [done|]. apply hlc_lt_le, hlc_lt_same_device.
  apply orb_true_iff in E as [E|E]; blia.
Qed.

Lemma clock_step_spec e c :
  let '(hs, c') := clock_step e c in
  clockDevice c' = clockDevice c
  ∧ hlc_le (clock_last c) (clock_last c')
  ∧ Forall (λ h, hlc_lt (clock_last c) h ∧ h = clock_last c') hs ∧ (length hs <= 1)%nat.
Proof.
  destruct e as [wall|wall r|l]; unfold clock_step.
  - pose proof (clock_send_spec wall c) as H. destruct (clock_send wall c) as [h c'].
    destruct H as (-> & Hd & Hlt & _). repeat split; auto with suma.
  - pose proof (clock_receive_spec wall r c) as H. destruct (clock_receive wall r c) as [h c'].
    destruct H as (-> & Hd & _ & Hlt & _). repeat split; auto with suma.
  - destruct (clock_restore_le l c). repeat split; auto; simpl; lia.
Qed.

Lemma clock_run_spec es c :
  let '(hs, c') := clock_run es c in
  hlc_le (clock_last c) (clock_last c')
  ∧ Forall (λ h, hlc_lt (clock_last c) h ∧ hlc_le h (clock_last c')) hs
  ∧ StronglySorted hlc_lt hs.
Proof.
  revert c. induction es as [|e es IH]; intros c; simpl.
  { repeat split; [apply hlc_le_refl|constructor..]. }
  pose proof (clock_step_spec e c) as Hs. destruct (clock_step e c) as [hs c1].
  destruct Hs as (_ & Hle & Hhs & Hlen).
  specialize (IH c1). destruct (clock_run es c1) as [hs' c2].
  destruct IH as (Hle' & Hall & Hsort). split; [by etrans|]. split.
  - apply Forall_app. split; eapply Forall_impl; try eassumption; simpl.
    + intros h [? ->]. done.
    + intros h [? ?]. split; [hlc_order|done].
  - destruct hs as [|h [|]]; [done| |simpl in Hlen; lia]. simpl.
    constructor; [done|]. inversion Hhs as [|? ? [_ ->] _]; subst.
    eapply Forall_impl; [exact Hall|]. simpl. tauto.
Qed.

Definition event_wall_le (W : Z) (e : ClockEvent) : Prop :=
  match e with
  | EvSend wall => wall <= W
  | EvReceive wall _ => wall <= W
  | EvRestore last => physicalMs last <= W + MAX_CLOCK_DRIFT_MS
  end.

Lemma clock_step_drift W e c :
  event_wall_le W e → lastPhysicalMs c <= W + MAX_CLOCK_DRIFT_MS →
  let '(hs, c') := clock_step e c in
  lastPhysicalMs c' <= W + MAX_CLOCK_DRIFT_MS
  ∧ Forall (λ h, physicalMs h <= W + MAX_CLOCK_DRIFT_MS) hs.
Proof.
  assert (0 <= MAX_CLOCK_DRIFT_MS) by (unfold MAX_CLOCK_DRIFT_MS; lia).
  destruct e as [wall|wall r|l]; unfold clock_step; cbn [event_wall_le]; intros Hw Hc.
  - pose proof (clock_send_spec wall c) as H'. destruct (clock_send wall c) as [h c'].
    destruct H' as (-> & _ & _ & _ & Hp). simpl in Hp.
    split; [lia|]. constructor; [simpl; lia|constructor].
  - pose proof (clock_receive_spec wall r c) as H'. destruct (clock_receive wall r c) as [h c'].
    destruct H' as (-> & _ & _ & _ & _ & _ & Hp). simpl in Hp.
    split; [lia|]. constructor; [simpl; lia|constructor].
  - unfold clock_restore. destruct (_ || _); simpl; auto.
Qed.

(** ** Properties *)

(** C1: the hub stores history under [encodeHlc] keys and relies on storage
    order being HLC order; inside the fixed-width ranges, comparing two encoded
    timestamps as strings is exactly comparing them with [compareHlc]. *)
Theorem encodeHlc_order a b :
  hlc_bounded a → hlc_bounded b →
  str_ltb (encodeHlc a) (encodeHlc b) = (compareHlc a b <? 0)
  ∧ String.eqb (encodeHlc a) (encodeHlc b) = (compareHlc a b =? 0).
Proof.
  intros Ha Hb. pose proof (encodeHlc_compare a b Ha Hb) as H.
  unfold str_ltb. rewrite H. unfold hlc_string_order.
  destruct (compareHlc a b <? 0) eqn:E1; bprop.
  - split; [done|]. rewrite (proj2 (Z.eqb_neq _ _)) by lia.
    apply String.eqb_neq. intros Heq. rewrite Heq, str_compare_refl in H.
    unfold hlc_string_order in H. rewrite (proj2 (Z.ltb_lt _ _)) in H by lia. done.
  - destruct (compareHlc a b =? 0) eqn:E2; (split; [done|]).
    + apply compareHlc_eqb in E2 as ->. apply String.eqb_refl.
    + apply String.eqb_neq. intros Heq. rewrite Heq, str_compare_refl in H.
      unfold hlc_string_order in H. rewrite (proj2 (Z.ltb_ge _ _)), E2 in H by lia. done.
Qed.

Lemma encodeHlc_order_witness :
  let a := mkHlc 1700000000000 3 "mac-a" in
  let b := mkHlc 1700000000000 16 "mac-b" in
  hlc_bounded a ∧ str_ltb (encodeHlc a) (encodeHlc b) = true.
Proof.
  cbv zeta. split; [repeat split; vm_compute; congruence|].
  rewrite (proj1 (encodeHlc_order (mkHlc 1700000000000 3 "mac-a")
    (mkHlc 1700000000000 16 "mac-b") ltac:(repeat split; vm_compute; congruence)
    ltac:(repeat split; vm_compute; congruence))).
  reflexivity.
Defined.

(** [decodeHlc] inverts [encodeHlc] on every timestamp in the fixed-width
    ranges with a non-empty device id, so nothing the clock issues is rejected
    as malformed or read back changed. *)
Theorem decodeHlc_encodeHlc h :
  hlc_bounded h → deviceId h ≠ "" → decodeHlc (encodeHlc h) = Some h.
Proof. apply decode_encode. Qed.

Lemma decodeHlc_encodeHlc_witness :
  decodeHlc (encodeHlc (mkHlc 1700000000000 42 "device-1"))
  = Some (mkHlc 1700000000000 42 "device-1").
Proof.
  apply (decodeHlc_encodeHlc (mkHlc 1700000000000 42 "device-1"));
    [repeat split; vm_compute; congruence|done].
Defined.

(** C2: over any sequence of local events, remote merges and restores, at any
    wall times (clocks may run backwards), the timestamps one clock issues are
    strictly increasing, and all exceed what the clock had reached before. *)
Theorem clock_run_increasing es c :
  StronglySorted hlc_lt (fst (clock_run es c))
  ∧ Forall (hlc_lt (clock_last c)) (fst (clock_run es c)).
Proof.
  pose proof (clock_run_spec es c) as H. destruct (clock_run es c) as [hs c'].
  destruct H as (_ & Hall & Hs). split; [done|].
  eapply Forall_impl; [exact Hall|]. simpl. tauto.
Qed.

(** A device with a broken clock cannot poison ordering: if no local wall
    reading exceeds [W], no remote timestamp, however large, pulls the clock or
    anything it issues past [W + MAX_CLOCK_DRIFT_MS]. *)
Theorem clock_run_bounded_drift W es c :
  Forall (event_wall_le W) es → lastPhysicalMs c <= W + MAX_CLOCK_DRIFT_MS →
  lastPhysicalMs (snd (clock_run es c)) <= W + MAX_CLOCK_DRIFT_MS
  ∧ Forall (λ h, physicalMs h <= W + MAX_CLOCK_DRIFT_MS) (fst (clock_run es c)).
Proof.
  intros Hes. revert c. induction Hes as [|e es He Hes IH]; intros c Hc; simpl; [done|].
  pose proof (clock_step_drift W e c He Hc) as Hs.
  destruct (clock_step e c) as [hs c1]. destruct Hs as [Hc1 Hhs].
  specialize (IH c1 Hc1). destruct (clock_run es c1) as [hs' c2]. simpl in *.
  destruct IH as [? ?]. split; [done|]. by apply Forall_app.
Qed.

Lemma clock_run_bounded_drift_witness :
  lastPhysicalMs (snd (clock_run
    [EvSend 1000; EvReceive 1001 (mkHlc 9999999999 7 "evil"); EvSend 1002] (newClock "mac")))
  <= 1002 + MAX_CLOCK_DRIFT_MS.
Proof.
  apply (clock_run_bounded_drift 1002
    [EvSend 1000; EvReceive 1001 (mkHlc 9999999999 7 "evil"); EvSend 1002] (newClock "mac"));
    [|vm_compute; congruence].
  repeat constructor; vm_compute; congruence.
Defined.
