(* ===== verification/Encoding.v ===== *)
(** * Byte and string encodings (packages/protocol/src/encoding.ts)

    A byte is an integer in [0, 256); a [Uint8Array] is a list of bytes.
    [btoa]/[atob] and [TextEncoder]/[TextDecoder] are the platform functions
    the file calls, on the Latin-1 strings of [JsString]. *)

From S2P Require Export JsString.
From Stdlib Require Import Ascii.

Abbreviation bytes := (list Z).

Definition is_byte (b : Z) : Prop := 0 <= b < 256.
Definition bytes_ok (bs : bytes) : Prop := Forall is_byte bs.

(** ** UTF-8 *)

Definition utf8_char (c : ascii) : bytes :=
  let n := code c in
  if n <? 128 then [n] else [192 + n / 64; 128 + n mod 64].

Fixpoint utf8 (s : string) : bytes :=
  match s with
  | EmptyString => []
  | String c s' => utf8_char c ++ utf8 s'
  end.

(** [fromUtf8]; [None] when the text leaves the modelled code units. *)
Fixpoint fromUtf8 (bs : bytes) : option string :=
  match bs with
  | [] => Some EmptyString
  | b :: bs' =>
      if b <? 128 then option_map (String (chr b)) (fromUtf8 bs')
      else match bs' with
           | b2 :: bs'' =>
               if ((b =? 194) || (b =? 195)) && (128 <=? b2) && (b2 <? 192)
               then option_map (String (chr ((b - 192) * 64 + (b2 - 128)))) (fromUtf8 bs'')
               else None
           | [] => None
           end
  end.

(** ** Hexadecimal *)

Definition toHex (bs : bytes) : string :=
  fold_left (λ out b, out +:+ padStart 2 "0" (toString16 b)) bs "".

(** The loop of [fromHex]: one byte per two characters. *)
Fixpoint fromHex_loop (s : string) : option bytes :=
  match s with
  | EmptyString => Some []
  | String c (String d s') =>
      match parseInt16 (String c (String d EmptyString)) with
      | None => None
      | Some byte =>
          (* storing into a Uint8Array reduces modulo 256 *)
          option_map (cons (byte mod 256)) (fromHex_loop s')
      end
  | String _ EmptyString => Some []
  end.

Definition fromHex (hex : string) : option bytes :=
  if negb (Nat.even (String.length hex)) then None else fromHex_loop hex.

(** ** Base64 *)

Definition b64_char (n : Z) : ascii :=
  if n <? 26 then chr (65 + n)
  else if n <? 52 then chr (71 + n)
  else if n <? 62 then chr (n - 4)
  else if n =? 62 then "+"%char else "/"%char.

Definition b64_val (c : ascii) : option Z :=
  let n := code c in
  if (65 <=? n) && (n <=? 90) then Some (n - 65)
  else if (97 <=? n) && (n <=? 122) then Some (n - 71)
  else if (48 <=? n) && (n <=? 57) then Some (n + 4)
  else if n =? 43 then Some 62
  else if n =? 47 then Some 63
  else None.

(** [btoa] of a binary string given as its bytes. *)
Fixpoint btoa (bs : bytes) : string :=
  match bs with
  | [] => EmptyString
  | [a] =>
      String (b64_char (a / 4)) (String (b64_char (a mod 4 * 16)) "==")
  | [a; b] =>
      String (b64_char (a / 4)) (String (b64_char (a mod 4 * 16 + b / 16))
        (String (b64_char (b mod 16 * 4)) "="))
  | a :: b :: c :: bs' =>
      String (b64_char (a / 4)) (String (b64_char (a mod 4 * 16 + b / 16))
        (String (b64_char (b mod 16 * 4 + c / 64))
          (String (b64_char (c mod 64)) (btoa bs'))))
  end.

Definition is_ascii_space (c : ascii) : bool :=
  let n := code c in
  (n =? 9) || (n =? 10) || (n =? 12) || (n =? 13) || (n =? 32).

(** The sextets of a string of alphabet characters. *)
Fixpoint b64_sextets (l : list ascii) : option (list Z) :=
  match l with
  | [] => Some []
  | c :: l' =>
      match b64_val c, b64_sextets l' with
      | Some v, Some vs => Some (v :: vs)
      | _, _ => None
      end
  end.

(** Sextets to bytes; the bits left over at the end are dropped. *)
Fixpoint b64_bytes (vs : list Z) : option bytes :=
  match vs with
  | [] => Some []
  | [_] => None
  | [a; b] => Some [a * 4 + b / 16]
  | [a; b; c] => Some [a * 4 + b / 16; b mod 16 * 16 + c / 4]
  | a :: b :: c :: d :: vs' =>
      option_map (λ bs, a * 4 + b / 16 :: b mod 16 * 16 + c / 4 :: c mod 4 * 64 + d :: bs)
        (b64_bytes vs')
  end.

(** Up to two padding characters are removed from the end of a string whose
    length is a multiple of four. *)
Definition b64_unpad (l : list ascii) : list ascii :=
  if (length l mod 4 =? 0)%nat then
    match rev l with
    | "="%char :: "="%char :: r => rev r
    | "="%char :: r => rev r
    | _ => l
    end
  else l.

(** [atob], as the bytes of the binary string; [None] is the exception. *)
Definition atob (s : string) : option bytes :=
  let l := b64_unpad (List.filter (λ c, negb (is_ascii_space c)) (chars s)) in
  match b64_sextets l with
  | None => None
  | Some vs => b64_bytes vs
  end.

Definition toBase64 (bs : bytes) : string := btoa bs.
Definition fromBase64 (s : string) : option bytes := atob s.

(** ** Concatenation and comparison *)

Definition concatBytes (parts : list bytes) : bytes := concat parts.

(** [DataView.setUint32(_, n, false)]: four bytes, big endian, modulo 2^32. *)
Definition uint32_be (n : Z) : bytes :=
  [n / 16777216 mod 256; n / 65536 mod 256; n / 256 mod 256; n mod 256].

Inductive Part :=
| PStr (s : string)
| PBytes (bs : bytes).

Definition part_bytes (p : Part) : bytes :=
  match p with PStr s => utf8 s | PBytes bs => bs end.

Definition lengthPrefixed (parts : list Part) : bytes :=
  concat (map (λ p, uint32_be (Z.of_nat (length (part_bytes p))) ++ part_bytes p) parts).

(** The accumulator of [bytesEqual]: [diff |= a[i] ^ b[i]]. *)
Fixpoint bytes_diff (a b : bytes) (diff : Z) : Z :=
  match a, b with
  | x :: a', y :: b' => bytes_diff a' b' (Z.lor diff (Z.lxor x y))
  | _, _ => diff
  end.

Definition bytesEqual (a b : bytes) : bool :=
  if negb (length a =? length b)%nat then false else bytes_diff a b 0 =? 0.

(** ** URI components *)

(** [encodeURIComponent]. *)
Definition uri_unreserved (c : ascii) : bool :=
  let n := code c in
  ((48 <=? n) && (n <=? 57)) || ((65 <=? n) && (n <=? 90)) || ((97 <=? n) && (n <=? 122))
  || existsb (Ascii.eqb c) (chars "-_.!~*'()").
Definition upper_hex (n : Z) : ascii := if n <? 10 then chr (48 + n) else chr (55 + n).
Definition encode_char (c : ascii) : string :=
  if uri_unreserved c then String c ""
  else fold_right (λ b s, String "%" (String (upper_hex (b / 16)) (String (upper_hex (b mod 16)) s)))
         "" (utf8_char c).
Definition encodeURIComponent (s : string) : string :=
  fold_right (λ c s, encode_char c +:+ s) "" (chars s).

(** [decodeURIComponent]; [None] is the [URIError]. *)
Fixpoint percent_decode (s : string) : option bytes :=
  match s with
  | EmptyString => Some []
  | String c s' =>
      if Ascii.eqb c "%" then
        match s' with
        | String a (String b s'') =>
            match hex_value a, hex_value b with
            | Some x, Some y => cons (16 * x + y) <$> percent_decode s''
            | _, _ => None
            end
        | _ => None
        end
      else app (utf8_char c) <$> percent_decode s'
  end.
Definition decodeURIComponent (s : string) : option string := percent_decode s ≫= fromUtf8.

(** ** UTF-8 lemmas *)

Lemma utf8_char_ok c : bytes_ok (utf8_char c).
Proof.
  unfold utf8_char, bytes_ok, is_byte. pose proof (code_range c).
  destruct (code c <? 128) eqn:E; bprop; repeat constructor; try lia.
  all: pose proof (Z.mod_pos_bound (code c) 64); pose proof (Z.div_lt_upper_bound (code c) 64 4);
    pose proof (Z.div_pos (code c) 64); lia.
Qed.

Lemma utf8_ok s : bytes_ok (utf8 s).
Proof.
  induction s as [|c s IH]; simpl; [constructor|].
  apply Forall_app. split; [apply utf8_char_ok|done].
Qed.

Lemma utf8_app a b : utf8 (a +:+ b) = utf8 a ++ utf8 b.
Proof. induction a as [|c a IH]; simpl; [done|]. by rewrite IH, app_assoc. Qed.

Lemma fromUtf8_utf8 s : fromUtf8 (utf8 s) = Some s.
Proof.
  induction s as [|c s IH]; simpl; [done|]. unfold utf8_char.
  pose proof (code_range c) as Hc. destruct (code c <? 128) eqn:E; simpl; bprop.
  - rewrite (proj2 (Z.ltb_lt _ _)) by lia. by rewrite IH, chr_code.
  - assert (2 <= code c / 64 <= 3) as Hd.
    { split; [apply Z.div_le_lower_bound; lia|].
      apply Z.lt_succ_r, Z.div_lt_upper_bound; lia. }
    pose proof (Z.mod_pos_bound (code c) 64 ltac:(lia)) as Hm.
    pose proof (Z.div_mod (code c) 64 ltac:(lia)) as Hdm.
    rewrite (proj2 (Z.ltb_ge _ _)) by lia.
    assert (((192 + code c / 64 =? 194) || (192 + code c / 64 =? 195)) = true) as ->
      by (apply orb_true_iff; rewrite !Z.eqb_eq; lia).
    rewrite (proj2 (Z.leb_le _ _)), (proj2 (Z.ltb_lt _ _)) by lia. simpl.
    rewrite IH. simpl. do 2 f_equal. rewrite <- (chr_code c) at 3. f_equal. lia.
Qed.

Lemma utf8_inj a b : utf8 a = utf8 b → a = b.
Proof. intros H. apply (f_equal fromUtf8) in H. rewrite !fromUtf8_utf8 in H. congruence. Qed.

(** ** Length-prefix lemmas *)

Lemma uint32_be_val n :
  0 <= n < 2 ^ 32 →
  n = (n / 16777216 mod 256) * 16777216 + (n / 65536 mod 256) * 65536
      + (n / 256 mod 256) * 256 + n mod 256.
Proof. intros. Z.to_euclidean_division_equations. lia. Qed.

Lemma uint32_be_inj n m :
  0 <= n < 2 ^ 32 → 0 <= m < 2 ^ 32 → uint32_be n = uint32_be m → n = m.
Proof.
  unfold uint32_be. intros Hn Hm [=]. rewrite (uint32_be_val n), (uint32_be_val m) by done.
  congruence.
Qed.

Definition part_fits (p : Part) : Prop := Z.of_nat (length (part_bytes p)) < 2 ^ 32.

Lemma lengthPrefixed_inj ps qs :
  Forall part_fits ps → Forall part_fits qs →
  lengthPrefixed ps = lengthPrefixed qs → map part_bytes ps = map part_bytes qs.
Proof.
  unfold lengthPrefixed. intros Hps. revert qs.
  induction Hps as [|p ps Hp Hps IH]; intros qs Hqs; destruct Hqs as [|q qs Hq Hqs]; cbn [map concat];
    intros H; [done|done|done|].
  unfold part_fits in *.
  assert (length (part_bytes p) = length (part_bytes q)) as Hl.
  { apply Nat2Z.inj, uint32_be_inj; [lia..|]. unfold uint32_be in *. simpl in H.
    injection H as -> -> -> -> _. done. }
  rewrite <- !app_assoc in H. apply app_inj_1 in H as [_ H]; [|done].
  apply app_inj_1 in H as [-> H]; [|done]. f_equal. by apply IH.
Qed.

(** ** Base64 lemmas *)

Definition b64_entry_ok (n : Z) : bool :=
  bool_decide (b64_val (b64_char n) = Some n)
  && negb (is_ascii_space (b64_char n)) && negb (Ascii.eqb (b64_char n) "=").

Lemma b64_table n :
  0 <= n < 64 →
  b64_val (b64_char n) = Some n ∧ is_ascii_space (b64_char n) = false
  ∧ b64_char n ≠ "="%char.
Proof.
  intros Hn. assert (forallb b64_entry_ok (seqZ 0 64) = true) as Ht by (vm_compute; done).
  rewrite forallb_forall in Ht. specialize (Ht n).
  assert (In n (seqZ 0 64)) as Hin by (apply list_elem_of_In, elem_of_seqZ; lia).
  apply Ht in Hin. unfold b64_entry_ok in Hin. bprop.
  repeat split; [done..|]. by apply Ascii.eqb_neq.
Qed.

Definition is_sextet (v : Z) : Prop := 0 <= v < 64.

Lemma b64_sextets_map vs :
  Forall is_sextet vs → b64_sextets (map b64_char vs) = Some vs.
Proof.
  induction 1 as [|v vs Hv Hvs IH]; simpl; [done|].
  destruct (b64_table v Hv) as (-> & _). by rewrite IH.
Qed.

(** The text [btoa] prints: sextets, then at most two padding characters. *)
Lemma btoa_shape bs :
  bytes_ok bs →
  ∃ vs pad, chars (btoa bs) = map b64_char vs ++ repeat "="%char pad
    ∧ Forall is_sextet vs ∧ ((length vs + pad) mod 4 = 0)%nat ∧ (pad <= 2)%nat
    ∧ b64_bytes vs = Some bs.
Proof.
  induction bs as [|a|a b|a b c bs IH] using list_ind3; intros H.
  - exists [], 0%nat. repeat split; [constructor|lia].
  - inversion H as [|? ? Ha _]; subst. unfold is_byte in Ha.
    exists [a / 4; a mod 4 * 16], 2%nat. split; [done|].
    split; [repeat constructor; unfold is_sextet; Z.to_euclidean_division_equations; lia|].
    repeat split; [lia|]. simpl. do 2 f_equal. Z.to_euclidean_division_equations; lia.
  - inversion H as [|? ? Ha H']; subst. inversion H' as [|? ? Hb _]; subst.
    unfold is_byte in *.
    exists [a / 4; a mod 4 * 16 + b / 16; b mod 16 * 4], 1%nat. split; [done|].
    split; [repeat constructor; unfold is_sextet; Z.to_euclidean_division_equations; lia|].
    repeat split; [lia|]. simpl. repeat f_equal; Z.to_euclidean_division_equations; lia.
  - inversion H as [|? ? Ha H1]; subst. inversion H1 as [|? ? Hb H2]; subst.
    inversion H2 as [|? ? Hc Hbs]; subst. unfold is_byte in *.
    destruct (IH Hbs) as (vs & pad & Hch & Hvs & Hmod & Hpad & Hdec).
    exists (a / 4 :: a mod 4 * 16 + b / 16 :: b mod 16 * 4 + c / 64 :: c mod 64 :: vs), pad.
    split; [simpl; by rewrite Hch|].
    split; [repeat constructor; try done; unfold is_sextet;
            Z.to_euclidean_division_equations; lia|].
    split; [|split; [done|]].
    + cbn [length]. replace (S (S (S (S (length vs)))) + pad)%nat
        with (length vs + pad + 1 * 4)%nat by lia. by rewrite Nat.Div0.mod_add.
    + cbn [b64_bytes]. rewrite Hdec. simpl.
      repeat f_equal; Z.to_euclidean_division_equations; lia.
Qed.

Lemma b64_unpad_spec vs pad :
  Forall is_sextet vs → ((length vs + pad) mod 4 = 0)%nat → (pad <= 2)%nat →
  b64_unpad (map b64_char vs ++ repeat "="%char pad) = map b64_char vs.
Proof.
  intros Hvs Hmod Hpad. unfold b64_unpad.
  rewrite length_app, length_map, repeat_length, Hmod, rev_app_distr. simpl.
  assert (∀ c r, rev (map b64_char vs) = c :: r → c ≠ "="%char) as Hne.
  { intros c r Hr ->. assert ("="%char ∈ map b64_char vs) as Hin.
    { rewrite list_elem_of_In, in_rev, Hr. by left. }
    apply list_elem_of_fmap in Hin as (v & Hv & Hin).
    rewrite Forall_forall in Hvs. by destruct (b64_table v (Hvs v Hin)) as (_ & _ & []). }
  assert (match rev (map b64_char vs) with
          | "="%char :: r => rev r | _ => map b64_char vs end = map b64_char vs) as Hm.
  { destruct (rev (map b64_char vs)) as [|c r] eqn:Hr; [done|].
    specialize (Hne c r eq_refl). destruct c as [[][][][][][][][]]; done. }
  destruct pad as [|[|[|pad]]]; simpl; [| | |lia].
  - rewrite app_nil_r. destruct (rev (map b64_char vs)) as [|c r] eqn:Hr; [done|].
    specialize (Hne c r eq_refl). destruct c as [[][][][][][][][]]; done.
  - rewrite <- (rev_involutive (map b64_char vs)) at 2.
    destruct (rev (map b64_char vs)) as [|c r] eqn:Hr; [done|].
    specialize (Hne c r eq_refl). destruct c as [[][][][][][][][]]; done.
  - by rewrite rev_involutive.
Qed.

Lemma atob_btoa bs : bytes_ok bs → atob (btoa bs) = Some bs.
Proof.
  intros H. destruct (btoa_shape bs H) as (vs & pad & Hch & Hvs & Hmod & Hpad & Hdec).
  unfold atob. rewrite Hch, filter_all.
  - by rewrite b64_unpad_spec, b64_sextets_map.
  - intros c [Hc|Hc]%elem_of_app.
    + apply list_elem_of_fmap in Hc as (v & -> & Hv). rewrite Forall_forall in Hvs.
      destruct (b64_table v (Hvs v Hv)) as (_ & -> & _). done.
    + apply list_elem_of_In, repeat_spec in Hc as ->. done.
Qed.

(** ** Hexadecimal lemmas *)

Lemma toHex_acc bs out :
  fold_left (λ out b, out +:+ padStart 2 "0" (toString16 b)) bs out = out +:+ toHex bs.
Proof.
  unfold toHex. revert out. induction bs as [|b bs IH]; intros out; simpl.
  - by rewrite sapp_nil_r.
  - rewrite IH, (IH (padStart _ _ _)), sapp_assoc. done.
Qed.

Lemma toHex_cons b bs : toHex (b :: bs) = padStart 2 "0" (toString16 b) +:+ toHex bs.
Proof. unfold toHex at 1. simpl. by rewrite toHex_acc. Qed.

Lemma toHex_app a b : toHex (a ++ b) = toHex a +:+ toHex b.
Proof. unfold toHex at 1. by rewrite fold_left_app, toHex_acc. Qed.

Lemma toHex_spec bs :
  bytes_ok bs →
  String.length (toHex bs) = (2 * length bs)%nat ∧ all_chars is_lower_hex (toHex bs)
  ∧ fromHex_loop (toHex bs) = Some bs.
Proof.
  induction 1 as [|b bs Hb Hbs (IHl & IHc & IHd)]; [repeat split; constructor|].
  destruct (hex_pad 2 b) as (Hl & Hc & Hv); [done|lia|].
  rewrite toHex_cons, slength_app, all_chars_app, Hl. repeat split; [simpl; lia|done..|].
  destruct (padStart 2 "0" (toString16 b)) as [|x [|y [|]]]; simpl in Hl; try lia.
  cbn [String.append fromHex_loop].
  rewrite parseInt16_hex, Hv, IHd by (done || (simpl; lia)). simpl.
  by rewrite Z.mod_small.
Qed.

Lemma toHex_inj a b : bytes_ok a → bytes_ok b → toHex a = toHex b → a = b.
Proof.
  intros Ha Hb H. apply (f_equal fromHex_loop) in H.
  destruct (toHex_spec a Ha) as (_ & _ & Ea), (toHex_spec b Hb) as (_ & _ & Eb). congruence.
Qed.

Lemma fromHex_toHex bs : bytes_ok bs → fromHex (toHex bs) = Some bs.
Proof.
  intros H. destruct (toHex_spec bs H) as (Hl & _ & Hd). unfold fromHex.
  rewrite Hl, Nat.even_mul. done.
Qed.

(** ** Byte comparison lemmas *)

Lemma bytes_diff_zero a b d :
  length a = length b → (bytes_diff a b d = 0 ↔ d = 0 ∧ a = b).
Proof.
  revert b d. induction a as [|x a IH]; intros [|y b] d Hl; simpl in *; try done.
  { naive_solver. }
  rewrite IH by lia. rewrite Z.lor_eq_0_iff, Z.lxor_eq_0_iff. naive_solver.
Qed.

Lemma bytesEqual_iff a b : bytesEqual a b = true ↔ a = b.
Proof.
  unfold bytesEqual. destruct (length a =? length b)%nat eqn:E; simpl.
  - apply Nat.eqb_eq in E. rewrite Z.eqb_eq, bytes_diff_zero by done. naive_solver.
  - apply Nat.eqb_neq in E. split; [done|]. intros ->. done.
Qed.

#[export] Hint Resolve utf8_ok : suma.

(** ** URI components *)

Lemma option_eqb_eq (o o' : option Z) : bool_decide (o = o') = true → o = o'.
Proof. apply bool_decide_eq_true. Qed.

Lemma hex_value_upper n : 0 <= n < 16 → hex_value (upper_hex n) = Some n.
Proof.
  intros Hn. assert (n ∈ seqZ 0 16) as Hin by (apply elem_of_seqZ; lia).
  clear Hn. apply list_elem_of_In in Hin. apply option_eqb_eq. cbv beta.
  revert n Hin. apply forallb_forall. vm_compute. reflexivity.
Qed.

Lemma percent_decode_bytes bs s :
  bytes_ok bs →
  percent_decode (fold_right (λ b s, String "%" (String (upper_hex (b / 16)) (String (upper_hex (b mod 16)) s))) s bs)
  = app bs <$> percent_decode s.
Proof.
  induction 1 as [|b bs Hb Hbs IH]; cbn [fold_right app]; [by destruct (percent_decode s)|].
  unfold is_byte in Hb. cbn [percent_decode]. rewrite ascii_eqb_refl.
  rewrite !hex_value_upper by (pose proof (Z.div_lt_upper_bound b 16 16); pose proof (Z.mod_pos_bound b 16);
    pose proof (Z.div_pos b 16); lia).
  rewrite IH. destruct (percent_decode s); [|done]. cbn. do 2 f_equal. rewrite (Z.div_mod b 16) at 3 by lia. done.
Qed.

Lemma percent_decode_char c t :
  percent_decode (encode_char c +:+ t) = app (utf8_char c) <$> percent_decode t.
Proof.
  unfold encode_char. destruct (uri_unreserved c) eqn:E.
  - cbn [String.append percent_decode]. destruct (Ascii.eqb_spec c "%") as [->|_]; [discriminate E|done].
  - assert (∀ bs, fold_right (λ b s, String "%" (String (upper_hex (b / 16)) (String (upper_hex (b mod 16)) s))) "" bs +:+ t
      = fold_right (λ b s, String "%" (String (upper_hex (b / 16)) (String (upper_hex (b mod 16)) s))) t bs) as ->.
    { induction bs as [|b bs IH]; [done|]. cbn [fold_right String.append]. by rewrite IH. }
    apply percent_decode_bytes, utf8_char_ok.
Qed.

Lemma decode_encode_URI s : decodeURIComponent (encodeURIComponent s) = Some s.
Proof.
  unfold decodeURIComponent. assert (percent_decode (encodeURIComponent s) = Some (utf8 s)) as ->;
    [|apply fromUtf8_utf8].
  unfold encodeURIComponent. induction s as [|c s IH]; [done|]. cbn [chars fold_right utf8].
  by rewrite percent_decode_char, IH.
Qed.
