(* ===== verification/Cookie.v ===== *)
(** * Cookie identity, attributes and origin policy
    (packages/protocol/src/cookie.ts, continuity.ts; packages/config/src/corpus.ts) *)

From S2P Require Export Hlc Encoding JsMap.
From Stdlib Require Import Ascii.

(** ** Causes *)

Inductive Cause :=
| WRITE | EXPLICIT_DELETE | EXPIRED | OVERWRITE | EVICTED | HYDRATION_ECHO.

#[export] Instance Cause_eq_dec : EqDecision Cause.
Proof. solve_decision. Defined.

(** [DELETION_CAUSES.has(cause)]. *)
Definition DELETION_CAUSES (c : Cause) : bool :=
  match c with EXPLICIT_DELETE | EXPIRED | EVICTED => true | _ => false end.

(** The wire spelling of a cause. *)
Definition cause_string (c : Cause) : string :=
  match c with
  | WRITE => "WRITE" | EXPLICIT_DELETE => "EXPLICIT_DELETE" | EXPIRED => "EXPIRED"
  | OVERWRITE => "OVERWRITE" | EVICTED => "EVICTED" | HYDRATION_ECHO => "HYDRATION_ECHO"
  end.

(** ** Identity and payload *)

Inductive SourceScheme := scheme_unset | scheme_nonsecure | scheme_secure.
Inductive SameSite := ss_unspecified | ss_no_restriction | ss_lax | ss_strict.
Inductive CookiePriority := prio_low | prio_medium | prio_high.

#[export] Instance SourceScheme_eq_dec : EqDecision SourceScheme.
Proof. solve_decision. Defined.
#[export] Instance SameSite_eq_dec : EqDecision SameSite.
Proof. solve_decision. Defined.
#[export] Instance CookiePriority_eq_dec : EqDecision CookiePriority.
Proof. solve_decision. Defined.

Definition scheme_string (s : SourceScheme) : string :=
  match s with
  | scheme_unset => "unset" | scheme_nonsecure => "nonsecure" | scheme_secure => "secure"
  end.

Definition sameSite_string (s : SameSite) : string :=
  match s with
  | ss_unspecified => "unspecified" | ss_no_restriction => "no_restriction"
  | ss_lax => "lax" | ss_strict => "strict"
  end.

Record CookieIdentity := mkIdentity {
  ci_spaceId : string;
  ci_hostKey : string;
  ci_name : string;
  ci_path : string;
  ci_partitionKey : string;
  ci_sourceScheme : SourceScheme
}.

Record CookieAttributes := mkAttributes {
  ca_value : string;
  ca_expiresMs : option Z;
  ca_persistent : bool;
  ca_secure : bool;
  ca_httpOnly : bool;
  ca_sameSite : SameSite;
  ca_priority : CookiePriority
}.

Record CookiePlain := mkPlain {
  cp_identity : CookieIdentity;
  cp_attributes : option CookieAttributes;
  cp_deleted : bool
}.

#[export] Instance CookieIdentity_eq_dec : EqDecision CookieIdentity.
Proof. solve_decision. Defined.
#[export] Instance CookieAttributes_eq_dec : EqDecision CookieAttributes.
Proof. solve_decision. Defined.
#[export] Instance CookiePlain_eq_dec : EqDecision CookiePlain.
Proof. solve_decision. Defined.

Definition hostKeyIsHostOnly (hostKey : string) : bool := negb (startsWith hostKey ".").

Definition normalizedHost (hostKey : string) : string :=
  let h := toLowerCase hostKey in
  if startsWith h "." then slice_from 1 h else h.

Definition IDENTITY_DOMAIN : string := "suma.cookie.identity.v1".

Definition canonicalIdentityBytes (id : CookieIdentity) : bytes :=
  lengthPrefixed
    [PStr IDENTITY_DOMAIN; PStr (ci_spaceId id); PStr (ci_hostKey id); PStr (ci_name id);
     PStr (ci_path id); PStr (ci_partitionKey id);
     PStr (scheme_string (ci_sourceScheme id))].

(** ** Origin policy *)

Inductive ContinuityMode := portable | assisted | device_bound.
Inductive SyncTier := tier0 | tier1 | tier2.

Definition sync_tier_nonzero (t : SyncTier) : bool :=
  match t with tier0 => false | _ => true end.

Record OriginPolicy := mkPolicy {
  op_domain : string;
  op_label : string;
  op_mode : ContinuityMode;
  op_syncTier : SyncTier;
  op_rotatingAuth : bool;
  op_sensitive : bool;
  op_localStorageSync : bool
}.

Definition UNTESTED_ORIGIN_POLICY : OriginPolicy :=
  mkPolicy "" "Untested origin" assisted tier0 false false false.

Definition hostMatchesDomain (host domain : string) : bool :=
  String.eqb host domain || endsWith host ("." +:+ domain).

(** The loop of [matchOriginPolicy]: the longest matching domain, the first of
    equally long ones. *)
Definition policy_step (h : string) (best : option OriginPolicy) (p : OriginPolicy)
    : option OriginPolicy :=
  if hostMatchesDomain h (op_domain p)
     && match best with
        | None => true
        | Some b => (String.length (op_domain b) <? String.length (op_domain p))%nat
        end
  then Some p else best.

Definition matchOriginPolicy (policies : list OriginPolicy) (host : string) : OriginPolicy :=
  let l := toLowerCase host in
  let h := if startsWith l "." then slice_from 1 l else l in
  match fold_left (policy_step h) policies None with
  | Some p => p
  | None => UNTESTED_ORIGIN_POLICY
  end.

(** The seed corpus of supported origins. *)
Definition SEED_CORPUS : list OriginPolicy :=
  [
   mkPolicy "github.com" "GitHub" portable tier1 false false false;
   mkPolicy "gitlab.com" "GitLab" portable tier1 false false false;
   mkPolicy "linear.app" "Linear" portable tier1 false false false;
   mkPolicy "vercel.com" "Vercel" portable tier1 false false false;
   mkPolicy "netlify.com" "Netlify" portable tier1 false false false;
   mkPolicy "fly.io" "Fly.io" portable tier1 false false false;
   mkPolicy "cloudflare.com" "Cloudflare" assisted tier1 true false false;
   mkPolicy "npmjs.com" "npm" portable tier1 false false false;
   mkPolicy "pypi.org" "PyPI" portable tier1 false false false;
   mkPolicy "crates.io" "crates.io" portable tier1 false false false;
   mkPolicy "stackoverflow.com" "Stack Overflow" portable tier1 false false false;
   mkPolicy "huggingface.co" "Hugging Face" portable tier1 false false false;
   mkPolicy "openai.com" "OpenAI" assisted tier1 true false false;
   mkPolicy "anthropic.com" "Anthropic" assisted tier1 true false false;
   mkPolicy "claude.ai" "Claude" assisted tier1 true false false;
   mkPolicy "sentry.io" "Sentry" portable tier1 false false false;
   mkPolicy "datadoghq.com" "Datadog" assisted tier1 false false false;
   mkPolicy "grafana.com" "Grafana Cloud" portable tier1 false false false;
   mkPolicy "supabase.com" "Supabase" portable tier1 false false false;
   mkPolicy "neon.tech" "Neon" portable tier1 false false false;
   mkPolicy "render.com" "Render" portable tier1 false false false;
   mkPolicy "google.com" "Google Workspace" assisted tier1 true false false;
   mkPolicy "gmail.com" "Gmail" assisted tier1 true false false;
   mkPolicy "notion.so" "Notion" portable tier1 false false true;
   mkPolicy "figma.com" "Figma" portable tier1 false false false;
   mkPolicy "slack.com" "Slack" assisted tier1 true false true;
   mkPolicy "discord.com" "Discord" assisted tier1 true false false;
   mkPolicy "x.com" "X" portable tier1 false false false;
   mkPolicy "linkedin.com" "LinkedIn" assisted tier1 false false false;
   mkPolicy "atlassian.net" "Jira / Confluence" assisted tier1 true false false;
   mkPolicy "asana.com" "Asana" portable tier1 false false false;
   mkPolicy "airtable.com" "Airtable" portable tier1 false false false;
   mkPolicy "loom.com" "Loom" portable tier1 false false false;
   mkPolicy "zoom.us" "Zoom" assisted tier0 false false false;
   mkPolicy "netflix.com" "Netflix" device_bound tier0 false false false;
   mkPolicy "spotify.com" "Spotify" assisted tier1 true false false;
   mkPolicy "youtube.com" "YouTube" assisted tier1 true false false;
   mkPolicy "chase.com" "Chase" device_bound tier0 true true false;
   mkPolicy "bankofamerica.com" "Bank of America" device_bound tier0 true true false;
   mkPolicy "fidelity.com" "Fidelity" device_bound tier0 true true false;
   mkPolicy "stripe.com" "Stripe" assisted tier0 true true false;
   mkPolicy "aws.amazon.com" "AWS Console" assisted tier0 true true false;
   mkPolicy "console.cloud.google.com" "GCP Console" assisted tier0 true true false;
   mkPolicy "okta.com" "Okta (corporate SSO)" device_bound tier0 true true false
  ].

(** ** Lemmas *)

Lemma scheme_string_inj a b : scheme_string a = scheme_string b → a = b.
Proof. by destruct a, b. Qed.

Lemma canonicalIdentityBytes_inj a b :
  (∀ s, s ∈ [ci_spaceId a; ci_hostKey a; ci_name a; ci_path a; ci_partitionKey a;
             ci_spaceId b; ci_hostKey b; ci_name b; ci_path b; ci_partitionKey b] →
     Z.of_nat (length (utf8 s)) < 2 ^ 32) →
  canonicalIdentityBytes a = canonicalIdentityBytes b → a = b.
Proof.
  intros Hfit H. apply lengthPrefixed_inj in H.
  - destruct a as [sa ha na pa ka ca], b as [sb hb nb pb kb cb]; simpl in H.
    injection H as H1 H2 H3 H4 H5 H6.
    apply utf8_inj in H1, H2, H3, H4, H5, H6. apply scheme_string_inj in H6. by subst.
  - rewrite !Forall_cons. unfold part_fits. cbn [part_bytes].
    split; [vm_compute; done|].
    repeat (split; [apply Hfit; rewrite !elem_of_cons; tauto|]).
    split; [by destruct (ci_sourceScheme a)|apply Forall_nil_2].
  - rewrite !Forall_cons. unfold part_fits. cbn [part_bytes].
    split; [vm_compute; done|].
    repeat (split; [apply Hfit; rewrite !elem_of_cons; tauto|]).
    split; [by destruct (ci_sourceScheme b)|apply Forall_nil_2].
Qed.

Definition policy_matches (h : string) (p : OriginPolicy) : Prop :=
  hostMatchesDomain h (op_domain p) = true.

(** What the accumulator of [matchOriginPolicy] means after a prefix. *)
Definition policy_best (h : string) (ps : list OriginPolicy) (r : option OriginPolicy) : Prop :=
  match r with
  | None => ∀ p, p ∈ ps → ¬ policy_matches h p
  | Some b => b ∈ ps ∧ policy_matches h b
      ∧ ∀ p, p ∈ ps → policy_matches h p →
          (String.length (op_domain p) <= String.length (op_domain b))%nat
  end.

Lemma policy_fold_best h ps qs r :
  policy_best h qs r → policy_best h (qs ++ ps) (fold_left (policy_step h) ps r).
Proof.
  revert qs r. induction ps as [|p ps IH]; intros qs r Hr; simpl.
  { by rewrite app_nil_r. }
  replace (qs ++ p :: ps) with ((qs ++ [p]) ++ ps) by (by rewrite <- app_assoc).
  apply IH. unfold policy_step.
  destruct (hostMatchesDomain h (op_domain p)) eqn:Hm; simpl.
  - destruct r as [b|]; simpl.
    + destruct Hr as (Hin & Hb & Hmax).
      destruct (_ <? _)%nat eqn:Hlt; simpl.
      * apply Nat.ltb_lt in Hlt. split; [set_solver|]. split; [done|].
        intros q [Hq| ->%list_elem_of_singleton]%elem_of_app Hqm; [|lia].
        specialize (Hmax q Hq Hqm). lia.
      * apply Nat.ltb_ge in Hlt. split; [set_solver|]. split; [done|].
        intros q [Hq| ->%list_elem_of_singleton]%elem_of_app Hqm; auto.
    + split; [set_solver|]. split; [done|].
      intros q [Hq| ->%list_elem_of_singleton]%elem_of_app Hqm; [|lia].
      by destruct (Hr q Hq).
  - unfold policy_best in *. destruct r as [b|].
    + destruct Hr as (Hin & Hb & Hmax). split; [set_solver|]. split; [done|].
      intros q [Hq| ->%list_elem_of_singleton]%elem_of_app Hqm; [auto|].
      unfold policy_matches in Hqm. congruence.
    + intros q [Hq| ->%list_elem_of_singleton]%elem_of_app; [auto|].
      unfold policy_matches. congruence.
Qed.

Lemma policy_fold_spec h ps : policy_best h ps (fold_left (policy_step h) ps None).
Proof. apply (policy_fold_best h ps []). intros p Hp. set_solver. Qed.

(** ** Properties *)

(** C3: the bytes hashed into a record id determine the whole Chromium identity
    tuple (space, host key, name, path, partition key, scheme): two distinct
    cookies never share a canonical encoding, whatever their field contents. *)
Theorem canonicalIdentityBytes_injective a b :
  (∀ s, s ∈ [ci_spaceId a; ci_hostKey a; ci_name a; ci_path a; ci_partitionKey a;
             ci_spaceId b; ci_hostKey b; ci_name b; ci_path b; ci_partitionKey b] →
     Z.of_nat (length (utf8 s)) < 2 ^ 32) →
  canonicalIdentityBytes a = canonicalIdentityBytes b ↔ a = b.
Proof.
  intros Hfit. split; [by apply canonicalIdentityBytes_inj|by intros ->].
Qed.

Lemma canonicalIdentityBytes_injective_witness :
  canonicalIdentityBytes (mkIdentity "s" "a" "bc" "/" "" scheme_secure)
  ≠ canonicalIdentityBytes (mkIdentity "s" "ab" "c" "/" "" scheme_secure).
Proof.
  intros H. apply canonicalIdentityBytes_injective in H; [discriminate H|].
  intros s Hs. repeat (apply elem_of_cons in Hs as [->|Hs]; [vm_compute; done|]).
  by apply not_elem_of_nil in Hs.
Defined.

(** [matchOriginPolicy] is longest-suffix matching: it returns a listed
    policy that covers the host and whose domain is at least as long as that of
    every listed policy covering it, and the untested default exactly when no
    listed policy covers the host. *)
Theorem matchOriginPolicy_longest ps host :
  let h := normalizedHost host in
  (matchOriginPolicy ps host ∈ ps ∧ policy_matches h (matchOriginPolicy ps host)
   ∧ ∀ p, p ∈ ps → policy_matches h p →
       (String.length (op_domain p)
        <= String.length (op_domain (matchOriginPolicy ps host)))%nat)
  ∨ (matchOriginPolicy ps host = UNTESTED_ORIGIN_POLICY ∧ ∀ p, p ∈ ps → ¬ policy_matches h p).
Proof.
  simpl. unfold matchOriginPolicy, normalizedHost.
  set (h := if startsWith _ _ then _ else _).
  pose proof (policy_fold_spec h ps) as H.
  destruct (fold_left (policy_step h) ps None) as [b|]; simpl in H; [left|right]; auto.
Qed.
