(* ===== verification/Messages.v ===== *)
(** * Wire records, version tokens and protocol messages
    (packages/protocol/src/messages.ts) *)

From S2P Require Export Cookie.
From Stdlib Require Import Ascii.

(** ** Version tokens *)

Definition makeVersionToken (recordIdHex : string) (h : Hlc) : string :=
  recordIdHex +:+ "@" +:+ toString16 (physicalMs h) +:+ "-" +:+ toString16 (logical h)
  +:+ "-" +:+ deviceId h.

(** [None] is the thrown [malformed version token]. *)
Definition parseVersionToken (token : string) : option (string * Hlc) :=
  match indexOf_char "@" token with
  | None => None
  | Some at_ =>
      let recordId := slice 0 at_ token in
      let rest := slice_from (S at_) token in
      match indexOf_char "-" rest with
      | None => None
      | Some first =>
          match indexOf_from "-" (S first) rest with
          | None => None
          | Some second =>
              let device := slice_from (S second) rest in
              match parseInt16 (slice 0 first rest), parseInt16 (slice (S first) second rest) with
              | Some p, Some l =>
                  if (String.length device =? 0)%nat then None
                  else Some (recordId, mkHlc p l device)
              | _, _ => None
              end
          end
      end
  end.

(** ** Wire records *)

Record CookieRecordWire := mkWire {
  w_spaceId : string;
  w_recordId : string;
  w_originId : string;
  w_sealedRecord : string;
  w_hlc : Hlc;
  w_causalParent : option string;
  w_deviceSig : string;
  w_cause : Cause
}.

Record WorkspaceRecordWire := mkWsWire {
  ws_key : string;
  ws_sealedValue : option string;
  ws_hlc : Hlc;
  ws_deviceSig : string
}.

Record DevicePresence := mkPresence {
  dp_deviceId : string;
  dp_online : bool;
  dp_lastSeenMs : Z
}.

#[export] Instance CookieRecordWire_eq_dec : EqDecision CookieRecordWire.
Proof. solve_decision. Defined.
#[export] Instance WorkspaceRecordWire_eq_dec : EqDecision WorkspaceRecordWire.
Proof. solve_decision. Defined.
#[export] Instance DevicePresence_eq_dec : EqDecision DevicePresence.
Proof. solve_decision. Defined.

Inductive RejectReason := lease_required | bad_signature | stale_rejection | malformed_rejection.

Record PublishRejection := mkRejection {
  pr_recordId : string;
  pr_reason : RejectReason
}.

(** ** Client to server *)

Inductive ClientMessage :=
| MHello (deviceId : string) (spaceIds : list string)
| MPublish (records : list CookieRecordWire)
| MHydrate (spaceId : string) (sinceHlc : option Hlc)
| MLeaseAcquire (spaceId originId : string) (force : option bool)
    (recordId : option string) (candidateHlc : option Hlc) (ttlMs : option Z)
| MLeaseRelease (spaceId originId : string)
| MRollback (spaceId originId : string) (toHlc : Hlc)
| MWorkspacePublish (docs : list WorkspaceRecordWire)
| MWorkspaceHydrate (sinceHlc : option Hlc)
| MPing.

(** ** Server to client *)

Inductive ServerMessage :=
| SHelloAck (serverTimeMs : Z) (presence : list DevicePresence)
| SPublishAck (accepted : list string) (rejected : list PublishRejection)
| SRecords (spaceId : string) (records : list CookieRecordWire)
| SHydrateDone (spaceId : string) (count : Z) (watermark : option Hlc)
| SLeaseGranted (spaceId originId holderDeviceId : string) (expiresAtMs : Z)
| SLeaseDenied (spaceId originId holderDeviceId : string) (expiresAtMs : Z)
| SLeaseRevoked (spaceId originId newHolderDeviceId : string)
| SRollbackApplied (spaceId originId : string) (toHlc : Hlc)
| SWorkspaceRecords (docs : list WorkspaceRecordWire)
| SWorkspaceHydrateDone (count : Z)
| SPresence (devices : list DevicePresence)
| SPong
| SError (code message : string).

(** ** Sorting *)

(** [sortByHlc]: oldest first; [key] projects the record's HLC. *)
Definition sortByHlc {A} (key : A → Hlc) (records : list A) : list A :=
  sort_by (λ a b, compareHlc (key a) (key b)) records.

(** ** Lemmas *)

(** The record ids on the wire are hexadecimal, so they hold no separator. *)
Definition token_ok (recordId : string) (h : Hlc) : Prop :=
  all_chars (λ c, c ≠ "@"%char) recordId ∧ 0 <= physicalMs h ∧ 0 <= logical h
  ∧ deviceId h ≠ "".

Lemma parse_make_token recordId h :
  token_ok recordId h → parseVersionToken (makeVersionToken recordId h) = Some (recordId, h).
Proof.
  intros (Hid & Hp & Hl & Hd).
  destruct (toString16_spec (physicalMs h) Hp) as (Cp & Vp & Lp & _).
  destruct (toString16_spec (logical h) Hl) as (Cl & Vl & Ll & _).
  unfold parseVersionToken, makeVersionToken.
  set (p := toString16 (physicalMs h)) in *. set (l := toString16 (logical h)) in *.
  change ("@" +:+ p +:+ "-" +:+ l +:+ "-" +:+ deviceId h)
    with (String "@" (p +:+ String "-" (l +:+ String "-" (deviceId h)))).
  set (rest := p +:+ _).
  rewrite indexOf_char_app, slice_0_app by done.
  assert (slice_from (S (String.length recordId)) (recordId +:+ String "@" rest) = rest) as ->.
  { rewrite <- (Nat.add_1_r (String.length recordId)), slice_from_app_plus. done. }
  unfold rest.
  rewrite indexOf_char_app by (apply lower_hex_sep; [done|eval_codes; lia]).
  rewrite slice_0_app, parseInt16_hex, Vp by (done || lia).
  assert (∀ t, p +:+ String "-" t = (p +:+ "-") +:+ t) as Hsplit
    by (intros; by rewrite sapp_assoc).
  assert (S (String.length p) = String.length (p +:+ "-")) as HS
    by (rewrite slength_app; simpl; lia).
  rewrite HS, (Hsplit (l +:+ _)), indexOf_from_app by (apply lower_hex_sep; [done|eval_codes; lia]).
  unfold slice. rewrite slice_from_app.
  replace (String.length (p +:+ "-") + String.length l - String.length (p +:+ "-"))%nat
    with (String.length l) by lia.
  rewrite slice_to_app, parseInt16_hex, Vl by (done || lia).
  replace (S (String.length (p +:+ "-") + String.length l))%nat
    with (String.length (p +:+ "-") + (String.length l + 1))%nat by lia.
  rewrite slice_from_app_plus, slice_from_app_plus. simpl slice_from.
  destruct h as [ph lh [|c dh]]; simpl in *; done.
Qed.

Lemma makeVersionToken_inj recordId h1 h2 :
  token_ok recordId h1 → token_ok recordId h2 →
  makeVersionToken recordId h1 = makeVersionToken recordId h2 → h1 = h2.
Proof.
  intros H1 H2 H. apply (f_equal parseVersionToken) in H.
  rewrite !parse_make_token in H by done. congruence.
Qed.

Section SortByHlc.
Context {A : Type} (key : A → Hlc).

Lemma sortByHlc_perm l : Permutation (sortByHlc key l) l.
Proof. apply sort_by_perm. Qed.

Lemma sortByHlc_sorted l :
  StronglySorted (λ a b, hlc_le (key a) (key b)) (sortByHlc key l).
Proof.
  apply sort_by_sorted.
  - intros a b. apply compareHlc_antisym.
  - intros a b c. apply hlc_le_trans.
Qed.

Lemma elem_of_sortByHlc x l : x ∈ sortByHlc key l ↔ x ∈ l.
Proof. by rewrite sortByHlc_perm. Qed.

Lemma length_sortByHlc l : length (sortByHlc key l) = length l.
Proof. apply Permutation_length, sortByHlc_perm. Qed.
End SortByHlc.

(** ** Properties *)

(** Version tokens name exactly one version: for a record id without the
    [@] separator, non-negative counters and a device id, parsing the token
    recovers the record id and the timestamp. *)
Theorem parseVersionToken_make recordId h :
  token_ok recordId h →
  parseVersionToken (makeVersionToken recordId h) = Some (recordId, h).
Proof. apply parse_make_token. Qed.

Lemma parseVersionToken_make_witness :
  parseVersionToken (makeVersionToken "00ff" (mkHlc 1700000000000 5 "mac-a-1"))
  = Some ("00ff", mkHlc 1700000000000 5 "mac-a-1").
Proof.
  apply parseVersionToken_make. split; [|split; [|split]]; try done.
  repeat constructor; done.
Defined.
