(* ===== verification/Json.v ===== *)
(** * [JSON.stringify] and [JSON.parse]

    Values as trees: an object is the list of its members in property order,
    numbers are the integers of the exact range.  A numeral with a fraction or
    an exponent, or an escape beyond Latin-1, is outside the model and parses
    to [None], as a syntax error does. *)

From S2P Require Export JsString JsMap.
From Stdlib Require Import Ascii.


(** ** Values *)

Inductive json :=
| JNull
| JBool (b : bool)
| JNum (n : Z)
| JStr (s : string)
| JArr (l : list json)
| JObj (m : list (string * json)).

(** Induction with the hypotheses of the nested lists. *)
Section JsonInd.
Context (P : json → Prop)
  (HNull : P JNull) (HBool : ∀ b, P (JBool b)) (HNum : ∀ n, P (JNum n))
  (HStr : ∀ s, P (JStr s)) (HArr : ∀ l, Forall P l → P (JArr l))
  (HObj : ∀ m, Forall (λ kv, P kv.2) m → P (JObj m)).

Fixpoint json_ind' (j : json) : P j :=
  match j with
  | JNull => HNull
  | JBool b => HBool b
  | JNum n => HNum n
  | JStr s => HStr s
  | JArr l =>
      HArr l ((fix go l := match l return Forall P l with
                           | [] => Forall_nil_2 P
                           | x :: l' => Forall_cons_2 P x l' (json_ind' x) (go l')
                           end) l)
  | JObj m =>
      HObj m ((fix go m := match m return Forall (λ kv, P kv.2) m with
                           | [] => Forall_nil_2 _
                           | kv :: m' => Forall_cons_2 _ kv m' (json_ind' kv.2) (go m')
                           end) m)
  end.
End JsonInd.

(** ** Printing *)

Definition c_quote : ascii := Ascii false true false false false true false false.
Definition c_backslash : ascii := Ascii false false true true true false true false.

Definition escape_char (c : ascii) : string :=
  let n := code c in
  if Ascii.eqb c c_quote then String c_backslash (String c_quote "")
  else if Ascii.eqb c c_backslash then String c_backslash (String c_backslash "")
  else if n =? 8 then String c_backslash "b"
  else if n =? 9 then String c_backslash "t"
  else if n =? 10 then String c_backslash "n"
  else if n =? 12 then String c_backslash "f"
  else if n =? 13 then String c_backslash "r"
  else if n <? 32 then
    String c_backslash ("u00" +:+ String (hex_digit (n / 16)) (String (hex_digit (n mod 16)) ""))
  else String c "".

Fixpoint escape (s : string) : string :=
  match s with
  | EmptyString => EmptyString
  | String c s' => escape_char c +:+ escape s'
  end.

Definition quoted (s : string) : string := String c_quote (escape s +:+ String c_quote "").

Fixpoint stringify (j : json) : string :=
  match j with
  | JNull => "null"
  | JBool b => if b then "true" else "false"
  | JNum n => toString10 n
  | JStr s => quoted s
  | JArr l => "[" +:+ str_join "," (map stringify l) +:+ "]"
  | JObj m => "{" +:+ str_join "," (map (λ '(k, v), quoted k +:+ ":" +:+ stringify v) m) +:+ "}"
  end.

(** ** Parsing *)

Definition is_json_space (c : ascii) : bool :=
  let n := code c in (n =? 9) || (n =? 10) || (n =? 13) || (n =? 32).

Fixpoint skip_ws (s : string) : string :=
  match s with
  | String c s' => if is_json_space c then skip_ws s' else s
  | EmptyString => EmptyString
  end.

(** The character named by a one-letter escape. *)
Definition unescape1 (c : ascii) : option ascii :=
  if Ascii.eqb c c_quote then Some c_quote
  else if Ascii.eqb c c_backslash then Some c_backslash
  else if Ascii.eqb c "/" then Some "/"%char
  else if Ascii.eqb c "b" then Some (chr 8)
  else if Ascii.eqb c "t" then Some (chr 9)
  else if Ascii.eqb c "n" then Some (chr 10)
  else if Ascii.eqb c "f" then Some (chr 12)
  else if Ascii.eqb c "r" then Some (chr 13)
  else None.

Definition hex4 (a b c d : ascii) : option Z :=
  match hex_value a, hex_value b, hex_value c, hex_value d with
  | Some a, Some b, Some c, Some d => Some (((a * 16 + b) * 16 + c) * 16 + d)
  | _, _, _, _ => None
  end.

Definition cons_str (c : ascii) (r : option (string * string)) : option (string * string) :=
  match r with Some (s, rest) => Some (String c s, rest) | None => None end.

(** The body of a string literal, after the opening quote. *)
Fixpoint parse_str (s : string) : option (string * string) :=
  match s with
  | EmptyString => None
  | String c t =>
      if Ascii.eqb c c_quote then Some (EmptyString, t)
      else if Ascii.eqb c c_backslash then
        match t with
        | String e t' =>
            match unescape1 e with
            | Some x => cons_str x (parse_str t')
            | None =>
                match e, t' with
                | "u"%char, String h1 (String h2 (String h3 (String h4 t''))) =>
                    match hex4 h1 h2 h3 h4 with
                    | Some n => if n <? 256 then cons_str (chr n) (parse_str t'') else None
                    | None => None
                    end
                | _, _ => None
                end
            end
        | EmptyString => None
        end
      else if code c <? 32 then None
      else cons_str c (parse_str t)
  end.

(** A run of decimal digits, and what follows it. *)
Fixpoint parse_digits (s : string) (acc : Z) : Z * string :=
  match s with
  | String c t =>
      match dec_value c with
      | Some d => parse_digits t (acc * 10 + d)
      | None => (acc, s)
      end
  | EmptyString => (acc, s)
  end.

(** No numeral continues here. *)
Definition num_end (s : string) : bool :=
  match s with
  | String c _ =>
      negb (Ascii.eqb c "." || Ascii.eqb c "e" || Ascii.eqb c "E")
      && match dec_value c with Some _ => false | None => true end
  | EmptyString => true
  end.

Definition parse_nat (s : string) : option (Z * string) :=
  match s with
  | String c t =>
      match dec_value c with
      | None => None
      | Some d =>
          let '(n, rest) := if d =? 0 then (0, t) else parse_digits t d in
          if num_end rest then Some (n, rest) else None
      end
  | EmptyString => None
  end.

Definition parse_num (s : string) : option (json * string) :=
  match s with
  | String "-" t => match parse_nat t with Some (n, r) => Some (JNum (- n), r) | None => None end
  | _ => match parse_nat s with Some (n, r) => Some (JNum n, r) | None => None end
  end.

Section Composite.
Context (pv : string → option (json * string)).

(** The elements of an array, after the opening bracket. *)
Fixpoint parse_elems (fuel : nat) (s : string) : option (list json * string) :=
  match fuel with
  | O => None
  | S f =>
      match pv s with
      | None => None
      | Some (v, r) =>
          match skip_ws r with
          | String "," r' =>
              match parse_elems f r' with Some (vs, r'') => Some (v :: vs, r'') | None => None end
          | String "]" r' => Some ([v], r')
          | _ => None
          end
      end
  end.

(** The members of an object, after the opening brace. *)
Fixpoint parse_members (fuel : nat) (s : string) : option (list (string * json) * string) :=
  match fuel with
  | O => None
  | S f =>
      match skip_ws s with
      | String c t =>
          if Ascii.eqb c c_quote then
            match parse_str t with
            | None => None
            | Some (k, r) =>
                match skip_ws r with
                | String ":" r1 =>
                    match pv r1 with
                    | None => None
                    | Some (v, r2) =>
                        match skip_ws r2 with
                        | String "," r' =>
                            match parse_members f r' with
                            | Some (kvs, r'') => Some ((k, v) :: kvs, r'')
                            | None => None
                            end
                        | String "}" r' => Some ([(k, v)], r')
                        | _ => None
                        end
                    end
                | _ => None
                end
            end
          else None
      | EmptyString => None
      end
  end.
End Composite.

(** A repeated key keeps its first position and takes the last value. *)
Definition object_of (kvs : list (string * json)) : list (string * json) :=
  fold_left (λ m '(k, v), map_set k v m) kvs jsmap_empty.

Fixpoint parse_value (fuel : nat) (s : string) : option (json * string) :=
  match fuel with
  | O => None
  | S f =>
      let s := skip_ws s in
      match s with
      | EmptyString => None
      | String c t =>
          if Ascii.eqb c c_quote then
            match parse_str t with Some (x, r) => Some (JStr x, r) | None => None end
          else if Ascii.eqb c "{" then
            match skip_ws t with
            | String "}" r => Some (JObj [], r)
            | _ => match parse_members (parse_value f) f t with
                   | Some (kvs, r) => Some (JObj (object_of kvs), r)
                   | None => None
                   end
            end
          else if Ascii.eqb c "[" then
            match skip_ws t with
            | String "]" r => Some (JArr [], r)
            | _ => match parse_elems (parse_value f) f t with
                   | Some (vs, r) => Some (JArr vs, r)
                   | None => None
                   end
            end
          else if startsWith s "null" then Some (JNull, slice_from 4 s)
          else if startsWith s "true" then Some (JBool true, slice_from 4 s)
          else if startsWith s "false" then Some (JBool false, slice_from 5 s)
          else parse_num s
      end
  end.

(** [JSON.parse]; [None] is the [SyntaxError]. *)
Definition parse (s : string) : option json :=
  match parse_value (S (String.length s)) s with
  | Some (j, r) => match skip_ws r with EmptyString => Some j | _ => None end
  | None => None
  end.

(** Member access; [None] is [undefined]. *)
Definition jget (k : string) (j : json) : option json :=
  match j with JObj m => map_get k m | _ => None end.

(** Values that [JSON.parse] can return: the keys of an object are distinct. *)
Fixpoint json_wf (j : json) : Prop :=
  match j with
  | JArr l => Forall id (map json_wf l)
  | JObj m => NoDup (map fst m) ∧ Forall id (map (λ '(_, v), json_wf v) m)
  | _ => True
  end.

Lemma json_wf_arr l : json_wf (JArr l) ↔ Forall json_wf l.
Proof. simpl. rewrite List.Forall_map. done. Qed.

Lemma json_wf_obj m :
  json_wf (JObj m) ↔ NoDup (map fst m) ∧ Forall (λ kv, json_wf kv.2) m.
Proof.
  simpl. rewrite List.Forall_map.
  assert (Forall (λ x : string * json, id (let '(_, v) := x in json_wf v)) m
    ↔ Forall (λ kv, json_wf kv.2) m) as ->; [|done].
  apply Forall_iff. by intros [].
Qed.

(** ** Lemmas: string literals *)

Lemma parse_str_escape_char c t :
  parse_str (escape_char c +:+ t) = cons_str c (parse_str t).
Proof. destruct c as [[] [] [] [] [] [] [] []]; reflexivity. Qed.

Lemma parse_str_escape s t :
  parse_str (escape s +:+ String c_quote t) = Some (s, t).
Proof.
  induction s as [|c s IH]; simpl; [done|].
  rewrite sapp_assoc, parse_str_escape_char, IH. done.
Qed.

(** ** Lemmas: numerals *)

Lemma dec_value_chr d : 0 <= d < 10 → dec_value (chr (48 + d)) = Some d.
Proof.
  intros H. unfold dec_value. rewrite code_chr by lia.
  replace (48 <=? 48 + d) with true by (symmetry; apply Z.leb_le; lia).
  replace (48 + d <=? 57) with true by (symmetry; apply Z.leb_le; lia).
  simpl. f_equal. lia.
Qed.

Lemma dec_digits_parse fuel n acc :
  (0 < fuel)%nat → 0 <= n < 10 ^ Z.of_nat fuel →
  ∃ d s, dec_digits fuel n acc = String (chr (48 + d)) (s +:+ acc)
    ∧ 0 <= d < 10 ∧ (d = 0 → n = 0 ∧ s = "")
    ∧ ∀ r, parse_digits (s +:+ r) d = parse_digits r n.
Proof.
  revert n acc. induction fuel as [|f IH]; intros n acc Hf Hn; [lia|]. simpl.
  destruct (n <? 10) eqn:E; bprop.
  - exists n, "". rewrite Z.mod_small by lia. repeat split; auto; lia.
  - assert (0 <= n / 10 < 10 ^ Z.of_nat f) as Hq.
    { split; [apply Z.div_pos; lia|]. apply Z.div_lt_upper_bound; [lia|].
      rewrite Nat2Z.inj_succ, Z.pow_succ_r in Hn by lia. lia. }
    assert (1 <= n / 10) by (apply Z.div_le_lower_bound; lia).
    destruct f as [|f]; [simpl in Hq; lia|].
    destruct (IH (n / 10) (String (chr (48 + n mod 10)) acc) ltac:(lia) Hq)
      as (d & s & -> & Hd & Hz & Hp).
    pose proof (Z.mod_pos_bound n 10 ltac:(lia)).
    exists d, (s +:+ String (chr (48 + n mod 10)) ""). rewrite sapp_assoc. simpl.
    split; [done|]. split; [done|]. split; [intros ->; destruct Hz; [done|lia]|].
    intros r. rewrite sapp_assoc, Hp. simpl. rewrite dec_value_chr by lia.
    f_equal. pose proof (Z.div_mod n 10). lia.
Qed.

Lemma parse_digits_end r n : num_end r = true → parse_digits r n = (n, r).
Proof.
  destruct r as [|c r]; simpl; [done|]. intros H. bprop. by destruct (dec_value c).
Qed.

Lemma log2_fuel_10 n : 0 <= n → n < 10 ^ Z.of_nat (S (Z.to_nat (Z.log2 n))).
Proof.
  intros H. rewrite Nat2Z.inj_succ, Z2Nat.id by apply Z.log2_nonneg.
  destruct (Z.eq_dec n 0) as [->|]; [done|].
  pose proof (Z.log2_spec n ltac:(lia)).
  pose proof (Z.pow_le_mono_l 2 10 (Z.succ (Z.log2 n)) ltac:(lia)). lia.
Qed.

(** The digits of a natural number: a digit, a rest, and how they parse. *)
Lemma toString10_nat n :
  0 <= n → ∃ d s, toString10 n = String (chr (48 + d)) s ∧ 0 <= d < 10
    ∧ ∀ r, num_end r = true → parse_nat (toString10 n +:+ r) = Some (n, r).
Proof.
  intros Hn. unfold toString10. destruct (n <? 0) eqn:E; [blia|].
  destruct (dec_digits_parse (S (Z.to_nat (Z.log2 n))) n "") as (d & s & -> & Hd & Hz & Hp);
    [lia|split; [done|by apply log2_fuel_10]|].
  exists d, s. rewrite sapp_nil_r. split; [done|]. split; [done|]. intros r Hr. simpl.
  rewrite dec_value_chr by done. destruct (d =? 0) eqn:Ed; bprop.
  - destruct (Hz Ed) as [-> ->]. simpl. by rewrite Hr.
  - by rewrite Hp, parse_digits_end, Hr.
Qed.

Lemma parse_num_neg t :
  parse_num (String "-" t) =
  match parse_nat t with Some (n, r) => Some (JNum (- n), r) | None => None end.
Proof. done. Qed.

Lemma parse_num_digit d t :
  0 <= d < 10 →
  parse_num (String (chr (48 + d)) t) =
  match parse_nat (String (chr (48 + d)) t) with
  | Some (n, r) => Some (JNum n, r) | None => None end.
Proof.
  intros H. assert (d = 0 ∨ d = 1 ∨ d = 2 ∨ d = 3 ∨ d = 4 ∨ d = 5 ∨ d = 6 ∨ d = 7 ∨ d = 8 ∨ d = 9)
    as Hd by lia.
  repeat destruct Hd as [->|Hd]; try (subst d); reflexivity.
Qed.

Lemma toString10_parse n r :
  num_end r = true → parse_num (toString10 n +:+ r) = Some (JNum n, r).
Proof.
  intros Hr. destruct (Z.ltb_spec n 0) as [Hn|Hn].
  - assert (toString10 n = String "-" (toString10 (- n))) as ->.
    { unfold toString10. rewrite (proj2 (Z.ltb_lt n 0)) by done.
      by rewrite (proj2 (Z.ltb_ge (- n) 0)) by lia. }
    destruct (toString10_nat (- n)) as (d & s & _ & _ & Hp); [lia|].
    cbn [String.append]. rewrite parse_num_neg, Hp by done. by rewrite Z.opp_involutive.
  - destruct (toString10_nat n Hn) as (d & s & Hs & Hd & Hp). specialize (Hp r Hr).
    rewrite Hs in *. cbn [String.append] in *. by rewrite parse_num_digit, Hp.
Qed.

(** ** Lemmas: dispatch on the first character *)

(** The characters a printed value starts with. *)
Definition value_head (c : ascii) : bool :=
  Ascii.eqb c c_quote || Ascii.eqb c "{" || Ascii.eqb c "[" || Ascii.eqb c "n"
  || Ascii.eqb c "t" || Ascii.eqb c "f" || Ascii.eqb c "-"
  || match dec_value c with Some _ => true | None => false end.

Lemma skip_ws_nonspace c t : is_json_space c = false → skip_ws (String c t) = String c t.
Proof. intros H. simpl. by rewrite H. Qed.

(** Step over a literal character at the head of the input. *)
Ltac at_char := rewrite skip_ws_nonspace by done; cbv match.

Lemma skip_ws_head c t : value_head c = true → skip_ws (String c t) = String c t.
Proof. destruct c as [[] [] [] [] [] [] [] []]; done. Qed.

Lemma stringify_head j : ∃ c s, stringify j = String c s ∧ value_head c = true.
Proof.
  destruct j as [|[]|n|s|l|m]; simpl; try (eexists _, _; split; [reflexivity|done]).
  destruct (Z.ltb_spec n 0) as [H|H].
  - unfold toString10. rewrite (proj2 (Z.ltb_lt _ _)) by done. by eexists _, _.
  - destruct (toString10_nat n H) as (d & s & -> & Hd & _). eexists _, _. split; [done|].
    unfold value_head. rewrite dec_value_chr by done. by rewrite orb_true_r.
Qed.

Lemma stringify_length j : (1 <= String.length (stringify j))%nat.
Proof. destruct (stringify_head j) as (c & s & -> & _). simpl. lia. Qed.

Lemma parse_value_num f n r :
  num_end r = true → parse_value (S f) (toString10 n +:+ r) = Some (JNum n, r).
Proof.
  intros Hr. pose proof (toString10_parse n r Hr) as Hp.
  destruct (stringify_head (JNum n)) as (c & s & Hs & Hc). simpl in Hs.
  rewrite Hs in *. cbn [String.append] in *. cbn [parse_value]. rewrite skip_ws_head by done.
  destruct c as [[] [] [] [] [] [] [] []]; try discriminate Hp; exact Hp.
Qed.

Lemma object_of_nodup_acc (kvs m : list (string * json)) :
  NoDup (map fst m ++ map fst kvs) →
  fold_left (λ m '(k, v), map_set k v m) kvs m = m ++ kvs.
Proof.
  revert m. induction kvs as [|[k v] kvs IH]; intros m H; simpl; [by rewrite app_nil_r|].
  simpl in H. assert (map_set k v m = m ++ [(k, v)]) as ->.
  { assert (k ∉ map fst m) as Hk.
    { apply NoDup_app in H as (_ & H & _). intros Hin. by apply (H k Hin), elem_of_cons; left. }
    clear H IH. induction m as [|[k' v'] m IH]; simpl in *; [done|].
    apply not_elem_of_cons in Hk as [Hne Hk]. rewrite decide_False by done. by rewrite IH. }
  rewrite IH; [by rewrite <- app_assoc|]. rewrite map_app. simpl. by rewrite <- app_assoc.
Qed.

Lemma object_of_nodup kvs : NoDup (map fst kvs) → object_of kvs = kvs.
Proof. intros. unfold object_of. by rewrite object_of_nodup_acc. Qed.

Section CompositeLemmas.
Context (pv : string → option (json * string)).

Lemma parse_elems_print l fuel r :
  l ≠ [] → (length l <= fuel)%nat →
  Forall (λ x, ∀ t, num_end t = true → pv (stringify x +:+ t) = Some (x, t)) l →
  parse_elems pv fuel (str_join "," (map stringify l) +:+ String "]" r) = Some (l, r).
Proof.
  revert l. induction fuel as [|f IH]; intros [|x l] Hne Hl Hall; simpl in Hl; [done|lia|done|].
  apply Forall_cons in Hall as [Hx Hall]. destruct l as [|y l].
  - cbn [map str_join parse_elems]. by rewrite Hx.
  - change (str_join "," (map stringify (x :: y :: l)))
      with (stringify x +:+ String "," (str_join "," (map stringify (y :: l)))).
    rewrite sapp_assoc. cbn [parse_elems]. rewrite Hx by done.
    cbn [String.append]. at_char.
    by rewrite IH by (done || simpl in *; lia).
Qed.

Definition print_member : string * json → string :=
  λ '(k, v), quoted k +:+ ":" +:+ stringify v.

Lemma parse_members_print m fuel r :
  m ≠ [] → (length m <= fuel)%nat →
  Forall (λ kv, ∀ t, num_end t = true → pv (stringify kv.2 +:+ t) = Some (kv.2, t)) m →
  parse_members pv fuel (str_join "," (map print_member m) +:+ String "}" r) = Some (m, r).
Proof.
  revert m. induction fuel as [|f IH]; intros [|[k v] m] Hne Hl Hall; simpl in Hl;
    [done|lia|done|].
  apply Forall_cons in Hall as [Hx Hall]. simpl in Hx.
  assert (∀ t, print_member (k, v) +:+ t
    = String c_quote (escape k +:+ String c_quote (String ":" (stringify v +:+ t)))) as Hm.
  { intros t. unfold print_member, quoted. cbn [String.append]. by rewrite !sapp_assoc. }
  destruct m as [|y m].
  - cbn [map str_join]. rewrite Hm. cbn [parse_members]. at_char.
    rewrite Ascii.eqb_refl, parse_str_escape. at_char. by rewrite Hx.
  - change (str_join "," (map print_member ((k, v) :: y :: m)))
      with (print_member (k, v) +:+ String "," (str_join "," (map print_member (y :: m)))).
    rewrite sapp_assoc, Hm. cbn [parse_members]. at_char.
    rewrite Ascii.eqb_refl, parse_str_escape. at_char.
    rewrite Hx by done. cbn [String.append]. at_char.
    by rewrite IH by (done || simpl in *; lia).
Qed.
End CompositeLemmas.

Lemma str_join_length x l :
  In x l → (String.length x + (length l - 1) <= String.length (str_join "," l))%nat.
Proof.
  induction l as [|y l IH]; [done|]. intros Hin. destruct l as [|z l].
  - destruct Hin as [->|[]]. simpl. lia.
  - change (str_join "," (y :: z :: l)) with (y +:+ "," +:+ str_join "," (z :: l)).
    rewrite !slength_app. simpl (String.length ","). destruct Hin as [->|Hin].
    + assert (length (z :: l) - 1 <= String.length (str_join "," (z :: l)))%nat; [|simpl in *; lia].
      clear. revert z. induction l as [|w l IH]; intros z; [simpl; lia|].
      change (str_join "," (z :: w :: l)) with (z +:+ "," +:+ str_join "," (w :: l)).
      specialize (IH w). rewrite !slength_app. simpl in *. lia.
    + apply IH in Hin. simpl in *. lia.
Qed.

Lemma stringify_arr_length l x :
  x ∈ l →
  (String.length (stringify x) + length l < String.length (stringify (JArr l)))%nat.
Proof.
  intros Hx. cbn [stringify String.append String.length]. rewrite slength_app. cbn [String.length].
  pose proof (str_join_length (stringify x) (map stringify l)) as Hj.
  rewrite length_map in Hj. apply list_elem_of_In in Hx. specialize (Hj (in_map _ _ _ Hx)). lia.
Qed.

Lemma stringify_obj_length m kv :
  kv ∈ m →
  (String.length (stringify kv.2) + length m < String.length (stringify (JObj m)))%nat.
Proof.
  intros Hx. change (stringify (JObj m)) with ("{" +:+ str_join "," (map print_member m) +:+ "}").
  cbn [String.append String.length]. rewrite slength_app. cbn [String.length].
  pose proof (str_join_length (print_member kv) (map print_member m)) as Hj.
  rewrite length_map in Hj. apply list_elem_of_In in Hx. specialize (Hj (in_map _ _ _ Hx)).
  destruct kv as [k v].
  change (print_member (k, v)) with (quoted k +:+ ":" +:+ stringify v) in Hj at 1.
  unfold quoted in Hj. cbn [String.append String.length] in Hj.
  rewrite !slength_app in Hj. cbn [String.append String.length] in Hj. simpl (_.2). lia.
Qed.

(** A parser given at least as much fuel as the text is long reads back what
    was printed, and stops where it stops. *)
Lemma parse_value_stringify j :
  json_wf j → ∀ fuel r, (String.length (stringify j) <= fuel)%nat → num_end r = true →
  parse_value fuel (stringify j +:+ r) = Some (j, r).
Proof.
  induction j as [|b|n|s|l IH|m IH] using json_ind'; intros Hwf fuel r Hf Hr;
    (destruct fuel as [|f]; [pose proof (stringify_length); simpl in Hf;
      try (match goal with H : (String.length (?a) <= 0)%nat |- _ =>
        match a with context [toString10 ?n] => pose proof (stringify_length (JNum n)) end end);
      try destruct b; simpl in *; lia|]).
  - done.
  - by destruct b.
  - by apply parse_value_num.
  - cbn [stringify]. unfold quoted. cbn [String.append parse_value]. simpl (skip_ws _).
    cbv match. rewrite sapp_assoc. simpl. by rewrite parse_str_escape.
  - destruct l as [|x l]; [done|]. set (xs := x :: l) in *.
    assert (Forall (λ x, ∀ t, num_end t = true →
      parse_value f (stringify x +:+ t) = Some (x, t)) xs ∧ (length xs <= f)%nat) as [Hall Hlen].
    { split.
      - apply json_wf_arr in Hwf. rewrite Forall_forall in IH, Hwf |- *. intros y Hy t Ht.
        apply IH; [done|by apply Hwf| |done]. pose proof (stringify_arr_length xs y Hy). lia.
      - pose proof (stringify_arr_length xs x (list_elem_of_here _ _)). lia. }
    pose proof (parse_elems_print (parse_value f) xs f r ltac:(done) Hlen Hall) as Hp.
    cbn [stringify String.append]. rewrite sapp_assoc. cbn [String.append].
    cbn [parse_value]. at_char. simpl (Ascii.eqb _ _). cbv match.
    destruct (stringify_head x) as (c & s & Hs & Hc).
    assert (∃ s', str_join "," (map stringify xs) +:+ String "]" r = String c s') as [s' Hs'].
    { unfold xs. destruct l; simpl; rewrite Hs; simpl; eauto. }
    rewrite Hs' in *. rewrite skip_ws_head by done. clear Hs Hs'.
    destruct c as [[] [] [] [] [] [] [] []]; try discriminate Hc; cbv match; by rewrite Hp.
  - destruct m as [|[k v] m]; [done|]. set (xs := (k, v) :: m) in *.
    assert (Forall (λ kv, ∀ t, num_end t = true →
      parse_value f (stringify kv.2 +:+ t) = Some (kv.2, t)) xs ∧ (length xs <= f)%nat)
      as [Hall Hlen].
    { split.
      - apply json_wf_obj in Hwf as [_ Hwf]. rewrite Forall_forall in IH, Hwf |- *.
        intros [k' y] Hy t Ht. apply (IH (k', y)); [done|by apply (Hwf (k', y))| |done].
        pose proof (stringify_obj_length xs (k', y) Hy). simpl in *. lia.
      - pose proof (stringify_obj_length xs (k, v) (list_elem_of_here _ _)). lia. }
    pose proof (parse_members_print (parse_value f) xs f r ltac:(done) Hlen Hall) as Hp.
    change (stringify (JObj xs)) with ("{" +:+ str_join "," (map print_member xs) +:+ "}").
    cbn [String.append]. rewrite sapp_assoc. cbn [String.append].
    cbn [parse_value]. at_char. simpl (Ascii.eqb _ _). cbv match.
    assert (∃ s', str_join "," (map print_member xs) +:+ String "}" r = String c_quote s')
      as [s' Hs'].
    { unfold xs. destruct m; simpl; eauto. }
    rewrite Hs' in *. at_char. rewrite Hp.
    by rewrite object_of_nodup by apply Hwf.
Qed.

Lemma parse_stringify j : json_wf j → parse (stringify j) = Some j.
Proof.
  intros H. unfold parse.
  rewrite <- (sapp_nil_r (stringify j)) at 2.
  by rewrite parse_value_stringify by (done || lia).
Qed.

(** ** Decimal text read back *)

Lemma parse_run_dec fuel n acc a :
  0 <= n < 10 ^ Z.of_nat fuel → (0 < fuel)%nat →
  ∃ k, 1 <= k ∧ n < 10 ^ k ∧
    parse_run 10 dec_value (dec_digits fuel n acc) a
    = parse_run 10 dec_value acc (Some (default 0 a * 10 ^ k + n)).
Proof.
  revert n acc a. induction fuel as [|fuel IH]; intros n acc a Hn Hf; [lia|]. cbn [dec_digits].
  pose proof (Z.mod_pos_bound n 10 ltac:(lia)) as Hm. destruct (n <? 10) eqn:E; bprop.
  - exists 1. split; [lia|]. split; [lia|]. cbn [parse_run].
    rewrite dec_value_chr by lia. do 2 f_equal. rewrite (Z.mod_small n) by lia. lia.
  - assert (fuel ≠ 0%nat) as Hf0 by (intros ->; cbn in Hn; lia).
    assert (10 ^ Z.of_nat (S fuel) = 10 * 10 ^ Z.of_nat fuel) as Hp
      by (rewrite Nat2Z.inj_succ, Z.pow_succ_r by lia; lia).
    assert (0 <= n / 10 < 10 ^ Z.of_nat fuel) as Hd.
    { split; [apply Z.div_pos; lia|]. apply Z.div_lt_upper_bound; lia. }
    destruct (IH (n / 10) (String (chr (48 + n mod 10)) acc) a Hd ltac:(lia)) as (k & Hk & Hlt & ->).
    exists (k + 1). split; [lia|]. pose proof (Z.div_mod n 10 ltac:(lia)) as Hdm.
    rewrite Z.pow_add_r by lia. change (10 ^ 1) with 10. split; [lia|]. cbn [parse_run].
    rewrite dec_value_chr by lia. do 2 f_equal. cbn [default from_option]. unfold id. lia.
Qed.

Lemma dec_digits_head fuel n acc :
  0 <= n → (0 < fuel)%nat → ∃ d s, dec_digits fuel n acc = String (chr (48 + d)) s ∧ 0 <= d < 10.
Proof.
  revert n acc. induction fuel as [|fuel IH]; intros n acc Hn Hf; [lia|]. cbn [dec_digits].
  pose proof (Z.mod_pos_bound n 10 ltac:(lia)) as Hm.
  destruct (n <? 10); [by eauto|]. destruct fuel as [|fuel]; [cbn; by eauto|].
  apply IH; [apply Z.div_pos; lia|lia].
Qed.

Lemma dec_digits_run n :
  0 <= n →
  parse_run 10 dec_value (dec_digits (S (Z.to_nat (Z.log2 n))) n "") None = Some n
  ∧ ∃ d s, dec_digits (S (Z.to_nat (Z.log2 n))) n "" = String (chr (48 + d)) s ∧ 0 <= d < 10.
Proof.
  intros Hn. pose proof (log2_fuel_10 n Hn) as Hl. set (fuel := S (Z.to_nat (Z.log2 n))) in *.
  destruct (parse_run_dec fuel n "" None ltac:(lia) ltac:(lia)) as (k & Hk & _ & ->).
  split; [|by apply dec_digits_head; lia]. cbn [parse_run default from_option]. f_equal; unfold id; lia.
Qed.

Lemma dec_char_not d c : 0 <= d < 10 → code c < 48 ∨ 57 < code c → Ascii.eqb (chr (48 + d)) c = false.
Proof. intros Hd Hc. apply ascii_eqb_ne. intros H%(f_equal code). rewrite code_chr in H by lia. lia. Qed.

Lemma parseInt10_toString10 n : 0 <= n → parseInt10 (toString10 n) = Some n.
Proof.
  intros Hn. unfold toString10. rewrite (proj2 (Z.ltb_ge n 0)) by done.
  destruct (dec_digits_run n Hn) as (Hr & d & s & E & Hd). rewrite E in *. unfold parseInt10. cbn [trim_start].
  assert (is_space (chr (48 + d)) = false) as ->.
  { unfold is_space. rewrite code_chr by lia. cbv zeta. repeat (apply orb_false_intro); try apply andb_false_intro2; lia. }
  rewrite !dec_char_not by first [done|vm_compute; auto].
  by rewrite Hr.
Qed.
