(* ===== verification/Keys.v ===== *)
(** * Key hierarchy, sealing and key wrapping (packages/protocol/src/keys.ts)

    WebCrypto is not part of the program: [WebCrypto] is the interface the
    sources call, [WebCryptoLaws] what they rely on (a ciphertext decrypts to
    its plaintext under the same key, iv and additional data; a signature
    verifies; digests are 32 bytes).  Random bytes are arguments. *)

From S2P Require Export Encoding.
From Stdlib Require Import Ascii.

(** ** The platform interface *)

Class WebCrypto := {
  CryptoKey : Type;
  hmac_sign : CryptoKey → bytes → bytes;
  aes_gcm_encrypt : CryptoKey → ∀ iv aad plaintext : bytes, bytes;
  aes_gcm_decrypt : CryptoKey → ∀ iv aad ciphertext : bytes, option bytes;
  ed25519_sign : CryptoKey → bytes → bytes;
  ed25519_verify : CryptoKey → ∀ signature data : bytes, bool;
  hkdf_aes : ∀ ikm salt info : bytes, CryptoKey;
  hkdf_hmac : ∀ ikm salt info : bytes, CryptoKey;
  pbkdf2_aes : ∀ password salt : bytes, Z → CryptoKey;
  ed25519_public : CryptoKey → CryptoKey
}.

Class WebCryptoLaws (W : WebCrypto) := {
  hmac_ok k data : bytes_ok (hmac_sign k data) ∧ length (hmac_sign k data) = 32%nat;
  aes_decrypt_encrypt k iv aad p : aes_gcm_decrypt k iv aad (aes_gcm_encrypt k iv aad p) = Some p;
  aes_encrypt_ok k iv aad p : bytes_ok p → bytes_ok (aes_gcm_encrypt k iv aad p);
  ed25519_verify_sign k data :
    ed25519_verify (ed25519_public k) (ed25519_sign k data) data = true;
  ed25519_sign_ok k data : bytes_ok (ed25519_sign k data)
}.

(** ** Space keys *)

Section Keys.
Context `{W : WebCrypto}.

Record SpaceKeys := mkSpaceKeys {
  sk_spaceId : string;
  sealKey : CryptoKey;
  idKey : CryptoKey
}.

Definition SPACE_ROOT_SECRET_BYTES : nat := 32.

Definition deriveSpaceKeys (spaceId : string) (rootSecret : bytes) : option SpaceKeys :=
  if negb (length rootSecret =? SPACE_ROOT_SECRET_BYTES)%nat then None
  else Some
    (mkSpaceKeys spaceId
       (hkdf_aes rootSecret (utf8 "suma.space.v1") (utf8 ("seal:" +:+ spaceId)))
       (hkdf_hmac rootSecret (utf8 "suma.space.v1") (utf8 ("id:" +:+ spaceId)))).

(** ** Sealing *)

Definition SEALED_VERSION : Z := 1.
Definition GCM_IV_BYTES : nat := 12.

(** [seal]: version, iv, ciphertext with its tag. *)
Definition seal (iv : bytes) (key : CryptoKey) (plaintext aad : bytes) : bytes :=
  concatBytes [[SEALED_VERSION]; iv; aes_gcm_encrypt key iv aad plaintext].

(** [open]; [None] is any of its exceptions. *)
Definition open (key : CryptoKey) (sealed aad : bytes) : option bytes :=
  match sealed with
  | v :: _ =>
      if negb (v =? SEALED_VERSION) then None
      else aes_gcm_decrypt key (take GCM_IV_BYTES (drop 1 sealed)) aad
             (drop (1 + GCM_IV_BYTES) sealed)
  | [] => None
  end.

(** ** Key-encryption keys and wrappers *)

Inductive KeyWrapperKind := passkey_prf | recovery_code | hardware_key | kms.

Record KeyWrapper := mkWrapper {
  kw_kind : KeyWrapperKind;
  kw_spaceId : string;
  kw_credentialId : string;
  kw_salt : string;
  kw_wrapped : string;
  kw_createdAtMs : Z
}.

Definition deriveKekFromPrf (prfOutput : bytes) (credentialId : string) : CryptoKey :=
  hkdf_aes prfOutput (utf8 "suma.kek.v1")
    (lengthPrefixed [PStr "passkey-prf"; PStr credentialId]).

Definition RECOVERY_CODE_PBKDF2_ITERATIONS : Z := 600000.
Definition RECOVERY_ALPHABET : string := "0123456789ABCDEFGHJKMNPQRSTVWXYZ".
Definition RECOVERY_GROUPS : nat := 8.
Definition RECOVERY_GROUP_LEN : nat := 4.

(** One character of a code from one random byte. *)
Definition recovery_char (random : bytes) (i : nat) : ascii :=
  default "0"%char
    (chars RECOVERY_ALPHABET !! Z.to_nat (default 0 (random !! i) mod 32)).

Definition recovery_group (random : bytes) (g : nat) : string :=
  of_chars (map (λ i, recovery_char random (g * RECOVERY_GROUP_LEN + i))
    (seq 0 RECOVERY_GROUP_LEN)).

Definition generateRecoveryCode (random : bytes) : string :=
  str_join "-" (map (recovery_group random) (seq 0 RECOVERY_GROUPS)).

Definition generateEnrollmentCode (random : bytes) : string :=
  str_join "-" (map (recovery_group random) (seq 0 3)).

(** [toUpperCase] on one code unit: the sharp s becomes two letters; the two
    code units whose capitals leave Latin-1 are kept (they are stripped below
    either way). *)
Definition upper_char (c : ascii) : list ascii :=
  let n := code c in
  if ((97 <=? n) && (n <=? 122)) || ((224 <=? n) && (n <=? 254) && negb (n =? 247))
  then [chr (n - 32)]
  else if n =? 223 then ["S"%char; "S"%char] else [c].

Definition is_upper_alnum (c : ascii) : bool :=
  let n := code c in ((48 <=? n) && (n <=? 57)) || ((65 <=? n) && (n <=? 90)).

(** The replacement of the ambiguous letters. *)
Definition recovery_fold (c : ascii) : ascii :=
  if Ascii.eqb c "O" then "0"%char
  else if Ascii.eqb c "I" || Ascii.eqb c "L" then "1"%char else c.

Definition normalizeRecoveryCode (s : string) : option string :=
  let cleaned :=
    map recovery_fold (List.filter is_upper_alnum (concat (map upper_char (chars s)))) in
  if negb (length cleaned =? RECOVERY_GROUPS * RECOVERY_GROUP_LEN)%nat then None
  else Some (of_chars cleaned).

Definition deriveKekFromPassphrase (passphrase : string) (salt : bytes) (iterations : Z)
    : CryptoKey :=
  pbkdf2_aes (utf8 passphrase) salt iterations.

Definition deriveKekFromRecoveryCode (s : string) (salt : bytes) (iterations : Z)
    : option CryptoKey :=
  match normalizeRecoveryCode s with
  | None => None
  | Some c => Some (deriveKekFromPassphrase c salt iterations)
  end.

Definition wrapRootSecret (iv : bytes) (kek : CryptoKey) (rootSecret : bytes) (spaceId : string)
    : bytes :=
  seal iv kek rootSecret (lengthPrefixed [PStr "suma.wrap.v1"; PStr spaceId]).

Definition unwrapRootSecret (kek : CryptoKey) (wrapped : bytes) (spaceId : string)
    : option bytes :=
  match open kek wrapped (lengthPrefixed [PStr "suma.wrap.v1"; PStr spaceId]) with
  | None => None
  | Some secret =>
      if negb (length secret =? SPACE_ROOT_SECRET_BYTES)%nat then None else Some secret
  end.

Definition serializeWrapper (kind : KeyWrapperKind) (spaceId credentialId : string)
    (createdAtMs : Z) (wrapped : bytes) (salt : option bytes) : KeyWrapper :=
  mkWrapper kind spaceId credentialId
    (match salt with Some s => toBase64 s | None => "" end) (toBase64 wrapped) createdAtMs.

(** [None] is the exception of [atob]; an empty salt reads back as absent. *)
Definition wrapperBytes (w : KeyWrapper) : option (bytes * option bytes) :=
  match fromBase64 (kw_wrapped w) with
  | None => None
  | Some wrapped =>
      if (String.length (kw_salt w) =? 0)%nat then Some (wrapped, None)
      else match fromBase64 (kw_salt w) with
           | Some s => Some (wrapped, Some s)
           | None => None
           end
  end.
End Keys.

(** ** A concrete platform, for evaluation: keys are labels, the tag is a
    checksum of everything the real tag authenticates. *)

Definition toy_sum (l : bytes) : Z := fold_left (λ a b, (a * 31 + b + 7) mod 251) l 1.

Definition toy_digest (l : bytes) : bytes :=
  map (λ i, (toy_sum (i :: l) + i) mod 256) (map Z.of_nat (seq 0 32)).

#[export] Instance ToyCrypto : WebCrypto := {|
  CryptoKey := bytes;
  hmac_sign k data := toy_digest (k ++ data);
  aes_gcm_encrypt k iv aad p := toy_sum (k ++ iv ++ aad ++ p) :: p;
  aes_gcm_decrypt k iv aad ct :=
    match ct with
    | t :: p => if t =? toy_sum (k ++ iv ++ aad ++ p) then Some p else None
    | [] => None
    end;
  ed25519_sign k data := toy_digest (k ++ data);
  ed25519_verify k sig data := bytesEqual sig (toy_digest (k ++ data));
  hkdf_aes ikm salt info := toy_digest (ikm ++ salt ++ info);
  hkdf_hmac ikm salt info := toy_digest (2 :: ikm ++ salt ++ info);
  pbkdf2_aes pw salt n := toy_digest (n mod 256 :: pw ++ salt);
  ed25519_public k := k
|}.

(** ** Lemmas *)

Lemma toy_sum_byte l : is_byte (toy_sum l).
Proof.
  unfold toy_sum. assert (is_byte 1) as H by (unfold is_byte; lia). revert H.
  generalize 1. induction l as [|b l IH]; intros a Ha; simpl; [done|].
  apply IH. pose proof (Z.mod_pos_bound (a * 31 + b + 7) 251). unfold is_byte. lia.
Qed.

Lemma toy_digest_ok l : bytes_ok (toy_digest l) ∧ length (toy_digest l) = 32%nat.
Proof.
  unfold toy_digest. split; [|by rewrite !length_map, length_seq].
  apply List.Forall_map, Forall_forall. intros i _.
  apply Z.mod_pos_bound. lia.
Qed.

#[export] Instance ToyCryptoLaws : WebCryptoLaws ToyCrypto.
Proof.
  split; simpl.
  - intros. apply toy_digest_ok.
  - intros. by rewrite Z.eqb_refl.
  - intros. constructor; [apply toy_sum_byte|done].
  - intros. by apply bytesEqual_iff.
  - intros. apply toy_digest_ok.
Qed.

Section SealLemmas.
Context {W : WebCrypto} {L : WebCryptoLaws W}.

Lemma open_seal_iv iv key p aad :
  length iv = GCM_IV_BYTES → open key (seal iv key p aad) aad = Some p.
Proof.
  intros Hiv. unfold seal, open, concatBytes. cbn [concat app]. rewrite Z.eqb_refl.
  cbn [negb]. rewrite app_nil_r.
  change (1 + GCM_IV_BYTES)%nat with (S GCM_IV_BYTES).
  rewrite !skipn_cons, skipn_O, take_app_length', drop_app_length' by done.
  apply aes_decrypt_encrypt.
Qed.

Lemma seal_ok iv key p aad :
  bytes_ok iv → bytes_ok p → bytes_ok (seal iv key p aad).
Proof.
  intros. unfold seal, concatBytes. cbn [concat app]. rewrite app_nil_r.
  constructor; [unfold is_byte, SEALED_VERSION; lia|].
  apply Forall_app. split; [done|]. by apply aes_encrypt_ok.
Qed.

Lemma unwrap_wrap_iv iv kek secret spaceId :
  length iv = GCM_IV_BYTES → length secret = SPACE_ROOT_SECRET_BYTES →
  unwrapRootSecret kek (wrapRootSecret iv kek secret spaceId) spaceId = Some secret.
Proof.
  intros Hiv Hs. unfold unwrapRootSecret, wrapRootSecret.
  by rewrite open_seal_iv, Hs by done.
Qed.
End SealLemmas.

Lemma recovery_char_ok random i :
  let c := recovery_char random i in
  upper_char c = [c] ∧ is_upper_alnum c = true ∧ recovery_fold c = c.
Proof.
  unfold recovery_char. pose proof (Z.mod_pos_bound (default 0 (random !! i)) 32 ltac:(lia)) as H.
  set (n := default 0 (random !! i) mod 32) in *. clearbody n.
  assert (Z.to_nat n < 32)%nat as Hn by lia. set (k := Z.to_nat n) in *. clearbody k.
  do 32 (destruct k as [|k]; [by vm_compute|]). lia.
Qed.

(** The cleaning of a code is character by character. *)
Definition recovery_clean (l : list ascii) : list ascii :=
  map recovery_fold (List.filter is_upper_alnum (concat (map upper_char l))).

Lemma recovery_clean_app a b : recovery_clean (a ++ b) = recovery_clean a ++ recovery_clean b.
Proof. unfold recovery_clean. by rewrite map_app, concat_app, List.filter_app, map_app. Qed.

Lemma recovery_clean_fixed l :
  (∀ c, c ∈ l → ∃ random i, c = recovery_char random i) → recovery_clean l = l.
Proof.
  induction l as [|c l IH]; intros H; [done|].
  change (c :: l) with ([c] ++ l). rewrite recovery_clean_app, IH by set_solver.
  destruct (H c) as (r & i & ->); [left|].
  destruct (recovery_char_ok r i) as (H1 & H2 & H3).
  unfold recovery_clean. simpl. rewrite H1. simpl. rewrite H2. simpl. by rewrite H3.
Qed.

Lemma recovery_clean_group random g :
  recovery_clean (chars (recovery_group random g)) = chars (recovery_group random g).
Proof.
  apply recovery_clean_fixed. unfold recovery_group. rewrite chars_of_chars.
  intros c (i & -> & _)%list_elem_of_fmap. eauto.
Qed.

Lemma recovery_clean_join gs :
  Forall (λ g, recovery_clean (chars g) = chars g) gs →
  recovery_clean (chars (str_join "-" gs)) = concat (map chars gs).
Proof.
  induction 1 as [|g gs Hg Hgs IH]; [done|]. destruct gs as [|h gs].
  - simpl. by rewrite app_nil_r.
  - change (str_join "-" (g :: h :: gs)) with (g +:+ String "-" (str_join "-" (h :: gs))).
    rewrite chars_app. cbn [chars]. change ("-"%char :: chars (str_join "-" (h :: gs)))
      with (["-"%char] ++ chars (str_join "-" (h :: gs))).
    rewrite !recovery_clean_app, Hg, IH. done.
Qed.

Lemma recovery_groups_clean random n m :
  concat (map chars (map (recovery_group random) (seq n m)))
  = map (recovery_char random) (seq (n * RECOVERY_GROUP_LEN) (m * RECOVERY_GROUP_LEN)).
Proof.
  revert n. induction m as [|m IH]; intros n; [done|].
  cbn [seq map concat]. rewrite IH. unfold recovery_group at 1. rewrite chars_of_chars.
  change (S m * RECOVERY_GROUP_LEN)%nat with (RECOVERY_GROUP_LEN + m * RECOVERY_GROUP_LEN)%nat.
  rewrite seq_app, map_app.
  replace (S n * RECOVERY_GROUP_LEN)%nat with (n * RECOVERY_GROUP_LEN + RECOVERY_GROUP_LEN)%nat
    by (unfold RECOVERY_GROUP_LEN; lia).
  f_equal. pose proof (fmap_add_seq (n * RECOVERY_GROUP_LEN) 0 RECOVERY_GROUP_LEN) as Hs.
  rewrite Nat.add_0_r in Hs. rewrite <- Hs. symmetry. apply map_map.
Qed.

(** ** Properties *)

(** A root secret wrapped for a credential and serialized for the control
    plane is recovered from the stored wrapper by the same key-encryption key,
    whatever the random iv; an absent salt reads back as absent. *)
Theorem unwrap_serialized_wrapper {W : WebCrypto} {L : WebCryptoLaws W}
    kind spaceId cred t iv kek secret :
  bytes_ok iv → length iv = GCM_IV_BYTES →
  bytes_ok secret → length secret = SPACE_ROOT_SECRET_BYTES →
  let w := serializeWrapper kind spaceId cred t (wrapRootSecret iv kek secret spaceId) None in
  ∃ wrapped, wrapperBytes w = Some (wrapped, None)
    ∧ unwrapRootSecret kek wrapped (kw_spaceId w) = Some secret.
Proof.
  intros Hiv Hl Hs Hsl. eexists. split; [|by apply (unwrap_wrap_iv iv)].
  unfold wrapperBytes, serializeWrapper, fromBase64, toBase64. cbn [kw_wrapped kw_salt].
  by rewrite atob_btoa by (by apply seal_ok).
Qed.

Lemma unwrap_serialized_wrapper_witness :
  ∃ wrapped, wrapperBytes (serializeWrapper passkey_prf "s" "c" 5
      (wrapRootSecret (W := ToyCrypto) (repeat 7 12) [1; 2; 3] (repeat 9 32) "s") None)
    = Some (wrapped, None)
  ∧ unwrapRootSecret (W := ToyCrypto) [1; 2; 3] wrapped "s" = Some (repeat 9 32).
Proof.
  apply (unwrap_serialized_wrapper (W := ToyCrypto)); [|done| |done];
    repeat constructor; done.
Defined.

(** The code shown to the user is accepted by [normalizeRecoveryCode],
    whatever the random bytes, and normalizes to its 32 characters: none of
    them is ambiguous, and only the separators are dropped. *)
Theorem normalizeRecoveryCode_generate random :
  normalizeRecoveryCode (generateRecoveryCode random)
  = Some (of_chars (map (recovery_char random)
      (seq 0 (RECOVERY_GROUPS * RECOVERY_GROUP_LEN)))).
Proof.
  unfold normalizeRecoveryCode. fold (recovery_clean (chars (generateRecoveryCode random))).
  unfold generateRecoveryCode. rewrite recovery_clean_join, recovery_groups_clean.
  - by rewrite length_map, length_seq.
  - apply List.Forall_map, Forall_forall. intros g _. apply recovery_clean_group.
Qed.
