(* ===== verification/RecordCodec.v ===== *)
(** * Record payloads, pseudonymous ids and device signatures
    (packages/protocol/src/cookie.ts, ids.ts, device.ts)

    What a sealed record holds, the keyed ids the hub sees in its place, and
    the bytes a device signs. *)

From S2P Require Export Keys Json Messages.
From Stdlib Require Import Ascii.

(** ** The payload codec *)

Definition identity_json (id : CookieIdentity) : json :=
  JObj [("spaceId", JStr (ci_spaceId id)); ("hostKey", JStr (ci_hostKey id));
        ("name", JStr (ci_name id)); ("path", JStr (ci_path id));
        ("partitionKey", JStr (ci_partitionKey id));
        ("sourceScheme", JStr (scheme_string (ci_sourceScheme id)))].

Definition priority_string (p : CookiePriority) : string :=
  match p with prio_low => "low" | prio_medium => "medium" | prio_high => "high" end.

Definition attributes_json (a : CookieAttributes) : json :=
  JObj [("value", JStr (ca_value a));
        ("expiresMs", match ca_expiresMs a with Some n => JNum n | None => JNull end);
        ("persistent", JBool (ca_persistent a)); ("secure", JBool (ca_secure a));
        ("httpOnly", JBool (ca_httpOnly a)); ("sameSite", JStr (sameSite_string (ca_sameSite a)));
        ("priority", JStr (priority_string (ca_priority a)))].

Definition plain_json (p : CookiePlain) : json :=
  JObj [("identity", identity_json (cp_identity p));
        ("attributes", match cp_attributes p with Some a => attributes_json a | None => JNull end);
        ("deleted", JBool (cp_deleted p))].

(** Reading the fields back.  The source casts the parsed value to
    [CookiePlain]; the model reads the fields, and a value of another shape is
    rejected as a malformed one is. *)
Definition get_str (k : string) (j : json) : option string :=
  match jget k j with Some (JStr s) => Some s | _ => None end.
Definition get_bool (k : string) (j : json) : option bool :=
  match jget k j with Some (JBool b) => Some b | _ => None end.

Definition scheme_of_string (s : string) : option SourceScheme :=
  if String.eqb s "unset" then Some scheme_unset
  else if String.eqb s "nonsecure" then Some scheme_nonsecure
  else if String.eqb s "secure" then Some scheme_secure else None.

Definition sameSite_of_string (s : string) : option SameSite :=
  if String.eqb s "unspecified" then Some ss_unspecified
  else if String.eqb s "no_restriction" then Some ss_no_restriction
  else if String.eqb s "lax" then Some ss_lax
  else if String.eqb s "strict" then Some ss_strict else None.

Definition priority_of_string (s : string) : option CookiePriority :=
  if String.eqb s "low" then Some prio_low
  else if String.eqb s "medium" then Some prio_medium
  else if String.eqb s "high" then Some prio_high else None.

Definition identity_of_json (j : json) : option CookieIdentity :=
  sp ← get_str "spaceId" j; h ← get_str "hostKey" j; n ← get_str "name" j;
  p ← get_str "path" j; k ← get_str "partitionKey" j;
  s ← (get_str "sourceScheme" j ≫= scheme_of_string);
  Some (mkIdentity sp h n p k s).

Definition expires_of_json (j : json) : option (option Z) :=
  match jget "expiresMs" j with
  | Some (JNum n) => Some (Some n) | Some JNull => Some None | _ => None end.

Definition attributes_of_json (j : json) : option CookieAttributes :=
  v ← get_str "value" j; e ← expires_of_json j;
  p ← get_bool "persistent" j; s ← get_bool "secure" j; h ← get_bool "httpOnly" j;
  ss ← (get_str "sameSite" j ≫= sameSite_of_string);
  pr ← (get_str "priority" j ≫= priority_of_string);
  Some (mkAttributes v e p s h ss pr).

Definition plain_of_json (j : json) : option CookiePlain :=
  d ← get_bool "deleted" j;
  id ← (jget "identity" j ≫= identity_of_json);
  match jget "attributes" j with
  | Some JNull => Some (mkPlain id None d)
  | Some a => a ← attributes_of_json a; Some (mkPlain id (Some a) d)
  | None => None
  end.

Definition PLAIN_VERSION : Z := 1.

Definition encodeCookiePlain (plain : CookiePlain) : bytes :=
  PLAIN_VERSION :: utf8 (stringify (plain_json plain)).

(** [None] is the thrown error. *)
Definition decodeCookiePlain (bs : bytes) : option CookiePlain :=
  match bs with
  | v :: body =>
      if negb (v =? PLAIN_VERSION) then None
      else text ← fromUtf8 body; parsed ← parse text; plain_of_json parsed
  | [] => None
  end.

Section Ids.
Context {W : WebCrypto}.

(** ** Pseudonymous ids *)

Definition hmacSha256 (idKey : CryptoKey) (data : bytes) : bytes := hmac_sign idKey data.

Definition computeRecordId (idKey : CryptoKey) (identity : CookieIdentity) : bytes :=
  hmacSha256 idKey (canonicalIdentityBytes identity).

Definition computeOriginId (idKey : CryptoKey) (spaceId hostKey : string) : bytes :=
  hmacSha256 idKey
    (lengthPrefixed [PStr "suma.origin.v1"; PStr spaceId; PStr (normalizedHost hostKey)]).

Definition computeRecordIdHex (idKey : CryptoKey) (identity : CookieIdentity) : string :=
  toHex (computeRecordId idKey identity).

Definition computeOriginIdHex (idKey : CryptoKey) (spaceId hostKey : string) : string :=
  toHex (computeOriginId idKey spaceId hostKey).

(** ** Device signatures *)

Record SignableRecordFields := mkSignable {
  sf_spaceId : string;
  sf_recordId : string;
  sf_originId : string;
  sf_sealedRecord : string;
  sf_hlc : Hlc;
  sf_causalParent : option string;
  sf_cause : Cause
}.

Definition recordSigningBytes (r : SignableRecordFields) : bytes :=
  lengthPrefixed
    [PStr "suma.recordsig.v1"; PStr (sf_spaceId r); PStr (sf_recordId r); PStr (sf_originId r);
     PStr (sf_sealedRecord r); PStr (encodeHlc (sf_hlc r));
     PStr (default "" (sf_causalParent r)); PStr (cause_string (sf_cause r))].

Definition signRecord (privateKey : CryptoKey) (r : SignableRecordFields) : bytes :=
  ed25519_sign privateKey (recordSigningBytes r).

Definition verifyRecord (publicKey : CryptoKey) (signature : bytes) (r : SignableRecordFields)
    : bool :=
  ed25519_verify publicKey signature (recordSigningBytes r).

(** The fields of a wire record that its signature covers, and back. *)
Definition wire_fields (w : CookieRecordWire) : SignableRecordFields :=
  mkSignable (w_spaceId w) (w_recordId w) (w_originId w) (w_sealedRecord w) (w_hlc w)
    (w_causalParent w) (w_cause w).

Definition sign_fields (r : SignableRecordFields) (deviceSig : string) : CookieRecordWire :=
  mkWire (sf_spaceId r) (sf_recordId r) (sf_originId r) (sf_sealedRecord r) (sf_hlc r)
    (sf_causalParent r) deviceSig (sf_cause r).
End Ids.

(** ** Lemmas *)

Lemma scheme_string_round s : scheme_of_string (scheme_string s) = Some s.
Proof. by destruct s. Qed.
Lemma sameSite_string_round s : sameSite_of_string (sameSite_string s) = Some s.
Proof. by destruct s. Qed.
Lemma priority_string_round p : priority_of_string (priority_string p) = Some p.
Proof. by destruct p. Qed.

Lemma identity_json_round id : identity_of_json (identity_json id) = Some id.
Proof.
  destruct id as [sp h n p k s]. unfold identity_of_json, get_str. simpl.
  by rewrite scheme_string_round.
Qed.

Lemma attributes_json_round a : attributes_of_json (attributes_json a) = Some a.
Proof.
  destruct a as [v e p s h ss pr]. unfold attributes_of_json, get_str, get_bool, expires_of_json.
  destruct e; simpl; by rewrite sameSite_string_round; simpl; rewrite priority_string_round.
Qed.

Lemma plain_json_round p : plain_of_json (plain_json p) = Some p.
Proof.
  destruct p as [id a d]. unfold plain_of_json, get_bool.
  change (jget "deleted" _) with (Some (JBool d)).
  change (jget "identity" _) with (Some (identity_json id)). cbn [mbind option_bind].
  rewrite identity_json_round. destruct a as [a|]; [|done].
  change (jget "attributes" _) with (Some (attributes_json a)). cbn [mbind option_bind].
  pose proof (attributes_json_round a) as Ha. unfold attributes_json at 1. cbv match.
  fold (attributes_json a). by rewrite Ha.
Qed.

(** The keys of the printed objects are distinct. *)
Ltac distinct_keys := apply (bool_decide_eq_true (NoDup _)); reflexivity.

Lemma identity_json_wf id : json_wf (identity_json id).
Proof. apply json_wf_obj. split; [distinct_keys|]. by repeat constructor. Qed.

Lemma attributes_json_wf a : json_wf (attributes_json a).
Proof.
  apply json_wf_obj. split; [distinct_keys|]. destruct a as [v [e|] ? ? ? ? ?]; by repeat constructor.
Qed.

Lemma plain_json_wf p : json_wf (plain_json p).
Proof.
  destruct p as [id a d]. apply json_wf_obj. split; [distinct_keys|].
  apply Forall_cons. split; [apply identity_json_wf|].
  apply Forall_cons. split; [destruct a; [apply attributes_json_wf|done]|].
  by repeat constructor.
Qed.

Lemma decode_text text :
  decodeCookiePlain (PLAIN_VERSION :: utf8 text) = parse text ≫= plain_of_json.
Proof. cbn -[fromUtf8 utf8]. by rewrite fromUtf8_utf8. Qed.

Lemma parse_plain p : parse (stringify (plain_json p)) ≫= plain_of_json = Some p.
Proof.
  pose proof (plain_json_round p) as Hr. pose proof (plain_json_wf p) as Hwf. revert Hr Hwf.
  generalize (plain_json p) as j. intros j Hr Hwf. by rewrite parse_stringify.
Qed.

Lemma decode_encode_plain p : decodeCookiePlain (encodeCookiePlain p) = Some p.
Proof. unfold encodeCookiePlain. rewrite decode_text. apply parse_plain. Qed.

Lemma encodeCookiePlain_ok p : bytes_ok (encodeCookiePlain p).
Proof. constructor; [unfold is_byte, PLAIN_VERSION; lia|apply utf8_ok]. Qed.

Lemma cause_string_inj a b : cause_string a = cause_string b → a = b.
Proof. by destruct a, b. Qed.

#[export] Hint Resolve encodeCookiePlain_ok plain_json_wf : suma.
#[export] Hint Rewrite decode_encode_plain identity_json_round plain_json_round : suma.

(** ** Properties *)

(** The payload codec is lossless: decoding what [encodeCookiePlain]
    wrote gives the same identity, attributes and deletion flag, for every
    cookie, whatever characters its name, path and value hold. *)
Theorem decodeCookiePlain_encode p : decodeCookiePlain (encodeCookiePlain p) = Some p.
Proof. apply decode_encode_plain. Qed.

(** The bytes a device signs determine everything the record says: two
    records with the same signing bytes agree on the space, both ids, the
    sealed payload, the timestamp, the causal parent (an empty parent counts
    as none) and the cause. *)
Theorem recordSigningBytes_injective a b :
  hlc_bounded (sf_hlc a) → hlc_bounded (sf_hlc b) →
  Forall (λ s, Z.of_nat (length (utf8 s)) < 2 ^ 32)
    [sf_spaceId a; sf_recordId a; sf_originId a; sf_sealedRecord a; encodeHlc (sf_hlc a);
     default "" (sf_causalParent a);
     sf_spaceId b; sf_recordId b; sf_originId b; sf_sealedRecord b; encodeHlc (sf_hlc b);
     default "" (sf_causalParent b)] →
  recordSigningBytes a = recordSigningBytes b →
  sf_spaceId a = sf_spaceId b ∧ sf_recordId a = sf_recordId b ∧ sf_originId a = sf_originId b
  ∧ sf_sealedRecord a = sf_sealedRecord b ∧ sf_hlc a = sf_hlc b
  ∧ default "" (sf_causalParent a) = default "" (sf_causalParent b) ∧ sf_cause a = sf_cause b.
Proof.
  intros Ha Hb Hfit H. apply lengthPrefixed_inj in H.
  - cbn [map part_bytes] in H. injection H as H1 H2 H3 H4 H5 H6 H7.
    apply utf8_inj in H1, H2, H3, H4, H5, H6, H7. apply cause_string_inj in H7.
    repeat split; try done. apply compareHlc_eq.
    pose proof (encodeHlc_compare _ _ Ha Hb) as Hc. rewrite H5, str_compare_refl in Hc.
    unfold hlc_string_order in Hc. repeat case_match; try done; blia.
  - repeat (apply Forall_cons in Hfit as [? Hfit]).
    repeat constructor; try done; unfold part_fits; by destruct (sf_cause a).
  - do 6 (apply Forall_cons in Hfit as [_ Hfit]).
    repeat (apply Forall_cons in Hfit as [? Hfit]).
    repeat constructor; try done; unfold part_fits; by destruct (sf_cause b).
Qed.

Lemma recordSigningBytes_injective_witness :
  let a := mkSignable "s" "00" "01" "AA==" (mkHlc 5 1 "d") None WRITE in
  let b := mkSignable "s" "00" "01" "AA==" (mkHlc 5 1 "d") (Some "") WRITE in
  recordSigningBytes a = recordSigningBytes b ∧ sf_hlc a = sf_hlc b.
Proof.
  intros a b. split; [reflexivity|].
  apply (recordSigningBytes_injective a b); [split; done|split; done| |reflexivity].
  repeat constructor; done.
Defined.
