(* ===== verification/Effects.v ===== *)
(** * A state monad with exceptions

    The engines mutate their fields and may throw: an exception does not undo
    the mutations made before it.  A computation returns its value, or [None]
    for a thrown error, together with the state it left. *)

From S2P Require Export Prelude.

Definition exn (S A : Type) : Type := S → option A * S.

Section Exn.
Context {S : Type}.

#[global] Instance exn_ret : MRet (exn S) := λ A a s, (Some a, s).

#[global] Instance exn_bind : MBind (exn S) := λ A B k m s,
  match m s with
  | (Some a, s') => k a s'
  | (None, s') => (None, s')
  end.

Definition throw {A} : exn S A := λ s, (None, s).
Definition gets {A} (f : S → A) : exn S A := λ s, (Some (f s), s).
Definition modify (f : S → S) : exn S unit := λ s, (Some (), f s).

(** A computation given by its transition. *)
Definition exec {A} (f : S → option A * S) : exn S A := f.

(** A computation of an option: [None] throws. *)
Definition of_option {A} (o : option A) : exn S A := λ s, (o, s).

(** [try m catch h]. *)
Definition catch {A} (m : exn S A) (h : exn S A) : exn S A := λ s,
  match m s with
  | (Some a, s') => (Some a, s')
  | (None, s') => h s'
  end.

(** [try m finally f]. *)
Definition finally {A} (m : exn S A) (f : S → S) : exn S A := λ s,
  let '(r, s') := m s in (r, f s').

(** [for (const x of l) ...], collecting the results. *)
Fixpoint forM {A B} (l : list A) (f : A → exn S B) : exn S (list B) :=
  match l with
  | [] => mret []
  | x :: l' => y ← f x; ys ← forM l' f; mret (y :: ys)
  end.

(** Sequencing a pure update. *)
Definition when (b : bool) (m : exn S unit) : exn S unit := if b then m else mret ().
End Exn.

(** ** Reasoning: a relation between start and end state that every
    computation built from steps of the relation satisfies. *)

Section Preserves.
Context {S : Type} (R : S → S → Prop) `{!PreOrder R}.

Definition preserves {A} (m : exn S A) : Prop := ∀ s, R s (m s).2.

Lemma preserves_ret {A} (a : A) : preserves (mret a).
Proof. intros s. reflexivity. Qed.

Lemma preserves_throw {A} : preserves (@throw S A).
Proof. intros s. reflexivity. Qed.

Lemma preserves_gets {A} (f : S → A) : preserves (gets f).
Proof. intros s. reflexivity. Qed.

Lemma preserves_of_option {A} (o : option A) : preserves (of_option o).
Proof. intros s. reflexivity. Qed.

Lemma preserves_exec {A} (f : S → option A * S) : (∀ s, R s (f s).2) → preserves (exec f).
Proof. done. Qed.

Lemma preserves_modify (f : S → S) : (∀ s, R s (f s)) → preserves (modify f).
Proof. done. Qed.

Lemma preserves_bind {A B} (m : exn S A) (k : A → exn S B) :
  preserves m → (∀ a, preserves (k a)) → preserves (m ≫= k).
Proof.
  intros Hm Hk s. unfold mbind, exn_bind. specialize (Hm s).
  destruct (m s) as [[a|] s']; simpl in *; [|done]. etrans; [done|apply Hk].
Qed.

Lemma preserves_catch {A} (m h : exn S A) : preserves m → preserves h → preserves (catch m h).
Proof.
  intros Hm Hh s. unfold catch. specialize (Hm s).
  destruct (m s) as [[a|] s']; simpl in *; [done|]. etrans; [done|apply Hh].
Qed.

Lemma preserves_finally {A} (m : exn S A) f :
  preserves m → (∀ s, R s (f s)) → preserves (finally m f).
Proof.
  intros Hm Hf s. unfold finally. specialize (Hm s).
  destruct (m s) as [r s']; simpl in *. etrans; [done|apply Hf].
Qed.

Lemma preserves_forM {A B} (l : list A) (f : A → exn S B) :
  (∀ x, x ∈ l → preserves (f x)) → preserves (forM l f).
Proof.
  induction l as [|x l IH]; intros Hf; simpl; [apply preserves_ret|].
  apply preserves_bind; [apply Hf; left|]. intros y. apply preserves_bind.
  - apply IH. intros. apply Hf. by right.
  - intros. apply preserves_ret.
Qed.
End Preserves.

#[export] Hint Resolve preserves_ret preserves_throw preserves_gets preserves_of_option
  preserves_exec preserves_modify preserves_bind preserves_catch preserves_finally preserves_forM : suma.

(** ** Reasoning: an invariant kept on every outcome, with what is known of
    the value returned. *)

Section Keeps.
Context {S : Type} (I : S → Prop).

Definition keeps {A} (m : exn S A) (Q : A → Prop) : Prop :=
  ∀ s, I s → I (m s).2 ∧ ∀ a, (m s).1 = Some a → Q a.

Lemma keeps_ret {A} (a : A) (Q : A → Prop) : Q a → keeps (mret a) Q.
Proof. intros HQ s HI. split; [done|]. by intros ? [= <-]. Qed.

Lemma keeps_throw {A} (Q : A → Prop) : keeps (@throw S A) Q.
Proof. intros s HI. by split. Qed.

Lemma keeps_gets {A} (f : S → A) (Q : A → Prop) : (∀ s, I s → Q (f s)) → keeps (gets f) Q.
Proof. intros Hf s HI. split; [done|]. intros ? [= <-]. auto. Qed.

Lemma keeps_of_option {A} (o : option A) (Q : A → Prop) :
  (∀ a, o = Some a → Q a) → keeps (of_option o) Q.
Proof. intros Ho s HI. by split. Qed.

Lemma keeps_exec {A} (f : S → option A * S) (Q : A → Prop) :
  (∀ s, I s → I (f s).2 ∧ ∀ a, (f s).1 = Some a → Q a) → keeps (exec f) Q.
Proof. done. Qed.

Lemma keeps_modify (f : S → S) : (∀ s, I s → I (f s)) → keeps (modify f) (λ _, True).
Proof. intros Hf s HI. split; [by apply Hf|done]. Qed.

Lemma keeps_bind {A B} (m : exn S A) (k : A → exn S B) (Q : A → Prop) (Q' : B → Prop) :
  keeps m Q → (∀ a, Q a → keeps (k a) Q') → keeps (m ≫= k) Q'.
Proof.
  intros Hm Hk s HI. destruct (Hm s HI) as [HI' HQ]. unfold mbind, exn_bind.
  destruct (m s) as [[a|] s']; simpl in *; [apply Hk; auto|by split].
Qed.

Lemma keeps_weaken {A} (m : exn S A) (Q Q' : A → Prop) :
  keeps m Q → (∀ a, Q a → Q' a) → keeps m Q'.
Proof. intros Hm HQ s HI. destruct (Hm s HI). split; eauto. Qed.

Lemma keeps_catch {A} (m h : exn S A) (Q : A → Prop) :
  keeps m Q → keeps h Q → keeps (catch m h) Q.
Proof.
  intros Hm Hh s HI. destruct (Hm s HI) as [HI' HQ]. unfold catch.
  destruct (m s) as [[a|] s']; simpl in *; [split; [done|naive_solver]|by apply Hh].
Qed.

Lemma keeps_finally {A} (m : exn S A) f (Q : A → Prop) :
  keeps m Q → (∀ s, I s → I (f s)) → keeps (finally m f) Q.
Proof.
  intros Hm Hf s HI. destruct (Hm s HI) as [HI' HQ]. unfold finally.
  destruct (m s) as [r s']; simpl in *. split; [by apply Hf|done].
Qed.

Lemma keeps_forM {A B} (l : list A) (f : A → exn S B) :
  (∀ x, x ∈ l → keeps (f x) (λ _, True)) → keeps (forM l f) (λ _, True).
Proof.
  induction l as [|x l IH]; intros Hf; simpl; [by apply keeps_ret|].
  eapply keeps_bind; [apply Hf; left|]. intros y _. eapply keeps_bind.
  - apply IH. intros. apply Hf. by right.
  - intros. by apply keeps_ret.
Qed.

Lemma keeps_when b (m : exn S unit) :
  (b = true → keeps m (λ _, True)) → keeps (when b m) (λ _, True).
Proof. intros Hm. destruct b; [auto|by apply keeps_ret]. Qed.

Lemma keeps_state {A} (m : exn S A) Q s : keeps m Q → I s → I (m s).2.
Proof. intros Hm HI. by apply Hm. Qed.
End Keeps.

(** Walk through a computation: one rule per construct, the value of each step
    forgotten unless a rule in scope says more. *)
Ltac keeps_step :=
  match goal with
  | |- ∀ x, x ∈ _ → keeps _ _ _ => intros ? _
  | |- _ = true → keeps _ _ _ => intros ?
  | |- keeps _ (mret _) _ => apply keeps_ret
  | |- keeps _ throw _ => apply keeps_throw
  | |- keeps _ (modify _) _ => apply keeps_modify
  | |- keeps _ (forM _ _) _ => apply keeps_forM
  | |- keeps _ (finally _ _) _ => apply keeps_finally
  | |- keeps _ (catch _ _) _ => apply keeps_catch
  | |- keeps _ (when _ _) _ => apply keeps_when
  | |- keeps _ (gets _ ≫= _) _ =>
      eapply (keeps_bind _ _ _ (λ _, True)); [by apply keeps_gets|intros ? _]
  | |- keeps _ (of_option _ ≫= _) _ =>
      eapply (keeps_bind _ _ _ (λ _, True)); [by apply keeps_of_option|intros ? _]
  | |- keeps _ (_ ≫= _) _ => eapply (keeps_bind _ _ _ (λ _, True)); [|intros ? _]
  | |- keeps _ (if ?b then _ else _) _ => destruct b eqn:?
  | |- keeps _ (match ?o with Some _ => _ | None => _ end) _ => destruct o eqn:?
  | |- keeps _ (let '(_, _) := ?p in _) _ => destruct p as [? ?] eqn:?
  end.
