(* ===== verification/SyncQueue.v ===== *)
(** * The offline mutation queue (packages/sync-engine/src/queue.ts)

    [QueueStorage] is the source's interface; [OfflineQueue] is defined and
    proved against it, and [InMemoryQueueStorage] discharges its laws. *)

From S2P Require Export Messages.

(** ** Storage *)

Class QueueStorage (S : Type) := {
  qs_append : CookieRecordWire → S → S;
  qs_all : S → list CookieRecordWire;
  qs_clear : S → S;
  qs_size : S → nat
}.

Class QueueStorageLaws (S : Type) `{QueueStorage S} := {
  qs_all_append r s : qs_all (qs_append r s) = qs_all s ++ [r];
  qs_all_clear s : qs_all (qs_clear s) = [];
  qs_size_all s : qs_size s = length (qs_all s)
}.

Record InMemoryQueueStorage := mkMemQueue { mq_items : list CookieRecordWire }.

#[export] Instance InMemoryQueueStorage_ops : QueueStorage InMemoryQueueStorage := {|
  qs_append r s := mkMemQueue (mq_items s ++ [r]);
  qs_all s := mq_items s;
  qs_clear _ := mkMemQueue [];
  qs_size s := length (mq_items s)
|}.

(** ** The queue *)

Section OfflineQueue.
Context {S : Type} `{QueueStorage S}.

Definition enqueue (record : CookieRecordWire) (q : S) : S := qs_append record q.

(** One step of the loop of [compacted]. *)
Definition compact_step (newest : jsmap string CookieRecordWire) (record : CookieRecordWire)
    : jsmap string CookieRecordWire :=
  match map_get (w_recordId record) newest with
  | None => map_set (w_recordId record) record newest
  | Some current =>
      if compareHlc (w_hlc record) (w_hlc current) >? 0
      then map_set (w_recordId record) record newest else newest
  end.

Definition compacted (q : S) : list CookieRecordWire :=
  map_values (fold_left compact_step (qs_all q) jsmap_empty).

Definition depth (q : S) : nat := length (compacted q).

Definition peek (q : S) : list CookieRecordWire := sortByHlc w_hlc (compacted q).

Definition drain (q : S) : list CookieRecordWire * S :=
  (sortByHlc w_hlc (compacted q), qs_clear q).
End OfflineQueue.

(** ** Lemmas *)

#[export] Instance InMemoryQueueStorage_laws : QueueStorageLaws InMemoryQueueStorage.
Proof. by split. Qed.

(** [newest_of l r]: [r] is in [l], nothing in [l] for the same cookie is
    newer, and [r] comes before every equally new one. *)
Definition newest_of (l : list CookieRecordWire) (r : CookieRecordWire) : Prop :=
  r ∈ l ∧ ∀ r', r' ∈ l → w_recordId r' = w_recordId r → hlc_le (w_hlc r') (w_hlc r).

Lemma compact_fold_spec l m seen :
  map_wf m →
  (∀ k r, map_get k m = Some r → w_recordId r = k ∧ newest_of seen r) →
  (∀ r, r ∈ seen → is_Some (map_get (w_recordId r) m)) →
  let m' := fold_left compact_step l m in
  map_wf m'
  ∧ (∀ k r, map_get k m' = Some r → w_recordId r = k ∧ newest_of (seen ++ l) r)
  ∧ (∀ r, r ∈ seen ++ l → is_Some (map_get (w_recordId r) m')).
Proof.
  revert m seen. induction l as [|x l IH]; intros m seen Hwf Hnew Hall; simpl.
  { by rewrite app_nil_r. }
  rewrite (cons_middle x seen l), app_assoc. apply IH.
  - unfold compact_step. repeat case_match; auto using map_wf_set.
  - intros k r Hr. unfold compact_step in Hr.
    destruct (map_get (w_recordId x) m) as [cur|] eqn:Ec.
    + destruct (Hnew _ _ Ec) as [Hid [Hin Hmax]].
      destruct (compareHlc (w_hlc x) (w_hlc cur) >? 0) eqn:E; hlc_prop;
        rewrite ?map_get_set in Hr.
      * destruct (decide (w_recordId x = k)) as [<-|Hne].
        -- injection Hr as <-. split; [done|]. split; [set_solver|].
           intros r' [Hr'|Hr']%elem_of_app Heq; [|apply list_elem_of_singleton in Hr' as ->; auto with suma].
           specialize (Hmax r' Hr' ltac:(congruence)). hlc_order.
        -- destruct (Hnew _ _ Hr) as [? [? Hm]]. split; [done|]. split; [set_solver|].
           intros r' [Hr'|Hr']%elem_of_app Heq; [by apply Hm|].
           apply list_elem_of_singleton in Hr' as ->. congruence.
      * destruct (Hnew _ _ Hr) as [Hk [Hin' Hm]]. split; [done|]. split; [set_solver|].
        intros r' [Hr'|Hr']%elem_of_app Heq; [by apply Hm|].
        apply list_elem_of_singleton in Hr' as ->.
        assert (r = cur) as -> by congruence. done.
    + rewrite map_get_set in Hr. destruct (decide (w_recordId x = k)) as [<-|Hne].
      * injection Hr as <-. split; [done|]. split; [set_solver|].
        intros r' [Hr'|Hr']%elem_of_app Heq; [|apply list_elem_of_singleton in Hr' as ->; auto with suma].
        destruct (Hall r' Hr') as [? ?]. congruence.
      * destruct (Hnew _ _ Hr) as [? [? Hm]]. split; [done|]. split; [set_solver|].
        intros r' [Hr'|Hr']%elem_of_app Heq; [by apply Hm|].
        apply list_elem_of_singleton in Hr' as ->. congruence.
  - intros r Hr. unfold compact_step.
    assert (is_Some (map_get (w_recordId r) m) ∨ w_recordId r = w_recordId x) as Hc.
    { apply elem_of_app in Hr as [Hr| ->%list_elem_of_singleton]; auto. }
    repeat case_match; rewrite ?map_get_set; try case_decide; eauto;
      destruct Hc as [?|Hc]; rewrite ?Hc; eauto; congruence.
Qed.

Section CompactedLemmas.
Context {S : Type} `{QS : QueueStorage S}.

Lemma compacted_fold_spec (q : S) :
  let m := fold_left compact_step (qs_all q) jsmap_empty in
  map_wf m
  ∧ (∀ k r, map_get k m = Some r → w_recordId r = k ∧ newest_of (qs_all q) r)
  ∧ (∀ r, r ∈ qs_all q → is_Some (map_get (w_recordId r) m)).
Proof. apply (compact_fold_spec (qs_all q) jsmap_empty []); [constructor|done|set_solver]. Qed.

Lemma compacted_newest (q : S) r : r ∈ compacted q → newest_of (qs_all q) r.
Proof.
  destruct (compacted_fold_spec q) as (Hwf & Hnew & _). unfold compacted.
  rewrite (map_values_get _ _ Hwf). intros [k Hk]. by apply (Hnew k).
Qed.

Lemma compacted_covers (q : S) r :
  r ∈ qs_all q → ∃ r', r' ∈ compacted q ∧ w_recordId r' = w_recordId r.
Proof.
  destruct (compacted_fold_spec q) as (Hwf & Hnew & Hall). intros [r' Hr']%Hall.
  exists r'. split; [|by apply Hnew in Hr' as [? _]].
  unfold compacted. rewrite (map_values_get _ _ Hwf). eauto.
Qed.

Lemma compacted_nodup (q : S) : NoDup (map w_recordId (compacted q)).
Proof.
  destruct (compacted_fold_spec q) as (Hwf & Hnew & _). unfold compacted, map_values.
  set (m := fold_left _ _ _) in *. clearbody m.
  assert (∀ k r, (k, r) ∈ m → w_recordId r = k) as Hid.
  { intros k r Hin. by apply (Hnew k r), map_In_get. }
  clear Hnew. unfold map_wf, map_keys in Hwf.
  assert (map w_recordId (map snd m) = map fst m) as ->; [|done].
  clear Hwf. induction m as [|[k r] m IH]; simpl; [done|].
  rewrite (Hid k r) by left. f_equal. apply IH. intros. apply Hid. by right.
Qed.
End CompactedLemmas.

(** ** Properties *)

(** Draining the offline queue returns, oldest first, exactly one record
    per queued cookie, that cookie's newest queued mutation, and leaves the
    queue empty; [depth] counted them. *)
Theorem drain_newest_in_order {S : Type} `{QS : QueueStorage S} {L : QueueStorageLaws S} (q : S) :
  let '(l, q') := drain q in
  StronglySorted (λ a b, hlc_le (w_hlc a) (w_hlc b)) l
  ∧ NoDup (map w_recordId l)
  ∧ (∀ r, r ∈ l → newest_of (qs_all q) r)
  ∧ (∀ r, r ∈ qs_all q → ∃ r', r' ∈ l ∧ w_recordId r' = w_recordId r)
  ∧ depth q = length l ∧ qs_all q' = [] ∧ depth q' = 0%nat.
Proof.
  simpl. repeat split.
  - apply sortByHlc_sorted.
  - rewrite (sortByHlc_perm w_hlc (compacted q)). apply compacted_nodup.
  - apply elem_of_sortByHlc in H. by apply compacted_newest in H as [? _].
  - apply elem_of_sortByHlc in H. by apply compacted_newest in H as [_ ?].
  - intros r (r' & ? & ?)%compacted_covers. exists r'. by rewrite elem_of_sortByHlc.
  - unfold depth. by rewrite length_sortByHlc.
  - apply qs_all_clear.
  - unfold depth, compacted. by rewrite qs_all_clear.
Qed.

Lemma drain_newest_in_order_witness :
  let w h := mkWire "s" "aa" "oo" "" h None "" WRITE in
  let q := enqueue (w (mkHlc 7 0 "d")) (enqueue (w (mkHlc 9 0 "d")) (mkMemQueue [])) in
  StronglySorted (λ a b, hlc_le (w_hlc a) (w_hlc b)) (fst (drain q))
  ∧ fst (drain q) = [w (mkHlc 9 0 "d")] ∧ depth q = 1%nat.
Proof.
  intros w q. split; [|by vm_compute].
  apply (drain_newest_in_order q).
Defined.
