(* ===== verification/SyncState.v ===== *)
(** * The sync engine's state and its conflict rules
    (packages/sync-engine/src/engine.ts, types.ts)

    The fields of [SpaceSyncEngine] as a record, and the methods that only
    read or write them: the ancestry walk, conflict resolution, fences,
    tombstones, parking, the echo ledger and the per-origin policy gate.
    SyncEngine.v builds the operations on top. *)

From S2P Require Export RecordCodec SyncQueue.
From Stdlib Require Import Ascii.

(** ** Causes of change events *)

Definition causeForChange (chromiumCause : string) (removed : bool) : option Cause :=
  if negb removed then
    Some (if String.eqb chromiumCause "overwrite" then OVERWRITE else WRITE)
  else if String.eqb chromiumCause "explicit" then Some EXPLICIT_DELETE
  else if String.eqb chromiumCause "expired"
          || String.eqb chromiumCause "expired-overwrite" then Some EXPIRED
  else if String.eqb chromiumCause "evicted" then Some EVICTED
  else if String.eqb chromiumCause "overwrite" then None
  else Some EXPLICIT_DELETE.

(** ** Sealing one mutation *)

Definition SEAL_AAD_DOMAIN : string := "suma.sync.seal.v1".

Definition recordSealAad (spaceId recordIdHex : string) : bytes :=
  lengthPrefixed [PStr SEAL_AAD_DOMAIN; PStr spaceId; PStr recordIdHex].

Section Build.
Context {W : WebCrypto}.

Record RecordSigner := mkSigner { rs_deviceId : string; rs_privateKey : CryptoKey }.

Definition buildCookieRecordWire (iv : bytes) (keys : SpaceKeys) (signer : RecordSigner)
    (plain : CookiePlain) (hlc : Hlc) (causalParent : option string) (cause : Cause)
    : CookieRecordWire :=
  let spaceId := ci_spaceId (cp_identity plain) in
  let recordId := computeRecordIdHex (idKey keys) (cp_identity plain) in
  let originId := computeOriginIdHex (idKey keys) spaceId (ci_hostKey (cp_identity plain)) in
  let sealed := Keys.seal iv (sealKey keys) (encodeCookiePlain plain) (recordSealAad spaceId recordId) in
  let fields := mkSignable spaceId recordId originId (toBase64 sealed) hlc causalParent cause in
  sign_fields fields (toBase64 (signRecord (rs_privateKey signer) fields)).

(** [openRecord] and [identityBound]: the engine's reading of a sealed record. *)
Definition openRecord (keys : SpaceKeys) (record : CookieRecordWire) : option CookiePlain :=
  sealed ← fromBase64 (w_sealedRecord record);
  plainBytes ← Keys.open (sealKey keys) sealed
    (recordSealAad (w_spaceId record) (w_recordId record));
  decodeCookiePlain plainBytes.

Definition identityBound (keys : SpaceKeys) (record : CookieRecordWire) (plain : CookiePlain)
    : bool :=
  if negb (String.eqb (ci_spaceId (cp_identity plain)) (w_spaceId record)) then false
  else if negb (String.eqb (computeRecordIdHex (idKey keys) (cp_identity plain))
                  (w_recordId record)) then false
  else String.eqb
         (computeOriginIdHex (idKey keys) (w_spaceId record) (ci_hostKey (cp_identity plain)))
         (w_originId record).
End Build.

(** ** Data *)

Record StoredRecord := mkStored {
  sr_recordId : string;
  sr_originId : string;
  sr_plain : CookiePlain;
  sr_wire : CookieRecordWire;
  sr_cause : Cause;
  sr_hlc : Hlc;
  sr_causalParent : option string;
  sr_tombstonedAtMs : option Z
}.

Record DeleteFence := mkFence { df_hlc : Hlc; df_token : string }.
Record TombstoneNote := mkNote { tn_wire : CookieRecordWire; tn_plain : CookiePlain }.
Record EchoEntry := mkEcho { ee_count : Z; ee_expiresAtMs : Z }.

Inductive OriginOverride := ov_sync | ov_never.
Inductive RemoteDisposition := applied | stale | resurrection_blocked | duplicate | rejected.
Inductive Descent := descends | predates | unknown.

#[export] Instance OriginOverride_eq_dec : EqDecision OriginOverride.
Proof. solve_decision. Defined.
#[export] Instance RemoteDisposition_eq_dec : EqDecision RemoteDisposition.
Proof. solve_decision. Defined.
#[export] Instance Descent_eq_dec : EqDecision Descent.
Proof. solve_decision. Defined.

Record OriginPolicyView := mkPolicyView {
  pv_policy : OriginPolicy;
  pv_override : option OriginOverride;
  pv_synced : bool
}.

Record OriginSnapshot := mkSnapshot {
  os_spaceId : string;
  os_originId : string;
  os_capturedAtMs : Z;
  os_records : list StoredRecord
}.

Definition DEFAULT_ECHO_TTL_MS : Z := 10000.
Definition MAX_ANCESTRY_EDGES : nat := 64.
Definition MAX_ANCESTRY_WALK : nat := 128.
Definition ECHO_SWEEP_THRESHOLD : nat := 256.
Definition TOMBSTONE_RETENTION_MS : Z := 30 * 24 * 60 * 60 * 1000.
Definition ORIGIN_LEASE_TTL_MS : Z := 60000.

(** Calls to the transport, the applier and the console, in order. *)
Inductive Effect :=
| EPublish (records : list CookieRecordWire)
| EAcquireLease (spaceId originId : string) (force : bool) (candidate : option (string * Hlc))
| EReleaseLease (spaceId originId : string)
| EApply (plain : CookiePlain) (cause : Cause)
| EWarn.

Abbreviation edge_map := (jsmap string (option string)).

(** The mutable fields; [trace] lists the effects so far and [tick] counts the
    calls to the outside world. *)
Record Engine := mkEngine {
  records : jsmap string StoredRecord;
  fences : jsmap string DeleteFence;
  latestTombstones : jsmap string TombstoneNote;
  ancestry : jsmap string edge_map;
  parked : jsmap string CookieRecordWire;
  overrides : jsmap string OriginOverride;
  pendingEchoes : jsmap string EchoEntry;
  grantedLeases : jsmap string Z;
  retryingLeaseRejections : list string;
  queue : InMemoryQueueStorage;
  clock : HlcClock;
  hydrating : bool;
  online : bool;
  draining : bool;
  trace : list Effect;
  tick : nat
}.

Definition with_records (f : jsmap string StoredRecord → jsmap string StoredRecord) (s : Engine) :=
  mkEngine (f (records s)) (fences s) (latestTombstones s) (ancestry s) (parked s) (overrides s)
    (pendingEchoes s) (grantedLeases s) (retryingLeaseRejections s) (queue s) (clock s)
    (hydrating s) (online s) (draining s) (trace s) (tick s).
Definition with_fences (f : jsmap string DeleteFence → jsmap string DeleteFence) (s : Engine) :=
  mkEngine (records s) (f (fences s)) (latestTombstones s) (ancestry s) (parked s) (overrides s)
    (pendingEchoes s) (grantedLeases s) (retryingLeaseRejections s) (queue s) (clock s)
    (hydrating s) (online s) (draining s) (trace s) (tick s).
Definition with_latestTombstones (f : jsmap string TombstoneNote → jsmap string TombstoneNote)
    (s : Engine) :=
  mkEngine (records s) (fences s) (f (latestTombstones s)) (ancestry s) (parked s) (overrides s)
    (pendingEchoes s) (grantedLeases s) (retryingLeaseRejections s) (queue s) (clock s)
    (hydrating s) (online s) (draining s) (trace s) (tick s).
Definition with_ancestry (f : jsmap string edge_map → jsmap string edge_map) (s : Engine) :=
  mkEngine (records s) (fences s) (latestTombstones s) (f (ancestry s)) (parked s) (overrides s)
    (pendingEchoes s) (grantedLeases s) (retryingLeaseRejections s) (queue s) (clock s)
    (hydrating s) (online s) (draining s) (trace s) (tick s).
Definition with_parked (f : jsmap string CookieRecordWire → jsmap string CookieRecordWire)
    (s : Engine) :=
  mkEngine (records s) (fences s) (latestTombstones s) (ancestry s) (f (parked s)) (overrides s)
    (pendingEchoes s) (grantedLeases s) (retryingLeaseRejections s) (queue s) (clock s)
    (hydrating s) (online s) (draining s) (trace s) (tick s).
Definition with_overrides (f : jsmap string OriginOverride → jsmap string OriginOverride)
    (s : Engine) :=
  mkEngine (records s) (fences s) (latestTombstones s) (ancestry s) (parked s) (f (overrides s))
    (pendingEchoes s) (grantedLeases s) (retryingLeaseRejections s) (queue s) (clock s)
    (hydrating s) (online s) (draining s) (trace s) (tick s).
Definition with_pendingEchoes (f : jsmap string EchoEntry → jsmap string EchoEntry) (s : Engine) :=
  mkEngine (records s) (fences s) (latestTombstones s) (ancestry s) (parked s) (overrides s)
    (f (pendingEchoes s)) (grantedLeases s) (retryingLeaseRejections s) (queue s) (clock s)
    (hydrating s) (online s) (draining s) (trace s) (tick s).
Definition with_grantedLeases (f : jsmap string Z → jsmap string Z) (s : Engine) :=
  mkEngine (records s) (fences s) (latestTombstones s) (ancestry s) (parked s) (overrides s)
    (pendingEchoes s) (f (grantedLeases s)) (retryingLeaseRejections s) (queue s) (clock s)
    (hydrating s) (online s) (draining s) (trace s) (tick s).
Definition with_retrying (f : list string → list string) (s : Engine) :=
  mkEngine (records s) (fences s) (latestTombstones s) (ancestry s) (parked s) (overrides s)
    (pendingEchoes s) (grantedLeases s) (f (retryingLeaseRejections s)) (queue s) (clock s)
    (hydrating s) (online s) (draining s) (trace s) (tick s).
Definition with_queue (f : InMemoryQueueStorage → InMemoryQueueStorage) (s : Engine) :=
  mkEngine (records s) (fences s) (latestTombstones s) (ancestry s) (parked s) (overrides s)
    (pendingEchoes s) (grantedLeases s) (retryingLeaseRejections s) (f (queue s)) (clock s)
    (hydrating s) (online s) (draining s) (trace s) (tick s).
Definition with_clock (f : HlcClock → HlcClock) (s : Engine) :=
  mkEngine (records s) (fences s) (latestTombstones s) (ancestry s) (parked s) (overrides s)
    (pendingEchoes s) (grantedLeases s) (retryingLeaseRejections s) (queue s) (f (clock s))
    (hydrating s) (online s) (draining s) (trace s) (tick s).
Definition with_hydrating (b : bool) (s : Engine) :=
  mkEngine (records s) (fences s) (latestTombstones s) (ancestry s) (parked s) (overrides s)
    (pendingEchoes s) (grantedLeases s) (retryingLeaseRejections s) (queue s) (clock s)
    b (online s) (draining s) (trace s) (tick s).
Definition with_online (b : bool) (s : Engine) :=
  mkEngine (records s) (fences s) (latestTombstones s) (ancestry s) (parked s) (overrides s)
    (pendingEchoes s) (grantedLeases s) (retryingLeaseRejections s) (queue s) (clock s)
    (hydrating s) b (draining s) (trace s) (tick s).
Definition with_draining (b : bool) (s : Engine) :=
  mkEngine (records s) (fences s) (latestTombstones s) (ancestry s) (parked s) (overrides s)
    (pendingEchoes s) (grantedLeases s) (retryingLeaseRejections s) (queue s) (clock s)
    (hydrating s) (online s) b (trace s) (tick s).
Definition emit (e : Effect) (s : Engine) :=
  mkEngine (records s) (fences s) (latestTombstones s) (ancestry s) (parked s) (overrides s)
    (pendingEchoes s) (grantedLeases s) (retryingLeaseRejections s) (queue s) (clock s)
    (hydrating s) (online s) (draining s) (trace s ++ [e]) (tick s).
Definition ticked (s : Engine) :=
  mkEngine (records s) (fences s) (latestTombstones s) (ancestry s) (parked s) (overrides s)
    (pendingEchoes s) (grantedLeases s) (retryingLeaseRejections s) (queue s) (clock s)
    (hydrating s) (online s) (draining s) (trace s) (S (tick s)).

Definition newEngine (device : string) : Engine :=
  mkEngine jsmap_empty jsmap_empty jsmap_empty jsmap_empty jsmap_empty jsmap_empty jsmap_empty
    jsmap_empty [] (mkMemQueue []) (newClock device) false true false [] 0.

#[global] Arguments MAX_ANCESTRY_WALK : simpl never.
#[global] Arguments MAX_ANCESTRY_EDGES : simpl never.
#[global] Arguments ECHO_SWEEP_THRESHOLD : simpl never.
#[global] Arguments TOMBSTONE_RETENTION_MS : simpl never.

(** ** Ancestry *)

(** The loop of [descent], [fuel] steps left. *)
Fixpoint descent_loop (fuel : nat) (edges : option edge_map) (fence : DeleteFence)
    (token : option string) : Descent :=
  match token with
  | None => predates
  | Some t =>
      match fuel with
      | O => unknown
      | S fuel' =>
          if String.eqb t (df_token fence) then descends
          else match parseVersionToken t with
               | None => unknown
               | Some (_, hlc) =>
                   if compareHlc hlc (df_hlc fence) <? 0 then predates
                   else match edges ≫= map_get t with
                        | None => unknown
                        | Some parent => descent_loop fuel' edges fence parent
                        end
               end
      end
  end.

Definition descent (s : Engine) (recordId : string) (startToken : option string)
    (fence : DeleteFence) : Descent :=
  match startToken with
  | None => predates
  | Some _ => descent_loop MAX_ANCESTRY_WALK (map_get recordId (ancestry s)) fence startToken
  end.

(** The eviction loop of [noteAncestry]: the key with the oldest timestamp, or
    the first key that is not a token. *)
Fixpoint oldest_edge (keys : list string) (oldest : option (string * Hlc)) : option string :=
  match keys with
  | [] => option_map fst oldest
  | t :: keys' =>
      match parseVersionToken t with
      | None => Some t
      | Some (_, h) =>
          match oldest with
          | None => oldest_edge keys' (Some (t, h))
          | Some (_, oh) =>
              if compareHlc h oh <? 0 then oldest_edge keys' (Some (t, h))
              else oldest_edge keys' oldest
          end
      end
  end.

(** The edges of one record after seeing [token] with [parent]. *)
Definition add_edge (token : string) (parent : option string) (edges : edge_map) : edge_map :=
  if map_has token edges then edges
  else
    let edges := map_set token parent edges in
    if (map_size edges <=? MAX_ANCESTRY_EDGES)%nat then edges
    else match oldest_edge (map_keys edges) None with
         | Some o => map_delete o edges
         | None => edges
         end.

Definition noteAncestry (record : CookieRecordWire) (s : Engine) : Engine :=
  let token := makeVersionToken (w_recordId record) (w_hlc record) in
  let edges := default jsmap_empty (map_get (w_recordId record) (ancestry s)) in
  with_ancestry (map_set (w_recordId record) (add_edge token (w_causalParent record) edges)) s.

(** ** Fences, tombstones, parking *)

Definition noteFence (record : CookieRecordWire) (s : Engine) : Engine :=
  if negb (bool_decide (w_cause record = EXPLICIT_DELETE)) then s
  else if match map_get (w_recordId record) (fences s) with
          | None => true
          | Some fence => compareHlc (w_hlc record) (df_hlc fence) >? 0
          end
  then with_fences (map_set (w_recordId record)
         (mkFence (w_hlc record) (makeVersionToken (w_recordId record) (w_hlc record)))) s
  else s.

Definition noteTombstone (wire : CookieRecordWire) (plain : CookiePlain) (s : Engine) : Engine :=
  if match map_get (w_recordId wire) (latestTombstones s) with
     | None => true
     | Some existing => compareHlc (w_hlc wire) (w_hlc (tn_wire existing)) >? 0
     end
  then with_latestTombstones (map_set (w_recordId wire) (mkNote wire plain)) s
  else s.

Definition park (record : CookieRecordWire) (s : Engine) : Engine :=
  if match map_get (w_recordId record) (parked s) with
     | None => true
     | Some existing => compareHlc (w_hlc record) (w_hlc existing) >? 0
     end
  then with_parked (map_set (w_recordId record) record) s
  else s.

(** ** Conflict resolution *)

(** Plain last-writer-wins against the current record. *)
Definition lww (current : option StoredRecord) (record : CookieRecordWire) : RemoteDisposition :=
  match current with
  | None => applied
  | Some current =>
      let cmp := compareHlc (w_hlc record) (sr_hlc current) in
      if cmp =? 0 then duplicate else if cmp >? 0 then applied else stale
  end.

Definition resolve (s : Engine) (current : option StoredRecord) (record : CookieRecordWire)
    : RemoteDisposition :=
  let thisToken := makeVersionToken (w_recordId record) (w_hlc record) in
  match w_cause record with
  | WRITE | OVERWRITE =>
      match map_get (w_recordId record) (fences s) with
      | Some fence =>
          if (compareHlc (w_hlc record) (df_hlc fence) >? 0)
             && negb (bool_decide
                  (descent s (w_recordId record) (w_causalParent record) fence = descends))
          then resurrection_blocked
          else lww current record
      | None => lww current record
      end
  | EXPLICIT_DELETE =>
      match current with
      | None => applied
      | Some current =>
          let cmp := compareHlc (w_hlc record) (sr_hlc current) in
          if cmp =? 0 then duplicate
          else if cmp >? 0 then applied
          else if DELETION_CAUSES (sr_cause current) then stale
          else
            if match map_get (w_recordId record) (fences s) with
               | Some fence => negb (String.eqb (df_token fence) thisToken)
               | None => false
               end
            then stale
            else
              let currentToken := makeVersionToken (sr_recordId current) (sr_hlc current) in
              match descent s (w_recordId record) (Some currentToken)
                      (mkFence (w_hlc record) thisToken) with
              | descends => stale
              | _ => applied
              end
      end
  | _ => lww current record
  end.

(** ** The record store *)

Definition store_at (now : Z) (wire : CookieRecordWire) (plain : CookiePlain) (s : Engine) : Engine :=
  with_records (map_set (w_recordId wire)
    (mkStored (w_recordId wire) (w_originId wire) plain wire (w_cause wire) (w_hlc wire)
       (w_causalParent wire) (if DELETION_CAUSES (w_cause wire) then Some now else None))) s.

(** ** The echo ledger *)

Definition flag (b : bool) : string := if b then "1" else "0".

Definition echoKey (recordId : string) (plain : CookiePlain) : string :=
  match cp_deleted plain, cp_attributes plain with
  | false, Some a =>
      str_join (String (chr 0) EmptyString)
        [recordId; "W"; ca_value a;
         match ca_expiresMs a with None => "session" | Some e => toString10 (e / 1000) end;
         flag (ca_persistent a); flag (ca_secure a); flag (ca_httpOnly a);
         sameSite_string (ca_sameSite a)]
  | _, _ => recordId +:+ "|D"
  end.

Definition sweep_echoes (now : Z) (m : jsmap string EchoEntry) : jsmap string EchoEntry :=
  if (ECHO_SWEEP_THRESHOLD <? map_size m)%nat
  then List.filter (λ '(_, entry), negb (ee_expiresAtMs entry <=? now)) m
  else m.

Definition expectEcho_at (now echoTtlMs : Z) (recordId : string) (plain : CookiePlain)
    (s : Engine) : Engine :=
  let key := echoKey recordId plain in
  with_pendingEchoes (λ m,
    let m := sweep_echoes now m in
    map_set key
      match map_get key m with
      | Some existing =>
          if ee_expiresAtMs existing >? now
          then mkEcho (ee_count existing + 1) (now + echoTtlMs)
          else mkEcho 1 (now + echoTtlMs)
      | None => mkEcho 1 (now + echoTtlMs)
      end m) s.

(** One expectation fewer for [key]. *)
Definition drop_echo (key : string) (m : jsmap string EchoEntry) : jsmap string EchoEntry :=
  match map_get key m with
  | None => m
  | Some entry =>
      if ee_count entry <=? 1 then map_delete key m
      else map_set key (mkEcho (ee_count entry - 1) (ee_expiresAtMs entry)) m
  end.

Definition cancelExpectedEcho (recordId : string) (plain : CookiePlain) (s : Engine) : Engine :=
  with_pendingEchoes (drop_echo (echoKey recordId plain)) s.

(** [consumeEcho] once the clock has been read (it is read only when there is
    an entry). *)
Definition consumeEcho_at (now : Z) (recordId : string) (plain : CookiePlain) (s : Engine)
    : bool * Engine :=
  let key := echoKey recordId plain in
  match map_get key (pendingEchoes s) with
  | None => (hydrating s, s)
  | Some entry =>
      if ee_expiresAtMs entry <=? now
      then (hydrating s, with_pendingEchoes (map_delete key) s)
      else (true, with_pendingEchoes (drop_echo key) s)
  end.

(** ** The policy gate *)

Definition override_step (host : string) (best : option (string * OriginOverride))
    (entry : string * OriginOverride) : option (string * OriginOverride) :=
  let '(domain, override) := entry in
  if (String.eqb host domain || endsWith host ("." +:+ domain))
     && match best with
        | None => true
        | Some (bestDomain, _) => (String.length bestDomain <? String.length domain)%nat
        end
  then Some (domain, override) else best.

Definition lookupOverride (s : Engine) (host : string) : option OriginOverride :=
  option_map snd (fold_left (override_step host) (overrides s) None).

Definition isSynced (policies : list OriginPolicy) (s : Engine) (hostKey : string) : bool :=
  let host := normalizedHost hostKey in
  match lookupOverride s host with
  | Some ov_never => false
  | Some ov_sync => true
  | None =>
      let policy := matchOriginPolicy policies host in
      sync_tier_nonzero (op_syncTier policy) && negb (op_sensitive policy)
  end.

(** ** Ancestry chains *)

(** [Chain edges t u]: following causal parents from version [t] reaches [u]. *)
Inductive Chain (edges : edge_map) : string → string → Prop :=
| chain_here t : Chain edges t t
| chain_parent t p u : map_get t edges = Some (Some p) → Chain edges p u → Chain edges t u.

(** The timestamp a version token embeds. *)
Definition token_hlc (t : string) : option Hlc := option_map snd (parseVersionToken t).

(** Every recorded parent is older than its child. *)
Definition edges_causal (edges : edge_map) : Prop :=
  ∀ t p, map_get t edges = Some (Some p) →
    ∃ ht hp, token_hlc t = Some ht ∧ token_hlc p = Some hp ∧ hlc_lt hp ht.

(** [Chain_n edges t n u]: [Chain] with the number of parents followed. *)
Inductive Chain_n (edges : edge_map) : nat → string → string → Prop :=
| chain_n_here t : Chain_n edges 0 t t
| chain_n_parent n t p u :
    map_get t edges = Some (Some p) → Chain_n edges n p u → Chain_n edges (S n) t u.

(** The edges the engine knows for a record. *)
Definition edges_of (s : Engine) (recordId : string) : edge_map :=
  default jsmap_empty (map_get recordId (ancestry s)).

Lemma descent_loop_sound fuel edges fence t :
  descent_loop fuel (Some edges) fence (Some t) = descends → Chain edges t (df_token fence).
Proof.
  revert t. induction fuel as [|f IH]; intros t; simpl; [done|].
  destruct (String.eqb_spec t (df_token fence)) as [->|Hne]; [constructor|].
  destruct (parseVersionToken t) as [[rid h]|]; [|done].
  destruct (compareHlc h (df_hlc fence) <? 0); [done|].
  destruct (map_get t edges) as [[p|]|] eqn:E; [|by destruct f|done].
  intros H. eapply chain_parent; eauto.
Qed.

Lemma chain_hlc_le edges t u ht hu :
  edges_causal edges → Chain edges t u → token_hlc t = Some ht → token_hlc u = Some hu →
  hlc_le hu ht.
Proof.
  intros Hc Hch. revert ht. induction Hch as [t|t p u E Hch IH]; intros ht Ht Hu.
  - assert (ht = hu) as -> by congruence. apply hlc_le_refl.
  - destruct (Hc _ _ E) as (ht' & hp & Ht' & Hp & Hlt).
    assert (ht' = ht) as -> by congruence. specialize (IH hp Hp Hu). hlc_order.
Qed.

Lemma chain_root edges t u :
  map_get t edges = Some None → Chain edges t u → u = t.
Proof. intros E H. inversion H; [done|congruence]. Qed.

Lemma descent_loop_predates fuel edges fence t :
  edges_causal edges → token_hlc (df_token fence) = Some (df_hlc fence) →
  descent_loop fuel (Some edges) fence (Some t) = predates → ¬ Chain edges t (df_token fence).
Proof.
  intros Hc Hf. revert t. induction fuel as [|f IH]; intros t; simpl; [done|].
  destruct (String.eqb_spec t (df_token fence)) as [->|Hne]; [done|].
  destruct (parseVersionToken t) as [[rid h]|] eqn:Ep; [|done].
  destruct (compareHlc h (df_hlc fence) <? 0) eqn:Ec; hlc_prop.
  - intros _ Hch. eapply chain_hlc_le in Hch; [|done|by unfold token_hlc; rewrite Ep|done].
    simpl in Hch. hlc_order.
  - destruct (map_get t edges) as [[p|]|] eqn:E; [| |done].
    + intros Hd Hch. inversion Hch; simplify_eq. by eapply IH.
    + intros _ Hch. by apply (chain_root _ _ _ E) in Hch.
Qed.

Lemma descent_loop_complete fuel edges fence n t :
  edges_causal edges → token_hlc (df_token fence) = Some (df_hlc fence) →
  Chain_n edges n t (df_token fence) → (n < fuel)%nat →
  descent_loop fuel (Some edges) fence (Some t) = descends.
Proof.
  intros Hc Hf. revert t n. induction fuel as [|f IH]; intros t n Hch Hn; [lia|]. simpl.
  destruct (String.eqb_spec t (df_token fence)) as [->|Hne]; [done|].
  inversion Hch as [?|m ? p ? E Hch']; subst; [done|].
  destruct (Hc _ _ E) as (ht & hp & Ht & Hp & Hlt).
  unfold token_hlc in Ht. destruct (parseVersionToken t) as [[rid h]|]; [|done]. simplify_eq/=.
  assert (Chain edges p (df_token fence)) as Hpc.
  { clear -Hch'. induction Hch'; econstructor; eauto. }
  pose proof (chain_hlc_le _ _ _ _ _ Hc Hpc Hp Hf) as Hle.
  destruct (compareHlc ht (df_hlc fence) <? 0) eqn:Ec; hlc_prop; [hlc_order|].
  rewrite E. apply (IH p m); [done|lia].
Qed.

Lemma descent_descends s rid start fence :
  descent s rid start fence = descends →
  ∃ t, start = Some t ∧ Chain (edges_of s rid) t (df_token fence).
Proof.
  unfold descent. destruct start as [t|]; [|done]. intros H. exists t. split; [done|].
  unfold edges_of. destruct (map_get rid (ancestry s)) as [edges|] eqn:E.
  - by eapply descent_loop_sound.
  - simpl in H. destruct (String.eqb_spec t (df_token fence)) as [->|]; [constructor|].
    destruct (parseVersionToken t) as [[? ?]|]; [|done]. by destruct (_ <? 0).
Qed.

(** ** Resolution *)

(** What [resolve] lets through: a write is accepted over a known deletion
    fence older than it only when its history reaches that fence. *)
Lemma resolve_write_fence s cur r fence :
  w_cause r = WRITE ∨ w_cause r = OVERWRITE →
  map_get (w_recordId r) (fences s) = Some fence →
  hlc_lt (df_hlc fence) (w_hlc r) →
  resolve s cur r ≠ resurrection_blocked →
  ∃ t, w_causalParent r = Some t ∧ Chain (edges_of s (w_recordId r)) t (df_token fence).
Proof.
  intros Hc Hf Hlt. assert ((compareHlc (w_hlc r) (df_hlc fence) >? 0) = true) as Hg
    by by apply compareHlc_gtb.
  unfold resolve. rewrite Hf, Hg. simpl.
  destruct Hc as [-> | ->]; case_bool_decide as Hd; try done;
    intros _; by apply descent_descends in Hd.
Qed.

(** Only writes are ever blocked. *)
Lemma resolve_blocked s cur r :
  resolve s cur r = resurrection_blocked → w_cause r = WRITE ∨ w_cause r = OVERWRITE.
Proof. unfold resolve, lww. repeat case_match; auto; done. Qed.

Lemma resolve_not_rejected s cur r : resolve s cur r ≠ rejected.
Proof. unfold resolve, lww. repeat case_match; done. Qed.

(** Without a fence, every cause but an explicit deletion is plain
    last-writer-wins. *)
Lemma resolve_lww s cur r :
  w_cause r ≠ EXPLICIT_DELETE →
  (map_get (w_recordId r) (fences s) = None) →
  resolve s cur r = lww cur r.
Proof. intros Hc Hf. unfold resolve. rewrite Hf. by destruct (w_cause r). Qed.

Lemma lww_applied cur r :
  lww cur r = applied ↔ ∀ c, cur = Some c → hlc_lt (sr_hlc c) (w_hlc r).
Proof.
  unfold lww. destruct cur as [c|]; [|naive_solver].
  destruct (_ =? 0) eqn:E1; hlc_prop.
  { split; [done|]. intros H. specialize (H c eq_refl). rewrite E1 in H. by apply hlc_lt_irrefl in H. }
  destruct (_ >? 0) eqn:E2; hlc_prop; split; try done.
  - by intros _ ? [= <-].
  - intros H. specialize (H c eq_refl). hlc_order.
Qed.

(** ** Properties *)

(** The ancestry walk decides causal descent.  When it answers
    "descends" the version's recorded history does reach the deletion; if
    recorded parents are older than their children, "predates" means the
    history provably never reaches it, and a history that reaches it in fewer
    than [MAX_ANCESTRY_WALK] steps is always found. *)
Theorem descent_decides s recordId t fence :
  let edges := edges_of s recordId in
  (descent s recordId (Some t) fence = descends → Chain edges t (df_token fence))
  ∧ (edges_causal edges → token_hlc (df_token fence) = Some (df_hlc fence) →
      is_Some (map_get recordId (ancestry s)) →
      (descent s recordId (Some t) fence = predates → ¬ Chain edges t (df_token fence))
      ∧ (∀ n, Chain_n edges n t (df_token fence) → (n < MAX_ANCESTRY_WALK)%nat →
           descent s recordId (Some t) fence = descends)).
Proof.
  split.
  - intros (? & [= <-] & ?)%descent_descends. done.
  - intros Hc Hf [edges E]. unfold edges_of, descent in *. rewrite E in *. cbn [default] in *.
    split; [by apply descent_loop_predates|]. intros n Hch Hn. by eapply descent_loop_complete.
Qed.
