(* ===== verification/SyncVerify.v ===== *)
(** * Device-signature verification (packages/sync-engine/src/verify.ts)

    The registry of enrolled devices that the engine consults before a remote
    record touches its state. *)

From S2P Require Export SyncState.
From Stdlib Require Import Ascii.

Inductive UnknownDevicePolicy := udp_reject | udp_accept.

Section Registry.
Context {W : WebCrypto}.

Record DeviceRegistryVerifier := mkRegistry {
  dr_keys : jsmap string CryptoKey;
  dr_unknownDevicePolicy : UnknownDevicePolicy
}.

Definition newRegistry (policy : UnknownDevicePolicy) : DeviceRegistryVerifier :=
  mkRegistry jsmap_empty policy.

Definition addDevice (device : string) (publicKey : CryptoKey) (v : DeviceRegistryVerifier) :=
  mkRegistry (map_set device publicKey (dr_keys v)) (dr_unknownDevicePolicy v).

Definition removeDevice (device : string) (v : DeviceRegistryVerifier) :=
  mkRegistry (map_delete device (dr_keys v)) (dr_unknownDevicePolicy v).

Definition hasDevice (device : string) (v : DeviceRegistryVerifier) : bool :=
  map_has device (dr_keys v).

Definition verify (v : DeviceRegistryVerifier) (record : CookieRecordWire) : bool :=
  match map_get (deviceId (w_hlc record)) (dr_keys v) with
  | None => match dr_unknownDevicePolicy v with udp_accept => true | udp_reject => false end
  | Some publicKey =>
      match fromBase64 (w_deviceSig record) with
      | None => false
      | Some signature => verifyRecord publicKey signature (wire_fields record)
      end
  end.
End Registry.

(** ** Lemmas: what one device builds, another opens *)

Section Built.
Context {W : WebCrypto} {L : WebCryptoLaws W}.
Context (iv : bytes) (keys : SpaceKeys) (signer : RecordSigner)
  (Hiv : bytes_ok iv) (Hivl : length iv = GCM_IV_BYTES).

Lemma openRecord_built plain hlc parent cause :
  openRecord keys (buildCookieRecordWire iv keys signer plain hlc parent cause) = Some plain.
Proof using L Hiv Hivl.
  unfold openRecord, buildCookieRecordWire, sign_fields.
  cbn [w_sealedRecord w_spaceId w_recordId sf_sealedRecord sf_spaceId sf_recordId].
  unfold fromBase64, toBase64.
  rewrite atob_btoa by (apply seal_ok; auto with suma). cbn [mbind option_bind].
  rewrite open_seal_iv by done. cbn [mbind option_bind]. apply decode_encode_plain.
Qed.

Lemma identityBound_built plain hlc parent cause :
  identityBound keys (buildCookieRecordWire iv keys signer plain hlc parent cause) plain = true.
Proof.
  unfold identityBound, buildCookieRecordWire, sign_fields.
  cbn [w_recordId w_spaceId w_originId sf_spaceId sf_recordId sf_originId].
  by rewrite !String.eqb_refl.
Qed.

Lemma verify_built v plain hlc parent cause :
  map_get (deviceId hlc) (dr_keys v) = Some (ed25519_public (rs_privateKey signer)) →
  verify v (buildCookieRecordWire iv keys signer plain hlc parent cause) = true.
Proof using L.
  intros Hk. unfold verify, buildCookieRecordWire, sign_fields.
  cbn [w_hlc sf_hlc w_deviceSig]. rewrite Hk. unfold fromBase64, toBase64.
  rewrite atob_btoa by apply ed25519_sign_ok. apply ed25519_verify_sign.
Qed.
End Built.

(** ** Properties *)

(** The registry's verdict.  A record built by a registered device passes
    whatever the policy; a record from a device that was never added, or was
    removed, passes only under the "accept" policy; adding or removing one
    device never changes the verdict on another's records. *)
Theorem verify_registry {W : WebCrypto} {L : WebCryptoLaws W} (v : DeviceRegistryVerifier) d
    signer iv keys plain hlc parent cause :
  deviceId hlc = d →
  let r := buildCookieRecordWire iv keys signer plain hlc parent cause in
  verify (addDevice d (ed25519_public (rs_privateKey signer)) v) r = true
  ∧ verify (removeDevice d v) r = match dr_unknownDevicePolicy v with udp_accept => true | udp_reject => false end
  ∧ (∀ d' key, d' ≠ d → verify (addDevice d' key v) r = verify v r
       ∧ verify (removeDevice d' v) r = verify v r)
  ∧ hasDevice d (addDevice d (ed25519_public (rs_privateKey signer)) v) = true
  ∧ hasDevice d (removeDevice d v) = false.
Proof.
  intros <- r. split; [by apply verify_built, map_get_set_eq|].
  assert (w_hlc r = hlc) as Hh by done.
  split; [unfold verify; rewrite Hh; simpl; by rewrite map_get_delete_eq|].
  split; [intros d' key Hne; unfold verify; rewrite Hh; simpl;
          by rewrite map_get_set_ne, map_get_delete_ne by done|].
  unfold hasDevice, map_has. simpl. by rewrite map_get_set_eq, map_get_delete_eq.
Qed.

Lemma verify_registry_witness :
  let keys := mkSpaceKeys (W := ToyCrypto) "space" [1] [2] in
  let r := buildCookieRecordWire (W := ToyCrypto) (repeat 1 12) keys
    (mkSigner (W := ToyCrypto) "mac" [9]) (mkPlain (mkIdentity "space" "h" "n" "/" "" scheme_secure) None true)
    (mkHlc 5 0 "mac") None EXPIRED in
  verify (addDevice (W := ToyCrypto) "mac" [9] (newRegistry udp_reject)) r = true
  ∧ verify (removeDevice (W := ToyCrypto) "mac" (newRegistry udp_reject)) r = false.
Proof.
  intros keys r.
  destruct (verify_registry (newRegistry udp_reject) "mac" (mkSigner (W := ToyCrypto) "mac" [9])
    (repeat 1 12) keys (mkPlain (mkIdentity "space" "h" "n" "/" "" scheme_secure) None true)
    (mkHlc 5 0 "mac") None EXPIRED eq_refl) as (H1 & H2 & _).
  split; [exact H1|exact H2].
Defined.
