(* ===== verification/SyncEngine.v ===== *)
(** * The sync engine (packages/sync-engine/src/engine.ts)

    Every public method of [SpaceSyncEngine] over the state of SyncState.v.
    A method is one atomic step of the state and exception monad: the awaits
    inside it are not interleaved with other calls.  The [World] answers the
    calls that leave the engine, the n-th call being answered at index n. *)

From S2P Require Export Effects SyncState.
From Stdlib Require Import Ascii.

(** ** The outside world and the constructor's arguments *)

Record World := mkWorld {
  wd_now : nat → Z;
  wd_iv : nat → bytes;
  wd_applyOk : nat → bool;
  wd_leaseGrant : nat → bool
}.

Record EngineConfig {W : WebCrypto} := mkConfig {
  cf_spaceId : string;
  cf_keys : SpaceKeys;
  cf_signer : RecordSigner;
  cf_policies : list OriginPolicy;
  cf_tombstoneRetentionMs : Z;
  cf_leaseTtlMs : Z;
  cf_echoTtlMs : Z;
  cf_verifier : option (CookieRecordWire → bool);
  cf_canApply : option (CookiePlain → bool)
}.

Section SpaceSyncEngine.
Context {W : WebCrypto} (cf : EngineConfig) (world : World).

Abbreviation M := (exn Engine).

(** ** Calls that leave the engine *)

Definition nowFn : M Z := λ s, (Some (wd_now world (tick s)), ticked s).
Definition randomIv : M bytes := λ s, (Some (wd_iv world (tick s)), ticked s).

Definition transport_publish (rs : list CookieRecordWire) : M unit := modify (emit (EPublish rs)).

Definition transport_acquireLease (originId : string) (force : bool)
    (candidate : option (string * Hlc)) : M bool := λ s,
  (Some (wd_leaseGrant world (tick s)),
   ticked (emit (EAcquireLease (cf_spaceId cf) originId force candidate) s)).

(** [applier.apply]: a rejected promise is a thrown error. *)
Definition applier_apply (plain : CookiePlain) (cause : Cause) : M unit := λ s,
  (if wd_applyOk world (tick s) then Some () else None, ticked (emit (EApply plain cause) s)).

(** [applier.canApply?.(plain) !== false]. *)
Definition canApply (plain : CookiePlain) : bool :=
  match cf_canApply cf with Some f => f plain | None => true end.

Definition verified (record : CookieRecordWire) : bool :=
  match cf_verifier cf with Some f => f record | None => true end.

Definition send_hlc : M Hlc :=
  wall ← nowFn;
  exec (λ s, let '(h, c) := clock_send wall (clock s) in (Some h, with_clock (λ _, c) s)).

Definition receive_hlc (remote : Hlc) : M unit :=
  wall ← nowFn; modify (with_clock (λ c, snd (clock_receive wall remote c))).

Definition store (wire : CookieRecordWire) (plain : CookiePlain) : M unit :=
  if DELETION_CAUSES (w_cause wire)
  then now ← nowFn; modify (store_at now wire plain)
  else modify (store_at 0 wire plain).

(** ** Echoes *)

Definition expectEcho (recordId : string) (plain : CookiePlain) : M unit :=
  now ← nowFn; modify (expectEcho_at now (cf_echoTtlMs cf) recordId plain).

Definition consumeEcho (recordId : string) (plain : CookiePlain) : M bool :=
  pending ← gets (λ s, map_has (echoKey recordId plain) (pendingEchoes s));
  if pending : bool then
    now ← nowFn;
    exec (λ s, let '(b, s') := consumeEcho_at now recordId plain s in (Some b, s'))
  else gets hydrating.

(** ** Leases and publishing *)

Definition acquireLease (originId : string) (force : bool) (candidate : option (string * Hlc))
    : M bool :=
  granted ← transport_acquireLease originId force (if force then candidate else None);
  if granted : bool then
    now ← nowFn;
    _ ← modify (with_grantedLeases (map_set originId (now + cf_leaseTtlMs cf / 2)));
    mret true
  else
    _ ← modify (with_grantedLeases (map_delete originId));
    mret false.

Definition ensureLease (originId : string) : M bool :=
  expiry ← gets (λ s, map_get originId (grantedLeases s));
  match expiry with
  | None => acquireLease originId false None
  | Some expiry =>
      now ← nowFn;
      if expiry >? now then mret true else acquireLease originId false None
  end.

Definition publishOrQueue (wire : CookieRecordWire) (needsLease : bool) : M unit :=
  isOnline ← gets online;
  if negb isOnline then modify (with_queue (enqueue wire))
  else
    _ ← (if needsLease then ensureLease (w_originId wire) else mret true);
    transport_publish [wire].

Definition wireNeedsLease (wire : CookieRecordWire) : M bool :=
  if DELETION_CAUSES (w_cause wire) then mret false
  else
    plain ← of_option (openRecord (cf_keys cf) wire);
    mret (op_rotatingAuth (matchOriginPolicy (cf_policies cf)
            (normalizedHost (ci_hostKey (cp_identity plain))))).

Definition drain_one (wire : CookieRecordWire) : M unit :=
  isOnline ← gets online;
  if negb isOnline then modify (with_queue (enqueue wire))
  else
    needs ← wireNeedsLease wire;
    _ ← (if needs : bool then ensureLease (w_originId wire) else mret true);
    transport_publish [wire].

Definition runDrainQueue : M unit :=
  _ ← modify (with_draining true);
  finally
    (pending ← exec (λ s, let '(l, q) := drain (queue s) in (Some l, with_queue (λ _, q) s));
     _ ← forM pending drain_one; mret ())
    (with_draining false).

Definition flushPending : M unit :=
  isOnline ← gets online;
  if negb isOnline then mret () else runDrainQueue.

(** [setOnline] does not wait for the flush: its failure is not the caller's. *)
Definition setOnline (on : bool) : M unit :=
  _ ← modify (with_online on);
  if on then catch flushPending (mret ())
  else
    leases ← gets (λ s, map_keys (grantedLeases s));
    _ ← forM leases (λ originId, modify (emit (EReleaseLease (cf_spaceId cf) originId)));
    modify (with_grantedLeases (λ _, jsmap_empty)).

Definition leaseRevoked (originId : string) : M unit :=
  modify (with_grantedLeases (map_delete originId)).

(** ** Remote records *)

Definition park_if (blocked : bool) (record : CookieRecordWire) : M unit :=
  if blocked then modify (park record) else mret ().

Definition ingest (record : CookieRecordWire) (allowPark : bool) : M RemoteDisposition :=
  if bool_decide (w_cause record = HYDRATION_ECHO) then mret duplicate
  else if negb (String.eqb (w_spaceId record) (cf_spaceId cf)) then mret rejected
  else if negb (verified record) then mret rejected
  else match openRecord (cf_keys cf) record with
  | None => _ ← modify (emit EWarn); mret rejected
  | Some plain =>
      if negb (identityBound (cf_keys cf) record plain) then mret rejected
      else
        _ ← receive_hlc (w_hlc record);
        _ ← modify (noteAncestry record);
        _ ← modify (noteFence record);
        _ ← when (DELETION_CAUSES (w_cause record)) (modify (noteTombstone record plain));
        disposition ← gets (λ s, resolve s (map_get (w_recordId record) (records s)) record);
        _ ← park_if (bool_decide (disposition = resurrection_blocked) && allowPark) record;
        if negb (bool_decide (disposition = applied)) then mret disposition
        else
          winner ← gets (λ s,
            if DELETION_CAUSES (w_cause record)
            then default (mkNote record plain) (map_get (w_recordId record) (latestTombstones s))
            else mkNote record plain);
          _ ← when (canApply (tn_plain winner))
            (_ ← expectEcho (w_recordId (tn_wire winner)) (tn_plain winner);
             catch (applier_apply (tn_plain winner) (w_cause (tn_wire winner)))
               (_ ← modify (cancelExpectedEcho (w_recordId (tn_wire winner)) (tn_plain winner));
                throw));
          _ ← store (tn_wire winner) (tn_plain winner);
          mret applied
  end.

Definition retryParked (recordId : string) : M unit :=
  parkedRecord ← gets (λ s, map_get recordId (parked s));
  match parkedRecord with
  | None => mret ()
  | Some parkedRecord =>
      verdict ← gets (λ s, resolve s (map_get recordId (records s)) parkedRecord);
      if bool_decide (verdict = resurrection_blocked) then mret ()
      else
        _ ← modify (with_parked (map_delete recordId));
        if negb (bool_decide (verdict = applied)) then mret ()
        else _ ← ingest parkedRecord false; mret ()
  end.

Definition applyOne (record : CookieRecordWire) : M RemoteDisposition :=
  disposition ← ingest record true;
  _ ← retryParked (w_recordId record);
  mret disposition.

Definition applyRemote (rs : list CookieRecordWire) : M (list RemoteDisposition) :=
  forM rs applyOne.

Definition inspectRemoteIdentity (record : CookieRecordWire) : M (option CookieIdentity) :=
  if negb (String.eqb (w_spaceId record) (cf_spaceId cf)) then mret None
  else if negb (verified record) then mret None
  else mret
    match openRecord (cf_keys cf) record with
    | Some plain =>
        if identityBound (cf_keys cf) record plain then Some (cp_identity plain) else None
    | None => None
    end.

(** ** Local changes *)

Definition hasRecord (identity : CookieIdentity) : M bool :=
  if negb (String.eqb (ci_spaceId identity) (cf_spaceId cf)) then mret false
  else gets (λ s, map_has (computeRecordIdHex (idKey (cf_keys cf)) identity) (records s)).

(** Writer-scoped deletions: the cause to record, and whether it stays local. *)
Definition writerScope (policy : OriginPolicy) (hostKey : string) (cause : Cause)
    (explicitIntent : bool) : M (bool * Cause) :=
  if op_rotatingAuth policy && DELETION_CAUSES cause && negb explicitIntent then
    let originId := computeOriginIdHex (idKey (cf_keys cf)) (cf_spaceId cf) hostKey in
    grant ← gets (λ s, map_get originId (grantedLeases s));
    let scoped := (true, if bool_decide (cause = EXPLICIT_DELETE) then EXPIRED else cause) in
    match grant with
    | None => mret scoped
    | Some grant => now ← nowFn; mret (if grant <=? now then scoped else (false, cause))
    end
  else mret (false, cause).

(** Sign a local mutation on top of the current version and record it. *)
Definition issue (plain : CookiePlain) (cause : Cause) : M CookieRecordWire :=
  let recordId := computeRecordIdHex (idKey (cf_keys cf)) (cp_identity plain) in
  hlc ← send_hlc;
  current ← gets (λ s, map_get recordId (records s));
  iv ← randomIv;
  let wire := buildCookieRecordWire iv (cf_keys cf) (cf_signer cf) plain hlc
    (option_map (λ c, makeVersionToken recordId (sr_hlc c)) current) cause in
  _ ← modify (noteAncestry wire);
  _ ← modify (noteFence wire);
  _ ← when (DELETION_CAUSES cause) (modify (noteTombstone wire plain));
  _ ← store wire plain;
  mret wire.

Definition localChange (identity : CookieIdentity) (attrs : option CookieAttributes)
    (removed : bool) (chromiumCause : string) (explicitIntent : bool)
    : M (option CookieRecordWire) :=
  if negb (String.eqb (ci_spaceId identity) (cf_spaceId cf)) then throw
  else match causeForChange chromiumCause removed with
  | None => mret None
  | Some cause =>
      if negb removed && match attrs with None => true | Some _ => false end then throw
      else
        let plain := mkPlain identity (if removed then None else attrs) removed in
        let recordId := computeRecordIdHex (idKey (cf_keys cf)) identity in
        echoed ← consumeEcho recordId plain;
        if echoed : bool then mret None
        else
          synced ← gets (λ s, isSynced (cf_policies cf) s (ci_hostKey identity));
          if negb synced then mret None
          else
            let policy := matchOriginPolicy (cf_policies cf)
                            (normalizedHost (ci_hostKey identity)) in
            scope ← writerScope policy (ci_hostKey identity) cause explicitIntent;
            let '(localOnly, cause) := scope in
            wire ← issue plain cause;
            _ ← when (negb localOnly)
              (publishOrQueue wire (op_rotatingAuth policy && negb (DELETION_CAUSES cause)));
            _ ← retryParked recordId;
            mret (Some wire)
  end.

(** ** Snapshots and rollback *)

Definition snapshotOrigin (originId : string) : M OriginSnapshot :=
  rs ← gets (λ s, List.filter (λ r, String.eqb (sr_originId r) originId) (map_values (records s)));
  now ← nowFn;
  mret (mkSnapshot (cf_spaceId cf) originId now rs).

Definition reissue (plain : CookiePlain) (cause : Cause) : M CookieRecordWire :=
  wire ← issue plain cause;
  _ ← when (canApply plain)
    (_ ← expectEcho (computeRecordIdHex (idKey (cf_keys cf)) (cp_identity plain)) plain;
     applier_apply plain cause);
  _ ← publishOrQueue wire false;
  mret wire.

Definition rollbackOrigin (originId : string) (snapshot : OriginSnapshot)
    : M (list CookieRecordWire) :=
  let snapshotIds := map sr_recordId (os_records snapshot) in
  live ← gets (λ s, List.filter (λ r,
    negb (negb (String.eqb (sr_originId r) originId)
          || bool_decide (sr_recordId r ∈ snapshotIds) || cp_deleted (sr_plain r)))
    (map_values (records s)));
  deleted ← forM live (λ r,
    reissue (mkPlain (cp_identity (sr_plain r)) None true) EXPLICIT_DELETE);
  restored ← forM (os_records snapshot) (λ r,
    reissue (sr_plain r) (if cp_deleted (sr_plain r) then EXPLICIT_DELETE else WRITE));
  mret (deleted ++ restored).

(** ** Rejected publishes *)

Definition publishRejected (recordId : string) (reason : RejectReason) : M unit :=
  retrying ← gets (λ s, bool_decide (recordId ∈ retryingLeaseRejections s));
  if negb match reason with lease_required => true | _ => false end || retrying then mret ()
  else
    current ← gets (λ s, map_get recordId (records s));
    match current with
    | None => mret ()
    | Some current =>
        if negb (String.eqb (deviceId (sr_hlc current)) (rs_deviceId (cf_signer cf)))
           || DELETION_CAUSES (sr_cause current) then mret ()
        else
          _ ← modify (with_retrying (λ l, l ++ [recordId]));
          finally
            (_ ← modify (with_grantedLeases (map_delete (sr_originId current)));
             isOnline ← gets online;
             if negb isOnline then modify (with_queue (enqueue (sr_wire current)))
             else
               got ← acquireLease (sr_originId current) true
                       (Some (sr_recordId current, sr_hlc current));
               if negb got then modify (with_queue (enqueue (sr_wire current)))
               else transport_publish [sr_wire current])
            (with_retrying (List.filter (λ r, negb (String.eqb r recordId))))
    end.

(** ** Housekeeping and queries *)

Definition collectable (cutoff : Z) (record : StoredRecord) : bool :=
  match sr_tombstonedAtMs record with None => false | Some t => negb (t >=? cutoff) end.

Definition forget (recordId : string) (s : Engine) : Engine :=
  with_parked (map_delete recordId) (with_ancestry (map_delete recordId)
    (with_latestTombstones (map_delete recordId) (with_fences (map_delete recordId)
      (with_records (map_delete recordId) s)))).

Definition gcTombstones : M Z :=
  now ← nowFn;
  old ← gets (λ s, List.filter (λ '(_, r), collectable (now - cf_tombstoneRetentionMs cf) r)
                     (records s));
  _ ← modify (λ s, fold_left (λ s '(id, _), forget id s) old s);
  mret (Z.of_nat (length old)).

Definition beginHydration : M unit := modify (with_hydrating true).
Definition endHydration : M unit := modify (with_hydrating false).
Definition getRecord (s : Engine) (recordIdHex : string) : option StoredRecord :=
  map_get recordIdHex (records s).
Definition queueDepth (s : Engine) : nat := depth (queue s).

Definition listLiveCookies (s : Engine) : list CookiePlain :=
  map sr_plain (List.filter (λ r, negb (cp_deleted (sr_plain r))) (map_values (records s))).

Definition reapplyOrigin (host : string) : M Z :=
  let target := normalizedHost host in
  candidates ← gets (λ s, List.filter (λ r,
    let cookieHost := normalizedHost (ci_hostKey (cp_identity (sr_plain r))) in
    (String.eqb cookieHost target || endsWith cookieHost ("." +:+ target))
    && isSynced (cf_policies cf) s cookieHost && canApply (sr_plain r))
    (map_values (records s)));
  _ ← forM candidates (λ r,
    _ ← expectEcho (sr_recordId r) (sr_plain r);
    applier_apply (sr_plain r) (sr_cause r));
  mret (Z.of_nat (length candidates)).

Definition setOriginOverride (host : string) (override : option OriginOverride) : M unit :=
  let key := normalizedHost host in
  modify (with_overrides
    match override with None => map_delete key | Some o => map_set key o end).

Definition getOriginPolicyFor (s : Engine) (host : string) : OriginPolicyView :=
  let normalized := normalizedHost host in
  mkPolicyView (matchOriginPolicy (cf_policies cf) normalized) (lookupOverride s normalized)
    (isSynced (cf_policies cf) s normalized).

(** ** The engine as a transition system: one step per method call *)

Inductive Op :=
| OpLocalChange (identity : CookieIdentity) (attrs : option CookieAttributes) (removed : bool)
    (chromiumCause : string) (explicitIntent : bool)
| OpApplyRemote (rs : list CookieRecordWire)
| OpBeginHydration | OpEndHydration
| OpRollbackOrigin (originId : string) (snapshot : OriginSnapshot)
| OpSetOnline (on : bool)
| OpFlushPending
| OpLeaseRevoked (originId : string)
| OpPublishRejected (recordId : string) (reason : RejectReason)
| OpGcTombstones
| OpReapplyOrigin (host : string)
| OpSetOriginOverride (host : string) (override : option OriginOverride).

Definition void {A} (m : M A) : M unit := _ ← m; mret ().

Definition perform (op : Op) : M unit :=
  match op with
  | OpLocalChange i a r c e => void (localChange i a r c e)
  | OpApplyRemote rs => void (applyRemote rs)
  | OpBeginHydration => beginHydration
  | OpEndHydration => endHydration
  | OpRollbackOrigin o sn => void (rollbackOrigin o sn)
  | OpSetOnline on => setOnline on
  | OpFlushPending => flushPending
  | OpLeaseRevoked o => leaseRevoked o
  | OpPublishRejected r why => publishRejected r why
  | OpGcTombstones => void gcTombstones
  | OpReapplyOrigin h => void (reapplyOrigin h)
  | OpSetOriginOverride h o => setOriginOverride h o
  end.

(** The states reachable by any sequence of calls, thrown errors included. *)
Inductive reachable (device : string) : Engine → Prop :=
| reachable_new : reachable device (newEngine device)
| reachable_step s op : reachable device s → reachable device (perform op s).2.
End SpaceSyncEngine.

(** ** A concrete deployment, for evaluation *)

Module Demo.
Definition keys : SpaceKeys (W := ToyCrypto) := mkSpaceKeys (W := ToyCrypto) "space" [1; 2] [3; 4].
Definition signer : RecordSigner (W := ToyCrypto) := mkSigner (W := ToyCrypto) "mac" [9].
Definition cf : EngineConfig (W := ToyCrypto) :=
  mkConfig ToyCrypto "space" keys signer SEED_CORPUS TOMBSTONE_RETENTION_MS ORIGIN_LEASE_TTL_MS
    DEFAULT_ECHO_TTL_MS None None.
(** One millisecond per call, every apply and lease granted. *)
Definition world : World :=
  mkWorld (λ n, 1700000000000 + Z.of_nat n) (λ n, repeat (Z.of_nat n mod 256) 12)
    (λ _, true) (λ _, true).
(** A device that is refused every lease. *)
Definition passive : World :=
  mkWorld (wd_now world) (wd_iv world) (wd_applyOk world) (λ _, false).
Definition cookie (host name : string) : CookieIdentity :=
  mkIdentity "space" host name "/" "" scheme_secure.
Definition attrs (value : string) : CookieAttributes :=
  mkAttributes value (Some 1800000000000) true true true ss_lax prio_medium.
Definition start : Engine := newEngine "mac".
Definition plain (host name value : string) : CookiePlain :=
  mkPlain (cookie host name) (Some (attrs value)) false.
Definition gone (host name : string) : CookiePlain := mkPlain (cookie host name) None true.
Definition wire (p : CookiePlain) (h : Hlc) (parent : option string) (c : Cause) : CookieRecordWire :=
  buildCookieRecordWire (W := ToyCrypto) (repeat 1 12) keys signer p h parent c.
Definition rid (host name : string) : string :=
  computeRecordIdHex (W := ToyCrypto) (idKey keys) (cookie host name).
End Demo.
