(* ===== verification/SyncInvariant.v ===== *)
(** * The invariant of the sync engine

    What every reachable state of SyncEngine.v satisfies, whatever the calls,
    their order and their failures. *)

From S2P Require Export SyncEngine.
From Stdlib Require Import Ascii.

Section Invariant.
Context {W : WebCrypto} (cf : EngineConfig) (world : World).

(** A payload belongs to the record id its identity hashes to. *)
Definition bound (k : string) (p : CookiePlain) : Prop :=
  computeRecordIdHex (idKey (cf_keys cf)) (cp_identity p) = k.

(** A stored record repeats the fields of the wire form it came from, and is
    stamped exactly when it is a tombstone. *)
Definition stored_ok (k : string) (r : StoredRecord) : Prop :=
  sr_recordId r = k ∧ w_recordId (sr_wire r) = k ∧ sr_originId r = w_originId (sr_wire r)
  ∧ sr_cause r = w_cause (sr_wire r) ∧ sr_hlc r = w_hlc (sr_wire r)
  ∧ sr_causalParent r = w_causalParent (sr_wire r)
  ∧ sr_cause r ≠ HYDRATION_ECHO
  ∧ (is_Some (sr_tombstonedAtMs r) ↔ DELETION_CAUSES (sr_cause r) = true)
  ∧ bound k (sr_plain r).

Definition fence_ok (k : string) (f : DeleteFence) : Prop :=
  df_token f = makeVersionToken k (df_hlc f).

Definition note_ok (k : string) (n : TombstoneNote) : Prop :=
  w_recordId (tn_wire n) = k ∧ DELETION_CAUSES (w_cause (tn_wire n)) = true
  ∧ bound k (tn_plain n).

(** A cached grant lapses half a server TTL after a reading of the clock. *)
Definition lease_ok (k : string) (expiry : Z) : Prop :=
  ∃ n, expiry = wd_now world n + cf_leaseTtlMs cf / 2.

Definition parked_ok (k : string) (r : CookieRecordWire) : Prop :=
  w_recordId r = k ∧ (w_cause r = WRITE ∨ w_cause r = OVERWRITE).

Definition edges_ok (edges : edge_map) : Prop :=
  map_wf edges ∧ (map_size edges <= MAX_ANCESTRY_EDGES)%nat.

Definition map_ok {V} (P : string → V → Prop) (m : jsmap string V) : Prop :=
  map_wf m ∧ ∀ k v, map_get k m = Some v → P k v.

Record engine_ok (s : Engine) : Prop := mkEngineOk {
  ok_records : map_ok stored_ok (records s);
  ok_fences : map_ok fence_ok (fences s);
  ok_tombstones : map_ok note_ok (latestTombstones s);
  ok_ancestry : map_ok (λ _, edges_ok) (ancestry s);
  ok_parked : map_ok parked_ok (parked s);
  ok_echoes : map_ok (λ _ e, 1 <= ee_count e) (pendingEchoes s);
  ok_leases : map_ok lease_ok (grantedLeases s);
  ok_overrides : map_wf (overrides s)
}.

(** ** Maps whose entries satisfy a property *)

Section MapOk.
Context {V : Type} (P : string → V → Prop).

Lemma map_ok_empty : map_ok P jsmap_empty.
Proof. split; [constructor|done]. Qed.

Lemma map_ok_set k v m : map_ok P m → P k v → map_ok P (map_set k v m).
Proof.
  intros [Hwf Hm] Hv. split; [by apply map_wf_set|]. intros k' v'. rewrite map_get_set.
  destruct (decide (k = k')) as [<-|]; [by intros [= <-]|apply Hm].
Qed.

Lemma map_ok_delete k m : map_ok P m → map_ok P (map_delete k m).
Proof.
  intros [Hwf Hm]. split; [by apply map_wf_delete|]. intros k' v'. rewrite map_get_delete.
  destruct (decide (k = k')) as [<-|]; [done|apply Hm].
Qed.

Lemma map_ok_filter f m : map_ok P m → map_ok P (List.filter f m).
Proof.
  intros [Hwf Hm]. split; [by apply map_wf_filter|]. intros k v. rewrite map_get_filter by done.
  destruct (map_get k m) eqn:E; [|done]. destruct (f _); [|done]. intros [= <-]. by apply Hm.
Qed.

Lemma map_ok_get k v m : map_ok P m → map_get k m = Some v → P k v.
Proof. intros [_ Hm]. apply Hm. Qed.
End MapOk.

Hint Resolve map_ok_empty map_ok_set map_ok_delete map_ok_filter : suma.

(** ** The pure updates keep the invariant *)

Lemma add_edge_ok token parent edges : edges_ok edges → edges_ok (add_edge token parent edges).
Proof.
  intros [Hwf Hs]. unfold add_edge. destruct (map_has token edges); [by split|].
  set (e := map_set token parent edges).
  assert (map_wf e) as He by by apply map_wf_set.
  destruct (map_size e <=? MAX_ANCESTRY_EDGES)%nat eqn:El.
  { split; [done|]. by apply Nat.leb_le. }
  pose proof (map_size_set token parent edges) as Hset. fold e in Hset.
  assert (∀ keys best,
    match best with Some (t, _) => t ∈ map_keys e | None => keys ≠ [] end →
    (∀ t, t ∈ keys → t ∈ map_keys e) →
    ∃ o, oldest_edge keys best = Some o ∧ o ∈ map_keys e) as Hold.
  { induction keys as [|t keys IH]; intros best Hb Hk.
    - destruct best as [[t h]|]; [|done]. by exists t.
    - simpl. destruct (parseVersionToken t) as [[r h]|]; [|exists t; split; [done|apply Hk; left]].
      assert (t ∈ map_keys e) as Ht by (apply Hk; left).
      assert (∀ u, u ∈ keys → u ∈ map_keys e) as Hk' by (intros; apply Hk; by right).
      destruct best as [[b hb]|]; [destruct (_ <? 0)|]; by apply IH. }
  destruct (Hold (map_keys e) None) as (o & -> & Ho); [|done|].
  { intros Hnil. assert (token ∈ map_keys e) as Hin by (apply map_keys_set; by left).
    rewrite Hnil in Hin. set_solver. }
  split; [by apply map_wf_delete|].
  apply map_get_keys, map_size_delete_in in Ho. lia.
Qed.

Lemma noteAncestry_ok r s : engine_ok s → engine_ok (noteAncestry r s).
Proof.
  intros []. split; try done. apply map_ok_set; [done|]. apply add_edge_ok.
  destruct (map_get (w_recordId r) (ancestry s)) as [e|] eqn:E.
  - by eapply (map_ok_get (λ _, edges_ok)).
  - split; [constructor|simpl; lia].
Qed.

Lemma noteFence_ok r s : engine_ok s → engine_ok (noteFence r s).
Proof.
  intros Hok. unfold noteFence. destruct (negb _); [done|].
  destruct (match map_get _ _ with Some _ => _ | None => _ end); [|done].
  destruct Hok. split; try done. by apply map_ok_set.
Qed.

Lemma noteTombstone_ok w p s :
  DELETION_CAUSES (w_cause w) = true → bound (w_recordId w) p → engine_ok s → engine_ok (noteTombstone w p s).
Proof.
  intros Hc Hb Hok. unfold noteTombstone.
  destruct (match map_get _ _ with Some _ => _ | None => _ end); [|done].
  destruct Hok. split; try done. by apply map_ok_set.
Qed.

Lemma park_ok r s :
  w_cause r = WRITE ∨ w_cause r = OVERWRITE → engine_ok s → engine_ok (park r s).
Proof.
  intros Hc Hok. unfold park.
  destruct (match map_get _ _ with Some _ => _ | None => _ end); [|done].
  destruct Hok. split; try done. by apply map_ok_set.
Qed.

Lemma store_at_ok now w p s :
  w_cause w ≠ HYDRATION_ECHO → bound (w_recordId w) p → engine_ok s →
  engine_ok (store_at now w p s).
Proof.
  intros Hc Hb []. split; try done. apply map_ok_set; [done|].
  unfold stored_ok. simpl. repeat (split; [done|]). split; [|done]. split.
  - intros [t Ht]. by destruct (DELETION_CAUSES (w_cause w)).
  - intros ->. eauto.
Qed.

Lemma expectEcho_at_ok now ttl rid p s : engine_ok s → engine_ok (expectEcho_at now ttl rid p s).
Proof.
  intros []. split; try done. unfold expectEcho_at. simpl.
  assert (map_ok (λ _ e, 1 <= ee_count e) (sweep_echoes now (pendingEchoes s))) as Hsw.
  { unfold sweep_echoes. destruct (_ <? _)%nat; auto with suma. }
  apply map_ok_set; [done|].
  destruct (map_get _ _) as [e|] eqn:E; [|simpl; lia].
  eapply (map_ok_get (λ _ e, 1 <= ee_count e)) in E; [|done].
  destruct (_ >? _); simpl; lia.
Qed.

Lemma drop_echo_ok key m :
  map_ok (λ _ e, 1 <= ee_count e) m → map_ok (λ _ e, 1 <= ee_count e) (drop_echo key m).
Proof.
  intros Hm. unfold drop_echo. destruct (map_get key m) as [e|]; [|done].
  destruct (ee_count e <=? 1) eqn:E; [by apply map_ok_delete|].
  apply map_ok_set; [done|]. simpl. blia.
Qed.

Lemma cancelExpectedEcho_ok rid p s : engine_ok s → engine_ok (cancelExpectedEcho rid p s).
Proof. intros []. split; try done. by apply drop_echo_ok. Qed.

Lemma consumeEcho_at_ok now rid p s :
  engine_ok s → engine_ok (consumeEcho_at now rid p s).2.
Proof.
  intros Hok. unfold consumeEcho_at. destruct (map_get _ _) as [e|]; [|done].
  destruct Hok. destruct (_ <=? _); split; try done; [by apply map_ok_delete|by apply drop_echo_ok].
Qed.

Lemma forget_ok rid s : engine_ok s → engine_ok (forget rid s).
Proof. intros []. split; simpl; auto with suma. Qed.

Hint Resolve noteAncestry_ok noteFence_ok noteTombstone_ok park_ok store_at_ok
  expectEcho_at_ok cancelExpectedEcho_ok forget_ok : suma.

(** ** The operations keep the invariant *)

(** Updates of fields the invariant does not constrain. *)
Ltac ok_frame :=
  let s := fresh in let H := fresh in intros s H; destruct H; split; simpl; auto with suma; done.

Abbreviation ok_keeps := (keeps engine_ok).

Lemma nowFn_keeps Q : (∀ z, Q z) → ok_keeps (nowFn world) Q.
Proof. intros HQ s H. split; [|naive_solver]. revert s H. ok_frame. Qed.

Lemma randomIv_keeps Q : (∀ z, Q z) → ok_keeps (randomIv world) Q.
Proof. intros HQ s H. split; [|naive_solver]. revert s H. ok_frame. Qed.

Lemma transport_publish_keeps rs : ok_keeps (transport_publish rs) (λ _, True).
Proof. apply keeps_modify. ok_frame. Qed.

Lemma transport_acquireLease_keeps o f c :
  ok_keeps (transport_acquireLease cf world o f c) (λ _, True).
Proof. intros s H. split; [|done]. revert s H. ok_frame. Qed.

Lemma applier_apply_keeps p c : ok_keeps (applier_apply world p c) (λ _, True).
Proof. intros s H. split; [|done]. revert s H. ok_frame. Qed.

Hint Resolve nowFn_keeps randomIv_keeps transport_publish_keeps transport_acquireLease_keeps
  applier_apply_keeps : core.

Lemma send_hlc_keeps : ok_keeps (send_hlc world) (λ _, True).
Proof.
  unfold send_hlc. keeps_step; [auto|]. apply keeps_exec. intros s H.
  destruct (clock_send a (clock s)). split; [|done]. revert s H. ok_frame.
Qed.

Lemma receive_hlc_keeps r : ok_keeps (receive_hlc world r) (λ _, True).
Proof. unfold receive_hlc. keeps_step; [auto|]. keeps_step. ok_frame. Qed.

Lemma store_keeps w p :
  w_cause w ≠ HYDRATION_ECHO → bound (w_recordId w) p → ok_keeps (store world w p) (λ _, True).
Proof.
  intros Hc Hb. unfold store. keeps_step; [keeps_step; [auto|]|]; keeps_step; auto with suma.
Qed.

Lemma expectEcho_keeps rid p : ok_keeps (expectEcho cf world rid p) (λ _, True).
Proof. unfold expectEcho. keeps_step; [auto|]. keeps_step. auto with suma. Qed.

Lemma consumeEcho_keeps rid p : ok_keeps (consumeEcho world rid p) (λ _, True).
Proof.
  unfold consumeEcho. keeps_step. keeps_step; [|by apply keeps_gets].
  keeps_step; [auto|]. apply keeps_exec. intros s H.
  pose proof (consumeEcho_at_ok a0 rid p s H) as Hc.
  by destruct (consumeEcho_at a0 rid p s).
Qed.

Lemma acquireLease_keeps o f c : ok_keeps (acquireLease cf world o f c) (λ _, True).
Proof.
  unfold acquireLease. keeps_step; [auto|]. keeps_step.
  - eapply (keeps_bind _ _ _ (λ now, ∃ n, now = wd_now world n)).
    { intros s H. split; [revert s H; ok_frame|]. intros ? [= <-]. eauto. }
    intros now [n ->]. keeps_step; [|by keeps_step]. keeps_step.
    intros s []. split; try done. apply map_ok_set; [done|]. by exists n.
  - repeat (keeps_step; auto). ok_frame.
Qed.

Hint Resolve send_hlc_keeps receive_hlc_keeps store_keeps expectEcho_keeps consumeEcho_keeps
  acquireLease_keeps : core.

Lemma ensureLease_keeps o : ok_keeps (ensureLease cf world o) (λ _, True).
Proof. unfold ensureLease. repeat (keeps_step; auto). Qed.

Hint Resolve ensureLease_keeps : core.

Lemma publishOrQueue_keeps w n : ok_keeps (publishOrQueue cf world w n) (λ _, True).
Proof.
  unfold publishOrQueue. repeat (keeps_step; auto). ok_frame.
Qed.

Lemma drain_one_keeps w : ok_keeps (drain_one cf world w) (λ _, True).
Proof.
  unfold drain_one, wireNeedsLease. repeat (keeps_step; auto). ok_frame.
Qed.

Hint Resolve publishOrQueue_keeps drain_one_keeps : core.

Lemma runDrainQueue_keeps : ok_keeps (runDrainQueue cf world) (λ _, True).
Proof.
  unfold runDrainQueue. keeps_step; [keeps_step; ok_frame|]. keeps_step; [|ok_frame].
  keeps_step.
  - apply keeps_exec. intros s H. split; [|done]. revert s H. ok_frame.
  - repeat (keeps_step; auto).
Qed.

Lemma flushPending_keeps : ok_keeps (flushPending cf world) (λ _, True).
Proof. unfold flushPending. repeat (keeps_step; auto). apply runDrainQueue_keeps. Qed.

Lemma setOnline_keeps on : ok_keeps (setOnline cf world on) (λ _, True).
Proof.
  unfold setOnline. keeps_step; [keeps_step; ok_frame|]. keeps_step.
  - keeps_step; [apply flushPending_keeps|by keeps_step].
  - keeps_step. keeps_step; [do 2 keeps_step; keeps_step; ok_frame|]. keeps_step.
    intros s []. split; try done. apply map_ok_empty.
Qed.

Lemma ingest_keeps r b : ok_keeps (ingest cf world r b) (λ _, True).
Proof.
  unfold ingest. destruct (bool_decide (w_cause r = HYDRATION_ECHO)) eqn:Ee; [by keeps_step|].
  bprop. do 2 (keeps_step; [by keeps_step|]).
  keeps_step; [|keeps_step; [keeps_step; ok_frame|by keeps_step]].
  keeps_step; [by keeps_step|].
  assert (bound (w_recordId r) c) as Hbound.
  { unfold identityBound in *. bprop. repeat case_match; try done. bprop. by apply String.eqb_eq. }
  keeps_step; [auto|].
  do 2 (keeps_step; [keeps_step; auto with suma|]).
  keeps_step; [do 2 keeps_step; keeps_step; auto with suma|].
  eapply (keeps_bind _ _ _ (λ d, d = resurrection_blocked → w_cause r = WRITE ∨ w_cause r = OVERWRITE));
    [apply keeps_gets; intros; by eapply resolve_blocked|intros d Hd].
  keeps_step.
  { unfold park_if. keeps_step; [|by keeps_step]. bprop. keeps_step. auto with suma. }
  keeps_step; [by keeps_step|].
  eapply (keeps_bind _ _ _ (λ n, w_cause (tn_wire n) ≠ HYDRATION_ECHO
    ∧ bound (w_recordId (tn_wire n)) (tn_plain n))).
  { apply keeps_gets. intros s Hs. destruct (DELETION_CAUSES (w_cause r)); [|done].
    destruct (map_get _ _) as [n|] eqn:E; [|done]. simpl.
    eapply (map_ok_get note_ok) in E as (E1 & E2 & E3); [|apply Hs].
    split; [by destruct (w_cause (tn_wire n))|by rewrite E1]. }
  intros n [Hn Hnb]. keeps_step.
  - do 2 keeps_step. keeps_step; [auto|]. keeps_step; [auto|].
    keeps_step; [keeps_step; auto with suma|by keeps_step].
  - keeps_step; [by apply store_keeps|by keeps_step].
Qed.

Hint Resolve ingest_keeps : core.

Lemma retryParked_keeps rid : ok_keeps (retryParked cf world rid) (λ _, True).
Proof. unfold retryParked. repeat (keeps_step; auto). ok_frame. Qed.

Hint Resolve retryParked_keeps : core.

Lemma applyRemote_keeps rs : ok_keeps (applyRemote cf world rs) (λ _, True).
Proof. unfold applyRemote, applyOne. repeat (keeps_step; auto). Qed.

Lemma issue_keeps p c : c ≠ HYDRATION_ECHO → ok_keeps (issue cf world p c) (λ _, True).
Proof.
  intros Hc. unfold issue. keeps_step; [auto|]. keeps_step. keeps_step; [auto|].
  do 2 (keeps_step; [keeps_step; auto with suma|]).
  keeps_step; [do 3 keeps_step; intros; by apply noteTombstone_ok|].
  keeps_step; [by apply store_keeps|by keeps_step].
Qed.

Lemma causeForChange_not_echo c removed cause :
  causeForChange c removed = Some cause → cause ≠ HYDRATION_ECHO.
Proof. unfold causeForChange. repeat case_match; naive_solver. Qed.

Lemma writerScope_keeps p h c e :
  c ≠ HYDRATION_ECHO → ok_keeps (writerScope cf world p h c e) (λ sc, sc.2 ≠ HYDRATION_ECHO).
Proof.
  intros Hc. unfold writerScope.
  assert ((if bool_decide (c = EXPLICIT_DELETE) then EXPIRED else c) ≠ HYDRATION_ECHO) as Hs
    by by case_bool_decide.
  keeps_step; [|by keeps_step]. keeps_step. keeps_step; [|by keeps_step].
  keeps_step; [auto|]. keeps_step. by destruct (_ <=? _).
Qed.

Hint Resolve issue_keeps : core.

Lemma localChange_keeps i a r c e : ok_keeps (localChange cf world i a r c e) (λ _, True).
Proof.
  unfold localChange. keeps_step; [by keeps_step|].
  destruct (causeForChange c r) as [cause|] eqn:Ec; [|by keeps_step].
  apply causeForChange_not_echo in Ec.
  keeps_step; [by keeps_step|]. keeps_step; [auto|]. keeps_step; [by keeps_step|].
  keeps_step. keeps_step; [by keeps_step|].
  eapply keeps_bind; [by apply writerScope_keeps|]. intros [lo cause'] Hc. simpl in Hc.
  repeat (keeps_step; auto).
Qed.

Lemma reissue_keeps p c : c ≠ HYDRATION_ECHO → ok_keeps (reissue cf world p c) (λ _, True).
Proof. intros Hc. unfold reissue. repeat (keeps_step; auto). Qed.

Lemma rollbackOrigin_keeps o sn : ok_keeps (rollbackOrigin cf world o sn) (λ _, True).
Proof.
  unfold rollbackOrigin. keeps_step. repeat (keeps_step; auto);
    apply reissue_keeps; by try case_match.
Qed.

Lemma publishRejected_keeps r why : ok_keeps (publishRejected cf world r why) (λ _, True).
Proof.
  unfold publishRejected. repeat (keeps_step; auto); ok_frame.
Qed.

Lemma gcTombstones_keeps : ok_keeps (gcTombstones cf world) (λ _, True).
Proof.
  unfold gcTombstones. repeat (keeps_step; auto).
  generalize a0 as l. induction l as [|[k r] l IH]; intros s Hs; simpl; [done|].
  apply IH. by apply forget_ok.
Qed.

Lemma reapplyOrigin_keeps h : ok_keeps (reapplyOrigin cf world h) (λ _, True).
Proof. unfold reapplyOrigin. repeat (keeps_step; auto). Qed.

Lemma perform_keeps op : ok_keeps (perform cf world op) (λ _, True).
Proof.
  destruct op; simpl; unfold void, beginHydration, endHydration, leaseRevoked, setOriginOverride;
    try (keeps_step; [|by keeps_step]);
    auto using localChange_keeps, applyRemote_keeps, rollbackOrigin_keeps, setOnline_keeps,
      flushPending_keeps, publishRejected_keeps, gcTombstones_keeps, reapplyOrigin_keeps;
    keeps_step; try ok_frame.
  destruct override as [o|]; ok_frame.
Qed.

Lemma newEngine_ok device : engine_ok (newEngine device).
Proof. split; simpl; first [exact map_wf_empty | apply map_ok_empty]. Qed.

Lemma reachable_ok device s : reachable cf world device s → engine_ok s.
Proof.
  induction 1 as [|s op Hr IH]; [apply newEngine_ok|].
  by eapply keeps_state; [apply perform_keeps|].
Qed.

End Invariant.

#[export] Hint Resolve map_ok_empty map_ok_set map_ok_delete map_ok_filter : suma.

(** ** Properties *)

(** C7: the engine's invariant.  After any sequence of calls — local changes,
    remote batches, rollbacks, lease and connectivity events, collection —
    whatever the clock, the leases and the applier answer and whichever calls
    throw, every map of the engine is consistent: a stored record agrees with
    the wire form it came from and carries a collection stamp exactly when it
    is a deletion, fences name the deletion they come from, only deletions are
    remembered as tombstones and only writes are parked, no record keeps more
    than [MAX_ANCESTRY_EDGES] ancestry edges, and every pending echo is still
    owed at least once. *)
Theorem reachable_engine_ok {W : WebCrypto} (cf : EngineConfig) (world : World) device s :
  reachable cf world device s → engine_ok cf world s.
Proof. apply reachable_ok. Qed.

Lemma reachable_engine_ok_witness :
  let op := OpLocalChange (Demo.cookie ".github.com" "sid") (Some (Demo.attrs "v")) false
              "inserted" false in
  let s := (perform Demo.cf Demo.world op Demo.start).2 in
  engine_ok Demo.cf Demo.world s ∧ map_size (records s) = 1%nat ∧ length (trace s) = 1%nat.
Proof.
  intros op s. split; [|by vm_compute].
  apply (reachable_engine_ok Demo.cf Demo.world "mac").
  apply reachable_step, reachable_new.
Defined.
