(* ===== verification/SyncConvergence.v ===== *)
(** * Convergence of the sync engine

    What a remote record does to the stored winner, whichever order records
    arrive in: the functional description of [ingest] on a valid record, the
    last-writer-wins rule, the precedence of explicit deletions, and the
    retry of an apply that failed. *)

From S2P Require Export SyncInvariant.
From Stdlib Require Import Ascii.

Section Ingest.
Context {W : WebCrypto} (cf : EngineConfig) (world : World).

(** A record this engine accepts as genuine, and the payload sealed in it. *)
Definition deliverable (r : CookieRecordWire) (p : CookiePlain) : Prop :=
  w_cause r ≠ HYDRATION_ECHO ∧ w_spaceId r = cf_spaceId cf ∧ verified cf r = true
  ∧ openRecord (cf_keys cf) r = Some p ∧ identityBound (cf_keys cf) r p = true.

(** The steps of [ingest], named. *)
Definition received (r : CookieRecordWire) (s : Engine) : Engine :=
  with_clock (λ c, snd (clock_receive (wd_now world (tick s)) (w_hlc r) c)) (ticked s).

Definition learn (r : CookieRecordWire) (p : CookiePlain) (s : Engine) : Engine :=
  let s := noteFence r (noteAncestry r s) in
  if DELETION_CAUSES (w_cause r) then noteTombstone r p s else s.

Definition pick (r : CookieRecordWire) (p : CookiePlain) (s : Engine) : TombstoneNote :=
  if DELETION_CAUSES (w_cause r)
  then default (mkNote r p) (map_get (w_recordId r) (latestTombstones s))
  else mkNote r p.

Definition offer (n : TombstoneNote) : exn Engine unit :=
  when (canApply cf (tn_plain n))
    (_ ← expectEcho cf world (w_recordId (tn_wire n)) (tn_plain n);
     catch (applier_apply world (tn_plain n) (w_cause (tn_wire n)))
       (_ ← modify (cancelExpectedEcho (w_recordId (tn_wire n)) (tn_plain n)); throw)).

Definition verdict (r : CookieRecordWire) (s : Engine) : RemoteDisposition :=
  resolve s (map_get (w_recordId r) (records s)) r.

Lemma ingest_run r p b s :
  deliverable r p →
  ingest cf world r b s =
  let s1 := learn r p (received r s) in
  match verdict r s1 with
  | applied =>
      match offer (pick r p s1) s1 with
      | (Some _, s2) =>
          (Some applied, (store world (tn_wire (pick r p s1)) (tn_plain (pick r p s1)) s2).2)
      | (None, s2) => (None, s2)
      end
  | resurrection_blocked => (Some resurrection_blocked, if b then park r s1 else s1)
  | d => (Some d, s1)
  end.
Proof.
  intros (Hc & Hsp & Hv & Ho & Hb). unfold ingest.
  rewrite bool_decide_false by done. rewrite Hsp, String.eqb_refl, Hv, Ho, Hb. cbn [negb].
  change (receive_hlc world (w_hlc r)) with
    (λ s, (Some (), received r s) : option unit * Engine).
  unfold mbind, exn_bind, modify, gets. cbn [fst snd].
  set (s1 := learn r p (received r s)).
  assert (when (DELETION_CAUSES (w_cause r)) (λ s0, (Some (), noteTombstone r p s0))
    (noteFence r (noteAncestry r (received r s))) = (Some (), s1)) as ->.
  { unfold s1, learn, when, mret, exn_ret. by destruct (DELETION_CAUSES _). }
  change (resolve s1 (map_get (w_recordId r) (records s1)) r) with (verdict r s1).
  cbv zeta. destruct (verdict r s1) eqn:Ev; try done.
  - cbn [negb bool_decide]. rewrite bool_decide_false by done. cbn [andb park_if].
    rewrite bool_decide_true by done. cbn [negb].
    unfold park_if, mret, exn_ret.
    change (if DELETION_CAUSES (w_cause r) then _ else _) with (pick r p s1).
    unfold offer, mbind, exn_bind, modify.
    destruct (when _ _ s1) as [[u|] s2]; [|done].
    destruct (store _ _ _ s2) as [[?|] s3] eqn:Es; [done|].
    exfalso. unfold store, mbind, exn_bind, nowFn, modify in Es. by destruct (DELETION_CAUSES _).
  - rewrite bool_decide_true by done. cbn [andb park_if]. by destruct b.
Qed.

(** ** What the steps leave alone *)

(** The fields conflict resolution is about. *)
Definition knowledge (s : Engine) :=
  (records s, fences s, latestTombstones s, ancestry s, parked s).

Lemma verdict_knowledge r s s' : knowledge s = knowledge s' → verdict r s = verdict r s'.
Proof.
  intros [= H1 H2 H3 H4 H5]. unfold verdict, resolve, descent. by rewrite H1, H2, H4.
Qed.

Lemma offer_knowledge n s : knowledge (offer n s).2 = knowledge s.
Proof.
  unfold offer, when. destruct (canApply cf (tn_plain n)); [|done].
  unfold catch, mbind, exn_bind, expectEcho, applier_apply, nowFn, modify, throw. simpl.
  destruct (wd_applyOk world _); done.
Qed.

Lemma offer_ok n s : (∀ t, wd_applyOk world t = true) → (offer n s).1 = Some ().
Proof.
  intros Hok. unfold offer, when. destruct (canApply cf (tn_plain n)); [|done].
  unfold catch, mbind, exn_bind, expectEcho, applier_apply, nowFn, modify. simpl. by rewrite Hok.
Qed.

(** [store] writes one record and touches nothing else of the knowledge. *)
Lemma store_knowledge w p s :
  ∃ st, sr_wire st = w ∧ sr_plain st = p ∧ sr_recordId st = w_recordId w
    ∧ sr_cause st = w_cause w ∧ sr_hlc st = w_hlc w
    ∧ knowledge (store world w p s).2 =
        (map_set (w_recordId w) st (records s), fences s, latestTombstones s, ancestry s, parked s).
Proof.
  unfold store, mbind, exn_bind, nowFn, modify.
  destruct (DELETION_CAUSES (w_cause w)) eqn:E; simpl; unfold knowledge; simpl;
    eexists; (split; [|split; [|split; [|split; [|split; [|reflexivity]]]]]); done.
Qed.

Lemma learn_records r p s : records (learn r p s) = records s.
Proof.
  unfold learn, noteTombstone, noteFence, noteAncestry. repeat case_match; done.
Qed.

Lemma learn_parked r p s : parked (learn r p s) = parked s.
Proof.
  unfold learn, noteTombstone, noteFence, noteAncestry. repeat case_match; done.
Qed.

Lemma learn_fences r p s :
  fences (learn r p s) =
  if bool_decide (w_cause r = EXPLICIT_DELETE)
     && match map_get (w_recordId r) (fences s) with
        | None => true | Some f => compareHlc (w_hlc r) (df_hlc f) >? 0 end
  then map_set (w_recordId r)
         (mkFence (w_hlc r) (makeVersionToken (w_recordId r) (w_hlc r))) (fences s)
  else fences s.
Proof.
  assert (∀ s', fences (learn r p s') = fences (noteFence r (noteAncestry r s'))) as ->
    by (intros; unfold learn, noteTombstone; repeat case_match; done).
  unfold noteFence. destruct (bool_decide _); simpl; [|done].
  by destruct (match map_get _ (fences s) with Some _ => _ | None => _ end).
Qed.

Lemma learn_tombstones r p s :
  latestTombstones (learn r p s) =
  if DELETION_CAUSES (w_cause r)
     && match map_get (w_recordId r) (latestTombstones s) with
        | None => true | Some n => compareHlc (w_hlc r) (w_hlc (tn_wire n)) >? 0 end
  then map_set (w_recordId r) (mkNote r p) (latestTombstones s)
  else latestTombstones s.
Proof.
  assert (latestTombstones (noteFence r (noteAncestry r s)) = latestTombstones s) as Hf
    by (unfold noteFence; repeat case_match; done).
  unfold learn, noteTombstone. rewrite Hf.
  destruct (DELETION_CAUSES _); simpl; [|done].
  destruct (match map_get _ (latestTombstones s) with Some _ => _ | None => _ end); simpl;
    by rewrite Hf.
Qed.

Lemma learn_ancestry r p s :
  ancestry (learn r p s) =
  map_set (w_recordId r)
    (add_edge (makeVersionToken (w_recordId r) (w_hlc r)) (w_causalParent r)
       (edges_of s (w_recordId r))) (ancestry s).
Proof.
  unfold learn, noteTombstone, noteFence. repeat case_match; done.
Qed.

(** A record is a function of its version: one writer never signs two records
    with the same timestamp. *)
Definition versions_unique (rs : list CookieRecordWire) : Prop :=
  ∀ a b, a ∈ rs → b ∈ rs → w_hlc a = w_hlc b → a = b.

(** ** Last writer wins *)

(** [w] is the newest of [l] for the order of timestamps. *)
Definition newest_in (l : list CookieRecordWire) (w : CookieRecordWire) : Prop :=
  w ∈ l ∧ ∀ r, r ∈ l → hlc_le (w_hlc r) (w_hlc w).

(** No write competes with an explicit deletion: either nothing is deleted
    explicitly, or everything is a deletion. *)
Definition lww_batch (rs : list CookieRecordWire) : Prop :=
  (∀ r, r ∈ rs → w_cause r ≠ EXPLICIT_DELETE)
  ∨ (∀ r, r ∈ rs → DELETION_CAUSES (w_cause r) = true).

(** Nothing is known yet about a record. *)
Definition fresh_for (rid : string) (s : Engine) : Prop :=
  map_get rid (records s) = None ∧ map_get rid (fences s) = None
  ∧ map_get rid (latestTombstones s) = None ∧ map_get rid (ancestry s) = None
  ∧ map_get rid (parked s) = None.

(** The state after the records [seen], for a batch that obeys [lww_batch]. *)
Record lww_state (rid : string) (plain : CookieRecordWire → CookiePlain)
    (rs seen : list CookieRecordWire) (s : Engine) : Prop := {
  ls_current :
    match map_get rid (records s) with
    | None => seen = []
    | Some st => newest_in seen (sr_wire st) ∧ sr_hlc st = w_hlc (sr_wire st)
        ∧ sr_cause st = w_cause (sr_wire st) ∧ sr_plain st = plain (sr_wire st)
    end;
  ls_fences : (∀ r, r ∈ rs → w_cause r ≠ EXPLICIT_DELETE) → map_get rid (fences s) = None;
  ls_tombstone : match map_get rid (latestTombstones s) with
    | None => True
    | Some n => tn_wire n ∈ seen ∧ tn_plain n = plain (tn_wire n) end;
  ls_parked : map_get rid (parked s) = None
}.

(** On such a batch [resolve] is last-writer-wins. *)
(** On such a batch [resolve] is last-writer-wins. *)
Lemma lww_verdict rid plain rs seen s r p :
  lww_batch rs → r ∈ rs → w_recordId r = rid → lww_state rid plain rs seen s →
  (∀ x, x ∈ seen → x ∈ rs) →
  verdict r (learn r p (received r s)) = lww (map_get rid (records s)) r.
Proof.
  intros Hb Hr Hid Hs Hsub. unfold verdict. rewrite learn_records. simpl. rewrite Hid.
  destruct Hb as [Hb|Hb].
  - apply resolve_lww; [by apply Hb|]. rewrite learn_fences. simpl.
    rewrite bool_decide_false by by apply Hb. simpl. rewrite Hid. by apply Hs.
  - specialize (Hb r Hr) as Hc. pose proof (ls_current _ _ _ _ _ Hs) as Hcur.
    unfold resolve. destruct (w_cause r) eqn:Ec; try done.
    unfold lww. destruct (map_get rid (records s)) as [st|]; [|done].
    destruct (_ =? 0); [done|]. destruct (_ >? 0); [done|].
    destruct Hcur as ([Hin _] & _ & -> & _). by rewrite (Hb _ (Hsub _ Hin)).
Qed.

(** The tombstone remembered after a deletion that wins is that deletion. *)
Lemma lww_pick rid plain rs seen s r p :
  w_recordId r = rid → lww_state rid plain rs seen s →
  (∀ x, x ∈ seen → hlc_lt (w_hlc x) (w_hlc r)) →
  pick r p (learn r p (received r s)) = mkNote r p.
Proof.
  intros Hid Hs Hlt. unfold pick. destruct (DELETION_CAUSES (w_cause r)) eqn:E; [|done].
  rewrite learn_tombstones, E. simpl.
  pose proof (ls_tombstone _ _ _ _ _ Hs) as Hn. rewrite Hid.
  destruct (map_get rid (latestTombstones s)) as [n|]; simpl.
  - destruct Hn as [Hn _]. specialize (Hlt _ Hn).
    rewrite (proj2 (compareHlc_gtb _ _) Hlt). by rewrite map_get_set_eq.
  - by rewrite map_get_set_eq.
Qed.

(** What [learn] does to the parts of [lww_state] it can change. *)
Lemma lww_learn rid plain rs seen s r p :
  r ∈ rs → w_recordId r = rid → plain r = p → lww_state rid plain rs seen s →
  let s1 := learn r p (received r s) in
  ((∀ x, x ∈ rs → w_cause x ≠ EXPLICIT_DELETE) → map_get rid (fences s1) = None)
  ∧ match map_get rid (latestTombstones s1) with
    | None => True
    | Some n => tn_wire n ∈ seen ++ [r] ∧ tn_plain n = plain (tn_wire n) end
  ∧ map_get rid (parked s1) = None ∧ records s1 = records s.
Proof.
  intros Hr Hid Hp Hs s1. unfold s1. rewrite learn_fences, learn_tombstones, learn_parked, learn_records.
  simpl. rewrite Hid. repeat split.
  - intros Hx. rewrite bool_decide_false by by apply Hx. by apply Hs.
  - pose proof (ls_tombstone _ _ _ _ _ Hs) as Hn.
    destruct (DELETION_CAUSES (w_cause r) && _); rewrite ?map_get_set_eq.
    + simpl. split; [set_solver|done].
    + destruct (map_get rid (latestTombstones s)) as [n|]; [|done].
      destruct Hn. split; [set_solver|done].
  - by apply Hs.
Qed.

Lemma newest_in_snoc_old l w r : newest_in l w → hlc_le (w_hlc r) (w_hlc w) → newest_in (l ++ [r]) w.
Proof.
  intros [Hin Hmax] Hle. split; [set_solver|].
  intros x [Hx| ->%list_elem_of_singleton]%elem_of_app; auto.
Qed.

Lemma newest_in_snoc_new l r :
  (∀ x, x ∈ l → hlc_lt (w_hlc x) (w_hlc r)) → newest_in (l ++ [r]) r.
Proof.
  intros Hlt. split; [set_solver|].
  intros x [Hx| ->%list_elem_of_singleton]%elem_of_app; auto with suma.
Qed.

(** One record of the batch. *)
Lemma lww_applyOne rid plain rs seen s r :
  (∀ t, wd_applyOk world t = true) →
  lww_batch rs → r ∈ rs → w_recordId r = rid → deliverable r (plain r) →
  (∀ x, x ∈ seen → x ∈ rs) → lww_state rid plain rs seen s →
  let '(d, s') := applyOne cf world r s in
  is_Some d ∧ lww_state rid plain rs (seen ++ [r]) s'.
Proof.
  intros Hok Hb Hr Hid Hd Hsub Hs. unfold applyOne, mbind, exn_bind.
  rewrite (ingest_run r (plain r)) by done. cbv zeta.
  destruct (lww_learn rid plain rs seen s r (plain r) Hr Hid eq_refl Hs) as (Lf & Lt & Lp & Lr).
  pose proof (lww_verdict rid plain rs seen s r (plain r) Hb Hr Hid Hs Hsub) as Hv.
  pose proof (ls_current _ _ _ _ _ Hs) as Hcur.
  set (s1 := learn r (plain r) (received r s)) in *. rewrite Hv.
  assert (∀ s', parked s' = parked s1 → retryParked cf world rid s' = (Some (), s')) as Hretry.
  { intros s' Hp'. unfold retryParked, mbind, exn_bind, gets. rewrite Hp', Lp. done. }
  rewrite Hid. destruct (decide (lww (map_get rid (records s)) r = applied)) as [Ha|Ha].
  - assert (∀ x, x ∈ seen → hlc_lt (w_hlc x) (w_hlc r)) as Hlt.
    { intros x Hx. destruct (map_get rid (records s)) as [st|].
      - destruct Hcur as ([_ Hmax] & Hh & _). pose proof (proj1 (lww_applied _ _) Ha _ eq_refl).
        specialize (Hmax x Hx). rewrite Hh in *. hlc_order.
      - subst seen. set_solver. }
    rewrite Ha. pose proof (lww_pick rid plain rs seen s r (plain r) Hid Hs Hlt) as Hpick.
    fold s1 in Hpick. rewrite Hpick.
    pose proof (offer_ok (mkNote r (plain r)) s1 Hok) as Ho.
    pose proof (offer_knowledge (mkNote r (plain r)) s1) as Hk.
    destruct (offer _ s1) as [o s2]. simpl in Ho, Hk. subst o. cbn [tn_wire tn_plain].
    destruct (store_knowledge r (plain r) s2) as (st & Hw & Hp & _ & Hc & Hh & Hst).
    injection Hk as K1 K2 K3 K4 K5. injection Hst as S1 S2 S3 S4 S5.
    rewrite Hretry by congruence. split; [eauto|]. split.
    + rewrite S1, K1, Lr, <- Hid, map_get_set_eq, Hw, Hp, Hc, Hh.
      split; [by apply newest_in_snoc_new|done].
    + rewrite S2, K2. done.
    + rewrite S3, K3. done.
    + rewrite S5, K5. done.
  - assert (∃ st, map_get rid (records s) = Some st ∧ hlc_le (w_hlc r) (sr_hlc st)) as (st & Est & Hle).
    { destruct (map_get rid (records s)) as [st|]; [|done]. exists st. split; [done|].
      destruct (hlc_le_dec (w_hlc r) (sr_hlc st)) as [|Hn]; [done|]. exfalso. apply Ha.
      apply lww_applied. intros ? [= <-]. hlc_order. }
    assert (lww (map_get rid (records s)) r = stale ∨ lww (map_get rid (records s)) r = duplicate)
      as Hsd.
    { rewrite Est in *. unfold lww in *. destruct (_ =? 0); [auto|]. destruct (_ >? 0); auto. done. }
    assert (lww_state rid plain rs (seen ++ [r]) s1) as Hs1.
    { split; [|done..]. rewrite Lr, Est in *. destruct Hcur as (Hn & Hh & Hc & Hp).
      split; [|done]. apply newest_in_snoc_old; [done|]. by rewrite <- Hh. }
    destruct Hsd as [-> | ->]; rewrite Hretry by done; (split; [by eexists|done]).
Qed.

Lemma lww_applyRemote rid plain rs l seen s :
  (∀ t, wd_applyOk world t = true) →
  lww_batch rs → (∀ r, r ∈ rs → w_recordId r = rid ∧ deliverable r (plain r)) →
  (∀ x, x ∈ seen → x ∈ rs) → (∀ x, x ∈ l → x ∈ rs) → lww_state rid plain rs seen s →
  is_Some (applyRemote cf world l s).1
  ∧ lww_state rid plain rs (seen ++ l) (applyRemote cf world l s).2.
Proof.
  intros Hok Hb Hall. revert seen s. induction l as [|r l IH]; intros seen s Hsub Hl Hs.
  { rewrite app_nil_r. split; [by eexists|done]. }
  destruct (Hall r) as [Hid Hd]; [apply Hl; left|].
  pose proof (lww_applyOne rid plain rs seen s r Hok Hb (Hl r (list_elem_of_here _ _)) Hid Hd Hsub Hs)
    as H1.
  unfold applyRemote in *. cbn [forM]. unfold mbind, exn_bind.
  destruct (applyOne cf world r s) as [[d|] s']; destruct H1 as [[? ?] H1]; [|done].
  destruct (IH (seen ++ [r]) s') as [[ds Hds] H2]; [set_solver|set_solver|done|].
  rewrite <- app_assoc in H2. simpl in H2.
  destruct (forM l (applyOne cf world) s') as [o s'']. simpl in *. subst o. split; [by eexists|done].
Qed.

Lemma fresh_lww_state rid plain rs s : fresh_for rid s → lww_state rid plain rs [] s.
Proof. intros (H1 & H2 & H3 & H4 & H5). split; [by rewrite H1|done|by rewrite H3|done]. Qed.
End Ingest.

Lemma newest_in_unique l l' a b :
  versions_unique l → (∀ x, x ∈ l ↔ x ∈ l') → newest_in l a → newest_in l' b → a = b.
Proof.
  intros Hu Hll [Ha Hma] [Hb Hmb]. apply Hu; [done|by apply Hll|].
  apply hlc_le_antisym; [apply Hmb; by apply Hll|apply Hma; by apply Hll].
Qed.

(** ** Learning twice is learning once *)

Section Retry.
Context {W : WebCrypto} (cf : EngineConfig).

Lemma add_edge_twice t p e : add_edge t p (add_edge t p e) = add_edge t p e.
Proof.
  unfold add_edge. destruct (map_has t e) eqn:Eh.
  { unfold map_has in *. by rewrite Eh. }
  assert (map_get t e = None) as Hn by (unfold map_has in Eh; by destruct (map_get t e)).
  assert (∀ e', map_get t e' = Some p → map_has t e' = true) as Hhas
    by (intros ? H; unfold map_has; by rewrite H).
  destruct (map_size (map_set t p e) <=? MAX_ANCESTRY_EDGES)%nat eqn:El.
  { by rewrite Hhas by apply map_get_set_eq. }
  destruct (oldest_edge (map_keys (map_set t p e)) None) as [o|] eqn:Eo.
  - destruct (decide (o = t)) as [-> |Hne].
    + rewrite map_delete_set_fresh by done. rewrite Eh. rewrite El, Eo.
      by rewrite map_delete_set_fresh.
    + rewrite Hhas; [done|]. rewrite map_get_delete_ne by done. apply map_get_set_eq.
  - by rewrite Hhas by apply map_get_set_eq.
Qed.

Lemma learn_twice r p s s' :
  knowledge s' = knowledge (learn r p s) → knowledge (learn r p s') = knowledge (learn r p s).
Proof.
  intros [= H1 H2 H3 H4 H5]. unfold knowledge.
  assert (records (learn r p s') = records (learn r p s)) as ->
    by by rewrite (learn_records r p s').
  assert (parked (learn r p s') = parked (learn r p s)) as ->
    by by rewrite (learn_parked r p s').
  assert (fences (learn r p s') = fences (learn r p s)) as ->.
  { rewrite (learn_fences r p s'), H2, learn_fences.
    destruct (bool_decide (w_cause r = EXPLICIT_DELETE)); simpl; [|done].
    destruct (map_get (w_recordId r) (fences s)) as [f|] eqn:Ef; simpl;
      [destruct (_ >? 0) eqn:E; simpl|].
    - rewrite map_get_set_eq. simpl. by rewrite compareHlc_refl.
    - by rewrite Ef, E.
    - rewrite map_get_set_eq. simpl. by rewrite compareHlc_refl. }
  assert (latestTombstones (learn r p s') = latestTombstones (learn r p s)) as ->.
  { rewrite (learn_tombstones r p s'), H3, learn_tombstones.
    destruct (DELETION_CAUSES (w_cause r)); simpl; [|done].
    destruct (map_get (w_recordId r) (latestTombstones s)) as [f|] eqn:Ef; simpl;
      [destruct (_ >? 0) eqn:E; simpl|].
    - rewrite map_get_set_eq. simpl. by rewrite compareHlc_refl.
    - by rewrite Ef, E.
    - rewrite map_get_set_eq. simpl. by rewrite compareHlc_refl. }
  assert (ancestry (learn r p s') = ancestry (learn r p s)) as ->; [|done].
  rewrite (learn_ancestry r p s'), H4, learn_ancestry, map_set_set. f_equal.
  unfold edges_of at 1. rewrite H4, learn_ancestry, map_get_set_eq. simpl.
  apply add_edge_twice.
Qed.

Lemma pick_knowledge r p s s' : knowledge s = knowledge s' → pick r p s = pick r p s'.
Proof. intros [= _ _ H _ _]. unfold pick. by rewrite H. Qed.

(** A failed apply leaves the knowledge as [learn] made it. *)
Lemma ingest_failed world r p b s s' :
  deliverable cf r p → ingest cf world r b s = (None, s') →
  knowledge s' = knowledge (learn r p (received world r s))
  ∧ verdict r (learn r p (received world r s)) = applied.
Proof.
  intros Hd H. rewrite (ingest_run cf world r p b s Hd) in H. cbv zeta in H.
  set (s1 := learn r p (received world r s)) in *.
  destruct (verdict r s1); try done. split; [|done].
  pose proof (offer_knowledge cf world (pick r p s1) s1) as Hk.
  destruct (offer cf world (pick r p s1) s1) as [[?|] s2]; [done|]. by injection H as <-.
Qed.

(** A verdict of "applied" with a willing applier stores the winner. *)
Lemma ingest_applied world r p b s :
  (∀ t, wd_applyOk world t = true) → deliverable cf r p →
  verdict r (learn r p (received world r s)) = applied →
  let n := pick r p (learn r p (received world r s)) in
  ∃ s' st, ingest cf world r b s = (Some applied, s')
    ∧ sr_wire st = tn_wire n ∧ sr_plain st = tn_plain n ∧ sr_hlc st = w_hlc (tn_wire n)
    ∧ sr_cause st = w_cause (tn_wire n) ∧ sr_recordId st = w_recordId (tn_wire n)
    ∧ knowledge s' =
        let k := learn r p (received world r s) in
        (map_set (w_recordId (tn_wire n)) st (records k), fences k, latestTombstones k,
         ancestry k, parked k).
Proof.
  intros Hok Hd Hv n. rewrite (ingest_run cf world r p b s Hd). cbv zeta. fold n.
  set (s1 := learn r p (received world r s)) in *. rewrite Hv.
  pose proof (offer_ok cf world n s1 Hok) as Ho.
  pose proof (offer_knowledge cf world n s1) as Hk.
  destruct (offer cf world n s1) as [o s2]. simpl in Ho, Hk. subst o.
  destruct (store_knowledge world (tn_wire n) (tn_plain n) s2) as (st & Hw & Hp & Hr & Hc & Hh & Hst).
  injection Hk as K1 K2 K3 K4 K5.
  eexists _, st. split; [reflexivity|]. repeat (split; [done|]). rewrite Hst. by rewrite K1, K2, K3, K4, K5.
Qed.

(** A blocked, stale or repeated record changes no winner. *)
Lemma ingest_not_applied world r p b s :
  deliverable cf r p → verdict r (learn r p (received world r s)) ≠ applied →
  ∃ s', ingest cf world r b s = (Some (verdict r (learn r p (received world r s))), s')
    ∧ (s' = learn r p (received world r s)
       ∨ verdict r (learn r p (received world r s)) = resurrection_blocked
         ∧ b = true ∧ s' = park r (learn r p (received world r s))).
Proof.
  intros Hd Hv. rewrite (ingest_run cf world r p b s Hd). cbv zeta.
  destruct (verdict r _) eqn:E; try done; eexists; (split; [reflexivity|]); auto.
  destruct b; auto.
Qed.
End Retry.

(** ** One deletion and one write *)

Section Pair.
Context {W : WebCrypto} (cf : EngineConfig) (world : World).
Context (rid : string) (D w : CookieRecordWire) (pD pw : CookiePlain).
Context (HD : deliverable cf D pD) (Hw : deliverable cf w pw)
  (HDid : w_recordId D = rid) (Hwid : w_recordId w = rid)
  (HDc : w_cause D = EXPLICIT_DELETE) (Hwc : w_cause w = WRITE ∨ w_cause w = OVERWRITE)
  (HDt : token_ok rid (w_hlc D)) (Hwt : token_ok rid (w_hlc w))
  (Hlt : hlc_lt (w_hlc D) (w_hlc w))
  (Hok : ∀ t, wd_applyOk world t = true).

Definition tokD : string := makeVersionToken rid (w_hlc D).
Definition tokw : string := makeVersionToken rid (w_hlc w).

Lemma tok_ne : tokD ≠ tokw.
Proof.
  intros H. apply makeVersionToken_inj in H; [|done..]. rewrite H in Hlt. by apply hlc_lt_irrefl in Hlt.
Qed.

(** The edges learned from the two records, in either order. *)
Definition pair_edges (e : edge_map) : Prop :=
  map_get tokD e = Some (w_causalParent D) ∧ map_get tokw e = Some (w_causalParent w)
  ∧ ∀ t q, map_get t e = Some q → t = tokD ∨ t = tokw.

Lemma pair_chain e t :
  pair_edges e → Chain e t tokD → t = tokD ∨ t = tokw ∧ w_causalParent w = Some tokD.
Proof.
  intros (H1 & H2 & H3) Hc. remember tokD as u eqn:Hu. induction Hc as [|t p u E Hc IH]; [auto|].
  destruct (IH Hu) as [-> | [-> Hp]]; destruct (H3 _ _ E) as [-> | ->]; auto; right; split; congruence.
Qed.

Lemma pair_descent_parent s :
  pair_edges (edges_of s rid) →
  descent s rid (w_causalParent w) (mkFence (w_hlc D) tokD) = descends
  ↔ w_causalParent w = Some tokD.
Proof.
  intros He. split.
  - intros (t & Ht & Hc)%descent_descends. simpl in Hc.
    apply pair_chain in Hc as [-> | [-> ?]]; done.
  - intros ->. unfold descent. change MAX_ANCESTRY_WALK with (S 127). simpl.
    by rewrite String.eqb_refl.
Qed.

Lemma pair_descent_current s :
  pair_edges (edges_of s rid) →
  descent s rid (Some tokw) (mkFence (w_hlc D) tokD) = descends ↔ w_causalParent w = Some tokD.
Proof.
  intros He. pose proof tok_ne as Hne. split.
  - intros (t & [= <-] & Hc)%descent_descends. simpl in Hc.
    apply pair_chain in Hc as [?|[_ ?]]; done.
  - intros Hp. destruct He as (_ & He & _). unfold descent, edges_of in *.
    destruct (map_get rid (ancestry s)) as [e|]; [|done]. change (map_get tokw e = Some (w_causalParent w)) in He.
    change MAX_ANCESTRY_WALK with (S (S 126)). cbn [descent_loop df_token df_hlc].
    rewrite (proj2 (String.eqb_neq tokw tokD)) by congruence.
    unfold tokw at 1. rewrite parse_make_token by done.
    destruct (compareHlc (w_hlc w) (w_hlc D) <? 0) eqn:E; hlc_prop; [hlc_order|].
    simpl. rewrite He, Hp. by rewrite String.eqb_refl.
Qed.

(** Edges after learning both, starting from nothing. *)
Lemma pair_edges_learned (a b : CookieRecordWire) pa pb s s' :
  (a = D ∧ b = w) ∨ (a = w ∧ b = D) →
  map_get rid (ancestry s) = None → ancestry s' = ancestry (learn a pa s) →
  pair_edges (edges_of (learn b pb s') rid).
Proof.
  intros Hab Hs Hs'. pose proof tok_ne as Hne.
  assert (w_recordId a = rid ∧ w_recordId b = rid) as [Ha Hb] by (destruct Hab as [[-> ->]|[-> ->]]; done).
  assert (edges_of (learn b pb s') rid
    = add_edge (makeVersionToken rid (w_hlc b)) (w_causalParent b)
        (add_edge (makeVersionToken rid (w_hlc a)) (w_causalParent a) jsmap_empty)) as ->.
  { unfold edges_of at 1. rewrite learn_ancestry, Hb, map_get_set_eq. cbn [default]. f_equal.
    unfold edges_of. rewrite Hs', learn_ancestry, Ha, map_get_set_eq. cbn [default]. f_equal.
    unfold edges_of. by rewrite Hs. }
  assert (∀ t1 t2 q1 q2 t, t1 ≠ t2 →
    map_get t (add_edge t2 q2 (add_edge t1 q1 jsmap_empty))
    = if decide (t2 = t) then Some q2 else if decide (t1 = t) then Some q1 else None) as Hget.
  { intros t1 t2 q1 q2 t Ht. change (add_edge t1 q1 jsmap_empty) with (map_set t1 q1 jsmap_empty).
    unfold add_edge, map_has. rewrite map_get_set_ne by done.
    change (map_get t2 jsmap_empty) with (@None (option string)). cbv match.
    assert (map_size (map_set t2 q2 (map_set t1 q1 jsmap_empty)) <=? MAX_ANCESTRY_EDGES = true)%nat as ->.
    { apply Nat.leb_le. etrans; [apply map_size_set|]. etrans; [apply le_n_S, map_size_set|].
      unfold MAX_ANCESTRY_EDGES. simpl. lia. }
    by rewrite !map_get_set. }
  unfold pair_edges. destruct Hab as [[-> ->]|[-> ->]]; fold tokD tokw; rewrite !Hget by congruence.
  - rewrite (decide_False (P := tokw = tokD)), !decide_True by congruence.
    split; [done|]. split; [done|]. intros t q. rewrite Hget by congruence.
    repeat case_decide; auto; done.
  - rewrite (decide_False (P := tokD = tokw)), !decide_True by congruence.
    split; [done|]. split; [done|]. intros t q. rewrite Hget by congruence.
    repeat case_decide; auto; done.
Qed.

(** The first of the two records is stored, whichever it is. *)
Lemma pair_first a pa s :
  (a = D ∧ pa = pD) ∨ (a = w ∧ pa = pw) → fresh_for rid s →
  ∃ s' st, applyOne cf world a s = (Some applied, s')
    ∧ map_get rid (records s') = Some st ∧ sr_wire st = a ∧ sr_plain st = pa
    ∧ sr_hlc st = w_hlc a ∧ sr_cause st = w_cause a ∧ sr_recordId st = rid
    ∧ ancestry s' = ancestry (learn a pa (received world a s))
    ∧ fences s' = fences (learn a pa (received world a s))
    ∧ latestTombstones s' = latestTombstones (learn a pa (received world a s))
    ∧ map_get rid (parked s') = None.
Proof.
  intros Ha (F1 & F2 & F3 & F4 & F5).
  assert (deliverable cf a pa ∧ w_recordId a = rid) as [Hd Hid]
    by (destruct Ha as [[-> ->]|[-> ->]]; done).
  set (s0 := received world a s).
  assert (verdict a (learn a pa s0) = applied) as Hv.
  { unfold verdict. rewrite learn_records, Hid. simpl. rewrite F1.
    destruct Ha as [[-> ->]|[-> ->]].
    - unfold resolve. by rewrite HDc.
    - rewrite resolve_lww; [done|by destruct Hwc as [-> | ->]|].
      rewrite learn_fences, bool_decide_false by by destruct Hwc as [-> | ->]. simpl.
      by rewrite Hid. }
  destruct (ingest_applied cf world a pa true s Hok Hd Hv) as (s' & st & Hi & Hst). fold s0 in Hst.
  assert (pick a pa (learn a pa s0) = mkNote a pa) as Hp.
  { unfold pick. destruct (DELETION_CAUSES (w_cause a)) eqn:E; [|done].
    rewrite learn_tombstones, E, Hid. simpl. rewrite F3, map_get_set_eq. done. }
  rewrite Hp in Hst. cbn [tn_wire tn_plain] in Hst.
  destruct Hst as (S1 & S2 & S3 & S4 & S5 & Hk). injection Hk as K1 K2 K3 K4 K5.
  assert (map_get rid (parked s') = None) as Hpk by by rewrite K5, learn_parked.
  exists s', st. unfold applyOne, mbind, exn_bind. rewrite Hi.
  unfold retryParked, mbind, exn_bind, gets. rewrite Hid, Hpk.
  split; [done|]. rewrite K1, Hid, map_get_set_eq. repeat split; congruence.
Qed.
(** The winner of the pair: the write survives exactly when its causal parent
    is the deletion. *)
Definition pair_winner : CookieRecordWire :=
  if decide (w_causalParent w = Some tokD) then w else D.

Lemma pair_delete_first s :
  fresh_for rid s →
  ∃ st, map_get rid (records (applyRemote cf world [D; w] s).2) = Some st
    ∧ sr_wire st = pair_winner.
Proof.
  intros Hf. destruct (pair_first D pD s) as (s1 & st & H1 & Hr1 & Hst1 & _ & Hh1 & _ & _ & Ha1 & Hf1 & _ & Hp1);
    [by left|done|].
  unfold applyRemote. cbn [forM]. unfold mbind, exn_bind. rewrite H1.
  destruct Hf as (_ & F2 & _ & F4 & _).
  assert (pair_edges (edges_of (learn w pw (received world w s1)) rid)) as He.
  { apply (pair_edges_learned D w pD pw (received world D s)); [by left|done|done]. }
  assert (map_get rid (fences (learn w pw (received world w s1))) = Some (mkFence (w_hlc D) tokD)) as Hfe.
  { rewrite learn_fences, bool_decide_false by by destruct Hwc as [-> | ->]. simpl.
    rewrite Hf1, learn_fences, bool_decide_true by done. simpl. rewrite HDid, F2. simpl.
    by rewrite map_get_set_eq. }
  set (k := learn w pw (received world w s1)) in *.
  assert (∀ k', fences k' = fences k → ancestry k' = ancestry k → records k' = records s1 →
    resolve k' (map_get rid (records k')) w
    = if decide (w_causalParent w = Some tokD) then applied else resurrection_blocked) as Hres.
  { intros k' E1 E2 E3. unfold resolve. rewrite Hwid, E1, Hfe. cbn [df_hlc].
    rewrite (proj2 (compareHlc_gtb _ _) Hlt). cbn [andb].
    assert (pair_edges (edges_of k' rid)) as He' by (unfold edges_of; by rewrite E2).
    pose proof (pair_descent_parent k' He') as Hd.
    assert (lww (map_get rid (records k')) w = applied) as Hl.
    { apply lww_applied. rewrite E3, Hr1. intros ? [= <-]. by rewrite Hh1. }
    rewrite Hl. destruct (decide _) as [Hpar|Hpar].
    - rewrite bool_decide_true by by apply Hd. by destruct Hwc as [-> | ->].
    - rewrite bool_decide_false by by rewrite Hd. by destruct Hwc as [-> | ->]. }
  assert (records k = records s1) as Hrk by exact (learn_records w pw (received world w s1)).
  assert (parked k = parked s1) as Hpk by exact (learn_parked w pw (received world w s1)).
  assert (verdict w k = if decide (w_causalParent w = Some tokD) then applied else resurrection_blocked)
    as Hv by (unfold verdict; rewrite Hwid; by apply Hres).
  unfold applyOne, mbind, exn_bind, pair_winner.
  destruct (decide (w_causalParent w = Some tokD)) as [Hpar|Hpar].
  - destruct (ingest_applied cf world w pw true s1 Hok Hw Hv) as (s2 & st2 & Hi & Hst).
    fold k in Hst. assert (pick w pw k = mkNote w pw) as Hpick
      by (unfold pick; by destruct Hwc as [-> | ->]).
    rewrite Hpick in Hst. cbn [tn_wire tn_plain] in Hst.
    destruct Hst as (S1 & _ & _ & _ & _ & Hk). injection Hk as K1 _ _ _ K5.
    rewrite Hi. unfold retryParked, mbind, exn_bind, gets. rewrite Hwid, K5, Hpk, Hp1. simpl.
    exists st2. rewrite K1, Hwid, map_get_set_eq. done.
  - destruct (ingest_not_applied cf world w pw true s1 Hw) as (s2 & Hi & Hs2); [by fold k; rewrite Hv|].
    fold k in Hi, Hs2. rewrite Hi, Hv.
    assert (fences s2 = fences k ∧ ancestry s2 = ancestry k ∧ records s2 = records k) as (E1 & E2 & E3).
    { destruct Hs2 as [-> |(_ & _ & ->)]; [done|]. unfold park. by repeat case_match. }
    exists st. split; [|done].
    assert (retryParked cf world (w_recordId w) s2 = (Some (), s2)) as ->.
    { unfold retryParked, mbind, exn_bind, gets. rewrite Hwid.
      destruct Hs2 as [Hs2|(_ & _ & Hs2)].
      - by rewrite Hs2, Hpk, Hp1.
      - assert (map_get rid (parked s2) = Some w) as ->.
        { rewrite Hs2. unfold park. rewrite Hwid, Hpk, Hp1. simpl. apply map_get_set_eq. }
        rewrite (Hres s2) by congruence. done. }
    simpl. by rewrite E3, Hrk.
Qed.

Lemma pair_write_first s :
  fresh_for rid s →
  ∃ st, map_get rid (records (applyRemote cf world [w; D] s).2) = Some st
    ∧ sr_wire st = pair_winner.
Proof.
  intros Hf. destruct (pair_first w pw s)
    as (s1 & st & H1 & Hr1 & Hst1 & _ & Hh1 & Hc1 & Hid1 & Ha1 & Hf1 & Ht1 & Hp1); [by right|done|].
  unfold applyRemote. cbn [forM]. unfold mbind, exn_bind. rewrite H1.
  destruct Hf as (_ & F2 & F3 & F4 & _).
  assert (DELETION_CAUSES (w_cause w) = false) as Hwd by by destruct Hwc as [-> | ->].
  assert (pair_edges (edges_of (learn D pD (received world D s1)) rid)) as He.
  { apply (pair_edges_learned w D pw pD (received world w s)); [by right|done|done]. }
  assert (map_get rid (fences (received world w s)) = None
    ∧ fences (learn w pw (received world w s)) = fences s) as [_ Hfw].
  { split; [done|]. rewrite learn_fences, bool_decide_false by by destruct Hwc as [-> | ->]. done. }
  assert (map_get rid (fences (learn D pD (received world D s1))) = Some (mkFence (w_hlc D) tokD)) as Hfe.
  { rewrite learn_fences, bool_decide_true by done. simpl. rewrite HDid, Hf1, Hfw, F2.
    by rewrite map_get_set_eq. }
  set (k := learn D pD (received world D s1)) in *.
  assert (records k = records s1) as Hrk by exact (learn_records D pD (received world D s1)).
  assert (parked k = parked s1) as Hpk by exact (learn_parked D pD (received world D s1)).
  assert (verdict D k = if decide (w_causalParent w = Some tokD) then stale else applied) as Hv.
  { unfold verdict, resolve. rewrite HDc, HDid, Hrk, Hr1, Hh1, Hc1, Hwd, Hid1, Hfe. cbn [df_token].
    fold tokD tokw. rewrite String.eqb_refl. cbn [negb].
    destruct (_ =? 0) eqn:E1; hlc_prop; [rewrite E1 in Hlt; by apply hlc_lt_irrefl in Hlt|].
    destruct (_ >? 0) eqn:E2; hlc_prop; [hlc_order|].
    pose proof (pair_descent_current k He) as Hd.
    destruct (decide (w_causalParent w = Some tokD)) as [Hpar|Hpar].
    - by rewrite (proj2 Hd Hpar).
    - destruct (descent k rid (Some tokw) _) eqn:Ed; [|done..]. by destruct Hpar; apply Hd. }
  unfold applyOne, mbind, exn_bind, pair_winner.
  destruct (decide (w_causalParent w = Some tokD)) as [Hpar|Hpar].
  - destruct (ingest_not_applied cf world D pD true s1 HD) as (s2 & Hi & Hs2); [by fold k; rewrite Hv|].
    fold k in Hi, Hs2. rewrite Hi, Hv. destruct Hs2 as [-> |(Hs2 & _)]; [|congruence].
    unfold retryParked, mbind, exn_bind, gets. rewrite HDid, Hpk, Hp1. simpl.
    exists st. by rewrite Hrk.
  - destruct (ingest_applied cf world D pD true s1 Hok HD Hv) as (s2 & st2 & Hi & Hst).
    fold k in Hst. assert (pick D pD k = mkNote D pD) as Hpick.
    { unfold pick, k. rewrite HDc. simpl. rewrite learn_tombstones, HDc, HDid. simpl.
      rewrite Ht1, learn_tombstones, Hwd. simpl. rewrite F3. by rewrite map_get_set_eq. }
    rewrite Hpick in Hst. cbn [tn_wire tn_plain] in Hst.
    destruct Hst as (S1 & _ & _ & _ & _ & Hk). injection Hk as K1 _ _ _ K5.
    rewrite Hi. unfold retryParked, mbind, exn_bind, gets. rewrite HDid, K5, Hpk, Hp1. simpl.
    exists st2. rewrite K1, HDid, map_get_set_eq. done.
Qed.
End Pair.

(** Evaluate that a concrete record is deliverable. *)
Ltac deliver :=
  split; [vm_compute; discriminate|]; do 3 (split; [vm_compute; reflexivity|]);
  vm_compute; reflexivity.

(** ** Properties *)

(** C4: two devices that receive the same records of a cookie, in any order
    and however often, end with the same winner: the newest record.  This
    holds for every mix of writes, overwrites, expiries and evictions, and for
    every mix of deletions, explicit ones included (their tombstones normalize
    to the newest). *)
Theorem applyRemote_converges {W : WebCrypto} (cf1 cf2 : EngineConfig) (world1 world2 : World)
    rid plain (rs1 rs2 : list CookieRecordWire) s1 s2 :
  (∀ x, x ∈ rs1 ↔ x ∈ rs2) → rs1 ≠ [] → versions_unique rs1 → lww_batch rs1 →
  (∀ r, r ∈ rs1 → w_recordId r = rid ∧ deliverable cf1 r (plain r) ∧ deliverable cf2 r (plain r)) →
  (∀ t, wd_applyOk world1 t = true) → (∀ t, wd_applyOk world2 t = true) →
  fresh_for rid s1 → fresh_for rid s2 →
  ∃ st1 st2,
    getRecord (applyRemote cf1 world1 rs1 s1).2 rid = Some st1
    ∧ getRecord (applyRemote cf2 world2 rs2 s2).2 rid = Some st2
    ∧ newest_in rs1 (sr_wire st1) ∧ sr_wire st2 = sr_wire st1
    ∧ sr_plain st1 = plain (sr_wire st1) ∧ sr_plain st2 = sr_plain st1.
Proof.
  intros Hll Hne Hu Hb Hd Hok1 Hok2 Hf1 Hf2.
  destruct (lww_applyRemote cf1 world1 rid plain rs1 rs1 [] s1 Hok1 Hb) as [_ H1];
    [intros r Hr; by destruct (Hd r Hr) as (? & ? & ?)|set_solver|done|by apply fresh_lww_state|].
  destruct (lww_applyRemote cf2 world2 rid plain rs1 rs2 [] s2 Hok2 Hb) as [_ H2];
    [intros r Hr; by destruct (Hd r Hr) as (? & ? & ?)|set_solver|intros; by apply Hll
    |by apply fresh_lww_state|].
  apply ls_current in H1, H2. simpl in H1, H2. unfold getRecord.
  destruct (map_get rid (records (applyRemote cf1 world1 rs1 s1).2)) as [st1|]; [|done].
  destruct (map_get rid (records (applyRemote cf2 world2 rs2 s2).2)) as [st2|].
  - destruct H1 as (N1 & _ & _ & P1), H2 as (N2 & _ & _ & P2).
    assert (sr_wire st2 = sr_wire st1) as E by (symmetry; by eapply newest_in_unique).
    exists st1, st2. rewrite E in *. rewrite P1, P2. done.
  - exfalso. subst rs2. destruct rs1 as [|x ?]; [done|]. by apply (not_elem_of_nil x), Hll; left.
Qed.

Lemma applyRemote_converges_witness :
  let p := Demo.plain ".github.com" "sid" in
  let a := Demo.wire (p "a") (mkHlc 1700000000000 0 "x") None WRITE in
  let b := Demo.wire (p "b") (mkHlc 1700000000005 0 "y") None OVERWRITE in
  let plain r := if bool_decide (r = a) then p "a" else p "b" in
  ∃ st1 st2,
    getRecord (applyRemote Demo.cf Demo.world [a; b] Demo.start).2 (Demo.rid ".github.com" "sid")
      = Some st1
    ∧ getRecord (applyRemote Demo.cf Demo.passive [b; a; b] Demo.start).2
        (Demo.rid ".github.com" "sid") = Some st2
    ∧ newest_in [a; b] (sr_wire st1) ∧ sr_wire st2 = sr_wire st1
    ∧ sr_plain st1 = plain (sr_wire st1) ∧ sr_plain st2 = sr_plain st1.
Proof.
  intros p a b plain.
  apply (applyRemote_converges Demo.cf Demo.cf Demo.world Demo.passive);
    [set_solver|done| | | |done|done|repeat split|repeat split].
  - intros x y Hx Hy. assert (w_hlc a ≠ w_hlc b) by (vm_compute; congruence).
    apply elem_of_cons in Hx as [-> | ->%list_elem_of_singleton];
      apply elem_of_cons in Hy as [-> | ->%list_elem_of_singleton]; congruence.
  - left. intros r [-> | ->%list_elem_of_singleton]%elem_of_cons; discriminate.
  - intros r [-> | ->%list_elem_of_singleton]%elem_of_cons;
      (split; [vm_compute; reflexivity|split; deliver]).
Defined.

(** C5: an explicit deletion and a newer write of the same cookie converge to
    the same winner in whichever order they arrive, and the write survives
    exactly when it was made on top of the deletion: a write whose history
    predates the deletion does not resurrect the cookie. *)
Theorem explicit_delete_converges {W : WebCrypto} (cf1 cf2 : EngineConfig)
    (world1 world2 : World) rid D w pD pw s1 s2 :
  deliverable cf1 D pD → deliverable cf1 w pw → deliverable cf2 D pD → deliverable cf2 w pw →
  w_recordId D = rid → w_recordId w = rid →
  w_cause D = EXPLICIT_DELETE → w_cause w = WRITE ∨ w_cause w = OVERWRITE →
  token_ok rid (w_hlc D) → token_ok rid (w_hlc w) → hlc_lt (w_hlc D) (w_hlc w) →
  (∀ t, wd_applyOk world1 t = true) → (∀ t, wd_applyOk world2 t = true) →
  fresh_for rid s1 → fresh_for rid s2 →
  ∃ st1 st2,
    getRecord (applyRemote cf1 world1 [D; w] s1).2 rid = Some st1
    ∧ getRecord (applyRemote cf2 world2 [w; D] s2).2 rid = Some st2
    ∧ sr_wire st1 = sr_wire st2
    ∧ sr_wire st1 =
        if decide (w_causalParent w = Some (makeVersionToken rid (w_hlc D))) then w else D.
Proof.
  intros D1 w1 D2 w2 HDid Hwid HDc Hwc HDt Hwt Hlt Hok1 Hok2 F1 F2.
  destruct (pair_delete_first cf1 world1 rid D w pD pw D1 w1 HDid Hwid HDc Hwc HDt Hwt Hlt Hok1 s1 F1)
    as (st1 & R1 & W1).
  destruct (pair_write_first cf2 world2 rid D w pD pw D2 w2 HDid Hwid HDc Hwc HDt Hwt Hlt Hok2 s2 F2)
    as (st2 & R2 & W2).
  exists st1, st2. unfold getRecord. rewrite W1, W2. done.
Qed.

Lemma explicit_delete_converges_witness :
  let rid := Demo.rid ".github.com" "sid" in
  let D := Demo.wire (Demo.gone ".github.com" "sid") (mkHlc 1700000000000 0 "x") None EXPLICIT_DELETE in
  let w := Demo.wire (Demo.plain ".github.com" "sid" "v") (mkHlc 1700000000009 0 "y") None WRITE in
  ∃ st1 st2,
    getRecord (applyRemote Demo.cf Demo.world [D; w] Demo.start).2 rid = Some st1
    ∧ getRecord (applyRemote Demo.cf Demo.world [w; D] Demo.start).2 rid = Some st2
    ∧ sr_wire st1 = sr_wire st2
    ∧ sr_wire st1 =
        if decide (w_causalParent w = Some (makeVersionToken rid (w_hlc D))) then w else D.
Proof.
  intros rid D w.
  assert (token_ok rid (w_hlc D) ∧ token_ok rid (w_hlc w)) as [HD Hw].
  { split; (split; [apply (bool_decide_eq_true (Forall _ _)); vm_compute; reflexivity|done]). }
  apply (explicit_delete_converges Demo.cf Demo.cf Demo.world Demo.world rid D w
    (Demo.gone ".github.com" "sid") (Demo.plain ".github.com" "sid" "v"));
    try deliver; try done.
  by left.
Defined.

(** A write that is not blocked descends from every older deletion known. *)
Lemma unblocked_descends r k fence :
  w_cause r = WRITE ∨ w_cause r = OVERWRITE → verdict r k ≠ resurrection_blocked →
  map_get (w_recordId r) (fences k) = Some fence → hlc_lt (df_hlc fence) (w_hlc r) →
  descent k (w_recordId r) (w_causalParent r) fence = descends.
Proof.
  intros Hc Hb Hf Hlt. unfold verdict, resolve in Hb. rewrite Hf in Hb.
  rewrite (proj2 (compareHlc_gtb _ _) Hlt) in Hb. simpl in Hb.
  destruct Hc as [Hc|Hc]; rewrite Hc in Hb; by case_bool_decide.
Qed.

Lemma park_spec r k :
  records (park r k) = records k ∧ fences (park r k) = fences k ∧ ancestry (park r k) = ancestry k
  ∧ ∃ q, map_get (w_recordId r) (parked (park r k)) = Some q ∧ hlc_le (w_hlc r) (w_hlc q).
Proof.
  unfold park. destruct (map_get (w_recordId r) (parked k)) as [q|] eqn:Eq.
  - destruct (_ >? 0) eqn:E; hlc_prop; repeat split; simpl; [rewrite map_get_set_eq; eauto with suma|eauto].
  - repeat split. simpl. rewrite map_get_set_eq. eauto with suma.
Qed.

(** C6: the resurrection guard.  If accepting a remote write changes the
    stored version of its cookie although an older explicit deletion is known,
    then the write's recorded ancestry reaches that deletion; otherwise it is
    blocked, and kept for a later retry. *)
Theorem ingest_no_resurrection {W : WebCrypto} (cf : EngineConfig) (world : World) r p b s :
  deliverable cf r p → w_cause r = WRITE ∨ w_cause r = OVERWRITE →
  let rid := w_recordId r in
  let d := (ingest cf world r b s).1 in
  let s' := (ingest cf world r b s).2 in
  ∀ fence, map_get rid (fences s') = Some fence → hlc_lt (df_hlc fence) (w_hlc r) →
  (map_get rid (records s') ≠ map_get rid (records s) →
     ∃ t, w_causalParent r = Some t ∧ Chain (edges_of s' rid) t (df_token fence))
  ∧ (descent s' rid (w_causalParent r) fence ≠ descends →
     d = Some resurrection_blocked ∧ records s' = records s
     ∧ (b = true → ∃ q, map_get rid (parked s') = Some q ∧ hlc_le (w_hlc r) (w_hlc q))).
Proof.
  intros Hd Hc rid. rewrite (ingest_run cf world r p b s Hd). cbv zeta.
  set (k := learn r p (received world r s)).
  assert (records k = records s) as Hrk by exact (learn_records r p (received world r s)).
  assert (∀ s2, knowledge s2 = knowledge k ∨ (∃ st, knowledge s2 =
    (map_set rid st (records k), fences k, latestTombstones k, ancestry k, parked k)) →
    verdict r k ≠ resurrection_blocked → ∀ d fence,
    map_get rid (fences s2) = Some fence → hlc_lt (df_hlc fence) (w_hlc r) →
    (map_get rid (records s2) ≠ map_get rid (records s) →
       ∃ t, w_causalParent r = Some t ∧ Chain (edges_of s2 rid) t (df_token fence))
    ∧ (descent s2 rid (w_causalParent r) fence ≠ descends →
       d = Some resurrection_blocked ∧ records s2 = records s
       ∧ (b = true → ∃ q, map_get rid (parked s2) = Some q ∧ hlc_le (w_hlc r) (w_hlc q)))) as Hgo.
  { intros s2 Hs2 Hb d fence Hf Hlt.
    assert (fences s2 = fences k ∧ ancestry s2 = ancestry k) as [E1 E2]
      by (unfold knowledge in Hs2; destruct Hs2 as [[=]|[st [=]]]; split; congruence).
    rewrite E1 in Hf. pose proof (unblocked_descends r k fence Hc Hb Hf Hlt) as Hdesc.
    assert (descent s2 rid (w_causalParent r) fence = descends) as Hd2
      by (unfold descent; rewrite E2; exact Hdesc).
    split; [|done]. intros _. by apply descent_descends in Hd2. }
  destruct (verdict r k) eqn:Ev; try (intros; apply Hgo; by auto).
  - pose proof (offer_knowledge cf world (pick r p k) k) as Hk.
    destruct (offer cf world (pick r p k) k) as [[?|] s2]; simpl in Hk; [|intros; apply Hgo; by auto].
    assert (pick r p k = mkNote r p) as Hp by (unfold pick; by destruct Hc as [-> | ->]).
    rewrite Hp in *. cbn [tn_wire tn_plain].
    destruct (store_knowledge world r p s2) as (st & _ & _ & _ & _ & _ & Hst).
    intros. apply Hgo; auto. right. exists st. cbn [snd]. rewrite Hst. injection Hk as -> -> -> -> ->. done.
  - intros fence Hf Hlt. destruct (park_spec r k) as (P1 & P2 & P3 & P4).
    destruct b; cbn [fst snd]; rewrite ?P1, Hrk; (split; [done|]); intros _; (split; [done|]); (split; [done|]);
      [by auto|done].
Qed.

Lemma ingest_no_resurrection_witness :
  let rid := Demo.rid ".github.com" "sid" in
  let D := Demo.wire (Demo.gone ".github.com" "sid") (mkHlc 1700000000000 0 "x") None EXPLICIT_DELETE in
  let w := Demo.wire (Demo.plain ".github.com" "sid" "v") (mkHlc 1700000000009 0 "y") None WRITE in
  let s := (ingest Demo.cf Demo.world D true Demo.start).2 in
  (ingest Demo.cf Demo.world w true s).1 = Some resurrection_blocked
  ∧ records (ingest Demo.cf Demo.world w true s).2 = records s.
Proof.
  intros rid D w s.
  assert (deliverable Demo.cf w (Demo.plain ".github.com" "sid" "v")) as Hd
    by (deliver).
  assert (map_get (w_recordId w) (fences (ingest Demo.cf Demo.world w true s).2)
    = Some (mkFence (w_hlc D) (makeVersionToken rid (w_hlc D)))) as Hf
    by (vm_compute; reflexivity).
  assert (hlc_lt (w_hlc D) (w_hlc w)) as Hlt by (vm_compute; reflexivity).
  destruct (ingest_no_resurrection Demo.cf Demo.world w (Demo.plain ".github.com" "sid" "v") true s
    Hd (or_introl eq_refl) _ Hf Hlt) as [_ H].
  destruct H as (Hx & Hy & _); [vm_compute; discriminate|].
  split; [exact Hx|exact Hy].
Defined.

(** C8: commit after apply.  When the cookie store refuses a winning record
    the error surfaces and no version is recorded, so delivering the same
    record again, once the store accepts, applies it and stores the winner. *)
Theorem ingest_retry_after_failure {W : WebCrypto} (cf : EngineConfig) (world world' : World)
    r p b b' s s' :
  deliverable cf r p → (∀ t, wd_applyOk world' t = true) →
  ingest cf world r b s = (None, s') →
  records s' = records s
  ∧ ∃ s'' st, ingest cf world' r b' s' = (Some applied, s'')
    ∧ map_get (sr_recordId st) (records s'') = Some st
    ∧ sr_wire st = tn_wire (pick r p (learn r p (received world r s))).
Proof.
  intros Hd Hok Hi. destruct (ingest_failed cf world r p b s s' Hd Hi) as [Hk Hv].
  assert (knowledge (learn r p (received world' r s')) = knowledge (learn r p (received world r s)))
    as Hk2 by by apply learn_twice.
  split.
  { injection Hk as -> _ _ _ _. exact (learn_records r p (received world r s)). }
  assert (verdict r (learn r p (received world' r s')) = applied) as Hv2
    by by rewrite (verdict_knowledge _ _ _ Hk2).
  destruct (ingest_applied cf world' r p b' s' Hok Hd Hv2) as (s'' & st & Hi' & Hw & _ & _ & _ & Hid & Hk').
  exists s'', st. split; [done|]. rewrite (pick_knowledge r p _ _ Hk2) in *.
  split; [|done]. injection Hk' as -> _ _ _ _. by rewrite Hid, map_get_set_eq.
Qed.

Lemma ingest_retry_after_failure_witness :
  let w := Demo.wire (Demo.plain ".github.com" "sid" "v") (mkHlc 1700000000009 0 "y") None WRITE in
  let broken := mkWorld (wd_now Demo.world) (wd_iv Demo.world) (λ _, false) (λ _, true) in
  let s' := (ingest Demo.cf broken w true Demo.start).2 in
  records s' = [] ∧ ∃ s'' st, ingest Demo.cf Demo.world w true s' = (Some applied, s'')
    ∧ map_get (sr_recordId st) (records s'') = Some st ∧ sr_wire st = w.
Proof.
  intros w broken s'.
  apply (ingest_retry_after_failure Demo.cf broken Demo.world w
    (Demo.plain ".github.com" "sid" "v") true true Demo.start s');
    [deliver|done|vm_compute; reflexivity].
Defined.
