(* ===== verification/SyncLocal.v ===== *)
(** * Local changes, echoes, leases and collection

    What the sync engine does with the device's own mutations: echoes of
    applied records are swallowed, a passive writer's deletions stay local, a
    published change is readable by the account's other devices, the offline
    queue is flushed in order, and collection spares everything recent. *)

From S2P Require Export SyncConvergence SyncVerify.
From Stdlib Require Import Ascii.

(** ** Echo keys *)

(** Two payloads leave the same state in the cookie store: priority is not
    observable and expiry is observed in seconds. *)
Definition same_store_state (p q : CookiePlain) : Prop :=
  match cp_deleted p, cp_attributes p, cp_deleted q, cp_attributes q with
  | false, Some a, false, Some b =>
      ca_value a = ca_value b
      ∧ option_map (λ e, e / 1000) (ca_expiresMs a) = option_map (λ e, e / 1000) (ca_expiresMs b)
      ∧ ca_persistent a = ca_persistent b ∧ ca_secure a = ca_secure b
      ∧ ca_httpOnly a = ca_httpOnly b ∧ ca_sameSite a = ca_sameSite b
  | false, Some _, _, _ | _, _, false, Some _ => False
  | _, _, _, _ => True
  end.

Lemma echoKey_same rid p q : same_store_state p q → echoKey rid p = echoKey rid q.
Proof.
  unfold same_store_state, echoKey.
  destruct (cp_deleted p), (cp_attributes p) as [a|], (cp_deleted q), (cp_attributes q) as [b|];
    try done.
  intros (H1 & H2 & H3 & H4 & H5 & H6). rewrite H1, H3, H4, H5, H6.
  destruct (ca_expiresMs a), (ca_expiresMs b); simplify_eq/=; congruence.
Qed.

Lemma expectEcho_at_get now ttl rid p s :
  ∃ e, map_get (echoKey rid p) (pendingEchoes (expectEcho_at now ttl rid p s)) = Some e
    ∧ ee_expiresAtMs e = now + ttl.
Proof.
  unfold expectEcho_at. simpl. rewrite map_get_set_eq.
  destruct (map_get _ _) as [e|]; [destruct (_ >? now)|]; eauto.
Qed.

Section Local.
Context {W : WebCrypto} (cf : EngineConfig) (world : World).

(** A pending, unexpired expectation swallows the event. *)
Lemma consumeEcho_pending rid p s e :
  map_get (echoKey rid p) (pendingEchoes s) = Some e → wd_now world (tick s) < ee_expiresAtMs e →
  consumeEcho world rid p s =
    (Some true, with_pendingEchoes (drop_echo (echoKey rid p)) (ticked s)).
Proof.
  intros He Ht. unfold consumeEcho, mbind, exn_bind, gets, map_has. rewrite He.
  unfold nowFn, exec, consumeEcho_at. simpl. rewrite He.
  destruct (_ <=? _) eqn:E; [blia|done].
Qed.

Lemma localChange_swallowed i a removed c e p s s' cause :
  ci_spaceId i = cf_spaceId cf → causeForChange c removed = Some cause →
  (removed = false → a ≠ None) →
  p = mkPlain i (if removed then None else a) removed →
  consumeEcho world (computeRecordIdHex (idKey (cf_keys cf)) i) p s = (Some true, s') →
  localChange cf world i a removed c e s = (Some None, s').
Proof.
  intros Hsp Hc Ha -> He. unfold localChange. rewrite Hsp, String.eqb_refl, Hc. simpl.
  assert (negb removed && match a with None => true | Some _ => false end = false) as ->.
  { destruct removed, a; try done. by destruct Ha. }
  unfold mbind, exn_bind. by rewrite He.
Qed.

(** After an applied record the ledger expects its echo. *)
Lemma ingest_expects r p b s s1 :
  deliverable cf r p → ingest cf world r b s = (Some applied, s1) →
  let n := pick r p (learn r p (received world r s)) in
  canApply cf (tn_plain n) = true →
  ∃ en, map_get (echoKey (w_recordId (tn_wire n)) (tn_plain n)) (pendingEchoes s1) = Some en
    ∧ ee_expiresAtMs en = wd_now world (S (tick s)) + cf_echoTtlMs cf.
Proof.
  intros Hd Hi n Hca. rewrite (ingest_run cf world r p b s Hd) in Hi. cbv zeta in Hi. fold n in Hi.
  set (k := learn r p (received world r s)) in *.
  assert (tick k = S (tick s)) as Htk.
  { unfold k, learn, noteTombstone, noteFence, noteAncestry. repeat case_match; done. }
  destruct (verdict r k); try done.
  destruct (offer cf world n k) as [[[]|] s2] eqn:Eo; [|done]. injection Hi as <-.
  destruct (expectEcho_at_get (wd_now world (tick k)) (cf_echoTtlMs cf) (w_recordId (tn_wire n))
    (tn_plain n) (ticked k)) as (en & Hen & Hex).
  exists en. rewrite Hex, Htk. split; [|done]. rewrite <- Hen.
  assert (pendingEchoes (store world (tn_wire n) (tn_plain n) s2).2 = pendingEchoes s2) as ->.
  { unfold store, mbind, exn_bind, nowFn, modify. by destruct (DELETION_CAUSES _). }
  unfold offer, when in Eo. rewrite Hca in Eo.
  unfold catch, mbind, exn_bind, expectEcho, applier_apply, nowFn, modify, throw in Eo. simpl in Eo.
  destruct (wd_applyOk world _); [|done]. by injection Eo as <-.
Qed.

(** ** Publishing *)

(** The batches handed to the transport so far. *)
Definition publishes (s : Engine) : list (list CookieRecordWire) :=
  omap (λ e, match e with EPublish rs => Some rs | _ => None end) (trace s).

Lemma publishes_emit e s :
  publishes (emit e s) = publishes s ++ match e with EPublish rs => [rs] | _ => [] end.
Proof. unfold publishes. simpl. rewrite omap_app. simpl. by destruct e. Qed.

Lemma ensureLease_run o s :
  ∃ b s', ensureLease cf world o s = (Some b, s')
    ∧ publishes s' = publishes s ∧ online s' = online s ∧ queue s' = queue s.
Proof.
  assert (∀ s0, ∃ b s', acquireLease cf world o false None s0 = (Some b, s')
    ∧ publishes s' = publishes s0 ∧ online s' = online s0 ∧ queue s' = queue s0) as Ha.
  { intros s0. unfold acquireLease, mbind, exn_bind, transport_acquireLease, nowFn, modify. simpl.
    destruct (wd_leaseGrant world (tick s0)); eexists _, _; (split; [reflexivity|]);
      (split; [|done]); unfold publishes; simpl; rewrite omap_app; simpl; by rewrite app_nil_r. }
  unfold ensureLease, mbind, exn_bind, gets.
  destruct (map_get o (grantedLeases s)) as [g|]; [|apply Ha].
  unfold nowFn at 1. destruct (g >? _); [|apply (Ha (ticked s))]. by eexists _, _.
Qed.

Lemma drain_one_run w s :
  online s = true → (DELETION_CAUSES (w_cause w) = true ∨ is_Some (openRecord (cf_keys cf) w)) →
  ∃ s', drain_one cf world w s = (Some (), s')
    ∧ publishes s' = publishes s ++ [[w]] ∧ online s' = true ∧ queue s' = queue s.
Proof.
  intros Hon Hw. unfold drain_one, mbind, exn_bind, gets. rewrite Hon. cbn [negb].
  assert (∃ b, wireNeedsLease cf w s = (Some b, s)) as [b Hb].
  { unfold wireNeedsLease. destruct (DELETION_CAUSES (w_cause w)); [by eexists|].
    destruct Hw as [?|[p Hp]]; [done|]. unfold mbind, exn_bind, of_option. rewrite Hp. by eexists. }
  rewrite Hb. unfold transport_publish, modify.
  destruct b.
  - destruct (ensureLease_run (w_originId w) s) as (g & s' & -> & P & O & Q).
    eexists. split; [reflexivity|]. by rewrite publishes_emit, P, <- Hon.
  - eexists. split; [reflexivity|]. by rewrite publishes_emit.
Qed.

Lemma drain_all_run l s :
  online s = true →
  (∀ w, w ∈ l → DELETION_CAUSES (w_cause w) = true ∨ is_Some (openRecord (cf_keys cf) w)) →
  ∃ us s', forM l (drain_one cf world) s = (Some us, s')
    ∧ publishes s' = publishes s ++ map (λ w, [w]) l ∧ queue s' = queue s ∧ online s' = true.
Proof.
  revert s. induction l as [|w l IH]; intros s Hon Hl; simpl.
  { eexists _, s. split; [reflexivity|]. by rewrite app_nil_r. }
  unfold mbind, exn_bind. destruct (drain_one_run w s Hon) as (s1 & -> & P1 & O1 & Q1).
  { apply Hl. left. }
  destruct (IH s1 O1) as (us & s2 & -> & P2 & Q2 & O2); [intros; apply Hl; by right|].
  eexists _, s2. split; [reflexivity|]. rewrite P2, P1, <- app_assoc. by rewrite Q2.
Qed.

(** ** Issuing a mutation *)

(** The fields that learning about a version leaves alone. *)
Definition outer (s : Engine) := (trace s, queue s, online s, parked s).

Lemma noteFence_outer r s : outer (noteFence r s) = outer s.
Proof. unfold noteFence. by repeat case_match. Qed.

Lemma noteTombstone_outer w p s :
  outer (noteTombstone w p s) = outer s ∧ fences (noteTombstone w p s) = fences s.
Proof. unfold noteTombstone. by repeat case_match. Qed.

Lemma noteFence_other r s : w_cause r ≠ EXPLICIT_DELETE → noteFence r s = s.
Proof. intros. unfold noteFence. by rewrite bool_decide_false. Qed.

Lemma store_outer w p s :
  ∃ s', store world w p s = (Some (), s') ∧ outer s' = outer s ∧ fences s' = fences s.
Proof.
  unfold store, mbind, exn_bind, nowFn, modify.
  destruct (DELETION_CAUSES _); eexists; (split; [reflexivity|done]).
Qed.

Lemma issue_run p cause s :
  ∃ hlc iv s', issue cf world p cause s =
      (Some (buildCookieRecordWire iv (cf_keys cf) (cf_signer cf) p hlc
        (option_map (λ c, makeVersionToken (computeRecordIdHex (idKey (cf_keys cf)) (cp_identity p))
                            (sr_hlc c))
           (map_get (computeRecordIdHex (idKey (cf_keys cf)) (cp_identity p)) (records s))) cause), s')
    ∧ (∃ t, iv = wd_iv world t) ∧ deviceId hlc = clockDevice (clock s)
    ∧ outer s' = outer s ∧ (cause ≠ EXPLICIT_DELETE → fences s' = fences s).
Proof.
  unfold issue, send_hlc, mbind, exn_bind, nowFn, exec, gets, randomIv.
  destruct (clock_send _ (clock (ticked s))) as [h c] eqn:Ec.
  assert (deviceId h = clockDevice (clock s)) as Hdev.
  { unfold clock_send in Ec. simpl in Ec. destruct (_ >? _); by injection Ec as <- <-. }
  change (records (with_clock (λ _, c) (ticked s))) with (records s).
  set (w := buildCookieRecordWire _ _ _ _ _ _ _).
  set (s0 := ticked (with_clock (λ _, c) (ticked s))).
  change (modify (noteAncestry w) s0) with (Some (), noteAncestry w s0). cbv beta iota.
  change (modify (noteFence w) (noteAncestry w s0)) with (Some (), noteFence w (noteAncestry w s0)).
  cbv beta iota.
  assert (outer s0 = outer s ∧ fences s0 = fences s) as [O0 F0] by done.
  assert (w_cause w = cause) as Hc by done.
  set (s1 := noteFence w (noteAncestry w s0)).
  assert (outer s1 = outer s) as O1 by (unfold s1; by rewrite noteFence_outer).
  assert (cause ≠ EXPLICIT_DELETE → fences s1 = fences s) as F1.
  { intros Hne. unfold s1. by rewrite noteFence_other by by rewrite Hc. }
  assert (∃ s2, when (DELETION_CAUSES cause) (modify (noteTombstone w p)) s1 = (Some (), s2)
    ∧ outer s2 = outer s ∧ fences s2 = fences s1) as (s2 & E2 & O2 & F2).
  { destruct (DELETION_CAUSES cause); simpl; eexists; (split; [reflexivity|]);
      [destruct (noteTombstone_outer w p s1) as [-> ->]|]; done. }
  destruct (store_outer w p s2) as (s3 & E3 & O3 & F3).
  exists h. eexists (wd_iv world _), s3. split.
  { fold s1. rewrite E2. by rewrite E3. }
  split; [by eexists|]. split; [done|]. split; [congruence|].
  intros Hne. rewrite F3, F2. auto.
Qed.

(** ** Retrying a parked write is silent: it publishes nothing, queues nothing
    and raises no fence. *)

Definition quiet (s0 s : Engine) : Prop :=
  map_ok parked_ok (parked s) ∧ fences s = fences s0 ∧ publishes s = publishes s0
  ∧ queue s = queue s0.

Ltac quiet_frame :=
  let s := fresh in let H := fresh in
  intros s (? & ? & H & ?); split; [|split; [|split]]; simpl; auto with suma;
  unfold publishes in *; simpl; rewrite ?omap_app; simpl; by rewrite ?app_nil_r.

Lemma nowFn_quiet s0 : keeps (quiet s0) (nowFn world) (λ _, True).
Proof. intros s H. split; [|done]. revert s H. quiet_frame. Qed.

Lemma applier_apply_quiet s0 p c : keeps (quiet s0) (applier_apply world p c) (λ _, True).
Proof. intros s H. split; [|done]. revert s H. quiet_frame. Qed.

Lemma expectEcho_quiet s0 rid p : keeps (quiet s0) (expectEcho cf world rid p) (λ _, True).
Proof. unfold expectEcho. keeps_step; [apply nowFn_quiet|]. keeps_step. quiet_frame. Qed.

Lemma store_quiet s0 w p : keeps (quiet s0) (store world w p) (λ _, True).
Proof.
  unfold store. keeps_step; [keeps_step; [apply nowFn_quiet|]|]; keeps_step; quiet_frame.
Qed.

Lemma ingest_quiet s0 r b :
  w_cause r = WRITE ∨ w_cause r = OVERWRITE → keeps (quiet s0) (ingest cf world r b) (λ _, True).
Proof.
  intros Hc.
  assert (DELETION_CAUSES (w_cause r) = false) as Hd by by destruct Hc as [-> | ->].
  unfold ingest. rewrite Hd. do 3 (keeps_step; [by keeps_step|]).
  keeps_step; [|keeps_step; [keeps_step; quiet_frame|by keeps_step]].
  keeps_step; [by keeps_step|].
  keeps_step; [unfold receive_hlc; keeps_step; [apply nowFn_quiet|]; keeps_step; quiet_frame|].
  keeps_step; [keeps_step; quiet_frame|].
  keeps_step.
  { keeps_step. intros s H. unfold noteFence. destruct Hc as [-> | ->]; done. }
  keeps_step; [by keeps_step|]. keeps_step. keeps_step.
  { unfold park_if. keeps_step; [|by keeps_step]. keeps_step. intros s (H1 & H2 & H3 & H4).
    unfold park. destruct (match map_get _ _ with Some _ => _ | None => _ end); [|done].
    split; [|done]. simpl. apply map_ok_set; [done|]. by split. }
  keeps_step; [by keeps_step|]. keeps_step. keeps_step.
  - do 2 keeps_step. keeps_step; [apply expectEcho_quiet|].
    keeps_step; [apply applier_apply_quiet|]. keeps_step; [keeps_step; quiet_frame|by keeps_step].
  - keeps_step; [apply store_quiet|by keeps_step].
Qed.

Lemma retryParked_quiet s0 rid : keeps (quiet s0) (retryParked cf world rid) (λ _, True).
Proof.
  unfold retryParked.
  eapply (keeps_bind _ _ _ (λ r, ∀ x, r = Some x → w_cause x = WRITE ∨ w_cause x = OVERWRITE)).
  { apply keeps_gets. intros s (H & _) x Hx. by eapply (map_ok_get parked_ok) in Hx as [_ ?]. }
  intros [x|] Hx; [|by keeps_step]. specialize (Hx x eq_refl).
  keeps_step. keeps_step; [by keeps_step|]. keeps_step; [keeps_step; quiet_frame|].
  keeps_step; [by keeps_step|]. keeps_step; [by apply ingest_quiet|by keeps_step].
Qed.

(** ** Local changes that are not swallowed *)

(** The gate of [localChange] after the echo test. *)
Lemma localChange_gate i a removed c e s s' p cause :
  ci_spaceId i = cf_spaceId cf → causeForChange c removed = Some cause →
  (removed = false → a ≠ None) → p = mkPlain i (if removed then None else a) removed →
  consumeEcho world (computeRecordIdHex (idKey (cf_keys cf)) i) p s = (Some false, s') →
  isSynced (cf_policies cf) s' (ci_hostKey i) = true →
  localChange cf world i a removed c e s =
    (let policy := matchOriginPolicy (cf_policies cf) (normalizedHost (ci_hostKey i)) in
     scope ← writerScope cf world policy (ci_hostKey i) cause e;
     let '(localOnly, cause) := scope in
     wire ← issue cf world p cause;
     _ ← when (negb localOnly)
       (publishOrQueue cf world wire (op_rotatingAuth policy && negb (DELETION_CAUSES cause)));
     _ ← retryParked cf world (computeRecordIdHex (idKey (cf_keys cf)) i);
     mret (Some wire)) s'.
Proof.
  intros Hsp Hc Ha -> He Hs. unfold localChange. rewrite Hsp, String.eqb_refl, Hc. simpl.
  assert (negb removed && match a with None => true | Some _ => false end = false) as ->.
  { destruct removed, a; try done. by destruct Ha. }
  unfold mbind, exn_bind, gets. rewrite He, Hs. done.
Qed.

Lemma consumeEcho_frame rid p s :
  ∃ b s', consumeEcho world rid p s = (Some b, s') ∧ knowledge s' = knowledge s
    ∧ trace s' = trace s ∧ queue s' = queue s ∧ grantedLeases s' = grantedLeases s
    ∧ overrides s' = overrides s ∧ online s' = online s ∧ clock s' = clock s.
Proof.
  unfold consumeEcho, mbind, exn_bind, gets.
  destruct (map_has _ _); [|by eexists _, s]. unfold nowFn, exec.
  unfold consumeEcho_at. simpl. destruct (map_get _ _); [|by eexists _, _].
  destruct (_ <=? _); by eexists _, _.
Qed.

Lemma causeForChange_removed c cause :
  causeForChange c true = Some cause → DELETION_CAUSES cause = true.
Proof. unfold causeForChange. simpl. repeat case_match; naive_solver. Qed.

Lemma causeForChange_write c cause :
  causeForChange c false = Some cause → cause = WRITE ∨ cause = OVERWRITE.
Proof. unfold causeForChange. simpl. case_match; naive_solver. Qed.

(** [writerScope] reads the lease and the clock, nothing else. *)
Lemma writerScope_run p h c e s :
  ∃ lo c' s', writerScope cf world p h c e s = (Some (lo, c'), s')
    ∧ (s' = s ∨ s' = ticked s)
    ∧ (op_rotatingAuth p = true → DELETION_CAUSES c = true → e = false →
       (∀ g t, map_get (computeOriginIdHex (idKey (cf_keys cf)) (cf_spaceId cf) h) (grantedLeases s)
                 = Some g → g <= wd_now world t) →
       lo = true ∧ c' ≠ EXPLICIT_DELETE ∧ DELETION_CAUSES c' = true)
    ∧ (DELETION_CAUSES c = false → c' = c).
Proof.
  unfold writerScope.
  assert (∀ b : bool, DELETION_CAUSES c = true →
    (if bool_decide (c = EXPLICIT_DELETE) then EXPIRED else c) ≠ EXPLICIT_DELETE
    ∧ DELETION_CAUSES (if bool_decide (c = EXPLICIT_DELETE) then EXPIRED else c) = true) as Hs.
  { intros _ Hd. by case_bool_decide. }
  destruct (op_rotatingAuth p && DELETION_CAUSES c && negb e) eqn:E.
  2: { eexists _, _, s. split; [reflexivity|]. split; [by left|]. split; [|done].
       intros H1 H2 ->. rewrite H1, H2 in E. done. }
  bprop. unfold mbind, exn_bind, gets.
  destruct (map_get _ (grantedLeases s)) as [g|].
  - unfold nowFn, mret, exn_ret. destruct (g <=? wd_now world (tick s)) eqn:Eg; bprop.
    + eexists _, _, _. split; [reflexivity|]. split; [by right|]. split; [|congruence].
      intros _ Hd _ _. destruct (Hs true Hd). auto.
    + eexists _, _, _. split; [reflexivity|]. split; [by right|]. split; [|congruence].
      intros _ _ _ Hg. specialize (Hg g (tick s) eq_refl). lia.
  - eexists _, _, s. split; [reflexivity|]. split; [by left|]. split; [|congruence].
    intros _ Hd _ _. destruct (Hs true Hd). auto.
Qed.

(** The wire a local change returns is the sealed and signed mutation. *)
Lemma localChange_wire i a removed c e s w s' :
  localChange cf world i a removed c e s = (Some (Some w), s') →
  ∃ iv t hlc parent cause,
    w = buildCookieRecordWire iv (cf_keys cf) (cf_signer cf)
          (mkPlain i (if removed then None else a) removed) hlc parent cause
    ∧ iv = wd_iv world t ∧ deviceId hlc = clockDevice (clock s) ∧ ci_spaceId i = cf_spaceId cf
    ∧ (removed = false → cause = WRITE ∨ cause = OVERWRITE).
Proof.
  unfold localChange. destruct (String.eqb_spec (ci_spaceId i) (cf_spaceId cf)) as [Hsp|]; [|done].
  cbn [negb]. destruct (causeForChange c removed) as [cause|] eqn:Ec; [|done].
  destruct (negb removed && _); [done|]. unfold mbind, exn_bind.
  destruct (consumeEcho_frame (computeRecordIdHex (idKey (cf_keys cf)) i)
    (mkPlain i (if removed then None else a) removed) s) as (b & s1 & -> & F).
  destruct b; [done|]. unfold gets. destruct (isSynced _ _ _); [|done]. cbn [negb].
  destruct (writerScope_run (matchOriginPolicy (cf_policies cf) (normalizedHost (ci_hostKey i)))
    (ci_hostKey i) cause e s1) as (lo & c' & s2 & -> & Hs2 & _ & Hc').
  destruct (issue_run (mkPlain i (if removed then None else a) removed) c' s2)
    as (hlc & iv & s3 & -> & [t Ht] & Hdev & _ & _).
  destruct (when _ _ s3) as [[?|] s4]; [|done].
  destruct (retryParked cf world _ s4) as [[?|] s5]; [|done]. intros [= <- _].
  eexists iv, t, hlc, _, c'. split; [reflexivity|]. split; [done|]. split.
  { rewrite Hdev. destruct F as (_ & _ & _ & _ & _ & _ & <-). destruct Hs2 as [-> | ->]; done. }
  split; [done|]. intros ->. apply causeForChange_write in Ec.
  rewrite Hc'; [done|]. by destruct Ec as [-> | ->].
Qed.
End Local.

(** ** Rollback *)

Section Rollback.
Context {W : WebCrypto} (cf : EngineConfig) (world : World).
Context (Hok : ∀ t, wd_applyOk world t = true).

Definition rid_of (p : CookiePlain) : string :=
  computeRecordIdHex (idKey (cf_keys cf)) (cp_identity p).

(** The payload stored under a record id. *)
Definition plain_at (k : string) (s : Engine) : option CookiePlain :=
  option_map sr_plain (map_get k (records s)).

Lemma issue_plain p cause s k :
  plain_at k (issue cf world p cause s).2
  = if decide (rid_of p = k) then Some p else plain_at k s.
Proof.
  unfold issue, send_hlc, mbind, exn_bind, nowFn, exec, gets, randomIv.
  destruct (clock_send _ (clock (ticked s))) as [h c]. cbn [fst snd].
  set (w := buildCookieRecordWire _ _ _ _ _ _ _).
  assert (w_recordId w = rid_of p) as Hid by done.
  set (s0 := ticked _).
  change (modify (noteAncestry w) s0) with (Some (), noteAncestry w s0). cbv beta iota.
  change (modify (noteFence w) (noteAncestry w s0)) with (Some (), noteFence w (noteAncestry w s0)).
  cbv beta iota. set (s1 := noteFence w (noteAncestry w s0)).
  assert (records s1 = records s) as R1 by (unfold s1, noteFence; by repeat case_match).
  assert (∃ s2, when (DELETION_CAUSES cause) (modify (noteTombstone w p)) s1 = (Some (), s2)
    ∧ records s2 = records s) as (s2 & -> & R2).
  { destruct (DELETION_CAUSES cause); simpl; eexists; (split; [reflexivity|]); [|done].
    unfold noteTombstone. by repeat case_match. }
  destruct (store_knowledge world w p s2) as (st & _ & Hp & _ & _ & _ & [= K1 _ _ _ _]).
  destruct (store_outer world w p s2) as (s3 & E3 & _). rewrite E3 in *. cbn [fst snd] in *.
  assert (records s3 = map_set (rid_of p) st (records s)) as K by by rewrite <- R2.
  unfold plain_at. cbn [fst snd mret exn_ret]. rewrite K, map_get_set.
  destruct (decide (rid_of p = k)); [by rewrite <- Hp|done].
Qed.

Lemma issue_some p cause s : ∃ w, (issue cf world p cause s).1 = Some w.
Proof. destruct (issue_run cf world p cause s) as (? & ? & ? & -> & _). by eexists. Qed.

Lemma publishOrQueue_run w n s :
  ∃ s', publishOrQueue cf world w n s = (Some (), s') ∧ records s' = records s.
Proof.
  unfold publishOrQueue, mbind, exn_bind, gets, modify, transport_publish, modify, mret, exn_ret.
  destruct (online s); cbn [negb]; [|by eexists]. destruct n; [|by eexists].
  unfold ensureLease, acquireLease, transport_acquireLease, mbind, exn_bind, gets, nowFn, modify,
    mret, exn_ret.
  destruct (map_get _ _); [destruct (_ >? _); [by eexists|]|]; simpl;
    destruct (wd_leaseGrant world _); by eexists.
Qed.

Lemma reissue_plain p cause s :
  ∃ w s', reissue cf world p cause s = (Some w, s')
    ∧ ∀ k, plain_at k s' = if decide (rid_of p = k) then Some p else plain_at k s.
Proof using Hok.
  unfold reissue, mbind, exn_bind. pose proof (issue_plain p cause s) as Hi.
  destruct (issue_some p cause s) as [w Hw].
  destruct (issue cf world p cause s) as [o s1]. simpl in Hw, Hi. subst o.
  assert (∃ s2, when (canApply cf p) (_ ← expectEcho cf world (rid_of p) p;
    applier_apply world p cause) s1 = (Some (), s2) ∧ records s2 = records s1) as (s2 & E2 & R2).
  { unfold when. destruct (canApply cf p); [|by eexists].
    unfold mbind, exn_bind, expectEcho, nowFn, modify, applier_apply. simpl. rewrite Hok. by eexists. }
  unfold mbind, exn_bind, rid_of in E2. rewrite E2.
  destruct (publishOrQueue_run w false s2) as (s3 & -> & R3). exists w, s3. split; [done|].
  intros k. rewrite <- Hi. unfold plain_at. by rewrite R3, R2.
Qed.

(** The records of a consistent store are listed once each, under their ids. *)
Lemma stored_values m :
  map_ok (stored_ok cf) m →
  NoDup (map sr_recordId (map_values m))
  ∧ ∀ r, r ∈ map_values m → map_get (sr_recordId r) m = Some r ∧ rid_of (sr_plain r) = sr_recordId r.
Proof.
  intros [Hwf Hm]. unfold map_values.
  assert (∀ k r, (k, r) ∈ m → sr_recordId r = k ∧ rid_of (sr_plain r) = k) as Hkr.
  { intros k r Hin. apply map_In_get in Hin; [|done]. apply Hm in Hin.
    destruct Hin as (? & _ & _ & _ & _ & _ & _ & _ & Hb). by split. }
  split.
  - assert (map sr_recordId (map snd m) = map fst m) as ->; [|done].
    clear Hwf Hm. induction m as [|[k r] m IH]; simpl; [done|].
    destruct (Hkr k r) as [-> _]; [left|]. f_equal. apply IH. intros k' r' Hin. apply Hkr. by right.
  - intros r ([k r'] & -> & Hin)%list_elem_of_fmap. simpl in *.
    destruct (Hkr _ _ Hin) as [-> ->]. split; [by apply map_In_get|done].
Qed.

(** Reissuing a list of payloads with distinct ids. *)
Lemma reissue_all {A} (l : list A) (f : A → CookiePlain) (cause : A → Cause) s :
  NoDup (map (rid_of ∘ f) l) →
  ∃ ws s', forM l (λ x, reissue cf world (f x) (cause x)) s = (Some ws, s')
    ∧ (∀ x, x ∈ l → plain_at (rid_of (f x)) s' = Some (f x))
    ∧ (∀ k, k ∉ map (rid_of ∘ f) l → plain_at k s' = plain_at k s).
Proof using Hok.
  revert s. induction l as [|x l IH]; intros s Hnd; simpl.
  { eexists _, s. split; [reflexivity|]. split; [set_solver|done]. }
  apply NoDup_cons in Hnd as [Hx Hnd]. unfold mbind, exn_bind.
  destruct (reissue_plain (f x) (cause x) s) as (w & s1 & -> & H1).
  destruct (IH s1 Hnd) as (ws & s2 & -> & H2 & H3).
  eexists _, s2. split; [reflexivity|]. split.
  - intros y [->|Hy]%elem_of_cons; [|by apply H2].
    rewrite H3 by done. rewrite H1. by rewrite decide_True.
  - intros k [Hne Hk]%not_elem_of_cons. rewrite H3 by done. rewrite H1.
    by rewrite decide_False.
Qed.
End Rollback.

(** ** Collection *)

Lemma forget_all (l : list (string * StoredRecord)) s k :
  let s' := fold_left (λ s '(id, _), forget id s) l s in
  (k ∈ map fst l → fresh_for k s')
  ∧ (k ∉ map fst l →
     map_get k (records s') = map_get k (records s) ∧ map_get k (fences s') = map_get k (fences s)
     ∧ map_get k (latestTombstones s') = map_get k (latestTombstones s)
     ∧ map_get k (ancestry s') = map_get k (ancestry s)
     ∧ map_get k (parked s') = map_get k (parked s)).
Proof.
  revert s. induction l as [|[id r] l IH]; intros s; simpl.
  { split; [by intros ?%not_elem_of_nil|done]. }
  destruct (IH (forget id s)) as [H1 H2]. split.
  - intros [->|Hin]%elem_of_cons; [|auto].
    destruct (decide (id ∈ map fst l)) as [Hin|Hnin]; [auto|].
    destruct (H2 Hnin) as (E1 & E2 & E3 & E4 & E5). unfold fresh_for. rewrite E1, E2, E3, E4, E5.
    unfold forget. simpl. by rewrite !map_get_delete_eq.
  - intros [Hne Hnin]%not_elem_of_cons. destruct (H2 Hnin) as (-> & -> & -> & -> & ->).
    unfold forget. simpl. by rewrite !map_get_delete_ne by done.
Qed.

(** ** Properties *)

(** Echoes never cross the wire.  Once an applied record was handed to
    the cookie store, the change event it causes — the same cookie in the same
    observable state, arriving within the echo TTL — produces no record: the
    engine's knowledge, its queue and everything sent so far are unchanged. *)
Theorem applied_record_echo_swallowed {W : WebCrypto} (cf : EngineConfig) (world world' : World)
    r p s s1 i a removed c e cause :
  deliverable cf r p → ingest cf world r true s = (Some applied, s1) →
  let n := pick r p (learn r p (received world r s)) in
  canApply cf (tn_plain n) = true →
  ci_spaceId i = cf_spaceId cf →
  computeRecordIdHex (idKey (cf_keys cf)) i = w_recordId (tn_wire n) →
  causeForChange c removed = Some cause → (removed = false → a ≠ None) →
  same_store_state (mkPlain i (if removed then None else a) removed) (tn_plain n) →
  wd_now world' (tick s1) < wd_now world (S (tick s)) + cf_echoTtlMs cf →
  let o := localChange cf world' i a removed c e s1 in
  o.1 = Some None ∧ knowledge o.2 = knowledge s1 ∧ trace o.2 = trace s1 ∧ queue o.2 = queue s1.
Proof.
  intros Hd Hi n Hca Hsp Hid Hc Ha Hsame Ht.
  destruct (ingest_expects cf world r p true s s1 Hd Hi Hca) as (en & Hen & Hex). fold n in Hen.
  apply (echoKey_same (w_recordId (tn_wire n))) in Hsame. rewrite <- Hsame, <- Hid in Hen.
  rewrite <- Hex in Ht.
  pose proof (consumeEcho_pending world' _ _ s1 en Hen Ht) as Hcons.
  intros o. unfold o.
  rewrite (localChange_swallowed cf world' i a removed c e _ s1 _ cause Hsp Hc Ha eq_refl Hcons).
  done.
Qed.

Lemma applied_record_echo_swallowed_witness :
  let i := Demo.cookie ".github.com" "sid" in
  let w := Demo.wire (Demo.plain ".github.com" "sid" "v") (mkHlc 1700000000009 0 "y") None WRITE in
  let s1 := (ingest Demo.cf Demo.world w true Demo.start).2 in
  (* the store reports the same second, and no priority *)
  let seen := mkAttributes "v" (Some 1800000000123) true true true ss_lax prio_low in
  let o := localChange Demo.cf Demo.world i (Some seen) false "inserted" false s1 in
  o.1 = Some None ∧ knowledge o.2 = knowledge s1 ∧ trace o.2 = trace s1 ∧ queue o.2 = queue s1.
Proof.
  intros i w s1 seen.
  apply (applied_record_echo_swallowed Demo.cf Demo.world Demo.world w
    (Demo.plain ".github.com" "sid" "v") Demo.start s1 i (Some seen) false "inserted" false WRITE);
    [deliver|vm_compute; reflexivity..|done| |vm_compute; reflexivity].
  repeat split.
Defined.

(** Writer-scoped deletions.  On a rotating-auth origin, a deletion seen
    by a device that holds no live lease for it stays local: nothing is
    published or queued, no resurrection fence is raised, and the record it
    leaves is a deletion but never an explicit one. *)
Theorem passive_deletion_stays_local {W : WebCrypto} (cf : EngineConfig) (world : World) i a c s :
  engine_ok cf world s →
  op_rotatingAuth (matchOriginPolicy (cf_policies cf) (normalizedHost (ci_hostKey i))) = true →
  (∀ g t, map_get (computeOriginIdHex (idKey (cf_keys cf)) (cf_spaceId cf) (ci_hostKey i))
            (grantedLeases s) = Some g → g <= wd_now world t) →
  let o := localChange cf world i a true c false s in
  publishes o.2 = publishes s ∧ queue o.2 = queue s ∧ fences o.2 = fences s
  ∧ ∀ w, o.1 = Some (Some w) → DELETION_CAUSES (w_cause w) = true ∧ w_cause w ≠ EXPLICIT_DELETE.
Proof.
  intros Hok Hrot Hg o. unfold o, localChange.
  destruct (String.eqb (ci_spaceId i) (cf_spaceId cf)); [|done]. cbn [negb].
  destruct (causeForChange c true) as [cause|] eqn:Ec; [|done].
  apply causeForChange_removed in Ec. cbn [negb andb]. unfold mbind, exn_bind.
  destruct (consumeEcho_frame world (computeRecordIdHex (idKey (cf_keys cf)) i) (mkPlain i None true) s)
    as (b & s1 & -> & K & T & Q & G & _ & _ & _).
  injection K as K1 K2 K3 K4 K5.
  assert (publishes s1 = publishes s) as P1 by (unfold publishes; by rewrite T).
  destruct b; [done|]. unfold gets. destruct (isSynced _ _ _); [|done]. cbn [negb].
  destruct (writerScope_run cf world
    (matchOriginPolicy (cf_policies cf) (normalizedHost (ci_hostKey i))) (ci_hostKey i) cause false s1)
    as (lo & c' & s2 & -> & Hs2 & Hlocal & _).
  destruct (Hlocal Hrot Ec eq_refl) as (-> & Hne & Hdel); [intros g t; rewrite G; apply Hg|].
  assert (publishes s2 = publishes s ∧ queue s2 = queue s ∧ fences s2 = fences s ∧ parked s2 = parked s)
    as (P2 & Q2 & F2 & R2) by (destruct Hs2 as [-> | ->]; simpl; auto).
  destruct (issue_run cf world (mkPlain i None true) c' s2)
    as (hlc & iv & s3 & -> & _ & _ & [= T3 Q3 _ R3] & F3).
  assert (publishes s3 = publishes s2) as P3 by (unfold publishes; by rewrite T3).
  cbn [when negb mret exn_ret].
  pose proof (retryParked_quiet cf world s3 (computeRecordIdHex (idKey (cf_keys cf)) i) s3) as [Hr _].
  { split; [|done]. rewrite R3, R2. apply Hok. }
  destruct (retryParked cf world _ s3) as [r s4]. simpl in Hr. destruct Hr as (_ & F4 & P4 & Q4).
  specialize (F3 Hne). destruct r; simpl; (split; [congruence|split; [congruence|split; [congruence|]]]);
    [|done]. intros w [= <-]. by split.
Qed.

Lemma passive_deletion_stays_local_witness :
  let i := Demo.cookie ".google.com" "SID" in
  let s := (perform Demo.cf Demo.world (OpApplyRemote
     [Demo.wire (Demo.plain ".google.com" "SID" "v") (mkHlc 1700000000009 0 "y") None WRITE])
     Demo.start).2 in
  let o := localChange Demo.cf Demo.world i None true "explicit" false s in
  publishes o.2 = publishes s ∧ queue o.2 = queue s ∧ fences o.2 = fences s
  ∧ ∀ w, o.1 = Some (Some w) → DELETION_CAUSES (w_cause w) = true ∧ w_cause w ≠ EXPLICIT_DELETE.
Proof.
  intros i s. apply (passive_deletion_stays_local Demo.cf Demo.world i None "explicit" s).
  - apply (reachable_ok Demo.cf Demo.world "mac").
    apply reachable_step, reachable_new.
  - vm_compute. reflexivity.
  - intros g t Hg. vm_compute in Hg. discriminate Hg.
Defined.

(** What one device publishes, another can read.  The record a local
    write returns, delivered to a peer with the space's keys whose registry
    knows the writer's public key, passes verification, opens, binds to its
    ids, and becomes the peer's winner with exactly the identity and
    attributes that were written. *)
Theorem local_change_reaches_peer {W : WebCrypto} {L : WebCryptoLaws W}
    (cfA cfB : EngineConfig) (worldA worldB : World) reg i a c e sA w sA' sB :
  localChange cfA worldA i (Some a) false c e sA = (Some (Some w), sA') →
  cf_keys cfB = cf_keys cfA → cf_spaceId cfB = cf_spaceId cfA →
  (∀ n, bytes_ok (wd_iv worldA n) ∧ length (wd_iv worldA n) = GCM_IV_BYTES) →
  cf_verifier cfB = Some (verify reg) →
  map_get (clockDevice (clock sA)) (dr_keys reg)
    = Some (ed25519_public (rs_privateKey (cf_signer cfA))) →
  (∀ t, wd_applyOk worldB t = true) → fresh_for (w_recordId w) sB →
  ∃ st, getRecord (applyRemote cfB worldB [w] sB).2 (w_recordId w) = Some st
    ∧ sr_plain st = mkPlain i (Some a) false ∧ sr_wire st = w.
Proof.
  intros Hl Hk Hsp Hiv Hver Hreg Hok Hf.
  destruct (localChange_wire cfA worldA i (Some a) false c e sA w sA' Hl)
    as (iv & t & hlc & parent & cause & Hw & -> & Hdev & Hi & Hcause).
  destruct (Hiv t) as [Hiv1 Hiv2]. specialize (Hcause eq_refl).
  assert (w_cause w = cause) as Hwc by by rewrite Hw.
  assert (deliverable cfB w (mkPlain i (Some a) false)) as Hd.
  { split; [rewrite Hwc; by destruct Hcause as [-> | ->]|].
    split; [rewrite Hw; simpl; congruence|]. rewrite Hk. rewrite Hw.
    split; [unfold verified; rewrite Hver; apply verify_built; by rewrite Hdev|].
    split; [by apply openRecord_built|apply identityBound_built]. }
  destruct (lww_applyRemote cfB worldB (w_recordId w) (λ _, mkPlain i (Some a) false) [w] [w] [] sB Hok)
    as [_ Hs].
  - left. intros r ->%list_elem_of_singleton. rewrite Hwc. by destruct Hcause as [-> | ->].
  - intros r ->%list_elem_of_singleton. done.
  - set_solver.
  - done.
  - by apply fresh_lww_state.
  - apply ls_current in Hs. unfold getRecord.
    destruct (map_get (w_recordId w) _) as [st|]; [|done].
    destruct Hs as ([Hin _] & _ & _ & Hp). exists st. split; [done|]. split; [done|].
    by apply list_elem_of_singleton in Hin.
Qed.

Lemma local_change_reaches_peer_witness :
  let i := Demo.cookie ".github.com" "sid" in
  let o := localChange Demo.cf Demo.world i (Some (Demo.attrs "v")) false "inserted" false Demo.start in
  let reg := addDevice (W := ToyCrypto) "mac" [9] (newRegistry udp_reject) in
  let peer := mkConfig ToyCrypto "space" Demo.keys (mkSigner (W := ToyCrypto) "phone" [8]) SEED_CORPUS
    TOMBSTONE_RETENTION_MS ORIGIN_LEASE_TTL_MS DEFAULT_ECHO_TTL_MS (Some (verify reg)) None in
  ∃ w st, o.1 = Some (Some w)
    ∧ getRecord (applyRemote peer Demo.world [w] (newEngine "phone")).2 (w_recordId w) = Some st
    ∧ sr_plain st = mkPlain i (Some (Demo.attrs "v")) false ∧ sr_wire st = w.
Proof.
  intros i o reg peer.
  assert (match o.1 with Some (Some _) => true | _ => false end = true) as Hsome
    by (vm_compute; reflexivity).
  destruct o.1 as [[w|]|] eqn:Hw; [|discriminate Hsome..]. exists w.
  destruct (local_change_reaches_peer Demo.cf peer Demo.world Demo.world reg i (Demo.attrs "v")
    "inserted" false Demo.start w o.2 (newEngine "phone")) as (st & H1 & H2 & H3);
    [rewrite <- Hw; apply surjective_pairing|reflexivity|reflexivity| |reflexivity
    |vm_compute; reflexivity|reflexivity|repeat split|].
  - intros n. split; [|reflexivity]. pose proof (Z.mod_pos_bound (Z.of_nat n) 256 ltac:(lia)).
    simpl. repeat (apply List.Forall_cons; [done|]). constructor.
  - exists st. split; [reflexivity|]. split; [exact H1|]. split; [exact H2|exact H3].
Defined.

(** The offline queue is flushed completely and in order.  While offline
    nothing is flushed; once online, a flush publishes the newest queued
    mutation of every cookie, one per batch, oldest first, and leaves the queue
    empty, whether or not the leases it asks for are granted. *)
Theorem flushPending_in_order {W : WebCrypto} (cf : EngineConfig) (world : World) s :
  (online s = false → flushPending cf world s = (Some (), s))
  ∧ (online s = true →
     (∀ w, w ∈ mq_items (queue s) →
        DELETION_CAUSES (w_cause w) = true ∨ is_Some (openRecord (cf_keys cf) w)) →
     let o := flushPending cf world s in
     o.1 = Some () ∧ mq_items (queue o.2) = [] ∧ queueDepth o.2 = 0%nat ∧ draining o.2 = false
     ∧ publishes o.2 = publishes s ++ map (λ w, [w]) (peek (queue s))).
Proof.
  unfold flushPending, mbind, exn_bind, gets. split; intros Hon; rewrite Hon; [done|].
  intros Hw. cbn [negb]. unfold runDrainQueue, mbind, exn_bind, modify, finally, exec. simpl.
  match goal with |- context [forM ?l _ ?s0] =>
    destruct (drain_all_run cf world l s0) as (us & s' & E & P & Q & O) end; [done| |].
  { intros w Hin. apply elem_of_sortByHlc, compacted_newest in Hin as [Hin _]. by apply Hw. }
  rewrite E. unfold queueDepth. simpl. rewrite Q. do 4 (split; [done|]).
  unfold publishes in *. simpl in *. by rewrite P.
Qed.

(** Tombstone collection.  Exactly the records whose deletion was
    accepted before the retention cutoff are dropped, together with their
    fence, tombstone, ancestry and parked write; every other record and all
    that is known about it stays, live cookies in particular. *)
Theorem gcTombstones_retention {W : WebCrypto} (cf : EngineConfig) (world : World) s :
  engine_ok cf world s →
  let cutoff := wd_now world (tick s) - cf_tombstoneRetentionMs cf in
  let o := gcTombstones cf world s in
  o.1 = Some (Z.of_nat (length (List.filter (λ '(_, r), collectable cutoff r) (records s))))
  ∧ ∀ k, match map_get k (records s) with
         | Some r =>
             if collectable cutoff r
             then DELETION_CAUSES (sr_cause r) = true ∧ fresh_for k o.2
             else map_get k (records o.2) = Some r ∧ map_get k (fences o.2) = map_get k (fences s)
               ∧ map_get k (latestTombstones o.2) = map_get k (latestTombstones s)
               ∧ map_get k (ancestry o.2) = map_get k (ancestry s)
               ∧ map_get k (parked o.2) = map_get k (parked s)
         | None => map_get k (records o.2) = None
         end.
Proof.
  intros Hok cutoff o. unfold o, gcTombstones, mbind, exn_bind, nowFn, gets, modify. simpl.
  fold cutoff. set (f := λ '(_, r), collectable cutoff r). split; [done|]. intros k.
  pose proof (forget_all (List.filter f (records s)) (ticked s) k) as Hfg.
  destruct Hok as [[Hwf Hrec] _ _ _ _ _ _ _].
  assert (k ∈ map fst (List.filter f (records s)) ↔
    ∃ r, map_get k (records s) = Some r ∧ collectable cutoff r = true) as Hin.
  { rewrite list_elem_of_fmap. split.
    - intros ([k' r] & -> & [Hin Hc]%In_filter_iff). exists r. split; [by apply map_In_get|done].
    - intros (r & Hr & Hc). exists (k, r). split; [done|].
      apply In_filter_iff. split; [by apply map_get_In|done]. }
  destruct (map_get k (records s)) as [r|] eqn:Er.
  - destruct (collectable cutoff r) eqn:Ec.
    + split; [|apply Hfg, Hin; eauto].
      destruct (Hrec _ _ Er) as (_ & _ & _ & _ & _ & _ & _ & Hst & _). apply Hst.
      unfold collectable in Ec. destruct (sr_tombstonedAtMs r); [by eexists|done].
    + destruct Hfg as [_ Hfg]. rewrite <- Er. apply Hfg. intros (r' & Hr' & Hc')%Hin. congruence.
  - destruct Hfg as [_ Hfg]. destruct Hfg as (-> & _); [|done].
    intros (r' & Hr' & _)%Hin. congruence.
Qed.

Lemma gcTombstones_retention_witness :
  let op1 := OpApplyRemote [Demo.wire (Demo.gone ".github.com" "sid") (mkHlc 1700000000009 0 "y") None EXPIRED] in
  let s := (perform Demo.cf Demo.world op1 Demo.start).2 in
  let later := mkWorld (λ n, 1800000000000) (wd_iv Demo.world) (λ _, true) (λ _, true) in
  (gcTombstones Demo.cf Demo.world s).1 = Some 0 ∧ (gcTombstones Demo.cf later s).1 = Some 1
  ∧ fresh_for (Demo.rid ".github.com" "sid") (gcTombstones Demo.cf later s).2.
Proof.
  intros op1 s later.
  assert (engine_ok Demo.cf later s) as Hok.
  { destruct (reachable_ok Demo.cf Demo.world "mac" s) as [H1 H2 H3 H4 H5 H6 H7 H8];
      [apply reachable_step, reachable_new|].
    refine (mkEngineOk _ _ s H1 H2 H3 H4 H5 H6 _ H8). split; [apply H7|].
    intros k v Hk. vm_compute in Hk. discriminate Hk. }
  split; [vm_compute; reflexivity|]. split; [vm_compute; reflexivity|].
  destruct (gcTombstones_retention Demo.cf later s Hok) as [_ H].
  specialize (H (Demo.rid ".github.com" "sid")).
  assert (match map_get (Demo.rid ".github.com" "sid") (records s) with
          | Some r => collectable (wd_now later (tick s) - cf_tombstoneRetentionMs Demo.cf) r
          | None => false end = true) as Hc by (vm_compute; reflexivity).
  destruct (map_get (Demo.rid ".github.com" "sid") (records s)) as [r|]; [|discriminate Hc].
  rewrite Hc in H. apply H.
Defined.

(** What reissuing the records that [f] selects leaves under a key. *)
Lemma reissue_selected {W : WebCrypto} (cf : EngineConfig) f tomb s s1 k :
  map_ok (stored_ok cf) (records s) →
  let live := List.filter f (map_values (records s)) in
  (∀ r, r ∈ live → rid_of cf (tomb r) = sr_recordId r) →
  (∀ r, r ∈ live → plain_at (rid_of cf (tomb r)) s1 = Some (tomb r)) →
  (∀ k, k ∉ map sr_recordId live → plain_at k s1 = plain_at k s) →
  plain_at k s1 = (λ r, if f r then tomb r else sr_plain r) <$> map_get k (records s).
Proof.
  intros Hok live Hrid A1 B1. destruct (stored_values cf _ Hok) as [_ Hval]. destruct Hok as [Hwf Hm].
  assert (∀ r', r' ∈ live → sr_recordId r' = k → map_get k (records s) = Some r' ∧ f r' = true) as Hl.
  { intros r' [Hin Hf]%In_filter_iff <-. by destruct (Hval r' Hin). }
  destruct (map_get k (records s)) as [r|] eqn:Er; cbn [fmap option_fmap option_map].
  - destruct (Hm _ _ Er) as [Hk _]. destruct (f r) eqn:Ef.
    + assert (r ∈ live) as Hr by (apply In_filter_iff; split; [apply map_values_get; eauto|done]).
      rewrite <- (A1 r Hr), Hrid, Hk by done. done.
    + rewrite B1; [unfold plain_at; by rewrite Er|].
      intros (r' & Hk' & Hr')%list_elem_of_fmap. destruct (Hl r' Hr' (eq_sym Hk')) as [[= ->] Hf]. congruence.
  - rewrite B1; [unfold plain_at; by rewrite Er|].
    intros (r' & Hk' & Hr')%list_elem_of_fmap. by destruct (Hl r' Hr' (eq_sym Hk')).
Qed.

(** Rollback restores the last known good state of an origin.  After
    rolling back to a snapshot taken earlier, every cookie of the snapshot holds
    the payload it had then, every other cookie of the origin is deleted, and
    the cookies of other origins are untouched. *)
Theorem rollbackOrigin_restores {W : WebCrypto} (cf : EngineConfig) (world world' : World)
    origin s0 s snapshot s0' :
  engine_ok cf world' s0 → engine_ok cf world s →
  snapshotOrigin cf world' origin s0 = (Some snapshot, s0') →
  (∀ t, wd_applyOk world t = true) →
  ∃ ws s', rollbackOrigin cf world origin snapshot s = (Some ws, s')
    ∧ ∀ k,
      match map_get k (records s0) with
      | Some r0 => sr_originId r0 = origin → plain_at k s' = Some (sr_plain r0)
      | None => True
      end
      ∧ ((∀ r0, map_get k (records s0) = Some r0 → sr_originId r0 ≠ origin) →
         match map_get k (records s) with
         | Some r =>
             if decide (sr_originId r = origin)
             then ∃ p, plain_at k s' = Some p ∧ cp_deleted p = true
             else plain_at k s' = Some (sr_plain r)
         | None => plain_at k s' = None
         end).
Proof.
  intros [Hrec0 _ _ _ _ _ _ _] [Hrec _ _ _ _ _ _ _] Hsn Hok.
  unfold snapshotOrigin, mbind, exn_bind, gets, nowFn in Hsn. cbn [fst snd mret exn_ret] in Hsn.
  injection Hsn as <- _. unfold rollbackOrigin, mbind, exn_bind, gets. cbn [os_records].
  set (snap := List.filter _ (map_values (records s0))).
  set (live := List.filter _ (map_values (records s))).
  destruct (stored_values cf _ Hrec) as [Hnd Hval], (stored_values cf _ Hrec0) as [Hnd0 Hval0].
  set (tomb := λ r, mkPlain (cp_identity (sr_plain r)) None true).
  assert (∀ r, r ∈ live → rid_of cf (tomb r) = sr_recordId r) as Hlive
    by (intros r [Hr _]%In_filter_iff; by destruct (Hval r Hr)).
  assert (∀ r, r ∈ snap → rid_of cf (sr_plain r) = sr_recordId r) as Hsnap
    by (intros r [Hr _]%In_filter_iff; by destruct (Hval0 r Hr)).
  assert (map (rid_of cf ∘ tomb) live = map sr_recordId live) as El
    by (apply map_ext_in; intros r Hr%list_elem_of_In; by apply Hlive).
  assert (map (rid_of cf ∘ sr_plain) snap = map sr_recordId snap) as Es
    by (apply map_ext_in; intros r Hr%list_elem_of_In; by apply Hsnap).
  destruct (reissue_all cf world Hok live tomb (λ _, EXPLICIT_DELETE) s) as (ws1 & s1 & E1 & A1 & B1).
  { rewrite El. by apply NoDup_map_filter. }
  destruct (reissue_all cf world Hok snap sr_plain
    (λ r, if cp_deleted (sr_plain r) then EXPLICIT_DELETE else WRITE) s1) as (ws2 & s2 & E2 & A2 & B2).
  { rewrite Es. by apply NoDup_map_filter. }
  rewrite El in B1. rewrite Es in B2. unfold tomb in E1. rewrite E1, E2.
  exists (ws1 ++ ws2), s2. split; [done|]. intros k. split.
  - destruct (map_get k (records s0)) as [r0|] eqn:Er0; [|done]. intros Ho.
    assert (r0 ∈ snap) as Hin.
    { apply In_filter_iff. rewrite Ho, String.eqb_refl. split; [|done].
      apply map_values_get; [by destruct Hrec0|eauto]. }
    rewrite <- (A2 r0 Hin), (Hsnap r0 Hin). f_equal. destruct Hrec0 as [_ Hm0]. by destruct (Hm0 _ _ Er0).
  - intros Hno. assert (k ∉ map sr_recordId snap) as Hks.
    { intros (r0 & -> & [Hin Ho]%In_filter_iff)%list_elem_of_fmap.
      destruct (Hval0 r0 Hin) as [Hg _]. apply String.eqb_eq in Ho. by apply (Hno r0). }
    rewrite (B2 k Hks), (reissue_selected cf _ tomb s s1 k Hrec Hlive A1 B1).
    destruct (map_get k (records s)) as [r|] eqn:Er; [|done]. cbn [fmap option_fmap option_map].
    assert (sr_recordId r ∉ map sr_recordId snap) as Hks'
      by (destruct Hrec as [_ Hm]; by destruct (Hm _ _ Er) as [-> _]).
    rewrite (bool_decide_false _ Hks'), orb_false_r.
    destruct (decide (sr_originId r = origin)) as [->|Ho].
    + rewrite String.eqb_refl. cbn [andb]. destruct (cp_deleted (sr_plain r)) eqn:Ed; eauto.
    + apply String.eqb_neq in Ho. by rewrite Ho.
Qed.

Lemma rollbackOrigin_restores_witness :
  let i := Demo.cookie ".github.com" "sid" in
  let op := OpLocalChange i (Some (Demo.attrs "good")) false "inserted" false in
  let op' := OpLocalChange i (Some (Demo.attrs "bad")) false "inserted" false in
  let s0 := (perform Demo.cf Demo.world op Demo.start).2 in
  let s := (perform Demo.cf Demo.world op' s0).2 in
  let origin := computeOriginIdHex (W := ToyCrypto) (idKey Demo.keys) "space" ".github.com" in
  let snapshot := mkSnapshot "space" origin (wd_now Demo.world (tick s0))
    (List.filter (λ r, String.eqb (sr_originId r) origin) (map_values (records s0))) in
  ∃ ws s', rollbackOrigin Demo.cf Demo.world origin snapshot s = (Some ws, s')
    ∧ ∀ k r0, map_get k (records s0) = Some r0 → sr_originId r0 = origin →
        plain_at k s' = Some (sr_plain r0).
Proof.
  intros i op op' s0 s origin snapshot.
  destruct (rollbackOrigin_restores Demo.cf Demo.world Demo.world origin s0 s snapshot (ticked s0))
    as (ws & s' & E & H).
  - apply (reachable_ok Demo.cf Demo.world "mac"). apply reachable_step, reachable_new.
  - apply (reachable_ok Demo.cf Demo.world "mac"). apply reachable_step, reachable_step, reachable_new.
  - reflexivity.
  - done.
  - exists ws, s'. split; [exact E|]. intros k r0 Hr0. destruct (H k) as [H1 _]. by rewrite Hr0 in H1.
Defined.
