(* ===== verification/Hosts.v ===== *)
(** * Host names and URLs

    What the egress and download policies share: dotted quads, IPv6 literal
    prefixes, the suffix match of hosts, and parsed URLs.  The regular
    expressions of the sources are written as the functions they denote.  URL
    parsing is the platform's: [UrlParser] is the parameter for [new URL]. *)

From S2P Require Export Cookie.
From Stdlib Require Import Ascii.

(** ** Character classes *)

Definition is_digit (c : ascii) : bool := (48 <=? code c) && (code c <=? 57).

(** [[0-9a-f]]. *)
Definition is_hex_lower (c : ascii) : bool := is_digit c || ((97 <=? code c) && (code c <=? 102)).

Definition all_of (f : ascii → bool) (s : string) : bool := forallb f (chars s).

(** [^\d{1,3}$]. *)
Definition is_octet_text (s : string) : bool :=
  all_of is_digit s && (1 <=? String.length s)%nat && (String.length s <=? 3)%nat.

(** [Number(s)] of a run of digits. *)
Definition digits_value (s : string) : Z := default 0 (parse_run 10 dec_value s None).

(** [^(\d{1,3})\.(\d{1,3})\.(\d{1,3})\.(\d{1,3})$] with its four numbers. *)
Definition dotted_quad (h : string) : option (Z * Z * Z * Z) :=
  match split_char "." h with
  | [a; b; c; d] =>
      if is_octet_text a && is_octet_text b && is_octet_text c && is_octet_text d
      then Some (digits_value a, digits_value b, digits_value c, digits_value d)
      else None
  | _ => None
  end.

(** [h.replace(/^\[|\]$/g, "")]. *)
Definition strip_brackets (h : string) : string :=
  let h := if startsWith h "[" then slice_from 1 h else h in
  if endsWith h "]" then slice_to (String.length h - 1) h else h.

(** [^f[cd][0-9a-f]{2}:] and [^fe[89ab][0-9a-f]:]. *)
Definition unique_local_prefix (h : string) : bool :=
  match chars h with
  | f :: c :: x :: y :: k :: _ =>
      Ascii.eqb f "f" && (Ascii.eqb c "c" || Ascii.eqb c "d")
      && is_hex_lower x && is_hex_lower y && Ascii.eqb k ":"
  | _ => false
  end.
Definition link_local_prefix (h : string) : bool :=
  match chars h with
  | f :: e :: a :: x :: k :: _ =>
      Ascii.eqb f "f" && Ascii.eqb e "e"
      && (Ascii.eqb a "8" || Ascii.eqb a "9" || Ascii.eqb a "a" || Ascii.eqb a "b")
      && is_hex_lower x && Ascii.eqb k ":"
  | _ => false
  end.

(** ** Suffix match of hosts *)

Definition hostMatches (host suffix : string) : bool :=
  let h := normalizedHost host in
  let s := normalizedHost suffix in
  String.eqb h s || endsWith h ("." +:+ s).

(** ** URLs *)

Record URL := mkURL {
  url_protocol : string;
  url_username : string;
  url_password : string;
  url_hostname : string;
  url_pathname : string;
  url_searchParams : list (string * string);
  url_origin : string
}.

(** [new URL(text)]; [None] is the thrown [TypeError]. *)
Class UrlParser := parse_url : string → option URL.

(** ** Lemmas *)

(** [h] is [s] or a subdomain of it. *)
Definition covers (s h : string) : Prop := h = s ∨ ∃ sub, h = sub +:+ "." +:+ s.

Lemma hostMatches_covers host suffix :
  hostMatches host suffix = true ↔ covers (normalizedHost suffix) (normalizedHost host).
Proof.
  unfold hostMatches, covers. rewrite orb_true_iff, String.eqb_eq, endsWith_iff. done.
Qed.

Lemma covers_trans a b c : covers a b → covers b c → covers a c.
Proof.
  intros [->|[x ->]] [->|[y ->]]; [by left|right; eauto|right; eauto|]. right.
  exists (y +:+ "." +:+ x). by rewrite !sapp_assoc.
Qed.

Lemma existsb_hostMatches host ds :
  existsb (hostMatches host) ds = true
  ↔ ∃ d, d ∈ ds ∧ covers (normalizedHost d) (normalizedHost host).
Proof.
  rewrite existsb_exists. split; intros (d & Hd & Hm); exists d; rewrite <- list_elem_of_In in *;
    by rewrite ?hostMatches_covers, <- ?hostMatches_covers in *.
Qed.

Lemma includes_char_false c s : includes_char c s = false ↔ all_chars (λ d, d ≠ c) s.
Proof.
  unfold includes_char, all_chars. induction s as [|d s IH]; simpl; [by split; [constructor|]|].
  destruct (Ascii.eqb_spec c d) as [->|Hne].
  - split; [done|]. by intros [? _]%Forall_cons.
  - rewrite Forall_cons. destruct (indexOf_char c s); simpl in *; rewrite <- IH; naive_solver.
Qed.

(** A dotted quad has no colon: it is not an IPv6 literal. *)
Lemma split_char_chars c s x : x ∈ chars s → x = c ∨ ∃ p, p ∈ split_char c s ∧ x ∈ chars p.
Proof.
  induction s as [|d s IH]; simpl; [set_solver|].
  destruct (Ascii.eqb_spec c d) as [->|Hne].
  - intros [->|Hx]%elem_of_cons; [by left|]. destruct (IH Hx) as [?|(p & Hp & ?)]; [by left|].
    right. exists p. split; [by right|done].
  - intros Hx. destruct (split_char c s) as [|p ps].
    + apply elem_of_cons in Hx as [->|Hx]; [|destruct (IH Hx) as [?|(p & ?%not_elem_of_nil & _)]; [by left|done]].
      right. exists (String d ""). set_solver.
    + apply elem_of_cons in Hx as [->|Hx].
      * right. exists (String d p). split; [left|]. simpl. left.
      * destruct (IH Hx) as [?|(q & [->|Hq]%elem_of_cons & Hxq)]; [by left|right|right].
        -- exists (String d p). split; [left|]. simpl. by right.
        -- exists q. split; [by right|done].
Qed.

Lemma dotted_quad_no_colon h q : dotted_quad h = Some q → includes_char ":" h = false.
Proof.
  unfold dotted_quad. intros Hq. apply includes_char_false, Forall_forall. intros x Hx ->.
  destruct (split_char_chars "." h ":" Hx) as [?|(p & Hp & Hxp)]; [done|].
  assert (is_octet_text p = true) as Ho.
  { destruct (split_char "." h) as [|a [|b [|c [|d [|? ?]]]]]; try done.
    destruct (is_octet_text a) eqn:?; [|done]. destruct (is_octet_text b) eqn:?; [|done].
    destruct (is_octet_text c) eqn:?; [|done]. destruct (is_octet_text d) eqn:?; [|done].
    repeat (apply elem_of_cons in Hp as [->|Hp]; [done|]). by apply not_elem_of_nil in Hp. }
  unfold is_octet_text, all_of in Ho. bprop.
  match goal with H : forallb _ _ = true |- _ => rewrite forallb_forall in H;
    specialize (H ":"%char (proj1 (list_elem_of_In _ _) Hxp)) end. done.
Qed.
