(* ===== verification/GatewayCookie.v ===== *)
(** * Cookies of the gateway jar

    The wire shapes of packages/protocol/src/gateway.ts and the pure rules of
    services/sessionhub/src/gateway-core.ts: host classes, domain, path and
    prefix matching, [SameSite], and the serialised [Set-Cookie] line.  The
    public-suffix list ([tldts]), the [Set-Cookie] parser ([cookie]) and
    SHA-256 are parameters ([GatewayPlatform]).  Times are rationals, because
    an expiration date is a number of seconds with a fraction. *)

From S2P Require Export Hosts Json.
From Stdlib Require Import Ascii QArith.
#[local] Open Scope Z_scope.

(** ** Header values *)

(** [encodeGatewayHeaderValue]: URL-safe base64 without padding. *)
Definition url_safe_char (c : ascii) : ascii :=
  if Ascii.eqb c "+" then "-" else if Ascii.eqb c "/" then "_" else c.
Definition url_unsafe_char (c : ascii) : ascii :=
  if Ascii.eqb c "-" then "+" else if Ascii.eqb c "_" then "/" else c.
Definition map_chars (f : ascii → ascii) (s : string) : string := of_chars (map f (chars s)).

(** [s.replace(/=+$/g, "")] and the like: drop the characters [c] at the end,
    or at the start. *)
Fixpoint drop_char (c : ascii) (l : list ascii) : list ascii :=
  match l with
  | d :: l' => if Ascii.eqb d c then drop_char c l' else l
  | [] => []
  end.
Definition strip_leading (c : ascii) (s : string) : string := of_chars (drop_char c (chars s)).
Definition strip_trailing (c : ascii) (s : string) : string :=
  of_chars (rev (drop_char c (rev (chars s)))).

Definition encodeGatewayHeaderValue (value : string) : string :=
  strip_trailing "=" (map_chars url_safe_char (btoa (utf8 value))).

(** [None] when [atob] throws, and for bytes beyond the strings of the model. *)
Definition decodeGatewayHeaderValue (value : string) : option string :=
  let base64 := map_chars url_unsafe_char value in
  let pad := ((4 - String.length base64 mod 4) mod 4)%nat in
  atob (base64 +:+ repeat_char "=" pad) ≫= fromUtf8.

(** ** Cookies *)

Inductive GatewaySameSite := ss_unspecified | ss_no_restriction | ss_lax | ss_strict.

#[export] Instance GatewaySameSite_eq_dec : EqDecision GatewaySameSite.
Proof. solve_decision. Defined.

Record GatewayCookieSnapshot := mkSnapshot {
  gs_name : string;
  gs_value : string;
  gs_domain : string;
  gs_hostOnly : bool;
  gs_path : string;
  gs_secure : bool;
  gs_httpOnly : bool;
  gs_session : bool;
  gs_expirationDate : option Q;
  gs_sameSite : GatewaySameSite;
  gs_partitionKey : option string
}.

Record StoredGatewayCookie := mkCookie {
  gc_name : string;
  gc_value : string;
  gc_domain : string;
  gc_hostOnly : bool;
  gc_path : string;
  gc_secure : bool;
  gc_httpOnly : bool;
  gc_session : bool;
  gc_sameSite : GatewaySameSite;
  gc_partitionKey : option string;
  gc_createdAtMs : Z;
  gc_expiresAtMs : option Q
}.

Record GatewayCookieMutation := mkMutation { gm_cookie : GatewayCookieSnapshot; gm_removed : bool }.

Definition snapshot (c : StoredGatewayCookie) : GatewayCookieSnapshot :=
  mkSnapshot (gc_name c) (gc_value c) (gc_domain c) (gc_hostOnly c) (gc_path c) (gc_secure c)
    (gc_httpOnly c) (gc_session c)
    (option_map (λ ms, Qdiv ms (inject_Z 1000)) (gc_expiresAtMs c))
    (gc_sameSite c) (gc_partitionKey c).

(** ** Third-party code *)

(** The result of [parseSetCookie]. *)
Inductive SetSameSite := sc_none | sc_lax | sc_strict | sc_true | sc_absent.
Record SetCookie := mkSetCookie {
  sc_name : string;
  sc_value : option string;
  sc_domain : option string;
  sc_path : option string;
  sc_expires : option Z;
  sc_maxAge : option Z;
  sc_secure : bool;
  sc_httpOnly : bool;
  sc_partitioned : bool;
  sc_sameSite : SetSameSite
}.

Class GatewayPlatform := {
  (** [cookie.parseSetCookie]; [None] when it throws. *)
  parseSetCookie : string → option SetCookie;
  (** [tldts.getDomain] with private suffixes: the registrable domain. *)
  getDomain : string → option string;
  sha256 : bytes → bytes
}.

(** ** Hosts *)

Definition canonicalHostname (hostname : string) : string :=
  strip_trailing "." (strip_leading "." (toLowerCase hostname)).

Definition ipv4_octets (host : string) : option (Z * Z * Z * Z) :=
  match dotted_quad host with
  | Some (a, b, c, d) =>
      if (a <=? 255) && (b <=? 255) && (c <=? 255) && (d <=? 255) then Some (a, b, c, d) else None
  | None => None
  end.

Definition isIpv4 (host : string) : bool := bool_decide (is_Some (ipv4_octets host)).

Definition isPrivateIpv4 (host : string) : bool :=
  match ipv4_octets host with
  | Some (a, b, _, _) =>
      (a =? 0) || (a =? 10) || (a =? 127)
      || ((a =? 169) && (b =? 254))
      || ((a =? 172) && (16 <=? b) && (b <=? 31))
      || ((a =? 192) && (b =? 168))
      || ((a =? 100) && (64 <=? b) && (b <=? 127))
      || ((a =? 198) && ((b =? 18) || (b =? 19)))
      || (224 <=? a)
  | None => false
  end.

(** [^[0-9a-f]{1,4}$] with the [i] flag. *)
Definition is_hex_word (s : string) : bool :=
  all_of (λ c, is_hex_lower (lower_char c)) s && (1 <=? String.length s)%nat
  && (String.length s <=? 4)%nat.

Definition quad_text (a b c d : Z) : string :=
  toString10 a +:+ "." +:+ toString10 b +:+ "." +:+ toString10 c +:+ "." +:+ toString10 d.

Definition mappedIpv4 (v6 : string) : option string :=
  if negb (startsWith v6 "::ffff:") then None
  else
    let tail := slice_from 7 v6 in
    if isIpv4 tail then Some tail
    else match split_char ":" tail with
         | [h; l] =>
             if is_hex_word h && is_hex_word l then
               let high := default 0 (parseInt16 h) in
               let low := default 0 (parseInt16 l) in
               Some (quad_text (Z.shiftr high 8) (Z.land high 255) (Z.shiftr low 8) (Z.land low 255))
             else None
         | _ => None
         end.

(** [^fe[89ab]]. *)
Definition link_local_start (h : string) : bool :=
  startsWith h "fe8" || startsWith h "fe9" || startsWith h "fea" || startsWith h "feb".

Definition isPrivateTarget (url : URL) : bool :=
  let host := canonicalHostname (url_hostname url) in
  if String.eqb host "localhost" || endsWith host ".localhost" || isPrivateIpv4 host then true
  else
    let v6 := if startsWith host "[" then slice_from 1 host else host in
    let v6 := if endsWith v6 "]" then slice_to (String.length v6 - 1) v6 else v6 in
    match mappedIpv4 v6 with Some m => isPrivateIpv4 m | None => false end
    || String.eqb v6 "::" || String.eqb v6 "::1"
    || startsWith v6 "fc" || startsWith v6 "fd" || link_local_start v6.

Definition domainMatches (host domain : string) : bool :=
  String.eqb host domain || endsWith host ("." +:+ domain).

Section Platform.
Context `{P : GatewayPlatform}.

Definition isPublicSuffix (domain : string) : bool :=
  if String.eqb domain "localhost" || isIpv4 domain || includes_char ":" domain then false
  else match getDomain domain with None => true | Some _ => false end.

Definition schemefulSite (url : URL) : string :=
  let host := canonicalHostname (url_hostname url) in
  url_protocol url +:+ "//" +:+ default host (getDomain host).
End Platform.

(** ** Paths *)

Definition defaultCookiePath (pathname : string) : string :=
  if negb (startsWith pathname "/") || String.eqb pathname "/" then "/"
  else match lastIndexOf_char "/" pathname with
       | None | Some O => "/"
       | Some n => slice 0 n pathname
       end.

Definition char_at (n : nat) (s : string) : string := slice n (S n) s.

Definition pathMatches (requestPath cookiePath : string) : bool :=
  if String.eqb requestPath cookiePath then true
  else if negb (startsWith requestPath cookiePath) then false
  else endsWith cookiePath "/" || String.eqb (char_at (String.length cookiePath) requestPath) "/".

(** ** Attributes *)

Definition sameSiteFor (c : SetCookie) : GatewaySameSite :=
  match sc_sameSite c with
  | sc_none => ss_no_restriction
  | sc_lax => ss_lax
  | sc_strict | sc_true => ss_strict
  | sc_absent => ss_unspecified
  end.

Definition validCookiePrefix (name : string) (secure hostOnly : bool) (path : string) : bool :=
  if startsWith name "__Secure-" && negb secure then false
  else if startsWith name "__Host-" && (negb secure || negb hostOnly || negb (String.eqb path "/"))
  then false
  else true.

Definition encodedCookieBytes (name value : string) : Z :=
  Z.of_nat (length (utf8 (name +:+ "=" +:+ value))).

(** ** [Date.prototype.toUTCString] *)

(** Year, month and day of a day number since 1970 (proleptic Gregorian). *)
Definition civil_from_days (days : Z) : Z * Z * Z :=
  let z := days + 719468 in
  let era := z / 146097 in
  let doe := z mod 146097 in
  let yoe := (doe - doe / 1460 + doe / 36524 - doe / 146096) / 365 in
  let doy := doe - (365 * yoe + yoe / 4 - yoe / 100) in
  let mp := (5 * doy + 2) / 153 in
  let d := doy - (153 * mp + 2) / 5 + 1 in
  let m := if mp <? 10 then mp + 3 else mp - 9 in
  let y := yoe + era * 400 + (if m <=? 2 then 1 else 0) in
  (y, m, d).

Definition DAY_NAMES := ["Thu"; "Fri"; "Sat"; "Sun"; "Mon"; "Tue"; "Wed"].
Definition MONTH_NAMES :=
  ["Jan"; "Feb"; "Mar"; "Apr"; "May"; "Jun"; "Jul"; "Aug"; "Sep"; "Oct"; "Nov"; "Dec"].

Definition two (n : Z) : string := padStart 2 "0" (toString10 n).

Definition toUTCString (ms : Q) : string :=
  let t := Z.quot (Qnum ms) (Z.pos (Qden ms)) in
  if 8640000000000000 <? Z.abs t then "Invalid Date"
  else
    let days := t / 86400000 in
    let sec := (t mod 86400000) / 1000 in
    let '(y, m, d) := civil_from_days days in
    nth (Z.to_nat (days mod 7)) DAY_NAMES "" +:+ ", " +:+ two d +:+ " "
    +:+ nth (Z.to_nat (m - 1)) MONTH_NAMES "" +:+ " "
    +:+ (if y <? 0 then "-" else "") +:+ padStart 4 "0" (toString10 (Z.abs y))
    +:+ " " +:+ two (sec / 3600) +:+ ":" +:+ two (sec / 60 mod 60) +:+ ":" +:+ two (sec mod 60)
    +:+ " GMT".

Example utc_epoch : toUTCString (inject_Z 0) = "Thu, 01 Jan 1970 00:00:00 GMT".
Proof. reflexivity. Qed.
Example utc_leap : toUTCString (inject_Z 1709210096789) = "Thu, 29 Feb 2024 12:34:56 GMT".
Proof. reflexivity. Qed.

Definition serializeCookie (c : StoredGatewayCookie) : string :=
  str_join "; "
    ([gc_name c +:+ "=" +:+ gc_value c; "Path=" +:+ gc_path c]
     ++ (if negb (gc_hostOnly c) then ["Domain=" +:+ gc_domain c] else [])
     ++ match gc_expiresAtMs c with Some ms => ["Expires=" +:+ toUTCString ms] | None => [] end
     ++ (if gc_secure c then ["Secure"] else [])
     ++ (if gc_httpOnly c then ["HttpOnly"] else [])
     ++ match gc_sameSite c with
        | ss_no_restriction => ["SameSite=None"]
        | ss_lax => ["SameSite=Lax"]
        | ss_strict => ["SameSite=Strict"]
        | ss_unspecified => []
        end
     ++ match gc_partitionKey c with Some _ => ["Partitioned"] | None => [] end).
