(* ===== verification/Transport.v ===== *)
(** * The websocket transport (apps/desktop/src/main/sync/transport.ts)

    [WsTransport] as a machine over events: the calls of the sync service and
    what the platform reports (tokens, sockets, frames, timers).  A method runs
    to its end before the next event; its callbacks, frames and settled promises
    are appended to the trace [tr_out].  Sockets and unanswered token requests
    are part of the state because the platform remembers them. *)

From S2P Require Export Messages.
From Stdlib Require Import Ascii.

(** ** Dialing *)

Inductive TransportState := connecting | connected | offline.
Inductive DialDecision := dial | dial_tokenless | await_auth.

#[export] Instance TransportState_eq_dec : EqDecision TransportState.
Proof. solve_decision. Defined.

Definition decideDial (token : option string) (authRequired : bool) : DialDecision :=
  if match token with Some t => negb (String.eqb t "") | None => false end then dial
  else if authRequired then await_auth else dial_tokenless.

Definition INITIAL_BACKOFF_MS : Z := 1000.
Definition MAX_BACKOFF_MS : Z := 30000.
Definition LEASE_TIMEOUT_MS : Z := 5000.
Definition PUBLISH_ACK_TIMEOUT_MS : Z := 10000.
Definition AUTH_WAIT_RETRY_MS : Z := MAX_BACKOFF_MS.

(** ** State *)

(** [readyState] of a socket that is not closed. *)
Inductive ReadyState := rs_connecting | rs_open | rs_closing.

#[export] Instance ReadyState_eq_dec : EqDecision ReadyState.
Proof. solve_decision. Defined.

(** Callbacks, platform calls and settled promises. *)
Inductive Output :=
| OStateChanged (st : TransportState)
| ORecords (spaceId : string) (records : list CookieRecordWire)
| OHydrated (spaceId : string)
| OConverged
| OPublishRejected (rejections : list PublishRejection)
| OPublishInterrupted (recordIds : list string)
| OPresence (devices : list DevicePresence)
| OLeaseRevoked (spaceId originId : string)
| OWorkspaceRecords (docs : list WorkspaceRecordWire)
| OWorkspaceHydrated
| OAskToken (seq : nat)
| OOpen (sid : nat) (url : string)
| OClose (sid : nat)
| OSend (sid : nat) (msg : ClientMessage)
| OFlushed (id : nat) (confirmed : bool)
| OLeaseAnswer (id : nat) (granted : bool).

Record WsTransport := mkTransport {
  tr_state : TransportState;
  tr_socket : option nat;
  tr_backoffMs : Z;
  tr_spaceIds : list string;
  tr_stopped : bool;
  tr_connectSeq : nat;
  tr_reconnectTimer : option Z;
  tr_pendingLeases : jsmap string nat;
  tr_pendingCookiePublishes : list string;
  tr_rejectedCookiePublishes : list string;
  tr_cookieFlushWaiters : list nat;
  tr_presenceCache : jsmap string DevicePresence;
  tr_sockets : jsmap nat ReadyState;
  tr_dials : list nat;
  tr_next : nat;
  tr_out : list Output
}.

Definition set_state (x : TransportState) (s : WsTransport) : WsTransport :=
  mkTransport x (tr_socket s) (tr_backoffMs s) (tr_spaceIds s) (tr_stopped s)
    (tr_connectSeq s) (tr_reconnectTimer s) (tr_pendingLeases s) (tr_pendingCookiePublishes s)
    (tr_rejectedCookiePublishes s) (tr_cookieFlushWaiters s) (tr_presenceCache s)
    (tr_sockets s) (tr_dials s) (tr_next s) (tr_out s).
Definition set_socket (x : option nat) (s : WsTransport) : WsTransport :=
  mkTransport (tr_state s) x (tr_backoffMs s) (tr_spaceIds s) (tr_stopped s) (tr_connectSeq s)
    (tr_reconnectTimer s) (tr_pendingLeases s) (tr_pendingCookiePublishes s)
    (tr_rejectedCookiePublishes s) (tr_cookieFlushWaiters s) (tr_presenceCache s)
    (tr_sockets s) (tr_dials s) (tr_next s) (tr_out s).
Definition set_backoffMs (x : Z) (s : WsTransport) : WsTransport :=
  mkTransport (tr_state s) (tr_socket s) x (tr_spaceIds s) (tr_stopped s) (tr_connectSeq s)
    (tr_reconnectTimer s) (tr_pendingLeases s) (tr_pendingCookiePublishes s)
    (tr_rejectedCookiePublishes s) (tr_cookieFlushWaiters s) (tr_presenceCache s)
    (tr_sockets s) (tr_dials s) (tr_next s) (tr_out s).
Definition set_spaceIds (x : list string) (s : WsTransport) : WsTransport :=
  mkTransport (tr_state s) (tr_socket s) (tr_backoffMs s) x (tr_stopped s) (tr_connectSeq s)
    (tr_reconnectTimer s) (tr_pendingLeases s) (tr_pendingCookiePublishes s)
    (tr_rejectedCookiePublishes s) (tr_cookieFlushWaiters s) (tr_presenceCache s)
    (tr_sockets s) (tr_dials s) (tr_next s) (tr_out s).
Definition set_stopped (x : bool) (s : WsTransport) : WsTransport :=
  mkTransport (tr_state s) (tr_socket s) (tr_backoffMs s) (tr_spaceIds s) x (tr_connectSeq s)
    (tr_reconnectTimer s) (tr_pendingLeases s) (tr_pendingCookiePublishes s)
    (tr_rejectedCookiePublishes s) (tr_cookieFlushWaiters s) (tr_presenceCache s)
    (tr_sockets s) (tr_dials s) (tr_next s) (tr_out s).
Definition set_connectSeq (x : nat) (s : WsTransport) : WsTransport :=
  mkTransport (tr_state s) (tr_socket s) (tr_backoffMs s) (tr_spaceIds s) (tr_stopped s) x
    (tr_reconnectTimer s) (tr_pendingLeases s) (tr_pendingCookiePublishes s)
    (tr_rejectedCookiePublishes s) (tr_cookieFlushWaiters s) (tr_presenceCache s)
    (tr_sockets s) (tr_dials s) (tr_next s) (tr_out s).
Definition set_reconnectTimer (x : option Z) (s : WsTransport) : WsTransport :=
  mkTransport (tr_state s) (tr_socket s) (tr_backoffMs s) (tr_spaceIds s) (tr_stopped s)
    (tr_connectSeq s) x (tr_pendingLeases s) (tr_pendingCookiePublishes s)
    (tr_rejectedCookiePublishes s) (tr_cookieFlushWaiters s) (tr_presenceCache s)
    (tr_sockets s) (tr_dials s) (tr_next s) (tr_out s).
Definition set_pendingLeases (x : jsmap string nat) (s : WsTransport) : WsTransport :=
  mkTransport (tr_state s) (tr_socket s) (tr_backoffMs s) (tr_spaceIds s) (tr_stopped s)
    (tr_connectSeq s) (tr_reconnectTimer s) x (tr_pendingCookiePublishes s)
    (tr_rejectedCookiePublishes s) (tr_cookieFlushWaiters s) (tr_presenceCache s)
    (tr_sockets s) (tr_dials s) (tr_next s) (tr_out s).
Definition set_pendingCookiePublishes (x : list string) (s : WsTransport) : WsTransport :=
  mkTransport (tr_state s) (tr_socket s) (tr_backoffMs s) (tr_spaceIds s) (tr_stopped s)
    (tr_connectSeq s) (tr_reconnectTimer s) (tr_pendingLeases s) x
    (tr_rejectedCookiePublishes s) (tr_cookieFlushWaiters s) (tr_presenceCache s)
    (tr_sockets s) (tr_dials s) (tr_next s) (tr_out s).
Definition set_rejectedCookiePublishes (x : list string) (s : WsTransport) : WsTransport :=
  mkTransport (tr_state s) (tr_socket s) (tr_backoffMs s) (tr_spaceIds s) (tr_stopped s)
    (tr_connectSeq s) (tr_reconnectTimer s) (tr_pendingLeases s) (tr_pendingCookiePublishes s)
    x (tr_cookieFlushWaiters s) (tr_presenceCache s) (tr_sockets s) (tr_dials s) (tr_next s)
    (tr_out s).
Definition set_cookieFlushWaiters (x : list nat) (s : WsTransport) : WsTransport :=
  mkTransport (tr_state s) (tr_socket s) (tr_backoffMs s) (tr_spaceIds s) (tr_stopped s)
    (tr_connectSeq s) (tr_reconnectTimer s) (tr_pendingLeases s) (tr_pendingCookiePublishes s)
    (tr_rejectedCookiePublishes s) x (tr_presenceCache s) (tr_sockets s) (tr_dials s)
    (tr_next s) (tr_out s).
Definition set_presenceCache (x : jsmap string DevicePresence) (s : WsTransport) : WsTransport :=
  mkTransport (tr_state s) (tr_socket s) (tr_backoffMs s) (tr_spaceIds s) (tr_stopped s)
    (tr_connectSeq s) (tr_reconnectTimer s) (tr_pendingLeases s) (tr_pendingCookiePublishes s)
    (tr_rejectedCookiePublishes s) (tr_cookieFlushWaiters s) x (tr_sockets s) (tr_dials s)
    (tr_next s) (tr_out s).
Definition set_sockets (x : jsmap nat ReadyState) (s : WsTransport) : WsTransport :=
  mkTransport (tr_state s) (tr_socket s) (tr_backoffMs s) (tr_spaceIds s) (tr_stopped s)
    (tr_connectSeq s) (tr_reconnectTimer s) (tr_pendingLeases s) (tr_pendingCookiePublishes s)
    (tr_rejectedCookiePublishes s) (tr_cookieFlushWaiters s) (tr_presenceCache s) x
    (tr_dials s) (tr_next s) (tr_out s).
Definition set_dials (x : list nat) (s : WsTransport) : WsTransport :=
  mkTransport (tr_state s) (tr_socket s) (tr_backoffMs s) (tr_spaceIds s) (tr_stopped s)
    (tr_connectSeq s) (tr_reconnectTimer s) (tr_pendingLeases s) (tr_pendingCookiePublishes s)
    (tr_rejectedCookiePublishes s) (tr_cookieFlushWaiters s) (tr_presenceCache s)
    (tr_sockets s) x (tr_next s) (tr_out s).
Definition set_next (x : nat) (s : WsTransport) : WsTransport :=
  mkTransport (tr_state s) (tr_socket s) (tr_backoffMs s) (tr_spaceIds s) (tr_stopped s)
    (tr_connectSeq s) (tr_reconnectTimer s) (tr_pendingLeases s) (tr_pendingCookiePublishes s)
    (tr_rejectedCookiePublishes s) (tr_cookieFlushWaiters s) (tr_presenceCache s)
    (tr_sockets s) (tr_dials s) x (tr_out s).
Definition set_out (x : list Output) (s : WsTransport) : WsTransport :=
  mkTransport (tr_state s) (tr_socket s) (tr_backoffMs s) (tr_spaceIds s) (tr_stopped s)
    (tr_connectSeq s) (tr_reconnectTimer s) (tr_pendingLeases s) (tr_pendingCookiePublishes s)
    (tr_rejectedCookiePublishes s) (tr_cookieFlushWaiters s) (tr_presenceCache s)
    (tr_sockets s) (tr_dials s) (tr_next s) x.

Definition emit (o : Output) (s : WsTransport) : WsTransport := set_out (tr_out s ++ [o]) s.
Definition emit_all (os : list Output) (s : WsTransport) : WsTransport := set_out (tr_out s ++ os) s.

Definition newTransport : WsTransport :=
  mkTransport offline None INITIAL_BACKOFF_MS [] false 0 None jsmap_empty [] [] [] jsmap_empty
    jsmap_empty [] 0 [].

(** JavaScript sets in insertion order. *)
Definition set_add {A} `{EqDecision A} (x : A) (l : list A) : list A :=
  if bool_decide (x ∈ l) then l else l ++ [x].
Definition set_remove {A} `{EqDecision A} (x : A) (l : list A) : list A :=
  List.filter (λ y, negb (bool_decide (y = x))) l.

Section WsTransport.
Context (url deviceId : string) (hasWebSocket : bool).

(** ** Private helpers *)

Definition setState (st : TransportState) (s : WsTransport) : WsTransport :=
  if decide (tr_state s = st) then s else emit (OStateChanged st) (set_state st s).

Definition send (msg : ClientMessage) (s : WsTransport) : WsTransport :=
  match tr_socket s with
  | Some sid =>
      if bool_decide (map_get sid (tr_sockets s) = Some rs_open) then emit (OSend sid msg) s else s
  | None => s
  end.

(** [socket?.close()]. *)
Definition close_socket (socket : option nat) (s : WsTransport) : WsTransport :=
  match socket with
  | Some sid => emit (OClose sid) (set_sockets (map_set sid rs_closing (tr_sockets s)) s)
  | None => s
  end.

Definition failLeases (s : WsTransport) : WsTransport :=
  set_pendingLeases jsmap_empty
    (emit_all (map (λ id, OLeaseAnswer id false) (map_values (tr_pendingLeases s))) s).

Definition failCookieFlushes (s : WsTransport) : list string * WsTransport :=
  (tr_pendingCookiePublishes s,
   set_cookieFlushWaiters []
     (emit_all (map (λ w, OFlushed w false) (tr_cookieFlushWaiters s))
        (set_rejectedCookiePublishes [] (set_pendingCookiePublishes [] s)))).

Definition settleCookieFlushes (s : WsTransport) : WsTransport :=
  match tr_pendingCookiePublishes s with
  | _ :: _ => s
  | [] =>
      let confirmed := bool_decide (tr_rejectedCookiePublishes s = []) in
      set_cookieFlushWaiters []
        (emit_all (map (λ w, OFlushed w confirmed) (tr_cookieFlushWaiters s)) s)
  end.

Definition lease_key (spaceId originId : string) : string := spaceId +:+ ":" +:+ originId.

Definition resolveLease (spaceId originId : string) (granted : bool) (s : WsTransport) : WsTransport :=
  match map_get (lease_key spaceId originId) (tr_pendingLeases s) with
  | Some id =>
      emit (OLeaseAnswer id granted)
        (set_pendingLeases (map_delete (lease_key spaceId originId) (tr_pendingLeases s)) s)
  | None => s
  end.

Definition presence (now : Z) (s : WsTransport) : list DevicePresence :=
  map_values (map_set deviceId
    (mkPresence deviceId (bool_decide (tr_state s = connected)) now) (tr_presenceCache s)).

Definition cache_presence (devices : list DevicePresence) (s : WsTransport) : WsTransport :=
  set_presenceCache (fold_left (λ m d, map_set (dp_deviceId d) d m) devices (tr_presenceCache s)) s.

(** ** Connecting *)

Definition connect (s : WsTransport) : WsTransport :=
  if negb hasWebSocket then setState offline s
  else
    let s := setState connecting s in
    let seq := S (tr_connectSeq s) in
    emit (OAskToken seq) (set_dials (tr_dials s ++ [seq]) (set_connectSeq seq s)).

Definition scheduleAuthRetry (s : WsTransport) : WsTransport :=
  if tr_stopped s || bool_decide (is_Some (tr_reconnectTimer s)) then s
  else set_reconnectTimer (Some AUTH_WAIT_RETRY_MS) s.

Definition dial_url (token : string) : string :=
  url +:+ (if includes_char "?" url then "&" else "?") +:+ "access_token=" +:+ encodeURIComponent token.

(** [dial] from the answer of [getToken] on. *)
Definition dial_resume (seq : nat) (token : option string) (authRequired : bool) (s : WsTransport)
    : WsTransport :=
  let s := set_dials (set_remove seq (tr_dials s)) s in
  if tr_stopped s || negb (seq =? tr_connectSeq s)%nat then s
  else match decideDial token authRequired with
       | await_auth => scheduleAuthRetry (setState offline s)
       | decision =>
           let target := match decision, token with
                         | dial, Some t => dial_url t
                         | _, _ => url
                         end in
           let sid := tr_next s in
           let s := set_next (S sid) (set_sockets (map_set sid rs_connecting (tr_sockets s)) s) in
           emit (OOpen sid target) (set_socket (Some sid) s)
       end.

Definition report_interrupted (ids : list string) (s : WsTransport) : WsTransport :=
  match ids with [] => s | _ => emit (OPublishInterrupted ids) s end.

Definition scheduleReconnect (sid : nat) (s : WsTransport) : WsTransport :=
  if negb (bool_decide (tr_socket s = Some sid)) then s
  else
    let s := failLeases (set_socket None s) in
    let '(interrupted, s) := failCookieFlushes s in
    let s := report_interrupted interrupted (setState offline s) in
    if tr_stopped s then s
    else set_backoffMs (Z.min (tr_backoffMs s * 2) MAX_BACKOFF_MS)
           (set_reconnectTimer (Some (tr_backoffMs s)) s).

(** ** Frames *)

Definition ack_rejection (s : WsTransport) (r : PublishRejection) : WsTransport :=
  let id := pr_recordId r in
  let s := set_pendingCookiePublishes (set_remove id (tr_pendingCookiePublishes s)) s in
  match pr_reason r with
  | stale_rejection => set_rejectedCookiePublishes (set_remove id (tr_rejectedCookiePublishes s)) s
  | _ => set_rejectedCookiePublishes (set_add id (tr_rejectedCookiePublishes s)) s
  end.

Definition ack_accepted (s : WsTransport) (id : string) : WsTransport :=
  set_rejectedCookiePublishes (set_remove id (tr_rejectedCookiePublishes s))
    (set_pendingCookiePublishes (set_remove id (tr_pendingCookiePublishes s)) s).

Definition handleFrame (now : Z) (msg : option ServerMessage) (s : WsTransport) : WsTransport :=
  match msg with
  | Some (SHelloAck _ devices) =>
      let s := cache_presence devices (setState connected s) in
      let s := emit (OPresence (presence now s)) s in
      let s := fold_left (λ s spaceId, send (MHydrate spaceId None) s) (tr_spaceIds s) s in
      send (MWorkspaceHydrate None) s
  | Some (SRecords spaceId records) => emit (ORecords spaceId records) s
  | Some (SHydrateDone spaceId _ _) => emit OConverged (emit (OHydrated spaceId) s)
  | Some (SPublishAck accepted rejected) =>
      let s := fold_left ack_rejection rejected (fold_left ack_accepted accepted s) in
      let s := match rejected with [] => s | _ => emit (OPublishRejected rejected) s end in
      emit OConverged (settleCookieFlushes s)
  | Some (SLeaseGranted spaceId originId _ _) => resolveLease spaceId originId true s
  | Some (SLeaseDenied spaceId originId _ _) => resolveLease spaceId originId false s
  | Some (SLeaseRevoked spaceId originId _) => emit (OLeaseRevoked spaceId originId) s
  | Some (SWorkspaceRecords docs) => emit (OWorkspaceRecords docs) s
  | Some (SWorkspaceHydrateDone _) => emit OConverged (emit OWorkspaceHydrated s)
  | Some (SPresence devices) =>
      let s := cache_presence devices s in emit (OPresence (presence now s)) s
  | _ => s
  end.

(** ** The sync service's calls *)

Definition start (ids : list string) (s : WsTransport) : WsTransport :=
  connect (set_stopped false (set_spaceIds ids s)).

Definition stop (s : WsTransport) : WsTransport :=
  let s := failLeases (set_reconnectTimer None (set_stopped true s)) in
  let s := (failCookieFlushes s).2 in
  setState offline (set_socket None (close_socket (tr_socket s) s)).

Definition reconnect (s : WsTransport) : WsTransport :=
  if tr_stopped s then s
  else
    let socket := tr_socket s in
    let s := failLeases (set_socket None (set_reconnectTimer None s)) in
    let '(interrupted, s) := failCookieFlushes s in
    let s := report_interrupted interrupted (setState offline s) in
    connect (set_backoffMs INITIAL_BACKOFF_MS (close_socket socket s)).

Definition addSpace (spaceId : string) (s : WsTransport) : WsTransport :=
  if bool_decide (spaceId ∈ tr_spaceIds s) then s
  else
    let s := set_spaceIds (tr_spaceIds s ++ [spaceId]) s in
    if decide (tr_state s = connected) then reconnect s else s.

Definition publish_mark (s : WsTransport) (r : CookieRecordWire) : WsTransport :=
  set_rejectedCookiePublishes (set_remove (w_recordId r) (tr_rejectedCookiePublishes s))
    (set_pendingCookiePublishes (set_add (w_recordId r) (tr_pendingCookiePublishes s)) s).

Definition publish (records : list CookieRecordWire) (s : WsTransport) : WsTransport :=
  if decide (tr_state s = connected)
  then send (MPublish records) (fold_left publish_mark records s) else s.

(** The promise of [flushCookiePublishes] is named by a fresh number. *)
Definition flushCookiePublishes (s : WsTransport) : WsTransport :=
  let w := tr_next s in
  let s := set_next (S w) s in
  if decide (tr_state s = connected) then
    match tr_pendingCookiePublishes s with
    | [] => emit (OFlushed w (bool_decide (tr_rejectedCookiePublishes s = []))) s
    | _ => set_cookieFlushWaiters (tr_cookieFlushWaiters s ++ [w]) s
    end
  else emit (OFlushed w false) s.

Definition publishWorkspace (docs : list WorkspaceRecordWire) (s : WsTransport) : WsTransport :=
  if bool_decide (tr_state s ≠ connected) || (length docs =? 0)%nat then s
  else send (MWorkspacePublish docs) s.

(** A lease request that is already pending shares its promise. *)
Definition acquireLease (spaceId originId : string) (force : option bool)
    (candidate : option (string * Hlc)) (s : WsTransport) : WsTransport :=
  if decide (tr_state s = connected) then
    match map_get (lease_key spaceId originId) (tr_pendingLeases s) with
    | Some _ => s
    | None =>
        let id := tr_next s in
        let s := set_pendingLeases (map_set (lease_key spaceId originId) id (tr_pendingLeases s))
                   (set_next (S id) s) in
        send (if bool_decide (force = Some true)
              then MLeaseAcquire spaceId originId (Some true) (option_map fst candidate)
                     (option_map snd candidate) None
              else MLeaseAcquire spaceId originId None None None None) s
    end
  else emit (OLeaseAnswer (tr_next s) false) (set_next (S (tr_next s)) s).

Definition releaseLease (spaceId originId : string) (s : WsTransport) : WsTransport :=
  if decide (tr_state s = connected) then send (MLeaseRelease spaceId originId) s else s.

(** ** Platform callbacks *)

Definition socket_opened (sid : nat) (s : WsTransport) : WsTransport :=
  let s := set_sockets (map_set sid rs_open (tr_sockets s)) s in
  send (MHello deviceId (tr_spaceIds s)) (set_backoffMs INITIAL_BACKOFF_MS s).

Definition socket_closed (sid : nat) (s : WsTransport) : WsTransport :=
  scheduleReconnect sid (set_sockets (map_delete sid (tr_sockets s)) s).

Definition reconnect_timer (s : WsTransport) : WsTransport :=
  connect (set_reconnectTimer None s).

Definition flush_timer (w : nat) (s : WsTransport) : WsTransport :=
  emit (OFlushed w false) (set_cookieFlushWaiters (set_remove w (tr_cookieFlushWaiters s)) s).

Definition lease_timer (id : nat) (s : WsTransport) : WsTransport :=
  emit (OLeaseAnswer id false)
    (set_pendingLeases (List.filter (λ '(_, i), negb (i =? id)%nat) (tr_pendingLeases s)) s).

(** ** The machine *)

Inductive Event :=
| EStart (ids : list string)
| EAddSpace (spaceId : string)
| EStop
| EReconnect
| EPublish (records : list CookieRecordWire)
| EFlush
| EPublishWorkspace (docs : list WorkspaceRecordWire)
| EAcquireLease (spaceId originId : string) (force : option bool) (candidate : option (string * Hlc))
| EReleaseLease (spaceId originId : string)
| EToken (seq : nat) (token : option string) (authRequired : bool)
| ESocketOpen (sid : nat)
| EFrame (sid : nat) (now : Z) (msg : option ServerMessage)
| ESocketClosed (sid : nat)
| EReconnectTimer
| EFlushTimer (w : nat)
| ELeaseTimer (id : nat).

(** When an event can happen: the service starts the transport only from rest,
    and the platform reports on what exists. *)
Definition enabled (e : Event) (s : WsTransport) : bool :=
  match e with
  | EStart _ => bool_decide (tr_socket s = None) && bool_decide (tr_reconnectTimer s = None)
  | EToken seq _ _ => bool_decide (seq ∈ tr_dials s)
  | ESocketOpen sid => bool_decide (map_get sid (tr_sockets s) = Some rs_connecting)
  | EFrame sid _ _ => bool_decide (map_get sid (tr_sockets s) = Some rs_open)
  | ESocketClosed sid => bool_decide (is_Some (map_get sid (tr_sockets s)))
  | EReconnectTimer => bool_decide (is_Some (tr_reconnectTimer s))
  | EFlushTimer w => bool_decide (w ∈ tr_cookieFlushWaiters s)
  | ELeaseTimer id => bool_decide (id ∈ map_values (tr_pendingLeases s))
  | _ => true
  end.

Definition handle (e : Event) (s : WsTransport) : WsTransport :=
  match e with
  | EStart ids => start ids s
  | EAddSpace spaceId => addSpace spaceId s
  | EStop => stop s
  | EReconnect => reconnect s
  | EPublish records => publish records s
  | EFlush => flushCookiePublishes s
  | EPublishWorkspace docs => publishWorkspace docs s
  | EAcquireLease spaceId originId force candidate => acquireLease spaceId originId force candidate s
  | EReleaseLease spaceId originId => releaseLease spaceId originId s
  | EToken seq token authRequired => dial_resume seq token authRequired s
  | ESocketOpen sid => socket_opened sid s
  | EFrame _ now msg => handleFrame now msg s
  | ESocketClosed sid => socket_closed sid s
  | EReconnectTimer => reconnect_timer s
  | EFlushTimer w => flush_timer w s
  | ELeaseTimer id => lease_timer id s
  end.

Definition step (e : Event) (s : WsTransport) : WsTransport :=
  if enabled e s then handle e s else s.

(** The state after a history, newest event first. *)
Fixpoint state_of (h : list Event) : WsTransport :=
  match h with [] => newTransport | e :: h => step e (state_of h) end.
End WsTransport.
