(* ===== verification/TransportProps.v ===== *)
(** * The websocket transport: lemmas

    Every helper as an update of the state's fields, and the invariant of the
    connection: who drives the next attempt, which sockets are live, when
    promises can be pending. *)

From S2P Require Export Transport.
From Stdlib Require Import Ascii.

(** ** Helpers as field updates *)

Definition state_change (st : TransportState) (s : WsTransport) : list Output :=
  if decide (tr_state s = st) then [] else [OStateChanged st].

Lemma setState_eq st s : setState st s = emit_all (state_change st s) (set_state st s).
Proof.
  unfold setState, state_change. destruct (decide _) as [<-|]; [|done].
  destruct s. unfold emit_all, set_out, set_state. simpl. by rewrite app_nil_r.
Qed.

Definition sends (msg : ClientMessage) (s : WsTransport) : list Output :=
  match tr_socket s with
  | Some sid => if bool_decide (map_get sid (tr_sockets s) = Some rs_open) then [OSend sid msg] else []
  | None => []
  end.

Lemma emit_all_nil s : emit_all [] s = s.
Proof. destruct s. unfold emit_all, set_out. simpl. by rewrite app_nil_r. Qed.

Lemma send_eq msg s : send msg s = emit_all (sends msg s) s.
Proof.
  unfold send, sends. destruct (tr_socket s); [|by rewrite emit_all_nil].
  case_bool_decide; [done|by rewrite emit_all_nil].
Qed.

Lemma report_interrupted_eq ids s :
  report_interrupted ids s
  = emit_all (match ids with [] => [] | _ => [OPublishInterrupted ids] end) s.
Proof. destruct ids; [by rewrite emit_all_nil|done]. Qed.

Definition hydrate_frames (s : WsTransport) : list Output :=
  concat (map (λ sp, sends (MHydrate sp None) s) (tr_spaceIds s)).

Lemma hydrate_fold ids s :
  fold_left (λ s spaceId, send (MHydrate spaceId None) s) ids s
  = emit_all (concat (map (λ sp, sends (MHydrate sp None) s) ids)) s.
Proof.
  cut (∀ os, fold_left (λ s spaceId, send (MHydrate spaceId None) s) ids (emit_all os s)
    = emit_all (os ++ concat (map (λ sp, sends (MHydrate sp None) s) ids)) s).
  { intros H. specialize (H []). by rewrite emit_all_nil in H. }
  induction ids as [|sp ids IH]; intros os; simpl; [by rewrite app_nil_r|].
  rewrite send_eq. change (sends _ (emit_all os s)) with (sends (MHydrate sp None) s).
  assert (emit_all (sends (MHydrate sp None) s) (emit_all os s)
    = emit_all (os ++ sends (MHydrate sp None) s) s) as ->.
  { destruct s. unfold emit_all, set_out. simpl. by rewrite app_assoc. }
  by rewrite IH, app_assoc.
Qed.

(** A publish acknowledgment changes the two sets only. *)
Definition with_sets (p r : list string) (s : WsTransport) : WsTransport :=
  set_rejectedCookiePublishes r (set_pendingCookiePublishes p s).

Lemma with_sets_id s : with_sets (tr_pendingCookiePublishes s) (tr_rejectedCookiePublishes s) s = s.
Proof. by destruct s. Qed.

Definition accept_sets (acc : list string * list string) (id : string) : list string * list string :=
  (set_remove id acc.1, set_remove id acc.2).
Definition reject_sets (acc : list string * list string) (r : PublishRejection)
    : list string * list string :=
  (set_remove (pr_recordId r) acc.1,
   match pr_reason r with
   | stale_rejection => set_remove (pr_recordId r) acc.2
   | _ => set_add (pr_recordId r) acc.2
   end).
Definition mark_sets (acc : list string * list string) (r : CookieRecordWire)
    : list string * list string :=
  (set_add (w_recordId r) acc.1, set_remove (w_recordId r) acc.2).

Definition sets_of (s : WsTransport) : list string * list string :=
  (tr_pendingCookiePublishes s, tr_rejectedCookiePublishes s).

Lemma fold_sets {A} (f : WsTransport → A → WsTransport) (g : list string * list string → A → _) l s :
  (∀ p r s a, f (with_sets p r s) a = with_sets (g (p, r) a).1 (g (p, r) a).2 s) →
  fold_left f l s = with_sets (fold_left g l (sets_of s)).1 (fold_left g l (sets_of s)).2 s.
Proof.
  intros Hf. rewrite <- (with_sets_id s) at 1. unfold sets_of.
  generalize (tr_pendingCookiePublishes s), (tr_rejectedCookiePublishes s).
  induction l as [|a l IH]; intros p r; simpl; [done|].
  rewrite Hf, IH. by rewrite <- surjective_pairing.
Qed.

Lemma ack_accepted_fold l s :
  fold_left ack_accepted l s
  = with_sets (fold_left accept_sets l (sets_of s)).1 (fold_left accept_sets l (sets_of s)).2 s.
Proof. apply fold_sets. done. Qed.

Lemma ack_rejection_fold l s :
  fold_left ack_rejection l s
  = with_sets (fold_left reject_sets l (sets_of s)).1 (fold_left reject_sets l (sets_of s)).2 s.
Proof. apply fold_sets. intros p r s' a. unfold ack_rejection, reject_sets. by destruct (pr_reason a). Qed.

Lemma publish_mark_fold l s :
  fold_left publish_mark l s
  = with_sets (fold_left mark_sets l (sets_of s)).1 (fold_left mark_sets l (sets_of s)).2 s.
Proof. apply fold_sets. done. Qed.

Lemma set_add_in {A} `{EqDecision A} (x y : A) l : y ∈ set_add x l ↔ y = x ∨ y ∈ l.
Proof. unfold set_add. case_bool_decide; rewrite ?elem_of_snoc; naive_solver. Qed.

Lemma set_remove_in {A} `{EqDecision A} (x y : A) l : y ∈ set_remove x l ↔ y ≠ x ∧ y ∈ l.
Proof.
  unfold set_remove. rewrite In_filter_iff, negb_true_iff, bool_decide_eq_false. tauto.
Qed.

(** ** The invariant of the connection *)

Section Connection.
Context (url deviceId : string) (hasWebSocket : bool).

(** Someone will make the next connection attempt, or one is under way. *)
Definition driven (s : WsTransport) : Prop :=
  is_Some (tr_socket s) ∨ tr_connectSeq s ∈ tr_dials s ∨ is_Some (tr_reconnectTimer s).

Record conn_ok (s : WsTransport) : Prop := {
  (** The current socket is connecting or open, every other one is closing. *)
  ok_socket sid : tr_socket s = Some sid →
    ∃ r, map_get sid (tr_sockets s) = Some r ∧ r ≠ rs_closing;
  ok_others sid r : map_get sid (tr_sockets s) = Some r → r ≠ rs_closing → tr_socket s = Some sid;
  ok_fresh sid : is_Some (map_get sid (tr_sockets s)) → (sid < tr_next s)%nat;
  (** Connected means the current socket is open. *)
  ok_connected : tr_state s = connected →
    ∃ sid, tr_socket s = Some sid ∧ map_get sid (tr_sockets s) = Some rs_open;
  (** Nothing waits on a connection that is not there. *)
  ok_idle : tr_state s ≠ connected →
    tr_pendingCookiePublishes s = [] ∧ tr_cookieFlushWaiters s = [] ∧ tr_pendingLeases s = [];
  ok_stopped : tr_stopped s = true → tr_socket s = None ∧ tr_reconnectTimer s = None;
  (** One driver at a time, and always one while the transport is started. *)
  ok_one_socket : is_Some (tr_socket s) →
    tr_reconnectTimer s = None ∧ tr_connectSeq s ∉ tr_dials s;
  ok_one_timer : is_Some (tr_reconnectTimer s) → tr_connectSeq s ∉ tr_dials s;
  ok_driven : hasWebSocket = true → tr_stopped s = false → (0 < tr_connectSeq s)%nat → driven s;
  ok_dials seq : seq ∈ tr_dials s → (seq <= tr_connectSeq s)%nat;
  ok_backoff : INITIAL_BACKOFF_MS <= tr_backoffMs s <= MAX_BACKOFF_MS
}.

Lemma conn_ok_new : conn_ok newTransport.
Proof.
  split; simpl; try done; try (by intros ? [? ?]); try (by intros [? ?]);
    try (unfold INITIAL_BACKOFF_MS, MAX_BACKOFF_MS); try lia.
  all: by intros ? ?%not_elem_of_nil.
Qed.

(** Output and the rejected set are outside the invariant. *)
Lemma conn_ok_emit os s : conn_ok s → conn_ok (emit_all os s).
Proof. by destruct 1; split. Qed.
Lemma conn_ok_rejected r s : conn_ok s → conn_ok (set_rejectedCookiePublishes r s).
Proof. by destruct 1; split. Qed.
Lemma conn_ok_presence c s : conn_ok s → conn_ok (set_presenceCache c s).
Proof. by destruct 1; split. Qed.
Lemma conn_ok_spaces l s : conn_ok s → conn_ok (set_spaceIds l s).
Proof. by destruct 1; split. Qed.

Lemma conn_ok_next n s : (tr_next s <= n)%nat → conn_ok s → conn_ok (set_next n s).
Proof. intros Hn []; split; try done. intros sid H. simpl. eapply Nat.lt_le_trans; eauto. Qed.

(** What waits on the connection changes freely while connected, and may
    always be emptied. *)
Definition with_waits (p : list string) (w : list nat) (l : jsmap string nat) (s : WsTransport) :=
  set_pendingCookiePublishes p (set_cookieFlushWaiters w (set_pendingLeases l s)).

Lemma conn_ok_waits p w l s :
  (tr_state s ≠ connected → p = [] ∧ w = [] ∧ l = []) → conn_ok s → conn_ok (with_waits p w l s).
Proof. intros Hc []; split; try done. Qed.

(** After the attempt in progress is given up: nothing waits, no driver. *)
Record at_rest (s : WsTransport) : Prop := {
  ar_socket : tr_socket s = None;
  ar_timer : tr_reconnectTimer s = None;
  ar_others sid r : map_get sid (tr_sockets s) = Some r → r = rs_closing;
  ar_fresh sid : is_Some (map_get sid (tr_sockets s)) → (sid < tr_next s)%nat;
  ar_idle : tr_pendingCookiePublishes s = [] ∧ tr_cookieFlushWaiters s = [] ∧ tr_pendingLeases s = [];
  ar_dials seq : seq ∈ tr_dials s → (seq <= tr_connectSeq s)%nat;
  ar_backoff : INITIAL_BACKOFF_MS <= tr_backoffMs s <= MAX_BACKOFF_MS
}.

Lemma conn_ok_connect s : at_rest s → tr_state s ≠ connected → hasWebSocket = true →
  conn_ok (connect hasWebSocket s).
Proof.
  intros [] Hst Hws. unfold connect. rewrite Hws. cbn [negb]. rewrite setState_eq. split; simpl; try done.
  - congruence.
  - intros sid r Hr Hn. destruct Hn. eauto.
  - intros [? ?]. congruence.
  - intros [? ?]. congruence.
  - intros _ _ _. right; left. simpl. set_solver.
  - intros seq [?%ar_dials0| ->]%elem_of_snoc; lia.
Qed.

Lemma conn_ok_connect_none s : at_rest s → hasWebSocket = false → conn_ok (connect hasWebSocket s).
Proof.
  intros [] Hws. unfold connect. rewrite Hws. cbn [negb]. rewrite setState_eq. split; simpl; try done.
  - congruence.
  - intros sid r Hr Hn. destruct Hn. eauto.
  - intros [? ?]. congruence.
  - intros [? ?]. congruence.
  - by rewrite Hws.
Qed.

Lemma connect_ok s : at_rest s → tr_state s ≠ connected → conn_ok (connect hasWebSocket s).
Proof.
  intros Hr Hst. destruct hasWebSocket eqn:E.
  - rewrite <- E. by apply conn_ok_connect.
  - rewrite <- E. by apply conn_ok_connect_none.
Qed.
(** Giving up: leases and flushes fail, the socket is let go. *)
Lemma failCookieFlushes_eq s :
  failCookieFlushes s
  = (tr_pendingCookiePublishes s,
     emit_all (map (λ w, OFlushed w false) (tr_cookieFlushWaiters s))
       (set_rejectedCookiePublishes []
          (with_waits [] [] (tr_pendingLeases s) s))).
Proof. by destruct s. Qed.

Lemma failLeases_eq s :
  failLeases s
  = emit_all (map (λ id, OLeaseAnswer id false) (map_values (tr_pendingLeases s)))
      (with_waits (tr_pendingCookiePublishes s) (tr_cookieFlushWaiters s) [] s).
Proof. by destruct s. Qed.

Lemma stop_ok s : conn_ok s → conn_ok (stop s).
Proof.
  intros []. unfold stop. rewrite setState_eq, failLeases_eq, failCookieFlushes_eq. cbn [snd].
  unfold close_socket. cbn [tr_socket emit_all with_waits set_out set_rejectedCookiePublishes
    set_pendingCookiePublishes set_cookieFlushWaiters set_pendingLeases set_reconnectTimer set_stopped].
  destruct (tr_socket s) as [sid|] eqn:Es; split; simpl; try done; try (by intros [? ?]).
  - intros sid' r. rewrite map_get_set. case_decide; [by intros [= <-]|]. intros Hr Hn.
    by apply ok_others0 in Hr; [simplify_eq|].
  - intros sid'. rewrite map_get_set. case_decide; [|auto]. intros _. subst.
    destruct (ok_socket0 _ eq_refl) as (r & Hr & _). apply ok_fresh0. eauto.
Qed.

Lemma at_rest_reconnect s :
  conn_ok s → tr_stopped s = false →
  ∃ s', reconnect hasWebSocket s = connect hasWebSocket s' ∧ at_rest s' ∧ tr_state s' ≠ connected.
Proof.
  intros [] Hst. unfold reconnect. rewrite Hst, failLeases_eq, failCookieFlushes_eq.
  cbv iota. rewrite report_interrupted_eq, setState_eq. eexists. split; [reflexivity|].
  unfold close_socket. destruct (tr_socket s) as [sid|] eqn:Es.
  - split; [|simpl; done]. split; simpl; try done.
    + intros sid' r. rewrite map_get_set. case_decide; [by intros [= <-]|]. intros Hr.
      destruct (decide (r = rs_closing)) as [|Hn]; [done|]. by apply ok_others0 in Hr; [simplify_eq|].
    + intros sid'. rewrite map_get_set. case_decide; [|auto]. intros _. subst.
      destruct (ok_socket0 _ eq_refl) as (r & Hr & _). apply ok_fresh0. eauto.
  - split; [|simpl; done]. split; simpl; try done.
    intros sid r Hr. destruct (decide (r = rs_closing)) as [|Hn]; [done|]. by apply ok_others0 in Hr.
Qed.

Lemma reconnect_ok s : conn_ok s → conn_ok (reconnect hasWebSocket s).
Proof.
  intros Hok. destruct (tr_stopped s) eqn:Hst; [by unfold reconnect; rewrite Hst|].
  destruct (at_rest_reconnect s Hok Hst) as (s' & -> & Hr & Hn). by apply connect_ok.
Qed.

(** A state without a driver is at rest. *)
Lemma rest_of_ok s :
  conn_ok s → tr_socket s = None → tr_reconnectTimer s = None →
  at_rest s ∧ tr_state s ≠ connected.
Proof.
  intros [] Hs Ht. assert (tr_state s ≠ connected) as Hn.
  { intros Hc. destruct (ok_connected0 Hc) as (sid & ? & _). congruence. }
  split; [|done]. split; auto. intros sid r Hr.
  destruct (decide (r = rs_closing)) as [|Hc]; [done|]. apply ok_others0 in Hr; [congruence|done].
Qed.

Lemma at_rest_set_stopped b s : at_rest s → at_rest (set_stopped b s).
Proof. by destruct 1; split. Qed.
Lemma at_rest_set_spaces l s : at_rest s → at_rest (set_spaceIds l s).
Proof. by destruct 1; split. Qed.

Lemma reconnect_timer_ok s :
  conn_ok s → is_Some (tr_reconnectTimer s) →
  conn_ok (reconnect_timer hasWebSocket s).
Proof.
  intros Hok Ht. assert (tr_socket s = None) as Hs.
  { destruct (tr_socket s) as [sid|] eqn:E; [|done].
    destruct (ok_one_socket _ Hok) as [Hn _]; [rewrite E; eauto|]. rewrite Hn in Ht. by destruct Ht. }
  unfold reconnect_timer. destruct Hok. apply connect_ok.
  - split; simpl; auto.
    + intros sid r Hr. destruct (decide (r = rs_closing)) as [|Hc]; [done|].
      apply ok_others0 in Hr; [congruence|done].
    + apply ok_idle0. intros Hc. destruct (ok_connected0 Hc) as (sid & ? & _). congruence.
  - simpl. intros Hc. destruct (ok_connected0 Hc) as (sid & ? & _). congruence.
Qed.

Lemma dial_resume_ok seq token auth s :
  conn_ok s → seq ∈ tr_dials s → conn_ok (dial_resume url seq token auth s).
Proof.
  intros [] Hin. unfold dial_resume. cbv zeta.
  cbn [tr_stopped tr_connectSeq set_dials].
  destruct (tr_stopped s || negb (seq =? tr_connectSeq s)%nat) eqn:Hdrop.
  - split; simpl; try done.
    + intros Hs. destruct (ok_one_socket0 Hs) as [? Hn]. split; [done|].
      intros [_ ?]%set_remove_in. done.
    + intros Ht [_ Hn]%set_remove_in. by apply (ok_one_timer0 Ht).
    + intros Hws Hst Hseq. rewrite Hst in Hdrop. apply negb_true_iff, Nat.eqb_neq in Hdrop.
      destruct (ok_driven0 Hws Hst Hseq) as [?|[?|?]]; [by left|right; left|by right; right].
      simpl. apply set_remove_in. auto.
    + intros q [_ Hq]%set_remove_in. auto.
  - apply orb_false_iff in Hdrop as [Hst ->%negb_false_iff%Nat.eqb_eq].
    assert (tr_socket s = None) as Hs.
    { destruct (tr_socket s) eqn:E; [|done]. by destruct ok_one_socket0; [eauto|]. }
    assert (tr_reconnectTimer s = None) as Ht.
    { destruct (tr_reconnectTimer s) eqn:E; [|done]. by destruct ok_one_timer0; [eauto|]. }
    assert (tr_state s ≠ connected) as Hn.
    { intros Hc. destruct (ok_connected0 Hc) as (sid & ? & _). congruence. }
    assert (∀ q, q ∈ set_remove (tr_connectSeq s) (tr_dials s) →
      q ≠ tr_connectSeq s ∧ (q <= tr_connectSeq s)%nat) as Hq.
    { intros q [? Hq]%set_remove_in. auto. }
    assert (∀ sid, map_get sid (tr_sockets s) = None ∨ ∃ r, map_get sid (tr_sockets s) = Some r
      ∧ r = rs_closing ∧ (sid < tr_next s)%nat) as Hclosing.
    { intros sid. destruct (map_get sid (tr_sockets s)) as [r|] eqn:Hr; [right|by left].
      exists r. split; [done|]. destruct (decide (r = rs_closing)) as [|Hc]; [split; [done|]|].
      - apply ok_fresh0. eauto.
      - apply ok_others0 in Hr; [congruence|done]. }
    assert (∀ target, conn_ok (emit (OOpen (tr_next s) target) (set_socket (Some (tr_next s))
      (set_next (S (tr_next s)) (set_sockets (map_set (tr_next s) rs_connecting (tr_sockets s))
         (set_dials (set_remove (tr_connectSeq s) (tr_dials s)) s)))))) as Hopen.
    { intros target. split; simpl; try done.
      - intros sid [= <-]. exists rs_connecting. by rewrite map_get_set_eq.
      - intros sid r. rewrite map_get_set. case_decide; [by subst|]. intros Hr Hc.
        apply ok_others0 in Hr; [congruence|done].
      - intros sid. rewrite map_get_set. case_decide; [lia|]. intros H1. apply ok_fresh0 in H1. lia.
      - congruence.
      - intros _. split; [done|]. intros [? _]%Hq. done.
      - rewrite Ht. by intros [? ?].
      - intros _ _ _. left. simpl. eauto.
      - intros q [_ ?]%Hq. done. }
    destruct (decideDial token auth); [apply Hopen|apply Hopen|].
    unfold scheduleAuthRetry. rewrite setState_eq. simpl. rewrite Hst, Ht. simpl.
    split; simpl; try done.
    + intros _. auto.
    + congruence.
    + rewrite Hs. by intros [? ?].
    + intros _ [? _]%Hq. done.
    + intros _ _ _. right; right. simpl. eauto.
    + intros q [_ ?]%Hq. done.
Qed.

Lemma socket_opened_ok sid s :
  conn_ok s → map_get sid (tr_sockets s) = Some rs_connecting →
  conn_ok (socket_opened deviceId sid s).
Proof.
  intros [] Hsid. unfold socket_opened. rewrite send_eq. apply conn_ok_emit.
  assert (tr_socket s = Some sid) as Hs by (by eapply ok_others0).
  split; simpl; try done.
  - intros sid' [= <-]%(eq_trans (eq_sym Hs)). exists rs_open. by rewrite map_get_set_eq.
  - intros sid' r. rewrite map_get_set. case_decide; [by subst|]. apply ok_others0.
  - intros sid'. rewrite map_get_set. case_decide; [|auto]. intros _. subst. eauto.
  - intros Hc. destruct (ok_connected0 Hc) as (sid' & H1 & H2). exists sid'. split; [done|].
    rewrite map_get_set. by case_decide.
Qed.

Lemma scheduleReconnect_ok sid s :
  conn_ok s → is_Some (map_get sid (tr_sockets s)) → conn_ok (socket_closed sid s).
Proof.
  intros [] Hsid. unfold socket_closed, scheduleReconnect. cbn [tr_socket set_sockets].
  destruct (decide (tr_socket s = Some sid)) as [Hs|Hs].
  - rewrite bool_decide_true by done. cbn [negb].
    rewrite failLeases_eq, failCookieFlushes_eq. cbv iota. rewrite report_interrupted_eq, setState_eq.
    simpl. destruct (tr_stopped s) eqn:Hst.
    { destruct (ok_stopped0 eq_refl). congruence. }
    destruct ok_one_socket0 as [Ht Hn]; [rewrite Hs; eauto|].
    split; simpl; try done.
    + intros sid' r. rewrite map_get_delete. case_decide; [done|]. intros Hr Hc.
      apply ok_others0 in Hr; [congruence|done].
    + intros sid'. rewrite map_get_delete. case_decide; [by intros [? ?]|]. apply ok_fresh0.
    + congruence.
    + intros _ _ _. right; right. simpl. eauto.
    + unfold INITIAL_BACKOFF_MS, MAX_BACKOFF_MS in *. lia.
  - rewrite bool_decide_false by done. cbn [negb]. split; simpl; try done.
    + intros sid' H1. rewrite map_get_delete. case_decide; [congruence|]. by apply ok_socket0.
    + intros sid' r. rewrite map_get_delete. case_decide; [done|]. apply ok_others0.
    + intros sid'. rewrite map_get_delete. case_decide; [by intros [? ?]|]. apply ok_fresh0.
    + intros Hc. destruct (ok_connected0 Hc) as (sid' & H1 & H2). exists sid'. split; [done|].
      rewrite map_get_delete. case_decide; [congruence|done].
Qed.

Lemma handleFrame_ok sid now msg s :
  conn_ok s → map_get sid (tr_sockets s) = Some rs_open → conn_ok (handleFrame deviceId now msg s).
Proof.
  intros Hok Hsid. assert (tr_socket s = Some sid) as Hs by (by eapply ok_others).
  assert (∀ p r s', conn_ok s' → (tr_state s' ≠ connected → p = []) → conn_ok (with_sets p r s'))
    as Hsets.
  { intros p r s' [] Hp. split; try done. intros Hn. simpl. destruct (ok_idle0 Hn) as (_ & ? & ?). auto. }
  destruct msg as [[]|]; try done; unfold handleFrame; try (by repeat apply (conn_ok_emit [_])).
  - cbv zeta. rewrite send_eq, hydrate_fold, setState_eq. do 3 apply conn_ok_emit.
    apply conn_ok_presence. destruct Hok. split; simpl; try done. eauto.
  - cbv zeta. apply (conn_ok_emit [_]). rewrite ack_rejection_fold, ack_accepted_fold.
    set (acc := fold_left accept_sets accepted (sets_of s)).
    assert (tr_state s ≠ connected → acc.1 = []) as Hacc.
    { intros Hn. destruct (ok_idle _ Hok Hn) as (Hp & _). unfold acc.
      assert (∀ l a, a.1 = [] → (fold_left accept_sets l a).1 = []) as H1.
      { induction l as [|x l IH]; intros a Ha; [done|]. apply IH. unfold accept_sets. simpl. by rewrite Ha. }
      by apply H1. }
    change (sets_of (with_sets acc.1 acc.2 s)) with (acc.1, acc.2). rewrite <- surjective_pairing.
    set (rej := fold_left reject_sets rejected acc).
    assert (tr_state s ≠ connected → rej.1 = []) as Hrej.
    { intros Hn. unfold rej. specialize (Hacc Hn). revert Hacc. generalize acc as a.
      induction rejected as [|x l IH]; intros a Ha; [done|]. apply IH. unfold reject_sets. simpl.
      by rewrite Ha. }
    set (s1 := with_sets rej.1 rej.2 (with_sets acc.1 acc.2 s)).
    assert (conn_ok s1) as H1 by (apply Hsets; [by apply Hsets|done]).
    set (s2 := match rejected with [] => s1 | _ => _ end).
    assert (conn_ok s2) as H2 by (unfold s2; destruct rejected; [done|by apply (conn_ok_emit [_])]).
    unfold settleCookieFlushes. destruct (tr_pendingCookiePublishes s2) eqn:Hp; [|done].
    destruct H2. split; try done. simpl. intros Hn. destruct (ok_idle0 Hn) as (? & ? & ?). auto.
  - unfold resolveLease. destruct (map_get (lease_key _ _) _); [|done]. apply (conn_ok_emit [_]).
    destruct Hok. split; try done. simpl. intros Hn. destruct (ok_idle0 Hn) as (? & ? & ->). auto.
  - unfold resolveLease. destruct (map_get (lease_key _ _) _); [|done]. apply (conn_ok_emit [_]).
    destruct Hok. split; try done. simpl. intros Hn. destruct (ok_idle0 Hn) as (? & ? & ->). auto.
  - cbv zeta. by apply (conn_ok_emit [_]), conn_ok_presence.
Qed.

Lemma publish_ok records s : conn_ok s → conn_ok (publish records s).
Proof.
  intros Hok. unfold publish. destruct (decide _) as [Hc|]; [|done].
  rewrite send_eq, publish_mark_fold. apply conn_ok_emit. destruct Hok. split; try done.
Qed.

Lemma flush_ok s : conn_ok s → conn_ok (flushCookiePublishes s).
Proof.
  intros Hok. unfold flushCookiePublishes. cbv zeta. cbn [tr_state set_next].
  destruct (decide _) as [Hc|Hc]; [|apply (conn_ok_emit [_]), conn_ok_next; [lia|done]].
  destruct (tr_pendingCookiePublishes _); [apply (conn_ok_emit [_]), conn_ok_next; [lia|done]|].
  destruct (conn_ok_next (S (tr_next s)) s) as []; [lia|done|]. split; try done.
Qed.

Lemma acquireLease_ok sp o force cand s : conn_ok s → conn_ok (acquireLease sp o force cand s).
Proof.
  intros Hok. unfold acquireLease. destruct (decide _) as [Hc|Hc].
  2:{ apply (conn_ok_emit [_]), conn_ok_next; [lia|done]. }
  destruct (map_get _ _); [done|]. cbv zeta. rewrite send_eq. apply conn_ok_emit.
  destruct (conn_ok_next (S (tr_next s)) s) as []; [lia|done|]. split; try done.
Qed.

Lemma map_values_filter_nil {K V} (f : K * V → bool) : List.filter f (@nil (K * V)) = [].
Proof. done. Qed.

Lemma step_ok e s : conn_ok s → conn_ok (step url deviceId hasWebSocket e s).
Proof.
  intros Hok. unfold step. destruct (enabled e s) eqn:He; [|done].
  destruct e; simpl in He |- *; bprop.
  - destruct (rest_of_ok s Hok) as [Hr Hn]; [done|done|]. unfold start. apply connect_ok; [|done].
    by apply at_rest_set_stopped, at_rest_set_spaces.
  - unfold addSpace. case_bool_decide; [done|]. destruct (decide _); [apply reconnect_ok|];
      by apply conn_ok_spaces.
  - by apply stop_ok.
  - by apply reconnect_ok.
  - by apply publish_ok.
  - by apply flush_ok.
  - unfold publishWorkspace. destruct (_ || _); [done|]. rewrite send_eq. by apply conn_ok_emit.
  - by apply acquireLease_ok.
  - unfold releaseLease. destruct (decide _); [|done]. rewrite send_eq. by apply conn_ok_emit.
  - by apply dial_resume_ok.
  - by apply socket_opened_ok.
  - by eapply handleFrame_ok.
  - by apply scheduleReconnect_ok.
  - by apply reconnect_timer_ok.
  - unfold flush_timer. apply (conn_ok_emit [_]). destruct Hok. split; try done. simpl.
    intros Hn. destruct (ok_idle0 Hn) as (? & -> & ?). auto.
  - unfold lease_timer. apply (conn_ok_emit [_]). destruct Hok. split; try done. simpl.
    intros Hn. destruct (ok_idle0 Hn) as (? & ? & ->). auto.
Qed.

Lemma state_of_ok h : conn_ok (state_of url deviceId hasWebSocket h).
Proof. induction h as [|e h IH]; [apply conn_ok_new|by apply step_ok]. Qed.
End Connection.
