(* ===== verification/TransportSafety.v ===== *)
(** * What the websocket transport guarantees

    One driver for every connection attempt, recovery with a cooperative
    platform, promises that settle exactly once, and what a confirmed flush
    says about the published records. *)

From S2P Require Export TransportProps.
From Stdlib Require Import Ascii.

Section History.
Context (url deviceId : string) (hasWebSocket : bool).

#[local] Notation state_of := (state_of url deviceId hasWebSocket).
#[local] Notation step := (step url deviceId hasWebSocket).

(** ** The last word on a record *)

(** Sent and unanswered, durable at the hub (accepted, or [stale]: the hub has
    it or something newer), or refused. *)
Inductive Word := WSent | WConfirmed | WRefused.

#[export] Instance Word_eq_dec : EqDecision Word.
Proof. solve_decision. Defined.

Definition rejection_word (id : string) (w : option Word) (r : PublishRejection) : option Word :=
  if decide (pr_recordId r = id)
  then Some (match pr_reason r with stale_rejection => WConfirmed | _ => WRefused end) else w.

Definition ack_word (id : string) (accepted : list string) (rejected : list PublishRejection)
    (w : option Word) : option Word :=
  fold_left (rejection_word id) rejected (if decide (id ∈ accepted) then Some WConfirmed else w).

(** The last word on a record over the current connection, from the history
    (newest event first); [None] when it was not published on it. *)
Fixpoint word (id : string) (h : list Event) : option Word :=
  match h with
  | [] => None
  | e :: h' =>
      let s := state_of h' in
      if decide (tr_socket (step e s) = tr_socket s) then
        match e with
        | EPublish records =>
            if decide (tr_state s = connected ∧ id ∈ map w_recordId records) then Some WSent
            else word id h'
        | EFrame _ _ (Some (SPublishAck accepted rejected)) =>
            if enabled e s then ack_word id accepted rejected (word id h') else word id h'
        | _ => word id h'
        end
      else None
  end.

(** ** The two sets through a step *)

Definition next_sets (e : Event) (s : WsTransport) : list string * list string :=
  match e with
  | EPublish records =>
      if decide (tr_state s = connected) then fold_left mark_sets records (sets_of s) else sets_of s
  | EFrame _ _ (Some (SPublishAck accepted rejected)) =>
      if enabled e s
      then fold_left reject_sets rejected (fold_left accept_sets accepted (sets_of s)) else sets_of s
  | _ => sets_of s
  end.

Definition sets_ok (s : WsTransport) : Prop := tr_socket s = None → sets_of s = ([], []).

Lemma setState_sets st s : sets_of (setState st s) = sets_of s ∧ tr_socket (setState st s) = tr_socket s.
Proof. by rewrite setState_eq. Qed.

Lemma connect_sets s :
  sets_of (connect hasWebSocket s) = sets_of s ∧ tr_socket (connect hasWebSocket s) = tr_socket s.
Proof. unfold connect. destruct hasWebSocket; cbn [negb]; by rewrite setState_eq. Qed.

Lemma reconnect_sets s :
  tr_stopped s = false →
  sets_of (reconnect hasWebSocket s) = ([], []) ∧ tr_socket (reconnect hasWebSocket s) = None.
Proof.
  intros Hst. unfold reconnect. rewrite Hst, failLeases_eq, failCookieFlushes_eq. cbv iota zeta.
  rewrite report_interrupted_eq, setState_eq. unfold close_socket.
  destruct (connect_sets (set_backoffMs INITIAL_BACKOFF_MS s)) as [_ _].
  destruct (tr_socket s); by rewrite !(proj1 (connect_sets _)), !(proj2 (connect_sets _)).
Qed.

Lemma settle_sets s :
  sets_of (settleCookieFlushes s) = sets_of s ∧ tr_socket (settleCookieFlushes s) = tr_socket s.
Proof. unfold settleCookieFlushes. by destruct (tr_pendingCookiePublishes s). Qed.

(** A step either keeps the connection and updates the sets, or changes the
    connection and leaves them empty. *)
Lemma step_sets e s :
  conn_ok hasWebSocket s → sets_ok s →
  (tr_socket (step e s) = tr_socket s ∧ sets_of (step e s) = next_sets e s)
  ∨ (tr_socket (step e s) ≠ tr_socket s ∧ sets_of (step e s) = ([], [])).
Proof.
  intros Hok Hsets. unfold Transport.step. destruct (enabled e s) eqn:He.
  2:{ left. split; [done|]. unfold next_sets. destruct e as [| | | | | | | | | | |sid now [[]|]| | | |]; try done.
      by rewrite He. }
  destruct e as [ids|sp| | |rs| |docs|sp o f c|sp o|q t a|sid|sid now msg|sid| |w|l]; cbn [handle].
  - left. unfold start. split; [by rewrite (proj2 (connect_sets _))|by rewrite (proj1 (connect_sets _))].
  - unfold addSpace. case_bool_decide; [by left|]. destruct (decide _) as [Hc|Hc]; [|by left].
    destruct (ok_connected _ _ Hok Hc) as (sid & Hs & _).
    destruct (tr_stopped s) eqn:Hst; [by destruct (ok_stopped _ _ Hok Hst); congruence|].
    destruct (reconnect_sets (set_spaceIds (tr_spaceIds s ++ [sp]) s) Hst) as [H1 H2].
    right. split; [rewrite H2; congruence|done].
  - assert (sets_of (stop s) = ([], []) ∧ tr_socket (stop s) = None) as [H1 H2].
    { unfold stop. rewrite setState_eq, failLeases_eq, failCookieFlushes_eq. cbn [snd].
      unfold close_socket. simpl. by destruct (tr_socket s). }
    destruct (tr_socket s) as [sid|] eqn:Hs; [right; by split; [rewrite H2|]|].
    left. split; [by rewrite H2|]. rewrite H1. symmetry. by apply Hsets.
  - destruct (tr_stopped s) eqn:Hst; [left; unfold reconnect; by rewrite Hst|].
    destruct (reconnect_sets s Hst) as [H1 H2].
    destruct (tr_socket s) as [sid|] eqn:Hs; [right; by split; [rewrite H2|]|].
    left. split; [by rewrite H2|]. rewrite H1. symmetry. by apply Hsets.
  - left. unfold publish, next_sets. destruct (decide _); [|done].
    rewrite send_eq, publish_mark_fold. split; [done|]. unfold sets_of at 1. simpl.
    by rewrite <- surjective_pairing.
  - left. unfold flushCookiePublishes. cbv zeta. destruct (decide _); [|done].
    by destruct (tr_pendingCookiePublishes _).
  - left. unfold publishWorkspace. destruct (_ || _); [done|]. by rewrite send_eq.
  - left. unfold acquireLease. destruct (decide _); [|done]. destruct (map_get _ _); [done|].
    cbv zeta. by rewrite send_eq.
  - left. unfold releaseLease. destruct (decide _); [|done]. by rewrite send_eq.
  - unfold dial_resume. cbv zeta. cbn [tr_stopped tr_connectSeq set_dials].
    destruct (tr_stopped s || negb (q =? tr_connectSeq s)%nat) eqn:Hd; [by left|].
    apply orb_false_iff in Hd as [_ ->%negb_false_iff%Nat.eqb_eq].
    assert (tr_socket s = None) as Hs.
    { destruct (tr_socket s) eqn:E; [|done]. simpl in He. bprop.
      by destruct (ok_one_socket _ _ Hok); [rewrite E; eauto|]. }
    destruct (decideDial t a); [right; rewrite Hs; split; [done|by apply Hsets]..|].
    left. unfold scheduleAuthRetry. rewrite setState_eq. by destruct (_ || _).
  - left. unfold socket_opened. by rewrite send_eq.
  - left. unfold next_sets. destruct msg as [[]|]; try done; unfold handleFrame.
    + cbv zeta. by rewrite send_eq, hydrate_fold, setState_eq.
    + cbv zeta. rewrite He, ack_rejection_fold, ack_accepted_fold.
      set (acc := fold_left accept_sets accepted (sets_of s)).
      change (sets_of (with_sets acc.1 acc.2 s)) with (acc.1, acc.2). rewrite <- surjective_pairing.
      set (rej := fold_left reject_sets rejected acc).
      set (s1 := with_sets rej.1 rej.2 (with_sets acc.1 acc.2 s)).
      assert (tr_socket s1 = tr_socket s ∧ sets_of s1 = rej) as [H1 H2]
        by (split; [done|unfold sets_of; simpl; by rewrite <- surjective_pairing]).
      set (s2 := match rejected with [] => s1 | _ => _ end).
      assert (tr_socket s2 = tr_socket s1 ∧ sets_of s2 = sets_of s1) as [H3 H4]
        by (unfold s2; by destruct rejected).
      change (tr_socket (emit ?o ?x)) with (tr_socket x). change (sets_of (emit ?o ?x)) with (sets_of x).
      destruct (settle_sets s2) as [-> ->]. by rewrite H3, H4, H1, H2.
    + unfold resolveLease. by destruct (map_get _ _).
    + unfold resolveLease. by destruct (map_get _ _).
  - unfold socket_closed, scheduleReconnect. cbn [tr_socket set_sockets].
    destruct (decide (tr_socket s = Some sid)) as [Hs|Hs].
    + rewrite bool_decide_true by done. cbn [negb]. rewrite failLeases_eq, failCookieFlushes_eq.
      cbv iota. rewrite report_interrupted_eq, setState_eq. right. rewrite Hs.
      cbn [tr_stopped emit_all set_out set_state set_rejectedCookiePublishes with_waits set_socket
        set_sockets set_pendingCookiePublishes set_cookieFlushWaiters set_pendingLeases].
      by destruct (tr_stopped s).
    + rewrite bool_decide_false by done. by left.
  - left. unfold reconnect_timer. by rewrite (proj1 (connect_sets _)), (proj2 (connect_sets _)).
  - by left.
  - by left.
Qed.

Lemma sets_ok_step e s : conn_ok hasWebSocket s → sets_ok s → sets_ok (step e s).
Proof.
  intros Hok Hsets Hnone. destruct (step_sets e s Hok Hsets) as [[Hs He]|[_ He]]; [|exact He].
  rewrite He. rewrite Hnone in Hs. symmetry in Hs. specialize (Hsets Hs).
  unfold next_sets. destruct e as [| | | |rs| | | | | | |sid now [[]|]| | | |]; try exact Hsets.
  - destruct (decide _) as [Hc|]; [|exact Hsets].
    destruct (ok_connected _ _ Hok Hc) as (sid & ? & _). congruence.
  - destruct (enabled _ s) eqn:Hen; [|exact Hsets]. simpl in Hen. bprop.
    apply (ok_others _ _ Hok) in Hen; [congruence|done].
Qed.

Lemma state_sets_ok h : sets_ok (state_of h).
Proof.
  induction h as [|e h IH]; [done|]. apply sets_ok_step; [apply state_of_ok|exact IH].
Qed.

(** The sets and the last word agree. *)
Definition agrees (id : string) (w : option Word) (sets : list string * list string) : Prop :=
  (id ∈ sets.1 ↔ w = Some WSent) ∧ (id ∈ sets.2 ↔ w = Some WRefused).

Lemma agrees_rejections id w sets l :
  agrees id w sets → agrees id (fold_left (rejection_word id) l w) (fold_left reject_sets l sets).
Proof.
  revert w sets. induction l as [|r l IH]; intros w [p q] [H1 H2]; simpl; [done|].
  apply IH. unfold rejection_word, reject_sets, agrees. cbn [fst snd] in *.
  rewrite set_remove_in. destruct (decide (pr_recordId r = id)) as [<-|Hne].
  - destruct (pr_reason r); rewrite ?set_add_in, ?set_remove_in; naive_solver.
  - destruct (pr_reason r); rewrite ?set_add_in, ?set_remove_in; naive_solver.
Qed.

Lemma agrees_ack id w sets accepted rejected :
  agrees id w sets →
  agrees id (ack_word id accepted rejected w)
    (fold_left reject_sets rejected (fold_left accept_sets accepted sets)).
Proof.
  intros Hw. apply agrees_rejections. revert w sets Hw.
  induction accepted as [|a l IH]; intros w [p q] [H1 H2]; cbn [fold_left map].
  { rewrite decide_False by set_solver. by split. }
  assert (agrees id (if decide (id = a) then Some WConfirmed else w) (accept_sets (p, q) a)) as Ha.
  { unfold agrees, accept_sets. cbn [fst snd] in *. rewrite !set_remove_in.
    destruct (decide (id = a)); naive_solver. }
  specialize (IH _ _ Ha). revert IH.
  destruct (decide (id ∈ l)) as [Hl|Hl].
  - by rewrite (decide_True _ _ (proj2 (elem_of_cons l id a) (or_intror Hl))).
  - destruct (decide (id = a)) as [->|Hne].
    + by rewrite decide_True by left.
    + by rewrite decide_False by (rewrite elem_of_cons; tauto).
Qed.

Lemma agrees_marks id w sets records :
  agrees id w sets →
  agrees id (if decide (id ∈ map w_recordId records) then Some WSent else w)
    (fold_left mark_sets records sets).
Proof.
  revert w sets. induction records as [|r l IH]; intros w [p q] [H1 H2]; cbn [fold_left map].
  { rewrite decide_False by set_solver. by split. }
  assert (agrees id (if decide (id = w_recordId r) then Some WSent else w) (mark_sets (p, q) r)) as Ha.
  { unfold agrees, mark_sets. cbn [fst snd] in *. rewrite set_add_in, set_remove_in.
    destruct (decide (id = w_recordId r)); naive_solver. }
  specialize (IH _ _ Ha). revert IH.
  destruct (decide (id ∈ map w_recordId l)) as [Hl|Hl].
  - by rewrite (decide_True _ _ (proj2 (elem_of_cons _ id (w_recordId r)) (or_intror Hl))).
  - destruct (decide (id = w_recordId r)) as [->|Hne].
    + by rewrite decide_True by left.
    + by rewrite decide_False by (rewrite elem_of_cons; tauto).
Qed.

Lemma word_agrees h id : agrees id (word id h) (sets_of (state_of h)).
Proof.
  induction h as [|e h IH]; simpl; [unfold agrees; simpl; set_solver|].
  change (Transport.step url deviceId hasWebSocket e (Transport.state_of url deviceId hasWebSocket h))
    with (step e (state_of h)).
  destruct (step_sets e (state_of h)) as [[Hs ->]|[Hs ->]];
    [apply state_of_ok|apply state_sets_ok|rewrite decide_True by done|rewrite decide_False by done].
  - unfold next_sets. destruct e as [| | | |rs| | | | | | |sid now [[]|]| | | |]; try exact IH.
    + destruct (decide (tr_state (state_of h) = connected)) as [Hc|Hc].
      * pose proof (agrees_marks id _ _ rs IH) as Hm.
        destruct (decide (id ∈ map w_recordId rs)) as [Hin|Hin];
          [rewrite decide_True by done|rewrite decide_False by tauto]; exact Hm.
      * rewrite decide_False by tauto. exact IH.
    + destruct (enabled _ _); [by apply agrees_ack|exact IH].
  - unfold agrees. simpl. set_solver.
Qed.

(** ** Promises of a flush *)

Definition flushed_ids (os : list Output) : list nat :=
  omap (λ o, match o with OFlushed w _ => Some w | _ => None end) os.

Lemma flushed_ids_app a b : flushed_ids (a ++ b) = flushed_ids a ++ flushed_ids b.
Proof. apply omap_app. Qed.

Lemma flushed_ids_map b ws : flushed_ids (map (λ w, OFlushed w b) ws) = ws.
Proof. induction ws as [|w ws IH]; [done|]. unfold flushed_ids in *. cbn. by rewrite IH. Qed.

Lemma flushed_ids_in w b os : OFlushed w b ∈ os → w ∈ flushed_ids os.
Proof. intros Hin. apply list_elem_of_omap. by exists (OFlushed w b). Qed.

(** Output that settles no flush. *)
Definition quiet (s s' : WsTransport) : Prop :=
  tr_cookieFlushWaiters s' = tr_cookieFlushWaiters s
  ∧ ∃ os, tr_out s' = tr_out s ++ os ∧ flushed_ids os = [].

Lemma quiet_refl s : quiet s s.
Proof. split; [done|]. exists []. by rewrite app_nil_r. Qed.
#[local] Hint Resolve quiet_refl : core.

#[local] Instance quiet_preorder : PreOrder quiet.
Proof.
  split; [intros s; apply quiet_refl|].
  intros a b c [W1 (o1 & O1 & F1)] [W2 (o2 & O2 & F2)]. split; [congruence|].
  exists (o1 ++ o2). by rewrite O2, O1, app_assoc, flushed_ids_app, F1, F2.
Qed.

Lemma quiet_emit os s : flushed_ids os = [] → quiet s (emit_all os s).
Proof. intros Hos. split; [done|]. by exists os. Qed.

Lemma quiet_emit1 o s : flushed_ids [o] = [] → quiet s (emit o s).
Proof. apply (quiet_emit [o]). Qed.

Lemma quiet_same s s' :
  tr_cookieFlushWaiters s' = tr_cookieFlushWaiters s → tr_out s' = tr_out s → quiet s s'.
Proof. intros Hw Ho. split; [done|]. exists []. by rewrite app_nil_r. Qed.

Lemma quiet_setState st s : quiet s (setState st s).
Proof.
  rewrite setState_eq. etransitivity; [apply (quiet_same s (set_state st s)); done|].
  apply quiet_emit. unfold state_change. by destruct (decide _).
Qed.

Lemma sends_quiet msg s : flushed_ids (sends msg s) = [].
Proof. unfold sends. destruct (tr_socket s); [|done]. by case_bool_decide. Qed.

Lemma quiet_send msg s : quiet s (send msg s).
Proof. rewrite send_eq. apply quiet_emit, sends_quiet. Qed.

Lemma quiet_report ids s : quiet s (report_interrupted ids s).
Proof. rewrite report_interrupted_eq. apply quiet_emit. by destruct ids. Qed.

Lemma quiet_failLeases s : quiet s (failLeases s).
Proof.
  rewrite failLeases_eq. etransitivity; [|apply quiet_emit]; [by apply quiet_same|].
  by induction (map_values (tr_pendingLeases s)).
Qed.

Lemma quiet_close o s : quiet s (close_socket o s).
Proof.
  destruct o as [sid|]; [|done]. unfold close_socket.
  etransitivity; [by apply (quiet_same s (set_sockets (map_set sid rs_closing (tr_sockets s)) s))|].
  by apply quiet_emit1.
Qed.

Lemma quiet_connect s : quiet s (connect hasWebSocket s).
Proof.
  unfold connect. destruct hasWebSocket; cbn [negb]; [|apply quiet_setState].
  etransitivity; [apply (quiet_setState connecting)|].
  set (s1 := setState connecting s).
  etransitivity; [by apply (quiet_same s1 (set_dials (tr_dials s1 ++ [S (tr_connectSeq s1)])
    (set_connectSeq (S (tr_connectSeq s1)) s1)))|]. by apply quiet_emit1.
Qed.

(** From [s] to [s'] the flushes of [s] and the [new] ones are settled or
    still waiting, once each; a flush is confirmed only with both sets empty. *)
Definition settles (s s' : WsTransport) (new : list nat) : Prop :=
  ∃ os, tr_out s' = tr_out s ++ os
    ∧ Permutation (flushed_ids os ++ tr_cookieFlushWaiters s') (tr_cookieFlushWaiters s ++ new)
    ∧ ∀ w, OFlushed w true ∈ os → sets_of s' = ([], []).

Lemma settles_quiet s s' : quiet s s' → settles s s' [].
Proof.
  intros [Hw (os & Ho & Hf)]. exists os. rewrite Hf, Hw, app_nil_r. split; [done|]. split; [done|].
  intros w Hin%flushed_ids_in. rewrite Hf in Hin. by apply not_elem_of_nil in Hin.
Qed.

Lemma settles_fail s s0 :
  quiet s s0 → ∀ s', quiet (failCookieFlushes s0).2 s' → settles s s' [].
Proof.
  intros [Hw (o1 & O1 & F1)] s' [Hw' (o2 & O2 & F2)]. rewrite failCookieFlushes_eq in *. cbn [snd] in *.
  set (fails := map (λ w, OFlushed w false) (tr_cookieFlushWaiters s0)) in *.
  exists (o1 ++ fails ++ o2).
  split; [rewrite O2; simpl; by rewrite O1, <- !app_assoc|].
  rewrite Hw'. split.
  - rewrite !flushed_ids_app, F1, F2. unfold fails. rewrite flushed_ids_map, Hw. simpl. by rewrite !app_nil_r.
  - intros w [Hin%flushed_ids_in|[Hin|Hin%flushed_ids_in]%elem_of_app]%elem_of_app.
    + rewrite F1 in Hin. by apply not_elem_of_nil in Hin.
    + unfold fails in Hin. by apply list_elem_of_fmap in Hin as (? & ? & _).
    + rewrite F2 in Hin. by apply not_elem_of_nil in Hin.
Qed.

Lemma reconnect_settles s : settles s (reconnect hasWebSocket s) [].
Proof.
  unfold reconnect. destruct (tr_stopped s); [by apply settles_quiet|].
  eapply (settles_fail s (failLeases (set_socket None (set_reconnectTimer None s)))).
  - etransitivity; [|apply quiet_failLeases]. by apply quiet_same.
  - destruct (failCookieFlushes _) as [ids s1]. cbn [snd].
    etransitivity; [|apply quiet_connect].
    etransitivity; [apply (quiet_setState offline)|]. etransitivity; [apply (quiet_report ids)|].
    etransitivity; [apply quiet_close|]. by apply quiet_same.
Qed.

Lemma settle_settles s : settles s (settleCookieFlushes s) [].
Proof.
  unfold settleCookieFlushes. destruct (tr_pendingCookiePublishes s) eqn:Hp; [|by apply settles_quiet].
  eexists. split; [reflexivity|]. simpl. rewrite flushed_ids_map, !app_nil_r. split; [done|].
  intros w (? & [= ? Hb] & _)%list_elem_of_fmap. symmetry in Hb. apply bool_decide_eq_true in Hb.
  unfold sets_of. simpl. by rewrite Hp, Hb.
Qed.

Lemma settles_quiet_l s s1 s' new : quiet s s1 → settles s1 s' new → settles s s' new.
Proof.
  intros [Hw (o1 & O1 & F1)] (o2 & O2 & P2 & T2). exists (o1 ++ o2).
  rewrite O2, O1, app_assoc, flushed_ids_app, F1. split; [done|]. rewrite <- Hw. split; [done|].
  intros w [Hin%flushed_ids_in|Hin]%elem_of_app; [|by eapply T2].
  rewrite F1 in Hin. by apply not_elem_of_nil in Hin.
Qed.

Lemma settles_quiet_r s s1 s' new :
  settles s s1 new → quiet s1 s' → sets_of s' = sets_of s1 → settles s s' new.
Proof.
  intros (o1 & O1 & P1 & T1) [Hw (o2 & O2 & F2)] Hs. exists (o1 ++ o2).
  rewrite O2, O1, app_assoc, flushed_ids_app, F2, app_nil_r, Hw. split; [done|]. split; [done|].
  intros w [Hin|Hin%flushed_ids_in]%elem_of_app; [rewrite Hs; by eapply T1|].
  rewrite F2 in Hin. by apply not_elem_of_nil in Hin.
Qed.

Lemma scheduleReconnect_settles sid s : settles s (scheduleReconnect sid s) [].
Proof.
  unfold scheduleReconnect. destruct (negb _); [by apply settles_quiet|].
  eapply (settles_fail s (failLeases (set_socket None s))).
  - etransitivity; [|apply quiet_failLeases]. by apply quiet_same.
  - destruct (failCookieFlushes _) as [ids s1]. cbn [snd].
    etransitivity; [apply (quiet_setState offline)|]. etransitivity; [apply (quiet_report ids)|].
    destruct (tr_stopped _); [done|]. by apply quiet_same.
Qed.

Lemma handleFrame_settles now msg s : settles s (handleFrame deviceId now msg s) [].
Proof.
  destruct msg as [m|]; [|by apply settles_quiet].
  destruct m; try (apply settles_quiet; (done || by apply quiet_emit1)); unfold handleFrame.
  - apply settles_quiet. cbv zeta. rewrite hydrate_fold.
    etransitivity; [|apply quiet_send]. set (s1 := cache_presence presence (setState connected s)).
    transitivity (emit (OPresence (Transport.presence deviceId now s1)) s1).
    { transitivity s1; [|by apply quiet_emit1]. transitivity (setState connected s).
      - apply quiet_setState.
      - by apply quiet_same. }
    apply quiet_emit. match goal with |- flushed_ids (concat (map _ ?l)) = _ => generalize l end.
    intros l. induction l as [|sp l IH]; [done|]. cbn [map concat].
    by rewrite flushed_ids_app, sends_quiet, IH.
  - cbv zeta. rewrite ack_rejection_fold, ack_accepted_fold.
    match goal with |- settles s (emit _ (settleCookieFlushes (match rejected with [] => ?x | _ => _ end))) _ =>
      apply (settles_quiet_l s x); [by apply quiet_same|];
      apply (settles_quiet_l x (match rejected with [] => x | _ => emit (OPublishRejected rejected) x end));
      [destruct rejected; [done|by apply quiet_emit1]|] end.
    eapply settles_quiet_r; [apply settle_settles|by apply quiet_emit1|done].
  - apply settles_quiet. etransitivity; [by apply (quiet_emit [OHydrated spaceId])|]. by apply quiet_emit1.
  - apply settles_quiet. unfold resolveLease. destruct (map_get _ _); [|done].
    etransitivity; [|by apply quiet_emit1]. by apply quiet_same.
  - apply settles_quiet. unfold resolveLease. destruct (map_get _ _); [|done].
    etransitivity; [|by apply quiet_emit1]. by apply quiet_same.
  - apply settles_quiet. etransitivity; [by apply (quiet_emit [OWorkspaceHydrated])|]. by apply quiet_emit1.
  - apply settles_quiet. cbv zeta. etransitivity; [by apply (quiet_same s (cache_presence devices s))|].
    by apply quiet_emit1.
Qed.

(** Promise names are fresh. *)
Lemma connect_next s : tr_next (connect hasWebSocket s) = tr_next s.
Proof. unfold connect. destruct hasWebSocket; cbn [negb]; by rewrite setState_eq. Qed.

Lemma reconnect_next s : tr_next (reconnect hasWebSocket s) = tr_next s.
Proof.
  unfold reconnect. destruct (tr_stopped s); [done|].
  rewrite failLeases_eq, failCookieFlushes_eq. cbv iota zeta.
  rewrite report_interrupted_eq, setState_eq, connect_next. unfold close_socket. by destruct (tr_socket s).
Qed.

Lemma handleFrame_next now msg s : tr_next (handleFrame deviceId now msg s) = tr_next s.
Proof.
  destruct msg as [[]|]; try done; unfold handleFrame; cbv zeta.
  - by rewrite send_eq, hydrate_fold, setState_eq.
  - rewrite ack_rejection_fold, ack_accepted_fold. unfold settleCookieFlushes.
    destruct rejected; simpl; by case_match.
  - unfold resolveLease. by destruct (map_get _ _).
  - unfold resolveLease. by destruct (map_get _ _).
Qed.

(** The flush an event asks for. *)
Definition asked (e : Event) (s : WsTransport) : list nat :=
  match e with EFlush => [tr_next s] | _ => [] end.

Lemma step_next e s : (tr_next s + length (asked e s) <= tr_next (step e s))%nat.
Proof.
  unfold Transport.step. destruct (enabled e s) eqn:He; [|destruct e; simpl; try lia; done].
  destruct e; cbn [handle asked length]; rewrite ?Nat.add_0_r.
  - unfold start. by rewrite connect_next.
  - unfold addSpace. case_bool_decide; [done|]. destruct (decide _); [by rewrite reconnect_next|done].
  - unfold stop. rewrite setState_eq, failLeases_eq, failCookieFlushes_eq. unfold close_socket. simpl.
    by destruct (tr_socket s).
  - by rewrite reconnect_next.
  - unfold publish. destruct (decide _); [|done]. by rewrite send_eq, publish_mark_fold.
  - unfold flushCookiePublishes. cbv zeta. destruct (decide _); [destruct (tr_pendingCookiePublishes _)|];
      simpl; lia.
  - unfold publishWorkspace. destruct (_ || _); [done|]. by rewrite send_eq.
  - unfold acquireLease. destruct (decide _); [|simpl; lia]. destruct (map_get _ _); [done|].
    cbv zeta. rewrite send_eq. simpl. lia.
  - unfold releaseLease. destruct (decide _); [|done]. by rewrite send_eq.
  - unfold dial_resume. cbv zeta. destruct (_ || _); [done|].
    destruct (decideDial _ _); [simpl; lia..|]. unfold scheduleAuthRetry. rewrite setState_eq.
    by destruct (_ || _).
  - unfold socket_opened. by rewrite send_eq.
  - by rewrite handleFrame_next.
  - unfold socket_closed, scheduleReconnect. destruct (negb _); [done|].
    rewrite failLeases_eq, failCookieFlushes_eq. cbv iota zeta.
    rewrite report_interrupted_eq, setState_eq. simpl. by destruct (tr_stopped s).
  - unfold reconnect_timer. by rewrite connect_next.
  - done.
  - done.
Qed.

Lemma Permutation_set_remove (w : nat) l :
  NoDup l → w ∈ l → Permutation (w :: set_remove w l) l.
Proof.
  intros Hnd Hin. apply NoDup_Permutation; [|done|].
  - constructor; [by intros [? _]%set_remove_in|]. by apply NoDup_ListNoDup, List.NoDup_filter, NoDup_ListNoDup.
  - intros x. rewrite elem_of_cons, set_remove_in. destruct (decide (x = w)); naive_solver.
Qed.

Lemma step_settles e s :
  NoDup (tr_cookieFlushWaiters s) → settles s (step e s) (asked e s).
Proof.
  intros Hnd. unfold Transport.step. destruct (enabled e s) eqn:He.
  2:{ destruct e; try (by apply settles_quiet). done. }
  destruct e; cbn [handle asked].
  - apply settles_quiet. unfold start. etransitivity; [|apply quiet_connect]. by apply quiet_same.
  - unfold addSpace. case_bool_decide; [by apply settles_quiet|].
    destruct (decide _); [|by apply settles_quiet, quiet_same].
    eapply settles_quiet_l; [|apply reconnect_settles]. by apply quiet_same.
  - unfold stop. eapply (settles_fail s (failLeases (set_reconnectTimer None (set_stopped true s)))).
    { etransitivity; [|apply quiet_failLeases]. by apply quiet_same. }
    etransitivity; [apply quiet_close|]. etransitivity; [|apply quiet_setState]. by apply quiet_same.
  - apply reconnect_settles.
  - apply settles_quiet. unfold publish. destruct (decide _); [|done]. etransitivity; [|apply quiet_send].
    rewrite publish_mark_fold. by apply quiet_same.
  - unfold flushCookiePublishes. cbv zeta. cbn [tr_state set_next tr_pendingCookiePublishes].
    destruct (decide _) as [Hc|Hc]; [|exists [OFlushed (tr_next s) false]; split; [done|];
      split; [simpl; by rewrite Permutation_cons_append|by intros w [=]%list_elem_of_singleton]].
    destruct (tr_pendingCookiePublishes s) as [|x l] eqn:Hp.
    + eexists [_]. split; [reflexivity|].
      split; [simpl; by rewrite Permutation_cons_append|].
      intros w [= _ Hb]%list_elem_of_singleton. symmetry in Hb. apply bool_decide_eq_true in Hb.
      unfold sets_of. simpl in *. by rewrite Hp, Hb.
    + exists []. split; [simpl; by rewrite app_nil_r|]. split; [done|by intros w ?%not_elem_of_nil].
  - apply settles_quiet. unfold publishWorkspace. destruct (_ || _); [done|apply quiet_send].
  - apply settles_quiet. unfold acquireLease. destruct (decide _).
    + destruct (map_get _ _); [done|]. cbv zeta. etransitivity; [|apply quiet_send]. by apply quiet_same.
    + etransitivity; [|by apply quiet_emit1]. by apply quiet_same.
  - apply settles_quiet. unfold releaseLease. destruct (decide _); [apply quiet_send|done].
  - apply settles_quiet. unfold dial_resume. cbv zeta. destruct (_ || _); [by apply quiet_same|].
    destruct (decideDial _ _).
    + etransitivity; [|by apply quiet_emit1]. by apply quiet_same.
    + etransitivity; [|by apply quiet_emit1]. by apply quiet_same.
    + transitivity (setState offline (set_dials (set_remove seq (tr_dials s)) s)).
      * etransitivity; [|apply quiet_setState]. by apply quiet_same.
      * unfold scheduleAuthRetry. destruct (_ || _); [done|by apply quiet_same].
  - apply settles_quiet. unfold socket_opened. etransitivity; [|apply quiet_send]. by apply quiet_same.
  - apply handleFrame_settles.
  - unfold socket_closed. eapply settles_quiet_l; [|apply scheduleReconnect_settles]. by apply quiet_same.
  - apply settles_quiet. unfold reconnect_timer. etransitivity; [|apply quiet_connect]. by apply quiet_same.
  - simpl in He. apply bool_decide_eq_true in He. exists [OFlushed w false]. split; [done|].
    split; [simpl; rewrite app_nil_r; by apply Permutation_set_remove|].
    by intros w' [=]%list_elem_of_singleton.
  - apply settles_quiet. unfold lease_timer. etransitivity; [|by apply quiet_emit1]. by apply quiet_same.
Qed.

(** The flushes asked for in a history, by name. *)
Fixpoint asked_in (h : list Event) : list nat :=
  match h with [] => [] | e :: h' => asked_in h' ++ asked e (state_of h') end.

Lemma flushes_settle h :
  Permutation (flushed_ids (tr_out (state_of h)) ++ tr_cookieFlushWaiters (state_of h)) (asked_in h)
  ∧ NoDup (asked_in h) ∧ ∀ w, w ∈ asked_in h → (w < tr_next (state_of h))%nat.
Proof.
  induction h as [|e h (Hp & Hnd & Hlt)].
  { split; [done|]. split; [constructor|]. by intros w ?%not_elem_of_nil. }
  assert (NoDup (tr_cookieFlushWaiters (state_of h))) as Hw.
  { rewrite <- Hp in Hnd. by apply NoDup_app in Hnd as (_ & _ & ?). }
  destruct (step_settles e (state_of h) Hw) as (os & Ho & Hs & _).
  pose proof (step_next e (state_of h)) as Hn. cbn [asked_in Transport.state_of].
  change (Transport.step url deviceId hasWebSocket e (Transport.state_of url deviceId hasWebSocket h))
    with (step e (state_of h)).
  split; [|split].
  - rewrite Ho, flushed_ids_app, <- app_assoc, Hs, app_assoc, Hp. done.
  - apply NoDup_app. split; [done|]. split; [|destruct e; simpl; repeat constructor; set_solver].
    intros w Hin. apply Hlt in Hin. destruct e; simpl; try apply not_elem_of_nil.
    intros ->%list_elem_of_singleton. lia.
  - intros w [Hin|Hin]%elem_of_app; [apply Hlt in Hin; lia|].
    destruct e; simpl in Hin; try (by apply not_elem_of_nil in Hin).
    apply list_elem_of_singleton in Hin as ->. simpl in Hn. lia.
Qed.

(** ** Recovery *)

(** What the platform reports on its own: tokens, sockets, frames, timers. *)
Definition platform_event (e : Event) : bool :=
  match e with
  | EToken _ _ _ | ESocketOpen _ | EFrame _ _ _ | ESocketClosed _ | EReconnectTimer
  | EFlushTimer _ | ELeaseTimer _ => true
  | _ => false
  end.

(** The events [es], newest first, happen one after the other after [h]. *)
Fixpoint happens (es h : list Event) : Prop :=
  match es with
  | [] => True
  | e :: es' => happens es' h ∧ platform_event e = true ∧ enabled e (state_of (es' ++ h)) = true
  end.

Definition online (sid : nat) (ids : list string) (s : WsTransport) : Prop :=
  tr_state s = connected ∧ tr_socket s = Some sid ∧ map_get sid (tr_sockets s) = Some rs_open
  ∧ ∀ sp, sp ∈ ids → OSend sid (MHydrate sp None) ∈ tr_out s.

(** The rest of a recovery, from a state on. *)
Definition recovers (n : nat) (h : list Event) : Prop :=
  ∃ es sid, (length es <= n)%nat ∧ happens es h
    ∧ online sid (tr_spaceIds (state_of h)) (state_of (es ++ h)).

Lemma recovers_step e h n :
  platform_event e = true → enabled e (state_of h) = true →
  tr_spaceIds (state_of (e :: h)) = tr_spaceIds (state_of h) →
  recovers n (e :: h) → recovers (S n) h.
Proof.
  intros Hp He Hsp (es & sid & Hlen & Hh & Hon). exists (es ++ [e]), sid.
  rewrite <- app_assoc. simpl app. rewrite Hsp in Hon.
  split; [rewrite length_app; simpl; lia|]. split; [|exact Hon]. clear Hon Hlen.
  induction es as [|e' es IH]; simpl in *; [done|].
  destruct Hh as (Hh & Hp' & He'). split; [by apply IH|]. split; [done|]. by rewrite <- app_assoc.
Qed.

Lemma sends_open sid msg s :
  tr_socket s = Some sid → map_get sid (tr_sockets s) = Some rs_open → sends msg s = [OSend sid msg].
Proof. intros Hs Hg. unfold sends. by rewrite Hs, bool_decide_true. Qed.

Lemma recovers_open (sid : nat) (now serverTimeMs : Z) h :
  tr_socket (state_of h) = Some sid → map_get sid (tr_sockets (state_of h)) = Some rs_open →
  recovers 1 h.
Proof.
  intros Hs Hg. set (e := EFrame sid now (Some (SHelloAck serverTimeMs []))).
  assert (enabled e (state_of h) = true) as He by (by apply bool_decide_eq_true).
  exists [e], sid. split; [simpl; lia|]. split; [done|].
  cbn [app Transport.state_of].
  change (Transport.step url deviceId hasWebSocket e (Transport.state_of url deviceId hasWebSocket h))
    with (step e (state_of h)).
  unfold Transport.step. rewrite He. cbn [handle e handleFrame]. cbv zeta.
  rewrite send_eq, hydrate_fold, setState_eq.
  split; [done|]. split; [done|]. split; [done|]. intros sp Hsp. simpl.
  apply elem_of_app. left. apply elem_of_app. right.
  apply list_elem_of_In, in_concat. exists [OSend sid (MHydrate sp None)]. split; [|by left].
  apply list_elem_of_In, list_elem_of_fmap. exists sp. split; [|done].
  symmetry. by apply sends_open.
Qed.

Lemma recovers_connecting (sid : nat) (now serverTimeMs : Z) h :
  tr_socket (state_of h) = Some sid → map_get sid (tr_sockets (state_of h)) = Some rs_connecting →
  recovers 2 h.
Proof.
  intros Hs Hg. assert (enabled (ESocketOpen sid) (state_of h) = true) as He
    by (by apply bool_decide_eq_true).
  assert (state_of (ESocketOpen sid :: h) = socket_opened deviceId sid (state_of h)) as E.
  { simpl. unfold Transport.step. by rewrite He. }
  apply (recovers_step (ESocketOpen sid)); [done|done|rewrite E; unfold socket_opened; by rewrite send_eq|].
  apply (recovers_open sid now serverTimeMs); rewrite E; unfold socket_opened; rewrite send_eq; simpl;
    [done|apply map_get_set_eq].
Qed.

Lemma recovers_dialing (token : string) (now serverTimeMs : Z) h :
  token ≠ "" → tr_stopped (state_of h) = false →
  tr_connectSeq (state_of h) ∈ tr_dials (state_of h) → recovers 3 h.
Proof.
  intros Ht Hst Hin. set (s := state_of h) in *.
  set (e := EToken (tr_connectSeq s) (Some token) true).
  assert (enabled e s = true) as He by (by apply bool_decide_eq_true).
  assert (state_of (e :: h) = dial_resume url (tr_connectSeq s) (Some token) true s) as E.
  { simpl. fold s. unfold Transport.step. by rewrite He. }
  assert (decideDial (Some token) true = dial) as Hd.
  { unfold decideDial. by rewrite (proj2 (String.eqb_neq _ _) Ht). }
  assert (tr_socket (state_of (e :: h)) = Some (tr_next s)
    ∧ map_get (tr_next s) (tr_sockets (state_of (e :: h))) = Some rs_connecting
    ∧ tr_spaceIds (state_of (e :: h)) = tr_spaceIds s) as (H1 & H2 & H3).
  { rewrite E. unfold dial_resume. cbv zeta. cbn [tr_stopped tr_connectSeq set_dials].
    rewrite Hst, Nat.eqb_refl, Hd. simpl. by rewrite map_get_set_eq. }
  apply (recovers_step e); [done|done|exact H3|]. by eapply recovers_connecting.
Qed.

Lemma connect_dials s :
  hasWebSocket = true →
  let s' := connect hasWebSocket s in
  tr_stopped s' = tr_stopped s ∧ tr_connectSeq s' ∈ tr_dials s' ∧ tr_spaceIds s' = tr_spaceIds s.
Proof.
  intros Hws. unfold connect. rewrite Hws. cbn [negb]. rewrite setState_eq. simpl.
  split; [done|]. split; [set_solver|done].
Qed.

Lemma recovers_timer (token : string) (now serverTimeMs : Z) h :
  hasWebSocket = true → token ≠ "" → tr_stopped (state_of h) = false →
  is_Some (tr_reconnectTimer (state_of h)) → recovers 4 h.
Proof.
  intros Hws Ht Hst Htimer. assert (enabled EReconnectTimer (state_of h) = true) as He
    by (by apply bool_decide_eq_true).
  assert (state_of (EReconnectTimer :: h) = reconnect_timer hasWebSocket (state_of h)) as E.
  { simpl. unfold Transport.step. by rewrite He. }
  destruct (connect_dials (set_reconnectTimer None (state_of h)) Hws) as (H1 & H2 & H3).
  apply (recovers_step EReconnectTimer); [done|done|by rewrite E|].
  apply (recovers_dialing token now serverTimeMs); rewrite ?E; [done|exact (eq_trans H1 Hst)|exact H2].
Qed.

(** ** Interrupted publishes *)

Lemma quiet_out s s' o : quiet s s' → o ∈ tr_out s → o ∈ tr_out s'.
Proof. intros [_ (os & -> & _)] Ho. apply elem_of_app. by left. Qed.

Lemma reported ids s : ids ≠ [] → OPublishInterrupted ids ∈ tr_out (report_interrupted ids s).
Proof. destruct ids; [done|]. intros _. simpl. apply elem_of_app. right. left. Qed.

Lemma reconnect_reports s :
  tr_stopped s = false → tr_pendingCookiePublishes s ≠ [] →
  OPublishInterrupted (tr_pendingCookiePublishes s) ∈ tr_out (reconnect hasWebSocket s).
Proof.
  intros Hst Hp. unfold reconnect. rewrite Hst. cbv zeta.
  rewrite failLeases_eq, failCookieFlushes_eq. cbv iota zeta.
  cbn [tr_pendingCookiePublishes emit_all set_out with_waits set_socket set_reconnectTimer
    set_pendingCookiePublishes set_cookieFlushWaiters set_pendingLeases].
  eapply quiet_out; [apply quiet_connect|].
  match goal with |- _ ∈ tr_out (set_backoffMs _ ?x) => change (tr_out (set_backoffMs _ x)) with (tr_out x) end.
  eapply quiet_out; [apply quiet_close|]. by apply reported.
Qed.

Lemma step_interrupts e s :
  conn_ok hasWebSocket s → sets_ok s → tr_pendingCookiePublishes s ≠ [] →
  tr_socket (step e s) ≠ tr_socket s →
  e = EStop ∨ OPublishInterrupted (tr_pendingCookiePublishes s) ∈ tr_out (step e s).
Proof.
  intros Hok Hsets Hp Hne. assert (∃ sid, tr_socket s = Some sid) as [sid Hs].
  { destruct (tr_socket s) as [sid|] eqn:E; [eauto|]. exfalso. apply Hp. specialize (Hsets E).
    unfold sets_of in Hsets. congruence. }
  assert (tr_stopped s = false) as Hst.
  { apply not_true_iff_false. intros Ht. destruct (ok_stopped _ _ Hok Ht). congruence. }
  destruct (step_sets e s Hok Hsets) as [[? _]|_]; [done|].
  unfold Transport.step in Hne |- *. destruct (enabled e s) eqn:He; [|done].
  destruct e; cbn [handle] in Hne |- *; try (by left); right.
  - simpl in He. bprop. congruence.
  - unfold addSpace in *. case_bool_decide; [done|]. destruct (decide _); [|done].
    exact (reconnect_reports (set_spaceIds (tr_spaceIds s ++ [spaceId]) s) Hst Hp).
  - by apply reconnect_reports.
  - exfalso. apply Hne. unfold publish. destruct (decide _); [|done]. by rewrite send_eq, publish_mark_fold.
  - exfalso. apply Hne. unfold flushCookiePublishes. cbv zeta. destruct (decide _); [|done].
    by destruct (tr_pendingCookiePublishes _).
  - exfalso. apply Hne. unfold publishWorkspace. destruct (_ || _); [done|]. by rewrite send_eq.
  - exfalso. apply Hne. unfold acquireLease. destruct (decide _); [|done]. destruct (map_get _ _); [done|].
    cbv zeta. by rewrite send_eq.
  - exfalso. apply Hne. unfold releaseLease. destruct (decide _); [|done]. by rewrite send_eq.
  - exfalso. simpl in He. bprop. destruct (ok_one_socket _ _ Hok) as [_ Hn]; [rewrite Hs; eauto|].
    apply Hne. unfold dial_resume. cbv zeta. cbn [tr_stopped tr_connectSeq set_dials].
    destruct (Nat.eqb_spec seq (tr_connectSeq s)) as [->|Hq]; [done|]. by rewrite orb_true_r.
  - exfalso. apply Hne. unfold socket_opened. by rewrite send_eq.
  - exfalso. apply Hne. destruct (step_sets (EFrame sid0 now msg) s Hok Hsets) as [[Hsame _]|[Hsame _]];
      unfold Transport.step in Hsame; rewrite He in Hsame; [exact Hsame|].
    destruct msg as [[]|]; try done; unfold handleFrame; cbv zeta.
    + by rewrite send_eq, hydrate_fold, setState_eq.
    + rewrite ack_rejection_fold, ack_accepted_fold. cbn [tr_socket emit set_out].
      rewrite (proj2 (settle_sets _)). by destruct rejected.
    + unfold resolveLease. by destruct (map_get _ _).
    + unfold resolveLease. by destruct (map_get _ _).
  - unfold socket_closed, scheduleReconnect in *. destruct (negb _); [done|].
    rewrite failLeases_eq, failCookieFlushes_eq. cbv iota zeta.
    cbn [tr_pendingCookiePublishes emit_all set_out with_waits set_socket set_sockets
      set_pendingCookiePublishes set_cookieFlushWaiters set_pendingLeases].
    match goal with |- _ ∈ tr_out (if ?b then ?x else _) =>
      assert (OPublishInterrupted (tr_pendingCookiePublishes s) ∈ tr_out x) as Hx by (by apply reported);
      by destruct b end.
  - exfalso. apply Hne. unfold reconnect_timer. by rewrite (proj2 (connect_sets _)).
Qed.

Lemma ack_word_some id accepted rejected w : is_Some w → is_Some (ack_word id accepted rejected w).
Proof.
  intros Hw. unfold ack_word.
  assert (is_Some (if decide (id ∈ accepted) then Some WConfirmed else w)) as H by (case_decide; eauto).
  revert H. generalize (if decide (id ∈ accepted) then Some WConfirmed else w) as v.
  induction rejected as [|r l IH]; intros v Hv; [done|]. apply IH. unfold rejection_word.
  case_decide; eauto.
Qed.

(** ** Properties *)

(** C16: while the transport is started and not stopped exactly one thing drives
    it on (a socket, a token request, or the reconnect timer), so it is never
    stuck offline; every socket but the current one is closing; it reports
    connected only over an open socket; nothing waits on a connection that is
    not there; the backoff stays between one and thirty seconds; and every
    flush ever asked for is settled or still waiting, exactly once. *)
Theorem transport_invariant h :
  let s := state_of h in
  (hasWebSocket = true → tr_stopped s = false → (0 < tr_connectSeq s)%nat → driven s)
  ∧ (is_Some (tr_socket s) → tr_reconnectTimer s = None ∧ tr_connectSeq s ∉ tr_dials s)
  ∧ (is_Some (tr_reconnectTimer s) → tr_connectSeq s ∉ tr_dials s)
  ∧ (tr_stopped s = true → tr_socket s = None ∧ tr_reconnectTimer s = None)
  ∧ (∀ sid r, map_get sid (tr_sockets s) = Some r → tr_socket s = Some sid ∨ r = rs_closing)
  ∧ (tr_state s = connected →
       ∃ sid, tr_socket s = Some sid ∧ map_get sid (tr_sockets s) = Some rs_open)
  ∧ (tr_state s ≠ connected →
       tr_pendingCookiePublishes s = [] ∧ tr_cookieFlushWaiters s = [] ∧ tr_pendingLeases s = [])
  ∧ 1000 <= tr_backoffMs s <= 30000
  ∧ Permutation (flushed_ids (tr_out s) ++ tr_cookieFlushWaiters s) (asked_in h)
  ∧ NoDup (asked_in h).
Proof.
  destruct (state_of_ok url deviceId hasWebSocket h). destruct (flushes_settle h) as (Hp & Hnd & _).
  do 4 (split; [assumption|]). split; [|by repeat (split; [assumption|])].
  intros sid r Hr. destruct (decide (r = rs_closing)) as [->|Hn]; [by right|left; eauto].
Qed.

(** C15: from every state of a started transport the platform can bring it
    online: in at most four reports (timer, token, socket, hello.ack), each
    possible when it comes, the transport is connected over an open socket and
    has asked to hydrate every declared space. *)
Theorem transport_recovers token h :
  hasWebSocket = true → token ≠ "" →
  tr_stopped (state_of h) = false → (0 < tr_connectSeq (state_of h))%nat →
  tr_state (state_of h) ≠ connected → recovers 4 h.
Proof.
  intros Hws Ht Hst Hseq Hn. pose proof (state_of_ok url deviceId hasWebSocket h) as Hok.
  assert (∀ n, (n <= 4)%nat → recovers n h → recovers 4 h) as Hmono.
  { intros n Hle (es & sid & Hlen & Hrest). exists es, sid. split; [lia|done]. }
  destruct (ok_driven _ _ Hok Hws Hst Hseq) as [[sid Hs]|[Hd|Htimer]].
  - destruct (ok_socket _ _ Hok sid Hs) as ([] & Hr & Hc); [| |done].
    + apply (Hmono 2%nat); [lia|]. by apply (recovers_connecting sid 0 0).
    + apply (Hmono 1%nat); [lia|]. by apply (recovers_open sid 0 0).
  - apply (Hmono 3%nat); [lia|]. by apply (recovers_dialing token 0 0).
  - by apply (recovers_timer token 0 0).
Qed.

(** A flush is confirmed only when the hub's last word on every record
    published over this connection is that it has it (accepted, or [stale]);
    and a published record the hub has not answered stays pending until it
    does, unless the transport is stopped or the loss is reported. *)
Theorem flush_confirms e h :
  (∀ w, OFlushed w true ∈ tr_out (state_of (e :: h)) → OFlushed w true ∉ tr_out (state_of h) →
     ∀ id, word id (e :: h) = None ∨ word id (e :: h) = Some WConfirmed)
  ∧ (∀ id, word id h = Some WSent →
       is_Some (word id (e :: h)) ∨ e = EStop
       ∨ ∃ ids, OPublishInterrupted ids ∈ tr_out (state_of (e :: h)) ∧ id ∈ ids).
Proof.
  set (s := state_of h). change (state_of (e :: h)) with (step e s).
  pose proof (state_of_ok url deviceId hasWebSocket h) as Hok. fold s in Hok.
  pose proof (state_sets_ok h) as Hsets. fold s in Hsets. split.
  - intros w Hin Hnot id. destruct (flushes_settle h) as (Hp & Hnd & _).
    assert (NoDup (tr_cookieFlushWaiters s)) as Hw.
    { rewrite <- Hp in Hnd. by apply NoDup_app in Hnd as (_ & _ & ?). }
    destruct (step_settles e s Hw) as (os & Ho & _ & Htrue).
    rewrite Ho in Hin. apply elem_of_app in Hin as [Hin|Hin]; [done|]. specialize (Htrue w Hin).
    destruct (word_agrees (e :: h) id) as [H1 H2].
    change (state_of (e :: h)) with (step e s) in H1, H2. rewrite Htrue in H1, H2. cbn [fst snd] in H1, H2.
    destruct (word id (e :: h)) as [[]|]; [|by right| |by left].
    + exfalso. by apply (not_elem_of_nil id), H1.
    + exfalso. by apply (not_elem_of_nil id), H2.
  - intros id Hw. assert (id ∈ tr_pendingCookiePublishes s) as Hin
      by (by apply (proj1 (word_agrees h id))).
    assert (tr_pendingCookiePublishes s ≠ []) as Hp by (intros E; rewrite E in Hin; by apply not_elem_of_nil in Hin).
    simpl. fold s. destruct (decide (tr_socket (step e s) = tr_socket s)) as [Hs|Hs].
    + left. destruct e as [| | | |rs| | | | | | |sid now [[]|]| | | |]; rewrite ?Hw; eauto.
      * case_decide; rewrite ?Hw; eauto.
      * fold s. destruct (enabled _ s); [apply ack_word_some|]; rewrite ?Hw; eauto.
    + right. destruct (step_interrupts e s Hok Hsets Hp Hs) as [?|Ho]; [by left|right].
      by exists (tr_pendingCookiePublishes s).
Qed.
End History.

(** ** Runs *)

Module TransportDemo.
Definition h := mkHlc 5 0 "mac".
Definition record := mkWire "work" "r" "site" "sealed" h None "sig" WRITE.
(** Start, token, socket, hello.ack (newest first). *)
Definition online : list Event :=
  [EFrame 0 1000 (Some (SHelloAck 900 [])); ESocketOpen 0; EToken 1 (Some "tok") true; EStart ["work"]].
Definition run (l : list Event) : WsTransport := state_of "wss://hub" "mac" true l.
End TransportDemo.

(** After the hub closed the socket the transport recovers. *)
Lemma transport_recovers_witness :
  recovers "wss://hub" "mac" true 4 (ESocketClosed 0 :: TransportDemo.online).
Proof.
  apply (transport_recovers "wss://hub" "mac" true "tok"); [reflexivity|discriminate|reflexivity|..].
  - vm_compute. lia.
  - vm_compute. discriminate.
Defined.

Example online_flush :
  tr_out (TransportDemo.run
    (EFrame 0 2000 (Some (SPublishAck ["r"] [])) :: EFlush :: EPublish [TransportDemo.record]
     :: TransportDemo.online))
  = tr_out (TransportDemo.run TransportDemo.online)
    ++ [OSend 0 (MPublish [TransportDemo.record]); OFlushed 1 true; OConverged].
Proof. vm_compute. reflexivity. Qed.

(** A record published again before the first acknowledgment: the flush is
    confirmed by the acknowledgment of the first copy. *)
Example republish_confirmed_early :
  OFlushed 1 true ∈ tr_out (TransportDemo.run
    (EFrame 0 2000 (Some (SPublishAck ["r"] [])) :: EFlush :: EPublish [TransportDemo.record]
     :: EPublish [TransportDemo.record] :: TransportDemo.online)).
Proof. apply list_elem_of_In. vm_compute. intuition. Qed.

(** Stopping reports no interrupted record. *)
Example stop_drops_unacknowledged :
  tr_out (TransportDemo.run (EStop :: EPublish [TransportDemo.record] :: TransportDemo.online))
  = tr_out (TransportDemo.run (EPublish [TransportDemo.record] :: TransportDemo.online))
    ++ [OClose 0; OStateChanged offline].
Proof. vm_compute. reflexivity. Qed.
