(* ===== verification/HubStorage.v ===== *)
(** * The hub's key-value storage (services/sessionhub/src/hub-core.ts)

    [HubStorage] is the interface the hub core is written against (Durable
    Object storage in production); [HubStorageLaws] is its documented behaviour:
    a finite map whose [list] returns the entries under a prefix in ascending
    key order.  [SortedStorage] implements it. *)

From S2P Require Export Messages GatewayCookie.
From Stdlib Require Import Ascii.

(** ** Stored values *)

Record PresenceEntry := mkPresenceEntry { pe_deviceId : string; pe_lastSeenMs : Z }.

Record LeaseEntry := mkLease {
  le_spaceId : string;
  le_originId : string;
  le_holderDeviceId : string;
  le_expiresAtMs : Z
}.

(** One constructor per type the hub stores. *)
Inductive HubValue :=
| VRecord (r : CookieRecordWire)
| VHlc (h : Hlc)
| VLease (l : LeaseEntry)
| VWorkspace (w : WorkspaceRecordWire)
| VPresence (p : PresenceEntry)
| VSpaces (ids : list string)
| VTimes (ts : list Z)
| VCookie (c : StoredGatewayCookie)
| VTrue.

Definition as_record (v : HubValue) : option CookieRecordWire :=
  match v with VRecord r => Some r | _ => None end.
Definition as_hlc (v : HubValue) : option Hlc :=
  match v with VHlc h => Some h | _ => None end.
Definition as_lease (v : HubValue) : option LeaseEntry :=
  match v with VLease l => Some l | _ => None end.
Definition as_workspace (v : HubValue) : option WorkspaceRecordWire :=
  match v with VWorkspace w => Some w | _ => None end.
Definition as_presence (v : HubValue) : option PresenceEntry :=
  match v with VPresence p => Some p | _ => None end.
Definition as_spaces (v : HubValue) : option (list string) :=
  match v with VSpaces l => Some l | _ => None end.
Definition as_times (v : HubValue) : option (list Z) :=
  match v with VTimes l => Some l | _ => None end.
Definition as_cookie (v : HubValue) : option StoredGatewayCookie :=
  match v with VCookie c => Some c | _ => None end.
Definition as_true (v : HubValue) : option unit :=
  match v with VTrue => Some () | _ => None end.

(** ** The interface *)

Class HubStorage (S : Type) := {
  hs_get : string → S → option HubValue;
  hs_put : string → HubValue → S → S;
  hs_delete : string → S → S;
  hs_list : string → S → list (string * HubValue)
}.

Class HubStorageLaws (S : Type) `{HubStorage S} := {
  hs_get_put k k' v s : hs_get k (hs_put k' v s) = if decide (k = k') then Some v else hs_get k s;
  hs_get_delete k k' s : hs_get k (hs_delete k' s) = if decide (k = k') then None else hs_get k s;
  hs_list_get p s k v : (k, v) ∈ hs_list p s ↔ startsWith k p = true ∧ hs_get k s = Some v;
  hs_list_sorted p s : StronglySorted (λ a b, str_lt (fst a) (fst b)) (hs_list p s)
}.

(** ** An implementation: entries sorted by key *)

Fixpoint mem_put (k : string) (v : HubValue) (l : list (string * HubValue)) :=
  match l with
  | [] => [(k, v)]
  | (k', v') :: l' =>
      if String.eqb k k' then (k, v) :: l'
      else if str_ltb k k' then (k, v) :: l else (k', v') :: mem_put k v l'
  end.

Definition mem_sorted (l : list (string * HubValue)) : Prop :=
  StronglySorted (λ a b, str_lt (fst a) (fst b)) l.

(** ** Derived reads *)

Section Reads.
Context {S : Type} `{HubStorage S}.

Definition get_as {A} (f : HubValue → option A) (k : string) (s : S) : option A :=
  hs_get k s ≫= f.

(** The values of [list] at one type, in key order. *)
Definition list_as {A} (f : HubValue → option A) (p : string) (s : S) : list (string * A) :=
  omap (λ '(k, v), option_map (pair k) (f v)) (hs_list p s).

Definition hs_delete_all (ks : list string) (s : S) : S := fold_left (λ s k, hs_delete k s) ks s.
End Reads.

(** ** Lemmas *)

Section StorageLemmas.
Context {S : Type} `{HL : HubStorageLaws S}.

Lemma get_as_put {A} (f : HubValue → option A) k k' v s :
  get_as f k (hs_put k' v s) = if decide (k = k') then f v else get_as f k s.
Proof. unfold get_as. rewrite hs_get_put. by destruct (decide (k = k')). Qed.

Lemma get_as_delete {A} (f : HubValue → option A) k k' s :
  get_as f k (hs_delete k' s) = if decide (k = k') then None else get_as f k s.
Proof. unfold get_as. rewrite hs_get_delete. by destruct (decide (k = k')). Qed.

Lemma get_delete_all k ks s :
  hs_get k (hs_delete_all ks s) = if decide (k ∈ ks) then None else hs_get k s.
Proof.
  unfold hs_delete_all. revert s. induction ks as [|k' ks IH]; intros s; cbn [fold_left].
  { rewrite decide_False by set_solver. done. }
  rewrite IH, hs_get_delete. destruct (decide (k ∈ ks)); [by rewrite decide_True by set_solver|].
  destruct (decide (k = k')) as [->|]; [by rewrite decide_True by set_solver|].
  by rewrite decide_False by set_solver.
Qed.

Lemma list_as_get {A} (f : HubValue → option A) p s k a :
  (k, a) ∈ list_as f p s ↔ startsWith k p = true ∧ get_as f k s = Some a.
Proof.
  unfold list_as, get_as. rewrite list_elem_of_omap. split.
  - intros ([k' v] & Hin & Hf). destruct (f v) as [a'|] eqn:E; simplify_eq/=.
    apply hs_list_get in Hin as [Hp Hg]. rewrite Hg. by simpl.
  - intros [Hp Hg]. destruct (hs_get k s) as [v|] eqn:E; [|done]. simpl in Hg.
    exists (k, v). rewrite hs_list_get. split; [done|]. by rewrite Hg.
Qed.

Lemma list_as_sorted {A} (f : HubValue → option A) p s :
  StronglySorted (λ a b, str_lt (fst a) (fst b)) (list_as f p s).
Proof.
  unfold list_as. pose proof (hs_list_sorted p s) as Hs.
  induction Hs as [|[k v] l Hs IH Hall]; [constructor|]. cbn [omap list_omap].
  destruct (f v) as [a|]; [|done]. cbn [option_map]. constructor; [done|].
  rewrite Forall_forall in Hall. apply Forall_forall. intros [k' a'] ([k'' v''] & Hin & Hf)%list_elem_of_omap.
  specialize (Hall _ Hin). simpl in *. destruct (f v''); [|done]. by simplify_eq/=.
Qed.
End StorageLemmas.

(** Sorted lists have distinct keys. *)
Lemma sorted_keys_nodup {A} (l : list (string * A)) :
  StronglySorted (λ a b, str_lt (fst a) (fst b)) l → NoDup (map fst l).
Proof.
  induction 1 as [|[k v] l Hs IH Hall]; simpl; [constructor|].
  apply NoDup_cons. split; [|done]. intros ([k' v'] & -> & Hin)%list_elem_of_fmap.
  rewrite Forall_forall in Hall. apply Hall in Hin. by apply str_lt_irrefl in Hin.
Qed.

Lemma mem_put_in k v l x : x ∈ mem_put k v l → x = (k, v) ∨ x ∈ l.
Proof.
  induction l as [|[k' v'] l IH]; simpl; [set_solver|].
  destruct (String.eqb k k'); [set_solver|]. destruct (str_ltb k k'); set_solver.
Qed.

Lemma mem_put_sorted k v l : mem_sorted l → mem_sorted (mem_put k v l).
Proof.
  unfold mem_sorted. induction 1 as [|[k' v'] l Hs IH Hall]; simpl; [repeat constructor|].
  destruct (String.eqb_spec k k') as [->|Hne]; [by constructor|].
  destruct (str_ltb k k') eqn:E.
  - constructor; [by constructor|]. constructor; [done|].
    eapply Forall_impl; [exact Hall|]. simpl. intros [? ?] ?. by eapply str_lt_trans.
  - constructor; [done|]. apply Forall_forall. intros x [->|Hx]%mem_put_in.
    + simpl. destruct (str_lt_total k k') as [Hl|[Hl|Hl]]; [|done|done].
      unfold str_lt in Hl. congruence.
    + rewrite Forall_forall in Hall. by apply Hall.
Qed.

Lemma mem_get_put k v l k' :
  map_get k' (mem_put k v l) = if decide (k = k') then Some v else map_get k' l.
Proof.
  induction l as [|[k1 v1] l IH]; simpl.
  { destruct (decide (k' = k)), (decide (k = k')); congruence. }
  destruct (String.eqb_spec k k1) as [->|Hne]; simpl.
  - destruct (decide (k' = k1)), (decide (k1 = k')); congruence.
  - destruct (str_ltb k k1); simpl; rewrite ?IH;
      repeat case_decide; congruence.
Qed.

(** Storages are kept sorted: the invariant is part of the value. *)
Record SortedStorage := mkSorted {
  ss_entries : list (string * HubValue);
  ss_sorted : mem_sorted ss_entries
}.

Lemma mem_filter_sorted f l : mem_sorted l → mem_sorted (List.filter f l).
Proof. apply StronglySorted_filter. Qed.

Definition emptyStorage : SortedStorage := mkSorted [] (SSorted_nil _).

#[export] Instance SortedStorage_ops : HubStorage SortedStorage := {|
  hs_get k s := map_get k (ss_entries s);
  hs_put k v s := mkSorted (mem_put k v (ss_entries s)) (mem_put_sorted k v _ (ss_sorted s));
  hs_delete k s :=
    mkSorted (List.filter (λ '(k', _), negb (bool_decide (k = k'))) (ss_entries s))
      (mem_filter_sorted _ _ (ss_sorted s));
  hs_list p s := List.filter (λ '(k, _), startsWith k p) (ss_entries s)
|}.

#[export] Instance SortedStorage_laws : HubStorageLaws SortedStorage.
Proof.
  split; simpl.
  - intros k k' v s. rewrite mem_get_put. repeat case_decide; congruence.
  - intros k k' s. change (List.filter _ (ss_entries s)) with (map_delete k' (ss_entries s)).
    rewrite map_get_delete. repeat case_decide; congruence.
  - intros p s k v. rewrite In_filter_iff.
    pose proof (sorted_keys_nodup _ (ss_sorted s)) as Hnd. split.
    + intros [Hin Hp]. split; [done|]. by apply map_In_get.
    + intros [Hp Hg]. split; [by apply map_get_In|done].
  - intros p s. apply StronglySorted_filter, (ss_sorted s).
Qed.
