(* ===== verification/GatewayJar.v ===== *)
(** * The gateway's cookie jar (services/sessionhub/src/gateway-core.ts)

    [GatewayCore] over the storage it shares with the hub.  A request that
    goes upstream is cut where the source awaits the origin: [fetch_begin]
    before, [fetch_end] after; the storage operations between two outside calls
    are one step, as the Durable Object runs them.  Clock readings are
    arguments: every call of [now] has its own. *)

From S2P Require Export HubStorage.
From Stdlib Require Import Ascii QArith.
#[local] Open Scope Z_scope.

Definition COOKIE_PREFIX : string := "gateway-cookie:".
Definition INITIALIZED_PREFIX : string := "gateway-initialized:".
Definition MAX_COOKIE_BYTES : Z := 4096.
Definition MAX_COOKIES_PER_SPACE : nat := 3000.
Definition MAX_COOKIE_LIFETIME_MS : Z := 400 * 24 * 60 * 60 * 1000.

Definition GATEWAY_SPACE_HEADER : string := "x-suma-space".
Definition GATEWAY_TARGET_HEADER : string := "x-suma-target".
Definition GATEWAY_TOP_LEVEL_SITE_HEADER : string := "x-suma-top-level-site".
Definition GATEWAY_CREDENTIALS_HEADER : string := "x-suma-credentials".
Definition GATEWAY_UPSTREAM_AUTH_HEADER : string := "x-suma-upstream-authorization".
Definition GATEWAY_RESPONSE_HEADER : string := "x-suma-gateway".

Definition CONTROL_REQUEST_HEADERS : list string :=
  ["authorization"; GATEWAY_CREDENTIALS_HEADER; GATEWAY_SPACE_HEADER; GATEWAY_TARGET_HEADER;
   GATEWAY_TOP_LEVEL_SITE_HEADER; GATEWAY_UPSTREAM_AUTH_HEADER; "x-suma-device"].

Definition HOP_BY_HOP_HEADERS : list string :=
  ["connection"; "content-length"; "host"; "keep-alive"; "proxy-authenticate";
   "proxy-authorization"; "te"; "trailer"; "transfer-encoding"; "upgrade"].

(** ** Requests and responses of the fetch interface *)

(** Request headers: lower-case names, the values of a name already joined. *)
Record Request := mkRequest {
  rq_method : string;
  rq_headers : jsmap string string;
  rq_body : string
}.

Definition header (name : string) (r : Request) : option string := map_get name (rq_headers r).

Record UpstreamRequest := mkUpstream {
  up_target : URL;
  up_method : string;
  up_headers : jsmap string string;
  up_body : option string
}.

(** Response headers keep [set-cookie] lines apart. *)
Record Response := mkResponse {
  rs_status : Z;
  rs_headers : list (string * string);
  rs_body : string
}.

Definition getSetCookie (r : Response) : list string :=
  omap (λ '(k, v), if String.eqb k "set-cookie" then Some v else None) (rs_headers r).

(** What a handler answers: a JSON document, the cookies of a space, or the
    origin's response. *)
Inductive GatewayReply :=
| JsonReply (status : Z) (body : json)
| CookiesReply (cookies : list GatewayCookieSnapshot) (initialized : bool)
| UpstreamReply (r : Response).

Definition error_reply (status : Z) (code : string) : GatewayReply :=
  JsonReply status (JObj [("error", JStr code)]).

Section GatewayCore.
Context {S : Type} `{HubStorage S} `{P : GatewayPlatform} `{UP : UrlParser}.
Context (allowPrivateTargets : bool).

(** ** Keys *)

Definition cookiePrefix (spaceId : string) : string := COOKIE_PREFIX +:+ spaceId +:+ ":".
Definition initializedKey (spaceId : string) : string := INITIALIZED_PREFIX +:+ spaceId.

Definition cookie_identity (c : StoredGatewayCookie) : bytes :=
  utf8 (stringify (JArr [JStr (gc_name c); JStr (gc_domain c); JStr (gc_path c);
                         match gc_partitionKey c with Some p => JStr p | None => JNull end])).

Definition cookieIdentityHash (c : StoredGatewayCookie) : string := toHex (sha256 (cookie_identity c)).

Definition cookieKey (spaceId : string) (c : StoredGatewayCookie) : string :=
  cookiePrefix spaceId +:+ cookieIdentityHash c.

(** ** Reading the jar *)

Definition expired (now : Z) (c : StoredGatewayCookie) : bool :=
  match gc_expiresAtMs c with Some t => Qle_bool t (inject_Z now) | None => false end.

Definition liveCookies (now : Z) (spaceId : string) (s : S) : list StoredGatewayCookie * S :=
  let stored := list_as as_cookie (cookiePrefix spaceId) s in
  (List.filter (λ c, negb (expired now c)) (map snd stored),
   hs_delete_all (map fst (List.filter (λ '(_, c), expired now c) stored)) s).

Definition allowsSameSiteCookie (c : StoredGatewayCookie) (r : Request) (target : URL) : bool :=
  let sameSite :=
    match header "sec-fetch-site" r with
    | None => true
    | Some f => String.eqb f "none" || String.eqb f "same-origin" || String.eqb f "same-site"
    end in
  match gc_sameSite c with
  | ss_strict => sameSite
  | ss_lax | ss_unspecified =>
      if sameSite then true
      else String.eqb (rq_method r) "GET"
           && bool_decide (header "sec-fetch-mode" r = Some "navigate")
  | ss_no_restriction => String.eqb (url_protocol target) "https:" && gc_secure c
  end.

Definition cookie_filter (target : URL) (topLevelSite : option string) (r : Request)
    (c : StoredGatewayCookie) : bool :=
  let host := canonicalHostname (url_hostname target) in
  let path := if String.eqb (url_pathname target) "" then "/" else url_pathname target in
  if gc_secure c && negb (String.eqb (url_protocol target) "https:") then false
  else if (if gc_hostOnly c then negb (String.eqb (gc_domain c) host)
           else negb (domainMatches host (gc_domain c))) then false
  else if negb (pathMatches path (gc_path c)) then false
  else if match gc_partitionKey c with
          | Some k => negb (bool_decide (topLevelSite = Some k))
          | None => false
          end then false
  else allowsSameSiteCookie c r target.

Definition cookie_order (a b : StoredGatewayCookie) : Z :=
  let d := js_length (gc_path b) - js_length (gc_path a) in
  if d =? 0 then gc_createdAtMs a - gc_createdAtMs b else d.

Definition matchingCookies (now : Z) (spaceId : string) (target : URL)
    (topLevelSite : option string) (r : Request) (s : S) : list StoredGatewayCookie * S :=
  let '(live, s) := liveCookies now spaceId s in
  (sort_by cookie_order (List.filter (cookie_filter target topLevelSite r) live), s).

(** ** Writing the jar *)

Definition with_createdAt (t : Z) (c : StoredGatewayCookie) : StoredGatewayCookie :=
  mkCookie (gc_name c) (gc_value c) (gc_domain c) (gc_hostOnly c) (gc_path c) (gc_secure c)
    (gc_httpOnly c) (gc_session c) (gc_sameSite c) (gc_partitionKey c) t (gc_expiresAtMs c).

Definition storeOrDelete (spaceId : string) (c : StoredGatewayCookie) (remove : bool) (s : S) : S :=
  let s := hs_put (initializedKey spaceId) VTrue s in
  let key := cookieKey spaceId c in
  if remove then hs_delete key s
  else match get_as as_cookie key s with
       | Some current => hs_put key (VCookie (with_createdAt (gc_createdAtMs current) c)) s
       | None =>
           if (MAX_COOKIES_PER_SPACE <=? length (hs_list (cookiePrefix spaceId) s))%nat then s
           else hs_put key (VCookie c) s
       end.

(** The cookie a [Set-Cookie] line asks for, [None] when the line is refused. *)
Definition Qmin_bool (a b : Q) : Q := if Qle_bool a b then a else b.

Definition set_cookie_expiry (now : Z) (p : SetCookie) : option Q :=
  let e := option_map inject_Z (sc_expires p) in
  let e := match sc_maxAge p with Some a => Some (inject_Z (now + a * 1000)) | None => e end in
  option_map (λ t, Qmin_bool t (inject_Z (now + MAX_COOKIE_LIFETIME_MS))) e.

Definition set_cookie_accepts (now : Z) (target : URL) (topLevelSite : option string)
    (p : SetCookie) : option StoredGatewayCookie :=
  match sc_value p with
  | None => None
  | Some value =>
      if encodedCookieBytes (sc_name p) value >? MAX_COOKIE_BYTES then None
      else
        let requestHost := canonicalHostname (url_hostname target) in
        let hostOnly := match sc_domain p with None => true | Some _ => false end in
        let domain := match sc_domain p with None => requestHost | Some d => canonicalHostname d end in
        if negb hostOnly && (negb (domainMatches requestHost domain) || isPublicSuffix domain) then None
        else
          let path := match sc_path p with
                      | Some q => if startsWith q "/" then q else defaultCookiePath (url_pathname target)
                      | None => defaultCookiePath (url_pathname target)
                      end in
          let secure := sc_secure p in
          let sameSite := sameSiteFor p in
          if (bool_decide (sameSite = ss_no_restriction) || sc_partitioned p) && negb secure then None
          else if secure && negb (String.eqb (url_protocol target) "https:") && negb allowPrivateTargets
          then None
          else if sc_partitioned p && bool_decide (topLevelSite = None) then None
          else
            let expiresAtMs := set_cookie_expiry now p in
            if validCookiePrefix (sc_name p) secure hostOnly path then
              Some (mkCookie (sc_name p) value domain hostOnly path secure (sc_httpOnly p)
                      (match expiresAtMs with None => true | Some _ => false end) sameSite
                      (if sc_partitioned p then topLevelSite else None) now expiresAtMs)
            else None
  end.

Definition acceptSetCookie (now : Z) (spaceId : string) (target : URL)
    (topLevelSite : option string) (line : string) (s : S) : S :=
  match parseSetCookie line with
  | None => s
  | Some p =>
      match set_cookie_accepts now target topLevelSite p with
      | None => s
      | Some c =>
          storeOrDelete spaceId c (match sc_maxAge p with Some a => a <=? 0 | None => false end) s
      end
  end.

Definition mutation_cookie (now : Z) (input : GatewayCookieSnapshot) : option StoredGatewayCookie :=
  let domain := canonicalHostname (gs_domain input) in
  if String.eqb domain "" || (negb (gs_hostOnly input) && isPublicSuffix domain) then None
  else
    let expiresAtMs := option_map (λ d, Qmult d (inject_Z 1000)) (gs_expirationDate input) in
    let path := if startsWith (gs_path input) "/" then gs_path input else "/" in
    if negb (validCookiePrefix (gs_name input) (gs_secure input) (gs_hostOnly input) path)
       || (encodedCookieBytes (gs_name input) (gs_value input) >? MAX_COOKIE_BYTES) then None
    else Some (mkCookie (gs_name input) (gs_value input) domain (gs_hostOnly input) path
                 (gs_secure input) (gs_httpOnly input) (gs_session input) (gs_sameSite input)
                 (gs_partitionKey input) now expiresAtMs).

Definition applyMutation (now : Z) (spaceId : string) (m : GatewayCookieMutation) (s : S) : S :=
  match mutation_cookie now (gm_cookie m) with
  | None => s
  | Some c => storeOrDelete spaceId c (gm_removed m || expired now c) s
  end.

(** ** Requests *)

Record Target := mkTarget {
  tg_spaceId : string;
  tg_target : URL;
  tg_topLevelSite : option string
}.

Definition is_http (url : URL) : bool :=
  String.eqb (url_protocol url) "http:" || String.eqb (url_protocol url) "https:".

Definition decodeTarget (r : Request) : GatewayReply + Target :=
  match header GATEWAY_SPACE_HEADER r, header GATEWAY_TARGET_HEADER r with
  | Some spaceId, Some encodedTarget =>
      if String.eqb spaceId "" then inl (error_reply 400 "missing_gateway_metadata")
      else match decodeGatewayHeaderValue encodedTarget ≫= parse_url with
           | None => inl (error_reply 400 "invalid_target")
           | Some target =>
               if negb (is_http target) then inl (error_reply 400 "invalid_target")
               else if negb (String.eqb (url_username target) "")
                       || negb (String.eqb (url_password target) "")
               then inl (error_reply 400 "url_credentials_forbidden")
               else if negb allowPrivateTargets && isPrivateTarget target
               then inl (error_reply 403 "private_target_forbidden")
               else if String.eqb (rq_method r) "CONNECT" || String.eqb (rq_method r) "TRACE"
               then inl (error_reply 405 "method_forbidden")
               else match header GATEWAY_TOP_LEVEL_SITE_HEADER r with
                    | None => inr (mkTarget spaceId target None)
                    | Some encodedTopLevel =>
                        match decodeGatewayHeaderValue encodedTopLevel ≫= parse_url with
                        | None => inl (error_reply 400 "invalid_top_level_site")
                        | Some u => inr (mkTarget spaceId target (Some (schemefulSite u)))
                        end
                    end
           end
  | _, _ => inl (error_reply 400 "missing_gateway_metadata")
  end.

Definition requestIsSameOrigin (r : Request) (target : URL) : bool :=
  match header "origin" r with
  | Some origin => String.eqb origin (url_origin target)
  | None =>
      match header "referer" r with
      | None => true
      | Some referrer =>
          match parse_url referrer with
          | Some u => String.eqb (url_origin u) (url_origin target)
          | None => false
          end
      end
  end.

(** The request headers that go upstream, before credentials. *)
Definition forwarded (name : string) : bool :=
  negb (bool_decide (name ∈ CONTROL_REQUEST_HEADERS) || bool_decide (name ∈ HOP_BY_HOP_HEADERS)
        || String.eqb name "cookie").

Definition upstream_headers (r : Request) : jsmap string string :=
  let hs := List.filter (λ '(name, _), forwarded name) (rq_headers r) in
  match header GATEWAY_UPSTREAM_AUTH_HEADER r with
  | Some auth => map_set "authorization" auth hs
  | None => hs
  end.

Definition attaches_cookies (r : Request) (target : URL) : bool :=
  let credentials := default "include" (header GATEWAY_CREDENTIALS_HEADER r) in
  bool_decide (header "sec-fetch-mode" r = Some "navigate")
  || String.eqb credentials "include"
  || (String.eqb credentials "same-origin" && requestIsSameOrigin r target).

Definition cookie_header (cs : list StoredGatewayCookie) : string :=
  str_join "; " (map (λ c, gc_name c +:+ "=" +:+ gc_value c) cs).

(** A request that waits for its origin. *)
Record PendingFetch := mkPending {
  pf_request : Request;
  pf_target : Target;
  pf_attach : bool;
  pf_matching : list StoredGatewayCookie;
  pf_upstream : UpstreamRequest
}.

(** [handleFetch] up to the upstream request. *)
Definition fetch_begin (now : Z) (r : Request) (s : S) : (GatewayReply + PendingFetch) * S :=
  match decodeTarget r with
  | inl refusal => (inl refusal, s)
  | inr tg =>
      let target := tg_target tg in
      let attach := attaches_cookies r target in
      let '(cookies, s) :=
        if attach then matchingCookies now (tg_spaceId tg) target (tg_topLevelSite tg) r s
        else ([], s) in
      let hs := upstream_headers r in
      let hs := if attach && negb (String.eqb (cookie_header cookies) "")
                then map_set "cookie" (cookie_header cookies) hs else hs in
      let body := if String.eqb (rq_method r) "GET" || String.eqb (rq_method r) "HEAD"
                  then None else Some (rq_body r) in
      (inr (mkPending r tg attach cookies (mkUpstream target (rq_method r) hs body)), s)
  end.

(** The [Set-Cookie] lines of a response, each at its own clock reading. *)
Fixpoint accept_all (clock : nat → Z) (tg : Target) (lines : list string) (s : S) : S :=
  match lines with
  | [] => s
  | line :: lines =>
      accept_all (λ i, clock (Datatypes.S i)) tg lines
        (acceptSetCookie (clock O) (tg_spaceId tg) (tg_target tg) (tg_topLevelSite tg) line s)
  end.

(** [handleFetch] after the origin answered, or failed with a message. *)
Definition fetch_end (now : Z) (clock : nat → Z) (answer : string + Response) (f : PendingFetch)
    (s : S) : GatewayReply * S :=
  match answer with
  | inl detail =>
      (JsonReply 502 (JObj [("error", JStr "upstream_unreachable"); ("detail", JStr detail)]), s)
  | inr upstream =>
      let setCookies := getSetCookie upstream in
      let tg := pf_target f in
      let s := if pf_attach f then accept_all clock tg setCookies s else s in
      let '(cookies, s) :=
        if pf_attach f && (0 <? length setCookies)%nat
        then matchingCookies now (tg_spaceId tg) (tg_target tg) (tg_topLevelSite tg) (pf_request f) s
        else (pf_matching f, s) in
      let hs := rs_headers upstream in
      let hs := if pf_attach f then hs else List.filter (λ '(k, _), negb (String.eqb k "set-cookie")) hs in
      let hs := hs ++ map (λ c, ("set-cookie", serializeCookie c)) cookies in
      let hs := List.filter (λ '(k, _), negb (String.eqb k GATEWAY_RESPONSE_HEADER)) hs
                ++ [(GATEWAY_RESPONSE_HEADER, "authoritative")] in
      (UpstreamReply (mkResponse (rs_status upstream) hs (rs_body upstream)), s)
  end.

(** ** The cookie endpoint *)

Definition json_string (k : string) (j : json) : option string :=
  match jget k j with Some (JStr s) => Some s | _ => None end.
Definition json_bool (k : string) (j : json) : option bool :=
  match jget k j with Some (JBool b) => Some b | _ => None end.

Definition json_sameSite (j : json) : option GatewaySameSite :=
  match jget "sameSite" j with
  | Some (JStr s) =>
      if String.eqb s "unspecified" then Some ss_unspecified
      else if String.eqb s "no_restriction" then Some ss_no_restriction
      else if String.eqb s "lax" then Some ss_lax
      else if String.eqb s "strict" then Some ss_strict else None
  | _ => None
  end.

(** [validMutation], with the value it lets through. *)
Definition validMutation (value : json) : option GatewayCookieMutation :=
  removed ← json_bool "removed" value;
  cookie ← jget "cookie" value;
  name ← json_string "name" cookie;
  val ← json_string "value" cookie;
  domain ← json_string "domain" cookie;
  hostOnly ← json_bool "hostOnly" cookie;
  path ← json_string "path" cookie;
  secure ← json_bool "secure" cookie;
  httpOnly ← json_bool "httpOnly" cookie;
  session ← json_bool "session" cookie;
  sameSite ← json_sameSite cookie;
  partitionKey ← match jget "partitionKey" cookie with
                 | Some JNull => Some None
                 | Some (JStr k) => Some (Some k)
                 | _ => None
                 end;
  expirationDate ← match jget "expirationDate" cookie with
                   | None => Some None
                   | Some (JNum n) => Some (Some (inject_Z n))
                   | _ => None
                   end;
  Some (mkMutation (mkSnapshot name val domain hostOnly path secure httpOnly session
                      expirationDate sameSite partitionKey) removed).

Fixpoint apply_all (clock : nat → Z) (spaceId : string) (ms : list GatewayCookieMutation) (s : S) : S :=
  match ms with
  | [] => s
  | m :: ms => apply_all (λ i, clock (Datatypes.S i)) spaceId ms (applyMutation (clock O) spaceId m s)
  end.

Definition handleCookies (clock : nat → Z) (r : Request) (s : S) : GatewayReply * S :=
  match header GATEWAY_SPACE_HEADER r with
  | None => (error_reply 400 "missing_space", s)
  | Some spaceId =>
      if String.eqb spaceId "" then (error_reply 400 "missing_space", s)
      else if String.eqb (rq_method r) "GET" then
        let '(cookies, s) := liveCookies (clock O) spaceId s in
        let initialized :=
          (0 <? length cookies)%nat
          || match get_as as_true (initializedKey spaceId) s with Some _ => true | None => false end in
        (CookiesReply (map snapshot cookies) initialized, s)
      else if negb (String.eqb (rq_method r) "PUT") then (error_reply 405 "method_not_allowed", s)
      else match parse (rq_body r) with
           | None => (error_reply 400 "malformed", s)
           | Some body =>
               let mutations := match body, jget "mutations" body with
                                | JObj _, Some (JArr l) => Some l
                                | JObj _, Some _ => None
                                | _, _ => Some [body]
                                end in
               match mutations with
               | None => (error_reply 400 "malformed", s)
               | Some l =>
                   if (MAX_COOKIES_PER_SPACE <? length l)%nat then (error_reply 400 "malformed", s)
                   else match mapM validMutation l with
                        | None => (error_reply 400 "malformed", s)
                        | Some ms =>
                            (JsonReply 200 (JObj [("ok", JBool true)]), apply_all clock spaceId ms s)
                        end
               end
           end
  end.
End GatewayCore.

(** ** The jar as a transition system *)

Section Steps.
Context {S : Type} `{HubStorage S} `{P : GatewayPlatform} `{UP : UrlParser}.
Context (allowPrivateTargets : bool).

(** A request of a space changes the storage: it reads the jar on its way
    upstream, takes in the origin's answer, or hits the cookie endpoint. *)
Inductive gateway_step (spaceId : string) : S → S → Prop :=
| gw_begin now r s s' f :
    fetch_begin allowPrivateTargets now r s = (inr f, s') →
    tg_spaceId (pf_target f) = spaceId →
    gateway_step spaceId s s'
| gw_end now clock answer f s :
    tg_spaceId (pf_target f) = spaceId →
    gateway_step spaceId s (fetch_end allowPrivateTargets now clock answer f s).2
| gw_cookies clock r s :
    header GATEWAY_SPACE_HEADER r = Some spaceId →
    gateway_step spaceId s (handleCookies clock r s).2.
End Steps.
