(* ===== verification/HubCore.v ===== *)
(** * The session hub (services/sessionhub/src/hub-core.ts)

    [HubCore] over any [HubStorage]: every handler as a function of the
    storage, the sending connection, its peers and the clock reading [now] of
    the call, with the frames it sends and the sockets it closes as a trace.
    A handler runs as one step; only [handleClose], whose source re-reads the
    storage because other handlers may run while it waits, is cut in two. *)

From S2P Require Export HubStorage.
From Stdlib Require Import Ascii.

(** ** Constants *)

Definition HYDRATE_CHUNK_SIZE : nat := 256.
Definition RATE_WINDOW_MS : Z := 60000.
Definition MAX_MUTATIONS_PER_ORIGIN_PER_MINUTE : nat := 120.
Definition ORIGIN_LEASE_TTL_MS : Z := 60000.
Definition MAX_LEASE_TTL_MS : Z := ORIGIN_LEASE_TTL_MS * 5.
Definition MAX_RECORD_HISTORY : nat := 8.
Definition MAX_DECLARED_SPACES : nat := 64.
Definition CLOSE_REVOKED : Z := 4003.

#[global] Arguments HYDRATE_CHUNK_SIZE : simpl never.
#[global] Arguments MAX_MUTATIONS_PER_ORIGIN_PER_MINUTE : simpl never.
#[global] Arguments MAX_RECORD_HISTORY : simpl never.
#[global] Arguments MAX_DECLARED_SPACES : simpl never.

(** ** Keys *)

Definition recKey (spaceId recordId : string) : string :=
  "rec:" +:+ spaceId +:+ ":" +:+ recordId.
Definition recPrefix (spaceId : string) : string := "rec:" +:+ spaceId +:+ ":".
Definition histPrefix (spaceId recordId : string) : string :=
  "hist:" +:+ spaceId +:+ ":" +:+ recordId +:+ ":".
Definition histKey (spaceId recordId : string) (hlc : Hlc) : string :=
  "hist:" +:+ spaceId +:+ ":" +:+ recordId +:+ ":" +:+ encodeHlc hlc.
Definition histSpacePrefix (spaceId : string) : string := "hist:" +:+ spaceId +:+ ":".
Definition wmKey (spaceId : string) : string := "wm:" +:+ spaceId.
Definition leaseKey (spaceId originId : string) : string :=
  "lease:" +:+ spaceId +:+ ":" +:+ originId.
Definition workspaceKey (key : string) : string := "ws:" +:+ key.
Definition presenceKey (device : string) : string := "presence:" +:+ device.
Definition rateKey (device originId : string) : string := "rl:" +:+ device +:+ ":" +:+ originId.
Definition legacyConnKey (device : string) : string := "conn:" +:+ device.
Definition connPrefix (device : string) : string := "conn:" +:+ device +:+ ":".
Definition connectionStorageKey (device connectionId : string) : string :=
  connPrefix device +:+ connectionId.
Definition revokedKey (device : string) : string := "revoked:" +:+ device.

(** ** Connections and effects *)

Record HubConnection := mkConn {
  hc_deviceId : option string;
  hc_connectionId : string;
  hc_spaceIds : list string
}.

(** [Send c m] is a frame on connection [c]; [Close c code reason] closes it. *)
Inductive HubEffect :=
| Send (connectionId : string) (m : ServerMessage)
| Close (connectionId : string) (code : Z) (reason : string).

(** Cut a list in chunks of [n] elements (the slices of the hydrate loops). *)
Fixpoint chunks {A} (fuel n : nat) (l : list A) : list (list A) :=
  match fuel with
  | O => []
  | S f => match l with [] => [] | _ => take n l :: chunks f n (drop n l) end
  end.

Section HubCore.
Context {S : Type} `{HubStorage S}.

(** What a handler works on: the storage, the two ends it may mutate, and the
    frames sent so far. *)
Record Hub := mkHub {
  hub_store : S;
  hub_sender : HubConnection;
  hub_others : list HubConnection;
  hub_out : list HubEffect
}.

Definition with_store (f : S → S) (h : Hub) : Hub :=
  mkHub (f (hub_store h)) (hub_sender h) (hub_others h) (hub_out h).
Definition with_sender (c : HubConnection) (h : Hub) : Hub :=
  mkHub (hub_store h) c (hub_others h) (hub_out h).
Definition with_others (l : list HubConnection) (h : Hub) : Hub :=
  mkHub (hub_store h) (hub_sender h) l (hub_out h).
Definition send_to (c : HubConnection) (m : ServerMessage) (h : Hub) : Hub :=
  mkHub (hub_store h) (hub_sender h) (hub_others h) (hub_out h ++ [Send (hc_connectionId c) m]).
Definition reply (m : ServerMessage) (h : Hub) : Hub := send_to (hub_sender h) m h.
Definition close_sender (c : Z) (reason : string) (h : Hub) : Hub :=
  mkHub (hub_store h) (hub_sender h) (hub_others h)
    (hub_out h ++ [Close (hc_connectionId (hub_sender h)) c reason]).
(** One frame to every peer a test selects. *)
Definition send_peers (test : HubConnection → bool) (m : ServerMessage) (h : Hub) : Hub :=
  fold_left (λ h c, if test c then send_to c m h else h) (hub_others h) h.

(** ** Reads *)

Definition isRevoked (device : string) (s : S) : bool :=
  match hs_get (revokedKey device) s with Some _ => true | None => false end.

Definition connectionBindings (device : string) (s : S) : list (string * list string) :=
  list_as as_spaces (connPrefix device) s.

Definition declaredSpaces (device connectionId : string) (s : S) : list string :=
  match get_as as_spaces (connectionStorageKey device connectionId) s with
  | Some current => current
  | None => default [] (get_as as_spaces (legacyConnKey device) s)
  end.

(** The presence list: [online] while one of the connections is bound to the
    device. *)
Definition presenceSnapshot (connected : list HubConnection) (s : S) : list DevicePresence :=
  map (λ '(_, e), mkPresence (pe_deviceId e)
         (bool_decide (Some (pe_deviceId e) ∈ map hc_deviceId connected)) (pe_lastSeenMs e))
    (list_as as_presence "presence:" s).

(** ** Hydration *)

Definition considered (spaceId : string) (sinceHlc : option Hlc) (r : CookieRecordWire) : bool :=
  if negb (String.eqb (w_spaceId r) spaceId) then false
  else match sinceHlc with
       | Some since => negb (compareHlc (w_hlc r) since <=? 0)
       | None => true
       end.

Definition version_id (r : CookieRecordWire) : string :=
  w_recordId r +:+ "@" +:+ encodeHlc (w_hlc r).

Definition hydrateSpace (spaceId : string) (sinceHlc : option Hlc) (s : S)
    : list CookieRecordWire * option Hlc :=
  let consider versions r :=
    if considered spaceId sinceHlc r then map_set (version_id r) r versions else versions in
  let history := map snd (list_as as_record (histSpacePrefix spaceId) s) in
  let versions := fold_left consider history jsmap_empty in
  let latest := map snd (list_as as_record (recPrefix spaceId) s) in
  let versions := fold_left consider latest versions in
  (sortByHlc w_hlc (map_values versions), get_as as_hlc (wmKey spaceId) s).

(** ** Publishing *)

(** Retain the newest [MAX_RECORD_HISTORY] versions: the excess keys at the
    front of the listing are deleted. *)
Definition appendHistory (record : CookieRecordWire) (s : S) : S :=
  let s := hs_put (histKey (w_spaceId record) (w_recordId record) (w_hlc record))
             (VRecord record) s in
  let versions := hs_list (histPrefix (w_spaceId record) (w_recordId record)) s in
  let excess := (length versions - MAX_RECORD_HISTORY)%nat in
  hs_delete_all (map fst (take excess versions)) s.

(** The publish loop's accumulators. *)
Record Publish := mkPublish {
  pb_store : S;
  pb_accepted : list string;
  pb_rejected : list PublishRejection;
  pb_bySpace : jsmap string (list CookieRecordWire);
  pb_windows : jsmap string (list Z);
  pb_rateLimited : bool
}.

Definition reject (r : CookieRecordWire) (why : RejectReason) (p : Publish) : Publish :=
  mkPublish (pb_store p) (pb_accepted p) (pb_rejected p ++ [mkRejection (w_recordId r) why])
    (pb_bySpace p) (pb_windows p) (pb_rateLimited p).

(** Drop the readings that left the rate window. *)
Fixpoint prune_window (cutoff : Z) (window : list Z) : list Z :=
  match window with
  | [] => []
  | head :: rest => if head >? cutoff then window else prune_window cutoff rest
  end.

(** The guards of the publish loop, in order: a live lease held elsewhere, a
    stored version at least as new, the device's rate window for the origin. *)
Definition lease_blocks (nowMs : Z) (device : string) (r : CookieRecordWire) (s : S) : bool :=
  match get_as as_lease (leaseKey (w_spaceId r) (w_originId r)) s with
  | Some lease => negb (String.eqb (le_holderDeviceId lease) device)
                  && (le_expiresAtMs lease >? nowMs)
  | None => false
  end.

Definition is_stale (r : CookieRecordWire) (s : S) : bool :=
  match get_as as_record (recKey (w_spaceId r) (w_recordId r)) s with
  | Some stored => compareHlc (w_hlc stored) (w_hlc r) >=? 0
  | None => false
  end.

Definition rate_window (nowMs : Z) (device : string) (r : CookieRecordWire) (p : Publish) : list Z :=
  prune_window (nowMs - RATE_WINDOW_MS)
    match map_get (rateKey device (w_originId r)) (pb_windows p) with
    | Some window => window
    | None => default [] (get_as as_times (rateKey device (w_originId r)) (pb_store p))
    end.

Definition accept (nowMs : Z) (device : string) (r : CookieRecordWire) (p : Publish) : Publish :=
  mkPublish
    (appendHistory r (hs_put (recKey (w_spaceId r) (w_recordId r)) (VRecord r) (pb_store p)))
    (pb_accepted p ++ [w_recordId r]) (pb_rejected p)
    (map_set (w_spaceId r) (default [] (map_get (w_spaceId r) (pb_bySpace p)) ++ [r])
       (pb_bySpace p))
    (map_set (rateKey device (w_originId r)) (rate_window nowMs device r p ++ [nowMs])
       (pb_windows p))
    (pb_rateLimited p).

Definition throttle (nowMs : Z) (device : string) (r : CookieRecordWire) (p : Publish) : Publish :=
  mkPublish (pb_store p) (pb_accepted p)
    (pb_rejected p ++ [mkRejection (w_recordId r) stale_rejection]) (pb_bySpace p)
    (map_set (rateKey device (w_originId r)) (rate_window nowMs device r p) (pb_windows p)) true.

Definition publish_one (nowMs : Z) (device : string) (declared : list string)
    (p : Publish) (record : CookieRecordWire) : Publish :=
  if negb (bool_decide (w_spaceId record ∈ declared)) then reject record malformed_rejection p
  else if lease_blocks nowMs device record (pb_store p) then reject record lease_required p
  else if is_stale record (pb_store p) then reject record stale_rejection p
  else if (MAX_MUTATIONS_PER_ORIGIN_PER_MINUTE <=? length (rate_window nowMs device record p))%nat
  then throttle nowMs device record p
  else accept nowMs device record p.

Definition publish_all (nowMs : Z) (device : string) (declared : list string)
    (rs : list CookieRecordWire) (s : S) : Publish :=
  fold_left (publish_one nowMs device declared) rs
    (mkPublish s [] [] jsmap_empty jsmap_empty false).

(** The watermark of a space after accepting [rs]. *)
Definition max_hlc (current : option Hlc) (rs : list CookieRecordWire) : option Hlc :=
  fold_left (λ m r, match m with
                    | None => Some (w_hlc r)
                    | Some m' => if compareHlc (w_hlc r) m' >? 0 then Some (w_hlc r) else m
                    end) rs current.

Definition update_watermark (s : S) (group : string * list CookieRecordWire) : S :=
  let '(spaceId, rs) := group in
  let current := get_as as_hlc (wmKey spaceId) s in
  match max_hlc current rs with
  | None => s
  | Some m =>
      if match current with None => true | Some c => compareHlc m c >? 0 end
      then hs_put (wmKey spaceId) (VHlc m) s else s
  end.

(** A peer's declared spaces are re-read before fan-out. *)
Definition refresh_peer (s : S) (c : HubConnection) : HubConnection :=
  match hc_deviceId c with
  | None => c
  | Some d => mkConn (Some d) (hc_connectionId c) (declaredSpaces d (hc_connectionId c) s)
  end.

Definition handlePublish (now : Z) (device : string) (rs : list CookieRecordWire) (h : Hub) : Hub :=
  let p := publish_all now device (hc_spaceIds (hub_sender h)) rs (hub_store h) in
  let s := fold_left (λ s '(k, w), hs_put k (VTimes w) s) (pb_windows p) (pb_store p) in
  let s := fold_left update_watermark (pb_bySpace p) s in
  let h := with_store (λ _, s) h in
  let h := reply (SPublishAck (pb_accepted p) (pb_rejected p)) h in
  let h := if pb_rateLimited p
           then reply (SError "rate_limited" "over 120 mutations/origin/minute") h else h in
  let h := if (0 <? map_size (pb_bySpace p))%nat
           then with_others (map (refresh_peer s) (hub_others h)) h else h in
  fold_left (λ h '(spaceId, group),
      send_peers (λ c, bool_decide (spaceId ∈ hc_spaceIds c)) (SRecords spaceId group) h)
    (pb_bySpace p) h.

(** ** Hydrate frames *)

Definition handleHydrate (spaceId : string) (sinceHlc : option Hlc) (h : Hub) : Hub :=
  let '(rs, watermark) := hydrateSpace spaceId sinceHlc (hub_store h) in
  let h := fold_left (λ h chunk, reply (SRecords spaceId chunk) h)
             (chunks (length rs) HYDRATE_CHUNK_SIZE rs) h in
  reply (SHydrateDone spaceId (Z.of_nat (length rs)) watermark) h.

(** ** Leases *)

Definition handleLeaseAcquire (now : Z) (device spaceId originId : string) (force : option bool)
    (recordId : option string) (candidateHlc : option Hlc) (ttlMs : option Z) (h : Hub) : Hub :=
  let key := leaseKey spaceId originId in
  let live := match get_as as_lease key (hub_store h) with
              | Some e => if le_expiresAtMs e >? now then Some e else None
              | None => None
              end in
  let foreign := match live with
                 | Some l => negb (String.eqb (le_holderDeviceId l) device)
                 | None => false
                 end in
  let denied := match live with
                | Some l => reply (SLeaseDenied spaceId originId (le_holderDeviceId l)
                                     (le_expiresAtMs l)) h
                | None => h
                end in
  let forced := bool_decide (force = Some true) in
  if foreign && negb forced then denied
  else if foreign && forced &&
          (let stored := recordId ≫= λ r, get_as as_record (recKey spaceId r) (hub_store h) in
           match recordId, candidateHlc with
           | Some _, Some candidate =>
               match stored with
               | Some st => negb (String.eqb (w_originId st) originId)
                            || (compareHlc candidate (w_hlc st) <=? 0)
               | None => false
               end
           | _, _ => true
           end)
  then denied
  else
    let ttl := Z.min (default ORIGIN_LEASE_TTL_MS ttlMs) MAX_LEASE_TTL_MS in
    let lease := mkLease spaceId originId device (now + ttl) in
    let h := with_store (hs_put key (VLease lease)) h in
    let h := reply (SLeaseGranted spaceId originId device (now + ttl)) h in
    match live with
    | Some l =>
        if foreign
        then send_peers (λ c, bool_decide (hc_deviceId c = Some (le_holderDeviceId l)))
               (SLeaseRevoked spaceId originId device) h
        else h
    | None => h
    end.

Definition handleLeaseRelease (device spaceId originId : string) (h : Hub) : Hub :=
  let key := leaseKey spaceId originId in
  match get_as as_lease key (hub_store h) with
  | Some e => if String.eqb (le_holderDeviceId e) device then with_store (hs_delete key) h else h
  | None => h
  end.

(** ** Rollback *)

(** The newest retained version at or below the target: the last one kept, as
    keys ascend in timestamp order. *)
Definition survivor (toHlc : Hlc) (versions : list (string * CookieRecordWire))
    : option CookieRecordWire :=
  last (map snd (List.filter (λ '(_, v), negb (compareHlc (w_hlc v) toHlc >? 0)) versions)).

Definition rollback_one (spaceId originId : string) (toHlc : Hlc) (s : S)
    (entry : string * CookieRecordWire) : S :=
  let '(key, record) := entry in
  if negb (String.eqb (w_spaceId record) spaceId) || negb (String.eqb (w_originId record) originId)
  then s
  else if compareHlc (w_hlc record) toHlc <=? 0 then s
  else
    let versions := list_as as_record (histPrefix spaceId (w_recordId record)) s in
    let s := hs_delete_all
      (map fst (List.filter (λ '(_, v), compareHlc (w_hlc v) toHlc >? 0) versions)) s in
    match survivor toHlc versions with
    | None => hs_delete key s
    | Some v => hs_put key (VRecord v) s
    end.

Definition handleRollback (spaceId originId : string) (toHlc : Hlc) (h : Hub) : Hub :=
  if negb (bool_decide (spaceId ∈ hc_spaceIds (hub_sender h)))
  then reply (SError "malformed" "space not declared in hello") h
  else
    let stored := list_as as_record (recPrefix spaceId) (hub_store h) in
    let h := with_store (λ s, fold_left (rollback_one spaceId originId toHlc) stored s) h in
    let applied := SRollbackApplied spaceId originId toHlc in
    send_peers (λ _, true) applied (reply applied h).

(** ** Workspace documents *)

Definition workspace_one (acc : S * list WorkspaceRecordWire) (doc : WorkspaceRecordWire)
    : S * list WorkspaceRecordWire :=
  let '(s, winners) := acc in
  if match get_as as_workspace (workspaceKey (ws_key doc)) s with
     | Some existing => compareHlc (ws_hlc existing) (ws_hlc doc) >=? 0
     | None => false
     end
  then (s, winners)
  else (hs_put (workspaceKey (ws_key doc)) (VWorkspace doc) s, winners ++ [doc]).

Definition handleWorkspacePublish (docs : list WorkspaceRecordWire) (h : Hub) : Hub :=
  let '(s, winners) := fold_left workspace_one docs (hub_store h, []) in
  let h := with_store (λ _, s) h in
  match winners with
  | [] => h
  | _ => send_peers (λ _, true) (SWorkspaceRecords winners) h
  end.

Definition handleWorkspaceHydrate (sinceHlc : option Hlc) (h : Hub) : Hub :=
  let stored := map snd (list_as as_workspace "ws:" (hub_store h)) in
  let docs := sortByHlc ws_hlc
    (List.filter (λ d, match sinceHlc with
                       | None => true
                       | Some since => compareHlc (ws_hlc d) since >? 0 end) stored) in
  let h := fold_left (λ h chunk, reply (SWorkspaceRecords chunk) h)
             (chunks (length docs) HYDRATE_CHUNK_SIZE docs) h in
  reply (SWorkspaceHydrateDone (Z.of_nat (length docs))) h.

(** ** Hello, frames, revocation *)

Definition handleHello (now : Z) (claimed : string) (spaceIds : list string) (h : Hub) : Hub :=
  let device := default claimed (hc_deviceId (hub_sender h)) in
  if isRevoked device (hub_store h) then close_sender CLOSE_REVOKED "revoked" h
  else if (MAX_DECLARED_SPACES <? length spaceIds)%nat
  then reply (SError "too_many_spaces" "declare at most 64 spaces") h
  else
    let sender := mkConn (Some device) (hc_connectionId (hub_sender h)) spaceIds in
    let h := with_sender sender h in
    let h := with_store (hs_put (connectionStorageKey device (hc_connectionId sender))
                           (VSpaces spaceIds)) h in
    let h := with_store (hs_put (presenceKey device) (VPresence (mkPresenceEntry device now))) h in
    let presence := presenceSnapshot (sender :: hub_others h) (hub_store h) in
    let h := reply (SHelloAck now presence) h in
    send_peers (λ _, true) (SPresence [mkPresence device true now]) h.

(** A frame: [None] is text that fails validation. *)
Definition handleMessage (now : Z) (frame : option ClientMessage) (h : Hub) : Hub :=
  match frame with
  | None => reply (SError "malformed" "frame failed validation") h
  | Some (MHello device spaceIds) => handleHello now device spaceIds h
  | Some msg =>
      match hc_deviceId (hub_sender h) with
      | None => reply (SError "hello_required" "send hello before other frames") h
      | Some device =>
          if isRevoked device (hub_store h) then close_sender CLOSE_REVOKED "revoked" h
          else
            let conn := hc_connectionId (hub_sender h) in
            let h := with_sender
              (mkConn (Some device) conn (declaredSpaces device conn (hub_store h))) h in
            match msg with
            | MHello _ _ => h
            | MPublish rs => handlePublish now device rs h
            | MHydrate sp since => handleHydrate sp since h
            | MLeaseAcquire sp o force r c ttl => handleLeaseAcquire now device sp o force r c ttl h
            | MLeaseRelease sp o => handleLeaseRelease device sp o h
            | MRollback sp o to => handleRollback sp o to h
            | MWorkspacePublish docs => handleWorkspacePublish docs h
            | MWorkspaceHydrate since => handleWorkspaceHydrate since h
            | MPing => reply SPong h
            end
      end
  end.

(** Revocation: the connections to close are returned with the hub. *)
Definition revokeDevice (now : Z) (device : string) (connections : list HubConnection) (s : S)
    : S * list HubEffect * list HubConnection :=
  let s := hs_put (revokedKey device) VTrue s in
  let s := hs_delete (legacyConnKey device) s in
  let s := hs_delete_all (map fst (connectionBindings device s)) s in
  let s := hs_delete (presenceKey device) s in
  let update := SPresence [mkPresence device false now] in
  (s,
   map (λ c, Send (hc_connectionId c) update)
     (List.filter (λ c, negb (bool_decide (hc_deviceId c = Some device))) connections),
   List.filter (λ c, bool_decide (hc_deviceId c = Some device)) connections).

(** ** Closing a socket *)

(** First half: drop the binding and, when the device has no other socket,
    release its leases.  [None] means the handler is done. *)
Definition close_begin (conn : HubConnection) (others : list HubConnection) (s : S)
    : S * option string :=
  match hc_deviceId conn with
  | None => (s, None)
  | Some device =>
      let s := hs_delete (connectionStorageKey device (hc_connectionId conn)) s in
      if existsb (λ c, bool_decide (hc_deviceId c = Some device)) others then (s, None)
      else if isRevoked device s then (s, None)
      else if (0 <? length (connectionBindings device s))%nat then (s, None)
      else
        let leases := list_as as_lease "lease:" s in
        (hs_delete_all (map fst (List.filter (λ '(_, l),
           String.eqb (le_holderDeviceId l) device) leases)) s, Some device)
  end.

(** Second half, after other handlers may have run. *)
Definition close_finish (now : Z) (device : string) (others : list HubConnection) (s : S)
    : S * list HubEffect :=
  if (0 <? length (connectionBindings device s))%nat then (s, [])
  else
    let s := hs_delete (legacyConnKey device) s in
    let s := hs_put (presenceKey device) (VPresence (mkPresenceEntry device now)) s in
    (s, map (λ c, Send (hc_connectionId c) (SPresence [mkPresence device false now])) others).

Definition handleClose (now : Z) (conn : HubConnection) (others : list HubConnection) (s : S)
    : S * list HubEffect :=
  match close_begin conn others s with
  | (s, None) => (s, [])
  | (s, Some device) => close_finish now device others s
  end.
End HubCore.

Arguments Hub : clear implicits.
Arguments Publish : clear implicits.

(** ** The hub as a transition system over its storage *)

Section Steps.
Context {S : Type} `{HubStorage S}.

Inductive hub_step : S → S → Prop :=
| step_message now frame h : hub_step (hub_store h) (hub_store (handleMessage now frame h))
| step_revoke now device conns s : hub_step s (revokeDevice now device conns s).1.1
| step_close_begin conn others s : hub_step s (close_begin conn others s).1
| step_close_finish now device others s : hub_step s (close_finish now device others s).1.
End Steps.

(** ** Frames: which keys a handler can touch *)

Section Frames.
Context {S : Type} `{HL : HubStorageLaws S}.

(** Keys of the listed prefixes. *)
Definition under (ps : list string) (k : string) : bool := existsb (startsWith k) ps.

Lemma under_false p ps k : under ps k = false → p ∈ ps → startsWith k p = false.
Proof.
  intros Hu Hp. unfold under in Hu. destruct (startsWith k p) eqn:E; [|done].
  assert (existsb (startsWith k) ps = true); [|congruence].
  apply existsb_exists. exists p. split; [by apply list_elem_of_In|done].
Qed.

Lemma startsWith_prefix k p q : startsWith k (p +:+ q) = true → startsWith k p = true.
Proof.
  intros (t & ->)%startsWith_iff. apply startsWith_iff. exists (q +:+ t). apply sapp_assoc.
Qed.

Lemma key_ne k p t : startsWith k p = false → k ≠ p +:+ t.
Proof. intros Hk ->. by rewrite startsWith_app in Hk. Qed.

Lemma hs_list_key k v p s : (k, v) ∈ hs_list p s → startsWith k p = true.
Proof. by intros [? _]%hs_list_get. Qed.

Lemma list_as_key {A} (f : HubValue → option A) k v p s :
  (k, v) ∈ list_as f p s → startsWith k p = true.
Proof. by intros [? _]%list_as_get. Qed.

Lemma get_delete_listed k ks s p :
  startsWith k p = false → (∀ k', k' ∈ ks → startsWith k' p = true) →
  hs_get k (hs_delete_all ks s) = hs_get k s.
Proof.
  intros Hk Hks. rewrite get_delete_all, decide_False; [done|].
  intros Hin. apply Hks in Hin. congruence.
Qed.

Lemma appendHistory_get k r s :
  startsWith k "hist:" = false → hs_get k (appendHistory r s) = hs_get k s.
Proof.
  intros Hk. unfold appendHistory. rewrite (get_delete_listed _ _ _ "hist:"); [|done|].
  - rewrite hs_get_put, decide_False; [done|]. by apply key_ne.
  - intros k' ([? v] & -> & Hin)%list_elem_of_fmap. apply elem_of_take_in, hs_list_key in Hin. by eapply (startsWith_prefix _ "hist:").
Qed.

Lemma publish_one_get now d decl p r k :
  under ["hist:"; "rec:"] k = false →
  hs_get k (pb_store (publish_one now d decl p r)) = hs_get k (pb_store p).
Proof.
  intros Hk. unfold publish_one. do 4 (case_match; [done|]). cbn [pb_store accept].
  rewrite appendHistory_get by (eapply under_false; [done|set_solver]).
  rewrite hs_get_put, decide_False; [done|]. apply key_ne. eapply under_false; [done|set_solver].
Qed.

Lemma publish_all_get now d decl rs s k :
  under ["hist:"; "rec:"] k = false →
  hs_get k (pb_store (publish_all now d decl rs s)) = hs_get k s.
Proof.
  intros Hk. unfold publish_all.
  change s with (pb_store (mkPublish s [] [] jsmap_empty jsmap_empty false)) at 2.
  generalize (mkPublish s [] [] jsmap_empty jsmap_empty false) as p.
  induction rs as [|r rs IH]; intros p; simpl; [done|]. by rewrite IH, publish_one_get.
Qed.

Lemma put_windows_get (ws : jsmap string (list Z)) s k :
  (∀ k', k' ∈ map_keys ws → k' ≠ k) →
  hs_get k (fold_left (λ s '(k, w), hs_put k (VTimes w) s) ws s) = hs_get k s.
Proof.
  revert s. induction ws as [|[k' w] ws IH]; intros s Hk; simpl; [done|].
  rewrite IH by (intros; apply Hk; by right).
  rewrite hs_get_put, decide_False; [done|]. apply not_eq_sym, Hk. left.
Qed.

Lemma update_watermark_get g s k :
  k ≠ wmKey (fst g) → hs_get k (update_watermark s g) = hs_get k s.
Proof.
  intros Hk. destruct g as [sp rs]. unfold update_watermark.
  destruct (max_hlc _ rs); [|done]. case_match; [|done]. by rewrite hs_get_put, decide_False.
Qed.

Lemma update_watermarks_get gs s k :
  (∀ g, g ∈ gs → k ≠ wmKey (fst g)) → hs_get k (fold_left update_watermark gs s) = hs_get k s.
Proof.
  revert s. induction gs as [|g gs IH]; intros s Hk; simpl; [done|].
  rewrite IH by (intros; apply Hk; by right). apply update_watermark_get, Hk. left.
Qed.

(** Every rate window the loop touches has a rate key. *)
Lemma publish_all_windows now d decl rs s k :
  k ∈ map_keys (pb_windows (publish_all now d decl rs s)) → startsWith k "rl:" = true.
Proof.
  unfold publish_all.
  assert (∀ k, k ∈ map_keys (pb_windows (mkPublish s [] [] jsmap_empty jsmap_empty false)) →
    startsWith k "rl:" = true) as H0 by (intros ? ?%not_elem_of_nil; done).
  revert H0. generalize (mkPublish s [] [] jsmap_empty jsmap_empty false) as p.
  induction rs as [|r rs IH]; intros p Hp; simpl; [apply Hp|]. apply IH. intros k'.
  unfold publish_one. do 3 (case_match; [apply Hp|]).
  case_match; cbn [pb_windows throttle accept]; intros [->|?]%map_keys_set; auto;
    apply startsWith_iff; eexists; reflexivity.
Qed.

Lemma send_to_store c m (h : Hub S) : hub_store (send_to c m h) = hub_store h.
Proof. done. Qed.

Lemma send_peers_store t m (h : Hub S) : hub_store (send_peers t m h) = hub_store h.
Proof.
  unfold send_peers. generalize (hub_others h) as l. intros l. revert h.
  induction l as [|c l IH]; intros h; simpl; [done|]. rewrite IH. by destruct (t c).
Qed.

Lemma fold_reply_store {A} (f : A → ServerMessage) l (h : Hub S) :
  hub_store (fold_left (λ h c, reply (f c) h) l h) = hub_store h.
Proof. revert h. induction l as [|c l IH]; intros h; simpl; [done|]. by rewrite IH. Qed.

Lemma fold_send_store gs (h : Hub S) :
  hub_store (fold_left (λ h '(spaceId, group),
    send_peers (λ c, bool_decide (spaceId ∈ hc_spaceIds c)) (SRecords spaceId group) h) gs h)
  = hub_store h.
Proof.
  revert h. induction gs as [|[sp g] gs IH]; intros h; simpl; [done|].
  by rewrite IH, send_peers_store.
Qed.

(** The storage after a publish. *)
Definition published_store (now : Z) (d : string) (rs : list CookieRecordWire) (h : Hub S) : S :=
  let p := publish_all now d (hc_spaceIds (hub_sender h)) rs (hub_store h) in
  fold_left update_watermark (pb_bySpace p)
    (fold_left (λ s '(k, w), hs_put k (VTimes w) s) (pb_windows p) (pb_store p)).

Lemma handlePublish_store now d rs h :
  hub_store (handlePublish now d rs h) = published_store now d rs h.
Proof.
  unfold handlePublish, published_store. rewrite fold_send_store.
  destruct (pb_rateLimited _), (_ <? _)%nat; done.
Qed.

Lemma published_store_get now d rs h k :
  under ["rl:"; "wm:"] k = false →
  hs_get k (published_store now d rs h)
  = hs_get k (pb_store (publish_all now d (hc_spaceIds (hub_sender h)) rs (hub_store h))).
Proof.
  intros Hk. unfold published_store. rewrite update_watermarks_get, put_windows_get; [done| |].
  - intros k' Hk'%publish_all_windows ->.
    assert (startsWith k "rl:" = false); [eapply under_false; [done|set_solver]|congruence].
  - intros g _. apply key_ne. eapply under_false; [done|set_solver].
Qed.

Lemma handlePublish_get now d rs h k :
  under ["hist:"; "rec:"; "rl:"; "wm:"] k = false →
  hs_get k (hub_store (handlePublish now d rs h)) = hs_get k (hub_store h).
Proof.
  intros Hk. rewrite handlePublish_store, published_store_get, publish_all_get; [done| |];
    unfold under in *; simpl in *; bprop; by repeat match goal with H : _ = false |- _ => rewrite H end.
Qed.

Lemma rollback_one_get sp o to s e k :
  under ["hist:"; "rec:"] k = false → startsWith (fst e) "rec:" = true →
  hs_get k (rollback_one sp o to s e) = hs_get k s.
Proof.
  intros Hk He. destruct e as [key r]. cbn [fst] in He. unfold rollback_one.
  assert (k ≠ key) as Hne.
  { intros ->. assert (startsWith key "rec:" = false); [|congruence].
    eapply under_false; [done|set_solver]. }
  do 2 (case_match; [done|]).
  assert (∀ s', hs_get k (hs_delete_all
    (map fst (List.filter (λ '(_, v), compareHlc (w_hlc v) to >? 0)
       (list_as as_record (histPrefix sp (w_recordId r)) s))) s') = hs_get k s') as Hd.
  { intros s'. apply (get_delete_listed _ _ _ "hist:").
    - eapply under_false; [done|set_solver].
    - intros k' ([? v] & -> & Hin)%list_elem_of_fmap. apply In_filter_iff in Hin as [Hin _].
      apply list_as_key in Hin. by eapply (startsWith_prefix _ "hist:"). }
  case_match.
  - rewrite hs_get_put, decide_False by done. apply Hd.
  - rewrite hs_get_delete, decide_False by done. apply Hd.
Qed.

Lemma rollback_all_get sp o to es s k :
  under ["hist:"; "rec:"] k = false → (∀ e, e ∈ es → startsWith (fst e) "rec:" = true) →
  hs_get k (fold_left (rollback_one sp o to) es s) = hs_get k s.
Proof.
  intros Hk. revert s. induction es as [|e es IH]; intros s Hes; simpl; [done|].
  rewrite IH by (intros; apply Hes; by right). apply rollback_one_get; [done|]. apply Hes. left.
Qed.

Lemma rec_listed sp s e : e ∈ list_as as_record (recPrefix sp) s → startsWith (fst e) "rec:" = true.
Proof. destruct e as [k r]. intros Hin%list_as_key. by eapply (startsWith_prefix _ "rec:"). Qed.

Lemma workspace_fold_get docs acc k :
  startsWith k "ws:" = false → hs_get k (fold_left workspace_one docs acc).1 = hs_get k acc.1.
Proof.
  intros Hk. revert acc. induction docs as [|d docs IH]; intros [s w]; simpl; [done|].
  rewrite IH. case_match; [done|]. simpl. rewrite hs_get_put, decide_False; [done|].
  by apply key_ne.
Qed.

(** What the frames other than a publish touch, and what they all touch. *)
Definition quiet_prefixes : list string :=
  ["hist:"; "rec:"; "lease:"; "ws:"; "conn:"; "presence:"].
Definition hub_prefixes : list string := "rl:" :: "wm:" :: quiet_prefixes.

Lemma under_sub ps qs k : under qs k = false → ps ⊆ qs → under ps k = false.
Proof.
  intros Hq Hsub. unfold under. apply not_true_is_false. intros (p & Hp & Hk)%existsb_exists.
  apply list_elem_of_In, Hsub in Hp. assert (startsWith k p = false) by by eapply under_false.
  congruence.
Qed.

Ltac under_now := first [done | eapply under_sub; [eassumption|set_solver]
  | eapply under_false; [eassumption|set_solver]].

Lemma handleMessage_quiet now f h k :
  (∀ rs, f ≠ Some (MPublish rs)) → under quiet_prefixes k = false →
  hs_get k (hub_store (handleMessage now f h)) = hs_get k (hub_store h).
Proof.
  intros Hf Hk.
  assert (∀ p t, p ∈ quiet_prefixes → k ≠ p +:+ t) as Hne
    by (intros p t Hp; apply key_ne; by eapply under_false).
  unfold handleMessage. destruct f as [m|]; [|done].
  destruct m; cbv match; [|by edestruct Hf|..].
  - unfold handleHello. do 2 (case_match; [done|]). rewrite send_peers_store. simpl.
    rewrite !hs_get_put, !decide_False; [done|..].
    + apply (Hne "conn:"). set_solver.
    + apply (Hne "presence:"). set_solver.
  - case_match; [|done]. case_match; [done|]. unfold handleHydrate.
    destruct (hydrateSpace _ _ _) as [rs wm]. cbn [hub_store reply send_to].
    by rewrite fold_reply_store.
  - case_match; [|done]. case_match; [done|]. unfold handleLeaseAcquire. cbn zeta.
    assert (∀ s' v, hs_get k (hs_put (leaseKey spaceId originId) v s') = hs_get k s') as Hl.
    { intros s' v. rewrite hs_get_put, decide_False; [done|]. apply (Hne "lease:"). set_solver. }
    repeat (case_match; try done); simpl; rewrite ?send_peers_store; simpl; apply Hl.
  - case_match; [|done]. case_match; [done|]. unfold handleLeaseRelease.
    do 2 (case_match; [|done]). simpl. rewrite hs_get_delete, decide_False; [done|].
    apply (Hne "lease:"). set_solver.
  - case_match; [|done]. case_match; [done|]. unfold handleRollback. case_match; [done|].
    rewrite send_peers_store. simpl. apply rollback_all_get; [under_now|].
    intros. by eapply rec_listed.
  - case_match; [|done]. case_match; [done|]. unfold handleWorkspacePublish.
    pose proof (workspace_fold_get docs (hub_store h, []) k) as Hw.
    cbn [hub_store with_sender]. destruct (fold_left workspace_one docs _) as [s' w]. cbn [fst] in Hw.
    destruct w; rewrite ?send_peers_store; cbn [hub_store with_store]; apply Hw; under_now.
  - case_match; [|done]. case_match; [done|]. unfold handleWorkspaceHydrate.
    cbn [hub_store reply send_to]. by rewrite fold_reply_store.
  - by repeat case_match.
Qed.

(** No frame touches a key outside the hub's data prefixes. *)
Lemma handleMessage_get now f h k :
  under hub_prefixes k = false → hs_get k (hub_store (handleMessage now f h)) = hs_get k (hub_store h).
Proof.
  intros Hk. destruct f as [m|]; [|done]. destruct m; try (apply handleMessage_quiet; [done|under_now]).
  unfold handleMessage. case_match; [|done]. case_match; [done|].
  rewrite handlePublish_get by under_now. done.
Qed.

Lemma close_begin_get conn others s k :
  under quiet_prefixes k = false → hs_get k (close_begin conn others s).1 = hs_get k s.
Proof.
  intros Hk. unfold close_begin. destruct (hc_deviceId conn) as [d|]; [|done].
  assert (∀ s', hs_get k (hs_delete (connectionStorageKey d (hc_connectionId conn)) s') = hs_get k s')
    as Hd.
  { intros s'. rewrite hs_get_delete, decide_False; [done|].
    apply (key_ne k "conn:"). under_now. }
  do 3 (case_match; [apply Hd|]). cbn [fst].
  rewrite (get_delete_listed _ _ _ "lease:"); [apply Hd|under_now|].
  intros k' ([? v] & -> & Hin)%list_elem_of_fmap. apply In_filter_iff in Hin as [Hin _].
  by eapply list_as_key.
Qed.

Lemma close_finish_get now d others s k :
  under quiet_prefixes k = false → hs_get k (close_finish now d others s).1 = hs_get k s.
Proof.
  intros Hk. unfold close_finish. case_match; [done|]. cbn [fst].
  rewrite hs_get_put, hs_get_delete, !decide_False; [done|..]; apply key_ne; under_now.
Qed.

Lemma revokeDevice_get now d conns s k :
  under ["conn:"; "presence:"] k = false →
  hs_get k (revokeDevice now d conns s).1.1
  = if decide (k = revokedKey d) then Some VTrue else hs_get k s.
Proof.
  intros Hk. unfold revokeDevice. cbn [fst].
  rewrite hs_get_delete, decide_False by (apply key_ne; under_now).
  rewrite (get_delete_listed _ _ _ "conn:"); [|under_now|].
  - rewrite hs_get_delete, decide_False by (apply key_ne; under_now). apply hs_get_put.
  - intros k' ([? v] & -> & Hin)%list_elem_of_fmap. apply list_as_key in Hin.
    by eapply (startsWith_prefix _ "conn:").
Qed.

Lemma hub_step_revoked s s' d :
  hub_step s s' → isRevoked d s = true → isRevoked d s' = true.
Proof.
  assert (under hub_prefixes (revokedKey d) = false) as Hk by done.
  unfold isRevoked. destruct 1 as [now f h|now d' conns s|conn others s|now d' others s]; intros Hr.
  - by rewrite handleMessage_get.
  - rewrite revokeDevice_get by done. by destruct (decide _).
  - by rewrite close_begin_get.
  - by rewrite close_finish_get.
Qed.
End Frames.
