(* ===== verification/HubProps.v ===== *)
(** * What the session hub guarantees

    Revocation, guarded publishing, watermarks, retention, hydration, leases,
    rollback and workspace documents: the theorems about HubCore.v, over any
    storage that satisfies [HubStorageLaws]. *)

From S2P Require Export HubCore.
From Stdlib Require Import Ascii.

(** A sorted listing is determined by its entries. *)
Lemma hs_list_unique {A} (l1 l2 : list (string * A)) :
  StronglySorted (λ a b, str_lt (fst a) (fst b)) l1 →
  StronglySorted (λ a b, str_lt (fst a) (fst b)) l2 → (∀ x, x ∈ l1 ↔ x ∈ l2) → l1 = l2.
Proof.
  intros H1 H2 Hx.
  assert (AntiSymm (=) (λ a b : string * A, str_lt (fst a) (fst b))) as Ha.
  { intros a b Hab Hba. exfalso. apply (str_lt_irrefl a.1). by eapply str_lt_trans. }
  apply (StronglySorted_unique _ l1 l2 H1 H2), NoDup_Permutation; [| |done];
    eapply NoDup_fmap_1, sorted_keys_nodup; eassumption.
Qed.

(** ** What a publish means

    The verdict on a record depends on the storage and on the records of the
    batch accepted before it. *)

Inductive Verdict := Accepted | Refused (why : RejectReason) | Throttled.
Abbreviation Verdicts := (list (CookieRecordWire * Verdict)).

Definition accepted (vs : Verdicts) : list CookieRecordWire :=
  omap (λ '(r, v), match v with Accepted => Some r | _ => None end) vs.
(** What the publisher is told: a throttled record is reported as stale. *)
Definition rejections (vs : Verdicts) : list PublishRejection :=
  omap (λ '(r, v), match v with
                   | Accepted => None
                   | Refused why => Some (mkRejection (w_recordId r) why)
                   | Throttled => Some (mkRejection (w_recordId r) stale_rejection)
                   end) vs.
Definition some_throttled (vs : Verdicts) : bool :=
  existsb (λ '(_, v), match v with Throttled => true | _ => false end) vs.

Definition record_key (r : CookieRecordWire) : string := recKey (w_spaceId r) (w_recordId r).
Definition of_key (k : string) : list CookieRecordWire → list CookieRecordWire :=
  List.filter (λ r, String.eqb (record_key r) k).
Definition of_space (sp : string) : list CookieRecordWire → list CookieRecordWire :=
  List.filter (λ r, String.eqb (w_spaceId r) sp).
Definition of_origin (o : string) : list CookieRecordWire → list CookieRecordWire :=
  List.filter (λ r, String.eqb (w_originId r) o).

Section Meaning.
Context {S : Type} `{HubStorage S} (now : Z) (d : string) (declared : list string) (s : S).

(** The version of a key once the records [A] were accepted, in order. *)
Definition version_of (A : list CookieRecordWire) (k : string) : option CookieRecordWire :=
  match last (of_key k A) with Some r => Some r | None => get_as as_record k s end.

(** The mutations of the last minute: the stamps stored for the device and the
    origin, and what was accepted meanwhile. *)
Definition stamps (o : string) : list Z := default [] (get_as as_times (rateKey d o) s).
Definition recent (w : list Z) : list Z := List.filter (λ t, now - 60000 <? t) w.
Definition mutations (A : list CookieRecordWire) (o : string) : nat :=
  (length (recent (stamps o)) + length (of_origin o A))%nat.

(** The stored stamps are in order and the clock did not go back. *)
Definition in_order (w : list Z) : Prop := StronglySorted Z.le w ∧ Forall (λ t, t <= now) w.
Definition windows_ok : Prop := ∀ o, in_order (stamps o).

(** Another device holds a lease on the record's origin that has not expired. *)
Definition leased_elsewhere (r : CookieRecordWire) : Prop :=
  ∃ l, get_as as_lease (leaseKey (w_spaceId r) (w_originId r)) s = Some l
    ∧ le_holderDeviceId l ≠ d ∧ now < le_expiresAtMs l.

Inductive judged (A : list CookieRecordWire) (r : CookieRecordWire) : Verdict → Prop :=
| J_undeclared : w_spaceId r ∉ declared → judged A r (Refused malformed_rejection)
| J_leased : w_spaceId r ∈ declared → leased_elsewhere r → judged A r (Refused lease_required)
| J_stale v : w_spaceId r ∈ declared → ¬ leased_elsewhere r →
    version_of A (record_key r) = Some v → hlc_le (w_hlc r) (w_hlc v) → judged A r (Refused stale_rejection)
| J_throttled : w_spaceId r ∈ declared → ¬ leased_elsewhere r →
    (∀ v, version_of A (record_key r) = Some v → hlc_lt (w_hlc v) (w_hlc r)) →
    (120 <= mutations A (w_originId r))%nat → judged A r Throttled
| J_accepted : w_spaceId r ∈ declared → ¬ leased_elsewhere r →
    (∀ v, version_of A (record_key r) = Some v → hlc_lt (w_hlc v) (w_hlc r)) →
    (mutations A (w_originId r) < 120)%nat → judged A r Accepted.

Inductive judged_all : Verdicts → Prop :=
| JA_nil : judged_all []
| JA_next vs r v : judged_all vs → judged (accepted vs) r v → judged_all (vs ++ [(r, v)]).
End Meaning.

Lemma of_snoc (f : CookieRecordWire → bool) A r :
  List.filter f (A ++ [r]) = if f r then List.filter f A ++ [r] else List.filter f A.
Proof. rewrite List.filter_app. cbn. destruct (f r); [done|]. by rewrite app_nil_r. Qed.

Section Publish.
Context {S : Type} `{HL : HubStorageLaws S}.

Lemma lease_blocks_iff now d r (s : S) : lease_blocks now d r s = true ↔ leased_elsewhere now d s r.
Proof.
  unfold lease_blocks, leased_elsewhere. destruct (get_as as_lease _ s) as [l|].
  - rewrite andb_true_iff, negb_true_iff, String.eqb_neq, Z.gtb_lt. split.
    + intros [? ?]. by exists l.
    + intros (? & [= <-] & ? & ?). done.
  - split; [done|]. by intros (? & ? & _).
Qed.

Lemma lease_blocks_false now d r (s : S) : lease_blocks now d r s = false ↔ ¬ leased_elsewhere now d s r.
Proof. by rewrite <- lease_blocks_iff, not_true_iff_false. Qed.

Lemma rec_key_not_hist k : startsWith k "rec:" = true → startsWith k "hist:" = false.
Proof. intros (t & ->)%startsWith_iff. done. Qed.

Lemma rateKey_inj d o o' : rateKey d o = rateKey d o' → o = o'.
Proof. unfold rateKey. by intros ?%sapp_inj_l%sapp_inj_l%sapp_inj_l. Qed.

Lemma publish_all_app now d decl rs r s :
  publish_all now d decl (rs ++ [r]) s = publish_one now d decl (publish_all now d decl rs s) r.
Proof. unfold publish_all. by rewrite fold_left_app. Qed.

(** ** Rate windows *)

Lemma prune_window_sorted c w : StronglySorted Z.le w → prune_window c w = List.filter (λ t, c <? t) w.
Proof.
  induction 1 as [|t w Hs IH Ht]; [done|]. cbn. rewrite Z.gtb_ltb. destruct (c <? t) eqn:E; [|exact IH].
  f_equal. symmetry. apply List.forallb_filter_id, forallb_forall. intros x Hx%list_elem_of_In.
  rewrite Forall_forall in Ht. specialize (Ht x Hx). apply Z.ltb_lt in E. apply Z.ltb_lt. lia.
Qed.

Lemma in_order_filter now (f : Z → bool) w : in_order now w → in_order now (List.filter f w).
Proof.
  intros [Hs Ha]. split.
  - induction Hs as [|t w Hs IH Ht]; [constructor|]. apply Forall_cons in Ha as [? Ha]. cbn. specialize (IH Ha).
    destruct (f t); [|done]. constructor; [done|]. apply Forall_forall. intros x [Hx _]%In_filter_iff.
    by eapply Forall_forall in Ht.
  - apply Forall_forall. intros x [Hx _]%In_filter_iff. by eapply Forall_forall in Ha.
Qed.

Lemma in_order_now now w : in_order now w → in_order now (w ++ [now]).
Proof.
  intros [Hs Ha]. split; [|by apply Forall_app; repeat constructor; try done; apply Z.le_refl].
  induction Hs as [|t w Hs IH Ht]; [repeat constructor|]. apply Forall_cons in Ha as [? Ha].
  constructor; [by apply IH|]. apply Forall_app. by repeat constructor.
Qed.

(** ** The loop gives the verdicts *)

Section Batch.
Context (now : Z) (d : string) (declared : list string) (s : S).

(** The window the loop works on. *)
Definition window_of (p : Publish S) (o : string) : list Z :=
  match map_get (rateKey d o) (pb_windows p) with
  | Some w => w
  | None => default [] (get_as as_times (rateKey d o) (pb_store p))
  end.

Definition group_of (sp : string) (A : list CookieRecordWire) : option (list CookieRecordWire) :=
  match of_space sp A with [] => None | l => Some l end.

(** Where the loop is after the verdicts [vs]. *)
Record batch_ok (vs : Verdicts) (p : Publish S) : Prop := {
  bo_other k : under ["hist:"; "rec:"] k = false → hs_get k (pb_store p) = hs_get k s;
  bo_version k : startsWith k "rec:" = true → get_as as_record k (pb_store p) = version_of s (accepted vs) k;
  bo_accepted : pb_accepted p = map w_recordId (accepted vs);
  bo_rejected : pb_rejected p = rejections vs;
  bo_limited : pb_rateLimited p = some_throttled vs;
  bo_groups sp : map_get sp (pb_bySpace p) = group_of sp (accepted vs);
  bo_window o : in_order now (window_of p o)
    ∧ recent now (window_of p o) = recent now (stamps d s o) ++ replicate (length (of_origin o (accepted vs))) now
}.

Lemma batch_start : windows_ok now d s → batch_ok [] (mkPublish s [] [] jsmap_empty jsmap_empty false).
Proof. intros Hw. split; try done. intros o. split; [apply Hw|]. by rewrite app_nil_r. Qed.

Lemma batch_window vs p r : batch_ok vs p → rate_window now d r p = recent now (window_of p (w_originId r))
  ∧ length (rate_window now d r p) = mutations now d s (accepted vs) (w_originId r).
Proof.
  intros Hp. destruct (bo_window _ _ Hp (w_originId r)) as [[Hs _] Hr].
  assert (rate_window now d r p = recent now (window_of p (w_originId r))) as E.
  { unfold rate_window. fold (window_of p (w_originId r)). by apply prune_window_sorted. }
  split; [exact E|]. rewrite E, Hr. unfold mutations. by rewrite length_app, length_replicate.
Qed.

Lemma batch_lease vs p r : batch_ok vs p → lease_blocks now d r (pb_store p) = lease_blocks now d r s.
Proof. intros Hp. unfold lease_blocks, get_as. by rewrite (bo_other _ _ Hp). Qed.

Lemma recent_recent w : recent now (recent now w) = recent now w.
Proof.
  unfold recent. apply List.forallb_filter_id, forallb_forall. intros x Hx.
  apply filter_In in Hx. apply Hx.
Qed.

Lemma window_of_set p o o' w ps :
  pb_windows p = map_set (rateKey d o) w ps →
  window_of p o' = if decide (o' = o) then w else match map_get (rateKey d o') ps with
    Some w => w | None => default [] (get_as as_times (rateKey d o') (pb_store p)) end.
Proof.
  intros E. unfold window_of. rewrite E. destruct (decide (o' = o)) as [->|Hne]; [by rewrite map_get_set_eq|].
  rewrite map_get_set_ne; [done|]. by intros Hk%rateKey_inj.
Qed.

(** A refused record leaves the loop as it is, but for what it tells. *)
Lemma batch_reject vs p r why : batch_ok vs p → batch_ok (vs ++ [(r, Refused why)]) (reject r why p).
Proof.
  intros []. assert (accepted (vs ++ [(r, Refused why)]) = accepted vs) as E
    by (unfold accepted; rewrite omap_app; apply app_nil_r).
  split; rewrite ?E; try done; cbn.
  - rewrite bo_rejected0. unfold rejections. by rewrite omap_app.
  - rewrite bo_limited0. unfold some_throttled. rewrite existsb_app. by rewrite orb_false_r.
Qed.

Lemma batch_throttle vs p r : batch_ok vs p → batch_ok (vs ++ [(r, Throttled)]) (throttle now d r p).
Proof.
  intros Hp. assert (accepted (vs ++ [(r, Throttled)]) = accepted vs) as E
    by (unfold accepted; rewrite omap_app; apply app_nil_r).
  destruct (batch_window vs p r Hp) as [Hw _]. split; rewrite ?E; try apply Hp; cbn.
  - rewrite (bo_rejected _ _ Hp). unfold rejections. by rewrite omap_app.
  - unfold some_throttled. rewrite existsb_app. cbn. by rewrite orb_true_r.
  - intros o. rewrite (window_of_set (throttle now d r p) (w_originId r) o _ (pb_windows p) eq_refl).
    destruct (bo_window _ _ Hp o) as [Hi Hr]. case_decide as Ho; [|by split]. subst o.
    rewrite Hw, recent_recent. split; [by apply in_order_filter|exact Hr].
Qed.

Lemma version_snoc A r k :
  version_of s (A ++ [r]) k = if decide (k = record_key r) then Some r else version_of s A k.
Proof.
  unfold version_of, of_key. rewrite of_snoc. destruct (String.eqb_spec (record_key r) k) as [->|Hne].
  - by rewrite last_snoc, decide_True.
  - by rewrite decide_False.
Qed.

Lemma batch_accept vs p r : batch_ok vs p → batch_ok (vs ++ [(r, Accepted)]) (accept now d r p).
Proof.
  intros Hp. assert (accepted (vs ++ [(r, Accepted)]) = accepted vs ++ [r]) as E by (unfold accepted; by rewrite omap_app).
  destruct (batch_window vs p r Hp) as [Hw _].
  split; rewrite ?E; cbn [pb_store pb_accepted pb_rejected pb_rateLimited pb_bySpace accept].
  - intros k Hk. rewrite appendHistory_get by (eapply under_false; [done|set_solver]).
    rewrite hs_get_put, decide_False; [by apply (bo_other _ _ Hp)|]. apply key_ne. eapply under_false; [done|set_solver].
  - intros k Hk. rewrite version_snoc, <- (bo_version _ _ Hp) by done. apply rec_key_not_hist in Hk. unfold get_as.
    rewrite appendHistory_get, hs_get_put by done. unfold record_key. by destruct (decide _).
  - by rewrite (bo_accepted _ _ Hp), map_app.
  - rewrite (bo_rejected _ _ Hp). unfold rejections. by rewrite omap_app, app_nil_r.
  - rewrite (bo_limited _ _ Hp). unfold some_throttled. by rewrite existsb_app, orb_false_r.
  - intros sp. rewrite map_get_set, !(bo_groups _ _ Hp). unfold group_of, of_space. rewrite of_snoc.
    destruct (String.eqb_spec (w_spaceId r) sp) as [->|Hne]; [|by rewrite decide_False by congruence].
    rewrite decide_True by done. by destruct (List.filter _ _).
  - intros o. rewrite (window_of_set (accept now d r p) (w_originId r) o _ (pb_windows p) eq_refl).
    destruct (bo_window _ _ Hp o) as [Hi Hr]. unfold of_origin. rewrite of_snoc.
    destruct (String.eqb_spec (w_originId r) o) as [<-|Hne].
    + rewrite decide_True, Hw by done. split; [by apply in_order_now, in_order_filter|].
      unfold recent at 1. rewrite List.filter_app. fold (recent now (recent now (window_of p (w_originId r)))).
      rewrite recent_recent, Hr, length_app. cbn [List.filter length]. rewrite (proj2 (Z.ltb_lt (now - 60000) now)) by lia.
      rewrite Nat.add_1_r, <- app_assoc. f_equal. fold (of_origin (w_originId r) (accepted vs)).
      generalize (length (of_origin (w_originId r) (accepted vs))). intros n. induction n; [done|]. cbn in *. by f_equal.
    + rewrite decide_False by done. unfold window_of in *. cbn [pb_store accept]. split; [|].
      all: replace (get_as as_times (rateKey d o) (appendHistory r (hs_put (recKey (w_spaceId r) (w_recordId r)) (VRecord r) (pb_store p))))
        with (get_as as_times (rateKey d o) (pb_store p)); [done|].
      all: unfold get_as; rewrite appendHistory_get, hs_get_put, decide_False; done.
Qed.

(** One turn of the loop gives the verdict that the record deserves. *)
Lemma batch_next vs p r : batch_ok vs p →
  ∃ v, judged now d declared s (accepted vs) r v ∧ batch_ok (vs ++ [(r, v)]) (publish_one now d declared p r).
Proof.
  intros Hp. unfold publish_one. destruct (bool_decide (w_spaceId r ∈ declared)) eqn:Ed; bprop; cbn [negb];
    [|eexists; split; [by apply J_undeclared|by apply batch_reject]].
  rewrite (batch_lease vs p r Hp). destruct (lease_blocks now d r s) eqn:El.
  { apply lease_blocks_iff in El. eexists. split; [by apply J_leased|by apply batch_reject]. }
  apply lease_blocks_false in El.
  assert (get_as as_record (record_key r) (pb_store p) = version_of s (accepted vs) (record_key r)) as Ev
    by (by apply (bo_version _ _ Hp)).
  unfold is_stale. fold (record_key r). rewrite Ev. destruct (batch_window vs p r Hp) as [_ Hn]. rewrite Hn.
  assert (∀ v, version_of s (accepted vs) (record_key r) = Some v → (compareHlc (w_hlc v) (w_hlc r) >=? 0) = true →
    judged now d declared s (accepted vs) r (Refused stale_rejection)) as Hstale.
  { intros v Hv Hc. hlc_prop. by eapply J_stale. }
  assert (match version_of s (accepted vs) (record_key r) with
          | Some v => (compareHlc (w_hlc v) (w_hlc r) >=? 0) = false | None => True end →
    ∀ v, version_of s (accepted vs) (record_key r) = Some v → hlc_lt (w_hlc v) (w_hlc r)) as Hfresh.
  { intros Hm v Hv. rewrite Hv in Hm. by hlc_prop. }
  destruct (version_of s (accepted vs) (record_key r)) as [v|] eqn:E.
  1: destruct (compareHlc (w_hlc v) (w_hlc r) >=? 0) eqn:Ec; [eexists; split; [by eapply Hstale|by apply batch_reject]|].
  all: specialize (Hfresh ltac:(done)).
  all: unfold MAX_MUTATIONS_PER_ORIGIN_PER_MINUTE; destruct (Nat.leb_spec 120 (mutations now d s (accepted vs) (w_originId r))).
  all: eexists; split; [|by apply batch_throttle || by apply batch_accept].
  all: constructor; try done; by rewrite E.
Qed.

Lemma batch_all rs : windows_ok now d s →
  ∃ vs, map fst vs = rs ∧ judged_all now d declared s vs ∧ batch_ok vs (publish_all now d declared rs s).
Proof.
  intros Hw. induction rs as [|r rs (vs & Hrs & Hj & Hp)] using rev_ind.
  { exists []. split; [done|]. split; [constructor|by apply batch_start]. }
  rewrite publish_all_app. destruct (batch_next vs _ r Hp) as (v & Hv & Hp'). exists (vs ++ [(r, v)]).
  split; [by rewrite map_app, Hrs|]. split; [by constructor|exact Hp'].
Qed.
End Batch.

(** ** Watermarks *)

Lemma max_hlc_spec cur rs :
  match max_hlc cur rs with
  | None => cur = None ∧ rs = []
  | Some m => (∀ c, cur = Some c → hlc_le c m) ∧ ∀ r, r ∈ rs → hlc_le (w_hlc r) m
  end.
Proof.
  unfold max_hlc. revert cur. induction rs as [|r rs IH]; intros cur; simpl.
  { destruct cur; [|done]. split; [by intros ? [= <-]; auto with suma|set_solver]. }
  set (cur' := match cur with None => _ | Some _ => _ end). specialize (IH cur').
  assert (∃ m', cur' = Some m' ∧ hlc_le (w_hlc r) m' ∧ ∀ c, cur = Some c → hlc_le c m')
    as (m' & Hm' & Hr & Hc).
  { unfold cur'. destruct cur as [c|]; [destruct (_ >? 0) eqn:E; hlc_prop|]; eexists;
      (split; [done|]); split; auto with suma; try (intros ? [= <-]; auto with suma). }
  destruct (fold_left _ rs cur') as [m|]; [|destruct IH; congruence].
  destruct IH as [H1 H2]. specialize (H1 m' Hm'). split.
  - intros c Hcur. specialize (Hc c Hcur). hlc_order.
  - intros x [->|Hx]%elem_of_cons; [hlc_order|auto].
Qed.

Lemma wmKey_inj a b : wmKey a = wmKey b → a = b.
Proof. unfold wmKey. intros H1. by apply sapp_inj_l in H1. Qed.

Lemma update_watermark_self s sp rs :
  rs ≠ [] →
  ∃ m, get_as as_hlc (wmKey sp) (update_watermark s (sp, rs)) = Some m
    ∧ (∀ o, get_as as_hlc (wmKey sp) s = Some o → hlc_le o m) ∧ ∀ r, r ∈ rs → hlc_le (w_hlc r) m.
Proof.
  intros Hne. unfold update_watermark. pose proof (max_hlc_spec (get_as as_hlc (wmKey sp) s) rs) as Hm.
  destruct (max_hlc _ rs) as [m|]; [|by destruct Hm].
  destruct Hm as [H1 H2].
  destruct (get_as as_hlc (wmKey sp) s) as [c|] eqn:Ec.
  - destruct (_ >? 0) eqn:E; hlc_prop.
    + exists m. rewrite get_as_put, decide_True by done. split; [done|]. split; [|done].
      intros ? [= <-]. auto with suma.
    + exists c. specialize (H1 c eq_refl). split; [done|]. split; [by intros ? [= <-]; auto with suma|].
      intros r Hr. specialize (H2 r Hr). hlc_order.
  - exists m. rewrite get_as_put, decide_True by done. done.
Qed.

Lemma update_watermarks_spec gs s sp :
  NoDup (map fst gs) → (∀ g, g ∈ gs → g.2 ≠ []) →
  let s' := fold_left update_watermark gs s in
  (∀ o, get_as as_hlc (wmKey sp) s = Some o →
     ∃ m, get_as as_hlc (wmKey sp) s' = Some m ∧ hlc_le o m)
  ∧ ∀ rs, (sp, rs) ∈ gs →
     ∃ m, get_as as_hlc (wmKey sp) s' = Some m ∧ ∀ r, r ∈ rs → hlc_le (w_hlc r) m.
Proof.
  revert s. induction gs as [|[sp' rs'] gs IH]; intros s Hnd Hne; simpl.
  { split; [intros o ->; eauto with suma|set_solver]. }
  simpl in Hnd. apply NoDup_cons in Hnd as [Hsp Hnd].
  destruct (IH (update_watermark s (sp', rs')) Hnd) as [H1 H2]; [intros; apply Hne; by right|].
  assert (rs' ≠ []) as Hrs by (apply (Hne (sp', rs')); left). split.
  - intros o Ho. destruct (decide (sp = sp')) as [->|Hd].
    + destruct (update_watermark_self s sp' rs' Hrs) as (m & Hm & Hold & _).
      destruct (H1 m Hm) as (m' & ? & ?). exists m'. split; [done|].
      specialize (Hold o Ho). hlc_order.
    + apply H1. unfold get_as. rewrite update_watermark_get; [done|].
      intros ?%wmKey_inj. done.
  - intros rs [[= -> ->]|Hin]%elem_of_cons; [|by apply H2].
    destruct (update_watermark_self s sp' rs' Hrs) as (m & Hm & _ & Hall).
    destruct (H1 m Hm) as (m' & ? & ?). exists m'. split; [done|].
    intros r Hr. specialize (Hall r Hr). hlc_order.
Qed.

Lemma publish_groups_ok now d decl rs s :
  let gs := pb_bySpace (publish_all now d decl rs s) in
  map_wf gs ∧ ∀ g, g ∈ gs → g.2 ≠ [].
Proof.
  induction rs as [|r rs IH] using rev_ind; [split; [constructor|set_solver]|].
  rewrite publish_all_app. simpl in *. destruct IH as [Hwf Hne].
  unfold publish_one. do 3 (case_match; [by split|]). case_match; [by split|].
  cbn [pb_bySpace accept]. split; [by apply map_wf_set|]. intros [sp g] Hin.
  apply map_In_get in Hin; [|by apply map_wf_set]. rewrite map_get_set in Hin.
  destruct (decide _); [injection Hin as <-; by destruct (default [] _)|].
  apply map_get_In in Hin. by apply Hne in Hin.
Qed.
End Publish.

(** ** Retained versions *)

Section History.
Context {S : Type} `{HL : HubStorageLaws S}.

(** Under the prefix of a record there are only its versions, at their keys. *)
Definition history_ok (sp rid : string) (s : S) : Prop :=
  ∀ k v, startsWith k (histPrefix sp rid) = true → hs_get k s = Some v →
    ∃ r, v = VRecord r ∧ w_spaceId r = sp ∧ w_recordId r = rid ∧ hlc_bounded (w_hlc r)
      ∧ k = histKey sp rid (w_hlc r).

(** The retained versions of a record, oldest first. *)
Definition versions (sp rid : string) (s : S) : list CookieRecordWire :=
  map snd (list_as as_record (histPrefix sp rid) s).

Lemma histKey_prefix sp rid h : histKey sp rid h = histPrefix sp rid +:+ encodeHlc h.
Proof. unfold histKey, histPrefix. by rewrite !sapp_assoc. Qed.

Lemma histKey_lt sp rid a b :
  hlc_bounded a → hlc_bounded b →
  str_lt (histKey sp rid a) (histKey sp rid b) ↔ hlc_lt a b.
Proof.
  intros Ha Hb. unfold str_lt. rewrite str_ltb_lt, !histKey_prefix.
  rewrite str_compare_app by done. rewrite str_compare_refl. simpl.
  rewrite encodeHlc_compare by done. unfold hlc_string_order, hlc_lt.
  destruct (_ <? 0) eqn:E; [by bprop|]. bprop. destruct (_ =? 0); split; intros; try done; lia.
Qed.

Lemma histKey_inj sp rid a b :
  hlc_bounded a → hlc_bounded b → histKey sp rid a = histKey sp rid b → a = b.
Proof.
  intros Ha Hb Hk. destruct (compareHlc_cases a b) as [[_ H1]|[[_ ?]|[_ H1]]]; [|done|];
    apply (histKey_lt sp rid) in H1; try done; rewrite Hk in H1; by apply str_lt_irrefl in H1.
Qed.

(** [appendHistory] leaves the tail of the listing. *)
Lemma appendHistory_list r s :
  let pref := histPrefix (w_spaceId r) (w_recordId r) in
  let L := hs_list pref (hs_put (histKey (w_spaceId r) (w_recordId r) (w_hlc r)) (VRecord r) s) in
  hs_list pref (appendHistory r s) = drop (length L - MAX_RECORD_HISTORY) L.
Proof.
  intros pref L. unfold appendHistory. fold pref. fold L.
  set (s1 := hs_put _ _ s) in *. set (n := (length L - MAX_RECORD_HISTORY)%nat).
  pose proof (hs_list_sorted pref s1) as Hs. fold L in Hs.
  assert (NoDup (map fst L)) as Hnd by (by apply sorted_keys_nodup).
  apply hs_list_unique; [apply hs_list_sorted| |].
  { apply (StronglySorted_app_1_r _ (take n L)). by rewrite take_drop. }
  intros [k v]. rewrite hs_list_get, get_delete_all.
  assert ((k, v) ∈ L ↔ startsWith k pref = true ∧ hs_get k s1 = Some v) as HL' by apply hs_list_get.
  rewrite <- (take_drop n L) in Hnd, HL'. rewrite map_app in Hnd.
  apply NoDup_app in Hnd as (_ & Hdis & _). split.
  - intros [Hp Hg]. destruct (decide (k ∈ map fst (take n L))) as [|Hk]; [done|].
    assert ((k, v) ∈ take n L ++ drop n L) as [Hin|Hin]%elem_of_app by (by apply HL'); [|done].
    exfalso. apply Hk, list_elem_of_fmap. by exists (k, v).
  - intros Hin. destruct HL' as [HL' _]. destruct HL' as [Hp Hg]; [apply elem_of_app; by right|].
    split; [done|]. rewrite decide_False; [done|]. intros Hk. apply (Hdis k Hk).
    apply list_elem_of_fmap. by exists (k, v).
Qed.

Lemma versions_listing sp rid s :
  history_ok sp rid s →
  ∀ r, r ∈ versions sp rid s ↔
    hlc_bounded (w_hlc r) ∧ hs_get (histKey sp rid (w_hlc r)) s = Some (VRecord r).
Proof.
  intros Hok r. unfold versions. rewrite list_elem_of_fmap. split.
  - intros ([k r'] & -> & Hin). apply list_as_get in Hin as [Hp Hg]. unfold get_as in Hg.
    destruct (hs_get k s) as [v|] eqn:Ek; [|done].
    destruct (Hok k v Hp Ek) as (x & -> & _ & _ & Hb & ->). simpl in *. by simplify_eq.
  - intros [Hb Hg]. exists (histKey sp rid (w_hlc r), r). split; [done|]. apply list_as_get.
    split; [rewrite histKey_prefix; apply startsWith_app|]. unfold get_as. by rewrite Hg.
Qed.
Lemma history_list_records sp rid s :
  history_ok sp rid s →
  map snd (hs_list (histPrefix sp rid) s) = map VRecord (versions sp rid s).
Proof.
  intros Hok. unfold versions, list_as.
  assert (∀ k v, (k, v) ∈ hs_list (histPrefix sp rid) s → ∃ r, v = VRecord r) as Hall.
  { intros k v [Hp Hg]%hs_list_get. destruct (Hok k v Hp Hg) as (r & -> & _). eauto. }
  induction (hs_list _ s) as [|[k v] l IH]; [done|].
  destruct (Hall k v) as (r & ->); [left|]. simpl. f_equal. apply IH. intros. eapply Hall. by right.
Qed.

Lemma versions_sorted sp rid s :
  history_ok sp rid s →
  StronglySorted (λ a b, hlc_lt (w_hlc a) (w_hlc b)) (versions sp rid s).
Proof.
  intros Hok. unfold versions. eapply StronglySorted_map; [|apply list_as_sorted].
  assert (∀ x, x ∈ list_as as_record (histPrefix sp rid) s →
    hlc_bounded (w_hlc x.2) ∧ x.1 = histKey sp rid (w_hlc x.2)) as Hkey.
  { intros [k r] [Hp Hg]%list_as_get. unfold get_as in Hg.
    destruct (hs_get k s) as [v|] eqn:Ev; [|done].
    destruct (Hok k v Hp Ev) as (r' & -> & _ & _ & Hb & ->). simpl in Hg. by simplify_eq/=. }
  intros x y [Hbx Hx]%Hkey [Hby Hy]%Hkey. rewrite Hx, Hy. by apply histKey_lt.
Qed.

Lemma history_ok_put r s :
  hlc_bounded (w_hlc r) → history_ok (w_spaceId r) (w_recordId r) s →
  history_ok (w_spaceId r) (w_recordId r)
    (hs_put (histKey (w_spaceId r) (w_recordId r) (w_hlc r)) (VRecord r) s).
Proof.
  intros Hb Hok k v Hp. rewrite hs_get_put. destruct (decide _) as [->|]; [|by apply Hok].
  intros [= <-]. by exists r.
Qed.

Lemma history_ok_sub sp rid s s' :
  history_ok sp rid s →
  (∀ k v, startsWith k (histPrefix sp rid) = true → hs_get k s' = Some v → hs_get k s = Some v) →
  history_ok sp rid s'.
Proof. intros Hok Hsub k v Hp Hg. by apply Hok, Hsub. Qed.

Lemma appendHistory_ok r s :
  hlc_bounded (w_hlc r) → history_ok (w_spaceId r) (w_recordId r) s →
  history_ok (w_spaceId r) (w_recordId r) (appendHistory r s).
Proof.
  intros Hb Hok. eapply history_ok_sub; [by apply history_ok_put|].
  intros k v _. unfold appendHistory. rewrite get_delete_all. by destruct (decide _).
Qed.

(** The version appended joins the others, and the front is cut. *)
Lemma appendHistory_versions r s :
  hlc_bounded (w_hlc r) → history_ok (w_spaceId r) (w_recordId r) s →
  let all := versions (w_spaceId r) (w_recordId r)
    (hs_put (histKey (w_spaceId r) (w_recordId r) (w_hlc r)) (VRecord r) s) in
  versions (w_spaceId r) (w_recordId r) (appendHistory r s)
  = drop (length all - MAX_RECORD_HISTORY) all.
Proof.
  intros Hb Hok all.
  assert (∀ l1 l2, map VRecord l1 = map VRecord l2 → l1 = l2) as Hinj.
  { induction l1 as [|x l1 IH]; intros [|y l2] [=]; [done|]. f_equal; auto. }
  apply Hinj. rewrite <- history_list_records by (by apply appendHistory_ok).
  rewrite appendHistory_list. rewrite <- !skipn_map. unfold all at 2.
  rewrite <- history_list_records by (by apply history_ok_put). f_equal. f_equal.
  rewrite <- (length_map VRecord all). unfold all.
  rewrite <- history_list_records by (by apply history_ok_put). by rewrite length_map.
Qed.
End History.
