(* ===== verification/GatewayProps.v ===== *)
(** * The gateway jar: lemmas

    What the pure rules decide, which keys a request of a space touches, and
    the invariant of the stored cookies. *)

From S2P Require Export GatewayJar HubProps.
From Stdlib Require Import Ascii QArith.
#[local] Open Scope Z_scope.

(** ** Host names *)

Lemma lower_char_idem c : lower_char (lower_char c) = lower_char c.
Proof. destruct c as [[] [] [] [] [] [] [] []]; reflexivity. Qed.

Lemma toLowerCase_chars s : chars (toLowerCase s) = map lower_char (chars s).
Proof. induction s as [|c s IH]; simpl; [done|]. by rewrite IH. Qed.

Definition starts_with_char (c : ascii) (l : list ascii) : Prop := head l = Some c.

Lemma drop_char_head c l : head (drop_char c l) ≠ Some c.
Proof.
  induction l as [|d l IH]; simpl; [done|].
  destruct (Ascii.eqb_spec d c) as [->|]; [done|]. simpl. congruence.
Qed.

Lemma drop_char_fixed c l : head l ≠ Some c → drop_char c l = l.
Proof.
  destruct l as [|d l]; simpl; [done|]. intros Hn.
  destruct (Ascii.eqb_spec d c); [congruence|done].
Qed.

Lemma drop_char_suffix c l : ∃ p, l = p ++ drop_char c l.
Proof.
  induction l as [|d l [p IH]]; simpl; [by exists []|].
  destruct (Ascii.eqb d c); [|by exists []]. exists (d :: p). simpl. by rewrite <- IH.
Qed.

(** The characters of a canonical host: lower case, no dot at either end. *)
Definition canonical_chars (l : list ascii) : Prop :=
  map lower_char l = l ∧ head l ≠ Some "."%char ∧ head (rev l) ≠ Some "."%char.

Lemma canonicalHostname_chars h :
  chars (canonicalHostname h)
  = rev (drop_char "." (rev (drop_char "." (map lower_char (chars h))))).
Proof.
  unfold canonicalHostname, strip_trailing, strip_leading.
  by rewrite !chars_of_chars, toLowerCase_chars.
Qed.

Lemma canonical_fixed h : canonical_chars (chars h) → canonicalHostname h = h.
Proof.
  intros (Hl & Hh & Hr). apply chars_inj. rewrite canonicalHostname_chars, Hl.
  rewrite (drop_char_fixed _ (chars h)), drop_char_fixed by done. apply rev_involutive.
Qed.

Lemma canonicalHostname_canonical h : canonical_chars (chars (canonicalHostname h)).
Proof.
  rewrite canonicalHostname_chars. set (m := drop_char "." (map lower_char (chars h))).
  assert (map lower_char m = m) as Hm.
  { destruct (drop_char_suffix "." (map lower_char (chars h))) as [p Hp]. fold m in Hp.
    assert (map lower_char (map lower_char (chars h)) = map lower_char (chars h)) as Hi.
    { rewrite map_map. apply map_ext. apply lower_char_idem. }
    rewrite Hp, map_app in Hi. apply app_inj_1 in Hi as [_ Hi]; [done|by rewrite length_map]. }
  destruct (drop_char_suffix "." (rev m)) as [p Hp].
  assert (m = rev (drop_char "." (rev m)) ++ rev p) as Hm'.
  { rewrite <- (rev_involutive m) at 1. rewrite Hp at 1. by rewrite rev_app_distr. }
  split; [|split].
  - rewrite Hm', map_app in Hm. by apply app_inj_1 in Hm as [Hm _]; [|rewrite length_map].
  - intros He. apply (drop_char_head "." (map lower_char (chars h))). fold m. rewrite Hm'.
    destruct (rev (drop_char "." (rev m))); [done|]. exact He.
  - rewrite rev_involutive. apply drop_char_head.
Qed.

Lemma canonicalHostname_idem h : canonicalHostname (canonicalHostname h) = canonicalHostname h.
Proof. apply canonical_fixed, canonicalHostname_canonical. Qed.

Lemma domainMatches_covers host domain : domainMatches host domain = true ↔ covers domain host.
Proof. unfold domainMatches, covers. by rewrite orb_true_iff, String.eqb_eq, endsWith_iff. Qed.

(** ** Paths *)

(** RFC 6265 path match: equal, or a prefix that ends at a segment boundary. *)
Definition path_covers (cookiePath path : string) : Prop :=
  path = cookiePath
  ∨ ∃ rest, path = cookiePath +:+ rest ∧ (endsWith cookiePath "/" = true ∨ startsWith rest "/" = true).

Lemma slice_one a b : slice (String.length a) (S (String.length a)) (a +:+ b)
  = match b with EmptyString => "" | String c _ => String c "" end.
Proof.
  unfold slice. rewrite slice_from_app. replace (S (String.length a) - String.length a)%nat with 1%nat by lia.
  destruct b; [done|]. simpl. by destruct b.
Qed.

Lemma pathMatches_covers path cookiePath :
  pathMatches path cookiePath = true ↔ path_covers cookiePath path.
Proof.
  unfold pathMatches, path_covers. destruct (String.eqb_spec path cookiePath) as [->|Hne].
  { split; [by left|done]. }
  destruct (startsWith path cookiePath) eqn:Hs; cbn [negb].
  - apply startsWith_iff in Hs as [t ->]. unfold char_at. rewrite orb_true_iff, slice_one. split.
    + intros [He|Hc]; right; exists t; (split; [done|]); [by left|right].
      destruct t as [|c t]; [done|]. apply String.eqb_eq in Hc. by injection Hc as ->.
    + intros [He|(rest & Hr & He)]; [by rewrite He in Hne|]. apply sapp_inj_l in Hr as <-.
      destruct He as [He|He]; [by left|right]. apply startsWith_iff in He as [u ->]. done.
  - split; [done|]. intros [->|(rest & -> & _)]; [done|]. by rewrite startsWith_app in Hs.
Qed.

Lemma defaultCookiePath_rooted p : startsWith (defaultCookiePath p) "/" = true.
Proof.
  unfold defaultCookiePath. destruct (startsWith p "/") eqn:Hs; cbn [negb orb]; [|done].
  destruct (String.eqb p "/"); [done|]. destruct (lastIndexOf_char "/" p) as [[|n]|]; try done.
  apply startsWith_iff in Hs as [t ->]. done.
Qed.

(** ** Which cookies a request may carry *)

(** The request is not known to come from another site. *)
Definition same_site_request (r : Request) : Prop :=
  header "sec-fetch-site" r = None
  ∨ ∃ f, header "sec-fetch-site" r = Some f ∧ f ∈ ["none"; "same-origin"; "same-site"].

Definition same_site_allows (c : StoredGatewayCookie) (r : Request) (target : URL) : Prop :=
  match gc_sameSite c with
  | ss_strict => same_site_request r
  | ss_lax | ss_unspecified =>
      same_site_request r
      ∨ (rq_method r = "GET" ∧ header "sec-fetch-mode" r = Some "navigate")
  | ss_no_restriction => url_protocol target = "https:" ∧ gc_secure c = true
  end.

Definition request_path (target : URL) : string :=
  if String.eqb (url_pathname target) "" then "/" else url_pathname target.

Definition sent_with (c : StoredGatewayCookie) (target : URL) (topLevelSite : option string)
    (r : Request) : Prop :=
  let host := canonicalHostname (url_hostname target) in
  (gc_secure c = true → url_protocol target = "https:")
  ∧ (if gc_hostOnly c then host = gc_domain c else covers (gc_domain c) host)
  ∧ path_covers (gc_path c) (request_path target)
  ∧ (∀ k, gc_partitionKey c = Some k → topLevelSite = Some k)
  ∧ same_site_allows c r target.

Lemma same_site_request_iff r :
  match header "sec-fetch-site" r with
  | None => true
  | Some f => String.eqb f "none" || String.eqb f "same-origin" || String.eqb f "same-site"
  end = true ↔ same_site_request r.
Proof.
  unfold same_site_request. destruct (header "sec-fetch-site" r) as [f|]; [|split; [by left|done]].
  rewrite !orb_true_iff, !String.eqb_eq. split.
  - intros Hf. right. exists f. set_solver.
  - intros [Hn|(f' & [= <-] & Hf)]; [done|]. set_solver.
Qed.

Lemma allowsSameSite_iff c r target :
  allowsSameSiteCookie c r target = true ↔ same_site_allows c r target.
Proof.
  unfold allowsSameSiteCookie, same_site_allows. destruct (gc_sameSite c).
  2: by rewrite andb_true_iff, String.eqb_eq.
  3: apply same_site_request_iff.
  all: rewrite <- same_site_request_iff; destruct (header "sec-fetch-site" r) as [f|];
    [destruct (String.eqb f "none" || String.eqb f "same-origin" || String.eqb f "same-site")|];
    rewrite ?andb_true_iff, ?String.eqb_eq, ?bool_decide_eq_true; intuition done.
Qed.

Lemma cookie_filter_iff target top r c :
  cookie_filter target top r c = true ↔ sent_with c target top r.
Proof.
  unfold cookie_filter, sent_with, request_path.
  destruct (gc_secure c && negb (String.eqb (url_protocol target) "https:")) eqn:Hs.
  { split; [done|]. intros [Hsec _]. bprop. apply String.eqb_neq in H0. by apply Hsec in H. }
  match goal with |- context [if (if ?b then ?x else ?y) then _ else _] =>
    destruct (if b then x else y) eqn:Hd end.
  { split; [done|]. intros (_ & Hdom & _). destruct (gc_hostOnly c); bprop.
    - apply String.eqb_neq in Hd. congruence.
    - apply domainMatches_covers in Hdom. congruence. }
  destruct (pathMatches _ (gc_path c)) eqn:Hp; simpl.
  2:{ split; [done|]. intros (_ & _ & Hpath & _). apply pathMatches_covers in Hpath. congruence. }
  apply pathMatches_covers in Hp.
  destruct (match gc_partitionKey c with
            | Some k => negb (bool_decide (top = Some k)) | None => false end) eqn:Hk.
  { split; [done|]. intros (_ & _ & _ & Hpart & _). destruct (gc_partitionKey c) as [k|]; [|done].
    bprop. exfalso. by apply Hk, Hpart. }
  rewrite allowsSameSite_iff. split; [|by intros (? & ? & ? & ? & ?)].
  intros Hss. split; [|split; [|split; [done|split; [|done]]]].
  - intros Hsec. rewrite Hsec in Hs. simpl in Hs. bprop. by apply String.eqb_eq.
  - destruct (gc_hostOnly c); bprop; [symmetry; by apply String.eqb_eq|by apply domainMatches_covers].
  - intros k Hk'. rewrite Hk' in Hk. by bprop.
Qed.

(** ** Reading the jar *)

Definition alive (now : Z) (c : StoredGatewayCookie) : Prop :=
  ∀ t, gc_expiresAtMs c = Some t → (inject_Z now < t)%Q.

Lemma expired_alive now c : expired now c = false ↔ alive now c.
Proof.
  unfold expired, alive. destruct (gc_expiresAtMs c) as [t|]; [|done]. split.
  - intros He t' [= <-]. apply Qnot_le_lt. intros Hle. apply Qle_bool_iff in Hle. congruence.
  - intros Ha. apply not_true_iff_false. intros Hle. apply Qle_bool_iff in Hle.
    by apply (Qlt_not_le _ _ (Ha t eq_refl)).
Qed.

Lemma cookie_order_antisym a b : cookie_order b a = - cookie_order a b.
Proof. unfold cookie_order. repeat case_match; bprop; lia. Qed.

Lemma cookie_order_trans a b c :
  cookie_order a b <= 0 → cookie_order b c <= 0 → cookie_order a c <= 0.
Proof. unfold cookie_order. repeat case_match; bprop; lia. Qed.

(** ** Space names and keys *)

Definition colon_free (sp : string) : Prop := includes_char ":" sp = false.

Lemma app_sep_inj (c : ascii) (l1 l2 r1 r2 : list ascii) :
  c ∉ l1 → c ∉ l2 → l1 ++ c :: r1 = l2 ++ c :: r2 → l1 = l2.
Proof.
  revert l2. induction l1 as [|x l1 IH]; intros [|y l2] H1 H2 E; simplify_eq/=; try set_solver.
  f_equal. apply IH; [set_solver|set_solver|done].
Qed.

Lemma colon_free_chars sp : colon_free sp → ":"%char ∉ chars sp.
Proof.
  unfold colon_free. intros Hc Hin. apply includes_char_false in Hc. unfold all_chars in Hc.
  rewrite Forall_forall in Hc. by apply (Hc _ Hin).
Qed.

(** A key lies in the jar of one colon-free space only. *)
Lemma cookiePrefix_unique k sp sp' :
  colon_free sp → colon_free sp' →
  startsWith k (cookiePrefix sp) = true → startsWith k (cookiePrefix sp') = true → sp = sp'.
Proof.
  intros Hs Hs' (t & ->)%startsWith_iff (t' & He)%startsWith_iff. unfold cookiePrefix in He.
  rewrite !sapp_assoc in He. apply sapp_inj_l in He. apply (f_equal chars) in He.
  rewrite !chars_app in He. simpl in He. apply chars_inj.
  eapply app_sep_inj; [..|exact He]; by apply colon_free_chars.
Qed.

Lemma cookiePrefix_prefix k sp : startsWith k (cookiePrefix sp) = true → startsWith k COOKIE_PREFIX = true.
Proof. apply startsWith_prefix. Qed.

Lemma initialized_not_cookie sp : startsWith (initializedKey sp) COOKIE_PREFIX = false.
Proof. reflexivity. Qed.

Lemma cookieKey_prefix `{GatewayPlatform} sp c : startsWith (cookieKey sp c) (cookiePrefix sp) = true.
Proof. apply startsWith_app. Qed.

(** ** The invariant of the jar *)

Definition cookie_ok `{GatewayPlatform} (c : StoredGatewayCookie) : Prop :=
  canonicalHostname (gc_domain c) = gc_domain c
  ∧ (gc_hostOnly c = false → isPublicSuffix (gc_domain c) = false)
  ∧ startsWith (gc_path c) "/" = true
  ∧ (startsWith (gc_name c) "__Secure-" = true → gc_secure c = true)
  ∧ (startsWith (gc_name c) "__Host-" = true →
       gc_secure c = true ∧ gc_hostOnly c = true ∧ gc_path c = "/")
  ∧ encodedCookieBytes (gc_name c) (gc_value c) <= MAX_COOKIE_BYTES.

Definition jar_ok {S} `{HubStorage S} `{GatewayPlatform} (s : S) : Prop :=
  (∀ k v, startsWith k COOKIE_PREFIX = true → hs_get k s = Some v →
     ∃ sp c, v = VCookie c ∧ colon_free sp ∧ k = cookieKey sp c ∧ cookie_ok c)
  ∧ ∀ sp, colon_free sp → (length (hs_list (cookiePrefix sp) s) <= MAX_COOKIES_PER_SPACE)%nat.

Lemma validCookiePrefix_spec name secure hostOnly path :
  validCookiePrefix name secure hostOnly path = true →
  (startsWith name "__Secure-" = true → secure = true)
  ∧ (startsWith name "__Host-" = true → secure = true ∧ hostOnly = true ∧ path = "/").
Proof.
  unfold validCookiePrefix.
  destruct (startsWith name "__Secure-"), (startsWith name "__Host-"), secure, hostOnly,
    (String.eqb_spec path "/") as [?|?]; simpl; done.
Qed.

Lemma rooted_if b p d : (b = true → startsWith p "/" = true) → startsWith d "/" = true →
  startsWith (if b then p else d) "/" = true.
Proof. destruct b; auto. Qed.

Lemma set_cookie_ok `{GatewayPlatform} ap now target top p c :
  set_cookie_accepts ap now target top p = Some c → cookie_ok c.
Proof.
  unfold set_cookie_accepts. intros Hc. destruct (sc_value p) as [value|]; [|done].
  destruct (_ >? MAX_COOKIE_BYTES) eqn:Hlen; [done|]. cbv zeta in Hc.
  match type of Hc with (if ?b then _ else _) = _ => destruct b eqn:Hd end; [done|].
  do 3 (match type of Hc with (if ?b then _ else _) = _ => destruct b end; [done|]).
  destruct (validCookiePrefix _ _ _ _) eqn:Hv; [|done].
  apply validCookiePrefix_spec in Hv as [Hv1 Hv2]. injection Hc as <-. unfold cookie_ok.
  cbn [gc_domain gc_hostOnly gc_path gc_secure gc_name gc_value].
  split; [|split; [|split; [|split; [|split]]]]; try done.
  - destruct (sc_domain p); apply canonicalHostname_idem.
  - intros Hh. rewrite Hh in Hd. simpl in Hd. by bprop.
  - destruct (sc_path p) as [q|]; [|apply defaultCookiePath_rooted].
    apply rooted_if; [done|apply defaultCookiePath_rooted].
  - blia.
Qed.

Lemma mutation_cookie_ok `{GatewayPlatform} now input c :
  mutation_cookie now input = Some c → cookie_ok c.
Proof.
  unfold mutation_cookie. intros Hc.
  match type of Hc with (if ?b then _ else _) = _ => destruct b eqn:Hd end; [done|]. cbv zeta in Hc.
  match type of Hc with (if ?b then _ else _) = _ => destruct b eqn:Hv end; [done|].
  apply orb_false_iff in Hv as [Hv Hlen]. apply negb_false_iff in Hv.
  apply validCookiePrefix_spec in Hv as [Hv1 Hv2]. injection Hc as <-. unfold cookie_ok.
  cbn [gc_domain gc_hostOnly gc_path gc_secure gc_name gc_value].
  split; [|split; [|split; [|split; [|split]]]]; try done.
  - apply canonicalHostname_idem.
  - intros Hh. rewrite Hh in Hd. simpl in Hd. by bprop.
  - by apply rooted_if.
  - blia.
Qed.

Section Jar.
Context {S : Type} `{HL : HubStorageLaws S} `{P : GatewayPlatform} `{UP : UrlParser}.

(** Entries under a prefix after a change of at most one key. *)
Lemma hs_list_le p (s s' : S) ks :
  (∀ k, is_Some (hs_get k s') → startsWith k p = true → is_Some (hs_get k s) ∨ k ∈ ks) →
  (length (hs_list p s') <= length (hs_list p s) + length ks)%nat.
Proof.
  intros Hsub. rewrite <- (length_map fst (hs_list p s')), <- (length_map fst (hs_list p s)), <- length_app.
  apply submseteq_length, NoDup_submseteq; [apply sorted_keys_nodup, hs_list_sorted|].
  intros k ([? v] & -> & [Hp Hg]%hs_list_get)%list_elem_of_fmap. apply elem_of_app.
  destruct (Hsub _ ltac:(eauto) Hp) as [[v' Hv]|Hk]; [left|by right].
  apply list_elem_of_fmap. exists (s0, v'). split; [done|]. by apply hs_list_get.
Qed.

(** What a request of space [sp] may do to the storage. *)
Definition jar_step (sp : string) (s s' : S) : Prop :=
  (∀ k, startsWith k (cookiePrefix sp) = false → k ≠ initializedKey sp → hs_get k s' = hs_get k s)
  ∧ (colon_free sp → jar_ok s → jar_ok s').

#[local] Instance jar_step_preorder sp : PreOrder (jar_step sp).
Proof.
  split; [by split|]. intros a b c [F1 J1] [F2 J2]. split; [|auto].
  intros k H1 H2. by rewrite F2, F1.
Qed.

Lemma jar_step_delete sp k s :
  startsWith k (cookiePrefix sp) = true → jar_step sp s (hs_delete k s).
Proof.
  intros Hk. split.
  - intros k' Hk' _. rewrite hs_get_delete, decide_False; congruence.
  - intros _ [Hok Hcount]. split.
    + intros k' v Hp. rewrite hs_get_delete. case_decide; [done|]. by apply Hok.
    + intros sp' Hsp'. etransitivity; [|by apply Hcount].
      etransitivity; [apply (hs_list_le _ s _ [])|by rewrite Nat.add_0_r].
      intros k' [v Hv] _. rewrite hs_get_delete in Hv. case_decide; [done|]. left. eauto.
Qed.

Lemma jar_step_delete_all sp ks s :
  (∀ k, k ∈ ks → startsWith k (cookiePrefix sp) = true) → jar_step sp s (hs_delete_all ks s).
Proof.
  unfold hs_delete_all. revert s. induction ks as [|k ks IH]; intros s Hks; simpl; [reflexivity|].
  transitivity (hs_delete k s); [apply jar_step_delete, Hks; left|]. apply IH. set_solver.
Qed.

Lemma jar_step_init sp s : jar_step sp s (hs_put (initializedKey sp) VTrue s).
Proof.
  split.
  - intros k _ Hne. by rewrite hs_get_put, decide_False.
  - intros _ [Hok Hcount]. split.
    + intros k v Hp. rewrite hs_get_put, decide_False; [by apply Hok|]. intros ->. done.
    + intros sp' Hsp'. etransitivity; [|by apply Hcount].
      etransitivity; [apply (hs_list_le _ s _ [])|by rewrite Nat.add_0_r].
      intros k [v Hv] Hp%cookiePrefix_prefix. rewrite hs_get_put, decide_False in Hv; [left; eauto|].
      intros ->. done.
Qed.

(** A cookie goes under its own key: over a former version, or as a new entry
    of a jar with room. *)
Lemma jar_step_put sp c s :
  cookie_ok c →
  (is_Some (hs_get (cookieKey sp c) s)
   ∨ (length (hs_list (cookiePrefix sp) s) < MAX_COOKIES_PER_SPACE)%nat) →
  jar_step sp s (hs_put (cookieKey sp c) (VCookie c) s).
Proof.
  intros Hc Hroom. split.
  - intros k Hk _. rewrite hs_get_put, decide_False; [done|]. intros ->.
    by rewrite cookieKey_prefix in Hk.
  - intros Hsp [Hok Hcount]. split.
    + intros k v Hp. rewrite hs_get_put. case_decide as Hk; [|by apply Hok].
      intros [= <-]. exists sp, c. by rewrite Hk.
    + intros sp' Hsp'. destruct (decide (sp' = sp)) as [->|Hne].
      * destruct Hroom as [Hold|Hroom].
        -- etransitivity; [|by apply Hcount].
           etransitivity; [apply (hs_list_le _ s _ [])|by rewrite Nat.add_0_r].
           intros k [v Hv] _. rewrite hs_get_put in Hv. case_decide; [left; by subst|left; eauto].
        -- etransitivity; [apply (hs_list_le _ s _ [cookieKey sp c])|simpl; lia].
           intros k [v Hv] _. rewrite hs_get_put in Hv. case_decide; [right; set_solver|left; eauto].
      * etransitivity; [|by apply Hcount].
        etransitivity; [apply (hs_list_le _ s _ [])|by rewrite Nat.add_0_r].
        intros k [v Hv] Hp. rewrite hs_get_put in Hv. case_decide; [|left; eauto]. subst.
        destruct Hne. eapply cookiePrefix_unique; [done|done|exact Hp|apply cookieKey_prefix].
Qed.

Lemma liveCookies_step now sp s : jar_step sp s (liveCookies now sp s).2.
Proof.
  apply jar_step_delete_all. intros k ([k' c] & -> & Hin)%list_elem_of_fmap.
  apply In_filter_iff in Hin as [Hin _]. by eapply list_as_key.
Qed.

Lemma matchingCookies_step now sp target top r s :
  jar_step sp s (matchingCookies now sp target top r s).2.
Proof.
  unfold matchingCookies. pose proof (liveCookies_step now sp s) as Hl.
  by destruct (liveCookies now sp s).
Qed.

Lemma storeOrDelete_step sp c remove s : cookie_ok c → jar_step sp s (storeOrDelete sp c remove s).
Proof.
  intros Hc. unfold storeOrDelete. cbv zeta.
  transitivity (hs_put (initializedKey sp) VTrue s); [apply jar_step_init|].
  generalize (hs_put (initializedKey sp) VTrue s) as s1. intros s1.
  destruct remove; [apply jar_step_delete, cookieKey_prefix|].
  destruct (get_as as_cookie (cookieKey sp c) s1) as [cur|] eqn:Hcur.
  - apply (jar_step_put sp (with_createdAt (gc_createdAtMs cur) c)); [done|].
    left. unfold get_as in Hcur. change (cookieKey sp (with_createdAt _ c)) with (cookieKey sp c).
    by destruct (hs_get (cookieKey sp c) s1).
  - destruct (_ <=? _)%nat eqn:Hn; [reflexivity|]. apply jar_step_put; [done|right].
    by apply Nat.leb_gt in Hn.
Qed.

Lemma acceptSetCookie_step ap now sp target top line s :
  jar_step sp s (acceptSetCookie ap now sp target top line s).
Proof.
  unfold acceptSetCookie. destruct (parseSetCookie line) as [p|]; [|reflexivity].
  destruct (set_cookie_accepts ap now target top p) as [c|] eqn:Hc; [|reflexivity].
  by eapply storeOrDelete_step, set_cookie_ok.
Qed.

Lemma accept_all_step ap clock tg lines s :
  jar_step (tg_spaceId tg) s (accept_all ap clock tg lines s).
Proof.
  revert clock s. induction lines as [|line lines IH]; intros clock s; simpl; [reflexivity|].
  etransitivity; [apply acceptSetCookie_step|apply IH].
Qed.

Lemma applyMutation_step now sp m s : jar_step sp s (applyMutation now sp m s).
Proof.
  unfold applyMutation. destruct (mutation_cookie now (gm_cookie m)) as [c|] eqn:Hc; [|reflexivity].
  by eapply storeOrDelete_step, mutation_cookie_ok.
Qed.

Lemma apply_all_step clock sp ms s : jar_step sp s (apply_all clock sp ms s).
Proof.
  revert clock s. induction ms as [|m ms IH]; intros clock s; simpl; [reflexivity|].
  etransitivity; [apply applyMutation_step|apply IH].
Qed.

Lemma fetch_begin_step ap now r s s' f :
  fetch_begin ap now r s = (inr f, s') → jar_step (tg_spaceId (pf_target f)) s s'.
Proof.
  unfold fetch_begin. destruct (decodeTarget ap r) as [refusal|tg]; [done|].
  destruct (attaches_cookies r (tg_target tg)).
  - pose proof (matchingCookies_step now (tg_spaceId tg) (tg_target tg) (tg_topLevelSite tg) r s) as Hm.
    destruct (matchingCookies _ _ _ _ _ _) as [cs s1]. by intros [= <- <-].
  - intros [= <- <-]. reflexivity.
Qed.

Lemma fetch_end_step ap now clock answer f s :
  jar_step (tg_spaceId (pf_target f)) s (fetch_end ap now clock answer f s).2.
Proof.
  unfold fetch_end. destruct answer as [detail|upstream]; [reflexivity|]. cbv zeta.
  set (s1 := if pf_attach f then _ else s).
  assert (jar_step (tg_spaceId (pf_target f)) s s1) as H1.
  { unfold s1. destruct (pf_attach f); [apply accept_all_step|reflexivity]. }
  destruct (pf_attach f && _); [|exact H1].
  match goal with |- context [matchingCookies ?a ?b ?c ?d ?e ?g] =>
    pose proof (matchingCookies_step a b c d e g) as Hm; destruct (matchingCookies a b c d e g) end.
  by transitivity s1.
Qed.

Lemma handleCookies_step clock r s sp :
  header GATEWAY_SPACE_HEADER r = Some sp → jar_step sp s (handleCookies clock r s).2.
Proof.
  unfold handleCookies. intros ->. destruct (String.eqb sp ""); [reflexivity|].
  destruct (String.eqb (rq_method r) "GET").
  { pose proof (liveCookies_step (clock O) sp s) as Hl. by destruct (liveCookies (clock O) sp s). }
  destruct (negb _); [reflexivity|]. destruct (parse (rq_body r)) as [body|]; [|reflexivity].
  match goal with |- context [match ?o with Some _ => _ | None => _ end] => destruct o as [l|] end;
    [|reflexivity].
  destruct (_ <? _)%nat; [reflexivity|]. destruct (mapM validMutation l); [|reflexivity].
  apply apply_all_step.
Qed.

Lemma gateway_step_jar ap sp s s' : gateway_step ap sp s s' → jar_step sp s s'.
Proof.
  destruct 1 as [now r s s' f Hb <-|now clock answer f s <-|clock r s Hr].
  - by eapply fetch_begin_step.
  - apply fetch_end_step.
  - by apply handleCookies_step.
Qed.

(** The hub never touches the gateway's keys. *)
Lemma hub_step_gateway s s' k :
  hub_step s s' → startsWith k "gateway-" = true → hs_get k s' = hs_get k s.
Proof.
  intros Hs Hk. assert (under hub_prefixes k = false ∧ k ≠ revokedKey "") as [Hu _].
  { apply startsWith_iff in Hk as [t ->]. done. }
  destruct Hs as [now f h|now d conns s|conn others s|now d others s].
  - by apply handleMessage_get.
  - rewrite revokeDevice_get by (eapply under_sub; [exact Hu|set_solver]).
    rewrite decide_False; [done|]. intros ->. done.
  - apply close_begin_get. eapply under_sub; [exact Hu|set_solver].
  - apply close_finish_get. eapply under_sub; [exact Hu|set_solver].
Qed.

Lemma hub_step_jar_ok s s' : hub_step s s' → jar_ok s → jar_ok s'.
Proof.
  intros Hs [Hok Hcount].
  assert (∀ k, startsWith k COOKIE_PREFIX = true → hs_get k s' = hs_get k s) as Heq.
  { intros k Hk. apply hub_step_gateway; [done|]. by apply (startsWith_prefix k "gateway-" "cookie:"). }
  split.
  - intros k v Hk. rewrite Heq by done. by apply Hok.
  - intros sp Hsp. etransitivity; [|by apply Hcount].
    etransitivity; [apply (hs_list_le _ s _ [])|by rewrite Nat.add_0_r].
    intros k Hv Hk%cookiePrefix_prefix. left. by rewrite <- Heq.
Qed.

(** What a read returns. *)
Lemma liveCookies_elem now sp s c :
  c ∈ (liveCookies now sp s).1
  ↔ alive now c ∧ ∃ k, startsWith k (cookiePrefix sp) = true ∧ get_as as_cookie k s = Some c.
Proof.
  unfold liveCookies. cbn [fst].
  rewrite In_filter_iff, negb_true_iff, expired_alive, list_elem_of_fmap. split.
  - intros [([k c'] & -> & Hin) Ha]. split; [done|]. exists k. by apply list_as_get in Hin.
  - intros [Ha (k & Hk & Hg)]. split; [|done]. exists (k, c). split; [done|]. by apply list_as_get.
Qed.

Lemma matchingCookies_elem now sp target top r s c :
  c ∈ (matchingCookies now sp target top r s).1
  ↔ sent_with c target top r ∧ alive now c
    ∧ ∃ k, startsWith k (cookiePrefix sp) = true ∧ get_as as_cookie k s = Some c.
Proof.
  unfold matchingCookies. rewrite <- liveCookies_elem. destruct (liveCookies now sp s) as [live s1].
  cbn [fst]. rewrite (sort_by_perm cookie_order), In_filter_iff, cookie_filter_iff. tauto.
Qed.

Lemma matchingCookies_sorted now sp target top r s :
  StronglySorted (λ a b, cookie_order a b <= 0) (matchingCookies now sp target top r s).1.
Proof.
  unfold matchingCookies. destruct (liveCookies now sp s) as [live s1]. cbn [fst].
  apply sort_by_sorted; [apply cookie_order_antisym|apply cookie_order_trans].
Qed.

(** The only entries a read removes are expired cookies. *)
Lemma liveCookies_get now sp s k c :
  get_as as_cookie k s = Some c → alive now c → get_as as_cookie k (liveCookies now sp s).2 = Some c.
Proof.
  intros Hk Ha. unfold liveCookies, get_as in *. cbn [snd]. rewrite get_delete_all, decide_False; [done|].
  intros ([k' c'] & -> & Hin)%list_elem_of_fmap. apply In_filter_iff in Hin as [Hin He].
  apply list_as_get in Hin as [_ Hg]. unfold get_as in Hg. cbn [fst] in Hk. rewrite Hk in Hg.
  injection Hg as <-. apply expired_alive in Ha. congruence.
Qed.

(** Writing a cookie stores it under its key, with the age of the version it
    replaces; it is refused only by a full jar. *)
Lemma storeOrDelete_stored sp c s :
  (is_Some (get_as as_cookie (cookieKey sp c) s)
   ∨ (length (hs_list (cookiePrefix sp) s) < MAX_COOKIES_PER_SPACE)%nat) →
  ∃ t, get_as as_cookie (cookieKey sp c) (storeOrDelete sp c false s) = Some (with_createdAt t c).
Proof.
  intros Hroom. unfold storeOrDelete. cbv zeta.
  assert (∀ k, startsWith k COOKIE_PREFIX = true →
    get_as as_cookie k (hs_put (initializedKey sp) VTrue s) = get_as as_cookie k s) as Hinit.
  { intros k Hk. rewrite get_as_put, decide_False; [done|]. intros ->. done. }
  rewrite Hinit by (eapply cookiePrefix_prefix, cookieKey_prefix).
  destruct (get_as as_cookie (cookieKey sp c) s) as [cur|] eqn:Hcur.
  - exists (gc_createdAtMs cur). by rewrite get_as_put, decide_True.
  - destruct Hroom as [[? ?]|Hroom]; [done|]. rewrite (proj2 (Nat.leb_gt _ _)).
    + exists (gc_createdAtMs c). rewrite get_as_put, decide_True by done. by destruct c.
    + eapply Nat.le_lt_trans; [|exact Hroom].
      etransitivity; [apply (hs_list_le _ s _ [])|by rewrite Nat.add_0_r].
      intros k [v Hv] Hp%cookiePrefix_prefix. rewrite hs_get_put, decide_False in Hv; [left; eauto|].
      intros ->. done.
Qed.
End Jar.
