(* ===== verification/GatewaySafety.v ===== *)
(** * What the gateway jar guarantees

    Requests carry only cookies in scope, the jar stays well formed and within
    its bound whatever the account does, spaces and hub data are isolated, and
    an accepted cookie is sent back. *)

From S2P Require Export GatewayProps.
From Stdlib Require Import Ascii QArith.
#[local] Open Scope Z_scope.

(** ** A small platform for the examples *)

Module GatewayDemo.
(** URLs of the form "https://host/": enough to name an origin. *)
#[global] Instance parser : UrlParser := λ text,
  if startsWith text "https://" then
    let rest := slice_from 8 text in
    let host := match indexOf_char "/" rest with Some n => slice 0 n rest | None => rest end in
    let path := match indexOf_char "/" rest with Some n => slice_from n rest | None => "/" end in
    Some (mkURL "https:" "" "" host path [] ("https://" +:+ host))
  else None.

(** One [Set-Cookie] line is known; registrable domains are the names with a
    dot; the digest is the message. *)
Definition session : SetCookie :=
  mkSetCookie "__Host-sid" (Some "v1") None (Some "/") None (Some 3600) true true false sc_lax.
#[global] Instance platform : GatewayPlatform := {|
  parseSetCookie line := if String.eqb line "__Host-sid=v1" then Some session else None;
  getDomain d := if includes_char "." d then Some d else None;
  sha256 b := b
|}.

Definition request (sp target : string) : Request :=
  mkRequest "GET" [(GATEWAY_SPACE_HEADER, sp); (GATEWAY_TARGET_HEADER, encodeGatewayHeaderValue target);
                   ("accept", "text/html"); ("cookie", "stale=1")] "".
Definition url : URL := mkURL "https:" "" "" "app.example.com" "/" [] "https://app.example.com".
(** The jar of [sp] once the origin set its session cookie. *)
Definition jar (sp : string) : SortedStorage :=
  acceptSetCookie false 1000 sp url None "__Host-sid=v1" emptyStorage.
Definition sent : (GatewayReply + PendingFetch) * SortedStorage :=
  fetch_begin false 2000 (request "work" "https://app.example.com/inbox") (jar "work").
End GatewayDemo.

(** ** The account: hub and gateway over one storage *)

Section Account.
Context {S : Type} `{HubStorage S} `{P : GatewayPlatform} `{UP : UrlParser}.

Inductive account_step (ap : bool) : S → S → Prop :=
| account_hub s s' : hub_step s s' → account_step ap s s'
| account_gateway sp s s' : colon_free sp → gateway_step ap sp s s' → account_step ap s s'.
End Account.

(** ** Lemmas *)

Section Lemmas.
Context {S : Type} `{HL : HubStorageLaws S} `{P : GatewayPlatform} `{UP : UrlParser}.

Lemma map_get_filter_none {K V} `{EqDecision K} (f : K * V → bool) (k : K) (m : jsmap K V) :
  (∀ v, f (k, v) = false) → map_get k (List.filter f m) = None.
Proof.
  intros Hf. induction m as [|[k' v] m IH]; simpl; [done|].
  destruct (f (k', v)) eqn:E; [|done]. simpl. destruct (decide (k = k')) as [->|]; [|done].
  by rewrite Hf in E.
Qed.

Lemma upstream_headers_get r n :
  n ∈ "cookie" :: CONTROL_REQUEST_HEADERS ++ HOP_BY_HOP_HEADERS →
  map_get n (upstream_headers r)
  = if String.eqb n "authorization" then header GATEWAY_UPSTREAM_AUTH_HEADER r else None.
Proof.
  intros Hn. unfold upstream_headers.
  assert (map_get n (List.filter (λ '(name, _), forwarded name) (rq_headers r)) = None) as Hf.
  { apply map_get_filter_none. intros _. unfold forwarded. apply negb_false_iff.
    rewrite !orb_true_iff, !bool_decide_eq_true, String.eqb_eq. set_solver. }
  destruct (String.eqb_spec n "authorization") as [->|Hne].
  - destruct (header _ r); [apply map_get_set_eq|exact Hf].
  - destruct (header _ r); [rewrite map_get_set_ne by done|]; exact Hf.
Qed.

Lemma decodeTarget_allowed ap r tg :
  decodeTarget ap r = inr tg →
  header GATEWAY_SPACE_HEADER r = Some (tg_spaceId tg)
  ∧ is_http (tg_target tg) = true ∧ url_username (tg_target tg) = ""
  ∧ url_password (tg_target tg) = "" ∧ (ap = false → isPrivateTarget (tg_target tg) = false).
Proof.
  unfold decodeTarget. intros Hd.
  destruct (header GATEWAY_SPACE_HEADER r) as [sp|]; [|done].
  destruct (header GATEWAY_TARGET_HEADER r) as [enc|]; [|done].
  destruct (String.eqb sp ""); [done|]. destruct (_ ≫= _) as [u|]; [|done].
  destruct (negb (is_http u)) eqn:Hh; [done|].
  destruct (negb (String.eqb (url_username u) "") || negb (String.eqb (url_password u) "")) eqn:Hu; [done|].
  destruct (negb ap && isPrivateTarget u) eqn:Hp; [done|].
  destruct (String.eqb (rq_method r) "CONNECT" || _); [done|]. apply negb_false_iff in Hh. apply orb_false_iff in Hu as [Hu1 Hu2].
  apply negb_false_iff in Hu1, Hu2. apply String.eqb_eq in Hu1, Hu2.
  destruct (header GATEWAY_TOP_LEVEL_SITE_HEADER r) as [top|];
    [destruct (_ ≫= _); [|done]|]; injection Hd as <-; cbn [tg_target tg_spaceId]; (do 4 (split; [done|]));
    intros ->; exact Hp.
Qed.

(** A key of another space is out of reach. *)
Lemma other_space_key sp sp' k :
  colon_free sp → colon_free sp' → sp' ≠ sp → startsWith k (cookiePrefix sp') = true →
  startsWith k (cookiePrefix sp) = false ∧ k ≠ initializedKey sp.
Proof.
  intros Hs Hs' Hne Hk. split.
  - apply not_true_iff_false. intros Hk'. apply Hne. by eapply cookiePrefix_unique.
  - intros ->. by apply cookiePrefix_prefix in Hk.
Qed.

Lemma liveCookies_same now sp (s s' : S) :
  (∀ k, startsWith k (cookiePrefix sp) = true → hs_get k s' = hs_get k s) →
  (liveCookies now sp s').1 = (liveCookies now sp s).1.
Proof.
  intros Heq. unfold liveCookies. cbn [fst]. do 2 f_equal.
  apply hs_list_unique; [apply list_as_sorted..|]. intros [k c]. rewrite !list_as_get.
  unfold get_as. split; intros [Hk Hg]; (split; [done|]); [rewrite <- Heq|rewrite Heq]; done.
Qed.

Lemma set_cookie_scope ap now target top p c :
  set_cookie_accepts ap now target top p = Some c →
  let host := canonicalHostname (url_hostname target) in
  (if gc_hostOnly c then host = gc_domain c else covers (gc_domain c) host)
  ∧ (∀ k, gc_partitionKey c = Some k → top = Some k)
  ∧ (gc_secure c = true → ap = false → url_protocol target = "https:").
Proof.
  unfold set_cookie_accepts. intros Hc. destruct (sc_value p) as [value|]; [|done].
  destruct (_ >? MAX_COOKIE_BYTES); [done|]. cbv zeta in Hc.
  match type of Hc with (if ?b then _ else _) = _ => destruct b eqn:Hd end; [done|].
  match type of Hc with (if ?b then _ else _) = _ => destruct b end; [done|].
  match type of Hc with (if ?b then _ else _) = _ => destruct b eqn:Hsec end; [done|].
  match type of Hc with (if ?b then _ else _) = _ => destruct b end; [done|].
  destruct (validCookiePrefix _ _ _ _); [|done]. injection Hc as <-.
  cbn [gc_domain gc_hostOnly gc_partitionKey gc_secure]. split; [|split].
  - destruct (sc_domain p) as [d|]; [|done]. simpl in Hd. bprop. by apply domainMatches_covers.
  - intros k. by destruct (sc_partitioned p).
  - intros Hs ->. rewrite Hs in Hsec. destruct (String.eqb_spec (url_protocol target) "https:"); done.
Qed.
End Lemmas.

(** ** Properties *)

(** A request goes upstream only to an http(s) target without userinfo that
    is not private; it carries, longest path first and oldest first among
    equals, exactly the unexpired cookies of its own space that are in scope
    for it (secure, domain, path, partition and SameSite rules), and none when
    its credentials mode withholds them; the page's own Cookie header, the
    control headers and hop-by-hop headers are never forwarded, and its
    Authorization is the one passed for the upstream. *)
Theorem fetch_begin_scoped {S} `{HL : HubStorageLaws S} `{GatewayPlatform} `{UrlParser}
    ap now r (s s' : S) f :
  fetch_begin ap now r s = (inr f, s') →
  let tg := pf_target f in
  let target := tg_target tg in
  let hs := up_headers (pf_upstream f) in
  header GATEWAY_SPACE_HEADER r = Some (tg_spaceId tg)
  ∧ up_target (pf_upstream f) = target
  ∧ (is_http target = true ∧ url_username target = "" ∧ url_password target = ""
     ∧ (ap = false → isPrivateTarget target = false))
  ∧ (∀ c, c ∈ pf_matching f ↔
       attaches_cookies r target = true ∧ sent_with c target (tg_topLevelSite tg) r ∧ alive now c
       ∧ ∃ k, startsWith k (cookiePrefix (tg_spaceId tg)) = true ∧ get_as as_cookie k s = Some c)
  ∧ StronglySorted (λ a b, cookie_order a b <= 0) (pf_matching f)
  ∧ map_get "cookie" hs
    = (if String.eqb (cookie_header (pf_matching f)) "" then None
       else Some (cookie_header (pf_matching f)))
  ∧ map_get "authorization" hs = header GATEWAY_UPSTREAM_AUTH_HEADER r
  ∧ ∀ n, n ∈ CONTROL_REQUEST_HEADERS ++ HOP_BY_HOP_HEADERS → n ≠ "authorization" →
      map_get n hs = None.
Proof.
  unfold fetch_begin. intros Hf. destruct (decodeTarget ap r) as [refusal|tg] eqn:Hd; [done|].
  apply decodeTarget_allowed in Hd as (Hsp & Hh & Hu & Hp & Hpriv).
  pose proof (matchingCookies_elem now (tg_spaceId tg) (tg_target tg) (tg_topLevelSite tg) r s) as Hm.
  pose proof (matchingCookies_sorted now (tg_spaceId tg) (tg_target tg) (tg_topLevelSite tg) r s) as Hsort.
  destruct (matchingCookies _ _ _ _ _ _) as [cs s1]. cbn [fst] in Hm, Hsort.
  assert (∀ n, n ∈ CONTROL_REQUEST_HEADERS ++ HOP_BY_HOP_HEADERS → n ≠ "cookie") as Hne.
  { intros n Hn ->. revert Hn. apply (bool_decide_unpack _). vm_compute. exact I. }
  destruct (attaches_cookies r (tg_target tg)) eqn:Ha; injection Hf as <- <-;
    cbn [pf_target pf_matching pf_upstream up_headers up_target]; cbv zeta;
    (do 3 (split; [done|])).
  - split; [intros c; rewrite Hm; tauto|]. split; [done|].
    destruct (String.eqb (cookie_header cs) ""); cbn [andb negb].
    + split; [rewrite upstream_headers_get by left; done|].
      split; [by rewrite upstream_headers_get by (right; left)|].
      intros n Hn Hna. rewrite upstream_headers_get by by right. by destruct (String.eqb_spec n "authorization").
    + split; [apply map_get_set_eq|].
      split; [rewrite map_get_set_ne by done; by rewrite upstream_headers_get by (right; left)|].
      intros n Hn Hna. rewrite map_get_set_ne by (symmetry; auto).
      rewrite upstream_headers_get by by right. by destruct (String.eqb_spec n "authorization").
  - split; [intros c; split; [by intros ?%not_elem_of_nil|intros [Hx _]; congruence]|].
    split; [constructor|]. cbn [andb].
    split; [rewrite upstream_headers_get by left; done|].
    split; [by rewrite upstream_headers_get by (right; left)|].
    intros n Hn Hna. rewrite upstream_headers_get by by right. by destruct (String.eqb_spec n "authorization").
Qed.

(** A navigation in the space "work" sends the session cookie set there. *)
Lemma fetch_begin_scoped_witness :
  ∃ f, fetch_begin false 2000 (GatewayDemo.request "work" "https://app.example.com/inbox")
         (GatewayDemo.jar "work") = (inr f, snd GatewayDemo.sent)
    ∧ map_get "cookie" (up_headers (pf_upstream f)) = Some "__Host-sid=v1".
Proof.
  destruct (fst GatewayDemo.sent) as [refusal|f] eqn:E; [vm_compute in E; discriminate E|].
  exists f. assert (GatewayDemo.sent = (inr f, snd GatewayDemo.sent)) as Hf
    by (rewrite (surjective_pairing GatewayDemo.sent) at 1; rewrite E; reflexivity).
  split; [exact Hf|].
  destruct (fetch_begin_scoped _ _ _ _ _ _ Hf) as (_ & _ & _ & _ & _ & Hc & _).
  rewrite Hc. vm_compute in E. injection E as <-. reflexivity.
Defined.

(** C14: whatever the hub and the gateway do to an account's storage, with space
    ids that hold no colon, every entry of the jar is a cookie stored under the
    key of its identity in one space, with a canonical domain that is not a
    public suffix unless host-only, a rooted path, the attributes its name
    prefix demands and at most 4096 bytes; and no space holds more than 3000. *)
Theorem account_jar_ok {S} `{HL : HubStorageLaws S} `{GatewayPlatform} `{UrlParser} ap (s0 s : S) :
  (∀ k, startsWith k COOKIE_PREFIX = true → hs_get k s0 = None) →
  rtc (account_step ap) s0 s → jar_ok s.
Proof.
  intros Hempty Hsteps. assert (jar_ok s0) as Hstart.
  { split; [intros k v Hk; by rewrite Hempty|]. intros sp _.
    destruct (hs_list (cookiePrefix sp) s0) as [|[k v] l] eqn:E; [simpl; lia|].
    assert ((k, v) ∈ hs_list (cookiePrefix sp) s0) as Hin by (rewrite E; left).
    apply hs_list_get in Hin as [Hp%cookiePrefix_prefix Hg]. by rewrite Hempty in Hg. }
  clear Hempty. induction Hsteps as [s|s s1 s2 Hs _ IH]; [done|]. apply IH.
  destruct Hs as [s s1 Hs|sp s s1 Hsp Hs]; [by eapply hub_step_jar_ok|].
  apply gateway_step_jar in Hs as [_ Hj]. by apply Hj.
Qed.

(** The origin's answer to a request of "work" is taken in. *)
Lemma account_jar_ok_witness : jar_ok (GatewayDemo.jar "work").
Proof.
  apply (account_jar_ok false emptyStorage); [intros; reflexivity|]. apply rtc_once.
  apply (account_gateway false "work"); [reflexivity|].
  exact (gw_end false "work" 0 (λ _, 1000)
    (inr (mkResponse 200 [("set-cookie", "__Host-sid=v1")] ""))
    (mkPending (mkRequest "GET" [] "") (mkTarget "work" GatewayDemo.url None) true []
       (mkUpstream GatewayDemo.url "GET" [] None)) emptyStorage eq_refl).
Defined.

(** The gateway's requests of one space leave the hub's data and the jars
    of the other spaces as they are, and the hub leaves every jar as it is:
    what the other spaces' requests read is unchanged.  (Space ids without a
    colon.) *)
Theorem gateway_spaces_isolated {S} `{HL : HubStorageLaws S} `{GatewayPlatform} `{UrlParser}
    ap sp sp' now (s s' : S) :
  colon_free sp → colon_free sp' → sp' ≠ sp →
  (gateway_step ap sp s s' →
     (∀ k, startsWith k "gateway-" = false → hs_get k s' = hs_get k s)
     ∧ (∀ k, startsWith k (cookiePrefix sp') = true → hs_get k s' = hs_get k s)
     ∧ (liveCookies now sp' s').1 = (liveCookies now sp' s).1)
  ∧ (hub_step s s' → (liveCookies now sp' s').1 = (liveCookies now sp' s).1).
Proof.
  intros Hsp Hsp' Hne. split.
  - intros Hs. apply gateway_step_jar in Hs as [Hframe _].
    assert (∀ k, startsWith k (cookiePrefix sp') = true → hs_get k s' = hs_get k s) as Hother.
    { intros k Hk. destruct (other_space_key sp sp' k) as [? ?]; auto. }
    split; [|split; [exact Hother|by apply liveCookies_same]].
    intros k Hk. apply Hframe.
    + apply not_true_iff_false. intros Hp%cookiePrefix_prefix.
      by rewrite (startsWith_prefix k "gateway-" "cookie:" Hp) in Hk.
    + intros ->. done.
  - intros Hs. apply liveCookies_same. intros k Hk%cookiePrefix_prefix.
    apply hub_step_gateway; [done|]. by apply (startsWith_prefix k "gateway-" "cookie:").
Qed.

(** The space "home" does not see the session cookie of "work". *)
Lemma gateway_spaces_isolated_witness :
  (liveCookies 2000 "home" (GatewayDemo.jar "work")).1 = (liveCookies 2000 "home" emptyStorage).1.
Proof.
  destruct (gateway_spaces_isolated false "work" "home" 2000 emptyStorage (GatewayDemo.jar "work"))
    as [Hg _]; [reflexivity|reflexivity|discriminate|].
  apply Hg. exact (gw_end false "work" 0 (λ _, 1000)
    (inr (mkResponse 200 [("set-cookie", "__Host-sid=v1")] ""))
    (mkPending (mkRequest "GET" [] "") (mkTarget "work" GatewayDemo.url None) true []
       (mkUpstream GatewayDemo.url "GET" [] None)) emptyStorage eq_refl).
Defined.

(** Without the condition on space ids a space reads another one's cookies. *)
Example colon_space_leaks :
  map gc_name (liveCookies 2000 "work" (GatewayDemo.jar "work:private")).1 = ["__Host-sid"].
Proof. vm_compute. reflexivity. Qed.

(** A cookie the gateway accepts from a [Set-Cookie] line is stored for its
    identity, replacing a former version but keeping its age, unless the space
    is full; and the next request that its secure, path and SameSite rules
    allow, to the host that set it, carries it until it expires.  A line with a
    Max-Age of zero or less removes the cookie instead. *)
Theorem set_cookie_roundtrip {S} `{HL : HubStorageLaws S} `{GatewayPlatform} `{UrlParser}
    ap now sp target top line p c (s : S) :
  parseSetCookie line = Some p → set_cookie_accepts ap now target top p = Some c →
  let s' := acceptSetCookie ap now sp target top line s in
  ((∃ a, sc_maxAge p = Some a ∧ a <= 0) → hs_get (cookieKey sp c) s' = None)
  ∧ ((∀ a, sc_maxAge p = Some a → 0 < a) →
     (is_Some (get_as as_cookie (cookieKey sp c) s)
      ∨ (length (hs_list (cookiePrefix sp) s) < MAX_COOKIES_PER_SPACE)%nat) →
     ∃ t, get_as as_cookie (cookieKey sp c) s' = Some (with_createdAt t c)
       ∧ ∀ now' r, alive now' c → path_covers (gc_path c) (request_path target) →
           (gc_secure c = true → url_protocol target = "https:") →
           same_site_allows c r target →
           with_createdAt t c ∈ (matchingCookies now' sp target top r s').1).
Proof.
  intros Hp Hc s'. unfold s', acceptSetCookie. rewrite Hp, Hc. split.
  - intros (a & -> & Ha). rewrite (proj2 (Z.leb_le _ _)) by done.
    unfold storeOrDelete. cbv zeta. rewrite hs_get_delete. by case_decide.
  - intros Hage Hroom.
    assert (match sc_maxAge p with Some a => a <=? 0 | None => false end = false) as ->.
    { destruct (sc_maxAge p) as [a|]; [|done]. specialize (Hage a eq_refl). by apply Z.leb_gt. }
    destruct (storeOrDelete_stored sp c s Hroom) as [t Ht]. exists t. split; [exact Ht|].
    intros now' r Ha Hpath Hsec Hss. apply matchingCookies_elem.
    destruct (set_cookie_scope _ _ _ _ _ _ Hc) as (Hdom & Hpart & _).
    split; [by split|]. split; [exact Ha|].
    exists (cookieKey sp c). split; [apply cookieKey_prefix|exact Ht].
Qed.

(** The session cookie of the demo origin comes back on a same-site request. *)
Lemma set_cookie_roundtrip_witness :
  ∃ t c, with_createdAt t c
    ∈ (matchingCookies 2000 "work" GatewayDemo.url None (mkRequest "GET" [] "") (GatewayDemo.jar "work")).1.
Proof.
  destruct (set_cookie_roundtrip false 1000 "work" GatewayDemo.url None "__Host-sid=v1"
    GatewayDemo.session
    (mkCookie "__Host-sid" "v1" "app.example.com" true "/" true true false ss_lax None 1000
       (Some (inject_Z 3601000))) emptyStorage) as [_ H]; [reflexivity|reflexivity|].
  destruct H as (t & _ & Hsent).
  - intros a [= <-]. reflexivity.
  - right. vm_compute. lia.
  - eexists t, _. apply Hsent.
    + intros q [= <-]. reflexivity.
    + right. exists "". split; [reflexivity|]. left. reflexivity.
    + reflexivity.
    + left. left. reflexivity.
Defined.

(** ** Private targets *)

Example loopback_refused :
  map (λ h, isPrivateTarget (mkURL "http:" "" "" h "/" [] ""))
    ["127.0.0.1"; "10.1.2.3"; "[::1]"; "[::ffff:127.0.0.1]"; "[::ffff:7f00:1]"; "[fe80::1]"; "a.localhost"]
  = [true; true; true; true; true; true; true].
Proof. vm_compute. reflexivity. Qed.

(** Names that merely begin like a unique-local prefix are refused too, and the
    IPv4-compatible spelling of loopback is not. *)
Example private_target_prefix :
  map (λ h, isPrivateTarget (mkURL "https:" "" "" h "/" [] "")) ["fcc.gov"; "fda.gov"; "[::7f00:1]"]
  = [true; true; false].
Proof. vm_compute. reflexivity. Qed.
