(* ===== verification/HubSafety.v ===== *)
(** * Publishing, revocation and the watermark of the session hub

    The guarantees of the publish path and of revocation, proved over any
    storage that satisfies [HubStorageLaws], with witnesses on
    [SortedStorage]. *)

From S2P Require Export HubProps.
From Stdlib Require Import Ascii.

(** Inputs of the witnesses. *)
Module HubDemo.
Definition at_ (ms : Z) : Hlc := mkHlc ms 0 "mac".
Definition wire (sp rid origin : string) (ms : Z) : CookieRecordWire :=
  mkWire sp rid origin "sealed" (at_ ms) None "sig" WRITE.
Definition conn (d c : string) (spaces : list string) : HubConnection := mkConn (Some d) c spaces.
Definition hub : Hub SortedStorage :=
  mkHub emptyStorage (conn "mac" "c1" ["work"]) [conn "ipad" "c2" ["work"]] [].
(** A hub after the frames [fs] of the device "mac". *)
Definition after (fs : list ClientMessage) : Hub SortedStorage :=
  fold_left (λ h f, handleMessage 1000 (Some f) h) (MHello "mac" ["work"] :: fs) hub.
(** The same hub once that device is revoked. *)
Definition lost : Hub SortedStorage :=
  mkHub (revokeDevice 1500 "mac" [] (hub_store (after []))).1.1
    (hub_sender (after [])) (hub_others (after [])) [].
End HubDemo.

(** ** Records and watermarks *)

Section Watermark.
Context {S : Type} `{HL : HubStorageLaws S}.

(** Every stored record, latest or retained, is at most the watermark of its
    space. *)
Definition watermark_covers (s : S) : Prop :=
  ∀ k r, get_as as_record k s = Some r →
    ∃ m, get_as as_hlc (wmKey (w_spaceId r)) s = Some m ∧ hlc_le (w_hlc r) m.

(** The records of [s'] were already in [s]. *)
Definition records_from (s s' : S) : Prop :=
  ∀ k r, get_as as_record k s' = Some r → ∃ k', get_as as_record k' s = Some r.

#[local] Instance records_from_preorder : PreOrder records_from.
Proof.
  split; [intros s k r ?; eauto|]. intros s1 s2 s3 H1 H2 k r (k' & Hk)%H2. by eapply H1.
Qed.

Lemma records_from_put s k v : as_record v = None → records_from s (hs_put k v s).
Proof. intros Hv k' r. rewrite get_as_put, Hv. destruct (decide _); [done|eauto]. Qed.

Lemma records_from_put_record s k r k' :
  get_as as_record k' s = Some r → records_from s (hs_put k (VRecord r) s).
Proof. intros Hr k0 r0. rewrite get_as_put. destruct (decide _); [|eauto]. intros [= <-]. eauto. Qed.

Lemma records_from_delete s k : records_from s (hs_delete k s).
Proof. intros k' r. rewrite get_as_delete. destruct (decide _); [done|eauto]. Qed.

Lemma records_from_delete_all s ks : records_from s (hs_delete_all ks s).
Proof.
  intros k r. unfold get_as. rewrite get_delete_all. destruct (decide _); [done|eauto].
Qed.

Lemma rollback_one_records sp o to s e : records_from s (rollback_one sp o to s e).
Proof.
  destruct e as [key r]. unfold rollback_one. case_match; [reflexivity|].
  case_match; [reflexivity|]. set (vs := list_as _ _ s). set (ks := map fst _).
  assert (records_from s (hs_delete_all ks s)) as Hd by apply records_from_delete_all.
  destruct (survivor to vs) as [v|] eqn:Ev; [|etrans; [exact Hd|apply records_from_delete]].
  (* a survivor was listed, so it is a record of [s] *)
  unfold survivor in Ev. apply last_Some in Ev as (l & Hl).
  assert (v ∈ map snd (List.filter (λ '(_, v), negb (compareHlc (w_hlc v) to >? 0)) vs)) as Hin
    by (rewrite Hl; set_solver).
  apply list_elem_of_fmap in Hin as ([k v'] & -> & [Hin _]%In_filter_iff).
  apply list_as_get in Hin as [_ Hin]. intros k0 r0. rewrite get_as_put.
  destruct (decide _); [|apply Hd]. intros [= <-]. eauto.
Qed.

Lemma rollback_all_records sp o to es s : records_from s (fold_left (rollback_one sp o to) es s).
Proof.
  revert s. induction es as [|e es IH]; intros s; simpl; [reflexivity|].
  etrans; [apply rollback_one_records|apply IH].
Qed.

Lemma covers_frame s s' :
  watermark_covers s → records_from s s' →
  (∀ sp, get_as as_hlc (wmKey sp) s' = get_as as_hlc (wmKey sp) s) → watermark_covers s'.
Proof. intros Hc Hr Hw k r (k' & Hk)%Hr. rewrite Hw. by eapply Hc. Qed.

(** While a batch is processed, a record is old or waits in its group. *)
Lemma publish_records now d decl rs s k r :
  let p := publish_all now d decl rs s in
  get_as as_record k (pb_store p) = Some r →
  (∃ k', get_as as_record k' s = Some r)
  ∨ ∃ g, map_get (w_spaceId r) (pb_bySpace p) = Some g ∧ r ∈ g.
Proof.
  revert k r. induction rs as [|x rs IH] using rev_ind; intros k r; [eauto|].
  rewrite publish_all_app. simpl in *. set (p := publish_all now d decl rs s) in *.
  unfold publish_one. do 4 (case_match; [by apply IH|]). cbn [pb_store pb_bySpace accept].
  unfold appendHistory. intros (k1 & Hk)%records_from_delete_all.
  assert (get_as as_record k1 (pb_store p) = Some r ∨ r = x) as [Hr| ->].
  { rewrite !get_as_put in Hk. repeat case_decide; simpl in Hk; simplify_eq; auto. }
  - destruct (IH _ _ Hr) as [?|(g & Hg & Hin)]; [by left|right]. rewrite map_get_set.
    destruct (decide _) as [Heq|]; [|eauto]. rewrite Heq, Hg. simpl. eexists. split; [done|].
    set_solver.
  - right. rewrite map_get_set_eq. eexists. split; [done|]. set_solver.
Qed.

Lemma get_as_eq {A} (f : HubValue → option A) k s s' :
  hs_get k s = hs_get k s' → get_as f k s = get_as f k s'.
Proof. unfold get_as. by intros ->. Qed.

Lemma put_windows_records (ws : jsmap string (list Z)) s :
  records_from s (fold_left (λ s '(k, w), hs_put k (VTimes w) s) ws s).
Proof.
  revert s. induction ws as [|[k w] ws IH]; intros s; simpl; [reflexivity|].
  etrans; [|apply IH]. by apply records_from_put.
Qed.

Lemma update_watermarks_records gs s : records_from s (fold_left update_watermark gs s).
Proof.
  revert s. induction gs as [|[sp g] gs IH]; intros s; simpl; [reflexivity|].
  etrans; [|apply IH]. case_match; [|reflexivity].
  case_match; [by apply records_from_put|reflexivity].
Qed.

Lemma publish_covers now d rs h :
  watermark_covers (hub_store h) → watermark_covers (published_store now d rs h).
Proof.
  intros Hc. unfold published_store. set (decl := hc_spaceIds _). set (p := publish_all _ _ _ _ _).
  set (s1 := fold_left _ (pb_windows p) (pb_store p)).
  destruct (publish_groups_ok now d decl rs (hub_store h)) as [Hwf Hne]. fold p in Hwf, Hne.
  assert (∀ sp, get_as as_hlc (wmKey sp) s1 = get_as as_hlc (wmKey sp) (hub_store h)) as Hwm.
  { intros sp. apply get_as_eq. unfold s1. rewrite put_windows_get.
    - unfold p. by rewrite publish_all_get.
    - intros k' Hk'%publish_all_windows ->. done. }
  assert (records_from (pb_store p) (fold_left update_watermark (pb_bySpace p) s1)) as Hfrom.
  { etrans; [apply put_windows_records|apply update_watermarks_records]. }
  intros k r (k' & Hk)%Hfrom.
  destruct (update_watermarks_spec (pb_bySpace p) s1 (w_spaceId r) Hwf Hne) as [Hold Hnew].
  destruct (publish_records now d decl rs (hub_store h) k' r Hk) as [(k0 & H0)|(g & Hg & Hin)].
  - destruct (Hc _ _ H0) as (m & Hm & Hle). rewrite <- Hwm in Hm.
    destruct (Hold m Hm) as (m' & Hm' & ?). exists m'. split; [done|]. hlc_order.
  - destruct (Hnew g) as (m & Hm & Hall); [by apply map_get_In|]. eauto.
Qed.

Lemma workspace_fold_records docs acc :
  records_from acc.1 (fold_left workspace_one docs acc).1.
Proof.
  revert acc. induction docs as [|d docs IH]; intros [s w]; simpl; [reflexivity|].
  etrans; [|apply IH]. case_match; [reflexivity|]. by apply records_from_put.
Qed.

(** Every frame but a publish adds no record. *)
Lemma handleMessage_records now f h :
  (∀ rs, f ≠ Some (MPublish rs)) →
  records_from (hub_store h) (hub_store (handleMessage now f h)).
Proof.
  intros Hf. unfold handleMessage. destruct f as [m|]; [|reflexivity].
  destruct m; cbv match; [|by edestruct Hf|..]; try (case_match; [|reflexivity];
    case_match; [reflexivity|]).
  - unfold handleHello. do 2 (case_match; [reflexivity|]). rewrite send_peers_store. simpl.
    etrans; by apply records_from_put.
  - unfold handleHydrate. destruct (hydrateSpace _ _ _) as [rs wm]. cbn [hub_store reply send_to].
    by rewrite fold_reply_store.
  - unfold handleLeaseAcquire. cbn zeta. repeat (case_match; try reflexivity); simpl;
      rewrite ?send_peers_store; by apply records_from_put.
  - unfold handleLeaseRelease. do 2 (case_match; [|reflexivity]). apply records_from_delete.
  - unfold handleRollback. case_match; [reflexivity|]. rewrite send_peers_store.
    apply rollback_all_records.
  - unfold handleWorkspacePublish. cbn [hub_store with_sender].
    pose proof (workspace_fold_records docs (hub_store h, [])) as Hw.
    destruct (fold_left workspace_one docs _) as [s' w]. destruct w; rewrite ?send_peers_store; apply Hw.
  - unfold handleWorkspaceHydrate. cbn [hub_store reply send_to]. by rewrite fold_reply_store.
  - reflexivity.
Qed.

Lemma hub_step_covers s s' : watermark_covers s → hub_step s s' → watermark_covers s'.
Proof.
  intros Hc. destruct 1 as [now f h|now d conns s|conn others s|now d others s].
  - assert ((∃ rs, f = Some (MPublish rs)) ∨ ∀ rs, f ≠ Some (MPublish rs)) as [(rs & ->)|Hf].
    { destruct f as [[]|]; eauto. }
    + unfold handleMessage. case_match; [|done]. case_match; [done|].
      rewrite handlePublish_store. by apply publish_covers.
    + eapply covers_frame; [done|by apply handleMessage_records|].
      intros sp. by apply get_as_eq, handleMessage_quiet.
  - eapply covers_frame; [done| |intros sp; apply get_as_eq; by rewrite revokeDevice_get].
    unfold revokeDevice. cbn [fst].
    etrans; [|apply records_from_delete]. etrans; [|apply records_from_delete_all].
    etrans; [|apply records_from_delete]. by apply records_from_put.
  - eapply covers_frame; [done| |intros sp; apply get_as_eq; by rewrite close_begin_get].
    unfold close_begin. repeat (case_match; try (apply records_from_delete || reflexivity)).
    cbn [fst]. etrans; [apply records_from_delete|apply records_from_delete_all].
  - eapply covers_frame; [done| |intros sp; apply get_as_eq; by rewrite close_finish_get].
    unfold close_finish. case_match; [reflexivity|]. cbn [fst].
    etrans; [apply records_from_delete|by apply records_from_put].
Qed.
End Watermark.

(** ** What a publish sends and leaves *)

Section Outputs.
Context {S : Type} `{HL : HubStorageLaws S}.

Lemma send_peers_out t m (h : Hub S) :
  hub_out (send_peers t m h) = hub_out h ++ map (λ c, Send (hc_connectionId c) m) (List.filter t (hub_others h))
  ∧ hub_others (send_peers t m h) = hub_others h.
Proof.
  unfold send_peers. generalize (hub_others h) at 1 2 3 as l. intros l. revert h.
  induction l as [|c l IH]; intros h; cbn [fold_left List.filter map]; [by rewrite app_nil_r|].
  destruct (IH (if t c then send_to c m h else h)) as [-> ->]. destruct (t c); [|done].
  cbn. by rewrite <- app_assoc.
Qed.

Definition fan_out (peers : list HubConnection) (gs : jsmap string (list CookieRecordWire)) : list HubEffect :=
  flat_map (λ '(sp, g), map (λ c, Send (hc_connectionId c) (SRecords sp g))
                          (List.filter (λ c, bool_decide (sp ∈ hc_spaceIds c)) peers)) gs.

Lemma fold_groups_out gs (h : Hub S) :
  hub_out (fold_left (λ h '(spaceId, group),
    send_peers (λ c, bool_decide (spaceId ∈ hc_spaceIds c)) (SRecords spaceId group) h) gs h)
  = hub_out h ++ fan_out (hub_others h) gs.
Proof.
  revert h. induction gs as [|[sp g] gs IH]; intros h; [by rewrite app_nil_r|]. cbn [fold_left].
  rewrite IH. destruct (send_peers_out (λ c, bool_decide (sp ∈ hc_spaceIds c)) (SRecords sp g) h) as [-> ->].
  by rewrite <- app_assoc.
Qed.

Definition rate_error : ServerMessage :=
  SError "rate_limited" "over 120 mutations/origin/minute".

(** The verdicts are answered first, then the accepted records go out. *)
Lemma handlePublish_out now d rs h :
  let p := publish_all now d (hc_spaceIds (hub_sender h)) rs (hub_store h) in
  let me := hc_connectionId (hub_sender h) in
  hub_out (handlePublish now d rs h)
  = hub_out h ++ Send me (SPublishAck (pb_accepted p) (pb_rejected p))
      :: (if pb_rateLimited p then [Send me rate_error] else [])
      ++ fan_out (map (refresh_peer (published_store now d rs h)) (hub_others h)) (pb_bySpace p).
Proof.
  unfold handlePublish. cbn zeta. set (p := publish_all _ _ _ _ _).
  change (fold_left update_watermark (pb_bySpace p) _) with (published_store now d rs h).
  rewrite fold_groups_out. destruct (pb_rateLimited p), (pb_bySpace p); cbn; rewrite <- ?app_assoc; done.
Qed.

(** The connections a peer declared are not touched by a publish. *)
Lemma published_refresh now d rs h c :
  refresh_peer (published_store now d rs h) c = refresh_peer (hub_store h) c.
Proof.
  unfold refresh_peer. destruct (hc_deviceId c) as [dev|]; [|done]. f_equal. unfold declaredSpaces.
  assert (∀ k, startsWith k "conn:" = true → get_as as_spaces k (published_store now d rs h) = get_as as_spaces k (hub_store h)) as E.
  { intros k (t & ->)%startsWith_iff. apply get_as_eq. rewrite <- handlePublish_store. by apply handlePublish_get. }
  rewrite !E; [done| |]; unfold legacyConnKey, connectionStorageKey, connPrefix; rewrite ?sapp_assoc; apply startsWith_app.
Qed.

(** A peer gets the accepted records of each space it declared. *)
Lemma fan_out_spec now d rs h (p : Publish S) vs x :
  map_wf (pb_bySpace p) → (∀ sp, map_get sp (pb_bySpace p) = group_of sp (accepted vs)) →
  x ∈ fan_out (map (refresh_peer (published_store now d rs h)) (hub_others h)) (pb_bySpace p) ↔
  ∃ peer sp, peer ∈ hub_others h ∧ sp ∈ hc_spaceIds (refresh_peer (hub_store h) peer)
    ∧ of_space sp (accepted vs) ≠ [] ∧ x = Send (hc_connectionId peer) (SRecords sp (of_space sp (accepted vs))).
Proof.
  intros Hwf Hg. unfold fan_out. rewrite list_elem_of_In, in_flat_map. split.
  - intros ([sp g] & Hin%list_elem_of_In & Hx). apply list_elem_of_In, list_elem_of_fmap in Hx as (c & -> & Hc).
    apply In_filter_iff in Hc as [Hc Hsp%bool_decide_eq_true]. apply list_elem_of_fmap in Hc as (peer & -> & Hpeer).
    apply (map_In_get _ _ _ Hwf) in Hin. rewrite Hg in Hin. unfold group_of in Hin.
    destruct (of_space sp (accepted vs)) as [|r l] eqn:E; [done|]. injection Hin as <-.
    rewrite published_refresh in Hsp |- *. exists peer, sp. rewrite E. split; [done|]. split; [done|]. split; [done|].
    unfold refresh_peer. by destruct (hc_deviceId peer).
  - intros (peer & sp & Hpeer & Hsp & Hne & ->). exists (sp, of_space sp (accepted vs)). split.
    + apply list_elem_of_In, map_get_In. rewrite Hg. unfold group_of. by destruct (of_space _ _).
    + apply list_elem_of_In, list_elem_of_fmap. exists (refresh_peer (hub_store h) peer). split.
      * unfold refresh_peer. by destruct (hc_deviceId peer).
      * apply In_filter_iff. split; [|by apply bool_decide_eq_true]. apply list_elem_of_fmap. exists peer.
        by rewrite published_refresh.
Qed.

Lemma handlePublish_record now d rs h k :
  startsWith k "rec:" = true →
  get_as as_record k (hub_store (handlePublish now d rs h))
  = get_as as_record k (pb_store (publish_all now d (hc_spaceIds (hub_sender h)) rs (hub_store h))).
Proof.
  intros (t & ->)%startsWith_iff. apply get_as_eq.
  by rewrite handlePublish_store, published_store_get.
Qed.

(** The windows of the loop are stored. *)
Lemma put_windows_self (ws : jsmap string (list Z)) (s : S) k :
  map_wf ws → get_as as_times k (fold_left (λ s '(k, w), hs_put k (VTimes w) s) ws s)
  = match map_get k ws with Some w => Some w | None => get_as as_times k s end.
Proof.
  unfold map_wf, map_keys. revert s. induction ws as [|[k' w] ws IH]; intros s; [done|]. cbn [map fst].
  intros [Hk Hwf]%NoDup_cons. cbn [fold_left map_get]. rewrite IH by done. destruct (decide (k = k')) as [<-|Hne].
  - destruct (map_get k ws) as [w'|] eqn:E.
    + exfalso. apply Hk, (map_get_keys k ws). by rewrite E.
    + by rewrite get_as_put, decide_True.
  - destruct (map_get k ws); [done|]. rewrite get_as_put, decide_False; [done|congruence].
Qed.

Lemma publish_windows_wf now d decl rs (s : S) : map_wf (pb_windows (publish_all now d decl rs s)).
Proof.
  induction rs as [|r rs IH] using rev_ind; [constructor|]. rewrite publish_all_app. unfold publish_one.
  repeat (case_match; [done || by apply map_wf_set|]). by apply map_wf_set.
Qed.

Lemma handlePublish_stamps now d rs h o :
  stamps d (hub_store (handlePublish now d rs h)) o
  = window_of d (publish_all now d (hc_spaceIds (hub_sender h)) rs (hub_store h)) o.
Proof.
  unfold stamps, window_of. rewrite handlePublish_store. unfold published_store.
  set (p := publish_all _ _ _ _ _).
  rewrite (get_as_eq _ _ _ (fold_left (λ s '(k, w), hs_put k (VTimes w) s) (pb_windows p) (pb_store p)))
    by (apply update_watermarks_get; intros g _; done).
  rewrite put_windows_self by apply publish_windows_wf. by destruct (map_get _ _).
Qed.
End Outputs.

(** ** Properties *)

(** Whatever frames, revocations and socket closings the hub has handled
    since it was empty, every record it stores, latest or retained for
    rollback, is at most the watermark it reports for the record's space: a
    client that hydrates up to the watermark has not missed one. *)
Theorem hub_watermark_covers {S} `{HL : HubStorageLaws S} (s0 s : S) k r :
  (∀ k, hs_get k s0 = None) → rtc hub_step s0 s → get_as as_record k s = Some r →
  ∃ m, get_as as_hlc (wmKey (w_spaceId r)) s = Some m ∧ hlc_le (w_hlc r) m.
Proof.
  intros H0 Hsteps. revert k r. change (watermark_covers s).
  assert (watermark_covers s0) as Hc by (intros k r; unfold get_as; by rewrite H0).
  clear H0. revert Hc. induction Hsteps as [s|s s1 s2 Hs _ IH]; [done|].
  intros Hc. apply IH. by eapply hub_step_covers.
Qed.

(** A published record is covered. *)
Lemma hub_watermark_covers_witness :
  ∃ m, get_as as_hlc (wmKey "work") (hub_store (HubDemo.after [MPublish [HubDemo.wire "work" "r" "site" 5]]))
    = Some m ∧ hlc_le (HubDemo.at_ 5) m.
Proof.
  apply (hub_watermark_covers emptyStorage _ (recKey "work" "r") (HubDemo.wire "work" "r" "site" 5)).
  - intros k. reflexivity.
  - eapply rtc_l; [exact (step_message 1000 (Some (MHello "mac" ["work"])) HubDemo.hub)|].
    apply rtc_once. exact (step_message 1000 (Some (MPublish [HubDemo.wire "work" "r" "site" 5]))
      (HubDemo.after [])).
  - vm_compute. reflexivity.
Defined.

(** C9: a device the hub has revoked stays revoked whatever the hub handles
    next, and every frame a connection bound to it sends, as every hello that
    claims it on a fresh connection, is answered by closing the socket: nothing
    is stored, nobody else hears of it. *)
Theorem revoked_device_is_out {S} `{HL : HubStorageLaws S} (s s' : S) d :
  isRevoked d s = true → rtc hub_step s s' →
  isRevoked d s' = true
  ∧ ∀ now m h, hub_store h = s' →
      (hc_deviceId (hub_sender h) = Some d
       ∨ hc_deviceId (hub_sender h) = None ∧ ∃ spaces, m = MHello d spaces) →
      handleMessage now (Some m) h = close_sender CLOSE_REVOKED "revoked" h.
Proof.
  intros Hr Hsteps.
  assert (isRevoked d s' = true) as Hr'.
  { revert Hr. induction Hsteps as [s|s s1 s2 Hs _ IH]; [done|]. intros Hr.
    apply IH. by eapply hub_step_revoked. }
  split; [done|]. intros now m h <- [Hd|(Hd & spaces & ->)]; simpl.
  - destruct m; simpl; rewrite ?Hd, ?Hr'; try done. unfold handleHello. rewrite Hd. simpl. by rewrite Hr'.
  - unfold handleHello. rewrite Hd. simpl. by rewrite Hr'.
Qed.

(** The device "mac" is revoked, then publishes on the socket still open. *)
Lemma revoked_device_is_out_witness :
  isRevoked "mac" (hub_store HubDemo.lost) = true
  ∧ handleMessage 2000 (Some (MPublish [HubDemo.wire "work" "r" "site" 5])) HubDemo.lost
    = close_sender CLOSE_REVOKED "revoked" HubDemo.lost.
Proof.
  destruct (revoked_device_is_out (hub_store HubDemo.lost) (hub_store HubDemo.lost) "mac")
    as [H1 H2]; [vm_compute; reflexivity|apply rtc_refl|].
  split; [exact H1|]. apply H2; [reflexivity|]. left. reflexivity.
Defined.

(** C10: a publish does exactly what its records deserve.  Each record of the
    batch is judged in order, against the storage and the records accepted
    before it: refused as malformed when the sender did not declare its space,
    as lease_required when another device holds a live lease on its origin, as
    stale when the current version of its key is at least as new; throttled
    when the device has 120 mutations of that origin in the last minute, those
    accepted from this batch included; accepted otherwise.  The publisher is
    acknowledged exactly the accepted ids and the refusals with their reasons
    (a throttled record as stale), with an error when something was throttled;
    each peer gets the accepted records of each space it declared; the stored
    version of every key is the last accepted record of it, or the one from
    before; and what was accepted counts against the next minute.  Stored
    stamps are in order and not in the future, and stay so. *)
Theorem handlePublish_guarded {S} `{HL : HubStorageLaws S} now d rs (h : Hub S) :
  let s := hub_store h in
  let h' := handlePublish now d rs h in
  let me := hc_connectionId (hub_sender h) in
  windows_ok now d s →
  ∃ vs, map fst vs = rs ∧ judged_all now d (hc_spaceIds (hub_sender h)) s vs
    ∧ (∀ k, startsWith k "rec:" = true → get_as as_record k (hub_store h') = version_of s (accepted vs) k)
    ∧ (∃ fan, hub_out h' = hub_out h ++ Send me (SPublishAck (map w_recordId (accepted vs)) (rejections vs))
                  :: (if some_throttled vs then [Send me rate_error] else []) ++ fan
         ∧ ∀ x, x ∈ fan ↔ ∃ peer sp, peer ∈ hub_others h ∧ sp ∈ hc_spaceIds (refresh_peer s peer)
             ∧ of_space sp (accepted vs) ≠ []
             ∧ x = Send (hc_connectionId peer) (SRecords sp (of_space sp (accepted vs))))
    ∧ (∀ o, mutations now d (hub_store h') [] o = mutations now d s (accepted vs) o)
    ∧ windows_ok now d (hub_store h').
Proof.
  intros s h' me Hw. destruct (batch_all now d (hc_spaceIds (hub_sender h)) s rs Hw) as (vs & Hrs & Hj & Hp).
  exists vs. split; [exact Hrs|]. split; [exact Hj|]. split.
  { intros k Hk. unfold h'. rewrite handlePublish_record by done. by apply (bo_version _ _ _ _ _ Hp). }
  split; [|split].
  - eexists. split.
    + unfold h', me. rewrite handlePublish_out. fold s.
      rewrite (bo_accepted _ _ _ _ _ Hp), (bo_rejected _ _ _ _ _ Hp), (bo_limited _ _ _ _ _ Hp). reflexivity.
    + intros x. apply fan_out_spec; [apply publish_groups_ok|apply (bo_groups _ _ _ _ _ Hp)].
  - intros o. destruct (bo_window _ _ _ _ _ Hp o) as [_ Hr]. unfold mutations, h'.
    rewrite handlePublish_stamps. fold s. rewrite Hr, length_app, length_replicate. cbn. lia.
  - intros o. unfold h'. rewrite handlePublish_stamps. apply (bo_window _ _ _ _ _ Hp o).
Qed.

(** A device publishes the 119th and the 120th mutation of an origin within a
    minute, a third one, an old version and one for a space it did not declare. *)
Module PublishDemo.
Definition before : SortedStorage :=
  hs_put (rateKey "mac" "site") (VTimes (2 :: replicate 118 50000)) (hub_store HubDemo.hub).
Definition hub : Hub SortedStorage := mkHub before (hub_sender HubDemo.hub) (hub_others HubDemo.hub) [].
Definition batch : list CookieRecordWire :=
  [HubDemo.wire "work" "r" "site" 5; HubDemo.wire "work" "r" "site" 6; HubDemo.wire "work" "r" "site" 6;
   HubDemo.wire "work" "q" "site" 7; HubDemo.wire "other" "q" "site" 7].
End PublishDemo.

Lemma handlePublish_guarded_witness :
  ∃ vs, map fst vs = PublishDemo.batch
    ∧ judged_all 60005 "mac" ["work"] PublishDemo.before vs
    ∧ map w_recordId (accepted vs) = ["r"; "r"] ∧ some_throttled vs = true
    ∧ rejections vs = [mkRejection "r" stale_rejection; mkRejection "q" stale_rejection; mkRejection "q" malformed_rejection].
Proof.
  destruct (handlePublish_guarded 60005 "mac" PublishDemo.batch PublishDemo.hub) as (vs & Hrs & Hj & _ & (fan & Hout & Hfan) & _).
  - intros o. unfold stamps, PublishDemo.hub, PublishDemo.before. cbn [hub_store]. rewrite get_as_put.
    destruct (decide _) as [_|]; cbn [as_times default].
    + split; [repeat constructor; lia|repeat constructor; lia].
    + split; constructor.
  - exists vs. split; [exact Hrs|]. split; [exact Hj|].
    match type of Hout with ?l = _ => let l' := eval vm_compute in l in change l with l' in Hout end.
    cbn [hub_out PublishDemo.hub app] in Hout.
    destruct (some_throttled vs); cbn [app] in Hout; injection Hout as Ha Hr Hf.
    + rewrite <- Ha, <- Hr. auto.
    + exfalso. assert (Send "c1" rate_error ∈ fan) as Hin by (rewrite <- Hf; left).
      apply Hfan in Hin as (peer & sp & _ & _ & _ & Hx). discriminate Hx.
Defined.
