(* ===== verification/HubHistory.v ===== *)
(** * Retained versions, hydration and rollback in the session hub

    [appendHistory], [handleHydrate] and [handleRollback] of HubCore.v: what is
    retained, what a client receives, and what a rollback restores. *)

From S2P Require Export HubSafety.
From Stdlib Require Import Ascii.

(** ** Retention *)

Section Retention.
Context {S : Type} `{HL : HubStorageLaws S}.

Lemma versions_put r s v :
  hlc_bounded (w_hlc r) → history_ok (w_spaceId r) (w_recordId r) s →
  v ∈ versions (w_spaceId r) (w_recordId r)
        (hs_put (histKey (w_spaceId r) (w_recordId r) (w_hlc r)) (VRecord r) s)
  ↔ v = r ∨ v ∈ versions (w_spaceId r) (w_recordId r) s ∧ w_hlc v ≠ w_hlc r.
Proof.
  intros Hb Hok. rewrite !versions_listing by (done || by apply history_ok_put).
  rewrite hs_get_put. split.
  - intros [Hv Hg]. destruct (decide _) as [Heq|Hne]; [left; congruence|]. right.
    split; [done|]. intros Heq. apply Hne. by rewrite Heq.
  - intros [->|[[Hv Hg] Hne]]; [by rewrite decide_True|]. split; [done|].
    rewrite decide_False; [done|]. intros Heq%histKey_inj; done.
Qed.
End Retention.

(** ** Hydration *)

Section Hydration.
Context {S : Type} `{HL : HubStorageLaws S}.

(** One pass of [consider] over a listing. *)
Definition consider (sp : string) (since : option Hlc) (versions : jsmap string CookieRecordWire)
    (r : CookieRecordWire) : jsmap string CookieRecordWire :=
  if considered sp since r then map_set (version_id r) r versions else versions.

Lemma consider_all_spec sp since rs m :
  map_wf m →
  let m' := fold_left (consider sp since) rs m in
  map_wf m'
  ∧ ∀ id r, map_get id m' = Some r →
      map_get id m = Some r ∨ r ∈ rs ∧ considered sp since r = true ∧ id = version_id r.
Proof.
  revert m. induction rs as [|x rs IH]; intros m Hm; simpl; [auto|].
  assert (map_wf (consider sp since m x)) as Hx by (unfold consider; case_match; by try apply map_wf_set).
  destruct (IH _ Hx) as [Hwf Hget]. split; [done|]. intros id r Hr.
  apply Hget in Hr as [Hr|(? & ? & ?)]; [|set_solver]. unfold consider in Hr.
  destruct (considered sp since x) eqn:Ec; [|auto]. rewrite map_get_set in Hr.
  destruct (decide _); simplify_eq; set_solver.
Qed.

Lemma consider_all_complete sp since rs m id :
  (∃ r, map_get id m = Some r)
  ∨ (∃ r, r ∈ rs ∧ considered sp since r = true ∧ id = version_id r) →
  ∃ r, map_get id (fold_left (consider sp since) rs m) = Some r.
Proof.
  revert m. induction rs as [|x rs IH]; intros m Hex; simpl; [set_solver|]. apply IH.
  unfold consider. destruct Hex as [(r & Hr)|(r & [->|Hin]%elem_of_cons & Hc & ->)].
  - left. case_match; [|eauto]. rewrite map_get_set. destruct (decide _); eauto.
  - left. rewrite Hc, map_get_set_eq. eauto.
  - right. eauto.
Qed.

Lemma hydrateSpace_eq sp since s :
  hydrateSpace sp since s =
  (sortByHlc w_hlc (map_values (fold_left (consider sp since)
     (map snd (list_as as_record (histSpacePrefix sp) s)
      ++ map snd (list_as as_record (recPrefix sp) s)) jsmap_empty)),
   get_as as_hlc (wmKey sp) s).
Proof. unfold hydrateSpace. by rewrite fold_left_app. Qed.

Lemma listed_record p s r :
  r ∈ map snd (list_as as_record p s) ↔ ∃ k, startsWith k p = true ∧ get_as as_record k s = Some r.
Proof.
  rewrite list_elem_of_fmap. split.
  - intros ([k r'] & -> & Hin%list_as_get). eauto.
  - intros (k & Hk). exists (k, r). split; [done|]. by apply list_as_get.
Qed.

(** The records a hydration of the space considers: latest and retained. *)
Definition held (sp : string) (s : S) (r : CookieRecordWire) : Prop :=
  ∃ k, (startsWith k (histSpacePrefix sp) = true ∨ startsWith k (recPrefix sp) = true)
    ∧ get_as as_record k s = Some r.

Lemma hydrateSpace_spec sp since s :
  let rs := (hydrateSpace sp since s).1 in
  StronglySorted (λ a b, hlc_le (w_hlc a) (w_hlc b)) rs
  ∧ NoDup (map version_id rs)
  ∧ (∀ r, r ∈ rs → held sp s r ∧ considered sp since r = true)
  ∧ ∀ r, held sp s r → considered sp since r = true → version_id r ∈ map version_id rs.
Proof.
  rewrite hydrateSpace_eq. cbn [fst]. set (all := _ ++ _). set (m := fold_left _ all _).
  destruct (consider_all_spec sp since all jsmap_empty map_wf_empty) as [Hwf Hget]. fold m in Hwf, Hget.
  assert (∀ r, r ∈ all ↔ held sp s r) as Hall.
  { intros r. unfold all, held. rewrite elem_of_app, !listed_record. naive_solver. }
  assert (∀ id r, (id, r) ∈ m → id = version_id r ∧ held sp s r ∧ considered sp since r = true)
    as Hin.
  { intros id r Hm%map_In_get; [|done]. destruct (Hget id r Hm) as [?|(Hr & ? & ?)]; [done|].
    by rewrite <- Hall. }
  split; [apply sortByHlc_sorted|]. split; [|split].
  - rewrite sortByHlc_perm. unfold map_values. rewrite map_map.
    erewrite map_ext_in; [exact Hwf|]. intros [id r] Hm%list_elem_of_In. by apply Hin in Hm as [-> _].
  - intros r Hr%elem_of_sortByHlc. apply list_elem_of_fmap in Hr as ([id r'] & -> & Hm).
    by apply Hin in Hm as [_ ?].
  - intros r Hr Hc.
    destruct (consider_all_complete sp since all jsmap_empty (version_id r)) as (r' & Hr').
    { right. exists r. by rewrite Hall. }
    apply map_get_In in Hr'. pose proof (Hin _ _ Hr') as [-> _]. apply list_elem_of_fmap.
    exists r'. split; [done|]. apply elem_of_sortByHlc, list_elem_of_fmap.
    by eexists (_, r').
Qed.

(** Chunks cut a list without losing or reordering anything. *)
Lemma chunks_spec {A} n fuel (l : list A) :
  (0 < n)%nat → (length l <= fuel)%nat →
  concat (chunks fuel n l) = l ∧ Forall (λ c, c ≠ [] ∧ (length c <= n)%nat) (chunks fuel n l).
Proof.
  intros Hn. revert l. induction fuel as [|f IH]; intros l Hl; [destruct l; simpl in *; [by split|lia]|].
  destruct l as [|x l]; [by split|]. cbn [chunks concat].
  destruct (IH (drop n (x :: l))) as [Hc Hall]; [rewrite length_drop; simpl in *; lia|].
  rewrite Hc. split; [apply take_drop|]. constructor; [|done]. split.
  - by destruct n; [lia|].
  - rewrite length_take. lia.
Qed.

Lemma fold_reply_out {A} (f : A → ServerMessage) l (h : Hub S) :
  fold_left (λ h c, reply (f c) h) l h
  = mkHub (hub_store h) (hub_sender h) (hub_others h)
      (hub_out h ++ map (λ c, Send (hc_connectionId (hub_sender h)) (f c)) l).
Proof.
  revert h. induction l as [|c l IH]; intros h; simpl; [destruct h; simpl; by rewrite app_nil_r|].
  rewrite IH. simpl. by rewrite <- app_assoc.
Qed.
End Hydration.

(** ** Rollback *)

Section Rollback.
Context {S : Type} `{HL : HubStorageLaws S}.

(** The records a rollback rewrites. *)
Definition targeted (sp origin : string) (to : Hlc) (r : CookieRecordWire) : bool :=
  String.eqb (w_spaceId r) sp && String.eqb (w_originId r) origin && (compareHlc (w_hlc r) to >? 0).

(** The retained versions a rollback leaves. *)
Definition old_versions (sp rid : string) (to : Hlc) (s : S) : list (string * CookieRecordWire) :=
  List.filter (λ '(_, v), negb (compareHlc (w_hlc v) to >? 0)) (list_as as_record (histPrefix sp rid) s).

(** [s'] has lost only retained versions above the target, and latest records. *)
Definition pruned (to : Hlc) (s s' : S) : Prop :=
  ∀ k, startsWith k "hist:" = true →
    hs_get k s' = hs_get k s
    ∨ hs_get k s' = None ∧ ∃ r, get_as as_record k s = Some r ∧ compareHlc (w_hlc r) to >? 0 = true.

Lemma pruned_old_versions sp rid to s s' :
  pruned to s s' → old_versions sp rid to s' = old_versions sp rid to s.
Proof.
  intros Hp. unfold old_versions. apply hs_list_unique; try (apply StronglySorted_filter, list_as_sorted).
  intros [k r]. rewrite !In_filter_iff, !list_as_get.
  assert (startsWith k (histPrefix sp rid) = true → startsWith k "hist:" = true) as Hk
    by (apply (startsWith_prefix k "hist:")).
  split; intros [[Hs Hg] Hr]; (split; [split; [done|]|done]); destruct (Hp k (Hk Hs)) as [He|[Hn (x & Hx & Hgt)]].
  - by rewrite <- (get_as_eq _ _ _ _ He).
  - unfold get_as in Hg. by rewrite Hn in Hg.
  - by rewrite (get_as_eq _ _ _ _ He).
  - rewrite Hx in Hg. injection Hg as ->. by rewrite Hgt in Hr.
Qed.

Lemma rollback_one_pruned sp o to s0 s e :
  startsWith (fst e) "rec:" = true → pruned to s0 s → pruned to s0 (rollback_one sp o to s e).
Proof.
  destruct e as [key r]. cbn [fst]. intros Hkey Hp k Hk. unfold rollback_one.
  case_match; [by apply Hp|]. case_match; [by apply Hp|]. set (vs := list_as _ _ s).
  set (ks := map fst _).
  assert (k ≠ key) as Hne by (intros ->; apply rec_key_not_hist in Hkey; congruence).
  assert (hs_get k match survivor to vs with Some v => hs_put key (VRecord v) (hs_delete_all ks s)
    | None => hs_delete key (hs_delete_all ks s) end = hs_get k (hs_delete_all ks s)) as ->.
  { destruct (survivor to vs); rewrite ?hs_get_put, ?hs_get_delete; by rewrite decide_False. }
  rewrite get_delete_all. destruct (decide (k ∈ ks)) as [Hin|]; [|by apply Hp].
  right. split; [done|]. unfold ks in Hin. apply list_elem_of_fmap in Hin as ([k' v] & -> & Hin).
  apply In_filter_iff in Hin as [[_ Hg]%list_as_get Hgt]. exists v. split; [|done].
  destruct (Hp k' Hk) as [He|[Hn _]]; [by rewrite <- (get_as_eq _ _ _ _ He)|].
  unfold get_as in Hg. cbn [fst] in *. by rewrite Hn in Hg.
Qed.

Lemma survivor_old sp rid to s :
  survivor to (list_as as_record (histPrefix sp rid) s) = last (map snd (old_versions sp rid to s)).
Proof. done. Qed.

Lemma rollback_one_self sp o to s key r :
  startsWith key "rec:" = true →
  get_as as_record key s = Some r →
  get_as as_record key (rollback_one sp o to s (key, r))
  = if targeted sp o to r then last (map snd (old_versions sp (w_recordId r) to s)) else Some r.
Proof.
  intros Hkey Hr. unfold rollback_one, targeted.
  destruct (String.eqb (w_spaceId r) sp); [|done].
  destruct (String.eqb (w_originId r) o); [|done].
  destruct (_ <=? 0) eqn:E; hlc_prop; simpl.
  - destruct (_ >? 0) eqn:E'; [hlc_prop; hlc_order|done].
  - destruct (_ >? 0) eqn:E'; [|hlc_prop; hlc_order]. rewrite survivor_old.
    destruct (last _) as [v|].
    + by rewrite get_as_put, decide_True.
    + by rewrite get_as_delete, decide_True.
Qed.

Lemma rollback_one_other sp o to s key r k :
  startsWith k "rec:" = true → k ≠ key →
  hs_get k (rollback_one sp o to s (key, r)) = hs_get k s.
Proof.
  intros Hk Hne. unfold rollback_one. case_match; [done|]. case_match; [done|].
  set (vs := list_as _ _ s).
  assert (hs_get k (hs_delete_all (map fst (List.filter (λ '(_, v), compareHlc (w_hlc v) to >? 0) vs)) s)
    = hs_get k s) as Hd.
  { apply (get_delete_listed _ _ _ "hist:"); [by apply rec_key_not_hist|].
    intros k' ([? v] & -> & [Hin _]%In_filter_iff)%list_elem_of_fmap. apply list_as_key in Hin.
    by eapply (startsWith_prefix _ "hist:"). }
  destruct (survivor to vs); rewrite ?hs_get_put, ?hs_get_delete; by rewrite decide_False.
Qed.

Lemma rollback_all_spec sp o to es s0 s :
  NoDup (map fst es) → (∀ e, e ∈ es → startsWith (fst e) "rec:" = true) →
  (∀ k r, (k, r) ∈ es → get_as as_record k s = Some r) → pruned to s0 s →
  let s' := fold_left (rollback_one sp o to) es s in
  pruned to s0 s'
  ∧ ∀ k, startsWith k "rec:" = true →
      (∀ r, (k, r) ∈ es → get_as as_record k s' =
         if targeted sp o to r then last (map snd (old_versions sp (w_recordId r) to s0)) else Some r)
      ∧ (k ∉ map fst es → hs_get k s' = hs_get k s).
Proof.
  revert s. induction es as [|[key x] es IH]; intros s Hnd Hes Hget Hp; simpl.
  { split; [done|]. intros k _. split; [set_solver|done]. }
  simpl in Hnd. apply NoDup_cons in Hnd as [Hkey Hnd].
  assert (startsWith key "rec:" = true) as Hrec by (apply (Hes (key, x)); left).
  assert (pruned to s0 (rollback_one sp o to s (key, x))) as Hp' by by apply rollback_one_pruned.
  destruct (IH (rollback_one sp o to s (key, x)) Hnd) as [Hpr Hall]; try done.
  - intros e He. apply Hes. by right.
  - intros k r Hin. assert (k ≠ key) as Hne by (intros ->; apply Hkey, list_elem_of_fmap; by exists (key, r)).
    rewrite (get_as_eq _ _ _ s); [apply Hget; by right|].
    apply rollback_one_other; [|done]. apply (Hes (k, r)). by right.
  - split; [done|]. intros k Hk. destruct (Hall k Hk) as [Hin Hout]. split.
    + intros r [[= -> ->]|Hr]%elem_of_cons; [|by apply Hin].
      rewrite (get_as_eq _ _ _ _ (Hout Hkey)).
      rewrite rollback_one_self; [|done|apply Hget; left]. by rewrite (pruned_old_versions _ _ _ _ _ Hp).
    + intros Hnot. simpl in Hnot. etrans; [apply Hout|apply rollback_one_other]; set_solver.
Qed.
Lemma pruned_refl to s : pruned to s s.
Proof. intros k _. by left. Qed.

Lemma rollback_all_clean sp o to es s k r k' v :
  NoDup (map fst es) → (∀ e, e ∈ es → startsWith (fst e) "rec:" = true) →
  (∀ k r, (k, r) ∈ es → get_as as_record k s = Some r) →
  (k, r) ∈ es → targeted sp o to r = true → startsWith k' (histPrefix sp (w_recordId r)) = true →
  get_as as_record k' (fold_left (rollback_one sp o to) es s) = Some v → hlc_le (w_hlc v) to.
Proof.
  revert s. induction es as [|[key x] es IH]; intros s Hnd Hes Hget Hin Ht Hk' Hv; [set_solver|].
  cbn [fold_left map fst] in Hnd, Hv. apply NoDup_cons in Hnd as [Hkey Hnd].
  assert (∀ k r, (k, r) ∈ es → get_as as_record k (rollback_one sp o to s (key, x)) = Some r) as Hget'.
  { intros k0 r0 H0.
    assert (k0 ≠ key) as Hne by (intros ->; apply Hkey, list_elem_of_fmap; by exists (key, r0)).
    rewrite (get_as_eq _ _ _ s); [apply Hget; by right|].
    apply rollback_one_other; [|done]. apply (Hes (k0, r0)). by right. }
  assert (∀ e, e ∈ es → startsWith (fst e) "rec:" = true) as Hes' by (intros; apply Hes; by right).
  apply elem_of_cons in Hin as [[= -> ->]|Hin]; [|by eapply (IH _ Hnd Hes' Hget')].
  destruct (rollback_all_spec sp o to es (rollback_one sp o to s (key, x)) _ Hnd Hes' Hget'
    (pruned_refl to _)) as [Hp _].
  destruct (Hp k') as [He|[Hn _]]; [by eapply (startsWith_prefix _ "hist:")| |].
  2: { unfold get_as in Hv. by rewrite Hn in Hv. }
  rewrite (get_as_eq _ _ _ _ He) in Hv. unfold targeted in Ht.
  apply andb_true_iff in Ht as [[Hsp Ho]%andb_true_iff Ht].
  unfold rollback_one in Hv. rewrite Hsp, Ho in Hv. cbn [negb orb] in Hv.
  destruct (_ <=? 0) eqn:E; hlc_prop; [hlc_order|].
  assert (startsWith key "hist:" = false) as Hh
    by (apply rec_key_not_hist, (Hes (key, x)); left).
  assert (startsWith k' "hist:" = true) as Hk'' by by eapply (startsWith_prefix _ "hist:").
  assert (k' ≠ key) as Hne by congruence.
  set (vs := list_as _ _ s) in Hv. set (ks := map fst _) in Hv.
  assert (get_as as_record k' (hs_delete_all ks s) = Some v) as Hd.
  { destruct (survivor to vs); rewrite ?get_as_put, ?get_as_delete in Hv; by case_decide. }
  unfold get_as in Hd. rewrite get_delete_all in Hd. case_decide as Hks; [done|].
  destruct (compareHlc (w_hlc v) to >? 0) eqn:Ev; [|by hlc_prop].
  exfalso. apply Hks. unfold ks. apply list_elem_of_fmap. exists (k', v). split; [done|].
  apply In_filter_iff. split; [|done]. by apply list_as_get.
Qed.

(** The last old version is the newest one at or below the target. *)
Lemma old_versions_newest sp rid to s :
  history_ok sp rid s →
  match last (map snd (old_versions sp rid to s)) with
  | None => ∀ v, v ∈ versions sp rid s → hlc_lt to (w_hlc v)
  | Some v => v ∈ versions sp rid s ∧ hlc_le (w_hlc v) to
      ∧ ∀ v', v' ∈ versions sp rid s → hlc_le (w_hlc v') to → hlc_le (w_hlc v') (w_hlc v)
  end.
Proof.
  intros Hok. pose proof (versions_sorted sp rid s Hok) as Hs.
  assert (map snd (old_versions sp rid to s)
    = List.filter (λ v, negb (compareHlc (w_hlc v) to >? 0)) (versions sp rid s)) as ->.
  { unfold old_versions, versions. induction (list_as _ _ _) as [|[k v] l IH]; [done|]. simpl.
    case_match; simpl; by rewrite IH. }
  set (f := λ v, _). assert (∀ v, v ∈ List.filter f (versions sp rid s)
    ↔ v ∈ versions sp rid s ∧ hlc_le (w_hlc v) to) as Hin.
  { intros v. rewrite In_filter_iff. unfold f. split; intros [? Hv]; (split; [done|]).
    - bprop. by hlc_prop.
    - destruct (_ >? 0) eqn:E; [hlc_prop; hlc_order|done]. }
  apply (StronglySorted_filter _ f) in Hs. revert Hin Hs.
  generalize (List.filter f (versions sp rid s)) as l. intros l Hin Hs.
  destruct (last l) as [v|] eqn:El.
  - apply last_Some in El as (l' & ->). split; [|split]; try (apply Hin; set_solver).
    intros v' Hv' Hle. assert (v' ∈ l' ++ [v]) as [Hl|Hl]%elem_of_app by by apply Hin.
    + apply hlc_lt_le. apply (StronglySorted_split (λ a b, hlc_lt (w_hlc a) (w_hlc b)) (length l') (l' ++ [v])); [done| |].
      * by rewrite take_app_length.
      * rewrite drop_app_length. left.
    + apply list_elem_of_singleton in Hl as ->. auto with suma.
  - apply last_None in El as ->. intros v Hv. destruct (compareHlc (w_hlc v) to >? 0) eqn:E.
    + by hlc_prop.
    + hlc_prop. exfalso. by apply (not_elem_of_nil v), Hin.
Qed.
End Rollback.

(** ** Properties *)

(** Retaining a version keeps the newest eight: what is kept is sorted, at
    most eight versions long, made of the new version and of ones retained
    before, and a version is dropped only when eight newer ones are kept. *)
Theorem appendHistory_keeps_newest {S} `{HL : HubStorageLaws S} r (s : S) :
  hlc_bounded (w_hlc r) → history_ok (w_spaceId r) (w_recordId r) s →
  let before := versions (w_spaceId r) (w_recordId r) s in
  let kept := versions (w_spaceId r) (w_recordId r) (appendHistory r s) in
  history_ok (w_spaceId r) (w_recordId r) (appendHistory r s)
  ∧ StronglySorted (λ a b, hlc_lt (w_hlc a) (w_hlc b)) kept
  ∧ (length kept <= 8)%nat
  ∧ (∀ v, v ∈ kept → v = r ∨ v ∈ before)
  ∧ ∀ v, v = r ∨ v ∈ before ∧ w_hlc v ≠ w_hlc r →
      v ∈ kept ∨ length kept = 8%nat ∧ ∀ v', v' ∈ kept → hlc_lt (w_hlc v) (w_hlc v').
Proof.
  intros Hb Hok before kept. pose proof (appendHistory_ok r s Hb Hok) as Hok'.
  split; [done|]. split; [by apply versions_sorted|]. unfold kept.
  rewrite appendHistory_versions by done. cbn zeta.
  pose proof (λ v, versions_put r s v Hb Hok) as Hin.
  pose proof (versions_sorted _ _ _ (history_ok_put r s Hb Hok)) as Hs.
  revert Hin Hs. generalize (versions (w_spaceId r) (w_recordId r)
    (hs_put (histKey (w_spaceId r) (w_recordId r) (w_hlc r)) (VRecord r) s)) as all.
  intros all Hin Hs. change MAX_RECORD_HISTORY with 8%nat. rewrite length_drop.
  split; [lia|]. split; [intros v Hv%elem_of_drop_in; apply Hin in Hv as [?|[? _]]; auto|].
  intros v Hv%Hin. rewrite <- (take_drop (length all - 8) all) in Hv.
  apply elem_of_app in Hv as [Hv|Hv]; [right|by left]. split.
  - assert (length all - 8 ≠ 0)%nat; [|lia]. intros H0. rewrite H0 in Hv. by apply not_elem_of_nil in Hv.
  - intros v' Hv'. by apply (StronglySorted_split (λ a b, hlc_lt (w_hlc a) (w_hlc b)) (length all - 8) all).
Qed.

(** A second version of a record joins the first. *)
Lemma appendHistory_keeps_newest_witness :
  HubDemo.wire "work" "r" "site" 5
  ∈ versions "work" "r" (appendHistory (HubDemo.wire "work" "r" "site" 7)
      (appendHistory (HubDemo.wire "work" "r" "site" 5) emptyStorage)).
Proof.
  pose (r5 := HubDemo.wire "work" "r" "site" 5). pose (r7 := HubDemo.wire "work" "r" "site" 7).
  assert (hlc_bounded (w_hlc r5)) as B5 by (split; vm_compute; split; congruence).
  assert (hlc_bounded (w_hlc r7)) as B7 by (split; vm_compute; split; congruence).
  assert (history_ok "work" "r" emptyStorage) as H0 by (intros k v _; discriminate).
  destruct (appendHistory_keeps_newest r7 (appendHistory r5 emptyStorage) B7)
    as (_ & _ & _ & _ & H).
  - apply (appendHistory_ok r5 _ B5 H0).
  - destruct (H r5) as [Hin|[Hlen _]].
    + right. split; [vm_compute; left|vm_compute; congruence].
    + exact Hin.
    + vm_compute in Hlen. discriminate.
Defined.

(** A hydration changes nothing and sends, in batches of at most 256
    records and then one [hydrate_done], oldest first and each version once,
    exactly the latest and retained records of the space that are newer than
    the requested timestamp, with the space's watermark. *)
Theorem handleHydrate_complete {S} `{HL : HubStorageLaws S} sp since (h : Hub S) :
  let me := hc_connectionId (hub_sender h) in
  let s := hub_store h in
  hub_store (handleHydrate sp since h) = s
  ∧ ∃ batches,
      let rs := concat batches in
      hub_out (handleHydrate sp since h)
      = hub_out h ++ map (λ c, Send me (SRecords sp c)) batches
        ++ [Send me (SHydrateDone sp (Z.of_nat (length rs)) (get_as as_hlc (wmKey sp) s))]
      ∧ Forall (λ c, c ≠ [] ∧ (length c <= 256)%nat) batches
      ∧ StronglySorted (λ a b, hlc_le (w_hlc a) (w_hlc b)) rs
      ∧ NoDup (map version_id rs)
      ∧ (∀ r, r ∈ rs → held sp s r ∧ w_spaceId r = sp
           ∧ ∀ since', since = Some since' → hlc_lt since' (w_hlc r))
      ∧ ∀ r, held sp s r → w_spaceId r = sp →
          (∀ since', since = Some since' → hlc_lt since' (w_hlc r)) →
          version_id r ∈ map version_id rs.
Proof.
  intros me s. unfold handleHydrate. pose proof (hydrateSpace_spec sp since s) as Hspec. fold s.
  assert ((hydrateSpace sp since s).2 = get_as as_hlc (wmKey sp) s) as Hwm by by rewrite hydrateSpace_eq.
  destruct (hydrateSpace sp since s) as [rs wm]. cbn [fst snd] in *. subst wm.
  destruct Hspec as (Hsort & Hnd & Hsound & Hcomp).
  destruct (chunks_spec HYDRATE_CHUNK_SIZE (length rs) rs) as [Hc Hall];
    [unfold HYDRATE_CHUNK_SIZE; lia|done|].
  assert (∀ r, considered sp since r = true ↔
    w_spaceId r = sp ∧ ∀ since', since = Some since' → hlc_lt since' (w_hlc r)) as Hcons.
  { intros r. unfold considered. destruct (String.eqb_spec (w_spaceId r) sp); simpl; [|by split; [|intros []]].
    destruct since as [c|]; simpl; [|naive_solver].
    destruct (_ <=? 0) eqn:E; hlc_prop; (split; [intros Hd|intros [_ Hlt]]); try done.
    - specialize (Hlt c eq_refl). hlc_order.
    - split; [done|]. by intros ? [= <-]. }
  rewrite fold_reply_out. split; [done|]. exists (chunks (length rs) HYDRATE_CHUNK_SIZE rs).
  cbn zeta. rewrite Hc. split; [by rewrite app_assoc|].
  repeat (split; [done|]). split.
  - intros r [? ?%Hcons]%Hsound. done.
  - intros r Hh ? ?. by apply Hcomp, Hcons.
Qed.

(** A published record is among those a peer hydrates. *)
Lemma handleHydrate_complete_witness :
  ∃ batches, version_id (HubDemo.wire "work" "r" "site" 5) ∈ map version_id (concat batches)
    ∧ hub_out (handleHydrate "work" None (HubDemo.after [MPublish [HubDemo.wire "work" "r" "site" 5]]))
      = hub_out (HubDemo.after [MPublish [HubDemo.wire "work" "r" "site" 5]])
        ++ map (λ c, Send "c1" (SRecords "work" c)) batches
        ++ [Send "c1" (SHydrateDone "work" (Z.of_nat (length (concat batches))) (Some (HubDemo.at_ 5)))].
Proof.
  destruct (handleHydrate_complete "work" None (HubDemo.after [MPublish [HubDemo.wire "work" "r" "site" 5]]))
    as [_ (batches & Hout & _ & _ & _ & _ & Hc)].
  exists batches. split; [|exact Hout]. apply Hc.
  - exists (recKey "work" "r"). split; [right; vm_compute; reflexivity|vm_compute; reflexivity].
  - reflexivity.
  - discriminate.
Defined.

(** A rollback rewrites exactly the latest records of the space and origin
    that are newer than the target: each is replaced by the newest version
    retained at or below the target, or deleted when none is, and its retained
    versions above the target are deleted; nothing but records and their
    versions changes. *)
Theorem handleRollback_restores {S} `{HL : HubStorageLaws S} sp origin to (h : Hub S) :
  sp ∈ hc_spaceIds (hub_sender h) →
  let s := hub_store h in
  let s' := hub_store (handleRollback sp origin to h) in
  (∀ k, under ["hist:"; "rec:"] k = false → hs_get k s' = hs_get k s)
  ∧ ∀ k r, startsWith k (recPrefix sp) = true → get_as as_record k s = Some r →
      (targeted sp origin to r = false → get_as as_record k s' = Some r)
      ∧ (targeted sp origin to r = true →
           (∀ k' v, startsWith k' (histPrefix sp (w_recordId r)) = true →
              get_as as_record k' s' = Some v → hlc_le (w_hlc v) to)
           ∧ (history_ok sp (w_recordId r) s →
              match get_as as_record k s' with
              | None => ∀ v, v ∈ versions sp (w_recordId r) s → hlc_lt to (w_hlc v)
              | Some v => v ∈ versions sp (w_recordId r) s ∧ hlc_le (w_hlc v) to
                  ∧ ∀ v', v' ∈ versions sp (w_recordId r) s → hlc_le (w_hlc v') to →
                      hlc_le (w_hlc v') (w_hlc v)
              end)).
Proof.
  intros Hsp s s'. unfold s', handleRollback. rewrite bool_decide_true by done. cbn [negb].
  rewrite send_peers_store. cbn [hub_store reply send_to with_store]. fold s.
  set (es := list_as as_record (recPrefix sp) s).
  assert (∀ e, e ∈ es → startsWith (fst e) "rec:" = true) as Hes by (intros; by eapply rec_listed).
  assert (NoDup (map fst es)) as Hnd by apply sorted_keys_nodup, list_as_sorted.
  assert (∀ k r, (k, r) ∈ es → get_as as_record k s = Some r) as Hget by (by intros k r [_ ?]%list_as_get).
  destruct (rollback_all_spec sp origin to es s s Hnd Hes Hget (pruned_refl to s)) as [_ Hall].
  split; [intros k Hk; by apply rollback_all_get|]. intros k r Hk Hr.
  assert ((k, r) ∈ es) as Hin by by apply list_as_get.
  destruct (Hall k) as [Hrec _]; [by apply (Hes (k, r))|]. rewrite (Hrec r Hin).
  split; [by intros ->|]. intros Ht. split.
  - intros k' v. by eapply rollback_all_clean.
  - rewrite Ht. apply old_versions_newest.
Qed.

(** Rolling back to before the second version restores the first. *)
Lemma handleRollback_restores_witness :
  ∃ v, get_as as_record (recKey "work" "r") (hub_store (handleRollback "work" "site" (HubDemo.at_ 6)
    (HubDemo.after [MPublish [HubDemo.wire "work" "r" "site" 5];
                    MPublish [HubDemo.wire "work" "r" "site" 7]]))) = Some v
    ∧ hlc_le (w_hlc v) (HubDemo.at_ 6).
Proof.
  pose (h := HubDemo.after [MPublish [HubDemo.wire "work" "r" "site" 5];
                            MPublish [HubDemo.wire "work" "r" "site" 7]]).
  destruct (handleRollback_restores "work" "site" (HubDemo.at_ 6) h) as [_ H].
  { vm_compute. left. }
  destruct (H (recKey "work" "r") (HubDemo.wire "work" "r" "site" 7)) as [_ H'];
    [vm_compute; reflexivity|vm_compute; reflexivity|].
  destruct H' as [H1 _]; [vm_compute; reflexivity|].
  exists (HubDemo.wire "work" "r" "site" 5). split; [vm_compute; reflexivity|].
  apply (H1 (histKey "work" "r" (HubDemo.at_ 5))); vm_compute; reflexivity.
Defined.
