(* ===== verification/HubCoordination.v ===== *)
(** * Leases, workspace documents and socket closing in the session hub

    [handleLeaseAcquire], [handleWorkspacePublish] and [handleClose] of
    HubCore.v: who may write an origin, which document survives, and what a
    device leaves behind. *)

From S2P Require Export HubSafety.
From Stdlib Require Import Ascii.

(** ** Leases *)

Section Leases.
Context {S : Type} `{HL : HubStorageLaws S}.

(** The lease that keeps [device] out at [now]. *)
Definition foreign_lease (now : Z) (device sp origin : string) (s : S) : option LeaseEntry :=
  match get_as as_lease (leaseKey sp origin) s with
  | Some l => if (le_expiresAtMs l >? now) && negb (String.eqb (le_holderDeviceId l) device)
              then Some l else None
  | None => None
  end.

Lemma lease_blocks_foreign now device r s :
  lease_blocks now device r s
  = match foreign_lease now device (w_spaceId r) (w_originId r) s with Some _ => true | None => false end.
Proof.
  unfold lease_blocks, foreign_lease. destruct (get_as _ _ _) as [l|]; [|done].
  by destruct (String.eqb _ _), (_ >? _).
Qed.

Lemma foreign_lease_put now device sp origin l s :
  foreign_lease now device sp origin (hs_put (leaseKey sp origin) (VLease l) s)
  = if (le_expiresAtMs l >? now) && negb (String.eqb (le_holderDeviceId l) device)
    then Some l else None.
Proof. unfold foreign_lease. by rewrite get_as_put, decide_True. Qed.

Lemma send_peers_frames t m (h : Hub S) :
  hub_out (send_peers t m h)
  = hub_out h ++ map (λ c, Send (hc_connectionId c) m) (List.filter t (hub_others h)).
Proof.
  unfold send_peers. generalize (hub_others h) as l. intros l.
  revert h. induction l as [|c l IH]; intros h; simpl; [by rewrite app_nil_r|].
  rewrite IH. destruct (t c); simpl; [|done]. by rewrite <- app_assoc.
Qed.
End Leases.

(** ** Workspace documents *)

Section Workspace.
Context {S : Type} `{HL : HubStorageLaws S}.

Definition stored_doc (key : string) (s : S) : option WorkspaceRecordWire :=
  get_as as_workspace (workspaceKey key) s.

(** [w] is what last-writer-wins keeps of [old] and the documents of [key]. *)
Definition lww (key : string) (old : option WorkspaceRecordWire) (docs : list WorkspaceRecordWire)
    (w : option WorkspaceRecordWire) : Prop :=
  match w with
  | None => old = None ∧ ∀ d, d ∈ docs → ws_key d ≠ key
  | Some w =>
      (old = Some w ∨ w ∈ docs ∧ ws_key w = key)
      ∧ (∀ o, old = Some o → hlc_le (ws_hlc o) (ws_hlc w))
      ∧ ∀ d, d ∈ docs → ws_key d = key → hlc_le (ws_hlc d) (ws_hlc w)
  end.

Lemma workspaceKey_inj a b : workspaceKey a = workspaceKey b → a = b.
Proof. apply sapp_inj_l. Qed.

Lemma workspace_one_doc s w d key :
  let '(s', w') := workspace_one (s, w) d in
  stored_doc key s' = stored_doc key s ∧ w' = w
    ∧ (ws_key d = key → ∃ o, stored_doc key s = Some o ∧ hlc_le (ws_hlc d) (ws_hlc o))
  ∨ w' = w ++ [d] ∧ (∀ o, stored_doc (ws_key d) s = Some o → hlc_lt (ws_hlc o) (ws_hlc d))
    ∧ stored_doc key s' = if decide (key = ws_key d) then Some d else stored_doc key s.
Proof.
  unfold workspace_one. change (get_as as_workspace (workspaceKey (ws_key d)) s)
    with (stored_doc (ws_key d) s).
  destruct (stored_doc (ws_key d) s) as [o|] eqn:Eo; [destruct (_ >=? 0) eqn:E; hlc_prop|].
  - left. do 2 (split; [done|]). intros <-. eauto.
  - right. split; [done|]. split; [by intros ? [= <-]|]. unfold stored_doc.
    rewrite get_as_put. destruct (decide (key = _)) as [->|Hne]; [by rewrite decide_True|].
    rewrite decide_False; [done|]. by intros ?%workspaceKey_inj.
  - right. do 2 (split; [done|]). unfold stored_doc.
    rewrite get_as_put. destruct (decide (key = _)) as [->|Hne]; [by rewrite decide_True|].
    rewrite decide_False; [done|]. by intros ?%workspaceKey_inj.
Qed.

Lemma workspace_all_lww docs s key :
  let '(s', winners) := fold_left workspace_one docs (s, []) in
  lww key (stored_doc key s) docs (stored_doc key s')
  ∧ (∀ d, d ∈ winners → d ∈ docs)
  ∧ (stored_doc key s' ≠ stored_doc key s → ∃ d, stored_doc key s' = Some d ∧ d ∈ winners).
Proof.
  induction docs as [|d docs IH] using rev_ind; simpl.
  { split; [|set_solver]. destruct (stored_doc key s); split; set_solver by auto with suma. }
  rewrite fold_left_app. destruct (fold_left workspace_one docs (s, [])) as [s1 w1].
  destruct IH as (IH1 & IH2 & IH3). pose proof (workspace_one_doc s1 w1 d key) as Hd.
  cbn [fold_left]. destruct (workspace_one (s1, w1) d) as [s2 w2].
  destruct Hd as [(-> & -> & Hd)|(-> & Hlt & Hs)].
  - split; [|set_solver]. destruct (stored_doc key s1) as [w|]; simpl in *.
    + destruct IH1 as (H1 & H2 & H3). split; [set_solver|]. split; [done|].
      intros x [Hx| ->]%elem_of_snoc Hk; [by apply H3|].
      destruct (Hd Hk) as (o & [= <-] & ?). done.
    + destruct IH1 as [H1 H2]. split; [done|].
      intros x [Hx| ->]%elem_of_snoc Hk; [by eapply H2|].
      by destruct (Hd Hk) as (o & ? & _).
  - rewrite Hs. destruct (decide (key = ws_key d)) as [->|Hne].
    + split; [|split; [set_solver|]; intros _; exists d; set_solver]. split; [set_solver|].
      destruct (stored_doc (ws_key d) s1) as [w|] eqn:Ew; simpl in IH1.
      * specialize (Hlt w eq_refl). destruct IH1 as (_ & H2 & H3). split.
        { intros o Ho. specialize (H2 o Ho). hlc_order. }
        intros x [Hx| ->]%elem_of_snoc Hk; [|auto with suma].
        specialize (H3 x Hx Hk). hlc_order.
      * destruct IH1 as [-> H2]. split; [done|].
        intros x [Hx| ->]%elem_of_snoc Hk; [|auto with suma]. by apply H2 in Hk.
    + split; [|split; [set_solver|]].
      * destruct (stored_doc key s1) as [w|]; simpl in *; set_solver.
      * intros Hd. destruct (IH3 Hd) as (x & ? & ?). exists x. set_solver.
Qed.

Lemma lww_docs key old docs docs' w :
  (∀ d, d ∈ docs' ↔ d ∈ docs) → lww key old docs' w → lww key old docs w.
Proof.
  intros Hd. destruct w as [w|]; simpl.
  - rewrite Hd. intros (? & ? & Hle). split; [done|]. split; [done|]. intros d Hin%Hd. by apply Hle.
  - intros [? Hno]. split; [done|]. intros d Hin%Hd. by apply Hno.
Qed.

(** Without two documents of one key at one timestamp the survivor is unique. *)
Lemma lww_unique key old docs w1 w2 :
  (∀ a b, (a ∈ docs ∨ old = Some a) → (b ∈ docs ∨ old = Some b) →
     ws_key a = ws_key b → ws_hlc a = ws_hlc b → a = b) →
  (∀ o, old = Some o → ws_key o = key) →
  lww key old docs w1 → lww key old docs w2 → w1 = w2.
Proof.
  intros Hu Hold. destruct w1 as [a|], w2 as [b|]; simpl; [| | |done].
  - intros (Ha & Ha1 & Ha2) (Hb & Hb1 & Hb2). f_equal.
    assert (ws_key a = key) as Ka by (destruct Ha as [Ha|[_ ?]]; auto).
    assert (ws_key b = key) as Kb by (destruct Hb as [Hb|[_ ?]]; auto).
    apply Hu; [tauto|tauto|congruence|].
    assert (hlc_le (ws_hlc a) (ws_hlc b)) by (destruct Ha as [?|[? ?]]; auto).
    assert (hlc_le (ws_hlc b) (ws_hlc a)) by (destruct Hb as [?|[? ?]]; auto). hlc_order.
  - intros ([?|[Ha Hk]] & _) [-> H2]; [done|]. by apply H2 in Ha.
  - intros [-> H2] ([?|[Ha Hk]] & _); [done|]. by apply H2 in Ha.
Qed.

Lemma handleWorkspacePublish_fold docs h :
  let '(s', winners) := fold_left workspace_one docs (hub_store h, []) in
  hub_store (handleWorkspacePublish docs h) = s'
  ∧ hub_out (handleWorkspacePublish docs h)
    = hub_out h ++ match winners with
                   | [] => []
                   | _ => map (λ c, Send (hc_connectionId c) (SWorkspaceRecords winners)) (hub_others h)
                   end.
Proof.
  unfold handleWorkspacePublish. destruct (fold_left _ _ _) as [s' w].
  destruct w as [|d w]; [by rewrite app_nil_r|].
  rewrite send_peers_store, send_peers_frames.
  split; [done|]. by rewrite filter_all.
Qed.
End Workspace.

(** ** Closing *)

Section Closing.
Context {S : Type} `{HL : HubStorageLaws S}.

(** [conn] was the device's last connection: no peer and no stored binding of
    another socket carries the device, and it is not revoked. *)
Definition last_connection (conn : HubConnection) (others : list HubConnection) (d : string) (s : S)
    : Prop :=
  (∀ c, c ∈ others → hc_deviceId c ≠ Some d)
  ∧ isRevoked d s = false
  ∧ ∀ k spaces, startsWith k (connPrefix d) = true → get_as as_spaces k s = Some spaces →
      k = connectionStorageKey d (hc_connectionId conn).

Lemma lease_not_conn k : startsWith k "lease:" = true → startsWith k "conn:" = false.
Proof. intros (t & ->)%startsWith_iff. done. Qed.

Lemma no_bindings d s :
  (0 <? length (connectionBindings d s))%nat = false ↔
  ∀ k spaces, startsWith k (connPrefix d) = true → get_as as_spaces k s ≠ Some spaces.
Proof.
  unfold connectionBindings. rewrite Nat.ltb_ge, Nat.le_0_r, length_zero_iff_nil. split.
  - intros He k sp Hk Hg. apply (not_elem_of_nil (k, sp)). rewrite <- He. by apply list_as_get.
  - intros Hno. destruct (list_as _ _ _) as [|[k sp] l] eqn:El; [done|].
    assert ((k, sp) ∈ list_as as_spaces (connPrefix d) s) as [Hk Hg]%list_as_get
      by (rewrite El; left). by destruct (Hno k sp Hk).
Qed.

Lemma close_begin_last conn others d s :
  hc_deviceId conn = Some d → last_connection conn others d s →
  (close_begin conn others s).2 = Some d
  ∧ ∀ k, hs_get k (close_begin conn others s).1
      = if bool_decide (k = connectionStorageKey d (hc_connectionId conn))
           || (startsWith k "lease:"
               && match get_as as_lease k s with
                  | Some l => String.eqb (le_holderDeviceId l) d
                  | None => false
                  end)
        then None else hs_get k s.
Proof.
  intros Hd (Ho & Hr & Hb). unfold close_begin. rewrite Hd.
  set (ck := connectionStorageKey d (hc_connectionId conn)).
  assert (∀ A (f : HubValue → option A) k, startsWith k "conn:" = false →
    get_as f k (hs_delete ck s) = get_as f k s) as Hother.
  { intros A f k Hk. rewrite get_as_delete, decide_False; [done|]. by apply (key_ne k "conn:"). }
  assert (existsb (λ c, bool_decide (hc_deviceId c = Some d)) others = false) as ->.
  { apply not_true_is_false. intros (c & Hc%list_elem_of_In & Hcd)%existsb_exists. bprop.
    by apply (Ho c Hc). }
  assert (isRevoked d (hs_delete ck s) = false) as ->.
  { unfold isRevoked in *. rewrite hs_get_delete, decide_False; [done|]. by apply key_ne. }
  assert ((0 <? length (connectionBindings d (hs_delete ck s)))%nat = false) as ->.
  { apply no_bindings. intros k sp Hk. rewrite get_as_delete. destruct (decide (k = ck)) as [|Hne]; [done|].
    intros Hg. by apply Hne, (Hb k sp). }
  split; [done|]. intros k. cbn [fst]. rewrite get_delete_all, hs_get_delete.
  assert (k ∈ map fst (List.filter (λ '(_, l), String.eqb (le_holderDeviceId l) d)
            (list_as as_lease "lease:" (hs_delete ck s)))
    ↔ startsWith k "lease:" && match get_as as_lease k s with
        Some l => String.eqb (le_holderDeviceId l) d | None => false end = true) as Hin.
  { rewrite list_elem_of_fmap, andb_true_iff. split.
    - intros ([k' l] & -> & [[Hp Hg]%list_as_get Hl]%In_filter_iff). cbn [fst].
      rewrite Hother in Hg by (by apply lease_not_conn).
      by rewrite Hg.
    - intros [Hp Hm]. destruct (get_as as_lease k s) as [l|] eqn:Hg; [|done]. exists (k, l).
      split; [done|]. apply In_filter_iff. split; [|done]. apply list_as_get.
      split; [done|]. rewrite Hother; [done|by apply lease_not_conn]. }
  destruct (decide (k = ck)) as [->|Hne].
  - rewrite bool_decide_true by done. by case_decide.
  - rewrite bool_decide_false by done. cbn [orb]. destruct (startsWith k "lease:" && _).
    + rewrite decide_True; [done|by apply Hin].
    + rewrite decide_False; [done|]. by intros ?%Hin.
Qed.

Lemma close_begin_not_last conn others d s :
  hc_deviceId conn = Some d →
  (∃ c, c ∈ others ∧ hc_deviceId c = Some d) ∨ isRevoked d s = true
  ∨ (∃ k spaces, startsWith k (connPrefix d) = true ∧ get_as as_spaces k s = Some spaces
       ∧ k ≠ connectionStorageKey d (hc_connectionId conn)) →
  close_begin conn others s = (hs_delete (connectionStorageKey d (hc_connectionId conn)) s, None).
Proof.
  intros Hd Hcase. unfold close_begin. rewrite Hd. case_match eqn:Ee; [done|].
  case_match eqn:Er; [done|]. case_match eqn:Eb; [done|]. exfalso.
  destruct Hcase as [(c & Hc & Hcd)|[Hr|(k & sp & Hk & Hg & Hne)]].
  - assert (existsb (λ c, bool_decide (hc_deviceId c = Some d)) others = true); [|congruence].
    apply existsb_exists. exists c. split; [by apply list_elem_of_In|by apply bool_decide_eq_true].
  - unfold isRevoked in *. rewrite hs_get_delete, decide_False in Er; [congruence|done].
  - rewrite no_bindings in Eb. apply (Eb k sp Hk). by rewrite get_as_delete, decide_False.
Qed.
End Closing.

(** ** Properties *)

(** An acquire is denied, changing nothing, exactly in the presence of a
    live lease of another device it may not displace; otherwise it stores one
    lease, of at most five minutes, and changes nothing else. A live lease of
    another device is displaced only by a forced request that names a
    candidate strictly newer than the stored record it claims, of the same
    origin, and the displaced device's connections are told. While the granted
    lease lives, the records other devices publish to the origin are blocked. *)
Theorem handleLeaseAcquire_exclusive {S} `{HL : HubStorageLaws S}
    now device sp origin force rid candidate ttl (h : Hub S) :
  let s := hub_store h in
  let h' := handleLeaseAcquire now device sp origin force rid candidate ttl h in
  let me := hc_connectionId (hub_sender h) in
  let until := now + Z.min (default 60000 ttl) 300000 in
  (∃ l, foreign_lease now device sp origin s = Some l
     ∧ hub_store h' = s
     ∧ hub_out h' = hub_out h
         ++ [Send me (SLeaseDenied sp origin (le_holderDeviceId l) (le_expiresAtMs l))])
  ∨ hub_store h' = hs_put (leaseKey sp origin) (VLease (mkLease sp origin device until)) s
    ∧ Send me (SLeaseGranted sp origin device until) ∈ hub_out h'
    ∧ (∀ l, foreign_lease now device sp origin s = Some l →
         force = Some true
         ∧ (∃ r c, rid = Some r ∧ candidate = Some c
             ∧ ∀ stored, get_as as_record (recKey sp r) s = Some stored →
                 w_originId stored = origin ∧ hlc_lt (w_hlc stored) c)
         ∧ ∀ peer, peer ∈ hub_others h → hc_deviceId peer = Some (le_holderDeviceId l) →
             Send (hc_connectionId peer) (SLeaseRevoked sp origin device) ∈ hub_out h')
    ∧ ∀ now' other r, now' < until → other ≠ device → w_spaceId r = sp → w_originId r = origin →
        lease_blocks now' other r (hub_store h') = true.
Proof.
  intros s h' me until.
  assert (∀ now' other r, now' < until → other ≠ device → w_spaceId r = sp → w_originId r = origin →
    lease_blocks now' other r
      (hs_put (leaseKey sp origin) (VLease (mkLease sp origin device until)) s) = true) as Hblock.
  { intros now' other r Ht Ho <- <-. rewrite lease_blocks_foreign, foreign_lease_put. cbn.
    destruct (String.eqb_spec device other); [congruence|].
    by replace (until >? now') with true by (symmetry; rewrite Z.gtb_ltb; lia). }
  unfold h', handleLeaseAcquire, foreign_lease. fold s. cbn zeta.
  change (now + Z.min (default ORIGIN_LEASE_TTL_MS ttl) MAX_LEASE_TTL_MS) with until.
  destruct (get_as as_lease (leaseKey sp origin) s) as [l|] eqn:El;
    [destruct (le_expiresAtMs l >? now) eqn:Ee; [destruct (String.eqb _ device) eqn:Eh|]|];
    cbn [negb andb].
  1, 3, 4: right; cbn [hub_store reply send_to with_store hub_out]; fold s; split; [done|];
    split; [set_solver|]; by split.
  destruct (bool_decide (force = Some true)) eqn:Ef; cbn [negb andb]; bprop; [|left; by exists l].
  case_match eqn:Eg; [left; by exists l|right].
  rewrite send_peers_store, send_peers_frames. cbn [hub_store reply send_to with_store hub_out hub_others].
  fold s. split; [done|]. split; [set_solver|]. split; [|done]. intros ? [= <-].
  split; [done|]. split.
  - destruct rid as [r|]; [|done]. destruct candidate as [c|]; [|done]. exists r, c.
    do 2 (split; [done|]). intros stored Hs. cbn [mbind option_bind] in Eg. rewrite Hs in Eg.
    apply orb_false_iff in Eg as [Eo Ec]. hlc_prop. split; [|done].
    by apply negb_false_iff, String.eqb_eq in Eo.
  - intros peer Hp Hd. apply elem_of_app. right. apply list_elem_of_fmap. exists peer.
    split; [done|]. apply In_filter_iff. split; [done|]. by apply bool_decide_eq_true.
Qed.

(** The lease of "mac" keeps "ipad" from publishing to the origin. *)
Lemma handleLeaseAcquire_exclusive_witness :
  lease_blocks 2000 "ipad" (HubDemo.wire "work" "r" "site" 5)
    (hub_store (handleLeaseAcquire 1000 "mac" "work" "site" None None None None HubDemo.hub)) = true.
Proof.
  destruct (handleLeaseAcquire_exclusive 1000 "mac" "work" "site" None None None None HubDemo.hub)
    as [(l & Hl & _)|(_ & _ & _ & H)].
  - vm_compute in Hl. discriminate.
  - apply H; [reflexivity|discriminate|reflexivity|reflexivity].
Defined.

(** C11: publishing workspace documents keeps, for every key, the newest of the
    stored document and the batch's (last writer wins), touches nothing else,
    and sends every peer the changed documents; two hubs that start from the
    same documents and receive the same batch in different orders agree,
    unless two documents of a key carry the same timestamp. *)
Theorem handleWorkspacePublish_converges {S} `{HL : HubStorageLaws S} docs (h : Hub S) :
  let s := hub_store h in
  let h' := handleWorkspacePublish docs h in
  (∀ k, startsWith k "ws:" = false → hs_get k (hub_store h') = hs_get k s)
  ∧ (∀ key, lww key (stored_doc key s) docs (stored_doc key (hub_store h')))
  ∧ (∀ key, stored_doc key (hub_store h') ≠ stored_doc key s →
       ∃ d sent, stored_doc key (hub_store h') = Some d ∧ d ∈ sent
         ∧ ∀ c, c ∈ hub_others h → Send (hc_connectionId c) (SWorkspaceRecords sent) ∈ hub_out h')
  ∧ ∀ docs' (g : Hub S) key,
      (∀ d, d ∈ docs' ↔ d ∈ docs) → stored_doc key (hub_store g) = stored_doc key s →
      (∀ o, stored_doc key s = Some o → ws_key o = key) →
      (∀ a b, (a ∈ docs ∨ stored_doc key s = Some a) → (b ∈ docs ∨ stored_doc key s = Some b) →
         ws_key a = ws_key b → ws_hlc a = ws_hlc b → a = b) →
      stored_doc key (hub_store (handleWorkspacePublish docs' g)) = stored_doc key (hub_store h').
Proof.
  intros s h'.
  assert (∀ docs (g : Hub S) key, lww key (stored_doc key (hub_store g)) docs
    (stored_doc key (hub_store (handleWorkspacePublish docs g)))) as Hlww.
  { intros ds g key. pose proof (handleWorkspacePublish_fold ds g) as Hf.
    pose proof (workspace_all_lww ds (hub_store g) key) as Hl.
    destruct (fold_left workspace_one ds _) as [s' w]. destruct Hf as [-> _]. apply Hl. }
  pose proof (handleWorkspacePublish_fold docs h) as Hf.
  split; [|split; [by intros; apply Hlww|split]].
  - intros k Hk. pose proof (workspace_fold_get docs (hub_store h, []) k Hk) as Hg.
    destruct (fold_left workspace_one docs _) as [s' w]. unfold h'. by destruct Hf as [-> _].
  - intros key. pose proof (workspace_all_lww docs (hub_store h) key) as Hl. unfold h'.
    destruct (fold_left workspace_one docs _) as [s' w]. destruct Hf as [-> ->].
    destruct Hl as (_ & _ & Hw). intros Hne. destruct (Hw Hne) as (d & Hd & Hin).
    exists d, w. do 2 (split; [done|]). intros c Hc. apply elem_of_app. right.
    destruct w; [by apply not_elem_of_nil in Hin|]. apply list_elem_of_fmap. by exists c.
  - intros docs' g key Hdocs Hs Hkey Hu. eapply (lww_unique key (stored_doc key s) docs); [done|done| |apply Hlww].
    eapply lww_docs; [exact Hdocs|]. rewrite <- Hs. apply Hlww.
Qed.

(** The newer of two documents of a key is kept. *)
Lemma handleWorkspacePublish_converges_witness :
  lww "space:1" None
    [mkWsWire "space:1" None (HubDemo.at_ 7) "sig"; mkWsWire "space:1" None (HubDemo.at_ 5) "sig"]
    (stored_doc "space:1" (hub_store (handleWorkspacePublish
      [mkWsWire "space:1" None (HubDemo.at_ 7) "sig"; mkWsWire "space:1" None (HubDemo.at_ 5) "sig"]
      HubDemo.hub))).
Proof.
  destruct (handleWorkspacePublish_converges
    [mkWsWire "space:1" None (HubDemo.at_ 7) "sig"; mkWsWire "space:1" None (HubDemo.at_ 5) "sig"]
    HubDemo.hub) as (_ & H & _).
  exact (H "space:1").
Defined.

(** Closing a device's last socket releases exactly the leases it holds,
    records it offline at the reading of the clock and tells every peer; while
    another socket or binding of the device remains, or once it is revoked,
    only the closed socket's binding goes. A device that binds again while the
    handler waits is left alone by its second half. *)
Theorem handleClose_releases {S} `{HL : HubStorageLaws S} now conn others d (s : S) :
  hc_deviceId conn = Some d →
  let own := connectionStorageKey d (hc_connectionId conn) in
  (last_connection conn others d s →
     let s' := (handleClose now conn others s).1 in
     (∀ k l, startsWith k "lease:" = true →
        get_as as_lease k s' = Some l ↔ get_as as_lease k s = Some l ∧ le_holderDeviceId l ≠ d)
     ∧ get_as as_presence (presenceKey d) s' = Some (mkPresenceEntry d now)
     ∧ (handleClose now conn others s).2
       = map (λ c, Send (hc_connectionId c) (SPresence [mkPresence d false now])) others)
  ∧ ((∃ c, c ∈ others ∧ hc_deviceId c = Some d) ∨ isRevoked d s = true
     ∨ (∃ k spaces, startsWith k (connPrefix d) = true ∧ get_as as_spaces k s = Some spaces ∧ k ≠ own) →
     handleClose now conn others s = (hs_delete own s, []))
  ∧ ∀ s1 k spaces, startsWith k (connPrefix d) = true → get_as as_spaces k s1 = Some spaces →
      close_finish now d others s1 = (s1, []).
Proof.
  intros Hd own. split; [|split].
  - intros Hlast. pose proof (close_begin_last conn others d s Hd Hlast) as [H2 H1].
    destruct Hlast as (_ & _ & Hb). unfold handleClose.
    destruct (close_begin conn others s) as [s1 o]. cbn [fst snd] in H1, H2. subst o.
    unfold close_finish. assert ((0 <? length (connectionBindings d s1))%nat = false) as ->.
    { apply no_bindings. intros k sp Hk. unfold get_as. rewrite H1. fold own.
      destruct (bool_decide (k = own)) eqn:E; [done|]. bprop. case_match; [done|].
      intros Hg. by apply E, (Hb k sp). }
    cbn [fst snd]. split; [|split; [by rewrite get_as_put, decide_True|done]].
    intros k l Hk. pose proof (lease_not_conn k Hk) as Hc.
    assert (startsWith k "presence:" = false) as Hp
      by (destruct (proj1 (startsWith_iff _ _) Hk) as (t & ->); done).
    rewrite get_as_put, decide_False by (by apply (key_ne k "presence:")).
    rewrite get_as_delete, decide_False by (by apply (key_ne k "conn:")).
    unfold get_as at 1. rewrite H1, bool_decide_false by (by apply (key_ne k "conn:")).
    rewrite Hk. cbn [orb andb]. destruct (get_as as_lease k s) as [l'|] eqn:El.
    + destruct (String.eqb_spec (le_holderDeviceId l') d) as [He|He]; [naive_solver|].
      unfold get_as in El. rewrite El. naive_solver.
    + unfold get_as in El. rewrite El. naive_solver.
  - intros Hcase. unfold handleClose. by rewrite (close_begin_not_last conn others d s Hd Hcase).
  - intros s1 k sp Hk Hg. unfold close_finish. case_match eqn:E; [done|].
    rewrite no_bindings in E. by destruct (E k sp Hk).
Qed.

(** The device "mac" leaves: its lease is gone. *)
Lemma handleClose_releases_witness :
  get_as as_lease (leaseKey "work" "site")
    (hub_store (HubDemo.after [MLeaseAcquire "work" "site" None None None None])) ≠ None
  ∧ ~ get_as as_lease (leaseKey "work" "site")
      (handleClose 2000 (HubDemo.conn "mac" "c1" ["work"]) [HubDemo.conn "ipad" "c2" ["work"]]
        (hub_store (HubDemo.after [MLeaseAcquire "work" "site" None None None None]))).1
    = Some (mkLease "work" "site" "mac" 61000).
Proof.
  destruct (handleClose_releases 2000 (HubDemo.conn "mac" "c1" ["work"])
    [HubDemo.conn "ipad" "c2" ["work"]] "mac"
    (hub_store (HubDemo.after [MLeaseAcquire "work" "site" None None None None])) eq_refl) as [H _].
  split; [vm_compute; discriminate|]. destruct H as [H _].
  - split; [intros c Hc%list_elem_of_singleton; rewrite Hc; vm_compute; discriminate|].
    split; [vm_compute; reflexivity|]. intros k sp Hk Hg.
    assert ((k, sp) ∈ connectionBindings "mac"
      (hub_store (HubDemo.after [MLeaseAcquire "work" "site" None None None None]))) as Hin
      by (apply list_as_get; by split).
    apply list_elem_of_In in Hin. vm_compute in Hin. destruct Hin as [Hin|[]].
    vm_compute. congruence.
  - intros Hl. apply (H (leaseKey "work" "site")) in Hl; [|vm_compute; reflexivity].
    destruct Hl as [_ Hl]. apply Hl. reflexivity.
Defined.
