(* ===== verification/Chunking.v ===== *)
(** * Content-defined chunking (packages/chunking/src/index.ts)

    FastCDC boundaries over a gear hash, chunk manifests, the streaming
    builder, reassembly and deduplication.  BLAKE3 is a parameter: the class
    [Blake3] with the one law of its streaming interface.  Offsets and lengths
    are integers, the rolling hash is a 32-bit word. *)

From S2P Require Export Encoding.
From Stdlib Require Import Ascii.

(** ** BLAKE3 *)

Class Blake3 := {
  blake3 : bytes → bytes;
  hasher : Type;
  hasher_create : hasher;
  hasher_update : hasher → bytes → hasher;
  hasher_digest : hasher → bytes
}.

(** Hashing piecewise is hashing the concatenation. *)
Class Blake3Laws (B : Blake3) := {
  hasher_stream (parts : list bytes) :
    hasher_digest (fold_left hasher_update parts hasher_create) = blake3 (concat parts)
}.

(** ** Parameters *)

Definition MIN_CHUNK_BYTES : Z := 256 * 1024.
Definition AVG_CHUNK_BYTES : Z := 1024 * 1024.
Definition MAX_CHUNK_BYTES : Z := 4 * 1024 * 1024.
Definition GEAR_DOMAIN : string := "suma.fastcdc.gear.v1".

#[global] Arguments MIN_CHUNK_BYTES : simpl never.
#[global] Arguments AVG_CHUNK_BYTES : simpl never.
#[global] Arguments MAX_CHUNK_BYTES : simpl never.

(** [x >>> 0]: reduction to an unsigned 32-bit word. *)
Definition u32 (x : Z) : Z := x mod 2 ^ 32.

Definition maskWithBits (bits : nat) : Z :=
  u32 (fold_left (λ mask i, Z.lor mask (Z.shiftl 1 (Z.of_nat i * 32 / Z.of_nat bits)))
         (seq 0 bits) 0).

Definition MASK_SMALL : Z := maskWithBits 22.
Definition MASK_LARGE : Z := maskWithBits 18.

Definition len (l : bytes) : Z := Z.of_nat (length l).
Definition subarray (i j : Z) (l : bytes) : bytes := take (Z.to_nat (j - i)) (drop (Z.to_nat i) l).

Section Chunking.
Context `{B : Blake3}.

(** [GEAR_TABLE[i]]: the little-endian word of the first four digest bytes. *)
Definition gear (i : Z) : Z :=
  let d := blake3 (utf8 GEAR_DOMAIN ++ [i]) in
  u32 (Z.lor (Z.lor (Z.lor (Z.shiftl (nth 3 d 0) 24) (Z.shiftl (nth 2 d 0) 16))
         (Z.shiftl (nth 1 d 0) 8)) (nth 0 d 0)).

Definition gearTableFingerprint : string :=
  toHex (blake3 (flat_map (λ i, let g := gear (Z.of_nat i) in
    [g mod 256; Z.shiftr g 8 mod 256; Z.shiftr g 16 mod 256; Z.shiftr g 24]) (seq 0 256))).

(** ** Boundaries *)

Definition gear_step (hash b : Z) : Z := u32 (u32 (Z.shiftl hash 1) + gear b).

(** One scanning loop from index [i] over the bytes from [i] on: [inl] is a
    cut, [inr] the hash with which the loop reaches [limit]. *)
Fixpoint scan (mask limit : Z) (l : bytes) (i hash : Z) : Z + Z :=
  match l with
  | [] => inr hash
  | b :: l' =>
      if i <? limit then
        let hash := gear_step hash b in
        if Z.land hash mask =? 0 then inl (i + 1) else scan mask limit l' (i + 1) hash
      else inr hash
  end.

Definition nextBoundary (data : bytes) (start : Z) : Z :=
  let remaining := len data - start in
  if remaining <=? MIN_CHUNK_BYTES then len data
  else
    let hardLimit := start + Z.min remaining MAX_CHUNK_BYTES in
    let normalLimit := start + Z.min remaining AVG_CHUNK_BYTES in
    let i := start + MIN_CHUNK_BYTES in
    match scan MASK_SMALL normalLimit (drop (Z.to_nat i) data) i 0 with
    | inl cut => cut
    | inr hash =>
        match scan MASK_LARGE hardLimit (drop (Z.to_nat normalLimit) data) normalLimit hash with
        | inl cut => cut
        | inr _ => hardLimit
        end
    end.

Record Chunk := mkChunk { ch_hash : string; ch_offset : Z; ch_length : Z }.

Definition hashChunk (data : bytes) : string := toHex (blake3 data).

(** The loop of [chunkBuffer]; every round advances, so the number of bytes
    left is enough fuel. *)
Fixpoint chunk_loop (fuel : nat) (data : bytes) (offset : Z) : list Chunk :=
  match fuel with
  | O => []
  | S f =>
      if offset <? len data then
        let e := nextBoundary data offset in
        let slice := subarray offset e data in
        mkChunk (toHex (blake3 slice)) offset (len slice) :: chunk_loop f data e
      else []
  end.

Definition chunkBuffer (data : bytes) : list Chunk := chunk_loop (length data) data 0.

(** ** Manifests *)

Record ChunkManifest := mkManifest {
  mf_fileHash : string;
  mf_totalBytes : Z;
  mf_chunks : list Chunk
}.

Definition buildManifest (data : bytes) : ChunkManifest :=
  mkManifest (toHex (blake3 data)) (len data) (chunkBuffer data).

(** ** The streaming builder *)

Record StreamingManifestBuilder := mkBuilder {
  sb_fileHasher : hasher;
  sb_pending : bytes;
  sb_chunks : list Chunk;
  sb_totalBytes : Z;
  sb_chunkedBytes : Z;
  sb_finished : bool
}.

Definition newBuilder : StreamingManifestBuilder := mkBuilder hasher_create [] [] 0 0 false.

(** The loop of [cut]; every round shortens [pending]. *)
Fixpoint cut_loop (fuel : nat) (final : bool) (b : StreamingManifestBuilder)
    : StreamingManifestBuilder :=
  match fuel with
  | O => b
  | S f =>
      if (0 <? len (sb_pending b)) && (final || (MAX_CHUNK_BYTES <=? len (sb_pending b))) then
        let e := nextBoundary (sb_pending b) 0 in
        let slice := subarray 0 e (sb_pending b) in
        cut_loop f final
          (mkBuilder (sb_fileHasher b) (drop (Z.to_nat e) (sb_pending b))
             (sb_chunks b ++ [mkChunk (toHex (blake3 slice)) (sb_chunkedBytes b) (len slice)])
             (sb_totalBytes b) (sb_chunkedBytes b + len slice) (sb_finished b))
      else b
  end.

Definition cut (final : bool) (b : StreamingManifestBuilder) : StreamingManifestBuilder :=
  cut_loop (length (sb_pending b)) final b.

(** [None] is the thrown [manifest builder is already finished]. *)
Definition push (data : bytes) (b : StreamingManifestBuilder) : option StreamingManifestBuilder :=
  if sb_finished b then None
  else if len data =? 0 then Some b
  else Some (cut false
    (mkBuilder (hasher_update (sb_fileHasher b) data) (sb_pending b ++ data) (sb_chunks b)
       (sb_totalBytes b + len data) (sb_chunkedBytes b) (sb_finished b))).

Definition finish (b : StreamingManifestBuilder)
    : option (ChunkManifest * StreamingManifestBuilder) :=
  if sb_finished b then None
  else
    let b := mkBuilder (sb_fileHasher b) (sb_pending b) (sb_chunks b) (sb_totalBytes b)
               (sb_chunkedBytes b) true in
    let b := cut true b in
    Some (mkManifest (toHex (hasher_digest (sb_fileHasher b))) (sb_totalBytes b) (sb_chunks b), b).

(** Pushing a list of parts, then finishing. *)
Fixpoint push_all (parts : list bytes) (b : StreamingManifestBuilder)
    : option StreamingManifestBuilder :=
  match parts with
  | [] => Some b
  | p :: parts => push p b ≫= push_all parts
  end.

(** ** Reassembly *)

Inductive AssembleError :=
| missing_chunk (hash : string)
| chunk_length (hash : string) (got expected : Z)
| out_of_range
| total_bytes (assembled expected : Z)
| file_hash.

(** [out.set(bytes, offset)]. *)
Definition set_bytes (out : bytes) (offset : Z) (bs : bytes) : option bytes :=
  if offset + len bs <=? len out
  then Some (take (Z.to_nat offset) out ++ bs ++ drop (Z.to_nat (offset + len bs)) out)
  else None.

Fixpoint assemble_loop (lookup : string → option bytes) (cs : list Chunk) (out : bytes) (offset : Z)
    : AssembleError + (bytes * Z) :=
  match cs with
  | [] => inr (out, offset)
  | c :: cs =>
      match lookup (ch_hash c) with
      | None => inl (missing_chunk (ch_hash c))
      | Some bs =>
          if len bs =? ch_length c then
            match set_bytes out offset bs with
            | None => inl out_of_range
            | Some out => assemble_loop lookup cs out (offset + len bs)
            end
          else inl (chunk_length (ch_hash c) (len bs) (ch_length c))
      end
  end.

Definition assembleFromChunks (m : ChunkManifest) (lookup : string → option bytes)
    : AssembleError + bytes :=
  if mf_totalBytes m <? 0 then inl out_of_range
  else
    match assemble_loop lookup (mf_chunks m) (repeat 0 (Z.to_nat (mf_totalBytes m))) 0 with
    | inl e => inl e
    | inr (out, offset) =>
        if negb (offset =? mf_totalBytes m) then inl (total_bytes offset (mf_totalBytes m))
        else if negb (String.eqb (toHex (blake3 out)) (mf_fileHash m)) then inl file_hash
        else inr out
    end.

(** ** Deduplication *)

Definition missing_step (has : string → bool) (acc : list string * list Chunk) (c : Chunk)
    : list string * list Chunk :=
  let '(seen, missing) := acc in
  if bool_decide (ch_hash c ∈ seen) || has (ch_hash c) then acc
  else (ch_hash c :: seen, missing ++ [c]).

Definition missingChunks (m : ChunkManifest) (has : string → bool) : list Chunk :=
  (fold_left (missing_step has) (mf_chunks m) ([], [])).2.
End Chunking.

(** ** Boundaries: range, shift and extension *)

Lemma len_app a b : len (a ++ b) = len a + len b.
Proof. unfold len. rewrite length_app. lia. Qed.

Lemma len_nonneg l : 0 <= len l.
Proof. unfold len. lia. Qed.

Lemma len_drop n l : 0 <= n → len (drop (Z.to_nat n) l) = Z.max 0 (len l - n).
Proof. intros. unfold len. rewrite length_drop. lia. Qed.

Lemma len_take n l : 0 <= n → len (take (Z.to_nat n) l) = Z.min n (len l).
Proof. intros. unfold len. rewrite length_take. lia. Qed.

Ltac chunk_sizes := unfold MIN_CHUNK_BYTES, AVG_CHUNK_BYTES, MAX_CHUNK_BYTES in *.

Section ChunkingLemmas.
Context `{BL : Blake3Laws}.

Lemma scan_range mask limit l i h c : scan mask limit l i h = inl c → i < c <= limit.
Proof.
  revert i h. induction l as [|b l IH]; intros i h; simpl; [done|].
  destruct (i <? limit) eqn:E; [|done]. destruct (_ =? 0).
  - intros [= <-]. blia.
  - intros Hc%IH. blia.
Qed.

Lemma scan_shift mask limit l i h k :
  scan mask (limit + k) l (i + k) h
  = match scan mask limit l i h with inl c => inl (c + k) | inr h => inr h end.
Proof.
  revert i h. induction l as [|b l IH]; intros i h; simpl; [done|].
  replace (i + k <? limit + k) with (i <? limit)
    by (destruct (i <? limit) eqn:E; symmetry; bprop; [apply Z.ltb_lt|apply Z.ltb_ge]; lia).
  destruct (i <? limit); [|done]. destruct (_ =? 0); [f_equal; lia|].
  rewrite <- IH. f_equal. lia.
Qed.

Lemma scan_app mask limit l m i h :
  limit <= i + len l → scan mask limit (l ++ m) i h = scan mask limit l i h.
Proof.
  revert i h. induction l as [|b l IH]; intros i h Hl.
  - unfold len in Hl. simpl in *. destruct m; [done|]. simpl.
    replace (i <? limit) with false by (symmetry; apply Z.ltb_ge; lia). done.
  - assert (limit <= i + 1 + len l) as Hl' by (unfold len in *; simpl in *; lia). simpl.
    destruct (i <? limit); [|done]. destruct (_ =? 0); [done|]. by apply IH.
Qed.

(** A boundary lies past its start; short of the end it is past the minimum
    and at most the maximum. *)
Lemma nextBoundary_range data start :
  0 <= start < len data →
  start < nextBoundary data start <= len data
  ∧ nextBoundary data start <= start + MAX_CHUNK_BYTES
  ∧ (nextBoundary data start < len data → start + MIN_CHUNK_BYTES < nextBoundary data start).
Proof.
  intros Hs. unfold nextBoundary. destruct (_ <=? MIN_CHUNK_BYTES) eqn:E; bprop; [chunk_sizes; lia|].
  destruct (scan MASK_SMALL _ _ _ _) as [c|h] eqn:E1; [apply scan_range in E1; chunk_sizes; lia|].
  destruct (scan MASK_LARGE _ _ _ _) as [c|h'] eqn:E2; [apply scan_range in E2; chunk_sizes; lia|].
  chunk_sizes. lia.
Qed.

Lemma nextBoundary_shift data start :
  0 <= start <= len data →
  nextBoundary data start = start + nextBoundary (drop (Z.to_nat start) data) 0.
Proof.
  intros Hs. unfold nextBoundary. rewrite len_drop, Z.max_r, !Z.sub_0_r, !Z.add_0_l by lia.
  destruct (_ <=? MIN_CHUNK_BYTES) eqn:E; bprop; [lia|]. rewrite !drop_drop.
  set (r := len data - start) in *.
  replace (Z.to_nat start + Z.to_nat MIN_CHUNK_BYTES)%nat with (Z.to_nat (start + MIN_CHUNK_BYTES))
    by (chunk_sizes; lia).
  replace (Z.to_nat start + Z.to_nat (Z.min r AVG_CHUNK_BYTES))%nat
    with (Z.to_nat (start + Z.min r AVG_CHUNK_BYTES)) by (chunk_sizes; lia).
  rewrite (Z.add_comm start (Z.min r AVG_CHUNK_BYTES)), (Z.add_comm start MIN_CHUNK_BYTES),
    (Z.add_comm start (Z.min r MAX_CHUNK_BYTES)).
  rewrite scan_shift. destruct (scan MASK_SMALL _ _ _ 0); [lia|].
  rewrite scan_shift. destruct (scan MASK_LARGE _ _ _ _); lia.
Qed.

(** The first [MAX_CHUNK_BYTES] bytes decide the boundary. *)
Lemma nextBoundary_app p m :
  MAX_CHUNK_BYTES <= len p → nextBoundary (p ++ m) 0 = nextBoundary p 0.
Proof.
  intros Hp. pose proof (len_nonneg m). unfold nextBoundary. rewrite len_app, !Z.sub_0_r, !Z.add_0_l.
  replace (len p + len m <=? MIN_CHUNK_BYTES) with false by (symmetry; apply Z.leb_gt; chunk_sizes; lia).
  replace (len p <=? MIN_CHUNK_BYTES) with false by (symmetry; apply Z.leb_gt; chunk_sizes; lia).
  rewrite !Z.min_r by (chunk_sizes; lia).
  assert (∀ n, 0 <= n <= MAX_CHUNK_BYTES → drop (Z.to_nat n) (p ++ m) = drop (Z.to_nat n) p ++ m) as Hd
    by (intros n Hn; rewrite drop_app_le; [done|unfold len in Hp; lia]).
  rewrite !Hd by (chunk_sizes; lia).
  rewrite scan_app by (rewrite len_drop by (chunk_sizes; lia); chunk_sizes; lia).
  destruct (scan MASK_SMALL _ _ _ _) as [|h]; [done|].
  by rewrite scan_app by (rewrite len_drop by (chunk_sizes; lia); chunk_sizes; lia).
Qed.

(** ** The chunks of a suffix *)

(** [chunks_from off l]: the chunks of the bytes [l] that start at [off]. *)
Fixpoint chunks_from_fuel (fuel : nat) (off : Z) (l : bytes) : list Chunk :=
  match fuel with
  | O => []
  | S f =>
      match l with
      | [] => []
      | _ =>
          let e := Z.to_nat (nextBoundary l 0) in
          mkChunk (toHex (blake3 (take e l))) off (len (take e l))
            :: chunks_from_fuel f (off + len (take e l)) (drop e l)
      end
  end.

Definition chunks_from (off : Z) (l : bytes) : list Chunk := chunks_from_fuel (length l) off l.

Lemma boundary_nat l :
  l ≠ [] → (0 < Z.to_nat (nextBoundary l 0) <= length l)%nat.
Proof.
  intros Hl. assert (0 < len l) as Hp by (destruct l; [done|unfold len; simpl; lia]).
  destruct (nextBoundary_range l 0) as [? _]; [lia|]. unfold len in *. lia.
Qed.

Lemma chunks_from_fuel_enough f off l :
  (length l <= f)%nat → chunks_from_fuel f off l = chunks_from off l.
Proof.
  unfold chunks_from. revert off l.
  assert (∀ n f off l, (length l <= n)%nat → (n <= f)%nat →
    chunks_from_fuel f off l = chunks_from_fuel n off l) as Hgen.
  { induction n as [|n IH]; intros f' off l Hl Hf.
    - destruct l; [by destruct f'|simpl in Hl; lia].
    - destruct f' as [|f']; [lia|]. simpl. destruct l as [|x l]; [done|]. f_equal.
      pose proof (boundary_nat (x :: l) ltac:(done)) as Hb.
      apply IH; [rewrite length_drop; simpl in *; lia|lia]. }
  intros off l Hl. by apply Hgen.
Qed.

Lemma chunks_from_cons off l :
  l ≠ [] →
  let e := Z.to_nat (nextBoundary l 0) in
  chunks_from off l
  = mkChunk (toHex (blake3 (take e l))) off (len (take e l))
      :: chunks_from (off + len (take e l)) (drop e l).
Proof.
  intros Hl e. unfold chunks_from at 1. destruct l as [|x l]; [done|]. cbn [chunks_from_fuel length].
  fold e. f_equal. apply chunks_from_fuel_enough. pose proof (boundary_nat (x :: l) Hl) as Hb.
  rewrite length_drop. fold e in Hb. simpl in *. lia.
Qed.

Lemma subarray_0 e l : subarray 0 e l = take (Z.to_nat e) l.
Proof. unfold subarray. rewrite Z.sub_0_r. done. Qed.

Lemma chunk_loop_from f data off :
  0 <= off <= len data → (length (drop (Z.to_nat off) data) <= f)%nat →
  chunk_loop f data off = chunks_from off (drop (Z.to_nat off) data).
Proof.
  revert off. induction f as [|f IH]; intros off Ho Hf.
  { destruct (drop _ data); [done|simpl in Hf; lia]. }
  cbn [chunk_loop]. destruct (off <? len data) eqn:E; bprop.
  - assert (drop (Z.to_nat off) data ≠ []) as Hne
      by (intros Hd; apply (f_equal len) in Hd; rewrite len_drop in Hd by lia; unfold len in *; simpl in *; lia).
    rewrite chunks_from_cons by done. cbn zeta.
    pose proof (nextBoundary_shift data off ltac:(lia)) as Hs.
    pose proof (nextBoundary_range data off ltac:(lia)) as [Hr _].
    set (e := nextBoundary (drop (Z.to_nat off) data) 0) in *.
    assert (subarray off (nextBoundary data off) data = take (Z.to_nat e) (drop (Z.to_nat off) data)) as ->
      by (unfold subarray; rewrite Hs; do 2 f_equal; lia).
    assert (off + len (take (Z.to_nat e) (drop (Z.to_nat off) data)) = nextBoundary data off) as ->
      by (rewrite len_take, len_drop by lia; lia).
    f_equal. rewrite IH; [|lia|].
    + rewrite drop_drop. f_equal. f_equal. lia.
    + rewrite length_drop in *. unfold len in *. lia.
  - assert (drop (Z.to_nat off) data = []) as ->; [|done].
    apply drop_ge. unfold len in *. lia.
Qed.

Lemma chunkBuffer_from data : chunkBuffer data = chunks_from 0 data.
Proof. unfold chunkBuffer. apply (chunk_loop_from _ data 0); [unfold len; lia|done]. Qed.
End ChunkingLemmas.

(** ** The streaming builder *)

Section Streaming.
Context `{BL : Blake3Laws}.

Lemma cut_loop_spec final f b :
  (length (sb_pending b) <= f)%nat →
  let b' := cut_loop f final b in
  sb_fileHasher b' = sb_fileHasher b ∧ sb_totalBytes b' = sb_totalBytes b
  ∧ sb_finished b' = sb_finished b
  ∧ sb_chunkedBytes b' + len (sb_pending b') = sb_chunkedBytes b + len (sb_pending b)
  ∧ if final
    then sb_pending b' = [] ∧ sb_chunks b' = sb_chunks b ++ chunks_from (sb_chunkedBytes b) (sb_pending b)
    else len (sb_pending b') < MAX_CHUNK_BYTES
      ∧ ∀ more, sb_chunks b' ++ chunks_from (sb_chunkedBytes b') (sb_pending b' ++ more)
          = sb_chunks b ++ chunks_from (sb_chunkedBytes b) (sb_pending b ++ more).
Proof.
  revert b. induction f as [|f IH]; intros b Hf; cbn [cut_loop].
  { assert (sb_pending b = []) as Hp by (destruct (sb_pending b); [done|simpl in Hf; lia]).
    rewrite Hp. do 4 (split; [done|]). destruct final; [by rewrite app_nil_r|].
    split; [chunk_sizes; unfold len; simpl; lia|done]. }
  destruct (_ && _) eqn:E.
  - apply andb_true_iff in E as [Ep Ef]. bprop.
    assert (sb_pending b ≠ []) as Hne by (intros Hn; rewrite Hn in Ep; unfold len in Ep; simpl in Ep; lia).
    pose proof (boundary_nat _ Hne) as Hb. set (e := nextBoundary (sb_pending b) 0) in *.
    rewrite subarray_0. cbn zeta. match goal with |- context [cut_loop f final ?b1] =>
      destruct (IH b1) as (H1 & H2 & H3 & H4 & H5) end; [|do 3 (split; [eassumption|])]; cbn [sb_pending sb_chunks sb_chunkedBytes] in *.
    { cbn [sb_pending]. rewrite length_drop. lia. }
    split; [rewrite H4; unfold len; rewrite length_take, length_drop; lia|]. destruct final.
    + destruct H5 as [Hp Hc]. split; [done|]. rewrite Hc, <- app_assoc. f_equal.
      by rewrite (chunks_from_cons _ (sb_pending b)).
    + destruct H5 as [Hm Hc]. split; [done|]. intros more. rewrite Hc, <- app_assoc. f_equal.
      assert (sb_pending b ++ more ≠ []) as Hne' by (by destruct (sb_pending b)).
      rewrite (chunks_from_cons _ _ Hne'). destruct Ef as [Ef|Ef]; [done|]. bprop.
      rewrite nextBoundary_app by done. cbn zeta. fold e.
      by rewrite take_app_le, drop_app_le by lia.
  - do 4 (split; [done|]). apply andb_false_iff in E. destruct final.
    + destruct E as [E|E]; [|done]. bprop. assert (sb_pending b = []) as Hp
        by (destruct (sb_pending b); [done|unfold len in E; simpl in E; lia]).
      rewrite Hp. split; [done|]. by rewrite app_nil_r.
    + split; [|done]. destruct E as [E|E]; simpl in E; bprop; [chunk_sizes; lia|lia].
Qed.

(** What a builder has seen: the bytes [data], cut as the buffer would be. *)
Definition builder_ok (data : bytes) (b : StreamingManifestBuilder) : Prop :=
  (∃ parts, sb_fileHasher b = fold_left hasher_update parts hasher_create ∧ concat parts = data)
  ∧ sb_totalBytes b = len data
  ∧ sb_finished b = false
  ∧ sb_chunkedBytes b + len (sb_pending b) = len data
  ∧ len (sb_pending b) < MAX_CHUNK_BYTES
  ∧ ∀ more, sb_chunks b ++ chunks_from (sb_chunkedBytes b) (sb_pending b ++ more)
      = chunks_from 0 (data ++ more).

Lemma newBuilder_ok : builder_ok [] newBuilder.
Proof.
  split; [by exists []|]. do 3 (split; [done|]).
  split; [unfold len; simpl; chunk_sizes; lia|done].
Qed.

Lemma push_ok data part b :
  builder_ok data b → ∃ b', push part b = Some b' ∧ builder_ok (data ++ part) b'.
Proof.
  intros ((parts & Hh & Hd) & Ht & Hf & Hl & Hm & Hc). unfold push. rewrite Hf.
  destruct (len part =? 0) eqn:E; bprop.
  { assert (part = []) as -> by (destruct part; [done|unfold len in E; simpl in E; lia]).
    rewrite app_nil_r. eexists. split; [done|]. split; [by exists parts|]. done. }
  eexists. split; [done|]. unfold cut.
  match goal with |- context [cut_loop ?f false ?b1] =>
    destruct (cut_loop_spec false f b1) as (H1 & H2 & H3 & H4 & H5 & H6) end; [reflexivity|].
  cbn [sb_fileHasher sb_pending sb_chunks sb_totalBytes sb_chunkedBytes sb_finished] in *.
  split.
  { exists (parts ++ [part]). split; [by rewrite H1, fold_left_app, <- Hh|].
    rewrite concat_app, Hd. simpl. by rewrite app_nil_r. }
  split; [rewrite H2, Ht; by rewrite len_app|]. split; [congruence|].
  split; [rewrite H4, !len_app; lia|]. split; [done|].
  intros more. rewrite H6, <- app_assoc, Hc. by rewrite app_assoc.
Qed.

Lemma push_all_ok parts data b :
  builder_ok data b → ∃ b', push_all parts b = Some b' ∧ builder_ok (data ++ concat parts) b'.
Proof.
  revert data b. induction parts as [|p parts IH]; intros data b Hb; simpl.
  { rewrite app_nil_r. eauto. }
  destruct (push_ok data p b Hb) as (b' & -> & Hb'). simpl. rewrite app_assoc. by apply IH.
Qed.

Lemma finish_ok data b :
  builder_ok data b → ∃ b', finish b = Some (buildManifest data, b') ∧ sb_finished b' = true.
Proof.
  intros ((parts & Hh & Hd) & Ht & Hf & Hl & _ & Hc). unfold finish. rewrite Hf. unfold cut.
  match goal with |- context [cut_loop ?f true ?b1] =>
    destruct (cut_loop_spec true f b1) as (H1 & H2 & H3 & H4 & H5 & H6) end; [reflexivity|].
  cbn [sb_fileHasher sb_pending sb_chunks sb_totalBytes sb_chunkedBytes sb_finished] in *.
  eexists. split; [|exact H3]. rewrite H1, H2, H6, Hh, hasher_stream, Hd, Ht.
  specialize (Hc []). rewrite !app_nil_r in Hc. rewrite Hc.
  unfold buildManifest. by rewrite chunkBuffer_from.
Qed.
End Streaming.

(** ** Manifests describe their file *)

Section Manifests.
Context `{BL : Blake3Laws}.

(** [cs] tile the bytes [l] from offset [off] on. *)
Fixpoint tiles (off : Z) (l : bytes) (cs : list Chunk) : Prop :=
  match cs with
  | [] => l = []
  | c :: cs =>
      ch_offset c = off ∧ 0 < ch_length c <= Z.min MAX_CHUNK_BYTES (len l)
      ∧ ch_hash c = toHex (blake3 (take (Z.to_nat (ch_length c)) l))
      ∧ (cs ≠ [] → MIN_CHUNK_BYTES < ch_length c)
      ∧ tiles (off + ch_length c) (drop (Z.to_nat (ch_length c)) l) cs
  end.

Lemma chunks_from_tiles off l : tiles off l (chunks_from off l).
Proof.
  remember (length l) as n eqn:Hn. revert off l Hn.
  induction (lt_wf n) as [n _ IH]. intros off l ->.
  destruct (decide (l = [])) as [->|Hne]; [done|].
  rewrite chunks_from_cons by done. cbn zeta. set (e := nextBoundary l 0).
  pose proof (boundary_nat l Hne) as Hb. fold e in Hb.
  assert (0 < len l) as Hpos by (destruct l; [done|unfold len; simpl; lia]).
  destruct (nextBoundary_range l 0) as (Hr & Hmax & Hmin); [lia|]. fold e in Hr, Hmax, Hmin.
  assert (len (take (Z.to_nat e) l) = e) as He by (rewrite len_take by lia; lia).
  rewrite He. cbn [tiles ch_offset ch_length ch_hash]. split; [done|]. split; [lia|].
  split; [done|]. split.
  - intros Hcs. destruct (decide (e < len l)) as [?|Hge]; [lia|]. exfalso. apply Hcs.
    rewrite drop_ge by (unfold len in *; lia). done.
  - eapply IH; [|done]. rewrite length_drop. lia.
Qed.

Lemma set_bytes_next pre suf bs rest :
  suf = bs ++ rest →
  set_bytes (pre ++ repeat 0 (length suf)) (len pre) bs
  = Some ((pre ++ bs) ++ repeat 0 (length rest)).
Proof.
  intros ->. unfold set_bytes. rewrite !len_app. unfold len at 4 5. rewrite repeat_length, length_app.
  replace (_ <=? _) with true by (symmetry; apply Z.leb_le; unfold len; lia). f_equal.
  unfold len. rewrite Nat2Z.id, take_app_length, <- app_assoc. do 2 f_equal.
  replace (Z.to_nat _) with (length pre + length bs)%nat by lia.
  rewrite drop_app, drop_ge by lia. simpl. rewrite repeat_app, drop_app.
  rewrite drop_ge by (rewrite repeat_length; lia). simpl.
  rewrite repeat_length. by replace (_ - _ - _)%nat with 0%nat by lia.
Qed.

Lemma assemble_tiles lookup cs off pre l :
  tiles off l cs → off = len pre →
  (∀ c, c ∈ cs → lookup (ch_hash c)
     = Some (subarray (ch_offset c) (ch_offset c + ch_length c) (pre ++ l))) →
  assemble_loop lookup cs (pre ++ repeat 0 (length l)) off = inr (pre ++ l, len (pre ++ l)).
Proof.
  revert off pre l. induction cs as [|c cs IH]; intros off pre l Ht -> Hl; simpl in Ht.
  { subst l. simpl. by rewrite app_nil_r. }
  destruct Ht as (Ho & Hlen & Hh & _ & Ht). cbn [assemble_loop].
  rewrite (Hl c) by left. rewrite Ho. set (n := ch_length c) in *.
  assert (subarray (len pre) (len pre + n) (pre ++ l) = take (Z.to_nat n) l) as Hs.
  { unfold subarray, len. rewrite Nat2Z.id, drop_app_length. f_equal. lia. }
  rewrite Hs. assert (len (take (Z.to_nat n) l) = n) as Hn by (rewrite len_take by lia; lia).
  rewrite Hn, Z.eqb_refl.
  rewrite (set_bytes_next pre l _ (drop (Z.to_nat n) l)) by (by rewrite take_drop).
  rewrite (IH (len pre + n)); [|done|by rewrite len_app, Hn|].
  - by rewrite <- app_assoc, take_drop.
  - intros c' Hc'. rewrite <- app_assoc, take_drop. apply Hl. by right.
Qed.

(** Reassembly writes into a buffer of fixed size. *)
Lemma assemble_length lookup cs out off out' off' :
  0 <= off → assemble_loop lookup cs out off = inr (out', off') → len out' = len out.
Proof.
  revert out off. induction cs as [|c cs IH]; intros out off Ho; simpl; [by intros [= -> ->]|].
  destruct (lookup _) as [bs|]; [|done]. destruct (_ =? _); [|done]. unfold set_bytes.
  destruct (_ <=? _) eqn:E; [|done]. bprop. pose proof (len_nonneg bs). intros ->%IH; [|lia]. rewrite !len_app.
  unfold len in *. rewrite length_take, length_drop. lia.
Qed.
End Manifests.

(** ** Deduplication *)

Section Dedup.

Lemma missing_fold has cs seen out :
  let '(seen', out') := fold_left (missing_step has) cs (seen, out) in
  (∀ h, h ∈ seen ↔ h ∈ map ch_hash out) → NoDup (map ch_hash out) →
  (∀ h, h ∈ seen' ↔ h ∈ map ch_hash out') ∧ NoDup (map ch_hash out')
  ∧ (∀ c, c ∈ out' → c ∈ out ∨ c ∈ cs ∧ has (ch_hash c) = false)
  ∧ (∀ c, c ∈ out → c ∈ out')
  ∧ ∀ c, c ∈ cs → has (ch_hash c) = true ∨ ch_hash c ∈ map ch_hash out'.
Proof.
  revert seen out. induction cs as [|c cs IH]; intros seen out; simpl.
  { intros Hs Hnd. do 2 (split; [done|]). set_solver. }
  destruct (bool_decide _ || has (ch_hash c)) eqn:E.
  - specialize (IH seen out). destruct (fold_left _ cs _) as [seen' out'].
    intros Hs Hnd. destruct (IH Hs Hnd) as (H1 & H2 & H3 & H4 & H5). do 2 (split; [done|]).
    split; [set_solver|]. split; [done|]. intros c' [->|Hc']%elem_of_cons; [|by apply H5].
    apply orb_true_iff in E as [E|E]; [right|by left]. bprop. apply Hs in E.
    apply list_elem_of_fmap in E as (x & -> & Hx). apply list_elem_of_fmap. eauto.
  - apply orb_false_iff in E as [E1 E2]. bprop.
    specialize (IH (ch_hash c :: seen) (out ++ [c])). destruct (fold_left _ cs _) as [seen' out'].
    intros Hs Hnd. destruct IH as (H1 & H2 & H3 & H4 & H5).
    { intros h. rewrite map_app, elem_of_app, elem_of_cons, Hs. simpl. set_solver. }
    { rewrite map_app. apply NoDup_app. split; [done|]. split; [|apply NoDup_singleton].
      intros h Hh Hc%list_elem_of_singleton. subst h. by apply E1, Hs. }
    do 2 (split; [done|]). split; [|split].
    + intros x Hx. apply H3 in Hx as [[?| ->]%elem_of_snoc|[? ?]]; [by left|right|right];
        (split; [|done]); [left|by right].
    + intros x Hx. apply H4, elem_of_snoc. by left.
    + intros x [->|Hx]%elem_of_cons; [|by apply H5]. right. apply list_elem_of_fmap.
      exists c. split; [done|]. apply H4, elem_of_snoc. by right.
Qed.

Lemma missingChunks_spec m has :
  NoDup (map ch_hash (missingChunks m has))
  ∧ (∀ c, c ∈ missingChunks m has → c ∈ mf_chunks m ∧ has (ch_hash c) = false)
  ∧ ∀ c, c ∈ mf_chunks m → has (ch_hash c) = true ∨ ch_hash c ∈ map ch_hash (missingChunks m has).
Proof.
  unfold missingChunks. pose proof (missing_fold has (mf_chunks m) [] []) as Hf.
  destruct (fold_left _ _ _) as [seen out]. destruct Hf as (_ & H2 & H3 & _ & H5); [done|constructor|].
  split; [done|]. split; [|done]. intros c Hc. apply H3 in Hc as [?|?]; [set_solver|done].
Qed.
End Dedup.

(** ** A concrete digest for the witnesses *)

Definition toy_blake3 (l : bytes) : bytes :=
  let s := fold_left (λ a b, (a * 31 + b + 7) mod 65521) l 1 in
  [s mod 256; s / 256; Z.of_nat (length l) mod 256; 5].

#[export] Instance ToyBlake3 : Blake3 := {|
  blake3 := toy_blake3;
  hasher := bytes;
  hasher_create := [];
  hasher_update h l := h ++ l;
  hasher_digest := toy_blake3
|}.

#[export] Instance ToyBlake3_laws : Blake3Laws ToyBlake3.
Proof.
  split. intros parts. simpl. f_equal.
  assert (∀ h, fold_left (λ h l, h ++ l) parts h = h ++ concat parts) as Hgen; [|apply (Hgen [])].
  induction parts as [|p parts IH]; intros h; simpl; [by rewrite app_nil_r|].
  by rewrite IH, app_assoc.
Qed.

(** ** Properties *)

(** C12: however a file is cut into pushes, the streaming builder finishes with
    exactly the manifest of the whole buffer, holds less than one maximal chunk
    of undecided bytes while it is fed, and refuses everything once finished. *)
Theorem streaming_refines_buffer `{BL : Blake3Laws} parts :
  ∃ b, push_all parts newBuilder = Some b
    ∧ len (sb_pending b) < MAX_CHUNK_BYTES
    ∧ ∃ b', finish b = Some (buildManifest (concat parts), b')
      ∧ finish b' = None ∧ ∀ data, push data b' = None.
Proof.
  destruct (push_all_ok parts [] newBuilder newBuilder_ok) as (b & Hb & Hok). exists b.
  split; [done|]. split; [apply Hok|]. destruct (finish_ok _ _ Hok) as (b' & Hf & Hd).
  exists b'. split; [done|]. unfold finish, push. by rewrite Hd.
Qed.

(** Three bytes in two pushes. *)
Lemma streaming_refines_buffer_witness :
  ∃ b', push_all [[1; 2]; []; [3]] newBuilder ≫= finish = Some (buildManifest [1; 2; 3], b').
Proof.
  destruct (streaming_refines_buffer [[1; 2]; []; [3]]) as (b & Hb & _ & b' & Hf & _).
  exists b'. rewrite Hb. exact Hf.
Defined.

(** The chunks of a manifest tile the file in order, none longer than the
    maximum and none but the last shorter than the minimum; a store that holds
    the chunks a deduplicating upload sends, beside those it had, gives the
    file back; and whatever chunks are served, reassembly returns bytes only
    when their length and digest are the manifest's. *)
Theorem manifest_roundtrip `{BL : Blake3Laws} data has lookup :
  let m := buildManifest data in
  let bytes_of c := subarray (ch_offset c) (ch_offset c + ch_length c) data in
  (∀ c, c ∈ mf_chunks m → has (ch_hash c) = true ∨ ch_hash c ∈ map ch_hash (missingChunks m has) →
     lookup (ch_hash c) = Some (bytes_of c)) →
  tiles 0 data (mf_chunks m)
  ∧ NoDup (map ch_hash (missingChunks m has))
  ∧ assembleFromChunks m lookup = inr data
  ∧ ∀ m' lookup' out, assembleFromChunks m' lookup' = inr out →
      toHex (blake3 out) = mf_fileHash m' ∧ len out = mf_totalBytes m'.
Proof.
  intros m bytes_of Hl. unfold m, buildManifest in *. cbn [mf_chunks] in *.
  rewrite chunkBuffer_from in *. pose proof (chunks_from_tiles 0 data) as Ht.
  destruct (missingChunks_spec (mkManifest (toHex (blake3 data)) (len data) (chunks_from 0 data)) has)
    as (Hnd & _ & Hall).
  split; [done|]. split; [done|]. split.
  - unfold assembleFromChunks. cbn [mf_totalBytes mf_chunks mf_fileHash].
    replace (len data <? 0) with false by (symmetry; apply Z.ltb_ge, len_nonneg).
    unfold len at 1. rewrite Nat2Z.id.
    pose proof (assemble_tiles lookup (chunks_from 0 data) 0 [] data Ht eq_refl) as Ha.
    cbn [app] in Ha. rewrite Ha.
    + by rewrite Z.eqb_refl, String.eqb_refl.
    + intros c Hc. apply Hl; [done|]. by apply Hall.
  - intros m' lookup' out. unfold assembleFromChunks. destruct (_ <? 0) eqn:E0; [done|].
    destruct (assemble_loop _ _ _ _) as [e|[o off]] eqn:E; [done|].
    destruct (off =? mf_totalBytes m') eqn:E1; [|done]. simpl.
    destruct (String.eqb_spec (toHex (blake3 o)) (mf_fileHash m')) as [Eh|]; [|done].
    simpl. intros [= <-]. split; [done|]. apply assemble_length in E; [|done]. rewrite E.
    unfold len. rewrite repeat_length. blia.
Qed.

(** A small file is one chunk, uploaded and fetched back. *)
Lemma manifest_roundtrip_witness :
  assembleFromChunks (buildManifest [1; 2; 3])
    (λ h, if String.eqb h (hashChunk [1; 2; 3]) then Some [1; 2; 3] else None) = inr [1; 2; 3].
Proof.
  apply (manifest_roundtrip [1; 2; 3] (λ _, false)).
  intros c Hc _. apply list_elem_of_singleton in Hc. rewrite Hc. vm_compute. reflexivity.
Defined.
