(* ===== verification/Egress.v ===== *)
(** * Identity egress routing (packages/egress-policy/src/index.ts)

    The routing decision for one request of a space, the hosted-checkout
    rules of packages/config/src/corpus.ts, and the Chromium proxy
    configuration. *)

From S2P Require Export Hosts.
From Stdlib Require Import Ascii.

(** ** Configuration lists *)

Definition MEDIA_BYPASS_DOMAINS : list string :=
  ["youtube.com"; "googlevideo.com"; "netflix.com"; "nflxvideo.net"; "spotify.com";
   "scdn.co"; "twitch.tv"; "ttvnw.net"; "vimeo.com"; "cloudfront.net"].

Definition SEEDED_HOSTILE_DOMAINS : list string :=
  ["ticketmaster.com"; "nike.com"; "bestbuy.com"; "walmart.com"; "target.com"].

(** A regular expression is the test it performs on a path. *)
Record HostedCheckoutRule := mkRule {
  ru_label : string;
  ru_host : option string;
  ru_path : option (string → bool)
}.

(** [(?:^|\/)p]: at the start or after a slash. *)
Fixpoint after_slash (p : string → bool) (s : string) : bool :=
  match s with
  | EmptyString => false
  | String c s' => (Ascii.eqb c "/" && p s') || after_slash p s'
  end.
Definition at_segment (p : string → bool) (s : string) : bool := p s || after_slash p s.

(** [checkouts\/(?:cn|co|c)\/]. *)
Definition shopify_path (s : string) : bool :=
  startsWith s "checkouts/cn/" || startsWith s "checkouts/co/" || startsWith s "checkouts/c/".
(** [^\/(?:checkoutnow|webapps\/hermes)(?:$|[/?])]. *)
Definition paypal_path (s : string) : bool :=
  existsb (λ p, startsWith s p &&
      match slice_from (String.length p) s with
      | EmptyString => true
      | String c _ => Ascii.eqb c "/" || Ascii.eqb c "?"
      end) ["/checkoutnow"; "/webapps/hermes"].

Definition host_rule (label host : string) : HostedCheckoutRule := mkRule label (Some host) None.
Definition path_rule (label : string) (p : string → bool) : HostedCheckoutRule :=
  mkRule label None (Some p).

Definition HOSTED_CHECKOUT_RULES : list HostedCheckoutRule :=
  [host_rule "Stripe Checkout" "checkout.stripe.com";
   host_rule "Stripe payment link" "buy.stripe.com";
   host_rule "Stripe payment page" "pay.stripe.com";
   host_rule "Stripe payment element" "js.stripe.com";
   host_rule "Stripe fraud signals" "m.stripe.com";
   host_rule "Stripe fraud signals" "m.stripe.network";
   host_rule "Stripe Link" "link.com";
   host_rule "Shopify checkout" "checkout.shopify.com";
   host_rule "Shop Pay" "shop.app";
   host_rule "PayPal checkout" "checkout.paypal.com";
   host_rule "Adyen checkout" "checkout.adyen.com";
   host_rule "Braintree checkout" "checkout.braintreegateway.com";
   host_rule "Square checkout" "checkout.square.site";
   host_rule "Paddle checkout" "buy.paddle.com";
   host_rule "Paddle checkout" "checkout.paddle.com";
   host_rule "Lemon Squeezy checkout" "checkout.lemonsqueezy.com";
   host_rule "Chargebee checkout" "checkout.chargebee.com";
   host_rule "Razorpay checkout" "checkout.razorpay.com";
   host_rule "Klarna checkout" "checkout.klarna.com";
   host_rule "Affirm checkout" "checkout.affirm.com";
   host_rule "Google Pay" "pay.google.com";
   path_rule "Shopify checkout" (at_segment shopify_path);
   path_rule "Stripe Checkout" (at_segment (λ s, startsWith s "c/pay/cs_"));
   path_rule "PayPal checkout" paypal_path].

(** ** Decisions and their inputs *)

Inductive EgressRoute := gateway | direct | blocked.

Inductive EgressReason :=
| space_direct | loopback | private_range | vpn_route | media_bypass | hosted_checkout
| site_bypass | gateway_down_override | gateway_down_failclosed | identity.

Record EgressDecision := mkDecision {
  ed_route : EgressRoute;
  ed_reason : EgressReason;
  ed_explanation : string
}.

Inductive GatewayState := gateway_up | gateway_down.
Inductive SpacePolicy := suma_ip | policy_direct.

#[export] Instance EgressRoute_eq_dec : EqDecision EgressRoute.
Proof. solve_decision. Defined.
#[export] Instance SpacePolicy_eq_dec : EqDecision SpacePolicy.
Proof. solve_decision. Defined.

Record SpaceEgressConfig := mkSpaceEgress {
  se_spaceId : string;
  se_policy : SpacePolicy;
  se_siteBypass : list string;
  se_mediaBypass : bool;
  se_checkoutBypass : bool;
  se_detectedCheckoutHosts : list string;
  se_temporaryDirectOverride : bool
}.

Record NetworkContext := mkNet {
  nc_gateway : GatewayState;
  nc_vpnRoutes : list string;
  nc_vpnActive : bool
}.

Definition defaultSpaceEgress (spaceId : string) : SpaceEgressConfig :=
  mkSpaceEgress spaceId policy_direct [] true true [] false.

(** ** Host classification *)

Definition isLoopbackHost (host : string) : bool :=
  let h := toLowerCase host in
  String.eqb h "localhost" || endsWith h ".localhost"
  || String.eqb h "::1" || String.eqb h "[::1]"
  || match split_char "." h with
     | [a; b; c; d] => String.eqb a "127" && is_octet_text b && is_octet_text c && is_octet_text d
     | _ => false
     end.

Definition isPrivateHost (host : string) : bool :=
  let h := strip_brackets (toLowerCase host) in
  match dotted_quad h with
  | Some (a, b, _, _) =>
      (a =? 10) || (a =? 192) && (b =? 168) || (a =? 172) && (b >=? 16) && (b <=? 31)
      || (a =? 169) && (b =? 254) || (a =? 100) && (b >=? 64) && (b <=? 127)
  | None =>
      if unique_local_prefix h then true
      else if link_local_prefix h then true
      else if includes_char ":" h then false
      else negb (includes_char "." h) && negb (isLoopbackHost h)
  end.

Definition isMediaHost (host : string) : bool := existsb (hostMatches host) MEDIA_BYPASS_DOMAINS.
Definition isKnownHostileToDatacenterIps (host : string) : bool :=
  existsb (hostMatches host) SEEDED_HOSTILE_DOMAINS.

Definition HOSTED_CHECKOUT_DOMAINS : list string :=
  omap (λ r, match ru_path r with None => ru_host r | Some _ => None end) HOSTED_CHECKOUT_RULES.

Record HostedCheckoutMatch := mkCheckoutMatch { hm_host : string; hm_label : string }.

Definition rule_matches (u : URL) (r : HostedCheckoutRule) : bool :=
  match ru_host r, ru_path r with
  | None, None => false
  | h, p => match h with Some h => hostMatches (url_hostname u) h | None => true end
            && match p with Some p => p (url_pathname u) | None => true end
  end.

Definition is_http (u : URL) : bool :=
  String.eqb (url_protocol u) "http:" || String.eqb (url_protocol u) "https:".

Definition matchHostedCheckout `{UrlParser} (url : string) : option HostedCheckoutMatch :=
  match parse_url url with
  | None => None
  | Some parsed =>
      if is_http parsed then
        match List.find (rule_matches parsed) HOSTED_CHECKOUT_RULES with
        | Some rule => Some (mkCheckoutMatch (normalizedHost (url_hostname parsed)) (ru_label rule))
        | None => None
        end
      else None
  end.

Definition isHostedCheckoutHost (host : string) : bool :=
  existsb (hostMatches host) HOSTED_CHECKOUT_DOMAINS.
Definition matchesVpnRoute (host : string) (routes : list string) : bool :=
  existsb (hostMatches host) routes.
Definition isCheckoutBypassHost (host : string) (space : SpaceEgressConfig) : bool :=
  isHostedCheckoutHost host || existsb (hostMatches host) (se_detectedCheckoutHosts space).

(** ** The decision *)

Definition decideEgress (host : string) (space : SpaceEgressConfig) (net : NetworkContext)
    : EgressDecision :=
  if isLoopbackHost host then mkDecision direct loopback "Local address — never proxied."
  else if isPrivateHost host
  then mkDecision direct private_range "Private network address — never proxied."
  else if nc_vpnActive net && matchesVpnRoute host (nc_vpnRoutes net)
  then mkDecision direct vpn_route "Routed by your active VPN — browsing direct on this network."
  else if decide (se_policy space = policy_direct)
  then mkDecision direct space_direct "This space browses direct."
  else if existsb (hostMatches host) (se_siteBypass space)
  then mkDecision direct site_bypass "You chose to browse this site direct."
  else if se_checkoutBypass space && isCheckoutBypassHost host space
  then mkDecision direct hosted_checkout
         "Hosted checkout pages refuse proxied requests, so this payment page browses direct."
  else if se_mediaBypass space && isMediaHost host
  then mkDecision direct media_bypass
         "High-bandwidth media bypasses the identity gateway by default."
  else match nc_gateway net with
       | gateway_down =>
           if se_temporaryDirectOverride space
           then mkDecision direct gateway_down_override
                  "Identity gateway unreachable — browsing direct for now, at your request."
           else mkDecision blocked gateway_down_failclosed
                  "Identity gateway unreachable. Suma blocked this request rather than reveal your real IP."
       | gateway_up => mkDecision gateway identity "Browsing through your Suma identity IP."
       end.

(** ** The proxy configuration *)

Record ChromiumProxyConfig := mkProxyConfig {
  pc_proxyRules : string;
  pc_proxyBypassRules : string;
  pc_disableQuic : bool
}.

Definition bypassPatternsFor (hosts : list string) : list string :=
  flat_map (λ h, [h; "*." +:+ h]) hosts.

Definition LOCAL_BYPASS_RULES : string :=
  "<local>;localhost;127.0.0.1/8;::1;10.0.0.0/8;172.16.0.0/12;192.168.0.0/16;169.254.0.0/16;fc00::/7;fe80::/10".

(** The entries [proxyConfigFor] joins. *)
Definition bypassEntries (space : SpaceEgressConfig) (net : NetworkContext) : list string :=
  [LOCAL_BYPASS_RULES] ++ se_siteBypass space
  ++ (if se_mediaBypass space then MEDIA_BYPASS_DOMAINS else [])
  ++ (if se_checkoutBypass space
      then bypassPatternsFor (HOSTED_CHECKOUT_DOMAINS ++ se_detectedCheckoutHosts space) else [])
  ++ (if nc_vpnActive net then nc_vpnRoutes net else []).

Definition proxyConfigFor (space : SpaceEgressConfig) (localProxyPort : Z) (net : NetworkContext)
    : ChromiumProxyConfig :=
  if decide (se_policy space = policy_direct) then mkProxyConfig "direct://" "" false
  else
    let port := toString10 localProxyPort in
    mkProxyConfig ("https=127.0.0.1:" +:+ port +:+ ";http=127.0.0.1:" +:+ port)
      (str_join ";" (bypassEntries space net)) true.

(** ** Suggestions *)

Record BypassSuggestion := mkSuggestion { bs_host : string; bs_reason : string }.

Definition suggestBypassOnChallenge (host : string) (httpStatus : Z) (space : SpaceEgressConfig)
    : option BypassSuggestion :=
  if decide (se_policy space ≠ suma_ip) then None
  else if existsb (hostMatches host) (se_siteBypass space) then None
  else
    let challenged := (httpStatus =? 403) || (httpStatus =? 429) || (httpStatus =? 503) in
    if negb challenged && negb (isKnownHostileToDatacenterIps host) then None
    else Some (mkSuggestion (normalizedHost host)
      (if isKnownHostileToDatacenterIps host
       then "This site is known to challenge datacenter IP addresses."
       else "This site returned " +:+ toString10 httpStatus
            +:+ ", which often means it is challenging the IP address.")).

(** ** Lemmas *)

(** Some rule of the space or network that sends the host direct. *)
Definition covered (host : string) (ds : list string) : Prop :=
  ∃ d, d ∈ ds ∧ covers (normalizedHost d) (normalizedHost host).

Definition exempt (host : string) (space : SpaceEgressConfig) (net : NetworkContext) : Prop :=
  isLoopbackHost host = true ∨ isPrivateHost host = true
  ∨ (nc_vpnActive net = true ∧ covered host (nc_vpnRoutes net))
  ∨ se_policy space = policy_direct
  ∨ covered host (se_siteBypass space)
  ∨ (se_checkoutBypass space = true
     ∧ covered host (HOSTED_CHECKOUT_DOMAINS ++ se_detectedCheckoutHosts space))
  ∨ (se_mediaBypass space = true ∧ covered host MEDIA_BYPASS_DOMAINS).

Lemma covered_spec host ds : existsb (hostMatches host) ds = true ↔ covered host ds.
Proof. apply existsb_hostMatches. Qed.

Lemma checkout_covered host space :
  isCheckoutBypassHost host space = true
  ↔ covered host (HOSTED_CHECKOUT_DOMAINS ++ se_detectedCheckoutHosts space).
Proof.
  unfold isCheckoutBypassHost, isHostedCheckoutHost. rewrite <- existsb_app. apply covered_spec.
Qed.

(** The rules before the gateway, as one test. *)
Definition exempt_b (host : string) (space : SpaceEgressConfig) (net : NetworkContext) : bool :=
  isLoopbackHost host || (isPrivateHost host
  || (nc_vpnActive net && existsb (hostMatches host) (nc_vpnRoutes net)
  || (bool_decide (se_policy space = policy_direct)
  || (existsb (hostMatches host) (se_siteBypass space)
  || (se_checkoutBypass space && isCheckoutBypassHost host space
  || se_mediaBypass space && isMediaHost host))))).

Lemma exempt_b_spec host space net : exempt_b host space net = true ↔ exempt host space net.
Proof.
  unfold exempt_b, exempt, isMediaHost.
  rewrite !orb_true_iff, !andb_true_iff, bool_decide_eq_true, checkout_covered, !covered_spec. done.
Qed.

Lemma decideEgress_route host space net :
  ed_route (decideEgress host space net)
  = if exempt_b host space net then direct
    else match nc_gateway net with
         | gateway_up => gateway
         | gateway_down => if se_temporaryDirectOverride space then direct else blocked
         end.
Proof.
  unfold decideEgress, exempt_b, matchesVpnRoute, bool_decide.
  repeat (case_match; simpl; try done).
Qed.

(** An exempt host is routed without looking at the gateway. *)
Lemma decideEgress_exempt host space g g' r v :
  exempt_b host space (mkNet g r v) = true →
  decideEgress host space (mkNet g r v) = decideEgress host space (mkNet g' r v).
Proof.
  unfold decideEgress, exempt_b, matchesVpnRoute, bool_decide. cbn [nc_gateway nc_vpnActive nc_vpnRoutes].
  repeat (case_match; simpl; try done).
Qed.

(** ** Properties *)

(** Routing fails closed. A host no rule exempts is tunnelled while the
    gateway is up and blocked while it is down, unless the user asked to browse
    direct; so a gateway failure never turns a tunnelled request into a direct
    one by itself and changes no other decision. Only exempt hosts go direct:
    local and private addresses, active VPN routes, direct spaces, and the
    subdomains of bypassed, checkout or media hosts, where an IPv6 literal
    outside the local prefixes never counts as private. Whenever a request may
    be tunnelled or blocked, QUIC is off. *)
Theorem decideEgress_fails_closed host space net :
  let up := mkNet gateway_up (nc_vpnRoutes net) (nc_vpnActive net) in
  let down := mkNet gateway_down (nc_vpnRoutes net) (nc_vpnActive net) in
  (ed_route (decideEgress host space up) = gateway ↔ ~ exempt host space net)
  ∧ (ed_route (decideEgress host space down) = blocked ↔
       ~ exempt host space net ∧ se_temporaryDirectOverride space = false)
  ∧ (ed_route (decideEgress host space up) ≠ gateway →
       decideEgress host space down = decideEgress host space up)
  ∧ (ed_route (decideEgress host space net) = direct →
       exempt host space net
       ∨ nc_gateway net = gateway_down ∧ se_temporaryDirectOverride space = true)
  ∧ (ed_route (decideEgress host space net) ≠ direct →
       ∀ port, pc_disableQuic (proxyConfigFor space port net) = true)
  ∧ (let h := strip_brackets (toLowerCase host) in
     includes_char ":" h = true → unique_local_prefix h = false → link_local_prefix h = false →
     isPrivateHost host = false).
Proof.
  intros up down.
  assert (∀ g, exempt_b host space (mkNet g (nc_vpnRoutes net) (nc_vpnActive net)) = exempt_b host space net)
    as Hx by done.
  rewrite <- exempt_b_spec, !decideEgress_route. unfold up at 1, down at 1. rewrite !Hx.
  split; [destruct (exempt_b _ _ _); simpl; naive_solver|].
  split; [destruct (exempt_b _ _ _), (se_temporaryDirectOverride _); simpl; naive_solver|].
  split; [|split; [|split]].
  - destruct (exempt_b _ _ _) eqn:E; [intros _; by apply decideEgress_exempt|done].
  - destruct (exempt_b _ _ _); [by left|]. destruct (nc_gateway net); [done|].
    destruct (se_temporaryDirectOverride _); [by right|done].
  - intros Hd port. unfold proxyConfigFor. case_decide as Hp; [|done]. exfalso. apply Hd.
    unfold exempt_b. rewrite (bool_decide_true _ Hp).
    by destruct (isLoopbackHost _), (isPrivateHost _), (_ && _).
  - intros Hc Hu Hl. unfold isPrivateHost. cbn zeta.
    destruct (dotted_quad _) as [q|] eqn:Eq; [apply dotted_quad_no_colon in Eq; congruence|].
    by rewrite Hu, Hl, Hc.
Qed.

(** ** What Chromium makes of the bypass list *)

(** Chromium's matching of one entry of a bypass list with the host of a
    request, a parameter. *)
Class ProxyBypass := bypass_covers : string → string → bool.

(** The entries of a list are separated by semicolons or commas. *)
Definition bypass_list (rules : string) : list string := flat_map (split_char ",") (split_char ";" rules).

(** A host name with nothing in it that Chromium reads as a pattern, a port, a
    scheme or a separator. *)
Definition is_name_char (c : ascii) : bool :=
  is_digit c || ((97 <=? code c) && (code c <=? 122)) || ((65 <=? code c) && (code c <=? 90))
  || Ascii.eqb c "." || Ascii.eqb c "-" || Ascii.eqb c "_".
Definition plain_host (h : string) : bool :=
  negb (String.eqb h "") && negb (startsWith h ".") && all_of is_name_char h.

(** An IPv6 literal that stands for an IPv4 address: a CIDR entry of Chromium
    covers it when it covers that address. *)
Definition mapped_ipv4 (host : string) : bool := startsWith (strip_brackets (toLowerCase host)) "::ffff:".

(** What Chromium's documentation of proxy bypass rules says of the entries
    this code writes: a host name covers that host only, one after [*.] only
    what is below it, and each entry of [LOCAL_BYPASS_RULES] - simple names,
    loopback and private ranges - only such hosts. *)
Class ProxyBypassLaws `{!ProxyBypass} := {
  bypass_host : ∀ h host, plain_host h = true → bypass_covers h host = true → toLowerCase host = toLowerCase h;
  bypass_below : ∀ h host, plain_host h = true → bypass_covers ("*." +:+ h) host = true →
    endsWith (toLowerCase host) ("." +:+ toLowerCase h) = true;
  bypass_local : ∀ e host, e ∈ bypass_list LOCAL_BYPASS_RULES → bypass_covers e host = true →
    isLoopbackHost host = true ∨ isPrivateHost host = true ∨ mapped_ipv4 host = true
}.

Lemma split_char_join c a b : split_char c (a +:+ String c b) = split_char c a ++ split_char c b.
Proof.
  induction a as [|d a IH]; simpl; [by rewrite ascii_eqb_refl|]. rewrite IH. destruct (Ascii.eqb c d); [done|].
  destruct (split_char c a) as [|q qs] eqn:E; [|done]. destruct a as [|x a]; simpl in E; [discriminate E|].
  destruct (Ascii.eqb c x), (split_char c a); discriminate E.
Qed.

Lemma in_bypass_list e ps : ps ≠ [] → e ∈ bypass_list (str_join ";" ps) → ∃ p, p ∈ ps ∧ e ∈ bypass_list p.
Proof.
  unfold bypass_list. induction ps as [|p ps IH]; [done|]. intros _.
  destruct ps as [|p' ps]; [intros He; exists p; split; [left|done]|].
  change (str_join ";" (p :: p' :: ps)) with (p +:+ String ";" (str_join ";" (p' :: ps))).
  rewrite split_char_join, flat_map_app, elem_of_app. intros [He|He]; [exists p; split; [left|done]|].
  destruct (IH ltac:(done) He) as (q & Hq & ?). exists q. split; [by right|done].
Qed.

Lemma bypass_list_plain p : all_of (λ c, is_name_char c || Ascii.eqb c "*") p = true → bypass_list p = [p].
Proof.
  unfold all_of. rewrite forallb_forall. intros Hp. unfold bypass_list.
  assert (∀ c, is_name_char c || Ascii.eqb c "*" = false → no_char c p) as Hno.
  { intros c Hc. apply Forall_forall. intros d Hd%list_elem_of_In%Hp ->. congruence. }
  rewrite split_char_one by by apply Hno. cbn [flat_map]. rewrite split_char_one by by apply Hno. done.
Qed.

Lemma plain_host_list h : plain_host h = true → bypass_list h = [h] ∧ bypass_list ("*." +:+ h) = ["*." +:+ h].
Proof.
  unfold plain_host. intros [_ Hp]%andb_true_iff.
  assert (all_of (λ c, is_name_char c || Ascii.eqb c "*") h = true) as Hs.
  { unfold all_of in *. rewrite forallb_forall in *. intros c Hc. by rewrite Hp. }
  split; by apply bypass_list_plain.
Qed.

Lemma lower_dot c : lower_char c = "."%char → c = "."%char.
Proof. destruct c as [[] [] [] [] [] [] [] []]; vm_compute; congruence. Qed.

Lemma normalizedHost_plain h : plain_host h = true → normalizedHost h = toLowerCase h.
Proof.
  unfold plain_host, normalizedHost. rewrite !andb_true_iff, !negb_true_iff. intros [[_ Hd] _].
  destruct (startsWith (toLowerCase h) ".") eqn:E; [|done]. exfalso. apply startsWith_iff in E as [t Ht].
  destruct h as [|c h]; [discriminate Ht|]. injection Ht as Hc _. apply lower_dot in Hc as ->.
  assert (startsWith (String "." h) "." = true) by (apply startsWith_iff; by exists h). congruence.
Qed.

Lemma forallb_plain l : forallb plain_host l = true → Forall (λ h, plain_host h = true) l.
Proof. rewrite forallb_forall, Forall_forall. intros H h Hh%list_elem_of_In. by apply H. Qed.

Lemma below_covers h host : plain_host h = true →
  endsWith (toLowerCase host) ("." +:+ toLowerCase h) = true → covers (normalizedHost h) (normalizedHost host).
Proof.
  intros Hp [t Ht]%endsWith_iff. rewrite normalizedHost_plain by done. unfold covers, normalizedHost. rewrite Ht.
  generalize (toLowerCase h). intros l. destruct t as [|c t]; [by left|right].
  destruct (startsWith (String c t +:+ "." +:+ l) "."); [by exists t|by exists (String c t)].
Qed.
Lemma media_plain : Forall (λ h, plain_host h = true) MEDIA_BYPASS_DOMAINS.
Proof. apply forallb_plain. vm_compute. reflexivity. Qed.
Lemma checkout_plain : Forall (λ h, plain_host h = true) HOSTED_CHECKOUT_DOMAINS.
Proof. apply forallb_plain. vm_compute. reflexivity. Qed.

Lemma name_covers `{!ProxyBypass, !ProxyBypassLaws} ds host p e :
  Forall (λ h, plain_host h = true) ds → p ∈ ds → e ∈ bypass_list p → bypass_covers e host = true → covered host ds.
Proof.
  intros Hds Hp He Hc. rewrite Forall_forall in Hds. specialize (Hds p Hp). destruct (plain_host_list p Hds) as [E _].
  rewrite E in He. apply list_elem_of_singleton in He as ->. exists p. split; [done|]. left.
  unfold normalizedHost. by rewrite (bypass_host p host Hds Hc).
Qed.
Lemma pattern_covers `{!ProxyBypass, !ProxyBypassLaws} ds host p e :
  Forall (λ h, plain_host h = true) ds → p ∈ bypassPatternsFor ds → e ∈ bypass_list p → bypass_covers e host = true → covered host ds.
Proof.
  intros Hds Hp He Hc. unfold bypassPatternsFor in Hp. apply list_elem_of_In, in_flat_map in Hp as (h & Hh & Hp).
  apply list_elem_of_In in Hh. destruct Hp as [<-|[<-|[]]]; [by apply (name_covers ds host h e)|].
  rewrite Forall_forall in Hds. pose proof (Hds h Hh) as Hph. destruct (plain_host_list h Hph) as [_ El].
  rewrite El in He. apply list_elem_of_singleton in He as ->.
  exists h. split; [exact Hh|]. by apply below_covers, bypass_below.
Qed.

#[local] Opaque MEDIA_BYPASS_DOMAINS HOSTED_CHECKOUT_DOMAINS.

(** An entry of the list covers only hosts the policy sends direct. *)
Lemma bypassed_is_exempt `{!ProxyBypass, !ProxyBypassLaws} host space net e :
  Forall (λ h, plain_host h = true) (se_siteBypass space ++ se_detectedCheckoutHosts space) →
  nc_vpnActive net = false → mapped_ipv4 host = false →
  e ∈ bypass_list (str_join ";" (bypassEntries space net)) → bypass_covers e host = true → exempt host space net.
Proof.
  intros Hpl Hvpn Hm He Hc. apply Forall_app in Hpl as [Hsite Hdet].
  apply in_bypass_list in He as (p & Hp & He); [|done].
  unfold bypassEntries in Hp. rewrite Hvpn, app_nil_r, !elem_of_app, list_elem_of_singleton in Hp.
  destruct Hp as [->|[Hp|[Hp|Hp]]].
  - destruct (bypass_local e host He Hc) as [?|[?|?]]; [by left|by right; left|congruence].
  - do 4 right. left. exact (name_covers _ _ _ _ Hsite Hp He Hc).
  - destruct (se_mediaBypass space) eqn:E; [|by apply not_elem_of_nil in Hp]. do 6 right.
    exact (conj E (name_covers _ _ _ _ media_plain Hp He Hc)).
  - destruct (se_checkoutBypass space) eqn:E; [|by apply not_elem_of_nil in Hp]. do 5 right. left. split; [exact E|].
    refine (pattern_covers _ _ _ _ _ Hp He Hc). apply Forall_app. exact (conj checkout_plain Hdet).
Qed.
#[local] Transparent MEDIA_BYPASS_DOMAINS HOSTED_CHECKOUT_DOMAINS.

(** ** The proxy rules and the policy can disagree *)

(** A site bypass covers subdomains in [decideEgress], but [proxyConfigFor]
    passes it to Chromium without the wildcard form. *)
Example site_bypass_not_a_proxy_rule :
  let space := mkSpaceEgress "work" suma_ip ["example.com"] true true [] false in
  let net := mkNet gateway_up [] false in
  ed_route (decideEgress "www.example.com" space net) = direct
  ∧ "example.com" ∈ bypassEntries space net ∧ "*.example.com" ∉ bypassEntries space net
  ∧ "www.example.com" ∉ bypassEntries space net.
Proof.
  cbn zeta. split; [vm_compute; reflexivity|]. rewrite !list_elem_of_In.
  vm_compute. repeat split; intuition discriminate.
Qed.
