(* ===== verification/EgressService.v ===== *)
(** * The desktop egress service (apps/desktop/src/main/egress)

    [EgressService] of egress-service.ts over the pure rules of
    egress-state.ts and Egress.v: gateway health, temporary overrides, detected
    checkout hosts and the proxy applied to every space session.  A method is
    one step; what it tells the outside (status events, suggestions, reloads)
    is a trace.  The space list and the stored bypass lists are the parts of
    SpaceManager and WorkspaceStore the service reads and writes. *)

From S2P Require Export Egress JsMap.
From Stdlib Require Import Ascii.

(** ** egress-state.ts *)

Record StoredSpaceEgress := mkStored {
  st_siteBypass : list string;
  st_mediaBypass : bool;
  st_checkoutBypass : option bool
}.

Definition buildSpaceEgressConfig (spaceId : string) (policy : SpacePolicy)
    (stored : option StoredSpaceEgress) (temporaryDirectOverride : bool)
    (detectedCheckoutHosts : list string) : SpaceEgressConfig :=
  let base := defaultSpaceEgress spaceId in
  mkSpaceEgress spaceId policy
    (match stored with None => se_siteBypass base | Some s => st_siteBypass s end)
    (match stored with None => se_mediaBypass base | Some s => st_mediaBypass s end)
    (default (se_checkoutBypass base) (stored ≫= st_checkoutBypass))
    detectedCheckoutHosts temporaryDirectOverride.

Record EgressStatus := mkStatus {
  es_spaceId : string;
  es_policy : SpacePolicy;
  es_gateway : GatewayState;
  es_temporaryDirectOverride : bool;
  es_mediaBypass : bool;
  es_checkoutBypass : bool;
  es_detectedCheckoutHosts : list string;
  es_siteBypass : list string;
  es_failClosed : bool;
  es_vpnActive : bool;
  es_restartRequired : bool
}.

Definition is_suma (p : SpacePolicy) : bool := bool_decide (p = suma_ip).
Definition is_down (g : GatewayState) : bool :=
  match g with gateway_down => true | gateway_up => false end.

Definition egressStatusFor (config : SpaceEgressConfig) (gw : GatewayState)
    (vpnActive quicDisabledAtStartup : bool) : EgressStatus :=
  let restartRequired := is_suma (se_policy config) && negb quicDisabledAtStartup in
  mkStatus (se_spaceId config) (se_policy config) gw (se_temporaryDirectOverride config)
    (se_mediaBypass config) (se_checkoutBypass config) (se_detectedCheckoutHosts config)
    (se_siteBypass config)
    (is_suma (se_policy config) && negb restartRequired && is_down gw
     && negb (se_temporaryDirectOverride config))
    vpnActive restartRequired.

Definition shouldResetOverrides (previous next : GatewayState) : bool :=
  is_down previous && negb (is_down next).

Inductive PlaneState := plane_ok | plane_down | plane_bypassed.

Definition egressPlaneState (statuses : list EgressStatus) : PlaneState :=
  if existsb es_failClosed statuses then plane_down
  else if existsb (λ s, is_suma (es_policy s) && es_temporaryDirectOverride s) statuses
  then plane_bypassed else plane_ok.

Definition mayProxyThisRun (quicDisabledAtStartup : bool) : bool := quicDisabledAtStartup.

(** ** egress-service.ts *)

Definition LOCAL_PROXY_PORT : Z := 7890.
Definition CHALLENGE_STATUSES (status : Z) : bool :=
  (status =? 403) || (status =? 429) || (status =? 503).

(** What the service tells the outside. *)
Inductive EgressEvent :=
| Changed (status : EgressStatus)
| BypassSuggested (spaceId : string) (s : BypassSuggestion)
| CheckoutBypassed (spaceId host label : string)
| Reload (webContentsId : Z)
| Continue.

(** [setProxy({ proxyRules, proxyBypassRules })]. *)
Record ProxySetting := mkProxy { px_rules : string; px_bypass : string }.

Record EgressService := mkService {
  sv_gateway : GatewayState;
  sv_overrides : list string;
  sv_suggested : list (string * string);
  sv_detectedCheckout : jsmap string (list string);
  sv_checkoutRetried : list (string * string);
  sv_sessions : jsmap string (option ProxySetting);
  sv_started : bool;
  sv_quicDisabled : bool;
  sv_spaces : list (string * SpacePolicy);
  sv_stored : jsmap string (list string * bool);
  sv_trace : list EgressEvent
}.

(** [new EgressService(deps)] over the spaces and bypass lists in store. *)
Definition newEgressService (quicDisabledAtStartup : bool) (spaces : list (string * SpacePolicy))
    (stored : jsmap string (list string * bool)) : EgressService :=
  mkService gateway_down [] [] jsmap_empty [] jsmap_empty false quicDisabledAtStartup spaces stored [].

Section Setters.
Context (s : EgressService).
Definition emit (e : EgressEvent) : EgressService :=
  mkService (sv_gateway s) (sv_overrides s) (sv_suggested s) (sv_detectedCheckout s)
    (sv_checkoutRetried s) (sv_sessions s) (sv_started s) (sv_quicDisabled s) (sv_spaces s)
    (sv_stored s) (sv_trace s ++ [e]).
Definition with_overrides (o : list string) : EgressService :=
  mkService (sv_gateway s) o (sv_suggested s) (sv_detectedCheckout s) (sv_checkoutRetried s)
    (sv_sessions s) (sv_started s) (sv_quicDisabled s) (sv_spaces s) (sv_stored s) (sv_trace s).
Definition with_gateway (g : GatewayState) : EgressService :=
  mkService g (sv_overrides s) (sv_suggested s) (sv_detectedCheckout s) (sv_checkoutRetried s)
    (sv_sessions s) (sv_started s) (sv_quicDisabled s) (sv_spaces s) (sv_stored s) (sv_trace s).
Definition with_suggested (l : list (string * string)) : EgressService :=
  mkService (sv_gateway s) (sv_overrides s) l (sv_detectedCheckout s) (sv_checkoutRetried s)
    (sv_sessions s) (sv_started s) (sv_quicDisabled s) (sv_spaces s) (sv_stored s) (sv_trace s).
Definition with_retried (l : list (string * string)) : EgressService :=
  mkService (sv_gateway s) (sv_overrides s) (sv_suggested s) (sv_detectedCheckout s) l
    (sv_sessions s) (sv_started s) (sv_quicDisabled s) (sv_spaces s) (sv_stored s) (sv_trace s).
Definition with_detected (m : jsmap string (list string)) : EgressService :=
  mkService (sv_gateway s) (sv_overrides s) (sv_suggested s) m (sv_checkoutRetried s)
    (sv_sessions s) (sv_started s) (sv_quicDisabled s) (sv_spaces s) (sv_stored s) (sv_trace s).
Definition with_sessions (m : jsmap string (option ProxySetting)) : EgressService :=
  mkService (sv_gateway s) (sv_overrides s) (sv_suggested s) (sv_detectedCheckout s)
    (sv_checkoutRetried s) m (sv_started s) (sv_quicDisabled s) (sv_spaces s) (sv_stored s)
    (sv_trace s).
Definition with_spaces (l : list (string * SpacePolicy)) : EgressService :=
  mkService (sv_gateway s) (sv_overrides s) (sv_suggested s) (sv_detectedCheckout s)
    (sv_checkoutRetried s) (sv_sessions s) (sv_started s) (sv_quicDisabled s) l (sv_stored s)
    (sv_trace s).
Definition with_stored (m : jsmap string (list string * bool)) : EgressService :=
  mkService (sv_gateway s) (sv_overrides s) (sv_suggested s) (sv_detectedCheckout s)
    (sv_checkoutRetried s) (sv_sessions s) (sv_started s) (sv_quicDisabled s) (sv_spaces s) m
    (sv_trace s).
Definition with_started : EgressService :=
  mkService (sv_gateway s) (sv_overrides s) (sv_suggested s) (sv_detectedCheckout s)
    (sv_checkoutRetried s) (sv_sessions s) true (sv_quicDisabled s) (sv_spaces s) (sv_stored s)
    (sv_trace s).
End Setters.

(** A JavaScript [Set] kept as the list of its members. *)
Definition set_add {A} `{EqDecision A} (x : A) (l : list A) : list A :=
  if decide (x ∈ l) then l else l ++ [x].
Definition set_remove {A} `{EqDecision A} (x : A) (l : list A) : list A :=
  List.filter (λ y, negb (bool_decide (y = x))) l.

(** [SpaceManager.get(spaceId)?.egressPolicy] and [update]. *)
Definition space_policy (spaceId : string) (spaces : list (string * SpacePolicy)) : option SpacePolicy :=
  snd <$> List.find (λ p, String.eqb (fst p) spaceId) spaces.
Definition update_policy (spaceId : string) (policy : SpacePolicy) (spaces : list (string * SpacePolicy))
    : list (string * SpacePolicy) :=
  map (λ p, if String.eqb (fst p) spaceId then (fst p, policy) else p) spaces.

(** [WorkspaceStore.egressConfig]: the checkout flag is not kept. *)
Definition egressConfig (spaceId : string) (s : EgressService) : option StoredSpaceEgress :=
  (λ '(bypass, media), mkStored bypass media None) <$> map_get spaceId (sv_stored s).

Definition configFor (spaceId : string) (s : EgressService) : SpaceEgressConfig :=
  buildSpaceEgressConfig spaceId (default policy_direct (space_policy spaceId (sv_spaces s)))
    (egressConfig spaceId s) (bool_decide (spaceId ∈ sv_overrides s))
    (default [] (map_get spaceId (sv_detectedCheckout s))).

Definition net_of (s : EgressService) : NetworkContext := mkNet (sv_gateway s) [] false.

Definition status (spaceId : string) (s : EgressService) : EgressStatus :=
  egressStatusFor (configFor spaceId s) (sv_gateway s) false (sv_quicDisabled s).
Definition statuses (s : EgressService) : list EgressStatus :=
  map (λ p, status (fst p) s) (sv_spaces s).
Definition planeState (s : EgressService) : PlaneState := egressPlaneState (statuses s).
Definition emitChanged (spaceId : string) (s : EgressService) : EgressService :=
  emit s (Changed (status spaceId s)).

(** The proxy [applyProxy] sets for a space. *)
Definition proxy_for (spaceId : string) (s : EgressService) : ProxySetting :=
  let config := configFor spaceId s in
  if is_suma (se_policy config) && negb (mayProxyThisRun (sv_quicDisabled s))
  then mkProxy "direct://" ""
  else if is_suma (se_policy config) && se_temporaryDirectOverride config && is_down (sv_gateway s)
  then mkProxy "direct://" ""
  else
    let chromium := proxyConfigFor config LOCAL_PROXY_PORT (net_of s) in
    mkProxy (pc_proxyRules chromium) (pc_proxyBypassRules chromium).

Definition applyProxy (spaceId : string) (s : EgressService) : EgressService :=
  match map_get spaceId (sv_sessions s) with
  | None => s
  | Some _ => with_sessions s (map_set spaceId (Some (proxy_for spaceId s)) (sv_sessions s))
  end.

Definition reapplyAll (emitAll : bool) (s : EgressService) : EgressService :=
  let s := fold_left (λ s spaceId, applyProxy spaceId s) (map_keys (sv_sessions s)) s in
  if emitAll then fold_left (λ s st, emit s (Changed st)) (statuses s) s else s.

Definition attachTo (spaceId : string) (s : EgressService) : EgressService :=
  applyProxy spaceId (with_sessions s (map_set spaceId None (sv_sessions s))).

(** The listener [start] registers on the space manager. *)
Definition notify_spaces (s : EgressService) : EgressService :=
  if sv_started s then reapplyAll false s else s.

(** [None]: [SpaceManager.update] throws on an unknown space. *)
Definition setPolicy (spaceId : string) (policy : SpacePolicy) (s : EgressService)
    : option EgressService :=
  match space_policy spaceId (sv_spaces s) with
  | None => None
  | Some _ =>
      let s := notify_spaces (with_spaces s (update_policy spaceId policy (sv_spaces s))) in
      let s := if decide (policy = policy_direct)
               then with_overrides s (set_remove spaceId (sv_overrides s)) else s in
      Some (emitChanged spaceId (applyProxy spaceId s))
  end.

Definition browseDirectForNow (spaceId : string) (s : EgressService) : EgressService :=
  emitChanged spaceId (applyProxy spaceId (with_overrides s (set_add spaceId (sv_overrides s)))).

Definition setSiteBypass (spaceId host : string) (bypass : bool) (s : EgressService) : EgressService :=
  let normalized := normalizedHost host in
  let '(siteBypass, media) := default ([], true) (map_get spaceId (sv_stored s)) in
  let siteBypass := List.filter (λ h, negb (String.eqb h normalized)) siteBypass in
  let siteBypass := if bypass then siteBypass ++ [normalized] else siteBypass in
  let s := with_stored s (map_set spaceId (siteBypass, media) (sv_stored s)) in
  emitChanged spaceId (applyProxy spaceId s).

Section Requests.
Context `{UrlParser}.

Definition checkoutHostToBypass (spaceId url : string) (s : EgressService)
    : option HostedCheckoutMatch :=
  match matchHostedCheckout url with
  | None => None
  | Some m =>
      if negb (mayProxyThisRun (sv_quicDisabled s)) then None
      else
        let config := configFor spaceId s in
        if negb (is_suma (se_policy config)) || negb (se_checkoutBypass config) then None
        else if decide (ed_route (decideEgress (hm_host m) config (net_of s)) = direct) then None
        else Some m
  end.

(** The callback runs on every path. *)
Definition onBeforeRequest (spaceId url : string) (s : EgressService) : EgressService :=
  match checkoutHostToBypass spaceId url s with
  | None => emit s Continue
  | Some m =>
      let detected := default [] (map_get spaceId (sv_detectedCheckout s)) in
      let s := with_detected s (map_set spaceId (set_add (hm_host m) detected) (sv_detectedCheckout s)) in
      let s := emitChanged spaceId (applyProxy spaceId s) in
      emit (emit s (CheckoutBypassed spaceId (hm_host m) (hm_label m))) Continue
  end.

(** The reload is the flag of the result. *)
Definition retryForbiddenCheckout (spaceId url : string) (webContentsId : option Z)
    (s : EgressService) : EgressService * bool :=
  match matchHostedCheckout url, webContentsId with
  | Some m, Some wc =>
      if negb (mayProxyThisRun (sv_quicDisabled s)) then (s, false)
      else
        let config := configFor spaceId s in
        if negb (is_suma (se_policy config)) || negb (se_checkoutBypass config) then (s, false)
        else if decide ((spaceId, hm_host m) ∈ sv_checkoutRetried s) then (s, false)
        else (emit (with_retried s (sv_checkoutRetried s ++ [(spaceId, hm_host m)])) (Reload wc), true)
  | _, _ => (s, false)
  end.

Definition onRequestCompleted (spaceId url : string) (mainFrame : bool) (statusCode : Z)
    (webContentsId : option Z) (s : EgressService) : EgressService :=
  if negb mainFrame then s
  else if negb (CHALLENGE_STATUSES statusCode) then s
  else
    match parse_url url with
    | None => s
    | Some u =>
        let '(s, retried) := retryForbiddenCheckout spaceId url webContentsId s in
        if (retried : bool) then s
        else
          match suggestBypassOnChallenge (url_hostname u) statusCode (configFor spaceId s) with
          | None => s
          | Some suggestion =>
              if decide ((spaceId, bs_host suggestion) ∈ sv_suggested s) then s
              else emit (with_suggested s (sv_suggested s ++ [(spaceId, bs_host suggestion)]))
                     (BypassSuggested spaceId suggestion)
          end
    end.
End Requests.

(** One health probe, with its outcome. *)
Definition probe (next : GatewayState) (s : EgressService) : EgressService :=
  if Bool.eqb (is_down next) (is_down (sv_gateway s)) then s
  else
    let s := if shouldResetOverrides (sv_gateway s) next then with_overrides s [] else s in
    reapplyAll true (with_gateway s next).

Definition start (s : EgressService) : EgressService := with_started s.

(** ** The service as a transition system *)

Section Steps.
Context `{UrlParser}.

(** Spaces change under the service only once it listens. *)
Inductive egress_step : EgressService → EgressService → Prop :=
| step_attach spaceId s : egress_step s (attachTo spaceId s)
| step_start s : egress_step s (start s)
| step_setPolicy spaceId policy s s' :
    setPolicy spaceId policy s = Some s' → egress_step s s'
| step_browseDirect spaceId s : egress_step s (browseDirectForNow spaceId s)
| step_siteBypass spaceId host b s : egress_step s (setSiteBypass spaceId host b s)
| step_spaces spaces s :
    sv_started s = true → egress_step s (notify_spaces (with_spaces s spaces))
| step_before spaceId url s : egress_step s (onBeforeRequest spaceId url s)
| step_completed spaceId url main code wc s :
    egress_step s (onRequestCompleted spaceId url main code wc s)
| step_probe next s : egress_step s (probe next s).
End Steps.

(** ** Lemmas *)

(** The session of a space, when attached, has the proxy its configuration
    asks for. *)
Definition applied (s : EgressService) (spaceId : string) : Prop :=
  ∀ p, map_get spaceId (sv_sessions s) = Some p → p = Some (proxy_for spaceId s).

(** The bypasses suggested so far, from the trace. *)
Definition suggestions (s : EgressService) : list (string * string) :=
  omap (λ e, match e with BypassSuggested id sg => Some (id, bs_host sg) | _ => None end) (sv_trace s).
Definition reloads (s : EgressService) : list Z :=
  omap (λ e, match e with Reload wc => Some wc | _ => None end) (sv_trace s).

Record service_ok (s : EgressService) : Prop := {
  so_applied : ∀ spaceId, applied s spaceId;
  so_suggested : suggestions s = sv_suggested s ∧ NoDup (sv_suggested s);
  so_retried : length (reloads s) = length (sv_checkoutRetried s) ∧ NoDup (sv_checkoutRetried s)
}.

(** What a space's proxy depends on. *)
Definition same_inputs (spaceId : string) (s s' : EgressService) : Prop :=
  configFor spaceId s' = configFor spaceId s ∧ sv_gateway s' = sv_gateway s
  ∧ sv_quicDisabled s' = sv_quicDisabled s.

Lemma same_inputs_proxy spaceId s s' :
  same_inputs spaceId s s' → proxy_for spaceId s' = proxy_for spaceId s.
Proof. intros (Hc & Hg & Hq). unfold proxy_for, net_of. by rewrite Hc, Hg, Hq. Qed.

Lemma applied_frame spaceId s s' :
  applied s spaceId → same_inputs spaceId s s' →
  map_get spaceId (sv_sessions s') = map_get spaceId (sv_sessions s) → applied s' spaceId.
Proof. intros Ha Hs Hm p. rewrite Hm, (same_inputs_proxy _ _ _ Hs). apply Ha. Qed.

Ltac unfold_inputs := unfold same_inputs, configFor, egressConfig;
  cbn [sv_gateway sv_overrides sv_detectedCheckout sv_quicDisabled sv_spaces sv_stored
       with_overrides with_gateway with_detected with_sessions with_spaces with_stored].

Lemma applyProxy_inputs id s id' : same_inputs id' s (applyProxy id s).
Proof. unfold applyProxy. by case_match. Qed.

(** Everything but the sessions is left alone. *)
Lemma applyProxy_fields id s :
  sv_trace (applyProxy id s) = sv_trace s ∧ sv_suggested (applyProxy id s) = sv_suggested s
  ∧ sv_checkoutRetried (applyProxy id s) = sv_checkoutRetried s
  ∧ sv_overrides (applyProxy id s) = sv_overrides s.
Proof. unfold applyProxy. by case_match. Qed.

Lemma applyProxy_get id s id' :
  map_get id' (sv_sessions (applyProxy id s))
  = if decide (id = id') then (λ _, Some (proxy_for id s)) <$> map_get id' (sv_sessions s)
    else map_get id' (sv_sessions s).
Proof.
  unfold applyProxy. destruct (map_get id (sv_sessions s)) eqn:E; simpl.
  - rewrite map_get_set. case_decide; [subst; by rewrite E|done].
  - case_decide; [subst; by rewrite E|done].
Qed.

Lemma applyProxy_self id s : applied (applyProxy id s) id.
Proof.
  intros p. rewrite (same_inputs_proxy id s) by apply applyProxy_inputs.
  rewrite applyProxy_get, decide_True by done. destruct (map_get id _); [|done]. by intros [= <-].
Qed.

Lemma applyProxy_other id s id' : applied s id' → applied (applyProxy id s) id'.
Proof.
  intros Ha. destruct (decide (id = id')) as [->|Hne]; [apply applyProxy_self|].
  eapply applied_frame; [done|apply applyProxy_inputs|]. by rewrite applyProxy_get, decide_False.
Qed.

Lemma applyProxy_keys id s id' :
  is_Some (map_get id' (sv_sessions (applyProxy id s))) ↔ is_Some (map_get id' (sv_sessions s)).
Proof. rewrite applyProxy_get. case_decide; [|done]. by rewrite fmap_is_Some. Qed.

Lemma apply_all_spec ids s id :
  (applied s id ∨ id ∈ ids) →
  applied (fold_left (λ s id, applyProxy id s) ids s) id.
Proof.
  revert s. induction ids as [|x ids IH]; intros s Hid; simpl; [destruct Hid; [done|set_solver]|].
  apply IH. destruct Hid as [Ha|[->|Hin]%elem_of_cons]; [left|left|by right].
  - by apply applyProxy_other.
  - apply applyProxy_self.
Qed.

Lemma apply_all_fields ids s :
  let s' := fold_left (λ s id, applyProxy id s) ids s in
  sv_trace s' = sv_trace s ∧ sv_suggested s' = sv_suggested s
  ∧ sv_checkoutRetried s' = sv_checkoutRetried s ∧ sv_overrides s' = sv_overrides s
  ∧ ∀ id, same_inputs id s s' ∧
      (is_Some (map_get id (sv_sessions s')) ↔ is_Some (map_get id (sv_sessions s))).
Proof.
  revert s. induction ids as [|x ids IH]; intros s; simpl; [done|].
  destruct (IH (applyProxy x s)) as (-> & -> & -> & -> & Hids).
  destruct (applyProxy_fields x s) as (-> & -> & -> & ->).
  do 4 (split; [done|]). intros id. destruct (Hids id) as [(Hc & Hg & Hq) Hk].
  destruct (applyProxy_inputs x s id) as (Hc' & Hg' & Hq').
  split; [split; [congruence|split; congruence]|]. by rewrite Hk, applyProxy_keys.
Qed.

Lemma apply_sessions_applied s id :
  applied (fold_left (λ s id, applyProxy id s) (map_keys (sv_sessions s)) s) id.
Proof.
  destruct (map_get id (sv_sessions s)) eqn:E.
  - apply apply_all_spec. right. apply map_get_keys. by rewrite E.
  - apply apply_all_spec. left. intros p. by rewrite E.
Qed.

(** Events change nothing but the trace. *)
Lemma emits_spec l s :
  let s' := fold_left (λ s st, emit s (Changed st)) l s in
  (∀ id, applied s id → applied s' id) ∧ suggestions s' = suggestions s
  ∧ reloads s' = reloads s ∧ sv_suggested s' = sv_suggested s
  ∧ sv_checkoutRetried s' = sv_checkoutRetried s ∧ sv_overrides s' = sv_overrides s.
Proof.
  revert s. induction l as [|st l IH]; intros s; simpl; [done|].
  destruct (IH (emit s (Changed st))) as (Ha & -> & -> & -> & -> & ->).
  split; [intros id Hid; by apply Ha|]. unfold suggestions, reloads. simpl.
  rewrite !omap_app. simpl. by rewrite !app_nil_r.
Qed.

Lemma reapplyAll_spec b s :
  let s' := reapplyAll b s in
  (∀ id, applied s' id) ∧ suggestions s' = suggestions s ∧ reloads s' = reloads s
  ∧ sv_suggested s' = sv_suggested s ∧ sv_checkoutRetried s' = sv_checkoutRetried s
  ∧ sv_overrides s' = sv_overrides s.
Proof.
  unfold reapplyAll. set (s1 := fold_left _ _ s).
  assert ((∀ id, applied s1 id) ∧ suggestions s1 = suggestions s ∧ reloads s1 = reloads s
    ∧ sv_suggested s1 = sv_suggested s ∧ sv_checkoutRetried s1 = sv_checkoutRetried s
    ∧ sv_overrides s1 = sv_overrides s) as (H1 & H2 & H3 & H4 & H5 & H6).
  { split; [intros id; apply apply_sessions_applied|]. unfold suggestions, reloads.
    destruct (apply_all_fields (map_keys (sv_sessions s)) s) as (Ht & Hs & Hr & Ho & _).
    fold s1 in Ht, Hs, Hr, Ho. by rewrite Ht, Hs, Hr, Ho. }
  destruct b; [|done]. destruct (emits_spec (statuses s1) s1) as (H1' & H2' & H3' & H4' & H5' & H6').
  split; [intros id; by apply H1'|]. split; [congruence|]. split; [congruence|].
  split; [congruence|]. split; congruence.
Qed.

Lemma set_add_other {A} `{EqDecision A} (x y : A) l : y ≠ x → y ∈ set_add x l ↔ y ∈ l.
Proof. intros Hne. unfold set_add. case_decide; [done|]. rewrite elem_of_snoc. naive_solver. Qed.

Lemma set_remove_other {A} `{EqDecision A} (x y : A) l : y ≠ x → y ∈ set_remove x l ↔ y ∈ l.
Proof.
  intros Hne. unfold set_remove. rewrite In_filter_iff, bool_decide_false by done. naive_solver.
Qed.

Lemma space_policy_update id policy spaces id' :
  id' ≠ id → space_policy id' (update_policy id policy spaces) = space_policy id' spaces.
Proof.
  intros Hne. unfold space_policy, update_policy. induction spaces as [|[i p] spaces IH]; [done|].
  cbn [map List.find fst]. destruct (String.eqb_spec i id) as [->|Hi]; cbn [fst].
  - destruct (String.eqb_spec id id'); [congruence|]. apply IH.
  - destruct (String.eqb i id'); [done|]. apply IH.
Qed.

Lemma overrides_inputs s o id' :
  (id' ∈ o ↔ id' ∈ sv_overrides s) → same_inputs id' s (with_overrides s o).
Proof.
  intros Ho. unfold same_inputs, configFor, egressConfig. cbn. split; [|done].
  f_equal. by apply bool_decide_ext.
Qed.

(** The bookkeeping of [s'] is that of [s]. *)
Definition same_books (s s' : EgressService) : Prop :=
  sv_trace s' = sv_trace s ∧ sv_suggested s' = sv_suggested s
  ∧ sv_checkoutRetried s' = sv_checkoutRetried s.

Lemma service_ok_intro s s' :
  service_ok s → suggestions s' = suggestions s → reloads s' = reloads s →
  sv_suggested s' = sv_suggested s → sv_checkoutRetried s' = sv_checkoutRetried s →
  (∀ id, applied s' id) → service_ok s'.
Proof.
  intros [Ha Hs Hr] Es Er Hsug Hret Ha'. split; [done|by rewrite Es, Hsug|by rewrite Er, Hret].
Qed.

(** A change of one space's configuration, then [applyProxy] on it. *)
Lemma service_ok_apply id s s' :
  service_ok s → same_books s s' → (∀ id', id' ≠ id → applied s' id') → service_ok (applyProxy id s').
Proof.
  intros Hok (Ht & Hs & Hr) Ha. destruct (applyProxy_fields id s') as (Ht' & Hs' & Hr' & _).
  eapply service_ok_intro; [exact Hok|..]; unfold suggestions, reloads; try congruence.
  intros id'. destruct (decide (id' = id)) as [->|Hne]; [apply applyProxy_self|].
  by apply applyProxy_other, Ha.
Qed.

Lemma service_ok_reapply b s s' : service_ok s → same_books s s' → service_ok (reapplyAll b s').
Proof.
  intros Hok (Ht & Hs & Hr). destruct (reapplyAll_spec b s') as (Ha & H2 & H3 & H4 & H5 & _).
  eapply service_ok_intro; [exact Hok|..|exact Ha]; try congruence; unfold suggestions, reloads in *; congruence.
Qed.

Lemma service_ok_emit e s :
  match e with BypassSuggested _ _ | Reload _ => False | _ => True end →
  service_ok s → service_ok (emit s e).
Proof.
  intros He [Ha Hs Hr]. split; [exact Ha| |]; unfold suggestions, reloads in *; cbn;
    rewrite omap_app; destruct e; try done; cbn; by rewrite app_nil_r.
Qed.

Lemma applied_inputs s s' id :
  applied s id → same_inputs id s s' → sv_sessions s' = sv_sessions s → applied s' id.
Proof. intros Ha Hi Hs. eapply applied_frame; [done|done|by rewrite Hs]. Qed.

Lemma setPolicy_ok id policy s s' :
  service_ok s → setPolicy id policy s = Some s' → service_ok s'.
Proof.
  intros Hok. unfold setPolicy. destruct (space_policy id (sv_spaces s)); [|done]. intros [= <-].
  apply service_ok_emit; [done|].
  set (s1 := notify_spaces _).
  assert (same_books s s1 ∧ ∀ id', id' ≠ id → applied s1 id') as [Hb Ha].
  { unfold s1, notify_spaces. cbn [sv_started with_spaces]. destruct (sv_started s).
    - destruct (apply_all_fields (map_keys (sv_sessions s))
        (with_spaces s (update_policy id policy (sv_spaces s)))) as (Ht & Hs & Hr & _).
      split; [split; [exact Ht|split; [exact Hs|exact Hr]]|].
      intros id' _. apply (reapplyAll_spec false).
    - split; [done|]. intros id' Hne. eapply applied_inputs; [apply Hok| |done].
      unfold_inputs. by rewrite space_policy_update. }
  case_decide; [|by eapply service_ok_apply].
  eapply service_ok_apply; [exact Hok|exact Hb|]. intros id' Hne.
  eapply applied_inputs; [by apply Ha| |done]. apply overrides_inputs. by apply set_remove_other.
Qed.

Section Reachable.
Context `{UrlParser}.

Lemma onBeforeRequest_ok id url s : service_ok s → service_ok (onBeforeRequest id url s).
Proof.
  intros Hok. unfold onBeforeRequest. destruct (checkoutHostToBypass _ _ _) as [m|];
    [|by apply service_ok_emit].
  do 3 (apply service_ok_emit; [done|]). eapply service_ok_apply; [exact Hok|done|].
  intros id' Hne. eapply applied_inputs; [apply Hok| |done].
  unfold_inputs. by rewrite map_get_set_ne.
Qed.

Lemma onRequestCompleted_ok id url main code wc s :
  service_ok s → service_ok (onRequestCompleted id url main code wc s).
Proof.
  intros Hok. unfold onRequestCompleted. do 2 (case_match; [done|]).
  destruct (parse_url url) as [u|]; [|done].
  assert (service_ok (retryForbiddenCheckout id url wc s).1) as Hr.
  { unfold retryForbiddenCheckout. destruct (matchHostedCheckout url) as [m|]; [|done].
    destruct wc as [wc|]; [|done]. do 2 (case_match; [done|]). case_decide as Hin; [done|].
    destruct Hok as [Ha Hs [Hl Hnd]]. split; [exact Ha| |]; unfold suggestions, reloads in *; cbn;
      rewrite omap_app; cbn; [by rewrite app_nil_r|]. rewrite !length_app. cbn. split; [lia|].
    apply NoDup_app. split; [done|]. split; [set_solver|apply NoDup_singleton]. }
  destruct (retryForbiddenCheckout id url wc s) as [s1 r]. cbn [fst] in Hr. destruct r; [done|].
  destruct (suggestBypassOnChallenge _ _ _) as [sg|]; [|done]. case_decide as Hin; [done|].
  destruct Hr as [Ha [Hs Hnd] Hl]. split; [exact Ha| |]; unfold suggestions, reloads in *; cbn;
    rewrite omap_app; cbn; [|by rewrite app_nil_r]. rewrite Hs. split; [done|].
  apply NoDup_app. split; [done|]. split; [set_solver|apply NoDup_singleton].
Qed.

Lemma egress_step_ok s s' : service_ok s → egress_step s s' → service_ok s'.
Proof.
  intros Hok. destruct 1 as [id s|s|id policy s s' Hs|id s|id host b s|spaces s Hst|id url s
    |id url main code wc s|next s].
  - eapply service_ok_apply; [exact Hok|done|]. intros id' Hne p. cbn.
    rewrite map_get_set_ne by done. apply Hok.
  - destruct Hok as [Ha Hs Hr]. by split.
  - by eapply setPolicy_ok.
  - apply service_ok_emit; [done|]. eapply service_ok_apply; [exact Hok|done|]. intros id' Hne.
    eapply applied_inputs; [apply Hok| |done]. apply overrides_inputs. by apply set_add_other.
  - unfold setSiteBypass. destruct (default _ _) as [bypass media].
    apply service_ok_emit; [done|]. eapply service_ok_apply; [exact Hok|done|]. intros id' Hne.
    eapply applied_inputs; [apply Hok| |done].
    unfold_inputs. by rewrite map_get_set_ne.
  - unfold notify_spaces. cbn [sv_started with_spaces]. rewrite Hst.
    by eapply service_ok_reapply.
  - by apply onBeforeRequest_ok.
  - by apply onRequestCompleted_ok.
  - unfold probe. case_match; [done|]. eapply service_ok_reapply; [exact Hok|].
    by destruct (shouldResetOverrides _ _).
Qed.

Lemma reachable_service_ok quic spaces stored s :
  rtc egress_step (newEgressService quic spaces stored) s → service_ok s.
Proof.
  intros Hsteps.
  assert (service_ok (newEgressService quic spaces stored)) as H0
    by (split; [done|split; [done|constructor]|split; [done|constructor]]).
  revert H0. induction Hsteps as [s|s s1 s2 Hs _ IH]; [done|]. intros H0. apply IH.
  by eapply egress_step_ok.
Qed.
End Reachable.

(** ** Properties *)

Definition local_proxy : string := "https=127.0.0.1:7890;http=127.0.0.1:7890".

Definition policy_of (spaceId : string) (s : EgressService) : SpacePolicy :=
  default policy_direct (space_policy spaceId (sv_spaces s)).

(** Tunnelled: on the identity IP with QUIC off, and not browsing direct for
    the time of an outage. *)
Definition tunnelled (spaceId : string) (s : EgressService) : Prop :=
  policy_of spaceId s = suma_ip ∧ sv_quicDisabled s = true
  ∧ (sv_gateway s = gateway_up ∨ spaceId ∉ sv_overrides s).

Lemma proxy_for_rules id s :
  (tunnelled id s ∧ px_rules (proxy_for id s) = local_proxy)
  ∨ (~ tunnelled id s ∧ px_rules (proxy_for id s) = "direct://").
Proof.
  unfold proxy_for, tunnelled, mayProxyThisRun, is_suma, proxyConfigFor.
  change (se_policy (configFor id s)) with (policy_of id s).
  change (se_temporaryDirectOverride (configFor id s)) with (bool_decide (id ∈ sv_overrides s)).
  destruct (policy_of id s); simpl; [|by right; split; [intros [? _]|]].
  destruct (sv_quicDisabled s); simpl; [|by right; split; [intros (_ & ? & _)|]].
  destruct (sv_gateway s); simpl; [rewrite andb_false_r; left; auto|rewrite andb_true_r].
  destruct (bool_decide _) eqn:E; bprop; [right|left]; (split; [|done]); naive_solver.
Qed.

Lemma direct_or_tunnelled id s host :
  sv_quicDisabled s = true →
  ed_route (decideEgress host (configFor id s) (net_of s)) ≠ direct → tunnelled id s.
Proof.
  intros Hq. rewrite decideEgress_route. destruct (exempt_b _ _ _) eqn:E; [done|].
  assert (policy_of id s = suma_ip) as Hp.
  { destruct (policy_of id s) eqn:Hp; [done|]. exfalso. apply not_true_iff_false in E. apply E.
    apply exempt_b_spec. do 3 right. left. exact Hp. }
  unfold net_of. cbn [nc_gateway]. intros Hr. split; [done|]. split; [done|].
  destruct (sv_gateway s); [by left|right]. intros Hin. apply Hr.
  change (se_temporaryDirectOverride (configFor id s)) with (bool_decide (id ∈ sv_overrides s)).
  by rewrite bool_decide_true.
Qed.

(** The session sends [host] direct: it has no proxy, or its bypass list
    covers the host.  (What Chromium bypasses without being told is loopback
    and link-local, which the policy sends direct as well.) *)
Definition goes_direct `{!ProxyBypass} (px : ProxySetting) (host : string) : bool :=
  String.eqb (px_rules px) "direct://" || existsb (λ e, bypass_covers e host) (bypass_list (px_bypass px)).

(** The hosts the user or a checkout put on the list of a space are names. *)
Definition names_only (id : string) (s : EgressService) : Prop :=
  Forall (λ h, plain_host h = true)
    (se_siteBypass (configFor id s) ++ se_detectedCheckoutHosts (configFor id s)).

Lemma tunnelled_setting id s : tunnelled id s →
  proxy_for id s = mkProxy local_proxy (str_join ";" (bypassEntries (configFor id s) (net_of s))).
Proof.
  intros (Hp & Hq & Ho). unfold proxy_for, mayProxyThisRun, is_suma, proxyConfigFor.
  change (se_policy (configFor id s)) with (policy_of id s). rewrite Hp, Hq. simpl.
  change (se_temporaryDirectOverride (configFor id s)) with (bool_decide (id ∈ sv_overrides s)).
  destruct Ho as [-> |Ho]; [by rewrite andb_false_r|by rewrite bool_decide_false].
Qed.

Lemma stays_behind_proxy `{!ProxyBypass, !ProxyBypassLaws} id s host :
  names_only id s → mapped_ipv4 host = false → sv_quicDisabled s = true →
  ed_route (decideEgress host (configFor id s) (net_of s)) ≠ direct → goes_direct (proxy_for id s) host = false.
Proof.
  intros Hn Hm Hq Hr. rewrite tunnelled_setting by by eapply direct_or_tunnelled. unfold goes_direct. cbn [px_rules px_bypass].
  rewrite decideEgress_route in Hr. destruct (exempt_b _ _ _) eqn:E; [done|].
  change (existsb (λ e, bypass_covers e host) (bypass_list (str_join ";" (bypassEntries (configFor id s) (net_of s)))) = false).
  apply not_true_iff_false. rewrite existsb_exists. intros (e & He%list_elem_of_In & Hc).
  apply not_true_iff_false in E. apply E, exempt_b_spec. by eapply bypassed_is_exempt.
Qed.

(** C13: in every state the service reaches, each attached session runs behind
    the local CONNECT proxy exactly while its space is on the identity IP, QUIC
    was disabled at startup and the user is not browsing direct for an outage,
    and goes direct otherwise.  With QUIC disabled, every host the policy
    tunnels or blocks is behind that proxy, which refuses connections while
    the gateway is down: no entry of the bypass list set on the session covers
    it, as Chromium documents the entries, provided the hosts on the space's
    own lists are plain host names (the site bypass accepts any text:
    [any_text_is_bypassed]) and the host is not an IPv4-mapped IPv6 literal.
    The status shown says "failing closed" exactly then.  A bypass is
    suggested at most once per space and host, a forbidden checkout is
    reloaded at most once per space and host, and a gateway that comes back
    ends every override. *)
Theorem egress_service_enforces `{UrlParser, !ProxyBypass, !ProxyBypassLaws} quic spaces stored s :
  rtc egress_step (newEgressService quic spaces stored) s →
  (∀ id p, map_get id (sv_sessions s) = Some p → ∃ px, p = Some px
     ∧ (px_rules px = local_proxy ∨ px_rules px = "direct://")
     ∧ (px_rules px = local_proxy ↔ tunnelled id s)
     ∧ (es_failClosed (status id s) = true ↔
          px_rules px = local_proxy ∧ sv_gateway s = gateway_down)
     ∧ ∀ host, sv_quicDisabled s = true →
         ed_route (decideEgress host (configFor id s) (net_of s)) ≠ direct →
         px_rules px = local_proxy
         ∧ (names_only id s → mapped_ipv4 host = false → goes_direct px host = false))
  ∧ NoDup (suggestions s)
  ∧ NoDup (sv_checkoutRetried s) ∧ length (reloads s) = length (sv_checkoutRetried s)
  ∧ (sv_gateway s = gateway_down → sv_overrides (probe gateway_up s) = []).
Proof.
  intros Hsteps. apply reachable_service_ok in Hsteps as [Ha [Hs Hnd] [Hr Hnr]].
  split; [|split; [by rewrite Hs|split; [done|split; [done|]]]].
  - intros id p Hp. apply Ha in Hp as ->. eexists. split; [done|].
    assert (es_failClosed (status id s) = true ↔ tunnelled id s ∧ sv_gateway s = gateway_down) as Hf.
    { unfold tunnelled, status, egressStatusFor. cbn [es_failClosed].
      change (se_policy (configFor id s)) with (policy_of id s).
      change (se_temporaryDirectOverride (configFor id s)) with (bool_decide (id ∈ sv_overrides s)).
      unfold is_suma. destruct (policy_of id s), (sv_quicDisabled s), (sv_gateway s); simpl;
        try naive_solver. destruct (bool_decide _) eqn:E; bprop; naive_solver. }
    rewrite Hf. destruct (proxy_for_rules id s) as [[Ht Hx]|[Ht Hx]]; rewrite Hx.
    + split; [by left|]. split; [done|]. split; [naive_solver|].
      intros host Hq Hd. split; [done|]. intros Hn Hm. by apply stays_behind_proxy.
    + split; [by right|]. split; [by split|]. split; [naive_solver|].
      intros host Hq Hd. exfalso. by eapply Ht, direct_or_tunnelled.
  - intros Hg. unfold probe. rewrite Hg. cbn [is_down Bool.eqb shouldResetOverrides andb negb].
    destruct (reapplyAll_spec true (with_gateway (with_overrides s []) gateway_up))
      as (_ & _ & _ & _ & _ & Ho). exact Ho.
Qed.

(** A matching of the entries that does what the laws say. *)
Module BypassDemo.
#[export] Instance matching : ProxyBypass := λ e host,
  if plain_host e then String.eqb (toLowerCase host) (toLowerCase e)
  else if startsWith e "*." then endsWith (toLowerCase host) ("." +:+ toLowerCase (slice_from 2 e))
  else isLoopbackHost host || isPrivateHost host.

#[export] Instance matching_laws : ProxyBypassLaws.
Proof.
  split; unfold bypass_covers, matching.
  - intros h host ->. by apply String.eqb_eq.
  - intros h host Hh. by replace (plain_host ("*." +:+ h)) with false by reflexivity.
  - intros e host He. assert (plain_host e = false ∧ startsWith e "*." = false ∨ e = "localhost") as [[-> ->]| ->].
    { vm_compute in He. repeat (apply elem_of_cons in He as [->|He]; [vm_compute; auto|]). by apply not_elem_of_nil in He. }
    + intros [?|?]%orb_true_iff; auto.
    + intros Hl%String.eqb_eq. left. unfold isLoopbackHost. by rewrite Hl.
Qed.
End BypassDemo.
Import BypassDemo.

(** A space on the identity IP fails closed before the gateway is up, and a
    host beside its bypassed site stays behind the proxy. *)
Lemma egress_service_enforces_witness :
  let s := setSiteBypass "work" "bank.example" true (attachTo "work" (newEgressService true [("work", suma_ip)] [])) in
  ∃ px, map_get "work" (sv_sessions s) = Some (Some px) ∧ px_rules px = local_proxy
    ∧ goes_direct px "shop.example" = false ∧ goes_direct px "bank.example" = true.
Proof.
  pose (parser := (λ _, None) : UrlParser). intros s.
  pose (s0 := newEgressService true [("work", suma_ip)] []).
  destruct (egress_service_enforces true [("work", suma_ip)] [] s
    (rtc_l _ _ _ _ (step_attach "work" s0)
      (rtc_once _ _ (step_siteBypass "work" "bank.example" true (attachTo "work" s0))))) as [H _].
  destruct (map_get "work" (sv_sessions s)) as [p|] eqn:E; [|vm_compute in E; discriminate].
  destruct (H "work" p E) as (px & Hpx & _ & _ & _ & Hh). exists px. subst p. split; [reflexivity|].
  destruct (Hh "shop.example") as [Hl Hd]; [reflexivity|vm_compute; discriminate|].
  split; [exact Hl|]. split; [apply Hd; [repeat constructor|reflexivity]|].
  vm_compute in E. injection E as <-. vm_compute. reflexivity.
Defined.

(** Nothing restricts what a site bypass may be: [*] is an entry of the list,
    which Chromium documents to cover every host, while the policy still
    tunnels them. *)
Example any_text_is_bypassed :
  let s := setSiteBypass "work" "*" true
    (probe gateway_up (attachTo "work" (newEgressService true [("work", suma_ip)] []))) in
  match map_get "work" (sv_sessions s) with
  | Some (Some px) => "*" ∈ bypass_list (px_bypass px)
  | _ => False
  end ∧ ed_route (decideEgress "shop.example" (configFor "work" s) (net_of s)) = gateway.
Proof. split; [apply list_elem_of_In; vm_compute; tauto|vm_compute; reflexivity]. Qed.

(** An override taken while the gateway is up is not reset by the next outage:
    the space then browses direct. *)
Example override_survives_outage :
  let s := browseDirectForNow "work"
    (probe gateway_up (attachTo "work" (newEgressService true [("work", suma_ip)] []))) in
  px_rules (proxy_for "work" s) = local_proxy
  ∧ px_rules (proxy_for "work" (probe gateway_down s)) = "direct://".
Proof. vm_compute. split; reflexivity. Qed.
