(* ===== verification/CloudFetch.v ===== *)
(** * Files contract (packages/protocol/src/files.ts)

    Which downloads may be handed to the cloud fetcher, the storage quota, the
    capability each file request needs, and the normalisation of file paths. *)

From S2P Require Export Hosts.
From Stdlib Require Import Ascii.

(** ** Cloud-fetch eligibility *)

Definition CLOUD_FETCH_MIN_BYTES : Z := 50 * 1024 * 1024.

Inductive CloudFetchRefusal :=
| not_http | credentialed_request | userinfo_in_url | private_host | too_small | policy_local_only.

Inductive EligibleReason := public_url | presigned_url.

Inductive CloudFetchVerdict :=
| Eligible (reason : EligibleReason)
| Refused (reason : CloudFetchRefusal) (explanation : string).

Record DownloadContext := mkDownload {
  dc_url : string;
  dc_totalBytes : option Z;
  dc_hasCookies : bool;
  dc_hasAuthHeader : bool;
  dc_usesClientCert : bool;
  dc_alwaysLocal : bool
}.

Definition PRESIGNED_MARKERS : list string :=
  ["x-amz-signature"; "x-amz-credential"; "x-goog-signature"; "x-goog-credential"; "se"; "sp"].

Definition includes (x : string) (l : list string) : bool := existsb (String.eqb x) l.

(** [params.has(k)] on the parameters with lower-cased names. *)
Definition isAzureSas (keys : list string) : bool :=
  includes "sig" keys && includes "sv" keys && (includes "se" keys || includes "sp" keys).

Definition lower_keys (u : URL) : list string := map (λ kv, toLowerCase (fst kv)) (url_searchParams u).

Definition isPresigned (u : URL) : bool :=
  let keys := lower_keys u in
  isAzureSas keys || existsb (λ k, includes k PRESIGNED_MARKERS) keys.

Definition BEARER_QUERY_KEYS : list string :=
  ["access_token"; "accesstoken"; "auth"; "auth_token"; "authtoken"; "api_key"; "apikey"; "bearer";
   "id_token"; "jwt"; "key"; "password"; "private_token"; "refresh_token"; "secret"; "session";
   "session_id"; "sessionid"; "token"].

Definition hasBearerQueryCredential (u : URL) : bool :=
  existsb (λ k, includes k BEARER_QUERY_KEYS) (lower_keys u).

Definition isPrivateV4 (a b : Z) : bool :=
  (a =? 0) || (a =? 127) || (a =? 10) || (a =? 192) && (b =? 168)
  || (a =? 172) && (b >=? 16) && (b <=? 31) || (a =? 169) && (b =? 254)
  || (a =? 100) && (b >=? 64) && (b <=? 127).

(** [[0-9a-f]{1,4}]. *)
Definition is_hextet (s : string) : bool :=
  all_of is_hex_lower s && (1 <=? String.length s)%nat && (String.length s <=? 4)%nat.

Definition hextet_pair (s : string) : option (string * string) :=
  match split_char ":" s with
  | [a; b] => if is_hextet a && is_hextet b then Some (a, b) else None
  | _ => None
  end.

(** The text after [^::(?:ffff:)?], the longer reading first. *)
Definition mapped_tails (h : string) : list string :=
  if startsWith h "::" then
    let rest := slice_from 2 h in
    (if startsWith rest "ffff:" then [slice_from 5 rest] else []) ++ [rest]
  else [].

Fixpoint first_some {A B} (f : A → option B) (l : list A) : option B :=
  match l with
  | [] => None
  | x :: l => match f x with Some y => Some y | None => first_some f l end
  end.

Definition isPrivateHost (host : string) : bool :=
  let h := strip_brackets (toLowerCase host) in
  if String.eqb h "localhost" || endsWith h ".localhost" then true
  else if String.eqb h "::1" || String.eqb h "::" || String.eqb h "0" then true
  else
    match dotted_quad h with
    | Some (a, b, _, _) => isPrivateV4 a b
    | None =>
        match first_some dotted_quad (mapped_tails h) with
        | Some (a, b, _, _) => isPrivateV4 a b
        | None =>
            match first_some hextet_pair (mapped_tails h) with
            | Some (x, _) =>
                let high := default 0 (parseInt16 x) in
                isPrivateV4 (Z.shiftr high 8) (Z.land high 255)
            | None =>
                if unique_local_prefix h || link_local_prefix h then true
                else if includes_char ":" h then false
                else negb (includes_char "." h)
            end
        end
    end.

Definition http_only : CloudFetchVerdict :=
  Refused not_http "Only http(s) downloads can be fetched in the cloud.".

Definition cloudFetchEligibility `{UrlParser} (ctx : DownloadContext) : CloudFetchVerdict :=
  if dc_alwaysLocal ctx
  then Refused policy_local_only "Downloads are set to stay on this Mac."
  else
    match parse_url (dc_url ctx) with
    | None => http_only
    | Some url =>
        if negb (String.eqb (url_protocol url) "http:") && negb (String.eqb (url_protocol url) "https:")
        then http_only
        else if negb (String.eqb (url_username url) "") || negb (String.eqb (url_password url) "")
        then Refused userinfo_in_url
               "This link embeds a username or password, so it stays on this Mac."
        else if dc_hasCookies ctx || dc_hasAuthHeader ctx || dc_usesClientCert ctx
        then Refused credentialed_request
               ("This download is authenticated, so Suma fetches it on this Mac. "
                +:+ "Suma never sends your credentials to your cloud machine.")
        else if negb (isPresigned url) && hasBearerQueryCredential url
        then Refused credentialed_request
               ("This link carries an access token, so Suma fetches it on this Mac. "
                +:+ "Suma never sends your credentials to your cloud machine.")
        else if isPrivateHost (url_hostname url)
        then Refused private_host
               "This address is on your local network, which your cloud machine cannot reach."
        else if match dc_totalBytes ctx with Some n => n <? CLOUD_FETCH_MIN_BYTES | None => false end
        then Refused too_small "Small downloads are faster straight to this Mac."
        else Eligible (if isPresigned url then presigned_url else public_url)
    end.

(** ** Quota *)

Definition PRO_QUOTA_BYTES : Z := 100 * 1024 * 1024 * 1024.

Record QuotaState := mkQuota { qs_usedBytes : Z; qs_limitBytes : Z }.

Record QuotaVerdict := mkQuotaVerdict {
  qv_allowed : bool;
  qv_softBlocked : bool;
  qv_usedBytes : Z;
  qv_limitBytes : Z;
  qv_explanation : string
}.

(** [Math.round(x / 1024 ** 3)] for a non-negative [x]. *)
Definition round_gib (x : Z) : Z := (x + 2 ^ 29) / 2 ^ 30.

Definition checkQuota (state : QuotaState) (incomingBytes : Z) : QuotaVerdict :=
  let projected := qs_usedBytes state + incomingBytes in
  let softBlocked := qs_usedBytes state >=? qs_limitBytes state in
  let allowed := projected <=? qs_limitBytes state in
  mkQuotaVerdict allowed softBlocked (qs_usedBytes state) (qs_limitBytes state)
    (if allowed then "Within your Files quota."
     else "This would put you over your " +:+ toString10 (round_gib (qs_limitBytes state))
          +:+ " GB Files quota. Existing files stay available; free up space to add more.").

(** ** Requests and their capabilities *)

Inductive VfsRequest :=
| VfsList (path : string)
| VfsStat (path : string)
| VfsRead (path : string) (offset length : Z)
| VfsWrite (path dataB64 : string) (expectedSizeBytes : option Z)
| VfsAppend (path dataB64 : string) (expectedSizeBytes : option Z)
| VfsReplace (path expectedDataB64 dataB64 : string)
| VfsDelete (path : string) (recursive : option bool)
| VfsMkdir (path : string)
| VfsTree (path : string)
| VfsRename (from to : string).

Inductive VfsCapability := fs_read | fs_write.

Definition VFS_CAPABILITY (r : VfsRequest) : VfsCapability :=
  match r with
  | VfsList _ | VfsStat _ | VfsRead _ _ _ | VfsTree _ => fs_read
  | VfsWrite _ _ _ | VfsAppend _ _ _ | VfsReplace _ _ _ | VfsDelete _ _ | VfsMkdir _
  | VfsRename _ _ => fs_write
  end.

(** ** Paths *)

Definition MAX_PATH : Z := 4096.

(** One segment: empty and "." are skipped, ".." pops, [None] is an escape. *)
Definition path_step (acc : option (list string)) (segment : string) : option (list string) :=
  match acc with
  | None => None
  | Some parts =>
      if String.eqb segment "" || String.eqb segment "." then Some parts
      else if String.eqb segment ".." then
        match parts with
        | [] => None
        | _ => Some (removelast parts)
        end
      else Some (parts ++ [segment])
  end.

Definition normalizeVfsPath (path : string) : option string :=
  if (js_length path =? 0) || (js_length path >? MAX_PATH) then None
  else if includes_char "000" path then None
  else option_map (λ parts, "/" +:+ str_join "/" parts)
         (fold_left path_step (split_char "/" path) (Some [])).

(** ** Splitting and joining *)

Lemma join_chars c ps x : x ∈ chars (str_join (String c "") ps) → x = c ∨ ∃ p, p ∈ ps ∧ x ∈ chars p.
Proof.
  induction ps as [|p ps IH]; [by intros ?%not_elem_of_nil|]. destruct ps as [|p' ps].
  - intros Hx. right. exists p. split; [left|done].
  - change (str_join (String c "") (p :: p' :: ps)) with (p +:+ String c (str_join (String c "") (p' :: ps))).
    rewrite chars_app. intros [Hx|[->|Hx]%elem_of_cons]%elem_of_app.
    + right. exists p. split; [left|done].
    + by left.
    + destruct (IH Hx) as [?|(q & ? & ?)]; [by left|right]. exists q. split; [by right|done].
Qed.

(** ** Paths *)

(** What a segment does to the depth. *)
Definition is_name (s : string) : bool :=
  negb (String.eqb s "" || String.eqb s "." || String.eqb s "..").

Definition rise (s : string) : Z := if is_name s then 1 else if String.eqb s ".." then -1 else 0.
Definition depth (segs : list string) : Z := fold_left (λ d s, d + rise s) segs 0.

(** Some prefix of the segments climbs above the root. *)
Definition escapes (segs : list string) : Prop := ∃ pre, pre `prefix_of` segs ∧ depth pre < 0.

Lemma depth_snoc segs s : depth (segs ++ [s]) = depth segs + rise s.
Proof. unfold depth. by rewrite fold_left_app. Qed.

Lemma path_fold_none segs : fold_left path_step segs None = None.
Proof. by induction segs. Qed.

Lemma prefix_snoc {A} (pre l : list A) (x : A) :
  pre `prefix_of` (l ++ [x]) → pre = l ++ [x] ∨ pre `prefix_of` l.
Proof.
  intros [suf Hs]. destruct suf as [|y suf _] using rev_ind; [left; by rewrite app_nil_r in Hs|].
  right. rewrite app_assoc in Hs. apply app_inj_tail in Hs as [-> _]. by exists suf.
Qed.

Lemma removelast_length {A} (l : list A) : length (removelast l) = (length l - 1)%nat.
Proof.
  induction l as [|x l _] using rev_ind; [done|]. rewrite removelast_last, length_app. simpl. lia.
Qed.

Lemma removelast_sub {A} (l : list A) x : x ∈ removelast l → x ∈ l.
Proof.
  induction l as [|y l _] using rev_ind; [done|]. rewrite removelast_last, elem_of_snoc. auto.
Qed.

(** Folding the segments fails exactly on an escape, and otherwise keeps as many
    names as the depth. *)
Lemma path_fold_spec segs :
  match fold_left path_step segs (Some []) with
  | None => escapes segs
  | Some parts =>
      ~ escapes segs ∧ Z.of_nat (length parts) = depth segs
      ∧ ∀ p, p ∈ parts → p ∈ segs ∧ is_name p = true
  end.
Proof.
  induction segs as [|s segs IH] using rev_ind.
  { split; [|split; [done|set_solver]]. intros (pre & Hpre & Hd).
    apply prefix_nil_inv in Hpre as ->. done. }
  rewrite fold_left_app. cbn [fold_left].
  destruct (fold_left path_step segs (Some [])) as [parts|].
  2: { destruct IH as (pre & Hpre & Hd). exists pre. split; [by apply prefix_app_r|done]. }
  destruct IH as (Hesc & Hlen & Hin).
  assert (0 <= depth segs + rise s → ~ escapes (segs ++ [s])) as Hno.
  { intros Hd (pre & Hpre & Hneg). destruct (prefix_snoc _ _ _ Hpre) as [->|Hp].
    - rewrite depth_snoc in Hneg. lia.
    - apply Hesc. by exists pre. }
  unfold path_step. destruct (String.eqb s "" || String.eqb s ".") eqn:E1.
  - assert (rise s = 0) as Hr.
    { unfold rise, is_name. rewrite E1. simpl. apply orb_true_iff in E1 as [E1|E1]; apply String.eqb_eq in E1 as ->; done. }
    rewrite depth_snoc, Hr in *. split; [apply Hno; lia|]. split; [lia|]. set_solver.
  - destruct (String.eqb s "..") eqn:E2.
    + assert (rise s = -1) as Hr by (unfold rise, is_name; by rewrite E1, E2).
      destruct parts as [|p parts].
      * exists (segs ++ [s]). split; [done|]. rewrite depth_snoc, Hr. simpl in Hlen. lia.
      * cbn [length] in Hlen. rewrite depth_snoc, Hr in *. split; [apply Hno; lia|].
        split; [rewrite removelast_length; simpl; lia|].
        intros q Hq%removelast_sub%Hin. set_solver.
    + assert (is_name s = true) as Hn by (unfold is_name; by rewrite E1, E2).
      assert (rise s = 1) as Hr by (unfold rise; by rewrite Hn).
      rewrite depth_snoc, Hr in *. split; [apply Hno; lia|]. split; [rewrite length_app; simpl; lia|].
      intros q [Hq| ->]%elem_of_snoc; [apply Hin in Hq; set_solver|set_solver].
Qed.

Lemma path_fold_names parts acc :
  Forall (λ p, is_name p = true) parts → fold_left path_step parts (Some acc) = Some (acc ++ parts).
Proof.
  revert acc. induction parts as [|p parts IH]; intros acc Hp; simpl; [by rewrite app_nil_r|].
  apply Forall_cons in Hp as [Hn Hp]. unfold is_name in Hn.
  destruct (String.eqb p "" || String.eqb p "."); [done|]. destruct (String.eqb p ".."); [done|].
  by rewrite IH, <- app_assoc.
Qed.

(** ** Private hosts in IPv6 clothing *)

(** Characters that lower-casing and bracket stripping leave alone. *)
Definition plain_char (c : ascii) : Prop :=
  is_digit c = true ∨ c = "."%char ∨ c = ":"%char ∨ c = "f"%char.

Lemma plain_lower c : plain_char c → lower_char c = c.
Proof.
  intros [Hd|[->|[->| ->]]]; [|done..]. unfold is_digit in Hd. unfold lower_char.
  bprop. destruct (_ || _) eqn:E; [|done]. exfalso. bprop.
  destruct E as [E|E]; bprop; lia.
Qed.

Lemma plain_toLowerCase s : all_chars plain_char s → toLowerCase s = s.
Proof.
  induction s as [|c s IH]; [done|]. intros [Hc Hs]%Forall_cons. simpl.
  by rewrite plain_lower, IH.
Qed.

Lemma plain_not s t : all_chars plain_char s → Exists (λ c, ¬ plain_char c) (chars t) → endsWith s t = false.
Proof.
  intros Hs Ht. apply not_true_is_false. intros [u ->]%endsWith_iff.
  apply all_chars_app in Hs as [_ Hs]. unfold all_chars in Hs.
  apply Exists_exists in Ht as (c & Hc & Hn). rewrite Forall_forall in Hs. by apply Hn, Hs.
Qed.

Ltac not_plain := intros [?|[?|[?|?]]]; discriminate.

Lemma plain_strip s : all_chars plain_char s → strip_brackets s = s.
Proof.
  intros Hs. unfold strip_brackets. assert (startsWith s "[" = false) as ->.
  { destruct s as [|c s]; [done|]. apply Forall_cons in Hs as [Hc _]. cbn [startsWith].
    destruct (Ascii.eqb_spec "[" c) as [<-|]; [|done]. exfalso. revert Hc. not_plain. }
  assert (endsWith s "]" = false) as Hb; [|by rewrite Hb].
  apply plain_not; [done|]. apply Exists_cons. left. not_plain.
Qed.

Lemma dotted_quad_plain h q : dotted_quad h = Some q → all_chars (λ c, is_digit c = true ∨ c = "."%char) h.
Proof.
  unfold dotted_quad. intros Hq. apply Forall_forall. intros x Hx.
  destruct (split_char_chars "." h x Hx) as [->|(p & Hp & Hxp)]; [by right|left].
  assert (is_octet_text p = true) as Ho.
  { destruct (split_char "." h) as [|a [|b [|c [|d [|? ?]]]]]; try done.
    destruct (is_octet_text a) eqn:?; [|done]. destruct (is_octet_text b) eqn:?; [|done].
    destruct (is_octet_text c) eqn:?; [|done]. destruct (is_octet_text d) eqn:?; [|done].
    repeat (apply elem_of_cons in Hp as [->|Hp]; [done|]). by apply not_elem_of_nil in Hp. }
  unfold is_octet_text, all_of in Ho. apply andb_true_iff in Ho as [[Ho _]%andb_true_iff _].
  rewrite forallb_forall in Ho. by apply Ho, list_elem_of_In.
Qed.

(** The three spellings of an IPv4 address are classified alike. *)
Lemma isPrivateHost_mapped h a b c d pre :
  dotted_quad h = Some (a, b, c, d) → pre ∈ [""; "::"; "::ffff:"] →
  isPrivateHost (pre +:+ h) = isPrivateV4 a b.
Proof.
  intros Hq Hpre. rewrite !elem_of_cons, elem_of_nil in Hpre.
  pose proof (dotted_quad_plain h _ Hq) as Hh.
  assert (all_chars plain_char h) as Hp.
  { eapply all_chars_impl; [|exact Hh]. intros x [?|?]; [by left|by right; left]. }
  assert (all_chars plain_char (pre +:+ h)) as Hall.
  { apply all_chars_app. split; [|done]. apply Forall_forall. intros x Hx.
    assert (x = ":"%char ∨ x = "f"%char) as [->| ->]; [|by do 2 right; left|by do 3 right].
    destruct Hpre as [->|[->|[->|[]]]]; cbn in Hx; set_solver. }
  unfold isPrivateHost. rewrite plain_toLowerCase, plain_strip by done.
  assert (String.eqb (pre +:+ h) "localhost" = false) as ->.
  { apply String.eqb_neq. intros He. rewrite He in Hall. apply Forall_cons in Hall as [Hc _].
    revert Hc. not_plain. }
  assert (endsWith (pre +:+ h) ".localhost" = false) as ->.
  { apply plain_not; [done|]. apply Exists_cons. right. apply Exists_cons. left. not_plain. }
  assert (String.eqb (pre +:+ h) "::1" || String.eqb (pre +:+ h) "::" || String.eqb (pre +:+ h) "0" = false)
    as ->.
  { destruct (_ || _) eqn:E; [|done]. exfalso. rewrite !orb_true_iff, !String.eqb_eq in E.
    destruct Hpre as [->|[->|[->|[]]]], E as [[E|E]|E]; simpl in E; try discriminate;
      try (injection E as E); subst h; discriminate. }
  assert (startsWith h "ffff:" = false) as Hf.
  { destruct h as [|x h]; [done|]. apply Forall_cons in Hh as [Hx _]. cbn [startsWith].
    destruct (Ascii.eqb_spec "f" x) as [<-|]; [|done]. by destruct Hx. }
  cbn [orb]. destruct Hpre as [->|[Hpre|[Hpre|[]]]]; [simpl; by rewrite Hq|..];
    (assert (dotted_quad (pre +:+ h) = None) as ->;
     [destruct (dotted_quad (pre +:+ h)) as [q|] eqn:E; [|done];
      apply dotted_quad_no_colon in E; by rewrite Hpre in E|]);
    rewrite Hpre.
  - assert (mapped_tails ("::" +:+ h) = [h]) as ->; [|cbn [first_some]; by rewrite Hq].
    unfold mapped_tails. change (startsWith ("::" +:+ h) "::") with true.
    change (slice_from 2 ("::" +:+ h)) with h. by rewrite Hf.
  - change (mapped_tails ("::ffff:" +:+ h)) with [h; "ffff:" +:+ h]. cbn [first_some]. by rewrite Hq.
Qed.

(** The tests of [cloudFetchEligibility] as one. *)
Definition eligible_b (ctx : DownloadContext) (u : URL) : bool :=
  negb (dc_alwaysLocal ctx)
  && (String.eqb (url_protocol u) "http:" || String.eqb (url_protocol u) "https:")
  && String.eqb (url_username u) "" && String.eqb (url_password u) ""
  && negb (dc_hasCookies ctx) && negb (dc_hasAuthHeader ctx) && negb (dc_usesClientCert ctx)
  && (isPresigned u || negb (hasBearerQueryCredential u))
  && negb (isPrivateHost (url_hostname u))
  && match dc_totalBytes ctx with Some n => negb (n <? CLOUD_FETCH_MIN_BYTES) | None => true end.

Lemma cloudFetch_eligible `{UrlParser} ctx :
  (∃ r, cloudFetchEligibility ctx = Eligible r)
  ↔ ∃ u, parse_url (dc_url ctx) = Some u ∧ eligible_b ctx u = true.
Proof.
  unfold cloudFetchEligibility, eligible_b, http_only. destruct (parse_url (dc_url ctx)) as [u|].
  2: { split; [intros [r Hr]; by destruct (dc_alwaysLocal ctx)|by intros (u & ? & _)]. }
  assert (∀ P : bool → Prop, (∃ u', Some u = Some u' ∧ P (eligible_b ctx u')) ↔ P (eligible_b ctx u)) as Hu.
  { intros P. split; [by intros (u' & [= <-] & ?)|eauto]. }
  specialize (Hu (λ b, b = true)). unfold eligible_b in Hu. rewrite Hu. clear Hu.
  destruct (dc_alwaysLocal ctx), (String.eqb (url_protocol u) "http:"),
    (String.eqb (url_protocol u) "https:"), (String.eqb (url_username u) ""),
    (String.eqb (url_password u) ""); simpl; try (split; [by intros [? ?]|done]);
    destruct (dc_hasCookies ctx), (dc_hasAuthHeader ctx), (dc_usesClientCert ctx); simpl;
    try (split; [by intros [? ?]|done]);
    destruct (isPresigned u), (hasBearerQueryCredential u), (isPrivateHost (url_hostname u)); simpl;
    try (split; [by intros [? ?]|done]);
    (destruct (dc_totalBytes ctx) as [n|]; [destruct (n <? CLOUD_FETCH_MIN_BYTES)|]; simpl;
     (split; [by intros [? ?]|try done; eauto])).
Qed.

Lemma bearer_absent u :
  hasBearerQueryCredential u = false ↔
  ∀ k v, (k, v) ∈ url_searchParams u → toLowerCase k ∉ BEARER_QUERY_KEYS.
Proof.
  unfold hasBearerQueryCredential, lower_keys. rewrite <- not_true_iff_false, existsb_exists.
  assert (∀ x l, includes x l = true ↔ x ∈ l) as Hi.
  { intros x l. unfold includes. rewrite existsb_exists. split.
    - intros (y & Hy & ->%String.eqb_eq). by apply list_elem_of_In.
    - intros Hx%list_elem_of_In. exists x. by rewrite String.eqb_refl. }
  setoid_rewrite Hi. split.
  - intros Hn k v Hkv Hin. apply Hn. exists (toLowerCase k). split; [|done].
    apply list_elem_of_In, list_elem_of_fmap. by exists (k, v).
  - intros Hall (x & Hx & Hin). apply list_elem_of_In, list_elem_of_fmap in Hx as ([k v] & -> & Hkv).
    by apply (Hall k v Hkv).
Qed.

Lemma eligible_b_spec ctx u :
  eligible_b ctx u = true ↔
  dc_alwaysLocal ctx = false
  ∧ dc_hasCookies ctx = false ∧ dc_hasAuthHeader ctx = false ∧ dc_usesClientCert ctx = false
  ∧ (∀ n, dc_totalBytes ctx = Some n → CLOUD_FETCH_MIN_BYTES <= n)
  ∧ (url_protocol u = "http:" ∨ url_protocol u = "https:")
  ∧ url_username u = "" ∧ url_password u = ""
  ∧ isPrivateHost (url_hostname u) = false
  ∧ (isPresigned u = true ∨
     ∀ k v, (k, v) ∈ url_searchParams u → toLowerCase k ∉ BEARER_QUERY_KEYS).
Proof.
  rewrite <- bearer_absent. unfold eligible_b.
  rewrite !andb_true_iff, !orb_true_iff, !negb_true_iff, !String.eqb_eq.
  assert (match dc_totalBytes ctx with Some n => negb (n <? CLOUD_FETCH_MIN_BYTES) | None => true end = true
    ↔ ∀ n, dc_totalBytes ctx = Some n → CLOUD_FETCH_MIN_BYTES <= n) as ->.
  { destruct (dc_totalBytes ctx) as [n|]; [|naive_solver]. rewrite negb_true_iff, Z.ltb_ge. naive_solver. }
  tauto.
Qed.

(** A joined list of names is its own normal form. *)
Lemma normalize_joined parts :
  Forall (λ p, is_name p = true ∧ no_char "/" p ∧ no_char "000" p) parts →
  let q := "/" +:+ str_join "/" parts in
  js_length q <= MAX_PATH → normalizeVfsPath q = Some q.
Proof.
  intros Hparts q Hq. unfold normalizeVfsPath.
  assert (js_length q > 0) by (unfold q, js_length; simpl; lia).
  replace ((js_length q =? 0) || (js_length q >? MAX_PATH)) with false.
  2: { symmetry. apply orb_false_iff. rewrite Z.gtb_ltb, Z.ltb_ge, Z.eqb_neq. lia. }
  assert (includes_char "000" q = false) as ->.
  { apply includes_char_false. apply Forall_cons. split; [done|]. apply Forall_forall. intros x Hx.
    apply join_chars in Hx as [->|(p & Hp & Hx)]; [done|]. rewrite Forall_forall in Hparts.
    destruct (Hparts p Hp) as (_ & _ & Hn). unfold no_char, all_chars in Hn.
    rewrite Forall_forall in Hn. by apply Hn. }
  assert (Forall (λ p, is_name p = true) parts) as Hn by (eapply Forall_impl; [exact Hparts|naive_solver]).
  assert (Forall (no_char "/") parts) as Hs by (eapply Forall_impl; [exact Hparts|naive_solver]).
  change (split_char "/" q) with ("" :: split_char "/" (str_join "/" parts)). cbn [fold_left path_step].
  change (String.eqb "" "" || String.eqb "" ".") with true. cbn match.
  destruct parts as [|p parts]; [done|]. change "/" with (String "/" "") at 2.
  rewrite split_join by done. rewrite path_fold_names by done. done.
Qed.

(** ** Properties *)

(** A download is handed to the cloud exactly when it is not pinned to the
    Mac, is an http(s) URL without userinfo, would send no cookie,
    authorization or client certificate, carries no bearer credential in its
    query unless it is presigned, goes to a public host and is not known to be
    small; and a private IPv4 address is refused in its plain, IPv4-mapped and
    IPv4-compatible spellings alike. *)
Theorem cloudFetch_fails_closed `{UrlParser} ctx :
  ((∃ r, cloudFetchEligibility ctx = Eligible r) ↔
   dc_alwaysLocal ctx = false
   ∧ dc_hasCookies ctx = false ∧ dc_hasAuthHeader ctx = false ∧ dc_usesClientCert ctx = false
   ∧ (∀ n, dc_totalBytes ctx = Some n → CLOUD_FETCH_MIN_BYTES <= n)
   ∧ ∃ u, parse_url (dc_url ctx) = Some u
       ∧ (url_protocol u = "http:" ∨ url_protocol u = "https:")
       ∧ url_username u = "" ∧ url_password u = ""
       ∧ isPrivateHost (url_hostname u) = false
       ∧ (isPresigned u = true ∨
          ∀ k v, (k, v) ∈ url_searchParams u → toLowerCase k ∉ BEARER_QUERY_KEYS))
  ∧ ∀ h a b c d pre, dotted_quad h = Some (a, b, c, d) → pre ∈ [""; "::"; "::ffff:"] →
      isPrivateHost (pre +:+ h) = isPrivateV4 a b.
Proof.
  split; [|intros; by eapply isPrivateHost_mapped]. rewrite cloudFetch_eligible. split.
  - intros (u & Hu & He). apply eligible_b_spec in He. naive_solver.
  - intros (Hl & Hc & Ha & Ht & Hn & u & Hu & Hrest). exists u. split; [done|].
    apply eligible_b_spec. naive_solver.
Qed.

(** A presigned link of 64 MiB on a public host may go to the cloud. *)
Lemma cloudFetch_fails_closed_witness :
  let parser : UrlParser := λ _, Some (mkURL "https:" "" "" "bucket.example.com" "/o" [("X-Amz-Signature", "s")]
                                      "https://bucket.example.com") in
  ∃ r, cloudFetchEligibility (mkDownload "u" (Some (64 * 1024 * 1024)) false false false false) = Eligible r.
Proof.
  intros parser. apply (cloudFetch_fails_closed (mkDownload "u" (Some (64 * 1024 * 1024)) false false false false)).
  do 4 (split; [reflexivity|]). split; [intros n [= <-]; unfold CLOUD_FETCH_MIN_BYTES; lia|].
  eexists. split; [reflexivity|]. split; [right; reflexivity|]. do 3 (split; [vm_compute; reflexivity|]).
  left. vm_compute. reflexivity.
Defined.

(** A normalised file path is rooted and free of empty, "." and ".."
    segments, slashes inside names and NUL, and is its own normal form while it
    fits the length limit; among non-empty paths within the limit and without
    NUL, exactly those that climb above the root at some point are refused. *)
Theorem normalizeVfsPath_confined path :
  match normalizeVfsPath path with
  | Some q =>
      (∃ parts, q = "/" +:+ str_join "/" parts
         ∧ Forall (λ p, is_name p = true ∧ no_char "/" p ∧ no_char "000" p) parts
         ∧ Z.of_nat (length parts) = depth (split_char "/" path))
      ∧ (js_length q <= MAX_PATH → normalizeVfsPath q = Some q)
  | None =>
      path = "" ∨ js_length path > MAX_PATH ∨ "000"%char ∈ chars path ∨ escapes (split_char "/" path)
  end.
Proof.
  unfold normalizeVfsPath at 1.
  destruct ((js_length path =? 0) || (js_length path >? MAX_PATH)) eqn:El.
  { apply orb_true_iff in El as [El|El]; bprop; [left|right; left; lia].
    destruct path; [done|]. unfold js_length in El. simpl in El. lia. }
  destruct (includes_char "000" path) eqn:En.
  { do 2 right. left. destruct (decide ("000"%char ∈ chars path)) as [|Hn]; [done|].
    apply not_false_iff_true in En. exfalso. apply En, includes_char_false, Forall_forall.
    by intros x Hx ->. }
  pose proof (path_fold_spec (split_char "/" path)) as Hspec.
  destruct (fold_left path_step _ _) as [parts|]; simpl; [|by do 3 right].
  destruct Hspec as (_ & Hlen & Hin).
  assert (Forall (λ p, is_name p = true ∧ no_char "/" p ∧ no_char "000" p) parts) as Hparts.
  { apply Forall_forall. intros p Hp. apply Hin in Hp as [Hp Hn]. split; [done|].
    split; [by eapply split_char_no_sep|]. apply includes_char_false in En.
    apply Forall_forall. intros x Hx. unfold all_chars in En. rewrite Forall_forall in En.
    apply En. by eapply split_char_sub. }
  split; [by exists parts|]. intros Hq. by apply normalize_joined.
Qed.
