(* ===== verification/Relay.v ===== *)
(** * The home-machine relay (services/control/src/relay.ts)

    [RelayRegistry]: per account one home socket and the away sockets piped to
    it.  Sockets are named by numbers; what a method sends and closes is its
    output, in order.  Connection ids come from [randomBytes], so they are
    arguments. *)

From S2P Require Export Encoding Json JsMap.
From Stdlib Require Import Ascii.

Definition CLOSE_REPLACED : Z := 4000.
Definition CLOSE_HOME_OFFLINE : Z := 4404.
Definition CONN_ID_BYTES : nat := 8.

Definition RelaySocket : Type := nat.

Inductive Payload := PText (s : string) | PBytes (b : bytes).

Inductive RelayEffect :=
| RSend (to : RelaySocket) (data : Payload)
| RClose (to : RelaySocket) (code : Z) (reason : string)
(** A [TypeError] that leaves the registry and reaches the message handler. *)
| RThrow.

Record HomeEntry := mkHome {
  he_socket : RelaySocket;
  he_clients : jsmap string RelaySocket
}.

(** The registry's [homes]. *)
Definition RelayRegistry : Type := jsmap string HomeEntry.

Definition homeOnline (userId : string) (homes : RelayRegistry) : bool := map_has userId homes.

Definition close_clients (h : HomeEntry) : list RelayEffect :=
  map (λ c, RClose c CLOSE_HOME_OFFLINE "home-offline") (map_values (he_clients h)).

Definition attachHome (userId : string) (socket : RelaySocket) (homes : RelayRegistry)
    : RelayRegistry * list RelayEffect :=
  match map_get userId homes with
  | Some previous =>
      (map_set userId (mkHome socket jsmap_empty) (map_delete userId homes),
       close_clients previous ++ [RClose (he_socket previous) CLOSE_REPLACED "replaced"])
  | None => (map_set userId (mkHome socket jsmap_empty) homes, [])
  end.

Definition detachHome (userId : string) (socket : RelaySocket) (homes : RelayRegistry)
    : RelayRegistry * list RelayEffect :=
  match map_get userId homes with
  | Some home =>
      if negb (he_socket home =? socket)%nat then (homes, [])
      else (map_delete userId homes, close_clients home)
  | None => (homes, [])
  end.

(** [Buffer.toString("ascii")] keeps seven bits of every byte. *)
Definition ascii_of_bytes (b : bytes) : string := of_chars (map (λ x, chr (Z.land x 127)) b).
(** [Buffer.from(conn, "ascii")]: the code of every character. *)
Definition bytes_of_ascii (s : string) : bytes := map code (chars s).

Definition homeMessage (userId : string) (data : Payload) (homes : RelayRegistry)
    : RelayRegistry * list RelayEffect :=
  match map_get userId homes with
  | None => (homes, [])
  | Some home =>
      match data with
      | PText text =>
          match parse text with
          | Some JNull => (homes, [RThrow])
          | Some message =>
              match jget "t" message, jget "conn" message with
              | Some (JStr t), Some (JStr conn) =>
                  if negb (String.eqb t "close") then (homes, [])
                  else match map_get conn (he_clients home) with
                       | Some client =>
                           (map_set userId (mkHome (he_socket home) (map_delete conn (he_clients home))) homes,
                            [RClose client 1000 "closed by home"])
                       | None => (homes, [])
                       end
              | _, _ => (homes, [])
              end
          | None => (homes, [])
          end
      | PBytes b =>
          if (length b <? CONN_ID_BYTES)%nat then (homes, [])
          else match map_get (ascii_of_bytes (take CONN_ID_BYTES b)) (he_clients home) with
               | Some client => (homes, [RSend client (PBytes (drop CONN_ID_BYTES b))])
               | None => (homes, [])
               end
      end
  end.

Definition control_frame (t conn : string) : Payload :=
  PText (stringify (JObj [("t", JStr t); ("conn", JStr conn)])).

(** [conn] is the id [randomBytes] gives this call. *)
Definition attachClient (conn userId : string) (socket : RelaySocket) (homes : RelayRegistry)
    : option string * RelayRegistry * list RelayEffect :=
  match map_get userId homes with
  | None => (None, homes, [RClose socket CLOSE_HOME_OFFLINE "home-offline"])
  | Some home =>
      (Some conn,
       map_set userId (mkHome (he_socket home) (map_set conn socket (he_clients home))) homes,
       [RSend (he_socket home) (control_frame "open" conn)])
  end.

Definition clientMessage (userId conn : string) (data : bytes) (homes : RelayRegistry)
    : list RelayEffect :=
  match map_get userId homes with
  | Some home =>
      if map_has conn (he_clients home)
      then [RSend (he_socket home) (PBytes (bytes_of_ascii conn ++ data))] else []
  | None => []
  end.

Definition detachClient (userId conn : string) (homes : RelayRegistry)
    : RelayRegistry * list RelayEffect :=
  match map_get userId homes with
  | Some home =>
      if map_has conn (he_clients home)
      then (map_set userId (mkHome (he_socket home) (map_delete conn (he_clients home))) homes,
            [RSend (he_socket home) (control_frame "close" conn)])
      else (homes, [])
  | None => (homes, [])
  end.

(** ** The relay as a machine *)

(** What reaches the registry.  [RAttachClient] carries the drawn id. *)
Inductive RelayEvent :=
| RAttachHome (user : string) (socket : RelaySocket)
| RDetachHome (user : string) (socket : RelaySocket)
| RHomeMessage (user : string) (data : Payload)
| RAttachClient (conn user : string) (socket : RelaySocket)
| RClientMessage (user conn : string) (data : bytes)
| RDetachClient (user conn : string).

Definition event_user (e : RelayEvent) : string :=
  match e with
  | RAttachHome u _ | RDetachHome u _ | RHomeMessage u _ | RAttachClient _ u _
  | RClientMessage u _ _ | RDetachClient u _ => u
  end.

Definition relay_step (e : RelayEvent) (homes : RelayRegistry) : RelayRegistry * list RelayEffect :=
  match e with
  | RAttachHome u s => attachHome u s homes
  | RDetachHome u s => detachHome u s homes
  | RHomeMessage u d => homeMessage u d homes
  | RAttachClient c u s => let '(_, homes, out) := attachClient c u s homes in (homes, out)
  | RClientMessage u c d => (homes, clientMessage u c d homes)
  | RDetachClient u c => detachClient u c homes
  end.

(** ** Specification *)

(** [s] is the home socket or an away socket of [user]. *)
Definition attached (user : string) (s : RelaySocket) (homes : RelayRegistry) : Prop :=
  ∃ h, map_get user homes = Some h
    ∧ (he_socket h = s ∨ ∃ conn, map_get conn (he_clients h) = Some s).

(** The socket an output goes to. *)
Definition effect_to (e : RelayEffect) (s : RelaySocket) : Prop :=
  match e with RSend t _ | RClose t _ _ => t = s | RThrow => False end.

(** The socket an event brings in. *)
Definition brings (e : RelayEvent) (s : RelaySocket) : Prop :=
  match e with RAttachHome _ t | RAttachClient _ _ t => t = s | _ => False end.

(** The socket is gone already, or its connection id was drawn again. *)
Definition leaves (e : RelayEvent) (s : RelaySocket) (homes : RelayRegistry) : Prop :=
  match e with
  | RDetachHome _ t => t = s
  | RDetachClient u c | RAttachClient c u _ =>
      ∃ h, map_get u homes = Some h ∧ map_get c (he_clients h) = Some s
  | _ => False
  end.

(** Ids as [randomBytes(4).toString("hex")] makes them: eight ASCII characters. *)
Definition conn_id (conn : string) : Prop :=
  String.length conn = CONN_ID_BYTES ∧ all_chars (λ c, code c < 128) conn.

(** ** Lemmas *)

Lemma step_other_user e homes user :
  user ≠ event_user e → map_get user (relay_step e homes).1 = map_get user homes.
Proof.
  intros Hne. destruct e as [u s|u s|u d|c u s|u c d|u c]; simpl in Hne |- *.
  - unfold attachHome. destruct (map_get u homes); simpl;
      rewrite map_get_set_ne, ?map_get_delete_ne by congruence; done.
  - unfold detachHome. destruct (map_get u homes); [|done]. destruct (negb _); [done|].
    simpl. by rewrite map_get_delete_ne by congruence.
  - unfold homeMessage. destruct (map_get u homes) as [home|]; [|done]. destruct d as [t|b].
    + repeat (case_match; try done); simpl; by rewrite map_get_set_ne by congruence.
    + by repeat (case_match; try done).
  - unfold attachClient. destruct (map_get u homes); [|done]. simpl. by rewrite map_get_set_ne by congruence.
  - done.
  - unfold detachClient. destruct (map_get u homes) as [home|]; [|done]. destruct (map_has _ _); [|done].
    simpl. by rewrite map_get_set_ne by congruence.
Qed.

(** A message of the home: nothing, an exception, one close, or one send. *)
Lemma homeMessage_cases u d homes :
  homeMessage u d homes = (homes, []) ∨ homeMessage u d homes = (homes, [RThrow])
  ∨ ∃ h conn client, map_get u homes = Some h ∧ map_get conn (he_clients h) = Some client
      ∧ (homeMessage u d homes
         = (map_set u (mkHome (he_socket h) (map_delete conn (he_clients h))) homes,
            [RClose client 1000 "closed by home"])
         ∨ ∃ b, homeMessage u d homes = (homes, [RSend client b])).
Proof.
  unfold homeMessage. destruct (map_get u homes) as [h|]; [|by left]. destruct d as [t|b].
  - destruct (parse t) as [[]|]; try (by left); try (by right; left).
    destruct (jget "t" _) as [[]|]; try (by left). destruct (jget "conn" _) as [[]|]; try (by left).
    destruct (negb _); [by left|]. destruct (map_get _ (he_clients h)) as [c|] eqn:Hc; [|by left].
    right; right. do 3 eexists. split; [done|]. split; [exact Hc|by left].
  - destruct (_ <? _)%nat; [by left|]. destruct (map_get _ (he_clients h)) as [c|] eqn:Hc; [|by left].
    right; right. do 3 eexists. split; [done|]. split; [exact Hc|right; eauto].
Qed.

Lemma in_close_clients conn c h :
  map_get conn (he_clients h) = Some c → RClose c CLOSE_HOME_OFFLINE "home-offline" ∈ close_clients h.
Proof.
  intros Hg%map_get_In. apply list_elem_of_fmap. exists c. split; [done|].
  apply list_elem_of_fmap. by exists (conn, c).
Qed.

Lemma close_clients_to h e s :
  e ∈ close_clients h → effect_to e s → s ∈ map_values (he_clients h).
Proof. by intros (c & -> & Hc)%list_elem_of_fmap <-. Qed.

Lemma ascii_bytes conn : conn_id conn → ascii_of_bytes (bytes_of_ascii conn) = conn.
Proof.
  intros [_ Hc]. unfold ascii_of_bytes, bytes_of_ascii. rewrite map_map.
  rewrite <- (of_chars_chars conn) at 2. f_equal. rewrite <- (map_id (chars conn)) at 2.
  apply map_ext_in. intros c Hin%list_elem_of_In. unfold all_chars in Hc. rewrite Forall_forall in Hc.
  specialize (Hc c Hin). pose proof (code_range c). change 127 with (Z.ones 7).
  rewrite Z.land_ones, Z.mod_small by lia. apply chr_code.
Qed.

(** The registry after a history, newest event first. *)
Fixpoint relay_after (es : list RelayEvent) : RelayRegistry :=
  match es with [] => jsmap_empty | e :: es' => (relay_step e (relay_after es')).1 end.

Definition relay_ok (homes : RelayRegistry) : Prop :=
  ∀ u h, map_get u homes = Some h → map_wf (he_clients h).

Lemma relay_ok_set u h homes :
  map_wf (he_clients h) → relay_ok homes → relay_ok (map_set u h homes).
Proof. intros Hh Hok u' h'. rewrite map_get_set. case_decide; [by intros [= <-]|apply Hok]. Qed.

Lemma relay_ok_delete u homes : relay_ok homes → relay_ok (map_delete u homes).
Proof. intros Hok u' h'. rewrite map_get_delete. case_decide; [done|apply Hok]. Qed.

Lemma relay_ok_step e homes : relay_ok homes → relay_ok (relay_step e homes).1.
Proof.
  intros Hok. destruct e as [u s|u s|u d|c u s|u c d|u c]; simpl.
  - unfold attachHome. destruct (map_get u homes); apply relay_ok_set; try done; try apply map_wf_empty.
    by apply relay_ok_delete.
  - unfold detachHome. destruct (map_get u homes); [|done]. destruct (negb _); [done|].
    by apply relay_ok_delete.
  - destruct (homeMessage_cases u d homes) as [-> |[-> |(h & conn & c & Hh & Hc & [-> |[b ->]])]]; try done.
    apply relay_ok_set; [|done]. by eapply map_wf_delete, Hok.
  - unfold attachClient. destruct (map_get u homes) eqn:Hh; [|done]. apply relay_ok_set; [|done].
    by eapply map_wf_set, Hok.
  - done.
  - unfold detachClient. destruct (map_get u homes) eqn:Hh; [|done]. destruct (map_has _ _); [|done].
    apply relay_ok_set; [|done]. by eapply map_wf_delete, Hok.
Qed.

Lemma relay_after_ok es : relay_ok (relay_after es).
Proof. induction es as [|e es IH]; [done|by apply relay_ok_step]. Qed.

Lemma close_clients_attached u h e s homes :
  relay_ok homes → map_get u homes = Some h → e ∈ close_clients h → effect_to e s → attached u s homes.
Proof.
  intros Hok Hh He Hs. exists h. split; [done|right].
  apply map_values_get; [by eapply Hok|]. by eapply close_clients_to.
Qed.

Lemma map_has_get {K V} `{EqDecision K} (k : K) (m : jsmap K V) :
  map_has k m = true → ∃ v, map_get k m = Some v.
Proof. unfold map_has. destruct (map_get k m); eauto. done. Qed.

(** Whatever a step outputs goes to a socket of its user. *)
Lemma step_targets e homes x s :
  relay_ok homes → x ∈ (relay_step e homes).2 → effect_to x s →
  attached (event_user e) s homes ∨ brings e s.
Proof.
  intros Hok Hx Hs. destruct e as [u t|u t|u d|c u t|u c d|u c]; simpl in Hx |- *.
  - unfold attachHome in Hx. destruct (map_get u homes) as [h|] eqn:Hh; [|by apply not_elem_of_nil in Hx].
    left. apply elem_of_app in Hx as [Hx| ->%list_elem_of_singleton];
      [by eapply close_clients_attached|]. exists h. split; [done|by left].
  - unfold detachHome in Hx. destruct (map_get u homes) as [h|] eqn:Hh; [|by apply not_elem_of_nil in Hx].
    destruct (negb _); [by apply not_elem_of_nil in Hx|]. left. by eapply close_clients_attached.
  - left. destruct (homeMessage_cases u d homes) as [E|[E|(h & conn & c & Hh & Hc & [E|[b E]])]];
      rewrite E in Hx; [by apply not_elem_of_nil in Hx|..];
      apply list_elem_of_singleton in Hx as ->; [done|..]; simpl in Hs; subst;
      exists h; (split; [done|right; eauto]).
  - unfold attachClient in Hx. destruct (map_get u homes) as [h|] eqn:Hh;
      apply list_elem_of_singleton in Hx as ->; simpl in Hs; [left|by right].
    exists h. split; [done|by left].
  - unfold clientMessage in Hx. destruct (map_get u homes) as [h|] eqn:Hh; [|by apply not_elem_of_nil in Hx].
    destruct (map_has _ _); [|by apply not_elem_of_nil in Hx].
    apply list_elem_of_singleton in Hx as ->. left. exists h. split; [done|by left].
  - unfold detachClient in Hx. destruct (map_get u homes) as [h|] eqn:Hh; [|by apply not_elem_of_nil in Hx].
    destruct (map_has _ _); [|by apply not_elem_of_nil in Hx].
    apply list_elem_of_singleton in Hx as ->. left. exists h. split; [done|by left].
Qed.

(** A socket is dropped only with a close, unless it is gone already. *)
Lemma step_keeps e homes s :
  attached (event_user e) s homes →
  attached (event_user e) s (relay_step e homes).1
  ∨ (∃ code reason, RClose s code reason ∈ (relay_step e homes).2)
  ∨ leaves e s homes.
Proof.
  intros (h & Hh & Hs). destruct e as [u t|u t|u d|c u t|u c d|u c]; simpl in Hh |- *.
  - right; left. unfold attachHome. rewrite Hh. simpl. destruct Hs as [Hs|[conn Hc]]; [rewrite Hs|].
    + do 2 eexists. apply elem_of_app. right. left.
    + do 2 eexists. apply elem_of_app. left. by eapply in_close_clients.
  - unfold detachHome. rewrite Hh. destruct (Nat.eqb_spec (he_socket h) t) as [Heq|Hne]; [subst t|]; cbn [negb].
    + destruct Hs as [Hs|[conn Hc]]; [by right; right|].
      right; left. do 2 eexists. by eapply in_close_clients.
    + left. by exists h.
  - destruct (homeMessage_cases u d homes) as [-> |[-> |(h' & conn & c & Hh' & Hc & [-> |[b ->]])]];
      try (left; by exists h). simplify_eq. destruct Hs as [Hs|[conn' Hc']].
    + left. eexists. split; [apply map_get_set_eq|]. by left.
    + destruct (decide (conn' = conn)) as [->|Hne].
      * simplify_eq. right; left. do 2 eexists. left.
      * left. eexists. split; [apply map_get_set_eq|]. right. exists conn'. simpl.
        by rewrite map_get_delete_ne by congruence.
  - unfold attachClient. rewrite Hh. destruct Hs as [Hs|[conn Hc]].
    + left. eexists. split; [apply map_get_set_eq|]. by left.
    + destruct (decide (conn = c)) as [->|Hne]; [right; right; by exists h|].
      left. eexists. split; [apply map_get_set_eq|]. right. exists conn. simpl.
      by rewrite map_get_set_ne by congruence.
  - left. by exists h.
  - unfold detachClient. rewrite Hh. destruct (map_has c (he_clients h)); [|left; by exists h].
    destruct Hs as [Hs|[conn Hc]].
    + left. eexists. split; [apply map_get_set_eq|]. by left.
    + destruct (decide (conn = c)) as [->|Hne]; [right; right; by exists h|].
      left. eexists. split; [apply map_get_set_eq|]. right. exists conn. simpl.
      by rewrite map_get_delete_ne by congruence.
Qed.

(** ** Properties *)

(** C17: in every history of the relay an event of one account changes nothing
    of another account and sends or closes only sockets of its own account (or
    the one it brings in); a socket stops being attached only when it is
    closed, has gone, or its connection id is drawn again; and what an away
    device sends reaches the home under its connection id, what the home sends
    under that id reaches that device, bytes unchanged. *)
Theorem relay_isolates_and_pipes es e :
  let homes := relay_after es in
  let u := event_user e in
  (∀ user, user ≠ u → map_get user (relay_step e homes).1 = map_get user homes)
  ∧ (∀ x s, x ∈ (relay_step e homes).2 → effect_to x s → attached u s homes ∨ brings e s)
  ∧ (∀ s, attached u s homes →
       attached u s (relay_step e homes).1
       ∨ (∃ code reason, RClose s code reason ∈ (relay_step e homes).2)
       ∨ leaves e s homes)
  ∧ ∀ user home conn client data,
      map_get user homes = Some home → map_get conn (he_clients home) = Some client → conn_id conn →
      let frame := PBytes (bytes_of_ascii conn ++ data) in
      clientMessage user conn data homes = [RSend (he_socket home) frame]
      ∧ homeMessage user frame homes = (homes, [RSend client (PBytes data)]).
Proof.
  intros homes u. split; [intros; by apply step_other_user|].
  split; [intros x s; apply step_targets, relay_after_ok|]. split; [apply step_keeps|].
  intros user home conn client data Hh Hc Hid frame. split.
  - unfold clientMessage. rewrite Hh. unfold map_has. by rewrite Hc.
  - unfold homeMessage, frame. rewrite Hh.
    assert (length (bytes_of_ascii conn) = CONN_ID_BYTES) as Hlen.
    { unfold bytes_of_ascii. rewrite length_map, chars_length. apply Hid. }
    rewrite (proj2 (Nat.ltb_ge _ _)) by (rewrite length_app; lia).
    rewrite take_app_le, take_ge, drop_app_ge by lia. rewrite Hlen, Nat.sub_diag, drop_0.
    by rewrite ascii_bytes, Hc.
Qed.

(** Two accounts, one away device, one frame each way. *)
Example relay_round :
  let homes := relay_after [RAttachClient "deadbeef" "ann" 2%nat; RAttachHome "bob" 9%nat; RAttachHome "ann" 1%nat] in
  (clientMessage "ann" "deadbeef" [1; 2] homes,
   (homeMessage "ann" (PBytes (bytes_of_ascii "deadbeef" ++ [3; 4])) homes).2,
   (homeMessage "bob" (PBytes (bytes_of_ascii "deadbeef" ++ [3; 4])) homes).2)
  = ([RSend 1%nat (PBytes (bytes_of_ascii "deadbeef" ++ [1; 2]))], [RSend 2%nat (PBytes [3; 4])], []).
Proof. vm_compute. reflexivity. Qed.

(** The control text "null" of a home raises. *)
Example null_control_throws :
  (homeMessage "ann" (PText "null") (relay_after [RAttachHome "ann" 1%nat])).2 = [RThrow].
Proof. vm_compute. reflexivity. Qed.
