(* ===== verification/Workspace.v ===== *)
(** * Workspace documents and their merge (packages/protocol/src/workspace.ts,
    apps/desktop/src/main/sync/workspace-map.ts)

    A document is one last-writer-wins register.  Its JSON form lists the
    members in the order the sources build them. *)

From S2P Require Export Hlc Encoding Json JsMap.
From Stdlib Require Import Ascii.

(** ** Data *)

Inductive EgressPolicy := suma_ip | direct_policy.

Record SpaceMeta := mkSpace {
  sp_id : string; sp_name : string; sp_color : string; sp_icon : option string;
  sp_position : Z; sp_egressPolicy : EgressPolicy; sp_createdAtMs : Z
}.

Record PinnedTab := mkPin {
  pin_id : string; pin_spaceId : string; pin_url : string; pin_title : string;
  pin_faviconUrl : option string; pin_position : Z
}.

Record SyncedTabPresence := mkTabPresence {
  tp_id : string; tp_spaceId : string; tp_createdAtMs : Z
}.

Record SyncedTabUrl := mkTabUrl { tu_tabId : string; tu_url : string }.

Record SyncedTabOrder := mkTabOrder { to_tabId : string; to_spaceId : string; to_rank : string }.

Record SyncedDeviceActivity := mkActivity {
  da_deviceId : string; da_identityDeviceId : string; da_controlDeviceId : option string;
  da_name : string; da_platform : string; da_updatedAtMs : Z
}.

Record SyncedWorkspaceFocus := mkFocus {
  wf_activeSpaceId : option string; wf_activeTabId : option string; wf_splitTabId : option string
}.

Record ArchivedTab := mkArchive {
  ar_id : string; ar_spaceId : string; ar_url : string; ar_title : string; ar_archivedAtMs : Z
}.

Record HistoryVisit := mkVisit {
  hv_id : string; hv_url : string; hv_title : string; hv_atMs : Z
}.

Definition HISTORY_RETENTION_MS : Z := 90 * 24 * 60 * 60 * 1000.
Definition HISTORY_MAX_VISITS : nat := 2000.

Inductive KeyMode := e2ee | suma_managed.

Record WorkspaceSettings := mkSettings {
  historySyncEnabled : bool; autoArchiveAfterHours : Z; keyMode : KeyMode; newTabUrl : string
}.

Definition DEFAULT_WORKSPACE_SETTINGS : WorkspaceSettings :=
  mkSettings false 12 e2ee "https://www.google.com".

Inductive WorkspaceSettingsField := historySync | autoArchive | keyModeField | newTabUrlField.

(** One settings field with its value. *)
Inductive WorkspaceSettingsDoc :=
| SHistorySync (enabled : bool)
| SAutoArchive (hours : Z)
| SKeyMode (mode : KeyMode)
| SNewTabUrl (url : string).

Inductive WorkspaceDoc :=
| DSpace (space : SpaceMeta)
| DSpaceFolder (spaceId folder : string)
| DPin (pin : PinnedTab)
| DTabPresence (tab : SyncedTabPresence)
| DTabUrl (tab : SyncedTabUrl)
| DTabOrder (tab : SyncedTabOrder)
| DWorkspaceFocus (focus : SyncedWorkspaceFocus)
| DDeviceActivity (activity : SyncedDeviceActivity)
| DArchive (archive : ArchivedTab)
| DHistory (visit : HistoryVisit)
| DSettings (field : WorkspaceSettingsDoc).

#[export] Instance EgressPolicy_eq_dec : EqDecision EgressPolicy.
Proof. solve_decision. Defined.
#[export] Instance SpaceMeta_eq_dec : EqDecision SpaceMeta.
Proof. solve_decision. Defined.
#[export] Instance PinnedTab_eq_dec : EqDecision PinnedTab.
Proof. solve_decision. Defined.
#[export] Instance ArchivedTab_eq_dec : EqDecision ArchivedTab.
Proof. solve_decision. Defined.
#[export] Instance HistoryVisit_eq_dec : EqDecision HistoryVisit.
Proof. solve_decision. Defined.
#[export] Instance KeyMode_eq_dec : EqDecision KeyMode.
Proof. solve_decision. Defined.
#[export] Instance SettingsField_eq_dec : EqDecision WorkspaceSettingsField.
Proof. solve_decision. Defined.

Definition settings_field (doc : WorkspaceSettingsDoc) : WorkspaceSettingsField :=
  match doc with
  | SHistorySync _ => historySync | SAutoArchive _ => autoArchive
  | SKeyMode _ => keyModeField | SNewTabUrl _ => newTabUrlField
  end.

Definition field_name (f : WorkspaceSettingsField) : string :=
  match f with
  | historySync => "historySync" | autoArchive => "autoArchive"
  | keyModeField => "keyMode" | newTabUrlField => "newTabUrl"
  end.

Definition workspaceKeyFor (doc : WorkspaceDoc) : string :=
  match doc with
  | DSpace space => "space:" +:+ sp_id space
  | DSpaceFolder spaceId _ => "spaceFolder:" +:+ spaceId
  | DPin pin => "pin:" +:+ pin_id pin
  | DTabPresence tab => "tab:" +:+ tp_id tab +:+ ":presence"
  | DTabUrl tab => "tab:" +:+ tu_tabId tab +:+ ":url"
  | DTabOrder tab => "tab:" +:+ to_tabId tab +:+ ":order"
  | DWorkspaceFocus _ => "workspace:focus"
  | DDeviceActivity activity => "device:" +:+ da_deviceId activity +:+ ":activity"
  | DArchive archive => "archive:" +:+ ar_id archive
  | DHistory visit => "history:" +:+ hv_id visit
  | DSettings doc => "settings:" +:+ field_name (settings_field doc)
  end.

Definition settingsDocs (settings : WorkspaceSettings) : list WorkspaceSettingsDoc :=
  [SHistorySync (historySyncEnabled settings); SAutoArchive (autoArchiveAfterHours settings);
   SKeyMode (keyMode settings); SNewTabUrl (newTabUrl settings)].

Definition applySettingsDoc (s : WorkspaceSettings) (doc : WorkspaceSettingsDoc) : WorkspaceSettings :=
  match doc with
  | SHistorySync b => mkSettings b (autoArchiveAfterHours s) (keyMode s) (newTabUrl s)
  | SAutoArchive n => mkSettings (historySyncEnabled s) n (keyMode s) (newTabUrl s)
  | SKeyMode m => mkSettings (historySyncEnabled s) (autoArchiveAfterHours s) m (newTabUrl s)
  | SNewTabUrl u => mkSettings (historySyncEnabled s) (autoArchiveAfterHours s) (keyMode s) u
  end.

(** ** JSON form *)

Definition opt_member (k : string) (o : option string) : list (string * json) :=
  match o with Some s => [(k, JStr s)] | None => [] end.

Definition opt_str (o : option string) : json :=
  match o with Some s => JStr s | None => JNull end.

Definition egress_json (p : EgressPolicy) : json :=
  JStr (match p with suma_ip => "suma-ip" | direct_policy => "direct" end).

Definition space_json (s : SpaceMeta) : json :=
  JObj ([("id", JStr (sp_id s)); ("name", JStr (sp_name s)); ("color", JStr (sp_color s))]
    ++ opt_member "icon" (sp_icon s)
    ++ [("position", JNum (sp_position s)); ("egressPolicy", egress_json (sp_egressPolicy s));
        ("createdAtMs", JNum (sp_createdAtMs s))]).

Definition pin_json (p : PinnedTab) : json :=
  JObj ([("id", JStr (pin_id p)); ("spaceId", JStr (pin_spaceId p)); ("url", JStr (pin_url p));
         ("title", JStr (pin_title p))]
    ++ opt_member "faviconUrl" (pin_faviconUrl p) ++ [("position", JNum (pin_position p))]).

Definition activity_json (a : SyncedDeviceActivity) : json :=
  JObj [("deviceId", JStr (da_deviceId a)); ("identityDeviceId", JStr (da_identityDeviceId a));
        ("controlDeviceId", opt_str (da_controlDeviceId a)); ("name", JStr (da_name a));
        ("platform", JStr (da_platform a)); ("updatedAtMs", JNum (da_updatedAtMs a))].

Definition key_mode_json (m : KeyMode) : json :=
  JStr (match m with e2ee => "e2ee" | suma_managed => "suma-managed" end).

Definition settings_value (doc : WorkspaceSettingsDoc) : string * json :=
  match doc with
  | SHistorySync b => ("historySyncEnabled", JBool b)
  | SAutoArchive n => ("autoArchiveAfterHours", JNum n)
  | SKeyMode m => ("keyMode", key_mode_json m)
  | SNewTabUrl u => ("newTabUrl", JStr u)
  end.

Definition tagged (kind : string) (rest : list (string * json)) : json :=
  JObj (("kind", JStr kind) :: rest).

Definition doc_json (doc : WorkspaceDoc) : json :=
  match doc with
  | DSpace s => tagged "space" [("space", space_json s)]
  | DSpaceFolder id folder => tagged "spaceFolder" [("spaceId", JStr id); ("folder", JStr folder)]
  | DPin p => tagged "pin" [("pin", pin_json p)]
  | DTabPresence t =>
      tagged "tabPresence"
        [("tab", JObj [("id", JStr (tp_id t)); ("spaceId", JStr (tp_spaceId t));
                       ("createdAtMs", JNum (tp_createdAtMs t))])]
  | DTabUrl t => tagged "tabUrl" [("tab", JObj [("tabId", JStr (tu_tabId t)); ("url", JStr (tu_url t))])]
  | DTabOrder t =>
      tagged "tabOrder"
        [("tab", JObj [("tabId", JStr (to_tabId t)); ("spaceId", JStr (to_spaceId t));
                       ("rank", JStr (to_rank t))])]
  | DWorkspaceFocus f =>
      tagged "workspaceFocus"
        [("focus", JObj [("activeSpaceId", opt_str (wf_activeSpaceId f));
                         ("activeTabId", opt_str (wf_activeTabId f));
                         ("splitTabId", opt_str (wf_splitTabId f))])]
  | DDeviceActivity a => tagged "deviceActivity" [("activity", activity_json a)]
  | DArchive a =>
      tagged "archive"
        [("archive", JObj [("id", JStr (ar_id a)); ("spaceId", JStr (ar_spaceId a));
                           ("url", JStr (ar_url a)); ("title", JStr (ar_title a));
                           ("archivedAtMs", JNum (ar_archivedAtMs a))])]
  | DHistory v =>
      tagged "history"
        [("visit", JObj [("id", JStr (hv_id v)); ("url", JStr (hv_url v));
                         ("title", JStr (hv_title v)); ("atMs", JNum (hv_atMs v))])]
  | DSettings d =>
      tagged "settings" [("field", JStr (field_name (settings_field d))); settings_value d]
  end.

Definition value_json (value : option WorkspaceDoc) : json :=
  match value with Some doc => doc_json doc | None => JNull end.

(** ** Registers and the merge *)

Record LwwRegister (T : Type) := mkLww { lww_value : option T; lww_hlc : Hlc }.
Arguments mkLww {T}.
Arguments lww_value {T}.
Arguments lww_hlc {T}.

(** Whether [mergeLww] returns the incoming register. *)
Definition incoming_wins {T} (current : option (LwwRegister T)) (incoming : LwwRegister T) : bool :=
  match current with
  | None => true
  | Some cur => compareHlc (lww_hlc incoming) (lww_hlc cur) >? 0
  end.

Definition mergeLww {T} (current : option (LwwRegister T)) (incoming : LwwRegister T) : LwwRegister T :=
  match current with
  | None => incoming
  | Some cur => if compareHlc (lww_hlc incoming) (lww_hlc cur) >? 0 then incoming else cur
  end.

(** A local register: no document is a tombstone. *)
Record WorkspaceRegister := mkReg { reg_doc : option WorkspaceDoc; reg_hlc : Hlc }.
(** [Record<string, WorkspaceRegister>]: every key has a colon, so the
    properties keep their insertion order. *)
Definition Registers : Type := jsmap string WorkspaceRegister.

Record IncomingWorkspaceDoc := mkIncoming {
  in_key : string; in_value : option WorkspaceDoc; in_hlc : Hlc
}.

Record MergeDecision := mkDecision {
  md_apply : list IncomingWorkspaceDoc; md_adoptHlc : list IncomingWorkspaceDoc
}.

Definition docValueEquals (a b : option WorkspaceDoc) : bool :=
  String.eqb (stringify (value_json a)) (stringify (value_json b)).

Definition as_lww (r : WorkspaceRegister) : LwwRegister WorkspaceDoc := mkLww (reg_doc r) (reg_hlc r).

Definition incoming_register (doc : IncomingWorkspaceDoc) : WorkspaceRegister :=
  mkReg (in_value doc) (in_hlc doc).

(** One iteration of the loop of [decideMerge]. *)
Definition decide_one (local : Registers) (acc : MergeDecision) (doc : IncomingWorkspaceDoc)
    : MergeDecision :=
  match map_get (in_key doc) local with
  | None => mkDecision (md_apply acc ++ [doc]) (md_adoptHlc acc)
  | Some current =>
      if negb (incoming_wins (Some (as_lww current)) (as_lww (incoming_register doc))) then acc
      else if docValueEquals (reg_doc current) (in_value doc)
      then mkDecision (md_apply acc) (md_adoptHlc acc ++ [doc])
      else mkDecision (md_apply acc ++ [doc]) (md_adoptHlc acc)
  end.

Definition decideMerge (local : Registers) (incoming : list IncomingWorkspaceDoc) : MergeDecision :=
  fold_left (decide_one local) incoming (mkDecision [] []).

(** ** State mapping and byte layouts *)

Record GlobalWorkspaceState := mkGlobal {
  gw_spaces : list SpaceMeta; gw_pins : list PinnedTab; gw_archives : list ArchivedTab;
  gw_settings : WorkspaceSettings
}.

Definition docsForState (state : GlobalWorkspaceState) : list WorkspaceDoc :=
  map DSpace (gw_spaces state) ++ map DPin (gw_pins state) ++ map DArchive (gw_archives state)
  ++ map DSettings (settingsDocs (gw_settings state)).

Definition WORKSPACE_PSEUDO_SPACE_ID : string := "__workspace__".

Definition workspaceSealAad (key : string) : bytes :=
  lengthPrefixed [PStr "suma.workspace.seal.v1"; PStr key].

Definition workspaceSigningBytes (key : string) (sealedValue : option string) (hlc : Hlc) : bytes :=
  lengthPrefixed
    [PStr "suma.workspacesig.v1"; PStr key; PStr (default "" sealedValue); PStr (encodeHlc hlc)].

(** ** Lemmas: JSON *)

Ltac nodup_names :=
  repeat (apply NoDup_cons; split;
          [rewrite ?elem_of_cons, elem_of_nil; intuition discriminate|]); apply NoDup_nil_2.

Ltac json_wf_tac :=
  simpl; repeat match goal with
  | |- _ ∧ _ => split
  | |- NoDup _ => nodup_names
  | |- Forall _ _ => constructor
  | |- id _ => unfold id
  end; try done.

Lemma space_json_wf s : json_wf (space_json s).
Proof. destruct s as [i n c [ic|] p e t]; json_wf_tac. Qed.

Lemma pin_json_wf p : json_wf (pin_json p).
Proof. destruct p as [i n c t [ic|] e]; json_wf_tac. Qed.

Lemma opt_str_wf o : json_wf (opt_str o).
Proof. by destruct o. Qed.

Lemma activity_json_wf a : json_wf (activity_json a).
Proof. destruct a as [? ? [] ? ? ?]; json_wf_tac. Qed.

Lemma tagged_wf kind k v : k ≠ "kind" → json_wf v → json_wf (tagged kind [(k, v)]).
Proof.
  intros Hk Hv. apply json_wf_obj. split; [|by repeat constructor].
  apply NoDup_cons. rewrite list_elem_of_singleton. split; [simpl; congruence|]. apply NoDup_singleton.
Qed.

Lemma value_json_wf v : json_wf (value_json v).
Proof.
  destruct v as [[s|i f|p|[]|[]|[]|[[] [] []]|a|[]|[]|[]]|];
    try (apply tagged_wf; [done|];
         first [apply space_json_wf|apply pin_json_wf|apply activity_json_wf|idtac]); json_wf_tac.
Qed.

Lemma opt_str_inj a b : opt_str a = opt_str b → a = b.
Proof. destruct a, b; simpl; congruence. Qed.

Lemma space_json_inj a b : space_json a = space_json b → a = b.
Proof.
  destruct a as [? ? ? [] ? [] ?], b as [? ? ? [] ? [] ?]; cbn; intros [=]; congruence.
Qed.

Lemma pin_json_inj a b : pin_json a = pin_json b → a = b.
Proof. destruct a as [? ? ? ? [] ?], b as [? ? ? ? [] ?]; cbn; intros [=]; congruence. Qed.

Lemma value_json_inj a b : value_json a = value_json b → a = b.
Proof.
  destruct a as [a|], b as [b|]; [|by destruct a|by destruct b|done]. simpl.
  destruct a as [x|x y|x|[]|[]|[]|[]|[]|[]|[]|x], b as [x'|x' y'|x'|[]|[]|[]|[]|[]|[]|[]|x'];
    simpl; intros H; try discriminate H.
  - by rewrite (space_json_inj x x' (f_equal (λ j, default JNull (jget "space" j)) H)).
  - injection H; congruence.
  - by rewrite (pin_json_inj x x' (f_equal (λ j, default JNull (jget "pin" j)) H)).
  - injection H; congruence.
  - injection H; congruence.
  - injection H; congruence.
  - injection H as H1%opt_str_inj H2%opt_str_inj H3%opt_str_inj. congruence.
  - injection H as ? ? H3%opt_str_inj ? ? ?. congruence.
  - injection H; congruence.
  - injection H; congruence.
  - destruct x as [| |[]|], x' as [| |[]|]; cbn in H; try discriminate H; try injection H; congruence.
Qed.

Lemma stringify_inj a b : json_wf a → json_wf b → stringify a = stringify b → a = b.
Proof. intros Ha Hb H. apply parse_stringify in Ha, Hb. rewrite H in Ha. congruence. Qed.

Lemma docValueEquals_iff a b : docValueEquals a b = true ↔ a = b.
Proof.
  unfold docValueEquals. rewrite String.eqb_eq. split; [|by intros ->].
  intros H%stringify_inj; [by apply value_json_inj|apply value_json_wf..].
Qed.

(** ** Lemmas: keys *)

Lemma key_space d id : workspaceKeyFor d = "space:" +:+ id → ∃ s, d = DSpace s ∧ sp_id s = id.
Proof. destruct d; intros [=]; eauto. Qed.
Lemma key_pin d id : workspaceKeyFor d = "pin:" +:+ id → ∃ p, d = DPin p ∧ pin_id p = id.
Proof. destruct d; intros [=]; eauto. Qed.
Lemma key_archive d id : workspaceKeyFor d = "archive:" +:+ id → ∃ a, d = DArchive a ∧ ar_id a = id.
Proof. destruct d; intros [=]; eauto. Qed.
Lemma key_history d id : workspaceKeyFor d = "history:" +:+ id → ∃ v, d = DHistory v ∧ hv_id v = id.
Proof. destruct d; intros [=]; eauto. Qed.
Lemma key_settings d f :
  workspaceKeyFor d = "settings:" +:+ field_name f → ∃ s, d = DSettings s ∧ settings_field s = f.
Proof.
  destruct d; intros [=]. eexists. split; [done|]. by destruct (settings_field field), f.
Qed.

(** ** Lemmas: settings *)

Lemma settingsDocs_field f s : ∃ d, d ∈ settingsDocs s ∧ settings_field d = f.
Proof.
  destruct f; [exists (SHistorySync (historySyncEnabled s))|exists (SAutoArchive (autoArchiveAfterHours s))
    |exists (SKeyMode (keyMode s))|exists (SNewTabUrl (newTabUrl s))]; (split; [|done]); set_solver.
Qed.

Lemma settingsDocs_apply s d e :
  e ∈ settingsDocs (applySettingsDoc s d) ↔
  e = d ∨ e ∈ settingsDocs s ∧ settings_field e ≠ settings_field d.
Proof.
  unfold settingsDocs. destruct d; simpl; rewrite !elem_of_cons, elem_of_nil;
    (split; [intros [->|[->|[->|[->|[]]]]]; simpl; intuition congruence
            |intros [->|[[->|[->|[->|[->|[]]]]] H]]; simpl in *; intuition congruence]).
Qed.

(** ** Lemmas: the merge *)

Lemma mergeLww_wins {T} (cur : option (LwwRegister T)) inc :
  mergeLww cur inc = if incoming_wins cur inc then inc else default inc cur.
Proof. by destruct cur. Qed.

(** Whether the incoming document replaces the register of its key. *)
Definition wins (regs : Registers) (doc : IncomingWorkspaceDoc) : Prop :=
  ∀ cur, map_get (in_key doc) regs = Some cur → hlc_lt (reg_hlc cur) (in_hlc doc).

(** What the callers of [decideMerge] do with the decision. *)
Definition adopt (regs : Registers) (doc : IncomingWorkspaceDoc) : Registers :=
  map_set (in_key doc) (incoming_register doc) regs.

Definition adopt_decision (d : MergeDecision) (regs : Registers) : Registers :=
  fold_left adopt (md_apply d ++ md_adoptHlc d) regs.

Lemma adopt_all_get docs regs k :
  NoDup (map in_key docs) →
  map_get k (fold_left adopt docs regs)
  = match list_find (λ d, in_key d = k) docs with
    | Some (_, d) => Some (incoming_register d)
    | None => map_get k regs
    end.
Proof.
  revert regs. induction docs as [|d docs IH]; intros regs Hnd; [done|].
  cbn [map] in Hnd. apply NoDup_cons in Hnd as [Hd Hnd]. cbn [fold_left list_find].
  rewrite IH by done. unfold adopt at 1. rewrite map_get_set.
  destruct (decide (in_key d = k)) as [Hk|Hne].
  - destruct (list_find _ docs) as [[i e]|] eqn:E; [|done].
    apply list_find_Some in E as (Hi & He & _). exfalso. apply Hd. rewrite Hk, <- He.
    apply list_elem_of_fmap. exists e. split; [done|]. by eapply list_elem_of_lookup_2.
  - by destruct (list_find _ docs) as [[]|].
Qed.

(** What one iteration adds: nothing, the document to [apply] with a value
    that differs from the local one, or the document to [adoptHlc]. *)
Lemma decide_one_cases local acc doc :
  (¬ wins local doc ∧ decide_one local acc doc = acc)
  ∨ (wins local doc
     ∧ (∀ cur, map_get (in_key doc) local = Some cur → reg_doc cur ≠ in_value doc)
     ∧ decide_one local acc doc = mkDecision (md_apply acc ++ [doc]) (md_adoptHlc acc))
  ∨ (wins local doc
     ∧ (∃ cur, map_get (in_key doc) local = Some cur ∧ reg_doc cur = in_value doc)
     ∧ decide_one local acc doc = mkDecision (md_apply acc) (md_adoptHlc acc ++ [doc])).
Proof.
  unfold decide_one, wins. destruct (map_get (in_key doc) local) as [cur|] eqn:E; [|right; left; naive_solver].
  unfold incoming_wins. cbn [as_lww incoming_register lww_hlc reg_hlc reg_doc].
  destruct (_ >? 0) eqn:Ew; cbn [negb].
  - apply compareHlc_gtb in Ew. right. destruct (docValueEquals _ _) eqn:Ev.
    + apply docValueEquals_iff in Ev. right. naive_solver.
    + assert (reg_doc cur ≠ in_value doc) by (rewrite <- docValueEquals_iff; congruence).
      left. naive_solver.
  - left. split; [|done]. intros H. specialize (H cur eq_refl). apply compareHlc_gtb in H. congruence.
Qed.

Definition decided (d : MergeDecision) : list IncomingWorkspaceDoc := md_apply d ++ md_adoptHlc d.

Lemma decideMerge_acc local docs acc e :
  e ∈ decided (fold_left (decide_one local) docs acc) ↔ e ∈ decided acc ∨ e ∈ docs ∧ wins local e.
Proof.
  revert acc. induction docs as [|d docs IH]; intros acc; cbn [fold_left].
  - rewrite elem_of_nil. tauto.
  - rewrite IH, elem_of_cons. unfold decided.
    destruct (decide_one_cases local acc d) as [[Hw ->]|[(Hw & _ & ->)|(Hw & _ & ->)]];
      cbn [md_apply md_adoptHlc]; rewrite ?elem_of_app, ?list_elem_of_singleton; naive_solver.
Qed.

(** Exactly the winners are applied or adopted. *)
Lemma decideMerge_in local docs e :
  e ∈ decided (decideMerge local docs) ↔ e ∈ docs ∧ wins local e.
Proof. unfold decideMerge. rewrite decideMerge_acc. unfold decided. cbn. rewrite elem_of_nil. tauto. Qed.

Lemma decideMerge_parts local docs acc e :
  (e ∈ md_apply acc → ∀ cur, map_get (in_key e) local = Some cur → reg_doc cur ≠ in_value e) →
  (e ∈ md_adoptHlc acc → ∃ cur, map_get (in_key e) local = Some cur ∧ reg_doc cur = in_value e) →
  let d := fold_left (decide_one local) docs acc in
  (e ∈ md_apply d → ∀ cur, map_get (in_key e) local = Some cur → reg_doc cur ≠ in_value e)
  ∧ (e ∈ md_adoptHlc d → ∃ cur, map_get (in_key e) local = Some cur ∧ reg_doc cur = in_value e).
Proof.
  revert acc. induction docs as [|x docs IH]; intros acc Ha Hb; [done|].
  destruct (decide_one_cases local acc x) as [[_ H]|[(_ & Hv & H)|(_ & Hv & H)]];
    cbn [fold_left]; rewrite H; apply IH; cbn [md_apply md_adoptHlc]; try done;
    rewrite elem_of_snoc; intros [?| ->]; eauto.
Qed.

(** A document is adopted without being applied only when its value is the
    local one; it is applied only when its value differs. *)
Lemma decideMerge_values local docs e :
  (e ∈ md_apply (decideMerge local docs) →
     ∀ cur, map_get (in_key e) local = Some cur → reg_doc cur ≠ in_value e)
  ∧ (e ∈ md_adoptHlc (decideMerge local docs) →
     ∃ cur, map_get (in_key e) local = Some cur ∧ reg_doc cur = in_value e).
Proof. apply decideMerge_parts; by intros ?%elem_of_nil. Qed.

(** ** A register as a join of the documents seen *)

Definition reg_merge (cur : option WorkspaceRegister) (doc : IncomingWorkspaceDoc)
    : option WorkspaceRegister :=
  match cur with
  | Some c => if compareHlc (in_hlc doc) (reg_hlc c) >? 0 then Some (incoming_register doc) else cur
  | None => Some (incoming_register doc)
  end.

Definition has_key (k : string) (doc : IncomingWorkspaceDoc) : bool := String.eqb (in_key doc) k.

Definition reg_after (k : string) (docs : list IncomingWorkspaceDoc) (cur : option WorkspaceRegister)
    : option WorkspaceRegister :=
  fold_left reg_merge (List.filter (has_key k) docs) cur.

Lemma has_key_iff k d : has_key k d = true ↔ in_key d = k.
Proof. apply String.eqb_eq. Qed.

Lemma reg_after_app k a b cur : reg_after k (a ++ b) cur = reg_after k b (reg_after k a cur).
Proof. unfold reg_after. by rewrite List.filter_app, fold_left_app. Qed.

Lemma filter_key_absent k docs : k ∉ map in_key docs → List.filter (has_key k) docs = [].
Proof.
  intros Hk. apply filter_none. intros d Hd. destruct (has_key k d) eqn:E; [|done].
  apply has_key_iff in E. exfalso. apply Hk. apply list_elem_of_fmap. eauto.
Qed.

Lemma filter_key_unique k docs d :
  NoDup (map in_key docs) → d ∈ docs → in_key d = k → List.filter (has_key k) docs = [d].
Proof.
  induction docs as [|x docs IH]; intros Hnd Hd Hk; [by apply elem_of_nil in Hd|].
  cbn [map] in Hnd. apply NoDup_cons in Hnd as [Hx Hnd]. cbn [List.filter].
  apply elem_of_cons in Hd as [->|Hd].
  - rewrite (proj2 (has_key_iff k x)) by done. by rewrite filter_key_absent by congruence.
  - destruct (has_key k x) eqn:E; [|by apply IH]. apply has_key_iff in E. exfalso. apply Hx.
    apply list_elem_of_fmap. exists d. split; [congruence|done].
Qed.

Lemma decided_nodup local docs :
  NoDup (map in_key docs) → NoDup (map in_key (decided (decideMerge local docs))).
Proof.
  unfold decideMerge. assert (NoDup (map in_key (decided (mkDecision [] []) ++ docs)) →
    NoDup (map in_key (decided (fold_left (decide_one local) docs (mkDecision [] []))))) as H; [|exact H].
  generalize (mkDecision [] []). induction docs as [|d docs IH]; intros acc Hnd.
  - by rewrite app_nil_r in Hnd.
  - cbn [fold_left]. apply IH. revert Hnd. unfold decided.
    destruct (decide_one_cases local acc d) as [[_ ->]|[(_ & _ & ->)|(_ & _ & ->)]]; cbn [md_apply md_adoptHlc];
      rewrite !map_app; cbn [map]; rewrite <- ?(assoc_L (++)).
    + match goal with |- NoDup (?a ++ ?b ++ ?d :: ?c) → _ =>
        assert (Permutation (a ++ b ++ d :: c) (d :: a ++ b ++ c)) as -> by solve_Permutation end.
      by intros [_ ?]%NoDup_cons.
    + match goal with |- NoDup ?a → NoDup ?b => assert (Permutation a b) as -> by solve_Permutation end; done.
    + done.
Qed.

(** A batch with distinct keys joins each document into its register. *)
Lemma adopt_decision_get regs docs k :
  NoDup (map in_key docs) →
  map_get k (adopt_decision (decideMerge regs docs) regs) = reg_after k docs (map_get k regs).
Proof.
  intros Hnd. unfold adopt_decision. rewrite adopt_all_get by (by apply decided_nodup).
  fold (decided (decideMerge regs docs)).
  destruct (list_find _ _) as [[i d]|] eqn:E.
  - apply list_find_Some in E as (Hi & Hk & _). apply list_elem_of_lookup_2 in Hi.
    apply decideMerge_in in Hi as [Hd Hw]. unfold reg_after.
    rewrite (filter_key_unique k docs d Hnd Hd Hk). cbn. unfold reg_merge.
    destruct (map_get k regs) as [c|] eqn:Ec; [|done].
    rewrite <- Hk in Ec. apply Hw, compareHlc_gtb in Ec. by rewrite Ec.
  - apply list_find_None in E. rewrite Forall_forall in E. unfold reg_after.
    destruct (decide (k ∈ map in_key docs)) as [(d & -> & Hd)%list_elem_of_fmap|Hk];
      [|by rewrite filter_key_absent].
    rewrite (filter_key_unique _ docs d Hnd Hd eq_refl). cbn. unfold reg_merge.
    assert (¬ wins regs d) as Hw.
    { intros Hw. apply (E d); [|done]. by apply decideMerge_in. }
    destruct (map_get (in_key d) regs) as [c|] eqn:Ec.
    + destruct (_ >? 0) eqn:Eg; [|done]. apply compareHlc_gtb in Eg. exfalso. apply Hw.
      intros c' Hc'. congruence.
    + exfalso. apply Hw. intros c' Hc'. congruence.
Qed.

(** The join is the newest of the register and the documents of the key. *)
Definition newest (cur : option WorkspaceRegister) (docs : list IncomingWorkspaceDoc)
    (r : option WorkspaceRegister) : Prop :=
  match r with
  | None => cur = None ∧ docs = []
  | Some w =>
      (cur = Some w ∨ ∃ d, d ∈ docs ∧ incoming_register d = w)
      ∧ (∀ c, cur = Some c → hlc_le (reg_hlc c) (reg_hlc w))
      ∧ ∀ d, d ∈ docs → hlc_le (in_hlc d) (reg_hlc w)
  end.

Lemma reg_merge_newest docs cur : newest cur docs (fold_left reg_merge docs cur).
Proof.
  revert cur. induction docs as [|d docs IH]; intros cur; cbn [fold_left].
  - destruct cur as [c|]; [|done]. cbn. split; [by left|]. split; [|by intros ? ?%elem_of_nil].
    intros c' [= <-]. hlc_order.
  - specialize (IH (reg_merge cur d)). unfold newest in *.
    destruct (fold_left _ _ _) as [w|]; [|destruct IH as [IH _]; exfalso; unfold reg_merge in IH;
      destruct cur; [destruct (_ >? 0)|]; discriminate].
    destruct IH as (Hin & Hc & Hd).
    assert (hlc_le (in_hlc d) (reg_hlc w)) as Hdw.
    { unfold reg_merge in Hc. destruct cur as [c|]; [|by apply (Hc (incoming_register d))].
      destruct (_ >? 0) eqn:E; [by apply (Hc (incoming_register d))|].
      apply compareHlc_gtb_false in E. specialize (Hc c eq_refl). hlc_order. }
    split; [|split].
    + destruct Hin as [Hm|(e & He & Hw)]; [|right; exists e; split; [by right|done]].
      unfold reg_merge in Hm. destruct cur as [c|];
        [destruct (_ >? 0); [|by left]|]; right; exists d; (split; [by left|congruence]).
    + intros c ->. unfold reg_merge in Hc. destruct (_ >? 0) eqn:E; [|by apply Hc].
      apply compareHlc_gtb in E. specialize (Hc _ eq_refl). cbn [reg_hlc incoming_register] in Hc. hlc_order.
    + intros e [->|He]%elem_of_cons; [done|by apply Hd].
Qed.

Lemma newest_unique cur docs docs' r r' :
  (∀ d, d ∈ docs ↔ d ∈ docs') →
  (∀ d e, d ∈ docs → e ∈ docs → in_hlc d = in_hlc e → in_value d = in_value e) →
  (∀ c d, cur = Some c → d ∈ docs → reg_hlc c = in_hlc d → reg_doc c = in_value d) →
  newest cur docs r → newest cur docs' r' → r = r'.
Proof.
  intros Hdocs Hdd Hcd. destruct r as [w|], r' as [w'|]; cbn; [| | |done].
  - intros (Hw & Hc & Hd) (Hw' & Hc' & Hd'). f_equal.
    assert (hlc_le (reg_hlc w) (reg_hlc w')) as H1.
    { destruct Hw as [Hw|(d & Hin & <-)]; [by apply Hc'|]. by apply Hd', Hdocs. }
    assert (hlc_le (reg_hlc w') (reg_hlc w)) as H2.
    { destruct Hw' as [Hw'|(d & Hin & <-)]; [by apply Hc|]. by apply Hd, Hdocs. }
    assert (reg_hlc w = reg_hlc w') as He by hlc_order.
    assert (reg_doc w = reg_doc w') as Hv.
    { destruct Hw as [Hw|(d & Hin & <-)], Hw' as [Hw'|(e & Hin' & <-)].
      - congruence.
      - apply (Hcd w e); [done|by apply Hdocs|done].
      - symmetry. by apply (Hcd w' d).
      - apply Hdd; [done|by apply Hdocs|done]. }
    destruct w, w'. cbn in *. congruence.
  - intros ([->|(d & Hin & _)] & _) [? ->]; [done|]. apply Hdocs, elem_of_nil in Hin as [].
  - intros [-> ->] ([?|(d & Hin & _)] & _); [done|]. apply Hdocs, elem_of_nil in Hin as [].
Qed.
