(* ===== verification/WorkspaceStore.v ===== *)
(** * The workspace store (apps/desktop/src/main/workspace-store.ts)

    Spaces, pins, archives, settings, history and the device-local state, with
    one LWW register per synchronized document.  The one listener of document
    changes is the parameter [onDocs]: it is called at the point where the
    source notifies, with the file as it then is.  [wall] gives the successive
    readings of [Date.now]. *)

From S2P Require Export Workspace Cookie.
From Stdlib Require Import Ascii.

(** ** Ranks: [/^-?\d+$/] and [BigInt] *)

Definition is_digit (c : ascii) : bool :=
  match dec_value c with Some _ => true | None => false end.

Fixpoint digits_only (s : string) : bool :=
  match s with EmptyString => true | String c s' => is_digit c && digits_only s' end.

Definition unsigned_digits (s : string) : bool := negb (String.eqb s "") && digits_only s.

Definition bigint_digits (s : string) : Z := default 0 (parse_run 10 dec_value s None).

Definition parseRank (value : string) : Z :=
  match value with
  | String c s =>
      if Ascii.eqb c "-" then (if unsigned_digits s then - bigint_digits s else 0)
      else if unsigned_digits value then bigint_digits value else 0
  | EmptyString => 0
  end.

(** ** [String.prototype.localeCompare]: the platform's collation *)

Class Collator := { localeCompare : string → string → Z }.

Class CollatorLaws (C : Collator) := {
  locale_antisym a b : localeCompare b a = - localeCompare a b;
  locale_trans a b c : localeCompare a b <= 0 → localeCompare b c <= 0 → localeCompare a c <= 0
}.

(** ** Data *)

Inductive OriginOverrideValue := override_sync | override_never.

Record PermissionGrant := mkGrant {
  pg_origin : string; pg_permission : string; pg_granted : bool; pg_decidedAtMs : Z
}.

Record SignInQueueItem := mkSignIn {
  si_domain : string; si_label : string; si_mode : ContinuityMode; si_sensitive : bool;
  si_rank : Z; si_done : bool
}.

Inductive DownloadState := dl_progressing | dl_completed | dl_cancelled | dl_interrupted.

Record DownloadItemInfo := mkDownload {
  dl_id : string; dl_spaceId : string; dl_url : string; dl_filename : string;
  dl_savePath : string; dl_state : DownloadState; dl_receivedBytes : Z; dl_totalBytes : Z;
  dl_startedAtMs : Z; dl_cloudPath : option string
}.

Record DeviceLocalState := mkLocal {
  dv_activeSpaceId : option string;
  dv_manualSyncInitialized : bool;
  dv_manualSyncAccountId : option string;
  dv_activeTabBySpace : jsmap string string;
  dv_todayTabsBySpace : jsmap string (list string);
  dv_realtimeTabsMigratedBySpace : jsmap string bool;
  dv_splitTabBySpace : jsmap string string;
  dv_nativeTransportDomains : list string
}.

Record WorkspaceFile := mkFile {
  wf_spaces : list SpaceMeta;
  wf_pins : list PinnedTab;
  wf_archives : list ArchivedTab;
  wf_settings : WorkspaceSettings;
  wf_originOverrides : jsmap string OriginOverrideValue;
  wf_signInQueue : list SignInQueueItem;
  wf_permissionGrants : list PermissionGrant;
  wf_deviceLocal : DeviceLocalState;
  wf_history : list HistoryVisit;
  wf_lww : Registers;
  wf_downloads : list DownloadItemInfo;
  (** siteBypass and mediaBypass, the two members [setEgressConfig] keeps. *)
  wf_egress : jsmap string (list string * bool)
}.

Definition emptyFile : WorkspaceFile :=
  mkFile [] [] [] DEFAULT_WORKSPACE_SETTINGS [] [] []
    (mkLocal None false None [] [] [] [] []) [] [] [] [].

(** Field updates. *)
Definition with_spaces x f := mkFile x (wf_pins f) (wf_archives f) (wf_settings f)
  (wf_originOverrides f) (wf_signInQueue f) (wf_permissionGrants f) (wf_deviceLocal f)
  (wf_history f) (wf_lww f) (wf_downloads f) (wf_egress f).
Definition with_pins x f := mkFile (wf_spaces f) x (wf_archives f) (wf_settings f)
  (wf_originOverrides f) (wf_signInQueue f) (wf_permissionGrants f) (wf_deviceLocal f)
  (wf_history f) (wf_lww f) (wf_downloads f) (wf_egress f).
Definition with_archives x f := mkFile (wf_spaces f) (wf_pins f) x (wf_settings f)
  (wf_originOverrides f) (wf_signInQueue f) (wf_permissionGrants f) (wf_deviceLocal f)
  (wf_history f) (wf_lww f) (wf_downloads f) (wf_egress f).
Definition with_settings x f := mkFile (wf_spaces f) (wf_pins f) (wf_archives f) x
  (wf_originOverrides f) (wf_signInQueue f) (wf_permissionGrants f) (wf_deviceLocal f)
  (wf_history f) (wf_lww f) (wf_downloads f) (wf_egress f).
Definition with_originOverrides x f := mkFile (wf_spaces f) (wf_pins f) (wf_archives f) (wf_settings f)
  x (wf_signInQueue f) (wf_permissionGrants f) (wf_deviceLocal f)
  (wf_history f) (wf_lww f) (wf_downloads f) (wf_egress f).
Definition with_signInQueue x f := mkFile (wf_spaces f) (wf_pins f) (wf_archives f) (wf_settings f)
  (wf_originOverrides f) x (wf_permissionGrants f) (wf_deviceLocal f)
  (wf_history f) (wf_lww f) (wf_downloads f) (wf_egress f).
Definition with_permissionGrants x f := mkFile (wf_spaces f) (wf_pins f) (wf_archives f) (wf_settings f)
  (wf_originOverrides f) (wf_signInQueue f) x (wf_deviceLocal f)
  (wf_history f) (wf_lww f) (wf_downloads f) (wf_egress f).
Definition with_deviceLocal x f := mkFile (wf_spaces f) (wf_pins f) (wf_archives f) (wf_settings f)
  (wf_originOverrides f) (wf_signInQueue f) (wf_permissionGrants f) x
  (wf_history f) (wf_lww f) (wf_downloads f) (wf_egress f).
Definition with_history x f := mkFile (wf_spaces f) (wf_pins f) (wf_archives f) (wf_settings f)
  (wf_originOverrides f) (wf_signInQueue f) (wf_permissionGrants f) (wf_deviceLocal f)
  x (wf_lww f) (wf_downloads f) (wf_egress f).
Definition with_lww x f := mkFile (wf_spaces f) (wf_pins f) (wf_archives f) (wf_settings f)
  (wf_originOverrides f) (wf_signInQueue f) (wf_permissionGrants f) (wf_deviceLocal f)
  (wf_history f) x (wf_downloads f) (wf_egress f).
Definition with_downloads x f := mkFile (wf_spaces f) (wf_pins f) (wf_archives f) (wf_settings f)
  (wf_originOverrides f) (wf_signInQueue f) (wf_permissionGrants f) (wf_deviceLocal f)
  (wf_history f) (wf_lww f) x (wf_egress f).
Definition with_egress x f := mkFile (wf_spaces f) (wf_pins f) (wf_archives f) (wf_settings f)
  (wf_originOverrides f) (wf_signInQueue f) (wf_permissionGrants f) (wf_deviceLocal f)
  (wf_history f) (wf_lww f) (wf_downloads f) x.

(** ** Arrays *)

(** [findIndex], then overwrite in place or push. *)
Fixpoint upsert {A} (same : A → bool) (x : A) (l : list A) : list A :=
  match l with
  | [] => [x]
  | y :: l' => if same y then x :: l' else y :: upsert same x l'
  end.

(** [findIndex], then [splice(index, 1)]. *)
Fixpoint splice_first {A} (same : A → bool) (l : list A) : list A :=
  match l with [] => [] | y :: l' => if same y then l' else y :: splice_first same l' end.

(** [isAttachmentKey] of workspace-sync.ts; the store repeats the test. *)
Definition isAttachmentKey (key : string) : bool :=
  startsWith key "tab:" || String.eqb key "workspace:focus".

Section WorkspaceStore.
Context {L : Type} (onDocs : list string → WorkspaceFile → L → L).
Context (deviceId : string) (wall : nat → Z) `{C : Collator}.

(** The store with the module clock, the pending write and what is on disk.
    [st_shared]: the visits whose register holds the very object of the
    history list, so that changing the title in place changes both. *)
Record WorkspaceStore := mkStore {
  st_file : WorkspaceFile;
  st_clock : option HlcClock;
  st_ticks : nat;
  st_shared : list string;
  st_writePending : bool;
  st_disk : option WorkspaceFile;
  st_listener : L
}.

Definition on_file (f : WorkspaceFile → WorkspaceFile) (s : WorkspaceStore) : WorkspaceStore :=
  mkStore (f (st_file s)) (st_clock s) (st_ticks s) (st_shared s) (st_writePending s) (st_disk s)
    (st_listener s).
Definition on_listener (f : L → L) (s : WorkspaceStore) : WorkspaceStore :=
  mkStore (st_file s) (st_clock s) (st_ticks s) (st_shared s) (st_writePending s) (st_disk s)
    (f (st_listener s)).
Definition with_shared (x : list string) (s : WorkspaceStore) : WorkspaceStore :=
  mkStore (st_file s) (st_clock s) (st_ticks s) x (st_writePending s) (st_disk s) (st_listener s).
Definition scheduleWrite (s : WorkspaceStore) : WorkspaceStore :=
  mkStore (st_file s) (st_clock s) (st_ticks s) (st_shared s) true (st_disk s) (st_listener s).
Definition change (f : WorkspaceFile → WorkspaceFile) (s : WorkspaceStore) : WorkspaceStore :=
  scheduleWrite (on_file f s).

Definition notifyDocs (keys : list string) (s : WorkspaceStore) : WorkspaceStore :=
  on_listener (onDocs keys (st_file s)) s.

(** ** The module clock *)

Definition clock_of (s : WorkspaceStore) : HlcClock := default (newClock deviceId) (st_clock s).
Definition with_clock (c : option HlcClock) (ticks : nat) (s : WorkspaceStore) : WorkspaceStore :=
  mkStore (st_file s) c ticks (st_shared s) (st_writePending s) (st_disk s) (st_listener s).

Definition stamp (s : WorkspaceStore) : Hlc * WorkspaceStore :=
  let '(hlc, c) := clock_send (wall (st_ticks s)) (clock_of s) in
  (hlc, with_clock (Some c) (S (st_ticks s)) s).

Definition receiveWorkspaceHlc (hlc : Hlc) (s : WorkspaceStore) : WorkspaceStore :=
  with_clock (Some (clock_receive (wall (st_ticks s)) hlc (clock_of s)).2) (S (st_ticks s)) s.

Definition resetWorkspaceHlc (s : WorkspaceStore) : WorkspaceStore := with_clock None (st_ticks s) s.

Definition nextSyncHlc (s : WorkspaceStore) : Hlc * WorkspaceStore := stamp s.

(** ** Recording documents *)

Definition set_register (key : string) (doc : option WorkspaceDoc) (hlc : Hlc) (f : WorkspaceFile)
    : WorkspaceFile := with_lww (map_set key (mkReg doc hlc) (wf_lww f)) f.

(** [this.file.lww[key] = { doc, hlc: stamp(this.deviceId) }]. *)
Definition put_register (key : string) (doc : option WorkspaceDoc) (s : WorkspaceStore) : WorkspaceStore :=
  let '(hlc, s) := stamp s in on_file (set_register key doc hlc) s.

Definition recordDoc (doc : WorkspaceDoc) (s : WorkspaceStore) : WorkspaceStore :=
  let key := workspaceKeyFor doc in
  notifyDocs [key] (scheduleWrite (put_register key (Some doc) s)).

Definition recordDocs (docs : list WorkspaceDoc) (s : WorkspaceStore) : WorkspaceStore :=
  match docs with
  | [] => s
  | _ =>
      let s := fold_left (λ s doc, put_register (workspaceKeyFor doc) (Some doc) s) docs s in
      notifyDocs (map workspaceKeyFor docs) (scheduleWrite s)
  end.

Definition recordTombstone (key : string) (s : WorkspaceStore) : WorkspaceStore :=
  notifyDocs [key] (scheduleWrite (put_register key None s)).

(** ** Spaces *)

Definition lww (s : WorkspaceStore) : Registers := wf_lww (st_file s).
Definition register_doc (key : string) (s : WorkspaceStore) : option WorkspaceDoc :=
  map_get key (lww s) ≫= reg_doc.

Definition spaces (s : WorkspaceStore) : list SpaceMeta := wf_spaces (st_file s).
Definition same_space (id : string) (x : SpaceMeta) : bool := String.eqb (sp_id x) id.

Definition upsertSpace (space : SpaceMeta) (s : WorkspaceStore) : WorkspaceStore :=
  let s := on_file (λ f, with_spaces (upsert (same_space (sp_id space)) space (wf_spaces f)) f) s in
  recordDoc (DSpace space) s.

(** ** Open tabs *)

Record SyncedTabState := mkTabState { ts_tab : SyncedTabPresence; ts_url : string; ts_rank : string }.

Definition live_docs (f : WorkspaceFile) : list WorkspaceDoc :=
  omap reg_doc (map_values (wf_lww f)).

Definition tab_order (a b : SyncedTabState) : Z :=
  let aRank := parseRank (ts_rank a) in
  let bRank := parseRank (ts_rank b) in
  if aRank <? bRank then -1 else if aRank >? bRank then 1
  else localeCompare (tp_id (ts_tab a)) (tp_id (ts_tab b)).

Definition syncedTabsFor (spaceId : string) (s : WorkspaceStore) : list SyncedTabState :=
  let docs := live_docs (st_file s) in
  let presence : jsmap string SyncedTabPresence := fold_left (λ m d, match d with
    | DTabPresence tab => if String.eqb (tp_spaceId tab) spaceId then map_set (tp_id tab) tab m else m
    | _ => m end) docs jsmap_empty in
  let urls : jsmap string SyncedTabUrl := fold_left (λ m d, match d with
    | DTabUrl tab => map_set (tu_tabId tab) tab m | _ => m end) docs jsmap_empty in
  let orders : jsmap string SyncedTabOrder := fold_left (λ m d, match d with
    | DTabOrder tab => if String.eqb (to_spaceId tab) spaceId then map_set (to_tabId tab) tab m else m
    | _ => m end) docs jsmap_empty in
  sort_by tab_order
    (map (λ tab, mkTabState tab (default "about:blank" (tu_url <$> map_get (tp_id tab) urls))
                   (default "0" (to_rank <$> map_get (tp_id tab) orders)))
       (map_values presence)).

Definition tab_key (tabId suffix : string) : string := "tab:" +:+ tabId +:+ suffix.

Definition hasSyncedTabPresenceRecord (tabId : string) (s : WorkspaceStore) : bool :=
  map_has (tab_key tabId ":presence") (lww s).

Definition openSyncedTab (tab : SyncedTabState) (s : WorkspaceStore) : WorkspaceStore :=
  let id := tp_id (ts_tab tab) in
  recordDocs [DTabPresence (ts_tab tab); DTabUrl (mkTabUrl id (ts_url tab));
              DTabOrder (mkTabOrder id (tp_spaceId (ts_tab tab)) (ts_rank tab))] s.

Definition updateSyncedTabUrl (tabId url : string) (s : WorkspaceStore) : WorkspaceStore :=
  match register_doc (tab_key tabId ":url") s with
  | Some (DTabUrl tab) =>
      if String.eqb (tu_url tab) url then s else recordDoc (DTabUrl (mkTabUrl tabId url)) s
  | _ => recordDoc (DTabUrl (mkTabUrl tabId url)) s
  end.

Definition has_rank (tabId rank : string) (s : WorkspaceStore) : bool :=
  match register_doc (tab_key tabId ":order") s with
  | Some (DTabOrder tab) => String.eqb (to_rank tab) rank
  | _ => false
  end.

Definition updateSyncedTabOrder (tabId spaceId rank : string) (s : WorkspaceStore) : WorkspaceStore :=
  let normalized := toString10 (parseRank rank) in
  if has_rank tabId normalized s then s
  else recordDoc (DTabOrder (mkTabOrder tabId spaceId normalized)) s.

Definition updateSyncedTabOrders (values : list SyncedTabOrder) (s : WorkspaceStore) : WorkspaceStore :=
  let docs := omap (λ value,
    let rank := toString10 (parseRank (to_rank value)) in
    if has_rank (to_tabId value) rank s then None
    else Some (DTabOrder (mkTabOrder (to_tabId value) (to_spaceId value) rank))) values in
  recordDocs docs s.

Definition closeSyncedTab (tabId : string) (s : WorkspaceStore) : WorkspaceStore :=
  let key := tab_key tabId ":presence" in
  match map_get key (lww s) with
  | Some (mkReg None _) => s
  | _ => recordTombstone key s
  end.

(** [removeSpace]: the pins and tabs of the space go with it. *)
Definition remove_pin_of (s : WorkspaceStore) (pin : PinnedTab) : WorkspaceStore :=
  recordTombstone ("pin:" +:+ pin_id pin)
    (on_file (λ f, with_pins (List.filter (λ p, negb (String.eqb (pin_id p) (pin_id pin))) (wf_pins f)) f) s).

Definition removeSpace (id : string) (s : WorkspaceStore) : WorkspaceStore :=
  if negb (existsb (same_space id) (wf_spaces (st_file s))) then s
  else
    let s := on_file (λ f, with_spaces (splice_first (same_space id) (wf_spaces f)) f) s in
    let s := fold_left remove_pin_of
               (List.filter (λ p, String.eqb (pin_spaceId p) id) (wf_pins (st_file s))) s in
    let s := fold_left (λ s tab, closeSyncedTab (tp_id (ts_tab tab)) s) (syncedTabsFor id s) s in
    recordTombstone ("space:" +:+ id) s.

(** ** Space folders *)

Definition spaceFolders (s : WorkspaceStore) : jsmap string string :=
  fold_left (λ m d, match d with DSpaceFolder spaceId folder => map_set spaceId folder m | _ => m end)
    (live_docs (st_file s)) jsmap_empty.

Definition setSpaceFolder (spaceId folder : string) (s : WorkspaceStore) : WorkspaceStore :=
  recordDoc (DSpaceFolder spaceId folder) s.

Definition removeSpaceFolder (spaceId : string) (s : WorkspaceStore) : WorkspaceStore :=
  recordTombstone ("spaceFolder:" +:+ spaceId) s.

(** ** Pins *)

Definition same_pin (id : string) (x : PinnedTab) : bool := String.eqb (pin_id x) id.

Definition pinsFor (spaceId : string) (s : WorkspaceStore) : list PinnedTab :=
  sort_by (λ a b, pin_position a - pin_position b)
    (List.filter (λ p, String.eqb (pin_spaceId p) spaceId) (wf_pins (st_file s))).

Definition upsertPin (pin : PinnedTab) (s : WorkspaceStore) : WorkspaceStore :=
  let s := on_file (λ f, with_pins (upsert (same_pin (pin_id pin)) pin (wf_pins f)) f) s in
  recordDoc (DPin pin) s.

Record PinPatch := mkPinPatch {
  pp_url : option string; pp_title : option string; pp_faviconUrl : option (option string)
}.

Definition patch_pin (patch : PinPatch) (p : PinnedTab) : PinnedTab :=
  mkPin (pin_id p) (pin_spaceId p) (default (pin_url p) (pp_url patch))
    (default (pin_title p) (pp_title patch))
    (default (pin_faviconUrl p) (pp_faviconUrl patch)) (pin_position p).

Definition updatePin (id : string) (patch : PinPatch) (s : WorkspaceStore) : WorkspaceStore :=
  match List.find (same_pin id) (wf_pins (st_file s)) with
  | None => s
  | Some pin =>
      let pin := patch_pin patch pin in
      recordDoc (DPin pin) (on_file (λ f, with_pins (upsert (same_pin id) pin (wf_pins f)) f) s)
  end.

Definition removePin (id : string) (s : WorkspaceStore) : WorkspaceStore :=
  if negb (existsb (same_pin id) (wf_pins (st_file s))) then s
  else recordTombstone ("pin:" +:+ id)
         (on_file (λ f, with_pins (splice_first (same_pin id) (wf_pins f)) f) s).

(** ** Device-local state *)

Definition local (s : WorkspaceStore) : DeviceLocalState := wf_deviceLocal (st_file s).

Definition activeSpaceId (s : WorkspaceStore) : option string := dv_activeSpaceId (local s).
Definition activeTabFor (spaceId : string) (s : WorkspaceStore) : option string :=
  map_get spaceId (dv_activeTabBySpace (local s)).
Definition splitTabFor (spaceId : string) (s : WorkspaceStore) : option string :=
  map_get spaceId (dv_splitTabBySpace (local s)).

Definition set_or_delete {V} (k : string) (v : option V) (m : jsmap string V) : jsmap string V :=
  match v with None => map_delete k m | Some v => map_set k v m end.

Definition on_local (g : DeviceLocalState → DeviceLocalState) (s : WorkspaceStore) : WorkspaceStore :=
  change (λ f, with_deviceLocal (g (wf_deviceLocal f)) f) s.

Definition setActiveSpaceId (spaceId : option string) : WorkspaceStore → WorkspaceStore :=
  on_local (λ d, mkLocal spaceId (dv_manualSyncInitialized d) (dv_manualSyncAccountId d)
    (dv_activeTabBySpace d) (dv_todayTabsBySpace d) (dv_realtimeTabsMigratedBySpace d)
    (dv_splitTabBySpace d) (dv_nativeTransportDomains d)).
Definition setActiveTabFor (spaceId : string) (tabId : option string) : WorkspaceStore → WorkspaceStore :=
  on_local (λ d, mkLocal (dv_activeSpaceId d) (dv_manualSyncInitialized d) (dv_manualSyncAccountId d)
    (set_or_delete spaceId tabId (dv_activeTabBySpace d)) (dv_todayTabsBySpace d)
    (dv_realtimeTabsMigratedBySpace d) (dv_splitTabBySpace d) (dv_nativeTransportDomains d)).
Definition setSplitTabFor (spaceId : string) (tabId : option string) : WorkspaceStore → WorkspaceStore :=
  on_local (λ d, mkLocal (dv_activeSpaceId d) (dv_manualSyncInitialized d) (dv_manualSyncAccountId d)
    (dv_activeTabBySpace d) (dv_todayTabsBySpace d) (dv_realtimeTabsMigratedBySpace d)
    (set_or_delete spaceId tabId (dv_splitTabBySpace d)) (dv_nativeTransportDomains d)).

Definition todayTabs (spaceId : string) (s : WorkspaceStore) : list string :=
  default [] (map_get spaceId (dv_todayTabsBySpace (local s))).
Definition setTodayTabs (spaceId : string) (urls : list string) (s : WorkspaceStore) : WorkspaceStore :=
  if decide (todayTabs spaceId s = urls) then s
  else on_local (λ d, mkLocal (dv_activeSpaceId d) (dv_manualSyncInitialized d) (dv_manualSyncAccountId d)
    (dv_activeTabBySpace d) (map_set spaceId urls (dv_todayTabsBySpace d))
    (dv_realtimeTabsMigratedBySpace d) (dv_splitTabBySpace d) (dv_nativeTransportDomains d)) s.

Definition realtimeTabsMigrated (spaceId : string) (s : WorkspaceStore) : bool :=
  default false (map_get spaceId (dv_realtimeTabsMigratedBySpace (local s))).
Definition markRealtimeTabsMigrated (spaceId : string) (s : WorkspaceStore) : WorkspaceStore :=
  if realtimeTabsMigrated spaceId s then s
  else on_local (λ d, mkLocal (dv_activeSpaceId d) (dv_manualSyncInitialized d) (dv_manualSyncAccountId d)
    (dv_activeTabBySpace d) (dv_todayTabsBySpace d)
    (map_set spaceId true (dv_realtimeTabsMigratedBySpace d)) (dv_splitTabBySpace d)
    (dv_nativeTransportDomains d)) s.

(** [push] then [sort]: code-unit order. *)
Definition code_unit_order (a b : string) : Z :=
  match String.compare a b with Eq => 0 | Lt => -1 | Gt => 1 end.
Definition addNativeTransportDomain (domain : string) (s : WorkspaceStore) : WorkspaceStore :=
  if decide (domain ∈ dv_nativeTransportDomains (local s)) then s
  else on_local (λ d, mkLocal (dv_activeSpaceId d) (dv_manualSyncInitialized d) (dv_manualSyncAccountId d)
    (dv_activeTabBySpace d) (dv_todayTabsBySpace d) (dv_realtimeTabsMigratedBySpace d)
    (dv_splitTabBySpace d) (sort_by code_unit_order (dv_nativeTransportDomains d ++ [domain]))) s.

(** ** Focus and device identities *)

Definition syncedWorkspaceFocus (s : WorkspaceStore) : option SyncedWorkspaceFocus :=
  match register_doc "workspace:focus" s with Some (DWorkspaceFocus focus) => Some focus | _ => None end.

Definition updateSyncedWorkspaceFocus (focus : SyncedWorkspaceFocus) (s : WorkspaceStore) : WorkspaceStore :=
  match syncedWorkspaceFocus s with
  | Some current =>
      if bool_decide (wf_activeSpaceId current = wf_activeSpaceId focus)
         && bool_decide (wf_activeTabId current = wf_activeTabId focus)
         && bool_decide (wf_splitTabId current = wf_splitTabId focus)
      then s else recordDoc (DWorkspaceFocus focus) s
  | None => recordDoc (DWorkspaceFocus focus) s
  end.

Definition publishCurrentWorkspaceFocus (s : WorkspaceStore) : WorkspaceStore :=
  updateSyncedWorkspaceFocus
    (mkFocus (activeSpaceId s) (activeSpaceId s ≫= λ id, activeTabFor id s)
       (activeSpaceId s ≫= λ id, splitTabFor id s)) s.

Definition syncedDeviceActivities (s : WorkspaceStore) : list SyncedDeviceActivity :=
  omap (λ d, match d with DDeviceActivity a => Some a | _ => None end) (live_docs (st_file s)).

Definition syncedDeviceActivity (id : string) (s : WorkspaceStore) : option SyncedDeviceActivity :=
  match register_doc ("device:" +:+ id +:+ ":activity") s with
  | Some (DDeviceActivity a) => Some a | _ => None end.

Definition updateSyncedDeviceActivity (activity : SyncedDeviceActivity) (s : WorkspaceStore)
    : WorkspaceStore :=
  match syncedDeviceActivity (da_deviceId activity) s with
  | Some current =>
      if String.eqb (da_identityDeviceId current) (da_identityDeviceId activity)
         && bool_decide (da_controlDeviceId current = da_controlDeviceId activity)
         && String.eqb (da_name current) (da_name activity)
         && String.eqb (da_platform current) (da_platform activity)
      then s else recordDoc (DDeviceActivity activity) s
  | None => recordDoc (DDeviceActivity activity) s
  end.

(** ** Archives and settings *)

Definition addArchive (archive : ArchivedTab) (s : WorkspaceStore) : WorkspaceStore :=
  recordDoc (DArchive archive) (on_file (λ f, with_archives (wf_archives f ++ [archive]) f) s).

Record SettingsPatch := mkSettingsPatch {
  sp_historySync : option bool; sp_autoArchive : option Z; sp_keyMode : option KeyMode;
  sp_newTabUrl : option string
}.

Definition patch_settings (p : SettingsPatch) (s : WorkspaceSettings) : WorkspaceSettings :=
  mkSettings (default (historySyncEnabled s) (sp_historySync p))
    (default (autoArchiveAfterHours s) (sp_autoArchive p)) (default (keyMode s) (sp_keyMode p))
    (default (newTabUrl s) (sp_newTabUrl p)).

Definition record_if {A} (given : option A) (doc : WorkspaceSettings → WorkspaceSettingsDoc)
    (s : WorkspaceStore) : WorkspaceStore :=
  match given with None => s | Some _ => recordDoc (DSettings (doc (wf_settings (st_file s)))) s end.

Definition updateSettings (patch : SettingsPatch) (s : WorkspaceStore) : WorkspaceStore :=
  let s := on_file (λ f, with_settings (patch_settings patch (wf_settings f)) f) s in
  let s := record_if (sp_historySync patch) (λ t, SHistorySync (historySyncEnabled t)) s in
  let s := record_if (sp_autoArchive patch) (λ t, SAutoArchive (autoArchiveAfterHours t)) s in
  let s := record_if (sp_keyMode patch) (λ t, SKeyMode (keyMode t)) s in
  record_if (sp_newTabUrl patch) (λ t, SNewTabUrl (newTabUrl t)) s.

(** ** History *)

Definition history_key (id : string) : string := "history:" +:+ id.

Definition historyVisits (s : WorkspaceStore) : list HistoryVisit :=
  sort_by (λ a b, hv_atMs b - hv_atMs a) (wf_history (st_file s)).

Definition retained (nowMs : Z) (visits : list HistoryVisit) : list HistoryVisit :=
  let keep := List.filter (λ v, hv_atMs v >=? nowMs - HISTORY_RETENTION_MS) visits in
  if (HISTORY_MAX_VISITS <? length keep)%nat
  then drop (length keep - HISTORY_MAX_VISITS) (sort_by (λ a b, hv_atMs a - hv_atMs b) keep)
  else keep.

(** Whether the sweep keeps a register. *)
Definition sweep_keeps (kept : list HistoryVisit) (key : string) (r : WorkspaceRegister) : bool :=
  negb (startsWith key "history:")
  || match reg_doc r with None => true | Some _ => false end
  || existsb (λ v, String.eqb (hv_id v) (slice_from 8 key)) kept.

Definition prune (nowMs : Z) (f : WorkspaceFile) : WorkspaceFile :=
  let keep := retained nowMs (wf_history f) in
  with_lww (List.filter (λ kr, sweep_keeps keep kr.1 kr.2) (wf_lww f)) (with_history keep f).
Definition pruneHistory (nowMs : Z) : WorkspaceStore → WorkspaceStore := on_file (prune nowMs).

Definition unshare (id : string) (s : WorkspaceStore) : WorkspaceStore :=
  with_shared (List.filter (λ x, negb (String.eqb x id)) (st_shared s)) s.

Definition addHistoryVisit (visit : HistoryVisit) (s : WorkspaceStore) : WorkspaceStore :=
  let s := on_file (λ f, with_history (wf_history f ++ [visit]) f) s in
  let s := pruneHistory (hv_atMs visit) s in
  if historySyncEnabled (wf_settings (st_file s))
  then recordDoc (DHistory visit) (unshare (hv_id visit) s)
  else scheduleWrite s.

Definition same_visit (id : string) (v : HistoryVisit) : bool := String.eqb (hv_id v) id.
Definition retitle (title : string) (v : HistoryVisit) : HistoryVisit :=
  mkVisit (hv_id v) (hv_url v) title (hv_atMs v).

(** [visit.title = title] on the object of the history list, seen through the
    register too when it holds that object. *)
Definition write_title (id : string) (visit : HistoryVisit) (s : WorkspaceStore) : WorkspaceStore :=
  let s := on_file (λ f, with_history (upsert (same_visit id) visit (wf_history f)) f) s in
  match map_get (history_key id) (lww s) with
  | Some (mkReg (Some (DHistory _)) hlc) =>
      if decide (id ∈ st_shared s)
      then on_file (set_register (history_key id) (Some (DHistory visit)) hlc) s else s
  | _ => s
  end.

Definition updateHistoryVisitTitle (id title : string) (s : WorkspaceStore) : WorkspaceStore :=
  match List.find (same_visit id) (wf_history (st_file s)) with
  | None => s
  | Some visit =>
      if String.eqb (hv_title visit) title then s
      else
        let visit := retitle title visit in
        let s := write_title id visit s in
        if historySyncEnabled (wf_settings (st_file s)) && map_has (history_key id) (lww s)
        then recordDoc (DHistory visit) (with_shared (id :: st_shared s) s)
        else scheduleWrite s
  end.

(** One iteration of the loop of [clearHistory]. *)
Definition clear_one (acc : WorkspaceStore * list string) (id : string) : WorkspaceStore * list string :=
  let '(s, keys) := acc in
  if map_has (history_key id) (lww s)
  then (put_register (history_key id) None s, keys ++ [history_key id]) else (s, keys).

Definition clearHistory (s : WorkspaceStore) : WorkspaceStore :=
  let ids := map hv_id (wf_history (st_file s)) in
  let s := with_shared [] (on_file (with_history []) s) in
  let '(s, keys) := fold_left clear_one ids (s, []) in
  let s := scheduleWrite s in
  match keys with [] => s | _ => notifyDocs keys s end.

(** ** The remaining local categories *)

Definition setOriginOverride (host : string) (value : option OriginOverrideValue)
    : WorkspaceStore → WorkspaceStore :=
  change (λ f, with_originOverrides (set_or_delete host value (wf_originOverrides f)) f).
Definition setSignInQueue (queue : list SignInQueueItem) : WorkspaceStore → WorkspaceStore :=
  change (with_signInQueue queue).
Definition sign_in_done (domain : string) (i : SignInQueueItem) : SignInQueueItem :=
  if String.eqb (si_domain i) domain
  then mkSignIn (si_domain i) (si_label i) (si_mode i) (si_sensitive i) (si_rank i) true else i.
Definition markSignedIn (domain : string) : WorkspaceStore → WorkspaceStore :=
  change (λ f, with_signInQueue (map (sign_in_done domain) (wf_signInQueue f)) f).

Definition same_grant (origin permission : string) (g : PermissionGrant) : bool :=
  String.eqb (pg_origin g) origin && String.eqb (pg_permission g) permission.
Definition permissionDecision (origin permission : string) (s : WorkspaceStore) : option bool :=
  pg_granted <$> List.find (same_grant origin permission) (wf_permissionGrants (st_file s)).
Definition setPermissionDecision (origin permission : string) (granted : bool) (s : WorkspaceStore)
    : WorkspaceStore :=
  let grant := mkGrant origin permission granted (wall (st_ticks s)) in
  with_clock (st_clock s) (S (st_ticks s))
    (change (λ f, with_permissionGrants
       (upsert (same_grant origin permission) grant (wf_permissionGrants f)) f) s).

Definition setDownloads (items : list DownloadItemInfo) : WorkspaceStore → WorkspaceStore :=
  change (with_downloads items).
Definition egressConfig (spaceId : string) (s : WorkspaceStore) : option (list string * bool) :=
  map_get spaceId (wf_egress (st_file s)).
Definition setEgressConfig (spaceId : string) (siteBypass : list string) (mediaBypass : bool)
    : WorkspaceStore → WorkspaceStore :=
  change (λ f, with_egress (map_set spaceId (siteBypass, mediaBypass) (wf_egress f)) f).

(** ** Workspace sync *)

Definition manualSyncInitialized (accountId : option string) (s : WorkspaceStore) : bool :=
  dv_manualSyncInitialized (local s)
  && match accountId, dv_manualSyncAccountId (local s) with
     | Some a, Some b => String.eqb b a
     | _, _ => true
     end.

Definition markManualSyncInitialized (accountId : option string) (s : WorkspaceStore) : WorkspaceStore :=
  if manualSyncInitialized accountId s
     && match accountId with
        | None => true
        | Some _ => bool_decide (dv_manualSyncAccountId (local s) = accountId)
        end
  then s
  else on_local (λ d, mkLocal (dv_activeSpaceId d) true
    (match accountId with Some _ => accountId | None => dv_manualSyncAccountId d end)
    (dv_activeTabBySpace d) (dv_todayTabsBySpace d) (dv_realtimeTabsMigratedBySpace d)
    (dv_splitTabBySpace d) (dv_nativeTransportDomains d)) s.

Definition lwwRegisters (s : WorkspaceStore) : Registers := lww s.

Definition replaceAttachmentRegisters (registers : Registers) : WorkspaceStore → WorkspaceStore :=
  change (λ f, with_lww
    (fold_left (λ m '(key, register), if isAttachmentKey key then map_set key register m else m)
       registers (List.filter (λ kr, negb (isAttachmentKey kr.1)) (wf_lww f))) f).

(** One iteration of the loop of [publishAttachmentRegisters]. *)
Definition restamp_one (acc : WorkspaceStore * list string) (key : string)
    : WorkspaceStore * list string :=
  let '(s, changed) := acc in
  match map_get key (lww s) with
  | None => (s, changed)
  | Some current => (put_register key (reg_doc current) s, changed ++ [key])
  end.

Definition publishAttachmentRegisters (keys : list string) (s : WorkspaceStore) : WorkspaceStore :=
  let '(s, changed) := fold_left restamp_one keys (s, []) in
  match changed with [] => s | _ => notifyDocs changed (scheduleWrite s) end.

Definition drop_id {A} (id_of : A → string) (id : string) (l : list A) : list A :=
  List.filter (λ x, negb (String.eqb (id_of x) id)) l.

(** The concrete categories after a tombstone. *)
Definition apply_tombstone (key : string) (f : WorkspaceFile) : WorkspaceFile :=
  if startsWith key "space:" then with_spaces (drop_id sp_id (slice_from 6 key) (wf_spaces f)) f
  else if startsWith key "pin:" then with_pins (drop_id pin_id (slice_from 4 key) (wf_pins f)) f
  else if startsWith key "archive:" then with_archives (drop_id ar_id (slice_from 8 key) (wf_archives f)) f
  else if startsWith key "history:" then with_history (drop_id hv_id (slice_from 8 key) (wf_history f)) f
  else f.

(** The concrete categories after a document; [nowMs] is read for history. *)
Definition apply_doc (nowMs : Z) (value : WorkspaceDoc) (f : WorkspaceFile) : WorkspaceFile :=
  match value with
  | DSpace x => with_spaces (upsert (same_space (sp_id x)) x (wf_spaces f)) f
  | DPin x => with_pins (upsert (same_pin (pin_id x)) x (wf_pins f)) f
  | DArchive x => with_archives (upsert (λ a, String.eqb (ar_id a) (ar_id x)) x (wf_archives f)) f
  | DHistory x =>
      prune nowMs (with_history (upsert (same_visit (hv_id x)) x (wf_history f)) f)
  | DSettings x => with_settings (applySettingsDoc (wf_settings f) x) f
  | DTabPresence _ | DTabUrl _ | DTabOrder _ | DWorkspaceFocus _ | DDeviceActivity _ | DSpaceFolder _ _ => f
  end.

Definition applyRemoteDoc (key : string) (value : option WorkspaceDoc) (hlc : Hlc) (s : WorkspaceStore)
    : WorkspaceStore :=
  let s := match value with
           | None => on_file (apply_tombstone key) s
           | Some (DHistory x as doc) =>
               with_clock (st_clock s) (S (st_ticks s))
                 (unshare (hv_id x) (on_file (apply_doc (wall (st_ticks s)) doc) s))
           | Some doc => on_file (apply_doc 0 doc) s
           end in
  scheduleWrite (on_file (set_register key value hlc) s).

(** ** Persistence *)

(** The timer of [scheduleWrite], or [flushSync]. *)
Definition write (s : WorkspaceStore) : WorkspaceStore :=
  mkStore (st_file s) (st_clock s) (st_ticks s) (st_shared s) false (Some (st_file s)) (st_listener s).

(** [read]: what a new process finds. *)
Definition read (disk : option WorkspaceFile) : WorkspaceFile :=
  match disk with
  | Some f => with_lww (map_delete "settings" (wf_lww f)) f
  | None => emptyFile
  end.

(** The process ends and a new one starts. *)
Definition restart (listener : L) (s : WorkspaceStore) : WorkspaceStore :=
  mkStore (read (st_disk s)) None (st_ticks s) [] false (st_disk s) listener.

Definition newStore (disk : option WorkspaceFile) (listener : L) : WorkspaceStore :=
  mkStore (read disk) None 0 [] false disk listener.
End WorkspaceStore.
