(* ===== verification/WorkspaceCoherent.v ===== *)
(** * The workspace store agrees with its registers

    The lists of spaces, pins and archives and the settings are exactly what
    the LWW registers say, in memory and on disk, through every operation,
    every remote document and every restart. *)

From S2P Require Export WorkspaceStore.
From Stdlib Require Import Ascii.

(** ** A category: a list that materializes the live registers of its kind *)

Section Category.
Context {A : Type} (id_of : A → string) (mk : A → WorkspaceDoc).
Context (Hkey : ∀ x y, workspaceKeyFor (mk x) = workspaceKeyFor (mk y) ↔ id_of x = id_of y).
Context (Hmk : ∀ x y, mk x = mk y → x = y).

Definition live (x : A) (m : Registers) : Prop :=
  ∃ hlc, map_get (workspaceKeyFor (mk x)) m = Some (mkReg (Some (mk x)) hlc).

(** [P] restricts the identifiers the list answers for. *)
Definition category (P : string → Prop) (l : list A) (m : Registers) : Prop :=
  NoDup (map id_of l) ∧ ∀ x, x ∈ l ↔ P (id_of x) ∧ live x m.

Lemma category_frame P l m m' :
  (∀ x, map_get (workspaceKeyFor (mk x)) m' = map_get (workspaceKeyFor (mk x)) m) →
  category P l m → category P l m'.
Proof. intros Hm [Hnd Hl]. split; [done|]. intros x. unfold live. rewrite Hm. apply Hl. Qed.

Lemma category_set_other P l m k r :
  (∀ x, workspaceKeyFor (mk x) ≠ k) → category P l m → category P l (map_set k r m).
Proof. intros Hk. apply category_frame. intros x. apply map_get_set_ne. intros ->. by eapply Hk. Qed.

(** The list after a live document of the category. *)
Lemma category_put P l l' m x hlc :
  P (id_of x) → NoDup (map id_of l') → (∀ y, y ∈ l' ↔ y = x ∨ y ∈ l ∧ id_of y ≠ id_of x) →
  category P l m → category P l' (map_set (workspaceKeyFor (mk x)) (mkReg (Some (mk x)) hlc) m).
Proof.
  intros HP Hnd Hl' [_ Hl]. split; [done|]. intros y. rewrite Hl', Hl. unfold live. rewrite map_get_set.
  destruct (decide (workspaceKeyFor (mk x) = workspaceKeyFor (mk y))) as [He|Hne].
  - apply Hkey in He. split.
    + intros [->|[_ ?]]; [eauto|congruence].
    + intros [_ [h [= Hxy _]]]. left. symmetry. by apply Hmk.
  - split.
    + intros [->|[? _]]; [done|done].
    + intros ?. right. split; [done|]. intros Hid. apply Hne, Hkey. done.
Qed.

(** The list after a tombstone of the category. *)
Lemma category_drop (P : string → Prop) l l' m id hlc (Q : string → Prop) k :
  (∀ x, workspaceKeyFor (mk x) = k ↔ id_of x = id) → NoDup (map id_of l') →
  (∀ i, i ≠ id → P i ↔ Q i) → (∀ y, y ∈ l' ↔ y ∈ l ∧ id_of y ≠ id) →
  category P l m → category Q l' (map_set k (mkReg None hlc) m).
Proof.
  intros Hk Hnd HPQ Hl' [_ Hl]. split; [done|]. intros y. rewrite Hl', Hl. unfold live. rewrite map_get_set.
  destruct (decide (k = workspaceKeyFor (mk y))) as [He|Hne].
  - assert (id_of y = id) by (by apply Hk). split; [tauto|]. by intros [_ [? [=]]].
  - assert (id_of y ≠ id) by (intros ?; apply Hne; symmetry; by apply Hk).
    rewrite (HPQ (id_of y)) by done. tauto.
Qed.

Lemma category_unique P l m x y : category P l m → x ∈ l → y ∈ l → id_of x = id_of y → x = y.
Proof.
  intros [_ Hl] [_ [hx Hx]]%Hl [_ [hy Hy]]%Hl Hid. apply Hmk. apply Hkey in Hid. rewrite Hid in Hx. congruence.
Qed.
End Category.

(** ** The array operations on lists with distinct identifiers *)

Section Lists.
Context {A : Type} (id_of : A → string).

Lemma upsert_elem x l y :
  NoDup (map id_of l) →
  y ∈ upsert (λ z, String.eqb (id_of z) (id_of x)) x l ↔ y = x ∨ y ∈ l ∧ id_of y ≠ id_of x.
Proof.
  induction l as [|z l IH]; intros Hnd; cbn [upsert]; [set_solver|].
  cbn [map] in Hnd. apply NoDup_cons in Hnd as [Hz Hnd].
  destruct (String.eqb_spec (id_of z) (id_of x)) as [He|Hne].
  - rewrite !elem_of_cons. split; [|naive_solver]. intros [->|Hy]; [by left|]. right. split; [by right|].
    intros H. apply Hz. rewrite He, <- H. apply list_elem_of_fmap. eauto.
  - rewrite !elem_of_cons, IH by done. naive_solver.
Qed.

Lemma upsert_ids x l :
  map id_of (upsert (λ z, String.eqb (id_of z) (id_of x)) x l)
  = if existsb (λ z, String.eqb (id_of z) (id_of x)) l then map id_of l else map id_of l ++ [id_of x].
Proof.
  induction l as [|z l IH]; cbn; [done|].
  destruct (String.eqb_spec (id_of z) (id_of x)) as [He|Hne]; cbn; [by rewrite He|].
  rewrite IH. by destruct (existsb _ l).
Qed.

Lemma existsb_same id l : existsb (λ z, String.eqb (id_of z) id) l = true ↔ id ∈ map id_of l.
Proof.
  rewrite existsb_exists, list_elem_of_fmap. split.
  - intros (x & Hx%list_elem_of_In & He%String.eqb_eq). eauto.
  - intros (x & -> & Hx). exists x. split; [by apply list_elem_of_In|apply String.eqb_refl].
Qed.

Lemma upsert_nodup x l : NoDup (map id_of l) → NoDup (map id_of (upsert (λ z, String.eqb (id_of z) (id_of x)) x l)).
Proof.
  intros Hnd. rewrite upsert_ids. destruct (existsb _ l) eqn:E; [done|].
  apply not_true_iff_false in E. rewrite existsb_same in E.
  apply NoDup_app. split; [done|]. split; [set_solver|apply NoDup_singleton].
Qed.

Lemma splice_first_elem id l y :
  NoDup (map id_of l) → y ∈ splice_first (λ z, String.eqb (id_of z) id) l ↔ y ∈ l ∧ id_of y ≠ id.
Proof.
  induction l as [|z l IH]; intros Hnd; cbn [splice_first]; [set_solver|].
  cbn [map] in Hnd. apply NoDup_cons in Hnd as [Hz Hnd].
  destruct (String.eqb_spec (id_of z) id) as [He|Hne].
  - rewrite elem_of_cons. split; [|naive_solver]. intros Hy. split; [by right|].
    intros H. apply Hz. rewrite He, <- H. apply list_elem_of_fmap. eauto.
  - rewrite !elem_of_cons, IH by done. naive_solver.
Qed.

Lemma splice_first_nodup id l : NoDup (map id_of l) → NoDup (map id_of (splice_first (λ z, String.eqb (id_of z) id) l)).
Proof.
  induction l as [|z l IH]; intros Hnd; cbn [splice_first]; [done|].
  pose proof Hnd as Hnd'. cbn [map] in Hnd. apply NoDup_cons in Hnd as [Hz Hnd].
  destruct (String.eqb _ _); [done|]. cbn [map]. apply NoDup_cons. split; [|by apply IH].
  intros (y & He & Hy%splice_first_elem)%list_elem_of_fmap; [|done]. apply Hz.
  apply list_elem_of_fmap. exists y. tauto.
Qed.

Lemma drop_id_elem id l y : y ∈ drop_id id_of id l ↔ y ∈ l ∧ id_of y ≠ id.
Proof.
  unfold drop_id. rewrite In_filter_iff, negb_true_iff, String.eqb_neq. done.
Qed.

Lemma drop_id_nodup id l : NoDup (map id_of l) → NoDup (map id_of (drop_id id_of id l)).
Proof. apply NoDup_map_filter. Qed.

Lemma snoc_nodup x l : NoDup (map id_of l) → id_of x ∉ map id_of l → NoDup (map id_of (l ++ [x])).
Proof.
  intros Hnd Hx. rewrite map_app. apply NoDup_app. split; [done|]. split; [set_solver|apply NoDup_singleton].
Qed.
End Lists.

(** ** Coherence of a file *)

Definition any_id : string → Prop := λ _, True.
Definition spaces_ok (P : string → Prop) (f : WorkspaceFile) : Prop :=
  category sp_id DSpace P (wf_spaces f) (wf_lww f).
Definition pins_ok (f : WorkspaceFile) : Prop := category pin_id DPin any_id (wf_pins f) (wf_lww f).
Definition archives_ok (f : WorkspaceFile) : Prop :=
  category ar_id DArchive any_id (wf_archives f) (wf_lww f).
Definition keyed (m : Registers) : Prop :=
  map_wf m ∧ ∀ k d hlc, map_get k m = Some (mkReg (Some d) hlc) → k = workspaceKeyFor d.
(** A settings register holds the value of its field. *)
Definition any_field : WorkspaceSettingsField → Prop := λ _, True.
Definition settings_ok (F : WorkspaceSettingsField → Prop) (f : WorkspaceFile) : Prop :=
  ∀ k d hlc, map_get k (wf_lww f) = Some (mkReg (Some (DSettings d)) hlc) → F (settings_field d) →
    d ∈ settingsDocs (wf_settings f).

(** [P] and [F] leave out spaces and settings fields an operation is about to record. *)
Record coherent_but (P : string → Prop) (F : WorkspaceSettingsField → Prop) (f : WorkspaceFile) : Prop := mkCoherent {
  co_keyed : keyed (wf_lww f);
  co_spaces : spaces_ok P f;
  co_pins : pins_ok f;
  co_archives : archives_ok f;
  co_settings : settings_ok F f
}.
Definition coherent : WorkspaceFile → Prop := coherent_but any_id any_field.

Lemma space_keys x y : workspaceKeyFor (DSpace x) = workspaceKeyFor (DSpace y) ↔ sp_id x = sp_id y.
Proof. cbn. split; [by intros [=]|congruence]. Qed.
Lemma pin_keys x y : workspaceKeyFor (DPin x) = workspaceKeyFor (DPin y) ↔ pin_id x = pin_id y.
Proof. cbn. split; [by intros [=]|congruence]. Qed.
Lemma archive_keys x y :
  workspaceKeyFor (DArchive x) = workspaceKeyFor (DArchive y) ↔ ar_id x = ar_id y.
Proof. cbn. split; [by intros [=]|congruence]. Qed.

Lemma keyed_put k doc hlc m :
  (∀ d, doc = Some d → k = workspaceKeyFor d) → keyed m → keyed (map_set k (mkReg doc hlc) m).
Proof.
  intros Hk [Hwf Hm]. split; [by apply map_wf_set|]. intros k' d h. rewrite map_get_set.
  case_decide; [|apply Hm]. intros [= -> _]. subst. by apply Hk.
Qed.

Lemma keyed_filter (g : string * WorkspaceRegister → bool) m : keyed m → keyed (List.filter g m).
Proof.
  intros [Hwf Hm]. split; [by apply map_wf_filter|]. intros k d h.
  rewrite map_get_filter by done. destruct (map_get k m) eqn:E; [|done]. destruct (g _); [|done].
  intros [= ->]. by eapply Hm.
Qed.

(** A register of none of the three lists and not of settings. *)
Definition other_key (k : string) : Prop :=
  (∀ x, workspaceKeyFor (DSpace x) ≠ k) ∧ (∀ x, workspaceKeyFor (DPin x) ≠ k)
  ∧ (∀ x, workspaceKeyFor (DArchive x) ≠ k).

Lemma settings_put F k doc hlc f :
  (∀ d, doc = Some (DSettings d) → F (settings_field d) → d ∈ settingsDocs (wf_settings f)) →
  settings_ok F f → settings_ok F (set_register k doc hlc f).
Proof.
  intros Hd Hf k' d h. cbn. rewrite map_get_set. case_decide; [|apply Hf]. intros [= -> _] ?. by apply Hd.
Qed.

Lemma coherent_put_other P F k doc hlc f :
  other_key k → (∀ d, doc = Some d → k = workspaceKeyFor d) →
  (∀ d, doc = Some (DSettings d) → d ∈ settingsDocs (wf_settings f)) →
  coherent_but P F f → coherent_but P F (set_register k doc hlc f).
Proof.
  intros (H1 & H2 & H3) Hk Hs [Hm Hsp Hp Ha Hset]. split.
  - by apply keyed_put.
  - by apply category_set_other.
  - by apply category_set_other.
  - by apply category_set_other.
  - apply settings_put; auto.
Qed.

Lemma coherent_pin_list P F l k doc hlc f :
  category pin_id DPin any_id l (map_set k (mkReg doc hlc) (wf_lww f)) →
  (∀ x, workspaceKeyFor (DSpace x) ≠ k) → (∀ x, workspaceKeyFor (DArchive x) ≠ k) →
  (∀ d, doc = Some d → k = workspaceKeyFor d) → (∀ d, doc ≠ Some (DSettings d)) →
  coherent_but P F f → coherent_but P F (set_register k doc hlc (with_pins l f)).
Proof.
  intros Hl H1 H2 Hk Hd [Hm Hsp Hp Ha Hset]. split; [by apply keyed_put|..|].
  - by apply category_set_other.
  - exact Hl.
  - by apply category_set_other.
  - apply settings_put; [|done]. intros d ->. by edestruct Hd.
Qed.

Lemma coherent_space_list (P Q : string → Prop) F l k doc hlc f :
  category sp_id DSpace Q l (map_set k (mkReg doc hlc) (wf_lww f)) →
  (∀ x, workspaceKeyFor (DPin x) ≠ k) → (∀ x, workspaceKeyFor (DArchive x) ≠ k) →
  (∀ d, doc = Some d → k = workspaceKeyFor d) → (∀ d, doc ≠ Some (DSettings d)) →
  coherent_but P F f → coherent_but Q F (set_register k doc hlc (with_spaces l f)).
Proof.
  intros Hl H1 H2 Hk Hd [Hm Hsp Hp Ha Hset]. split; [by apply keyed_put|exact Hl|..|].
  - by apply category_set_other.
  - by apply category_set_other.
  - apply settings_put; [|done]. intros d ->. by edestruct Hd.
Qed.

Lemma coherent_archive_list P F l k doc hlc f :
  category ar_id DArchive any_id l (map_set k (mkReg doc hlc) (wf_lww f)) →
  (∀ x, workspaceKeyFor (DSpace x) ≠ k) → (∀ x, workspaceKeyFor (DPin x) ≠ k) →
  (∀ d, doc = Some d → k = workspaceKeyFor d) → (∀ d, doc ≠ Some (DSettings d)) →
  coherent_but P F f → coherent_but P F (set_register k doc hlc (with_archives l f)).
Proof.
  intros Hl H1 H2 Hk Hd [Hm Hsp Hp Ha Hset]. split; [by apply keyed_put|..|].
  - by apply category_set_other.
  - by apply category_set_other.
  - exact Hl.
  - apply settings_put; [|done]. intros d ->. by edestruct Hd.
Qed.

(** Keys of one kind are not keys of another. *)
Ltac other_key := repeat split; intros; cbn; discriminate.
Ltac same_key := intros ? [= <-]; reflexivity.

(** The concrete documents. *)
Lemma coherent_upsert_space x hlc f :
  coherent f →
  coherent (set_register (workspaceKeyFor (DSpace x)) (Some (DSpace x)) hlc
              (with_spaces (upsert (same_space (sp_id x)) x (wf_spaces f)) f)).
Proof.
  intros Hf. pose proof (co_spaces _ _ _ Hf) as Hc. destruct Hc as [Hnd Hl].
  apply (coherent_space_list any_id); try done; [|same_key].
  eapply category_put; [apply space_keys|congruence|done| | |by split].
  - by apply (upsert_nodup sp_id).
  - intros y. by apply (upsert_elem sp_id).
Qed.

Lemma coherent_upsert_pin P F x hlc f :
  coherent_but P F f →
  coherent_but P F (set_register (workspaceKeyFor (DPin x)) (Some (DPin x)) hlc
              (with_pins (upsert (same_pin (pin_id x)) x (wf_pins f)) f)).
Proof.
  intros Hf. pose proof (co_pins _ _ _ Hf) as Hc. destruct Hc as [Hnd Hl].
  apply coherent_pin_list; try done; [|same_key].
  eapply category_put; [apply pin_keys|congruence|done| | |by split].
  - by apply (upsert_nodup pin_id).
  - intros y. by apply (upsert_elem pin_id).
Qed.

Lemma coherent_archive P F l x hlc f :
  NoDup (map ar_id l) → (∀ y, y ∈ l ↔ y = x ∨ y ∈ wf_archives f ∧ ar_id y ≠ ar_id x) →
  coherent_but P F f →
  coherent_but P F (set_register (workspaceKeyFor (DArchive x)) (Some (DArchive x)) hlc (with_archives l f)).
Proof.
  intros Hnd Hl Hf. apply coherent_archive_list; try done; [|same_key].
  eapply category_put; [apply archive_keys|congruence|done|done|done|]. apply (co_archives _ _ _ Hf).
Qed.

Lemma coherent_drop_pin P F id l hlc f :
  NoDup (map pin_id l) → (∀ y, y ∈ l ↔ y ∈ wf_pins f ∧ pin_id y ≠ id) →
  coherent_but P F f → coherent_but P F (set_register ("pin:" +:+ id) None hlc (with_pins l f)).
Proof.
  intros Hnd Hl Hf. apply coherent_pin_list; try done.
  eapply (category_drop pin_id DPin any_id _ _ _ id); [|done|done|done|apply (co_pins _ _ _ Hf)].
  intros x. cbn. split; [by intros [=]|congruence].
Qed.

Lemma coherent_drop_space (P : string → Prop) F id l hlc f :
  (∀ i, i ≠ id → P i ↔ any_id i) →
  NoDup (map sp_id l) → (∀ y, y ∈ l ↔ y ∈ wf_spaces f ∧ sp_id y ≠ id) →
  coherent_but P F f → coherent_but any_id F (set_register ("space:" +:+ id) None hlc (with_spaces l f)).
Proof.
  intros HP Hnd Hl Hf. apply (coherent_space_list P); try done.
  eapply (category_drop sp_id DSpace P _ _ _ id); [|done|done|done|apply (co_spaces _ _ _ Hf)].
  intros x. cbn. split; [by intros [=]|congruence].
Qed.

(** The tombstone of a space already taken out of the list. *)
Lemma coherent_forget_space F id hlc f :
  coherent_but (λ i, i ≠ id) F f → coherent_but any_id F (set_register ("space:" +:+ id) None hlc f).
Proof.
  intros Hf. pose proof (co_spaces _ _ _ Hf) as [Hnd Hl].
  assert (coherent_but any_id F (set_register ("space:" +:+ id) None hlc (with_spaces (wf_spaces f) f))) as H.
  { apply (coherent_drop_space (λ i, i ≠ id)); [unfold any_id; tauto|done| |done].
    intros y. split; [|by intros [? _]]. intros Hy. split; [done|]. by apply Hl in Hy as [? _]. }
  by destruct f.
Qed.

Lemma coherent_drop_archive P F id l hlc f :
  NoDup (map ar_id l) → (∀ y, y ∈ l ↔ y ∈ wf_archives f ∧ ar_id y ≠ id) →
  coherent_but P F f → coherent_but P F (set_register ("archive:" +:+ id) None hlc (with_archives l f)).
Proof.
  intros Hnd Hl Hf. apply coherent_archive_list; try done.
  eapply (category_drop ar_id DArchive any_id _ _ _ id); [|done|done|done|apply (co_archives _ _ _ Hf)].
  intros x. cbn. split; [by intros [=]|congruence].
Qed.

(** A document of none of the lists, and a change of settings. *)
Definition plain_doc (d : WorkspaceDoc) : Prop :=
  match d with DSpace _ | DPin _ | DArchive _ | DSettings _ => False | _ => True end.

Lemma coherent_plain P F d hlc f :
  plain_doc d → coherent_but P F f → coherent_but P F (set_register (workspaceKeyFor d) (Some d) hlc f).
Proof.
  intros Hd Hf. apply coherent_put_other; [| |by intros ? [= ->]|done].
  - destruct d; try done; other_key.
  - same_key.
Qed.

Lemma coherent_settings P F d hlc f :
  coherent_but P F f →
  coherent_but P F (set_register (workspaceKeyFor (DSettings d)) (Some (DSettings d)) hlc
    (with_settings (applySettingsDoc (wf_settings f) d) f)).
Proof.
  intros [Hm Hsp Hp Ha Hset]. split.
  - apply keyed_put; [same_key|done].
  - by apply category_set_other.
  - by apply category_set_other.
  - by apply category_set_other.
  - intros k e h. cbn. rewrite map_get_set, settingsDocs_apply. case_decide as Hk.
    + intros [= -> _]. by left.
    + intros Hg. right. split; [by eapply Hset|]. intros He. apply Hk.
      rewrite (proj2 Hm _ _ _ Hg). cbn. by rewrite He.
Qed.

Lemma prefix_split key p : startsWith key p = true → key = p +:+ slice_from (String.length p) key.
Proof. intros (t & ->)%startsWith_iff. by rewrite slice_from_app. Qed.

Lemma not_prefix_key key p (K : string → Prop) :
  startsWith key p = false → ∀ t, p +:+ t ≠ key.
Proof. intros H t <-. by rewrite startsWith_app in H. Qed.

(** A remote tombstone, whatever its key. *)
Lemma coherent_tombstone key hlc f :
  coherent f → coherent (set_register key None hlc (apply_tombstone key f)).
Proof.
  intros Hf. unfold apply_tombstone. destruct (startsWith key "space:") eqn:E1.
  { rewrite (prefix_split _ _ E1) at 1. apply (coherent_drop_space any_id); try done.
    - apply drop_id_nodup. apply (co_spaces _ _ _ Hf).
    - intros. apply drop_id_elem. }
  destruct (startsWith key "pin:") eqn:E2.
  { rewrite (prefix_split _ _ E2) at 1. apply coherent_drop_pin; try done.
    - apply drop_id_nodup. apply (co_pins _ _ _ Hf).
    - intros. apply drop_id_elem. }
  destruct (startsWith key "archive:") eqn:E3.
  { rewrite (prefix_split _ _ E3) at 1. apply coherent_drop_archive; try done.
    - apply drop_id_nodup. apply (co_archives _ _ _ Hf).
    - intros. apply drop_id_elem. }
  assert (other_key key) as Hk.
  { split; [|split]; intros x; [apply (not_prefix_key _ "space:" (λ _, True))
      |apply (not_prefix_key _ "pin:" (λ _, True))|apply (not_prefix_key _ "archive:" (λ _, True))]; done. }
  apply coherent_put_other; try done. destruct (startsWith key "history:"); [|done].
  destruct Hf; by split.
Qed.

(** Operations that leave the lists, the settings and the registers of
    spaces, pins and archives alone. *)
Lemma coherent_registers (g : string * WorkspaceRegister → bool) P F f f' :
  wf_spaces f' = wf_spaces f → wf_pins f' = wf_pins f → wf_archives f' = wf_archives f →
  wf_settings f' = wf_settings f → wf_lww f' = List.filter g (wf_lww f) →
  (∀ d r, match d with DSpace _ | DPin _ | DArchive _ => True | _ => False end → g (workspaceKeyFor d, r) = true) →
  coherent_but P F f → coherent_but P F f'.
Proof.
  intros E1 E2 E3 E4 E5 Hg [Hm Hsp Hp Ha Hset].
  assert (∀ d, match d with DSpace _ | DPin _ | DArchive _ => True | _ => False end →
    map_get (workspaceKeyFor d) (wf_lww f') = map_get (workspaceKeyFor d) (wf_lww f)) as Hget.
  { intros d Hd. rewrite E5, map_get_filter by apply Hm.
    destruct (map_get _ _) as [r|]; [|done]. by rewrite Hg. }
  split.
  - rewrite E5. by apply keyed_filter.
  - unfold spaces_ok. rewrite E1. eapply category_frame; [|exact Hsp]. intros x. by apply Hget.
  - unfold pins_ok. rewrite E2. eapply category_frame; [|exact Hp]. intros x. by apply Hget.
  - unfold archives_ok. rewrite E3. eapply category_frame; [|exact Ha]. intros x. by apply Hget.
  - intros k d h. rewrite E4, E5, map_get_filter by apply Hm. destruct (map_get k _) eqn:E; [|done].
    destruct (g _); [|done]. intros [= ->]. by eapply Hset.
Qed.

Lemma coherent_same P F f f' :
  wf_spaces f' = wf_spaces f → wf_pins f' = wf_pins f → wf_archives f' = wf_archives f →
  wf_settings f' = wf_settings f → wf_lww f' = wf_lww f → coherent_but P F f → coherent_but P F f'.
Proof.
  intros E1 E2 E3 E4 E5. apply (coherent_registers (λ _, true)); try done.
  by rewrite E5, filter_all.
Qed.

Lemma coherent_prune P F now f : coherent_but P F f → coherent_but P F (prune now f).
Proof.
  apply (coherent_registers (λ kr, sweep_keeps (retained now (wf_history f)) kr.1 kr.2)); try done.
  intros d r Hd. unfold sweep_keeps. by destruct d.
Qed.

(** A remote document under its own key. *)
Lemma coherent_apply_doc now d hlc f :
  coherent f → coherent (set_register (workspaceKeyFor d) (Some d) hlc (apply_doc now d f)).
Proof.
  intros Hf. destruct d as [x|? ?|x|x|x|x|x|x|x|x|x]; cbn [apply_doc]; try (by apply coherent_plain).
  - by apply coherent_upsert_space.
  - by apply coherent_upsert_pin.
  - apply coherent_archive; [|intros y|done].
    + apply (upsert_nodup ar_id). apply (co_archives _ _ _ Hf).
    + apply (upsert_elem ar_id). apply (co_archives _ _ _ Hf).
  - apply coherent_plain; [done|]. apply coherent_prune. eapply coherent_same; [..|exact Hf]; done.
  - by apply coherent_settings.
Qed.

(** Restamping a register keeps its document. *)
Lemma category_live {A} (id_of : A → string) mk P l m m' :
  (∀ x, live mk x m' ↔ live mk x m) → category id_of mk P l m → category id_of mk P l m'.
Proof. intros Hm [Hnd Hl]. split; [done|]. intros x. by rewrite Hm. Qed.

Lemma coherent_restamp P F k r hlc f :
  map_get k (wf_lww f) = Some r → coherent_but P F f → coherent_but P F (set_register k (reg_doc r) hlc f).
Proof.
  intros Hr [Hm Hsp Hp Ha Hset].
  assert (∀ A (mk : A → WorkspaceDoc) x,
    live mk x (map_set k (mkReg (reg_doc r) hlc) (wf_lww f)) ↔ live mk x (wf_lww f)) as Hlive.
  { intros A mk x. unfold live. rewrite map_get_set. case_decide as Hk; [|done]. rewrite <- Hk, Hr.
    destruct r as [d h]. cbn. split; intros [h' [= ->]]; eauto. }
  split.
  - apply keyed_put; [|done]. intros d Hd. destruct r as [d' h]. cbn in Hd. subst. by eapply Hm.
  - eapply category_live; [|eassumption]. intros x. apply Hlive.
  - eapply category_live; [|eassumption]. intros x. apply Hlive.
  - eapply category_live; [|eassumption]. intros x. apply Hlive.
  - apply settings_put; [|done]. intros d Hd HF. destruct r as [e h]. cbn in Hd. subst. eauto.
Qed.

(** ** Coherence of the store *)

Section Store.
Context {L : Type} (onDocs : list string → WorkspaceFile → L → L).
Context (deviceId : string) (wall : nat → Z) `{C : Collator}.
Implicit Types s : @WorkspaceStore L.

(** What is in memory, up to [P] and [F], and what is on disk. *)
Definition store_ok (P : string → Prop) (F : WorkspaceSettingsField → Prop) (s : @WorkspaceStore L) : Prop :=
  coherent_but P F (st_file s) ∧ ∀ f, st_disk s = Some f → coherent f.

Lemma ok_on_file (P Q : string → Prop) (F G : WorkspaceSettingsField → Prop) g s :
  (coherent_but P F (st_file s) → coherent_but Q G (g (st_file s))) → store_ok P F s → store_ok Q G (on_file g s).
Proof. intros H [Hf Hd]. split; [by apply H|done]. Qed.

Lemma ok_same_file P F s s' :
  st_file s' = st_file s → st_disk s' = st_disk s → store_ok P F s → store_ok P F s'.
Proof. intros E1 E2 [Hf Hd]. split; [by rewrite E1|]. rewrite E2. done. Qed.

Lemma ok_put_register (P Q : string → Prop) (F G : WorkspaceSettingsField → Prop) k doc s :
  (∀ hlc, coherent_but P F (st_file s) → coherent_but Q G (set_register k doc hlc (st_file s))) →
  store_ok P F s → store_ok Q G (put_register deviceId wall k doc s).
Proof.
  intros H [Hf Hd]. unfold put_register, stamp. destruct (clock_send _ _) as [h c].
  split; [by apply (H h)|done].
Qed.

Lemma ok_recordDoc (P Q : string → Prop) (F G : WorkspaceSettingsField → Prop) d s :
  (∀ hlc, coherent_but P F (st_file s) →
     coherent_but Q G (set_register (workspaceKeyFor d) (Some d) hlc (st_file s))) →
  store_ok P F s → store_ok Q G (recordDoc onDocs deviceId wall d s).
Proof.
  intros H Hs. eapply ok_same_file; [| |eapply (ok_put_register P Q F G); [apply H|exact Hs]]; done.
Qed.

Lemma ok_recordTombstone (P Q : string → Prop) F k s :
  (∀ hlc, coherent_but P F (st_file s) → coherent_but Q F (set_register k None hlc (st_file s))) →
  store_ok P F s → store_ok Q F (recordTombstone onDocs deviceId wall k s).
Proof.
  intros H Hs. eapply ok_same_file; [| |eapply (ok_put_register P Q F F); [apply H|exact Hs]]; done.
Qed.

(** An edit of a list followed by its register. *)
Lemma ok_edit_put (P Q : string → Prop) (F G : WorkspaceSettingsField → Prop) g k doc s :
  (∀ hlc, coherent_but P F (st_file s) → coherent_but Q G (set_register k doc hlc (g (st_file s)))) →
  store_ok P F s → store_ok Q G (put_register deviceId wall k doc (on_file g s)).
Proof.
  intros H [Hf Hd]. unfold put_register, stamp. destruct (clock_send _ _) as [h c].
  split; [by apply (H h)|done].
Qed.

Lemma ok_edit_doc (P Q : string → Prop) (F G : WorkspaceSettingsField → Prop) g d s :
  (∀ hlc, coherent_but P F (st_file s) →
     coherent_but Q G (set_register (workspaceKeyFor d) (Some d) hlc (g (st_file s)))) →
  store_ok P F s → store_ok Q G (recordDoc onDocs deviceId wall d (on_file g s)).
Proof.
  intros H Hs. eapply ok_same_file; [| |eapply (ok_edit_put P Q F G); [apply H|exact Hs]]; done.
Qed.

Lemma ok_edit_tombstone (P Q : string → Prop) F g k s :
  (∀ hlc, coherent_but P F (st_file s) → coherent_but Q F (set_register k None hlc (g (st_file s)))) →
  store_ok P F s → store_ok Q F (recordTombstone onDocs deviceId wall k (on_file g s)).
Proof.
  intros H Hs. eapply ok_same_file; [| |eapply (ok_edit_put P Q F F); [apply H|exact Hs]]; done.
Qed.

Lemma ok_record_plain P F d s :
  plain_doc d → store_ok P F s → store_ok P F (recordDoc onDocs deviceId wall d s).
Proof. intros Hd. apply ok_recordDoc. intros. by apply coherent_plain. Qed.

Lemma ok_recordDocs P F docs s :
  (∀ d, d ∈ docs → plain_doc d) → store_ok P F s → store_ok P F (recordDocs onDocs deviceId wall docs s).
Proof.
  intros Hd Hs. unfold recordDocs. destruct docs as [|d0 docs0]; [done|]. revert Hd.
  generalize (d0 :: docs0). intros docs Hd.
  eapply ok_same_file; [done|done|]. cbn.
  revert s Hs. induction docs as [|d docs IH]; intros s Hs; [done|]. cbn [fold_left].
  apply IH; [set_solver|]. apply (ok_put_register P P F F); [|done]. intros. apply coherent_plain; [set_solver|done].
Qed.

Lemma ok_plain_tombstone P F k s :
  other_key k → store_ok P F s → store_ok P F (recordTombstone onDocs deviceId wall k s).
Proof. intros Hk. apply ok_recordTombstone. intros. by apply coherent_put_other. Qed.

Lemma ok_closeSyncedTab P F id s :
  store_ok P F s → store_ok P F (closeSyncedTab onDocs deviceId wall id s).
Proof.
  intros Hs. unfold closeSyncedTab. destruct (map_get _ _) as [[[d|] h]|]; [| |]; try done;
    (apply ok_plain_tombstone; [other_key|done]).
Qed.

Lemma ok_removeSpace s id :
  store_ok any_id any_field s → store_ok any_id any_field (removeSpace onDocs deviceId wall id s).
Proof.
  intros Hs. unfold removeSpace. destruct (negb _); [done|].
  set (P := λ i, i ≠ id).
  assert (store_ok P any_field
    (on_file (λ f, with_spaces (splice_first (same_space id) (wf_spaces f)) f) s)) as H1.
  { eapply ok_on_file; [|exact Hs]. intros [Hm [Hnd Hl] Hp Ha Hset]. split; try done. split.
    - by apply (splice_first_nodup sp_id).
    - intros x. etrans; [by apply (splice_first_elem sp_id)|]. rewrite Hl. unfold P, any_id. tauto. }
  assert (∀ pins s, store_ok P any_field s →
    store_ok P any_field (fold_left (remove_pin_of onDocs deviceId wall) pins s)) as H2.
  { induction pins as [|p pins IH]; intros s' Hs'; [done|]. cbn [fold_left]. apply IH.
    unfold remove_pin_of. eapply (ok_edit_tombstone P P); [|done]. intros h Hf.
    apply (coherent_drop_pin P any_field (pin_id p) _ h); [| |done].
    - apply (drop_id_nodup pin_id). apply (co_pins _ _ _ Hf).
    - intros y. apply (drop_id_elem pin_id). }
  assert (∀ tabs s, store_ok P any_field s →
    store_ok P any_field (fold_left (λ s tab, closeSyncedTab onDocs deviceId wall (tp_id (ts_tab tab)) s) tabs s)) as H3.
  { induction tabs as [|t tabs IH]; intros s' Hs'; [done|]. cbn [fold_left]. apply IH. by apply ok_closeSyncedTab. }
  eapply (ok_recordTombstone P any_id); [|apply H3, H2, H1]. intros h. apply coherent_forget_space.
Qed.

(** Recording a settings field that holds its new value already. *)
Lemma ok_record_settings F d s :
  d ∈ settingsDocs (wf_settings (st_file s)) → store_ok any_id F s →
  store_ok any_id (λ f, F f ∨ f = settings_field d) (recordDoc onDocs deviceId wall (DSettings d) s).
Proof.
  intros Hd. apply ok_recordDoc. intros h [Hm Hsp Hp Ha Hset]. split.
  - apply keyed_put; [same_key|done].
  - by apply category_set_other.
  - by apply category_set_other.
  - by apply category_set_other.
  - intros k e h'. cbn. rewrite map_get_set. case_decide as Hk; [by intros [= -> _]|].
    intros Hg [HF|He]; [by eapply Hset|]. exfalso. apply Hk. rewrite (proj2 Hm _ _ _ Hg). cbn. by rewrite He.
Qed.

Lemma ok_record_if {A} (o : option A) doc (F : WorkspaceSettingsField → Prop) fld s :
  (∀ t, doc t ∈ settingsDocs t) → (∀ t, settings_field (doc t) = fld) →
  store_ok any_id (λ f, F f ∧ (f = fld → o = None)) s →
  store_ok any_id F (record_if onDocs deviceId wall o doc s)
  ∧ wf_settings (st_file (record_if onDocs deviceId wall o doc s)) = wf_settings (st_file s).
Proof.
  intros Hdoc Hfld [Hf Hd]. unfold record_if. destruct o as [a|].
  - split; [|unfold recordDoc, put_register, stamp; by destruct (clock_send _ _)].
    pose proof (ok_record_settings _ (doc (wf_settings (st_file s))) s (Hdoc _) (conj Hf Hd)) as [Hf' Hd'].
    split; [|done]. destruct Hf' as [? ? ? ? Hset]. split; try done. intros k d h Hg HF.
    eapply Hset; [exact Hg|]. rewrite Hfld. destruct (decide (settings_field d = fld)); [by right|left; tauto].
  - split; [|done]. split; [|done]. destruct Hf as [? ? ? ? Hset]. split; try done. intros k d h Hg HF.
    by eapply Hset.
Qed.

Lemma ok_updateSettings patch s :
  store_ok any_id any_field s → store_ok any_id any_field (updateSettings onDocs deviceId wall patch s).
Proof.
  intros Hs. unfold updateSettings. cbv zeta.
  apply (ok_record_if _ _ _ newTabUrlField); [set_solver|done|].
  apply (ok_record_if _ _ _ keyModeField); [set_solver|done|].
  apply (ok_record_if _ _ _ autoArchive); [set_solver|done|].
  apply (ok_record_if _ _ _ historySync); [set_solver|done|].
  eapply ok_on_file; [|exact Hs]. intros [Hm Hsp Hp Ha Hset]. split; try done.
  intros k d h Hg ((((_ & H1) & H2) & H3) & H4). specialize (Hset k d h Hg I).
  unfold settingsDocs in *. cbn [wf_settings with_settings].
  rewrite !elem_of_cons, elem_of_nil in Hset |- *.
  destruct Hset as [->|[->|[->|[->|[]]]]]; cbn in H1, H2, H3, H4 |- *; rewrite ?H1, ?H2, ?H3, ?H4 by done; tauto.
Qed.

Lemma ok_clearHistory s :
  store_ok any_id any_field s → store_ok any_id any_field (clearHistory onDocs deviceId wall s).
Proof.
  intros Hs. unfold clearHistory.
  assert (∀ ids acc, store_ok any_id any_field acc.1 →
    store_ok any_id any_field (fold_left (clear_one deviceId wall) ids acc).1) as H.
  { induction ids as [|id ids IH]; intros acc Hacc; [done|]. cbn [fold_left]. apply IH.
    unfold clear_one. destruct acc as [s' keys]. destruct (map_has _ _); [|done]. cbn [fst] in *.
    eapply (ok_put_register any_id any_id); [|exact Hacc]. intros h Hf. apply coherent_put_other; done. }
  specialize (H (map hv_id (wf_history (st_file s))) (with_shared [] (on_file (with_history []) s), [])).
  destruct (fold_left _ _ _) as [s' keys]. destruct keys; (eapply ok_same_file; [done|done|]); apply H;
    (eapply ok_same_file; [done|done|]); (eapply ok_on_file; [|exact Hs]); apply coherent_same; done.
Qed.

Lemma ok_pruneHistory now s : store_ok any_id any_field s → store_ok any_id any_field (pruneHistory now s).
Proof. intros Hs. eapply ok_on_file; [|exact Hs]. apply coherent_prune. Qed.

Lemma ok_with_history x s :
  store_ok any_id any_field s → store_ok any_id any_field (on_file (λ f, with_history (x f) f) s).
Proof. intros Hs. eapply ok_on_file; [|exact Hs]. apply coherent_same; done. Qed.

Lemma ok_addHistoryVisit v s :
  store_ok any_id any_field s → store_ok any_id any_field (addHistoryVisit onDocs deviceId wall v s).
Proof.
  intros Hs. unfold addHistoryVisit. cbv zeta. apply (ok_with_history (λ f, wf_history f ++ [v])) in Hs.
  apply (ok_pruneHistory (hv_atMs v)) in Hs.
  destruct (historySyncEnabled _).
  - apply ok_record_plain; [done|]. eapply ok_same_file; [done|done|exact Hs].
  - eapply ok_same_file; [done|done|exact Hs].
Qed.

Lemma find_same {A} (id_of : A → string) id l x :
  List.find (λ y, String.eqb (id_of y) id) l = Some x → x ∈ l ∧ id_of x = id.
Proof. intros [? ?%String.eqb_eq]%find_some. by rewrite list_elem_of_In. Qed.

Lemma ok_write_title id v s :
  hv_id v = id → store_ok any_id any_field s → store_ok any_id any_field (write_title id v s).
Proof.
  intros <- Hs. unfold write_title. cbv zeta. pose proof (ok_with_history
    (λ f, upsert (same_visit (hv_id v)) v (wf_history f)) s Hs) as H1.
  destruct (map_get _ _) as [[[[]|] h]|]; try done. case_decide; [|done].
  eapply ok_on_file; [|exact H1]. intros Hf.
  apply (coherent_plain any_id any_field (DHistory v)); done.
Qed.

Lemma ok_updateHistoryVisitTitle id title s :
  store_ok any_id any_field s →
  store_ok any_id any_field (updateHistoryVisitTitle onDocs deviceId wall id title s).
Proof.
  intros Hs. unfold updateHistoryVisitTitle. destruct (List.find _ _) as [v|] eqn:Ev; [|done].
  apply (find_same hv_id) in Ev as [_ Hid]. destruct (String.eqb _ _); [done|]. cbv zeta.
  assert (store_ok any_id any_field (write_title id (retitle title v) s)) as H1 by by apply ok_write_title.
  destruct (_ && _).
  - apply ok_record_plain; [done|]. eapply ok_same_file; [done|done|exact H1].
  - eapply ok_same_file; [done|done|exact H1].
Qed.

Lemma ok_publishAttachmentRegisters keys s :
  store_ok any_id any_field s →
  store_ok any_id any_field (publishAttachmentRegisters onDocs deviceId wall keys s).
Proof.
  intros Hs. unfold publishAttachmentRegisters.
  assert (∀ acc, store_ok any_id any_field acc.1 →
    store_ok any_id any_field (fold_left (restamp_one deviceId wall) keys acc).1) as H.
  { induction keys as [|k keys IH]; intros acc Hacc; [done|]. cbn [fold_left]. apply IH.
    unfold restamp_one. destruct acc as [s' changed]. destruct (map_get _ _) as [r|] eqn:Er; [|done].
    cbn [fst] in *. eapply (ok_put_register any_id any_id); [|exact Hacc]. intros h. by apply coherent_restamp. }
  specialize (H (s, []) Hs). destruct (fold_left _ _ _) as [s' changed]. destruct changed; [exact H|].
  eapply ok_same_file; [done|done|exact H].
Qed.

Lemma attachment_other k : isAttachmentKey k = true → other_key k.
Proof.
  unfold isAttachmentKey. intros H. split; [|split]; intros x <-; revert H; done.
Qed.

Lemma ok_replaceAttachmentRegisters regs s :
  keyed regs → store_ok any_id any_field s → store_ok any_id any_field (replaceAttachmentRegisters regs s).
Proof.
  intros [Hwf Hk] Hs. unfold replaceAttachmentRegisters, change. eapply ok_same_file; [done|done|].
  eapply ok_on_file; [|exact Hs]. intros Hf.
  assert (∀ k r, (k, r) ∈ regs → map_get k regs = Some r) as Hin by (intros; by apply map_In_get).
  assert (coherent (with_lww (List.filter (λ kr, negb (isAttachmentKey kr.1)) (wf_lww (st_file s))) (st_file s))) as H0.
  { eapply (coherent_registers (λ kr, negb (isAttachmentKey kr.1))); [..|exact Hf]; try done.
    intros [] r; done. }
  revert H0. generalize (List.filter (λ kr, negb (isAttachmentKey kr.1)) (wf_lww (st_file s))).
  assert (∀ l : Registers, (∀ k r, (k, r) ∈ l → map_get k regs = Some r) → ∀ m : Registers,
    coherent (with_lww m (st_file s)) →
    coherent (with_lww (fold_left (λ m '(key, register),
      if isAttachmentKey key then map_set key register m else m) l m) (st_file s))) as H;
    [|intros m; by apply H].
  intros l. induction l as [|[k r] l IH]; intros Hl m Hm; [done|]. cbn [fold_left]. apply IH; [set_solver|].
  destruct (isAttachmentKey k) eqn:Ek; [|done].
  assert (map_get k regs = Some r) as Hr by (apply Hl; left). destruct r as [doc h].
  assert (∀ d, doc = Some d → k = workspaceKeyFor d) as Hd by (intros d ->; by eapply Hk).
  eapply coherent_same; [..|apply (coherent_put_other any_id any_field k doc h (with_lww m (st_file s)))]; try done.
  - by apply attachment_other.
  - intros d ->. rewrite (Hd _ eq_refl) in Ek. done.
Qed.

Lemma ok_applyRemoteDoc key value hlc s :
  (∀ d, value = Some d → key = workspaceKeyFor d) →
  store_ok any_id any_field s → store_ok any_id any_field (applyRemoteDoc wall key value hlc s).
Proof.
  intros Hk [Hf Hd]. unfold applyRemoteDoc. cbv zeta.
  destruct value as [d|]; [|split; [by apply coherent_tombstone|done]].
  rewrite (Hk d eq_refl). destruct d as [x|? ?|x|x|x|x|x|x|x|x|x]; (split; [|done]); cbn [st_file on_file scheduleWrite with_clock unshare with_shared];
    by apply (coherent_apply_doc _ _ hlc _ Hf).
Qed.

(** ** The operations of the store *)

Inductive StoreOp :=
| OUpsertSpace (x : SpaceMeta) | ORemoveSpace (id : string)
| OSetSpaceFolder (id folder : string) | ORemoveSpaceFolder (id : string)
| OUpsertPin (x : PinnedTab) | OUpdatePin (id : string) (patch : PinPatch) | ORemovePin (id : string)
| OOpenTab (tab : SyncedTabState) | OTabUrl (id url : string) | OTabOrder (id spaceId rank : string)
| OTabOrders (values : list SyncedTabOrder) | OCloseTab (id : string)
| OFocus (focus : SyncedWorkspaceFocus) | OPublishFocus | OActivity (a : SyncedDeviceActivity)
| OAddArchive (a : ArchivedTab) | OSettings (patch : SettingsPatch)
| OAddVisit (v : HistoryVisit) | OVisitTitle (id title : string) | OClearHistory
| OOriginOverride (host : string) (v : option OriginOverrideValue)
| OSignInQueue (q : list SignInQueueItem) | OMarkSignedIn (domain : string)
| OPermission (origin permission : string) (granted : bool)
| OActiveSpace (id : option string) | OActiveTab (space : string) (tab : option string)
| OSplitTab (space : string) (tab : option string) | OTodayTabs (space : string) (urls : list string)
| OTabsMigrated (space : string) | ONativeDomain (domain : string)
| ODownloads (items : list DownloadItemInfo) | OEgress (space : string) (bypass : list string) (media : bool)
| OMarkManual (account : option string) | OReplace (regs : Registers) | ORestamp (keys : list string)
| OApplyRemote (key : string) (value : option WorkspaceDoc) (hlc : Hlc)
| OReceiveHlc (hlc : Hlc) | OResetHlc | ONextHlc | OWrite | ORestart (listener : L).

Definition store_run (o : StoreOp) (s : @WorkspaceStore L) : @WorkspaceStore L :=
  match o with
  | OUpsertSpace x => upsertSpace onDocs deviceId wall x s
  | ORemoveSpace id => removeSpace onDocs deviceId wall id s
  | OSetSpaceFolder id folder => setSpaceFolder onDocs deviceId wall id folder s
  | ORemoveSpaceFolder id => removeSpaceFolder onDocs deviceId wall id s
  | OUpsertPin x => upsertPin onDocs deviceId wall x s
  | OUpdatePin id patch => updatePin onDocs deviceId wall id patch s
  | ORemovePin id => removePin onDocs deviceId wall id s
  | OOpenTab tab => openSyncedTab onDocs deviceId wall tab s
  | OTabUrl id url => updateSyncedTabUrl onDocs deviceId wall id url s
  | OTabOrder id sp rank => updateSyncedTabOrder onDocs deviceId wall id sp rank s
  | OTabOrders values => updateSyncedTabOrders onDocs deviceId wall values s
  | OCloseTab id => closeSyncedTab onDocs deviceId wall id s
  | OFocus f => updateSyncedWorkspaceFocus onDocs deviceId wall f s
  | OPublishFocus => publishCurrentWorkspaceFocus onDocs deviceId wall s
  | OActivity a => updateSyncedDeviceActivity onDocs deviceId wall a s
  | OAddArchive a => addArchive onDocs deviceId wall a s
  | OSettings patch => updateSettings onDocs deviceId wall patch s
  | OAddVisit v => addHistoryVisit onDocs deviceId wall v s
  | OVisitTitle id title => updateHistoryVisitTitle onDocs deviceId wall id title s
  | OClearHistory => clearHistory onDocs deviceId wall s
  | OOriginOverride h v => setOriginOverride h v s
  | OSignInQueue q => setSignInQueue q s
  | OMarkSignedIn d => markSignedIn d s
  | OPermission o p g => setPermissionDecision wall o p g s
  | OActiveSpace id => setActiveSpaceId id s
  | OActiveTab sp t => setActiveTabFor sp t s
  | OSplitTab sp t => setSplitTabFor sp t s
  | OTodayTabs sp u => setTodayTabs sp u s
  | OTabsMigrated sp => markRealtimeTabsMigrated sp s
  | ONativeDomain d => addNativeTransportDomain d s
  | ODownloads i => setDownloads i s
  | OEgress sp b m => setEgressConfig sp b m s
  | OMarkManual a => markManualSyncInitialized a s
  | OReplace regs => replaceAttachmentRegisters regs s
  | ORestamp keys => publishAttachmentRegisters onDocs deviceId wall keys s
  | OApplyRemote k v h => applyRemoteDoc wall k v h s
  | OReceiveHlc h => receiveWorkspaceHlc deviceId wall h s
  | OResetHlc => resetWorkspaceHlc s
  | ONextHlc => (nextSyncHlc deviceId wall s).2
  | OWrite => write s
  | ORestart l => restart l s
  end.

(** What the callers guarantee: archives have fresh identifiers (random
    UUIDs), and documents that come from outside lie under their own key. *)
Definition store_pre (o : StoreOp) (s : @WorkspaceStore L) : Prop :=
  match o with
  | OAddArchive a => ar_id a ∉ map ar_id (wf_archives (st_file s))
  | OApplyRemote k v _ => ∀ d, v = Some d → k = workspaceKeyFor d
  | OReplace regs => keyed regs
  | _ => True
  end.

Definition store_step (s s' : @WorkspaceStore L) : Prop := ∃ o, store_pre o s ∧ s' = store_run o s.

Lemma coherent_empty : coherent emptyFile.
Proof.
  split; [split; [constructor|done]|..]; try done;
    (split; [constructor|]; intros x; split; [by intros ?%elem_of_nil|by intros [_ [? [=]]]]).
Qed.

Lemma coherent_read disk : (∀ f, disk = Some f → coherent f) → coherent (read disk).
Proof.
  intros Hd. unfold read. destruct disk as [f|]; [|apply coherent_empty].
  eapply (coherent_registers (λ '(k', _), negb (bool_decide ("settings" = k')))); [..|by apply Hd]; try done.
  intros [] r; done.
Qed.

(** Local state alone. *)
Lemma ok_change g s :
  (∀ f, wf_spaces (g f) = wf_spaces f ∧ wf_pins (g f) = wf_pins f ∧ wf_archives (g f) = wf_archives f
        ∧ wf_settings (g f) = wf_settings f ∧ wf_lww (g f) = wf_lww f) →
  store_ok any_id any_field s → store_ok any_id any_field (change g s).
Proof.
  intros Hg [Hf Hd]. destruct (Hg (st_file s)) as (E1 & E2 & E3 & E4 & E5).
  split; [|done]. by eapply coherent_same.
Qed.

Lemma store_step_ok s s' : store_step s s' → store_ok any_id any_field s → store_ok any_id any_field s'.
Proof.
  intros (o & Hpre & ->) Hs.
  destruct o; cbn [store_run store_pre] in *; try (by apply ok_change); try (by apply ok_record_plain);
    try (eapply ok_same_file; [done|done|exact Hs]).
  - eapply (ok_edit_doc any_id any_id any_field any_field); [|exact Hs]. intros h Hf. by apply coherent_upsert_space.
  - by apply ok_removeSpace.
  - apply ok_plain_tombstone; [other_key|done].
  - eapply (ok_edit_doc any_id any_id any_field any_field); [|exact Hs]. intros h. apply coherent_upsert_pin.
  - unfold updatePin. destruct (List.find _ _) as [p|] eqn:Ep; [|done].
    apply (find_same pin_id) in Ep as [_ <-].
    eapply (ok_edit_doc any_id any_id any_field any_field); [|exact Hs]. intros h.
    apply (coherent_upsert_pin _ _ (patch_pin patch p)).
  - unfold removePin. destruct (negb _); [done|]. eapply (ok_edit_tombstone any_id any_id); [|exact Hs].
    intros h Hf. apply coherent_drop_pin; [| |done].
    + apply (splice_first_nodup pin_id). apply (co_pins _ _ _ Hf).
    + intros y. apply (splice_first_elem pin_id). apply (co_pins _ _ _ Hf).
  - apply ok_recordDocs; [|done]. set_solver.
  - unfold updateSyncedTabUrl. repeat case_match; try done; by apply ok_record_plain.
  - unfold updateSyncedTabOrder. case_match; [done|by apply ok_record_plain].
  - apply ok_recordDocs; [|done]. intros d (v & _ & Hv)%list_elem_of_omap. cbv zeta in Hv.
    destruct (has_rank _ _ _); [done|]. by injection Hv as <-.
  - by apply ok_closeSyncedTab.
  - unfold updateSyncedWorkspaceFocus. repeat case_match; try done; by apply ok_record_plain.
  - unfold publishCurrentWorkspaceFocus, updateSyncedWorkspaceFocus. repeat case_match; try done; by apply ok_record_plain.
  - unfold updateSyncedDeviceActivity. repeat case_match; try done; by apply ok_record_plain.
  - eapply (ok_edit_doc any_id any_id any_field any_field); [|exact Hs]. intros h Hf.
    apply coherent_archive; [| |done].
    + apply snoc_nodup; [apply (co_archives _ _ _ Hf)|done].
    + intros y. rewrite elem_of_snoc. split; [|tauto]. intros [Hy|Hy]; [|by left]. right. split; [done|].
      intros He. apply Hpre. rewrite <- He. apply list_elem_of_fmap. eauto.
  - by apply ok_updateSettings.
  - by apply ok_addHistoryVisit.
  - by apply ok_updateHistoryVisitTitle.
  - by apply ok_clearHistory.
  - unfold setTodayTabs. case_decide; [done|by apply ok_change].
  - unfold markRealtimeTabsMigrated. case_match; [done|by apply ok_change].
  - unfold addNativeTransportDomain. case_decide; [done|by apply ok_change].
  - unfold markManualSyncInitialized. case_match; [done|by apply ok_change].
  - by apply ok_replaceAttachmentRegisters.
  - by apply ok_publishAttachmentRegisters.
  - by apply ok_applyRemoteDoc.
  - destruct Hs as [Hf _]. split; [done|]. by intros f [= <-].
  - destruct Hs as [_ Hd]. split; [by apply coherent_read|done].
Qed.

Lemma reachable_store_ok disk l s :
  (∀ f, disk = Some f → coherent f) → rtc store_step (newStore disk l) s → store_ok any_id any_field s.
Proof.
  intros Hdisk Hr.
  assert (store_ok any_id any_field (newStore disk l : @WorkspaceStore L)) as H0 by (split; [by apply coherent_read|done]).
  revert H0. induction Hr as [|s1 s2 s3 Hstep _ IH]; [done|]. intros H. by apply IH, (store_step_ok s1).
Qed.

(** C18: in every history of the store - local edits, remote documents under
    their own keys, pulled layouts, history pruning, crashes and restarts -
    the lists of spaces, pins and archives are exactly the live registers of
    their kind without duplicate identifiers, every settings register holds
    the current value of its field, and every register lies under the key of
    its document; the file on disk has the same property. *)
Theorem store_coherent disk l s :
  (∀ f, disk = Some f → coherent f) → rtc store_step (newStore disk l) s →
  coherent (st_file s) ∧ (∀ f, st_disk s = Some f → coherent f)
  ∧ (∀ x, x ∈ spaces s ↔
       ∃ hlc, map_get ("space:" +:+ sp_id x) (lwwRegisters s) = Some (mkReg (Some (DSpace x)) hlc))
  ∧ (∀ x y, x ∈ spaces s → y ∈ spaces s → sp_id x = sp_id y → x = y)
  ∧ ∀ hlc mode, map_get "settings:keyMode" (lwwRegisters s) = Some (mkReg (Some (DSettings (SKeyMode mode))) hlc) →
      keyMode (wf_settings (st_file s)) = mode.
Proof.
  intros Hdisk Hr. destruct (reachable_store_ok disk l s Hdisk Hr) as [Hf Hd].
  split; [done|]. split; [done|]. pose proof (co_spaces _ _ _ Hf) as Hsp. split; [|split].
  - intros x. etrans; [apply (proj2 Hsp)|]. unfold any_id, live. cbn. naive_solver.
  - intros x y Hx Hy He. eapply (category_unique sp_id DSpace); [apply space_keys|congruence|exact Hsp|done..].
  - intros h mode Hg. pose proof (co_settings _ _ _ Hf _ _ _ Hg I) as H.
    unfold settingsDocs in H. rewrite !elem_of_cons, elem_of_nil in H.
    destruct H as [H|[H|[H|[H|[]]]]]; congruence.
Qed.

(** ** The key mode *)

Definition KEY_MODE : string := "settings:keyMode".

Definition same_key_mode (f f' : WorkspaceFile) : Prop :=
  keyMode (wf_settings f') = keyMode (wf_settings f)
  ∧ map_get KEY_MODE (wf_lww f') = map_get KEY_MODE (wf_lww f).

#[local] Instance same_key_mode_preorder : PreOrder same_key_mode.
Proof. split; [done|]. intros f g h [H1 H2] [H3 H4]. split; congruence. Qed.

Lemma key_mode_put k doc h f : k ≠ KEY_MODE → same_key_mode f (set_register k doc h f).
Proof. intros Hk. split; [done|]. cbn. by rewrite map_get_set_ne. Qed.

Lemma key_mode_register k doc s :
  k ≠ KEY_MODE → same_key_mode (st_file s) (st_file (put_register deviceId wall k doc s)).
Proof. intros Hk. unfold put_register, stamp. destruct (clock_send _ _). by apply key_mode_put. Qed.

Lemma key_mode_fold {A B} (file : A → WorkspaceFile) (step : A → B → A) l a :
  (∀ a b, b ∈ l → same_key_mode (file a) (file (step a b))) →
  same_key_mode (file a) (file (fold_left step l a)).
Proof.
  revert a. induction l as [|b l IH]; intros a H; [done|]. cbn [fold_left].
  etrans; [apply H; left|]. apply IH. intros a' b' Hb. apply H. by right.
Qed.

Lemma key_mode_doc d s :
  workspaceKeyFor d ≠ KEY_MODE →
  same_key_mode (st_file s) (st_file (recordDoc onDocs deviceId wall d s)).
Proof. apply key_mode_register. Qed.

Lemma key_mode_docs docs s :
  (∀ d, d ∈ docs → plain_doc d) →
  same_key_mode (st_file s) (st_file (recordDocs onDocs deviceId wall docs s)).
Proof.
  intros Hd. unfold recordDocs. destruct docs as [|d docs]; [done|].
  apply (key_mode_fold st_file (λ s doc, put_register deviceId wall (workspaceKeyFor doc) (Some doc) s)).
  intros s' d' Hin. apply key_mode_register. specialize (Hd d' Hin). by destruct d'.
Qed.

Lemma key_mode_tombstone k s :
  k ≠ KEY_MODE → same_key_mode (st_file s) (st_file (recordTombstone onDocs deviceId wall k s)).
Proof. apply key_mode_register. Qed.

Lemma key_mode_close id s :
  same_key_mode (st_file s) (st_file (closeSyncedTab onDocs deviceId wall id s)).
Proof. unfold closeSyncedTab. destruct (map_get _ _) as [[[d|] h]|]; try done; by apply key_mode_tombstone. Qed.

Lemma key_mode_prune now f : map_wf (wf_lww f) → same_key_mode f (prune now f).
Proof.
  intros Hwf. split; [done|]. cbn. rewrite map_get_filter by done. by destruct (map_get _ _).
Qed.

Lemma key_mode_settings (patch : SettingsPatch) s :
  sp_keyMode patch = None →
  same_key_mode (st_file s) (st_file (updateSettings onDocs deviceId wall patch s)).
Proof.
  intros Hk. unfold updateSettings. cbv zeta.
  assert (∀ A (o : option A) doc s, settings_field (doc (wf_settings (st_file s))) ≠ keyModeField →
    same_key_mode (st_file s) (st_file (record_if onDocs deviceId wall o doc s))) as H.
  { intros A o doc s' Hd. unfold record_if. destruct o; [|done]. apply key_mode_doc. cbn.
    by destruct (settings_field _). }
  rewrite Hk. cbn [record_if].
  etrans; [|apply H; done]. etrans; [|apply H; done]. etrans; [|apply H; done].
  split; [|done]. cbn. by rewrite Hk.
Qed.

Lemma key_mode_remove_space id s :
  same_key_mode (st_file s) (st_file (removeSpace onDocs deviceId wall id s)).
Proof.
  unfold removeSpace. destruct (negb _); [done|]. cbv zeta.
  etrans; [|by apply key_mode_tombstone].
  etrans; [|apply (key_mode_fold st_file); intros; apply key_mode_close].
  etrans; [|apply (key_mode_fold st_file); intros; unfold remove_pin_of;
    etrans; [|by apply key_mode_tombstone]; done]. done.
Qed.

Lemma key_mode_visit v s :
  map_wf (wf_lww (st_file s)) → same_key_mode (st_file s) (st_file (addHistoryVisit onDocs deviceId wall v s)).
Proof.
  intros Hwf. unfold addHistoryVisit. cbv zeta.
  assert (same_key_mode (st_file s) (st_file (pruneHistory (hv_atMs v)
    (on_file (λ f, with_history (wf_history f ++ [v]) f) s)))) as H
    by exact (key_mode_prune _ (with_history (wf_history (st_file s) ++ [v]) (st_file s)) Hwf).
  destruct (historySyncEnabled _); [|exact H]. etrans; [exact H|]. etrans; [|by apply key_mode_doc]. done.
Qed.

Lemma key_mode_title id title s :
  same_key_mode (st_file s) (st_file (updateHistoryVisitTitle onDocs deviceId wall id title s)).
Proof.
  unfold updateHistoryVisitTitle. destruct (List.find _ _) as [v|]; [|done].
  destruct (String.eqb _ _); [done|]. cbv zeta.
  assert (same_key_mode (st_file s) (st_file (write_title id (retitle title v) s))) as H.
  { unfold write_title. cbv zeta. destruct (map_get _ _) as [[[[]|] h]|]; try done.
    case_decide; [|done]. etrans; [|by apply key_mode_put]. done. }
  destruct (_ && _); [|exact H]. etrans; [exact H|]. etrans; [|by apply key_mode_doc]. done.
Qed.

Lemma key_mode_clear s : same_key_mode (st_file s) (st_file (clearHistory onDocs deviceId wall s)).
Proof.
  unfold clearHistory. cbv zeta.
  pose proof (key_mode_fold (λ a : WorkspaceStore * list string, st_file a.1) (clear_one deviceId wall)
    (map hv_id (wf_history (st_file s))) (with_shared [] (on_file (with_history []) s), [])) as H.
  destruct (fold_left _ _ _) as [s' keys]. cbn [fst] in H.
  assert (same_key_mode (st_file s) (st_file s')) as H'.
  { etrans; [|apply H]; [done|]. intros [a ks] id _. unfold clear_one. destruct (map_has _ _); [|done].
    by apply key_mode_register. }
  by destruct keys.
Qed.

Lemma key_mode_replace regs s :
  map_wf (wf_lww (st_file s)) → same_key_mode (st_file s) (st_file (replaceAttachmentRegisters regs s)).
Proof.
  intros Hwf. split; [done|]. unfold replaceAttachmentRegisters, change. cbn.
  assert (∀ l m, map_get KEY_MODE (fold_left (λ (m : Registers) '(key, register),
    if isAttachmentKey key then map_set key register m else m) l m) = map_get KEY_MODE m) as H.
  { induction l as [|[k r] l IH]; intros m; [done|]. cbn [fold_left]. rewrite IH.
    destruct (isAttachmentKey k) eqn:E; [|done]. rewrite map_get_set_ne; [done|]. by intros ->. }
  rewrite H, map_get_filter by done. by destruct (map_get _ _).
Qed.

Lemma key_mode_restamp keys s :
  KEY_MODE ∉ keys → same_key_mode (st_file s) (st_file (publishAttachmentRegisters onDocs deviceId wall keys s)).
Proof.
  intros Hin. unfold publishAttachmentRegisters.
  pose proof (key_mode_fold (λ a : WorkspaceStore * list string, st_file a.1) (restamp_one deviceId wall)
    keys (s, [])) as H.
  destruct (fold_left _ _ _) as [s' changed]. cbn [fst] in H.
  assert (same_key_mode (st_file s) (st_file s')) as H'.
  { apply H. intros [a ks] k Hk. unfold restamp_one. destruct (map_get _ _); [|done].
    apply key_mode_register. by intros ->. }
  by destruct changed.
Qed.

Lemma key_mode_remote key value hlc s :
  map_wf (wf_lww (st_file s)) → key ≠ KEY_MODE → (∀ d, value = Some d → key = workspaceKeyFor d) →
  same_key_mode (st_file s) (st_file (applyRemoteDoc wall key value hlc s)).
Proof.
  intros Hwf Hk Hpre. unfold applyRemoteDoc. cbv zeta. etrans; [|by apply key_mode_put].
  destruct value as [d|].
  - rewrite (Hpre d eq_refl) in Hk. destruct d as [| | | | | | | | | |[]]; try done.
    exact (key_mode_prune _ (with_history (upsert (same_visit (hv_id visit)) visit (wf_history (st_file s))) (st_file s)) Hwf).
  - cbn. unfold apply_tombstone. by repeat case_match.
Qed.

(** The key mode - whether the server can read the account - and its
    register change only by setting the key mode itself, by a document of that
    very register from the account, or by a restart that reads the file back:
    no other setting, document, pull or pruning moves it. *)
Theorem key_mode_moves_alone disk l s o :
  (∀ f, disk = Some f → coherent f) → rtc store_step (newStore disk l) s → store_pre o s →
  same_key_mode (st_file s) (st_file (store_run o s))
  ∨ (∃ patch, o = OSettings patch ∧ sp_keyMode patch ≠ None)
  ∨ (∃ value hlc, o = OApplyRemote KEY_MODE value hlc)
  ∨ (∃ keys, o = ORestamp keys ∧ KEY_MODE ∈ keys)
  ∨ ∃ l', o = ORestart l'.
Proof.
  intros Hdisk Hr Hpre.
  assert (map_wf (wf_lww (st_file s))) as Hwf by apply (co_keyed _ _ _ (proj1 (reachable_store_ok disk l s Hdisk Hr))).
  clear Hr Hdisk.
  destruct o; cbn [store_run]; try (left; done); try (left; by apply key_mode_doc);
    try (left; by apply key_mode_tombstone); try (left; (etrans; [|by apply key_mode_doc]); done).
  - left. apply key_mode_remove_space.
  - left. unfold updatePin. destruct (List.find _ _); [|done]. etrans; [|by apply key_mode_doc]. done.
  - left. unfold removePin. destruct (negb _); [done|]. etrans; [|by apply key_mode_tombstone]. done.
  - left. apply key_mode_docs. set_solver.
  - left. unfold updateSyncedTabUrl. repeat case_match; try done; by apply key_mode_doc.
  - left. unfold updateSyncedTabOrder. case_match; [done|by apply key_mode_doc].
  - left. apply key_mode_docs. intros d (v & _ & Hv)%list_elem_of_omap. cbv zeta in Hv.
    destruct (has_rank _ _ _); [done|]. by injection Hv as <-.
  - left. apply key_mode_close.
  - left. unfold updateSyncedWorkspaceFocus. repeat case_match; try done; by apply key_mode_doc.
  - left. unfold publishCurrentWorkspaceFocus, updateSyncedWorkspaceFocus.
    repeat case_match; try done; by apply key_mode_doc.
  - left. unfold updateSyncedDeviceActivity. repeat case_match; try done; by apply key_mode_doc.
  - destruct (sp_keyMode patch) eqn:Ek; [right; left; exists patch; by rewrite Ek|]. left. by apply key_mode_settings.
  - left. by apply key_mode_visit.
  - left. apply key_mode_title.
  - left. apply key_mode_clear.
  - left. unfold setTodayTabs. by case_decide.
  - left. unfold markRealtimeTabsMigrated. by case_match.
  - left. unfold addNativeTransportDomain. by case_decide.
  - left. unfold markManualSyncInitialized. by case_match.
  - left. by apply key_mode_replace.
  - destruct (decide (KEY_MODE ∈ keys)) as [Hin|Hin]; [right; right; right; left; eauto|].
    left. by apply key_mode_restamp.
  - destruct (decide (key = KEY_MODE)) as [->|Hk]; [right; right; left; eauto|]. left. by apply key_mode_remote.
  - right. right. right. right. eauto.
Qed.
End Store.

(** ** Witnesses and what the store does not promise *)

Module StoreDemo.
#[global] Instance demo_collator : Collator :=
  { localeCompare a b := match String.compare a b with Eq => 0 | Lt => -1 | Gt => 1 end }.

Definition ignore (_ : list string) (_ : WorkspaceFile) (l : unit) : unit := l.
(** [Date.now] advances by a millisecond a reading. *)
Definition wall (n : nat) : Z := 1000 + Z.of_nat n.

Definition run (o : StoreOp) : WorkspaceStore → WorkspaceStore := store_run ignore "mac" wall o.
Definition runs (ops : list StoreOp) (s : WorkspaceStore) : WorkspaceStore :=
  fold_left (λ s o, run o s) ops s.

Fixpoint ready (ops : list StoreOp) (s : WorkspaceStore) : Prop :=
  match ops with [] => True | o :: ops => store_pre o s ∧ ready ops (run o s) end.

Lemma runs_reach ops s : ready ops s → rtc (store_step ignore "mac" wall) s (runs ops s).
Proof.
  revert s. induction ops as [|o ops IH]; intros s Hr; [done|]. destruct Hr as [H1 H2].
  eapply rtc_l; [exists o; by split|]. by apply IH.
Qed.

Definition start : @WorkspaceStore unit := newStore None ().
Definition work : SpaceMeta := mkSpace "w" "Work" "#fff" None 0 direct_policy 1000.
Definition home : SpaceMeta := mkSpace "h" "Home" "#000" (Some "house") 1 suma_ip 1001.
Definition archive_hours (n : Z) : SettingsPatch := mkSettingsPatch None (Some n) None None.

Definition history : list (@StoreOp unit) :=
  [OUpsertSpace work; OUpsertPin (mkPin "p" "w" "https://a.example" "A" None 0);
   OApplyRemote "space:h" (Some (DSpace home)) (mkHlc 2000 0 "ipad");
   OSettings (archive_hours 24); OWrite; ORestart (); ORemoveSpace "w"].
End StoreDemo.

Lemma store_coherent_witness :
  (∀ f, (None : option WorkspaceFile) = Some f → coherent f)
  ∧ rtc (store_step StoreDemo.ignore "mac" StoreDemo.wall) (newStore None ())
      (StoreDemo.runs StoreDemo.history StoreDemo.start)
  ∧ coherent (st_file (StoreDemo.runs StoreDemo.history StoreDemo.start)).
Proof.
  assert (∀ f, (None : option WorkspaceFile) = Some f → coherent f) as Hd by discriminate.
  assert (rtc (store_step StoreDemo.ignore "mac" StoreDemo.wall) (newStore None ())
    (StoreDemo.runs StoreDemo.history StoreDemo.start)) as Hr.
  { apply (StoreDemo.runs_reach StoreDemo.history). cbn. repeat split. intros d [= <-]. reflexivity. }
  split; [exact Hd|]. split; [exact Hr|].
  exact (proj1 (store_coherent StoreDemo.ignore "mac" StoreDemo.wall None () _ Hd Hr)).
Defined.

Lemma key_mode_moves_alone_witness :
  same_key_mode (st_file (StoreDemo.runs StoreDemo.history StoreDemo.start))
    (st_file (StoreDemo.run (OSettings (StoreDemo.archive_hours 48)) (StoreDemo.runs StoreDemo.history StoreDemo.start))).
Proof.
  assert (rtc (store_step StoreDemo.ignore "mac" StoreDemo.wall) (newStore None ())
    (StoreDemo.runs StoreDemo.history StoreDemo.start)) as Hr.
  { apply (StoreDemo.runs_reach StoreDemo.history). cbn. repeat split. intros d [= <-]. reflexivity. }
  assert (∀ f, (None : option WorkspaceFile) = Some f → coherent f) as Hd by discriminate.
  destruct (key_mode_moves_alone StoreDemo.ignore "mac" StoreDemo.wall None () _
    (OSettings (StoreDemo.archive_hours 48)) Hd Hr I)
    as [H|[(p & Hp & H)|[(v & h & Hp)|[(k & Hp & _)|(l & Hp)]]]];
    [exact H|injection Hp as <-; exfalso; apply H; reflexivity|discriminate Hp..].
Defined.

(** The stamp of an edit against the register it replaces. *)
Definition edit_order (o : @StoreOp unit) (k : string) (s : @WorkspaceStore unit) : option Z :=
  match map_get k (lwwRegisters s), map_get k (lwwRegisters (StoreDemo.run o s)) with
  | Some before, Some after => Some (compareHlc (reg_hlc after) (reg_hlc before))
  | _, _ => None
  end.

Definition remote_hours (physical : Z) : list (@StoreOp unit) :=
  let hlc := mkHlc physical 0 "ipad" in
  [OReceiveHlc hlc; OApplyRemote "settings:autoArchive" (Some (DSettings (SAutoArchive 6))) hlc].

(** An edit made after a document of a device whose clock is half a minute
    ahead gets a later timestamp... *)
Example stamp_follows_remote :
  edit_order (OSettings (StoreDemo.archive_hours 24)) "settings:autoArchive"
    (StoreDemo.runs (remote_hours 31000) StoreDemo.start) = Some 1.
Proof. vm_compute. reflexivity. Qed.

(** ...but not after a restart, which starts the clock from nothing: the edit
    is older than the register it replaces, so every other device drops it... *)
Example restart_forgets_clock :
  edit_order (OSettings (StoreDemo.archive_hours 24)) "settings:autoArchive"
    (StoreDemo.runs (remote_hours 31000 ++ [OWrite; ORestart ()]) StoreDemo.start) = Some (-1).
Proof. vm_compute. reflexivity. Qed.

(** ...and not when the remote clock is more than a minute ahead: the clock
    clamps the timestamp it merges, the register keeps it in full. *)
Example drift_clamp_hides_remote :
  edit_order (OSettings (StoreDemo.archive_hours 24)) "settings:autoArchive"
    (StoreDemo.runs (remote_hours 100000) StoreDemo.start) = Some (-1).
Proof. vm_compute. reflexivity. Qed.
