(* ===== verification/WorkspaceSync.v ===== *)
(** * Workspace sync (apps/desktop/src/main/sync/workspace-sync.ts)

    The service is the listener of the workspace store; its private fields and
    its output trace are the store's [L].  A method that awaits is cut at the
    await: [synchronize] and [handleHydrated] at the session fence and at their
    flush, [flush] between taking the dirty keys and publishing the sealed
    documents.  The caller (service.ts) runs [handleRemoteDocs],
    [handleHydrated] and [synchronize] one at a time; timers, local edits and
    [rekey] come in between.  A sealed value is represented by what it
    contains. *)

From S2P Require Export WorkspaceStore.
From Stdlib Require Import Ascii.

(** ** Keys *)

Definition LEGACY_HANDOFF_KEY_PREFIX : string := "handoff:".
Definition DEVICE_SNAPSHOT_KEY_PREFIX : string := "device-workspace:".
Definition PUBLISH_DEBOUNCE_MS : Z := 40.
Definition PUBLISH_FENCE_RETRY_MS : Z := 1000.
Definition TAB_ORDER_STEP : Z := Z.shiftl 1 64.

Definition deviceSnapshotKey (deviceId : string) : string :=
  DEVICE_SNAPSHOT_KEY_PREFIX +:+ encodeURIComponent deviceId.

Definition snapshotDeviceId (key : string) : option string :=
  if negb (startsWith key DEVICE_SNAPSHOT_KEY_PREFIX) then None
  else match decodeURIComponent (slice_from (String.length DEVICE_SNAPSHOT_KEY_PREFIX) key) with
       | Some deviceId => if String.eqb deviceId "" then None else Some deviceId
       | None => None
       end.

(** ** Registers *)

Definition attachmentRegisters (source : Registers) : Registers :=
  List.filter (λ kr, isAttachmentKey kr.1) source.

Definition live_tab (r : WorkspaceRegister) : option string :=
  match reg_doc r with Some (DTabPresence tab) => Some (tp_id tab) | _ => None end.

(** A [Set] of identifiers, in insertion order. *)
Definition add_id (ids : list string) (id : string) : list string :=
  if decide (id ∈ ids) then ids else ids ++ [id].

Definition liveTabIds (registers : Registers) : list string :=
  fold_left add_id (omap live_tab (map_values registers)) [].

Definition sync_rank (value : string) : Z := parseRank value.

Section Merge.
Context `{C : Collator}.

Definition order_rank (r : option WorkspaceRegister) : Z :=
  match r ≫= reg_doc with Some (DTabOrder tab) => sync_rank (to_rank tab) | _ => sync_rank "0" end.

Definition presence_key (id : string) : string := tab_key id ":presence".
Definition url_key (id : string) : string := tab_key id ":url".
Definition order_key (id : string) : string := tab_key id ":order".

(** [bySpace]: the local-only tabs of each space. *)
Definition group_by_space (local : Registers) (ids : list string) : jsmap string (list string) :=
  fold_left (λ m id, match map_get (presence_key id) local ≫= reg_doc with
    | Some (DTabPresence tab) =>
        map_set (tp_spaceId tab) (default [] (map_get (tp_spaceId tab) m) ++ [id]) m
    | _ => m
    end) ids jsmap_empty.

Definition space_rank (spaceId : string) (r : WorkspaceRegister) : option Z :=
  match reg_doc r with
  | Some (DTabOrder tab) => if String.eqb (to_spaceId tab) spaceId then Some (sync_rank (to_rank tab)) else None
  | _ => None
  end.

Definition next_rank (spaceId : string) (target : Registers) : Z :=
  match omap (space_rank spaceId) (map_values target) with
  | [] => 0
  | r :: ranks => fold_left (λ a b, if a >? b then a else b) ranks r + TAB_ORDER_STEP
  end.

Definition local_tab_order (local : Registers) (a b : string) : Z :=
  let aRank := order_rank (map_get (order_key a) local) in
  let bRank := order_rank (map_get (order_key b) local) in
  if aRank <? bRank then -1 else if aRank >? bRank then 1 else localeCompare a b.

Definition copy_register (key : string) (local target : Registers) : Registers :=
  match map_get key local with Some r => map_set key r target | None => target end.

(** One tab appended after the canonical ones of its space. *)
Definition append_tab (local : Registers) (spaceId : string)
    (acc : Registers * list string * Z) (id : string) : Registers * list string * Z :=
  let '(target, publishKeys, nextRank) := acc in
  let target := copy_register (url_key id) local (copy_register (presence_key id) local target) in
  let '(target, nextRank) :=
    match map_get (order_key id) local with
    | Some (mkReg (Some (DTabOrder tab)) hlc) =>
        (map_set (order_key id)
           (mkReg (Some (DTabOrder (mkTabOrder (to_tabId tab) spaceId (toString10 nextRank)))) hlc) target,
         nextRank + TAB_ORDER_STEP)
    | _ => (target, nextRank)
    end in
  (target, publishKeys ++ [presence_key id; url_key id; order_key id], nextRank).

Definition append_space (local : Registers) (acc : Registers * list string) (entry : string * list string)
    : Registers * list string :=
  let '(target, publishKeys) := acc in
  let '(spaceId, ids) := entry in
  fst (fold_left (append_tab local spaceId) (sort_by (local_tab_order local) ids)
         (target, publishKeys, next_rank spaceId target)).

Definition mergeAttachmentRegisters (local remote : Registers) : Registers * list string :=
  let localOnly := List.filter (λ id, negb (bool_decide (id ∈ liveTabIds remote))) (liveTabIds local) in
  fold_left (append_space local) (group_by_space local localOnly) (attachmentRegisters remote, []).

Definition attachmentFingerprint (registers : Registers) : string :=
  stringify (JArr (map (λ kr, JArr [JStr kr.1; value_json (reg_doc kr.2)])
    (sort_by (λ a b, localeCompare a.1 b.1)
       (List.filter (λ kr, match reg_doc kr.2 with Some _ => true | None => false end) registers)))).

Definition attachmentContentEqual (a b : Registers) : bool :=
  String.eqb (attachmentFingerprint a) (attachmentFingerprint b).
End Merge.

(** ** Snapshots *)

(** What a snapshot record contains, as typed JSON: an entry that is no
    register is [None]. *)
Record RawSnapshot := mkRaw {
  rs_version : Z; rs_deviceId : string; rs_capturedAtMs : option Z;
  rs_registers : option (list (string * option WorkspaceRegister))
}.

Record StoredDeviceWorkspaceSnapshot := mkSnapshot {
  ss_deviceId : string; ss_capturedAtMs : Z; ss_registers : Registers; ss_hlc : Hlc
}.

Inductive Payload := PDoc (value : option WorkspaceDoc) | PSnapshot (snapshot : RawSnapshot).

Definition read_entry (acc : Registers) (entry : string * option WorkspaceRegister) : Registers :=
  match entry with
  | (key, Some register) => if isAttachmentKey key then map_set key register acc else acc
  | _ => acc
  end.

Definition readDeviceSnapshot (expectedDeviceId : string) (value : Payload) (hlc : Hlc)
    : option StoredDeviceWorkspaceSnapshot :=
  match value with
  | PSnapshot raw =>
      match rs_registers raw with
      | Some entries =>
          if negb (rs_version raw =? 1) || negb (String.eqb (rs_deviceId raw) expectedDeviceId) then None
          else Some (mkSnapshot expectedDeviceId (default (physicalMs hlc) (rs_capturedAtMs raw))
                       (fold_left read_entry entries []) hlc)
      | None => None
      end
  | PDoc _ => None
  end.

(** ** The service *)

Inductive WorkspaceSyncMode := push_mode | pull_mode | merge_mode.

Record WorkspaceSyncSource := mkSource {
  so_deviceId : string; so_name : string; so_platform : string; so_updatedAtMs : Z
}.

Record WorkspaceSyncStatus := mkStatus {
  wss_remoteReady : bool; wss_pending : bool; wss_canonicalPending : bool;
  wss_localChanged : bool; wss_remoteChanged : bool; wss_sources : list WorkspaceSyncSource
}.

(** A document handed to [deps.publish], before it is sealed. *)
Record PublishedDoc := mkPublished { pd_key : string; pd_value : Payload; pd_hlc : Hlc }.

Inductive SyncOutput :=
| Publish (docs : list PublishedDoc)
| RemoteApplied
| StatusChanged (status : WorkspaceSyncStatus)
(** [deps.beforeAttachmentPublish] is called. *)
| FenceRequested
(** The promise of [synchronize] settles: its status, or an error. *)
| SyncSettled (result : option WorkspaceSyncStatus)
| LogError.

(** A [flush] that awaits its sealing: what it took and the registers it saw. *)
Record FlushJob := mkJob {
  fj_id : nat; fj_keys : list string; fj_snapshot : bool; fj_registers : Registers
}.

(** The queued operation that awaits: the fence or its flush. *)
Inductive Task :=
| TSyncFence (mode : WorkspaceSyncMode) (canonical : bool) (target : Registers) (publishKeys : list string)
| TSyncFlush (job : nat)
| THydrateFence (keys : list string)
| THydrateFlush (job : nat).

Record WorkspaceSyncService := mkService {
  sy_subscribed : bool;
  sy_dirty : list string;
  sy_deviceSnapshotDirty : bool;
  (** the delay the publish timer was armed with *)
  sy_publishTimer : option Z;
  sy_applyingRemote : bool;
  sy_remoteReady : bool;
  sy_canonicalRecordsSeen : bool;
  sy_remoteAttachment : Registers;
  sy_deviceSnapshots : jsmap string StoredDeviceWorkspaceSnapshot;
  sy_localChanged : bool;
  sy_remoteChanged : bool;
  sy_shouldInheritFirstSnapshot : bool;
  sy_accountId : string;
  sy_jobs : list FlushJob;
  sy_nextJob : nat;
  sy_task : option Task;
  sy_out : list SyncOutput
}.

Section Setters.
Context (l : WorkspaceSyncService).
Definition set_subscribed x := mkService x (sy_dirty l) (sy_deviceSnapshotDirty l) (sy_publishTimer l)
  (sy_applyingRemote l) (sy_remoteReady l) (sy_canonicalRecordsSeen l) (sy_remoteAttachment l)
  (sy_deviceSnapshots l) (sy_localChanged l) (sy_remoteChanged l) (sy_shouldInheritFirstSnapshot l)
  (sy_accountId l) (sy_jobs l) (sy_nextJob l) (sy_task l) (sy_out l).
Definition set_dirty x := mkService (sy_subscribed l) x (sy_deviceSnapshotDirty l) (sy_publishTimer l)
  (sy_applyingRemote l) (sy_remoteReady l) (sy_canonicalRecordsSeen l) (sy_remoteAttachment l)
  (sy_deviceSnapshots l) (sy_localChanged l) (sy_remoteChanged l) (sy_shouldInheritFirstSnapshot l)
  (sy_accountId l) (sy_jobs l) (sy_nextJob l) (sy_task l) (sy_out l).
Definition set_snapshotDirty x := mkService (sy_subscribed l) (sy_dirty l) x (sy_publishTimer l)
  (sy_applyingRemote l) (sy_remoteReady l) (sy_canonicalRecordsSeen l) (sy_remoteAttachment l)
  (sy_deviceSnapshots l) (sy_localChanged l) (sy_remoteChanged l) (sy_shouldInheritFirstSnapshot l)
  (sy_accountId l) (sy_jobs l) (sy_nextJob l) (sy_task l) (sy_out l).
Definition set_timer x := mkService (sy_subscribed l) (sy_dirty l) (sy_deviceSnapshotDirty l) x
  (sy_applyingRemote l) (sy_remoteReady l) (sy_canonicalRecordsSeen l) (sy_remoteAttachment l)
  (sy_deviceSnapshots l) (sy_localChanged l) (sy_remoteChanged l) (sy_shouldInheritFirstSnapshot l)
  (sy_accountId l) (sy_jobs l) (sy_nextJob l) (sy_task l) (sy_out l).
Definition set_applying x := mkService (sy_subscribed l) (sy_dirty l) (sy_deviceSnapshotDirty l) (sy_publishTimer l)
  x (sy_remoteReady l) (sy_canonicalRecordsSeen l) (sy_remoteAttachment l)
  (sy_deviceSnapshots l) (sy_localChanged l) (sy_remoteChanged l) (sy_shouldInheritFirstSnapshot l)
  (sy_accountId l) (sy_jobs l) (sy_nextJob l) (sy_task l) (sy_out l).
Definition set_remote (ready seen : bool) (att : Registers) :=
  mkService (sy_subscribed l) (sy_dirty l) (sy_deviceSnapshotDirty l) (sy_publishTimer l)
  (sy_applyingRemote l) ready seen att
  (sy_deviceSnapshots l) (sy_localChanged l) (sy_remoteChanged l) (sy_shouldInheritFirstSnapshot l)
  (sy_accountId l) (sy_jobs l) (sy_nextJob l) (sy_task l) (sy_out l).
Definition set_snapshots x := mkService (sy_subscribed l) (sy_dirty l) (sy_deviceSnapshotDirty l) (sy_publishTimer l)
  (sy_applyingRemote l) (sy_remoteReady l) (sy_canonicalRecordsSeen l) (sy_remoteAttachment l)
  x (sy_localChanged l) (sy_remoteChanged l) (sy_shouldInheritFirstSnapshot l)
  (sy_accountId l) (sy_jobs l) (sy_nextJob l) (sy_task l) (sy_out l).
Definition set_changed (local remote : bool) := mkService (sy_subscribed l) (sy_dirty l) (sy_deviceSnapshotDirty l) (sy_publishTimer l)
  (sy_applyingRemote l) (sy_remoteReady l) (sy_canonicalRecordsSeen l) (sy_remoteAttachment l)
  (sy_deviceSnapshots l) local remote (sy_shouldInheritFirstSnapshot l)
  (sy_accountId l) (sy_jobs l) (sy_nextJob l) (sy_task l) (sy_out l).
Definition set_account (inherit : bool) (id : string) := mkService (sy_subscribed l) (sy_dirty l) (sy_deviceSnapshotDirty l) (sy_publishTimer l)
  (sy_applyingRemote l) (sy_remoteReady l) (sy_canonicalRecordsSeen l) (sy_remoteAttachment l)
  (sy_deviceSnapshots l) (sy_localChanged l) (sy_remoteChanged l) inherit
  id (sy_jobs l) (sy_nextJob l) (sy_task l) (sy_out l).
Definition set_jobs jobs next := mkService (sy_subscribed l) (sy_dirty l) (sy_deviceSnapshotDirty l) (sy_publishTimer l)
  (sy_applyingRemote l) (sy_remoteReady l) (sy_canonicalRecordsSeen l) (sy_remoteAttachment l)
  (sy_deviceSnapshots l) (sy_localChanged l) (sy_remoteChanged l) (sy_shouldInheritFirstSnapshot l)
  (sy_accountId l) jobs next (sy_task l) (sy_out l).
Definition set_task x := mkService (sy_subscribed l) (sy_dirty l) (sy_deviceSnapshotDirty l) (sy_publishTimer l)
  (sy_applyingRemote l) (sy_remoteReady l) (sy_canonicalRecordsSeen l) (sy_remoteAttachment l)
  (sy_deviceSnapshots l) (sy_localChanged l) (sy_remoteChanged l) (sy_shouldInheritFirstSnapshot l)
  (sy_accountId l) (sy_jobs l) (sy_nextJob l) x (sy_out l).
Definition out (o : SyncOutput) := mkService (sy_subscribed l) (sy_dirty l) (sy_deviceSnapshotDirty l) (sy_publishTimer l)
  (sy_applyingRemote l) (sy_remoteReady l) (sy_canonicalRecordsSeen l) (sy_remoteAttachment l)
  (sy_deviceSnapshots l) (sy_localChanged l) (sy_remoteChanged l) (sy_shouldInheritFirstSnapshot l)
  (sy_accountId l) (sy_jobs l) (sy_nextJob l) (sy_task l) (sy_out l ++ [o]).
End Setters.

Section Sync.
Context (deviceId : string) (wall : nat → Z) `{C : Collator}.
(** Whether [deps.beforeAttachmentPublish] is given. *)
Context (hasFence : bool).

Implicit Types l : WorkspaceSyncService.

Definition add_dirty (keys : list string) l : WorkspaceSyncService :=
  set_dirty l (fold_left add_id keys (sy_dirty l)).

Definition schedulePublish (delayMs : Z) l : WorkspaceSyncService :=
  match sy_publishTimer l with Some _ => l | None => set_timer l (Some delayMs) end.

(** ** Status *)

Definition activities_of (f : WorkspaceFile) : list SyncedDeviceActivity :=
  omap (λ d, match d with DDeviceActivity a => Some a | _ => None end) (live_docs f).

Definition local_attachment (f : WorkspaceFile) : Registers := attachmentRegisters (wf_lww f).

Definition distinct_source (canonical local : string) (activities : list SyncedDeviceActivity)
    (snapshot : StoredDeviceWorkspaceSnapshot) : option WorkspaceSyncSource :=
  let fingerprint := attachmentFingerprint (ss_registers snapshot) in
  if String.eqb (ss_deviceId snapshot) deviceId then None
  else if String.eqb fingerprint canonical || String.eqb fingerprint local then None
  else
    let activity := List.find (λ a, String.eqb (da_deviceId a) (ss_deviceId snapshot)
                                    || String.eqb (da_identityDeviceId a) (ss_deviceId snapshot)) activities in
    Some (mkSource (ss_deviceId snapshot)
            (default ("Mac " +:+ slice_to 8 (ss_deviceId snapshot)) (da_name <$> activity))
            (default "Mac" (da_platform <$> activity)) (physicalMs (ss_hlc snapshot))).

Definition source_order (a b : WorkspaceSyncSource) : Z :=
  let d := so_updatedAtMs b - so_updatedAtMs a in
  if d =? 0 then localeCompare (so_deviceId a) (so_deviceId b) else d.

Definition distinctDeviceSources (f : WorkspaceFile) (local : Registers) l : list WorkspaceSyncSource :=
  sort_by source_order
    (omap (distinct_source (attachmentFingerprint (sy_remoteAttachment l)) (attachmentFingerprint local)
             (activities_of f)) (map_values (sy_deviceSnapshots l))).

Definition syncStatus (f : WorkspaceFile) l : WorkspaceSyncStatus * WorkspaceSyncService :=
  let local := local_attachment f in
  let workspacePending :=
    sy_remoteReady l && negb (attachmentContentEqual local (sy_remoteAttachment l)) in
  let sources := distinctDeviceSources f local l in
  let l := if negb workspacePending then set_changed l false false else l in
  (mkStatus (sy_remoteReady l) (workspacePending || negb (bool_decide (sources = []))) workspacePending
     (workspacePending && sy_localChanged l) (workspacePending && sy_remoteChanged l) sources, l).

Definition pushSyncStatus (f : WorkspaceFile) l : WorkspaceSyncService :=
  let '(status, l) := syncStatus f l in out l (StatusChanged status).

(** ** The listener registered by [start] *)

Definition mark_changed l (key : string) : WorkspaceSyncService :=
  if isAttachmentKey key then set_snapshotDirty (set_changed l true (sy_remoteChanged l)) true
  else add_dirty [key] l.

Definition on_docs_changed (keys : list string) (f : WorkspaceFile) l : WorkspaceSyncService :=
  if negb (sy_subscribed l) then l
  else if sy_applyingRemote l then l
  else
    let l := fold_left mark_changed keys l in
    let l := if negb (bool_decide (sy_dirty l = [])) || sy_deviceSnapshotDirty l
             then schedulePublish PUBLISH_DEBOUNCE_MS l else l in
    pushSyncStatus f l.

Definition SyncStore : Type := @WorkspaceStore WorkspaceSyncService.
Implicit Types s : SyncStore.

Definition svc s : WorkspaceSyncService := st_listener s.
Definition upd (g : WorkspaceSyncService → WorkspaceSyncService) s : SyncStore := on_listener g s.
(** Updates that read the store. *)
Definition upd_file (g : WorkspaceFile → WorkspaceSyncService → WorkspaceSyncService) s : SyncStore :=
  on_listener (g (st_file s)) s.

Definition start s : SyncStore := upd (λ l, set_subscribed l true) s.
Definition stop s : SyncStore := upd (λ l, set_timer (set_subscribed l false) None) s.

(** ** Flush *)

Definition flush_begin s : option nat * SyncStore :=
  let l := svc s in
  let snapshot := sy_remoteReady l && sy_deviceSnapshotDirty l in
  if bool_decide (sy_dirty l = []) && negb snapshot then (None, s)
  else
    (Some (sy_nextJob l),
     upd (λ l, set_jobs (set_snapshotDirty (set_dirty l []) (if snapshot then false else sy_deviceSnapshotDirty l))
                 (sy_jobs l ++ [mkJob (sy_nextJob l) (sy_dirty l) snapshot (lww s)]) (S (sy_nextJob l))) s).

Definition job_docs (j : FlushJob) : list PublishedDoc :=
  omap (λ key, (λ r, mkPublished key (PDoc (reg_doc r)) (reg_hlc r)) <$> map_get key (fj_registers j))
    (fj_keys j).

Definition snapshot_of (capturedAtMs : Z) (registers : Registers) : RawSnapshot :=
  mkRaw 1 deviceId (Some capturedAtMs)
    (Some (map (λ kr, (kr.1, Some kr.2)) (attachmentRegisters registers))).

Definition publish_docs (docs : list PublishedDoc) s : SyncStore :=
  match docs with [] => s | _ => upd (λ l, out l (Publish docs)) s end.

(** Sealing succeeded: the snapshot is stamped and everything published. *)
Definition flush_publish (j : FlushJob) s : SyncStore :=
  if fj_snapshot j then
    let captured := wall (st_ticks s) in
    let '(hlc, s) := nextSyncHlc deviceId wall (with_clock (st_clock s) (S (st_ticks s)) s) in
    publish_docs (job_docs j
      ++ [mkPublished (deviceSnapshotKey deviceId) (PSnapshot (snapshot_of captured (fj_registers j))) hlc]) s
  else publish_docs (job_docs j) s.

(** Sealing failed: nothing is retired. *)
Definition flush_retry (j : FlushJob) s : SyncStore :=
  upd (λ l, let l := add_dirty (fj_keys j) l in
            let l := if fj_snapshot j then set_snapshotDirty l true else l in
            schedulePublish PUBLISH_FENCE_RETRY_MS l) s.

(** ** Hydration *)

Definition newest_first (a b : StoredDeviceWorkspaceSnapshot) : Z := compareHlc (ss_hlc b) (ss_hlc a).

Definition initialRemoteSnapshot l : option Registers :=
  if sy_canonicalRecordsSeen l then Some (attachmentRegisters (sy_remoteAttachment l))
  else
    (λ n, attachmentRegisters (ss_registers n)) <$>
      head (sort_by newest_first
        (List.filter (λ x, negb (String.eqb (ss_deviceId x) deviceId)) (map_values (sy_deviceSnapshots l)))).

Definition global_keys s : list string :=
  List.filter (λ key, negb (isAttachmentKey key)) (map_keys (lww s)).

(** [handleHydrated] after [bootstrapCanonical]. *)
Definition hydrate_finish s : SyncStore :=
  let s := upd (λ l, set_task (set_account l false (sy_accountId l)) None) s in
  let s := markManualSyncInitialized (Some (sy_accountId (svc s))) s in
  let s := upd (λ l, schedulePublish PUBLISH_DEBOUNCE_MS
                       (add_dirty (global_keys s) (set_snapshotDirty l true))) s in
  upd_file pushSyncStatus s.

(** [bootstrapCanonical] after its fence. *)
Definition bootstrap_publish (keys : list string) s : SyncStore :=
  let s := publishAttachmentRegisters on_docs_changed deviceId wall keys s in
  let s := upd (λ l, add_dirty keys (set_remote l (sy_remoteReady l) true (attachmentRegisters (lww s)))) s in
  match flush_begin s with
  | (Some job, s) => upd (λ l, set_task l (Some (THydrateFlush job))) s
  | (None, s) => hydrate_finish s
  end.

Definition handleHydrated s : SyncStore :=
  let s := upd (λ l, set_remote l true (sy_canonicalRecordsSeen l) (sy_remoteAttachment l)) s in
  let inherit := sy_shouldInheritFirstSnapshot (svc s) in
  let s :=
    match initialRemoteSnapshot (svc s) with
    | Some initialSource =>
        if inherit then
          let s := upd (λ l, set_applying l true) s in
          let s := replaceAttachmentRegisters initialSource s in
          upd (λ l, out (set_changed (set_applying l false) false false) RemoteApplied) s
        else s
    | None => s
    end in
  if inherit && negb (sy_canonicalRecordsSeen (svc s)) then
    let keys := map_keys (local_attachment (st_file s)) in
    if bool_decide (keys = []) then hydrate_finish s
    else if hasFence then upd (λ l, out (set_task l (Some (THydrateFence keys))) FenceRequested) s
    else bootstrap_publish keys s
  else hydrate_finish s.

(** ** Explicit reconciliation *)

(** [synchronize] after its flush. *)
Definition sync_finish s : SyncStore :=
  let s := upd (λ l, out (set_changed (schedulePublish PUBLISH_DEBOUNCE_MS
                        (set_snapshotDirty (set_task l None) true)) false false) RemoteApplied) s in
  let s := upd_file pushSyncStatus s in
  let '(status, l) := syncStatus (st_file s) (svc s) in
  upd (λ _, out l (SyncSettled (Some status))) s.

Definition is_pull (m : WorkspaceSyncMode) : bool := match m with pull_mode => true | _ => false end.

(** [synchronize] after its fence. *)
Definition sync_apply (mode : WorkspaceSyncMode) (canonical : bool) (target : Registers)
    (publishKeys : list string) s : SyncStore :=
  let s := replaceAttachmentRegisters target s in
  let s := if canonical && negb (is_pull mode)
           then upd (λ l, set_remote l (sy_remoteReady l) (sy_canonicalRecordsSeen l) (attachmentRegisters target)) s
           else s in
  if canonical && negb (bool_decide (publishKeys = [])) then
    let s := publishAttachmentRegisters on_docs_changed deviceId wall publishKeys s in
    match flush_begin (upd (add_dirty publishKeys) s) with
    | (Some job, s) => upd (λ l, set_task l (Some (TSyncFlush job))) s
    | (None, s) => sync_finish s
    end
  else sync_finish s.

(** The registers a Push makes canonical: the local ones, and a tombstone for
    each remote one that is not local. *)
Definition push_target (local remote : Registers) : Registers :=
  fold_left (λ target kr, match map_get kr.1 target with
    | None => map_set kr.1 (mkReg None (reg_hlc kr.2)) target
    | Some _ => target
    end) remote local.

Definition sync_target (mode : WorkspaceSyncMode) (local remote : Registers) : Registers * list string :=
  match mode with
  | pull_mode => (remote, [])
  | push_mode => (push_target local remote, map_keys (push_target local remote))
  | merge_mode => mergeAttachmentRegisters local remote
  end.

Definition is_push (m : WorkspaceSyncMode) : bool := match m with push_mode => true | _ => false end.
Definition settle_error s : SyncStore := upd (λ l, out (set_task l None) (SyncSettled None)) s.

Definition synchronize (mode : WorkspaceSyncMode) (sourceDeviceId : option string) s : SyncStore :=
  let l := svc s in
  if negb (sy_remoteReady l) then settle_error s
  else if is_push mode && negb (bool_decide (sourceDeviceId = None)) then settle_error s
  else
    let local := local_attachment (st_file s) in
    let source := match sourceDeviceId with
                  | None => Some (sy_remoteAttachment l)
                  | Some id => ss_registers <$> map_get id (sy_deviceSnapshots l)
                  end in
    match source with
    | None => settle_error s
    | Some source =>
        let remote := attachmentRegisters source in
        let canonical := bool_decide (sourceDeviceId = None) in
        let '(target, publishKeys) := sync_target mode local remote in
        if canonical && negb (bool_decide (publishKeys = [])) && hasFence
        then upd (λ l, out (set_task l (Some (TSyncFence mode canonical target publishKeys))) FenceRequested) s
        else sync_apply mode canonical target publishKeys s
    end.

(** ** What arrives while an operation awaits *)

(** [beforeAttachmentPublish] resolves. *)
Definition fence_resolved (ok : bool) s : SyncStore :=
  match sy_task (svc s) with
  | Some (TSyncFence mode canonical target publishKeys) =>
      if ok then sync_apply mode canonical target publishKeys (upd (λ l, set_task l None) s)
      else settle_error s
  | Some (THydrateFence keys) =>
      if ok then bootstrap_publish keys (upd (λ l, set_task l None) s) else hydrate_finish s
  | _ => s
  end.

Definition find_job (id : nat) l : option FlushJob := List.find (λ j, (fj_id j =? id)%nat) (sy_jobs l).
Definition drop_job (id : nat) l : WorkspaceSyncService :=
  set_jobs l (List.filter (λ j, negb (fj_id j =? id)%nat) (sy_jobs l)) (sy_nextJob l).

(** The sealing of a flush ends, and the operation that awaits it goes on. *)
Definition flush_end (id : nat) (ok : bool) s : SyncStore :=
  match find_job id (svc s) with
  | None => s
  | Some j =>
      let s := upd (drop_job id) s in
      let s := if ok then flush_publish j s else flush_retry j s in
      match sy_task (svc s) with
      | Some (TSyncFlush id') =>
          if (id' =? id)%nat then (if ok then sync_finish s else settle_error s)
          else if ok then s else upd (λ l, out l LogError) s
      | Some (THydrateFlush id') =>
          if (id' =? id)%nat
          then (if ok then hydrate_finish s else upd (λ l, out (set_task l None) LogError) s)
          else if ok then s else upd (λ l, out l LogError) s
      | _ => if ok then s else upd (λ l, out l LogError) s
      end
  end.

(** The publish timer fires. *)
Definition publish_timer s : SyncStore := snd (flush_begin (upd (λ l, set_timer l None) s)).

(** ** Remote documents *)

(** A wire of the workspace stream; [None] when its value cannot be opened. *)
Record RemoteDoc := mkRemote { rd_key : string; rd_hlc : Hlc; rd_value : option Payload }.

(** [value as WorkspaceDoc | null]. *)
Definition cast_doc (value : Payload) : option WorkspaceDoc :=
  match value with PDoc doc => doc | PSnapshot _ => None end.

Record SortedDocs := mkSorted {
  so_incoming : list IncomingWorkspaceDoc; so_attachment : list IncomingWorkspaceDoc;
  so_snapshotChanged : bool
}.

(** One iteration of the loop of [handleRemoteDocs]. *)
Definition sort_doc (acc : SortedDocs * SyncStore) (wire : RemoteDoc) : SortedDocs * SyncStore :=
  let '(b, s) := acc in
  let s := receiveWorkspaceHlc deviceId wall (rd_hlc wire) s in
  match rd_value wire with
  | None => (b, s)
  | Some value =>
      if startsWith (rd_key wire) LEGACY_HANDOFF_KEY_PREFIX then (b, s)
      else
        match snapshotDeviceId (rd_key wire) with
        | Some sourceDeviceId =>
            match readDeviceSnapshot sourceDeviceId value (rd_hlc wire) with
            | None => (b, s)
            | Some snapshot =>
                let newer := match map_get sourceDeviceId (sy_deviceSnapshots (svc s)) with
                             | None => true
                             | Some current => compareHlc (ss_hlc snapshot) (ss_hlc current) >? 0
                             end in
                if newer
                then (mkSorted (so_incoming b) (so_attachment b) true,
                      upd (λ l, set_snapshots l (map_set sourceDeviceId snapshot (sy_deviceSnapshots l))) s)
                else (b, s)
            end
        | None =>
            let opened := mkIncoming (rd_key wire) (cast_doc value) (rd_hlc wire) in
            if isAttachmentKey (rd_key wire)
            then (mkSorted (so_incoming b) (so_attachment b ++ [opened]) (so_snapshotChanged b),
                  upd (λ l, set_remote l (sy_remoteReady l) true (sy_remoteAttachment l)) s)
            else if negb (String.eqb (Hlc.deviceId (rd_hlc wire)) deviceId)
            then (mkSorted (so_incoming b ++ [opened]) (so_attachment b) (so_snapshotChanged b), s)
            else (b, s)
        end
  end.

(** The canonical view after a batch. *)
Definition merge_canonical (docs : list IncomingWorkspaceDoc) s : SyncStore :=
  match docs with
  | [] => s
  | _ =>
      let before := sy_remoteAttachment (svc s) in
      let after := adopt_decision (decideMerge before docs) before in
      let s := upd (λ l, set_remote l (sy_remoteReady l) (sy_canonicalRecordsSeen l) after) s in
      if negb (String.eqb (attachmentFingerprint before) (attachmentFingerprint after)) then
        let changed := negb (attachmentContentEqual (local_attachment (st_file s)) after) in
        upd_file pushSyncStatus (upd (λ l, set_changed l (sy_localChanged l) changed) s)
      else s
  end.

Definition apply_incoming s (doc : IncomingWorkspaceDoc) : SyncStore :=
  applyRemoteDoc wall (in_key doc) (in_value doc) (in_hlc doc) s.

(** The store after a batch of account-global documents. *)
Definition merge_global (docs : list IncomingWorkspaceDoc) s : SyncStore :=
  match docs with
  | [] => s
  | _ =>
      let decision := decideMerge (lwwRegisters s) docs in
      let s := upd (λ l, set_applying l true) s in
      let s := fold_left apply_incoming (md_apply decision ++ md_adoptHlc decision) s in
      let s := upd (λ l, set_applying l false) s in
      match md_apply decision with
      | [] => s
      | _ => upd_file pushSyncStatus (upd (λ l, out l RemoteApplied) s)
      end
  end.

Definition handleRemoteDocs (docs : list RemoteDoc) s : SyncStore :=
  let '(b, s) := fold_left sort_doc docs (mkSorted [] [] false, s) in
  let s := if so_snapshotChanged b then upd_file pushSyncStatus s else s in
  merge_global (so_incoming b) (merge_canonical (so_attachment b) s).

(** [rekey]: new keys, for the same account or another. *)
Definition rekey (accountId : string) s : SyncStore :=
  let s :=
    if negb (String.eqb accountId (sy_accountId (svc s))) then
      let inherit := negb (manualSyncInitialized (Some accountId) s) in
      upd (λ l, set_account (set_snapshots (set_remote l false false []) jsmap_empty) inherit accountId) s
    else s in
  upd (λ l, schedulePublish PUBLISH_DEBOUNCE_MS (add_dirty (global_keys s) (set_snapshotDirty l true))) s.

Definition newService (accountId : option string) (f : @WorkspaceStore unit) : WorkspaceSyncService :=
  let account := default "legacy" accountId in
  mkService false [] false None false false false [] [] false false
    (negb (manualSyncInitialized (Some account) f)) account [] 0 None [].
End Sync.
