(* ===== verification/WorkspaceSyncProps.v ===== *)
(** * What the workspace sync service guarantees, as a machine over local
    edits, timers, remote batches and explicit reconciliation. *)

From S2P Require Export WorkspaceSync WorkspaceCoherent.
From Stdlib Require Import Ascii.

(** ** The listener sees nothing but the notifications *)

Section Listener.
Context {L : Type} (onDocs : list string → WorkspaceFile → L → L).
Context (deviceId : string) (wall : nat → Z) `{C : Collator}.
Context (R : L → L → Prop) `{!PreOrder R}.
(** [ok] bounds the keys that are notified. *)
Context (ok : list string → Prop) (HR : ∀ keys f l, ok keys → R l (onDocs keys f l)).
Implicit Types s : @WorkspaceStore L.

Definition rel s s' : Prop := R (st_listener s) (st_listener s').
#[local] Instance rel_preorder : PreOrder rel.
Proof. split; [intros s; unfold rel; reflexivity|]. intros a b c H1 H2. unfold rel in *. by etrans. Qed.

Lemma rel_put k doc s : st_listener (put_register deviceId wall k doc s) = st_listener s.
Proof. unfold put_register, stamp. by destruct (clock_send _ _). Qed.

Lemma rel_notify keys s : ok keys → rel s (notifyDocs onDocs keys s).
Proof. intros Hk. apply (HR keys _ _ Hk). Qed.

Lemma rel_doc d s : ok [workspaceKeyFor d] → rel s (recordDoc onDocs deviceId wall d s).
Proof.
  intros Hk. unfold recordDoc. cbv zeta. etrans; [|by apply rel_notify]. unfold rel. cbn [scheduleWrite st_listener]. rewrite rel_put. reflexivity.
Qed.

Lemma rel_tombstone k s : ok [k] → rel s (recordTombstone onDocs deviceId wall k s).
Proof.
  intros Hk. unfold recordTombstone. etrans; [|by apply rel_notify]. unfold rel. cbn [scheduleWrite st_listener]. rewrite rel_put. reflexivity.
Qed.

Lemma rel_docs docs s : ok (map workspaceKeyFor docs) → rel s (recordDocs onDocs deviceId wall docs s).
Proof.
  intros Hk. unfold recordDocs. destruct docs as [|d docs]; [reflexivity|]. etrans; [|by apply rel_notify].
  unfold rel. cbn [scheduleWrite st_listener]. clear Hk. revert s. induction (d :: docs) as [|x l IH]; intros s; [reflexivity|].
  cbn [fold_left]. etrans; [|apply IH]. rewrite rel_put. reflexivity.
Qed.

Lemma rel_fold {A B} (store : A → @WorkspaceStore L) (step : A → B → A) l a :
  (∀ a b, b ∈ l → rel (store a) (store (step a b))) → rel (store a) (store (fold_left step l a)).
Proof.
  revert a. induction l as [|b l IH]; intros a H; [reflexivity|]. cbn [fold_left].
  etrans; [apply H; left|]. apply IH. intros a' b' Hb. apply H. by right.
Qed.

Lemma rel_close id s : ok [tab_key id ":presence"] → rel s (closeSyncedTab onDocs deviceId wall id s).
Proof.
  intros Hk. unfold closeSyncedTab. destruct (map_get _ _) as [[[d|] h]|]; try reflexivity; by apply rel_tombstone.
Qed.

Lemma rel_restamp keys s :
  (∀ ks, (∀ k, k ∈ ks → k ∈ keys) → ok ks) →
  rel s (publishAttachmentRegisters onDocs deviceId wall keys s).
Proof.
  intros Hk. unfold publishAttachmentRegisters.
  assert (∀ (l : list string) (acc : @WorkspaceStore L * list string), (∀ k, k ∈ l → k ∈ keys) → (∀ k, k ∈ acc.2 → k ∈ keys) →
    (st_listener (fold_left (restamp_one deviceId wall) l acc).1 = st_listener acc.1)
    ∧ ∀ k, k ∈ (fold_left (restamp_one deviceId wall) l acc).2 → k ∈ keys) as H.
  { induction l as [|k l IH]; intros acc Hl Hacc; [done|]. cbn [fold_left].
    destruct (IH (restamp_one deviceId wall acc k)) as [H1 H2]; [set_solver| |].
    - unfold restamp_one. destruct acc as [s' c]. destruct (map_get _ _); [|done]. cbn. set_solver.
    - split; [|done]. rewrite H1. unfold restamp_one. destruct acc as [s' c].
      destruct (map_get _ _); [|done]. cbn [fst]. apply rel_put. }
  destruct (H keys (s, [])) as [H1 H2]; [done|set_solver|].
  destruct (fold_left _ _ _) as [s' changed]. cbn [fst snd] in *.
  destruct changed as [|c cs]; [unfold rel; rewrite H1; reflexivity|].
  etrans; [|apply rel_notify; by apply Hk]. unfold rel. cbn [scheduleWrite st_listener]. rewrite H1. reflexivity.
Qed.

(** The operations the application performs on its own store. *)
Definition local_edit (o : @StoreOp L) : Prop :=
  match o with
  | OReplace _ | ORestamp _ | OApplyRemote _ _ _ | ORestart _ | OReceiveHlc _ | OResetHlc | ONextHlc
  | OMarkManual _ => False
  | _ => True
  end.

Ltac rel_refl := unfold rel; reflexivity.

Lemma rel_edit o s : (∀ ks, ok ks) → local_edit o → rel s (store_run onDocs deviceId wall o s).
Proof.
  intros Hok Ho. destruct o; try done; cbn [store_run]; try rel_refl; try (by apply rel_doc);
    try (by apply rel_tombstone); try (by apply rel_docs); try (by apply rel_close);
    try ((etrans; [|by apply rel_doc]); rel_refl).
  - unfold removeSpace. destruct (negb _); [rel_refl|]. cbv zeta.
    etrans; [|by apply rel_tombstone].
    etrans; [|apply (rel_fold (λ a, a)); intros; by apply rel_close].
    etrans; [|apply (rel_fold (λ a, a)); intros; unfold remove_pin_of;
      etrans; [|by apply rel_tombstone]; rel_refl]. rel_refl.
  - unfold updatePin. destruct (List.find _ _); [|rel_refl]. etrans; [|by apply rel_doc]. rel_refl.
  - unfold removePin. destruct (negb _); [rel_refl|]. etrans; [|by apply rel_tombstone]. rel_refl.
  - unfold updateSyncedTabUrl. repeat case_match; try rel_refl; by apply rel_doc.
  - unfold updateSyncedTabOrder. case_match; [rel_refl|by apply rel_doc].
  - unfold updateSyncedWorkspaceFocus. repeat case_match; try rel_refl; by apply rel_doc.
  - unfold publishCurrentWorkspaceFocus, updateSyncedWorkspaceFocus. repeat case_match; try rel_refl; by apply rel_doc.
  - unfold updateSyncedDeviceActivity. repeat case_match; try rel_refl; by apply rel_doc.
  - unfold updateSettings. cbv zeta.
    assert (∀ A (o : option A) doc s, rel s (record_if onDocs deviceId wall o doc s)) as H.
    { intros A [a|] doc s'; [by apply rel_doc|rel_refl]. }
    etrans; [|apply H]. etrans; [|apply H]. etrans; [|apply H]. etrans; [|apply H]. rel_refl.
  - unfold addHistoryVisit. cbv zeta. destruct (historySyncEnabled _); [|rel_refl].
    etrans; [|by apply rel_doc]. rel_refl.
  - unfold updateHistoryVisitTitle. destruct (List.find _ _) as [v0|]; [|rel_refl].
    destruct (String.eqb _ _); [rel_refl|]. cbv zeta.
    assert (∀ v, rel s (write_title id v s)) as H.
    { intros v. unfold write_title. cbv zeta. repeat case_match; rel_refl. }
    destruct (_ && _); [|apply H]. etrans; [apply (H (retitle title v0))|]. etrans; [|by apply rel_doc]. rel_refl.
  - unfold clearHistory. cbv zeta.
    pose proof (rel_fold (λ a : @WorkspaceStore L * list string, a.1) (clear_one deviceId wall)
      (map hv_id (wf_history (st_file s))) (with_shared [] (on_file (with_history []) s), [])) as H.
    destruct (fold_left _ _ _) as [s' keys]. cbn [fst] in H.
    assert (rel s s') as H'.
    { etrans; [|apply H]; [rel_refl|]. intros [a ks] id' _. unfold clear_one. destruct (map_has _ _); [|rel_refl].
      unfold rel. cbn [fst]. rewrite rel_put. rel_refl. }
    destruct keys; [exact H'|]. etrans; [exact H'|]. etrans; [|by apply rel_notify]. rel_refl.
  - unfold setTodayTabs. case_decide; rel_refl.
  - unfold markRealtimeTabsMigrated. case_match; rel_refl.
  - unfold addNativeTransportDomain. case_decide; rel_refl.
Qed.
End Listener.

(** ** The machine *)

Inductive SyncEvent :=
| EEdit (o : @StoreOp WorkspaceSyncService)
| ETimer
| EFlushed (job : nat) (ok : bool)
| EFence (ok : bool)
| ERemote (docs : list RemoteDoc)
| EHydrated
| ESynchronize (mode : WorkspaceSyncMode) (source : option string)
| ERekey (accountId : string)
| EStop.

Section Machine.
Context (deviceId : string) (wall : nat → Z) `{C : Collator} (hasFence : bool).
Implicit Types (s : SyncStore) (l : WorkspaceSyncService).

Definition sync_run (e : SyncEvent) s : SyncStore :=
  match e with
  | EEdit o => store_run (on_docs_changed deviceId) deviceId wall o s
  | ETimer => publish_timer s
  | EFlushed id ok => flush_end deviceId wall id ok s
  | EFence ok => fence_resolved deviceId wall ok s
  | ERemote docs => handleRemoteDocs deviceId wall docs s
  | EHydrated => handleHydrated deviceId wall hasFence s
  | ESynchronize mode source => synchronize deviceId wall hasFence mode source s
  | ERekey accountId => rekey accountId s
  | EStop => stop s
  end.

(** When an event is possible: the queue of service.ts runs one operation at a
    time, a timer fires when armed, a promise settles when it is awaited. *)
Definition sync_pre (e : SyncEvent) s : Prop :=
  match e with
  | EEdit o => local_edit o
  | ETimer => sy_publishTimer (svc s) ≠ None
  | EFlushed id _ => find_job id (svc s) ≠ None
  | EFence _ =>
      match sy_task (svc s) with Some (TSyncFence _ _ _ _) | Some (THydrateFence _) => True | _ => False end
  | ERemote _ | EHydrated | ESynchronize _ _ => sy_task (svc s) = None
  | ERekey _ | EStop => True
  end.

Definition sync_step s s' : Prop := ∃ e, sync_pre e s ∧ s' = sync_run e s.

(** ** Autosave never writes the canonical lane *)

(** A key that is to be published, or is being sealed. *)
Definition pending (k : string) l : Prop := k ∈ sy_dirty l ∨ ∃ j, j ∈ sy_jobs l ∧ k ∈ fj_keys j.

Definition quiet_output (o : SyncOutput) : Prop :=
  match o with
  | Publish docs => ∀ d, d ∈ docs → isAttachmentKey (pd_key d) = false
  | _ => True
  end.

(** No canonical key becomes pending and none is published. *)
Definition calm l l' : Prop :=
  (∀ k, isAttachmentKey k = true → pending k l' → pending k l)
  ∧ ∃ new, sy_out l' = sy_out l ++ new ∧ Forall quiet_output new.

#[local] Instance calm_preorder : PreOrder calm.
Proof.
  split.
  - intros l. split; [done|]. exists []. by rewrite app_nil_r.
  - intros a b c [H1 (n1 & E1 & Q1)] [H2 (n2 & E2 & Q2)]. split; [auto|].
    exists (n1 ++ n2). rewrite E2, E1, (assoc_L (++)). split; [done|]. by apply Forall_app.
Qed.

Lemma calm_same l l' new :
  sy_dirty l' = sy_dirty l → sy_jobs l' = sy_jobs l → sy_out l' = sy_out l ++ new → Forall quiet_output new →
  calm l l'.
Proof. intros E1 E2 E3 Hq. split; [|eauto]. unfold pending. by rewrite E1, E2. Qed.

Lemma add_id_elem ids id x : x ∈ add_id ids id ↔ x = id ∨ x ∈ ids.
Proof. unfold add_id. case_decide; [|rewrite elem_of_snoc; tauto]. split; [tauto|]. by intros [->|]. Qed.

Lemma add_ids_elem keys ids x : x ∈ fold_left add_id keys ids ↔ x ∈ keys ∨ x ∈ ids.
Proof.
  revert ids. induction keys as [|k keys IH]; intros ids; cbn [fold_left]; [set_solver|].
  rewrite IH, add_id_elem. set_solver.
Qed.

Lemma calm_add_dirty keys l :
  (∀ k, k ∈ keys → isAttachmentKey k = false) → calm l (add_dirty keys l).
Proof.
  intros Hk. split; [|exists []; by rewrite app_nil_r]. intros k Ha [Hd|Hj]; [|by right]. left.
  apply add_ids_elem in Hd as [Hd|Hd]; [|done]. apply Hk in Hd. congruence.
Qed.

Lemma calm_out o l : quiet_output o → calm l (out l o).
Proof. intros Ho. eapply calm_same; [done|done|done|by constructor]. Qed.

Ltac calm_set := eapply (calm_same _ _ []); [reflexivity|reflexivity|symmetry; apply app_nil_r|constructor].

Lemma calm_schedule d l : calm l (schedulePublish d l).
Proof. unfold schedulePublish. destruct (sy_publishTimer l); calm_set. Qed.

Lemma calm_status f l : calm l (syncStatus deviceId f l).2.
Proof. unfold syncStatus. cbn. destruct (negb _); calm_set. Qed.

Lemma calm_push f l : calm l (pushSyncStatus deviceId f l).
Proof.
  unfold pushSyncStatus. pose proof (calm_status f l) as H. destruct (syncStatus _ _ _) as [st l'].
  etrans; [exact H|]. by apply calm_out.
Qed.

Lemma calm_listener keys f l : calm l (on_docs_changed deviceId keys f l).
Proof.
  unfold on_docs_changed. destruct (negb _); [done|]. destruct (sy_applyingRemote l); [done|]. cbv zeta.
  assert (calm l (fold_left mark_changed keys l)) as H.
  { revert l. induction keys as [|k keys IH]; intros l; [done|]. cbn [fold_left]. etrans; [|apply IH].
    unfold mark_changed. destruct (isAttachmentKey k) eqn:E; [calm_set|].
    apply calm_add_dirty. by intros x ->%list_elem_of_singleton. }
  etrans; [exact H|]. etrans; [|apply calm_push]. destruct (_ || _); [apply calm_schedule|done].
Qed.

Definition calm_store s s' : Prop := calm (svc s) (svc s').
#[local] Instance calm_store_preorder : PreOrder calm_store.
Proof. split; [intros s; unfold calm_store; reflexivity|]. intros a b c. unfold calm_store. apply transitivity. Qed.

Lemma calm_edit o s :
  local_edit o → calm_store s (store_run (on_docs_changed deviceId) deviceId wall o s).
Proof.
  intros Ho. apply (rel_edit _ deviceId wall calm (λ _, True)); [|done|done]. intros. apply calm_listener.
Qed.

Lemma calm_upd g s : calm (svc s) (g (svc s)) → calm_store s (upd g s).
Proof. done. Qed.

Lemma calm_upd_file g s : calm (svc s) (g (st_file s) (svc s)) → calm_store s (upd_file g s).
Proof. done. Qed.

Lemma calm_flush_begin s : calm_store s (flush_begin s).2.
Proof.
  unfold flush_begin. cbv zeta. destruct (_ && _); [done|]. cbn [snd]. apply calm_upd.
  split; [|exists []; by rewrite app_nil_r]. intros k Ha [Hd|(j & Hj & Hk)]; [by apply elem_of_nil in Hd|].
  cbn in Hj. apply elem_of_app in Hj as [Hj| ->%list_elem_of_singleton]; [right; eauto|by left].
Qed.

(** An explicit decision to write the canonical workspace: Push or Merge with
    it, a fence that lets one through, or the first hydration of an
    installation, which may establish it. *)
Definition canonical_request (e : SyncEvent) s : Prop :=
  match e with
  | ESynchronize mode None => mode ≠ pull_mode
  | EFence true => True
  | EHydrated => sy_shouldInheritFirstSnapshot (svc s) = true
  | _ => False
  end.

Definition no_canonical s : Prop := ∀ k, isAttachmentKey k = true → ¬ pending k (svc s).

Lemma calm_no_canonical s s' : calm_store s s' → no_canonical s → no_canonical s'.
Proof. intros [H _] Hs k Hk Hp. by apply (Hs k Hk), H. Qed.

Lemma global_keys_not_attachment s k : k ∈ global_keys s → isAttachmentKey k = false.
Proof. unfold global_keys. rewrite In_filter_iff, negb_true_iff. tauto. Qed.

Lemma listener_markManual a s : svc (markManualSyncInitialized a s) = svc s.
Proof. unfold markManualSyncInitialized. by case_match. Qed.

Lemma calm_hydrate_finish s : calm_store s (hydrate_finish deviceId s).
Proof.
  unfold hydrate_finish. cbv zeta. etrans; [|apply calm_upd_file, calm_push].
  set (s1 := upd _ s). assert (calm_store s s1) as H1 by (apply calm_upd; calm_set).
  set (s2 := markManualSyncInitialized _ s1). assert (calm_store s1 s2) as H2.
  { unfold calm_store. unfold s2. rewrite listener_markManual. reflexivity. }
  etrans; [exact H1|]. etrans; [exact H2|]. apply calm_upd.
  etrans; [|apply calm_schedule]. etrans; [|apply calm_add_dirty; apply global_keys_not_attachment]. calm_set.
Qed.

Lemma calm_settle_error s : calm_store s (settle_error s).
Proof. apply calm_upd. etrans; [|by apply calm_out]. calm_set. Qed.

Lemma calm_sync_finish s : calm_store s (sync_finish deviceId s).
Proof.
  unfold sync_finish. cbv zeta.
  set (s1 := upd _ s). assert (calm_store s s1) as H1.
  { apply calm_upd. etrans; [|by apply calm_out].
    etrans; [|calm_set]. etrans; [|apply calm_schedule]. calm_set. }
  set (s2 := upd_file _ s1). assert (calm_store s1 s2) as H2 by apply calm_upd_file, calm_push.
  pose proof (calm_status (st_file s2) (svc s2)) as H3.
  destruct (syncStatus _ _ _) as [st l]. etrans; [exact H1|]. etrans; [exact H2|]. apply calm_upd.
  etrans; [exact H3|]. by apply calm_out.
Qed.

Lemma job_docs_keys j d : d ∈ job_docs j → pd_key d ∈ fj_keys j.
Proof.
  unfold job_docs. intros (k & Hk & Hd)%list_elem_of_omap.
  destruct (map_get k (fj_registers j)) as [r|]; [|done]. by injection Hd as <-.
Qed.

Lemma svc_nextSyncHlc s : svc (nextSyncHlc deviceId wall s).2 = svc s.
Proof. unfold nextSyncHlc, stamp. by destruct (clock_send _ _). Qed.

Lemma calm_flush_publish j s :
  (∀ k, k ∈ fj_keys j → isAttachmentKey k = false) → calm_store s (flush_publish deviceId wall j s).
Proof.
  intros Hj. assert (∀ docs s, (∀ d, d ∈ docs → isAttachmentKey (pd_key d) = false) →
    calm_store s (publish_docs docs s)) as H.
  { intros docs s' Hd. unfold publish_docs. destruct docs as [|d docs]; [done|]. apply calm_upd.
    by apply calm_out. }
  assert (∀ d, d ∈ job_docs j → isAttachmentKey (pd_key d) = false) as Hd
    by (intros d Hd; by apply Hj, job_docs_keys).
  unfold flush_publish. destruct (fj_snapshot j); [|by apply H]. cbv zeta.
  pose proof (svc_nextSyncHlc (with_clock (st_clock s) (S (st_ticks s)) s)) as Hn.
  destruct (nextSyncHlc _ _ _) as [h s']. cbn [snd] in Hn.
  assert (calm_store s s') as H1 by (unfold calm_store; rewrite Hn; reflexivity).
  etrans; [exact H1|]. apply H. intros d [Hin| ->%list_elem_of_singleton]%elem_of_app; [by apply Hd|done].
Qed.

Lemma calm_flush_retry j s :
  (∀ k, k ∈ fj_keys j → isAttachmentKey k = false) → calm_store s (flush_retry j s).
Proof.
  intros Hj. apply calm_upd. etrans; [|apply calm_schedule]. etrans; [by apply (calm_add_dirty (fj_keys j))|].
  destruct (fj_snapshot j); [calm_set|done].
Qed.

Lemma calm_drop_job id l : calm l (drop_job id l).
Proof.
  split; [|exists []; by rewrite app_nil_r]. intros k _ [Hd|(j & Hj & Hk)]; [by left|]. right.
  cbn in Hj. apply In_filter_iff in Hj as [Hj _]. eauto.
Qed.

Lemma calm_flush_end id ok s : no_canonical s → calm_store s (flush_end deviceId wall id ok s).
Proof.
  intros Hs. unfold flush_end. destruct (find_job id (svc s)) as [j|] eqn:Ej; [|done].
  apply find_some in Ej as [Hj%list_elem_of_In _].
  assert (∀ k, k ∈ fj_keys j → isAttachmentKey k = false) as Hk.
  { intros k Hk. apply not_true_iff_false. intros Ha. apply (Hs k Ha). right. eauto. }
  cbv zeta. set (s1 := if ok then _ else _).
  assert (calm_store s s1) as H1.
  { etrans; [apply calm_upd, calm_drop_job|]. unfold s1. destruct ok; [by apply calm_flush_publish|by apply calm_flush_retry]. }
  assert (calm_store s1 (if ok then s1 else upd (λ l, out l LogError) s1)) as H2
    by (destruct ok; [done|by apply calm_upd, calm_out]).
  etrans; [exact H1|]. destruct (sy_task (svc s1)) as [[]|]; try exact H2;
    (destruct (_ =? id)%nat; [destruct ok|exact H2]).
  - apply calm_sync_finish.
  - apply calm_settle_error.
  - apply calm_hydrate_finish.
  - apply calm_upd. etrans; [|by apply calm_out]. calm_set.
Qed.

Lemma svc_replace regs s : svc (replaceAttachmentRegisters regs s) = svc s.
Proof. done. Qed.

Lemma svc_apply k v h s : svc (applyRemoteDoc wall k v h s) = svc s.
Proof. unfold applyRemoteDoc. by destruct v as [[]|]. Qed.

Lemma calm_sort_docs docs acc :
  calm_store acc.2 (fold_left (sort_doc deviceId wall) docs acc).2.
Proof.
  apply (rel_fold calm (λ a : SortedDocs * SyncStore, a.2)). intros [b s] w _. unfold rel. cbn [snd].
  unfold sort_doc. cbv zeta.
  assert (calm (svc s) (svc (receiveWorkspaceHlc deviceId wall (rd_hlc w) s))) as H by reflexivity.
  repeat case_match; try exact H; (etrans; [exact H|]); apply calm_upd; calm_set.
Qed.

Lemma calm_merge_canonical docs s : calm_store s (merge_canonical deviceId docs s).
Proof.
  unfold merge_canonical. destruct docs as [|d docs]; [done|]. cbv zeta.
  set (s1 := upd _ s). assert (calm_store s s1) as H1 by (apply calm_upd; calm_set).
  destruct (negb _); [|exact H1]. etrans; [exact H1|]. etrans; [|apply calm_upd_file, calm_push].
  apply calm_upd. calm_set.
Qed.

Lemma svc_apply_all docs s : svc (fold_left (apply_incoming wall) docs s) = svc s.
Proof. revert s. induction docs as [|d docs IH]; intros s; [done|]. cbn [fold_left]. rewrite IH. apply svc_apply. Qed.

Lemma calm_merge_global docs s : calm_store s (merge_global deviceId wall docs s).
Proof.
  unfold merge_global. destruct docs as [|d docs]; [done|]. cbv zeta.
  set (s1 := upd _ s). assert (calm_store s s1) as H1 by (apply calm_upd; calm_set).
  set (s2 := fold_left _ _ s1). assert (calm_store s1 s2) as H2 by (unfold calm_store, s2; by rewrite svc_apply_all).
  set (s3 := upd _ s2). assert (calm_store s2 s3) as H3 by (apply calm_upd; calm_set).
  etrans; [exact H1|]. etrans; [exact H2|]. etrans; [exact H3|]. destruct (md_apply _); [done|].
  etrans; [|apply calm_upd_file, calm_push]. by apply calm_upd, calm_out.
Qed.

Lemma calm_remote docs s : calm_store s (handleRemoteDocs deviceId wall docs s).
Proof.
  unfold handleRemoteDocs. pose proof (calm_sort_docs docs (mkSorted [] [] false, s)) as H.
  destruct (fold_left _ _ _) as [b s1]. cbn [snd] in H. cbv zeta. etrans; [exact H|].
  etrans; [|apply calm_merge_global]. etrans; [|apply calm_merge_canonical].
  destruct (so_snapshotChanged b); [apply calm_upd_file, calm_push|done].
Qed.

Lemma calm_replace regs s : calm_store s (replaceAttachmentRegisters regs s).
Proof. change (calm (svc s) (svc s)). reflexivity. Qed.

(** A pull, or any reconciliation with one device's snapshot. *)
Lemma calm_sync_local mode target keys s :
  calm_store s (sync_apply deviceId wall mode false target keys s).
Proof. unfold sync_apply. cbn [andb]. etrans; [|apply calm_sync_finish]. apply calm_replace. Qed.

Lemma calm_sync_pull canonical target s :
  calm_store s (sync_apply deviceId wall pull_mode canonical target [] s).
Proof.
  unfold sync_apply. cbn [is_pull negb]. rewrite !andb_false_r.
  etrans; [|apply calm_sync_finish]. apply calm_replace.
Qed.

Lemma calm_event e s :
  sync_pre e s → ¬ canonical_request e s → no_canonical s → calm_store s (sync_run e s).
Proof.
  intros Hpre Hreq Hs. destruct e as [o| |id ok|ok|docs| |mode src|a|]; cbn [sync_run sync_pre canonical_request] in *.
  - by apply calm_edit.
  - unfold publish_timer. etrans; [|apply calm_flush_begin]. apply calm_upd. calm_set.
  - by apply calm_flush_end.
  - destruct ok; [tauto|]. unfold fence_resolved.
    destruct (sy_task (svc s)) as [[]|]; try done; [apply calm_settle_error|apply calm_hydrate_finish].
  - apply calm_remote.
  - unfold handleHydrated. cbv zeta. apply not_true_iff_false in Hreq.
    change (sy_shouldInheritFirstSnapshot (svc (upd _ s))) with (sy_shouldInheritFirstSnapshot (svc s)).
    rewrite Hreq. cbn [andb]. etrans; [|apply calm_hydrate_finish].
    etrans; [apply (calm_upd (λ l, set_remote l true (sy_canonicalRecordsSeen l) (sy_remoteAttachment l))); calm_set|].
    destruct (initialRemoteSnapshot _ _); done.
  - unfold synchronize. cbv zeta. destruct (negb _); [apply calm_settle_error|].
    destruct (is_push mode && _) eqn:Ep; [apply calm_settle_error|].
    destruct src as [id|]; cbn [bool_decide].
    + destruct (ss_registers <$> _) as [source|]; [|apply calm_settle_error].
      rewrite bool_decide_eq_false_2 by done. destruct (sync_target _ _ _) as [target keys]. cbn [andb].
      apply calm_sync_local.
    + destruct mode; [exfalso; by apply Hreq| |exfalso; by apply Hreq]. cbn [sync_target].
      rewrite (bool_decide_eq_true_2 ([] = [])) by done. cbn [negb]. rewrite andb_false_r. cbn [andb].
      apply calm_sync_pull.
  - unfold rekey. cbv zeta.
    set (s1 := if negb _ then _ else s). assert (calm_store s s1) as H1.
    { unfold s1. destruct (negb _); [|done]. apply calm_upd. calm_set. }
    etrans; [exact H1|]. apply calm_upd. etrans; [|apply calm_schedule].
    etrans; [|apply calm_add_dirty; apply global_keys_not_attachment]. calm_set.
  - apply calm_upd. calm_set.
Qed.

Definition autosave_step s s' : Prop := ∃ e, sync_pre e s ∧ ¬ canonical_request e s ∧ s' = sync_run e s.

(** Whatever the tabs do, autosave never writes the canonical workspace:
    in a run of local edits, timers, flushes that succeed or fail, remote
    batches, hydrations, key changes, pulls, and merges with a device's
    snapshot - everything but a Push or Merge with the canonical workspace and
    an installation's first hydration - no tab or focus register is published
    and none becomes pending for publication. *)
Theorem autosave_leaves_canonical s s' :
  no_canonical s → rtc autosave_step s s' →
  no_canonical s'
  ∧ ∃ new, sy_out (svc s') = sy_out (svc s) ++ new
      ∧ ∀ docs d, Publish docs ∈ new → d ∈ docs → isAttachmentKey (pd_key d) = false.
Proof.
  intros Hs Hr. assert (calm_store s s') as Hc.
  { induction Hr as [|s1 s2 s3 (e & Hpre & Hreq & ->) _ IH]; [done|].
    assert (calm_store s1 (sync_run e s1)) as H1 by by apply calm_event.
    etrans; [exact H1|]. apply IH. by eapply calm_no_canonical. }
  split; [by eapply calm_no_canonical|]. destruct Hc as [_ (new & Hnew & Hq)]. exists new. split; [done|].
  intros docs d Hin Hd. rewrite Forall_forall in Hq. by apply (Hq _ Hin).
Qed.

(** ** Remote documents are joined, never echoed *)

Definition as_incoming (wire : RemoteDoc) : option IncomingWorkspaceDoc :=
  match rd_value wire with
  | None => None
  | Some value =>
      if startsWith (rd_key wire) LEGACY_HANDOFF_KEY_PREFIX then None
      else match snapshotDeviceId (rd_key wire) with
           | Some _ => None
           | None => Some (mkIncoming (rd_key wire) (cast_doc value) (rd_hlc wire))
           end
  end.

(** The documents of a batch that reach the canonical view, and those that
    reach the store: readable, global, and of another device. *)
Definition canonical_docs (docs : list RemoteDoc) : list IncomingWorkspaceDoc :=
  List.filter (λ d, isAttachmentKey (in_key d)) (omap as_incoming docs).
Definition foreign_docs (docs : list RemoteDoc) : list IncomingWorkspaceDoc :=
  List.filter (λ d, negb (isAttachmentKey (in_key d)) && negb (String.eqb (Hlc.deviceId (in_hlc d)) deviceId))
    (omap as_incoming docs).

Lemma map_get_filter_keep {V} (g : string * V → bool) k (m : jsmap string V) :
  (∀ v, g (k, v) = true) → map_get k (List.filter g m) = map_get k m.
Proof.
  intros Hg. induction m as [|[k' v] m IH]; [done|]. cbn [List.filter map_get].
  destruct (decide (k = k')) as [<-|Hne].
  - rewrite Hg. cbn. by rewrite decide_True.
  - destruct (g (k', v)); cbn; [by rewrite decide_False|done].
Qed.

Definition put_after (k : string) (docs : list IncomingWorkspaceDoc) (cur : option WorkspaceRegister)
    : option WorkspaceRegister :=
  fold_left (λ cur d, if decide (in_key d = k) then Some (incoming_register d) else cur) docs cur.

Lemma adopt_put_after k docs m : map_get k (fold_left adopt docs m) = put_after k docs (map_get k m).
Proof.
  revert m. induction docs as [|d docs IH]; intros m; [done|]. cbn [fold_left]. rewrite IH.
  unfold put_after at 2. cbn [fold_left]. unfold adopt. by rewrite map_get_set.
Qed.

Lemma lww_apply_doc now d f k :
  startsWith k "history:" = false → map_get k (wf_lww (apply_doc now d f)) = map_get k (wf_lww f).
Proof.
  intros Hk. destruct d; try done. unfold apply_doc, prune. cbn [wf_lww with_lww with_history wf_history].
  apply map_get_filter_keep. intros v. unfold sweep_keeps. cbn [fst snd]. by rewrite Hk.
Qed.

Lemma lww_tombstone k f : wf_lww (apply_tombstone k f) = wf_lww f.
Proof. unfold apply_tombstone. by repeat case_match. Qed.

Lemma lww_apply_incoming d s k :
  startsWith k "history:" = false →
  map_get k (lww (apply_incoming wall s d))
  = if decide (in_key d = k) then Some (incoming_register d) else map_get k (lww s).
Proof.
  intros Hk. unfold apply_incoming, applyRemoteDoc, lww. cbv zeta. cbn [st_file scheduleWrite on_file set_register wf_lww with_lww].
  rewrite map_get_set. case_decide as Hd; [done|].
  destruct (in_value d) as [[x|? ?|x|x|x|x|x|x|x|x|x]|]; cbn [st_file on_file with_clock unshare with_shared];
    rewrite ?lww_tombstone; by rewrite ?lww_apply_doc.
Qed.

Lemma lww_apply_all docs s k :
  startsWith k "history:" = false →
  map_get k (lww (fold_left (apply_incoming wall) docs s)) = put_after k docs (map_get k (lww s)).
Proof.
  intros Hk. revert s. induction docs as [|d docs IH]; intros s; [done|]. cbn [fold_left]. rewrite IH.
  by rewrite lww_apply_incoming.
Qed.

Lemma lww_merge_global docs s k :
  startsWith k "history:" = false → NoDup (map in_key docs) →
  map_get k (lww (merge_global deviceId wall docs s)) = reg_after k docs (map_get k (lww s)).
Proof.
  intros Hk Hnd. unfold merge_global. destruct docs as [|d docs]; [done|]. cbv zeta.
  set (decision := decideMerge _ _). set (s2 := fold_left _ _ _).
  assert (map_get k (lww s2) = reg_after k (d :: docs) (map_get k (lww s))) as H.
  { unfold s2. rewrite lww_apply_all by done. rewrite <- adopt_put_after.
    by apply (adopt_decision_get (lww s)). }
  destruct (md_apply decision); exact H.
Qed.

(** What the loop leaves alone. *)
Definition same_work s s' : Prop :=
  st_file s' = st_file s ∧ sy_remoteAttachment (svc s') = sy_remoteAttachment (svc s)
  ∧ sy_dirty (svc s') = sy_dirty (svc s) ∧ sy_jobs (svc s') = sy_jobs (svc s) ∧ sy_out (svc s') = sy_out (svc s).

Lemma sort_doc_spec b s w :
  let r := sort_doc deviceId wall (b, s) w in
  so_incoming r.1 = so_incoming b ++ foreign_docs [w]
  ∧ so_attachment r.1 = so_attachment b ++ canonical_docs [w] ∧ same_work s r.2.
Proof.
  unfold sort_doc, foreign_docs, canonical_docs, same_work. cbv zeta. cbn [omap list_omap]. unfold as_incoming.
  destruct (rd_value w) as [v|]; [|by rewrite !app_nil_r].
  destruct (startsWith _ _); [by rewrite !app_nil_r|].
  destruct (snapshotDeviceId _) as [src|].
  - destruct (readDeviceSnapshot _ _ _) as [sn|]; [|by rewrite !app_nil_r].
    destruct (match map_get src _ with Some _ => _ | None => true end); cbn; by rewrite !app_nil_r.
  - cbn [List.filter in_key in_hlc]. destruct (isAttachmentKey _); cbn [negb andb].
    + cbn. by rewrite app_nil_r.
    + destruct (negb _); cbn; by rewrite ?app_nil_r.
Qed.

Lemma docs_cons w docs :
  foreign_docs (w :: docs) = foreign_docs [w] ++ foreign_docs docs
  ∧ canonical_docs (w :: docs) = canonical_docs [w] ++ canonical_docs docs.
Proof.
  unfold foreign_docs, canonical_docs. cbn [omap list_omap]. destruct (as_incoming w); [|done].
  cbn [List.filter]. destruct (negb _ && _), (isAttachmentKey _); done.
Qed.

Lemma sort_docs_spec docs b s :
  let r := fold_left (sort_doc deviceId wall) docs (b, s) in
  so_incoming r.1 = so_incoming b ++ foreign_docs docs
  ∧ so_attachment r.1 = so_attachment b ++ canonical_docs docs ∧ same_work s r.2.
Proof.
  revert b s. induction docs as [|w docs IH]; intros b s; cbn [fold_left].
  { unfold foreign_docs, canonical_docs, same_work. cbn. by rewrite !app_nil_r. }
  pose proof (sort_doc_spec b s w) as H. destruct (sort_doc deviceId wall (b, s) w) as [b1 s1].
  destruct H as (H1 & H2 & H3). specialize (IH b1 s1). destruct IH as (G1 & G2 & G3).
  destruct (docs_cons w docs) as [-> ->]. cbv zeta in *. cbn [fst snd] in *.
  rewrite G1, G2, H1, H2, <- !(assoc_L (++)). split; [done|]. split; [done|].
  unfold same_work in *. destruct H3 as (? & ? & ? & ? & ?), G3 as (? & ? & ? & ? & ?). repeat split; congruence.
Qed.

(** What is to be published and what was. *)
Definition published l : list (list PublishedDoc) :=
  omap (λ o, match o with Publish docs => Some docs | _ => None end) (sy_out l).
Definition same_sends l l' : Prop :=
  sy_dirty l' = sy_dirty l ∧ sy_jobs l' = sy_jobs l ∧ published l' = published l.

#[export] Instance same_sends_preorder : PreOrder same_sends.
Proof. split; [done|]. intros a b c (?&?&?) (?&?&?). repeat split; congruence. Qed.

Lemma published_out l o :
  match o with Publish _ => False | _ => True end → published (out l o) = published l.
Proof. intros Ho. unfold published. cbn. rewrite omap_app. destruct o; try done; cbn; by rewrite app_nil_r. Qed.

Lemma sends_push f l :
  same_sends l (pushSyncStatus deviceId f l)
  ∧ sy_remoteAttachment (pushSyncStatus deviceId f l) = sy_remoteAttachment l.
Proof.
  unfold pushSyncStatus, syncStatus. cbn. split; [|by destruct (negb _)].
  split; [by destruct (negb _)|]. split; [by destruct (negb _)|].
  rewrite published_out by done. by destruct (negb _).
Qed.

Lemma merge_canonical_spec docs s :
  let s' := merge_canonical deviceId docs s in
  st_file s' = st_file s ∧ same_sends (svc s) (svc s')
  ∧ sy_remoteAttachment (svc s')
    = adopt_decision (decideMerge (sy_remoteAttachment (svc s)) docs) (sy_remoteAttachment (svc s)).
Proof.
  unfold merge_canonical. destruct docs as [|d docs]; [done|]. cbv zeta.
  destruct (negb _); [|done]. split; [done|].
  match goal with |- context [upd_file _ ?x] => destruct (sends_push (st_file x) (svc x)) as [H1 H2] end.
  split; [|exact H2]. etrans; [|exact H1]. done.
Qed.

Lemma merge_global_spec docs s :
  let s' := merge_global deviceId wall docs s in
  same_sends (svc s) (svc s') ∧ sy_remoteAttachment (svc s') = sy_remoteAttachment (svc s).
Proof.
  unfold merge_global. destruct docs as [|d docs]; [done|]. cbv zeta.
  set (s2 := fold_left _ _ _).
  assert (svc s2 = set_applying (svc s) true) as E by (unfold s2; by rewrite svc_apply_all).
  assert (same_sends (svc s) (set_applying (svc s2) false)
    ∧ sy_remoteAttachment (set_applying (svc s2) false) = sy_remoteAttachment (svc s)) as [H1 H2] by by rewrite E.
  destruct (md_apply _); [done|].
  match goal with |- context [upd_file _ ?x] => destruct (sends_push (st_file x) (svc x)) as [G1 G2] end.
  split; [|by etrans; [exact G2|]]. etrans; [|exact G1]. etrans; [exact H1|].
  split; [done|]. split; [done|]. by apply published_out.
Qed.

Definition distinct_keys (docs : list RemoteDoc) : Prop := NoDup (map rd_key docs).

Lemma incoming_nodup g docs :
  distinct_keys docs → NoDup (map in_key (List.filter g (omap as_incoming docs))).
Proof.
  intros Hnd. apply NoDup_map_filter. unfold distinct_keys in Hnd.
  induction docs as [|w docs IH]; [constructor|]. cbn [map] in Hnd. apply NoDup_cons in Hnd as [Hw Hnd].
  cbn [omap list_omap]. destruct (as_incoming w) as [d|] eqn:E; [|by apply IH].
  cbn [map]. apply NoDup_cons. split; [|by apply IH]. intros (d' & Hk & Hd')%list_elem_of_fmap. apply Hw.
  apply list_elem_of_omap in Hd' as (w' & Hw' & E').
  assert (∀ w d, as_incoming w = Some d → in_key d = rd_key w) as Hkey.
  { intros x y. unfold as_incoming. repeat case_match; intros [=]; by subst. }
  apply list_elem_of_fmap. exists w'. split; [|done]. rewrite <- (Hkey _ _ E), <- (Hkey _ _ E'). done.
Qed.

(** One batch: every register and every entry of the canonical view is the
    join of what it was and the documents for it; nothing becomes pending. *)
Lemma handleRemoteDocs_join docs s k :
  distinct_keys docs →
  let s' := handleRemoteDocs deviceId wall docs s in
  (startsWith k "history:" = false →
     map_get k (lww s') = reg_after k (foreign_docs docs) (map_get k (lww s)))
  ∧ map_get k (sy_remoteAttachment (svc s'))
    = reg_after k (canonical_docs docs) (map_get k (sy_remoteAttachment (svc s)))
  ∧ same_sends (svc s) (svc s').
Proof.
  intros Hnd. unfold handleRemoteDocs.
  pose proof (sort_docs_spec docs (mkSorted [] [] false) s) as H.
  destruct (fold_left _ _ _) as [b s1]. cbn [fst snd] in H. destruct H as (H1 & H2 & (F & A & D & J & O)).
  cbn [so_incoming so_attachment app] in H1, H2. cbv zeta. rewrite H1, H2.
  set (s2 := if so_snapshotChanged b then _ else s1).
  assert (st_file s2 = st_file s ∧ same_sends (svc s) (svc s2)
    ∧ sy_remoteAttachment (svc s2) = sy_remoteAttachment (svc s)) as (F2 & W2 & A2).
  { unfold s2. assert (same_sends (svc s) (svc s1)) as W1 by (unfold same_sends, published; rewrite D, J, O; done).
    destruct (so_snapshotChanged b); [|done]. destruct (sends_push (st_file s1) (svc s1)) as [G1 G2].
    split; [done|]. split; [etrans; [exact W1|exact G1]|]. etrans; [exact G2|exact A]. }
  destruct (merge_canonical_spec (canonical_docs docs) s2) as (F3 & W3 & A3).
  set (s3 := merge_canonical deviceId _ s2) in *.
  destruct (merge_global_spec (foreign_docs docs) s3) as (W4 & A4).
  split; [|split].
  - intros Hk. rewrite lww_merge_global by (done || by apply incoming_nodup). unfold lww. by rewrite F3, F2.
  - rewrite A4, A3, A2. apply adopt_decision_get. by apply incoming_nodup.
  - etrans; [exact W2|]. by etrans.
Qed.
End Machine.

(** ** Convergence *)

(** A queue of batches. *)
Definition receive_all (deviceId : string) (wall : nat → Z) `{C : Collator} (batches : list (list RemoteDoc))
    (s : SyncStore) : SyncStore :=
  fold_left (λ s docs, handleRemoteDocs deviceId wall docs s) batches s.

Lemma receive_all_join deviceId wall `{C : Collator} batches s k :
  Forall distinct_keys batches →
  let s' := receive_all deviceId wall batches s in
  (startsWith k "history:" = false →
     map_get k (lww s') = reg_after k (concat (map (foreign_docs deviceId) batches)) (map_get k (lww s)))
  ∧ map_get k (sy_remoteAttachment (svc s'))
    = reg_after k (concat (map canonical_docs batches)) (map_get k (sy_remoteAttachment (svc s)))
  ∧ same_sends (svc s) (svc s').
Proof.
  intros Hnd. unfold receive_all. revert s. induction Hnd as [|docs batches Hd Hnd IH]; intros s; [done|].
  cbn [fold_left map concat]. destruct (handleRemoteDocs_join deviceId wall docs s k Hd) as (H1 & H2 & H3).
  destruct (IH (handleRemoteDocs deviceId wall docs s)) as (G1 & G2 & G3). cbv zeta.
  split; [|split].
  - intros Hk. by rewrite G1, H1, reg_after_app.
  - by rewrite G2, H2, reg_after_app.
  - by etrans.
Qed.

(** Two documents of one key with one timestamp have one value. *)
Definition stamps_identify (k : string) (cur : option WorkspaceRegister) (docs : list IncomingWorkspaceDoc) : Prop :=
  (∀ d e, d ∈ docs → e ∈ docs → in_key d = k → in_key e = k → in_hlc d = in_hlc e → in_value d = in_value e)
  ∧ ∀ c d, cur = Some c → d ∈ docs → in_key d = k → reg_hlc c = in_hlc d → reg_doc c = in_value d.

Lemma reg_after_agree k cur docs docs' :
  (∀ d, in_key d = k → d ∈ docs ↔ d ∈ docs') → stamps_identify k cur docs →
  reg_after k docs cur = reg_after k docs' cur.
Proof.
  intros Hd [H1 H2]. unfold reg_after.
  eapply (newest_unique cur (List.filter (has_key k) docs) (List.filter (has_key k) docs')).
  - intros d. rewrite !In_filter_iff, has_key_iff. naive_solver.
  - intros d e. rewrite !In_filter_iff, !has_key_iff. naive_solver.
  - intros c d ->. rewrite In_filter_iff, has_key_iff. naive_solver.
  - apply reg_merge_newest.
  - apply reg_merge_newest.
Qed.

(** C19: two devices that hold the same register of a global document and
    receive the same documents of other devices for it - in whatever order
    and repetition, over any batches - end with the same register, the newest
    of what they had and what arrived; likewise for their views of the
    canonical workspace; and receiving never makes anything pending or
    publishes it.  This needs: no batch names a key twice (in such a batch a
    document that only moves the clock is applied last, and can replace a
    newer one: [one_key_twice_in_a_batch] of WorkspaceMerge); two documents of
    the key with one clock, the one held included, have one value; the key is
    not of the history lane. *)
Theorem remote_documents_converge (C : Collator) d1 d2 wall1 wall2 batches1 batches2 s1 s2 k :
  Forall distinct_keys batches1 → Forall distinct_keys batches2 → startsWith k "history:" = false →
  let in1 := concat (map (foreign_docs d1) batches1) in
  let in2 := concat (map (foreign_docs d2) batches2) in
  map_get k (lww s1) = map_get k (lww s2) →
  (∀ d, in_key d = k → d ∈ in1 ↔ d ∈ in2) → stamps_identify k (map_get k (lww s1)) in1 →
  let r1 := receive_all d1 wall1 batches1 s1 in
  let r2 := receive_all d2 wall2 batches2 s2 in
  map_get k (lww r1) = map_get k (lww r2)
  ∧ newest (map_get k (lww s1)) (List.filter (has_key k) in1) (map_get k (lww r1))
  ∧ newest (map_get k (sy_remoteAttachment (svc s1)))
      (List.filter (has_key k) (concat (map canonical_docs batches1)))
      (map_get k (sy_remoteAttachment (svc r1)))
  ∧ same_sends (svc s1) (svc r1).
Proof.
  intros Hn1 Hn2 Hk in1 in2 Hs Hd Hst r1 r2.
  destruct (receive_all_join d1 wall1 batches1 s1 k Hn1) as (H1 & A1 & S1).
  destruct (receive_all_join d2 wall2 batches2 s2 k Hn2) as (H2 & _ & _).
  split; [|split; [|split; [|exact S1]]].
  - unfold r1, r2. rewrite H1, H2, <- Hs by done. by apply reg_after_agree.
  - unfold r1. rewrite H1 by done. apply reg_merge_newest.
  - unfold r1. rewrite A1. apply reg_merge_newest.
Qed.
