(* ===== verification/WorkspaceMerge.v ===== *)
(** * Merging two layouts keeps every tab ([mergeAttachmentRegisters])

    Then runs of the workspace sync service. *)

From S2P Require Export WorkspaceSyncProps WorkspaceCoherent.
From Stdlib Require Import Ascii.
From Stdlib Require OrderedTypeEx.

(** ** Tab keys *)

Lemma chars_suffix a p b q :
  a +:+ p = b +:+ q → last (chars p) ≠ None → last (chars q) ≠ None → last (chars p) = last (chars q).
Proof.
  intros H Hp Hq. assert (chars a ++ chars p = chars b ++ chars q) as He by (by rewrite <- !chars_app, H).
  apply (f_equal last) in He. rewrite !last_app in He. destruct (last (chars p)), (last (chars q)); done.
Qed.

Lemma tab_key_inj a b suffix : tab_key a suffix = tab_key b suffix → a = b.
Proof.
  unfold tab_key. intros H%sapp_inj_l. apply chars_inj. apply (f_equal chars) in H.
  rewrite !chars_app in H. by apply app_inv_tail in H.
Qed.

Lemma tab_key_suffix a b p q :
  last (chars p) ≠ None → last (chars q) ≠ None → last (chars p) ≠ last (chars q) → tab_key a p ≠ tab_key b q.
Proof. unfold tab_key. intros Hp Hq Hne H%sapp_inj_l. by apply chars_suffix in H. Qed.

Lemma presence_url a b : presence_key a ≠ url_key b.
Proof. by apply tab_key_suffix. Qed.
Lemma presence_order a b : presence_key a ≠ order_key b.
Proof. by apply tab_key_suffix. Qed.
Lemma url_order a b : url_key a ≠ order_key b.
Proof. by apply tab_key_suffix. Qed.

Definition tab_keys (id : string) : list string := [presence_key id; url_key id; order_key id].

Lemma tab_keys_inj k a b : k ∈ tab_keys a → k ∈ tab_keys b → a = b.
Proof.
  unfold tab_keys. rewrite !elem_of_cons, elem_of_nil.
  pose proof (presence_url a b). pose proof (presence_order a b). pose proof (url_order a b).
  pose proof (presence_url b a). pose proof (presence_order b a). pose proof (url_order b a).
  intros [->|[->|[->|[]]]] [E|[E|[E|[]]]]; try congruence; by apply tab_key_inj in E.
Qed.

(** ** Ranks are printed and read back *)

Lemma digits_only_dec fuel n acc :
  0 <= n → digits_only (dec_digits fuel n acc) = digits_only acc.
Proof.
  revert n acc. induction fuel as [|fuel IH]; intros n acc Hn; [done|]. cbn [dec_digits].
  pose proof (Z.mod_pos_bound n 10 ltac:(lia)) as Hm.
  assert (∀ acc, digits_only (String (chr (48 + n mod 10)) acc) = digits_only acc) as H.
  { intros acc'. cbn [digits_only]. unfold is_digit. by rewrite dec_value_chr. }
  destruct (n <? 10); [apply H|]. rewrite IH by (apply Z.div_pos; lia). apply H.
Qed.

Lemma dec_digits_read n :
  0 <= n →
  let s := dec_digits (S (Z.to_nat (Z.log2 n))) n "" in
  unsigned_digits s = true ∧ bigint_digits s = n ∧ ∃ c t, s = String c t ∧ Ascii.eqb c "-" = false.
Proof.
  intros Hn. cbv zeta. pose proof (log2_fuel_10 n Hn) as Hl.
  set (fuel := S (Z.to_nat (Z.log2 n))) in *.
  destruct (dec_digits_head fuel n "" Hn ltac:(lia)) as (d & t & E & Hd).
  pose proof (digits_only_dec fuel n "" Hn) as Ho.
  destruct (parse_run_dec fuel n "" None ltac:(lia) ltac:(lia)) as (k & Hk & _ & Hp).
  rewrite E in *. split; [|split].
  - unfold unsigned_digits. rewrite Ho. done.
  - unfold bigint_digits. rewrite Hp. cbn [parse_run default from_option]. unfold id. lia.
  - exists (chr (48 + d)), t. split; [done|]. apply ascii_eqb_ne. intros H%(f_equal code).
    rewrite code_chr in H by lia. change (code "-") with 45 in H. lia.
Qed.

Lemma parseRank_toString10 n : parseRank (toString10 n) = n.
Proof.
  unfold toString10. destruct (n <? 0) eqn:E; bprop.
  - destruct (dec_digits_read (- n) ltac:(lia)) as (Hu & Hb & _). unfold parseRank.
    change (Ascii.eqb "-" "-") with true. rewrite Hu, Hb. lia.
  - destruct (dec_digits_read n ltac:(lia)) as (Hu & Hb & c & t & Hs & Hc).
    rewrite Hs in *. unfold parseRank. by rewrite Hc, Hu.
Qed.

(** ** The local-only tabs of each space *)

Definition space_of (local : Registers) (id : string) : option string :=
  match map_get (presence_key id) local ≫= reg_doc with
  | Some (DTabPresence tab) => Some (tp_spaceId tab)
  | _ => None
  end.

Definition in_space (local : Registers) (sp id : string) : bool := bool_decide (space_of local id = Some sp).

Lemma group_by_space_get local ids sp :
  map_get sp (group_by_space local ids)
  = match List.filter (in_space local sp) ids with [] => None | l => Some l end.
Proof.
  unfold group_by_space. induction ids as [|id ids IH] using rev_ind; [done|].
  rewrite fold_left_app, List.filter_app. cbn [fold_left List.filter].
  revert IH. generalize (fold_left (λ m x, match map_get (presence_key x) local ≫= reg_doc with
    | Some (DTabPresence tab) => map_set (tp_spaceId tab) (default [] (map_get (tp_spaceId tab) m) ++ [x]) m
    | _ => m end) ids jsmap_empty).
  intros m IH. unfold in_space at 2, space_of.
  destruct (map_get (presence_key id) local ≫= reg_doc) as [[]|]; cbn;
    rewrite ?app_nil_r; try exact IH.
  rewrite map_get_set. case_decide as Hsp.
  - rewrite bool_decide_eq_true_2 by (by rewrite Hsp). rewrite Hsp, IH.
    by destruct (List.filter (in_space local sp) ids).
  - rewrite bool_decide_eq_false_2 by congruence. by rewrite app_nil_r.
Qed.

Lemma group_by_space_wf local ids : map_wf (group_by_space local ids).
Proof.
  unfold group_by_space. assert (∀ m, map_wf m → map_wf (fold_left (λ m id,
    match map_get (presence_key id) local ≫= reg_doc with
    | Some (DTabPresence tab) => map_set (tp_spaceId tab) (default [] (map_get (tp_spaceId tab) m) ++ [id]) m
    | _ => m end) ids m)) as H; [|apply H; constructor].
  induction ids as [|id ids IH]; intros m Hm; [done|]. cbn [fold_left]. apply IH.
  destruct (map_get (presence_key id) local ≫= reg_doc) as [[]|]; try done. by apply map_wf_set.
Qed.

(** ** One space *)

Section Spaces.
Context `{C : Collator} (local : Registers).

(** The order register of a tab, when it is one. *)
Definition order_of (id : string) : option (SyncedTabOrder * Hlc) :=
  match map_get (order_key id) local with
  | Some (mkReg (Some (DTabOrder tab)) hlc) => Some (tab, hlc)
  | _ => None
  end.

Definition ordered (id : string) : bool := match order_of id with Some _ => true | None => false end.

(** Where the registers of a tab come from after the merge. *)
Definition or_else {A} (a b : option A) : option A := match a with Some _ => a | None => b end.

Definition placed (sp : string) (base after : Registers) (id : string) (rank : Z) : Prop :=
  map_get (presence_key id) after = or_else (map_get (presence_key id) local) (map_get (presence_key id) base)
  ∧ map_get (url_key id) after = or_else (map_get (url_key id) local) (map_get (url_key id) base)
  ∧ map_get (order_key id) after
    = match order_of id with
      | Some (tab, hlc) => Some (mkReg (Some (DTabOrder (mkTabOrder (to_tabId tab) sp (toString10 rank)))) hlc)
      | None => map_get (order_key id) base
      end.

Lemma append_tab_spec sp target keys nr id :
  let '(t', keys', nr') := append_tab local sp (target, keys, nr) id in
  keys' = keys ++ tab_keys id
  ∧ nr' = (if ordered id then nr + TAB_ORDER_STEP else nr)
  ∧ (∀ k, k ∉ tab_keys id → map_get k t' = map_get k target)
  ∧ placed sp target t' id nr.
Proof.
  unfold append_tab, placed, ordered, order_of, tab_keys.
  set (t1 := copy_register (presence_key id) local target).
  set (t2 := copy_register (url_key id) local t1).
  assert (∀ key m k, map_get k (copy_register key local m)
    = if decide (key = k) then or_else (map_get key local) (map_get k m) else map_get k m) as Hc.
  { intros key m k. unfold copy_register. destruct (map_get key local); [rewrite map_get_set|];
      by case_decide. }
  pose proof (presence_url id id) as N1. pose proof (presence_order id id) as N2. pose proof (url_order id id) as N3.
  assert (∀ k, k ∉ [presence_key id; url_key id; order_key id] → map_get k t2 = map_get k target) as Hk.
  { intros k Hk. unfold t2, t1. rewrite !Hc. repeat case_decide; set_solver. }
  assert (map_get (presence_key id) t2 = or_else (map_get (presence_key id) local) (map_get (presence_key id) target)) as H1.
  { unfold t2, t1. rewrite !Hc. repeat case_decide; congruence. }
  assert (map_get (url_key id) t2 = or_else (map_get (url_key id) local) (map_get (url_key id) target)) as H2.
  { unfold t2, t1. rewrite !Hc. repeat case_decide; congruence. }
  assert (map_get (order_key id) t2 = map_get (order_key id) target) as H3.
  { unfold t2, t1. rewrite !Hc. repeat case_decide; congruence. }
  destruct (map_get (order_key id) local) as [[[[]|] hlc]|] eqn:Eo; cbv beta iota zeta;
    (split; [done|]; split; [done|]); try (split; [exact Hk|]; split; [exact H1|]; split; [exact H2|exact H3]).
  split; [|split; [|split]].
  - intros k Hn. rewrite map_get_set_ne by set_solver. by apply Hk.
  - by rewrite map_get_set_ne by congruence.
  - by rewrite map_get_set_ne by congruence.
  - by rewrite map_get_set_eq.
Qed.

Lemma placed_frame sp base base' after after' id rank :
  (∀ k, k ∈ tab_keys id → map_get k base' = map_get k base) →
  (∀ k, k ∈ tab_keys id → map_get k after' = map_get k after) →
  placed sp base after id rank → placed sp base' after' id rank.
Proof.
  unfold placed, tab_keys. intros Hb Ha (H1 & H2 & H3).
  rewrite !Ha, !Hb by set_solver. done.
Qed.

(** The rank a tab gets: a step for every ordered tab before it. *)
Definition rank_at (nr : Z) (ids : list string) (i : nat) : Z :=
  nr + TAB_ORDER_STEP * Z.of_nat (length (List.filter ordered (take i ids))).

Lemma append_tabs_spec sp ids target keys nr :
  NoDup ids →
  let '(t', keys', _) := fold_left (append_tab local sp) ids (target, keys, nr) in
  keys' = keys ++ concat (map tab_keys ids)
  ∧ (∀ k, (∀ id, id ∈ ids → k ∉ tab_keys id) → map_get k t' = map_get k target)
  ∧ ∀ i id, ids !! i = Some id → placed sp target t' id (rank_at nr ids i).
Proof.
  revert target keys nr. induction ids as [|id ids IH]; intros target keys nr Hnd.
  { cbn. split; [by rewrite app_nil_r|]. done. }
  apply NoDup_cons in Hnd as [Hid Hnd]. cbn [fold_left].
  pose proof (append_tab_spec sp target keys nr id) as H.
  destruct (append_tab local sp (target, keys, nr) id) as [[t1 k1] n1].
  destruct H as (-> & -> & Hf & Hp).
  specialize (IH t1 (keys ++ tab_keys id) (if ordered id then nr + TAB_ORDER_STEP else nr) Hnd).
  destruct (fold_left _ _ _) as [[t' k'] n']. destruct IH as (-> & Hf' & Hp').
  split; [by rewrite <- (assoc_L (++))|]. split.
  - intros k Hk. rewrite Hf' by set_solver. apply Hf. set_solver.
  - intros [|i] x Hx; cbn in Hx.
    + injection Hx as <-. unfold rank_at. cbn [take List.filter length]. rewrite Z.mul_0_r, Z.add_0_r.
      eapply placed_frame; [done| |exact Hp]. intros k Hk. apply Hf'. intros y Hy Hky. apply Hid.
      by rewrite (tab_keys_inj k id y).
    + assert (x ∈ ids) as Hin by (by eapply list_elem_of_lookup_2).
      assert (rank_at nr (id :: ids) (S i) = rank_at (if ordered id then nr + TAB_ORDER_STEP else nr) ids i) as ->.
      { unfold rank_at. cbn [take List.filter]. destruct (ordered id); cbn [length]; lia. }
      eapply placed_frame; [| |by apply Hp']; [|done]. intros k Hk. symmetry. apply Hf. intros Hk'. apply Hid.
      by rewrite (tab_keys_inj k id x).
Qed.

(** ** The spaces one after the other *)

Lemma next_rank_above sp target k r v :
  map_get k target = Some r → space_rank sp r = Some v → v + TAB_ORDER_STEP <= next_rank sp target.
Proof.
  intros Hk%map_get_In Hr. unfold next_rank.
  assert (v ∈ omap (space_rank sp) (map_values target)) as Hv.
  { apply list_elem_of_omap. exists r. split; [|done]. unfold map_values. by apply (list_elem_of_fmap_2 snd) in Hk. }
  destruct (omap (space_rank sp) (map_values target)) as [|x ranks]; [by apply not_elem_of_nil in Hv|].
  assert (∀ l a, a <= fold_left (λ a b, if a >? b then a else b) l a
    ∧ ∀ y, y ∈ l → y <= fold_left (λ a b, if a >? b then a else b) l a) as H.
  { clear. induction l as [|y l IH]; intros a; cbn [fold_left]; [split; [lia|set_solver]|].
    destruct (IH (if a >? y then a else y)) as [H1 H2]. rewrite Z.gtb_ltb in *.
    split; [destruct (y <? a) eqn:E; bprop; lia|].
    intros z [->|Hz]%elem_of_cons; [destruct (y <? a) eqn:E; bprop; lia|by apply H2]. }
  destruct (H ranks x) as [H1 H2]. apply elem_of_cons in Hv as [->|Hv]; [lia|]. specialize (H2 v Hv). lia.
Qed.

Definition in_order (ids : list string) : list string := sort_by (local_tab_order local) ids.

Definition all_ids (es : jsmap string (list string)) : list string := concat (map_values es).

Lemma append_spaces_spec es target keys :
  NoDup (all_ids es) →
  let '(t', keys') := fold_left (append_space local) es (target, keys) in
  (∀ k, k ∈ keys' ↔ k ∈ keys ∨ ∃ id, id ∈ all_ids es ∧ k ∈ tab_keys id)
  ∧ (∀ k, (∀ id, id ∈ all_ids es → k ∉ tab_keys id) → map_get k t' = map_get k target)
  ∧ ∀ sp ids, (sp, ids) ∈ es → ∃ nr,
      (∀ i id, in_order ids !! i = Some id → placed sp target t' id (rank_at nr (in_order ids) i))
      ∧ ∀ k r v, (∀ id, id ∈ all_ids es → k ∉ tab_keys id) → map_get k target = Some r →
          space_rank sp r = Some v → v + TAB_ORDER_STEP <= nr.
Proof.
  revert target keys. induction es as [|[sp ids] es IH]; intros target keys Hnd.
  { cbn. split; [set_solver|]. split; [done|]. intros sp ids []%not_elem_of_nil. }
  unfold all_ids in Hnd. cbn [map_values map concat snd] in Hnd. apply NoDup_app in Hnd as (Hn1 & Hd & Hn2).
  cbn [fold_left]. unfold append_space at 2. fold (in_order ids).
  assert (∀ x, x ∈ in_order ids ↔ x ∈ ids) as Hin by (intros x; unfold in_order; by rewrite sort_by_perm).
  pose proof (append_tabs_spec sp (in_order ids) target keys (next_rank sp target)) as H.
  assert (NoDup (in_order ids)) as Hns by (unfold in_order; by rewrite sort_by_perm).
  specialize (H Hns). destruct (fold_left (append_tab local sp) _ _) as [[t1 k1] n1].
  destruct H as (-> & Hf1 & Hp1). cbn [fst].
  specialize (IH t1 (keys ++ concat (map tab_keys (in_order ids))) Hn2).
  destruct (fold_left (append_space local) es _) as [t' k']. destruct IH as (Hk & Hf & Hp).
  assert (∀ id, id ∈ all_ids ((sp, ids) :: es) ↔ id ∈ ids ∨ id ∈ all_ids es) as Hall
    by (intros id; unfold all_ids; cbn; by rewrite elem_of_app).
  assert (∀ k, k ∈ concat (map tab_keys (in_order ids)) ↔ ∃ id, id ∈ ids ∧ k ∈ tab_keys id) as Hkeys.
  { intros k. rewrite list_elem_of_In, in_concat. setoid_rewrite in_map_iff. setoid_rewrite <- list_elem_of_In.
    setoid_rewrite <- Hin. naive_solver. }
  split; [|split].
  - intros k. rewrite Hk, elem_of_app, Hkeys. setoid_rewrite Hall. naive_solver.
  - intros k Hn. rewrite Hf, Hf1; [done|..]; intros id Hid; apply Hn, Hall; rewrite <- ?Hin; auto.
  - intros sp' ids' [E|He]%elem_of_cons.
    + injection E as -> ->. exists (next_rank sp target). split.
      * intros i id Hi. eapply placed_frame; [done| |by apply Hp1]. intros k Hkk. apply Hf. intros y Hy Hky.
        apply (Hd id); [apply Hin; by eapply list_elem_of_lookup_2|]. by rewrite (tab_keys_inj k id y).
      * intros k r v _ Hg Hr. by eapply next_rank_above.
    + destruct (Hp sp' ids' He) as (nr & Hpl & Hab). exists nr. split.
      * intros i id Hi. eapply placed_frame; [|done|by apply Hpl]. intros k Hkk. symmetry. apply Hf1.
        intros y Hy Hky. apply (Hd y); [by apply Hin|]. rewrite (tab_keys_inj k y id) by done.
        unfold all_ids. apply list_elem_of_lookup_2 in Hi. unfold in_order in Hi. rewrite sort_by_perm in Hi.
        rewrite list_elem_of_In, in_concat. exists ids'. rewrite <- !list_elem_of_In. split; [|done].
        unfold map_values. by apply (list_elem_of_fmap_2 snd) in He.
      * intros k r v Hn Hg. apply (Hab k); [intros id Hid; apply Hn, Hall; auto|].
        rewrite Hf1; [done|]. intros id Hid. apply Hn, Hall. left. by apply Hin.
Qed.

Lemma rank_at_lt nr ids i j id :
  ids !! i = Some id → ordered id = true → (i < j)%nat → rank_at nr ids i < rank_at nr ids j.
Proof.
  intros Hi Ho Hlt. unfold rank_at.
  rewrite <- (take_drop i (take j ids)), take_take, Nat.min_l, List.filter_app, length_app by lia.
  assert (take j ids !! i = Some id) as Hj by (by rewrite lookup_take_lt).
  rewrite (drop_S _ _ _ Hj). cbn [List.filter]. rewrite Ho. cbn [length]. unfold TAB_ORDER_STEP.
  change (Z.shiftl 1 64) with 18446744073709551616. lia.
Qed.
End Spaces.

(** ** What the merge means *)

Definition live_in (m : Registers) (id : string) : Prop :=
  ∃ tab hlc, map_get (presence_key id) m = Some (mkReg (Some (DTabPresence tab)) hlc) ∧ tp_id tab = id.

Lemma liveTabIds_iff m id : keyed m → id ∈ liveTabIds m ↔ live_in m id.
Proof.
  intros [Hwf Hk]. unfold liveTabIds. rewrite add_ids_elem, list_elem_of_omap.
  split.
  - intros [([d hlc] & Hr & Hl)|[]%not_elem_of_nil]. apply map_values_get in Hr as (k & Hg); [|done].
    unfold live_tab in Hl. cbn in Hl. destruct d as [[]|]; try done. injection Hl as <-.
    exists tab, hlc. split; [|done]. by rewrite (Hk _ _ _ Hg) in Hg.
  - intros (tab & hlc & Hg & <-). left. exists (mkReg (Some (DTabPresence tab)) hlc). split; [|done].
    apply map_values_get; eauto.
Qed.

Lemma live_space m id : keyed m → live_in m id → is_Some (space_of m id).
Proof. intros _ (tab & hlc & Hg & _). unfold space_of. rewrite Hg. cbn. eauto. Qed.

Lemma liveTabIds_nodup m : NoDup (liveTabIds m).
Proof.
  unfold liveTabIds. generalize (omap live_tab (map_values m)). intros l.
  assert (∀ acc : list string, NoDup acc → NoDup (fold_left add_id l acc)) as H; [|apply H; constructor].
  induction l as [|x l IH]; intros acc Hacc; [done|]. cbn [fold_left]. apply IH. unfold add_id.
  case_decide; [done|]. apply NoDup_app. split; [done|]. split; [set_solver|]. apply NoDup_singleton.
Qed.

Lemma nodup_bfilter {A} (f : A → bool) (l : list A) : NoDup l → NoDup (List.filter f l).
Proof. intros H. by apply NoDup_ListNoDup, List.NoDup_filter, NoDup_ListNoDup. Qed.

Lemma grouped_nodup (es : jsmap string (list string)) (f : string → option string) :
  map_wf es → (∀ sp ids, (sp, ids) ∈ es → NoDup ids ∧ ∀ id, id ∈ ids → f id = Some sp) → NoDup (all_ids es).
Proof.
  unfold map_wf, map_keys, all_ids. intros Hwf Hes. induction es as [|[sp ids] es IH]; [constructor|].
  cbn in Hwf. apply NoDup_cons in Hwf as [Hsp Hwf]. cbn [map_values map concat snd]. apply NoDup_app.
  destruct (Hes sp ids) as [Hn Hf]; [by left|]. split; [done|]. split.
  - intros x Hx Hc. apply list_elem_of_In, in_concat in Hc as (l & Hl & Hxl).
    apply list_elem_of_In in Hxl. apply in_map_iff in Hl as ([sp' l'] & E & He). cbn in E. subst l'.
    apply list_elem_of_In in He. destruct (Hes sp' l) as [_ Hf']; [by right|].
    assert (sp = sp') as -> by (specialize (Hf x Hx); specialize (Hf' x Hxl); congruence).
    apply Hsp. by apply (list_elem_of_fmap_2 fst) in He.
  - apply IH; [done|]. intros sp' l He. apply Hes. by right.
Qed.

Lemma keyed_copy key local m : keyed local → keyed m → keyed (copy_register key local m).
Proof.
  intros [_ Hl] Hm. unfold copy_register. destruct (map_get key local) as [[d hlc]|] eqn:E; [|done].
  apply keyed_put; [|done]. intros d' ->. by eapply Hl.
Qed.

Lemma keyed_append_tab local sp acc id :
  keyed local → keyed acc.1.1 → keyed (append_tab local sp acc id).1.1.
Proof.
  destruct acc as [[target keys] nr]. cbn [fst]. intros Hl Hm. unfold append_tab.
  pose proof (keyed_copy (url_key id) local _ Hl (keyed_copy (presence_key id) local target Hl Hm)) as H.
  destruct (map_get (order_key id) local) as [[[[]|] hlc]|] eqn:E; try exact H.
  cbn [fst]. apply keyed_put; [|exact H]. intros d [= <-].
  by rewrite (proj2 Hl _ _ _ E).
Qed.

Lemma fold_left_keep {A B} (P : A → Prop) (f : A → B → A) (l : list B) a :
  (∀ a b, P a → P (f a b)) → P a → P (fold_left f l a).
Proof. intros Hf. revert a. induction l as [|b l IH]; intros a Ha; [done|]. apply IH. by apply Hf. Qed.

Lemma keyed_merge `{C : Collator} local remote :
  keyed local → keyed remote → keyed (mergeAttachmentRegisters local remote).1.
Proof.
  intros Hl Hr. unfold mergeAttachmentRegisters.
  apply (fold_left_keep (λ acc : Registers * list string, keyed acc.1)); [|by apply keyed_filter].
  intros [target keys] [sp ids] Ht. cbn in Ht. unfold append_space.
  apply (fold_left_keep (λ acc : Registers * list string * Z, keyed acc.1.1)); [|done].
  intros acc id. by apply keyed_append_tab.
Qed.

Section Layouts.
Context `{C : Collator} `{!CollatorLaws C} (local remote : Registers).

(** The tabs only this device has. *)
Definition localOnly : list string :=
  List.filter (λ id, negb (bool_decide (id ∈ liveTabIds remote))) (liveTabIds local).

Definition tab_of_mine (k : string) : Prop := ∃ id, id ∈ localOnly ∧ k ∈ tab_keys id.

(** The rank of a tab in a space of a layout. *)
Definition rank_in (m : Registers) (sp id : string) : option Z := map_get (order_key id) m ≫= space_rank sp.

Lemma local_tab_order_antisym a b : local_tab_order local b a = - local_tab_order local a b.
Proof.
  unfold local_tab_order. cbv zeta. rewrite !Z.gtb_ltb.
  destruct (_ <? order_rank (map_get (order_key a) local)) eqn:E1; destruct (order_rank (map_get (order_key a) local) <? _) eqn:E2; bprop; try lia.
  by rewrite locale_antisym.
Qed.

Lemma local_tab_order_trans a b c :
  local_tab_order local a b <= 0 → local_tab_order local b c <= 0 → local_tab_order local a c <= 0.
Proof.
  unfold local_tab_order. cbv zeta. rewrite !Z.gtb_ltb.
  repeat (match goal with |- context [?x <? ?y] => destruct (x <? y) eqn:? end); bprop; intros; try lia.
  by eapply locale_trans.
Qed.

Lemma in_order_before ids i j a b :
  in_order local ids !! i = Some a → in_order local ids !! j = Some b → local_tab_order local a b < 0 → (i < j)%nat.
Proof.
  intros Hi Hj Hlt. destruct (Nat.lt_trichotomy i j) as [|[->|Hji]]; [done|exfalso..].
  - rewrite Hi in Hj. injection Hj as <-. pose proof (local_tab_order_antisym a a). lia.
  - pose proof (sort_by_sorted (local_tab_order local) local_tab_order_antisym local_tab_order_trans ids) as Hs.
    fold (in_order local ids) in Hs.
    rewrite <- (take_drop (S j) (in_order local ids)) in Hs.
    assert (b ∈ take (S j) (in_order local ids)) as Hb.
    { apply (list_elem_of_lookup_2 _ j). rewrite lookup_take_lt by lia. done. }
    assert (a ∈ drop (S j) (in_order local ids)) as Ha.
    { apply (list_elem_of_lookup_2 _ (i - S j)). rewrite lookup_drop. rewrite <- Hi. f_equal. lia. }
    pose proof (StronglySorted_app_1_elem_of _ _ _ b a Hs Hb Ha) as Hba. cbn in Hba.
    rewrite local_tab_order_antisym in Hba. lia.
Qed.

Lemma merge_spec (Hl : keyed local) (Hr : keyed remote) :
  let '(merged, publishKeys) := mergeAttachmentRegisters local remote in
  (∀ k, k ∈ publishKeys ↔ tab_of_mine k)
  ∧ (∀ k, ¬ tab_of_mine k → map_get k merged = map_get k (attachmentRegisters remote))
  ∧ ∀ id, id ∈ localOnly → ∃ sp nr ids i,
      space_of local id = Some sp ∧ in_order local ids !! i = Some id
      ∧ (∀ x, x ∈ ids ↔ x ∈ localOnly ∧ space_of local x = Some sp)
      ∧ (∀ j x, in_order local ids !! j = Some x →
           placed local sp (attachmentRegisters remote) merged x (rank_at local nr (in_order local ids) j))
      ∧ ∀ k r v, ¬ tab_of_mine k → map_get k (attachmentRegisters remote) = Some r →
          space_rank sp r = Some v → v + TAB_ORDER_STEP <= nr.
Proof.
  unfold mergeAttachmentRegisters. fold localOnly.
  set (es := group_by_space local localOnly).
  assert (map_wf es) as Hwf by apply group_by_space_wf.
  assert (∀ id, id ∈ localOnly → is_Some (space_of local id)) as Hsp.
  { intros id Hid. apply In_filter_iff in Hid as [Hid _].
    apply live_space; [done|]. by apply liveTabIds_iff in Hid. }
  assert (NoDup localOnly) as Hnd by (apply nodup_bfilter, liveTabIds_nodup).
  assert (∀ sp ids, (sp, ids) ∈ es → NoDup ids ∧ ∀ x, x ∈ ids ↔ x ∈ localOnly ∧ space_of local x = Some sp) as Hes.
  { intros sp ids Hin%map_In_get; [|done]. unfold es in Hin. rewrite group_by_space_get in Hin.
    assert (ids = List.filter (in_space local sp) localOnly) as -> by (by destruct (List.filter _ _); simplify_eq).
    split; [by apply nodup_bfilter|].
    intros x. rewrite In_filter_iff. unfold in_space. by rewrite bool_decide_eq_true. }
  assert (∀ id sp, id ∈ localOnly → space_of local id = Some sp → ∃ ids, (sp, ids) ∈ es ∧ id ∈ ids) as Hmem.
  { intros id sp Hid Hs. assert (id ∈ List.filter (in_space local sp) localOnly) as Hf.
    { rewrite In_filter_iff. unfold in_space. by rewrite bool_decide_eq_true. }
    exists (List.filter (in_space local sp) localOnly). split; [|done]. apply map_get_In. unfold es.
    rewrite group_by_space_get. destruct (List.filter _ _); [by apply not_elem_of_nil in Hf|done]. }
  assert (∀ id, id ∈ all_ids es ↔ id ∈ localOnly) as Hall.
  { intros id. unfold all_ids, map_values. rewrite list_elem_of_In, in_concat. setoid_rewrite in_map_iff.
    setoid_rewrite <- list_elem_of_In. split.
    - intros (? & ([sp ids] & <- & He) & Hx). by apply (Hes sp ids He).
    - intros Hid. destruct (Hsp id Hid) as [sp Hs]. destruct (Hmem id sp Hid Hs) as (ids & He & Hx).
      exists ids. split; [|done]. by exists (sp, ids). }
  assert (∀ k, (∃ id, id ∈ all_ids es ∧ k ∈ tab_keys id) ↔ tab_of_mine k) as Hmine
    by (intros k; unfold tab_of_mine; by setoid_rewrite Hall).
  assert (∀ k, ¬ tab_of_mine k → ∀ id, id ∈ all_ids es → k ∉ tab_keys id) as Hout.
  { intros k Hk id Hid Hkk. apply Hk, Hmine. eauto. }
  assert (NoDup (all_ids es)) as Hne.
  { apply (grouped_nodup es (space_of local)); [done|]. intros sp ids He. destruct (Hes sp ids He) as [Hn Hx].
    split; [done|]. intros id Hid. by apply Hx. }
  pose proof (append_spaces_spec local es (attachmentRegisters remote) [] Hne) as H.
  destruct (fold_left (append_space local) es _) as [merged keys]. destruct H as (Hk & Hf & Hp).
  split; [intros k; rewrite Hk, Hmine; set_solver|]. split; [intros k Hn; apply Hf, Hout, Hn|].
  intros id Hid. destruct (Hsp id Hid) as [sp Hs]. destruct (Hmem id sp Hid Hs) as (ids & He & Hx).
  destruct (Hp sp ids He) as (nr & Hpl & Hab).
  assert (id ∈ in_order local ids) as [i Hi]%list_elem_of_lookup_1 by (unfold in_order; by rewrite sort_by_perm).
  exists sp, nr, ids, i. split; [done|]. split; [done|]. split; [apply (Hes sp ids He)|]. split; [exact Hpl|].
  intros k r v Hn. by apply Hab, Hout.
Qed.

Lemma mine_key id k : id ∈ localOnly → k ∈ tab_keys id → tab_of_mine k.
Proof. exists id. done. Qed.

Lemma not_mine_key id k : id ∉ localOnly → k ∈ tab_keys id → ¬ tab_of_mine k.
Proof. intros Hid Hk (x & Hx & Hkx). apply Hid. by rewrite (tab_keys_inj k id x). Qed.

Lemma localOnly_iff id : keyed local → keyed remote → id ∈ localOnly ↔ live_in local id ∧ ¬ live_in remote id.
Proof.
  intros Hl Hr. unfold localOnly. rewrite In_filter_iff, negb_true_iff, bool_decide_eq_false.
  by rewrite !liveTabIds_iff.
Qed.

Lemma attachment_get k m : keyed m → isAttachmentKey k = true → map_get k (attachmentRegisters m) = map_get k m.
Proof.
  intros [Hwf _] Hk. unfold attachmentRegisters. rewrite map_get_filter by done. cbn [fst].
  rewrite Hk. by destruct (map_get k m).
Qed.

(** C20: Merging a local layout into a canonical one keeps every tab: (i) the
    tabs that are live afterwards are those live on either side; (ii) what the
    canonical layout says outside the tabs only this device has is left as it
    is, and the keys to publish are exactly the three keys of those tabs;
    (iii) such a tab keeps its presence register, its address and the clock of
    its order register, and is put in its own space after every canonical tab
    of that space; (iv) two such tabs of a space keep their local order. *)
Theorem merge_keeps_every_tab (Hl : keyed local) (Hr : keyed remote) :
  let merged := (mergeAttachmentRegisters local remote).1 in
  let publishKeys := (mergeAttachmentRegisters local remote).2 in
  (∀ id, live_in merged id ↔ live_in local id ∨ live_in remote id)
  ∧ (∀ k, k ∈ publishKeys ↔ tab_of_mine k)
  ∧ (∀ k, ¬ tab_of_mine k → isAttachmentKey k = true → map_get k merged = map_get k remote)
  ∧ (∀ id, id ∈ localOnly →
      map_get (presence_key id) merged = map_get (presence_key id) local
      ∧ (map_get (url_key id) local ≠ None → map_get (url_key id) merged = map_get (url_key id) local)
      ∧ reg_hlc <$> (if ordered local id then map_get (order_key id) merged else None)
        = reg_hlc <$> (if ordered local id then map_get (order_key id) local else None))
  ∧ ∀ id sp, id ∈ localOnly → space_of local id = Some sp → ordered local id = true →
      ∃ v, rank_in merged sp id = Some v
      ∧ (∀ k r w, ¬ tab_of_mine k → map_get k merged = Some r → space_rank sp r = Some w → w < v)
      ∧ ∀ id', id' ∈ localOnly → space_of local id' = Some sp → ordered local id' = true →
          local_tab_order local id id' < 0 → ∃ v', rank_in merged sp id' = Some v' ∧ v < v'.
Proof.
  pose proof (keyed_merge local remote Hl Hr) as Hm. pose proof (merge_spec Hl Hr) as H.
  destruct (mergeAttachmentRegisters local remote) as [merged keys]. cbn [fst snd] in *.
  destruct H as (Hk & Hf & Hp). cbv zeta.
  assert (∀ id, id ∈ localOnly → map_get (presence_key id) merged = map_get (presence_key id) local) as Hpres.
  { intros id Hid. destruct (Hp id Hid) as (sp & nr & ids & i & _ & Hi & _ & Hpl & _).
    destruct (Hpl i id Hi) as [-> _]. apply (localOnly_iff _ Hl Hr) in Hid as [(tab & hlc & -> & _) _]. done. }
  assert (∀ k, ¬ tab_of_mine k → isAttachmentKey k = true → map_get k merged = map_get k remote) as Hrem.
  { intros k Hn Ha. by rewrite Hf, attachment_get. }
  split; [|split; [exact Hk|split; [exact Hrem|split]]].
  - intros id. destruct (decide (id ∈ localOnly)) as [Hid|Hid].
    + pose proof (proj1 (localOnly_iff id Hl Hr) Hid) as [H1 _]. unfold live_in at 1. rewrite Hpres by done.
      fold (live_in local id). tauto.
    + unfold live_in at 1. rewrite Hrem by (try (eapply not_mine_key; [done|]; set_solver); done).
      fold (live_in remote id). split; [tauto|]. intros [H|H]; [|done].
      destruct (decide (id ∈ liveTabIds remote)) as [Hx|Hx]; [by apply liveTabIds_iff in Hx|].
      exfalso. apply Hid, (localOnly_iff id Hl Hr). split; [done|]. by rewrite <- liveTabIds_iff.
  - intros id Hid. split; [by apply Hpres|].
    destruct (Hp id Hid) as (sp & nr & ids & i & _ & Hi & _ & Hpl & _).
    destruct (Hpl i id Hi) as (_ & Hu & Ho). split.
    + intros Hn. rewrite Hu. unfold or_else. by destruct (map_get (url_key id) local).
    + revert Ho. unfold ordered, order_of. destruct (map_get (order_key id) local) as [[[[]|] hlc]|]; try done.
      by intros ->.
  - intros id sp Hid Hs Ho. destruct (Hp id Hid) as (sp' & nr & ids & i & Hs' & Hi & Hids & Hpl & Hab).
    assert (sp' = sp) as -> by congruence.
    assert (∀ j x, in_order local ids !! j = Some x → ordered local x = true →
      rank_in merged sp x = Some (rank_at local nr (in_order local ids) j)) as Hrank.
    { intros j x Hj Hox. destruct (Hpl j x Hj) as (_ & _ & Hoo). unfold rank_in. rewrite Hoo.
      unfold ordered in Hox. destruct (order_of local x) as [[tab hlc]|]; [|done]. cbn [mbind option_bind].
      unfold space_rank. cbn [reg_doc to_spaceId to_rank]. rewrite String.eqb_refl. unfold sync_rank.
      by rewrite parseRank_toString10. }
    exists (rank_at local nr (in_order local ids) i). split; [by apply Hrank|]. split.
    + intros k r w Hn Hg Hw. rewrite Hf in Hg by done. specialize (Hab k r w Hn Hg Hw).
      unfold rank_at, TAB_ORDER_STEP in *. change (Z.shiftl 1 64) with 18446744073709551616 in *. lia.
    + intros id' Hid' Hsp' Ho' Hlt. assert (id' ∈ in_order local ids) as [j Hj]%list_elem_of_lookup_1.
      { unfold in_order. rewrite sort_by_perm. by apply Hids. }
      exists (rank_at local nr (in_order local ids) j). split; [by apply Hrank|].
      eapply rank_at_lt; [done..|]. by eapply in_order_before.
Qed.
End Layouts.

(** ** A merge *)

#[global] Instance demo_collator_laws : CollatorLaws StoreDemo.demo_collator.
Proof.
  split; unfold localeCompare, StoreDemo.demo_collator.
  - intros a b. rewrite String.compare_antisym. by destruct (String.compare a b).
  - intros a b c. pose proof (OrderedTypeEx.String_as_OT.cmp_lt a b) as H1. pose proof (OrderedTypeEx.String_as_OT.cmp_lt b c) as H2.
    pose proof (OrderedTypeEx.String_as_OT.cmp_lt a c) as H3.
    unfold OrderedTypeEx.String_as_OT.cmp in *.
    destruct (String.compare a b) eqn:E1; [apply String.compare_eq_iff in E1 as ->; done|..|lia].
    destruct (String.compare b c) eqn:E2; [apply String.compare_eq_iff in E2 as ->; by rewrite E1|..|lia].
    intros _ _. rewrite (proj2 H3); [lia|]. eapply OrderedTypeEx.String_as_OT.lt_trans; [by apply H1|by apply H2].
Qed.

Module MergeDemo.
Definition tab (id url rank : string) (t : Z) (dev : string) : Registers :=
  [(presence_key id, mkReg (Some (DTabPresence (mkTabPresence id "w" t))) (mkHlc t 0 dev));
   (url_key id, mkReg (Some (DTabUrl (mkTabUrl id url))) (mkHlc t 1 dev));
   (order_key id, mkReg (Some (DTabOrder (mkTabOrder id "w" rank))) (mkHlc t 2 dev))].
Definition mine : Registers := tab "b" "https://b.example" "7" 10 "mac" ++ tab "a" "https://a.example" "3" 11 "mac".
Definition theirs : Registers := tab "c" "https://c.example" "5" 12 "ipad".
End MergeDemo.

Lemma merge_keeps_every_tab_witness :
  keyed MergeDemo.mine ∧ keyed MergeDemo.theirs
  ∧ ∃ v v', rank_in (mergeAttachmentRegisters MergeDemo.mine MergeDemo.theirs).1 "w" "a" = Some v
      ∧ rank_in (mergeAttachmentRegisters MergeDemo.mine MergeDemo.theirs).1 "w" "b" = Some v' ∧ v < v'.
Proof.
  assert (∀ m : Registers, forallb (λ kr, match reg_doc kr.2 with Some d => String.eqb kr.1 (workspaceKeyFor d) | None => true end) m = true →
    map_wf m → keyed m) as Hkeyed.
  { intros m Hm Hwf. split; [done|]. intros k d hlc Hg%map_get_In%list_elem_of_In. rewrite forallb_forall in Hm.
    apply Hm in Hg. cbn in Hg. by apply String.eqb_eq. }
  assert (keyed MergeDemo.mine) as Hl by (apply Hkeyed; [reflexivity|apply (bool_decide_unpack _); vm_compute; exact I]).
  assert (keyed MergeDemo.theirs) as Hr by (apply Hkeyed; [reflexivity|apply (bool_decide_unpack _); vm_compute; exact I]).
  split; [exact Hl|]. split; [exact Hr|].
  pose proof (merge_keeps_every_tab MergeDemo.mine MergeDemo.theirs Hl Hr) as H. cbv zeta in H.
  do 4 apply proj2 in H.
  assert (∀ id, id ∈ ["a"; "b"] → id ∈ localOnly MergeDemo.mine MergeDemo.theirs) as Hin.
  { intros id Hid. apply (bool_decide_unpack _). assert (bool_decide (id = "a") || bool_decide (id = "b") = true) as Hb.
    { rewrite !elem_of_cons, elem_of_nil in Hid. rewrite orb_true_iff, !bool_decide_eq_true. tauto. }
    rewrite orb_true_iff, !bool_decide_eq_true in Hb. destruct Hb as [Hb|Hb]; rewrite Hb; vm_compute; exact I. }
  destruct (H "a" "w") as (v & Hv & _ & Hb); [apply Hin; by left|reflexivity|reflexivity|].
  destruct (Hb "b") as (v' & Hv' & Hlt); [apply Hin; right; by left|reflexivity|reflexivity|reflexivity|].
  exists v, v'. split; [exact Hv|]. split; [exact Hv'|exact Hlt].
Defined.

(** * Runs of the workspace sync service

    Concrete installations, the inputs at which the theorems of
    WorkspaceSyncProps.v apply, and two interleavings of an explicit Push. *)

Module SyncDemo.
Definition wall (n : nat) : Z := 1000 + 10 * Z.of_nat n.
Definition account : option string := Some "acct".

(** An installation with [newService] listening. *)
Definition installed (base : @WorkspaceStore unit) : SyncStore :=
  WorkspaceSync.start (newStore (Some (st_file base)) (newService account base)).
Definition fresh : SyncStore := installed (newStore None ()).
(** One whose account was synchronised before. *)
Definition returning : SyncStore := installed (markManualSyncInitialized account (newStore None ())).

Definition run (e : SyncEvent) (s : SyncStore) : SyncStore := sync_run "mac" wall true e s.
Definition runs (es : list SyncEvent) (s : SyncStore) : SyncStore := fold_left (λ s e, run e s) es s.

Definition tab (id url rank : string) : SyncedTabState := mkTabState (mkTabPresence id "w" 1000) url rank.
Definition remote_space : RemoteDoc :=
  mkRemote "space:h" (mkHlc 2000 0 "ipad") (Some (PDoc (Some (DSpace StoreDemo.home)))).
Definition remote_tab (id : string) (hlc : Hlc) : RemoteDoc :=
  mkRemote (presence_key id) hlc (Some (PDoc (Some (DTabPresence (mkTabPresence id "w" 900))))).

(** A space and a tab are created, the flush fails, runs again and lands; a
    batch of another device arrives. *)
Definition autosave : list SyncEvent :=
  [EHydrated; EEdit (OUpsertSpace StoreDemo.work); EEdit (OOpenTab (tab "t" "https://a.example" "1"));
   ETimer; EFlushed 0 false; ETimer; EFlushed 1 true;
   ERemote [remote_space; remote_tab "x" (mkHlc 2100 0 "ipad")]].

Fixpoint quiet_run (es : list SyncEvent) (s : SyncStore) : Prop :=
  match es with
  | [] => True
  | e :: es => sync_pre e s ∧ ¬ canonical_request e s ∧ quiet_run es (run e s)
  end.

Lemma quiet_run_steps es s : quiet_run es s → rtc (autosave_step "mac" wall true) s (runs es s).
Proof.
  revert s. induction es as [|e es IH]; intros s H; [done|]. destruct H as (H1 & H2 & H3).
  eapply rtc_l; [exists e; split; [exact H1|split; [exact H2|reflexivity]]|]. by apply IH.
Qed.

(** ** A Push and what happens while it waits for the fence *)

Definition pushed : SyncStore :=
  runs [EHydrated; EEdit (OUpsertSpace StoreDemo.work); EEdit (OOpenTab (tab "t" "https://a.example" "1"));
        ESynchronize push_mode None] returning.

(** A tab opened while [beforeAttachmentPublish] is awaited is gone when the
    Push is applied: its target was computed before. *)
Example push_during_fence_loses_tab :
  map_get (presence_key "u") (lww (run (EEdit (OOpenTab (tab "u" "https://b.example" "2"))) pushed)) ≠ None
  ∧ map_get (presence_key "u")
      (lww (run (EFence true) (run (EEdit (OOpenTab (tab "u" "https://b.example" "2"))) pushed))) = None.
Proof. split; [discriminate|reflexivity]. Qed.

(** The Push publishes the tab under a new clock, but the view of the canonical
    workspace keeps the old one: a record that is older than the published one
    and newer than the old one replaces it there. *)
Definition landed : SyncStore := run (EFlushed 0 true) (run (EFence true) pushed).
Definition stale_close : RemoteDoc :=
  mkRemote (presence_key "t") (mkHlc 1025 0 "ipad") (Some (PDoc None)).
Definition publications (key : string) (s : SyncStore) : list PublishedDoc :=
  List.filter (λ d, String.eqb (pd_key d) key) (concat (published (svc s))).
Example push_view_keeps_old_clock :
  Exists (λ d, compareHlc (rd_hlc stale_close) (pd_hlc d) < 0 ∧ pd_value d ≠ PDoc None)
    (publications (presence_key "t") landed)
  ∧ reg_doc <$> map_get (presence_key "t") (sy_remoteAttachment (svc (run (ERemote [stale_close]) landed)))
    = Some None.
Proof. vm_compute. split; [left; split; [reflexivity|discriminate]|reflexivity]. Qed.
End SyncDemo.

Lemma autosave_leaves_canonical_witness :
  no_canonical SyncDemo.returning
  ∧ rtc (autosave_step "mac" SyncDemo.wall true) SyncDemo.returning (SyncDemo.runs SyncDemo.autosave SyncDemo.returning)
  ∧ no_canonical (SyncDemo.runs SyncDemo.autosave SyncDemo.returning).
Proof.
  assert (no_canonical SyncDemo.returning) as H0.
  { intros k _ [H|(j & H & _)]; by apply not_elem_of_nil in H. }
  assert (rtc (autosave_step "mac" SyncDemo.wall true) SyncDemo.returning
    (SyncDemo.runs SyncDemo.autosave SyncDemo.returning)) as Hr.
  { apply SyncDemo.quiet_run_steps. vm_compute. repeat split; try discriminate; intros []. }
  split; [exact H0|]. split; [exact Hr|].
  exact (proj1 (autosave_leaves_canonical "mac" SyncDemo.wall true _ _ H0 Hr)).
Defined.

(** Two devices hold a space and receive two edits of it, in opposite orders
    and one of them twice. *)
Module ConvergeDemo.
Definition renamed (name : string) (t : Z) (dev : string) : RemoteDoc :=
  mkRemote "space:w" (mkHlc t 0 dev) (Some (PDoc (Some (DSpace (mkSpace "w" name "#fff" None 0 direct_policy 1000))))).
Definition first : RemoteDoc := renamed "Play" 5000 "ipad".
Definition second : RemoteDoc := renamed "Rest" 6000 "iphone".
Definition batches1 : list (list RemoteDoc) := [[first]; [second]].
Definition batches2 : list (list RemoteDoc) := [[second]; [first]; [first]].
Definition held : SyncStore := SyncDemo.run (EEdit (OUpsertSpace StoreDemo.work)) SyncDemo.returning.
(** One batch with two documents of one key: what is held already under a
    newer clock, then a rename that is newer still. *)
Definition again : RemoteDoc := renamed "Work" 5000 "ipad".
End ConvergeDemo.

(** The clock adoption is applied after the rename, so the older document
    stays; in two batches the newer one does. *)
Example one_key_twice_in_a_batch :
  let name s := map_get "space:w" (lww s) ≫= λ r, match reg_doc r with Some (DSpace sp) => Some (sp_name sp, physicalMs (reg_hlc r)) | _ => None end in
  let receive batches := receive_all "mac" SyncDemo.wall batches ConvergeDemo.held in
  name (receive [[ConvergeDemo.again; ConvergeDemo.second]]) = Some ("Work", 5000)
  ∧ name (receive [[ConvergeDemo.again]; [ConvergeDemo.second]]) = Some ("Rest", 6000).
Proof. split; vm_compute; reflexivity. Qed.

Lemma remote_documents_converge_witness :
  map_get "space:w" (lww (receive_all "mac" SyncDemo.wall ConvergeDemo.batches1 ConvergeDemo.held))
  = map_get "space:w" (lww (receive_all "mini" SyncDemo.wall ConvergeDemo.batches2 ConvergeDemo.held))
  ∧ map_get "space:w" (lww (receive_all "mac" SyncDemo.wall ConvergeDemo.batches1 ConvergeDemo.held))
    ≠ map_get "space:w" (lww ConvergeDemo.held).
Proof.
  assert (∀ w, distinct_keys [w]) as Hone by (intros w; apply NoDup_singleton).
  split; [|vm_compute; discriminate].
  refine (proj1 (remote_documents_converge StoreDemo.demo_collator "mac" "mini" SyncDemo.wall SyncDemo.wall
    ConvergeDemo.batches1 ConvergeDemo.batches2 ConvergeDemo.held ConvergeDemo.held "space:w" _ _ _ _ _ _)).
  - do 2 (constructor; [apply Hone|]). constructor.
  - do 3 (constructor; [apply Hone|]). constructor.
  - reflexivity.
  - reflexivity.
  - intros d _. unfold ConvergeDemo.batches1, ConvergeDemo.batches2. cbn. rewrite !elem_of_cons. tauto.
  - assert (concat (map (foreign_docs "mac") ConvergeDemo.batches1)
      = [mkIncoming "space:w" (Some (DSpace (mkSpace "w" "Play" "#fff" None 0 direct_policy 1000))) (mkHlc 5000 0 "ipad");
         mkIncoming "space:w" (Some (DSpace (mkSpace "w" "Rest" "#fff" None 0 direct_policy 1000))) (mkHlc 6000 0 "iphone")])
      as -> by reflexivity.
    split.
    + intros d e Hd He _ _. rewrite !elem_of_cons, elem_of_nil in Hd, He.
      destruct Hd as [->|[->|[]]], He as [->|[->|[]]]; try reflexivity; discriminate.
    + intros c d Hc Hd _. vm_compute in Hc. injection Hc as <-. rewrite !elem_of_cons, elem_of_nil in Hd.
      destruct Hd as [->|[->|[]]]; discriminate.
Defined.
