(* ===== verification/Tokens.v ===== *)
(** * Device and capability tokens, and the edge that checks them
    (packages/protocol/src/token.ts, packages/protocol/src/agent.ts,
    services/control/src/capabilities.ts, services/sessionhub/src/auth.ts and
    index.ts)

    Compact signed tokens of two families that must not be mistaken for each
    other: device tokens open the session plane, capability tokens drive the
    agent inside the virtual machine.  Ed25519 and the import of a raw key are
    parameters; what [JSON.parse] returns is a [json] value. *)

From S2P Require Export RecordCodec GatewayCookie.
From Stdlib Require Import Ascii.

(** ** base64url (token.ts; capabilities.ts and auth.ts repeat it) *)

Definition base64url (bs : bytes) : string :=
  strip_trailing "=" (map_chars url_safe_char (toBase64 bs)).

Definition base64urlDecode (s : string) : option bytes :=
  let pad := if (String.length s mod 4 =? 0)%nat then ""
             else repeat_char "=" (4 - String.length s mod 4) in
  fromBase64 (map_chars url_unsafe_char s +:+ pad).

(** ** Capabilities (agent.ts) *)

Inductive Capability :=
| pty_spawn | pty_io | pty_resize | pty_kill | ports_list | ports_forward
| fetch_public | fs_read | fs_write | log_read.

#[export] Instance Capability_eq_dec : EqDecision Capability.
Proof. solve_decision. Defined.

Definition CAPABILITIES : list Capability :=
  [pty_spawn; pty_io; pty_resize; pty_kill; ports_list; ports_forward; fetch_public; fs_read; fs_write; log_read].

Definition TERMINAL_CAPABILITIES : list Capability :=
  [pty_spawn; pty_io; pty_resize; pty_kill; ports_list; ports_forward; log_read].

Definition capability_string (c : Capability) : string :=
  match c with
  | pty_spawn => "pty.spawn" | pty_io => "pty.io" | pty_resize => "pty.resize" | pty_kill => "pty.kill"
  | ports_list => "ports.list" | ports_forward => "ports.forward" | fetch_public => "fetch.public"
  | fs_read => "fs.read" | fs_write => "fs.write" | log_read => "log.read"
  end.

Definition CAPABILITY_TOKEN_TTL_SECONDS : Z := 300.

Record CapabilityClaims := mkCapClaims {
  cc_mid : string; cc_sub : string; cc_caps : list Capability; cc_iat : Z; cc_exp : Z; cc_jti : string
}.

Definition hasCapability (claims : CapabilityClaims) (cap : Capability) : bool :=
  bool_decide (cap ∈ cc_caps claims).

Definition checkCapability (claims : CapabilityClaims) (machineId : string) (cap : Capability)
    (nowSeconds : Z) : option string :=
  if negb (String.eqb (cc_mid claims) machineId) then Some "token is bound to a different machine"
  else if cc_exp claims <? nowSeconds then Some "capability token expired"
  else if negb (hasCapability claims cap)
  then Some ("capability " +:+ capability_string cap +:+ " not granted")
  else None.

(** The capability each request on the control channel needs. *)
Inductive AgentCtlRequestKind :=
| r_pty_spawn | r_pty_resize | r_pty_kill | r_pty_attach | r_pty_list | r_job_set | r_ports_list
| r_fetch_public | r_fetch_cancel.

Definition CTL_CAPABILITY (t : AgentCtlRequestKind) : Capability :=
  match t with
  | r_pty_spawn => pty_spawn | r_pty_resize => pty_resize | r_pty_kill => pty_kill
  | r_pty_attach => pty_io | r_pty_list => pty_io | r_job_set => pty_spawn | r_ports_list => ports_list
  | r_fetch_public => fetch_public | r_fetch_cancel => fetch_public
  end.

(** Channel names of the mux. *)
Inductive AgentChannel :=
| ch_ctl | ch_vfs | ch_log | ch_pty (id : string) | ch_fwd (port : Z) (streamId : option string).

Definition is_dec_digit (c : ascii) : bool := match dec_value c with Some _ => true | None => false end.

Definition parseChannel (name : string) : option AgentChannel :=
  if String.eqb name "ctl" then Some ch_ctl
  else if String.eqb name "vfs" then Some ch_vfs
  else if String.eqb name "log" then Some ch_log
  else
    match indexOf_char "/" name with
    | None => None
    | Some slash =>
        let head := slice_to slash name in
        let rest := slice_from (slash + 1) name in
        if String.eqb head "pty" then
          if (0 <? String.length rest)%nat then Some (ch_pty rest) else None
        else if String.eqb head "fwd" then
          let '(portPart, streamId) :=
            match indexOf_char "/" rest with
            | None => (rest, None)
            | Some i => (slice_to i rest, Some (slice_from (i + 1) rest))
            end in
          if negb (negb (String.eqb portPart "") && forallb is_dec_digit (chars portPart)) then None
          else
            match parseInt10 portPart with
            | None => None
            | Some port =>
                if (port <? 1) || (port >? 65535) then None
                else match streamId with
                     | Some "" => None
                     | _ => Some (ch_fwd port streamId)
                     end
            end
        else None
    end.

(** ** Tokens *)

Record DeviceTokenClaims := mkClaims {
  dt_sub : string; dt_did : string; dt_iat : Z; dt_exp : Z; dt_jti : option string
}.

Definition DEVICE_TOKEN_TTL_SECONDS : Z := 600.
Definition CLOCK_SKEW_SECONDS : Z := 30.

Definition token_header (typ : string) : string :=
  base64url (utf8 (stringify (JObj [("alg", JStr "EdDSA"); ("typ", JStr typ)]))).
Definition HEADER : string := token_header "JWT".
Definition CAPABILITY_JWS_HEADER : string := token_header "suma-cap+jws".

Definition claims_json (c : DeviceTokenClaims) : json :=
  JObj ([("sub", JStr (dt_sub c)); ("did", JStr (dt_did c)); ("iat", JNum (dt_iat c)); ("exp", JNum (dt_exp c))]
        ++ match dt_jti c with Some jti => [("jti", JStr jti)] | None => [] end).

Definition cap_claims_json (c : CapabilityClaims) : json :=
  JObj [("mid", JStr (cc_mid c)); ("sub", JStr (cc_sub c));
        ("caps", JArr (map (λ cap, JStr (capability_string cap)) (cc_caps c)));
        ("iat", JNum (cc_iat c)); ("exp", JNum (cc_exp c)); ("jti", JStr (cc_jti c))].

Definition signing_input (header : string) (claims : json) : string :=
  header +:+ "." +:+ base64url (utf8 (stringify claims)).

(** What a device signs to log in (token.ts). *)
Definition deviceLoginSigningBytes (deviceId challenge : string) : bytes :=
  lengthPrefixed [PStr "suma.devicelogin.v1"; PStr deviceId; PStr challenge].

Inductive TokenError := malformed | not_capability_token | bad_signature | expired.

Section Tokens.
Context `{W : WebCrypto}.

Definition signDeviceToken (signingKey : CryptoKey) (claims : DeviceTokenClaims) : string :=
  let signingInput := signing_input HEADER (claims_json claims) in
  signingInput +:+ "." +:+ base64url (ed25519_sign signingKey (utf8 signingInput)).

Definition signCapabilityToken (signingKey : CryptoKey) (claims : CapabilityClaims) : string :=
  let signingInput := signing_input CAPABILITY_JWS_HEADER (cap_claims_json claims) in
  signingInput +:+ "." +:+ base64url (ed25519_sign signingKey (utf8 signingInput)).

Definition mintCapabilityToken (signingKey : CryptoKey) (machineId userId : string)
    (caps : list Capability) (nowSeconds : Z) (jti : string) : string * CapabilityClaims :=
  let claims := mkCapClaims machineId userId caps nowSeconds (nowSeconds + CAPABILITY_TOKEN_TTL_SECONDS) jti in
  (signCapabilityToken signingKey claims, claims).

Definition json_string (v : option json) : option string :=
  match v with Some (JStr s) => Some s | _ => None end.
Definition json_number (v : option json) : option Z :=
  match v with Some (JNum n) => Some n | _ => None end.

(** The claims of a payload: [None] when reading a member throws (the payload
    is [null]), [Some None] when a member has another type. *)
Definition read_claims (v : json) : option (option DeviceTokenClaims) :=
  match v with
  | JNull => None
  | _ => Some (
      sub ← json_string (jget "sub" v); did ← json_string (jget "did" v);
      exp ← json_number (jget "exp" v); iat ← json_number (jget "iat" v);
      Some (mkClaims sub did iat exp (json_string (jget "jti" v))))
  end.

Definition parse_payload (payload : string) : option json :=
  bytes ← base64urlDecode payload; text ← fromUtf8 bytes; parse text.

(** The check of the signature: [false] also when the text is no base64. *)
Definition signature_valid (verifyKey : CryptoKey) (header payload sig : string) : bool :=
  match base64urlDecode sig with
  | Some signature => ed25519_verify verifyKey signature (utf8 (header +:+ "." +:+ payload))
  | None => false
  end.

(** [None]: the call throws. *)
Definition verifyDeviceToken (verifyKey : CryptoKey) (token : string) (nowSeconds : Z)
    : option (TokenError + DeviceTokenClaims) :=
  match split_char "." token with
  | [header; payload; sig] =>
      if negb (String.eqb header HEADER) then Some (inl malformed)
      else if negb (signature_valid verifyKey header payload sig) then Some (inl bad_signature)
      else
        match parse_payload payload with
        | None => Some (inl malformed)
        | Some v =>
            match read_claims v with
            | None => None
            | Some None => Some (inl malformed)
            | Some (Some claims) =>
                if dt_exp claims + CLOCK_SKEW_SECONDS <? nowSeconds then Some (inl expired)
                else Some (inr claims)
            end
        end
  | _ => Some (inl malformed)
  end.

Definition isCapability (v : json) : option Capability :=
  match v with
  | JStr s => List.find (λ c, String.eqb (capability_string c) s) CAPABILITIES
  | _ => None
  end.

Definition parseClaims (payload : string) : option CapabilityClaims :=
  v ← parse_payload payload;
  mid ← json_string (jget "mid" v); sub ← json_string (jget "sub" v); jti ← json_string (jget "jti" v);
  iat ← json_number (jget "iat" v); exp ← json_number (jget "exp" v);
  match jget "caps" v with
  | Some (JArr l) => caps ← mapM isCapability l; Some (mkCapClaims mid sub caps iat exp jti)
  | _ => None
  end.

Definition verifyCapabilityToken (verifyKey : CryptoKey) (token : string) (nowSeconds : Z)
    : TokenError + CapabilityClaims :=
  match split_char "." token with
  | [header; payload; sig] =>
      if negb (String.eqb header CAPABILITY_JWS_HEADER) then inl not_capability_token
      else if negb (signature_valid verifyKey header payload sig) then inl bad_signature
      else
        match parseClaims payload with
        | None => inl malformed
        | Some claims =>
            if cc_exp claims + CLOCK_SKEW_SECONDS <? nowSeconds then inl expired else inr claims
        end
  | _ => inl malformed
  end.
End Tokens.

(** ** What a token may do (capabilities.ts) *)

Definition CAPABILITY_FEATURE (cap : Capability) : option string :=
  match cap with
  | fetch_public => Some "cloud-fetch"
  | fs_read | fs_write => Some "files"
  | _ => None
  end.

Definition DEFAULT_ACCOUNT_FEATURES : list string := ["cloud-fetch"; "files"; "inference"].

Definition is_terminal (cap : Capability) : bool := bool_decide (cap ∈ TERMINAL_CAPABILITIES).

Definition refusedCaps (caps : list Capability) (features : list string) : list Capability :=
  List.filter (λ cap,
    if is_terminal cap then false
    else match CAPABILITY_FEATURE cap with
         | None => true
         | Some feature => negb (bool_decide (feature ∈ features))
         end) caps.

Definition agentReportRefusal (caps : list Capability) : option string :=
  match caps with
  | [] => Some "capability token grants nothing"
  | _ =>
      match List.filter (λ cap, negb (is_terminal cap)) caps with
      | [] => None
      | extra => Some ("not a terminal-scoped token: " +:+ str_join ", " (map capability_string extra))
      end
  end.

Definition transferReportRefusal (caps : list Capability) : option string :=
  if bool_decide (fetch_public ∈ caps) then None
  else Some "capability token does not grant fetch.public".

(** ** Bearer credentials (auth.ts and gateway.ts of the control plane) *)

(** [header?.startsWith("Bearer ") ? header.slice("Bearer ".length) : null] *)
Definition bearer (header : option string) : option string :=
  match header with
  | Some h => if startsWith h "Bearer " then Some (slice_from 7 h) else None
  | None => None
  end.

Definition secretEquals (a b : string) : bool := bytesEqual (utf8 a) (utf8 b).

(** ** The edge of the session plane (auth.ts, index.ts) *)

(** The characters of [A-Za-z0-9_-]. *)
Definition token_char (c : ascii) : bool :=
  let n := code c in
  ((65 <=? n) && (n <=? 90)) || ((97 <=? n) && (n <=? 122)) || ((48 <=? n) && (n <=? 57))
  || (n =? 95) || (n =? 45).
(** [A-Za-z0-9_-]+ *)
Definition token_text (s : string) : bool := negb (String.eqb s "") && forallb token_char (chars s).

Definition bearerToken (authorization : option string) : option string :=
  match authorization with
  | None => None
  | Some value =>
      match split_char " " value with
      | [scheme; token] => if String.eqb (toLowerCase scheme) "bearer" then Some token else None
      | _ => None
      end
  end.

Definition DEV_TOKEN_PREFIX : string := "hbr_dev_".

(** [DEV_TOKEN_PATTERN.exec(token)?.[1]]. *)
Definition dev_token_user (token : string) : option string :=
  if startsWith token DEV_TOKEN_PREFIX then
    match split_char "." (slice_from (String.length DEV_TOKEN_PREFIX) token) with
    | [user] => if token_text user then Some user else None
    | [user; device] => if token_text user && token_text device then Some user else None
    | _ => None
    end
  else None.

Definition parseDeviceToken (authorization : option string) : option string :=
  token ← bearerToken authorization; dev_token_user token.

Definition isDeviceJws (token : string) : bool :=
  match split_char "." token with
  | [header; payload; sig] =>
      token_text header && token_text payload && token_text sig
      && match parse_payload header with
         | Some decoded =>
             bool_decide (json_string (jget "alg" decoded) = Some "EdDSA")
             && bool_decide (json_string (jget "typ" decoded) = Some "JWT")
         | None => false
         end
  | _ => false
  end.

Definition token_error (e : TokenError) : string :=
  match e with
  | malformed => "malformed" | not_capability_token => "not_capability_token"
  | bad_signature => "bad_signature" | expired => "expired"
  end.

Record EdgeIdentity := mkIdentity { ei_userId : string; ei_deviceId : option string }.

Definition DEVICE_HEADER : string := "x-suma-device".

Record EdgeRequest := mkEdge {
  er_method : string;
  er_path : string;
  (** the query parameter access_token *)
  er_access_token : option string;
  (** header names are lower case *)
  er_headers : jsmap string string;
  er_body : string
}.

Inductive EdgeOutcome :=
| Respond (status : Z) (error : option string)
(** The request handed to the hub of an account. *)
| Forward (userId : string) (request : EdgeRequest)
| ForwardRevoke (userId deviceId : string).

Definition WS_PATH : string := "/v1/hub/ws".
Definition HYDRATE_PATH : string := "/v1/hub/hydrate".
Definition GATEWAY_FETCH_PATH : string := "/v1/gateway/fetch".
Definition GATEWAY_COOKIES_PATH : string := "/v1/gateway/cookies".
Definition ADMIN_REVOKE_PATH : string := "/v1/admin/revoke".

Section Edge.
Context `{W : WebCrypto} (importTokenVerifyKey : bytes → option CryptoKey).
Context (CONTROL_PUBLIC_KEY ADMIN_TOKEN : option string).

(** The key is set to something other than the empty string. *)
Definition public_key : option string :=
  match CONTROL_PUBLIC_KEY with Some "" => None | k => k end.

Definition controlVerifyKey (publicKey : string) : option CryptoKey :=
  raw ← fromBase64 publicKey; importTokenVerifyKey raw.

Definition authenticate (authorization : option string) (nowSeconds : Z) : string + EdgeIdentity :=
  match bearerToken authorization with
  | None => inl "unauthorized"
  | Some token =>
      if isDeviceJws token then
        match public_key with
        | None => inl "unauthorized"
        | Some publicKey =>
            match controlVerifyKey publicKey with
            | None => inl "unauthorized"
            | Some key =>
                match verifyDeviceToken key token nowSeconds with
                | None => inl "unauthorized"
                | Some (inl reason) => inl (token_error reason)
                | Some (inr claims) => inr (mkIdentity (dt_sub claims) (Some (dt_did claims)))
                end
            end
        end
      else
        match public_key with
        | Some _ => inl "unauthorized"
        | None =>
            match dev_token_user token with
            | None => inl "unauthorized"
            | Some userId => inr (mkIdentity userId None)
            end
        end
  end.

Definition authenticatedRoute (path : string) : bool :=
  String.eqb path WS_PATH || String.eqb path HYDRATE_PATH
  || String.eqb path GATEWAY_FETCH_PATH || String.eqb path GATEWAY_COOKIES_PATH.

Definition method_allowed (r : EdgeRequest) : bool :=
  negb (String.eqb (er_path r) WS_PATH && negb (String.eqb (er_method r) "GET"))
  && negb (String.eqb (er_path r) HYDRATE_PATH && negb (String.eqb (er_method r) "POST"))
  && negb (String.eqb (er_path r) GATEWAY_COOKIES_PATH
           && negb (String.eqb (er_method r) "GET") && negb (String.eqb (er_method r) "PUT")).

(** The request the hub sees: no credential, and the device header only from
    the token. *)
Definition forwarded (identity : EdgeIdentity) (r : EdgeRequest) : EdgeRequest :=
  let headers := map_delete DEVICE_HEADER (map_delete "authorization" (er_headers r)) in
  mkEdge (er_method r) (er_path r) None
    (match ei_deviceId identity with Some d => map_set DEVICE_HEADER d headers | None => headers end)
    (er_body r).

Definition edge_authorization (r : EdgeRequest) : option string :=
  match map_get "authorization" (er_headers r) with
  | Some header => Some header
  | None => (λ t, "Bearer " +:+ t) <$> er_access_token r
  end.

(** [revokeRequestSchema] *)
Definition parse_revoke (body : string) : option (string * string) :=
  v ← parse body; userId ← json_string (jget "userId" v); deviceId ← json_string (jget "deviceId" v);
  if String.eqb userId "" || String.eqb deviceId "" then None else Some (userId, deviceId).

Definition admin_allowed (r : EdgeRequest) : bool :=
  match ADMIN_TOKEN, bearerToken (map_get "authorization" (er_headers r)) with
  | Some secret, Some presented =>
      negb (String.eqb secret "") && bytesEqual (utf8 presented) (utf8 secret)
  | _, _ => false
  end.

Definition edge_fetch (nowSeconds : Z) (r : EdgeRequest) : EdgeOutcome :=
  if String.eqb (er_path r) "/healthz" then Respond 200 None
  else if authenticatedRoute (er_path r) then
    match authenticate (edge_authorization r) nowSeconds with
    | inl _ => Respond 401 (Some "unauthorized")
    | inr identity =>
        if negb (method_allowed r) then Respond 405 (Some "method_not_allowed")
        else Forward (ei_userId identity) (forwarded identity r)
    end
  else if String.eqb (er_path r) ADMIN_REVOKE_PATH then
    if negb (String.eqb (er_method r) "POST") then Respond 405 (Some "method_not_allowed")
    else if negb (admin_allowed r) then Respond 401 (Some "unauthorized")
    else
      match parse_revoke (er_body r) with
      | None => Respond 400 (Some "malformed")
      | Some (userId, deviceId) => ForwardRevoke userId deviceId
      end
  else Respond 404 (Some "not_found").
End Edge.
