(* ===== verification/TokenProps.v ===== *)
(** * What tokens guarantee

    Encoding round trips, the two families kept apart, and the statement that
    the session plane serves nobody but the holders of issued device tokens. *)

From S2P Require Export Tokens.
From Stdlib Require Import Ascii.

(** ** base64url *)

Definition url_entry_ok (n : Z) : bool :=
  let c := url_safe_char (b64_char n) in
  token_char c && Ascii.eqb (url_unsafe_char c) (b64_char n) && negb (Ascii.eqb c "=").

Lemma url_table n :
  0 <= n < 64 →
  let c := url_safe_char (b64_char n) in
  token_char c = true ∧ url_unsafe_char c = b64_char n ∧ c ≠ "="%char.
Proof.
  intros Hn. assert (forallb url_entry_ok (seqZ 0 64) = true) as Ht by (vm_compute; done).
  rewrite forallb_forall in Ht. specialize (Ht n).
  assert (In n (seqZ 0 64)) as Hin by (apply list_elem_of_In, elem_of_seqZ; lia).
  apply Ht in Hin. unfold url_entry_ok in Hin. cbv zeta in *. bprop.
  split; [done|]. split; [by apply Ascii.eqb_eq|]. by apply Ascii.eqb_neq.
Qed.

Lemma drop_char_repeat c n l : drop_char c (repeat c n ++ l) = drop_char c l.
Proof. induction n as [|n IH]; [done|]. cbn. by rewrite ascii_eqb_refl. Qed.

Lemma drop_char_none c l : Forall (λ d, d ≠ c) l → drop_char c l = l.
Proof. intros H. destruct H as [|d l Hd _]; [done|]. cbn. by rewrite ascii_eqb_ne. Qed.

Lemma base64url_shape bs :
  bytes_ok bs →
  ∃ vs pad, chars (base64url bs) = map (λ v, url_safe_char (b64_char v)) vs
    ∧ chars (btoa bs) = map b64_char vs ++ repeat "="%char pad
    ∧ Forall is_sextet vs ∧ ((length vs + pad) mod 4 = 0)%nat ∧ (pad <= 2)%nat.
Proof.
  intros H. destruct (btoa_shape bs H) as (vs & pad & Hch & Hvs & Hmod & Hpad & _).
  exists vs, pad. split; [|done].
  unfold base64url, strip_trailing, map_chars, toBase64. rewrite !chars_of_chars, Hch, map_app, map_map, map_repeat.
  rewrite rev_app_distr, rev_repeat. change (url_safe_char "=") with "="%char. rewrite drop_char_repeat.
  rewrite drop_char_none; [apply rev_involutive|]. apply Forall_rev.
  apply List.Forall_map. eapply Forall_impl; [exact Hvs|]. intros v Hv. by destruct (url_table v Hv) as (_ & _ & ?).
Qed.

Lemma base64url_decode bs : bytes_ok bs → base64urlDecode (base64url bs) = Some bs.
Proof.
  intros H. destruct (base64url_shape bs H) as (vs & pad & Hs & Hb & Hvs & Hmod & Hpad).
  rewrite <- (atob_btoa bs H). unfold base64urlDecode, fromBase64. f_equal. apply chars_inj.
  rewrite chars_app. unfold map_chars. rewrite chars_of_chars, Hs, Hb, map_map. f_equal.
  - apply map_ext_in. intros v Hv%list_elem_of_In. rewrite Forall_forall in Hvs.
    by destruct (url_table v (Hvs v Hv)) as (_ & ? & _).
  - rewrite <- chars_length, Hs, length_map.
    pose proof (Nat.mod_upper_bound (length vs) 4 ltac:(lia)) as Hb4.
    assert (length vs mod 4 = 0 ∧ pad = 0 ∨ length vs mod 4 ≠ 0 ∧ pad = 4 - length vs mod 4)%nat as [[-> ->]|[Hne ->]].
    { pose proof (Nat.div_mod_eq (length vs) 4). pose proof (Nat.div_mod_eq (length vs + pad) 4). lia. }
    + done.
    + rewrite (proj2 (Nat.eqb_neq _ _) Hne). generalize (4 - length vs mod 4)%nat as n.
      induction n as [|n IH]; [done|]. cbn. by rewrite IH.
Qed.

Lemma base64url_text bs : bytes_ok bs → Forall (λ c, token_char c = true) (chars (base64url bs)).
Proof.
  intros H. destruct (base64url_shape bs H) as (vs & pad & -> & _ & Hvs & _). apply List.Forall_map.
  eapply Forall_impl; [exact Hvs|]. intros v Hv. by destruct (url_table v Hv) as (? & _).
Qed.

Lemma base64url_no_dot bs : bytes_ok bs → no_char "." (base64url bs).
Proof. intros H. eapply Forall_impl; [by apply base64url_text|]. by intros c Hc ->. Qed.

Lemma HEADER_no_dot : no_char "." HEADER.
Proof. apply base64url_no_dot, utf8_ok. Qed.
Lemma CAPABILITY_HEADER_no_dot : no_char "." CAPABILITY_JWS_HEADER.
Proof. apply base64url_no_dot, utf8_ok. Qed.
Lemma headers_differ : HEADER ≠ CAPABILITY_JWS_HEADER.
Proof. vm_compute. discriminate. Qed.

(** ** Splitting a token *)

Lemma split_signing_input h c :
  no_char "." h → split_char "." (signing_input h c) = [h; base64url (utf8 (stringify c))].
Proof.
  intros Hh. unfold signing_input. change (h +:+ "." +:+ ?x) with (h +:+ String "." x).
  rewrite split_char_app by done. by rewrite split_char_one by apply base64url_no_dot, utf8_ok.
Qed.

Lemma signing_input_inj h h' c c' :
  no_char "." h → no_char "." h' → signing_input h c = signing_input h' c' →
  h = h' ∧ base64url (utf8 (stringify c)) = base64url (utf8 (stringify c')).
Proof.
  intros Hh Hh' H%(f_equal (split_char ".")). rewrite !split_signing_input in H by done. by injection H.
Qed.

Lemma split_token h claims sig :
  no_char "." h → bytes_ok sig →
  split_char "." (signing_input h claims +:+ "." +:+ base64url sig)
  = [h; base64url (utf8 (stringify claims)); base64url sig].
Proof.
  intros Hh Hs. unfold signing_input. rewrite !sapp_assoc.
  change (h +:+ "." +:+ ?x) with (h +:+ String "." x). rewrite split_char_app by done.
  change (?p +:+ "." +:+ ?x) with (p +:+ String "." x).
  rewrite split_char_app by apply base64url_no_dot, utf8_ok.
  by rewrite split_char_one by by apply base64url_no_dot.
Qed.

Lemma parse_payload_json j : json_wf j → parse_payload (base64url (utf8 (stringify j))) = Some j.
Proof.
  intros Hj. unfold parse_payload. rewrite base64url_decode by apply utf8_ok. cbn [mbind option_bind].
  rewrite fromUtf8_utf8. cbn [mbind option_bind]. by apply parse_stringify.
Qed.

Lemma claims_json_wf c : json_wf (claims_json c).
Proof.
  unfold claims_json. destruct (dt_jti c); apply json_wf_obj; (split; [|by repeat constructor]);
    apply (bool_decide_unpack _); vm_compute; exact I.
Qed.

Lemma cap_claims_json_wf c : json_wf (cap_claims_json c).
Proof.
  apply json_wf_obj. split; [apply (bool_decide_unpack _); vm_compute; exact I|].
  repeat constructor. cbn [snd]. apply json_wf_arr. apply List.Forall_map. by apply Forall_true.
Qed.

Lemma read_claims_json c : read_claims (claims_json c) = Some (Some c).
Proof. destruct c as [sub did iat exp [jti|]]; reflexivity. Qed.

Lemma isCapability_string c : isCapability (JStr (capability_string c)) = Some c.
Proof. by destruct c. Qed.

Lemma isCapability_all caps : mapM isCapability (map (λ cap, JStr (capability_string cap)) caps) = Some caps.
Proof.
  induction caps as [|cap caps IH]; [done|]. cbn [map mapM]. rewrite isCapability_string. cbn [mbind option_bind].
  by rewrite IH.
Qed.

Lemma parseClaims_json c : parseClaims (base64url (utf8 (stringify (cap_claims_json c)))) = Some c.
Proof.
  unfold parseClaims. rewrite parse_payload_json by apply cap_claims_json_wf.
  cbn [mbind option_bind].
  change (jget "mid" (cap_claims_json c)) with (Some (JStr (cc_mid c))).
  change (jget "sub" (cap_claims_json c)) with (Some (JStr (cc_sub c))).
  change (jget "jti" (cap_claims_json c)) with (Some (JStr (cc_jti c))).
  change (jget "iat" (cap_claims_json c)) with (Some (JNum (cc_iat c))).
  change (jget "exp" (cap_claims_json c)) with (Some (JNum (cc_exp c))).
  change (jget "caps" (cap_claims_json c)) with (Some (JArr (map (λ cap, JStr (capability_string cap)) (cc_caps c)))).
  cbn [json_string json_number mbind option_bind]. rewrite isCapability_all. by destruct c.
Qed.

(** ** Honest keys *)

Section Safety.
Context `{W : WebCrypto}.

(** Everything the key accepts was signed by the control plane: the claims of
    an issued device token, or those of an issued capability token. *)
Definition honest_key (key : CryptoKey) (issued : list DeviceTokenClaims) (granted : list CapabilityClaims) : Prop :=
  ∀ sig data, ed25519_verify key sig data = true →
    (∃ c, c ∈ issued ∧ data = utf8 (signing_input HEADER (claims_json c)))
    ∨ (∃ c, c ∈ granted ∧ data = utf8 (signing_input CAPABILITY_JWS_HEADER (cap_claims_json c))).

Lemma json_inj_payload j j' :
  json_wf j → json_wf j' → base64url (utf8 (stringify j)) = base64url (utf8 (stringify j')) → j = j'.
Proof. intros H H' E. apply (f_equal parse_payload) in E. rewrite !parse_payload_json in E by done. congruence. Qed.

Lemma accepted_payload key header payload sig issued granted :
  no_char "." header → no_char "." payload → honest_key key issued granted →
  signature_valid key header payload sig = true →
  (header = HEADER ∧ ∃ c, c ∈ issued ∧ payload = base64url (utf8 (stringify (claims_json c))))
  ∨ (header = CAPABILITY_JWS_HEADER ∧ ∃ c, c ∈ granted ∧ payload = base64url (utf8 (stringify (cap_claims_json c)))).
Proof.
  intros Hh Hp Hk Hv. unfold signature_valid in Hv. destruct (base64urlDecode sig) as [signature|]; [|done].
  assert (split_char "." (header +:+ "." +:+ payload) = [header; payload]) as Hsplit.
  { change (header +:+ "." +:+ payload) with (header +:+ String "." payload).
    rewrite split_char_app by done. by rewrite split_char_one. }
  destruct (Hk _ _ Hv) as [(c & Hc & He%utf8_inj%(f_equal (split_char ".")))|(c & Hc & He%utf8_inj%(f_equal (split_char ".")))];
    rewrite Hsplit, split_signing_input in He by first [apply HEADER_no_dot|apply CAPABILITY_HEADER_no_dot];
    injection He as -> ->; [left|right]; eauto.
Qed.

Lemma token_parts token a b c :
  split_char "." token = [a; b; c] → no_char "." a ∧ no_char "." b ∧ no_char "." c.
Proof.
  intros H. assert (∀ p, p ∈ [a; b; c] → no_char "." p) as Hp by (rewrite <- H; intros p; apply split_char_no_sep).
  split; [|split]; apply Hp; set_solver.
Qed.

Lemma device_token_issued key token now claims issued granted :
  honest_key key issued granted → verifyDeviceToken key token now = Some (inr claims) →
  claims ∈ issued ∧ now <= dt_exp claims + CLOCK_SKEW_SECONDS.
Proof.
  intros Hk Hv. unfold verifyDeviceToken in Hv.
  destruct (split_char "." token) as [|header [|payload [|sig [|]]]] eqn:Es; try discriminate.
  destruct (token_parts _ _ _ _ Es) as (Hh & Hp & _).
  destruct (String.eqb_spec header HEADER) as [Eh|]; [|discriminate]. cbn [negb] in Hv.
  destruct (signature_valid key header payload sig) eqn:Esig; [|discriminate]. cbn [negb] in Hv.
  destruct (accepted_payload _ _ _ _ _ _ Hh Hp Hk Esig) as [(_ & c & Hc & ->)|(Eh' & _)];
    [|exfalso; apply headers_differ; congruence].
  rewrite parse_payload_json, read_claims_json in Hv by apply claims_json_wf.
  destruct (_ <? now) eqn:Ee; [discriminate|]. bprop. injection Hv as <-. split; [done|lia].
Qed.

Lemma capability_token_granted key token now claims issued granted :
  honest_key key issued granted → verifyCapabilityToken key token now = inr claims →
  claims ∈ granted ∧ now <= cc_exp claims + CLOCK_SKEW_SECONDS.
Proof.
  intros Hk Hv. unfold verifyCapabilityToken in Hv.
  destruct (split_char "." token) as [|header [|payload [|sig [|]]]] eqn:Es; try discriminate.
  destruct (token_parts _ _ _ _ Es) as (Hh & Hp & _).
  destruct (String.eqb_spec header CAPABILITY_JWS_HEADER) as [Eh|]; [|discriminate]. cbn [negb] in Hv.
  destruct (signature_valid key header payload sig) eqn:Esig; [|discriminate]. cbn [negb] in Hv.
  destruct (accepted_payload _ _ _ _ _ _ Hh Hp Hk Esig) as [(Eh' & _)|(_ & c & Hc & ->)];
    [exfalso; apply headers_differ; congruence|].
  rewrite parseClaims_json in Hv. destruct (_ <? now) eqn:Ee; [discriminate|]. bprop.
  injection Hv as <-. split; [done|lia].
Qed.

(** The two families of tokens never cross.  When the verification key
    accepts nothing but what the control plane signed, a token that passes as a
    device token carries the claims of an issued device token that has not
    expired, one that passes as a capability token those of a granted
    capability token, and no text passes as both. *)
Theorem tokens_stay_in_family key token now issued granted :
  honest_key key issued granted →
  (∀ claims, verifyDeviceToken key token now = Some (inr claims) →
     claims ∈ issued ∧ now <= dt_exp claims + CLOCK_SKEW_SECONDS)
  ∧ (∀ claims, verifyCapabilityToken key token now = inr claims →
       claims ∈ granted ∧ now <= cc_exp claims + CLOCK_SKEW_SECONDS)
  ∧ ∀ d c, verifyDeviceToken key token now = Some (inr d) → verifyCapabilityToken key token now ≠ inr c.
Proof.
  intros Hk. split; [by intros; eapply device_token_issued|]. split; [by intros; eapply capability_token_granted|].
  intros d c Hd Hc. unfold verifyDeviceToken, verifyCapabilityToken in *.
  destruct (split_char "." token) as [|header [|payload [|sig [|]]]]; try discriminate.
  destruct (String.eqb_spec header HEADER) as [->|]; [|discriminate].
  destruct (String.eqb_spec HEADER CAPABILITY_JWS_HEADER) as [E|]; [by apply headers_differ|discriminate].
Qed.

(** A freshly signed token is accepted with exactly its claims until thirty
    seconds past its expiry and reported as expired afterwards, for device
    tokens and for capability tokens. *)
Theorem signed_token_verifies `{!WebCryptoLaws W} key now (d : DeviceTokenClaims) (c : CapabilityClaims) :
  verifyDeviceToken (ed25519_public key) (signDeviceToken key d) now
  = Some (if dt_exp d + CLOCK_SKEW_SECONDS <? now then inl expired else inr d)
  ∧ verifyCapabilityToken (ed25519_public key) (signCapabilityToken key c) now
    = (if cc_exp c + CLOCK_SKEW_SECONDS <? now then inl expired else inr c).
Proof.
  assert (∀ header claims,
    let sig := ed25519_sign key (utf8 (signing_input header claims)) in
    signature_valid (ed25519_public key) header (base64url (utf8 (stringify claims))) (base64url sig) = true) as Hsig.
  { intros header claims sig. unfold signature_valid. rewrite base64url_decode by apply ed25519_sign_ok.
    apply ed25519_verify_sign. }
  unfold signDeviceToken, signCapabilityToken, verifyDeviceToken, verifyCapabilityToken. cbv zeta. split.
  - rewrite split_token by first [apply HEADER_no_dot|apply ed25519_sign_ok].
    rewrite String.eqb_refl, Hsig. cbn [negb].
    rewrite parse_payload_json, read_claims_json by apply claims_json_wf. by destruct (_ <? now).
  - rewrite split_token by first [apply CAPABILITY_HEADER_no_dot|apply ed25519_sign_ok].
    rewrite String.eqb_refl, Hsig. cbn [negb]. by rewrite parseClaims_json.
Qed.

(** ** The edge *)

Context (importTokenVerifyKey : bytes → option CryptoKey) (CONTROL_PUBLIC_KEY ADMIN_TOKEN : option string).

Lemma authenticate_signed authorization now identity publicKey :
  public_key CONTROL_PUBLIC_KEY = Some publicKey →
  authenticate importTokenVerifyKey CONTROL_PUBLIC_KEY authorization now = inr identity →
  ∃ key token claims, controlVerifyKey importTokenVerifyKey publicKey = Some key
    ∧ verifyDeviceToken key token now = Some (inr claims)
    ∧ identity = mkIdentity (dt_sub claims) (Some (dt_did claims)).
Proof.
  intros Hpk Ha. unfold authenticate in Ha. rewrite Hpk in Ha.
  destruct (bearerToken authorization) as [token|]; [|discriminate].
  destruct (isDeviceJws token); [|discriminate].
  destruct (controlVerifyKey _ _) as [key|] eqn:Ek; [|discriminate].
  destruct (verifyDeviceToken key token now) as [[?|claims]|] eqn:Ev; try discriminate.
  injection Ha as <-. eauto 6.
Qed.

Lemma authenticate_stub authorization now identity :
  public_key CONTROL_PUBLIC_KEY = None →
  authenticate importTokenVerifyKey CONTROL_PUBLIC_KEY authorization now = inr identity →
  ei_deviceId identity = None.
Proof.
  intros Hpk Ha. unfold authenticate in Ha. rewrite Hpk in Ha.
  destruct (bearerToken authorization) as [token|]; [|discriminate].
  destruct (isDeviceJws token); [discriminate|].
  destruct (dev_token_user token); [|discriminate]. by injection Ha as <-.
Qed.

Lemma edge_fetch_forward now r user r' :
  edge_fetch importTokenVerifyKey CONTROL_PUBLIC_KEY ADMIN_TOKEN now r = Forward user r' →
  ∃ identity, authenticate importTokenVerifyKey CONTROL_PUBLIC_KEY (edge_authorization r) now = inr identity
    ∧ user = ei_userId identity ∧ r' = forwarded identity r
    ∧ authenticatedRoute (er_path r) = true ∧ method_allowed r = true.
Proof.
  unfold edge_fetch. destruct (String.eqb _ "/healthz"); [discriminate|].
  destruct (authenticatedRoute _) eqn:Er.
  - destruct (authenticate _ _ _ _) as [?|identity]; [discriminate|].
    destruct (method_allowed r) eqn:Em; cbn [negb]; [|discriminate].
    intros [= <- <-]. eauto 6.
  - destruct (String.eqb _ ADMIN_REVOKE_PATH); [|discriminate].
    destruct (negb _); [discriminate|]. destruct (negb _); [discriminate|].
    by destruct (parse_revoke _) as [[]|].
Qed.

(** C21: once the control key is configured, the session plane hands a request
    to the hub of an account only on an issued, unexpired device token of that
    account; the hub is told the device of that token, whatever device header
    the client sent, and never sees the credential.  Without a control key no
    device is ever asserted.  A revocation gets through only with the exact
    administrator secret, which is not empty. *)
Theorem edge_serves_token_holders now r :
  (∀ user r', edge_fetch importTokenVerifyKey CONTROL_PUBLIC_KEY ADMIN_TOKEN now r = Forward user r' →
     er_access_token r' = None ∧ map_get "authorization" (er_headers r') = None
     ∧ er_method r' = er_method r ∧ er_path r' = er_path r ∧ er_body r' = er_body r
     ∧ match public_key CONTROL_PUBLIC_KEY with
       | None => map_get DEVICE_HEADER (er_headers r') = None
       | Some publicKey => ∃ key, controlVerifyKey importTokenVerifyKey publicKey = Some key
           ∧ ∀ issued granted, honest_key key issued granted →
               ∃ claims, claims ∈ issued ∧ user = dt_sub claims ∧ now <= dt_exp claims + CLOCK_SKEW_SECONDS
                 ∧ map_get DEVICE_HEADER (er_headers r') = Some (dt_did claims)
       end)
  ∧ ∀ user device, edge_fetch importTokenVerifyKey CONTROL_PUBLIC_KEY ADMIN_TOKEN now r = ForwardRevoke user device →
      ∃ secret, ADMIN_TOKEN = Some secret ∧ secret ≠ ""
        ∧ bearerToken (map_get "authorization" (er_headers r)) = Some secret
        ∧ parse_revoke (er_body r) = Some (user, device).
Proof.
  split.
  - intros user r' H. apply edge_fetch_forward in H as (identity & Ha & -> & -> & _ & _).
    split; [done|]. split.
    { unfold forwarded. cbn [er_headers]. destruct (ei_deviceId identity);
        rewrite ?map_get_set_ne, map_get_delete_ne, map_get_delete_eq by done; done. }
    do 3 (split; [done|]). destruct (public_key CONTROL_PUBLIC_KEY) as [publicKey|] eqn:Epk.
    + destruct (authenticate_signed _ _ _ _ Epk Ha) as (key & token & claims & Hk & Hv & ->).
      exists key. split; [done|]. intros issued granted Hh.
      destruct (device_token_issued _ _ _ _ _ _ Hh Hv) as [Hi Hn]. exists claims.
      do 3 (split; [done|]). unfold forwarded. cbn [er_headers ei_deviceId]. by rewrite map_get_set_eq.
    + pose proof (authenticate_stub _ _ _ Epk Ha) as Hd. unfold forwarded. rewrite Hd. cbn [er_headers].
      apply map_get_delete_eq.
  - intros user device. unfold edge_fetch. destruct (String.eqb _ "/healthz"); [discriminate|].
    destruct (authenticatedRoute _).
    { destruct (authenticate _ _ _ _); [discriminate|]. by destruct (negb _). }
    destruct (String.eqb _ ADMIN_REVOKE_PATH); [|discriminate]. destruct (negb _); [discriminate|].
    destruct (admin_allowed ADMIN_TOKEN r) eqn:Ea; [|discriminate]. cbn [negb].
    destruct (parse_revoke _) as [[u d]|]; [|discriminate]. intros [= -> ->].
    unfold admin_allowed in Ea. destruct ADMIN_TOKEN as [secret|]; [|discriminate].
    destruct (bearerToken _) as [presented|]; [|discriminate]. apply andb_prop in Ea as [E1 E2].
    apply bytesEqual_iff, utf8_inj in E2 as ->. apply negb_true_iff, String.eqb_neq in E1. eauto.
Qed.
End Safety.

(** ** An issued token at the edge *)

Module TokenDemo.
Definition claims : DeviceTokenClaims := mkClaims "u1" "d1" 1000 1600 (Some "j1").
Definition grant : CapabilityClaims := mkCapClaims "m1" "u1" [pty_spawn; pty_io] 1000 1300 "j2".

(** A signature scheme that accepts the two texts that were signed, and nothing else. *)
Definition signed : list bytes :=
  [utf8 (signing_input HEADER (claims_json claims)); utf8 (signing_input CAPABILITY_JWS_HEADER (cap_claims_json grant))].
Definition IdealCrypto : WebCrypto := {|
  CryptoKey := bytes;
  hmac_sign := @hmac_sign ToyCrypto; aes_gcm_encrypt := @aes_gcm_encrypt ToyCrypto;
  aes_gcm_decrypt := @aes_gcm_decrypt ToyCrypto;
  ed25519_sign k data := k;
  ed25519_verify k sig data := bytesEqual sig k && existsb (bytesEqual data) signed;
  hkdf_aes := @hkdf_aes ToyCrypto; hkdf_hmac := @hkdf_hmac ToyCrypto; pbkdf2_aes := @pbkdf2_aes ToyCrypto;
  ed25519_public k := k
|}.
Definition control : bytes := [7; 7; 7].
Definition token : string := @signDeviceToken IdealCrypto control claims.
Definition request : EdgeRequest :=
  mkEdge "GET" WS_PATH None [("authorization", "Bearer " +:+ token); (DEVICE_HEADER, "forged")] "".
Definition fetch : EdgeOutcome :=
  @edge_fetch IdealCrypto (λ raw, Some raw) (Some (toBase64 control)) None 1200 request.

Lemma honest : @honest_key IdealCrypto control [claims] [grant].
Proof.
  intros sig data. cbn [ed25519_verify IdealCrypto]. intros [_ H]%andb_prop.
  apply existsb_exists in H as (x & Hx & ->%bytesEqual_iff).
  destruct Hx as [<-|[<-|[]]]; [left; exists claims|right; exists grant]; (split; [by left|done]).
Qed.
End TokenDemo.

Lemma tokens_stay_in_family_witness :
  @verifyDeviceToken TokenDemo.IdealCrypto TokenDemo.control TokenDemo.token 1200 = Some (inr TokenDemo.claims)
  ∧ TokenDemo.claims ∈ [TokenDemo.claims].
Proof.
  assert (@verifyDeviceToken TokenDemo.IdealCrypto TokenDemo.control TokenDemo.token 1200
    = Some (inr TokenDemo.claims)) as Hv by (vm_compute; reflexivity).
  split; [exact Hv|].
  exact (proj1 (proj1 (tokens_stay_in_family (W := TokenDemo.IdealCrypto) TokenDemo.control TokenDemo.token 1200
    [TokenDemo.claims] [TokenDemo.grant] TokenDemo.honest) _ Hv)).
Defined.

Lemma signed_token_verifies_witness :
  verifyDeviceToken (W := ToyCrypto) [1] (signDeviceToken (W := ToyCrypto) [1] TokenDemo.claims) 1630
  = Some (inr TokenDemo.claims)
  ∧ verifyDeviceToken (W := ToyCrypto) [1] (signDeviceToken (W := ToyCrypto) [1] TokenDemo.claims) 1631
    = Some (inl expired).
Proof.
  split.
  - exact (proj1 (signed_token_verifies (W := ToyCrypto) [1] 1630 TokenDemo.claims TokenDemo.grant)).
  - exact (proj1 (signed_token_verifies (W := ToyCrypto) [1] 1631 TokenDemo.claims TokenDemo.grant)).
Defined.

(** The edge forwards the request with the device of the token, not the forged one. *)
Example edge_binds_device :
  match TokenDemo.fetch with
  | Forward user r => user = "u1" ∧ map_get DEVICE_HEADER (er_headers r) = Some "d1"
  | _ => False
  end.
Proof. vm_compute. split; reflexivity. Qed.

Lemma edge_serves_token_holders_witness :
  ∃ user r, TokenDemo.fetch = Forward user r ∧ user = "u1"
    ∧ map_get "authorization" (er_headers r) = None.
Proof.
  assert (∃ user r, TokenDemo.fetch = Forward user r ∧ user = "u1") as (user & r & Hf & Hu)
    by (do 2 eexists; split; [vm_compute; reflexivity|reflexivity]).
  exists user, r. split; [exact Hf|]. split; [exact Hu|].
  exact (proj1 (proj2 (proj1 (edge_serves_token_holders (W := TokenDemo.IdealCrypto) (λ raw, Some raw)
    (Some (toBase64 TokenDemo.control)) None 1200 TokenDemo.request) user r Hf))).
Defined.

(** ** Channel names *)

Definition channel_name (c : AgentChannel) : string :=
  match c with
  | ch_ctl => "ctl" | ch_vfs => "vfs" | ch_log => "log"
  | ch_pty id => "pty/" +:+ id
  | ch_fwd port None => "fwd/" +:+ toString10 port
  | ch_fwd port (Some id) => "fwd/" +:+ toString10 port +:+ "/" +:+ id
  end.

Definition channel_ok (c : AgentChannel) : Prop :=
  match c with
  | ch_pty id => id ≠ ""
  | ch_fwd port streamId => 1 <= port <= 65535 ∧ streamId ≠ Some ""
  | _ => True
  end.

Lemma dec_text n : 0 <= n → toString10 n ≠ "" ∧ forallb is_dec_digit (chars (toString10 n)) = true.
Proof.
  intros Hn. unfold toString10. rewrite (proj2 (Z.ltb_ge n 0)) by done.
  destruct (dec_digits_run n Hn) as (_ & d & s & E & _). split; [by rewrite E|]. clear E.
  generalize (S (Z.to_nat (Z.log2 n))) as fuel. intros fuel.
  assert (∀ acc, forallb is_dec_digit (chars (dec_digits fuel n acc)) = forallb is_dec_digit (chars acc)) as ->; [|done].
  revert n Hn. induction fuel as [|fuel IH]; intros n Hn acc; [done|]. cbn [dec_digits].
  pose proof (Z.mod_pos_bound n 10 ltac:(lia)) as Hm.
  assert (forallb is_dec_digit (chars (String (chr (48 + n mod 10)) acc)) = forallb is_dec_digit (chars acc)) as H
    by (cbn [chars forallb]; unfold is_dec_digit at 1; by rewrite dec_value_chr).
  destruct (n <? 10); [exact H|]. by rewrite IH by (apply Z.div_pos; lia).
Qed.

Lemma dec_no_slash s : forallb is_dec_digit (chars s) = true → all_chars (λ c, c ≠ "/"%char) s.
Proof. rewrite forallb_forall. intros H. apply List.Forall_forall. intros c Hc ->. specialize (H _ Hc). done. Qed.

(** The name of every channel of the mux is read back as that channel, and
    whatever name is read as a channel gives a terminal a non-empty identifier
    and a forward a port between 1 and 65535. *)
Theorem parseChannel_names c name :
  (channel_ok c → parseChannel (channel_name c) = Some c)
  ∧ (parseChannel name = Some c → channel_ok c).
Proof.
  split.
  - assert (∀ n, 0 <= n → indexOf_char "/" (toString10 n) = None) as Hn.
    { intros n H. apply indexOf_char_none. by apply dec_no_slash, dec_text. }
    destruct c as [| | |id|port [id|]]; cbn [channel_ok channel_name]; try reflexivity.
    + intros Hid. destruct id; [done|]. reflexivity.
    + intros [Hp Hid]. destruct (dec_text port ltac:(lia)) as [Hne Hd].
      unfold parseChannel. cbn -[toString10 parseInt10].
      rewrite (indexOf_char_app "/" (toString10 port) id) by (by apply dec_no_slash).
      rewrite slice_to_app. rewrite Hd, (proj2 (String.eqb_neq _ _) Hne). cbn [negb andb].
      rewrite parseInt10_toString10 by lia.
      rewrite (proj2 (Z.ltb_ge port 1)) by lia. rewrite Z.gtb_ltb, (proj2 (Z.ltb_ge 65535 port)) by lia. cbn [orb].
      change (String "/" id) with ("/" +:+ id). rewrite <- sapp_assoc.
      replace (String.length (toString10 port) + 1)%nat with (String.length (toString10 port +:+ "/"))
        by (rewrite slength_app; done).
      rewrite slice_from_app. destruct id; [done|]. reflexivity.
    + intros [Hp _]. destruct (dec_text port ltac:(lia)) as [Hne Hd].
      unfold parseChannel. cbn -[toString10 parseInt10]. rewrite Hn by lia.
      rewrite Hd, (proj2 (String.eqb_neq _ _) Hne). cbn [negb andb].
      rewrite parseInt10_toString10 by lia.
      rewrite (proj2 (Z.ltb_ge port 1)) by lia. by rewrite Z.gtb_ltb, (proj2 (Z.ltb_ge 65535 port)) by lia.
  - unfold parseChannel. do 3 (case_match; [by intros [= <-]|]).
    destruct (indexOf_char "/" name) as [slash|]; [|done].
    destruct (String.eqb (slice_to slash name) "pty").
    { destruct (0 <? _)%nat eqn:El; [|done]. intros [= <-]. cbn. intros E. rewrite E in El. done. }
    destruct (String.eqb (slice_to slash name) "fwd"); [|done].
    destruct (match indexOf_char "/" _ with Some _ => _ | None => _ end) as [portPart streamId].
    destruct (negb _); [done|]. destruct (parseInt10 portPart) as [port|]; [|done].
    destruct ((port <? 1) || (port >? 65535)) eqn:Ep; [done|]. bprop.
    intros Hc1. assert (c = ch_fwd port streamId ∧ streamId ≠ Some "") as [-> Hs].
    { by destruct streamId as [[|]|]; simplify_eq. }
    cbn. split; [lia|done].
Qed.
