(* ===== verification/WebAuthn.v ===== *)
(** * Passkeys and one-time challenges (services/control/src/webauthn.ts)

    A reader of a subset of CBOR, the layout of authenticator data, COSE keys
    and DER signatures, and the two verifications the control plane makes of
    a passkey: registration and login.  Importing keys, verifying signatures
    and SHA-256 are WebCrypto, parameters here.

    A CBOR text is kept as its UTF-8 bytes without a leading byte order mark,
    which is what [TextDecoder] drops; reading text never throws. *)

From S2P Require Export Tokens.
From Stdlib Require Import Ascii.

(** ** Challenges *)

Definition CHALLENGE_TTL_MS : Z := 5 * 60 * 1000.

Record Challenge := mkChallenge { ch_challenge : string; ch_expiresAt : Z }.
Definition ChallengeStore : Type := jsmap string Challenge.

Definition toBase64Url : bytes → string := base64url.
Definition fromBase64Url : string → option bytes := base64urlDecode.

Definition sweep (nowMs : Z) (entries : ChallengeStore) : ChallengeStore :=
  List.filter (λ '(_, entry), negb (ch_expiresAt entry <? nowMs)) entries.

(** [random]: the bytes drawn. *)
Definition issue (key : string) (nowMs : Z) (random : bytes) (entries : ChallengeStore)
    : string * ChallengeStore :=
  let challenge := toBase64Url random in
  (challenge, map_set key (mkChallenge challenge (nowMs + CHALLENGE_TTL_MS)) (sweep nowMs entries)).

Definition take_challenge (key : string) (nowMs : Z) (entries : ChallengeStore)
    : option string * ChallengeStore :=
  (match map_get key entries with
   | None => None
   | Some entry => if ch_expiresAt entry <? nowMs then None else Some (ch_challenge entry)
   end, map_delete key entries).

(** ** CBOR *)

Inductive CborKey := KNum (n : Z) | KText (s : bytes).

#[export] Instance CborKey_eq_dec : EqDecision CborKey.
Proof. solve_decision. Defined.

Inductive CborValue :=
| CNum (n : Z) | CText (s : bytes) | CBytes (b : bytes)
| CArr (l : list CborValue) | CMap (m : list (CborKey * CborValue)).

(** Reading from what is left of the input. *)
Inductive Read (A : Type) := Done (a : A) (rest : bytes) | Throw | OutOfFuel.
Arguments Done {A}. Arguments Throw {A}. Arguments OutOfFuel {A}.

Definition Reader (A : Type) : Type := bytes → Read A.
#[export] Instance reader_ret : MRet Reader := λ A a bs, Done a bs.
#[export] Instance reader_bind : MBind Reader := λ A B f r bs,
  match r bs with Done a rest => f a rest | Throw => Throw | OutOfFuel => OutOfFuel end.
Definition reader_throw {A} : Reader A := λ _, Throw.

Definition next : Reader Z := λ bs,
  match bs with [] => Throw | b :: rest => Done b rest end.

Definition take_bytes (n : Z) : Reader bytes := λ bs,
  if Z.of_nat (length bs) <? n then Throw
  else Done (take (Z.to_nat n) bs) (drop (Z.to_nat n) bs).

Definition cbor_length (info : Z) : Reader Z :=
  if info <? 24 then mret info
  else if info =? 24 then next
  else if info =? 25 then
    b1 ← next; b2 ← next; mret (Z.lor (Z.shiftl b1 8) b2)
  else if info =? 26 then
    b1 ← next; b2 ← next; b3 ← next; b4 ← next;
    mret (b1 * 0x1000000 + Z.lor (Z.lor (Z.shiftl b2 16) (Z.shiftl b3 8)) b4)
  else reader_throw.

Definition decode_text (bs : bytes) : bytes :=
  match bs with 239 :: 187 :: 191 :: rest => rest | _ => bs end.

Definition as_key (v : CborValue) : option CborKey :=
  match v with CNum n => Some (KNum n) | CText s => Some (KText s) | _ => None end.

(** The loops over the items of an array and the entries of a map; [fuel]
    bounds their turns. *)
Fixpoint read_items (read : Reader CborValue) (fuel : nat) (n : Z) (out : list CborValue)
    : Reader (list CborValue) :=
  if n <=? 0 then mret out
  else match fuel with
       | O => λ _, OutOfFuel
       | S fuel => v ← read; read_items read fuel (n - 1) (out ++ [v])
       end.

Fixpoint read_entries (read : Reader CborValue) (fuel : nat) (n : Z)
    (m : list (CborKey * CborValue)) : Reader (list (CborKey * CborValue)) :=
  if n <=? 0 then mret m
  else match fuel with
       | O => λ _, OutOfFuel
       | S fuel =>
           key ← read;
           match as_key key with
           | None => reader_throw
           | Some k => v ← read; read_entries read fuel (n - 1) (map_set k v m)
           end
       end.

Fixpoint cbor_read (fuel : nat) : Reader CborValue :=
  match fuel with
  | O => λ _, OutOfFuel
  | S fuel =>
      initial ← next;
      let major := Z.shiftr initial 5 in
      let info := Z.land initial 0x1f in
      match major with
      | 0 => n ← cbor_length info; mret (CNum n)
      | 1 => n ← cbor_length info; mret (CNum (-1 - n))
      | 2 => n ← cbor_length info; b ← take_bytes n; mret (CBytes b)
      | 3 => n ← cbor_length info; b ← take_bytes n; mret (CText (decode_text b))
      | 4 => n ← cbor_length info; l ← read_items (cbor_read fuel) fuel n []; mret (CArr l)
      | 5 => n ← cbor_length info; m ← read_entries (cbor_read fuel) fuel n []; mret (CMap m)
      | _ => reader_throw
      end
  end.

(** [new CborReader(bytes).read()] with the number of bytes it consumed. *)
Definition CborReader_read (bs : bytes) : option (CborValue * nat) :=
  match cbor_read (S (length bs)) bs with
  | Done v rest => Some (v, (length bs - length rest)%nat)
  | _ => None
  end.

(** ** Authenticator data *)

Definition FLAG_UP : Z := 0x01.
Definition FLAG_AT : Z := 0x40.

Record ParsedAuthData := mkAuthData {
  ad_rpIdHash : bytes; ad_flags : Z; ad_signCount : Z;
  ad_credentialId : option bytes; ad_cosePublicKey : option bytes
}.

Definition getUint (bs : bytes) : Z := fold_left (λ acc b, acc * 256 + b) bs 0.
Definition subarray (start stop : nat) (bs : bytes) : bytes := take (stop - start) (drop start bs).

Definition parseAuthData (bs : bytes) : option ParsedAuthData :=
  if (length bs <? 37)%nat then None
  else
    let flags := default 0 (bs !! 32%nat) in
    let signCount := getUint (subarray 33 37 bs) in
    let result := mkAuthData (subarray 0 32 bs) flags signCount in
    if Z.land flags FLAG_AT =? 0 then Some (result None None)
    else if (length bs <? 55)%nat then None
    else
      let credentialIdEnd := (55 + Z.to_nat (getUint (subarray 53 55 bs)))%nat in
      if (length bs <? credentialIdEnd)%nat then None
      else
        '(_, offset) ← CborReader_read (drop credentialIdEnd bs);
        Some (result (Some (subarray 55 credentialIdEnd bs))
                     (Some (subarray credentialIdEnd (credentialIdEnd + offset) bs))).

(** ** COSE keys and signatures *)

Definition COSE_KTY : Z := 1.
Definition COSE_ALG : Z := 3.
Definition COSE_CRV : Z := -1.
Definition COSE_X : Z := -2.
Definition COSE_Y : Z := -3.
Definition COSE_ALG_ES256 : Z := -7.
Definition COSE_ALG_EDDSA : Z := -8.

Class WebAuthnCrypto `{W : WebCrypto} := {
  import_p256 : bytes → option CryptoKey;
  import_ed25519 : bytes → option CryptoKey;
  ecdsa_p256_verify : CryptoKey → ∀ signature data : bytes, bool;
  sha256_digest : bytes → bytes
}.

(** The loop that drops leading zeroes but the last byte. *)
Fixpoint strip_zeros (bs : bytes) : bytes :=
  match bs with
  | b :: rest => match rest with
                 | _ :: _ => if b =? 0 then strip_zeros rest else bs
                 | [] => bs
                 end
  | [] => bs
  end.

Definition der_int (der : bytes) (offset : nat) : option (bytes * nat) :=
  match der !! offset, der !! (offset + 1)%nat with
  | Some 2, Some len =>
      let start := (offset + 2)%nat in
      let offset := (start + Z.to_nat len)%nat in
      if (length der <? offset)%nat then None
      else
        let bs := strip_zeros (subarray start (start + Z.to_nat len) der) in
        if (32 <? length bs)%nat then None
        else Some (repeat 0 (32 - length bs) ++ bs, offset)
  | _, _ => None
  end.

Definition ecdsaDerToRaw (der : bytes) : option bytes :=
  match der with
  | 0x30 :: second :: _ =>
      if (length der <? 8)%nat then None
      else
        let offset := if Z.land second 0x80 =? 0 then 2%nat else 3%nat in
        '(r, offset) ← der_int der offset; '(s, _) ← der_int der offset;
        Some (r ++ s)
  | _ => None
  end.

(** ** What the two ceremonies exchange *)

Record RpConfig := mkRp { rp_id : string; rp_origin : string; rp_name : string }.

Definition rpConfigFromEnv (env : jsmap string string) : RpConfig :=
  mkRp (default "localhost" (map_get "RP_ID" env)) (default "http://localhost" (map_get "RP_ORIGIN" env)) "Suma".

Inductive WebAuthnFailure :=
| bad_client_data | wrong_type | challenge_mismatch | origin_mismatch
| malformed_attestation | rp_id_mismatch | no_credential | credential_id_mismatch | unsupported_algorithm
| malformed_assertion | user_not_present | sign_count_regression | wa_bad_signature.

Definition checkClientData (clientDataJsonB64u expectedType expectedChallenge expectedOrigin : string)
    : WebAuthnFailure + bytes :=
  match bytes ← fromBase64Url clientDataJsonB64u; parsed ← fromUtf8 bytes ≫= parse; Some (bytes, parsed) with
  | None => inl bad_client_data
  | Some (bytes, data) =>
      match data with
      | JObj _ | JArr _ =>
          if negb (bool_decide (json_string (jget "type" data) = Some expectedType)) then inl wrong_type
          else if negb (bool_decide (json_string (jget "challenge" data) = Some expectedChallenge))
          then inl challenge_mismatch
          else if negb (bool_decide (json_string (jget "origin" data) = Some expectedOrigin))
          then inl origin_mismatch
          else inr bytes
      | _ => inl bad_client_data
      end
  end.

Record RegistrationCredential := mkRegistration {
  rc_id : string; rc_clientDataJSON : string; rc_attestationObject : string; rc_prf_enabled : option bool
}.
Record AssertionCredential := mkAssertion {
  ac_id : string; ac_clientDataJSON : string; ac_authenticatorData : string; ac_signature : string
}.
Record RegisteredCredential := mkRegistered {
  rg_credentialId : string; rg_publicKeyCose : string; rg_signCount : Z; rg_prfCapable : bool
}.

Definition public_key_json (fields : list (string * json)) : json :=
  JObj (("type", JStr "public-key") :: fields).

Definition beginRegistration (id email : string) (displayName : option string) (rp : RpConfig)
    (challenge : string) : json :=
  JObj [("challenge", JStr challenge);
        ("rp", JObj [("id", JStr (rp_id rp)); ("name", JStr (rp_name rp))]);
        ("user", JObj [("id", JStr (toBase64Url (utf8 id))); ("name", JStr email);
                       ("displayName", JStr (default email displayName))]);
        ("pubKeyCredParams", JArr [public_key_json [("alg", JNum COSE_ALG_ES256)];
                                   public_key_json [("alg", JNum COSE_ALG_EDDSA)]]);
        ("timeout", JNum CHALLENGE_TTL_MS);
        ("attestation", JStr "none");
        ("authenticatorSelection", JObj [("residentKey", JStr "preferred"); ("userVerification", JStr "preferred")]);
        ("extensions", JObj [("prf", JObj [])])].

Definition beginLogin (credentialIds : list string) (rp : RpConfig) (challenge : string) : json :=
  JObj [("challenge", JStr challenge); ("rpId", JStr (rp_id rp));
        ("allowCredentials", JArr (map (λ id, public_key_json [("id", JStr id)]) credentialIds));
        ("userVerification", JStr "preferred"); ("timeout", JNum CHALLENGE_TTL_MS)].

Section WebAuthn.
Context `{C : WebAuthnCrypto}.

Record CredentialKey := mkCredentialKey { ck_alg : Z; ck_key : CryptoKey }.

Definition is_num (v : option CborValue) (n : Z) : bool :=
  match v with Some (CNum m) => m =? n | _ => false end.
Definition cbor_bytes (v : option CborValue) : option bytes :=
  match v with Some (CBytes b) => Some b | _ => None end.

Definition importCoseKey (coseBytes : bytes) : option CredentialKey :=
  match CborReader_read coseBytes with
  | Some (CMap m, _) =>
      let field k := map_get (KNum k) m in
      let kty := field COSE_KTY in let alg := field COSE_ALG in
      let crv := field COSE_CRV in let x := cbor_bytes (field COSE_X) in
      if is_num alg COSE_ALG_ES256 then
        let y := cbor_bytes (field COSE_Y) in
        match is_num kty 2 && is_num crv 1, x, y with
        | true, Some x, Some y =>
            mkCredentialKey COSE_ALG_ES256 <$> import_p256 (concatBytes [[0x04]; x; y])
        | _, _, _ => None
        end
      else if is_num alg COSE_ALG_EDDSA then
        match is_num kty 1 && is_num crv 6, x with
        | true, Some x => mkCredentialKey COSE_ALG_EDDSA <$> import_ed25519 x
        | _, _ => None
        end
      else None
  | _ => None
  end.

(** [None]: the call throws. *)
Definition verifyCredentialSignature (credentialKey : CredentialKey) (signature signedBytes : bytes)
    : option bool :=
  if ck_alg credentialKey =? COSE_ALG_ES256 then
    raw ← ecdsaDerToRaw signature; Some (ecdsa_p256_verify (ck_key credentialKey) raw signedBytes)
  else Some (ed25519_verify (ck_key credentialKey) signature signedBytes).

Definition attested_value (attestation : CborValue) : option ParsedAuthData :=
  match attestation with
  | CMap m => authDataBytes ← cbor_bytes (map_get (KText (utf8 "authData")) m); parseAuthData authDataBytes
  | _ => None
  end.

Definition attested (attestationObject : string) : option ParsedAuthData :=
  bytes ← fromBase64Url attestationObject; '(attestation, _) ← CborReader_read bytes; attested_value attestation.

Definition finishRegistration (rp : RpConfig) (expectedChallenge : string)
    (credential : RegistrationCredential) : WebAuthnFailure + RegisteredCredential :=
  match checkClientData (rc_clientDataJSON credential) "webauthn.create" expectedChallenge (rp_origin rp) with
  | inl reason => inl reason
  | inr _ =>
      match attested (rc_attestationObject credential) with
      | None => inl malformed_attestation
      | Some authData =>
          if negb (bytesEqual (ad_rpIdHash authData) (sha256_digest (utf8 (rp_id rp)))) then inl rp_id_mismatch
          else
            match ad_credentialId authData, ad_cosePublicKey authData with
            | Some id, Some cose =>
                let credentialId := toBase64Url id in
                if negb (String.eqb credentialId (rc_id credential)) then inl credential_id_mismatch
                else
                  match importCoseKey cose with
                  | None => inl unsupported_algorithm
                  | Some _ =>
                      inr (mkRegistered credentialId (toBase64 cose) (ad_signCount authData)
                             (bool_decide (rc_prf_enabled credential = Some true)))
                  end
            | _, _ => inl no_credential
            end
      end
  end.

Definition parse_assertion (credential : AssertionCredential) : option (bytes * ParsedAuthData * bytes) :=
  authDataBytes ← fromBase64Url (ac_authenticatorData credential);
  authData ← parseAuthData authDataBytes;
  signature ← fromBase64Url (ac_signature credential);
  Some (authDataBytes, authData, signature).

(** [publicKey] and [signCount] of the stored passkey; the result is the new
    counter. *)
Definition finishLogin (rp : RpConfig) (expectedChallenge : string) (publicKey : string) (signCount : Z)
    (credential : AssertionCredential) : WebAuthnFailure + Z :=
  match checkClientData (ac_clientDataJSON credential) "webauthn.get" expectedChallenge (rp_origin rp) with
  | inl reason => inl reason
  | inr clientDataJson =>
      match parse_assertion credential with
      | None => inl malformed_assertion
      | Some (authDataBytes, authData, signature) =>
          if negb (bytesEqual (ad_rpIdHash authData) (sha256_digest (utf8 (rp_id rp)))) then inl rp_id_mismatch
          else if Z.land (ad_flags authData) FLAG_UP =? 0 then inl user_not_present
          else if (negb (signCount =? 0) || negb (ad_signCount authData =? 0))
                  && (ad_signCount authData <=? signCount)
          then inl sign_count_regression
          else
            match fromBase64 publicKey ≫= importCoseKey with
            | None => inl unsupported_algorithm
            | Some credentialKey =>
                let signedBytes := concatBytes [authDataBytes; sha256_digest clientDataJson] in
                if default false (verifyCredentialSignature credentialKey signature signedBytes)
                then inr (ad_signCount authData)
                else inl wa_bad_signature
            end
      end
  end.
End WebAuthn.
