(* ===== verification/CborProps.v ===== *)
(** * The CBOR reader stops and reads back what an encoder writes
    (services/control/src/webauthn.ts, CborReader)

    A reader that succeeds has consumed a prefix of its input and does not
    depend on what follows it; the reader of one item needs no more fuel than
    the input is long, and it inverts the encoder below. *)

From S2P Require Export WebAuthn.

(** ** Readers *)

(** On fewer than [bound] bytes, [r] does not run out of fuel, and when it
    succeeds it has consumed at least [least] bytes, whatever follows them. *)
Definition reads_ok {A} (least bound : nat) (r : Reader A) : Prop :=
  ∀ bs, (length bs < bound)%nat →
    match r bs with
    | Done a rest => ∃ used, bs = used ++ rest ∧ (least <= length used)%nat
                             ∧ ∀ rest', r (used ++ rest') = Done a rest'
    | Throw => True
    | OutOfFuel => False
    end.

(** [r'] answers as [r] wherever [r] has enough fuel. *)
Definition refines {A} (r r' : Reader A) : Prop := ∀ bs, r bs ≠ OutOfFuel → r' bs = r bs.

Create HintDb cbor discriminated.

Section Readers.
Local Open Scope nat_scope.
Context {A B : Type}.
Implicit Types (r : Reader A) (f : A → Reader B).

Lemma reads_bind a b n r f :
  reads_ok a n r → (∀ x, reads_ok b (n - a) (f x)) → reads_ok (a + b) n (r ≫= f).
Proof.
  intros Hr Hf bs Hbs. specialize (Hr bs Hbs). unfold mbind, reader_bind.
  destruct (r bs) as [x mid| |] eqn:Er; [|done|done]. destruct Hr as (u & -> & Hu & Hloc).
  rewrite length_app in Hbs. specialize (Hf x mid ltac:(lia)).
  destruct (f x mid) as [y rest| |] eqn:Ef; [|done|done]. destruct Hf as (v & -> & Hv & Hloc').
  exists (u ++ v). rewrite app_assoc, length_app. split; [done|]. split; [lia|].
  intros rest'. by rewrite <- app_assoc, Hloc.
Qed.

Lemma reads_weaken a n a' n' r : reads_ok a n r → a' <= a → n' <= n → reads_ok a' n' r.
Proof.
  intros Hr Ha Hn bs Hbs. specialize (Hr bs ltac:(lia)). destruct (r bs); [|done|done].
  destruct Hr as (u & ? & ? & ?). exists u. split; [done|]. split; [lia|done].
Qed.

Lemma reads_ret n (x : A) : reads_ok 0 n (mret x).
Proof. intros bs _. exists []. done. Qed.

Lemma reads_throw n : reads_ok 0 n (@reader_throw A).
Proof. done. Qed.

Lemma refines_bind r r' f f' :
  refines r r' → (∀ x, refines (f x) (f' x)) → refines (r ≫= f) (r' ≫= f').
Proof.
  intros Hr Hf bs. unfold mbind, reader_bind. specialize (Hr bs).
  destruct (r bs) as [x mid| |] eqn:Er; [|intros _; by rewrite Hr|done].
  intros Hne. rewrite Hr by done. by apply Hf.
Qed.

Lemma refines_refl r : refines r r.
Proof. done. Qed.
End Readers.

#[export] Hint Resolve reads_ret reads_throw refines_refl : cbor.

Section Primitives.
Local Open Scope nat_scope.

Lemma reads_bind0 {A B} b n (r : Reader A) (f : A → Reader B) :
  reads_ok 0 n r → (∀ x, reads_ok b n (f x)) → reads_ok b n (r ≫= f).
Proof.
  intros Hr Hf. apply (reads_bind 0 b n); [done|]. intros x. eapply reads_weaken; [apply Hf|lia|lia].
Qed.

Lemma next_ok n : reads_ok 1 n next.
Proof. intros [|b bs] _; [done|]. exists [b]. split; [done|]. split; [simpl; lia|done]. Qed.

Lemma next_ok0 n : reads_ok 0 n next.
Proof. eapply reads_weaken; [apply (next_ok n)|lia|lia]. Qed.

Lemma take_bytes_ok k n : reads_ok 0 n (take_bytes k).
Proof.
  intros bs _. unfold take_bytes. destruct (Z.ltb_spec (Z.of_nat (length bs)) k) as [|Hk]; [done|].
  exists (take (Z.to_nat k) bs). split; [by rewrite take_drop|]. split; [lia|]. intros rest'.
  assert (length (take (Z.to_nat k) bs) = Z.to_nat k) as Hl by (rewrite length_take; lia).
  rewrite (proj2 (Z.ltb_ge _ _)) by (rewrite length_app, Hl; lia).
  by rewrite take_app_length', drop_app_length' by lia.
Qed.

Hint Resolve next_ok0 take_bytes_ok reads_bind0 : cbor.

Lemma cbor_length_ok info n : reads_ok 0 n (cbor_length info).
Proof. unfold cbor_length. do 4 (case_match; [eauto 8 with cbor|]). eauto with cbor. Qed.

Lemma read_items_ok read fuel k out n :
  n <= fuel → reads_ok 1 n read → reads_ok 0 n (read_items read fuel k out).
Proof.
  revert k out n. induction fuel as [|fuel IH]; intros k out n Hn Hr; cbn [read_items].
  { destruct (k <=? 0)%Z; [apply reads_ret|]. intros bs Hbs. lia. }
  destruct (k <=? 0)%Z; [apply reads_ret|].
  apply (reads_weaken 1 n); [|lia|lia]. apply (reads_bind 1 0); [done|]. intros v. destruct n as [|n]; [intros bs Hbs; lia|].
  apply IH; [lia|]. eapply reads_weaken; [exact Hr|lia|lia].
Qed.

Lemma read_entries_ok read fuel k m n :
  n <= fuel → reads_ok 1 n read → reads_ok 0 n (read_entries read fuel k m).
Proof.
  revert k m n. induction fuel as [|fuel IH]; intros k m n Hn Hr; cbn [read_entries].
  { destruct (k <=? 0)%Z; [apply reads_ret|]. intros bs Hbs. lia. }
  destruct (k <=? 0)%Z; [apply reads_ret|].
  apply (reads_weaken 1 n); [|lia|lia]. apply (reads_bind 1 0); [done|]. intros v.
  destruct n as [|n]; [intros bs Hbs; lia|].
  assert (reads_ok 1 (S n - 1) read) as Hr' by (eapply reads_weaken; [exact Hr|lia|lia]).
  destruct (as_key v); [|apply reads_throw].
  apply reads_bind0; [by eapply reads_weaken; [exact Hr'|lia|lia]|]. intros w. apply IH; [lia|done].
Qed.

Lemma cbor_read_ok fuel : reads_ok 1 fuel (cbor_read fuel).
Proof.
  induction fuel as [|fuel IH]; [intros bs Hbs; lia|]. cbn [cbor_read].
  apply (reads_bind 1 0); [apply next_ok|]. intros initial. rewrite Nat.sub_succ, Nat.sub_0_r.
  pose proof (cbor_length_ok (Z.land initial 31) fuel) as Hl.
  repeat case_match; try apply reads_throw; (apply reads_bind0; [done|]); intros k;
    first [apply reads_ret | apply reads_bind0; [|intros; apply reads_ret]];
    eauto using take_bytes_ok, read_items_ok, read_entries_ok.
Qed.

(** *** More fuel changes nothing *)

Lemma read_items_refines read read' fuel fuel' k out :
  refines read read' → fuel <= fuel' → refines (read_items read fuel k out) (read_items read' fuel' k out).
Proof.
  intros Hr. revert fuel' k out. induction fuel as [|fuel IH]; intros fuel' k out Hf.
  { cbn [read_items]. destruct (k <=? 0)%Z eqn:Ek; [destruct fuel'; cbn [read_items]; rewrite Ek; apply refines_refl|].
    by intros bs. }
  destruct fuel' as [|fuel']; [lia|]. cbn [read_items]. destruct (k <=? 0)%Z; [apply refines_refl|].
  apply refines_bind; [done|]. intros v. apply IH. lia.
Qed.

Lemma read_entries_refines read read' fuel fuel' k m :
  refines read read' → fuel <= fuel' → refines (read_entries read fuel k m) (read_entries read' fuel' k m).
Proof.
  intros Hr. revert fuel' k m. induction fuel as [|fuel IH]; intros fuel' k m Hf.
  { cbn [read_entries]. destruct (k <=? 0)%Z eqn:Ek; [destruct fuel'; cbn [read_entries]; rewrite Ek; apply refines_refl|].
    by intros bs. }
  destruct fuel' as [|fuel']; [lia|]. cbn [read_entries]. destruct (k <=? 0)%Z; [apply refines_refl|].
  apply refines_bind; [done|]. intros v. destruct (as_key v); [|apply refines_refl].
  apply refines_bind; [done|]. intros w. apply IH. lia.
Qed.

Lemma cbor_read_refines fuel fuel' : fuel <= fuel' → refines (cbor_read fuel) (cbor_read fuel').
Proof.
  revert fuel'. induction fuel as [|fuel IH]; intros fuel' Hf; [by intros bs|].
  destruct fuel' as [|fuel']; [lia|]. cbn [cbor_read]. specialize (IH fuel' ltac:(lia)).
  apply refines_bind; [apply refines_refl|]. intros initial.
  repeat case_match; try apply refines_refl; (apply refines_bind; [apply refines_refl|]); intros k;
    try apply refines_refl; (apply refines_bind; [|intros; apply refines_refl]);
    first [apply read_items_refines | apply read_entries_refines]; first [done|lia].
Qed.

Lemma cbor_read_fuel fuel bs : length bs < fuel → cbor_read fuel bs = cbor_read (S (length bs)) bs.
Proof.
  intros Hf. apply cbor_read_refines; [lia|]. pose proof (cbor_read_ok (S (length bs)) bs ltac:(lia)) as H.
  by destruct (cbor_read _ bs).
Qed.
End Primitives.

(** C22: the CBOR reader of a passkey always stops: the recursion and both loops
    need no more turns than the input has bytes, more fuel changes nothing,
    and it never reports an exhausted fuel.  When it succeeds it has consumed
    at least one byte and none past the end, and the bytes it consumed are
    read to the same value whatever follows them. *)
Theorem cbor_reader_stops bs :
  (∀ fuel, (length bs < fuel)%nat →
     cbor_read fuel bs = cbor_read (S (length bs)) bs ∧ cbor_read fuel bs ≠ OutOfFuel)
  ∧ (CborReader_read bs = None ↔ cbor_read (S (length bs)) bs = Throw)
  ∧ ∀ v used, CborReader_read bs = Some (v, used) →
      (0 < used <= length bs)%nat
      ∧ ∀ more, CborReader_read (take used bs ++ more) = Some (v, used).
Proof.
  pose proof (cbor_read_ok (S (length bs)) bs ltac:(lia)) as Hok.
  split; [intros fuel Hf; rewrite cbor_read_fuel by done; split; [done|]; by destruct (cbor_read _ bs)|].
  unfold CborReader_read at 1 2. destruct (cbor_read (S (length bs)) bs) as [v rest| |] eqn:Er; [|done|done].
  destruct Hok as (used & -> & Hu & Hloc). split; [done|]. intros v' n [= <- <-].
  rewrite length_app. assert (length used + length rest - length rest = length used)%nat as -> by lia.
  split; [lia|]. intros more. rewrite take_app_length. unfold CborReader_read.
  assert (cbor_read (S (length (used ++ more))) (used ++ more) = Done v more) as ->;
    [|rewrite length_app; do 2 f_equal; lia].
  rewrite <- (cbor_read_fuel (S (length (used ++ rest)) + S (length (used ++ more)))) by lia.
  rewrite (cbor_read_refines (S (length (used ++ rest)))); [by rewrite Hloc|lia|by rewrite Hloc].
Qed.

(** ** An encoder, and the reader as its inverse *)

Definition cbor_head (major n : Z) : bytes :=
  if n <? 24 then [32 * major + n]
  else if n <? 256 then [32 * major + 24; n]
  else if n <? 65536 then [32 * major + 25; n / 256; n mod 256]
  else (32 * major + 26) :: uint32_be n.

Definition encode_num (n : Z) : bytes := if 0 <=? n then cbor_head 0 n else cbor_head 1 (-1 - n).
Definition encode_text (s : bytes) : bytes := cbor_head 3 (Z.of_nat (length s)) ++ s.
Definition encode_key (k : CborKey) : bytes :=
  match k with KNum n => encode_num n | KText s => encode_text s end.

Fixpoint cbor_encode (v : CborValue) : bytes :=
  match v with
  | CNum n => encode_num n
  | CText s => encode_text s
  | CBytes b => cbor_head 2 (Z.of_nat (length b)) ++ b
  | CArr l => cbor_head 4 (Z.of_nat (length l)) ++ flat_map cbor_encode l
  | CMap m => cbor_head 5 (Z.of_nat (length m)) ++ flat_map (λ '(k, v), encode_key k ++ cbor_encode v) m
  end.

(** The values of the subset: numbers, lengths and counts of 32 bits, distinct
    keys, no byte order mark in front of a text. *)
Definition num_wf (n : Z) : Prop := - 2 ^ 32 <= n < 2 ^ 32.
Definition text_wf (s : bytes) : Prop := Z.of_nat (length s) < 2 ^ 32 ∧ decode_text s = s.
Definition key_wf (k : CborKey) : Prop := match k with KNum n => num_wf n | KText s => text_wf s end.

Fixpoint cbor_wf (v : CborValue) : Prop :=
  match v with
  | CNum n => num_wf n
  | CText s => text_wf s
  | CBytes b => Z.of_nat (length b) < 2 ^ 32
  | CArr l => Z.of_nat (length l) < 2 ^ 32 ∧ fold_right (λ v P, cbor_wf v ∧ P) True l
  | CMap m => Z.of_nat (length m) < 2 ^ 32 ∧ NoDup (map fst m)
              ∧ fold_right (λ '(k, v) P, key_wf k ∧ cbor_wf v ∧ P) True m
  end.

Lemma lor_shift hi lo k : 0 <= k → 0 <= lo < 2 ^ k → Z.lor (Z.shiftl hi k) lo = hi * 2 ^ k + lo.
Proof.
  intros Hk Hlo. rewrite <- Z.shiftl_mul_pow2 by done.
  assert (Z.land (Z.shiftl hi k) lo = 0) as Hland; [|by rewrite Z.add_nocarry_lxor, Z.lxor_lor by done].
  apply Z.bits_inj'. intros i Hi. rewrite Z.land_spec, Z.bits_0, Z.shiftl_spec by done.
  destruct (Z.lt_ge_cases i k) as [Hik|Hik]; [by rewrite Z.testbit_neg_r by lia|].
  assert (Z.testbit lo i = false) as ->; [|by rewrite andb_false_r].
  destruct (Z.eq_dec lo 0) as [->|]; [apply Z.bits_0|]. apply Z.bits_above_log2; [lia|].
  apply Z.log2_lt_pow2; [lia|]. eapply Z.lt_le_trans; [apply Hlo|]. apply Z.pow_le_mono_r; lia.
Qed.

Lemma head_split major info : 0 <= info < 32 →
  Z.shiftr (32 * major + info) 5 = major ∧ Z.land (32 * major + info) 0x1f = info.
Proof.
  intros Hi. change 0x1f with (Z.ones 5). rewrite Z.land_ones, Z.shiftr_div_pow2 by lia.
  change (2 ^ 5) with 32. split; Z.to_euclidean_division_equations; lia.
Qed.

(** The reader behind a head: what it does with the major type and the length. *)
Lemma cbor_head_spec major n : 0 <= major < 8 → 0 <= n < 2 ^ 32 →
  ∃ initial tail, cbor_head major n = initial :: tail ∧ Z.shiftr initial 5 = major
    ∧ ∀ more, cbor_length (Z.land initial 0x1f) (tail ++ more) = Done n more.
Proof.
  intros Hm Hn. unfold cbor_head.
  destruct (Z.ltb_spec n 24); [|destruct (Z.ltb_spec n 256); [|destruct (Z.ltb_spec n 65536)]].
  all: eexists _, _; split; [reflexivity|].
  all: match goal with |- Z.shiftr (32 * _ + ?i) 5 = _ ∧ _ => destruct (head_split major i) as [-> ->]; [lia|] end.
  all: split; [done|]; intros more; unfold cbor_length.
  - by rewrite (proj2 (Z.ltb_lt n 24)) by lia.
  - done.
  - unfold mbind, reader_bind, mret, reader_ret, next, uint32_be.
    cbn -[Z.div Z.modulo Z.mul Z.lor Z.shiftl]. rewrite lor_shift by (change (2 ^ 8) with 256; pose proof (Z.mod_pos_bound n 256); lia).
    f_equal. change (2 ^ 8) with 256. pose proof (Z.div_mod n 256). lia.
  - unfold mbind, reader_bind, mret, reader_ret, next, uint32_be.
    cbn -[Z.div Z.modulo Z.mul Z.lor Z.shiftl].
    pose proof (Z.mod_pos_bound (n / 65536) 256) as Hb2. pose proof (Z.mod_pos_bound (n / 256) 256) as Hb3.
    pose proof (Z.mod_pos_bound n 256) as Hb4. pose proof (uint32_be_val n ltac:(done)) as Hv.
    assert (Z.lor (Z.shiftl (n / 65536 mod 256) 16) (Z.shiftl (n / 256 mod 256) 8)
            = Z.shiftl (n / 65536 mod 256 * 256 + n / 256 mod 256) 8) as ->.
    { rewrite (Z.shiftl_mul_pow2 (n / 256 mod 256)), lor_shift, Z.shiftl_mul_pow2 by lia.
      change (2 ^ 16) with 65536. change (2 ^ 8) with 256. lia. }
    rewrite lor_shift by (change (2 ^ 8) with 256; lia). change (2 ^ 8) with 256. f_equal. lia.
Qed.

Lemma cbor_head_nonempty major n : (0 < length (cbor_head major n))%nat.
Proof. unfold cbor_head. repeat case_match; cbn; lia. Qed.

Lemma length_encode v : (0 < length (cbor_encode v))%nat.
Proof.
  destruct v as [n|s|b|l|m]; cbn [cbor_encode]; unfold encode_num, encode_text; rewrite ?length_app.
  1: destruct (0 <=? n); apply cbor_head_nonempty.
  all: match goal with |- context [cbor_head ?i ?k] => pose proof (cbor_head_nonempty i k) end; lia.
Qed.

Lemma length_encode_key k : (0 < length (encode_key k))%nat.
Proof. destruct k as [n|s]; [apply (length_encode (CNum n))|apply (length_encode (CText s))]. Qed.

Lemma take_bytes_app b more : take_bytes (Z.of_nat (length b)) (b ++ more) = Done b more.
Proof.
  unfold take_bytes. rewrite (proj2 (Z.ltb_ge _ _)) by (rewrite length_app; lia).
  by rewrite Nat2Z.id, take_app_length, drop_app_length.
Qed.

(** An item's reader and what it makes of the encoding of the item. *)
Definition reads_back (read : Reader CborValue) (v : CborValue) : Prop :=
  ∀ rest, read (cbor_encode v ++ rest) = Done v rest.

Lemma read_items_back read l fuel out rest :
  (∀ v, v ∈ l → reads_back read v) → (length l <= fuel)%nat →
  read_items read fuel (Z.of_nat (length l)) out (flat_map cbor_encode l ++ rest) = Done (out ++ l) rest.
Proof.
  revert fuel out. induction l as [|v l IH]; intros fuel out Hl Hf.
  { rewrite app_nil_r. by destruct fuel. }
  destruct fuel as [|fuel]; [cbn in Hf; lia|]. cbn [read_items flat_map length] in *.
  rewrite (proj2 (Z.leb_gt _ _)) by lia. unfold mbind, reader_bind. rewrite <- app_assoc, Hl by left.
  replace (Z.of_nat (S (length l)) - 1) with (Z.of_nat (length l)) by lia.
  rewrite IH by first [intros; apply Hl; by right|lia]. by rewrite <- app_assoc.
Qed.

Lemma map_set_fresh {V} k (v : V) (m : list (CborKey * V)) : k ∉ map fst m → map_set k v m = m ++ [(k, v)].
Proof.
  induction m as [|[k' v'] m IH]; cbn; [done|]. intros Hk. apply not_elem_of_cons in Hk as [Hne Hk].
  rewrite decide_False by done. by rewrite IH.
Qed.

Definition key_value (k : CborKey) : CborValue := match k with KNum n => CNum n | KText s => CText s end.

Lemma as_key_value k : as_key (key_value k) = Some k.
Proof. by destruct k. Qed.
Lemma encode_key_value k : encode_key k = cbor_encode (key_value k).
Proof. by destruct k. Qed.

Lemma read_entries_back read l fuel m rest :
  (∀ k v, (k, v) ∈ l → reads_back read (key_value k) ∧ reads_back read v) → (length l <= fuel)%nat →
  NoDup (map fst (m ++ l)) →
  read_entries read fuel (Z.of_nat (length l)) m
    (flat_map (λ '(k, v), encode_key k ++ cbor_encode v) l ++ rest) = Done (m ++ l) rest.
Proof.
  revert fuel m. induction l as [|[k v] l IH]; intros fuel m Hl Hf Hnd.
  { rewrite app_nil_r. by destruct fuel. }
  destruct fuel as [|fuel]; [cbn in Hf; lia|]. cbn [read_entries flat_map length] in *.
  rewrite (proj2 (Z.leb_gt _ _)) by lia. unfold mbind, reader_bind.
  destruct (Hl k v ltac:(left)) as [Hk Hv]. rewrite encode_key_value, <- !app_assoc, Hk, as_key_value, Hv.
  replace (Z.of_nat (S (length l)) - 1) with (Z.of_nat (length l)) by lia.
  rewrite map_set_fresh.
  - rewrite IH; [by rewrite <- app_assoc|intros; apply Hl; by right|lia|by rewrite <- app_assoc].
  - rewrite map_app in Hnd. apply NoDup_app in Hnd as (_ & Hd & _). intros Hin. apply (Hd _ Hin). left.
Qed.

(** Behind a head, the reader of an item does what the major type says. *)
Lemma cbor_read_head fuel major n bs : 0 <= major < 8 → 0 <= n < 2 ^ 32 →
  cbor_read (S fuel) (cbor_head major n ++ bs) =
  match major with
  | 0 => Done (CNum n) bs
  | 1 => Done (CNum (-1 - n)) bs
  | 2 => (b ← take_bytes n; mret (CBytes b)) bs
  | 3 => (b ← take_bytes n; mret (CText (decode_text b))) bs
  | 4 => (l ← read_items (cbor_read fuel) fuel n []; mret (CArr l)) bs
  | 5 => (m ← read_entries (cbor_read fuel) fuel n []; mret (CMap m)) bs
  | _ => Throw
  end.
Proof.
  intros Hm Hn. destruct (cbor_head_spec major n Hm Hn) as (initial & tl & -> & Es & Hl).
  cbn [cbor_read app]. unfold mbind at 1, reader_bind at 1. cbn [next]. rewrite Es.
  assert (∀ A (f : Z → Reader A), (n ← cbor_length (Z.land initial 31); f n) (tl ++ bs) = f n bs) as Hb
    by (intros A f; unfold mbind, reader_bind; by rewrite Hl).
  repeat case_match; subst; rewrite ?Hb; done.
Qed.

Lemma flat_map_elem_length {A} (f : A → bytes) x l : x ∈ l → (length (f x) <= length (flat_map f l))%nat.
Proof.
  induction 1 as [x l|x y l _ IH]; cbn [flat_map]; rewrite length_app; lia.
Qed.

Lemma flat_map_length {A} (f : A → bytes) l : (∀ x, (0 < length (f x))%nat) → (length l <= length (flat_map f l))%nat.
Proof. intros Hf. induction l as [|x l IH]; cbn [flat_map length]; [lia|]. rewrite length_app. specialize (Hf x). lia. Qed.

Lemma arr_wf_elem l v : fold_right (λ v P, cbor_wf v ∧ P) True l → v ∈ l → cbor_wf v.
Proof. intros H. induction 1 as [v l|v w l _ IH]; cbn in H; tauto. Qed.
Lemma map_wf_elem (m : list (CborKey * CborValue)) k v :
  fold_right (λ '(k, v) P, key_wf k ∧ cbor_wf v ∧ P) True m → (k, v) ∈ m → key_wf k ∧ cbor_wf v.
Proof.
  induction m as [|[k' v'] m IH]; intros H Hin; [by apply not_elem_of_nil in Hin|].
  cbn in H. apply elem_of_cons in Hin as [[= -> ->]|Hin]; tauto.
Qed.

Lemma cbor_read_encode fuel : ∀ v, cbor_wf v → (length (cbor_encode v) <= fuel)%nat → reads_back (cbor_read fuel) v.
Proof.
  induction fuel as [|fuel IH]; intros v Hwf Hf rest; [pose proof (length_encode v); lia|].
  destruct v as [n|s|b|l|m]; cbn [cbor_encode cbor_wf] in *; unfold encode_num, encode_text in *.
  - unfold num_wf in Hwf. destruct (Z.leb_spec 0 n); rewrite cbor_read_head by lia; do 2 f_equal; lia.
  - destruct Hwf as [Hl Hs]. rewrite <- app_assoc, cbor_read_head by lia.
    unfold mbind, reader_bind. rewrite take_bytes_app. unfold mret, reader_ret. by rewrite Hs.
  - rewrite <- app_assoc, cbor_read_head by lia. unfold mbind, reader_bind. by rewrite take_bytes_app.
  - destruct Hwf as [Hl Hwf]. rewrite <- app_assoc, cbor_read_head by lia. unfold mbind, reader_bind.
    rewrite length_app in Hf. pose proof (cbor_head_nonempty 4 (Z.of_nat (length l))).
    rewrite read_items_back; [done| |pose proof (flat_map_length cbor_encode l length_encode); lia].
    intros v Hv. apply IH; [by eapply arr_wf_elem|]. pose proof (flat_map_elem_length cbor_encode v l Hv). lia.
  - destruct Hwf as (Hl & Hnd & Hwf). rewrite <- app_assoc, cbor_read_head by lia. unfold mbind, reader_bind.
    rewrite length_app in Hf. pose proof (cbor_head_nonempty 5 (Z.of_nat (length m))).
    set (f := λ '(k, v), encode_key k ++ cbor_encode v) in *.
    rewrite read_entries_back; [done| | |done].
    + intros k v Hin. pose proof (flat_map_elem_length f (k, v) m Hin) as Hlen.
      unfold f in Hlen at 1. rewrite length_app, encode_key_value in Hlen.
      destruct (map_wf_elem m k v Hwf Hin) as [Hk Hv]. split; apply IH; [by destruct k|lia|done|lia].
    + assert (length m <= length (flat_map f m))%nat; [|lia]. apply flat_map_length.
      intros [k v]. unfold f. rewrite length_app. pose proof (length_encode v). lia.
Qed.

Lemma CborReader_read_encode v more :
  cbor_wf v → CborReader_read (cbor_encode v ++ more) = Some (v, length (cbor_encode v)).
Proof.
  intros Hwf. unfold CborReader_read. rewrite (cbor_read_encode _ v Hwf) by (rewrite length_app; lia).
  rewrite length_app. do 2 f_equal. lia.
Qed.

(** The CBOR reader inverts an encoder with the shortest heads: the encoding
    of every value of the subset, followed by anything, is read back as the
    value, and the reader reports exactly the bytes of the encoding. *)
Theorem cbor_roundtrip v more :
  cbor_wf v → CborReader_read (cbor_encode v ++ more) = Some (v, length (cbor_encode v)).
Proof. apply CborReader_read_encode. Qed.

Lemma cbor_reader_stops_witness :
  cbor_read 200 [0x82; 0x01; 0x19; 0x01; 0x00; 9] = cbor_read 7 [0x82; 0x01; 0x19; 0x01; 0x00; 9]
  ∧ CborReader_read (take 5 [0x82; 0x01; 0x19; 0x01; 0x00; 9] ++ [1; 2; 3]) = Some (CArr [CNum 1; CNum 256], 5%nat).
Proof.
  pose proof (cbor_reader_stops [0x82; 0x01; 0x19; 0x01; 0x00; 9]) as (Hf & _ & Hr). split.
  - apply (Hf 200%nat). cbn. lia.
  - apply (proj2 (Hr (CArr [CNum 1; CNum 256]) 5%nat eq_refl)).
Defined.

Lemma cbor_roundtrip_witness :
  CborReader_read ([0xa1; 0x63; 0x66; 0x6d; 0x74; 0x82; 0x26; 0x19; 0x01; 0x00] ++ [255])
  = Some (CMap [(KText [0x66; 0x6d; 0x74], CArr [CNum (-7); CNum 256])], 10%nat).
Proof.
  apply (cbor_roundtrip (CMap [(KText [0x66; 0x6d; 0x74], CArr [CNum (-7); CNum 256])]) [255]).
  cbn. repeat split; try (vm_compute; congruence); apply (bool_decide_unpack _); vm_compute; exact I.
Defined.
