(* ===== verification/WebAuthnProps.v ===== *)
(** * What a passkey ceremony proves

    Challenges are handed out once; a signature in DER form is read back as
    the pair of numbers it encodes; an accepted login is bound to its
    challenge, origin, relying party and counter; and an honest authenticator
    is accepted. *)

From S2P Require Export CborProps TokenProps.
From Stdlib Require Import Ascii.

(** ** Challenges *)

Lemma sweep_get now key (s : ChallengeStore) :
  map_wf s → map_get key (sweep now s) = match map_get key s with
                             | Some e => if ch_expiresAt e <? now then None else Some e
                             | None => None
                             end.
Proof.
  intros Hwf. unfold sweep. rewrite map_get_filter by done.
  destruct (map_get key s) as [e|]; [|done]. by destruct (_ <? _).
Qed.

(** ** DER signatures *)

(** A number of the signature, 32 bytes most significant first, as DER writes
    it: without leading zeroes, with one if the first bit is set. *)
Definition der_content (raw : bytes) : bytes :=
  let bs := strip_zeros raw in
  match bs with b :: _ => if 128 <=? b then 0 :: bs else bs | [] => [] end.
Definition der_number (raw : bytes) : bytes :=
  2 :: Z.of_nat (length (der_content raw)) :: der_content raw.
Definition der_signature (r s : bytes) : bytes :=
  let content := der_number r ++ der_number s in 0x30 :: Z.of_nat (length content) :: content.

Lemma strip_zeros_pad raw :
  ∃ n, raw = repeat 0 n ++ strip_zeros raw ∧ (raw ≠ [] → strip_zeros raw ≠ []).
Proof.
  induction raw as [|b raw IH]; [by exists 0%nat|]. destruct IH as (n & IH & Hne).
  cbn [strip_zeros]. destruct raw as [|c raw]; [by exists 0%nat|].
  destruct (Z.eqb_spec b 0) as [->|]; [|by exists 0%nat].
  exists (S n). split; [cbn [repeat app]; by rewrite <- IH|]. intros _. by apply Hne.
Qed.

Lemma strip_zeros_idem raw : strip_zeros (strip_zeros raw) = strip_zeros raw.
Proof.
  induction raw as [|b raw IH]; [done|]. cbn [strip_zeros]. destruct raw as [|c raw]; [done|].
  destruct (b =? 0) eqn:E; [done|]. cbn [strip_zeros]. by rewrite E.
Qed.

Lemma strip_zeros_content raw : strip_zeros (der_content raw) = strip_zeros raw.
Proof.
  unfold der_content. destruct (strip_zeros raw) as [|b bs] eqn:E; [done|].
  pose proof (strip_zeros_idem raw) as H. rewrite E in H. destruct (128 <=? b); [|done]. cbn [strip_zeros]. exact H.
Qed.

Lemma der_content_length raw :
  length raw = 32%nat → (1 <= length (der_content raw) <= 33)%nat.
Proof.
  intros Hl. destruct (strip_zeros_pad raw) as (n & E & Hne). apply (f_equal length) in E.
  rewrite length_app, repeat_length, Hl in E. unfold der_content.
  destruct (strip_zeros raw) as [|b bs]; [by destruct raw; [|specialize (Hne ltac:(done))]|].
  cbn [length] in E. destruct (128 <=? b); cbn [length]; lia.
Qed.

(** Reading a number that starts at the end of [before]. *)
Lemma der_int_number before raw after :
  length raw = 32%nat →
  der_int (before ++ der_number raw ++ after) (length before)
  = Some (raw, (length before + length (der_number raw))%nat).
Proof.
  intros Hl. unfold der_int, der_number. pose proof (der_content_length raw Hl) as Hc.
  rewrite lookup_app_r, Nat.sub_diag by lia. cbn [app lookup list_lookup].
  rewrite lookup_app_r by lia. replace (length before + 1 - length before)%nat with 1%nat by lia.
  cbn [app lookup list_lookup]. rewrite Nat2Z.id. cbn [length app].
  rewrite (proj2 (Nat.ltb_ge _ _)) by (rewrite !length_app; cbn [length]; rewrite length_app; lia).
  assert (subarray (length before + 2) (length before + 2 + length (der_content raw))
            (before ++ 2 :: Z.of_nat (length (der_content raw)) :: der_content raw ++ after) = der_content raw) as ->.
  { unfold subarray. rewrite drop_app_ge by lia.
    replace (length before + 2 - length before)%nat with 2%nat by lia. cbn [drop].
    replace (_ - _)%nat with (length (der_content raw)) by lia. apply take_app_length. }
  rewrite strip_zeros_content. destruct (strip_zeros_pad raw) as (n & E & _).
  assert (length raw = n + length (strip_zeros raw))%nat as Hn
    by (rewrite E at 1; by rewrite length_app, repeat_length).
  rewrite (proj2 (Nat.ltb_ge _ _)) by lia. replace (32 - length (strip_zeros raw))%nat with n by lia.
  rewrite <- E. do 2 f_equal. lia.
Qed.

Lemma der_signature_raw r s :
  length r = 32%nat → length s = 32%nat → ecdsaDerToRaw (der_signature r s) = Some (r ++ s).
Proof.
  intros Hr Hs. unfold der_signature. cbv zeta. set (content := der_number r ++ der_number s).
  pose proof (der_content_length r Hr) as Hcr. pose proof (der_content_length s Hs) as Hcs.
  assert (length content = 4 + length (der_content r) + length (der_content s))%nat as Hl
    by (unfold content, der_number; rewrite length_app; cbn [length]; lia).
  assert (Z.land (Z.of_nat (length content)) 0x80 = 0) as Hland.
  { assert (forallb (λ n, Z.land (Z.of_nat n) 0x80 =? 0) (seq 0 128) = true) as Hall by (vm_compute; done).
    rewrite forallb_forall in Hall. specialize (Hall (length content)). apply Z.eqb_eq, Hall, in_seq. lia. }
  unfold ecdsaDerToRaw. cbn [length]. rewrite (proj2 (Nat.ltb_ge _ _)) by lia.
  rewrite Hland, Z.eqb_refl. unfold content.
  change (?a :: ?b :: der_number r ++ der_number s) with ([a; b] ++ der_number r ++ der_number s).
  set (head := [_; _]). change 2%nat with (length head). rewrite der_int_number by done. cbn [mbind option_bind].
  rewrite app_assoc. replace (length head + length (der_number r))%nat with (length (head ++ der_number r))
    by apply length_app.
  rewrite <- (app_nil_r (der_number s)). by rewrite der_int_number.
Qed.

Lemma der_int_length der offset bs next : der_int der offset = Some (bs, next) → length bs = 32%nat.
Proof.
  unfold der_int. repeat case_match; try discriminate. intros [= <- _].
  match goal with H : (32 <? _)%nat = false |- _ => apply Nat.ltb_ge in H end.
  rewrite length_app, repeat_length. lia.
Qed.

Lemma der_pair_length der offset raw :
  ('(r, offset) ← der_int der offset; '(s, _) ← der_int der offset; Some (r ++ s)) = Some raw →
  length raw = 64%nat.
Proof.
  destruct (der_int der offset) as [[r o]|] eqn:Er; [|discriminate]. cbn [mbind option_bind].
  destruct (der_int der o) as [[s o']|] eqn:Es; [|discriminate]. intros [= <-].
  by rewrite length_app, (der_int_length _ _ _ _ Er), (der_int_length _ _ _ _ Es).
Qed.

(** The ECDSA signature of a passkey is converted from DER to the fixed
    form that WebCrypto wants: for every pair of 32-byte numbers the encoding
    is read back as their concatenation, and whatever is accepted yields 64
    bytes. *)
Theorem ecdsaDerToRaw_roundtrip r s der raw :
  (length r = 32%nat → length s = 32%nat → ecdsaDerToRaw (der_signature r s) = Some (r ++ s))
  ∧ (ecdsaDerToRaw der = Some raw → length raw = 64%nat).
Proof.
  split.
  - apply der_signature_raw.
  - unfold ecdsaDerToRaw. repeat (case_match; try discriminate); apply der_pair_length.
Qed.

(** ** Authenticator data *)

Definition auth_data (hash : bytes) (flags count : Z) (rest : bytes) : bytes :=
  hash ++ [flags] ++ uint32_be count ++ rest.
Definition attested_data (aaguid id cose extensions : bytes) : bytes :=
  let n := Z.of_nat (length id) in aaguid ++ [n / 256; n mod 256] ++ id ++ cose ++ extensions.

Lemma subarray_mid a b c : subarray (length a) (length a + length b) (a ++ b ++ c) = b.
Proof.
  unfold subarray. rewrite drop_app_length. replace (_ - _)%nat with (length b) by lia. apply take_app_length.
Qed.

Lemma subarray_at i j a b c : length a = i → (i + length b)%nat = j → subarray i j (a ++ b ++ c) = b.
Proof. intros <- <-. apply subarray_mid. Qed.

Lemma subarray_front j b c : length b = j → subarray 0 j (b ++ c) = b.
Proof. intros <-. apply (subarray_mid []). Qed.

Lemma getUint_be n : 0 <= n < 2 ^ 32 → getUint (uint32_be n) = n.
Proof. intros Hn. unfold getUint, uint32_be. cbn [fold_left]. pose proof (uint32_be_val n Hn). lia. Qed.

Lemma parseAuthData_plain hash flags count rest :
  length hash = 32%nat → 0 <= count < 2 ^ 32 → Z.land flags FLAG_AT = 0 →
  parseAuthData (auth_data hash flags count rest) = Some (mkAuthData hash flags count None None).
Proof.
  intros Hh Hc Hf. unfold parseAuthData, auth_data.
  rewrite (proj2 (Nat.ltb_ge _ _)) by (rewrite !length_app; cbn [length uint32_be]; lia).
  rewrite lookup_app_r by lia. rewrite Hh. cbn [Nat.sub app lookup list_lookup default from_option id].
  rewrite Hf, Z.eqb_refl.
  change (flags :: uint32_be count ++ rest) with ([flags] ++ uint32_be count ++ rest).
  rewrite (subarray_front 32 hash) by done. rewrite (app_assoc hash).
  rewrite (subarray_at 33 37) by (rewrite ?length_app, ?Hh; done). by rewrite getUint_be.
Qed.

Lemma parseAuthData_attested hash flags count aaguid cid v extensions :
  length hash = 32%nat → 0 <= count < 2 ^ 32 → Z.land flags FLAG_AT ≠ 0 → length aaguid = 16%nat →
  Z.of_nat (length cid) < 65536 → cbor_wf v →
  parseAuthData (auth_data hash flags count (attested_data aaguid cid (cbor_encode v) extensions))
  = Some (mkAuthData hash flags count (Some cid) (Some (cbor_encode v))).
Proof.
  intros Hh Hc Hf Ha Hid Hv. set (cose := cbor_encode v). unfold parseAuthData, auth_data, attested_data. cbv zeta.
  set (n := Z.of_nat (length cid)). set (size := [n / 256; n mod 256]).
  assert (length (hash ++ [flags] ++ uint32_be count ++ aaguid ++ size ++ cid ++ cose ++ extensions)
          = 55 + length cid + length cose + length extensions)%nat as Hlen
    by (rewrite !length_app, Hh, Ha; cbn [length uint32_be size]; lia).
  rewrite Hlen, (proj2 (Nat.ltb_ge _ 37)) by lia.
  rewrite lookup_app_r by lia. rewrite Hh. cbn [Nat.sub app lookup list_lookup default from_option id].
  rewrite (proj2 (Z.eqb_neq _ _) Hf), (proj2 (Nat.ltb_ge _ 55)) by lia.
  change (flags :: uint32_be count ++ ?x) with ([flags] ++ uint32_be count ++ x).
  assert (subarray 53 55 (hash ++ [flags] ++ uint32_be count ++ aaguid ++ size ++ cid ++ cose ++ extensions) = size) as ->.
  { rewrite !(app_assoc _ _ (size ++ _)). apply subarray_at; rewrite ?length_app, ?Hh, ?Ha; done. }
  assert (getUint size = n) as -> by (unfold getUint, size; cbn [fold_left]; pose proof (Z.div_mod n 256); lia).
  unfold n. rewrite Nat2Z.id, (proj2 (Nat.ltb_ge _ (55 + length cid))) by lia.
  assert (hash ++ [flags] ++ uint32_be count ++ aaguid ++ size ++ cid ++ cose ++ extensions
          = (hash ++ [flags] ++ uint32_be count ++ aaguid ++ size ++ cid) ++ cose ++ extensions) as Hsplit
    by (by rewrite <- !app_assoc).
  assert (length (hash ++ [flags] ++ uint32_be count ++ aaguid ++ size ++ cid) = 55 + length cid)%nat as Hpre
    by (rewrite !length_app, Hh, Ha; cbn [length uint32_be size]; lia).
  rewrite Hsplit, drop_app_length' by done. 
  assert (CborReader_read (cose ++ extensions) = Some (v, length cose)) as -> by (by apply CborReader_read_encode).
  cbn [mbind option_bind]. rewrite (subarray_at (55 + length cid)) by done. rewrite <- Hsplit.
  rewrite (subarray_front 32 hash) by done.
  assert (subarray 33 37 (hash ++ [flags] ++ uint32_be count ++ aaguid ++ size ++ cid ++ cose ++ extensions)
          = uint32_be count) as ->.
  { rewrite (app_assoc hash). apply subarray_at; rewrite ?length_app, ?Hh; done. }
  assert (subarray 55 (55 + length cid) (hash ++ [flags] ++ uint32_be count ++ aaguid ++ size ++ cid ++ cose ++ extensions)
          = cid) as ->.
  { rewrite !(app_assoc _ _ (cid ++ _)). apply subarray_at; rewrite ?length_app, ?Hh, ?Ha; done. }
  by rewrite getUint_be.
Qed.

(** ** The ceremonies *)

(** The client data that the browser collected: its type, challenge, origin. *)
Definition client_data_says (bs : bytes) (typ challenge origin : string) : Prop :=
  ∃ data, fromUtf8 bs ≫= parse = Some data
    ∧ jget "type" data = Some (JStr typ) ∧ jget "challenge" data = Some (JStr challenge)
    ∧ jget "origin" data = Some (JStr origin).

Lemma json_string_some v s : json_string v = Some s ↔ v = Some (JStr s).
Proof. destruct v as [[]|]; cbn; naive_solver. Qed.

Lemma checkClientData_accepts b64 typ challenge origin bs :
  checkClientData b64 typ challenge origin = inr bs
  ↔ fromBase64Url b64 = Some bs ∧ client_data_says bs typ challenge origin.
Proof.
  unfold checkClientData, client_data_says. destruct (fromBase64Url b64) as [raw|]; cbn [mbind option_bind]; [|naive_solver].
  destruct (fromUtf8 raw ≫= parse) as [data|] eqn:Ep; cbn [mbind option_bind]; rewrite ?Ep; [|naive_solver].
  split.
  - destruct data; try discriminate; repeat (case_bool_decide; [|discriminate]); cbn [negb];
      intros [= <-]; (split; [done|]); eexists; (split; [done|]); by rewrite <- !json_string_some.
  - intros ([= ->] & data' & Hd & H1 & H2 & H3). rewrite Ep in Hd. injection Hd as ->.
    rewrite H1, H2, H3. destruct data'; try done; cbn [json_string]; by rewrite !bool_decide_true.
Qed.

Lemma client_data_functional bs typ c o typ' c' o' :
  client_data_says bs typ c o → client_data_says bs typ' c' o' → typ = typ' ∧ c = c' ∧ o = o'.
Proof. intros (d & Hd & ? & ? & ?) (d' & Hd' & ? & ? & ?). by simplify_eq/=. Qed.

Section Ceremonies.
Context `{C : WebAuthnCrypto}.

(** What an accepted login has checked. *)
Record login_evidence (rp : RpConfig) (challenge publicKey : string) (signCount : Z)
    (credential : AssertionCredential) (count : Z) (clientData : bytes) : Prop := {
  le_client : fromBase64Url (ac_clientDataJSON credential) = Some clientData;
  le_says : client_data_says clientData "webauthn.get" challenge (rp_origin rp);
  le_signed : ∃ authDataBytes authData signature key,
    parse_assertion credential = Some (authDataBytes, authData, signature)
    ∧ ad_rpIdHash authData = sha256_digest (utf8 (rp_id rp))
    ∧ Z.land (ad_flags authData) FLAG_UP ≠ 0
    ∧ ad_signCount authData = count
    ∧ fromBase64 publicKey ≫= importCoseKey = Some key
    ∧ verifyCredentialSignature key signature (authDataBytes ++ sha256_digest clientData) = Some true;
  le_counter : signCount < count ∨ signCount = 0 ∧ count = 0
}.

Lemma finishLogin_accepts rp challenge publicKey signCount credential count :
  finishLogin rp challenge publicKey signCount credential = inr count
  ↔ ∃ clientData, login_evidence rp challenge publicKey signCount credential count clientData.
Proof.
  unfold finishLogin. split.
  - destruct (checkClientData _ _ _ _) as [?|clientData] eqn:Ec; [discriminate|].
    apply checkClientData_accepts in Ec as [Hb Hs].
    destruct (parse_assertion credential) as [[[authDataBytes authData] signature]|] eqn:Ep; [|discriminate].
    destruct (bytesEqual _ _) eqn:Eh; [|discriminate]. apply bytesEqual_iff in Eh. cbn [negb].
    destruct (Z.land _ _ =? 0) eqn:Eu; [discriminate|].
    destruct (_ && (_ <=? signCount)) eqn:En; [discriminate|].
    destruct (fromBase64 publicKey ≫= importCoseKey) as [key|] eqn:Ek; [|discriminate].
    cbn [concatBytes]. unfold concatBytes. cbn [concat]. rewrite app_nil_r.
    destruct (verifyCredentialSignature _ _ _) as [[|]|] eqn:Ev; try discriminate. intros [= <-].
    exists clientData. split; [done|done| |].
    + exists authDataBytes, authData, signature, key. bprop. done.
    + apply andb_false_iff in En as [En|En]; bprop; lia.
  - intros (clientData & [Hb Hs (authDataBytes & authData & signature & key & Hp & Hh & Hu & <- & Hk & Hv) Hn]).
    rewrite (proj2 (checkClientData_accepts _ _ _ _ clientData)) by done.
    rewrite Hp, (proj2 (bytesEqual_iff _ _) Hh), (proj2 (Z.eqb_neq _ _) Hu). cbn [negb].
    assert ((negb (signCount =? 0) || negb (ad_signCount authData =? 0)) && (ad_signCount authData <=? signCount) = false) as ->.
    { apply andb_false_iff. destruct Hn as [Hn|[-> ->]]; [right; lia|by left]. }
    rewrite Hk. unfold concatBytes. cbn [concat]. rewrite app_nil_r. by rewrite Hv.
Qed.

(** C23: an accepted passkey login proves presence for this very ceremony.  The
    browser collected it for this challenge and origin, the authenticator
    signed it with the stored key for this relying party with the user
    present, and its counter is beyond the stored one unless both are zero.
    So the same response is refused for any other challenge or origin, and
    once its counter is stored it is refused for good. *)
Theorem login_bound_to_ceremony rp challenge publicKey signCount credential count :
  finishLogin rp challenge publicKey signCount credential = inr count →
  (∃ clientData, login_evidence rp challenge publicKey signCount credential count clientData)
  ∧ (∀ rp' challenge' publicKey' signCount' count',
       finishLogin rp' challenge' publicKey' signCount' credential = inr count' →
       challenge' = challenge ∧ rp_origin rp' = rp_origin rp ∧ count' = count)
  ∧ (count ≠ 0 → ∀ rp' challenge' publicKey' signCount', count <= signCount' →
       ∃ reason, finishLogin rp' challenge' publicKey' signCount' credential = inl reason).
Proof.
  intros H. apply finishLogin_accepts in H as (clientData & He). split; [by exists clientData|].
  assert (∀ rp' challenge' publicKey' signCount' count',
    finishLogin rp' challenge' publicKey' signCount' credential = inr count' →
    challenge' = challenge ∧ rp_origin rp' = rp_origin rp ∧ count' = count
    ∧ (signCount' < count ∨ signCount' = 0 ∧ count = 0)) as Hsame.
  { intros rp' ch' pk' n' m' H. apply finishLogin_accepts in H as (clientData' & He').
    destruct He as [Hb Hs (a & d & s & k & Hp & _ & _ & <- & _) _].
    destruct He' as [Hb' Hs' (a' & d' & s' & k' & Hp' & _ & _ & <- & _) Hn'].
    simplify_eq. destruct (client_data_functional _ _ _ _ _ _ _ Hs Hs') as (_ & -> & ->). done. }
  split; [intros; edestruct Hsame as (? & ? & ? & _); eauto|].
  intros Hc rp' ch' pk' n' Hn. destruct (finishLogin rp' ch' pk' n' credential) as [reason|m'] eqn:E; [by exists reason|].
  apply Hsame in E as (_ & _ & _ & Hcnt). lia.
Qed.

(** *** An honest authenticator *)

Definition client_json (typ challenge origin : string) : json :=
  JObj [("type", JStr typ); ("challenge", JStr challenge); ("origin", JStr origin); ("crossOrigin", JBool false)].
Definition client_bytes (typ challenge origin : string) : bytes := utf8 (stringify (client_json typ challenge origin)).

Definition attestation (authData : bytes) : CborValue :=
  CMap [(KText (utf8 "fmt"), CText (utf8 "none")); (KText (utf8 "attStmt"), CMap []);
        (KText (utf8 "authData"), CBytes authData)].

(** An authenticator holding a credential: its identifier and COSE key. *)
Record Authenticator := mkAuthenticator { au_aaguid : bytes; au_id : bytes; au_cose : CborValue }.

Definition authenticator_ok (a : Authenticator) (key : CredentialKey) : Prop :=
  length (au_aaguid a) = 16%nat ∧ bytes_ok (au_aaguid a)
  ∧ Z.of_nat (length (au_id a)) < 65536 ∧ bytes_ok (au_id a)
  ∧ cbor_wf (au_cose a) ∧ bytes_ok (cbor_encode (au_cose a))
  ∧ Z.of_nat (length (cbor_encode (au_cose a))) < 65536
  ∧ importCoseKey (cbor_encode (au_cose a)) = Some key.

(** User present, attested credential data included. *)
Definition registration_data (rp : RpConfig) (a : Authenticator) (count : Z) : bytes :=
  auth_data (sha256_digest (utf8 (rp_id rp))) 0x41 count
    (attested_data (au_aaguid a) (au_id a) (cbor_encode (au_cose a)) []).
Definition register_response (rp : RpConfig) (a : Authenticator) (challenge : string) (count : Z)
    (prf : option bool) : RegistrationCredential :=
  mkRegistration (toBase64Url (au_id a)) (toBase64Url (client_bytes "webauthn.create" challenge (rp_origin rp)))
    (toBase64Url (cbor_encode (attestation (registration_data rp a count)))) prf.

Definition assertion_data (rp : RpConfig) (count : Z) : bytes :=
  auth_data (sha256_digest (utf8 (rp_id rp))) FLAG_UP count [].
Definition login_response (rp : RpConfig) (a : Authenticator) (challenge : string) (count : Z)
    (signature : bytes) : AssertionCredential :=
  mkAssertion (toBase64Url (au_id a)) (toBase64Url (client_bytes "webauthn.get" challenge (rp_origin rp)))
    (toBase64Url (assertion_data rp count)) (toBase64Url signature).

Lemma client_json_says typ challenge origin :
  client_data_says (client_bytes typ challenge origin) typ challenge origin.
Proof.
  exists (client_json typ challenge origin). split; [|done]. unfold client_bytes. rewrite fromUtf8_utf8.
  cbn [mbind option_bind]. apply parse_stringify, json_wf_obj.
  split; [apply (bool_decide_unpack _); vm_compute; exact I|by repeat constructor].
Qed.

Lemma checkClientData_honest typ challenge origin :
  checkClientData (toBase64Url (client_bytes typ challenge origin)) typ challenge origin
  = inr (client_bytes typ challenge origin).
Proof.
  apply checkClientData_accepts. split; [|apply client_json_says]. apply base64url_decode, utf8_ok.
Qed.

Lemma uint32_be_ok n : bytes_ok (uint32_be n).
Proof. repeat constructor; apply Z.mod_pos_bound; lia. Qed.

Lemma cbor_head_ok major n : 0 <= major < 8 → 0 <= n < 2 ^ 32 → bytes_ok (cbor_head major n).
Proof.
  intros Hm Hn. unfold cbor_head. repeat case_match; bprop.
  1,2: repeat constructor; lia.
  - pose proof (Z.mod_pos_bound n 256). repeat constructor; try lia.
    + apply Z.div_pos; lia.
    + apply Z.div_lt_upper_bound; lia.
  - constructor; [unfold is_byte; lia|apply uint32_be_ok].
Qed.

Lemma attestation_ok data : bytes_ok data → Z.of_nat (length data) < 2 ^ 32 → bytes_ok (cbor_encode (attestation data)).
Proof.
  intros Hd Hl. unfold attestation. cbn [cbor_encode flat_map]. rewrite !app_nil_r. unfold encode_key, encode_text, bytes_ok.
  rewrite !Forall_app. repeat split; try apply utf8_ok; try done; apply cbor_head_ok; try lia.
  all: split; [vm_compute; congruence|vm_compute; reflexivity].
Qed.

Lemma attestation_wf data : Z.of_nat (length data) < 2 ^ 32 → cbor_wf (attestation data).
Proof.
  intros Hl. cbn [attestation cbor_wf fold_right key_wf].
  repeat split; try done; try (vm_compute; congruence); apply (bool_decide_unpack _); vm_compute; exact I.
Qed.

Class WebAuthnLaws := {
  sha256_ok b : bytes_ok (sha256_digest b) ∧ length (sha256_digest b) = 32%nat
}.

Section Honest.
Context `{L : !WebAuthnLaws} (rp : RpConfig) (a : Authenticator) (key : CredentialKey) (Ha : authenticator_ok a key).

Lemma auth_data_ok hash flags count rest :
  bytes_ok hash → is_byte flags → bytes_ok rest → bytes_ok (auth_data hash flags count rest).
Proof.
  intros. unfold auth_data. apply Forall_app. split; [done|]. constructor; [done|].
  apply Forall_app. split; [apply uint32_be_ok|done].
Qed.

Lemma registration_data_ok count :
  bytes_ok (registration_data rp a count) ∧ Z.of_nat (length (registration_data rp a count)) < 2 ^ 32.
Proof.
  destruct Ha as (Hg & Hgo & Hi & Hio & Hc & Hco & Hcl & _). destruct (sha256_ok (utf8 (rp_id rp))) as [Hh Hhl].
  unfold registration_data. split.
  - apply auth_data_ok; [done|done|]. unfold attested_data. apply Forall_app. split; [done|].
    assert (0 <= Z.of_nat (length (au_id a))) as Hpos by lia.
    repeat constructor; [apply Z.div_pos; lia|apply Z.div_lt_upper_bound; lia|apply Z.mod_pos_bound; lia..|].
    rewrite app_nil_r. by apply Forall_app.
  - unfold auth_data, attested_data. rewrite !length_app, Hhl, Hg. cbn [length uint32_be]. lia.
Qed.

Lemma attested_value_attestation data : attested_value (attestation data) = parseAuthData data.
Proof.
  unfold attested_value, attestation. cbn [map_get]. by rewrite !decide_False, decide_True by done.
Qed.

Lemma attested_read data :
  bytes_ok data → Z.of_nat (length data) < 2 ^ 32 →
  attested (toBase64Url (cbor_encode (attestation data))) = parseAuthData data.
Proof.
  intros Hd Hl. rewrite <- attested_value_attestation. pose proof (attestation_ok data Hd Hl) as Hok.
  pose proof (CborReader_read_encode (attestation data) [] (attestation_wf _ Hl)) as Hr.
  rewrite app_nil_r in Hr. revert Hok Hr. generalize (attestation data) as v. intros v Hok Hr.
  unfold attested, fromBase64Url, toBase64Url. rewrite base64url_decode by done. cbn [mbind option_bind].
  by rewrite Hr.
Qed.

Lemma attested_honest count : 0 <= count < 2 ^ 32 →
  attested (toBase64Url (cbor_encode (attestation (registration_data rp a count))))
  = Some (mkAuthData (sha256_digest (utf8 (rp_id rp))) 0x41 count (Some (au_id a)) (Some (cbor_encode (au_cose a)))).
Proof.
  intros Hcount. destruct (registration_data_ok count) as [Hd Hl]. rewrite attested_read by done.
  destruct Ha as (Hg & _ & Hi & _ & Hc & _). destruct (sha256_ok (utf8 (rp_id rp))).
  unfold registration_data. by apply parseAuthData_attested.
Qed.

Lemma parse_assertion_honest challenge count signature :
  0 <= count < 2 ^ 32 → bytes_ok signature →
  parse_assertion (login_response rp a challenge count signature)
  = Some (assertion_data rp count, mkAuthData (sha256_digest (utf8 (rp_id rp))) FLAG_UP count None None, signature).
Proof.
  intros Hcount Hs. destruct (sha256_ok (utf8 (rp_id rp))) as [Hh Hhl].
  unfold parse_assertion. cbn [login_response ac_authenticatorData ac_signature]. unfold fromBase64Url, toBase64Url.
  rewrite !base64url_decode by first [done|apply auth_data_ok; [done|done|constructor]].
  cbn [mbind option_bind]. unfold assertion_data. by rewrite parseAuthData_plain.
Qed.

(** An honest passkey works.  The response of an authenticator to a
    registration is accepted with its identifier, key and counter; and its
    response to a later login challenge, signed by that key over the
    authenticator data and the digest of the client data, is accepted with
    the new counter, provided the counter went up or neither side counts. *)
Theorem honest_passkey_accepted challenge count prf :
  0 <= count < 2 ^ 32 →
  finishRegistration rp challenge (register_response rp a challenge count prf)
  = inr (mkRegistered (toBase64Url (au_id a)) (toBase64 (cbor_encode (au_cose a))) count (bool_decide (prf = Some true)))
  ∧ ∀ challenge' count' signature,
      bytes_ok signature → count' < 2 ^ 32 → count < count' ∨ count = 0 ∧ count' = 0 →
      verifyCredentialSignature key signature
        (assertion_data rp count' ++ sha256_digest (client_bytes "webauthn.get" challenge' (rp_origin rp))) = Some true →
      finishLogin rp challenge' (toBase64 (cbor_encode (au_cose a))) count
        (login_response rp a challenge' count' signature) = inr count'.
Proof.
  intros Hcount. split.
  - unfold finishRegistration, register_response. cbn [rc_clientDataJSON rc_attestationObject rc_id rc_prf_enabled].
    rewrite checkClientData_honest, attested_honest by done. cbn [ad_rpIdHash ad_credentialId ad_cosePublicKey ad_signCount].
    rewrite (proj2 (bytesEqual_iff _ _) eq_refl). cbn [negb]. rewrite String.eqb_refl. cbn [negb].
    destruct Ha as (_ & _ & _ & _ & _ & _ & _ & ->). done.
  - intros challenge' count' signature Hs Hc' Hn Hv. apply finishLogin_accepts.
    exists (client_bytes "webauthn.get" challenge' (rp_origin rp)). split.
    + apply base64url_decode, utf8_ok.
    + apply client_json_says.
    + exists (assertion_data rp count'), (mkAuthData (sha256_digest (utf8 (rp_id rp))) FLAG_UP count' None None), signature, key.
      split; [apply parse_assertion_honest; [lia|done]|]. do 3 (split; [done|]).
      destruct Ha as (_ & _ & _ & _ & _ & Hco & _ & Hk). unfold fromBase64, toBase64.
      rewrite atob_btoa by done. by cbn [mbind option_bind].
    + done.
Qed.
End Honest.
End Ceremonies.

(** ** A ceremony with a P-256 key, and the witnesses *)

Module PasskeyDemo.
(** A digest that is a checksum, and signatures that repeat the checksum. *)
Definition checksum (bs : bytes) : Z := fold_left Z.add bs 0 mod 128.

#[export] Instance DemoCrypto : WebAuthnCrypto (W := ToyCrypto) := {
  import_p256 raw := if (length raw =? 65)%nat then Some raw else None;
  import_ed25519 raw := if (length raw =? 32)%nat then Some raw else None;
  ecdsa_p256_verify key signature data := bool_decide (signature = repeat (1 + checksum data) 64);
  sha256_digest b := repeat (checksum b) 32
}.

#[export] Instance DemoLaws : WebAuthnLaws (C := DemoCrypto).
Proof.
  split. intros b. split; [|apply repeat_length]. apply Forall_forall. intros x Hx.
  cbn [sha256_digest DemoCrypto] in Hx. apply list_elem_of_In, repeat_spec in Hx as ->.
  unfold checksum, is_byte. pose proof (Z.mod_pos_bound (fold_left Z.add b 0) 128). lia.
Qed.

Definition rp : RpConfig := mkRp "suma.app" "https://suma.app" "Suma".
Definition coordinate : bytes := repeat 9 32.
Definition cose : CborValue :=
  CMap [(KNum COSE_KTY, CNum 2); (KNum COSE_ALG, CNum COSE_ALG_ES256); (KNum COSE_CRV, CNum 1);
        (KNum COSE_X, CBytes coordinate); (KNum COSE_Y, CBytes coordinate)].
Definition au : Authenticator := mkAuthenticator (repeat 0 16) [1; 2; 3; 4] cose.
Definition key : CredentialKey (W := ToyCrypto) := mkCredentialKey (W := ToyCrypto) COSE_ALG_ES256 (4 :: coordinate ++ coordinate).

Lemma au_ok : authenticator_ok (C := DemoCrypto) au key.
Proof.
  unfold authenticator_ok. assert (∀ l, forallb (λ b, (0 <=? b) && (b <? 256)) l = true → bytes_ok l) as Hb.
  { intros l Hl. apply Forall_forall. intros x Hx%list_elem_of_In. rewrite forallb_forall in Hl.
    apply Hl in Hx. bprop. unfold is_byte. lia. }
  split; [done|]. split; [by apply Hb|]. split; [done|]. split; [by apply Hb|]. split.
  - cbn. repeat split; try (vm_compute; congruence). apply (bool_decide_unpack _). vm_compute. exact I.
  - split; [apply Hb; vm_compute; reflexivity|]. split; [vm_compute; reflexivity|].
    assert ((λ k, (ck_alg k, ck_key k : bytes)) <$> importCoseKey (C := DemoCrypto) (cbor_encode cose)
            = Some (COSE_ALG_ES256, 4 :: coordinate ++ coordinate)) as H by (vm_compute; reflexivity).
    cbn [au_cose au]. destruct (importCoseKey (cbor_encode cose)) as [[alg k]|]; [|discriminate].
    by injection H as -> ->.
Qed.

Definition signed (challenge : string) (count : Z) : bytes :=
  assertion_data (C := DemoCrypto) rp count ++ sha256_digest (WebAuthnCrypto := DemoCrypto) (client_bytes "webauthn.get" challenge (rp_origin rp)).
Definition signature (challenge : string) (count : Z) : bytes :=
  let half := repeat (1 + checksum (signed challenge count)) 32 in der_signature half half.
Definition login (challenge : string) (count : Z) : AssertionCredential :=
  login_response (C := DemoCrypto) rp au challenge count (signature challenge count).
Definition stored : string := toBase64 (cbor_encode cose).
End PasskeyDemo.

Lemma ecdsaDerToRaw_roundtrip_witness :
  ecdsaDerToRaw (der_signature (repeat 200 32) (0 :: repeat 5 31)) = Some (repeat 200 32 ++ 0 :: repeat 5 31)
  ∧ length (repeat 200 32 ++ 0 :: repeat 5 31) = 64%nat.
Proof.
  assert (ecdsaDerToRaw (der_signature (repeat 200 32) (0 :: repeat 5 31)) = Some (repeat 200 32 ++ 0 :: repeat 5 31)) as H.
  { exact (proj1 (ecdsaDerToRaw_roundtrip (repeat 200 32) (0 :: repeat 5 31) [] []) eq_refl eq_refl). }
  split; [exact H|]. exact (proj2 (ecdsaDerToRaw_roundtrip [] [] _ _) H).
Defined.

Lemma login_bound_to_ceremony_witness :
  finishLogin (C := PasskeyDemo.DemoCrypto) PasskeyDemo.rp "c1" PasskeyDemo.stored 4 (PasskeyDemo.login "c1" 5) = inr 5
  ∧ ∃ reason, finishLogin (C := PasskeyDemo.DemoCrypto) PasskeyDemo.rp "c1" PasskeyDemo.stored 5 (PasskeyDemo.login "c1" 5) = inl reason.
Proof.
  assert (finishLogin (C := PasskeyDemo.DemoCrypto) PasskeyDemo.rp "c1" PasskeyDemo.stored 4 (PasskeyDemo.login "c1" 5) = inr 5) as H
    by (vm_compute; reflexivity).
  split; [exact H|].
  refine (proj2 (proj2 (login_bound_to_ceremony (C := PasskeyDemo.DemoCrypto) _ _ _ _ _ _ H)) _ _ _ _ _ _); [discriminate|].
  vm_compute. discriminate.
Defined.

Lemma honest_passkey_accepted_witness :
  finishRegistration (C := PasskeyDemo.DemoCrypto) PasskeyDemo.rp "c0"
    (register_response (C := PasskeyDemo.DemoCrypto) PasskeyDemo.rp PasskeyDemo.au "c0" 4 (Some true))
  = inr (mkRegistered "AQIDBA" PasskeyDemo.stored 4 true)
  ∧ finishLogin (C := PasskeyDemo.DemoCrypto) PasskeyDemo.rp "c1" PasskeyDemo.stored 4 (PasskeyDemo.login "c1" 5) = inr 5.
Proof.
  pose proof (honest_passkey_accepted (C := PasskeyDemo.DemoCrypto) (L := PasskeyDemo.DemoLaws) PasskeyDemo.rp PasskeyDemo.au PasskeyDemo.key
    PasskeyDemo.au_ok "c0" 4 (Some true) ltac:(lia)) as [Hr Hl].
  split; [exact Hr|]. apply Hl; [|lia|lia|vm_compute; reflexivity].
  apply (bool_decide_unpack _). vm_compute. exact I.
Defined.
