(* ===== verification/Threads.v ===== *)
(** * Request handlers that interleave at their awaits

    A handler of the control plane is a sequence of atomic pieces (a database
    statement, or the code between two awaits) and of calls to other services.
    A pool runs any number of handlers in any interleaving, lets the outside
    world answer calls as it likes, the clock advance, and the process be
    restarted.  What holds of every handler is proved by rely and guarantee:
    each atomic piece keeps the invariant and moves the world only forward in
    a preorder, so each handler may assume that the others do the same.  Then
    the same with one more guarantee, and a scheduler that computes. *)

From stdpp Require Import relations.
From S2P Require Export Prelude.

(** ** Handlers *)

Inductive Thread (World Ext Answer A : Type) : Type :=
| Ret (a : A)
(** An exception leaves the handler. *)
| Raise
| Act (upd : World → World) (k : World → Thread World Ext Answer A)
| Call (c : Ext) (k : Answer → Thread World Ext Answer A).
Arguments Ret {World Ext Answer A}. Arguments Raise {World Ext Answer A}.
Arguments Act {World Ext Answer A}. Arguments Call {World Ext Answer A}.

Section Programs.
Context {World Ext Answer : Type}.
Abbreviation T := (Thread World Ext Answer).

Fixpoint thread_bind {A B} (f : A → T B) (t : T A) : T B :=
  match t with
  | Ret a => f a
  | Raise => Raise
  | Act upd k => Act upd (λ w, thread_bind f (k w))
  | Call c k => Call c (λ r, thread_bind f (k r))
  end.

(** A statement of the database; [None] is an exception it raises. *)
Definition statement {A} (q : World → option (A * World)) : T A :=
  Act (λ w, match q w with Some (_, w') => w' | None => w end)
      (λ w, match q w with Some (a, _) => Ret a | None => Raise end).
Definition atomically {A} (q : World → A * World) : T A := statement (λ w, Some (q w)).
Definition reading {A} (q : World → A) : T A := atomically (λ w, (q w, w)).
Definition external (c : Ext) : T Answer := Call c Ret.
(** A call of the platform that throws on [None]. *)
Definition or_raise {A} (o : option A) : T A := match o with Some a => Ret a | None => Raise end.
End Programs.

#[export] Instance Thread_ret World Ext Answer : MRet (Thread World Ext Answer) := λ A, Ret.
#[export] Instance Thread_bind World Ext Answer : MBind (Thread World Ext Answer) := λ A B, thread_bind.

(** ** Handlers that run alone *)

Section Alone.
Context {World Ext Answer : Type}.
Abbreviation T := (Thread World Ext Answer).

(** A handler that runs alone, with the answers of the other services. *)
Fixpoint run_alone {A} (answer : Ext → Answer) (t : T A) (w : World) : option A * World :=
  match t with
  | Ret a => (Some a, w)
  | Raise => (None, w)
  | Act upd k => run_alone answer (k w) (upd w)
  | Call c k => run_alone answer (k (answer c)) w
  end.

Lemma run_alone_bind {A B} answer (t : T A) (f : A → T B) w :
  run_alone answer (t ≫= f) w =
  match run_alone answer t w with (Some a, w') => run_alone answer (f a) w' | (None, w') => (None, w') end.
Proof. revert w. induction t as [a| |upd k IH|c k IH]; intros w; [done|done|apply IH|apply IH]. Qed.

Lemma run_alone_reading {A B} answer (q : World → B) (k : B → T A) w :
  run_alone answer (reading q ≫= k) w = run_alone answer (k (q w)) w.
Proof. done. Qed.

Lemma run_alone_statement {A B} answer (q : World → option (B * World)) (k : B → T A) w b w' :
  q w = Some (b, w') → run_alone answer (statement q ≫= k) w = run_alone answer (k b) w'.
Proof. intros E. rewrite run_alone_bind. unfold statement. cbn. by rewrite E. Qed.

(** From world [w], with nothing in between and whatever the other services
    answer, [t] ends with [Q], or with [I] when it raises. *)
Fixpoint alone {A} (I : World → Prop) (t : T A) (w : World) (Q : A → World → Prop) : Prop :=
  match t with
  | Ret a => Q a w
  | Raise => I w
  | Act upd k => alone I (k w) (upd w) Q
  | Call c k => ∀ r, alone I (k r) w Q
  end.

Lemma alone_bind {A B} I (t : T A) (f : A → T B) Q : ∀ w,
  alone I t w (λ a w', alone I (f a) w' Q) → alone I (t ≫= f) w Q.
Proof. induction t as [a| |upd k IH|c k IH]; intros w H; [exact H|exact H|apply IH, H|intros r; apply IH, H]. Qed.

Lemma alone_mono {A} I (t : T A) (Q Q' : A → World → Prop) : (∀ a w, Q a w → Q' a w) → ∀ w, alone I t w Q → alone I t w Q'.
Proof. intros HQ. induction t as [a| |upd k IH|c k IH]; intros w H; [by apply HQ|exact H|by apply IH|intros r; by apply IH]. Qed.

Lemma alone_reading {A B} I (q : World → A) (k : A → T B) w Q : alone I (k (q w)) w Q → alone I (reading q ≫= k) w Q.
Proof. intros H. by apply alone_bind. Qed.

Lemma alone_statement {A B} I (q : World → option (A * World)) (k : A → T B) w Q :
  match q w with Some (a, w') => alone I (k a) w' Q | None => I w end → alone I (statement q ≫= k) w Q.
Proof. intros H. apply alone_bind. unfold statement. cbn. by destruct (q w) as [[a w']|]. Qed.

Lemma alone_run {A} I answer (t : T A) Q : ∀ w, alone I t w Q →
  match run_alone answer t w with (Some a, w') => Q a w' | (None, w') => I w' end.
Proof. induction t as [a| |upd k IH|c k IH]; intros w H; [exact H|exact H|by apply IH|by apply IH]. Qed.
End Alone.

(** ** Tables *)

Definition table_rows {A} (table : gmap string A) : list A := map snd (map_to_list table).

(** Tables that only grow. *)

Definition table_le {A} (R : relation A) : relation (gmap string A) :=
  λ m m', ∀ k a, m !! k = Some a → ∃ a', m' !! k = Some a' ∧ R a a'.

#[export] Instance table_le_preorder {A} (R : relation A) : PreOrder R → PreOrder (table_le R).
Proof.
  intros [Hr Ht]. split.
  - intros m k a H. exists a. split; [done|apply Hr].
  - intros m1 m2 m3 H12 H23 k a H. destruct (H12 k a H) as (b & Hb & Rb). destruct (H23 k b Hb) as (c & Hc & Rc).
    exists c. split; [done|by eapply Ht].
Qed.

Lemma table_le_insert {A} (R : relation A) `{!PreOrder R} (m : gmap string A) k a :
  (∀ b, m !! k = Some b → R b a) → table_le R m (<[k := a]> m).
Proof.
  intros H j b Hj. destruct (decide (k = j)) as [->|Hne].
  - exists a. rewrite lookup_insert_eq. split; [done|by apply H].
  - exists b. rewrite lookup_insert_ne by done. done.
Qed.

(** ** What a handler guarantees *)

Section Safety.
Context {World Ext Answer : Type} (Inv : World → Prop) (G : relation World) `{!PreOrder G}.
Abbreviation T := (Thread World Ext Answer).

(** The atomic pieces a handler has run, with the worlds before and after. *)
Definition Pieces : Type := list (World * World).

(** From world [w], with the pieces [own] behind it, every piece of [t] keeps
    the invariant and moves forward, whatever forward moves come in between,
    and its result satisfies [Q]. *)
Fixpoint tsafe {A} (t : T A) (own : Pieces) (w : World) (Q : Pieces → A → World → Prop) : Prop :=
  match t with
  | Ret a => Q own a w
  | Raise => True
  | Act upd k => ∀ w1, Inv w1 → G w w1 →
      Inv (upd w1) ∧ G w1 (upd w1) ∧ tsafe (k w1) (own ++ [(w1, upd w1)]) (upd w1) Q
  | Call c k => ∀ r, tsafe (k r) own w Q
  end.

Lemma tsafe_mono {A} (t : T A) : ∀ own w (Q Q' : Pieces → A → World → Prop),
  (∀ own a w', G w w' → Q own a w' → Q' own a w') → tsafe t own w Q → tsafe t own w Q'.
Proof.
  induction t as [a| |upd k IH|c k IH]; cbn [tsafe]; intros own w Q Q' HQ H; [by apply HQ|done| |eauto].
  intros w1 Hi HG. destruct (H w1 Hi HG) as (Hi' & HG' & Ht). split; [done|]. split; [done|].
  eapply IH; [|exact Ht]. intros own' a w' Hw. apply HQ. by etrans; [|etrans].
Qed.

Lemma tsafe_bind {A B} (t : T A) (f : A → T B) : ∀ own w Q,
  tsafe t own w (λ own' a w', tsafe (f a) own' w' Q) → tsafe (t ≫= f) own w Q.
Proof.
  induction t as [a| |upd k IH|c k IH]; intros own w Q H; [exact H|done| |intros r; apply IH, H].
  intros w1 Hi HG. destruct (H w1 Hi HG) as (? & ? & ?). split; [done|]. split; [done|]. by apply IH.
Qed.

Lemma tsafe_statement {A} (q : World → option (A * World)) own w Q :
  (∀ w1, Inv w1 → G w w1 → match q w1 with
     | None => True
     | Some (a, w2) => Inv w2 ∧ G w1 w2 ∧ Q (own ++ [(w1, w2)]) a w2
     end) →
  tsafe (statement q : T A) own w Q.
Proof.
  intros H w1 Hi HG. specialize (H w1 Hi HG). destruct (q w1) as [[a w2]|]; [done|]. done.
Qed.

Lemma tsafe_atomically {A} (q : World → A * World) own w Q :
  (∀ w1, Inv w1 → G w w1 → Inv (q w1).2 ∧ G w1 (q w1).2 ∧ Q (own ++ [(w1, (q w1).2)]) (q w1).1 (q w1).2) →
  tsafe (atomically q : T A) own w Q.
Proof. intros H. apply tsafe_statement. intros w1 Hi HG. specialize (H w1 Hi HG). by destruct (q w1). Qed.

Lemma tsafe_reading {A} (q : World → A) own w Q :
  (∀ w1, Inv w1 → G w w1 → Q (own ++ [(w1, w1)]) (q w1) w1) → tsafe (reading q : T A) own w Q.
Proof. intros H. apply tsafe_atomically. intros w1 Hi HG. cbn. by split; [|split; [|apply H]]. Qed.

Lemma tsafe_or_raise {A} (o : option A) own w Q :
  (∀ a, o = Some a → Q own a w) → tsafe (or_raise o : T A) own w Q.
Proof. intros H. by destruct o; [apply H|]. Qed.

(** What others may interfere with also holds alone. *)
Lemma tsafe_alone {A} (t : T A) Q : ∀ own w, tsafe t own w Q → Inv w → alone Inv t w (λ _ w', Inv w' ∧ G w w').
Proof.
  induction t as [a| |upd k IH|c k IH]; intros own w Ht Hi; cbn in *; [done|done| |intros r; by eapply IH].
  destruct (Ht w Hi) as (Hi' & HG & Hk); [done|]. eapply alone_mono; [|by eapply IH].
  intros a w' [? ?]. split; [done|by etrans].
Qed.

(** ** The pool *)

Section Pool.
Context {Request Response : Type} (handle : Request → T Response) (env : World → World → Prop).

(** A handler that was started, with its request and the world it found. *)
Record Running := mkRunning { run_request : Request; run_start : World; run_thread : T Response }.

(** [cf_history]: the pieces run so far, with the number of their handler. *)
Record Config := mkConfig {
  cf_world : World; cf_threads : list Running; cf_history : list (nat * (World * World))
}.

(** A restart of the process: the handlers that did not respond are gone. *)
Definition killed (r : Running) : Running :=
  match run_thread r with
  | Ret _ => r
  | _ => mkRunning (run_request r) (run_start r) Raise
  end.

Definition advance (r : Running) (t : T Response) : Running := mkRunning (run_request r) (run_start r) t.

Inductive pool_step : Config → Config → Prop :=
| step_spawn w ts h req :
    pool_step (mkConfig w ts h) (mkConfig w (ts ++ [mkRunning req w (handle req)]) h)
| step_act w ts h i r upd k :
    ts !! i = Some r → run_thread r = Act upd k →
    pool_step (mkConfig w ts h) (mkConfig (upd w) (<[i := advance r (k w)]> ts) (h ++ [(i, (w, upd w))]))
| step_call w ts h i r c k answer :
    ts !! i = Some r → run_thread r = Call c k →
    pool_step (mkConfig w ts h) (mkConfig w (<[i := advance r (k answer)]> ts) h)
| step_env w w' ts h : env w w' → pool_step (mkConfig w ts h) (mkConfig w' ts h)
| step_crash w w' ts h : env w w' → pool_step (mkConfig w ts h) (mkConfig w' (map killed ts) h).

Definition own_pieces (i : nat) (h : list (nat * (World * World))) : Pieces :=
  map snd (List.filter (λ x, (x.1 =? i)%nat) h).

Context (Q : Request → World → Pieces → Response → World → Prop)
        (env_ok : ∀ w w', env w w' → Inv w → Inv w' ∧ G w w')
        (handlers_ok : ∀ req w, Inv w → tsafe (handle req) [] w (Q req w)).

Definition running_ok (w : World) (own : Pieces) (r : Running) : Prop :=
  ∃ w0, G (run_start r) w0 ∧ G w0 w ∧ tsafe (run_thread r) own w0 (Q (run_request r) (run_start r)).

Record pool_ok (c : Config) : Prop := {
  po_inv : Inv (cf_world c);
  po_running : ∀ i r, cf_threads c !! i = Some r → running_ok (cf_world c) (own_pieces i (cf_history c)) r;
  po_bound : ∀ x, x ∈ cf_history c → (x.1 < length (cf_threads c))%nat;
  po_past : ∀ x, x ∈ cf_history c → G x.2.2 (cf_world c);
  po_order : ∀ p q x y, (p < q)%nat → cf_history c !! p = Some x → cf_history c !! q = Some y → G x.2.2 y.2.1
}.

Lemma running_ok_mono w w' own r : G w w' → running_ok w own r → running_ok w' own r.
Proof. intros HG (w0 & H0 & H1 & Ht). exists w0. split; [done|]. split; [by etrans|done]. Qed.

Lemma own_pieces_snoc i h j x :
  own_pieces i (h ++ [(j, x)]) = own_pieces i h ++ (if (j =? i)%nat then [x] else []).
Proof.
  unfold own_pieces. rewrite List.filter_app, map_app. cbn. by destruct (j =? i)%nat.
Qed.

Lemma own_pieces_none i (h : list (nat * (World * World))) :
  (∀ x, x ∈ h → (x.1 < i)%nat) → own_pieces i h = [].
Proof.
  intros H. unfold own_pieces. rewrite filter_none; [done|]. intros x Hx. apply Nat.eqb_neq. specialize (H x Hx). lia.
Qed.

Lemma own_pieces_elem i (h : list (nat * (World * World))) x : x ∈ own_pieces i h ↔ (i, x) ∈ h.
Proof.
  unfold own_pieces. rewrite list_elem_of_fmap. split.
  - intros ([j y] & -> & [Hin Hj]%In_filter_iff). apply Nat.eqb_eq in Hj. cbn in Hj. by subst.
  - intros H. exists (i, x). split; [done|]. apply In_filter_iff. split; [done|]. apply Nat.eqb_refl.
Qed.

Lemma killed_ok w own r : running_ok w own r → running_ok w own (killed r).
Proof.
  intros (w0 & H0 & H1 & Ht). unfold killed. destruct (run_thread r) eqn:E; exists w0; cbn; rewrite ?E in *; done.
Qed.

Lemma step_spawn_ok w ts h req :
  pool_ok (mkConfig w ts h) → pool_ok (mkConfig w (ts ++ [mkRunning req w (handle req)]) h).
Proof.
  intros [Hi Hr Hb Hp Ho]. split; cbn [cf_world cf_threads cf_history] in *; try done.
  - intros i r Hl. apply lookup_app_Some in Hl as [Hl|[Hlen Hl]]; [by apply Hr|].
    apply list_lookup_singleton_Some in Hl as [Hz <-].
    rewrite own_pieces_none by (intros x Hx; specialize (Hb x Hx); lia).
    exists w. split; [done|]. split; [done|]. by apply handlers_ok.
  - intros x Hx. rewrite length_app. specialize (Hb x Hx). lia.
Qed.

Lemma step_act_ok w ts h i r upd k :
  ts !! i = Some r → run_thread r = Act upd k → pool_ok (mkConfig w ts h) →
  pool_ok (mkConfig (upd w) (<[i := advance r (k w)]> ts) (h ++ [(i, (w, upd w))])).
Proof.
  intros Hl Ht [Hi Hr Hb Hp Ho]. cbn [cf_world cf_threads cf_history] in *.
  pose proof (Hr i r Hl) as (w0 & H0 & H1 & Hs). rewrite Ht in Hs. destruct (Hs w Hi H1) as (Hi' & HG & Hk).
  split; cbn [cf_world cf_threads cf_history]; [done| | | |].
  - intros j r' Hj. rewrite own_pieces_snoc. apply list_lookup_insert_Some in Hj as [(<- & <- & _)|[Hne Hj]].
    + rewrite Nat.eqb_refl. exists (upd w). split; [by etrans; [|etrans]|]. split; [done|]. exact Hk.
    + rewrite (proj2 (Nat.eqb_neq _ _) Hne), app_nil_r. eapply running_ok_mono; [exact HG|]. by apply Hr.
  - intros x [Hx| ->]%elem_of_snoc; rewrite length_insert; [by apply Hb|]. by eapply lookup_lt_Some.
  - intros x [Hx| ->]%elem_of_snoc; [|done]. etrans; [by apply Hp|done].
  - intros p q x y Hpq Hx Hy. apply lookup_app_Some in Hy as [Hy|[Hlen Hy]].
    + rewrite lookup_app_l in Hx by (apply lookup_lt_Some in Hy; lia). by eapply Ho.
    + apply list_lookup_singleton_Some in Hy as [Hz <-]. cbn.
      rewrite lookup_app_l in Hx by lia. apply Hp. by eapply list_elem_of_lookup_2.
Qed.

Lemma step_call_ok w ts h i r c k answer :
  ts !! i = Some r → run_thread r = Call c k → pool_ok (mkConfig w ts h) →
  pool_ok (mkConfig w (<[i := advance r (k answer)]> ts) h).
Proof.
  intros Hl Ht [Hi Hr Hb Hp Ho]. split; cbn [cf_world cf_threads cf_history] in *; try done.
  - intros j r' Hj. apply list_lookup_insert_Some in Hj as [(<- & <- & _)|[Hne Hj]]; [|by apply Hr].
    destruct (Hr i r Hl) as (w0 & H0 & H1 & Hs). rewrite Ht in Hs. exists w0. split; [done|]. split; [done|]. apply Hs.
  - intros x Hx. rewrite length_insert. by apply Hb.
Qed.

Lemma step_env_ok w w' ts ts' h :
  env w w' → (∀ i r, ts' !! i = Some r → ∃ r0, ts !! i = Some r0 ∧ (r = r0 ∨ r = killed r0)) →
  length ts' = length ts → pool_ok (mkConfig w ts h) → pool_ok (mkConfig w' ts' h).
Proof.
  intros He Hts Hlen [Hi Hr Hb Hp Ho]. destruct (env_ok w w' He Hi) as [Hi' HG]. split; cbn [cf_world cf_threads cf_history] in *; try done.
  - intros i r Hl. destruct (Hts i r Hl) as (r0 & Hl0 & Hr0). apply (running_ok_mono w); [done|].
    destruct Hr0 as [->| ->]; [by apply Hr|]. apply killed_ok. by apply Hr.
  - intros x Hx. rewrite Hlen. by apply Hb.
  - intros x Hx. etrans; [by apply Hp|done].
Qed.

Lemma pool_step_ok c c' : pool_step c c' → pool_ok c → pool_ok c'.
Proof.
  intros Hs Hok. destruct Hs.
  - by apply step_spawn_ok.
  - by eapply step_act_ok.
  - by eapply step_call_ok.
  - eapply step_env_ok; [done|eauto|done|done].
  - eapply step_env_ok; [done| |by rewrite length_map|done].
    intros i r Hl. rewrite list_lookup_fmap in Hl. apply fmap_Some in Hl as (r0 & ? & ->). eauto.
Qed.

Definition initial (w : World) : Config := mkConfig w [] [].

Lemma pool_reachable_ok w c : Inv w → rtc pool_step (initial w) c → pool_ok c.
Proof.
  intros Hi Hr. assert (pool_ok (initial w)) as Hok.
  { split; cbn; [done|intros i r Hl; by rewrite lookup_nil in Hl|..]; try (by intros x ?%not_elem_of_nil).
    intros p q x y _ Hx. by rewrite lookup_nil in Hx. }
  revert Hok. induction Hr as [|c1 c2 c3 Hs _ IH]; [done|]. intros Hok. apply IH. by eapply pool_step_ok.
Qed.

(** Later configurations only add: the world moved forward. *)
Lemma pool_reachable_forward c c' : pool_ok c → rtc pool_step c c' → G (cf_world c) (cf_world c').
Proof.
  intros Hok Hr. induction Hr as [|c1 c2 c3 Hs _ IH]; [done|].
  etrans; [|by apply IH; eapply pool_step_ok]. clear IH.
  destruct Hs as [| w ts h i r upd k Hl Ht | | w w' ts h He | w w' ts h He]; cbn in *; try done.
  - destruct Hok as [Hi Hrun _ _ _]. destruct (Hrun i r Hl) as (w0 & _ & H1 & Hsafe). rewrite Ht in Hsafe.
    cbn in *. by destruct (Hsafe w Hi H1) as (_ & ? & _).
  - by destruct (env_ok w w' He (po_inv _ Hok)).
  - by destruct (env_ok w w' He (po_inv _ Hok)).
Qed.

Lemma pool_steps_ok c c' : rtc pool_step c c' → pool_ok c → pool_ok c'.
Proof. induction 1 as [|c1 c2 c3 Hs _ IH]; [done|]. intros Hok. by apply IH, (pool_step_ok _ _ Hs). Qed.

(** A handler with a number not in use at [c] started later. *)
Definition started_after (c c' : Config) : Prop :=
  ∀ i r, (length (cf_threads c) <= i)%nat → cf_threads c' !! i = Some r → G (cf_world c) (run_start r).

Lemma started_after_step c c1 c2 :
  pool_ok c1 → rtc pool_step c c1 → G (cf_world c) (cf_world c1) → pool_step c1 c2 →
  started_after c c1 → started_after c c2.
Proof.
  intros Hok _ HG Hs H i r Hi Hl. destruct Hs; cbn [cf_threads cf_world] in *.
  - apply lookup_app_Some in Hl as [Hl|[_ Hl]]; [by eapply H|].
    apply list_lookup_singleton_Some in Hl as [_ <-]. exact HG.
  - apply list_lookup_insert_Some in Hl as [(<- & <- & _)|[_ Hl]]; [cbn; by eapply H|by eapply H].
  - apply list_lookup_insert_Some in Hl as [(<- & <- & _)|[_ Hl]]; [cbn; by eapply H|by eapply H].
  - by eapply H.
  - rewrite list_lookup_fmap in Hl. apply fmap_Some in Hl as (r0 & Hl & ->).
    specialize (H i r0 Hi Hl). unfold killed. by destruct (run_thread r0).
Qed.

Lemma spawned_later c c' : pool_ok c → rtc pool_step c c' → started_after c c'.
Proof.
  intros Hok. revert c'. apply (rtc_ind_r (λ c', started_after c c')); [|intros c1 c2 Hr Hs IH].
  - intros i r Hi Hl. apply lookup_lt_Some in Hl. lia.
  - eapply started_after_step; [by eapply pool_steps_ok|exact Hr|by apply pool_reachable_forward|exact Hs|exact IH].
Qed.

(** What a finished handler has established. *)
Lemma finished_ok c i r a :
  pool_ok c → cf_threads c !! i = Some r → run_thread r = Ret a →
  ∃ w, G (run_start r) w ∧ G w (cf_world c)
    ∧ Q (run_request r) (run_start r) (own_pieces i (cf_history c)) a w.
Proof.
  intros Hok Hl Ht. destruct (po_running _ Hok i r Hl) as (w & H0 & H1 & Hs). rewrite Ht in Hs. eauto.
Qed.

(** A change for good happens in one piece of one handler. *)
Lemma once_only c (P : World → Prop) i j w1 w1' w2 w2' :
  (∀ w w', G w w' → P w → P w') → pool_ok c →
  (w1, w1') ∈ own_pieces i (cf_history c) → ¬ P w1 → P w1' →
  (w2, w2') ∈ own_pieces j (cf_history c) → ¬ P w2 → P w2' → i = j.
Proof.
  intros HP Hok H1 Hn1 Hp1 H2 Hn2 Hp2. rewrite own_pieces_elem in H1, H2.
  apply list_elem_of_lookup in H1 as [p Hp]. apply list_elem_of_lookup in H2 as [q Hq].
  destruct (lt_eq_lt_dec p q) as [[Hlt|Heq]|Hlt].
  - exfalso. apply Hn2. apply (HP w1'); [|done]. exact (po_order _ Hok p q _ _ Hlt Hp Hq).
  - subst. congruence.
  - exfalso. apply Hn1. apply (HP w2'); [|done]. exact (po_order _ Hok q p _ _ Hlt Hq Hp).
Qed.
End Pool.
End Safety.

(** * Handlers whose every statement stays within a relation

    The rely-guarantee judgement of [Threads] with one more guarantee: each
    piece a handler runs is in a reflexive relation, such as leaving the rows
    of other accounts alone.  The rules are those of the judgement below. *)

Lemma elem_snoc_old {A} (x : A) l y : x ∈ l → x ∈ l ++ [y].
Proof. intros Hx. apply elem_of_app. by left. Qed.
Lemma elem_snoc_new {A} (x : A) l : x ∈ l ++ [x].
Proof. apply elem_of_app. right. by apply list_elem_of_singleton. Qed.

Section Guarded.
Context {World Ext Answer : Type} (Inv : World → Prop) (G : relation World) `{!PreOrder G}.
Context (R : relation World) `{!Reflexive R}.
Abbreviation Program := (Thread World Ext Answer).
Abbreviation Own := (Pieces (World := World)).

Definition within (own : Own) : Prop := ∀ w1 w2, (w1, w2) ∈ own → R w1 w2.

(** From [w], with the pieces [own] behind it, every piece keeps the invariant,
    moves forward and stays within [R]; the result satisfies [P]. *)
Definition gsafe {A} (own : Own) (t : Program A) (w : World) (P : Own → A → World → Prop) : Prop :=
  within own → tsafe Inv G t own w (λ own' a w', within own' ∧ P own' a w').

Lemma within_nil : within [].
Proof. by intros w1 w2 ?%not_elem_of_nil. Qed.

Lemma within_snoc own w1 w2 : within own → R w1 w2 → within (own ++ [(w1, w2)]).
Proof. intros Hq Hg a b [Hab|Hab]%elem_of_app; [by apply Hq|]. by apply list_elem_of_singleton in Hab as [= -> ->]. Qed.

Implicit Types own : Own.

Lemma gsafe_ret {A} own (a : A) w (P : Own → A → World → Prop) : P own a w → gsafe own (mret a) w P.
Proof. intros Hx Hq. by split. Qed.

Lemma gsafe_raise {A} own w (P : Own → A → World → Prop) : gsafe own Raise w P.
Proof. by intros Hq. Qed.

Lemma gsafe_bind {A B} own (t : Program B) (k : B → Program A) w P :
  gsafe own t w (λ own' b w', gsafe own' (k b) w' P) → gsafe own (t ≫= k) w P.
Proof.
  intros Hx Hq. apply tsafe_bind. eapply tsafe_mono; [apply _| |by apply Hx].
  intros own' b w' _ [Hq' Hk]. by apply Hk.
Qed.

Lemma gsafe_mono {A} own (t : Program A) w (P P' : Own → A → World → Prop) :
  (∀ own' a w', G w w' → P own' a w' → P' own' a w') → gsafe own t w P → gsafe own t w P'.
Proof.
  intros HP Ht Hq. eapply tsafe_mono; [apply _| |by apply Ht]. intros own' a w' Hw [Hq' Ha]. split; [done|by apply HP].
Qed.

Lemma gsafe_statement {B} own (q : World → option (B * World)) w (P : Own → B → World → Prop) :
  (∀ w1, Inv w1 → G w w1 → match q w1 with
     | None => True
     | Some (b, w2) => (Inv w2 ∧ G w1 w2) ∧ R w1 w2 ∧ P (own ++ [(w1, w2)]) b w2
     end) → gsafe own (statement q) w P.
Proof.
  intros Hx Hq. apply tsafe_statement; [done|]. intros w1 Hi Hle. specialize (Hx w1 Hi Hle).
  destruct (q w1) as [[b w2]|]; [|done]. destruct Hx as ([? ?] & ? & ?).
  split; [done|]. split; [done|]. split; [by apply within_snoc|done].
Qed.

Lemma gsafe_atomically {B} own (q : World → B * World) w (P : Own → B → World → Prop) :
  (∀ w1, Inv w1 → G w w1 → (Inv (q w1).2 ∧ G w1 (q w1).2) ∧ R w1 (q w1).2
     ∧ P (own ++ [(w1, (q w1).2)]) (q w1).1 (q w1).2) → gsafe own (atomically q) w P.
Proof. intros Hx. apply gsafe_statement. intros w1 Hi Hle. specialize (Hx w1 Hi Hle). by destruct (q w1). Qed.

Lemma gsafe_reading {A B} own (q : World → B) (k : B → Program A) w P :
  (∀ w1, Inv w1 → G w w1 → gsafe (own ++ [(w1, w1)]) (k (q w1)) w1 P) → gsafe own (reading q ≫= k) w P.
Proof.
  intros Hx. apply gsafe_bind, gsafe_atomically. intros w1 Hi Hle. cbn.
  split; [by split|]. split; [reflexivity|by apply Hx].
Qed.

Lemma gsafe_call {A} own c (k : Answer → Program A) w P :
  (∀ a, gsafe own (k a) w P) → gsafe own (external c ≫= k) w P.
Proof. intros Hx. apply gsafe_bind. intros Hq a. split; [done|apply Hx]. Qed.
End Guarded.

(** * An executable scheduler of a pool of handlers

    A list of events is one interleaving of [Threads]: the scheduler computes
    the configuration it leads to, and every configuration it computes is
    reached by the steps of the pool. *)

(** A request arrives; handler [i] runs its next atomic piece, or gets the
    answer to its call; something happens outside the service. *)
Inductive Event (Request Answer Move : Type) : Type :=
| EvSpawn (req : Request) | EvRun (i : nat) | EvAnswer (i : nat) (a : Answer) | EvEnv (m : Move).
Arguments EvSpawn {Request Answer Move}. Arguments EvRun {Request Answer Move}.
Arguments EvAnswer {Request Answer Move}. Arguments EvEnv {Request Answer Move}.

Section Schedule.
Context {World Ext Answer Request Response Move : Type}.
Context (serve : Request → Thread World Ext Answer Response).
(** The moves of the environment, [None] where one is not possible. *)
Context (move : Move → World → option World).
Abbreviation Pool := (Config (World := World) (Ext := Ext) (Answer := Answer) (Request := Request) (Response := Response)).

Definition run_event (e : Event Request Answer Move) (c : Pool) : option Pool :=
  let '(mkConfig w ts h) := c in
  match e with
  | EvSpawn req => Some (mkConfig w (ts ++ [mkRunning req w (serve req)]) h)
  | EvRun i =>
      r ← ts !! i;
      match run_thread r with
      | Act upd k => Some (mkConfig (upd w) (<[i := advance r (k w)]> ts) (h ++ [(i, (w, upd w))]))
      | _ => None
      end
  | EvAnswer i a =>
      r ← ts !! i;
      match run_thread r with
      | Call _ k => Some (mkConfig w (<[i := advance r (k a)]> ts) h)
      | _ => None
      end
  | EvEnv m => match move m w with Some w' => Some (mkConfig w' ts h) | None => None end
  end.

Fixpoint run_events (l : list (Event Request Answer Move)) (c : Pool) : option Pool :=
  match l with [] => Some c | e :: l => c ← run_event e c; run_events l c end.

(** The response of a finished handler. *)
Definition response_of (i : nat) (c : Pool) : option Response :=
  r ← cf_threads c !! i; match run_thread r with Ret a => Some a | _ => None end.

Lemma response_of_thread i c a :
  response_of i c = Some a → ∃ r, cf_threads c !! i = Some r ∧ run_thread r = Ret a.
Proof.
  unfold response_of. destruct (cf_threads c !! i) as [r|]; [|discriminate]. cbn [mbind option_bind].
  destruct (run_thread r) eqn:E; try discriminate. intros [= ->]. eauto.
Qed.

Context (env : World → World → Prop) (move_ok : ∀ m w w', move m w = Some w' → env w w').

Lemma run_event_step e c c' : run_event e c = Some c' → pool_step serve env c c'.
Proof.
  destruct c as [w ts h]. destruct e as [req|i|i a|m]; cbn [run_event].
  - intros [= <-]. apply step_spawn.
  - destruct (ts !! i) as [r|] eqn:Er; [|discriminate]. cbn [mbind option_bind].
    destruct (run_thread r) eqn:Et; try discriminate. intros [= <-]. by eapply step_act.
  - destruct (ts !! i) as [r|] eqn:Er; [|discriminate]. cbn [mbind option_bind].
    destruct (run_thread r) eqn:Et; try discriminate. intros [= <-]. by eapply step_call.
  - destruct (move m w) as [w'|] eqn:E; [|discriminate]. intros [= <-]. by eapply step_env, move_ok.
Qed.

Lemma run_events_steps l : ∀ c c', run_events l c = Some c' → rtc (pool_step serve env) c c'.
Proof.
  induction l as [|e l IH]; intros c c'; cbn [run_events]; [by intros [= ->]|].
  destruct (run_event e c) as [c1|] eqn:E; [|discriminate]. cbn [mbind option_bind]. intros H.
  eapply rtc_l; [by eapply run_event_step|by apply IH].
Qed.
End Schedule.
