(* ===== verification/ControlDb.v ===== *)
(** * The tables of the control plane that authentication uses
    (services/control/src/db/schema.ts)

    A table is a finite map from its primary key to its rows; the queries of
    the routes are functions of the world, one per statement.  An insert
    raises when the primary key or a unique column is taken.  Identifiers are
    the canonical text of a uuid; timestamps are milliseconds. *)

From S2P Require Export Threads WebAuthn.

Record UserRow := mkUser {
  u_id : string; u_email : string; u_displayName : option string; u_homeRegion : string;
  u_features : list string; u_computeMode : string; u_homeDeviceId : option string
}.
Record DeviceRow := mkDevice {
  d_id : string; d_userId : string; d_name : string; d_platform : string; d_devicePublicKey : string;
  d_revokedAt : option Z; d_revocationReason : option string
}.
Record InviteRow := mkInvite {
  i_code : string; i_email : option string; i_note : option string;
  i_redeemedByUserId : option string; i_redeemedAt : option Z
}.
Record EnrollmentCodeRow := mkCode {
  e_codeHash : string; e_userId : string; e_expiresAt : Z; e_redeemedAt : option Z;
  e_wrapSalt : option string; e_wrappers : option (list (string * string))
}.
Record PasskeyRow := mkPasskey {
  p_id : string; p_userId : string; p_publicKey : string; p_prfCapable : bool; p_signCount : Z;
  p_label : option string; p_lastUsedAt : option Z
}.
Record SpaceRow := mkSpaceRow {
  s_id : string; s_userId : string; s_name : string; s_color : string; s_position : Z; s_egressPolicy : string
}.
Record MachineRow := mkMachineRow {
  m_id : string; m_userId : string; m_state : string; m_region : string; m_cpuKind : string;
  m_cpus : Z; m_memoryMb : Z; m_agentAddress : option string
}.
Record OutboxRow := mkOutbox {
  o_id : string; o_userId : string; o_deviceId : string; o_deliveredAt : option Z; o_attempts : Z
}.
Record AuditRow := mkAudit { a_userId : string; a_type : string; a_actorDeviceId : option string }.

(** The database, the clock, and the memory of the process. *)
Record World := mkWorld {
  w_nowMs : Z;
  w_challenges : ChallengeStore;
  w_users : gmap string UserRow;
  w_devices : gmap string DeviceRow;
  w_invites : gmap string InviteRow;
  w_codes : gmap string EnrollmentCodeRow;
  w_passkeys : gmap string PasskeyRow;
  w_spaces : gmap string SpaceRow;
  w_machines : gmap string MachineRow;
  w_outbox : gmap string OutboxRow;
  w_audit : list AuditRow
}.

Definition set_challenges x w := mkWorld (w_nowMs w) x (w_users w) (w_devices w) (w_invites w) (w_codes w)
  (w_passkeys w) (w_spaces w) (w_machines w) (w_outbox w) (w_audit w).
Definition set_users x w := mkWorld (w_nowMs w) (w_challenges w) x (w_devices w) (w_invites w) (w_codes w)
  (w_passkeys w) (w_spaces w) (w_machines w) (w_outbox w) (w_audit w).
Definition set_devices x w := mkWorld (w_nowMs w) (w_challenges w) (w_users w) x (w_invites w) (w_codes w)
  (w_passkeys w) (w_spaces w) (w_machines w) (w_outbox w) (w_audit w).
Definition set_invites x w := mkWorld (w_nowMs w) (w_challenges w) (w_users w) (w_devices w) x (w_codes w)
  (w_passkeys w) (w_spaces w) (w_machines w) (w_outbox w) (w_audit w).
Definition set_codes x w := mkWorld (w_nowMs w) (w_challenges w) (w_users w) (w_devices w) (w_invites w) x
  (w_passkeys w) (w_spaces w) (w_machines w) (w_outbox w) (w_audit w).
Definition set_passkeys x w := mkWorld (w_nowMs w) (w_challenges w) (w_users w) (w_devices w) (w_invites w) (w_codes w)
  x (w_spaces w) (w_machines w) (w_outbox w) (w_audit w).
Definition set_spaces x w := mkWorld (w_nowMs w) (w_challenges w) (w_users w) (w_devices w) (w_invites w) (w_codes w)
  (w_passkeys w) x (w_machines w) (w_outbox w) (w_audit w).
Definition set_machines x w := mkWorld (w_nowMs w) (w_challenges w) (w_users w) (w_devices w) (w_invites w) (w_codes w)
  (w_passkeys w) (w_spaces w) x (w_outbox w) (w_audit w).
Definition set_outbox x w := mkWorld (w_nowMs w) (w_challenges w) (w_users w) (w_devices w) (w_invites w) (w_codes w)
  (w_passkeys w) (w_spaces w) (w_machines w) x (w_audit w).
Definition set_audit x w := mkWorld (w_nowMs w) (w_challenges w) (w_users w) (w_devices w) (w_invites w) (w_codes w)
  (w_passkeys w) (w_spaces w) (w_machines w) (w_outbox w) x.

(** What the routes ask of other services, and the answers. *)
Inductive ExtCall := NotifyHub (userId deviceId : string) | Provision (userId machineId region : string).
Inductive ExtAnswer := Acked | NotConfigured | Failed | Provisioned (agentAddress : option string).

Abbreviation Handler := (Thread World ExtCall ExtAnswer).

(** ** Statements *)

Definition rows {A} (table : gmap string A) : list A := map snd (map_to_list table).

(** [select ... where ...] of at most one row. *)
Definition select_where {A} (table : World → gmap string A) (p : A → bool) : Handler (option A) :=
  reading (λ w, List.find p (rows (table w))).
Definition select_by_id {A} (table : World → gmap string A) (id : string) : Handler (option A) :=
  reading (λ w, table w !! id).

Definition taken {A} (p : A → bool) (table : gmap string A) : bool := existsb p (rows table).

(** [update ... set ... where id and guard returning]. *)
Definition update_where {A} (table : World → gmap string A) (set : gmap string A → World → World)
    (id : string) (guard : World → A → bool) (change : World → A → A) : Handler (option A) :=
  atomically (λ w,
    match table w !! id with
    | Some row => if guard w row then (Some (change w row), set (<[id := change w row]> (table w)) w) else (None, w)
    | None => (None, w)
    end).

Definition insert_user (u : UserRow) : Handler (option UserRow) :=
  statement (λ w,
    if bool_decide (is_Some (w_users w !! u_id u))
       || taken (λ v, String.eqb (u_email v) (u_email u)) (w_users w) then None
    else Some (Some u, set_users (<[u_id u := u]> (w_users w)) w)).

Definition insert_device (d : DeviceRow) : Handler (option DeviceRow) :=
  statement (λ w,
    if bool_decide (is_Some (w_devices w !! d_id d))
       || taken (λ v, String.eqb (d_devicePublicKey v) (d_devicePublicKey d)) (w_devices w)
       || negb (bool_decide (is_Some (w_users w !! d_userId d))) then None
    else Some (Some d, set_devices (<[d_id d := d]> (w_devices w)) w)).

Definition insert_code (c : EnrollmentCodeRow) : Handler unit :=
  statement (λ w,
    if bool_decide (is_Some (w_codes w !! e_codeHash c)) then None
    else Some (tt, set_codes (<[e_codeHash c := c]> (w_codes w)) w)).

Definition insert_passkey (p : PasskeyRow) : Handler (option PasskeyRow) :=
  statement (λ w,
    if bool_decide (is_Some (w_passkeys w !! p_id p)) then None
    else Some (Some p, set_passkeys (<[p_id p := p]> (w_passkeys w)) w)).

Definition insert_space (s : SpaceRow) : Handler (option SpaceRow) :=
  statement (λ w,
    if bool_decide (is_Some (w_spaces w !! s_id s)) then None
    else Some (Some s, set_spaces (<[s_id s := s]> (w_spaces w)) w)).

Definition insert_machine (m : MachineRow) : Handler (option MachineRow) :=
  statement (λ w,
    if bool_decide (is_Some (w_machines w !! m_id m))
       || taken (λ v, String.eqb (m_userId v) (m_userId m)) (w_machines w) then None
    else Some (Some m, set_machines (<[m_id m := m]> (w_machines w)) w)).

Definition insert_outbox (o : OutboxRow) : Handler unit :=
  statement (λ w,
    if bool_decide (is_Some (w_outbox w !! o_id o)) then None
    else Some (tt, set_outbox (<[o_id o := o]> (w_outbox w)) w)).

(** All rows of one statement or none. *)
Fixpoint insert_invite_rows (l : list InviteRow) (table : gmap string InviteRow) : option (gmap string InviteRow) :=
  match l with
  | [] => Some table
  | r :: l => if bool_decide (is_Some (table !! i_code r)) then None
              else insert_invite_rows l (<[i_code r := r]> table)
  end.
Definition insert_invites (l : list InviteRow) : Handler unit :=
  statement (λ w, (λ t, (tt, set_invites t w)) <$> insert_invite_rows l (w_invites w)).

Definition insert_audit (a : AuditRow) : Handler unit :=
  statement (λ w,
    if bool_decide (is_Some (w_users w !! a_userId a)) then Some (tt, set_audit (w_audit w ++ [a]) w) else None).

(** ** The process: clock, challenges *)

Definition now : Handler Z := reading w_nowMs.
Definition nowSeconds : Handler Z := reading (λ w, w_nowMs w / 1000).

Definition issue_challenge (key : string) (random : bytes) : Handler string :=
  atomically (λ w, let '(c, s) := issue key (w_nowMs w) random (w_challenges w) in (c, set_challenges s w)).
Definition take_pending (key : string) : Handler (option string) :=
  atomically (λ w, let '(c, s) := take_challenge key (w_nowMs w) (w_challenges w) in (c, set_challenges s w)).
