(* ===== verification/ControlAuth.v ===== *)
(** * Accounts, devices and credentials of the control plane
    (services/control/src/app.ts lines 597-1488 and 3290-3296, auth.ts,
    outbox.ts, gateway.ts, invites.ts)

    Every route is a handler cut at its awaits.  Requests carry what the
    schemas let through, and the random values the route draws. *)

From S2P Require Export ControlDb.
From Stdlib Require Import Ascii.

(** ** Text helpers (auth.ts) *)

Definition HUB_TOKEN_PREFIX : string := "hbr_dev_".

Definition is_hex (c : ascii) : bool :=
  let n := code c in ((48 <=? n) && (n <=? 57)) || ((97 <=? n) && (n <=? 102)) || ((65 <=? n) && (n <=? 70)).
Definition hex_group (n : nat) (s : string) : bool := (String.length s =? n)%nat && forallb is_hex (chars s).

(** [UUID_RE.test] *)
Definition is_uuid (s : string) : bool :=
  match split_char "-" s with
  | [a; b; c; d; e] => hex_group 8 a && hex_group 4 b && hex_group 4 c && hex_group 4 d && hex_group 12 e
  | _ => false
  end.

Definition hubTokenFor (userId : string) (deviceId : option string) : string :=
  match deviceId with
  | None => HUB_TOKEN_PREFIX +:+ userId
  | Some d => HUB_TOKEN_PREFIX +:+ userId +:+ "." +:+ d
  end.

Definition parseHubToken (header : option string) : option (string * option string) :=
  token ← bearer header;
  if negb (startsWith token HUB_TOKEN_PREFIX) then None
  else
    let rest := slice_from (String.length HUB_TOKEN_PREFIX) token in
    let '(userId, deviceId) :=
      match indexOf_char "." rest with
      | None => (rest, None)
      | Some dot => (slice_to dot rest, Some (slice_from (dot + 1) rest))
      end in
    if negb (is_uuid userId) then None
    else if match deviceId with Some d => negb (is_uuid d) | None => false end then None
    else Some (userId, deviceId).

(** invites.ts *)
Definition CODE_ALPHABET : string := "abcdefghjkmnpqrstuvwxyz23456789".
Definition CODE_LENGTH : nat := 12.

(** One pass over the bytes drawn. *)
Fixpoint take_code_chars (raw : bytes) (out : string) : string :=
  match raw with
  | [] => out
  | byte :: raw =>
      let size := Z.of_nat (String.length CODE_ALPHABET) in
      let out :=
        if (byte <? 256 - 256 mod size) && (String.length out <? CODE_LENGTH)%nat
        then match nth_error (chars CODE_ALPHABET) (Z.to_nat (byte mod size)) with
             | Some c => out +:+ String c ""
             | None => out
             end
        else out in
      take_code_chars raw out
  end.

(** [draws]: the arrays [getRandomValues] fills; [None] when they do not
    suffice. *)
Fixpoint code_loop (draws : list bytes) (out : string) : option string :=
  if (CODE_LENGTH <=? String.length out)%nat then Some out
  else match draws with
       | [] => None
       | raw :: draws => code_loop draws (take_code_chars raw out)
       end.
Definition generateInviteCode (draws : list bytes) : option string :=
  (λ s, "sm-inv-" +:+ s) <$> code_loop draws "".

(** ** Requests and responses *)

Record SignupBody := mkSignup {
  sg_email : string; sg_displayName : option string; sg_homeRegion : option string;
  sg_inviteCode : option string; sg_computeMode : option string
}.

Inductive Request :=
| RDeviceChallenge (deviceId : string) (random : bytes)
| RDeviceCredential (deviceId devicePublicKey signature jti : string)
| RDeviceLogin (deviceId signature jti : string)
| RRefresh (authorization : option string) (body : option (string * string)) (jti : string)
| RPasskeyRegisterBegin (authorization : option string) (random : bytes)
| RPasskeyRegisterFinish (authorization : option string) (credential : RegistrationCredential)
    (deviceId label : option string) (jti : string)
| RPasskeyLoginBegin (userId : string) (random : bytes)
| RPasskeyLoginFinish (userId deviceId : string) (credential : AssertionCredential) (jti : string)
| RSignup (body : SignupBody) (userId spaceId machineId jti : string)
| RMintInvites (authorization : option string) (codes : list string) (email note : option string)
| RMintCode (authorization : option string) (codeHash : string) (wrapSalt : option string)
    (wrappers : option (list (string * string)))
| RRedeemCode (enrollmentCode jti : string)
| REnroll (authorization : option string) (name platform devicePublicKey newId : string)
| RListDevices (authorization : option string)
| RRename (authorization : option string) (id name : string)
| RRevoke (authorization : option string) (id : string) (reason : option string) (outboxId : string)
| RDrain
| ROutbox (authorization : option string).

Inductive Body :=
| BError (error : string) (reason : option string)
| BChallenge (challenge : string)
| BOptions (options : json)
| BToken (deviceToken : string) (exp : Z) (credentialKind : option string)
| BPasskey (passkey : PasskeyRow) (token : option (string * Z))
| BAccount (user : UserRow) (space : SpaceRow) (machine : option MachineRow) (bootstrapToken : string)
| BInvites (invites : list (string * option string))
| BCode (expiresAt : Z)
| BRedeemed (user : UserRow) (bootstrapToken : string) (wrapped : option (string * list (string * string)))
| BEnrolled (device : DeviceRow) (hubToken : string) (isHomeMachine : bool)
| BDevices (devices : list (DeviceRow * bool))
| BDevice (device : DeviceRow) (revoked : bool)
| BRevoked (device : DeviceRow) (hubNotified : bool)
| BDrained (delivered pending : Z)
| BOutbox (outbox : list OutboxRow).

Record Response := mkResp { rs_status : Z; rs_body : Body }.

Definition respond (status : Z) (body : Body) : Handler Response := mret (mkResp status body).
Definition refuse (status : Z) (error : string) : Handler Response := respond status (BError error None).
Definition unauthorized (reason : string) : Handler Response := respond 401 (BError "unauthorized" (Some reason)).

Definition deviceChallengeKey (deviceId : string) : string := "device:" +:+ deviceId.
Definition webauthnRegisterKey (userId : string) : string := "webauthn-register:" +:+ userId.
Definition webauthnLoginKey (userId : string) : string := "webauthn-login:" +:+ userId.

Definition ENROLLMENT_CODE_TTL_MS : Z := 10 * 60 * 1000.
Definition MAX_OUTBOX_ATTEMPTS : Z := 20.
Definition DEFAULT_SPACE_NAME : string := "Personal".
Definition DEFAULT_SPACE_COLOR : string := "#3B82F6".

(** A challenge that was pending; the empty text counts as none. *)
Definition pending (challenge : option string) : option string :=
  match challenge with Some "" => None | c => c end.

Definition failure_text (f : WebAuthnFailure) : string :=
  match f with
  | bad_client_data => "bad_client_data" | wrong_type => "wrong_type" | challenge_mismatch => "challenge_mismatch"
  | origin_mismatch => "origin_mismatch" | malformed_attestation => "malformed_attestation"
  | rp_id_mismatch => "rp_id_mismatch" | no_credential => "no_credential"
  | credential_id_mismatch => "credential_id_mismatch" | unsupported_algorithm => "unsupported_algorithm"
  | malformed_assertion => "malformed_assertion" | user_not_present => "user_not_present"
  | sign_count_regression => "sign_count_regression" | wa_bad_signature => "bad_signature"
  end.

Definition redeem_invite (r : InviteRow) (at_ : option Z) : InviteRow :=
  mkInvite (i_code r) (i_email r) (i_note r) (i_redeemedByUserId r) at_.
Definition redeemed_by (userId : string) (r : InviteRow) : InviteRow :=
  mkInvite (i_code r) (i_email r) (i_note r) (Some userId) (i_redeemedAt r).
Definition redeem_code (now : Z) (r : EnrollmentCodeRow) : EnrollmentCodeRow :=
  mkCode (e_codeHash r) (e_userId r) (e_expiresAt r) (Some now) (e_wrapSalt r) (e_wrappers r).
Definition purge_wrappers (r : EnrollmentCodeRow) : EnrollmentCodeRow :=
  mkCode (e_codeHash r) (e_userId r) (e_expiresAt r) (e_redeemedAt r) None None.
Definition set_home (deviceId : string) (u : UserRow) : UserRow :=
  mkUser (u_id u) (u_email u) (u_displayName u) (u_homeRegion u) (u_features u) (u_computeMode u) (Some deviceId).
Definition rename_device (name : string) (d : DeviceRow) : DeviceRow :=
  mkDevice (d_id d) (d_userId d) name (d_platform d) (d_devicePublicKey d) (d_revokedAt d) (d_revocationReason d).
Definition revoke_device (now : Z) (reason : option string) (d : DeviceRow) : DeviceRow :=
  mkDevice (d_id d) (d_userId d) (d_name d) (d_platform d) (d_devicePublicKey d) (Some now) reason.
Definition count_login (signCount now : Z) (p : PasskeyRow) : PasskeyRow :=
  mkPasskey (p_id p) (p_userId p) (p_publicKey p) (p_prfCapable p) signCount (p_label p) (Some now).
Definition address_machine (address : string) (m : MachineRow) : MachineRow :=
  mkMachineRow (m_id m) (m_userId m) (m_state m) (m_region m) (m_cpuKind m) (m_cpus m) (m_memoryMb m) (Some address).
Definition deliver (now : Z) (o : OutboxRow) : OutboxRow :=
  mkOutbox (o_id o) (o_userId o) (o_deviceId o) (Some now) (o_attempts o).
Definition set_attempts (n : Z) (o : OutboxRow) : OutboxRow :=
  mkOutbox (o_id o) (o_userId o) (o_deviceId o) (o_deliveredAt o) n.

Definition always {A} : World → A → bool := λ _ _, true.

Definition audit (userId type : string) (actorDeviceId : option string) : Handler unit :=
  insert_audit (mkAudit userId type actorDeviceId).

(** ** The revocation outbox (outbox.ts) *)

Fixpoint drain_rows (l : list OutboxRow) (delivered pending : Z) : Handler (Z * Z) :=
  match l with
  | [] => mret (delivered, pending)
  | row :: l =>
      if o_attempts row >=? MAX_OUTBOX_ATTEMPTS then drain_rows l delivered pending
      else
        answer ← external (NotifyHub (o_userId row) (o_deviceId row));
        match answer with
        | Acked =>
            _ ← update_where w_outbox set_outbox (o_id row) always (λ w, deliver (w_nowMs w));
            drain_rows l (delivered + 1) pending
        | NotConfigured => drain_rows l delivered (pending + 1)
        | _ =>
            _ ← update_where w_outbox set_outbox (o_id row) always (λ _, set_attempts (o_attempts row + 1));
            drain_rows l delivered (pending + 1)
        end
  end.

Definition undelivered (o : OutboxRow) : bool := match o_deliveredAt o with None => true | Some _ => false end.

Definition flushRevocationOutbox : Handler (Z * Z) :=
  l ← reading (λ w, List.filter undelivered (rows (w_outbox w))); drain_rows l 0 0.

(** ** Handlers *)

Section Handlers.
Context `{C : WebAuthnCrypto} (importPublicKeyRaw : bytes → option CryptoKey).
Context (signingKey verifyKey : CryptoKey) (envProvided : bool) (rp : RpConfig).
Context (invitesRequired : bool) (adminToken : option string).

Definition mintDeviceToken (userId deviceId jti : string) : Handler (string * Z) :=
  iat ← nowSeconds;
  let exp := iat + DEVICE_TOKEN_TTL_SECONDS in
  mret (signDeviceToken signingKey (mkClaims userId deviceId iat exp (Some jti)), exp).

Definition activeDevice (userId deviceId : string) : Handler (option DeviceRow) :=
  device ← select_by_id w_devices deviceId;
  mret match device with
       | Some d => if String.eqb (d_userId d) userId && bool_decide (d_revokedAt d = None) then Some d else None
       | None => None
       end.

Definition verifyDeviceProof (deviceId signatureB64 : string) : Handler (string + DeviceRow) :=
  challenge ← take_pending (deviceChallengeKey deviceId);
  match pending challenge with
  | None => mret (inl "challenge_expired")
  | Some challenge =>
      device ← select_by_id w_devices deviceId;
      match device with
      | None => mret (inl "unknown_device")
      | Some device =>
          if bool_decide (is_Some (d_revokedAt device)) then mret (inl "device_revoked")
          else
            publicKey ← or_raise (fromBase64 (d_devicePublicKey device) ≫= importPublicKeyRaw);
            signature ← or_raise (fromBase64 signatureB64);
            if ed25519_verify publicKey signature (deviceLoginSigningBytes deviceId challenge)
            then mret (inr device) else mret (inl "bad_signature")
      end
  end.

(** auth.ts *)
Definition authenticateToken (token : option string) : Handler (option (string * option string)) :=
  match token with
  | Some token =>
      if (length (split_char "." token) =? 3)%nat then
        seconds ← nowSeconds;
        result ← or_raise (verifyDeviceToken verifyKey token seconds);
        match result with
        | inl _ => mret None
        | inr claims =>
            if negb (is_uuid (dt_sub claims)) || negb (is_uuid (dt_did claims)) then mret None
            else
              user ← select_by_id w_users (dt_sub claims);
              match user with
              | None => mret None
              | Some user =>
                  if String.eqb (dt_did claims) (dt_sub claims) then mret (Some (u_id user, None))
                  else
                    device ← select_by_id w_devices (dt_did claims);
                    match device with
                    | Some d =>
                        if String.eqb (d_userId d) (u_id user) && bool_decide (d_revokedAt d = None)
                        then mret (Some (u_id user, Some (dt_did claims)))
                        else mret None
                    | None => mret None
                    end
              end
        end
      else
        match parseHubToken (Some ("Bearer " +:+ token)) with
        | None => mret None
        | Some (userId, deviceId) =>
            if envProvided then mret None
            else
              user ← select_by_id w_users userId;
              match user with
              | None => mret None
              | Some user =>
                  match deviceId with
                  | None => mret (Some (u_id user, None))
                  | Some d =>
                      device ← select_by_id w_devices d;
                      match device with
                      | Some row =>
                          if negb (String.eqb (d_userId row) (u_id user)) || negb (bool_decide (d_revokedAt row = None))
                          then mret None else mret (Some (u_id user, Some d))
                      | None => mret None
                      end
                  end
              end
        end
  | None => mret None
  end.

Definition bearerAuth (authorization : option string)
    (next : string → option string → Handler Response) : Handler Response :=
  identity ← authenticateToken (bearer authorization);
  match identity with
  | None => refuse 401 "unauthorized"
  | Some (userId, deviceId) => next userId deviceId
  end.

Definition token_response (status : Z) (kind : option string) (token : string * Z) : Handler Response :=
  respond status (BToken (fst token) (snd token) kind).

Definition device_credential (deviceId devicePublicKey signature jti : string) : Handler Response :=
  proof ← verifyDeviceProof deviceId signature;
  match proof with
  | inl reason => unauthorized reason
  | inr device =>
      if negb (String.eqb (d_devicePublicKey device) devicePublicKey) then unauthorized "key_mismatch"
      else
        _ ← audit (d_userId device) "auth.device_credential_registered" (Some (d_id device));
        token ← mintDeviceToken (d_userId device) (d_id device) jti;
        token_response 201 (Some "device-key") token
  end.

Definition device_login (deviceId signature jti : string) : Handler Response :=
  proof ← verifyDeviceProof deviceId signature;
  match proof with
  | inl reason => unauthorized reason
  | inr device =>
      token ← mintDeviceToken (d_userId device) (d_id device) jti; token_response 200 (Some "device-key") token
  end.

Definition refresh_bootstrap (sub jti : string) : Handler Response :=
  user ← select_by_id w_users sub;
  match user with
  | None => unauthorized "unknown_user"
  | Some _ =>
      enrolled ← select_where w_devices (λ d, String.eqb (d_userId d) sub && bool_decide (d_revokedAt d = None));
      match enrolled with
      | Some _ => unauthorized "bootstrap_consumed"
      | None => token ← mintDeviceToken sub sub jti; token_response 200 None token
      end
  end.

Definition refresh_token (token jti : string) : Handler Response :=
  seconds ← nowSeconds;
  result ← or_raise (verifyDeviceToken verifyKey token seconds);
  match result with
  | inl reason => unauthorized (token_error reason)
  | inr claims =>
      if String.eqb (dt_did claims) (dt_sub claims) then refresh_bootstrap (dt_sub claims) jti
      else
        device ← activeDevice (dt_sub claims) (dt_did claims);
        match device with
        | None => unauthorized "device_not_active"
        | Some _ => token ← mintDeviceToken (dt_sub claims) (dt_did claims) jti; token_response 200 None token
        end
  end.

Definition refresh (authorization : option string) (body : option (string * string)) (jti : string)
    : Handler Response :=
  let by_proof :=
    match body with
    | None => unauthorized "missing_credentials"
    | Some (deviceId, signature) =>
        proof ← verifyDeviceProof deviceId signature;
        match proof with
        | inl reason => unauthorized reason
        | inr device => token ← mintDeviceToken (d_userId device) (d_id device) jti; token_response 200 None token
        end
    end in
  match bearer authorization with
  | Some token => if (length (split_char "." token) =? 3)%nat then refresh_token token jti else by_proof
  | None => by_proof
  end.

Definition passkey_register_begin (userId : string) (random : bytes) : Handler Response :=
  user ← select_by_id w_users userId;
  match user with
  | None => refuse 404 "not_found"
  | Some user =>
      challenge ← issue_challenge (webauthnRegisterKey userId) random;
      respond 200 (BOptions (beginRegistration (u_id user) (u_email user) (u_displayName user) rp challenge))
  end.

Definition passkey_register_finish (userId : string) (credential : RegistrationCredential)
    (deviceId label : option string) (jti : string) : Handler Response :=
  challenge ← take_pending (webauthnRegisterKey userId);
  match pending challenge with
  | None => refuse 400 "challenge_expired"
  | Some challenge =>
      match finishRegistration rp challenge credential with
      | inl reason => respond 400 (BError "registration_rejected" (Some (failure_text reason)))
      | inr result =>
          existing ← select_by_id w_passkeys (rg_credentialId result);
          match existing with
          | Some _ => refuse 409 "credential_exists"
          | None =>
              inserted ← insert_passkey (mkPasskey (rg_credentialId result) userId (rg_publicKeyCose result)
                                           (rg_prfCapable result) (rg_signCount result) label None);
              match inserted with
              | None => refuse 500 "internal"
              | Some passkey =>
                  _ ← audit userId "auth.passkey_registered" None;
                  match deviceId with
                  | None => respond 201 (BPasskey passkey None)
                  | Some deviceId =>
                      device ← activeDevice userId deviceId;
                      match device with
                      | None => refuse 400 "unknown_device"
                      | Some device =>
                          token ← mintDeviceToken userId (d_id device) jti;
                          respond 201 (BPasskey passkey (Some token))
                      end
                  end
              end
          end
      end
  end.

Definition passkey_login_begin (userId : string) (random : bytes) : Handler Response :=
  credentials ← reading (λ w, List.filter (λ p, String.eqb (p_userId p) userId) (rows (w_passkeys w)));
  challenge ← issue_challenge (webauthnLoginKey userId) random;
  respond 200 (BOptions (beginLogin (map p_id credentials) rp challenge)).

Definition passkey_login_finish (userId deviceId : string) (credential : AssertionCredential) (jti : string)
    : Handler Response :=
  challenge ← take_pending (webauthnLoginKey userId);
  match pending challenge with
  | None => unauthorized "challenge_expired"
  | Some challenge =>
      found ← select_by_id w_passkeys (ac_id credential);
      match found with
      | Some passkey =>
          if negb (String.eqb (p_userId passkey) userId) then unauthorized "unknown_credential"
          else
            match finishLogin rp challenge (p_publicKey passkey) (p_signCount passkey) credential with
            | inl reason => unauthorized (failure_text reason)
            | inr signCount =>
                device ← activeDevice userId deviceId;
                match device with
                | None => unauthorized "device_not_active"
                | Some device =>
                    _ ← update_where w_passkeys set_passkeys (p_id passkey) always (λ w, count_login signCount (w_nowMs w));
                    token ← mintDeviceToken userId (d_id device) jti;
                    token_response 200 (Some "webauthn") token
                end
            end
      | None => unauthorized "unknown_credential"
      end
  end.

(** The invite gate of signup: the invite that was claimed, or the refusal. *)
Definition claim_invite (code : option string) (email : string) : Handler (Response + option string) :=
  if invitesRequired then
    match code with
    | None => mret (inl (mkResp 403 (BError "invite_required" None)))
    | Some code =>
        claimed ← update_where w_invites set_invites code
          (λ _ r, bool_decide (i_redeemedAt r = None)
                  && match i_email r with None => true | Some e => String.eqb e email end)
          (λ w r, redeem_invite r (Some (w_nowMs w)));
        mret match claimed with
             | None => inl (mkResp 403 (BError "invite_invalid" None))
             | Some r => inr (Some (i_code r))
             end
    end
  else mret (inr None).

Definition releaseInvite (claimed : option string) : Handler unit :=
  match claimed with
  | None => mret tt
  | Some code =>
      _ ← update_where w_invites set_invites code always (λ _ r, redeem_invite r None); mret tt
  end.

Definition provision_machine (user : UserRow) (machineId : string) : Handler (Response + MachineRow) :=
  inserted ← insert_machine (mkMachineRow machineId (u_id user) "provisioning" (u_homeRegion user) "shared" 2 2048 None);
  match inserted with
  | None => mret (inl (mkResp 500 (BError "internal" None)))
  | Some machine =>
      answer ← external (Provision (u_id user) (m_id machine) (m_region machine));
      match answer with
      | Provisioned None => mret (inr machine)
      | Provisioned (Some address) =>
          addressed ← update_where w_machines set_machines (m_id machine) always (λ _, address_machine address);
          mret (inr (default machine addressed))
      | _ => Raise
      end
  end.

Definition create_account (body : SignupBody) (email : string) (claimed : option string)
    (userId spaceId machineId jti : string) : Handler Response :=
  let computeMode := default "cloud" (sg_computeMode body) in
  inserted ← insert_user (mkUser userId email (sg_displayName body) (default "iad" (sg_homeRegion body))
                            DEFAULT_ACCOUNT_FEATURES computeMode None);
  match inserted with
  | None => _ ← releaseInvite claimed; refuse 500 "internal"
  | Some user =>
      _ ← match claimed with
          | Some code =>
              _ ← update_where w_invites set_invites code always (λ _, redeemed_by (u_id user));
              audit (u_id user) "invite.redeemed" None
          | None => mret tt
          end;
      space ← insert_space (mkSpaceRow spaceId (u_id user) DEFAULT_SPACE_NAME DEFAULT_SPACE_COLOR 0 "direct");
      machine ← (if String.eqb computeMode "cloud"
                 then m ← provision_machine user machineId; mret match m with inl r => inl r | inr m => inr (Some m) end
                 else mret (inr None));
      match machine with
      | inl refusal => mret refusal
      | inr machine =>
          match space with
          | None => refuse 500 "internal"
          | Some space =>
              _ ← audit (u_id user) "account.created" None;
              boot ← mintDeviceToken (u_id user) (u_id user) jti;
              respond 201 (BAccount user space machine (fst boot))
          end
      end
  end.

Definition signup (body : SignupBody) (userId spaceId machineId jti : string) : Handler Response :=
  let email := toLowerCase (sg_email body) in
  existing ← select_where w_users (λ u, String.eqb (u_email u) email);
  match existing with
  | Some _ => refuse 409 "email_taken"
  | None =>
      claimed ← claim_invite (sg_inviteCode body) email;
      match claimed with
      | inl refusal => mret refusal
      | inr claimed => create_account body email claimed userId spaceId machineId jti
      end
  end.

(** [codes]: what [generateInviteCode] returned, one per invite. *)
Definition mint_invites (authorization : option string) (codes : list string) (email note : option string)
    : Handler Response :=
  match adminToken with
  | None | Some "" => refuse 404 "not_found"
  | Some secret =>
      match bearer authorization with
      | None => refuse 401 "unauthorized"
      | Some token =>
          if negb (secretEquals token secret) then refuse 401 "unauthorized"
          else
            let minted := map (λ code, mkInvite code (toLowerCase <$> email) note None None) codes in
            _ ← insert_invites minted;
            respond 201 (BInvites (map (λ r, (i_code r, i_email r)) minted))
      end
  end.

Definition mint_code (userId : string) (deviceId : option string) (codeHash : string) (wrapSalt : option string)
    (wrappers : option (list (string * string))) : Handler Response :=
  ms ← now;
  let expiresAt := ms + ENROLLMENT_CODE_TTL_MS in
  _ ← insert_code (mkCode codeHash userId expiresAt None wrapSalt wrappers);
  _ ← audit userId "device.enrollment_code_minted" deviceId;
  respond 201 (BCode expiresAt).

Definition hashEnrollmentCode (code : string) : string := toHex (sha256_digest (utf8 code)).

Definition redeem (enrollmentCode jti : string) : Handler Response :=
  claimed ← update_where w_codes set_codes (hashEnrollmentCode enrollmentCode)
    (λ w r, bool_decide (e_redeemedAt r = None) && (e_expiresAt r >? w_nowMs w))
    (λ w, redeem_code (w_nowMs w));
  match claimed with
  | None => refuse 401 "invalid_or_expired_code"
  | Some claimed =>
      user ← select_by_id w_users (e_userId claimed);
      match user with
      | None => refuse 401 "invalid_or_expired_code"
      | Some user =>
          boot ← mintDeviceToken (u_id user) (u_id user) jti;
          _ ← update_where w_codes set_codes (e_codeHash claimed) always (λ _, purge_wrappers);
          _ ← audit (u_id user) "device.enrollment_code_redeemed" None;
          respond 200 (BRedeemed user (fst boot)
            match e_wrapSalt claimed, e_wrappers claimed with
            | Some salt, Some wrappers => Some (salt, wrappers)
            | _, _ => None
            end)
      end
  end.

Definition enroll (userId name platform devicePublicKey newId : string) : Handler Response :=
  existing ← select_where w_devices (λ d, String.eqb (d_devicePublicKey d) devicePublicKey);
  match existing with
  | Some existing =>
      refuse 409 (if bool_decide (is_Some (d_revokedAt existing)) then "device_revoked" else "device_already_enrolled")
  | None =>
      inserted ← insert_device (mkDevice newId userId name platform devicePublicKey None None);
      match inserted with
      | None => refuse 500 "internal"
      | Some device =>
          claimed ← update_where w_users set_users userId
            (λ _ u, String.eqb (u_computeMode u) "local" && bool_decide (u_homeDeviceId u = None))
            (λ _, set_home (d_id device));
          _ ← match claimed with
              | Some _ => audit userId "device.homeMachine" (Some (d_id device))
              | None => mret tt
              end;
          _ ← audit userId "device.enrolled" (Some (d_id device));
          respond 201 (BEnrolled device (hubTokenFor userId (Some (d_id device))) (bool_decide (is_Some claimed)))
      end
  end.

Definition list_devices (userId : string) : Handler Response :=
  l ← reading (λ w, List.filter (λ d, String.eqb (d_userId d) userId) (rows (w_devices w)));
  respond 200 (BDevices (map (λ d, (d, bool_decide (is_Some (d_revokedAt d)))) l)).

Definition rename (userId id name : string) : Handler Response :=
  device ← update_where w_devices set_devices id
    (λ _ d, String.eqb (d_userId d) userId && bool_decide (d_revokedAt d = None)) (λ _, rename_device name);
  match device with
  | None => refuse 404 "not_found"
  | Some device => _ ← audit userId "device.renamed" (Some id); respond 200 (BDevice device false)
  end.

Definition revoke (userId id : string) (reason : option string) (outboxId : string) : Handler Response :=
  found ← select_by_id w_devices id;
  match found with
  | None => refuse 404 "not_found"
  | Some device =>
      if negb (String.eqb (d_userId device) userId) then refuse 404 "not_found"
      else if bool_decide (is_Some (d_revokedAt device)) then respond 200 (BRevoked device false)
      else
        row ← update_where w_devices set_devices id always (λ w, revoke_device (w_nowMs w) reason);
        let revoked := default device row in
        _ ← audit userId "device.revoked" None;
        answer ← external (NotifyHub userId id);
        let hubNotified := match answer with Acked => true | _ => false end in
        _ ← (if hubNotified then mret tt else insert_outbox (mkOutbox outboxId userId id None 0));
        _ ← flushRevocationOutbox;
        respond 200 (BRevoked revoked hubNotified)
  end.

Definition handle (r : Request) : Handler Response :=
  match r with
  | RDeviceChallenge deviceId random =>
      challenge ← issue_challenge (deviceChallengeKey deviceId) random; respond 200 (BChallenge challenge)
  | RDeviceCredential deviceId devicePublicKey signature jti => device_credential deviceId devicePublicKey signature jti
  | RDeviceLogin deviceId signature jti => device_login deviceId signature jti
  | RRefresh authorization body jti => refresh authorization body jti
  | RPasskeyRegisterBegin authorization random =>
      bearerAuth authorization (λ userId _, passkey_register_begin userId random)
  | RPasskeyRegisterFinish authorization credential deviceId label jti =>
      bearerAuth authorization (λ userId _, passkey_register_finish userId credential deviceId label jti)
  | RPasskeyLoginBegin userId random => passkey_login_begin userId random
  | RPasskeyLoginFinish userId deviceId credential jti => passkey_login_finish userId deviceId credential jti
  | RSignup body userId spaceId machineId jti => signup body userId spaceId machineId jti
  | RMintInvites authorization codes email note => mint_invites authorization codes email note
  | RMintCode authorization codeHash wrapSalt wrappers =>
      bearerAuth authorization (λ userId deviceId, mint_code userId deviceId codeHash wrapSalt wrappers)
  | RRedeemCode enrollmentCode jti => redeem enrollmentCode jti
  | REnroll authorization name platform devicePublicKey newId =>
      bearerAuth authorization (λ userId _, enroll userId name platform devicePublicKey newId)
  | RListDevices authorization => bearerAuth authorization (λ userId _, list_devices userId)
  | RRename authorization id name => bearerAuth authorization (λ userId _, rename userId id name)
  | RRevoke authorization id reason outboxId => bearerAuth authorization (λ userId _, revoke userId id reason outboxId)
  | RDrain => '(delivered, pending) ← flushRevocationOutbox; respond 200 (BDrained delivered pending)
  | ROutbox authorization => bearerAuth authorization (λ _ _, l ← reading (λ w, rows (w_outbox w)); respond 200 (BOutbox l))
  end.
End Handlers.
