(* ===== verification/ControlInv.v ===== *)
(** * What every statement of the control plane keeps

    The invariant of the tables, the order in which the world only moves
    forward (a revocation, a redemption, a delivery and the home seat are for
    good), and one rule per statement for the rely-guarantee proofs of the
    handlers. *)

From S2P Require Export ControlAuth.
From Stdlib Require Import Ascii.

(** Once set, set for good. *)
Definition stays {A} (o o' : option A) : Prop := is_Some o → is_Some o'.
Definition sticks {A} (o o' : option A) : Prop := ∀ a, o = Some a → o' = Some a.

Record user_le (u u' : UserRow) : Prop := {
  ul_id : u_id u' = u_id u; ul_email : u_email u' = u_email u; ul_mode : u_computeMode u' = u_computeMode u;
  ul_home : sticks (u_homeDeviceId u) (u_homeDeviceId u')
}.
Record device_le (d d' : DeviceRow) : Prop := {
  dl_id : d_id d' = d_id d; dl_user : d_userId d' = d_userId d;
  dl_key : d_devicePublicKey d' = d_devicePublicKey d; dl_revoked : stays (d_revokedAt d) (d_revokedAt d')
}.
Record invite_le (i i' : InviteRow) : Prop := {
  il_code : i_code i' = i_code i; il_email : i_email i' = i_email i; il_redeemed : stays (i_redeemedAt i) (i_redeemedAt i')
}.
Record code_le (e e' : EnrollmentCodeRow) : Prop := {
  el_hash : e_codeHash e' = e_codeHash e; el_user : e_userId e' = e_userId e;
  el_expires : e_expiresAt e' = e_expiresAt e; el_redeemed : stays (e_redeemedAt e) (e_redeemedAt e')
}.
Record passkey_le (p p' : PasskeyRow) : Prop := {
  pl_id : p_id p' = p_id p; pl_user : p_userId p' = p_userId p; pl_key : p_publicKey p' = p_publicKey p
}.
Record outbox_le (o o' : OutboxRow) : Prop := {
  ol_id : o_id o' = o_id o; ol_user : o_userId o' = o_userId o; ol_device : o_deviceId o' = o_deviceId o;
  ol_delivered : stays (o_deliveredAt o) (o_deliveredAt o')
}.

Ltac row_preorder :=
  split; [intros ?; split; unfold stays, sticks in *; eauto
         | intros ? ? ? [] []; split; unfold stays, sticks in *; [congruence..|eauto] || (split; congruence)].

#[export] Instance user_le_pre : PreOrder user_le. Proof. row_preorder. Qed.
#[export] Instance device_le_pre : PreOrder device_le. Proof. row_preorder. Qed.
#[export] Instance invite_le_pre : PreOrder invite_le. Proof. row_preorder. Qed.
#[export] Instance code_le_pre : PreOrder code_le. Proof. row_preorder. Qed.
#[export] Instance outbox_le_pre : PreOrder outbox_le. Proof. row_preorder. Qed.
#[export] Instance passkey_le_pre : PreOrder passkey_le.
Proof. split; [by intros ?; split|intros ? ? ? [] []; split; congruence]. Qed.

Record world_le (w w' : World) : Prop := {
  wl_now : w_nowMs w <= w_nowMs w';
  wl_users : table_le user_le (w_users w) (w_users w');
  wl_devices : table_le device_le (w_devices w) (w_devices w');
  wl_invites : table_le invite_le (w_invites w) (w_invites w');
  wl_codes : table_le code_le (w_codes w) (w_codes w');
  wl_passkeys : table_le passkey_le (w_passkeys w) (w_passkeys w');
  wl_outbox : table_le outbox_le (w_outbox w) (w_outbox w')
}.

#[export] Instance world_le_pre : PreOrder world_le.
Proof.
  split; [intros w; split; [lia|reflexivity..]|].
  intros w1 w2 w3 [] []; split; [lia|by etrans..].
Qed.

(** ** The invariant *)

Definition keyed {A} (id : A → string) (m : gmap string A) : Prop := ∀ k a, m !! k = Some a → id a = k.
Definition unique {A B} (f : A → B) (m : gmap string A) : Prop :=
  ∀ i j a b, m !! i = Some a → m !! j = Some b → f a = f b → i = j.

Record world_inv (w : World) : Prop := {
  wi_users : keyed u_id (w_users w); wi_emails : unique u_email (w_users w);
  wi_devices : keyed d_id (w_devices w); wi_keys : unique d_devicePublicKey (w_devices w);
  wi_invites : keyed i_code (w_invites w); wi_codes : keyed e_codeHash (w_codes w);
  wi_passkeys : keyed p_id (w_passkeys w); wi_outbox : keyed o_id (w_outbox w);
  wi_attempts : ∀ k o, w_outbox w !! k = Some o → 0 <= o_attempts o <= MAX_OUTBOX_ATTEMPTS;
  (** the home seat of an account is taken by a device of that account *)
  wi_home : ∀ k u d, w_users w !! k = Some u → u_homeDeviceId u = Some d →
      ∃ row, w_devices w !! d = Some row ∧ d_userId row = k
}.

Lemma keyed_insert {A} (id : A → string) m k (a : A) : keyed id m → id a = k → keyed id (<[k := a]> m).
Proof. intros H E j b [[<- <-]|[_ Hj]]%lookup_insert_Some; [done|by apply H]. Qed.

Lemma taken_false {A} (p : A → bool) (m : gmap string A) :
  taken p m = false → ∀ k a, m !! k = Some a → p a = false.
Proof.
  unfold taken, rows. intros H k a Hk. destruct (p a) eqn:Ep; [|done].
  assert (existsb p (map snd (map_to_list m)) = true) as H'; [|congruence].
  apply existsb_exists. exists a. split; [|done]. apply in_map_iff. exists (k, a). split; [done|].
  by apply list_elem_of_In, elem_of_map_to_list.
Qed.

Lemma find_rows {A} (p : A → bool) (m : gmap string A) a :
  List.find p (rows m) = Some a → ∃ k, m !! k = Some a ∧ p a = true.
Proof.
  intros [Hin Hp]%find_some. unfold rows in Hin. apply in_map_iff in Hin as ([k b] & Hb & Hin). cbn in Hb. subst b.
  apply list_elem_of_In, elem_of_map_to_list in Hin. eauto.
Qed.

Lemma find_rows_none {A} (p : A → bool) (m : gmap string A) k a :
  List.find p (rows m) = None → m !! k = Some a → p a = false.
Proof.
  intros Hf Hk. apply (find_none p _ Hf). unfold rows. apply in_map_iff. exists (k, a). split; [done|].
  by apply list_elem_of_In, elem_of_map_to_list.
Qed.

Lemma unique_insert {A} (f : A → string) m k (a : A) :
  unique f m → (∀ j b, m !! j = Some b → f b = f a → j = k) → unique f (<[k := a]> m).
Proof.
  intros H Ha i j b c [[<- <-]|[Hi Hb]]%lookup_insert_Some [[<- <-]|[Hj Hc]]%lookup_insert_Some E; [done|..].
  - symmetry. by apply (Ha j c).
  - by apply (Ha i b).
  - by eapply H.
Qed.

Lemma row_in_rows {A} (m : gmap string A) a : a ∈ rows m ↔ ∃ k, m !! k = Some a.
Proof.
  unfold rows. rewrite list_elem_of_fmap. split.
  - intros ([k b] & -> & H). exists k. by apply elem_of_map_to_list in H.
  - intros [k H]. exists (k, a). split; [done|by apply elem_of_map_to_list].
Qed.

(** ** Changes that keep the invariant and move forward *)

Definition forward (w w' : World) : Prop := world_inv w' ∧ world_le w w'.

Ltac same_tables := split; cbn; first [reflexivity | lia | done].

Lemma forward_refl w : world_inv w → forward w w.
Proof. by split. Qed.

(** Tables outside the invariant, and those with nothing but a key. *)
Lemma forward_other w w' :
  world_inv w → w_nowMs w <= w_nowMs w' → w_users w' = w_users w → w_devices w' = w_devices w →
  w_invites w' = w_invites w → w_codes w' = w_codes w → w_passkeys w' = w_passkeys w → w_outbox w' = w_outbox w →
  forward w w'.
Proof.
  intros [] Hn Eu Ed Ei Ec Ep Eo. split; split; rewrite ?Eu, ?Ed, ?Ei, ?Ec, ?Ep, ?Eo; done.
Qed.

Lemma forward_device w k row row' :
  world_inv w → w_devices w !! k = Some row → device_le row row' →
  forward w (set_devices (<[k := row']> (w_devices w)) w).
Proof.
  intros Hw Hk Hle. pose proof (wi_devices _ Hw k row Hk) as Hid. split.
  - destruct Hw. split; cbn; try done.
    + apply keyed_insert; [done|]. by rewrite (dl_id _ _ Hle).
    + apply unique_insert; [done|]. intros j b Hj E. rewrite (dl_key _ _ Hle) in E. by eapply wi_keys0.
    + intros k' u d Hu Hd. destruct (wi_home0 k' u d Hu Hd) as (r & Hr & Hru).
      destruct (decide (k = d)) as [->|Hne]; [|exists r; by rewrite lookup_insert_ne].
      exists row'. rewrite lookup_insert_eq. split; [done|]. rewrite (dl_user _ _ Hle). congruence.
  - split; cbn; try reflexivity. apply table_le_insert; [apply _|]. intros b Hb. congruence.
Qed.

Lemma forward_new_device w d :
  world_inv w → w_devices w !! d_id d = None →
  taken (λ v, String.eqb (d_devicePublicKey v) (d_devicePublicKey d)) (w_devices w) = false →
  forward w (set_devices (<[d_id d := d]> (w_devices w)) w).
Proof.
  intros Hw Hk Ht. split.
  - destruct Hw. split; cbn; try done.
    + by apply keyed_insert.
    + apply unique_insert; [done|]. intros j b Hj E. apply (taken_false _ _ Ht) in Hj. cbn in Hj.
      by rewrite E, String.eqb_refl in Hj.
    + intros k' u h Hu Hd. destruct (wi_home0 k' u h Hu Hd) as (r & Hr & Hru). exists r.
      rewrite lookup_insert_ne by congruence. done.
  - split; cbn; try reflexivity. apply table_le_insert; [apply _|]. intros b Hb. congruence.
Qed.

Lemma forward_new_user w u :
  world_inv w → w_users w !! u_id u = None → u_homeDeviceId u = None →
  taken (λ v, String.eqb (u_email v) (u_email u)) (w_users w) = false →
  forward w (set_users (<[u_id u := u]> (w_users w)) w).
Proof.
  intros Hw Hk Hh Ht. split.
  - destruct Hw. split; cbn; try done.
    + by apply keyed_insert.
    + apply unique_insert; [done|]. intros j b Hj E. apply (taken_false _ _ Ht) in Hj. cbn in Hj.
      by rewrite E, String.eqb_refl in Hj.
    + intros k' v d [[<- <-]|[_ Hv]]%lookup_insert_Some Hd; [congruence|]. by eapply wi_home0.
  - split; cbn; try reflexivity. apply table_le_insert; [apply _|]. intros b Hb. congruence.
Qed.

(** The home seat goes to a device of the account. *)
Lemma forward_home w k u d row :
  world_inv w → w_users w !! k = Some u → u_homeDeviceId u = None →
  w_devices w !! d = Some row → d_userId row = k →
  forward w (set_users (<[k := set_home d u]> (w_users w)) w).
Proof.
  intros Hw Hk Hh Hd Hdk. pose proof (wi_users _ Hw k u Hk) as Hid.
  assert (user_le u (set_home d u)) as Hle by (split; cbn; try done; intros a Ha; congruence).
  split.
  - destruct Hw. split; cbn; try done.
    + by apply keyed_insert.
    + apply unique_insert; [done|]. intros j b Hj E. by eapply wi_emails0.
    + intros k' v d' [[<- <-]|[_ Hv]]%lookup_insert_Some Hd'; [|by eapply wi_home0].
      cbn in Hd'. injection Hd' as <-. eauto.
  - split; cbn; try reflexivity. apply table_le_insert; [apply _|]. intros b Hb. congruence.
Qed.

Lemma forward_invite w k row row' :
  world_inv w → w_invites w !! k = Some row → invite_le row row' →
  forward w (set_invites (<[k := row']> (w_invites w)) w).
Proof.
  intros Hw Hk Hle. pose proof (wi_invites _ Hw k row Hk) as Hid. split.
  - destruct Hw. split; cbn; try done. apply keyed_insert; [done|]. by rewrite (il_code _ _ Hle).
  - split; cbn; try reflexivity. apply table_le_insert; [apply _|]. intros b Hb. congruence.
Qed.

Lemma forward_code w k row row' :
  world_inv w → w_codes w !! k = Some row → code_le row row' →
  forward w (set_codes (<[k := row']> (w_codes w)) w).
Proof.
  intros Hw Hk Hle. pose proof (wi_codes _ Hw k row Hk) as Hid. split.
  - destruct Hw. split; cbn; try done. apply keyed_insert; [done|]. by rewrite (el_hash _ _ Hle).
  - split; cbn; try reflexivity. apply table_le_insert; [apply _|]. intros b Hb. congruence.
Qed.

Lemma forward_passkey w k row row' :
  world_inv w → w_passkeys w !! k = Some row → passkey_le row row' →
  forward w (set_passkeys (<[k := row']> (w_passkeys w)) w).
Proof.
  intros Hw Hk Hle. pose proof (wi_passkeys _ Hw k row Hk) as Hid. split.
  - destruct Hw. split; cbn; try done. apply keyed_insert; [done|]. by rewrite (pl_id _ _ Hle).
  - split; cbn; try reflexivity. apply table_le_insert; [apply _|]. intros b Hb. congruence.
Qed.

Lemma forward_outbox w k row row' :
  world_inv w → w_outbox w !! k = Some row → outbox_le row row' → 0 <= o_attempts row' <= MAX_OUTBOX_ATTEMPTS →
  forward w (set_outbox (<[k := row']> (w_outbox w)) w).
Proof.
  intros Hw Hk Hle Ha. pose proof (wi_outbox _ Hw k row Hk) as Hid. split.
  - destruct Hw. split; cbn; try done.
    + apply keyed_insert; [done|]. by rewrite (ol_id _ _ Hle).
    + intros j o [[_ <-]|[_ Hj]]%lookup_insert_Some; [done|]. by eapply wi_attempts0.
  - split; cbn; try reflexivity. apply table_le_insert; [apply _|]. intros b Hb. congruence.
Qed.

(** New rows of the tables with nothing but a key. *)
Lemma forward_new_code w c :
  world_inv w → w_codes w !! e_codeHash c = None → forward w (set_codes (<[e_codeHash c := c]> (w_codes w)) w).
Proof.
  intros Hw Hk. split.
  - destruct Hw. split; cbn; try done. by apply keyed_insert.
  - split; cbn; try reflexivity. apply table_le_insert; [apply _|]. intros b Hb. congruence.
Qed.

Lemma forward_new_passkey w p :
  world_inv w → w_passkeys w !! p_id p = None → forward w (set_passkeys (<[p_id p := p]> (w_passkeys w)) w).
Proof.
  intros Hw Hk. split.
  - destruct Hw. split; cbn; try done. by apply keyed_insert.
  - split; cbn; try reflexivity. apply table_le_insert; [apply _|]. intros b Hb. congruence.
Qed.

Lemma forward_new_outbox w o :
  world_inv w → w_outbox w !! o_id o = None → o_attempts o = 0 →
  forward w (set_outbox (<[o_id o := o]> (w_outbox w)) w).
Proof.
  intros Hw Hk Ha. split.
  - destruct Hw. split; cbn; try done; [by apply keyed_insert|].
    intros j r [[_ <-]|[_ Hj]]%lookup_insert_Some; [rewrite Ha; vm_compute; split; congruence|]. by eapply wi_attempts0.
  - split; cbn; try reflexivity. apply table_le_insert; [apply _|]. intros b Hb. congruence.
Qed.

Lemma insert_invite_rows_le l table table' :
  insert_invite_rows l table = Some table' → keyed i_code table →
  keyed i_code table' ∧ table_le invite_le table table'.
Proof.
  revert table. induction l as [|r l IH]; intros table; cbn; [by intros [= ->]|].
  case_bool_decide as Hn; [done|]. intros H Hk.
  destruct (IH _ H) as [Hk' Hle]; [by apply keyed_insert|]. split; [done|].
  etrans; [|exact Hle]. apply table_le_insert; [apply _|]. intros b Hb. exfalso. apply Hn. by exists b.
Qed.

Lemma forward_new_invites w l table' :
  world_inv w → insert_invite_rows l (w_invites w) = Some table' → forward w (set_invites table' w).
Proof.
  intros Hw H. destruct (insert_invite_rows_le _ _ _ H (wi_invites _ Hw)) as [Hk Hle]. split.
  - by destruct Hw.
  - split; cbn; try reflexivity. done.
Qed.
