(* ===== verification/ControlRules.v ===== *)
(** * Rules for the statements and shared pieces of the handlers

    Weakest-precondition style: what must hold before a statement for [Q] to
    hold after it, under interference of every other handler. *)

From S2P Require Export ControlInv.
From Stdlib Require Import Ascii.

Abbreviation safe := (tsafe world_inv world_le).
Abbreviation Own := (Pieces (World := World)).

(** ** Statements *)

Section Rules.
Context {A : Type}.
Implicit Types (own : Own) (w : World) (Q : Own → A → World → Prop).

Lemma safe_reading {B} (q : World → B) (k : B → Handler A) own w Q :
  (∀ w1, world_inv w1 → world_le w w1 → safe (k (q w1)) (own ++ [(w1, w1)]) w1 Q) →
  safe (reading q ≫= k) own w Q.
Proof. intros H. apply tsafe_bind; apply tsafe_reading; try exact world_le_pre. intros w1 Hi Hle. by apply H. Qed.

Lemma safe_update {B} (table : World → gmap string B) set id guard change (k : option B → Handler A) own w Q :
  (∀ w1 row, world_inv w1 → world_le w w1 → table w1 !! id = Some row → guard w1 row = true →
     let w2 := set (<[id := change w1 row]> (table w1)) w1 in
     forward w1 w2 ∧ safe (k (Some (change w1 row))) (own ++ [(w1, w2)]) w2 Q) →
  (∀ w1, world_inv w1 → world_le w w1 → (∀ row, table w1 !! id = Some row → guard w1 row = false) →
     safe (k None) (own ++ [(w1, w1)]) w1 Q) →
  safe (update_where table set id guard change ≫= k) own w Q.
Proof.
  intros Hs Hn. apply tsafe_bind; apply tsafe_atomically; try exact world_le_pre. intros w1 Hi Hle.
  destruct (table w1 !! id) as [row|] eqn:Er; cbn;
    [|split; [done|split; [done|apply Hn; [done|done|intros; congruence]]]].
  destruct (guard w1 row) eqn:Eg; cbn; [|split; [done|split; [done|apply Hn; [done|done|intros; congruence]]]].
  destruct (Hs w1 row Hi Hle Er Eg) as [[Hi' Hle'] Hk]. done.
Qed.

(** A statement that may raise; [q] succeeds with a forward move. *)
Lemma safe_insert {B} (q : World → option (B * World)) (k : B → Handler A) own w Q :
  (∀ w1 b w2, world_inv w1 → world_le w w1 → q w1 = Some (b, w2) →
     forward w1 w2 ∧ safe (k b) (own ++ [(w1, w2)]) w2 Q) →
  safe (statement q ≫= k) own w Q.
Proof.
  intros H. apply tsafe_bind; apply tsafe_statement; try exact world_le_pre. intros w1 Hi Hle.
  destruct (q w1) as [[b w2]|] eqn:E; [|done]. destruct (H w1 b w2 Hi Hle E) as [[? ?] ?]. done.
Qed.

Lemma safe_external (c : ExtCall) (k : ExtAnswer → Handler A) own w Q :
  (∀ answer, safe (k answer) own w Q) → safe (external c ≫= k) own w Q.
Proof. intros H. apply tsafe_bind. intros answer. apply H. Qed.

Lemma safe_or_raise {B} (o : option B) (k : B → Handler A) own w Q :
  (∀ b, o = Some b → safe (k b) own w Q) → safe (or_raise o ≫= k) own w Q.
Proof. intros H. apply tsafe_bind. by destruct o as [b|]; [apply H|]. Qed.

(** ** What does not touch the tables of the invariant *)

(** The pieces grow and the world moves forward. *)
Definition onward own w own' w' : Prop := own ⊆ own' ∧ world_le w w'.

Lemma onward_refl own w : onward own w own w.
Proof. by split. Qed.

Lemma onward_piece own w w1 w2 : world_le w w1 → world_le w1 w2 → onward own w (own ++ [(w1, w2)]) w2.
Proof. intros H1 H2. split; [set_solver|by etrans]. Qed.

Lemma onward_trans own w own1 w1 own2 w2 : onward own w own1 w1 → onward own1 w1 own2 w2 → onward own w own2 w2.
Proof. intros [? ?] [? ?]. split; [set_solver|by etrans]. Qed.

Lemma safe_audit user type actor (k : unit → Handler A) own w Q :
  (∀ own' w', onward own w own' w' → safe (k tt) own' w' Q) → safe (audit user type actor ≫= k) own w Q.
Proof.
  intros H. apply safe_insert. intros w1 [] w2 Hi Hle. case_bool_decide; [|done]. intros [= <-].
  assert (forward w1 (set_audit (w_audit w1 ++ [mkAudit user type actor]) w1)) as Hf
    by (by apply forward_other). split; [done|]. apply H. apply onward_piece; [done|apply Hf].
Qed.

Lemma safe_issue key random (k : string → Handler A) own w Q :
  (∀ own' w' challenge, onward own w own' w' → safe (k challenge) own' w' Q) →
  safe (issue_challenge key random ≫= k) own w Q.
Proof.
  intros H. apply safe_insert. intros w1 c w2 Hi Hle [= <- <-].
  match goal with |- forward w1 ?w2 ∧ _ => assert (forward w1 w2) as Hf by (by apply forward_other) end.
  split; [done|]. apply H. apply onward_piece; [done|apply Hf].
Qed.

(** A challenge was pending, unexpired, and is gone after the piece. *)
Definition challenge_taken own key challenge : Prop :=
  ∃ w1 w2 expires, (w1, w2) ∈ own ∧ map_get key (w_challenges w1) = Some (mkChallenge challenge expires)
    ∧ w_nowMs w1 <= expires ∧ map_get key (w_challenges w2) = None.

Lemma challenge_taken_mono own own' key c : own ⊆ own' → challenge_taken own key c → challenge_taken own' key c.
Proof. intros Hs (w1 & w2 & e & Hin & ?). exists w1, w2, e. split; [by apply Hs|done]. Qed.

Lemma safe_take key (k : option string → Handler A) own w Q :
  (∀ own' w' challenge, onward own w own' w' →
     (∀ c, challenge = Some c → challenge_taken own' key c) → safe (k challenge) own' w' Q) →
  safe (take_pending key ≫= k) own w Q.
Proof.
  intros H. apply safe_insert. intros w1 c w2 Hi Hle. unfold take_challenge. intros [= <- <-].
  match goal with |- forward w1 ?w2 ∧ _ => assert (forward w1 w2) as Hf by (by apply forward_other) end.
  split; [done|]. apply H; [apply onward_piece; [done|apply Hf]|].
  intros c Hc. destruct (map_get key (w_challenges w1)) as [[c' e]|] eqn:Eg; [|discriminate]. cbn in Hc.
  destruct (e <? w_nowMs w1) eqn:Ee; [discriminate|]. injection Hc as ->. bprop.
  eexists w1, _, e. split; [apply elem_of_app; right; left|]. split; [done|]. split; [lia|]. cbn. apply map_get_delete_eq.
Qed.

(** ** Inserts *)

Lemma lookup_fresh {B} (m : gmap string B) k : bool_decide (is_Some (m !! k)) = false → m !! k = None.
Proof. intros H%bool_decide_eq_false. destruct (m !! k); [|done]. exfalso. apply H. by eexists. Qed.

(** A statement that adds [b] with the forward move [w2 w1]. *)
Lemma safe_add {B} (q : World → option (B * World)) b (w2 : World → World) (k : B → Handler A) own w Q :
  (∀ w1 r, world_inv w1 → q w1 = Some r → r = (b, w2 w1) ∧ forward w1 (w2 w1)) →
  (∀ own' w1, onward own w own' (w2 w1) → forward w1 (w2 w1) → (w1, w2 w1) ∈ own' → safe (k b) own' (w2 w1) Q) →
  safe (statement q ≫= k) own w Q.
Proof.
  intros Hq Hk. apply safe_insert. intros w1 b' w2' Hi Hle E. destruct (Hq w1 _ Hi E) as [[= -> ->] Hf].
  split; [exact Hf|]. apply Hk; [apply onward_piece; [done|apply Hf]|done|apply elem_of_app; right; left].
Qed.

Lemma safe_insert_passkey p (k : option PasskeyRow → Handler A) own w Q :
  (∀ own' w', onward own w own' w' → safe (k (Some p)) own' w' Q) → safe (insert_passkey p ≫= k) own w Q.
Proof.
  intros H. eapply (safe_add _ (Some p) (λ w1, set_passkeys (<[p_id p := p]> (w_passkeys w1)) w1)); [|intros; by apply H].
  intros w1 r Hi. destruct (bool_decide _) eqn:E; [done|]. intros [= <-]. split; [done|].
  apply forward_new_passkey; [done|by apply lookup_fresh].
Qed.

Lemma safe_insert_code c (k : unit → Handler A) own w Q :
  (∀ own' w', onward own w own' w' → safe (k tt) own' w' Q) → safe (insert_code c ≫= k) own w Q.
Proof.
  intros H. eapply (safe_add _ tt (λ w1, set_codes (<[e_codeHash c := c]> (w_codes w1)) w1)); [|intros; by apply H].
  intros w1 r Hi. destruct (bool_decide _) eqn:E; [done|]. intros [= <-]. split; [done|].
  apply forward_new_code; [done|by apply lookup_fresh].
Qed.

Lemma safe_insert_user u (k : option UserRow → Handler A) own w Q :
  u_homeDeviceId u = None →
  (∀ own' w', onward own w own' w' → safe (k (Some u)) own' w' Q) → safe (insert_user u ≫= k) own w Q.
Proof.
  intros Hh H. eapply (safe_add _ (Some u) (λ w1, set_users (<[u_id u := u]> (w_users w1)) w1)); [|intros; by apply H].
  intros w1 r Hi. destruct (_ || _) eqn:E; [done|]. intros [= <-]. split; [done|].
  apply orb_false_iff in E as [E1 E2]. apply forward_new_user; [done|by apply lookup_fresh|done|done].
Qed.

(** The new row of a device is in the table afterwards. *)
Lemma safe_insert_device d (k : option DeviceRow → Handler A) own w Q :
  (∀ own' w', onward own w own' w' → w_devices w' !! d_id d = Some d → safe (k (Some d)) own' w' Q) →
  safe (insert_device d ≫= k) own w Q.
Proof.
  intros H. eapply (safe_add _ (Some d) (λ w1, set_devices (<[d_id d := d]> (w_devices w1)) w1)).
  - intros w1 r Hi. destruct (_ || _) eqn:E; [done|]. intros [= <-]. split; [done|].
    apply orb_false_iff in E as [[E1 E2]%orb_false_iff _]. apply forward_new_device; [done|by apply lookup_fresh|done].
  - intros own' w1 Ho _ _. apply H; [done|]. cbn. apply lookup_insert_eq.
Qed.

Lemma safe_insert_outbox o (k : unit → Handler A) own w Q :
  o_attempts o = 0 →
  (∀ own' w', onward own w own' w' → w_outbox w' !! o_id o = Some o → safe (k tt) own' w' Q) →
  safe (insert_outbox o ≫= k) own w Q.
Proof.
  intros Ha H. eapply (safe_add _ tt (λ w1, set_outbox (<[o_id o := o]> (w_outbox w1)) w1)).
  - intros w1 r Hi. destruct (bool_decide _) eqn:E; [done|]. intros [= <-]. split; [done|].
    apply forward_new_outbox; [done|by apply lookup_fresh|done].
  - intros own' w1 Ho _ _. apply H; [done|]. cbn. apply lookup_insert_eq.
Qed.

Lemma safe_insert_space s (k : option SpaceRow → Handler A) own w Q :
  (∀ own' w', onward own w own' w' → safe (k (Some s)) own' w' Q) → safe (insert_space s ≫= k) own w Q.
Proof.
  intros H. eapply (safe_add _ (Some s) (λ w1, set_spaces (<[s_id s := s]> (w_spaces w1)) w1)); [|intros; by apply H].
  intros w1 r Hi. destruct (bool_decide _) eqn:E; [done|]. intros [= <-]. split; [done|by apply forward_other].
Qed.

Lemma safe_insert_machine m (k : option MachineRow → Handler A) own w Q :
  (∀ own' w', onward own w own' w' → safe (k (Some m)) own' w' Q) → safe (insert_machine m ≫= k) own w Q.
Proof.
  intros H. eapply (safe_add _ (Some m) (λ w1, set_machines (<[m_id m := m]> (w_machines w1)) w1)); [|intros; by apply H].
  intros w1 r Hi. destruct (_ || _) eqn:E; [done|]. intros [= <-]. split; [done|by apply forward_other].
Qed.

Lemma safe_insert_invites l (k : unit → Handler A) own w Q :
  (∀ own' w', onward own w own' w' → safe (k tt) own' w' Q) → safe (insert_invites l ≫= k) own w Q.
Proof.
  intros H. apply safe_insert. intros w1 [] w2 Hi Hle E.
  destruct (insert_invite_rows _ _) as [table|] eqn:Et; [|discriminate]. injection E as <-.
  pose proof (forward_new_invites w1 l table Hi Et) as Hf. split; [done|]. apply H, onward_piece; [done|apply Hf].
Qed.
End Rules.

(** ** Facts that stay *)

Definition revoked (w : World) (d : string) : Prop :=
  ∃ row, w_devices w !! d = Some row ∧ is_Some (d_revokedAt row).
Definition owned (w : World) (user device : string) : Prop :=
  ∃ row, w_devices w !! device = Some row ∧ d_userId row = user.

Lemma revoked_le w w' d : world_le w w' → revoked w d → revoked w' d.
Proof.
  intros Hle (row & Hr & Hs). destruct (wl_devices _ _ Hle d row Hr) as (row' & Hr' & Hd).
  exists row'. split; [done|]. by apply (dl_revoked _ _ Hd).
Qed.
Lemma owned_le w w' u d : world_le w w' → owned w u d → owned w' u d.
Proof.
  intros Hle (row & Hr & Hs). destruct (wl_devices _ _ Hle d row Hr) as (row' & Hr' & Hd).
  exists row'. split; [done|]. by rewrite (dl_user _ _ Hd).
Qed.

(** An active row at [w'] was not revoked at any world before. *)
Lemma active_before w w' d row :
  world_le w w' → w_devices w' !! d = Some row → d_revokedAt row = None → ¬ revoked w d.
Proof. intros Hle Hr Hn Hrev. apply (revoked_le _ _ _ Hle) in Hrev as (row' & ? & []). congruence. Qed.

Section Shared.
Context `{C : WebAuthnCrypto} (importPublicKeyRaw : bytes → option CryptoKey).
Context (signingKey verifyKey : CryptoKey) (envProvided : bool).

(** A token minted while handling a request that started at [w0]: signed, of
    ten minutes at most, and, unless it is the bootstrap token of an account,
    of a device of that account that was not revoked at the start. *)
Definition token_ok (w0 w : World) (token : string) : Prop :=
  ∃ claims, token = signDeviceToken signingKey claims
    ∧ dt_exp claims <= w_nowMs w / 1000 + DEVICE_TOKEN_TTL_SECONDS
    ∧ (dt_did claims = dt_sub claims ∨ (¬ revoked w0 (dt_did claims) ∧ owned w (dt_sub claims) (dt_did claims))).

Lemma token_ok_le w0 w w' t : world_le w w' → token_ok w0 w t → token_ok w0 w' t.
Proof.
  intros Hle (claims & -> & He & Hd). exists claims. split; [done|]. split.
  - pose proof (wl_now _ _ Hle). pose proof (Z.div_le_mono (w_nowMs w) (w_nowMs w') 1000). lia.
  - destruct Hd as [?|[? ?]]; [by left|right]. split; [done|]. by eapply owned_le.
Qed.

Context {A : Type}.
Implicit Types (own : Own) (w : World) (Q : Own → A → World → Prop).

Lemma safe_mint w0 user device jti (k : string * Z → Handler A) own w Q :
  device = user ∨ (¬ revoked w0 device ∧ owned w user device) →
  (∀ own' w' claims, onward own w own' w' → dt_sub claims = user → dt_did claims = device →
     token_ok w0 w' (signDeviceToken signingKey claims) →
     safe (k (signDeviceToken signingKey claims, dt_exp claims)) own' w' Q) →
  safe (mintDeviceToken signingKey user device jti ≫= k) own w Q.
Proof.
  intros Hd H. unfold mintDeviceToken, nowSeconds. apply tsafe_bind, safe_reading. intros w1 Hi Hle. cbn [tsafe].
  set (claims := mkClaims user device (w_nowMs w1 / 1000) (w_nowMs w1 / 1000 + DEVICE_TOKEN_TTL_SECONDS) (Some jti)).
  apply (H _ _ claims); [by apply onward_piece|done|done|]. exists claims. split; [done|]. split; [cbn; lia|].
  destruct Hd as [?|[? ?]]; [by left|right]. split; [done|]. by eapply owned_le.
Qed.

(** [activeDevice] finds a device of the account that no earlier world had
    revoked. *)
Lemma safe_activeDevice user device (k : option DeviceRow → Handler A) own w Q :
  (∀ own' w', onward own w own' w' → safe (k None) own' w' Q) →
  (∀ own' w' row, onward own w own' w' → w_devices w' !! device = Some row → d_userId row = user →
     d_id row = device → (∀ w0, world_le w0 w' → ¬ revoked w0 device) → safe (k (Some row)) own' w' Q) →
  safe (activeDevice user device ≫= k) own w Q.
Proof.
  intros Hn Hs. unfold activeDevice, select_by_id. apply tsafe_bind, safe_reading. intros w1 Hi Hle. cbn [tsafe].
  assert (onward own w (own ++ [(w1, w1)]) w1) as Ho by (by apply onward_piece).
  destruct (w_devices w1 !! device) as [row|] eqn:Er; [|by apply Hn].
  destruct (String.eqb_spec (d_userId row) user) as [Eu|]; cbn [andb]; [|by apply Hn].
  case_bool_decide as Hr; [|by apply Hn]. apply Hs; try done; [by apply (wi_devices _ Hi)|].
  intros w0 H0. by eapply active_before.
Qed.

(** A proof of possession: the challenge that was taken is signed with the
    key of the device, which belongs to [user]. *)
Definition possession own w (device signatureB64 user : string) : Prop :=
  ∃ row challenge publicKey signature,
    w_devices w !! device = Some row ∧ d_userId row = user
    ∧ challenge_taken own (deviceChallengeKey device) challenge
    ∧ fromBase64 (d_devicePublicKey row) ≫= importPublicKeyRaw = Some publicKey
    ∧ fromBase64 signatureB64 = Some signature
    ∧ ed25519_verify publicKey signature (deviceLoginSigningBytes device challenge) = true.

Lemma possession_onward own w own' w' device signature user :
  onward own w own' w' → possession own w device signature user → possession own' w' device signature user.
Proof.
  intros [Hs Hle] (row & c & k & s & Hr & Hu & Hc & Hk & ?).
  destruct (wl_devices _ _ Hle device row Hr) as (row' & Hr' & Hd).
  exists row', c, k, s. rewrite (dl_user _ _ Hd), (dl_key _ _ Hd). split; [done|]. split; [done|].
  split; [by eapply challenge_taken_mono|done].
Qed.

Lemma possession_owned own w device signature user : possession own w device signature user → owned w user device.
Proof. intros (row & _ & _ & _ & ? & ? & _). by exists row. Qed.

Lemma safe_proof device signatureB64 (k : string + DeviceRow → Handler A) own w Q :
  (∀ own' w' reason, onward own w own' w' → safe (k (inl reason)) own' w' Q) →
  (∀ own' w' row, onward own w own' w' → possession own' w' device signatureB64 (d_userId row) → d_id row = device →
     (∀ w0, world_le w0 w' → ¬ revoked w0 device) → safe (k (inr row)) own' w' Q) →
  safe (verifyDeviceProof importPublicKeyRaw device signatureB64 ≫= k) own w Q.
Proof.
  intros Hl Hr. unfold verifyDeviceProof. apply tsafe_bind, safe_take. intros own1 w1 challenge Ho1 Hc.
  assert (∀ c, pending challenge = Some c → challenge = Some c) as Hp
    by (intros c; unfold pending; destruct challenge as [[|]|]; congruence).
  destruct (pending challenge) as [c|]; [|by apply Hl]. specialize (Hc c (Hp c eq_refl)). clear Hp.
  apply safe_reading. intros w2 Hi2 Hle2.
  assert (onward own w (own1 ++ [(w2, w2)]) w2) as Ho2 by (eapply onward_trans; [exact Ho1|by apply onward_piece]).
  destruct (w_devices w2 !! device) as [row|] eqn:Er; [|by apply Hl].
  case_bool_decide as Hrev; [by apply Hl|]. apply safe_or_raise. intros publicKey Hpk.
  apply safe_or_raise. intros signature Hs. destruct (ed25519_verify _ _ _) eqn:Ev; [|by apply Hl].
  assert (d_revokedAt row = None) as Hnone by (destruct (d_revokedAt row); [exfalso; apply Hrev; eauto|done]).
  apply Hr; [done| |by apply (wi_devices _ Hi2)|by intros; eapply active_before].
  exists row, c, publicKey, signature. split; [done|]. split; [done|]. split; [|done].
  eapply challenge_taken_mono; [|done]. set_solver.
Qed.

(** ** Bearer tokens *)

(** Whatever the token is taken for, it is device [d]. *)
Definition presents (authorization : option string) (d : string) : Prop :=
  ∃ token, bearer authorization = Some token ∧
    if (length (split_char "." token) =? 3)%nat
    then ∀ now claims, verifyDeviceToken verifyKey token now = Some (inr claims) → dt_did claims = d ∧ dt_sub claims ≠ d
    else ∃ user, parseHubToken (Some ("Bearer " +:+ token)) = Some (user, Some d).

Definition unauthorized_response : Response := mkResp 401 (BError "unauthorized" None).

(** The identity that a token gets: an account that exists, and a device of it
    that no earlier world had revoked. *)
Definition identity_ok (w : World) (user : string) (device : option string) : Prop :=
  is_Some (w_users w !! user)
  ∧ ∀ d, device = Some d → owned w user d ∧ ∀ w0, world_le w0 w → ¬ revoked w0 d.

Lemma safe_authenticate (token : option string) (k : option (string * option string) → Handler A) own w Q :
  (∀ own' w', onward own w own' w' → safe (k None) own' w' Q) →
  (∀ own' w' user device, onward own w own' w' → identity_ok w' user device →
     (∀ d authorization, bearer authorization = token → presents authorization d → device = Some d) →
     safe (k (Some (user, device))) own' w' Q) →
  safe (authenticateToken verifyKey envProvided token ≫= k) own w Q.
Proof.
  intros Hn Hs. unfold authenticateToken. destruct token as [token|]; [|apply tsafe_bind, Hn, onward_refl].
  destruct (length (split_char "." token) =? 3)%nat eqn:El.
  - apply tsafe_bind, safe_reading. intros w1 Hi1 Hle1. apply safe_or_raise. intros [reason|claims] Hv.
    { cbn [tsafe]. apply Hn. by apply onward_piece. }
    destruct (negb (is_uuid _) || _); [cbn [tsafe]; apply Hn; by apply onward_piece|].
    assert (onward own w (own ++ [(w1, w1)]) w1) as Ho1 by (by apply onward_piece).
    apply safe_reading. intros w2 Hi2 Hle2.
    assert (onward own w ((own ++ [(w1, w1)]) ++ [(w2, w2)]) w2) as Ho2
      by (eapply onward_trans; [exact Ho1|by apply onward_piece]).
    destruct (w_users w2 !! dt_sub claims) as [user|] eqn:Eu; [|cbn [tsafe]; by apply Hn].
    pose proof (wi_users _ Hi2 _ _ Eu) as Eid.
    destruct (String.eqb_spec (dt_did claims) (dt_sub claims)) as [Ed|Ed].
    + cbn [tsafe]. apply Hs; [done|split; [rewrite Eid; by eexists|by intros d]|].
      intros d authorization Hb (t & Ht & Hpres). rewrite Hb in Ht. injection Ht as <-. rewrite El in Hpres.
      destruct (Hpres _ _ Hv). congruence.
    + apply safe_reading. intros w3 Hi3 Hle3.
      assert (onward own w (((own ++ [(w1, w1)]) ++ [(w2, w2)]) ++ [(w3, w3)]) w3) as Ho3
        by (eapply onward_trans; [exact Ho2|by apply onward_piece]).
      destruct (w_devices w3 !! dt_did claims) as [row|] eqn:Er; [|cbn [tsafe]; by apply Hn].
      destruct (String.eqb_spec (d_userId row) (u_id user)) as [Eo|]; [|cbn [tsafe andb]; by apply Hn].
      cbn [andb]. case_bool_decide as Hrev; [|cbn [tsafe]; by apply Hn]. cbn [tsafe]. apply Hs; [done| |].
      * split; [rewrite Eid; destruct (wl_users _ _ Hle3 _ _ Eu) as (u' & ? & _); by eexists|].
        intros d [= <-]. split; [by exists row|]. intros w0 H0. by eapply active_before.
      * intros d authorization Hb (t & Ht & Hpres). rewrite Hb in Ht. injection Ht as <-. rewrite El in Hpres.
        by destruct (Hpres _ _ Hv) as [-> _].
  - destruct (parseHubToken (Some ("Bearer " +:+ token))) as [[user device]|] eqn:Ep;
      [|apply tsafe_bind, Hn, onward_refl].
    destruct envProvided; [apply tsafe_bind, Hn, onward_refl|].
    apply tsafe_bind, safe_reading. intros w1 Hi1 Hle1.
    assert (onward own w (own ++ [(w1, w1)]) w1) as Ho1 by (by apply onward_piece).
    destruct (w_users w1 !! user) as [u|] eqn:Eu; [|cbn [tsafe]; by apply Hn].
    pose proof (wi_users _ Hi1 _ _ Eu) as Eid.
    assert (∀ d authorization, bearer authorization = Some token → presents authorization d → device = Some d) as Hpd.
    { intros d authorization Hb (t & Ht & Hpres). rewrite Hb in Ht. injection Ht as <-. rewrite El in Hpres.
      destruct Hpres as [u' Hu']. congruence. }
    destruct device as [d|]; [|cbn [tsafe]; apply Hs; [done|split; [rewrite Eid; by eexists|by intros d]|done]].
    apply safe_reading. intros w2 Hi2 Hle2.
    assert (onward own w ((own ++ [(w1, w1)]) ++ [(w2, w2)]) w2) as Ho2
      by (eapply onward_trans; [exact Ho1|by apply onward_piece]).
    destruct (w_devices w2 !! d) as [row|] eqn:Er; [|cbn [tsafe]; by apply Hn].
    destruct (String.eqb_spec (d_userId row) (u_id u)) as [Eo|]; [|cbn [tsafe negb orb]; by apply Hn].
    cbn [negb orb]. case_bool_decide as Hrev; [|cbn [tsafe negb]; by apply Hn]. cbn [tsafe negb].
    apply Hs; [done| |done].
    split; [rewrite Eid; destruct (wl_users _ _ Hle2 _ _ Eu) as (u' & ? & _); by eexists|].
    intros d' [= <-]. split; [by exists row|]. intros w0 H0. by eapply active_before.
Qed.
End Shared.

Section Bearer.
Context `{C : WebAuthnCrypto} (verifyKey : CryptoKey) (envProvided : bool).

Lemma safe_bearerAuth authorization next own w (Q : Own → Response → World → Prop) :
  (∀ own' w', onward own w own' w' → Q own' unauthorized_response w') →
  (∀ own' w' user device, onward own w own' w' → identity_ok w' user device →
     (∀ d, presents verifyKey authorization d → ¬ revoked w d) → safe (next user device) own' w' Q) →
  safe (bearerAuth verifyKey envProvided authorization next) own w Q.
Proof.
  intros Hn Hs. unfold bearerAuth. apply safe_authenticate.
  - intros own' w' Ho. by apply Hn.
  - intros own' w' user device Ho Hid Hp. apply Hs; [done|done|].
    intros d Hd Hrev. specialize (Hp d authorization eq_refl Hd). destruct Hid as [_ Hid].
    destruct (Hid d Hp) as [_ Hnr]. by apply (Hnr w); [apply Ho|].
Qed.
End Bearer.
