(* ===== verification/ControlHandlers.v ===== *)
(** * What each route of the control plane promises

    One lemma per handler: under any interleaving its statements keep the
    invariant and move forward, the tokens it answers with are in order, and
    its answer comes with the evidence of [promise]. *)

From S2P Require Export ControlRules.
From Stdlib Require Import Ascii.

(** ** Claiming a code *)

Definition code_redeemed (w : World) (h : string) : Prop :=
  ∃ row, w_codes w !! h = Some row ∧ is_Some (e_redeemedAt row).
Definition invite_redeemed (w : World) (code : string) : Prop :=
  ∃ row, w_invites w !! code = Some row ∧ is_Some (i_redeemedAt row).

(** A piece of the handler turned the code from unused to used, in time. *)
Definition code_claimed (own : Own) (h user : string) : Prop :=
  ∃ w1 w2 row, (w1, w2) ∈ own ∧ w_codes w1 !! h = Some row ∧ e_redeemedAt row = None
    ∧ w_nowMs w1 < e_expiresAt row ∧ e_userId row = user ∧ code_redeemed w2 h.
Definition invite_claimed (own : Own) (code email : string) : Prop :=
  ∃ w1 w2 row, (w1, w2) ∈ own ∧ w_invites w1 !! code = Some row ∧ i_redeemedAt row = None
    ∧ (i_email row = None ∨ i_email row = Some email) ∧ invite_redeemed w2 code.

Lemma code_redeemed_le w w' h : world_le w w' → code_redeemed w h → code_redeemed w' h.
Proof.
  intros Hle (row & Hr & Hs). destruct (wl_codes _ _ Hle h row Hr) as (row' & Hr' & Hd).
  exists row'. split; [done|]. by apply (el_redeemed _ _ Hd).
Qed.
Lemma invite_redeemed_le w w' h : world_le w w' → invite_redeemed w h → invite_redeemed w' h.
Proof.
  intros Hle (row & Hr & Hs). destruct (wl_invites _ _ Hle h row Hr) as (row' & Hr' & Hd).
  exists row'. split; [done|]. by apply (il_redeemed _ _ Hd).
Qed.
Lemma code_claimed_mono own own' h u : own ⊆ own' → code_claimed own h u → code_claimed own' h u.
Proof. intros Hs (w1 & w2 & row & Hin & ?). exists w1, w2, row. split; [by apply Hs|done]. Qed.
Lemma invite_claimed_mono own own' h e : own ⊆ own' → invite_claimed own h e → invite_claimed own' h e.
Proof. intros Hs (w1 & w2 & row & Hin & ?). exists w1, w2, row. split; [by apply Hs|done]. Qed.

(** The tokens in a response. *)
Definition tokens_of (b : Body) : list string :=
  match b with
  | BToken t _ _ => [t] | BPasskey _ (Some (t, _)) => [t]
  | BAccount _ _ _ t => [t] | BRedeemed _ t _ => [t]
  | _ => []
  end.

Definition queued (w : World) (device : string) : Prop :=
  ∃ k row, w_outbox w !! k = Some row ∧ o_deviceId row = device.

Lemma queued_le w w' d : world_le w w' → queued w d → queued w' d.
Proof.
  intros Hle (k & row & Hr & Hd). destruct (wl_outbox _ _ Hle k row Hr) as (row' & Hr' & Ho).
  exists k, row'. split; [done|]. by rewrite (ol_device _ _ Ho).
Qed.

Section Handlers.
Context `{C : WebAuthnCrypto} (importPublicKeyRaw : bytes → option CryptoKey).
Context (signingKey verifyKey : CryptoKey) (envProvided : bool) (rp : RpConfig).
Context (invitesRequired : bool) (adminToken : option string).
Implicit Types (own : Own) (w : World).

Definition tokens_ok (w0 : World) (r : Response) (w : World) : Prop :=
  ∀ t, t ∈ tokens_of (rs_body r) → token_ok signingKey w0 w t.

Definition token_for (t user device : string) : Prop :=
  ∃ claims, t = signDeviceToken signingKey claims ∧ dt_sub claims = user ∧ dt_did claims = device.

Definition promise (req : Request) (w0 : World) own (r : Response) w : Prop :=
  match req, rs_body r with
  | RDeviceLogin device signature _, BToken t _ _ | RDeviceCredential device _ signature _, BToken t _ _ =>
      ∃ user, possession importPublicKeyRaw own w device signature user ∧ token_for t user device
  | RPasskeyLoginFinish user device credential _, BToken t _ _ =>
      ∃ passkey challenge signCount count,
        w_passkeys w !! ac_id credential = Some passkey ∧ p_userId passkey = user
        ∧ challenge_taken own (webauthnLoginKey user) challenge
        ∧ finishLogin rp challenge (p_publicKey passkey) signCount credential = inr count
        ∧ token_for t user device
  | RSignup body _ _ _ _, BAccount user _ _ _ =>
      invitesRequired = true →
      ∃ code, sg_inviteCode body = Some code ∧ invite_claimed own code (toLowerCase (sg_email body))
  | RRedeemCode code _, BRedeemed user _ _ => code_claimed own (hashEnrollmentCode code) (u_id user)
  | REnroll _ _ _ publicKey id, BEnrolled device _ home =>
      owned w (d_userId device) id ∧ d_devicePublicKey device = publicKey
      ∧ (home = true → ∃ u, w_users w !! d_userId device = Some u ∧ u_homeDeviceId u = Some id)
  | RRevoke _ id _ _, BRevoked _ notified =>
      revoked w id ∧ (notified = true ∨ queued w id ∨ ∃ w1, (w1, w1) ∈ own ∧ revoked w1 id)
  | _, _ => True
  end.

Lemma safe_respond status body own w (Q : Own → Response → World → Prop) :
  Q own (mkResp status body) w → safe (respond status body) own w Q.
Proof. done. Qed.

Definition silent (b : Body) : Prop := tokens_of b = [] ∧ match b with BError _ _ | BChallenge _ | BOptions _ => True | _ => False end.

Lemma quiet req w0 own status b w :
  silent b → tokens_ok w0 (mkResp status b) w ∧ promise req w0 own (mkResp status b) w.
Proof.
  intros [Ht Hb]. split; [intros t Hin; cbn in Hin; rewrite Ht in Hin; by apply not_elem_of_nil in Hin|].
  by destruct req, b.
Qed.

Abbreviation spec req w0 := (λ own r w, tokens_ok w0 r w ∧ promise req w0 own r w).

Ltac quiet := apply safe_respond, quiet; split; [reflexivity|exact I].

(** A response that is nothing but a token. *)
Lemma respond_token req w0 own status kind claims w (exp : Z) :
  token_ok signingKey w0 w (signDeviceToken signingKey claims) →
  promise req w0 own (mkResp status (BToken (signDeviceToken signingKey claims) exp kind)) w →
  safe (token_response status kind (signDeviceToken signingKey claims, exp)) own w (spec req w0).
Proof. intros Ht Hp. split; [|done]. intros t [->|?%not_elem_of_nil]%elem_of_cons; [done|done]. Qed.

(** ** Logging in with a device key *)

Lemma device_login_safe device signature jti w0 own w :
  world_le w0 w →
  safe (device_login importPublicKeyRaw signingKey device signature jti) own w (spec (RDeviceLogin device signature jti) w0).
Proof.
  intros H0. unfold device_login. apply safe_proof; [intros; quiet|].
  intros own1 w1 row [Hs1 Hle1] Hp Hid Hact. rewrite Hid.
  apply (safe_mint signingKey w0); [right; split; [apply Hact; by etrans|by eapply possession_owned]|].
  intros own2 w2 claims Ho2 Hsub Hdid Hok. apply respond_token; [done|].
  exists (d_userId row). split; [by eapply possession_onward|by exists claims].
Qed.

Lemma device_credential_safe device publicKey signature jti w0 own w :
  world_le w0 w →
  safe (device_credential importPublicKeyRaw signingKey device publicKey signature jti) own w
    (spec (RDeviceCredential device publicKey signature jti) w0).
Proof.
  intros H0. unfold device_credential. apply safe_proof; [intros; quiet|].
  intros own1 w1 row [Hs1 Hle1] Hp Hid Hact. rewrite Hid. destruct (negb _); [quiet|].
  apply safe_audit. intros own2 w2 Ho2.
  apply (safe_mint signingKey w0).
  { right. split; [apply Hact; by etrans|]. eapply owned_le; [apply Ho2|]. by eapply possession_owned. }
  intros own3 w3 claims Ho3 Hsub Hdid Hok. apply respond_token; [done|].
  exists (d_userId row). split; [|by exists claims]. do 2 (eapply possession_onward; [eassumption|]). done.
Qed.

(** ** Refreshing a token *)

Lemma refresh_token_safe token jti authorization body w0 own w :
  world_le w0 w →
  safe (refresh_token signingKey verifyKey token jti) own w (spec (RRefresh authorization body jti) w0).
Proof.
  intros H0. unfold refresh_token, nowSeconds. apply safe_reading. intros w1 _ Hle1.
  apply safe_or_raise. intros [reason|claims] _; [quiet|].
  destruct (String.eqb_spec (dt_did claims) (dt_sub claims)) as [E|E].
  - unfold refresh_bootstrap, select_by_id, select_where. apply safe_reading. intros w2 _ Hle2.
    destruct (w_users w2 !! _); [|quiet]. apply safe_reading. intros w3 _ Hle3.
    destruct (List.find _ _); [quiet|]. apply (safe_mint signingKey w0); [by left|].
    intros own4 w4 cl Ho4 Hsub Hdid Hok. by apply respond_token.
  - apply safe_activeDevice; [intros; quiet|]. intros own2 w2 row [Hs2 Hle2] Hr Hu Hid Hact.
    apply (safe_mint signingKey w0); [right; split; [apply Hact; by do 2 (etrans; [eassumption|])|by exists row]|].
    intros own3 w3 cl Ho3 Hsub Hdid Hok. by apply respond_token.
Qed.

Lemma refresh_safe authorization body jti w0 own w :
  world_le w0 w →
  safe (refresh importPublicKeyRaw signingKey verifyKey authorization body jti) own w
    (spec (RRefresh authorization body jti) w0).
Proof.
  intros H0. unfold refresh.
  assert (safe (match body with
    | None => unauthorized "missing_credentials"
    | Some (deviceId, signature) =>
        proof ← verifyDeviceProof importPublicKeyRaw deviceId signature;
        match proof with
        | inl reason => unauthorized reason
        | inr device =>
            token ← mintDeviceToken signingKey (d_userId device) (d_id device) jti; token_response 200 None token
        end
    end) own w (spec (RRefresh authorization body jti) w0)) as Hproof.
  { destruct body as [[device signature]|]; [|quiet]. apply safe_proof; [intros; quiet|].
    intros own1 w1 row [Hs1 Hle1] Hp Hid Hact. rewrite Hid.
    apply (safe_mint signingKey w0); [right; split; [apply Hact; by etrans|by eapply possession_owned]|].
    intros own2 w2 claims Ho2 Hsub Hdid Hok. by apply respond_token. }
  cbv zeta. destruct (bearer authorization) as [token|]; [|done]. destruct (_ =? 3)%nat; [|done].
  by apply refresh_token_safe.
Qed.

(** ** Passkeys *)

Lemma passkey_register_begin_safe authorization user random w0 own w :
  safe (passkey_register_begin rp user random) own w (spec (RPasskeyRegisterBegin authorization random) w0).
Proof.
  unfold passkey_register_begin, select_by_id. apply safe_reading. intros w1 _ _.
  destruct (w_users w1 !! user); [|quiet]. apply safe_issue. intros. quiet.
Qed.

Lemma passkey_register_finish_safe authorization user credential device label jti w0 own w :
  world_le w0 w →
  safe (passkey_register_finish signingKey rp user credential device label jti) own w
    (spec (RPasskeyRegisterFinish authorization credential device label jti) w0).
Proof.
  intros H0. unfold passkey_register_finish, select_by_id. apply safe_take. intros own1 w1 challenge [_ Hle1] _.
  destruct (pending challenge) as [c|]; [|quiet]. destruct (finishRegistration rp c credential); [quiet|].
  apply safe_reading. intros w2 _ Hle2. destruct (w_passkeys w2 !! _); [quiet|].
  apply safe_insert_passkey. intros own4 w4 [_ Hle4]. apply safe_audit. intros own5 w5 [_ Hle5].
  destruct device as [device|]; [|split; [by intros t ?%not_elem_of_nil|done]].
  apply safe_activeDevice; [intros; quiet|]. intros own6 w6 row [_ Hle6] Hr Hu Hid Hact. rewrite Hid.
  apply (safe_mint signingKey w0); [right; split; [apply Hact; by do 5 (etrans; [eassumption|])|by exists row]|].
  intros own7 w7 claims _ _ _ Hok. split; [|done]. by intros t [->|?%not_elem_of_nil]%elem_of_cons.
Qed.

Lemma passkey_login_begin_safe user random w0 own w :
  safe (passkey_login_begin rp user random) own w (spec (RPasskeyLoginBegin user random) w0).
Proof. unfold passkey_login_begin. apply safe_reading. intros w1 _ _. apply safe_issue. intros. quiet. Qed.

Lemma passkey_login_finish_safe user device credential jti w0 own w :
  world_le w0 w →
  safe (passkey_login_finish signingKey rp user device credential jti) own w
    (spec (RPasskeyLoginFinish user device credential jti) w0).
Proof.
  intros H0. unfold passkey_login_finish, select_by_id. apply safe_take. intros own1 w1 challenge Ho1 Hc.
  assert (∀ c, pending challenge = Some c → challenge = Some c) as Hpend
    by (intros c; unfold pending; destruct challenge as [[|]|]; congruence).
  destruct (pending challenge) as [c|]; [|quiet]. specialize (Hc c (Hpend c eq_refl)). clear Hpend.
  apply safe_reading. intros w2 _ Hle2. destruct (w_passkeys w2 !! ac_id credential) as [passkey|] eqn:Ep; [|quiet].
  destruct (String.eqb_spec (p_userId passkey) user) as [Eu|]; [|quiet]. cbn [negb].
  destruct (finishLogin _ _ _ _ _) as [reason|count] eqn:Ef; [quiet|].
  apply safe_activeDevice; [intros; quiet|]. intros own3 w3 row Ho3 Hr Hu Hid Hact. rewrite Hid.
  assert (¬ revoked w0 device) as Hnr by (apply Hact; etrans; [exact H0|]; etrans; [apply Ho1|]; etrans; [exact Hle2|apply Ho3]).
  assert (own1 ⊆ own3) as Hsub by (destruct Ho3; set_solver).
  assert (∀ own4 w4, own3 ⊆ own4 → world_le w3 w4 → safe (token ← mintDeviceToken signingKey user device jti;
    token_response 200 (Some "webauthn") token) own4 w4 (spec (RPasskeyLoginFinish user device credential jti) w0)) as Htail.
  { intros own4 w4 Hs4 Hle4. apply (safe_mint signingKey w0).
    { right. split; [done|]. eapply owned_le; [exact Hle4|]. by exists row. }
    intros own5 w5 claims [Hs5 Hle5] Hsu Hdi Hok. apply respond_token; [done|].
    assert (world_le w2 w5) as Hle25 by (etrans; [apply Ho3|]; by etrans).
    destruct (wl_passkeys _ _ Hle25 _ _ Ep) as (passkey' & Ep' & Hpl).
    exists passkey', c, (p_signCount passkey), count. rewrite (pl_user _ _ Hpl), (pl_key _ _ Hpl).
    split; [done|]. split; [done|]. split; [eapply challenge_taken_mono; [|exact Hc]; set_solver|].
    split; [done|]. by exists claims. }
  apply safe_update.
  - intros w4 p Hi Hle4 Hp _. cbv zeta.
    assert (forward w4 (set_passkeys (<[p_id passkey := count_login count (w_nowMs w4) p]> (w_passkeys w4)) w4)) as Hf
      by (eapply forward_passkey; [done|done|by split]).
    split; [exact Hf|]. apply Htail; [set_solver|]. etrans; [exact Hle4|apply Hf].
  - intros w4 Hi Hle4 _. apply Htail; [set_solver|done].
Qed.

(** ** Invites and accounts *)

Lemma mint_invites_safe authorization codes email note w0 own w :
  safe (mint_invites adminToken authorization codes email note) own w (spec (RMintInvites authorization codes email note) w0).
Proof.
  unfold mint_invites. destruct adminToken as [[|a s]|]; [quiet| |quiet].
  destruct (bearer authorization); [|quiet]. destruct (negb _); [quiet|]. cbv zeta.
  apply safe_insert_invites. intros own' w' _. split; [by intros t ?%not_elem_of_nil|done].
Qed.

(** The claim of an invite is one piece; [None] when no invite is required. *)
Lemma safe_claim_invite {A} code email (k : Response + option string → Handler A) own w Q :
  (∀ own' w' b, onward own w own' w' → silent b → safe (k (inl (mkResp 403 b))) own' w' Q) →
  (∀ own' w' claimed, onward own w own' w' →
     (invitesRequired = true → ∃ c, code = Some c ∧ invite_claimed own' c email) →
     safe (k (inr claimed)) own' w' Q) →
  safe (claim_invite invitesRequired code email ≫= k) own w Q.
Proof.
  intros Hl Hr. unfold claim_invite. destruct invitesRequired; [|apply tsafe_bind, Hr; [apply onward_refl|done]].
  destruct code as [code|]; [|apply tsafe_bind, Hl; [apply onward_refl|by split]].
  apply tsafe_bind, safe_update.
  - intros w1 row Hi Hle Hrow Hg. cbv zeta.
    assert (forward w1 (set_invites (<[code := redeem_invite row (Some (w_nowMs w1))]> (w_invites w1)) w1)) as Hf.
    { eapply forward_invite; [done|done|]. split; cbn; try done. by intros _. }
    split; [exact Hf|]. cbn [tsafe]. apply Hr; [apply onward_piece; [done|apply Hf]|]. intros _. exists code.
    split; [done|]. eexists w1, _, row. split; [apply elem_of_app; right; left|]. bprop.
    split; [done|]. split; [done|]. split; [destruct (i_email row) as [e|]; [right|by left]; f_equal; by apply String.eqb_eq|].
    eexists. cbn. rewrite lookup_insert_eq. split; [done|]. by eexists.
  - intros w1 Hi Hle _. cbn [tsafe]. apply Hl; [by apply onward_piece|by split].
Qed.

Lemma safe_invite_update {A} code change (k : Handler A) own w Q :
  (∀ r, invite_le r (change r)) →
  (∀ own' w', onward own w own' w' → safe k own' w' Q) →
  safe (_ ← update_where w_invites set_invites code always (λ _, change); k) own w Q.
Proof.
  intros Hc Hk. apply safe_update.
  - intros w1 row Hi Hle Hrow _. cbv zeta. pose proof (forward_invite w1 code row (change row) Hi Hrow (Hc row)) as Hf.
    split; [exact Hf|]. apply Hk. apply onward_piece; [done|apply Hf].
  - intros w1 Hi Hle _. apply Hk. by apply onward_piece.
Qed.

Lemma safe_audit_last user type actor own w (Q : Own → unit → World → Prop) :
  (∀ own' w', onward own w own' w' → Q own' tt w') → safe (audit user type actor) own w Q.
Proof.
  intros H w1 Hi Hle. case_bool_decide; [|by split].
  assert (forward w1 (set_audit (w_audit w1 ++ [mkAudit user type actor]) w1)) as [Hf1 Hf2] by (by apply forward_other).
  split; [done|]. split; [done|]. by apply H, onward_piece.
Qed.

Lemma safe_provision {A} user machineId (k : Response + MachineRow → Handler A) own w Q :
  (∀ own' w' b, onward own w own' w' → silent b → safe (k (inl (mkResp 500 b))) own' w' Q) →
  (∀ own' w' m, onward own w own' w' → safe (k (inr m)) own' w' Q) →
  safe (provision_machine user machineId ≫= k) own w Q.
Proof.
  intros Hl Hr. unfold provision_machine. apply tsafe_bind, safe_insert_machine. intros own1 w1 Ho1.
  apply safe_external. intros [| | |[address|]]; try exact I; [|cbn [tsafe]; by apply Hr].
  apply safe_update.
  - intros w2 row Hi Hle Hrow _. cbv zeta.
    match goal with |- forward w2 ?w3 ∧ _ => assert (forward w2 w3) as Hf by (by apply forward_other) end.
    split; [exact Hf|]. cbn [tsafe]. apply Hr. eapply onward_trans; [exact Ho1|]. apply onward_piece; [done|apply Hf].
  - intros w2 Hi Hle _. cbn [tsafe]. apply Hr. eapply onward_trans; [exact Ho1|by apply onward_piece].
Qed.

Lemma create_account_safe body claimed user space machine jti w0 own w :
  (invitesRequired = true → ∃ c, sg_inviteCode body = Some c ∧ invite_claimed own c (toLowerCase (sg_email body))) →
  safe (create_account signingKey body (toLowerCase (sg_email body)) claimed user space machine jti) own w
    (spec (RSignup body user space machine jti) w0).
Proof.
  intros Hinv. unfold create_account. apply safe_insert_user; [done|]. intros own1 w1 [Hs1 _].
  set (u := mkUser _ _ _ _ _ _ _).
  assert (∀ own2 w2, own ⊆ own2 → safe (space ← insert_space (mkSpaceRow space (u_id u) DEFAULT_SPACE_NAME DEFAULT_SPACE_COLOR 0 "direct");
      machine ← (if String.eqb (default "cloud" (sg_computeMode body)) "cloud"
                 then m ← provision_machine u machine; mret match m with inl r => inl r | inr m => inr (Some m) end
                 else mret (inr None));
      match machine with
      | inl refusal => mret refusal
      | inr machine =>
          match space with
          | None => refuse 500 "internal"
          | Some space =>
              _ ← audit (u_id u) "account.created" None;
              boot ← mintDeviceToken signingKey (u_id u) (u_id u) jti;
              respond 201 (BAccount u space machine (fst boot))
          end
      end) own2 w2 (spec (RSignup body user space machine jti) w0)) as Htail.
  { intros own2 w2 Hs2. apply safe_insert_space. intros own3 w3 [Hs3 _].
    assert (∀ own4 w4 m, own3 ⊆ own4 → safe (_ ← audit (u_id u) "account.created" None;
              boot ← mintDeviceToken signingKey (u_id u) (u_id u) jti;
              respond 201 (BAccount u (mkSpaceRow space (u_id u) DEFAULT_SPACE_NAME DEFAULT_SPACE_COLOR 0 "direct") m (fst boot)))
       own4 w4 (spec (RSignup body user space machine jti) w0)) as Hend.
    { intros own4 w4 m Hs4. apply safe_audit. intros own5 w5 [Hs5 _]. apply (safe_mint signingKey w0); [by left|].
      intros own6 w6 claims [Hs6 _] _ _ Hok. split; [by intros t [->|?%not_elem_of_nil]%elem_of_cons|].
      cbn [promise rs_body]. intros Hreq. destruct (Hinv Hreq) as (c & Hc & Hcl). exists c. split; [done|].
      eapply invite_claimed_mono; [|exact Hcl]. set_solver. }
    destruct (String.eqb _ _); apply tsafe_bind; [|cbn [tsafe]; by apply Hend].
    apply safe_provision; [intros own4 w4 b Ho Hb; cbn [tsafe]; by apply quiet|].
    intros own4 w4 m [Hs4 _]. cbn [tsafe]. apply Hend. done. }
  destruct claimed as [code|]; apply tsafe_bind; [|cbn [tsafe]; by apply Htail].
  apply safe_invite_update; [intros r; split; [done..|by intros ?]|]. intros own2 w2 [Hs2 _].
  apply safe_audit_last. intros own3 w3 [Hs3 _]. apply Htail. set_solver.
Qed.

Lemma signup_safe body user space machine jti w0 own w :
  safe (signup signingKey invitesRequired body user space machine jti) own w (spec (RSignup body user space machine jti) w0).
Proof.
  unfold signup, select_where. cbv zeta. apply safe_reading. intros w1 _ _. destruct (List.find _ _); [quiet|].
  apply safe_claim_invite; [intros own2 w2 b _ Hb; cbn [tsafe]; by apply quiet|].
  intros own2 w2 claimed _ Hinv. by apply create_account_safe.
Qed.

(** ** Enrollment codes *)

Lemma mint_code_safe authorization user device codeHash wrapSalt wrappers w0 own w :
  safe (mint_code user device codeHash wrapSalt wrappers) own w
    (spec (RMintCode authorization codeHash wrapSalt wrappers) w0).
Proof.
  unfold mint_code, now. apply safe_reading. intros w1 _ _. apply safe_insert_code. intros own2 w2 _.
  apply safe_audit. intros own3 w3 _. split; [by intros t ?%not_elem_of_nil|done].
Qed.

Lemma safe_code_update {A} h change (k : Handler A) own w Q :
  (∀ r, code_le r (change r)) →
  (∀ own' w', onward own w own' w' → safe k own' w' Q) →
  safe (_ ← update_where w_codes set_codes h always (λ _, change); k) own w Q.
Proof.
  intros Hc Hk. apply safe_update.
  - intros w1 row Hi Hle Hrow _. cbv zeta. pose proof (forward_code w1 h row (change row) Hi Hrow (Hc row)) as Hf.
    split; [exact Hf|]. apply Hk. apply onward_piece; [done|apply Hf].
  - intros w1 Hi Hle _. apply Hk. by apply onward_piece.
Qed.

Lemma redeem_safe code jti w0 own w :
  safe (redeem signingKey code jti) own w (spec (RRedeemCode code jti) w0).
Proof.
  unfold redeem. apply safe_update; [|intros; quiet].
  intros w1 row Hi Hle Hrow Hg. cbv zeta. bprop. set (h := hashEnrollmentCode code) in *.
  assert (forward w1 (set_codes (<[h := redeem_code (w_nowMs w1) row]> (w_codes w1)) w1)) as Hf.
  { eapply forward_code; [done|done|]. split; [done..|by intros _; eexists]. }
  split; [exact Hf|]. set (w2 := set_codes _ w1) in *. unfold select_by_id. apply safe_reading. intros w3 Hi3 Hle3.
  destruct (w_users w3 !! _) as [u|] eqn:Eu; [|quiet]. pose proof (wi_users _ Hi3 _ _ Eu) as Eid. cbn in Eid.
  assert (code_claimed (own ++ [(w1, w2)]) h (u_id u)) as Hcl.
  { exists w1, w2, row. split; [apply elem_of_app; right; left|]. split; [done|]. split; [done|]. split; [lia|].
    split; [done|]. eexists. unfold w2. cbn. rewrite lookup_insert_eq. split; [done|by eexists]. }
  apply (safe_mint signingKey w0); [by left|]. intros own4 w4 claims [Hs4 Hle4] _ _ Hok.
  apply safe_code_update; [intros r; split; [done..|by intros ?]|]. intros own5 w5 [Hs5 Hle5].
  apply safe_audit. intros own6 w6 [Hs6 Hle6]. split.
  - intros t [->|?%not_elem_of_nil]%elem_of_cons; [|done]. eapply token_ok_le; [|exact Hok]. by etrans.
  - cbn [promise rs_body]. eapply code_claimed_mono; [|exact Hcl]. set_solver.
Qed.

(** ** Devices *)

Lemma enroll_safe authorization user name platform publicKey id w0 own w :
  safe (enroll user name platform publicKey id) own w (spec (REnroll authorization name platform publicKey id) w0).
Proof.
  unfold enroll, select_where. apply safe_reading. intros w1 _ _. destruct (List.find _ _); [quiet|].
  apply safe_insert_device. intros own2 w2 Ho2 Hin. cbn [d_id] in *.
  assert (∀ own3 w3 claimed, world_le w2 w3 →
    (is_Some claimed → ∃ u, w_users w3 !! user = Some u ∧ u_homeDeviceId u = Some id) →
    safe (_ ← match claimed : option UserRow with
              | Some _ => audit user "device.homeMachine" (Some id)
              | None => mret tt
              end;
          _ ← audit user "device.enrolled" (Some id);
          respond 201 (BEnrolled (mkDevice id user name platform publicKey None None) (hubTokenFor user (Some id))
            (bool_decide (is_Some claimed)))) own3 w3 (spec (REnroll authorization name platform publicKey id) w0)) as Hend.
  { intros own3 w3 claimed Hle3 Hhome.
    assert (∀ own4 w4, world_le w3 w4 → safe (_ ← audit user "device.enrolled" (Some id);
          respond 201 (BEnrolled (mkDevice id user name platform publicKey None None) (hubTokenFor user (Some id))
            (bool_decide (is_Some claimed)))) own4 w4 (spec (REnroll authorization name platform publicKey id) w0)) as Hlast.
    { intros own4 w4 Hle4. apply safe_audit. intros own5 w5 [_ Hle5]. split; [by intros t ?%not_elem_of_nil|].
      cbn [promise rs_body d_userId d_devicePublicKey]. split; [|split; [done|]].
      - eapply owned_le; [|by eexists]. by do 2 (etrans; [eassumption|]).
      - intros Hc%bool_decide_eq_true. destruct (Hhome Hc) as (u & Hu & Hh).
        assert (world_le w3 w5) as Hle by (by etrans). destruct (wl_users _ _ Hle _ _ Hu) as (u' & Hu' & Hul).
        exists u'. split; [done|]. by apply (ul_home _ _ Hul). }
    destruct claimed; apply tsafe_bind; [|cbn [tsafe]; by apply Hlast].
    apply safe_audit_last. intros own4 w4 [_ Hle4]. by apply Hlast. }
  apply safe_update.
  - intros w3 u Hi3 Hle3 Hu Hg. bprop. cbv zeta.
    destruct (wl_devices _ _ Hle3 _ _ Hin) as (row & Hrow & Hdl).
    assert (forward w3 (set_users (<[user := set_home id u]> (w_users w3)) w3)) as Hf.
    { eapply forward_home; [done|done|done|exact Hrow|]. by rewrite (dl_user _ _ Hdl). }
    split; [exact Hf|]. apply Hend; [etrans; [exact Hle3|apply Hf]|]. intros _. eexists. cbn.
    rewrite lookup_insert_eq. by split.
  - intros w3 Hi3 Hle3 _. apply Hend; [done|]. by intros [? ?].
Qed.

Lemma list_devices_safe authorization user w0 own w :
  safe (list_devices user) own w (spec (RListDevices authorization) w0).
Proof. unfold list_devices. apply safe_reading. intros w1 _ _. split; [by intros t ?%not_elem_of_nil|done]. Qed.

Lemma rename_safe authorization user id name w0 own w :
  safe (rename user id name) own w (spec (RRename authorization id name) w0).
Proof.
  unfold rename. apply safe_update; [|intros; quiet]. intros w1 row Hi Hle Hrow Hg. cbv zeta.
  assert (forward w1 (set_devices (<[id := rename_device name row]> (w_devices w1)) w1)) as Hf.
  { eapply forward_device; [done|done|]. split; [done..|by intros ?]. }
  split; [exact Hf|]. apply safe_audit. intros own' w' _. split; [by intros t ?%not_elem_of_nil|done].
Qed.

(** ** Revocation and its outbox *)

Lemma safe_drain l delivered pend own w Q :
  (∀ row, row ∈ l → 0 <= o_attempts row) →
  (∀ own' w' r, onward own w own' w' → Q own' r w') → safe (drain_rows l delivered pend) own w Q.
Proof.
  revert delivered pend own w. induction l as [|row l IH]; intros delivered pend own w Hl HQ; cbn [drain_rows];
    [cbn [tsafe]; by apply HQ|].
  destruct (o_attempts row >=? MAX_OUTBOX_ATTEMPTS) eqn:Ea; [apply IH; [intros; apply Hl; by right|done]|]. bprop.
  assert (∀ own' w' d p, onward own w own' w' → safe (drain_rows l d p) own' w' Q) as Hnext.
  { intros own' w' d p Ho. apply IH; [intros; apply Hl; by right|]. intros own2 w2 r Ho2. apply HQ. by eapply onward_trans. }
  assert (∀ change d p, (∀ v o, outbox_le o (change v o)) →
    (∀ v o, 0 <= o_attempts o <= MAX_OUTBOX_ATTEMPTS → 0 <= o_attempts (change v o) <= MAX_OUTBOX_ATTEMPTS) →
    safe (_ ← update_where w_outbox set_outbox (o_id row) always change; drain_rows l d p) own w Q) as Hupd.
  { intros change d p Hc Hb. apply safe_update.
    - intros w1 o Hi Hle Hr _. cbv zeta. pose proof (forward_outbox w1 _ _ _ Hi Hr (Hc w1 o)) as Hf.
      destruct (Hf (Hb w1 o (wi_attempts _ Hi _ _ Hr))) as [Hf1 Hf2].
      split; [done|]. apply Hnext. by apply onward_piece.
    - intros w1 Hi Hle _. apply Hnext. by apply onward_piece. }
  specialize (Hl row ltac:(left)). apply safe_external. intros [| | |address].
  - apply Hupd; [|done]. intros v o. split; [done..|by intros _; eexists].
  - apply Hnext, onward_refl.
  - apply Hupd; [|cbn; lia]. intros v o. split; [done..|by intros ?].
  - apply Hupd; [|cbn; lia]. intros v o. split; [done..|by intros ?].
Qed.

Lemma safe_flush {A} (k : Z * Z → Handler A) own w Q :
  (∀ own' w' r, onward own w own' w' → safe (k r) own' w' Q) → safe (flushRevocationOutbox ≫= k) own w Q.
Proof.
  intros H. unfold flushRevocationOutbox. apply tsafe_bind, safe_reading. intros w1 Hi Hle. apply safe_drain.
  - intros row [Hin _]%In_filter_iff. apply row_in_rows in Hin as [k' Hk]. by apply (wi_attempts _ Hi k').
  - intros own' w' r Ho. apply H. eapply onward_trans; [by apply onward_piece|exact Ho].
Qed.

Lemma revoke_safe authorization user id reason outboxId w0 own w :
  safe (revoke user id reason outboxId) own w (spec (RRevoke authorization id reason outboxId) w0).
Proof.
  unfold revoke, select_by_id. apply safe_reading. intros w1 Hi1 Hle1.
  destruct (w_devices w1 !! id) as [device|] eqn:Ed; [|quiet]. destruct (negb _); [quiet|].
  case_bool_decide as Hr.
  { split; [by intros t ?%not_elem_of_nil|]. assert (revoked w1 id) as Hrev by (by eexists).
    split; [done|]. right; right. exists w1. split; [apply elem_of_app; right; left|done]. }
  assert (∀ own2 w2 answered, revoked w2 id → safe (_ ← audit user "device.revoked" None;
        answer ← external (NotifyHub user id);
        let hubNotified := match answer with Acked => true | _ => false end in
        _ ← (if hubNotified then mret tt else insert_outbox (mkOutbox outboxId user id None 0));
        _ ← flushRevocationOutbox;
        respond 200 (BRevoked answered hubNotified)) own2 w2 (spec (RRevoke authorization id reason outboxId) w0)) as Htail.
  { intros own2 w2 answered Hrev. apply safe_audit. intros own3 w3 [_ Hle3]. apply safe_external. intros answer. cbv zeta.
    assert (∀ own4 w4 notified, world_le w3 w4 → notified = true ∨ queued w4 id →
      safe (_ ← flushRevocationOutbox; respond 200 (BRevoked answered notified)) own4 w4
        (spec (RRevoke authorization id reason outboxId) w0)) as Hend.
    { intros own4 w4 notified Hle4 Hn. apply safe_flush. intros own5 w5 _ [_ Hle5].
      split; [by intros t ?%not_elem_of_nil|]. cbn [promise rs_body]. split; [eapply revoked_le; [|exact Hrev]; by do 2 (etrans; [eassumption|])|].
      destruct Hn as [->|Hq]; [by left|right; left]. by eapply queued_le. }
    destruct (match answer with Acked => true | _ => false end).
    - apply tsafe_bind. cbn [tsafe]. apply Hend; [done|by left].
    - apply safe_insert_outbox; [done|]. intros own4 w4 [_ Hle4] Hin. apply Hend; [done|right]. by eexists _, _. }
  apply safe_update.
  - intros w2 row Hi Hle2 Hrow _. cbv zeta.
    assert (forward w2 (set_devices (<[id := revoke_device (w_nowMs w2) reason row]> (w_devices w2)) w2)) as Hf.
    { eapply forward_device; [done|done|]. split; [done..|by intros _; eexists]. }
    split; [exact Hf|]. apply Htail. eexists. cbn. rewrite lookup_insert_eq. split; [done|by eexists].
  - intros w2 Hi Hle2 Hnone. exfalso. destruct (wl_devices _ _ Hle2 _ _ Ed) as (row & Hrow & _).
    by apply Hnone in Hrow.
Qed.

(** ** Every route *)

(** The header of the routes behind bearer authentication. *)
Definition authorization_of (req : Request) : option (option string) :=
  match req with
  | RPasskeyRegisterBegin a _ | RPasskeyRegisterFinish a _ _ _ _ | RMintCode a _ _ _ | REnroll a _ _ _ _
  | RListDevices a | RRename a _ _ | RRevoke a _ _ _ | ROutbox a => Some a
  | _ => None
  end.

Definition response_ok (req : Request) (w0 : World) own (r : Response) w : Prop :=
  tokens_ok w0 r w ∧ promise req w0 own r w
  ∧ ∀ authorization d, authorization_of req = Some authorization → presents verifyKey authorization d →
      revoked w0 d → r = unauthorized_response.

Lemma safe_public req w0 own w (t : Handler Response) :
  authorization_of req = None → safe t own w (spec req w0) → safe t own w (response_ok req w0).
Proof.
  intros Ha H. eapply tsafe_mono; [apply _| |exact H]. intros own' r w' _ [Ht Hp].
  split; [done|]. split; [done|]. intros authorization d E. congruence.
Qed.

Lemma safe_private req w0 authorization next own w :
  authorization_of req = Some authorization → world_le w0 w →
  (∀ own' w' user device, world_le w0 w' → safe (next user device) own' w' (spec req w0)) →
  safe (bearerAuth verifyKey envProvided authorization next) own w (response_ok req w0).
Proof.
  intros Ha H0 H. apply safe_bearerAuth.
  - intros own' w' _. destruct (quiet req w0 own' 401 (BError "unauthorized" None) w') as [Ht Hp]; [by split|].
    split; [done|]. by split.
  - intros own' w' user device [_ Hle] _ Hnr. eapply tsafe_mono; [apply _| |apply H; by etrans].
    intros own2 r w2 _ [Ht Hp]. split; [done|]. split; [done|]. intros authorization' d E Hd Hrev.
    rewrite Ha in E. injection E as <-. exfalso. apply (Hnr d Hd). by eapply revoked_le.
Qed.

Abbreviation serve := (handle importPublicKeyRaw signingKey verifyKey envProvided rp invitesRequired adminToken).

Lemma handle_safe req w0 : world_inv w0 → safe (serve req) [] w0 (response_ok req w0).
Proof.
  intros _. destruct req; cbn [handle].
  all: try (apply safe_public; [done|]).
  all: try (apply safe_private; [done|done|]; intros own' w' user device Hle; cbv beta).
  - apply safe_issue. intros. quiet.
  - by apply device_credential_safe.
  - by apply device_login_safe.
  - by apply refresh_safe.
  - apply passkey_register_begin_safe.
  - by apply passkey_register_finish_safe.
  - apply passkey_login_begin_safe.
  - by apply passkey_login_finish_safe.
  - apply signup_safe.
  - apply mint_invites_safe.
  - apply mint_code_safe.
  - apply redeem_safe.
  - apply enroll_safe.
  - apply list_devices_safe.
  - apply rename_safe.
  - apply revoke_safe.
  - apply safe_flush. intros own' w' [d p] _. split; [by intros t ?%not_elem_of_nil|done].
  - apply safe_reading. intros w1 _ _. split; [by intros t ?%not_elem_of_nil|done].
Qed.
End Handlers.
