(* ===== verification/ControlAuthProps.v ===== *)
(** * What the control plane guarantees of accounts, devices and credentials

    For every interleaving of any number of requests, with any answers of the
    session hub and the sandbox, clock advances and restarts. *)

From S2P Require Export ControlHandlers TokenProps WebAuthnProps.
From Stdlib Require Import Ascii.

(** The clock advances; a restart also loses the pending challenges. *)
Definition elapse (nowMs : Z) (s : ChallengeStore) (w : World) : World :=
  mkWorld nowMs s (w_users w) (w_devices w) (w_invites w) (w_codes w) (w_passkeys w) (w_spaces w) (w_machines w)
    (w_outbox w) (w_audit w).
Definition control_env (w w' : World) : Prop :=
  ∃ nowMs s, w_nowMs w <= nowMs ∧ (s = w_challenges w ∨ s = []) ∧ w' = elapse nowMs s w.

Lemma control_env_ok w w' : control_env w w' → world_inv w → world_inv w' ∧ world_le w w'.
Proof. intros (n & s & Hn & _ & ->) Hi. by apply forward_other. Qed.

(** ** Tokens determine their claims *)

Lemma signDeviceToken_inj `{L : !WebCryptoLaws W} key c c' :
  signDeviceToken key c = signDeviceToken key c' → c = c'.
Proof.
  unfold signDeviceToken. cbv zeta. intros H%(f_equal (split_char ".")).
  rewrite !split_token in H by first [apply HEADER_no_dot|apply ed25519_sign_ok].
  apply (f_equal (λ l, parse_payload (nth 1 l ""))) in H. cbn [nth] in H. rewrite !parse_payload_json in H by apply claims_json_wf.
  assert (∀ j j' : json, Some j = Some j' → j = j') as Hsome by congruence.
  apply Hsome, (f_equal read_claims) in H. rewrite !read_claims_json in H.
  assert (∀ d d' : DeviceTokenClaims, Some (Some d) = Some (Some d') → d = d') as Hcl by congruence. by apply Hcl.
Qed.

Section Control.
Context `{C : WebAuthnCrypto} (importPublicKeyRaw : bytes → option CryptoKey).
Context (signingKey verifyKey : CryptoKey) (envProvided : bool) (rp : RpConfig).
Context (invitesRequired : bool) (adminToken : option string).

Abbreviation serve := (handle importPublicKeyRaw signingKey verifyKey envProvided rp invitesRequired adminToken).
Abbreviation Pool := (Config (World := World) (Ext := ExtCall) (Answer := ExtAnswer) (Request := Request) (Response := Response)).
Abbreviation step := (pool_step (Ext := ExtCall) (Answer := ExtAnswer) serve control_env).
Abbreviation ok := (pool_ok (Ext := ExtCall) (Answer := ExtAnswer) world_inv world_le
  (response_ok importPublicKeyRaw signingKey verifyKey rp invitesRequired)).

Lemma control_reachable w0 (c : Pool) : world_inv w0 → rtc step (initial w0) c → ok c.
Proof.
  intros Hi Hr. eapply pool_reachable_ok; [apply _|exact control_env_ok| |exact Hi|exact Hr].
  intros req w Hw. by apply handle_safe.
Qed.

Lemma control_steps (c c' : Pool) : ok c → rtc step c c' → ok c' ∧ world_le (cf_world c) (cf_world c').
Proof.
  intros Hok Hr. split.
  - eapply pool_steps_ok; [apply _|exact control_env_ok| |exact Hr|exact Hok]. intros req w Hw. by apply handle_safe.
  - eapply pool_reachable_forward; [apply _|exact control_env_ok| |exact Hok|exact Hr].
    intros req w Hw. by apply handle_safe.
Qed.

Lemma control_finished (c : Pool) i r a :
  ok c → cf_threads c !! i = Some r → run_thread r = Ret a →
  ∃ w, world_le (run_start r) w ∧ world_le w (cf_world c)
    ∧ response_ok importPublicKeyRaw signingKey verifyKey rp invitesRequired (run_request r) (run_start r)
        (own_pieces i (cf_history c)) a w.
Proof. apply finished_ok. Qed.

(** Two requests cannot both have claimed a code, or an invite. *)
Lemma code_claimed_once (c : Pool) i j h u u' : ok c →
  code_claimed (own_pieces i (cf_history c)) h u → code_claimed (own_pieces j (cf_history c)) h u' → i = j.
Proof.
  intros Hok (w1 & w1' & row1 & Hin1 & Hr1 & Hn1 & _ & _ & Hp1) (w2 & w2' & row2 & Hin2 & Hr2 & Hn2 & _ & _ & Hp2).
  eapply (once_only world_inv world_le _ c (λ w, code_redeemed w h));
    [intros w w'; by apply code_redeemed_le|exact Hok|exact Hin1| |exact Hp1|exact Hin2| |exact Hp2];
    intros (row & Hrow & Hs); destruct Hs; congruence.
Qed.
Lemma invite_claimed_once (c : Pool) i j code e e' : ok c →
  invite_claimed (own_pieces i (cf_history c)) code e → invite_claimed (own_pieces j (cf_history c)) code e' → i = j.
Proof.
  intros Hok (w1 & w1' & row1 & Hin1 & Hr1 & Hn1 & _ & Hp1) (w2 & w2' & row2 & Hin2 & Hr2 & Hn2 & _ & Hp2).
  eapply (once_only world_inv world_le _ c (λ w, invite_redeemed w code));
    [intros w w'; by apply invite_redeemed_le|exact Hok|exact Hin1| |exact Hp1|exact Hin2| |exact Hp2];
    intros (row & Hrow & Hs); destruct Hs; congruence.
Qed.

(** C24: in every interleaving of requests, calls, clock advances and restarts
    the tables of the control plane stay well formed: no two devices hold the
    same key text, no two accounts the same email, the count of failed
    attempts kept with a queued revocation is never more than twenty, and the
    home seat of an account belongs to a device of it.  And what is done is
    done: a revoked device stays revoked with its key and owner, used codes
    and invites stay used, a home seat is never moved, a delivered revocation
    stays delivered.  (The count is of what the outbox recorded: the call made
    before a revocation is queued is not in it, and drains that overlap record
    one attempt for a call each.) *)
Theorem control_plane_invariant w0 (c c' : Pool) :
  world_inv w0 → rtc step (initial w0) c → rtc step c c' →
  world_inv (cf_world c')
  ∧ (∀ d row, w_devices (cf_world c) !! d = Some row → ∃ row', w_devices (cf_world c') !! d = Some row'
       ∧ d_userId row' = d_userId row ∧ d_devicePublicKey row' = d_devicePublicKey row
       ∧ (is_Some (d_revokedAt row) → is_Some (d_revokedAt row')))
  ∧ (∀ h, code_redeemed (cf_world c) h → code_redeemed (cf_world c') h)
  ∧ (∀ i, invite_redeemed (cf_world c) i → invite_redeemed (cf_world c') i)
  ∧ (∀ u row d, w_users (cf_world c) !! u = Some row → u_homeDeviceId row = Some d →
       ∃ row', w_users (cf_world c') !! u = Some row' ∧ u_homeDeviceId row' = Some d)
  ∧ (∀ k row, w_outbox (cf_world c) !! k = Some row → is_Some (o_deliveredAt row) →
       ∃ row', w_outbox (cf_world c') !! k = Some row' ∧ is_Some (o_deliveredAt row')).
Proof.
  intros Hi Hr Hr'. destruct (control_steps c c' (control_reachable _ _ Hi Hr) Hr') as [Hok Hle].
  split; [apply Hok|]. split.
  { intros d row Hd. destruct (wl_devices _ _ Hle d row Hd) as (row' & Hd' & []). eauto 6. }
  split; [intros h; by apply code_redeemed_le|]. split; [intros h; by apply invite_redeemed_le|]. split.
  - intros u row d Hu Hd. destruct (wl_users _ _ Hle u row Hu) as (row' & Hu' & []). eauto.
  - intros k row Hk Hd. destruct (wl_outbox _ _ Hle k row Hk) as (row' & Hk' & []). eauto.
Qed.

(** C25: a revoked device stays out.  Once device [d] is revoked, whatever
    happens next: it stays revoked; no request that starts afterwards is
    answered with a token for [d] (a token whose device is its account is a
    bootstrap token, of no device); a request that authenticates with a token
    of [d] is answered 401 by every route behind bearer authentication; and no
    other device ever holds the text its key is stored as.  (Another base64
    text of the same key is another key to the table:
    [revoked_key_in_another_text] of ControlDemo.) *)
Theorem revoked_device_stays_out `{!WebCryptoLaws W} w0 (c c' : Pool) d :
  world_inv w0 → rtc step (initial w0) c → revoked (cf_world c) d → rtc step c c' →
  revoked (cf_world c') d
  ∧ (∀ i r resp, (length (cf_threads c) <= i)%nat → cf_threads c' !! i = Some r → run_thread r = Ret resp →
       (∀ claims, signDeviceToken signingKey claims ∈ tokens_of (rs_body resp) → dt_did claims = d → dt_sub claims = d)
       ∧ (∀ authorization, authorization_of (run_request r) = Some authorization →
            presents verifyKey authorization d → resp = unauthorized_response))
  ∧ (∀ row d' row', w_devices (cf_world c') !! d = Some row → w_devices (cf_world c') !! d' = Some row' →
       d_devicePublicKey row' = d_devicePublicKey row → d' = d).
Proof.
  intros Hi Hr Hrev Hr'. pose proof (control_reachable _ _ Hi Hr) as Hok.
  destruct (control_steps c c' Hok Hr') as [Hok' Hle].
  split; [by eapply revoked_le|]. split.
  - intros i r resp Hlen Hl Hret.
    assert (world_le (cf_world c) (run_start r)) as Hstart.
    { eapply spawned_later; [apply _|exact control_env_ok| |exact Hok|exact Hr'|exact Hlen|exact Hl].
      intros req w Hw. by apply handle_safe. }
    apply (revoked_le _ _ _ Hstart) in Hrev.
    destruct (control_finished c' i r resp Hok' Hl Hret) as (w & _ & _ & Ht & _ & Ha). split; [|eauto].
    intros claims Hin Hd. destruct (Ht _ Hin) as (claims' & Hsign & _ & Hcase). apply signDeviceToken_inj in Hsign as <-.
    destruct Hcase as [?|[Hn _]]; [congruence|]. by rewrite Hd in Hn.
  - intros row d' row' H1 H2 E. by eapply (wi_keys _ (po_inv _ _ _ _ Hok')).
Qed.

(** C26: codes are used once, by who they are for, in time.  However the
    requests race, one that is answered with the account of an enrollment code
    has itself turned that code from unused and unexpired to used, and the
    code was minted by that account; no other request is answered so for a
    code of the same hash.  Where invites are required, one that signs up has
    itself turned its invite from unused to used, the invite was open to any
    email or bound to that one, and no other request signs up with it. *)
Theorem codes_used_once w0 (c : Pool) i ri ai :
  world_inv w0 → rtc step (initial w0) c → cf_threads c !! i = Some ri → run_thread ri = Ret ai →
  (∀ code jti u t x, run_request ri = RRedeemCode code jti → rs_body ai = BRedeemed u t x →
     (∃ w w' row, (w, w') ∈ own_pieces i (cf_history c)
        ∧ w_codes w !! hashEnrollmentCode code = Some row ∧ e_redeemedAt row = None
        ∧ w_nowMs w < e_expiresAt row ∧ e_userId row = u_id u ∧ code_redeemed w' (hashEnrollmentCode code))
     ∧ (∀ j rj aj code' jti' u' t' x', cf_threads c !! j = Some rj → run_thread rj = Ret aj →
          run_request rj = RRedeemCode code' jti' → rs_body aj = BRedeemed u' t' x' →
          hashEnrollmentCode code' = hashEnrollmentCode code → j = i))
  ∧ (∀ b uid sid mid jti u s m t, invitesRequired = true →
       run_request ri = RSignup b uid sid mid jti → rs_body ai = BAccount u s m t →
       ∃ code, sg_inviteCode b = Some code
         ∧ (∃ w w' row, (w, w') ∈ own_pieces i (cf_history c)
              ∧ w_invites w !! code = Some row ∧ i_redeemedAt row = None
              ∧ (i_email row = None ∨ i_email row = Some (toLowerCase (sg_email b))) ∧ invite_redeemed w' code)
         ∧ (∀ j rj aj b' uid' sid' mid' jti' u' s' m' t', cf_threads c !! j = Some rj → run_thread rj = Ret aj →
              run_request rj = RSignup b' uid' sid' mid' jti' → rs_body aj = BAccount u' s' m' t' →
              sg_inviteCode b' = Some code → j = i)).
Proof.
  intros Hi Hr Hli Hti. pose proof (control_reachable _ _ Hi Hr) as Hok.
  destruct (control_finished c i ri ai Hok Hli Hti) as (wi & _ & _ & _ & Hpi & _). split.
  - intros code jti u t x Eri Ebi. unfold promise in Hpi. rewrite Eri, Ebi in Hpi. split; [exact Hpi|].
    intros j rj aj code' jti' u' t' x' Hlj Htj Erj Ebj Eh.
    destruct (control_finished c j rj aj Hok Hlj Htj) as (wj & _ & _ & _ & Hpj & _).
    unfold promise in Hpj. rewrite Erj, Ebj, Eh in Hpj. symmetry. exact (code_claimed_once _ _ _ _ _ _ Hok Hpi Hpj).
  - intros b uid sid mid jti u s m t Hreq Eri Ebi. unfold promise in Hpi. rewrite Eri, Ebi in Hpi.
    destruct (Hpi Hreq) as (code & Hcode & Hcl). exists code. split; [exact Hcode|]. split; [exact Hcl|].
    intros j rj aj b' uid' sid' mid' jti' u' s' m' t' Hlj Htj Erj Ebj Ec.
    destruct (control_finished c j rj aj Hok Hlj Htj) as (wj & _ & _ & _ & Hpj & _).
    unfold promise in Hpj. rewrite Erj, Ebj in Hpj. destruct (Hpj Hreq) as (code' & Hcode' & Hcl').
    assert (code' = code) as -> by congruence. symmetry. exact (invite_claimed_once _ _ _ _ _ _ Hok Hcl Hcl').
Qed.

(** C27: a device token is only for who holds a key.  A device login or
    registration answered with a token means that the device signed a
    challenge that was pending for it, unexpired and consumed by this very
    request, with the key it was enrolled with; a passkey login, that the
    passkey of that account signed the challenge consumed by this request.
    Either way the token names that account and device. *)
Theorem device_token_needs_key w0 (c : Pool) i r resp token exp kind :
  world_inv w0 → rtc step (initial w0) c →
  cf_threads c !! i = Some r → run_thread r = Ret resp → rs_body resp = BToken token exp kind →
  (∀ device signature jti, run_request r = RDeviceLogin device signature jti
       ∨ (∃ key, run_request r = RDeviceCredential device key signature jti) →
     ∃ w user, world_le w (cf_world c)
       ∧ possession importPublicKeyRaw (own_pieces i (cf_history c)) w device signature user
       ∧ token_for signingKey token user device)
  ∧ (∀ user device credential jti, run_request r = RPasskeyLoginFinish user device credential jti →
     ∃ w passkey challenge signCount count, world_le w (cf_world c)
       ∧ w_passkeys w !! ac_id credential = Some passkey ∧ p_userId passkey = user
       ∧ challenge_taken (own_pieces i (cf_history c)) (webauthnLoginKey user) challenge
       ∧ finishLogin rp challenge (p_publicKey passkey) signCount credential = inr count
       ∧ token_for signingKey token user device).
Proof.
  intros Hi Hr Hl Ht Hb. pose proof (control_reachable _ _ Hi Hr) as Hok.
  destruct (control_finished c i r resp Hok Hl Ht) as (w & _ & Hle & _ & Hp & _). unfold promise in Hp. rewrite Hb in Hp.
  split.
  - intros device signature jti [E|[key E]]; rewrite E in Hp; destruct Hp as (user & Hpos & Htok); eauto.
  - intros user device credential jti E. rewrite E in Hp. destruct Hp as (p & ch & n & m & ?). eauto 8.
Qed.

(** A revocation that was answered is never forgotten: the device is
    revoked, and the hub acknowledged it, or a row of the outbox waits for it,
    unless the device had been revoked before this request looked. *)
Theorem revocation_is_queued w0 (c : Pool) i r resp authorization id reason outboxId device notified :
  world_inv w0 → rtc step (initial w0) c →
  cf_threads c !! i = Some r → run_thread r = Ret resp →
  run_request r = RRevoke authorization id reason outboxId → rs_body resp = BRevoked device notified →
  revoked (cf_world c) id
  ∧ (notified = true ∨ queued (cf_world c) id ∨ ∃ w1, (w1, w1) ∈ own_pieces i (cf_history c) ∧ revoked w1 id).
Proof.
  intros Hi Hr Hl Ht Eq Hb. pose proof (control_reachable _ _ Hi Hr) as Hok.
  destruct (control_finished c i r resp Hok Hl Ht) as (w & _ & Hle & _ & Hp & _). unfold promise in Hp. rewrite Eq, Hb in Hp.
  destruct Hp as [Hrev Hcase]. split; [by eapply revoked_le|].
  destruct Hcase as [?|[Hq|?]]; [by left|right; left; by eapply queued_le|by right; right].
Qed.
End Control.
