(* ===== verification/ControlOutbox.v ===== *)
(** * The revocation outbox is drained row by row (outbox.ts)

    One drain with nothing else running settles every undelivered row exactly
    once, whatever the hub answers; repeated drains deliver a revocation at
    the first acknowledgement, or give it up after twenty failures. *)

From S2P Require Export ControlInv.

Section Drain.
Context (answer : ExtCall → ExtAnswer).

Definition hub_answer (row : OutboxRow) : ExtAnswer := answer (NotifyHub (o_userId row) (o_deviceId row)).

(** What one drain makes of a row. *)
Definition settle (nowMs : Z) (row : OutboxRow) : OutboxRow :=
  if negb (undelivered row) || (o_attempts row >=? MAX_OUTBOX_ATTEMPTS) then row
  else match hub_answer row with
       | Acked => deliver nowMs row
       | NotConfigured => row
       | _ => set_attempts (o_attempts row + 1) row
       end.

Definition tried (row : OutboxRow) : bool := negb (o_attempts row >=? MAX_OUTBOX_ATTEMPTS).
Definition acked (row : OutboxRow) : bool := match hub_answer row with Acked => true | _ => false end.
Definition count (f : OutboxRow → bool) (l : list OutboxRow) : Z := Z.of_nat (length (List.filter f l)).

Definition settle_row (ids : list string) (nowMs : Z) (row : OutboxRow) : OutboxRow :=
  if bool_decide (o_id row ∈ ids) then settle nowMs row else row.

(** The table after the drain of the rows [ids]: every row is settled. *)
Definition settled (ids : list string) (w : World) : World :=
  set_outbox (settle_row ids (w_nowMs w) <$> w_outbox w) w.

Lemma set_outbox_same w m : m = w_outbox w → set_outbox m w = w.
Proof. intros ->. by destruct w. Qed.

Lemma settled_none w : settled [] w = w.
Proof.
  unfold settled. apply set_outbox_same. apply map_eq. intros k. rewrite lookup_fmap.
  destruct (w_outbox w !! k) as [row|]; [|done]. cbn. unfold settle_row. by rewrite bool_decide_false by apply not_elem_of_nil.
Qed.

(** One row settled, then the others. *)
Lemma settled_cons w row ids :
  keyed o_id (w_outbox w) → w_outbox w !! o_id row = Some row → o_id row ∉ ids →
  o_id (settle (w_nowMs w) row) = o_id row →
  settled ids (set_outbox (<[o_id row := settle (w_nowMs w) row]> (w_outbox w)) w) = settled (o_id row :: ids) w.
Proof.
  intros Hk Hr Hn Hid. unfold settled. cbn. unfold set_outbox. cbn. f_equal. apply map_eq. intros k.
  rewrite !lookup_fmap. destruct (decide (k = o_id row)) as [->|Hne].
  - rewrite lookup_insert_eq, Hr. cbn. f_equal. unfold settle_row. rewrite Hid.
    rewrite bool_decide_false by done. by rewrite bool_decide_true by left.
  - rewrite lookup_insert_ne by done. destruct (w_outbox w !! k) as [r|] eqn:E; [|done]. cbn. f_equal.
    apply Hk in E. unfold settle_row. rewrite E. apply bool_decide_ext || idtac.
    destruct (decide (k ∈ ids)) as [Hin|Hin].
    + by rewrite !bool_decide_true by first [done|by right].
    + by rewrite !bool_decide_false by first [done|apply not_elem_of_cons; done].
Qed.

Lemma settle_id n row : o_id (settle n row) = o_id row.
Proof. unfold settle. repeat case_match; done. Qed.

Lemma insert_same_row w row : w_outbox w !! o_id row = Some row → set_outbox (<[o_id row := row]> (w_outbox w)) w = w.
Proof. intros H. apply set_outbox_same. by apply insert_id. Qed.

Lemma run_drain l : ∀ w delivered pend,
  keyed o_id (w_outbox w) → NoDup (map o_id l) →
  (∀ row, row ∈ l → w_outbox w !! o_id row = Some row ∧ undelivered row = true) →
  run_alone answer (drain_rows l delivered pend) w
  = (Some (delivered + count (λ r, tried r && acked r) l, pend + count (λ r, tried r && negb (acked r)) l),
     settled (map o_id l) w).
Proof.
  induction l as [|row l IH]; intros w delivered pend Hk Hnd Hl.
  { cbn. rewrite settled_none. by rewrite !Z.add_0_r. }
  apply NoDup_cons in Hnd as [Hn Hnd]. destruct (Hl row ltac:(left)) as [Hr Hu].
  assert (∀ w' d p, w' = set_outbox (<[o_id row := settle (w_nowMs w) row]> (w_outbox w)) w →
    run_alone answer (drain_rows l d p) w' = (Some (d + count (λ r, tried r && acked r) l,
      p + count (λ r, tried r && negb (acked r)) l), settled (map o_id (row :: l)) w)) as Hnext.
  { intros w' d p ->. rewrite IH.
    - cbn [map]. by rewrite settled_cons by first [done|apply settle_id].
    - cbn. apply keyed_insert; [done|]. apply settle_id.
    - done.
    - intros r Hin. destruct (Hl r ltac:(by right)) as [Hr' Hu']. split; [|done]. cbn.
      rewrite lookup_insert_ne; [done|]. intros E. apply Hn. rewrite E. apply list_elem_of_fmap. by exists r. }
  unfold count. cbn [drain_rows List.filter].
  assert (tried row = negb (o_attempts row >=? MAX_OUTBOX_ATTEMPTS)) as -> by done.
  assert (acked row = match hub_answer row with Acked => true | _ => false end) as -> by done.
  destruct (o_attempts row >=? MAX_OUTBOX_ATTEMPTS) eqn:Ea; cbn [negb andb].
  - rewrite (Hnext w); [done|]. unfold settle. rewrite Hu, Ea. cbn. by rewrite insert_same_row.
  - rewrite run_alone_bind. cbn [external run_alone]. fold (hub_answer row).
    destruct (hub_answer row) eqn:Eh; cbn [length negb andb].
    + rewrite run_alone_bind. unfold update_where, atomically, statement. cbn [run_alone]. rewrite Hr. cbn.
      rewrite Hnext; [unfold count; do 3 f_equal; lia|]. unfold settle. by rewrite Hu, Ea, Eh.
    + rewrite (Hnext w); [unfold count; do 3 f_equal; lia|]. unfold settle. rewrite Hu, Ea, Eh. cbn. by rewrite insert_same_row.
    + rewrite run_alone_bind. unfold update_where, atomically, statement. cbn [run_alone]. rewrite Hr. cbn.
      rewrite Hnext; [unfold count; do 3 f_equal; lia|]. unfold settle. by rewrite Hu, Ea, Eh.
    + rewrite run_alone_bind. unfold update_where, atomically, statement. cbn [run_alone]. rewrite Hr. cbn.
      rewrite Hnext; [unfold count; do 3 f_equal; lia|]. unfold settle. by rewrite Hu, Ea, Eh.
Qed.

Definition backlog (w : World) : list OutboxRow := List.filter undelivered (rows (w_outbox w)).

Lemma rows_ids (m : gmap string OutboxRow) : keyed o_id m → map o_id (rows m) = map fst (map_to_list m).
Proof.
  intros Hk. unfold rows. rewrite map_map. apply map_ext_in. intros [k row] Hin. cbn.
  apply Hk. by apply elem_of_map_to_list, list_elem_of_In.
Qed.

Lemma run_flush w :
  keyed o_id (w_outbox w) →
  run_alone answer flushRevocationOutbox w
  = (Some (count (λ r, tried r && acked r) (backlog w), count (λ r, tried r && negb (acked r)) (backlog w)),
     set_outbox (settle (w_nowMs w) <$> w_outbox w) w).
Proof.
  intros Hk. unfold flushRevocationOutbox. rewrite run_alone_bind. unfold reading, atomically, statement.
  cbn [run_alone]. fold (backlog w). rewrite run_drain; [|done| |].
  - do 2 f_equal. unfold settled, set_outbox. f_equal. apply map_fmap_ext. intros k row Hr. unfold settle_row.
    case_bool_decide as Hin; [done|]. unfold settle. destruct (undelivered row) eqn:Eu; [|done].
    exfalso. apply Hin. apply list_elem_of_fmap. exists row. split; [done|]. apply In_filter_iff.
    split; [|done]. apply row_in_rows. by exists k.
  - apply NoDup_map_filter. rewrite rows_ids by done. apply NoDup_fst_map_to_list.
  - intros row [Hin Hu]%In_filter_iff. split; [|done]. apply row_in_rows in Hin as [k Hr].
    by rewrite (Hk k row Hr).
Qed.
End Drain.

(** Drains one after the other; [answers n] is what the hub says in drain
    [n]. *)
Fixpoint drain_n (answers : nat → ExtCall → ExtAnswer) (n : nat) (w : World) : World :=
  match n with
  | O => w
  | S n => snd (run_alone (answers n) flushRevocationOutbox (drain_n answers n w))
  end.

Lemma drain_n_keyed answers n w : keyed o_id (w_outbox w) →
  keyed o_id (w_outbox (drain_n answers n w)) ∧ w_nowMs (drain_n answers n w) = w_nowMs w.
Proof.
  intros Hk. induction n as [|n [IH1 IH2]]; [done|]. cbn [drain_n]. rewrite run_flush by done. cbn [snd]. split; [|done].
  cbn. intros k row Hl. rewrite lookup_fmap in Hl. apply fmap_Some in Hl as (r & Hr & ->). rewrite settle_id. by apply IH1.
Qed.

Lemma drain_n_row answers n w k row :
  keyed o_id (w_outbox w) → w_outbox (drain_n answers n w) !! k = Some row →
  w_outbox (drain_n answers (S n) w) !! k = Some (settle (answers n) (w_nowMs w) row).
Proof.
  intros Hk Hr. destruct (drain_n_keyed answers n w Hk) as [Hk' Hn]. cbn [drain_n]. rewrite run_flush by done.
  cbn. by rewrite lookup_fmap, Hr, Hn.
Qed.

(** C28: the outbox retries a revocation.  A drain always ends, reports what it
    delivered and what it left, and changes nothing but the rows it tried.  A
    row that the hub failed to take [n] times is delivered by the first drain
    in which the hub acknowledges it, as long as fewer than twenty attempts
    were made; after that it is given up, and no later drain changes it. *)
Theorem outbox_retries answers w k row :
  world_inv w → w_outbox w !! k = Some row → o_deliveredAt row = None →
  let answer n := hub_answer (answers n) row in
  (∀ n, ∃ delivered pend, 0 <= delivered ∧ 0 <= pend
     ∧ run_alone (answers n) flushRevocationOutbox w
       = (Some (delivered, pend), set_outbox (settle (answers n) (w_nowMs w) <$> w_outbox w) w))
  ∧ (∀ n, (∀ m, (m < n)%nat → answer m = Failed) →
       w_outbox (drain_n answers n w) !! k
       = Some (set_attempts (Z.min MAX_OUTBOX_ATTEMPTS (o_attempts row + Z.of_nat n)) row))
  ∧ (∀ n, (∀ m, (m < n)%nat → answer m = Failed) → answer n = Acked →
       o_attempts row + Z.of_nat n < MAX_OUTBOX_ATTEMPTS →
       ∃ row', w_outbox (drain_n answers (S n) w) !! k = Some row' ∧ o_deliveredAt row' = Some (w_nowMs w)).
Proof.
  intros Hw Hr Hu answer. pose proof (wi_outbox _ Hw) as Hk. pose proof (wi_attempts _ Hw k row Hr) as Ha.
  assert (∀ n, (∀ m, (m < n)%nat → answer m = Failed) →
       w_outbox (drain_n answers n w) !! k
       = Some (set_attempts (Z.min MAX_OUTBOX_ATTEMPTS (o_attempts row + Z.of_nat n)) row)) as Hfail.
  { induction n as [|n IH]; intros Hn.
    - cbn [drain_n]. rewrite Hr. f_equal. replace (Z.min _ _) with (o_attempts row) by lia. by destruct row.
    - specialize (IH ltac:(intros; apply Hn; lia)). rewrite (drain_n_row _ _ _ _ _ Hk IH). f_equal.
      specialize (Hn n ltac:(lia)). unfold answer, hub_answer in Hn. unfold settle, hub_answer. cbn.
      unfold undelivered. cbn. rewrite Hu. cbn [negb orb].
      destruct (_ >=? MAX_OUTBOX_ATTEMPTS) eqn:E; bprop; [|rewrite Hn]; unfold set_attempts; cbn; f_equal; lia. }
  split; [|split; [exact Hfail|]].
  - intros n. eexists _, _. split; [|split; [|by apply run_flush]]; unfold count; lia.
  - intros n Hn Hack Hlt. rewrite (drain_n_row _ _ _ _ _ Hk (Hfail n Hn)). eexists. split; [reflexivity|].
    unfold answer, hub_answer in Hack. unfold settle, hub_answer. cbn. unfold undelivered. cbn. rewrite Hu. cbn [negb orb].
    destruct (_ >=? MAX_OUTBOX_ATTEMPTS) eqn:E; bprop; [lia|]. by rewrite Hack.
Qed.
