(* ===== verification/ControlDemo.v ===== *)
(** * A run of the control plane, and the witnesses

    Scheduled runs of the pool: a device logs in, is revoked and is refused,
    two requests race for one enrollment code, a revoked device comes back
    with a code it minted, or under another text of its key, a signup fails after using its invite. *)

From S2P Require Export ControlAuthProps ControlOutbox Threads.
From Stdlib Require Import Ascii.

(** ** The clock *)

Definition elapse_to (nowMs : Z) (w : World) : option World :=
  if w_nowMs w <=? nowMs then Some (elapse nowMs (w_challenges w) w) else None.

Lemma elapse_to_env n w w' : elapse_to n w = Some w' → control_env w w'.
Proof. unfold elapse_to. destruct (w_nowMs w <=? n) eqn:E; [|discriminate]. intros [= <-]. bprop. exists n, (w_challenges w). eauto. Qed.

Definition Events : Type := list (Event Request ExtAnswer Z).
Abbreviation ControlPool := (Config (World := World) (Ext := ExtCall) (Answer := ExtAnswer) (Request := Request) (Response := Response)).
Definition run_all (serve : Request → Handler Response) (l : Events) := run_events serve elapse_to l.

Lemma run_all_steps serve (l : Events) c c' : run_all serve l c = Some c' → rtc (pool_step serve control_env) c c'.
Proof. apply run_events_steps, elapse_to_env. Qed.

(** ** The scenario *)

Module ControlDemo.
Definition U : string := "00000000-0000-0000-0000-00000000000a".
Definition D1 : string := "00000000-0000-0000-0000-0000000000d1".
Definition D2 : string := "00000000-0000-0000-0000-0000000000d2".
Definition K2 : bytes := repeat 7 32.

Definition user : UserRow := mkUser U "a@b.c" None "iad" DEFAULT_ACCOUNT_FEATURES "local" (Some D1).
Definition device1 : DeviceRow := mkDevice D1 U "one" "mac" (toBase64 (repeat 5 32)) None None.
Definition device2 : DeviceRow := mkDevice D2 U "two" "mac" (toBase64 K2) None None.
Definition joinHash : string := hashEnrollmentCode (C := PasskeyDemo.DemoCrypto) "join".
Definition code : EnrollmentCodeRow := mkCode joinHash U 2000000 None (Some "salt") (Some [("c", "w")]).

Definition start : World :=
  mkWorld 1000000 [] {[U := user]} (<[D1 := device1]> {[D2 := device2]}) ∅ {[joinHash := code]} ∅ ∅ ∅ ∅ [].

Abbreviation serve := (handle (C := PasskeyDemo.DemoCrypto) Some [1] [1] false PasskeyDemo.rp true None).

Definition challenge : string := toBase64Url (repeat 3 32).
Definition signature : string :=
  toBase64 (ed25519_sign (WebCrypto := ToyCrypto) K2 (deviceLoginSigningBytes D2 challenge)).
Definition stub (device : string) : option string := Some ("Bearer " +:+ hubTokenFor U (Some device)).

(** Device 2 logs in; device 1 revokes it while the hub is down. *)
Definition login_and_revoke : Events :=
  [EvSpawn (RDeviceChallenge D2 (repeat 3 32)); EvRun 0; EvSpawn (RDeviceLogin D2 signature "j1")]
  ++ repeat (EvRun 1) 3
  ++ [EvSpawn (RRevoke (stub D1) D2 None "o1")] ++ repeat (EvRun 2) 5
  ++ [EvAnswer 2 Failed; EvRun 2; EvRun 2; EvAnswer 2 Failed; EvRun 2].

(** It tries again, with a fresh challenge and with its old token. *)
Definition try_again : Events :=
  [EvEnv 1500000; EvSpawn (RDeviceChallenge D2 (repeat 3 32)); EvRun 3;
   EvSpawn (RDeviceLogin D2 signature "j2"); EvRun 4; EvRun 4;
   EvSpawn (RListDevices (stub D2)); EvRun 5; EvRun 5].

(** Two requests race for one enrollment code. *)
Definition race : Events :=
  [EvSpawn (RRedeemCode "join" "j3"); EvSpawn (RRedeemCode "join" "j4"); EvRun 1; EvRun 0]
  ++ repeat (EvRun 1) 4.

Definition first := run_all serve login_and_revoke (initial start).
Definition then_ := c ← first; run_all serve try_again c.
Definition raced := run_all serve race (initial start).

Definition outcome (i : nat) (c : option ControlPool) : option Response := c ← c; response_of i c.
End ControlDemo.

(** What the scenario answers. *)
Example demo_login :
  match ControlDemo.outcome 1 ControlDemo.first with
  | Some r => rs_status r = 200 ∧ length (tokens_of (rs_body r)) = 1%nat | None => False end.
Proof. vm_compute. split; reflexivity. Qed.
Example demo_revoked :
  match ControlDemo.outcome 2 ControlDemo.first with
  | Some (mkResp 200 (BRevoked _ false)) => True | _ => False end.
Proof. vm_compute. exact I. Qed.
Example demo_refused :
  ControlDemo.outcome 4 ControlDemo.then_ = Some (mkResp 401 (BError "unauthorized" (Some "device_revoked")))
  ∧ ControlDemo.outcome 5 ControlDemo.then_ = Some unauthorized_response.
Proof. vm_compute. split; reflexivity. Qed.
Example demo_race :
  ControlDemo.outcome 0 ControlDemo.raced = Some (mkResp 401 (BError "invalid_or_expired_code" None))
  ∧ match ControlDemo.outcome 1 ControlDemo.raced with Some (mkResp 200 (BRedeemed _ _ (Some ("salt", [("c", "w")])))) => True | _ => False end.
Proof. vm_compute. split; [reflexivity|exact I]. Qed.

(** A revoked device gets back in with a code it minted before: the code is
    redeemed for the bootstrap token of the account, which enrolls a new key. *)
Definition comeback : Events :=
  [EvSpawn (RMintCode (ControlDemo.stub ControlDemo.D2) (hashEnrollmentCode (C := PasskeyDemo.DemoCrypto) "own") None None)]
  ++ repeat (EvRun 0) 5
  ++ [EvSpawn (RRevoke (ControlDemo.stub ControlDemo.D1) ControlDemo.D2 None "o1")] ++ repeat (EvRun 1) 5
  ++ [EvAnswer 1 Acked; EvRun 1]
  ++ [EvSpawn (RRedeemCode "own" "j5")] ++ repeat (EvRun 2) 5
  ++ [EvSpawn (REnroll (Some ("Bearer " +:+ signDeviceToken (W := ToyCrypto) [1] (mkClaims ControlDemo.U ControlDemo.U 1000 1600 (Some "j5"))))
        "two again" "mac" (toBase64 (repeat 8 32)) "00000000-0000-0000-0000-0000000000d3")] ++ repeat (EvRun 3) 6.

Example code_outlives_revocation :
  let c := run_all ControlDemo.serve comeback (initial ControlDemo.start) in
  match ControlDemo.outcome 1 c, ControlDemo.outcome 2 c, ControlDemo.outcome 3 c with
  | Some (mkResp 200 (BRevoked _ true)), Some (mkResp 200 (BRedeemed _ _ _)), Some (mkResp 201 (BEnrolled device _ false)) =>
      d_userId device = ControlDemo.U
  | _, _, _ => False
  end.
Proof. vm_compute. reflexivity. Qed.

(** The key of a revoked device is enrolled again under another base64 text of
    it: atob skips the space, the table compares the texts. *)
Definition other_text : Events :=
  [EvSpawn (RRevoke (ControlDemo.stub ControlDemo.D1) ControlDemo.D2 None "o1")] ++ repeat (EvRun 0) 5
  ++ [EvAnswer 0 Acked; EvRun 0]
  ++ [EvSpawn (REnroll (ControlDemo.stub ControlDemo.D1) "two again" "mac" (toBase64 ControlDemo.K2 +:+ " ")
        "00000000-0000-0000-0000-0000000000d3")] ++ repeat (EvRun 1) 6.

Example revoked_key_in_another_text :
  let c := run_all ControlDemo.serve other_text (initial ControlDemo.start) in
  match ControlDemo.outcome 0 c, ControlDemo.outcome 1 c with
  | Some (mkResp 200 (BRevoked revoked true)), Some (mkResp 201 (BEnrolled device _ _)) =>
      d_id revoked = ControlDemo.D2 ∧ is_Some (d_revokedAt revoked) ∧ d_revokedAt device = None
      ∧ fromBase64 (d_devicePublicKey device) = fromBase64 (d_devicePublicKey revoked)
  | _, _ => False
  end.
Proof. vm_compute. split_and!; [reflexivity|by eexists|reflexivity|reflexivity]. Qed.

(** A signup whose machine cannot be provisioned answers nothing, but the
    invite is used and the account exists. *)
Definition failed_signup : Events :=
  [EvSpawn (RSignup (mkSignup "New@b.c" None None (Some "sm-inv-x") None) "u9" "s9" "m9" "j6")]
  ++ repeat (EvRun 0) 7 ++ [EvAnswer 0 Failed].

Example failed_signup_burns_invite :
  let start := set_invites {["sm-inv-x" := mkInvite "sm-inv-x" None None None None]} ControlDemo.start in
  match run_all ControlDemo.serve failed_signup (initial start) with
  | Some c =>
      match run_thread <$> cf_threads c !! 0%nat with Some Raise => True | _ => False end
      ∧ u_email <$> (w_users (cf_world c) !! "u9") = Some "new@b.c"
      ∧ i_redeemedAt <$> (w_invites (cf_world c) !! "sm-inv-x") = Some (Some 1000000)
  | None => False
  end.
Proof. vm_compute. split; [exact I|split; reflexivity]. Qed.

(** ** Witnesses *)

Lemma demo_start_inv : world_inv ControlDemo.start.
Proof.
  split; cbn.
  - by intros k a [<- <-]%lookup_singleton_Some.
  - by intros i j a b [<- <-]%lookup_singleton_Some [<- <-]%lookup_singleton_Some.
  - by intros k a [[<- <-]|[_ [<- <-]%lookup_singleton_Some]]%lookup_insert_Some.
  - intros i j a b [[<- <-]|[_ [<- <-]%lookup_singleton_Some]]%lookup_insert_Some
      [[<- <-]|[_ [<- <-]%lookup_singleton_Some]]%lookup_insert_Some E; [done| | |done];
      exfalso; revert E; apply String.eqb_neq; vm_compute; reflexivity.
  - by intros k a ?%lookup_empty_Some.
  - by intros k a [<- <-]%lookup_singleton_Some.
  - by intros k a ?%lookup_empty_Some.
  - by intros k a ?%lookup_empty_Some.
  - by intros k a ?%lookup_empty_Some.
  - intros k u d [<- <-]%lookup_singleton_Some [= <-]. exists ControlDemo.device1. by rewrite lookup_insert_eq.
Qed.

Lemma response_Some {A} (o : option A) (P : A → bool) :
  match o with Some a => P a | None => false end = true → ∃ a, o = Some a ∧ P a = true.
Proof. destruct o; [eauto|discriminate]. Qed.

Lemma lookup_is_some {A} (o : option A) : match o with Some _ => true | None => false end = true → is_Some o.
Proof. by destruct o. Qed.

(** The configurations of the scenario exist, with the handlers that matter. *)
Lemma demo_first_then :
  ∃ c c', ControlDemo.first = Some c ∧ run_all ControlDemo.serve ControlDemo.try_again c = Some c'
    ∧ ControlDemo.then_ = Some c'.
Proof.
  assert (is_Some ControlDemo.then_) as [c' Hc'] by (apply lookup_is_some; vm_compute; reflexivity).
  unfold ControlDemo.then_ in *. destruct ControlDemo.first as [c|] eqn:E; [|discriminate].
  cbn [mbind option_bind] in *. exists c, c'. split; [reflexivity|]. split; exact Hc'.
Qed.

Definition is_revoked (d : string) (c : option (Config (World := World) (Ext := ExtCall) (Answer := ExtAnswer)
    (Request := Request) (Response := Response))) : bool :=
  match c with
  | Some c => match w_devices (cf_world c) !! d with Some row => bool_decide (is_Some (d_revokedAt row)) | None => false end
  | None => false
  end.

Lemma is_revoked_spec d c : is_revoked d (Some c) = true → revoked (cf_world c) d.
Proof.
  unfold is_revoked, revoked. destruct (w_devices (cf_world c) !! d) as [row|]; [|discriminate].
  intros H%bool_decide_eq_true. eauto.
Qed.

Lemma revoked_device_stays_out_witness :
  ∃ c', ControlDemo.then_ = Some c' ∧ revoked (cf_world c') ControlDemo.D2
    ∧ response_of 5 c' = Some unauthorized_response.
Proof.
  destruct demo_first_then as (c & c' & Hc & Hc' & Ht).
  assert (is_revoked ControlDemo.D2 (Some c) = true) as Hrev%is_revoked_spec by (rewrite <- Hc; vm_compute; reflexivity).
  assert (match ControlDemo.first with Some c => length (cf_threads c) | None => O end = 3%nat) as Hlen by (vm_compute; reflexivity).
  rewrite Hc in Hlen.
  assert (match ControlDemo.then_ with
          | Some c => run_request <$> cf_threads c !! 5%nat | None => None end = Some (RListDevices (ControlDemo.stub ControlDemo.D2)))
    as Hreq by (vm_compute; reflexivity). rewrite Ht in Hreq.
  assert (match ControlDemo.outcome 5 ControlDemo.then_ with Some _ => true | None => false end = true) as Hres
    by (vm_compute; reflexivity). rewrite Ht in Hres.
  exists c'. split; [exact Ht|].
  pose proof (revoked_device_stays_out (C := PasskeyDemo.DemoCrypto) Some [1] [1] false PasskeyDemo.rp true None
    ControlDemo.start c c' ControlDemo.D2 demo_start_inv (run_all_steps _ _ _ _ Hc) Hrev (run_all_steps _ _ _ _ Hc'))
    as (Hrev' & Hall & _).
  split; [exact Hrev'|]. unfold ControlDemo.outcome in Hres. cbn [mbind option_bind] in Hres.
  destruct (response_of 5 c') as [resp|] eqn:Eresp; [|discriminate Hres].
  apply response_of_thread in Eresp as (r & Hl & Hret). rewrite Hl in Hreq. injection Hreq as Hreq.
  f_equal. refine (proj2 (Hall 5%nat r resp _ Hl Hret) (ControlDemo.stub ControlDemo.D2) _ _).
  - rewrite Hlen. lia.
  - by rewrite Hreq.
  - eexists. split; [vm_compute; reflexivity|]. eexists. vm_compute. reflexivity.
Defined.

Lemma control_plane_invariant_witness :
  ∃ c', ControlDemo.then_ = Some c' ∧ world_inv (cf_world c').
Proof.
  destruct demo_first_then as (c & c' & Hc & Hc' & Ht). exists c'. split; [exact Ht|].
  exact (proj1 (control_plane_invariant (C := PasskeyDemo.DemoCrypto) Some [1] [1] false PasskeyDemo.rp true None
    ControlDemo.start c c' demo_start_inv (run_all_steps _ _ _ _ Hc) (run_all_steps _ _ _ _ Hc'))).
Defined.

Lemma device_token_needs_key_witness :
  ∃ c r resp token exp kind, ControlDemo.first = Some c ∧ cf_threads c !! 1%nat = Some r ∧ run_thread r = Ret resp
    ∧ rs_body resp = BToken token exp kind
    ∧ ∃ w user, world_le w (cf_world c)
        ∧ possession Some (own_pieces 1 (cf_history c)) w ControlDemo.D2 ControlDemo.signature user.
Proof.
  destruct demo_first_then as (c & _ & Hc & _).
  assert (match ControlDemo.outcome 1 ControlDemo.first with Some (mkResp _ (BToken _ _ _)) => true | _ => false end = true) as Hres
    by (vm_compute; reflexivity). rewrite Hc in Hres.
  assert (match ControlDemo.first with
          | Some c => run_request <$> cf_threads c !! 1%nat | None => None end = Some (RDeviceLogin ControlDemo.D2 ControlDemo.signature "j1"))
    as Hreq by (vm_compute; reflexivity). rewrite Hc in Hreq.
  unfold ControlDemo.outcome in Hres. cbn [mbind option_bind] in Hres.
  destruct (response_of 1 c) as [[status body]|] eqn:Eresp; [|discriminate Hres]. destruct body as [| | |token exp kind| | | | | | | | | | |]; try discriminate Hres.
  apply response_of_thread in Eresp as (r & Hl & Hret). rewrite Hl in Hreq. injection Hreq as Hreq.
  exists c, r, (mkResp status (BToken token exp kind)), token, exp, kind.
  split; [exact Hc|]. split; [exact Hl|]. split; [exact Hret|]. split; [reflexivity|].
  destruct (proj1 (device_token_needs_key (C := PasskeyDemo.DemoCrypto) Some [1] [1] false PasskeyDemo.rp true None
    ControlDemo.start c 1%nat r _ token exp kind demo_start_inv (run_all_steps _ _ _ _ Hc) Hl Hret eq_refl)
    ControlDemo.D2 ControlDemo.signature "j1" (or_introl Hreq)) as (w & user & Hle & Hp & _).
  exists w, user. split; [exact Hle|exact Hp].
Defined.

Lemma revocation_is_queued_witness :
  ∃ c, ControlDemo.first = Some c ∧ revoked (cf_world c) ControlDemo.D2.
Proof.
  destruct demo_first_then as (c & _ & Hc & _). exists c. split; [exact Hc|].
  assert (match ControlDemo.outcome 2 ControlDemo.first with Some (mkResp _ (BRevoked _ _)) => true | _ => false end = true) as Hres
    by (vm_compute; reflexivity). rewrite Hc in Hres.
  assert (match ControlDemo.first with
          | Some c => run_request <$> cf_threads c !! 2%nat | None => None end = Some (RRevoke (ControlDemo.stub ControlDemo.D1) ControlDemo.D2 None "o1"))
    as Hreq by (vm_compute; reflexivity). rewrite Hc in Hreq.
  unfold ControlDemo.outcome in Hres. cbn [mbind option_bind] in Hres.
  destruct (response_of 2 c) as [[status body]|] eqn:Eresp; [|discriminate Hres].
  destruct body as [| | | | | | | | | | | |device notified| |]; try discriminate Hres.
  apply response_of_thread in Eresp as (r & Hl & Hret). rewrite Hl in Hreq. injection Hreq as Hreq.
  exact (proj1 (revocation_is_queued (C := PasskeyDemo.DemoCrypto) Some [1] [1] false PasskeyDemo.rp true None
    ControlDemo.start c 2%nat r _ _ _ _ _ device notified demo_start_inv (run_all_steps _ _ _ _ Hc) Hl Hret Hreq eq_refl)).
Defined.

Lemma codes_used_once_witness :
  ∃ c r resp, ControlDemo.raced = Some c ∧ cf_threads c !! 1%nat = Some r ∧ run_thread r = Ret resp
    ∧ (∃ w row, w_codes w !! ControlDemo.joinHash = Some row ∧ e_redeemedAt row = None ∧ w_nowMs w < e_expiresAt row
         ∧ e_userId row = ControlDemo.U)
    ∧ (∀ j rj aj u t x jti, cf_threads c !! j = Some rj → run_thread rj = Ret aj →
         run_request rj = RRedeemCode "join" jti → rs_body aj = BRedeemed u t x → j = 1%nat).
Proof.
  assert (is_Some ControlDemo.raced) as [c Hc] by (apply lookup_is_some; vm_compute; reflexivity).
  assert (match ControlDemo.outcome 1 ControlDemo.raced with
          | Some (mkResp _ (BRedeemed u _ _)) => String.eqb (u_id u) ControlDemo.U | _ => false end = true) as Hres
    by (vm_compute; reflexivity). rewrite Hc in Hres.
  assert (match ControlDemo.raced with
          | Some c => run_request <$> cf_threads c !! 1%nat | None => None end = Some (RRedeemCode "join" "j4"))
    as Hreq by (vm_compute; reflexivity). rewrite Hc in Hreq.
  unfold ControlDemo.outcome in Hres. cbn [mbind option_bind] in Hres.
  destruct (response_of 1 c) as [[status body]|] eqn:Eresp; [|discriminate Hres].
  destruct body as [| | | | | | | |user token wrapped| | | | | |]; try discriminate Hres. apply String.eqb_eq in Hres.
  apply response_of_thread in Eresp as (r & Hl & Hret). rewrite Hl in Hreq. injection Hreq as Hreq.
  destruct (proj1 (codes_used_once (C := PasskeyDemo.DemoCrypto) Some [1] [1] false PasskeyDemo.rp true None
    ControlDemo.start c 1%nat r _ demo_start_inv (run_all_steps _ _ _ _ Hc) Hl Hret)
    "join" "j4" user token wrapped Hreq eq_refl) as [(w & w' & row & _ & Hrow & Hn & Ht & Hu & _) Honce].
  exists c, r, (mkResp status (BRedeemed user token wrapped)). split; [exact Hc|]. split; [exact Hl|]. split; [exact Hret|].
  split; [exists w, row; rewrite <- Hres; auto|].
  intros j rj aj u t x jti Hlj Hretj Hreqj Hbj. exact (Honce j rj aj "join" jti u t x Hlj Hretj Hreqj Hbj eq_refl).
Defined.

(** The hub is down twice, then acknowledges. *)
Lemma outbox_retries_witness :
  let answers := λ n, λ _ : ExtCall, if (n <? 2)%nat then Failed else Acked in
  let row := mkOutbox "o1" ControlDemo.U ControlDemo.D2 None 1 in
  let w := set_outbox {["o1" := row]} ControlDemo.start in
  ∃ row', w_outbox (drain_n answers 3 w) !! "o1" = Some row' ∧ o_deliveredAt row' = Some 1000000.
Proof.
  intros answers row w.
  assert (world_inv w) as Hw.
  { destruct demo_start_inv. split; cbn; try done.
    - by intros k a [<- <-]%lookup_singleton_Some.
    - intros k a [<- <-]%lookup_singleton_Some. vm_compute. split; congruence. }
  refine (proj2 (proj2 (outbox_retries answers w "o1" row Hw _ eq_refl)) 2%nat _ eq_refl _).
  - apply lookup_singleton_eq.
  - intros m Hm. unfold hub_answer, answers. by rewrite (proj2 (Nat.ltb_lt m 2) Hm).
  - vm_compute. reflexivity.
Defined.
