(* ===== verification/FilesRules.v ===== *)
(** * The rules of the Files API (services/control/src/files.ts)

    Admission of paths and manifests, the chunks that have to be uploaded, the
    life of a transfer and what of its URL may be shown.  The wire types are
    those of packages/protocol/src/files.ts. *)

From stdpp Require Import relations.
From S2P Require Export CloudFetch.
From Stdlib Require Import Ascii.

(** ** Paths *)

Definition MAX_CHUNK_BYTES : Z := 4 * 1024 * 1024.
Definition MAX_MANIFEST_CHUNKS : Z := 16384.
Definition MAX_PATH_LENGTH : Z := 4096.

Inductive PathRefusal := path_empty | path_traversal | path_control_characters | path_is_root.

(** [CONTROL_CHARACTERS]. *)
Definition is_control (c : ascii) : bool := (code c <=? 31) || (127 <=? code c) && (code c <=? 159).

Definition normalizeFilePath (raw : string) : PathRefusal + string :=
  if js_length raw =? 0 then inl path_empty
  else if existsb is_control (chars raw) then inl path_control_characters
  else match normalizeVfsPath raw with
       | None => inl path_traversal
       | Some normalized => if String.eqb normalized "/" then inl path_is_root else inr normalized
       end.

Definition normalizePrefix (raw : string) : option string :=
  if existsb is_control (chars raw) then None
  else normalizeVfsPath (if String.eqb raw "" then "/" else raw).

(** ** Manifests *)

Record ChunkRef := mkRef { cr_hash : string; cr_offset : Z; cr_length : Z }.
Record Manifest := mkManifest { mn_fileHash : string; mn_totalBytes : Z; mn_chunks : list ChunkRef }.

#[export] Instance ChunkRef_eq_dec : EqDecision ChunkRef.
Proof. solve_decision. Defined.

(** What the schemas of the wire let through. *)
Definition chunkRefSchema (c : ChunkRef) : bool :=
  (js_length (cr_hash c) =? 64) && forallb is_hex_lower (chars (cr_hash c))
  && (0 <=? cr_offset c) && (0 <? cr_length c).
Definition manifestSchema (m : Manifest) : bool :=
  (js_length (mn_fileHash m) =? 64) && forallb is_hex_lower (chars (mn_fileHash m))
  && (0 <=? mn_totalBytes m) && forallb chunkRefSchema (mn_chunks m).

Inductive ManifestRefusal := too_many_chunks | chunk_too_large | non_contiguous | size_mismatch.

(** The loop over the chunks, with the running offset. *)
Fixpoint check_chunks (l : list ChunkRef) (offset : Z) : ManifestRefusal + Z :=
  match l with
  | [] => inr offset
  | chunk :: l =>
      if cr_length chunk >? MAX_CHUNK_BYTES then inl chunk_too_large
      else if negb (cr_offset chunk =? offset) then inl non_contiguous
      else check_chunks l (offset + cr_length chunk)
  end.

Definition validateManifest (m : Manifest) : option ManifestRefusal :=
  if Z.of_nat (length (mn_chunks m)) >? MAX_MANIFEST_CHUNKS then Some too_many_chunks
  else match check_chunks (mn_chunks m) 0 with
       | inl refusal => Some refusal
       | inr offset => if offset =? mn_totalBytes m then None else Some size_mismatch
       end.

(** The loop of [distinctChunks], with the hashes seen. *)
Fixpoint distinct_loop (l : list ChunkRef) (seen : list string) : list ChunkRef :=
  match l with
  | [] => []
  | chunk :: l =>
      if bool_decide (cr_hash chunk ∈ seen) then distinct_loop l seen
      else chunk :: distinct_loop l (cr_hash chunk :: seen)
  end.

Definition distinctChunks (m : Manifest) : list ChunkRef := distinct_loop (mn_chunks m) [].

Definition missingChunkRefs (m : Manifest) (has : string → bool) : list ChunkRef :=
  List.filter (λ chunk, negb (has (cr_hash chunk))) (distinctChunks m).

(** [reduce((total, chunk) => total + chunk.length, 0)]. *)
Definition total_length (l : list ChunkRef) : Z := fold_left (λ total chunk, total + cr_length chunk) l 0.

Definition newBytes (m : Manifest) (has : string → bool) : Z := total_length (missingChunkRefs m has).

Definition chunkObjectKey (userId hash : string) : string := "chunks/" +:+ userId +:+ "/" +:+ hash.
#[global] Arguments chunkObjectKey : simpl never.

(** ** Transfers *)

Definition MAX_TRANSFER_BYTES : Z := 100 * 1024 * 1024 * 1024.

Inductive TransferState := queued | fetching | storing | completed | failed | cancelled.

#[export] Instance TransferState_eq_dec : EqDecision TransferState.
Proof. solve_decision. Defined.

Definition TRANSFER_STATES : list TransferState := [queued; fetching; storing; completed; failed; cancelled].
Definition TERMINAL_TRANSFER_STATES : list TransferState := [completed; failed; cancelled].
Definition isTerminalTransfer (s : TransferState) : bool := bool_decide (s ∈ TERMINAL_TRANSFER_STATES).
Definition ACTIVE_TRANSFER_STATES : list TransferState :=
  List.filter (λ s, negb (bool_decide (s ∈ TERMINAL_TRANSFER_STATES))) TRANSFER_STATES.

Definition TRANSFER_TRANSITIONS (s : TransferState) : list TransferState :=
  match s with
  | queued => [fetching; failed; cancelled]
  | fetching => [fetching; storing; failed; cancelled]
  | storing => [storing; completed; failed; cancelled]
  | completed | failed | cancelled => []
  end.

Definition canTransferTransition (from to : TransferState) : bool := bool_decide (to ∈ TRANSFER_TRANSITIONS from).

(** ** The URL of a transfer

    [UrlText] is the platform's serialization: the text of [new URL(raw)] after
    its search, hash, username and password were emptied; [None] when the
    constructor throws. *)
Class UrlText := url_text_bare : string → option string.

Definition no_query (s : string) : Prop := all_chars (λ c, c ≠ "?"%char ∧ c ≠ "#"%char) s.

(** The serialization writes "?" and "#" only in front of a query and a
    fragment; in every other part they are percent-encoded. *)
Class UrlTextLaws `{UrlText} : Prop := url_text_plain raw s : url_text_bare raw = Some s → no_query s.

(** [raw.split(/[?#]/)[0] ?? ""]. *)
Fixpoint before_query (s : string) : string :=
  match s with
  | EmptyString => EmptyString
  | String c s => if Ascii.eqb c "?" || Ascii.eqb c "#" then EmptyString else String c (before_query s)
  end.

Definition redactTransferUrl `{UrlText} (raw : string) : string :=
  match url_text_bare raw with Some s => s | None => before_query raw end.

Lemma before_query_plain raw : no_query (before_query raw).
Proof.
  unfold no_query, all_chars. induction raw as [|c raw IH]; [by apply Forall_nil|]. cbn.
  destruct (Ascii.eqb_spec c "?"); cbn; [by apply Forall_nil|].
  destruct (Ascii.eqb_spec c "#"); cbn; [by apply Forall_nil|]. by apply Forall_cons.
Qed.

Lemma redactTransferUrl_plain `{UrlTextLaws} raw : no_query (redactTransferUrl raw).
Proof.
  unfold redactTransferUrl. destruct (url_text_bare raw) as [s|] eqn:E; [by eapply url_text_plain|]. apply before_query_plain.
Qed.

(** ** Lemmas *)

Lemma total_length_cons c l : total_length (c :: l) = cr_length c + total_length l.
Proof.
  unfold total_length. cbn [fold_left]. cut (∀ a, fold_left (λ t x, t + cr_length x) l a = a + fold_left (λ t x, t + cr_length x) l 0).
  { intros ->. done. }
  induction l as [|x l IH]; intros a; cbn [fold_left]; [lia|].
  rewrite IH, (IH (0 + cr_length x)). lia.
Qed.

(** The chunks tile the interval from [offset] to [e], in order. *)
Definition tiles (l : list ChunkRef) (offset e : Z) : Prop :=
  e = offset + total_length l
  ∧ ∀ i c, l !! i = Some c → cr_length c <= MAX_CHUNK_BYTES ∧ cr_offset c = offset + total_length (take i l).

Lemma check_chunks_spec l : ∀ offset e, check_chunks l offset = inr e ↔ tiles l offset e.
Proof.
  unfold tiles. induction l as [|c l IH]; intros offset e; cbn [check_chunks].
  - split; [intros [= ->]; split; [cbn; lia|by intros i c]|]. intros [-> _]. f_equal. cbn. lia.
  - rewrite total_length_cons. destruct (cr_length c >? MAX_CHUNK_BYTES) eqn:El; bprop.
    { split; [done|]. intros [_ H]. destruct (H 0%nat c eq_refl). lia. }
    destruct (cr_offset c =? offset) eqn:Eo; cbn; bprop.
    2:{ split; [done|]. intros [_ H]. destruct (H 0%nat c eq_refl) as [_ Ho]. cbn in Ho. lia. }
    rewrite IH. split; intros [-> H]; (split; [lia|]).
    + intros [|i] x Hx; cbn in Hx; [injection Hx as <-; cbn; lia|]. cbn [take]. rewrite total_length_cons.
      destruct (H i x Hx). lia.
    + intros i x Hx. destruct (H (S i) x Hx) as [? Ho]. cbn [take] in Ho. rewrite total_length_cons in Ho. lia.
Qed.

(** An accepted manifest tiles its file exactly. *)
Lemma validateManifest_tiles m :
  validateManifest m = None ↔
  Z.of_nat (length (mn_chunks m)) <= MAX_MANIFEST_CHUNKS ∧ tiles (mn_chunks m) 0 (mn_totalBytes m).
Proof.
  unfold validateManifest. destruct (_ >? MAX_MANIFEST_CHUNKS) eqn:El; bprop; [split; [done|intros [? _]; lia]|].
  rewrite <- check_chunks_spec. destruct (check_chunks (mn_chunks m) 0) as [r|e]; [split; [done|intros [_ ?]; done]|].
  destruct (e =? mn_totalBytes m) eqn:Ee; bprop; [subst; split; [by split; [lia|]|done]|].
  split; [done|]. intros [_ [= ->]]. lia.
Qed.

Lemma distinct_loop_spec l : ∀ seen h,
  h ∈ map cr_hash (distinct_loop l seen) ↔ h ∈ map cr_hash l ∧ h ∉ seen.
Proof.
  induction l as [|c l IH]; intros seen h; cbn [distinct_loop map]; [set_solver|].
  case_bool_decide as Hc; cbn; rewrite ?elem_of_cons, IH; [split; [|intros [[->|?] ?]]; [intros [? ?]; split; [by right|done]|done|done]|].
  split; [intros [->|[? ?]]; [by split; [left|]|split; [by right|set_solver]]|].
  intros [[->|?] ?]; [by left|]. destruct (decide (h = cr_hash c)) as [->|?]; [by left|right; set_solver].
Qed.

Lemma distinct_loop_nodup l : ∀ seen, NoDup (map cr_hash (distinct_loop l seen)).
Proof.
  induction l as [|c l IH]; intros seen; cbn; [constructor|]. case_bool_decide as Hc; [done|]. cbn.
  constructor; [|done]. rewrite distinct_loop_spec. set_solver.
Qed.

Lemma distinctChunks_elem m c : c ∈ distinctChunks m → c ∈ mn_chunks m.
Proof.
  unfold distinctChunks. generalize (@nil string). induction (mn_chunks m) as [|d l IH]; intros seen; cbn; [done|].
  case_bool_decide; [intros Hc; right; by eapply IH|]. intros [->|Hc]%elem_of_cons; [left|right; by eapply IH].
Qed.

(** A manifest lists its distinct chunks once each, by hash. *)
Lemma distinctChunks_spec m :
  NoDup (map cr_hash (distinctChunks m))
  ∧ ∀ h, h ∈ map cr_hash (distinctChunks m) ↔ h ∈ map cr_hash (mn_chunks m).
Proof.
  unfold distinctChunks. split; [apply distinct_loop_nodup|].
  intros h. rewrite distinct_loop_spec. set_solver.
Qed.

(** A terminal state is left by no move, and every state can end. *)
Lemma transfer_terminal s t : canTransferTransition s t = true → isTerminalTransfer s = false.
Proof. by destruct s, t. Qed.
Lemma transfer_can_cancel s : isTerminalTransfer s = false → canTransferTransition s cancelled = true.
Proof. by destruct s. Qed.
Lemma active_iff s : s ∈ ACTIVE_TRANSFER_STATES ↔ isTerminalTransfer s = false.
Proof. destruct s; vm_compute; (split; [intros _; reflexivity|intros _]) || (split; [|intros ?; discriminate]); set_solver. Qed.
