(* ===== verification/FilesDb.v ===== *)
(** * The tables of the Files API and what its transactions do
    (services/control/src/db/schema.ts and the helpers of app.ts)

    Files, the chunk list of each file, the chunks with their reference counts,
    transfers, and the bucket that holds the bytes.  A transaction that takes
    the lock of the account first ([lockAccount]) is one function of the world:
    it excludes every other such transaction of the account.  [None] is an
    exception, which rolls the transaction back. *)

From S2P Require Export FilesRules Threads Json.
From Stdlib Require Import Ascii.

(** ** Rows *)

Record FileRow := mkFile {
  f_id : string; f_userId : string; f_path : string; f_sizeBytes : Z; f_fileHash : string;
  f_contentType : option string; f_completedAt : option Z; f_createdAt : Z; f_updatedAt : Z
}.
Record ChunkRow := mkChunkRow { c_sizeBytes : Z; c_refCount : Z; c_storedAt : option Z }.
Record TransferRow := mkTransfer {
  t_id : string; t_userId : string; t_url : string; t_destPath : string; t_state : TransferState;
  t_receivedBytes : Z; t_totalBytes : Z; t_originDeviceId : option string; t_error : option string;
  t_startedAt : Z; t_updatedAt : Z
}.
Record AuditEntry := mkEntry { ae_userId : string; ae_type : string; ae_payload : json; ae_actor : option string }.

(** [fw_accounts]: the features of every account.  [fw_fileChunks]: the rows
    of a file in the order of [idx].  [fw_objects]: the size of the object
    under each key of the bucket; [fw_grants]: the uploads a URL was signed for;
    [fw_ids]: the identifiers drawn for files so far, which never repeat. *)
Record FilesWorld := mkFilesWorld {
  fw_nowMs : Z;
  fw_accounts : gmap string (list string);
  fw_files : gmap string FileRow;
  fw_fileChunks : gmap string (list ChunkRef);
  fw_chunks : gmap (string * string) ChunkRow;
  fw_transfers : gmap string TransferRow;
  fw_objects : gmap string Z;
  fw_grants : list (string * Z);
  fw_ids : gset string;
  fw_audit : list AuditEntry
}.

Definition set_files x w := mkFilesWorld (fw_nowMs w) (fw_accounts w) x (fw_fileChunks w) (fw_chunks w)
  (fw_transfers w) (fw_objects w) (fw_grants w) (fw_ids w) (fw_audit w).
Definition set_fileChunks x w := mkFilesWorld (fw_nowMs w) (fw_accounts w) (fw_files w) x (fw_chunks w)
  (fw_transfers w) (fw_objects w) (fw_grants w) (fw_ids w) (fw_audit w).
Definition set_chunks x w := mkFilesWorld (fw_nowMs w) (fw_accounts w) (fw_files w) (fw_fileChunks w) x
  (fw_transfers w) (fw_objects w) (fw_grants w) (fw_ids w) (fw_audit w).
Definition set_transfers x w := mkFilesWorld (fw_nowMs w) (fw_accounts w) (fw_files w) (fw_fileChunks w) (fw_chunks w)
  x (fw_objects w) (fw_grants w) (fw_ids w) (fw_audit w).
Definition set_objects x w := mkFilesWorld (fw_nowMs w) (fw_accounts w) (fw_files w) (fw_fileChunks w) (fw_chunks w)
  (fw_transfers w) x (fw_grants w) (fw_ids w) (fw_audit w).
Definition set_grants x w := mkFilesWorld (fw_nowMs w) (fw_accounts w) (fw_files w) (fw_fileChunks w) (fw_chunks w)
  (fw_transfers w) (fw_objects w) x (fw_ids w) (fw_audit w).
Definition set_entries x w := mkFilesWorld (fw_nowMs w) (fw_accounts w) (fw_files w) (fw_fileChunks w) (fw_chunks w)
  (fw_transfers w) (fw_objects w) (fw_grants w) (fw_ids w) x.

Definition set_ids x w := mkFilesWorld (fw_nowMs w) (fw_accounts w) (fw_files w) (fw_fileChunks w) (fw_chunks w)
  (fw_transfers w) (fw_objects w) (fw_grants w) x (fw_audit w).

(** ** Queries *)

(** [inBatches]: slices of [size] rows; every slice takes at least one row, so
    the number of rows is enough fuel. *)
Fixpoint in_batches {A} (fuel : nat) (l : list A) (size : nat) : list (list A) :=
  match fuel, l with
  | O, _ | _, [] => []
  | S fuel, _ => take size l :: in_batches fuel (drop size l) size
  end.
Definition inBatches {A} (l : list A) (size : nat) : list (list A) := in_batches (length l) l size.

Definition ownedFile (userId fileId : string) (w : FilesWorld) : option FileRow :=
  match fw_files w !! fileId with
  | Some file => if String.eqb (f_userId file) userId then Some file else None
  | None => None
  end.

Definition file_at (userId path : string) (w : FilesWorld) : option FileRow :=
  List.find (λ file, String.eqb (f_userId file) userId && String.eqb (f_path file) path) (table_rows (fw_files w)).

Definition chunk_rows (fileId : string) (w : FilesWorld) : list ChunkRef := default [] (fw_fileChunks w !! fileId).

Definition distinctFileHashes (fileId : string) (w : FilesWorld) : list string :=
  remove_dups (map cr_hash (chunk_rows fileId w)).

(** The rows this user has for distinct hashes, with their hashes. *)
Definition ownedChunks (userId : string) (hashes : list string) (w : FilesWorld) : list (string * ChunkRow) :=
  concat (map (omap (λ h, (h,.) <$> fw_chunks w !! (userId, h))) (inBatches hashes 1000)).

(** The bytes of one row the quota counts. *)
Definition counted (userId : string) (k : string * string) (c : ChunkRow) : Z :=
  if String.eqb k.1 userId && (c_refCount c >? 0) then c_sizeBytes c else 0.

Definition usedBytes (userId : string) (m : gmap (string * string) ChunkRow) : Z :=
  map_fold (λ k c total, counted userId k c + total) 0 m.

Definition quotaState (userId : string) (w : FilesWorld) : QuotaState :=
  mkQuota (usedBytes userId (fw_chunks w)) PRO_QUOTA_BYTES.

(** ** References *)

(** [insert ... on conflict do update set refCount = refCount + 1]. *)
Definition claim_chunk (userId : string) (m : gmap (string * string) ChunkRow) (chunk : ChunkRef) :=
  <[(userId, cr_hash chunk) :=
      match m !! (userId, cr_hash chunk) with
      | None => mkChunkRow (cr_length chunk) 1 None
      | Some row => mkChunkRow (c_sizeBytes row) (c_refCount row + 1) (c_storedAt row)
      end]> m.

Definition claim_all (userId : string) (chunks : list ChunkRef) (m : gmap (string * string) ChunkRow) :=
  fold_left (λ m group, fold_left (claim_chunk userId) group m) (inBatches chunks 500) m.

(** The rows of [fw_fileChunks] have the primary key (file, idx). *)
Definition attachChunks (userId fileId : string) (manifest : Manifest) (w : FilesWorld) : option FilesWorld :=
  let w := set_chunks (claim_all userId (distinctChunks manifest) (fw_chunks w)) w in
  match chunk_rows fileId w, mn_chunks manifest with
  | _ :: _, _ :: _ => None
  | rows, new => Some (set_fileChunks (<[fileId := rows ++ new]> (fw_fileChunks w)) w)
  end.

Definition detachFileChunks (fileId : string) (w : FilesWorld) : list string * FilesWorld :=
  (distinctFileHashes fileId w, set_fileChunks (delete fileId (fw_fileChunks w)) w).

Definition drop_claim (c : ChunkRow) : ChunkRow :=
  mkChunkRow (c_sizeBytes c) (Z.max (c_refCount c - 1) 0) (c_storedAt c).

Definition among (userId : string) (hashes : list string) (k : string * string) : bool :=
  String.eqb k.1 userId && bool_decide (k.2 ∈ hashes).

(** [update chunks set refCount = greatest(refCount - 1, 0) where owned]. *)
Definition drop_claims (userId : string) (hashes : list string) (m : gmap (string * string) ChunkRow) :=
  map_imap (λ k c, Some (if among userId hashes k then drop_claim c else c)) m.

(** The rows of [hashes] without a reference. *)
Definition unclaimed (userId : string) (m : gmap (string * string) ChunkRow) (hash : string) : bool :=
  match m !! (userId, hash) with Some c => c_refCount c =? 0 | None => false end.

(** [hashes] are distinct; the answer is what the delete returned. *)
Definition releaseHashes (userId : string) (hashes : list string) (w : FilesWorld) : list string * FilesWorld :=
  match hashes with
  | [] => ([], w)
  | _ =>
      let m := drop_claims userId hashes (fw_chunks w) in
      let orphans := List.filter (unclaimed userId m) hashes in
      (orphans, set_chunks (fold_left (λ m h, delete (userId, h) m) orphans m) w)
  end.

(** ** The transactions under the account lock *)

Definition touch_file (manifest : Manifest) (contentType : option string) (now : Z) (f : FileRow) : FileRow :=
  mkFile (f_id f) (f_userId f) (f_path f) (mn_totalBytes manifest) (mn_fileHash manifest) contentType None
    (f_createdAt f) now.

Inductive ManifestOutcome :=
| MoQuota (verdict : QuotaVerdict) (incoming : Z)
| MoOk (file : FileRow) (verdict : QuotaVerdict) (orphans : list string) (created : bool) (missing : list ChunkRef).

(** The row of the file: replaced under its path, or inserted as [newId]. *)
Definition put_file (userId path newId : string) (contentType : option string) (manifest : Manifest)
    (existing : option FileRow) (w : FilesWorld) : option (FileRow * FilesWorld) :=
  let now := fw_nowMs w in
  match existing with
  | Some f =>
      let file := touch_file manifest contentType now f in
      Some (file, set_files (<[f_id f := file]> (fw_files w)) w)
  | None =>
      let file := mkFile newId userId path (mn_totalBytes manifest) (mn_fileHash manifest) contentType None now now in
      if bool_decide (newId ∈ fw_ids w) || negb (bool_decide (is_Some (fw_accounts w !! userId))) then None
      else Some (file, set_files (<[newId := file]> (fw_files w)) (set_ids ({[newId]} ∪ fw_ids w) w))
  end.

Definition manifest_tx (userId path : string) (contentType : option string) (manifest : Manifest) (newId : string)
    (w : FilesWorld) : option (ManifestOutcome * FilesWorld) :=
  let wanted := distinctChunks manifest in
  let wantedHashes := map cr_hash wanted in
  let known := map fst (ownedChunks userId wantedHashes w) in
  let incoming := total_length (List.filter (λ chunk, negb (bool_decide (cr_hash chunk ∈ known))) wanted) in
  let verdict := checkQuota (quotaState userId w) incoming in
  if negb (qv_allowed verdict) then Some (MoQuota verdict incoming, w)
  else
    let existing := file_at userId path w in
    match put_file userId path newId contentType manifest existing w with
    | None => None
    | Some (file, w1) =>
        let '(releasing, w2) := match existing with Some f => detachFileChunks (f_id f) w1 | None => ([], w1) end in
        match attachChunks userId (f_id file) manifest w2 with
        | None => None
        | Some w3 =>
            let '(orphans, w4) := releaseHashes userId releasing w3 in
            let stored := map fst (List.filter (λ row, bool_decide (is_Some (c_storedAt row.2))) (ownedChunks userId wantedHashes w4)) in
            Some (MoOk file verdict orphans (bool_decide (existing = None))
                    (missingChunkRefs manifest (λ hash, bool_decide (hash ∈ stored))), w4)
        end
    end.

Definition delete_tx (userId fileId : string) (w : FilesWorld) : option (FileRow * list string) * FilesWorld :=
  match ownedFile userId fileId w with
  | None => (None, w)
  | Some file =>
      let '(hashes, w1) := detachFileChunks (f_id file) w in
      let '(orphans, w2) := releaseHashes userId hashes w1 in
      (Some (file, orphans), set_files (delete (f_id file) (fw_files w2)) w2)
  end.

Definition active_transfers (userId : string) (w : FilesWorld) : Z :=
  Z.of_nat (length (List.filter (λ t, String.eqb (t_userId t) userId && bool_decide (t_state t ∈ ACTIVE_TRANSFER_STATES))
    (table_rows (fw_transfers w)))).

(** The active-transfer cap of abuse.ts; [Some reason] refuses. *)
Definition maxActiveTransfers : Z := 32.
Definition checkActiveTransfers (activeTransfers : Z) : option (string * string) :=
  if activeTransfers >=? maxActiveTransfers then
    Some ("active_transfers",
          "Transfer limit reached: " +:+ toString10 activeTransfers +:+ " already queued or running "
          +:+ "(max " +:+ toString10 maxActiveTransfers +:+ "). Existing transfers keep going.")
  else None.

Inductive TransferOutcome :=
| ToQuota (verdict : QuotaVerdict)
| ToAbuse (check : string * string) (active : Z)
| ToOk (transfer : TransferRow).

Definition transfer_tx (userId url destPath : string) (totalBytes admissionBytes : Z) (deviceId : option string)
    (newId : string) (w : FilesWorld) : option (TransferOutcome * FilesWorld) :=
  let verdict := checkQuota (quotaState userId w) admissionBytes in
  if negb (qv_allowed verdict) then Some (ToQuota verdict, w)
  else
    let active := active_transfers userId w in
    match checkActiveTransfers active with
    | Some check => Some (ToAbuse check active, w)
    | None =>
        let now := fw_nowMs w in
        let transfer := mkTransfer newId userId url destPath queued 0 totalBytes deviceId None now now in
        if bool_decide (is_Some (fw_transfers w !! newId)) || negb (bool_decide (is_Some (fw_accounts w !! userId)))
        then None
        else Some (ToOk transfer, set_transfers (<[newId := transfer]> (fw_transfers w)) w)
    end.
