(* ===== verification/ControlFiles.v ===== *)
(** * The routes of the Files API (services/control/src/app.ts)

    Every route of files, chunks and transfers as a handler that interleaves
    with the others at its awaits.  The caller is authenticated already: a
    request carries the account and the device, or the grants of an agent; its
    body is what the schemas let through.  The bucket is asked through calls
    that may fail; a head, a delete and a signature act on it at one instant. *)

From S2P Require Export FilesDb Tokens.
From Stdlib Require Import Ascii.

(** ** Pattern of a prefix *)

(** [escapeLike]. *)
Fixpoint escapeLike (s : string) : string :=
  match s with
  | EmptyString => EmptyString
  | String c s =>
      if Ascii.eqb c "\" || Ascii.eqb c "%" || Ascii.eqb c "_" then String "\" (String c (escapeLike s))
      else String c (escapeLike s)
  end.

(** [text LIKE pattern] of the database. *)
Fixpoint like (pattern text : string) {struct pattern} : bool :=
  match pattern with
  | EmptyString => String.eqb text ""
  | String p pattern' =>
      if Ascii.eqb p "%" then
        (fix any text := like pattern' text || match text with String _ text => any text | EmptyString => false end) text
      else if Ascii.eqb p "_" then match text with String _ text => like pattern' text | EmptyString => false end
      else if Ascii.eqb p "\" then
        match pattern', text with
        | String q pattern'', String c text => Ascii.eqb q c && like pattern'' text
        | _, _ => false
        end
      else match text with String c text => Ascii.eqb p c && like pattern' text | EmptyString => false end
  end.

(** ** Requests and responses *)

Record FilesCaller := mkCaller { fc_userId : string; fc_deviceId : option string }.

(** An agent, by its capability token. *)
Record AgentCaller := mkAgent { ag_machineId : string; ag_userId : string; ag_caps : list Capability }.

Record ProgressBody := mkProgress {
  pg_state : TransferState; pg_receivedBytes : Z; pg_totalBytes : option Z; pg_error : option string
}.

Inductive FilesRequest :=
| FManifest (c : FilesCaller) (path : string) (contentType : option string) (manifest : Manifest) (newId : string)
| FComplete (c : FilesCaller) (fileId : string)
| FQuota (c : FilesCaller)
| FStat (c : FilesCaller) (path : string)
| FGetManifest (c : FilesCaller) (path : string)
| FUploadUrl (c : FilesCaller) (hash : string)
| FDownloadUrl (c : FilesCaller) (hash : string)
| FListTransfers (c : FilesCaller) (state : option TransferState) (limit : Z)
| FCreateTransfer (c : FilesCaller) (url destPath : string) (totalBytes : option Z) (newId : string)
| FAgentProgress (agent : AgentCaller) (transferId : string) (body : ProgressBody)
| FDeviceProgress (c : FilesCaller) (transferId : string) (body : ProgressBody)
| FCancel (c : FilesCaller) (transferId : string)
| FList (c : FilesCaller) (prefix : option string) (limit : Z) (cursor : option string)
| FDelete (c : FilesCaller) (fileId : string).

Record FileEntry := mkFileEntry {
  fe_id : string; fe_path : string; fe_sizeBytes : Z; fe_fileHash : string; fe_contentType : option string;
  fe_createdAtMs : Z; fe_updatedAtMs : Z
}.

Definition fileEntryView (row : FileRow) : FileEntry :=
  mkFileEntry (f_id row) (f_path row) (f_sizeBytes row) (f_fileHash row) (f_contentType row)
    (f_createdAt row) (f_updatedAt row).

Record Transfer := mkTransferView {
  tv_id : string; tv_url : string; tv_destPath : string; tv_state : TransferState; tv_receivedBytes : Z;
  tv_totalBytes : Z; tv_originDeviceId : option string; tv_error : option string; tv_startedAtMs : Z; tv_updatedAtMs : Z
}.

Inductive FilesBody :=
| FbError (error : string) (reason : option string)
| FbQuotaExceeded (verdict : QuotaVerdict)
| FbAccepted (file : FileEntry) (missing : list ChunkRef) (usedBytes limitBytes : Z)
| FbMissing (missing : list string)
| FbCompleted (file : FileEntry)
| FbQuota (usedBytes limitBytes : Z) (softBlocked : bool) (explanation : string) (fileCount : Z)
| FbStat (file : FileEntry) (complete : bool) (chunkCount : Z)
| FbManifest (manifest : Manifest)
| FbUpload (hash : string) (alreadyStored : bool) (sizeBytes : Z) (upload : option string)
| FbDownload (hash : string) (sizeBytes : Z) (download : string)
| FbTransfers (transfers : list Transfer)
| FbTransfer (transfer : Transfer)
| FbCreated (transfer : Transfer) (reason : EligibleReason)
| FbNotEligible (reason : CloudFetchRefusal) (explanation : string)
| FbAbuse (limit reason : string)
| FbTerminal (state : TransferState)
| FbMove (error : string) (from to : TransferState)
| FbRange (field reason : string)
| FbFiles (files : list (FileEntry * bool)) (nextCursor : option string)
| FbDeleted (path : string).

Record FilesResponse := mkFilesResp { fr_status : Z; fr_body : FilesBody }.

(** What the routes ask of the bucket, and its answers. *)
Inductive BucketCall :=
| HeadObject (key : string) | DeleteObject (key : string)
| PresignPut (key : string) (expiresInSeconds contentLength : Z) | PresignGet (key : string) (expiresInSeconds : Z).
Inductive BucketAnswer := BucketUp (url : string) | BucketDown.

Abbreviation FilesHandler := (Thread FilesWorld BucketCall BucketAnswer).

Definition PRESIGN_TTL_SECONDS : Z := 900.

Definition reply (status : Z) (body : FilesBody) : FilesHandler FilesResponse := mret (mkFilesResp status body).
Definition deny (status : Z) (error : string) (reason : option string) : FilesHandler FilesResponse :=
  reply status (FbError error reason).

Definition path_refusal (r : PathRefusal) : string :=
  match r with
  | path_empty => "empty" | path_traversal => "traversal"
  | path_control_characters => "control_characters" | path_is_root => "is_root"
  end.
Definition manifest_refusal (r : ManifestRefusal) : string :=
  match r with
  | too_many_chunks => "too_many_chunks" | chunk_too_large => "chunk_too_large"
  | non_contiguous => "non_contiguous" | size_mismatch => "size_mismatch"
  end.

Definition eligible_name (r : EligibleReason) : string :=
  match r with public_url => "public_url" | presigned_url => "presigned_url" end.
Definition state_name (s : TransferState) : string :=
  match s with
  | queued => "queued" | fetching => "fetching" | storing => "storing"
  | completed => "completed" | failed => "failed" | cancelled => "cancelled"
  end.

(** ** The bucket *)

Definition bucket (c : BucketCall) : FilesHandler string :=
  answer ← external c;
  match answer with BucketUp url => mret url | BucketDown => Raise end.

Definition bucket_head (key : string) : FilesHandler (option Z) :=
  _ ← bucket (HeadObject key); reading (λ w, fw_objects w !! key).
Definition bucket_delete (key : string) : FilesHandler unit :=
  _ ← bucket (DeleteObject key); atomically (λ w, (tt, set_objects (delete key (fw_objects w)) w)).
(** The grant is the signature over the key and the exact length. *)
Definition presignPut (key : string) (contentLength : Z) : FilesHandler string :=
  url ← bucket (PresignPut key PRESIGN_TTL_SECONDS contentLength);
  atomically (λ w, (url, set_grants ((key, contentLength) :: fw_grants w) w)).
Definition presignGet (key : string) : FilesHandler string := bucket (PresignGet key PRESIGN_TTL_SECONDS).

Definition record_audit (userId type : string) (payload : json) (actor : option string) : FilesHandler unit :=
  statement (λ w, if bool_decide (is_Some (fw_accounts w !! userId))
                  then Some (tt, set_entries (fw_audit w ++ [mkEntry userId type payload actor]) w) else None).

(** [deleteOrphanObjects]: what was claimed again meanwhile is kept. *)
Fixpoint delete_objects (userId : string) (reclaimed hashes : list string) : FilesHandler unit :=
  match hashes with
  | [] => mret tt
  | hash :: hashes =>
      if bool_decide (hash ∈ reclaimed) then delete_objects userId reclaimed hashes
      else _ ← bucket_delete (chunkObjectKey userId hash); delete_objects userId reclaimed hashes
  end.

Definition deleteOrphanObjects (userId : string) (hashes : list string) : FilesHandler unit :=
  match hashes with
  | [] => mret tt
  | _ => reclaimed ← reading (λ w, map fst (ownedChunks userId hashes w)); delete_objects userId reclaimed hashes
  end.

(** ** Files *)

Definition quota_audit (c : FilesCaller) (path : string) (incoming used : Z) : FilesHandler unit :=
  record_audit (fc_userId c) "files.quota_blocked"
    (JObj [("path", JStr path); ("incomingBytes", JNum incoming); ("usedBytes", JNum used)]) (fc_deviceId c).

Definition file_manifest (c : FilesCaller) (rawPath : string) (contentType : option string) (manifest : Manifest)
    (newId : string) : FilesHandler FilesResponse :=
  match normalizeFilePath rawPath with
  | inl reason => deny 400 "invalid_path" (Some (path_refusal reason))
  | inr path =>
      match validateManifest manifest with
      | Some bad => deny 400 "invalid_manifest" (Some (manifest_refusal bad))
      | None =>
          outcome ← statement (manifest_tx (fc_userId c) path contentType manifest newId);
          match outcome with
          | MoQuota verdict incoming =>
              _ ← quota_audit c path incoming (qv_usedBytes verdict);
              reply 413 (FbQuotaExceeded verdict)
          | MoOk file verdict orphans created missing =>
              _ ← deleteOrphanObjects (fc_userId c) orphans;
              reply (if created then 201 else 200)
                (FbAccepted (fileEntryView file) missing (qv_usedBytes verdict) (qv_limitBytes verdict))
          end
      end
  end.

Record Checked := mkChecked { ck_confirmed : list string; ck_missing : list string; ck_rejected : list (string * Z * Z) }.

(** The loop of HEADs over the chunks of a file. *)
Fixpoint head_chunks (userId : string) (rows : list (string * ChunkRow)) (acc : Checked) : FilesHandler Checked :=
  match rows with
  | [] => mret acc
  | (hash, row) :: rows =>
      match c_storedAt row with
      | Some _ => head_chunks userId rows acc
      | None =>
          let key := chunkObjectKey userId hash in
          head ← bucket_head key;
          match head with
          | None => head_chunks userId rows (mkChecked (ck_confirmed acc) (ck_missing acc ++ [hash]) (ck_rejected acc))
          | Some storedBytes =>
              if storedBytes =? c_sizeBytes row then
                head_chunks userId rows (mkChecked (ck_confirmed acc ++ [hash]) (ck_missing acc) (ck_rejected acc))
              else
                _ ← bucket_delete key;
                head_chunks userId rows
                  (mkChecked (ck_confirmed acc) (ck_missing acc ++ [hash])
                     (ck_rejected acc ++ [(hash, c_sizeBytes row, storedBytes)]))
          end
      end
  end.

(** [update chunks set storedAt where in group and storedAt is null]. *)
Definition mark_stored (userId : string) (hashes : list string) (w : FilesWorld) : FilesWorld :=
  set_chunks (map_imap (λ k c,
    Some (if among userId hashes k && bool_decide (c_storedAt c = None)
          then mkChunkRow (c_sizeBytes c) (c_refCount c) (Some (fw_nowMs w)) else c)) (fw_chunks w)) w.

Fixpoint confirm_chunks (userId : string) (groups : list (list string)) : FilesHandler unit :=
  match groups with
  | [] => mret tt
  | group :: groups => _ ← atomically (λ w, (tt, mark_stored userId group w)); confirm_chunks userId groups
  end.

Definition complete_file (now : Z) (f : FileRow) : FileRow :=
  mkFile (f_id f) (f_userId f) (f_path f) (f_sizeBytes f) (f_fileHash f) (f_contentType f) (Some now) (f_createdAt f) now.

(** [update files set completedAt where id returning]. *)
Definition set_completed (fileId : string) : FilesHandler (option FileRow) :=
  atomically (λ w,
    match fw_files w !! fileId with
    | Some f => let f' := complete_file (fw_nowMs w) f in (Some f', set_files (<[fileId := f']> (fw_files w)) w)
    | None => (None, w)
    end).

Inductive CompleteOutcome := CoGone | CoMissing (missing : list string) | CoOk (file : FileRow).

(** The transaction of complete; it takes no lock, so other requests may come
    between its statements. *)
Definition complete_tx (userId fileId : string) (confirmed missing : list string) : FilesHandler CompleteOutcome :=
  _ ← confirm_chunks userId (inBatches confirmed 1000);
  match missing with
  | _ :: _ => mret (CoMissing missing)
  | [] =>
      current ← reading (ownedFile userId fileId);
      match current with
      | None => mret CoGone
      | Some file =>
          hashes ← reading (distinctFileHashes (f_id file));
          rows ← reading (ownedChunks userId hashes);
          match map fst (List.filter (λ row, bool_decide (c_storedAt row.2 = None)) rows) with
          | _ :: _ as unstored => mret (CoMissing unstored)
          | [] =>
              updated ← set_completed (f_id file);
              match updated with Some f => mret (CoOk f) | None => mret CoGone end
          end
      end
  end.

Definition rejected_json (r : string * Z * Z) : json :=
  JObj [("hash", JStr r.1.1); ("declaredBytes", JNum r.1.2); ("storedBytes", JNum r.2)].

Definition complete_upload (c : FilesCaller) (fileId : string) : FilesHandler FilesResponse :=
  let userId := fc_userId c in
  found ← reading (ownedFile userId fileId);
  match found with
  | None => deny 404 "not_found" None
  | Some file =>
      hashes ← reading (distinctFileHashes (f_id file));
      rows ← reading (ownedChunks userId hashes);
      checked ← head_chunks userId rows (mkChecked [] [] []);
      _ ← match ck_rejected checked with
          | [] => mret tt
          | rejected =>
              record_audit userId "files.chunk_rejected"
                (JObj [("fileId", JStr (f_id file)); ("path", JStr (f_path file));
                       ("count", JNum (Z.of_nat (length rejected)));
                       ("chunks", JArr (map rejected_json (take 20 rejected)))]) (fc_deviceId c)
          end;
      result ← complete_tx userId fileId (ck_confirmed checked) (ck_missing checked);
      match result with
      | CoGone => deny 404 "not_found" None
      | CoMissing missing => reply 409 (FbMissing missing)
      | CoOk f =>
          _ ← record_audit userId "files.uploaded"
                (JObj [("fileId", JStr (f_id f)); ("path", JStr (f_path f)); ("sizeBytes", JNum (f_sizeBytes f))])
                (fc_deviceId c);
          reply 200 (FbCompleted (fileEntryView f))
      end
  end.

Definition file_quota (c : FilesCaller) : FilesHandler FilesResponse :=
  state ← reading (quotaState (fc_userId c));
  let verdict := checkQuota state 0 in
  n ← reading (λ w, Z.of_nat (length (List.filter (λ f, String.eqb (f_userId f) (fc_userId c)) (table_rows (fw_files w)))));
  reply 200 (FbQuota (qs_usedBytes state) (qs_limitBytes state) (qv_softBlocked verdict) (qv_explanation verdict) n).

(** The lookup shared by stat and the manifest route. *)
Definition with_file (c : FilesCaller) (rawPath : string) (k : FileRow → FilesHandler FilesResponse)
    : FilesHandler FilesResponse :=
  match normalizeFilePath rawPath with
  | inl reason => deny 400 "invalid_path" (Some (path_refusal reason))
  | inr path =>
      file ← reading (file_at (fc_userId c) path);
      match file with None => deny 404 "not_found" None | Some f => k f end
  end.

Definition file_stat (c : FilesCaller) (rawPath : string) : FilesHandler FilesResponse :=
  with_file c rawPath (λ f,
    n ← reading (λ w, Z.of_nat (length (chunk_rows (f_id f) w)));
    reply 200 (FbStat (fileEntryView f) (bool_decide (is_Some (f_completedAt f))) n)).

Definition get_manifest (c : FilesCaller) (rawPath : string) : FilesHandler FilesResponse :=
  with_file c rawPath (λ f,
    match f_completedAt f with
    | None => deny 409 "incomplete" None
    | Some _ =>
        rows ← reading (chunk_rows (f_id f));
        reply 200 (FbManifest (mkManifest (f_fileHash f) (f_sizeBytes f) rows))
    end).

Definition upload_url (c : FilesCaller) (hash : string) : FilesHandler FilesResponse :=
  let userId := fc_userId c in
  chunk ← reading (λ w, fw_chunks w !! (userId, hash));
  match chunk with
  | None => deny 404 "not_found" None
  | Some row =>
      state ← reading (quotaState userId);
      let verdict := checkQuota state 0 in
      if qv_softBlocked verdict then reply 413 (FbQuotaExceeded verdict)
      else match c_storedAt row with
           | Some _ => reply 200 (FbUpload hash true (c_sizeBytes row) None)
           | None =>
               upload ← presignPut (chunkObjectKey userId hash) (c_sizeBytes row);
               reply 200 (FbUpload hash false (c_sizeBytes row) (Some upload))
           end
  end.

Definition download_url (c : FilesCaller) (hash : string) : FilesHandler FilesResponse :=
  chunk ← reading (λ w, fw_chunks w !! (fc_userId c, hash));
  match chunk with
  | Some row =>
      match c_storedAt row with
      | Some _ =>
          download ← presignGet (chunkObjectKey (fc_userId c) hash);
          reply 200 (FbDownload hash (c_sizeBytes row) download)
      | None => deny 404 "not_found" None
      end
  | None => deny 404 "not_found" None
  end.

Definition delete_file (c : FilesCaller) (fileId : string) : FilesHandler FilesResponse :=
  outcome ← atomically (delete_tx (fc_userId c) fileId);
  match outcome with
  | None => deny 404 "not_found" None
  | Some (file, orphans) =>
      _ ← deleteOrphanObjects (fc_userId c) orphans;
      _ ← record_audit (fc_userId c) "files.deleted"
            (JObj [("fileId", JStr (f_id file)); ("path", JStr (f_path file)); ("sizeBytes", JNum (f_sizeBytes file))])
            (fc_deviceId c);
      reply 200 (FbDeleted (f_path file))
  end.

(** ** Transfers *)

Section Transfers.
Context `{UrlParser} `{UrlText}.

Definition transferView (row : TransferRow) : Transfer :=
  mkTransferView (t_id row) (redactTransferUrl (t_url row)) (t_destPath row) (t_state row) (t_receivedBytes row)
    (t_totalBytes row) (t_originDeviceId row) (t_error row) (t_startedAt row) (t_updatedAt row).

(** Newest first, by start and then by id. *)
Definition newer (a b : TransferRow) : Prop :=
  t_startedAt b < t_startedAt a ∨ t_startedAt b = t_startedAt a ∧ String.leb (t_id b) (t_id a) = true.
#[local] Instance newer_dec : RelDecision newer.
Proof. intros a b. unfold newer. apply _. Defined.

Definition list_transfers (c : FilesCaller) (state : option TransferState) (limit : Z) : FilesHandler FilesResponse :=
  rows ← reading (λ w,
    take (Z.to_nat limit) (merge_sort newer (List.filter (λ t,
      String.eqb (t_userId t) (fc_userId c)
      && match state with Some s => bool_decide (t_state t = s) | None => true end) (table_rows (fw_transfers w)))));
  reply 200 (FbTransfers (map transferView rows)).

Definition create_transfer (c : FilesCaller) (url rawDestPath : string) (bodyTotalBytes : option Z) (newId : string)
    : FilesHandler FilesResponse :=
  let userId := fc_userId c in
  match normalizeFilePath rawDestPath with
  | inl reason => deny 400 "invalid_path" (Some (path_refusal reason))
  | inr destPath =>
      features ← reading (λ w, default [] (fw_accounts w !! userId));
      if negb (includes "cloud-fetch" features) then deny 403 "feature_required" (Some "cloud-fetch")
      else
        match cloudFetchEligibility (mkDownload url bodyTotalBytes false false false false) with
        | Refused reason explanation => reply 422 (FbNotEligible reason explanation)
        | Eligible why =>
            let totalBytes := default 0 bodyTotalBytes in
            let admissionBytes := default CLOUD_FETCH_MIN_BYTES bodyTotalBytes in
            outcome ← statement (transfer_tx userId url destPath totalBytes admissionBytes (fc_deviceId c) newId);
            match outcome with
            | ToQuota verdict =>
                _ ← quota_audit c destPath admissionBytes (qv_usedBytes verdict);
                reply 413 (FbQuotaExceeded verdict)
            | ToAbuse (limit, reason) active =>
                _ ← record_audit userId "abuse.limit_hit"
                      (JObj [("limit", JStr limit); ("reason", JStr reason); ("count", JNum active);
                             ("max", JNum maxActiveTransfers)]) (fc_deviceId c);
                reply 429 (FbAbuse limit reason)
            | ToOk transfer =>
                u ← or_raise (parse_url url);
                _ ← record_audit userId "transfer.created"
                      (JObj [("transferId", JStr (t_id transfer)); ("host", JStr (url_hostname u));
                             ("destPath", JStr (t_destPath transfer)); ("eligibility", JStr (eligible_name why))])
                      (fc_deviceId c);
                reply 201 (FbCreated (transferView transfer) why)
            end
        end
  end.

Definition ownedTransfer (userId transferId : string) (w : FilesWorld) : option TransferRow :=
  match fw_transfers w !! transferId with
  | Some t => if String.eqb (t_userId t) userId then Some t else None
  | None => None
  end.

(** What a report that was admitted makes of the row it was checked against. *)
Definition progressed (t : TransferRow) (body : ProgressBody) (totalBytes now : Z) (row : TransferRow) : TransferRow :=
  mkTransfer (t_id row) (t_userId row)
    (if isTerminalTransfer (pg_state body) then redactTransferUrl (t_url t) else t_url row)
    (t_destPath row) (pg_state body) (pg_receivedBytes body) totalBytes (t_originDeviceId row) (pg_error body)
    (t_startedAt row) now.

Definition cancelled_row (t : TransferRow) (now : Z) (row : TransferRow) : TransferRow :=
  mkTransfer (t_id row) (t_userId row) (redactTransferUrl (t_url t)) (t_destPath row) cancelled
    (t_receivedBytes row) (t_totalBytes row) (t_originDeviceId row) (t_error row) (t_startedAt row) now.

(** [update transfers ... where id and state = from returning]. *)
Definition move_transfer (transferId : string) (from : TransferState) (change : Z → TransferRow → TransferRow)
    : FilesHandler (option TransferRow) :=
  atomically (λ w,
    match fw_transfers w !! transferId with
    | Some row =>
        if bool_decide (t_state row = from)
        then let row' := change (fw_nowMs w) row in (Some row', set_transfers (<[transferId := row']> (fw_transfers w)) w)
        else (None, w)
    | None => (None, w)
    end).

(** The checks of a report against the row; [inr] is the total to store. *)
Definition progress_check (t : TransferRow) (body : ProgressBody) : FilesResponse + Z :=
  let from := t_state t in
  if isTerminalTransfer from then inl (mkFilesResp 409 (FbTerminal from))
  else if negb (canTransferTransition from (pg_state body))
  then inl (mkFilesResp 409 (FbMove "illegal_transition" from (pg_state body)))
  else if match pg_totalBytes body with
          | Some total => (t_totalBytes t >? 0) && negb (total =? t_totalBytes t)
          | None => false
          end then inl (mkFilesResp 400 (FbRange "totalBytes" "total_changed"))
  else
    let totalBytes := if t_totalBytes t >? 0 then t_totalBytes t else default 0 (pg_totalBytes body) in
    if pg_receivedBytes body <? t_receivedBytes t then inl (mkFilesResp 400 (FbRange "receivedBytes" "decreased"))
    else if (totalBytes >? 0) && (pg_receivedBytes body >? totalBytes)
    then inl (mkFilesResp 400 (FbRange "receivedBytes" "exceeds_total"))
    else inr totalBytes.

Definition updateTransferProgress (userId transferId : string) (body : ProgressBody) : FilesHandler FilesResponse :=
  transfer ← reading (ownedTransfer userId transferId);
  match transfer with
  | None => deny 404 "not_found" None
  | Some t =>
      match progress_check t body with
      | inl refusal => mret refusal
      | inr totalBytes =>
          updated ← move_transfer (t_id t) (t_state t) (progressed t body totalBytes);
          match updated with
          | None => reply 409 (FbMove "conflict" (t_state t) (pg_state body))
          | Some row => reply 200 (FbTransfer (transferView row))
          end
      end
  end.

Definition agent_progress (agent : AgentCaller) (transferId : string) (body : ProgressBody) : FilesHandler FilesResponse :=
  match transferReportRefusal (ag_caps agent) with
  | Some refusal => deny 403 "capability_refused" (Some refusal)
  | None => updateTransferProgress (ag_userId agent) transferId body
  end.

Definition cancel_transfer (c : FilesCaller) (transferId : string) : FilesHandler FilesResponse :=
  transfer ← reading (ownedTransfer (fc_userId c) transferId);
  match transfer with
  | None => deny 404 "not_found" None
  | Some t =>
      if isTerminalTransfer (t_state t) then reply 409 (FbTerminal (t_state t))
      else
        updated ← move_transfer transferId (t_state t) (cancelled_row t);
        match updated with
        | None => reply 409 (FbMove "conflict" (t_state t) cancelled)
        | Some row =>
            _ ← record_audit (fc_userId c) "transfer.cancelled"
                  (JObj [("transferId", JStr transferId); ("destPath", JStr (t_destPath row));
                         ("from", JStr (state_name (t_state t)))]) (fc_deviceId c);
            reply 200 (FbTransfer (transferView row))
        end
  end.

(** ** Listing

    [collate a b]: the order of the database puts [a] before or level with [b]. *)
Section Listing.
Context (collate : relation string) `{!RelDecision collate}.

Definition by_path (a b : FileRow) : Prop := collate (f_path a) (f_path b).
#[local] Instance by_path_dec : RelDecision by_path.
Proof. intros a b. unfold by_path. apply _. Defined.

Definition listed (userId normalized : string) (cursor : option string) (f : FileRow) : bool :=
  String.eqb (f_userId f) userId
  && (String.eqb normalized "/" || String.eqb (f_path f) normalized || like (escapeLike normalized +:+ "/%") (f_path f))
  && match cursor with None => true | Some c => negb (bool_decide (collate (f_path f) c)) end.

Definition list_files (c : FilesCaller) (prefix : option string) (limit : Z) (cursor : option string)
    : FilesHandler FilesResponse :=
  match match prefix with None => Some "/" | Some p => normalizePrefix p end with
  | None => deny 400 "invalid_path" (Some "traversal")
  | Some normalized =>
      rows ← reading (λ w,
        take (Z.to_nat (limit + 1))
          (merge_sort by_path (List.filter (listed (fc_userId c) normalized cursor) (table_rows (fw_files w)))));
      let page := take (Z.to_nat limit) rows in
      reply 200 (FbFiles (map (λ f, (fileEntryView f, bool_decide (is_Some (f_completedAt f)))) page)
        (match last page with
         | Some f => if Z.of_nat (length rows) >? limit then Some (f_path f) else None
         | None => None
         end))
  end.

(** ** Dispatch

    A body its schema refuses is answered 400. *)

Definition in_range (n : Z) : bool := (0 <=? n) && (n <=? MAX_TRANSFER_BYTES).
Definition createTransferSchema (totalBytes : option Z) : bool :=
  match totalBytes with Some n => in_range n | None => true end.
Definition transferProgressSchema (body : ProgressBody) : bool :=
  in_range (pg_receivedBytes body) && createTransferSchema (pg_totalBytes body).

Definition validated (ok : bool) (h : FilesHandler FilesResponse) : FilesHandler FilesResponse :=
  if ok then h else deny 400 "invalid_body" None.

Definition handle_files (r : FilesRequest) : FilesHandler FilesResponse :=
  match r with
  | FManifest c path contentType manifest newId => validated (manifestSchema manifest) (file_manifest c path contentType manifest newId)
  | FComplete c fileId => complete_upload c fileId
  | FQuota c => file_quota c
  | FStat c path => file_stat c path
  | FGetManifest c path => get_manifest c path
  | FUploadUrl c hash => upload_url c hash
  | FDownloadUrl c hash => download_url c hash
  | FListTransfers c state limit => list_transfers c state limit
  | FCreateTransfer c url destPath totalBytes newId => validated (createTransferSchema totalBytes) (create_transfer c url destPath totalBytes newId)
  | FAgentProgress agent transferId body => validated (transferProgressSchema body) (agent_progress agent transferId body)
  | FDeviceProgress c transferId body => validated (transferProgressSchema body) (updateTransferProgress (fc_userId c) transferId body)
  | FCancel c transferId => cancel_transfer c transferId
  | FList c prefix limit cursor => list_files c prefix limit cursor
  | FDelete c fileId => delete_file c fileId
  end.
End Listing.
End Transfers.
