(* ===== verification/FilesInv.v ===== *)
(** * References and quota of the Files API

    What the transactions do to reference counts, to the chunk lists and to
    the bytes an account is charged for. *)

From S2P Require Export ControlFiles.
From Stdlib Require Import Ascii.

Abbreviation ChunkTable := (gmap (string * string) ChunkRow).

Lemma concat_in_batches {A} (size : nat) : (0 < size)%nat → ∀ fuel (l : list A), (length l <= fuel)%nat →
  concat (in_batches fuel l size) = l.
Proof.
  intros Hs. induction fuel as [|fuel IH]; intros [|x l] Hf; try done; cbn in Hf; [lia|].
  cbn [in_batches concat]. rewrite IH; [apply take_drop|]. rewrite length_drop. cbn. lia.
Qed.

Lemma concat_inBatches {A} (l : list A) size : (0 < size)%nat → concat (inBatches l size) = l.
Proof. intros H. by apply concat_in_batches. Qed.

Lemma fold_left_concat {A B} (f : A → B → A) ls : ∀ a,
  fold_left (λ a group, fold_left f group a) ls a = fold_left f (concat ls) a.
Proof. induction ls as [|l ls IH]; intros a; cbn; [done|]. by rewrite fold_left_app. Qed.

Lemma omap_concat {A B} (f : A → option B) ls : concat (map (omap f) ls) = omap f (concat ls).
Proof. induction ls as [|l ls IH]; cbn; [done|]. by rewrite IH, omap_app. Qed.

Lemma claim_all_eq u l m : claim_all u l m = fold_left (claim_chunk u) l m.
Proof. unfold claim_all. rewrite fold_left_concat, concat_inBatches by lia. done. Qed.

Lemma ownedChunks_eq u hashes w : ownedChunks u hashes w = omap (λ h, (h,.) <$> fw_chunks w !! (u, h)) hashes.
Proof. unfold ownedChunks. rewrite omap_concat, concat_inBatches by lia. done. Qed.

Lemma elem_ownedChunks u hashes w h c :
  (h, c) ∈ ownedChunks u hashes w ↔ h ∈ hashes ∧ fw_chunks w !! (u, h) = Some c.
Proof.
  rewrite ownedChunks_eq, list_elem_of_omap. split.
  - intros (h' & Hin & (c' & Hc & [= <- <-])%fmap_Some). done.
  - intros [Hin Hc]. exists h. split; [done|]. by rewrite Hc.
Qed.

Lemma elem_ownedHashes u hashes w h :
  h ∈ map fst (ownedChunks u hashes w) ↔ h ∈ hashes ∧ is_Some (fw_chunks w !! (u, h)).
Proof.
  rewrite list_elem_of_fmap. split.
  - intros ([h' c] & -> & Hin). apply elem_ownedChunks in Hin as [? ?]. by split; [|eexists].
  - intros [Hin [c Hc]]. exists (h, c). split; [done|]. by apply elem_ownedChunks.
Qed.

(** ** Reference counts *)

Definition refs (m : ChunkTable) (u h : string) : Z :=
  match m !! (u, h) with Some c => c_refCount c | None => 0 end.
(** Every row is named by a file. *)
Definition positive (m : ChunkTable) : Prop := ∀ k c, m !! k = Some c → 0 < c_refCount c.
Definition one_if (P : Prop) `{Decision P} : Z := if decide P then 1 else 0.

Lemma refs_nonneg m u h : positive m → 0 <= refs m u h.
Proof. intros H. unfold refs. destruct (m !! (u, h)) as [c|] eqn:E; [specialize (H _ _ E); lia|lia]. Qed.

Definition claimed (u : string) (chunk : ChunkRef) (o : option ChunkRow) : ChunkRow :=
  match o with
  | None => mkChunkRow (cr_length chunk) 1 None
  | Some row => mkChunkRow (c_sizeBytes row) (c_refCount row + 1) (c_storedAt row)
  end.

Lemma claim_fold_lookup u l : ∀ m k, NoDup (map cr_hash l) →
  fold_left (claim_chunk u) l m !! k =
  match List.find (λ c, bool_decide (k = (u, cr_hash c))) l with
  | Some chunk => Some (claimed u chunk (m !! k))
  | None => m !! k
  end.
Proof.
  induction l as [|c l IH]; intros m k Hnd; cbn [fold_left List.find]; [done|].
  cbn [map] in Hnd. apply NoDup_cons in Hnd as [Hc Hnd]. rewrite IH by done.
  destruct (decide (k = (u, cr_hash c))) as [->|Hne].
  - rewrite bool_decide_true by done.
    destruct (List.find _ l) as [c'|] eqn:E.
    { apply find_some in E as [Hin Heq%bool_decide_eq_true]. exfalso. apply Hc.
      injection Heq as ->. apply list_elem_of_fmap. exists c'. split; [done|]. by apply list_elem_of_In. }
    unfold claim_chunk. rewrite lookup_insert_eq. done.
  - rewrite (bool_decide_false _ Hne). unfold claim_chunk.
    rewrite lookup_insert_ne by done. done.
Qed.

(** The chunk of [l] under a key of the table. *)
Lemma find_chunk (u : string) (k : string * string) l :
  match List.find (λ c, bool_decide (k = (u, cr_hash c))) l with
  | Some chunk => k = (u, cr_hash chunk) ∧ chunk ∈ l
  | None => ¬ (k.1 = u ∧ k.2 ∈ map cr_hash l)
  end.
Proof.
  destruct (List.find _ l) as [c|] eqn:E.
  - apply find_some in E as [Hin Heq%bool_decide_eq_true]. split; [done|by apply list_elem_of_In].
  - intros [Hu (c & Hc & Hin)%list_elem_of_fmap]. assert (bool_decide (k = (u, cr_hash c)) = false) as Hn.
    { apply (find_none _ _ E c). by apply list_elem_of_In. }
    apply bool_decide_eq_false in Hn. apply Hn. destruct k as [k1 k2]; cbn in *; congruence.
Qed.

Lemma claim_all_lookup u l m k : NoDup (map cr_hash l) →
  claim_all u l m !! k =
  match List.find (λ c, bool_decide (k = (u, cr_hash c))) l with
  | Some chunk => Some (claimed u chunk (m !! k))
  | None => m !! k
  end.
Proof. rewrite claim_all_eq. apply claim_fold_lookup. Qed.

Lemma claim_all_refs u l m u' h : NoDup (map cr_hash l) →
  refs (claim_all u l m) u' h = refs m u' h + one_if (u' = u ∧ h ∈ map cr_hash l).
Proof.
  intros Hnd. unfold refs, one_if. rewrite claim_all_lookup by done. pose proof (find_chunk u (u', h) l) as Hf.
  destruct (List.find _ l) as [c|].
  - destruct Hf as [[= -> ->] Hin]. rewrite decide_True.
    + unfold claimed. destruct (m !! _); cbn; lia.
    + split; [done|]. apply list_elem_of_fmap. by exists c.
  - rewrite decide_False by done. lia.
Qed.

Lemma claim_all_positive u l m : NoDup (map cr_hash l) → positive m → positive (claim_all u l m).
Proof.
  intros Hnd H k c. rewrite claim_all_lookup by done. destruct (List.find _ l) as [r|]; [|apply H].
  intros [= <-]. unfold claimed. destruct (m !! k) as [row|] eqn:E; cbn; [specialize (H _ _ E)|]; lia.
Qed.

(** The row after the claims are dropped, before the orphans are deleted. *)
Lemma drop_claims_lookup u hashes m k :
  drop_claims u hashes m !! k = (λ c, if among u hashes k then drop_claim c else c) <$> m !! k.
Proof. unfold drop_claims. rewrite map_lookup_imap. by destruct (m !! k). Qed.

Lemma delete_all_lookup (u : string) (orphans : list string) (m : ChunkTable) : ∀ k : string * string,
  fold_left (λ m h, delete (u, h) m) orphans m !! k = if among u orphans k then None else m !! k.
Proof.
  revert m. induction orphans as [|h orphans IH]; intros m k; cbn [fold_left].
  - unfold among. rewrite bool_decide_false by set_solver. by rewrite andb_false_r.
  - rewrite IH. unfold among. destruct (String.eqb_spec k.1 u) as [Hu|Hu]; cbn [andb].
    + destruct (decide (k.2 = h)) as [Hh|Hh].
      * rewrite (bool_decide_true (k.2 ∈ h :: _)) by (subst; left). case_bool_decide; [done|].
        rewrite <- Hu, <- Hh. destruct k. by rewrite lookup_delete_eq.
      * rewrite lookup_delete_ne by (destruct k; cbn in *; congruence).
        by rewrite (bool_decide_ext (k.2 ∈ orphans) (k.2 ∈ h :: orphans)) by (rewrite elem_of_cons; tauto).
    + rewrite lookup_delete_ne; [done|]. destruct k; cbn in *; congruence.
Qed.

(** What a release leaves under a key: the row with one claim less, unless
    that was the last. *)
Definition released (u : string) (hashes : list string) (k : string * string) (c : ChunkRow) : option ChunkRow :=
  if among u hashes k then
    if c_refCount c <=? 1 then None else Some (drop_claim c)
  else Some c.

Lemma releaseHashes_spec u hashes w :
  positive (fw_chunks w) →
  let '(orphans, w') := releaseHashes u hashes w in
  w' = set_chunks (fw_chunks w') w
  ∧ (∀ k, fw_chunks w' !! k = fw_chunks w !! k ≫= released u hashes k)
  ∧ (∀ h, h ∈ orphans ↔ h ∈ hashes ∧ ∃ c, fw_chunks w !! (u, h) = Some c ∧ c_refCount c = 1).
Proof.
  intros Hp. unfold releaseHashes. destruct hashes as [|h0 hashes].
  { split; [by destruct w|]. split; [|set_solver]. intros k. destruct (fw_chunks w !! k); [|done].
    unfold released, among. rewrite bool_decide_false by set_solver. by rewrite andb_false_r. }
  remember (h0 :: hashes) as hs eqn:Ehs. clear Ehs.
  assert (∀ h, unclaimed u (drop_claims u hs (fw_chunks w)) h = true ∧ h ∈ hs ↔
            h ∈ hs ∧ ∃ c, fw_chunks w !! (u, h) = Some c ∧ c_refCount c = 1) as Hun.
  { intros h. unfold unclaimed. rewrite drop_claims_lookup. destruct (fw_chunks w !! (u, h)) as [c|] eqn:E; cbn.
    2:{ split; [intros [? _]; done|intros (_ & c & [=] & _)]. }
    pose proof (Hp _ _ E). unfold among. cbn. rewrite String.eqb_refl. cbn. case_bool_decide as Hin; cbn.
    - rewrite Z.eqb_eq. split; [intros [? _]; split; [done|]; exists c; split; [done|lia]|].
      intros (_ & c' & [= <-] & ?). split; [lia|done].
    - split; [by intros [_ ?]|by intros [? _]]. }
  split; [done|]. cbn [set_chunks fw_chunks]. split.
  - intros k. rewrite delete_all_lookup, drop_claims_lookup. unfold released. destruct (fw_chunks w !! k) as [c|] eqn:E; cbn.
    2:{ by destruct (among _ _ _). }
    unfold among at 1. destruct (String.eqb_spec k.1 u) as [Hu|Hu]; cbn [andb].
    2:{ unfold among. rewrite (proj2 (String.eqb_neq _ _) Hu). done. }
    assert (among u hs k = bool_decide (k.2 ∈ hs)) as -> by (unfold among; by rewrite (proj2 (String.eqb_eq _ _) Hu)).
    assert (k = (u, k.2)) as Hk by (destruct k; cbn in *; congruence). rewrite Hk in E. pose proof (Hp _ _ E).
    case_bool_decide as Ho; rewrite In_filter_iff in Ho.
    + apply and_comm, Hun in Ho as (Hin & c' & Hc' & H1). rewrite bool_decide_true by done.
      rewrite Hc' in E. injection E as <-. by destruct (Z.leb_spec (c_refCount c') 1); [|lia].
    + case_bool_decide as Hin; [|done]. destruct (Z.leb_spec (c_refCount c) 1); [|done].
      exfalso. apply Ho. apply and_comm, Hun. split; [done|]. exists c. split; [done|lia].
  - intros h. rewrite In_filter_iff. specialize (Hun h). tauto.
Qed.

Lemma release_refs u hashes w w' orphans : NoDup hashes → positive (fw_chunks w) →
  (∀ h, h ∈ hashes → 0 < refs (fw_chunks w) u h) → releaseHashes u hashes w = (orphans, w') →
  positive (fw_chunks w')
  ∧ ∀ u' h, refs (fw_chunks w') u' h = refs (fw_chunks w) u' h - one_if (u' = u ∧ h ∈ hashes).
Proof.
  intros Hnd Hp Hin E. pose proof (releaseHashes_spec u hashes w Hp) as Hs. rewrite E in Hs. destruct Hs as (_ & Hl & _).
  assert (∀ k c, fw_chunks w !! k = Some c →
    match released u hashes k c with Some c' => 0 < c_refCount c' ∧ c_refCount c' = c_refCount c - (if among u hashes k then 1 else 0)
    | None => among u hashes k = true ∧ c_refCount c = 1 end) as Hrel.
  { intros k c Hc. pose proof (Hp _ _ Hc). unfold released. destruct (among u hashes k); [|split; [done|lia]].
    destruct (Z.leb_spec (c_refCount c) 1); cbn; [split; [done|lia]|lia]. }
  split.
  - intros k c'. rewrite Hl. intros (c & Hc & Hc')%bind_Some. specialize (Hrel _ _ Hc). rewrite Hc' in Hrel. apply Hrel.
  - intros u' h. unfold refs, one_if. rewrite Hl. destruct (fw_chunks w !! (u', h)) as [c|] eqn:Ec; cbn.
    + specialize (Hrel _ _ Ec). unfold among in Hrel. cbn in Hrel.
      destruct (String.eqb_spec u' u) as [->|Hu]; cbn in Hrel.
      * destruct (decide (u = u ∧ h ∈ hashes)) as [[_ Hh]|Hh].
        -- rewrite bool_decide_true in Hrel by done. destruct (released _ _ _ _); lia.
        -- rewrite bool_decide_false in Hrel by tauto. destruct (released _ _ _ _); [lia|]. by destruct Hrel.
      * rewrite decide_False by tauto. destruct (released _ _ _ _); [lia|]. by destruct Hrel.
    + destruct (decide (u' = u ∧ h ∈ hashes)) as [[-> Hh]|_]; [|lia].
      specialize (Hin _ Hh). unfold refs in Hin. rewrite Ec in Hin. lia.
Qed.

(** ** Bytes *)

Definition sized (m : ChunkTable) : Prop := ∀ k c, m !! k = Some c → 0 < c_sizeBytes c <= MAX_CHUNK_BYTES.

Lemma usedBytes_insert (u : string) (m : ChunkTable) k c : m !! k = None → usedBytes u (<[k := c]> m) = counted u k c + usedBytes u m.
Proof.
  intros Hk. unfold usedBytes. rewrite map_fold_insert_L; [done| |done]. intros; lia.
Qed.

Lemma usedBytes_replace (u : string) (m : ChunkTable) k c c' : m !! k = Some c →
  usedBytes u (<[k := c']> m) = usedBytes u m + counted u k c' - counted u k c.
Proof.
  intros Hk. rewrite <- insert_delete_eq, usedBytes_insert by apply lookup_delete_eq.
  rewrite <- (insert_delete_id m k c) at 2 by done. rewrite usedBytes_insert by apply lookup_delete_eq. lia.
Qed.

(** What only loses bytes is charged less. *)
Lemma usedBytes_le (u : string) (m' : ChunkTable) : ∀ m : ChunkTable,
  (∀ k c', m' !! k = Some c' → ∃ c, m !! k = Some c ∧ counted u k c' <= counted u k c) → sized m →
  usedBytes u m' <= usedBytes u m.
Proof.
  assert (∀ m, sized m → 0 <= usedBytes u m) as Hpos.
  { clear m'. intros m. induction m as [|k c m Hk IH] using map_ind; intros Hs; [by unfold usedBytes; rewrite map_fold_empty|].
    rewrite usedBytes_insert by done. assert (0 < c_sizeBytes c <= MAX_CHUNK_BYTES) by (apply (Hs k); apply lookup_insert_eq).
    assert (0 <= usedBytes u m). { apply IH. intros k' c' Hk'. apply (Hs k'). rewrite lookup_insert_ne; [done|congruence]. }
    unfold counted. destruct (_ && _); lia. }
  induction m' as [|k c' m' Hk IH] using map_ind; intros m H Hs.
  - unfold usedBytes at 1. rewrite map_fold_empty. by apply Hpos.
  - rewrite usedBytes_insert by done. destruct (H k c' (lookup_insert_eq _ _ _)) as (c & Hc & Hle).
    rewrite <- (insert_delete_id m k c) by done. rewrite usedBytes_insert by apply lookup_delete_eq.
    assert (usedBytes u m' <= usedBytes u (delete k m)); [|lia]. apply IH.
    + intros k' d Hd. assert (k' ≠ k) by congruence. destruct (H k' d) as (d0 & ? & ?); [by rewrite lookup_insert_ne|].
      exists d0. split; [|done]. by rewrite lookup_delete_ne.
    + intros k' d [_ Hd]%lookup_delete_Some. by eapply Hs.
Qed.

(** The bytes a claim adds: those of a chunk without a row. *)
Definition fresh_bytes (u : string) (m : ChunkTable) (c : ChunkRef) : Z :=
  match m !! (u, cr_hash c) with Some _ => 0 | None => cr_length c end.

Lemma usedBytes_claim u m c : positive m → usedBytes u (claim_chunk u m c) = usedBytes u m + fresh_bytes u m c.
Proof.
  intros Hp. unfold claim_chunk, fresh_bytes. destruct (m !! (u, cr_hash c)) as [row|] eqn:E.
  - rewrite (usedBytes_replace _ _ _ _ _ E). pose proof (Hp _ _ E). unfold counted. cbn. rewrite String.eqb_refl. cbn.
    destruct (Z.gtb_spec (c_refCount row + 1) 0); [|lia]. destruct (Z.gtb_spec (c_refCount row) 0); lia.
  - rewrite usedBytes_insert by done. unfold counted. cbn. rewrite String.eqb_refl. cbn. lia.
Qed.

Lemma usedBytes_claim_other u v m c : u ≠ v → usedBytes u (claim_chunk v m c) = usedBytes u m.
Proof.
  intros Hne. unfold claim_chunk.
  assert (∀ row, counted u (v, cr_hash c) row = 0) as H0.
  { intros row. unfold counted. cbn. by rewrite (proj2 (String.eqb_neq _ _) (not_eq_sym Hne)). }
  destruct (m !! (v, cr_hash c)) as [row|] eqn:E; [rewrite (usedBytes_replace _ _ _ _ _ E)|rewrite usedBytes_insert by done];
    rewrite !H0; lia.
Qed.

Lemma usedBytes_claim_all u l m : NoDup (map cr_hash l) → positive m →
  usedBytes u (claim_all u l m) = usedBytes u m + total_length (List.filter (λ c, bool_decide (m !! (u, cr_hash c) = None)) l).
Proof.
  rewrite claim_all_eq. revert m. induction l as [|c l IH]; intros m Hnd Hp; cbn [fold_left List.filter].
  { cbn. lia. }
  cbn [map] in Hnd. apply NoDup_cons in Hnd as [Hc Hnd].
  assert (positive (claim_chunk u m c)) as Hp'.
  { intros k d. unfold claim_chunk. destruct (decide (k = (u, cr_hash c))) as [->|Hne].
    - rewrite lookup_insert_eq. intros [= <-]. destruct (m !! _) as [row|] eqn:E; cbn; [specialize (Hp _ _ E)|]; lia.
    - rewrite lookup_insert_ne by done. apply Hp. }
  rewrite IH, usedBytes_claim by done.
  assert (List.filter (λ d, bool_decide (claim_chunk u m c !! (u, cr_hash d) = None)) l =
          List.filter (λ d, bool_decide (m !! (u, cr_hash d) = None)) l) as ->.
  { apply filter_ext_in. intros d Hd. unfold claim_chunk. rewrite lookup_insert_ne; [done|].
    intros [= E]. apply Hc. rewrite E. apply list_elem_of_fmap. exists d. split; [done|by apply list_elem_of_In]. }
  unfold fresh_bytes. destruct (m !! (u, cr_hash c)) as [row|] eqn:E.
  - rewrite (bool_decide_false (Some row = None)) by done. lia.
  - rewrite bool_decide_true by done. rewrite total_length_cons. lia.
Qed.

Lemma usedBytes_claim_all_other u v l m : u ≠ v → usedBytes u (claim_all v l m) = usedBytes u m.
Proof.
  intros Hne. rewrite claim_all_eq. revert m. induction l as [|c l IH]; intros m; cbn; [done|].
  by rewrite IH, usedBytes_claim_other.
Qed.

Lemma claim_all_sized u l m : NoDup (map cr_hash l) →
  Forall (λ c, 0 < cr_length c <= MAX_CHUNK_BYTES) l → sized m → sized (claim_all u l m).
Proof.
  intros Hnd Hl Hs k c. rewrite claim_all_lookup by done. pose proof (find_chunk u k l) as Hf.
  destruct (List.find _ l) as [r|]; [|apply Hs]. destruct Hf as [-> Hin]. intros [= <-]. unfold claimed.
  destruct (m !! _) as [row|] eqn:E; cbn; [by apply Hs in E|]. by rewrite Forall_forall in Hl; apply Hl.
Qed.

Lemma release_bytes u v hashes w w' orphans : positive (fw_chunks w) → sized (fw_chunks w) →
  releaseHashes v hashes w = (orphans, w') →
  sized (fw_chunks w') ∧ usedBytes u (fw_chunks w') <= usedBytes u (fw_chunks w).
Proof.
  intros Hp Hs E. pose proof (releaseHashes_spec v hashes w Hp) as H. rewrite E in H. destruct H as (_ & Hl & _).
  assert (∀ k c', fw_chunks w' !! k = Some c' → ∃ c, fw_chunks w !! k = Some c ∧ c_sizeBytes c' = c_sizeBytes c
            ∧ counted u k c' <= counted u k c) as Hk.
  { intros k c'. rewrite Hl. intros (c & Hc & Hr)%bind_Some. exists c. split; [done|].
    unfold released in Hr. destruct (among v hashes k); [|by injection Hr as <-].
    destruct (Z.leb_spec (c_refCount c) 1); [done|]. injection Hr as <-. split; [done|].
    unfold counted. cbn. pose proof (Hs _ _ Hc). destruct (String.eqb k.1 u); cbn; [|lia].
    destruct (Z.gtb_spec (Z.max (c_refCount c - 1) 0) 0), (Z.gtb_spec (c_refCount c) 0); lia. }
  split.
  - intros k c' Hc'. destruct (Hk k c' Hc') as (c & Hc & -> & _). by eapply Hs.
  - apply usedBytes_le; [|done]. intros k c' Hc'. destruct (Hk k c' Hc') as (c & ? & _ & ?). by exists c.
Qed.

(** ** Who names a chunk *)

Definition claimants (u h : string) (w : FilesWorld) : gset string :=
  dom (filter (λ kf : string * FileRow, f_userId kf.2 = u ∧ h ∈ map cr_hash (chunk_rows kf.1 w)) (fw_files w)).

Lemma elem_claimants u h w k :
  k ∈ claimants u h w ↔ ∃ f, fw_files w !! k = Some f ∧ f_userId f = u ∧ h ∈ map cr_hash (chunk_rows k w).
Proof.
  unfold claimants. rewrite elem_of_dom. split.
  - intros [f [Hf [? ?]]%map_lookup_filter_Some]. eauto.
  - intros (f & Hf & ? & ?). exists f. by apply map_lookup_filter_Some.
Qed.

Lemma claimants_pos u h w k : k ∈ claimants u h w → 0 < Z.of_nat (size (claimants u h w)).
Proof.
  intros Hk. destruct (decide (size (claimants u h w) = 0%nat)) as [H0|?]; [|lia]. apply size_empty_inv in H0. set_solver.
Qed.

(** The tables of files, chunk lists and chunks are consistent. *)
Record files_ok (w : FilesWorld) : Prop := {
  fo_keyed : ∀ k f, fw_files w !! k = Some f → f_id f = k;
  fo_paths : ∀ i j f g, fw_files w !! i = Some f → fw_files w !! j = Some g →
    f_userId f = f_userId g → f_path f = f_path g → i = j;
  fo_ids : ∀ k, is_Some (fw_files w !! k) → k ∈ fw_ids w;
  fo_lists : ∀ k rows, fw_fileChunks w !! k = Some rows → is_Some (fw_files w !! k);
  fo_positive : positive (fw_chunks w);
  fo_sized : sized (fw_chunks w);
  (** the reference count of a chunk is the number of files that name it *)
  fo_refs : ∀ u h, refs (fw_chunks w) u h = Z.of_nat (size (claimants u h w));
  fo_quota : ∀ u, usedBytes u (fw_chunks w) <= PRO_QUOTA_BYTES
}.

Lemma elem_distinctFileHashes k w h : h ∈ distinctFileHashes k w ↔ h ∈ map cr_hash (chunk_rows k w).
Proof. unfold distinctFileHashes. apply elem_of_remove_dups. Qed.

Lemma size_toggle (C C' : gset string) (k : string) (b : Prop) `{Decision b} :
  (∀ x, x ∈ C' ↔ (x = k ∧ b) ∨ (x ≠ k ∧ x ∈ C)) →
  Z.of_nat (size C') = Z.of_nat (size C) + one_if b - one_if (k ∈ C).
Proof.
  intros Hx. assert (size (C ∖ {[k]}) = (size C - (if decide (k ∈ C) then 1 else 0))%nat) as Hd.
  { destruct (decide (k ∈ C)) as [Hk|Hk]; [rewrite size_difference by set_solver; by rewrite size_singleton|].
    rewrite Nat.sub_0_r. f_equal. set_solver. }
  assert (k ∈ C → 0 < size C)%nat as Hpos.
  { intros Hk. destruct (decide (size C = 0%nat)) as [H0|?]; [|lia]. apply size_empty_inv in H0. set_solver. }
  unfold one_if. destruct (decide b) as [Hb|Hb].
  - assert (C' = {[k]} ∪ (C ∖ {[k]})) as ->.
    { apply set_eq. intros x. rewrite Hx, elem_of_union, elem_of_difference, elem_of_singleton. tauto. }
    rewrite size_union, size_singleton, Hd by set_solver. destruct (decide (k ∈ C)) as [Hk|_]; [specialize (Hpos Hk)|]; lia.
  - assert (C' = C ∖ {[k]}) as ->.
    { apply set_eq. intros x. rewrite Hx, elem_of_difference, elem_of_singleton. tauto. }
    rewrite Hd. destruct (decide (k ∈ C)) as [Hk|_]; [specialize (Hpos Hk)|]; lia.
Qed.

Lemma one_if_ext (P Q : Prop) `{Decision P, Decision Q} : (P ↔ Q) → one_if P = one_if Q.
Proof. intros HPQ. unfold one_if. destruct (decide P), (decide Q); tauto. Qed.

(** One file of [u] gets the chunk list [rows]; [None] removes it. *)
Lemma files_ok_change w w' u k (new : option FileRow) (rows : list ChunkRef) :
  files_ok w → fw_ids w ⊆ fw_ids w' → (is_Some new → k ∈ fw_ids w') →
  fw_files w' = partial_alter (λ _, new) k (fw_files w) →
  fw_fileChunks w' = (match new with Some _ => <[k := rows]> | None => delete k end) (fw_fileChunks w) →
  (∀ f, fw_files w !! k = Some f → f_userId f = u) →
  (∀ f, new = Some f → f_id f = k ∧ f_userId f = u
     ∧ ∀ j g, fw_files w !! j = Some g → f_userId g = u → f_path g = f_path f → j = k) →
  positive (fw_chunks w') → sized (fw_chunks w') → (∀ v, usedBytes v (fw_chunks w') <= PRO_QUOTA_BYTES) →
  (∀ v h, refs (fw_chunks w') v h =
     refs (fw_chunks w) v h + one_if (v = u ∧ is_Some new ∧ h ∈ map cr_hash rows)
     - one_if (v = u ∧ h ∈ distinctFileHashes k w)) →
  files_ok w'.
Proof.
  intros [Hk Hp Hids Hl _ _ Hr _] Hsub Hnid Ef Ec Hu Hnew Hpos Hsz Hq Hrefs. split; try done.
  - intros j f. rewrite Ef. intros [[<- ->]|[Hne Hj]]%lookup_partial_alter_Some; [by apply Hnew|by apply Hk].
  - intros i j f g. rewrite Ef.
    intros [[<- Hi]|[Hni Hi]]%lookup_partial_alter_Some [[<- Hj]|[Hnj Hj]]%lookup_partial_alter_Some Huu Hpp; [done|..].
    + destruct (Hnew f Hi) as (_ & Hfu & Hfp). symmetry. apply (Hfp j g); congruence.
    + destruct (Hnew g Hj) as (_ & Hfu & Hfp). apply (Hfp i f); congruence.
    + by eapply Hp.
  - intros j. rewrite Ef. destruct (decide (j = k)) as [->|Hne]; [by rewrite lookup_partial_alter_eq|].
    rewrite lookup_partial_alter_ne by done. intros Hj. by apply Hsub, Hids.
  - intros j r. rewrite Ef, Ec. destruct new as [f|].
    + intros [[<- _]|[Hne Hj]]%lookup_insert_Some; [by rewrite lookup_partial_alter_eq|].
      rewrite lookup_partial_alter_ne by done. by eapply Hl.
    + intros [Hne Hj]%lookup_delete_Some. rewrite lookup_partial_alter_ne by done. by eapply Hl.
  - intros v h. rewrite Hrefs, Hr.
    assert (∀ j, j ≠ k → chunk_rows j w' = chunk_rows j w) as Hother.
    { intros j Hj. unfold chunk_rows. rewrite Ec. destruct new; [by rewrite lookup_insert_ne|by rewrite lookup_delete_ne]. }
    rewrite (size_toggle (claimants v h w) (claimants v h w') k (v = u ∧ is_Some new ∧ h ∈ map cr_hash rows)).
    + f_equal. apply one_if_ext. rewrite elem_claimants, elem_distinctFileHashes. split.
      * intros [-> Hin]. destruct (fw_files w !! k) as [f|] eqn:E; [eauto|].
        unfold chunk_rows in Hin. destruct (fw_fileChunks w !! k) as [r|] eqn:Er; [|by apply not_elem_of_nil in Hin].
        apply Hl in Er as [? ?]. congruence.
      * intros (f & Hf & <- & Hin). by split; [apply Hu|].
    + intros x. rewrite !elem_claimants, Ef. destruct (decide (x = k)) as [->|Hne].
      * rewrite lookup_partial_alter_eq. unfold chunk_rows. rewrite Ec. split.
        -- intros (f & -> & <- & Hin). rewrite lookup_insert_eq in Hin. left. destruct (Hnew f eq_refl) as (_ & -> & _). eauto.
        -- intros [(_ & -> & [f ->] & Hin)|[? _]]; [|done]. exists f. rewrite lookup_insert_eq.
           destruct (Hnew f eq_refl) as (_ & -> & _). done.
      * rewrite lookup_partial_alter_ne, Hother by done. split; [by right|by intros [[? _]|[_ ?]]].
Qed.

(** ** What the transactions do *)

Definition files_only (w w' : FilesWorld) : Prop :=
  fw_nowMs w' = fw_nowMs w ∧ fw_accounts w' = fw_accounts w ∧ fw_transfers w' = fw_transfers w
  ∧ fw_objects w' = fw_objects w ∧ fw_grants w' = fw_grants w.

Lemma file_at_some u path w f :
  files_ok w → file_at u path w = Some f ↔ fw_files w !! f_id f = Some f ∧ f_userId f = u ∧ f_path f = path.
Proof.
  intros Hok. unfold file_at. split.
  - intros [Hin Hp]%find_some. apply andb_true_iff in Hp as [<-%String.eqb_eq <-%String.eqb_eq].
    apply in_map_iff in Hin as ([k f'] & Hf & Hin). cbn in Hf. subst f'.
    apply list_elem_of_In, elem_of_map_to_list in Hin. by rewrite (fo_keyed _ Hok _ _ Hin).
  - intros (Hf & <- & <-). destruct (List.find _ _) as [g|] eqn:E.
    + apply find_some in E as [Hin Hp]. apply andb_true_iff in Hp as [Hu%String.eqb_eq Hp%String.eqb_eq].
      apply in_map_iff in Hin as ([k g'] & Hg & Hin). cbn in Hg. subst g'.
      apply list_elem_of_In, elem_of_map_to_list in Hin.
      assert (k = f_id f) as -> by (by eapply (fo_paths _ Hok)). congruence.
    + exfalso. assert (In f (table_rows (fw_files w))) as Hin.
      { apply in_map_iff. exists (f_id f, f). split; [done|]. by apply list_elem_of_In, elem_of_map_to_list. }
      apply (find_none _ _ E) in Hin. by rewrite !String.eqb_refl in Hin.
Qed.

Lemma file_at_none u path w : files_ok w → file_at u path w = None →
  ∀ k f, fw_files w !! k = Some f → f_userId f = u → f_path f ≠ path.
Proof.
  intros Hok Hn k f Hf Hu Hp. pose proof (fo_keyed _ Hok _ _ Hf) as Hk. subst k.
  assert (file_at u path w = Some f) by (by apply file_at_some). congruence.
Qed.

Lemma manifest_refs m : manifestSchema m = true → validateManifest m = None →
  Forall (λ c, 0 < cr_length c <= MAX_CHUNK_BYTES) (distinctChunks m).
Proof.
  intros Hs Hv. apply Forall_forall. intros c Hc%distinctChunks_elem.
  apply validateManifest_tiles in Hv as [_ [_ Ht]]. pose proof Hc as Hin. apply list_elem_of_lookup in Hc as [i Hi].
  destruct (Ht i c Hi) as [? _]. split; [|done].
  unfold manifestSchema in Hs. apply andb_true_iff in Hs as [_ Hs]. rewrite forallb_forall in Hs.
  apply list_elem_of_In, Hs in Hin. unfold chunkRefSchema in Hin. bprop. lia.
Qed.

(** The new row of a file, and where it stands. *)
Lemma put_file_ok u path newId ct m w file w1 :
  files_ok w → put_file u path newId ct m (file_at u path w) w = Some (file, w1) →
  w1 = set_files (<[f_id file := file]> (fw_files w)) (set_ids ({[f_id file]} ∪ fw_ids w) w)
  ∧ f_userId file = u ∧ f_path file = path ∧ f_sizeBytes file = mn_totalBytes m ∧ f_fileHash file = mn_fileHash m
  ∧ f_completedAt file = None
  ∧ match file_at u path w with
    | Some f => f_id file = f_id f
    | None => f_id file = newId ∧ newId ∉ fw_ids w ∧ fw_files w !! newId = None ∧ fw_fileChunks w !! newId = None
    end
  ∧ (∀ f, fw_files w !! f_id file = Some f → f_userId f = u)
  ∧ (∀ j g, fw_files w !! j = Some g → f_userId g = u → f_path g = path → j = f_id file).
Proof.
  intros Hok. unfold put_file. destruct (file_at u path w) as [f|] eqn:E.
  - apply file_at_some in E as (Hf & Hu & Hp); [|done]. intros [= <- <-]. cbn.
    assert ({[f_id f]} ∪ fw_ids w = fw_ids w) as ->.
    { assert (f_id f ∈ fw_ids w) by (apply (fo_ids _ Hok); by eexists). set_solver +H. }
    split; [by destruct w|]. repeat split; try done.
    + intros g Hg. congruence.
    + intros j g Hj Hgu Hgp. eapply (fo_paths _ Hok); [exact Hj|exact Hf|congruence..].
  - pose proof (file_at_none _ _ _ Hok E) as Hn. case_bool_decide as Hid; [done|]. case_bool_decide; [|done].
    intros [= <- <-]. cbn.
    assert (fw_files w !! newId = None) as Hfresh.
    { destruct (fw_files w !! newId) eqn:En; [|done]. destruct Hid. apply (fo_ids _ Hok). by eexists. }
    repeat split; try done.
    + destruct (fw_fileChunks w !! newId) eqn:Ec; [|done]. apply (fo_lists _ Hok) in Ec as [? ?]. congruence.
    + intros f Hf. congruence.
    + intros j g Hj Hgu Hgp. exfalso. by eapply Hn.
Qed.

(** The bytes a manifest would add. *)
Definition new_bytes (u : string) (m : Manifest) (w : FilesWorld) : Z :=
  newBytes m (λ h, bool_decide (is_Some (fw_chunks w !! (u, h)))).

Lemma claimed_bytes u w m : positive (fw_chunks w) →
  usedBytes u (claim_all u (distinctChunks m) (fw_chunks w)) = usedBytes u (fw_chunks w) + new_bytes u m w.
Proof.
  intros Hp. rewrite usedBytes_claim_all by (done || apply distinctChunks_spec). unfold new_bytes, newBytes, missingChunkRefs.
  do 2 f_equal. apply filter_ext_in. intros c _. rewrite <- bool_decide_not. apply bool_decide_ext. apply eq_None_not_Some.
Qed.

Lemma quota_fits u w m : positive (fw_chunks w) →
  qv_allowed (checkQuota (quotaState u w) (total_length (List.filter
    (λ c, negb (bool_decide (cr_hash c ∈ map fst (ownedChunks u (map cr_hash (distinctChunks m)) w)))) (distinctChunks m)))) = true →
  usedBytes u (claim_all u (distinctChunks m) (fw_chunks w)) <= PRO_QUOTA_BYTES.
Proof.
  intros Hp Hq. destruct (distinctChunks_spec m) as [Hnd _]. rewrite usedBytes_claim_all by done.
  unfold checkQuota, quotaState in Hq. cbn in Hq. bprop.
  assert (List.filter (λ c, bool_decide (fw_chunks w !! (u, cr_hash c) = None)) (distinctChunks m) =
    List.filter (λ c, negb (bool_decide (cr_hash c ∈ map fst (ownedChunks u (map cr_hash (distinctChunks m)) w)))) (distinctChunks m)) as ->; [|lia].
  apply filter_ext_in. intros c Hc. rewrite <- bool_decide_not. apply bool_decide_ext.
  rewrite elem_ownedHashes, eq_None_not_Some. split; [tauto|]. intros Hn Hs. apply Hn. split; [|done].
  apply list_elem_of_fmap. exists c. split; [done|by apply list_elem_of_In].
Qed.

(** What a manifest that was accepted left behind. *)
Record manifest_done (u path : string) (m : Manifest) (w : FilesWorld) (file : FileRow) (orphans : list string)
    (missing : list ChunkRef) (w' : FilesWorld) : Prop := {
  md_file : fw_files w' = <[f_id file := file]> (fw_files w);
  md_row : f_userId file = u ∧ f_path file = path ∧ f_sizeBytes file = mn_totalBytes m
    ∧ f_fileHash file = mn_fileHash m ∧ f_completedAt file = None;
  md_id : match file_at u path w with Some f => f_id file = f_id f | None => f_id file ∉ fw_ids w end;
  md_ids : fw_ids w' = {[f_id file]} ∪ fw_ids w;
  md_owner : ∀ f, fw_files w !! f_id file = Some f → f_userId f = u;
  md_list : fw_fileChunks w' = <[f_id file := mn_chunks m]> (fw_fileChunks w);
  (** every row of the table is an old row or of a new chunk, not yet stored *)
  md_chunks : ∀ k c', fw_chunks w' !! k = Some c' →
    (∃ c, fw_chunks w !! k = Some c ∧ c_sizeBytes c' = c_sizeBytes c ∧ c_storedAt c' = c_storedAt c)
    ∨ (∃ r, fw_chunks w !! k = None ∧ k = (u, cr_hash r) ∧ r ∈ mn_chunks m ∧ c_sizeBytes c' = cr_length r ∧ c_storedAt c' = None);
  md_others : ∀ v h, v ≠ u → fw_chunks w' !! (v, h) = fw_chunks w !! (v, h);
  md_orphans : ∀ h, h ∈ orphans → fw_chunks w' !! (u, h) = None;
  md_missing : ∀ r, r ∈ missing ↔ r ∈ distinctChunks m
    ∧ ∃ c, fw_chunks w' !! (u, cr_hash r) = Some c ∧ c_storedAt c = None;
  md_known : ∀ h, h ∈ map cr_hash (mn_chunks m) → is_Some (fw_chunks w' !! (u, h));
  md_used : usedBytes u (fw_chunks w') <= usedBytes u (fw_chunks w) + new_bytes u m w
}.

Lemma distinct_old k w : NoDup (distinctFileHashes k w).
Proof. unfold distinctFileHashes. apply NoDup_remove_dups. Qed.

(** The references and bytes after the claims of a manifest and the release
    of what the file named before. *)
Lemma manifest_chunks u k m w w3 orphans w4 :
  files_ok w → (∀ f, fw_files w !! k = Some f → f_userId f = u) →
  Forall (λ c, 0 < cr_length c <= MAX_CHUNK_BYTES) (distinctChunks m) →
  usedBytes u (claim_all u (distinctChunks m) (fw_chunks w)) <= PRO_QUOTA_BYTES →
  fw_chunks w3 = claim_all u (distinctChunks m) (fw_chunks w) →
  releaseHashes u (distinctFileHashes k w) w3 = (orphans, w4) →
  positive (fw_chunks w4) ∧ sized (fw_chunks w4) ∧ (∀ v, usedBytes v (fw_chunks w4) <= PRO_QUOTA_BYTES)
  ∧ ∀ v h, refs (fw_chunks w4) v h =
     refs (fw_chunks w) v h + one_if (v = u ∧ h ∈ map cr_hash (mn_chunks m)) - one_if (v = u ∧ h ∈ distinctFileHashes k w).
Proof.
  intros Hok Hu Hl Hq E3 E4. destruct (distinctChunks_spec m) as (Hnd & Hsame).
  assert (positive (fw_chunks w3)) as Hp3 by (rewrite E3; by apply claim_all_positive, fo_positive).
  assert (sized (fw_chunks w3)) as Hs3 by (rewrite E3; by apply claim_all_sized; [| |apply fo_sized]).
  assert (∀ v h, refs (fw_chunks w3) v h = refs (fw_chunks w) v h + one_if (v = u ∧ h ∈ map cr_hash (mn_chunks m))) as Hr3.
  { intros v h. rewrite E3, claim_all_refs by done. f_equal. apply one_if_ext. by rewrite Hsame. }
  assert (∀ h, h ∈ distinctFileHashes k w → 0 < refs (fw_chunks w) u h) as Hold.
  { intros h Hh. rewrite (fo_refs _ Hok). rewrite elem_distinctFileHashes in Hh.
    assert (k ∈ claimants u h w) as Hc.
    { apply elem_claimants. destruct (fw_files w !! k) as [f|] eqn:E; [by eauto|].
      unfold chunk_rows in Hh. destruct (fw_fileChunks w !! k) eqn:Er; [|by apply not_elem_of_nil in Hh].
      apply (fo_lists _ Hok) in Er as [? ?]. congruence. }
    by apply claimants_pos in Hc. }
  destruct (release_refs u (distinctFileHashes k w) w3 w4 orphans) as [Hp4 Hr4]; [apply distinct_old|done| |done|].
  { intros h Hh. rewrite Hr3. specialize (Hold h Hh). unfold one_if. destruct (decide _); lia. }
  split; [done|]. split; [apply (release_bytes u _ _ _ _ _ Hp3 Hs3 E4)|]. split.
  - intros v. etrans; [apply (release_bytes v _ _ _ _ _ Hp3 Hs3 E4)|]. rewrite E3. destruct (decide (v = u)) as [->|Hne]; [done|].
    rewrite usedBytes_claim_all_other by done. by apply fo_quota.
  - intros v h. by rewrite Hr4, Hr3.
Qed.

(** Replacing detaches the old list; a new file has none. *)
Lemma manifest_detach u path newId w file w1 :
  match file_at u path w with
  | Some f => f_id file = f_id f
  | None => f_id file = newId ∧ newId ∉ fw_ids w ∧ fw_files w !! newId = None ∧ fw_fileChunks w !! newId = None
  end →
  w1 = set_files (<[f_id file := file]> (fw_files w)) (set_ids ({[f_id file]} ∪ fw_ids w) w) →
  match file_at u path w with Some f => detachFileChunks (f_id f) w1 | None => ([], w1) end =
  (distinctFileHashes (f_id file) w, set_fileChunks (delete (f_id file) (fw_fileChunks w)) w1).
Proof.
  intros Hid ->. destruct (file_at u path w) as [f|]; [by rewrite <- Hid|].
  destruct Hid as (-> & _ & _ & Hc). unfold distinctFileHashes, chunk_rows. cbn. rewrite Hc, delete_id by done. by destruct w.
Qed.

Lemma manifest_attach u k m w1 :
  attachChunks u k m (set_fileChunks (delete k (fw_fileChunks w1)) w1) =
  Some (set_fileChunks (<[k := mn_chunks m]> (fw_fileChunks w1))
          (set_chunks (claim_all u (distinctChunks m) (fw_chunks w1)) w1)).
Proof.
  unfold attachChunks. cbn. unfold chunk_rows. cbn. rewrite lookup_delete_eq. cbn. rewrite insert_delete_eq.
  by destruct (mn_chunks m).
Qed.

Lemma manifest_rows u m w w3 hashes orphans w4 : positive (fw_chunks w) →
  fw_chunks w3 = claim_all u (distinctChunks m) (fw_chunks w) →
  releaseHashes u hashes w3 = (orphans, w4) →
  (∀ k c', fw_chunks w4 !! k = Some c' →
    (∃ c, fw_chunks w !! k = Some c ∧ c_sizeBytes c' = c_sizeBytes c ∧ c_storedAt c' = c_storedAt c)
    ∨ (∃ r, fw_chunks w !! k = None ∧ k = (u, cr_hash r) ∧ r ∈ mn_chunks m ∧ c_sizeBytes c' = cr_length r ∧ c_storedAt c' = None))
  ∧ (∀ v h, v ≠ u → fw_chunks w4 !! (v, h) = fw_chunks w !! (v, h))
  ∧ (∀ h, h ∈ orphans → fw_chunks w4 !! (u, h) = None).
Proof.
  intros Hp E3 E4. destruct (distinctChunks_spec m) as (Hnd & _).
  assert (positive (fw_chunks w3)) as Hp3 by (rewrite E3; by apply claim_all_positive).
  pose proof (releaseHashes_spec u hashes w3 Hp3) as Hr. rewrite E4 in Hr. destruct Hr as (_ & Hl & Ho). split; [|split].
  - intros k c'. rewrite Hl, E3, claim_all_lookup by done. pose proof (find_chunk u k (distinctChunks m)) as Hf.
    intros (c & Hc & Hrel)%bind_Some.
    assert (c_sizeBytes c' = c_sizeBytes c ∧ c_storedAt c' = c_storedAt c) as [-> ->].
    { unfold released in Hrel. destruct (among u hashes k); [|by injection Hrel as <-].
      destruct (_ <=? _); [done|by injection Hrel as <-]. }
    destruct (List.find _ _) as [r|]; [|left; eauto]. destruct Hf as [-> Hin%distinctChunks_elem]. injection Hc as <-.
    destruct (fw_chunks w !! (u, cr_hash r)) as [row|]; [left; eauto|right; by exists r].
  - intros v h Hne. rewrite Hl, E3, claim_all_lookup by done. pose proof (find_chunk u (v, h) (distinctChunks m)) as Hf.
    destruct (List.find _ _) as [r|]; [by destruct Hf as [[= ? _] _]|].
    destruct (fw_chunks w !! (v, h)); [|done]. cbn. unfold released, among. cbn. by rewrite (proj2 (String.eqb_neq _ _) Hne).
  - intros h Hh. apply Ho in Hh as (Hin & c & Hc & H1). rewrite Hl, Hc. cbn. unfold released, among. cbn.
    rewrite String.eqb_refl, bool_decide_true by done. cbn. by rewrite H1.
Qed.

Lemma elem_stored u hashes w h :
  h ∈ map fst (List.filter (λ row : string * ChunkRow, bool_decide (is_Some (c_storedAt row.2))) (ownedChunks u hashes w)) ↔
  h ∈ hashes ∧ ∃ c, fw_chunks w !! (u, h) = Some c ∧ is_Some (c_storedAt c).
Proof.
  rewrite list_elem_of_fmap. split.
  - intros ([h' c] & -> & [Hin Hs%bool_decide_eq_true]%In_filter_iff). apply elem_ownedChunks in Hin as [? ?]. eauto.
  - intros (Hin & c & Hc & Hs). exists (h, c). split; [done|]. apply In_filter_iff.
    rewrite elem_ownedChunks. split; [done|]. by apply bool_decide_eq_true.
Qed.

Lemma elem_missing m has r : r ∈ missingChunkRefs m has ↔ r ∈ distinctChunks m ∧ has (cr_hash r) = false.
Proof. unfold missingChunkRefs. by rewrite In_filter_iff, negb_true_iff. Qed.

Lemma refs_pos m u h : positive m → 0 < refs m u h ↔ is_Some (m !! (u, h)).
Proof.
  intros Hp. unfold refs. destruct (m !! (u, h)) as [c|] eqn:E; [specialize (Hp _ _ E)|].
  - split; [by eexists|done].
  - split; [lia|by intros [? ?]].
Qed.

Lemma manifest_tx_ok u path ct m newId w o w' :
  files_ok w → manifestSchema m = true → validateManifest m = None →
  manifest_tx u path ct m newId w = Some (o, w') →
  files_ok w' ∧ files_only w w'
  ∧ match o with
    | MoQuota _ _ => w' = w
    | MoOk file _ orphans created missing =>
        manifest_done u path m w file orphans missing w' ∧ created = bool_decide (file_at u path w = None)
    end.
Proof.
  intros Hok Hs Hv. unfold manifest_tx. destruct (qv_allowed _) eqn:Eq; cbn [negb]; [|by intros [= <- <-]].
  apply quota_fits in Eq; [|by apply fo_positive].
  destruct (put_file _ _ _ _ _ _ _) as [[file w1]|] eqn:Ep; [|done].
  apply put_file_ok in Ep as (Ew1 & Hu & Hp & Hsz & Hfh & Hc & Hid & Hown & Hpath); [|done].
  rewrite (manifest_detach _ _ _ _ _ _ Hid Ew1). subst w1.
  change (fw_fileChunks w) with (fw_fileChunks (set_files (<[f_id file:=file]> (fw_files w)) (set_ids ({[f_id file]} ∪ fw_ids w) w))) at 1.
  rewrite manifest_attach. cbn [set_files fw_fileChunks fw_chunks].
  set (w3 := set_fileChunks _ _). destruct (releaseHashes u (distinctFileHashes (f_id file) w) w3) as [orphans w4] eqn:E4.
  intros [= <- <-].
  assert (fw_chunks w3 = claim_all u (distinctChunks m) (fw_chunks w)) as E3 by done.
  pose proof (manifest_refs m Hs Hv) as Hl.
  destruct (manifest_chunks u (f_id file) m w w3 orphans w4 Hok Hown Hl Eq E3 E4) as (Hp4 & Hs4 & Hq4 & Hr4).
  destruct (manifest_rows u m w w3 _ orphans w4 (fo_positive _ Hok) E3 E4) as (Hrow & Hother & Horph).
  assert (w4 = set_chunks (fw_chunks w4) w3) as Ew4.
  { assert (positive (fw_chunks w3)) as Hp3 by (rewrite E3; by apply claim_all_positive; [apply distinctChunks_spec|apply fo_positive]).
    pose proof (releaseHashes_spec u (distinctFileHashes (f_id file) w) w3 Hp3) as Hr. rewrite E4 in Hr. apply Hr. }
  assert (files_ok w4) as Hok4.
  { eapply (files_ok_change w w4 u (f_id file) (Some file) (mn_chunks m)); try done.
    - rewrite Ew4. apply union_subseteq_r.
    - intros _. rewrite Ew4. apply elem_of_union_l. by apply elem_of_singleton.
    - by rewrite Ew4.
    - by rewrite Ew4.
    - intros f [= <-]. repeat split; try done. intros j g Hj Hgu Hgp. apply (Hpath j g); congruence.
    - intros v h. rewrite Hr4. f_equal. f_equal. apply one_if_ext. split; [intros [? ?]; split; [done|]; by split; [eexists|]|by intros (? & _ & ?)]. }
  assert (∀ h, h ∈ map cr_hash (mn_chunks m) → is_Some (fw_chunks w4 !! (u, h))) as Hknown.
  { intros h Hh. apply refs_pos; [done|]. rewrite (fo_refs _ Hok4).
    apply (claimants_pos _ _ _ (f_id file)), elem_claimants. exists file.
    rewrite Ew4. cbn. unfold chunk_rows. cbn. by rewrite !lookup_insert_eq. }
  split; [done|]. split; [by rewrite Ew4|]. split; [|done]. split; try done.
  - by rewrite Ew4.
  - destruct (file_at u path w); [done|]. by destruct Hid as (-> & ? & _).
  - by rewrite Ew4.
  - by rewrite Ew4.
  - intros r. rewrite elem_missing, bool_decide_eq_false, elem_stored. split; intros [Hr Hn]; (split; [done|]).
    + assert (cr_hash r ∈ map cr_hash (distinctChunks m)) as Hh by (apply list_elem_of_fmap; by exists r).
      destruct (Hknown (cr_hash r)) as [c Hcr]; [by apply distinctChunks_spec|]. exists c. split; [done|].
      destruct (c_storedAt c) eqn:Ec; [|done]. exfalso. apply Hn. split; [done|]. exists c. rewrite Ec. eauto.
    + destruct Hn as (c & Hcr & Hnone). intros (_ & c' & Hc' & Hsome). rewrite Hcr in Hc'. injection Hc' as <-.
      rewrite Hnone in Hsome. by apply is_Some_None in Hsome.
  - rewrite <- claimed_bytes, <- E3 by apply (fo_positive _ Hok). apply (release_bytes u u (distinctFileHashes (f_id file) w) w3 w4 orphans); [..|done].
    + rewrite E3. by apply claim_all_positive; [apply distinctChunks_spec|apply fo_positive].
    + rewrite E3. by apply claim_all_sized; [apply distinctChunks_spec| |apply fo_sized].
Qed.
