(* ===== verification/FilesSafety.v ===== *)
(** * The routes of the Files API keep their tables consistent

    The invariant of the tables, what never goes backwards, and one lemma per
    route: whatever other requests do between its awaits, a route keeps both. *)

From stdpp Require Import relations.
From S2P Require Export FilesInv.
From Stdlib Require Import Ascii.

(** ** Deleting *)

Record delete_done (u k : string) (w : FilesWorld) (file : FileRow) (orphans : list string) (w' : FilesWorld) : Prop := {
  dd_file : fw_files w !! k = Some file ∧ f_userId file = u;
  dd_files : fw_files w' = delete k (fw_files w);
  dd_ids : fw_ids w' = fw_ids w;
  dd_lists : fw_fileChunks w' = delete k (fw_fileChunks w);
  dd_chunks : ∀ key c', fw_chunks w' !! key = Some c' →
    ∃ c, fw_chunks w !! key = Some c ∧ c_sizeBytes c' = c_sizeBytes c ∧ c_storedAt c' = c_storedAt c;
  dd_others : ∀ v h, v ≠ u → fw_chunks w' !! (v, h) = fw_chunks w !! (v, h);
  (** exactly the chunks no other file of the account names are gone *)
  dd_orphans : ∀ h, h ∈ orphans ↔ is_Some (fw_chunks w !! (u, h)) ∧ fw_chunks w' !! (u, h) = None;
  dd_claims : ∀ h, h ∈ orphans ↔ claimants u h w = {[k]}
}.

Lemma claimed_refs k f w h : files_ok w → fw_files w !! k = Some f → h ∈ distinctFileHashes k w →
  k ∈ claimants (f_userId f) h w.
Proof. intros Hok Hf Hh. apply elem_claimants. rewrite elem_distinctFileHashes in Hh. eauto. Qed.

Lemma delete_tx_ok u k w : files_ok w →
  let '(o, w') := delete_tx u k w in
  files_ok w' ∧ files_only w w'
  ∧ match o with None => w' = w | Some (file, orphans) => delete_done u k w file orphans w' end.
Proof.
  intros Hok. unfold delete_tx, ownedFile. destruct (fw_files w !! k) as [file|] eqn:Ef; [|by split; [|split]].
  destruct (String.eqb_spec (f_userId file) u) as [Hu|Hu]; [|by split; [|split]].
  rewrite (fo_keyed _ Hok _ _ Ef). unfold detachFileChunks.
  set (w1 := set_fileChunks _ w). destruct (releaseHashes u (distinctFileHashes k w) w1) as [orphans w2] eqn:E2.
  assert (∀ h, h ∈ distinctFileHashes k w → 0 < refs (fw_chunks w1) u h) as Hold.
  { intros h Hh. change (fw_chunks w1) with (fw_chunks w). rewrite (fo_refs _ Hok), <- Hu.
    by eapply claimants_pos, claimed_refs. }
  destruct (release_refs u _ w1 w2 orphans (distinct_old k w) (fo_positive _ Hok) Hold E2) as [Hp2 Hr2].
  destruct (release_bytes u u _ w1 w2 orphans (fo_positive _ Hok) (fo_sized _ Hok) E2) as [Hs2 _].
  pose proof (releaseHashes_spec u (distinctFileHashes k w) w1 (fo_positive _ Hok)) as Hspec. rewrite E2 in Hspec.
  destruct Hspec as (Ew2 & Hl & Ho). set (w' := set_files _ w2).
  assert (files_ok w') as Hok'.
  { eapply (files_ok_change w w' u k None []); try done.
    - unfold w'. by rewrite Ew2.
    - unfold w'. cbn. by rewrite Ew2.
    - unfold w'. cbn. by rewrite Ew2.
    - intros f Hf. congruence.
    - intros v. unfold w'. cbn. etrans; [apply (release_bytes v u _ w1 w2 orphans (fo_positive _ Hok) (fo_sized _ Hok) E2)|].
      apply (fo_quota _ Hok).
    - intros v h. unfold w'. cbn. rewrite Hr2. change (fw_chunks w1) with (fw_chunks w).
      unfold one_if at 2. rewrite decide_False by (intros (_ & ?%is_Some_None & _); done). lia. }
  split; [done|]. split; [unfold w'; by rewrite Ew2|].
  assert (∀ h, h ∈ orphans ↔ claimants u h w = {[k]}) as Hclaims.
  { intros h. rewrite Ho. change (fw_chunks w1) with (fw_chunks w). split.
    - intros (Hin & c & Hc & H1). pose proof (fo_refs _ Hok u h) as Hr. unfold refs in Hr. rewrite Hc, H1 in Hr.
      assert (size (claimants u h w) = 1%nat) as Hsz by lia. apply size_1_elem_of in Hsz as [x Hx].
      pose proof (claimed_refs k file w h Hok Ef Hin) as Hk. rewrite Hu, Hx in Hk.
      apply elem_of_singleton in Hk as ->. by apply leibniz_equiv.
    - intros Hc. assert (k ∈ claimants u h w) as Hk by (rewrite Hc; by apply elem_of_singleton). apply elem_claimants in Hk as (f & Hf & _ & Hin).
      split; [by apply elem_distinctFileHashes|]. pose proof (fo_refs _ Hok u h) as Hr.
      rewrite Hc, size_singleton in Hr. unfold refs in Hr. destruct (fw_chunks w !! (u, h)) as [c|]; [|done]. eauto. }
  split; try done; unfold w'; cbn.
  - by rewrite Ew2.
  - by rewrite Ew2.
  - by rewrite Ew2.
  - intros key c'. rewrite Hl. intros (c & Hc & Hrel)%bind_Some. exists c. split; [done|].
    unfold released in Hrel. destruct (among _ _ _); [|by injection Hrel as <-].
    destruct (_ <=? _); [done|by injection Hrel as <-].
  - intros v h Hne. rewrite Hl. change (fw_chunks w1) with (fw_chunks w). destruct (fw_chunks w !! (v, h)); [|done]. cbn.
    unfold released, among. cbn. by rewrite (proj2 (String.eqb_neq _ _) Hne).
  - intros h. rewrite Ho, Hl. change (fw_chunks w1) with (fw_chunks w).
    destruct (fw_chunks w !! (u, h)) as [c|] eqn:Ec; cbn; [|split; [by intros (_ & ? & ? & _)|by intros [[? ?] _]]].
    unfold released, among. cbn. rewrite String.eqb_refl. cbn. case_bool_decide as Hin; cbn.
    + pose proof (fo_positive _ Hok _ _ Ec). destruct (Z.leb_spec (c_refCount c) 1); split; [by eauto|intros _|intros (_ & ? & [= <-] & ?); lia|by intros [_ ?]].
      split; [done|]. exists c. split; [done|lia].
    + split; [by intros [? _]|by intros [_ ?]].
Qed.

(** ** Rows of a table that satisfy a test *)

Definition count_rows {A} (p : A → bool) (m : gmap string A) : Z := Z.of_nat (length (List.filter p (table_rows m))).
Definition unit_if (b : bool) : Z := if b then 1 else 0.

Lemma count_rows_insert {A} (p : A → bool) m k a : m !! k = None →
  count_rows p (<[k := a]> m) = count_rows p m + unit_if (p a).
Proof.
  intros Hk. unfold count_rows, table_rows, unit_if.
  assert (map snd (map_to_list (<[k := a]> m)) ≡ₚ a :: map snd (map_to_list m)) as Hp
    by (by rewrite map_to_list_insert).
  assert (length (List.filter p (map snd (map_to_list (<[k := a]> m)))) = length (List.filter p (a :: map snd (map_to_list m)))) as ->.
  { clear Hk. revert Hp. generalize (map snd (map_to_list (<[k := a]> m))) (a :: map snd (map_to_list m)).
    induction 1; cbn; repeat destruct (p _); cbn; lia. }
  cbn. destruct (p a); cbn; lia.
Qed.

Lemma count_rows_replace {A} (p : A → bool) m k a b : m !! k = Some a →
  count_rows p (<[k := b]> m) = count_rows p m + unit_if (p b) - unit_if (p a).
Proof.
  intros Hk. rewrite <- insert_delete_eq, count_rows_insert by apply lookup_delete_eq.
  rewrite <- (insert_delete_id m k a) at 2 by done. rewrite count_rows_insert by apply lookup_delete_eq. lia.
Qed.

Definition is_active (u : string) (t : TransferRow) : bool :=
  String.eqb (t_userId t) u && bool_decide (t_state t ∈ ACTIVE_TRANSFER_STATES).

Lemma active_count u w : active_transfers u w = count_rows (is_active u) (fw_transfers w).
Proof. done. Qed.

Section Safety.
Context `{UrlParser} `{UrlTextLaws}.
Context (collate : relation string) `{!RelDecision collate}.

(** ** The invariant *)

Record transfer_ok (k : string) (t : TransferRow) : Prop := {
  tk_key : t_id t = k;
  tk_received : 0 <= t_receivedBytes t;
  tk_total : t_totalBytes t > 0 → t_receivedBytes t <= t_totalBytes t;
  (** the link of a transfer that ended lost its query *)
  tk_plain : isTerminalTransfer (t_state t) = true → no_query (t_url t)
}.

Record files_inv (w : FilesWorld) : Prop := {
  fv_files : files_ok w;
  fv_transfers : ∀ k t, fw_transfers w !! k = Some t → transfer_ok k t;
  fv_active : ∀ u, active_transfers u w <= maxActiveTransfers;
  (** what may be uploaded, and so what is in the bucket, is one chunk long *)
  fv_grants : ∀ key n, (key, n) ∈ fw_grants w → 0 < n <= MAX_CHUNK_BYTES;
  fv_objects : ∀ key n, fw_objects w !! key = Some n → (key, n) ∈ fw_grants w
}.

(** ** What never goes backwards *)

Definition move (s s' : TransferState) : Prop := canTransferTransition s s' = true.

Record transfer_le (t t' : TransferRow) : Prop := {
  tl_same : t_id t' = t_id t ∧ t_userId t' = t_userId t ∧ t_destPath t' = t_destPath t
    ∧ t_originDeviceId t' = t_originDeviceId t ∧ t_startedAt t' = t_startedAt t;
  tl_moves : rtc move (t_state t) (t_state t');
  tl_final : isTerminalTransfer (t_state t) = true → t' = t
}.

#[export] Instance transfer_le_pre : PreOrder transfer_le.
Proof.
  split; [by intros t; split; [|apply rtc_refl|]|].
  intros t1 t2 t3 [(?&?&?&?&?) M1 F1] [(?&?&?&?&?) M2 F2]. split; [repeat split; congruence|by etrans|].
  intros Ht. pose proof (F1 Ht) as ->. by apply F2.
Qed.

Record files_le (w w' : FilesWorld) : Prop := {
  vl_now : fw_nowMs w <= fw_nowMs w';
  vl_accounts : fw_accounts w' = fw_accounts w;
  vl_transfers : table_le transfer_le (fw_transfers w) (fw_transfers w');
  vl_grants : fw_grants w ⊆ fw_grants w';
  vl_ids : fw_ids w ⊆ fw_ids w';
  (** the row of a file keeps its owner and path; a deleted row is not re-created *)
  vl_files : ∀ k f', fw_files w' !! k = Some f' → k ∈ fw_ids w →
    ∃ f, fw_files w !! k = Some f ∧ f_userId f' = f_userId f ∧ f_path f' = f_path f
}.

#[export] Instance files_le_pre : PreOrder files_le.
Proof.
  split; [by intros w; split; [lia| |reflexivity| | |eauto]|].
  intros w1 w2 w3 [] []; split; [lia|congruence|by etrans|by etrans|by etrans|].
  intros k f3 Hf3 Hk. destruct (vl_files1 k f3 Hf3) as (f2 & Hf2 & -> & ->); [by apply vl_ids0|]. by apply vl_files0.
Qed.

Definition onwards (w w' : FilesWorld) : Prop := files_inv w' ∧ files_le w w'.

(** A change of files, chunk lists and chunks only. *)
Lemma onwards_files w w' : files_inv w → files_ok w' → files_only w w' → fw_ids w ⊆ fw_ids w' →
  (∀ k f', fw_files w' !! k = Some f' → k ∈ fw_ids w →
     ∃ f, fw_files w !! k = Some f ∧ f_userId f' = f_userId f ∧ f_path f' = f_path f) → onwards w w'.
Proof.
  intros [Hf Ht Ha Hg Ho] Hok (En & Ea & Et & Eo & Eg) Hids Hfs. split; split; try done.
  - by rewrite Et.
  - intros u. unfold active_transfers. rewrite Et. apply Ha.
  - by rewrite Eg.
  - by rewrite Eo, Eg.
  - lia.
  - by rewrite Et.
  - by rewrite Eg.
Qed.

Lemma files_ok_same w w' : fw_files w' = fw_files w → fw_fileChunks w' = fw_fileChunks w → fw_chunks w' = fw_chunks w →
  fw_ids w' = fw_ids w → files_ok w → files_ok w'.
Proof.
  intros Ef El Ec Ei Hok. assert (∀ u h, claimants u h w' = claimants u h w) as Hc.
  { intros u h. unfold claimants, chunk_rows. by rewrite Ef, El. }
  destruct Hok. split; rewrite ?Ef, ?El, ?Ec, ?Ei; try done. intros u h. by rewrite Hc.
Qed.

Lemma onwards_audit w l : files_inv w → onwards w (set_entries l w).
Proof. intros Hi. apply onwards_files; [done|by apply (files_ok_same w); [..|apply Hi]|done|done|cbn; eauto]. Qed.

Lemma onwards_objects w key : files_inv w → onwards w (set_objects (delete key (fw_objects w)) w).
Proof.
  intros [Hf Ht Ha Hg Ho]. split; [split; cbn; try done|by split; try done; cbn; eauto].
  - by apply (files_ok_same w).
  - intros k n [_ Hk]%lookup_delete_Some. by apply Ho.
Qed.

Lemma onwards_grant w key n : files_inv w → 0 < n <= MAX_CHUNK_BYTES → onwards w (set_grants ((key, n) :: fw_grants w) w).
Proof.
  intros [Hf Ht Ha Hg Ho] Hn. split; [split; try done|split; [done|done|done| |done|cbn; eauto]]; cbn.
  - by apply (files_ok_same w).
  - intros k m [[= -> ->]|Hin]%elem_of_cons; [done|by eapply Hg].
  - intros k m Hk. right. by apply Ho.
  - intros x Hx. by right.
Qed.

(** A transfer is replaced by one it may become, or added. *)
Lemma onwards_transfer w k t' :
  files_inv w → transfer_ok k t' →
  (∀ u, match fw_transfers w !! k with
        | Some t => unit_if (is_active u t') <= unit_if (is_active u t)
        | None => active_transfers u w + unit_if (is_active u t') <= maxActiveTransfers
        end) →
  (∀ t, fw_transfers w !! k = Some t → transfer_le t t') →
  onwards w (set_transfers (<[k := t']> (fw_transfers w)) w).
Proof.
  intros [Hf Ht Ha Hg Ho] Hok Hact Hle. split; [split|split]; cbn; try done; try by eauto.
  - by apply (files_ok_same w).
  - intros j t [[<- <-]|[_ Hj]]%lookup_insert_Some; [done|by apply Ht].
  - intros u. rewrite active_count. cbn. specialize (Hact u). specialize (Ha u). rewrite active_count in *.
    destruct (fw_transfers w !! k) as [t|] eqn:E; [rewrite (count_rows_replace _ _ _ _ _ E)|rewrite count_rows_insert by done]; lia.
  - by apply table_le_insert; [apply _|].
Qed.

(** ** What a request may touch *)

(** Only the rows, lists, objects and grants of account [u] change. *)
Record touches (u : string) (w w' : FilesWorld) : Prop := {
  tu_files : ∀ k f, f_userId f ≠ u → fw_files w !! k = Some f ↔ fw_files w' !! k = Some f;
  tu_lists : ∀ k f, f_userId f ≠ u → fw_files w !! k = Some f → fw_fileChunks w' !! k = fw_fileChunks w !! k;
  tu_chunks : ∀ v h, v ≠ u → fw_chunks w' !! (v, h) = fw_chunks w !! (v, h);
  tu_transfers : ∀ k t, t_userId t ≠ u → fw_transfers w !! k = Some t ↔ fw_transfers w' !! k = Some t;
  tu_objects : ∀ key, (∀ h, key ≠ chunkObjectKey u h) → fw_objects w' !! key = fw_objects w !! key;
  tu_grants : ∀ key n, (key, n) ∈ fw_grants w' → (key, n) ∈ fw_grants w ∨ ∃ h, key = chunkObjectKey u h;
  tu_audit : ∃ l, fw_audit w' = fw_audit w ++ l ∧ Forall (λ e, ae_userId e = u) l
}.

Lemma touches_refl u w : touches u w w.
Proof. split; try done; [by left|]. exists []. by rewrite app_nil_r. Qed.

Definition mine (u : string) (own : Pieces (World := FilesWorld)) : Prop := ∀ w1 w2, (w1, w2) ∈ own → touches u w1 w2.

Lemma mine_snoc u own w1 w2 : mine u own → touches u w1 w2 → mine u (own ++ [(w1, w2)]).
Proof. intros Hm Ht a b [Hab|Hab]%elem_of_app; [by apply Hm|]. by apply list_elem_of_singleton in Hab as [= -> ->]. Qed.

(** From world [w], a handler of account [u] keeps the invariant, moves
    forward, touches only what is [u]'s, and its result satisfies [P]. *)
Definition fsafe {A} (u : string) (t : FilesHandler A) (w : FilesWorld) (P : A → FilesWorld → Prop) : Prop :=
  ∀ own, mine u own → tsafe files_inv files_le t own w (λ own' a w', mine u own' ∧ P a w').

Section Rules.
Context {A : Type} (u : string).
Implicit Types (w : FilesWorld) (P : A → FilesWorld → Prop).

Lemma fsafe_ret (a : A) w P : P a w → fsafe u (mret a) w P.
Proof. intros Hx own Hm. by split. Qed.

Lemma fsafe_raise w P : fsafe u (Raise : FilesHandler A) w P.
Proof. done. Qed.

Lemma fsafe_bind {B} (t : FilesHandler B) (f : B → FilesHandler A) w P :
  fsafe u t w (λ b w', fsafe u (f b) w' P) → fsafe u (t ≫= f) w P.
Proof.
  intros Hx own Hm. apply tsafe_bind. eapply tsafe_mono; [apply _| |by apply Hx].
  intros own' b w' _ [Hm' Hf]. by apply Hf.
Qed.

Lemma fsafe_mono (t : FilesHandler A) w P P' :
  (∀ a w', files_le w w' → P a w' → P' a w') → fsafe u t w P → fsafe u t w P'.
Proof.
  intros HP Hx own Hm. eapply tsafe_mono; [apply _| |by apply Hx]. intros own' a w' Hle [? ?]. split; [done|by apply HP].
Qed.

Lemma fsafe_statement {B} (q : FilesWorld → option (B * FilesWorld)) (k : B → FilesHandler A) w P :
  (∀ w1 b w2, files_inv w1 → files_le w w1 → q w1 = Some (b, w2) →
     onwards w1 w2 ∧ touches u w1 w2 ∧ fsafe u (k b) w2 P) →
  fsafe u (statement q ≫= k) w P.
Proof.
  intros Hx. apply fsafe_bind. intros own Hm. apply tsafe_statement; [apply _|]. intros w1 Hi Hle.
  destruct (q w1) as [[b w2]|] eqn:E; [|done]. destruct (Hx w1 b w2 Hi Hle E) as ([? ?] & Ht & Hk).
  split; [done|]. split; [done|]. split; [by apply mine_snoc|done].
Qed.

Lemma fsafe_reading {B} (q : FilesWorld → B) (k : B → FilesHandler A) w P :
  (∀ w1, files_inv w1 → files_le w w1 → fsafe u (k (q w1)) w1 P) → fsafe u (reading q ≫= k) w P.
Proof.
  intros Hx. apply fsafe_statement. intros w1 b w2 Hi Hle [= <- <-]. split; [by split|].
  split; [apply touches_refl|by apply Hx].
Qed.

Lemma fsafe_bucket c (k : string → FilesHandler A) w P :
  (∀ url, fsafe u (k url) w P) → fsafe u (bucket c ≫= k) w P.
Proof.
  intros Hx. apply fsafe_bind. intros own Hm answer. destruct answer as [url|]; [|done]. split; [done|apply Hx].
Qed.
End Rules.

(** ** The shared pieces *)

Lemma same_files_touches u w w' :
  fw_files w' = fw_files w → fw_fileChunks w' = fw_fileChunks w → fw_chunks w' = fw_chunks w →
  fw_transfers w' = fw_transfers w →
  (∀ key, (∀ h, key ≠ chunkObjectKey u h) → fw_objects w' !! key = fw_objects w !! key) →
  (∀ key n, (key, n) ∈ fw_grants w' → (key, n) ∈ fw_grants w ∨ ∃ h, key = chunkObjectKey u h) →
  (∃ l, fw_audit w' = fw_audit w ++ l ∧ Forall (λ e, ae_userId e = u) l) → touches u w w'.
Proof. intros Ef El Ec Et Ho Hg Ha. split; try done; intros; by rewrite ?Ef, ?El, ?Ec, ?Et. Qed.

Lemma fsafe_record u type payload actor w (P : unit → FilesWorld → Prop) :
  (∀ w1, files_le w w1 → P tt w1) → fsafe u (record_audit u type payload actor) w P.
Proof.
  intros Hx own Hm. apply tsafe_statement; [apply _|]. intros w1 Hi Hle. case_bool_decide; [|done].
  assert (onwards w1 (set_entries (fw_audit w1 ++ [mkEntry u type payload actor]) w1)) as [? ?] by by apply onwards_audit.
  split; [done|]. split; [done|]. split.
  - apply mine_snoc; [done|]. apply same_files_touches; try done; [by left|]. eexists. split; [done|]. by constructor.
  - apply Hx. by etrans.
Qed.

Lemma fsafe_audit {A} u type payload actor (k : unit → FilesHandler A) w P :
  (∀ w1, files_le w w1 → fsafe u (k tt) w1 P) → fsafe u (record_audit u type payload actor ≫= k) w P.
Proof. intros Hx. by apply fsafe_bind, fsafe_record. Qed.

Lemma fsafe_bucket_head {A} u key (k : option Z → FilesHandler A) w P :
  (∀ w1, files_inv w1 → files_le w w1 → fsafe u (k (fw_objects w1 !! key)) w1 P) → fsafe u (bucket_head key ≫= k) w P.
Proof.
  intros Hx. apply fsafe_bind, fsafe_bucket. intros _. unfold reading. intros own Hm.
  apply tsafe_reading; [apply _|]. intros w1 Hi Hle. split; [apply mine_snoc; [done|apply touches_refl]|by apply Hx].
Qed.

Lemma fsafe_bucket_delete {A} u hash (k : unit → FilesHandler A) w P :
  (∀ w1, files_le w w1 → fsafe u (k tt) w1 P) → fsafe u (bucket_delete (chunkObjectKey u hash) ≫= k) w P.
Proof.
  intros Hx. apply fsafe_bind, fsafe_bucket. intros _ own Hm. apply tsafe_atomically; [apply _|]. intros w1 Hi Hle. cbn.
  destruct (onwards_objects w1 (chunkObjectKey u hash) Hi) as [Hi' Hle']. split; [done|]. split; [done|]. split.
  - apply mine_snoc; [done|]. apply same_files_touches; try done; cbn.
    + intros key Hk. rewrite lookup_delete_ne; [done|]. intros <-. by eapply Hk.
    + by left.
    + exists []. by rewrite app_nil_r.
  - apply Hx. by etrans.
Qed.

Lemma fsafe_deleteOrphans {A} u hashes (k : unit → FilesHandler A) w P :
  (∀ w1, files_le w w1 → fsafe u (k tt) w1 P) → fsafe u (deleteOrphanObjects u hashes ≫= k) w P.
Proof.
  intros Hx. apply fsafe_bind.
  assert (∀ reclaimed l w0, files_le w w0 → fsafe u (delete_objects u reclaimed l) w0 (λ b w', fsafe u (k b) w' P)) as Hd.
  { intros reclaimed. induction l as [|h l IH]; intros w0 Hle; cbn [delete_objects]; [by apply fsafe_ret, Hx|].
    case_bool_decide; [by apply IH|]. apply fsafe_bucket_delete. intros w1 Hle1. apply IH. by etrans. }
  unfold deleteOrphanObjects. destruct hashes as [|h hashes]; [by apply fsafe_ret, Hx|].
  apply fsafe_reading. intros w1 _ Hle. by apply Hd.
Qed.
End Safety.
