(* ===== verification/FilesRoutes.v ===== *)
(** * One lemma per route of the Files API

    Each route keeps the invariant, moves forward, touches only the rows and
    objects of its account, and shows no query of a transfer's link. *)

From stdpp Require Import relations.
From S2P Require Export FilesSafety.
From Stdlib Require Import Ascii.

Section Routes.
Context `{UrlParser} `{UrlTextLaws}.
Context (collate : relation string) `{!RelDecision collate}.

Definition transfers_of (b : FilesBody) : list Transfer :=
  match b with
  | FbTransfers l => l
  | FbTransfer t | FbCreated t _ => [t]
  | _ => []
  end.

Definition shown_ok (r : FilesResponse) (_ : FilesWorld) : Prop :=
  Forall (λ t, no_query (tv_url t)) (transfers_of (fr_body r)).

Lemma fsafe_reply u status b w : transfers_of b = [] → fsafe u (reply status b) w shown_ok.
Proof. intros Hb. apply fsafe_ret. unfold shown_ok. cbn. by rewrite Hb. Qed.
Lemma fsafe_deny u status e r w : fsafe u (deny status e r) w shown_ok.
Proof. by apply fsafe_reply. Qed.
Lemma fsafe_view u status t w : fsafe u (reply status (FbTransfer (transferView t))) w shown_ok.
Proof. apply fsafe_ret. apply Forall_singleton, redactTransferUrl_plain. Qed.

Hint Resolve fsafe_deny fsafe_view : fsafe.
Hint Extern 1 (fsafe _ (reply _ _) _ _) => (apply fsafe_reply; reflexivity) : fsafe.

(** ** Manifests *)

Lemma manifest_touches u path m w file orphans missing w' :
  files_only w w' → fw_audit w' = fw_audit w → files_ok w → manifest_done u path m w file orphans missing w' → touches u w w'.
Proof.
  intros (_ & _ & Et & Eo & Eg) Ea Hok [Ef [Hu _] Hid Hids Hown Hl _ Hother _ _ _]. split.
  - intros k f Hne. rewrite Ef. destruct (decide (k = f_id file)) as [->|Hk].
    + rewrite lookup_insert_eq. split; [intros Hf; by specialize (Hown f Hf)|intros [= <-]; done].
    + by rewrite lookup_insert_ne.
  - intros k f Hne Hf. rewrite Hl. rewrite lookup_insert_ne; [done|]. intros <-. by apply Hne, Hown.
  - done.
  - by rewrite Et.
  - by rewrite Eo.
  - rewrite Eg. by left.
  - exists []. by rewrite app_nil_r.
Qed.

Lemma manifest_onwards u path m w file orphans missing w' :
  files_inv w → files_ok w' → files_only w w' → manifest_done u path m w file orphans missing w' → onwards w w'.
Proof.
  intros Hi Hok' Honly Hd. apply onwards_files; [done..| |].
  - rewrite (md_ids _ _ _ _ _ _ _ _ Hd). apply union_subseteq_r.
  - intros k f'. rewrite (md_file _ _ _ _ _ _ _ _ Hd). intros [[<- <-]|[_ Hk]]%lookup_insert_Some Hin; [|eauto].
    pose proof (md_id _ _ _ _ _ _ _ _ Hd) as Hid. destruct (file_at u path w) as [f|] eqn:E; [|done].
    apply file_at_some in E as (Hf & Hu & Hp); [|apply Hi]. exists f. rewrite Hid. split; [done|].
    destruct (md_row _ _ _ _ _ _ _ _ Hd) as (-> & -> & _). done.
Qed.

Lemma manifest_tx_audit u path ct m newId w o w' : manifest_tx u path ct m newId w = Some (o, w') → fw_audit w' = fw_audit w.
Proof.
  unfold manifest_tx. destruct (qv_allowed _); cbn [negb]; [|by intros [= _ <-]].
  destruct (put_file _ _ _ _ _ _ _) as [[file w1]|] eqn:Ep; [|done].
  assert (fw_audit w1 = fw_audit w) as E1.
  { unfold put_file in Ep. destruct (file_at _ _ _); [by injection Ep as <- <-|].
    destruct (_ || _); [done|by injection Ep as <- <-]. }
  destruct (match file_at _ _ _ with Some _ => _ | None => _ end) as [releasing w2] eqn:E2.
  assert (fw_audit w2 = fw_audit w1) as E2'.
  { destruct (file_at _ _ _); [unfold detachFileChunks in E2|]; by injection E2 as <- <-. }
  unfold attachChunks. destruct (chunk_rows _ _), (mn_chunks m); try done;
    (destruct (releaseHashes _ _ _) as [orphans w4] eqn:E4; intros [= _ <-]; unfold releaseHashes in E4;
     destruct releasing; injection E4 as <- <-; cbn; congruence).
Qed.

Lemma file_manifest_safe c path ct m newId w :
  manifestSchema m = true → fsafe (fc_userId c) (file_manifest c path ct m newId) w shown_ok.
Proof.
  intros Hs. unfold file_manifest. destruct (normalizeFilePath path) as [r|p]; [auto with fsafe|].
  destruct (validateManifest m) as [bad|] eqn:Hv; [auto with fsafe|].
  apply fsafe_statement. intros w1 o w2 Hi _ Htx.
  destruct (manifest_tx_ok _ _ _ _ _ _ _ _ (fv_files _ Hi) Hs Hv Htx) as (Hok & Honly & Ho).
  apply manifest_tx_audit in Htx. destruct o as [verdict incoming|file verdict orphans created missing].
  - subst w2. split; [by split|]. split; [apply touches_refl|]. apply fsafe_audit. auto with fsafe.
  - destruct Ho as [Hd _]. split; [by eapply manifest_onwards|].
    split; [by eapply manifest_touches; [| |apply Hi|]|]. apply fsafe_deleteOrphans. auto with fsafe.
Qed.

(** ** Deleting *)

Lemma delete_onwards u k w file orphans w' :
  files_inv w → files_ok w' → files_only w w' → delete_done u k w file orphans w' → onwards w w'.
Proof.
  intros Hi Hok' Honly Hd. apply onwards_files; [done..| |]; rewrite ?(dd_ids _ _ _ _ _ _ Hd), ?(dd_files _ _ _ _ _ _ Hd); [done|].
  intros j f' [_ Hj]%lookup_delete_Some _. eauto.
Qed.

Lemma delete_touches u k w file orphans w' :
  files_only w w' → fw_audit w' = fw_audit w → delete_done u k w file orphans w' → touches u w w'.
Proof.
  intros (_ & _ & Et & Eo & Eg) Ea [[Hf Hu] Ef Ei El _ Hother _ _]. split.
  - intros j f Hne. rewrite Ef. rewrite lookup_delete_Some. split; [|by intros [_ ?]]. intros Hj. split; [|done].
    intros ->. congruence.
  - intros j f Hne Hj. rewrite El. rewrite lookup_delete_ne; [done|]. intros ->. congruence.
  - done.
  - by rewrite Et.
  - by rewrite Eo.
  - rewrite Eg. by left.
  - exists []. by rewrite app_nil_r.
Qed.

Lemma delete_tx_audit u k w : fw_audit (delete_tx u k w).2 = fw_audit w.
Proof.
  unfold delete_tx. destruct (ownedFile u k w) as [f|]; [|done]. unfold detachFileChunks.
  destruct (releaseHashes _ _ _) as [orphans w2] eqn:E. cbn. unfold releaseHashes in E.
  destruct (distinctFileHashes _ _); by injection E as <- <-.
Qed.

Lemma delete_file_safe c k w : fsafe (fc_userId c) (delete_file c k) w shown_ok.
Proof.
  unfold delete_file, atomically. apply fsafe_statement. intros w1 o w2 Hi _ [= E].
  pose proof (delete_tx_ok (fc_userId c) k w1 (fv_files _ Hi)) as Hd. pose proof (delete_tx_audit (fc_userId c) k w1) as Ha.
  rewrite E in Hd, Ha. cbn in Ha. destruct Hd as (Hok & Honly & Ho). destruct o as [[file orphans]|].
  - split; [by eapply delete_onwards|]. split; [by eapply delete_touches|].
    apply fsafe_deleteOrphans. intros w3 _. apply fsafe_audit. auto with fsafe.
  - subst w2. split; [by split|]. split; [apply touches_refl|auto with fsafe].
Qed.

(** ** Completing *)

Lemma mark_stored_lookup u hashes w k :
  fw_chunks (mark_stored u hashes w) !! k =
  (λ c, if among u hashes k && bool_decide (c_storedAt c = None)
        then mkChunkRow (c_sizeBytes c) (c_refCount c) (Some (fw_nowMs w)) else c) <$> fw_chunks w !! k.
Proof. unfold mark_stored. cbn. rewrite map_lookup_imap. by destruct (fw_chunks w !! k). Qed.

(** The row under a key keeps its size and references. *)
Lemma mark_stored_row u hashes w k c' : fw_chunks (mark_stored u hashes w) !! k = Some c' →
  ∃ c, fw_chunks w !! k = Some c ∧ c_sizeBytes c' = c_sizeBytes c ∧ c_refCount c' = c_refCount c.
Proof.
  rewrite mark_stored_lookup. intros (c & Hc & ->)%fmap_Some. exists c. split; [done|]. by destruct (_ && _).
Qed.

Lemma mark_stored_ok u hashes w : files_ok w → files_ok (mark_stored u hashes w).
Proof.
  intros Hok. pose proof (mark_stored_row u hashes w) as Hrow. split; try apply Hok.
  - intros k c' Hc'. destruct (Hrow k c' Hc') as (c & Hc & _ & ->). by apply (fo_positive _ Hok k).
  - intros k c' Hc'. destruct (Hrow k c' Hc') as (c & Hc & -> & _). by apply (fo_sized _ Hok k).
  - intros v h. assert (refs (fw_chunks (mark_stored u hashes w)) v h = refs (fw_chunks w) v h) as ->; [|apply (fo_refs _ Hok)].
    unfold refs. rewrite mark_stored_lookup. destruct (fw_chunks w !! (v, h)); [|done]. cbn. by destruct (_ && _).
  - intros v. etrans; [|apply (fo_quota _ Hok v)]. apply usedBytes_le; [|apply Hok].
    intros k c' Hc'. destruct (Hrow k c' Hc') as (c & Hc & Es & Er). exists c. split; [done|].
    unfold counted. by rewrite Es, Er.
Qed.

Lemma mark_stored_step u hashes w : files_inv w → onwards w (mark_stored u hashes w) ∧ touches u w (mark_stored u hashes w).
Proof.
  intros Hi. split.
  - apply onwards_files; [done|apply mark_stored_ok, Hi|done|done|cbn; eauto].
  - split; try done; [|by left|exists []; by rewrite app_nil_r]. intros v h Hne. rewrite mark_stored_lookup.
    destruct (fw_chunks w !! (v, h)); [|done]. unfold among. cbn. by rewrite (proj2 (String.eqb_neq _ _) Hne).
Qed.

(** A file's row is replaced under the same id, owner and path. *)
Lemma files_ok_row w k f f' : files_ok w → fw_files w !! k = Some f →
  f_id f' = f_id f → f_userId f' = f_userId f → f_path f' = f_path f →
  files_ok (set_files (<[k := f']> (fw_files w)) w).
Proof.
  intros Hok Hf Hid Hu Hp.
  assert (∀ j g', <[k := f']> (fw_files w) !! j = Some g' → ∃ g, fw_files w !! j = Some g ∧ f_id g' = f_id g
            ∧ f_userId g' = f_userId g ∧ f_path g' = f_path g) as Hg.
  { intros j g' [[<- <-]|[_ Hj]]%lookup_insert_Some; eauto. }
  split; cbn; try apply Hok.
  - intros j g' Hj. destruct (Hg j g' Hj) as (g & Hgj & -> & _). by apply (fo_keyed _ Hok).
  - intros i j a b Ha Hb Huu Hpp. destruct (Hg i a Ha) as (a0 & Ha0 & _ & ? & ?), (Hg j b Hb) as (b0 & Hb0 & _ & ? & ?).
    eapply (fo_paths _ Hok); [exact Ha0|exact Hb0|congruence..].
  - intros j [g' Hj]. destruct (Hg j g' Hj) as (g & Hgj & _). apply (fo_ids _ Hok). by eexists.
  - intros j r Hj. destruct (decide (j = k)) as [->|Hne]; [by rewrite lookup_insert_eq|].
    rewrite lookup_insert_ne by done. by eapply (fo_lists _ Hok).
  - intros v h. rewrite (fo_refs _ Hok). f_equal. f_equal. apply set_eq. intros x. rewrite !elem_claimants. cbn.
    destruct (decide (x = k)) as [->|Hne]; [|by rewrite lookup_insert_ne]. rewrite lookup_insert_eq. split.
    + intros (g & Hg0 & Hgu & Hin). assert (g = f) as -> by congruence. exists f'. split; [done|]. by rewrite Hu.
    + intros (g & [= <-] & Hgu & Hin). exists f. by rewrite <- Hu.
Qed.

Lemma set_completed_safe {A} u k (f0 : FileRow) (w0 : FilesWorld) (next : option FileRow → FilesHandler A) w P :
  fw_files w0 !! k = Some f0 → f_userId f0 = u → k ∈ fw_ids w0 → files_le w0 w →
  (∀ o w1, files_le w w1 → fsafe u (next o) w1 P) → fsafe u (set_completed k ≫= next) w P.
Proof.
  intros Hf0 Hu0 Hk0 Hle0 Hn. unfold set_completed, atomically. apply fsafe_statement. intros w1 o w2 Hi Hle.
  destruct (fw_files w1 !! k) as [f|] eqn:Ef; intros [= <- <-].
  2:{ split; [by split|]. split; [apply touches_refl|by apply Hn]. }
  assert (f_userId f = u) as Hu.
  { assert (files_le w0 w1) as Hle1 by by etrans. destruct (vl_files _ _ Hle1 k f Ef Hk0) as (g & Hg & -> & _). congruence. }
  set (f' := complete_file (fw_nowMs w1) f).
  assert (onwards w1 (set_files (<[k := f']> (fw_files w1)) w1)) as Ho.
  { apply onwards_files; [done|by eapply files_ok_row; [apply Hi|exact Ef|done..]|done|done|].
    intros j g. cbn. intros [[<- <-]|[_ Hj]]%lookup_insert_Some _; [exists f; by split|eauto]. }
  split; [done|]. split; [|apply Hn; etrans; [done|apply Ho]]. split; try done; [|by left|exists []; by rewrite app_nil_r].
  intros j g Hne. cbn. destruct (decide (j = k)) as [->|Hjk]; [|by rewrite lookup_insert_ne].
  rewrite lookup_insert_eq, Ef. split; [intros [= <-]; done|intros [= <-]; cbn in Hne; done].
Qed.

Lemma confirm_safe {A} u groups (next : unit → FilesHandler A) P : ∀ w,
  (∀ w1, files_le w w1 → fsafe u (next tt) w1 P) → fsafe u (confirm_chunks u groups ≫= next) w P.
Proof.
  intros w Hn. apply fsafe_bind. assert (∀ w0, files_le w w0 → fsafe u (confirm_chunks u groups) w0 (λ b w', fsafe u (next b) w' P)) as Hall; [|by apply Hall].
  induction groups as [|g groups IH]; intros w0 Hle; cbn [confirm_chunks]; [by apply fsafe_ret, Hn|].
  unfold atomically. apply fsafe_statement. intros w1 [] w2 Hi Hle1 [= <-].
  destruct (mark_stored_step u g w1 Hi) as [Ho Ht]. split; [done|]. split; [done|]. apply IH. etrans; [done|].
  etrans; [done|apply Ho].
Qed.

Lemma head_chunks_safe {A} u rows (next : Checked → FilesHandler A) P w :
  (∀ acc w1, files_le w w1 → fsafe u (next acc) w1 P) → ∀ acc, fsafe u (head_chunks u rows acc ≫= next) w P.
Proof.
  intros Hn acc. apply fsafe_bind.
  assert (∀ w0 acc, files_le w w0 → fsafe u (head_chunks u rows acc) w0 (λ b w', fsafe u (next b) w' P)) as Hall; [|by apply Hall].
  clear acc. induction rows as [|[h row] rows IH]; intros w0 acc Hle; cbn [head_chunks]; [by apply fsafe_ret, Hn|].
  destruct (c_storedAt row); [by apply IH|]. apply fsafe_bucket_head. intros w1 _ Hle1.
  assert (files_le w w1) by by etrans.
  destruct (fw_objects w1 !! _) as [n|]; [|by apply IH]. destruct (n =? c_sizeBytes row); [by apply IH|].
  apply fsafe_bucket_delete. intros w2 Hle2. apply IH. by etrans.
Qed.

Lemma owned_some u k w f : files_ok w → ownedFile u k w = Some f →
  fw_files w !! k = Some f ∧ f_userId f = u ∧ f_id f = k ∧ k ∈ fw_ids w.
Proof.
  intros Hok. unfold ownedFile. destruct (fw_files w !! k) as [g|] eqn:E; [|done].
  destruct (String.eqb_spec (f_userId g) u) as [Hu|]; [|done]. intros [= <-].
  split; [done|]. split; [done|]. split; [by apply (fo_keyed _ Hok)|]. apply (fo_ids _ Hok). by eexists.
Qed.

Lemma complete_tx_safe {A} u k confirmed missing (next : CompleteOutcome → FilesHandler A) w P :
  (∀ o w1, files_le w w1 → fsafe u (next o) w1 P) → fsafe u (complete_tx u k confirmed missing ≫= next) w P.
Proof.
  intros Hn. apply fsafe_bind. unfold complete_tx. apply confirm_safe. intros w1 Hle1.
  destruct missing as [|h missing]; [|by apply fsafe_ret, Hn].
  apply fsafe_reading. intros w2 Hi2 Hle2. assert (files_le w w2) by by etrans.
  destruct (ownedFile u k w2) as [f|] eqn:Ef; [|by apply fsafe_ret, Hn].
  apply owned_some in Ef as (Hf & Hu & Hid & Hk); [|apply Hi2]. rewrite Hid.
  apply fsafe_reading. intros w3 Hi3 Hle3. apply fsafe_reading. intros w4 Hi4 Hle4.
  assert (files_le w2 w4) by by etrans. assert (files_le w w4) by by etrans.
  destruct (map fst _); [|by apply fsafe_ret, Hn].
  eapply set_completed_safe; [exact Hf|done|done|done|]. intros o w5 Hle5.
  destruct o; (apply fsafe_ret, Hn; by etrans).
Qed.

Lemma complete_upload_safe c k w : fsafe (fc_userId c) (complete_upload c k) w shown_ok.
Proof.
  unfold complete_upload. apply fsafe_reading. intros w1 _ _. destruct (ownedFile _ _ _) as [f|]; [|auto with fsafe].
  apply fsafe_reading. intros w2 _ _. apply fsafe_reading. intros w3 _ _. apply head_chunks_safe. intros acc w4 _.
  apply fsafe_bind.
  assert (∀ w5, fsafe (fc_userId c) (result ← complete_tx (fc_userId c) k (ck_confirmed acc) (ck_missing acc);
     match result with
     | CoGone => deny 404 "not_found" None
     | CoMissing missing => reply 409 (FbMissing missing)
     | CoOk f => _ ← record_audit (fc_userId c) "files.uploaded"
            (JObj [("fileId", JStr (f_id f)); ("path", JStr (f_path f)); ("sizeBytes", JNum (f_sizeBytes f))]) (fc_deviceId c);
          reply 200 (FbCompleted (fileEntryView f))
     end) w5 shown_ok) as Hrest.
  { intros w5. apply complete_tx_safe. intros o w6 _. destruct o; [auto with fsafe..|]. apply fsafe_audit. auto with fsafe. }
  destruct (ck_rejected acc); [apply fsafe_ret, Hrest|].
  apply fsafe_record. intros w5 _. apply Hrest.
Qed.

(** ** Reading and signing *)

Lemma with_file_safe c path k w :
  (∀ f w1, fsafe (fc_userId c) (k f) w1 shown_ok) → fsafe (fc_userId c) (with_file c path k) w shown_ok.
Proof.
  intros Hk. unfold with_file. destruct (normalizeFilePath path); [auto with fsafe|].
  apply fsafe_reading. intros w1 _ _. destruct (file_at _ _ _); [apply Hk|auto with fsafe].
Qed.

Lemma file_stat_safe c path w : fsafe (fc_userId c) (file_stat c path) w shown_ok.
Proof. apply with_file_safe. intros f w1. apply fsafe_reading. auto with fsafe. Qed.

Lemma get_manifest_safe c path w : fsafe (fc_userId c) (get_manifest c path) w shown_ok.
Proof.
  apply with_file_safe. intros f w1. destruct (f_completedAt f); [|auto with fsafe]. apply fsafe_reading. auto with fsafe.
Qed.

Lemma file_quota_safe c w : fsafe (fc_userId c) (file_quota c) w shown_ok.
Proof. apply fsafe_reading. intros w1 _ _. apply fsafe_reading. auto with fsafe. Qed.

Lemma upload_url_safe c hash w : fsafe (fc_userId c) (upload_url c hash) w shown_ok.
Proof.
  apply fsafe_reading. intros w1 Hi1 _. destruct (fw_chunks w1 !! _) as [row|] eqn:Er; [|auto with fsafe].
  apply (fo_sized _ (fv_files _ Hi1)) in Er. apply fsafe_reading. intros w2 _ _.
  cbv zeta. destruct (qv_softBlocked _); [auto with fsafe|]. destruct (c_storedAt row); [auto with fsafe|].
  unfold presignPut. apply fsafe_bind, fsafe_bucket. intros url own Hm. apply tsafe_atomically; [apply _|].
  intros w3 Hi Hle. cbn. destruct (onwards_grant w3 (chunkObjectKey (fc_userId c) hash) (c_sizeBytes row) Hi Er) as [? ?].
  split; [done|]. split; [done|]. split; [|by apply fsafe_reply]. apply mine_snoc; [done|].
  apply same_files_touches; try done; cbn.
  - intros key n [[= -> ->]|Hin]%elem_of_cons; [by right; eexists|by left].
  - exists []. by rewrite app_nil_r.
Qed.

Lemma download_url_safe c hash w : fsafe (fc_userId c) (download_url c hash) w shown_ok.
Proof.
  apply fsafe_reading. intros w1 _ _. destruct (fw_chunks w1 !! _) as [row|]; [|auto with fsafe].
  destruct (c_storedAt row); [|auto with fsafe]. apply fsafe_bucket. auto with fsafe.
Qed.

Lemma list_files_safe c prefix limit cursor w : fsafe (fc_userId c) (list_files collate c prefix limit cursor) w shown_ok.
Proof.
  unfold list_files. destruct (match prefix with None => _ | Some p => _ end); [|auto with fsafe].
  apply fsafe_reading. intros w1 _ _. by apply fsafe_reply.
Qed.

Lemma list_transfers_safe c state limit w : fsafe (fc_userId c) (list_transfers c state limit) w shown_ok.
Proof.
  apply fsafe_reading. intros w1 _ _. apply fsafe_ret. unfold shown_ok. cbn. apply Forall_fmap, Forall_true.
  intros t. apply redactTransferUrl_plain.
Qed.

(** ** Transfers *)

Lemma transfer_touches u w k t' :
  (∀ t, fw_transfers w !! k = Some t → t_userId t = u) → t_userId t' = u →
  touches u w (set_transfers (<[k := t']> (fw_transfers w)) w).
Proof.
  intros Hold Hu. split; try done; cbn; [|by left|exists []; by rewrite app_nil_r].
  intros j t Hne. destruct (decide (j = k)) as [->|Hjk]; [|by rewrite lookup_insert_ne].
  rewrite lookup_insert_eq. split; [intros Ht; by specialize (Hold t Ht)|intros [= <-]; done].
Qed.

Lemma transfer_tx_step u url dest total admission device newId w o w' :
  files_inv w → 0 <= total → transfer_tx u url dest total admission device newId w = Some (o, w') →
  onwards w w' ∧ touches u w w'.
Proof.
  intros Hi Htot. unfold transfer_tx. destruct (qv_allowed _); cbn [negb].
  2:{ intros [= <- <-]. split; [by split|apply touches_refl]. }
  unfold checkActiveTransfers. destruct (Z.geb_spec (active_transfers u w) maxActiveTransfers) as [Hge|Hlt].
  { intros [= <- <-]. split; [by split|apply touches_refl]. }
  case_bool_decide as Hnew; [done|]. case_bool_decide; [|done]. intros [= <- <-]. cbn [orb negb].
  assert (fw_transfers w !! newId = None) as Hn by (by destruct (fw_transfers w !! newId); [destruct Hnew; eexists|]).
  split.
  - apply onwards_transfer; [done| | |intros t Ht; congruence].
    + by split; cbn.
    + intros v. rewrite Hn. pose proof (fv_active _ Hi v) as Hv. unfold is_active. cbn [t_userId t_state].
      change (bool_decide (queued ∈ ACTIVE_TRANSFER_STATES)) with true.
      destruct (String.eqb_spec u v) as [<-|]; cbn [andb unit_if]; lia.
  - apply transfer_touches; [intros t Ht; congruence|done].
Qed.

Lemma create_transfer_safe c url dest total newId w :
  createTransferSchema total = true → fsafe (fc_userId c) (create_transfer c url dest total newId) w shown_ok.
Proof.
  intros Hs. unfold create_transfer. destruct (normalizeFilePath dest); [auto with fsafe|].
  apply fsafe_reading. intros w1 _ _. destruct (negb _); [auto with fsafe|].
  destruct (cloudFetchEligibility _) as [why|]; [|auto with fsafe].
  apply fsafe_statement. intros w2 o w3 Hi _ Htx.
  apply transfer_tx_step in Htx as [Ho Ht]; [|done|destruct total; cbn in *; unfold in_range in *; bprop; lia].
  split; [done|]. split; [done|]. destruct o as [verdict|[limit reason] active|t].
  - apply fsafe_audit. auto with fsafe.
  - apply fsafe_audit. auto with fsafe.
  - apply fsafe_bind. destruct (parse_url url) as [v|]; [|apply fsafe_raise]. apply fsafe_ret. apply fsafe_audit.
    intros w4 _. apply fsafe_ret. apply Forall_singleton, redactTransferUrl_plain.
Qed.

(** A conditional move of a transfer that was read in the state it is moved
    from. *)
Lemma move_safe {A} u k t w0 change (next : option TransferRow → FilesHandler A) w P :
  fw_transfers w0 !! k = Some t → t_userId t = u → files_le w0 w → isTerminalTransfer (t_state t) = false →
  (∀ now row, transfer_ok k row → t_userId row = u → t_state row = t_state t →
     transfer_ok k (change now row) ∧ canTransferTransition (t_state t) (t_state (change now row)) = true
     ∧ t_id (change now row) = t_id row ∧ t_userId (change now row) = u ∧ t_destPath (change now row) = t_destPath row
     ∧ t_originDeviceId (change now row) = t_originDeviceId row ∧ t_startedAt (change now row) = t_startedAt row) →
  (∀ o w1, files_le w w1 → fsafe u (next o) w1 P) →
  fsafe u (move_transfer k (t_state t) change ≫= next) w P.
Proof.
  intros Ht0 Hu0 Hle0 Hact Hc Hn. unfold move_transfer, atomically. apply fsafe_statement. intros w1 o w2 Hi Hle.
  destruct (fw_transfers w1 !! k) as [row|] eqn:Er; [case_bool_decide as Hst|]; intros [= <- <-];
    try (split; [by split|split; [apply touches_refl|by apply Hn]]).
  assert (files_le w0 w1) as Hle1 by by etrans.
  assert (t_userId row = u) as Hu.
  { destruct (vl_transfers _ _ Hle1 k t Ht0) as (row' & Hr' & [(_ & Hus & _) _ _]). congruence. }
  destruct (Hc (fw_nowMs w1) row (fv_transfers _ Hi _ _ Er) Hu Hst) as (Hok & Hmove & Hid & Hu' & Hd & Hor & Hs).
  assert (onwards w1 (set_transfers (<[k := change (fw_nowMs w1) row]> (fw_transfers w1)) w1)) as Ho.
  { apply onwards_transfer; [done|done| |].
    - intros v. rewrite Er. unfold is_active. rewrite Hu', Hu, Hst.
      rewrite (bool_decide_true (t_state t ∈ _)) by by apply active_iff. rewrite andb_true_r.
      destruct (String.eqb u v); cbn; [by destruct (bool_decide _)|lia].
    - intros row' Hr'. rewrite Er in Hr'. injection Hr' as <-. split; [repeat split; congruence| |].
      + rewrite Hst. by apply rtc_once.
      + rewrite Hst. by rewrite Hact. }
  split; [done|]. split; [apply transfer_touches; [intros ? ?; congruence|done]|]. apply Hn. etrans; [done|apply Ho].
Qed.

Lemma ownedTransfer_some u k w t : files_inv w → ownedTransfer u k w = Some t →
  fw_transfers w !! k = Some t ∧ t_userId t = u ∧ transfer_ok k t.
Proof.
  intros Hi. unfold ownedTransfer. destruct (fw_transfers w !! k) as [x|] eqn:E; [|done].
  destruct (String.eqb_spec (t_userId x) u); [|done]. intros [= <-]. split; [done|]. split; [done|].
  by apply (fv_transfers _ Hi).
Qed.

Lemma progress_checked t body total : transferProgressSchema body = true → progress_check t body = inr total →
  isTerminalTransfer (t_state t) = false ∧ canTransferTransition (t_state t) (pg_state body) = true
  ∧ 0 <= pg_receivedBytes body ∧ t_receivedBytes t <= pg_receivedBytes body
  ∧ (total > 0 → pg_receivedBytes body <= total) ∧ (t_totalBytes t > 0 → total = t_totalBytes t).
Proof.
  intros Hs. unfold progress_check. destruct (isTerminalTransfer _); [done|].
  destruct (canTransferTransition _ _); cbn [negb]; [|done]. destruct (match pg_totalBytes body with Some _ => _ | None => _ end); [done|].
  set (tot := if t_totalBytes t >? 0 then _ else _). destruct (_ <? _) eqn:Er; [done|].
  destruct ((tot >? 0) && _) eqn:Ee; [done|]. intros [= <-]. unfold transferProgressSchema, in_range in Hs.
  apply andb_true_iff in Hs as [Hs _]. bprop. split; [done|]. split; [done|]. split; [lia|]. split; [lia|]. split.
  - intros Hp. destruct Ee as [Ee|Ee]; bprop; lia.
  - intros Hp. unfold tot. destruct (Z.gtb_spec (t_totalBytes t) 0); [done|lia].
Qed.

Lemma progress_safe u k body w :
  transferProgressSchema body = true → fsafe u (updateTransferProgress u k body) w shown_ok.
Proof.
  intros Hs. unfold updateTransferProgress. apply fsafe_reading. intros w1 Hi1 _.
  destruct (ownedTransfer u k w1) as [t|] eqn:Et; [|auto with fsafe].
  apply ownedTransfer_some in Et as (Ht & Hu & Hok); [|done].
  destruct (progress_check t body) as [refusal|total] eqn:Ec.
  { apply fsafe_ret. unfold progress_check in Ec. unfold shown_ok.
    cbv zeta in Ec. repeat match type of Ec with (if ?b then _ else _) = _ => destruct b end;
      first [discriminate Ec|injection Ec as <-; by constructor]. }
  apply progress_checked in Ec as (Hact & Hmove & Hr0 & _ & Htot & _); [|done]. rewrite (tk_key _ _ Hok).
  eapply move_safe; [exact Ht|done|reflexivity|done| |intros o w2 _; destruct o; auto with fsafe].
  intros now row Hrow Hur Hst. split; [|by repeat split]. split; cbn; [apply Hrow|done|done|].
  intros ->. apply redactTransferUrl_plain.
Qed.

Lemma cancel_safe c k w : fsafe (fc_userId c) (cancel_transfer c k) w shown_ok.
Proof.
  unfold cancel_transfer. apply fsafe_reading. intros w1 Hi1 _.
  destruct (ownedTransfer _ k w1) as [t|] eqn:Et; [|auto with fsafe].
  apply ownedTransfer_some in Et as (Ht & Hu & Hok); [|done].
  destruct (isTerminalTransfer (t_state t)) eqn:Hact; [auto with fsafe|].
  eapply move_safe; [exact Ht|done|reflexivity|done| |].
  - intros now row Hrow Hur Hst. split; [|cbn; repeat split; try done; by apply transfer_can_cancel].
    split; cbn; [apply Hrow..|intros _; apply redactTransferUrl_plain].
  - intros o w2 _. destruct o; [|auto with fsafe]. apply fsafe_audit. auto with fsafe.
Qed.

(** ** Every route *)

Definition request_user (r : FilesRequest) : string :=
  match r with
  | FManifest c _ _ _ _ | FComplete c _ | FQuota c | FStat c _ | FGetManifest c _ | FUploadUrl c _ | FDownloadUrl c _
  | FListTransfers c _ _ | FCreateTransfer c _ _ _ _ | FDeviceProgress c _ _ | FCancel c _ | FList c _ _ _ | FDelete c _ =>
      fc_userId c
  | FAgentProgress agent _ _ => ag_userId agent
  end.

Lemma handle_files_safe r w : fsafe (request_user r) (handle_files collate r) w shown_ok.
Proof.
  destruct r; cbn [request_user handle_files]; unfold validated;
    repeat match goal with |- context [if ?b then _ else _] => destruct b eqn:? end; auto with fsafe.
  - by apply file_manifest_safe.
  - apply complete_upload_safe.
  - apply file_quota_safe.
  - apply file_stat_safe.
  - apply get_manifest_safe.
  - apply upload_url_safe.
  - apply download_url_safe.
  - apply list_transfers_safe.
  - by apply create_transfer_safe.
  - unfold agent_progress. destruct (transferReportRefusal _); [auto with fsafe|]. by apply progress_safe.
  - by apply progress_safe.
  - apply cancel_safe.
  - apply list_files_safe.
  - apply delete_file_safe.
Qed.
End Routes.
