(* ===== verification/FilesProps.v ===== *)
(** * What the Files API guarantees under interference

    For any number of requests of any accounts, interleaved at their awaits in
    any order, with a bucket that may fail, uploads through signed URLs, and
    restarts of the service. *)

From stdpp Require Import relations.
From S2P Require Export FilesRoutes.
From Stdlib Require Import Ascii.

(** Time passes, or a client uploads what a URL was signed for. *)
Definition with_time (n : Z) (w : FilesWorld) : FilesWorld :=
  mkFilesWorld n (fw_accounts w) (fw_files w) (fw_fileChunks w) (fw_chunks w) (fw_transfers w) (fw_objects w)
    (fw_grants w) (fw_ids w) (fw_audit w).
Definition upload (key : string) (n : Z) (w : FilesWorld) : FilesWorld := set_objects (<[key := n]> (fw_objects w)) w.

Inductive files_env : FilesWorld → FilesWorld → Prop :=
| env_time w n : fw_nowMs w <= n → files_env w (with_time n w)
| env_upload w key n : (key, n) ∈ fw_grants w → files_env w (upload key n w).

Section Pool.
Context `{UrlParser} `{UrlTextLaws}.
Context (collate : relation string) `{!RelDecision collate}.

Lemma files_env_ok w w' : files_env w w' → files_inv w → files_inv w' ∧ files_le w w'.
Proof.
  intros He [Hf Ht Ha Hg Ho]. destruct He as [w n Hn|w key n Hin].
  - split; [split; try done; by apply (files_ok_same w)|]. split; cbn; eauto; done.
  - split; [split; try done; [by apply (files_ok_same w)|]|split; cbn; eauto; done].
    intros k m. cbn. intros [[<- <-]|[_ Hk]]%lookup_insert_Some; [done|by apply Ho].
Qed.

Abbreviation FilesPool := (Config (World := FilesWorld) (Ext := BucketCall) (Answer := BucketAnswer)
  (Request := FilesRequest) (Response := FilesResponse)).
Abbreviation step := (pool_step (Ext := BucketCall) (Answer := BucketAnswer) (handle_files collate) files_env).

Definition files_post (r : FilesRequest) (_ : FilesWorld) (own : Pieces) (resp : FilesResponse) (w : FilesWorld) : Prop :=
  mine (request_user r) own ∧ shown_ok resp w.
Abbreviation ok := (pool_ok (Ext := BucketCall) (Answer := BucketAnswer) files_inv files_le files_post).

Lemma files_handled r w : files_inv w → tsafe files_inv files_le (handle_files collate r) [] w (files_post r w).
Proof. intros _. apply handle_files_safe. by intros ? ? ?%not_elem_of_nil. Qed.

Lemma files_reachable w0 (c : FilesPool) : files_inv w0 → rtc step (initial w0) c → ok c.
Proof.
  intros Hi Hr. eapply pool_reachable_ok; [apply _|exact files_env_ok|exact files_handled|exact Hi|exact Hr].
Qed.

Lemma files_steps (c c' : FilesPool) : ok c → rtc step c c' → ok c' ∧ files_le (cf_world c) (cf_world c').
Proof.
  intros Hok Hr. split.
  - eapply pool_steps_ok; [apply _|exact files_env_ok|exact files_handled|exact Hr|exact Hok].
  - eapply pool_reachable_forward; [apply _|exact files_env_ok|exact files_handled|exact Hok|exact Hr].
Qed.

(** C29: whatever requests race, the reference count of a chunk is the number
    of files of its account that name it, a chunk without a file has no row
    and every chunk a file names has one, no account is charged more than its
    quota or has more than 32 transfers under way, paths stay unique, and
    nothing larger than one chunk was ever signed for or is in the bucket. *)
Theorem files_consistent w0 (c : FilesPool) :
  files_inv w0 → rtc step (initial w0) c →
  let w := cf_world c in
  (∀ u h, refs (fw_chunks w) u h = Z.of_nat (size (claimants u h w)))
  ∧ (∀ u h, is_Some (fw_chunks w !! (u, h)) ↔
       ∃ k f, fw_files w !! k = Some f ∧ f_userId f = u ∧ h ∈ map cr_hash (chunk_rows k w))
  ∧ (∀ u, usedBytes u (fw_chunks w) <= PRO_QUOTA_BYTES ∧ active_transfers u w <= maxActiveTransfers)
  ∧ (∀ i j f g, fw_files w !! i = Some f → fw_files w !! j = Some g →
       f_userId f = f_userId g → f_path f = f_path g → i = j)
  ∧ (∀ key n, (key, n) ∈ fw_grants w ∨ fw_objects w !! key = Some n → 0 < n <= MAX_CHUNK_BYTES).
Proof.
  intros Hi Hr. pose proof (files_reachable w0 c Hi Hr) as Hok. destruct (po_inv _ _ _ _ Hok) as [Hf Ht Ha Hg Ho].
  split; [apply (fo_refs _ Hf)|]. split.
  { intros u h. rewrite <- refs_pos by apply (fo_positive _ Hf). rewrite (fo_refs _ Hf). split.
    - intros Hp. destruct (set_choose_L (claimants u h (cf_world c))) as [k Hk].
      { intros E. rewrite E, size_empty in Hp. lia. }
      apply elem_claimants in Hk as (f & ? & ? & ?). eauto.
    - intros (k & f & ? & ? & ?). apply (claimants_pos u h _ k), elem_claimants. eauto. }
  split; [intros u; split; [apply (fo_quota _ Hf)|apply Ha]|]. split; [apply (fo_paths _ Hf)|].
  intros key n [Hin|Hk]; [by eapply Hg|by eapply Hg, Ho].
Qed.

(** C32: accounts are isolated.  Every statement a request ran has left every
    file, chunk list, chunk, transfer and object of other accounts as they
    were, was audited under its own account, and signed uploads only under the
    account's keys; and no response shows the query of a transfer's link. *)
Theorem files_accounts_isolated w0 (c : FilesPool) i r resp :
  files_inv w0 → rtc step (initial w0) c → cf_threads c !! i = Some r → run_thread r = Ret resp →
  (∀ w1 w2, (w1, w2) ∈ own_pieces i (cf_history c) → touches (request_user (run_request r)) w1 w2)
  ∧ Forall (λ t, no_query (tv_url t)) (transfers_of (fr_body resp)).
Proof.
  intros Hi Hr Hl Hret. pose proof (files_reachable w0 c Hi Hr) as Hok.
  destruct (finished_ok (Ext := BucketCall) (Answer := BucketAnswer) _ _ _ c i r resp Hok Hl Hret) as (w & _ & _ & Hm & Hs). split; [exact Hm|exact Hs].
Qed.

(** A transfer only moves along its state machine.  Whatever reports and
    cancellations race, its row is never lost, keeps its account, destination
    and device, is in a state its earlier one leads to by legal moves, is
    final once it ended, and then keeps no query of its link; more bytes than
    its total are never recorded. *)
Theorem transfers_move_forward w0 (c c' : FilesPool) k t :
  files_inv w0 → rtc step (initial w0) c → rtc step c c' → fw_transfers (cf_world c) !! k = Some t →
  ∃ t', fw_transfers (cf_world c') !! k = Some t'
    ∧ t_userId t' = t_userId t ∧ t_destPath t' = t_destPath t ∧ t_originDeviceId t' = t_originDeviceId t
    ∧ rtc (λ s s', canTransferTransition s s' = true) (t_state t) (t_state t')
    ∧ (isTerminalTransfer (t_state t) = true → t' = t)
    ∧ (isTerminalTransfer (t_state t') = true → no_query (t_url t'))
    ∧ (t_totalBytes t' > 0 → t_receivedBytes t' <= t_totalBytes t').
Proof.
  intros Hi Hr Hr' Ht. destruct (files_steps c c' (files_reachable w0 c Hi Hr) Hr') as [Hok Hle].
  destruct (vl_transfers _ _ Hle k t Ht) as (t' & Ht' & [(_ & Hu & Hd & Ho & _) Hm Hf]).
  destruct (fv_transfers _ (po_inv _ _ _ _ Hok) k t' Ht') as [_ _ Htot Hp]. exists t'. by repeat split.
Qed.
End Pool.
