(* ===== verification/FilesDurable.v ===== *)
(** * What the Files API guarantees when requests do not overlap

    Requests of honest clients, each run to its end before the next (or cut
    short by a failing bucket), with uploads in between: the chunks of a file
    that is complete are in the bucket, and what was uploaded is read back. *)

From stdpp Require Import relations.
From S2P Require Export FilesProps.
From Stdlib Require Import Ascii.

Lemma chunkObjectKey_inj u h u' h' : no_char "/" u → no_char "/" u' →
  chunkObjectKey u h = chunkObjectKey u' h' → u = u' ∧ h = h'.
Proof.
  unfold chunkObjectKey. intros Hu Hu' E%sapp_inj_l.
  pose proof (f_equal (split_char "/") E) as Es. cbn [String.append] in Es.
  rewrite !split_char_app in Es by done. injection Es as -> _. split; [done|].
  apply sapp_inj_l in E. by injection E.
Qed.

Section Durable.
Context `{UrlParser} `{UrlTextLaws}.
Context (collate : relation string) `{!RelDecision collate}.
(** The length of the content with a given hash. *)
Context (size_of : string → Z).

Record stored_ok (w : FilesWorld) : Prop := {
  so_sizes : ∀ u h c, fw_chunks w !! (u, h) = Some c → c_sizeBytes c = size_of h;
  so_users : ∀ u h c, fw_chunks w !! (u, h) = Some c → no_char "/" u;
  (** the bytes of a stored chunk are in the bucket *)
  so_bytes : ∀ u h c, fw_chunks w !! (u, h) = Some c → is_Some (c_storedAt c) →
    fw_objects w !! chunkObjectKey u h = Some (size_of h);
  so_grants : ∀ key n, (key, n) ∈ fw_grants w → ∃ u h, no_char "/" u ∧ key = chunkObjectKey u h ∧ n = size_of h;
  (** a complete file names stored chunks *)
  so_complete : ∀ k f h, fw_files w !! k = Some f → is_Some (f_completedAt f) → h ∈ map cr_hash (chunk_rows k w) →
    ∃ c, fw_chunks w !! (f_userId f, h) = Some c ∧ is_Some (c_storedAt c)
}.

Definition durable (w : FilesWorld) : Prop := files_inv w ∧ stored_ok w.

(** Manifests name content by its hash, accounts are identifiers. *)
Definition honest (r : FilesRequest) : Prop :=
  no_char "/" (request_user r)
  ∧ match r with
    | FManifest _ _ _ m _ => Forall (λ c, cr_length c = size_of (cr_hash c)) (mn_chunks m)
    | _ => True
    end.

Definition keeps {A} (t : FilesHandler A) (w : FilesWorld) : Prop := alone durable t w (λ _ w', durable w').

(** ** Rules *)

Lemma stored_same w w' : fw_chunks w' = fw_chunks w → fw_objects w' = fw_objects w → fw_grants w' = fw_grants w →
  fw_files w' = fw_files w → fw_fileChunks w' = fw_fileChunks w → stored_ok w → stored_ok w'.
Proof. intros Ec Eo Eg Ef El []. split; unfold chunk_rows; rewrite ?Ec, ?Eo, ?Eg, ?Ef, ?El; done. Qed.

Section Rules.
Context {A : Type}.
Implicit Types (w : FilesWorld).

Lemma durable_ret (a : A) w : durable w → keeps (mret a) w.
Proof. done. Qed.
Lemma keeps_reply status b w : durable w → keeps (reply status b) w.
Proof. done. Qed.
Lemma keeps_deny status e r w : durable w → keeps (deny status e r) w.
Proof. done. Qed.

Lemma keeps_reading {B} (q : FilesWorld → B) (k : B → FilesHandler A) w : keeps (k (q w)) w → keeps (reading q ≫= k) w.
Proof. apply alone_reading. Qed.

Lemma keeps_statement {B} (q : FilesWorld → option (B * FilesWorld)) (k : B → FilesHandler A) w :
  durable w → (∀ b w', q w = Some (b, w') → keeps (k b) w') → keeps (statement q ≫= k) w.
Proof. intros Hd Hk. apply alone_statement. destruct (q w) as [[b w']|]; [by apply Hk|done]. Qed.

Lemma keeps_bucket c (k : string → FilesHandler A) w : durable w → (∀ url, keeps (k url) w) → keeps (bucket c ≫= k) w.
Proof. intros Hd Hk. apply alone_bind. intros [url|]; [apply Hk|exact Hd]. Qed.

Lemma durable_bind {B} (t : FilesHandler B) (k : B → FilesHandler A) w :
  alone durable t w (λ b w', keeps (k b) w') → keeps (t ≫= k) w.
Proof. apply alone_bind. Qed.

Lemma alone_audit u type payload actor w (Q : unit → FilesWorld → Prop) :
  durable w → (∀ w', durable w' → Q tt w') → alone durable (record_audit u type payload actor) w Q.
Proof.
  intros [Hi Hs] HQ. unfold record_audit, statement. cbn. case_bool_decide; cbn; [|by split].
  apply HQ. split; [by apply onwards_audit|by apply (stored_same w)].
Qed.

Lemma keeps_audit u type payload actor (k : unit → FilesHandler A) w :
  durable w → (∀ w', durable w' → keeps (k tt) w') → keeps (record_audit u type payload actor ≫= k) w.
Proof. intros Hd Hk. by apply durable_bind, alone_audit. Qed.
End Rules.

(** Removing an object no stored chunk needs. *)
Lemma durable_delete u h w : durable w → no_char "/" u →
  (∀ c, fw_chunks w !! (u, h) = Some c → c_storedAt c = None) →
  durable (set_objects (delete (chunkObjectKey u h) (fw_objects w)) w).
Proof.
  intros [Hi Hs] Hu Hc. split; [by apply onwards_objects|]. destruct Hs as [S1 S2 S3 S4 S5]. split; try done. cbn.
  intros v g c Hg Hst. rewrite lookup_delete_ne; [by eapply S3|]. intros E.
  apply chunkObjectKey_inj in E as [-> ->]; [|done|by eapply S2]. rewrite (Hc c Hg) in Hst. by apply is_Some_None in Hst.
Qed.

Lemma keeps_orphans {A} u hashes (k : unit → FilesHandler A) w :
  durable w → no_char "/" u → (∀ w', durable w' → keeps (k tt) w') → keeps (deleteOrphanObjects u hashes ≫= k) w.
Proof.
  intros Hd Hu Hk. apply durable_bind.
  assert (∀ reclaimed l w0, durable w0 → (∀ h, h ∈ l → h ∉ reclaimed → fw_chunks w0 !! (u, h) = None) →
    alone durable (delete_objects u reclaimed l) w0 (λ b w', keeps (k b) w')) as Hl.
  { intros reclaimed. induction l as [|h l IH]; intros w0 Hd0 Hn; cbn [delete_objects]; [by apply Hk|].
    case_bool_decide as Hr; [apply IH; [done|intros x Hx; apply Hn; by right]|]. unfold bucket_delete.
    do 2 apply alone_bind. intros [url|]; [|exact Hd0]. cbn. apply IH.
    - apply durable_delete; [done|done|]. intros c Hc. rewrite Hn in Hc; [done|left|done].
    - intros x Hx. cbn. apply Hn. by right. }
  unfold deleteOrphanObjects. destruct hashes as [|h hashes]; [by apply Hk|]. apply alone_reading. apply Hl; [done|].
  intros x Hx Hn. destruct (fw_chunks w !! (u, x)) eqn:E; [|done]. exfalso. apply Hn, elem_ownedHashes. by rewrite E.
Qed.

(** ** Manifests *)

Lemma named_row w k f h : files_ok w → fw_files w !! k = Some f → h ∈ map cr_hash (chunk_rows k w) →
  is_Some (fw_chunks w !! (f_userId f, h)).
Proof.
  intros Hok Hf Hh. apply refs_pos; [apply (fo_positive _ Hok)|]. rewrite (fo_refs _ Hok).
  apply (claimants_pos _ _ _ k), elem_claimants. eauto.
Qed.

Lemma manifest_stored u path m w file orphans missing w' : durable w → files_ok w' → files_only w w' → no_char "/" u →
  Forall (λ c, cr_length c = size_of (cr_hash c)) (mn_chunks m) →
  manifest_done u path m w file orphans missing w' → stored_ok w'.
Proof.
  intros [Hi Hs] Hok' (_ & _ & _ & Eo & Eg) Hu Hh Hd. rewrite Forall_forall in Hh. split.
  - intros v h c Hc. destruct (md_chunks _ _ _ _ _ _ _ _ Hd _ _ Hc) as [(c0 & Hc0 & -> & _)|(r & _ & [= -> ->] & Hr & -> & _)].
    + by eapply so_sizes.
    + by apply Hh.
  - intros v h c Hc. destruct (md_chunks _ _ _ _ _ _ _ _ Hd _ _ Hc) as [(c0 & Hc0 & _)|(r & _ & [= -> ->] & _)]; [by eapply so_users|done].
  - intros v h c Hc Hst. rewrite Eo.
    destruct (md_chunks _ _ _ _ _ _ _ _ Hd _ _ Hc) as [(c0 & Hc0 & _ & E)|(r & _ & _ & _ & _ & E)]; rewrite E in Hst.
    + by eapply so_bytes.
    + by apply is_Some_None in Hst.
  - rewrite Eg. by apply so_grants.
  - intros k f h Hf Hcomp Hin. rewrite (md_file _ _ _ _ _ _ _ _ Hd) in Hf.
    apply lookup_insert_Some in Hf as [[<- <-]|[Hne Hf]].
    { destruct (md_row _ _ _ _ _ _ _ _ Hd) as (_ & _ & _ & _ & E). rewrite E in Hcomp. by apply is_Some_None in Hcomp. }
    assert (fw_files w' !! k = Some f) as Hf' by (by rewrite (md_file _ _ _ _ _ _ _ _ Hd), lookup_insert_ne).
    destruct (named_row w' k f h Hok' Hf' Hin) as [c Hc]. exists c. split; [done|].
    assert (h ∈ map cr_hash (chunk_rows k w)) as Hold.
    { unfold chunk_rows in *. by rewrite (md_list _ _ _ _ _ _ _ _ Hd), lookup_insert_ne in Hin. }
    destruct (so_complete _ Hs k f h Hf Hcomp Hold) as (c0 & Hc0 & Hst).
    destruct (md_chunks _ _ _ _ _ _ _ _ Hd _ _ Hc) as [(c1 & Hc1 & _ & ->)|(r & Hn & _)]; [|congruence].
    rewrite Hc0 in Hc1. by injection Hc1 as <-.
Qed.

Lemma keeps_manifest c path ct m newId w :
  durable w → manifestSchema m = true → honest (FManifest c path ct m newId) → keeps (file_manifest c path ct m newId) w.
Proof.
  intros Hd Hs [Hu Hh]. cbn in Hu. unfold file_manifest. destruct (normalizeFilePath path) as [|p]; [done|].
  destruct (validateManifest m) eqn:Hv; [done|]. apply keeps_statement; [done|]. intros o w1 Htx.
  destruct (manifest_tx_ok _ _ _ _ _ _ _ _ (fv_files _ (proj1 Hd)) Hs Hv Htx) as (Hok & Honly & Ho).
  destruct o as [verdict incoming|file verdict orphans created missing].
  - subst w1. by apply keeps_audit.
  - destruct Ho as [Hdone _]. apply keeps_orphans; [|done|by intros w' Hw'].
    split; [by eapply manifest_onwards; [apply Hd|..]|by eapply manifest_stored].
Qed.

Lemma keeps_delete_file c k w : durable w → no_char "/" (fc_userId c) → keeps (delete_file c k) w.
Proof.
  intros Hd Hu. unfold delete_file, atomically. apply keeps_statement; [done|]. intros o w1 [= E].
  pose proof (delete_tx_ok (fc_userId c) k w (fv_files _ (proj1 Hd))) as Htx. rewrite E in Htx.
  destruct Htx as (Hok & Honly & Ho). destruct o as [[file orphans]|]; [|by subst w1].
  apply keeps_orphans; [|done|intros w2 Hw2; by apply keeps_audit]. split; [by eapply delete_onwards; [apply Hd|..]|].
  destruct Hd as [Hi Hs], Honly as (_ & _ & _ & Eo & Eg).
  assert (∀ v h c', fw_chunks w1 !! (v, h) = Some c' → ∃ c0, fw_chunks w !! (v, h) = Some c0
            ∧ c_sizeBytes c' = c_sizeBytes c0 ∧ c_storedAt c' = c_storedAt c0) as Hold
    by (intros v h c' Hc'; exact (dd_chunks _ _ _ _ _ _ Ho (v, h) c' Hc')). split.
  - intros v h c' Hc'. destruct (Hold v h c' Hc') as (c0 & Hc0 & -> & _). by eapply so_sizes.
  - intros v h c' Hc'. destruct (Hold v h c' Hc') as (c0 & Hc0 & _). by eapply so_users.
  - intros v h c' Hc' Hst. destruct (Hold v h c' Hc') as (c0 & Hc0 & _ & E0). rewrite E0 in Hst. rewrite Eo. by eapply so_bytes.
  - rewrite Eg. by apply so_grants.
  - intros j f h Hf Hcomp Hin. destruct (named_row w1 j f h Hok Hf Hin) as [c' Hc']. exists c'. split; [done|].
    destruct (Hold _ _ _ Hc') as (c0 & Hc0 & _ & ->). rewrite (dd_files _ _ _ _ _ _ Ho) in Hf.
    apply lookup_delete_Some in Hf as [Hne Hf].
    unfold chunk_rows in Hin. rewrite (dd_lists _ _ _ _ _ _ Ho), lookup_delete_ne in Hin by done.
    destruct (so_complete _ Hs j f h Hf Hcomp Hin) as (c1 & Hc1 & Hst). rewrite Hc0 in Hc1. by injection Hc1 as <-.
Qed.

(** ** Completing *)

Lemma object_size w u h c n : durable w → fw_chunks w !! (u, h) = Some c →
  fw_objects w !! chunkObjectKey u h = Some n → n = c_sizeBytes c.
Proof.
  intros [Hi Hs] Hc Hn. apply (fv_objects _ Hi), (so_grants _ Hs) in Hn as (v & g & Hv & E & ->).
  apply chunkObjectKey_inj in E as [-> ->]; [|by eapply so_users|done]. symmetry. by eapply so_sizes.
Qed.

Definition confirmable (u : string) (w : FilesWorld) (hashes : list string) : Prop :=
  ∀ h, h ∈ hashes → fw_objects w !! chunkObjectKey u h = Some (size_of h).

(** With honest clients no object has the wrong size, so the loop of HEADs
    changes nothing. *)
Lemma alone_heads u rows w (Q : Checked → FilesWorld → Prop) : durable w →
  (∀ h c, (h, c) ∈ rows → fw_chunks w !! (u, h) = Some c) →
  (∀ acc, confirmable u w (ck_confirmed acc) → ck_rejected acc = [] → Q acc w) →
  ∀ acc, confirmable u w (ck_confirmed acc) → ck_rejected acc = [] → alone durable (head_chunks u rows acc) w Q.
Proof.
  intros Hd Hrows HQ. induction rows as [|[h row] rows IH]; intros acc Hc Hr; cbn [head_chunks]; [by apply HQ|].
  assert (∀ h c, (h, c) ∈ rows → fw_chunks w !! (u, h) = Some c) as Hrows' by (intros; apply Hrows; by right).
  destruct (c_storedAt row) eqn:Est; [by apply IH|]. unfold bucket_head. do 2 apply alone_bind. intros [url|]; [|exact Hd].
  cbn. assert (fw_chunks w !! (u, h) = Some row) as Hrow by (apply Hrows; left).
  destruct (fw_objects w !! chunkObjectKey u h) as [n|] eqn:En; cbn; [|by apply IH].
  pose proof (object_size w u h row n Hd Hrow En) as ->. rewrite Z.eqb_refl. apply IH; [done| |done].
  intros g [Hg|Hg%list_elem_of_singleton]%elem_of_app; [by apply Hc|]. subst g. rewrite En. f_equal. by eapply so_sizes; [apply Hd|].
Qed.

Lemma durable_mark u hashes w : durable w → confirmable u w hashes → durable (mark_stored u hashes w).
Proof.
  intros [Hi Hs] Hc. split; [by apply mark_stored_step|].
  assert (∀ k c', fw_chunks (mark_stored u hashes w) !! k = Some c' → ∃ c, fw_chunks w !! k = Some c
     ∧ c_sizeBytes c' = c_sizeBytes c ∧ (c_storedAt c' = c_storedAt c ∨ k.1 = u ∧ k.2 ∈ hashes)) as Hrow.
  { intros k c'. rewrite mark_stored_lookup. intros (c & Hk & ->)%fmap_Some. exists c. split; [done|]. unfold among.
    destruct (String.eqb_spec k.1 u), (decide (k.2 ∈ hashes)) as [Hin|Hin];
      rewrite ?(bool_decide_true _ Hin), ?(bool_decide_false _ Hin); cbn; try (split; [done|by left]).
    destruct (bool_decide _); cbn; (split; [done|by right]). }
  split.
  - intros v h c' Hc'. destruct (Hrow _ _ Hc') as (c & Hk & -> & _). by eapply so_sizes.
  - intros v h c' Hc'. destruct (Hrow _ _ Hc') as (c & Hk & _). by eapply so_users.
  - intros v h c' Hc' Hst. destruct (Hrow _ _ Hc') as (c & Hk & _ & [E|[E1 E2]]).
    + rewrite E in Hst. by eapply (so_bytes _ Hs).
    + cbn in E1, E2. subst v. by apply Hc.
  - apply Hs.
  - intros k f h Hf Hcomp Hin. destruct (so_complete _ Hs k f h Hf Hcomp Hin) as (c & Hk & Hst).
    rewrite mark_stored_lookup, Hk. cbn. eexists. split; [done|]. by destruct (_ && _).
Qed.

Lemma alone_confirm u groups (Q : unit → FilesWorld → Prop) : ∀ w, durable w → confirmable u w (concat groups) →
  (∀ w', durable w' → fw_files w' = fw_files w → fw_fileChunks w' = fw_fileChunks w → Q tt w') →
  alone durable (confirm_chunks u groups) w Q.
Proof.
  induction groups as [|g groups IH]; intros w Hd Hc HQ; cbn [confirm_chunks]; [by apply HQ|].
  apply alone_bind. cbn. cbn [concat] in Hc. apply IH.
  - apply durable_mark; [done|]. intros h Hh. apply Hc. apply elem_of_app. by left.
  - intros h Hh. cbn. apply Hc. apply elem_of_app. by right.
  - intros w' Hw' Ef El. by apply HQ.
Qed.

Lemma durable_completed w k f : durable w → fw_files w !! k = Some f →
  (∀ h, h ∈ map cr_hash (chunk_rows k w) → ∃ c, fw_chunks w !! (f_userId f, h) = Some c ∧ is_Some (c_storedAt c)) →
  durable (set_files (<[k := complete_file (fw_nowMs w) f]> (fw_files w)) w).
Proof.
  intros [Hi Hs] Hf Hall. split.
  - apply (onwards_files w); [done|by eapply files_ok_row; [apply Hi|exact Hf|done..]|done|done|].
    intros j g. cbn. intros [[<- <-]|[_ Hj]]%lookup_insert_Some _; [exists f; by split|eauto].
  - destruct Hs as [S1 S2 S3 S4 S5]. split; try done. cbn.
    intros j g h [[<- <-]|[_ Hj]]%lookup_insert_Some Hcomp Hin; [by apply Hall|by eapply S5].
Qed.

Lemma all_stored u k f w : durable w → fw_files w !! k = Some f → f_userId f = u →
  map fst (List.filter (λ row : string * ChunkRow, bool_decide (c_storedAt row.2 = None))
     (ownedChunks u (distinctFileHashes k w) w)) = [] →
  ∀ h, h ∈ map cr_hash (chunk_rows k w) → ∃ c, fw_chunks w !! (f_userId f, h) = Some c ∧ is_Some (c_storedAt c).
Proof.
  intros [Hi _] Hf <- Hnil h Hh. destruct (named_row w k f h (fv_files _ Hi) Hf Hh) as [c Hc]. exists c. split; [done|].
  destruct (c_storedAt c) eqn:Est; [by eexists|]. exfalso.
  assert (h ∈ map fst (List.filter (λ row : string * ChunkRow, bool_decide (c_storedAt row.2 = None))
     (ownedChunks (f_userId f) (distinctFileHashes k w) w))) as Hin; [|rewrite Hnil in Hin; by apply not_elem_of_nil in Hin].
  apply list_elem_of_fmap. exists (h, c). split; [done|]. apply In_filter_iff. split; [|by apply bool_decide_eq_true].
  apply elem_ownedChunks. split; [by apply elem_distinctFileHashes|done].
Qed.

Lemma keeps_complete_tx {A} u k confirmed missing (next : CompleteOutcome → FilesHandler A) w :
  durable w → confirmable u w confirmed → (∀ o w', durable w' → keeps (next o) w') →
  keeps (complete_tx u k confirmed missing ≫= next) w.
Proof.
  intros Hd Hc Hn. apply durable_bind. unfold complete_tx. apply alone_bind. apply alone_confirm; [done| |].
  { by rewrite concat_inBatches by lia. }
  intros w1 Hd1 _ _. destruct missing; [|by apply Hn]. apply alone_reading.
  destruct (ownedFile u k w1) as [f|] eqn:Ef; [|by apply Hn].
  apply owned_some in Ef as (Hf & Hu & Hid & _); [|apply Hd1]. rewrite Hid. do 2 apply alone_reading.
  destruct (map fst _) eqn:Em; [|by apply Hn]. apply alone_bind. cbn. rewrite Hf. apply Hn.
  apply durable_completed; [done|done|]. by eapply all_stored.
Qed.

Lemma keeps_complete c k w : durable w → keeps (complete_upload c k) w.
Proof.
  intros Hd. unfold complete_upload. apply keeps_reading. destruct (ownedFile _ _ _) as [f|]; [|done].
  do 2 apply keeps_reading. apply durable_bind. apply alone_heads; [done| | |by intros ? ?%not_elem_of_nil|done].
  { intros h row Hin. by apply elem_ownedChunks in Hin as [_ ?]. }
  intros acc Hc Hr. rewrite Hr. apply durable_bind, keeps_complete_tx; [done|done|].
  intros o w1 Hd1. destruct o; [done|done|by apply keeps_audit].
Qed.

(** ** The other routes *)

Lemma keeps_upload_url c hash w : durable w → no_char "/" (fc_userId c) → keeps (upload_url c hash) w.
Proof.
  intros Hd Hu. unfold upload_url. apply keeps_reading. destruct (fw_chunks w !! _) as [row|] eqn:Er; [|done].
  apply keeps_reading. cbv zeta. destruct (qv_softBlocked _); [done|]. destruct (c_storedAt row); [done|].
  unfold presignPut. do 2 apply durable_bind. intros [url|]; [|exact Hd]. cbn. destruct Hd as [Hi Hs]. split.
  - apply onwards_grant; [done|]. by eapply (fo_sized _ (fv_files _ Hi)).
  - destruct Hs as [S1 S2 S3 S4 S5]. split; try done. cbn. intros key n [[= -> ->]|Hin]%elem_of_cons; [|by apply S4].
    exists (fc_userId c), hash. split; [done|]. split; [done|by eapply S1].
Qed.

Lemma alone_and {A} (I1 I2 : FilesWorld → Prop) (t : FilesHandler A) Q1 Q2 : ∀ w,
  alone I1 t w Q1 → alone I2 t w Q2 → alone (λ w, I1 w ∧ I2 w) t w (λ a w, Q1 a w ∧ Q2 a w).
Proof. induction t as [a| |upd k IH|c k IH]; intros w H3 H4; cbn in *; [done|done|by apply IH|intros r; by apply IH]. Qed.

(** A route whose statements touch neither files nor bucket. *)
Lemma keeps_safe (t : FilesHandler FilesResponse) u w :
  durable w → fsafe u t w shown_ok → alone stored_ok t w (λ _ w', stored_ok w') → keeps t w.
Proof.
  intros [Hi Hs] Ht Hk. assert (alone files_inv t w (λ _ w', files_inv w' ∧ files_le w w')) as Hf.
  { eapply tsafe_alone; [apply _|apply (Ht []); by intros ? ? ?%not_elem_of_nil|done]. }
  eapply alone_mono; [|by apply (alone_and files_inv stored_ok)]. intros a w' [[? _] ?]. by split.
Qed.

Lemma stored_audit u type payload actor w (Q : unit → FilesWorld → Prop) :
  stored_ok w → (∀ w', stored_ok w' → Q tt w') → alone stored_ok (record_audit u type payload actor) w Q.
Proof. intros Hs HQ. unfold record_audit, statement. cbn. case_bool_decide; cbn; [|done]. apply HQ. by apply (stored_same w). Qed.

Lemma stored_move k from change w (Q : option TransferRow → FilesWorld → Prop) :
  stored_ok w → (∀ o w', stored_ok w' → Q o w') → alone stored_ok (move_transfer k from change) w Q.
Proof.
  intros Hs HQ. unfold move_transfer. cbn. destruct (fw_transfers w !! k) as [row|]; [case_bool_decide|]; cbn;
    apply HQ; by first [done|apply (stored_same w)].
Qed.

Lemma stored_create c url dest total newId w : stored_ok w → alone stored_ok (create_transfer c url dest total newId) w (λ _ w', stored_ok w').
Proof.
  intros Hs. unfold create_transfer. destruct (normalizeFilePath dest); [done|]. apply alone_reading.
  destruct (negb _); [done|]. destruct (cloudFetchEligibility _); [|done]. apply alone_statement.
  destruct (transfer_tx _ _ _ _ _ _ _ w) as [[o w1]|] eqn:Etx; [|done].
  assert (stored_ok w1) as Hs1.
  { unfold transfer_tx in Etx. destruct (negb _); [by injection Etx as <- <-|]. destruct (checkActiveTransfers _); [by injection Etx as <- <-|].
    destruct (_ || _); [done|]. injection Etx as <- <-. by apply (stored_same w). }
  destruct o as [verdict|[limit why] active|t].
  - apply alone_bind. by apply stored_audit.
  - apply alone_bind. by apply stored_audit.
  - apply alone_bind. destruct (parse_url url); cbn; [|done]. apply alone_bind. by apply stored_audit.
Qed.

Lemma stored_progress u k body w : stored_ok w → alone stored_ok (updateTransferProgress u k body) w (λ _ w', stored_ok w').
Proof.
  intros Hs. unfold updateTransferProgress. apply alone_reading. destruct (ownedTransfer u k w) as [t|]; [|done].
  destruct (progress_check t body); [done|]. apply alone_bind, stored_move; [done|]. intros o w' Hs'. by destruct o.
Qed.

Lemma stored_cancel c k w : stored_ok w → alone stored_ok (cancel_transfer c k) w (λ _ w', stored_ok w').
Proof.
  intros Hs. unfold cancel_transfer. apply alone_reading. destruct (ownedTransfer _ k w) as [t|]; [|done].
  destruct (isTerminalTransfer _); [done|]. apply alone_bind, stored_move; [done|]. intros o w' Hs'. destruct o; [|done].
  apply alone_bind. by apply stored_audit.
Qed.

Lemma keeps_with_file c path k w : durable w → (∀ f, keeps (k f) w) → keeps (with_file c path k) w.
Proof.
  intros Hd Hk. unfold with_file. destruct (normalizeFilePath path); [done|]. apply keeps_reading.
  destruct (file_at _ _ w); [apply Hk|done].
Qed.

Lemma handle_files_keeps r w : durable w → honest r → keeps (handle_files collate r) w.
Proof.
  intros Hd Hh. pose proof (handle_files_safe collate r w) as Hsafe.
  destruct r; cbn [handle_files] in *; unfold validated in *;
    repeat match goal with |- context [if ?b then _ else _] => destruct b eqn:? end; try by apply keeps_deny.
  - by apply keeps_manifest.
  - by apply keeps_complete.
  - by do 2 apply keeps_reading.
  - apply keeps_with_file; [done|]. intros f. by apply keeps_reading.
  - apply keeps_with_file; [done|]. intros f. destruct (f_completedAt f); [by apply keeps_reading|done].
  - apply keeps_upload_url; [done|apply Hh].
  - apply keeps_reading. destruct (fw_chunks w !! _) as [row|]; [|done]. destruct (c_storedAt row); [|done].
    by apply keeps_bucket.
  - by apply keeps_reading.
  - eapply keeps_safe; [done|exact Hsafe|by apply stored_create, Hd].
  - eapply keeps_safe; [done|exact Hsafe|]. unfold agent_progress. destruct (transferReportRefusal _); [by apply Hd|by apply stored_progress, Hd].
  - eapply keeps_safe; [done|exact Hsafe|by apply stored_progress, Hd].
  - eapply keeps_safe; [done|exact Hsafe|by apply stored_cancel, Hd].
  - unfold list_files. match goal with |- context [match ?x with None => deny _ _ _ | Some _ => _ end] => destruct x end;
      [by apply keeps_reading|done].
  - apply keeps_delete_file; [done|apply Hh].
Qed.

(** ** Turn by turn *)

(** A request served to its end, or something outside the service. *)
Inductive files_turn : FilesWorld → FilesWorld → Prop :=
| turn_request answer r w : honest r → files_turn w (run_alone answer (handle_files collate r) w).2
| turn_env w w' : files_env w w' → files_turn w w'.

Lemma durable_env w w' : durable w → files_env w w' → durable w'.
Proof.
  intros [Hi Hs] He. split; [by eapply files_env_ok|]. destruct He as [w n Hn|w key n Hin]; [by apply (stored_same w)|].
  pose proof (so_grants _ Hs _ _ Hin) as (u & h & Hu & -> & ->). destruct Hs as [S1 S2 S3 S4 S5]. split; try done. cbn.
  intros v g c Hc Hst. destruct (decide (chunkObjectKey u h = chunkObjectKey v g)) as [E|E].
  - rewrite E, lookup_insert_eq. apply chunkObjectKey_inj in E as [_ ->]; [done|done|by eapply S2].
  - rewrite lookup_insert_ne by done. by eapply S3.
Qed.

Lemma durable_request answer r w : durable w → honest r → durable (run_alone answer (handle_files collate r) w).2.
Proof.
  intros Hd Hh. pose proof (alone_run _ answer _ _ _ (handle_files_keeps r w Hd Hh)) as Hr.
  by destruct (run_alone _ _ _) as [[a|] w'].
Qed.

Lemma durable_turns w w' : durable w → rtc files_turn w w' → durable w'.
Proof.
  intros Hd Hr. induction Hr as [|w1 w2 w3 Ht _ IH]; [done|]. apply IH.
  destruct Ht; [by apply durable_request|by eapply durable_env].
Qed.

(** C30: complete files are durable.  While requests of honest clients are
    served one after the other - any requests of any accounts, any failures
    of the bucket, uploads in between - every chunk of a file that is marked
    complete is in the bucket with its full length, and its download is
    granted. *)
Theorem complete_files_durable w0 w k f h c url :
  durable w0 → rtc files_turn w0 w → fw_files w !! k = Some f → is_Some (f_completedAt f) →
  h ∈ map cr_hash (chunk_rows k w) → fc_userId c = f_userId f →
  fw_objects w !! chunkObjectKey (f_userId f) h = Some (size_of h)
  ∧ run_alone (λ _, BucketUp url) (download_url c h) w = (Some (mkFilesResp 200 (FbDownload h (size_of h) url)), w).
Proof.
  intros Hd Hr Hf Hcomp Hin Hu. destruct (durable_turns w0 w Hd Hr) as [Hi Hs].
  destruct (so_complete _ Hs k f h Hf Hcomp Hin) as (row & Hrow & Hst). split; [by eapply so_bytes|].
  unfold download_url, reading, atomically, statement. cbn [thread_bind mbind Thread_bind run_alone]. rewrite Hu, Hrow.
  destruct Hst as [at_ Hst]. rewrite Hst. cbn. by rewrite (so_sizes _ Hs _ _ _ Hrow).
Qed.
End Durable.
