(* ===== verification/FilesRoundtrip.v ===== *)
(** * Uploading a file and reading it back

    A client posts a manifest, uploads the chunks it is told are missing
    through signed URLs, completes the file and reads the manifest. *)

From stdpp Require Import relations.
From S2P Require Export FilesDurable.
From Stdlib Require Import Ascii.

Section Roundtrip.
Context `{UrlParser} `{UrlTextLaws}.
Context (collate : relation string) `{!RelDecision collate}.
Context (size_of : string → Z).
(** The bucket is up. *)
Context (url : string).
Definition up (_ : BucketCall) : BucketAnswer := BucketUp url.
Abbreviation run := (run_alone up).

(** ** The client *)

(** One chunk: a URL is asked for, and used when it is given. *)
Definition send_chunk (c : FilesCaller) (w : FilesWorld) (r : ChunkRef) : FilesWorld :=
  match run (upload_url c (cr_hash r)) w with
  | (Some (mkFilesResp 200 (FbUpload hash false sizeBytes (Some _))), w') =>
      if sizeBytes =? cr_length r then upload (chunkObjectKey (fc_userId c) hash) sizeBytes w' else w'
  | (_, w') => w'
  end.
Definition send_chunks (c : FilesCaller) (l : list ChunkRef) (w : FilesWorld) : FilesWorld := fold_left (send_chunk c) l w.

(** ** Running the pieces *)

Lemma run_orphans u hashes w :
  ∃ o, run (deleteOrphanObjects u hashes) w = (Some tt, set_objects o w).
Proof.
  assert (∀ reclaimed l w, ∃ o, run (delete_objects u reclaimed l) w = (Some tt, set_objects o w)) as Hl.
  { intros reclaimed. induction l as [|h l IH]; intros w0; cbn [delete_objects].
    - exists (fw_objects w0). by destruct w0.
    - case_bool_decide; [apply IH|]. rewrite run_alone_bind. cbn.
      destruct (IH (set_objects (delete (chunkObjectKey u h) (fw_objects w0)) w0)) as [o ->]. by exists o. }
  unfold deleteOrphanObjects. destruct hashes as [|h hashes]; [exists (fw_objects w); by destruct w|].
  rewrite run_alone_reading. apply Hl.
Qed.

Lemma run_audit u type payload actor w : is_Some (fw_accounts w !! u) →
  run (record_audit u type payload actor) w = (Some tt, set_entries (fw_audit w ++ [mkEntry u type payload actor]) w).
Proof. intros Ha. unfold record_audit, statement. cbn. by rewrite bool_decide_true. Qed.

Definition unstored (rows : list (string * ChunkRow)) : list string :=
  map fst (List.filter (λ row : string * ChunkRow, bool_decide (c_storedAt row.2 = None)) rows).

Lemma run_heads u rows w : (∀ h c, (h, c) ∈ rows → c_storedAt c = None → fw_objects w !! chunkObjectKey u h = Some (c_sizeBytes c)) →
  ∀ acc, run (head_chunks u rows acc) w =
    (Some (mkChecked (ck_confirmed acc ++ unstored rows) (ck_missing acc) (ck_rejected acc)), w).
Proof.
  unfold unstored. induction rows as [|[h row] rows IH]; intros Hall acc; cbn [head_chunks List.filter map snd].
  { rewrite app_nil_r. by destruct acc. }
  assert (∀ h c, (h, c) ∈ rows → c_storedAt c = None → fw_objects w !! chunkObjectKey u h = Some (c_sizeBytes c)) as Hrows
    by (intros; apply Hall; [by right|done]).
  destruct (c_storedAt row) eqn:Est; [by apply IH|]. rewrite run_alone_bind. cbn.
  rewrite (Hall h row) by first [left|done]. rewrite Z.eqb_refl, (IH Hrows). cbn. by rewrite <- app_assoc.
Qed.

(** Everything but the marks of chunks stays. *)
Record marked (u : string) (hashes : list string) (w w' : FilesWorld) : Prop := {
  mk_files : fw_files w' = fw_files w;
  mk_lists : fw_fileChunks w' = fw_fileChunks w;
  mk_accounts : fw_accounts w' = fw_accounts w;
  mk_rows : ∀ k c, fw_chunks w !! k = Some c → ∃ c', fw_chunks w' !! k = Some c'
    ∧ (is_Some (c_storedAt c) ∨ k.1 = u ∧ k.2 ∈ hashes → is_Some (c_storedAt c'))
}.

Lemma run_confirm u groups : ∀ w, ∃ w', run (confirm_chunks u groups) w = (Some tt, w') ∧ marked u (concat groups) w w'.
Proof.
  induction groups as [|g groups IH]; intros w; cbn [confirm_chunks].
  - exists w. split; [done|]. split; try done. intros k c Hc. exists c. split; [done|].
    intros [?|[_ ?%not_elem_of_nil]]; done.
  - rewrite run_alone_bind. cbn. destruct (IH (mark_stored u g w)) as (w' & -> & [Ef El Ea Hr]). exists w'. split; [done|].
    split; try done. intros k c Hc.
    destruct (Hr k (if among u g k && bool_decide (c_storedAt c = None)
                    then mkChunkRow (c_sizeBytes c) (c_refCount c) (Some (fw_nowMs w)) else c)) as (c' & Hc' & Hst).
    { rewrite mark_stored_lookup, Hc. done. }
    exists c'. split; [done|]. intros Hor. apply Hst. cbn [concat] in Hor. unfold among.
    destruct Hor as [Hs|[Hu [Hg|Hg]%elem_of_app]]; [left; by destruct (_ && _)| |by right].
    left. rewrite (proj2 (String.eqb_eq _ _) Hu), (bool_decide_true _ Hg). cbn.
    destruct (c_storedAt c) as [z|] eqn:E; [rewrite bool_decide_false by done; rewrite E|rewrite bool_decide_true by done]; by eexists.
Qed.

(** ** Sending the missing chunks *)

Record sent (u : string) (hashes : list string) (w w' : FilesWorld) : Prop := {
  st_files : fw_files w' = fw_files w;
  st_lists : fw_fileChunks w' = fw_fileChunks w;
  st_chunks : fw_chunks w' = fw_chunks w;
  st_accounts : fw_accounts w' = fw_accounts w;
  st_ids : fw_ids w' = fw_ids w;
  st_objects : ∀ h, h ∈ hashes ∨ fw_objects w !! chunkObjectKey u h = Some (size_of h) →
    fw_objects w' !! chunkObjectKey u h = Some (size_of h)
}.

Lemma send_chunk_sent c r w row : fw_chunks w !! (fc_userId c, cr_hash r) = Some row → c_storedAt row = None →
  c_sizeBytes row = size_of (cr_hash r) → cr_length r = size_of (cr_hash r) →
  usedBytes (fc_userId c) (fw_chunks w) < PRO_QUOTA_BYTES → sent (fc_userId c) [cr_hash r] w (send_chunk c w r).
Proof.
  intros Hrow Hst Hsz Hlen Hq. unfold send_chunk, upload_url. rewrite run_alone_reading, Hrow, run_alone_reading. cbv zeta.
  assert (qv_softBlocked (checkQuota (quotaState (fc_userId c) w) 0) = false) as ->.
  { unfold checkQuota, quotaState. cbn [qv_softBlocked qs_usedBytes qs_limitBytes].
    rewrite Z.geb_leb. by apply Z.leb_gt. }
  rewrite Hst. cbn. rewrite Hsz, Hlen, Z.eqb_refl. split; try done. cbn. intros h Hor.
  destruct (decide (chunkObjectKey (fc_userId c) (cr_hash r) = chunkObjectKey (fc_userId c) h)) as [E|E].
  - assert (cr_hash r = h) as <-; [|by rewrite lookup_insert_eq].
    unfold chunkObjectKey in E. by do 3 apply sapp_inj_l in E.
  - rewrite lookup_insert_ne by done. destruct Hor as [->%list_elem_of_singleton|?]; done.
Qed.

(** What the client does is a request and an upload. *)
Lemma send_chunk_turns c r w : no_char "/" (fc_userId c) → rtc (files_turn collate size_of) w (send_chunk c w r).
Proof.
  intros Hu. assert (files_turn collate size_of w (run (upload_url c (cr_hash r)) w).2) as Ht
    by exact (turn_request collate size_of up (FUploadUrl c (cr_hash r)) w (conj Hu I)).
  unfold send_chunk. revert Ht. unfold upload_url. rewrite run_alone_reading.
  destruct (fw_chunks w !! _) as [row|]; [|by intros ?%rtc_once]. rewrite run_alone_reading. cbv zeta.
  destruct (qv_softBlocked _); [by intros ?%rtc_once|]. destruct (c_storedAt row); [by intros ?%rtc_once|]. cbn. intros Ht.
  case_match; [|by apply rtc_once]. eapply rtc_l; [exact Ht|]. apply rtc_once, turn_env, env_upload. cbn. left.
Qed.

Lemma send_chunks_turns c l : ∀ w, no_char "/" (fc_userId c) → rtc (files_turn collate size_of) w (send_chunks c l w).
Proof.
  unfold send_chunks. induction l as [|r l IH]; intros w Hu; cbn [fold_left]; [done|]. etrans; [by apply send_chunk_turns|by apply IH].
Qed.

Lemma send_chunks_sent c l : ∀ w,
  (∀ r, r ∈ l → cr_length r = size_of (cr_hash r) ∧ ∃ row, fw_chunks w !! (fc_userId c, cr_hash r) = Some row
     ∧ c_storedAt row = None ∧ c_sizeBytes row = size_of (cr_hash r)) →
  usedBytes (fc_userId c) (fw_chunks w) < PRO_QUOTA_BYTES →
  sent (fc_userId c) (map cr_hash l) w (send_chunks c l w).
Proof.
  unfold send_chunks. induction l as [|r l IH]; intros w Hl Hq; cbn [fold_left map].
  { split; try done. by intros h [?%not_elem_of_nil|?]. }
  destruct (Hl r) as (Hlen & row & Hrow & Hst & Hsz); [left|].
  destruct (send_chunk_sent c r w row Hrow Hst Hsz Hlen Hq) as [Ef El Ec Ea Ei Ho].
  destruct (IH (send_chunk c w r)) as [Ef' El' Ec' Ea' Ei' Ho'].
  - intros x Hx. rewrite Ec. apply Hl. by right.
  - by rewrite Ec.
  - split; [congruence..|]. intros h [[->|Hin]%elem_of_cons|Hk]; apply Ho'; [right|by left|right]; apply Ho; [left; left|by right].
Qed.

(** ** The manifest is accepted *)

Lemma manifest_tx_some u path ct m newId w :
  files_ok w → is_Some (fw_accounts w !! u) → newId ∉ fw_ids w →
  usedBytes u (fw_chunks w) + new_bytes u m w <= PRO_QUOTA_BYTES →
  ∃ file verdict orphans created missing w',
    manifest_tx u path ct m newId w = Some (MoOk file verdict orphans created missing, w').
Proof.
  intros Hok Ha Hid Hq. unfold manifest_tx. unfold new_bytes, newBytes, missingChunkRefs in Hq.
  assert (List.filter (λ chunk, negb (bool_decide (cr_hash chunk ∈ map fst (ownedChunks u (map cr_hash (distinctChunks m)) w)))) (distinctChunks m) =
    List.filter (λ chunk, negb (bool_decide (is_Some (fw_chunks w !! (u, cr_hash chunk))))) (distinctChunks m)) as ->.
  { apply filter_ext_in. intros c Hc. f_equal. apply bool_decide_ext. rewrite elem_ownedHashes.
    split; [by intros [_ ?]|]. intros Hs. split; [|done]. apply list_elem_of_fmap. exists c. split; [done|by apply list_elem_of_In]. }
  assert (qv_allowed (checkQuota (quotaState u w) (total_length (List.filter (λ chunk, negb (bool_decide (is_Some (fw_chunks w !! (u, cr_hash chunk)))))
    (distinctChunks m)))) = true) as -> by (apply Z.leb_le; exact Hq).
  cbn [negb].
  assert (∃ file w1, put_file u path newId ct m (file_at u path w) w = Some (file, w1)) as (file & w1 & Ep).
  { unfold put_file. destruct (file_at u path w); [by eexists _, _|]. rewrite bool_decide_false, bool_decide_true by done. by eexists _, _. }
  rewrite Ep. apply put_file_ok in Ep as (Ew1 & _ & _ & _ & _ & _ & Hfid & _); [|done].
  rewrite (manifest_detach _ _ _ _ _ _ Hfid Ew1). subst w1.
  change (fw_fileChunks w) with (fw_fileChunks (set_files (<[f_id file:=file]> (fw_files w)) (set_ids ({[f_id file]} ∪ fw_ids w) w))) at 1.
  rewrite manifest_attach. destruct (releaseHashes _ _ _) as [orphans w4]. by eexists _, _, _, _, _, _.
Qed.

(** ** Completing and reading *)

Lemma run_complete_tx u k confirmed f w :
  files_ok w → fw_files w !! k = Some f → f_userId f = u →
  (∀ h, h ∈ map cr_hash (chunk_rows k w) → ∃ c, fw_chunks w !! (u, h) = Some c ∧ (is_Some (c_storedAt c) ∨ h ∈ confirmed)) →
  ∃ w' now, run (complete_tx u k confirmed []) w = (Some (CoOk (complete_file now f)), w')
    ∧ fw_files w' = <[k := complete_file now f]> (fw_files w) ∧ fw_fileChunks w' = fw_fileChunks w
    ∧ fw_accounts w' = fw_accounts w.
Proof.
  intros Hok Hf Hu Hall. unfold complete_tx. rewrite run_alone_bind.
  destruct (run_confirm u (inBatches confirmed 1000) w) as (w1 & -> & [Ef El Ea Hr]). rewrite concat_inBatches in Hr by lia.
  rewrite run_alone_reading. unfold ownedFile. rewrite Ef, Hf, (proj2 (String.eqb_eq _ _) Hu).
  rewrite (fo_keyed _ Hok _ _ Hf), !run_alone_reading.
  assert (map fst (List.filter (λ row : string * ChunkRow, bool_decide (c_storedAt row.2 = None))
    (ownedChunks u (distinctFileHashes k w1) w1)) = []) as ->.
  { rewrite filter_none; [done|]. intros [h c] [Hin Hc]%elem_ownedChunks. apply bool_decide_eq_false. cbn.
    apply elem_distinctFileHashes in Hin. unfold chunk_rows in Hin. rewrite El in Hin.
    destruct (Hall h Hin) as (c0 & Hc0 & Hor). destruct (Hr _ _ Hc0) as (c' & Hc' & Hst). rewrite Hc in Hc'. injection Hc' as <-.
    destruct Hst as [z ->]; [|done]. destruct Hor; [by left|by right]. }
  rewrite run_alone_bind. unfold set_completed, atomically, statement. cbn [run_alone]. rewrite Ef, Hf. cbn.
  eexists _, _. split; [done|]. by cbn.
Qed.

Lemma run_complete c k f w : files_ok w → fw_files w !! k = Some f → f_userId f = fc_userId c →
  is_Some (fw_accounts w !! fc_userId c) →
  (∀ h, h ∈ map cr_hash (chunk_rows k w) → ∃ row, fw_chunks w !! (fc_userId c, h) = Some row
     ∧ (c_storedAt row = None → fw_objects w !! chunkObjectKey (fc_userId c) h = Some (c_sizeBytes row))) →
  ∃ w' now, run (complete_upload c k) w = (Some (mkFilesResp 200 (FbCompleted (fileEntryView (complete_file now f)))), w')
    ∧ fw_files w' = <[k := complete_file now f]> (fw_files w) ∧ fw_fileChunks w' = fw_fileChunks w.
Proof.
  intros Hok Hf Hu Ha Hall. unfold complete_upload. rewrite run_alone_reading. unfold ownedFile.
  rewrite Hf, (proj2 (String.eqb_eq _ _) Hu), (fo_keyed _ Hok _ _ Hf), !run_alone_reading. rewrite run_alone_bind, run_heads.
  2:{ intros h row [Hin Hrow]%elem_ownedChunks Hst. apply elem_distinctFileHashes in Hin.
      destruct (Hall h Hin) as (row' & Hrow' & Ho). rewrite Hrow in Hrow'. injection Hrow' as <-. by apply Ho. }
  cbn [ck_rejected ck_confirmed ck_missing app]. rewrite run_alone_bind. cbn [mret Thread_ret run_alone].
  rewrite run_alone_bind.
  destruct (run_complete_tx (fc_userId c) k (unstored (ownedChunks (fc_userId c) (distinctFileHashes k w) w)) f w Hok Hf Hu)
    as (w1 & now & -> & Ef & El & Eacc).
  { intros h Hin. destruct (Hall h Hin) as (row & Hrow & _). exists row. split; [done|].
    destruct (c_storedAt row) eqn:Est; [left; by eexists|right]. apply list_elem_of_fmap. exists (h, row). split; [done|].
    apply In_filter_iff. split; [|by apply bool_decide_eq_true]. apply elem_ownedChunks.
    split; [by apply elem_distinctFileHashes|done]. }
  rewrite run_alone_bind, run_audit by by rewrite Eacc. eexists _, now. split; [reflexivity|]. by cbn.
Qed.

Lemma run_get_manifest c rawPath path k f w rows : files_ok w → normalizeFilePath rawPath = inr path →
  fw_files w !! k = Some f → f_userId f = fc_userId c → f_path f = path → is_Some (f_completedAt f) → chunk_rows k w = rows →
  run (get_manifest c rawPath) w = (Some (mkFilesResp 200 (FbManifest (mkManifest (f_fileHash f) (f_sizeBytes f) rows))), w).
Proof.
  intros Hok Hp Hf Hu Hpath [z Hz] Hrows. unfold get_manifest, with_file. rewrite Hp, run_alone_reading.
  assert (file_at (fc_userId c) path w = Some f) as ->.
  { apply file_at_some; [done|]. by rewrite (fo_keyed _ Hok _ _ Hf). }
  rewrite Hz, run_alone_reading, (fo_keyed _ Hok _ _ Hf), Hrows. done.
Qed.

Lemma run_manifest c rawPath path ct m newId w : files_ok w → is_Some (fw_accounts w !! fc_userId c) → newId ∉ fw_ids w →
  manifestSchema m = true → validateManifest m = None → normalizeFilePath rawPath = inr path →
  usedBytes (fc_userId c) (fw_chunks w) + new_bytes (fc_userId c) m w <= PRO_QUOTA_BYTES →
  ∃ status file orphans missing used limit w1,
    run (handle_files collate (FManifest c rawPath ct m newId)) w
      = (Some (mkFilesResp status (FbAccepted (fileEntryView file) missing used limit)), w1)
    ∧ files_ok w1 ∧ fw_accounts w1 = fw_accounts w ∧ manifest_done (fc_userId c) path m w file orphans missing w1.
Proof.
  intros Hok Ha Hid Hs Hv Hp Hq. cbn [handle_files]. rewrite Hs. cbn [validated]. unfold file_manifest. rewrite Hp, Hv.
  destruct (manifest_tx_some (fc_userId c) path ct m newId w Hok Ha Hid Hq) as (file & verdict & orphans & created & missing & w4 & Etx).
  rewrite (run_alone_statement _ _ _ _ _ _ Etx), run_alone_bind. destruct (run_orphans (fc_userId c) orphans w4) as [o ->].
  destruct (manifest_tx_ok _ _ _ _ _ _ _ _ Hok Hs Hv Etx) as (Hok4 & (_ & Ea & _) & Hdone & _).
  exists (if created then 201 else 200), file, orphans, missing, (qv_usedBytes verdict), (qv_limitBytes verdict), (set_objects o w4).
  split; [done|]. split; [by apply (files_ok_same w4)|]. split; [done|]. by destruct Hdone.
Qed.

(** C31: what is uploaded is read back.  A client whose manifest fits the quota
    posts it, uploads every chunk it is told is missing through the URLs it
    asks for, and completes: each request is answered with success, and the
    manifest of the path is then the manifest posted. *)
Theorem upload_roundtrip c rawPath path ct m newId w :
  durable size_of w → honest size_of (FManifest c rawPath ct m newId) →
  is_Some (fw_accounts w !! fc_userId c) → newId ∉ fw_ids w →
  manifestSchema m = true → validateManifest m = None → normalizeFilePath rawPath = inr path →
  usedBytes (fc_userId c) (fw_chunks w) + new_bytes (fc_userId c) m w < PRO_QUOTA_BYTES →
  ∃ status file missing used limit w1 done w2,
    run (handle_files collate (FManifest c rawPath ct m newId)) w = (Some (mkFilesResp status (FbAccepted file missing used limit)), w1)
    ∧ run (handle_files collate (FComplete c (fe_id file))) (send_chunks c missing w1) = (Some (mkFilesResp 200 (FbCompleted done)), w2)
    ∧ run (handle_files collate (FGetManifest c rawPath)) w2 = (Some (mkFilesResp 200 (FbManifest m)), w2).
Proof.
  intros Hd Hh Ha Hid Hs Hv Hp Hq.
  destruct (run_manifest c rawPath path ct m newId w (fv_files _ (proj1 Hd)) Ha Hid Hs Hv Hp ltac:(lia))
    as (status & file & orphans & missing & used & limit & w1 & Er & Hok1 & Ea1 & Hdone).
  pose proof (durable_request collate size_of up _ w Hd Hh) as Hd1. rewrite Er in Hd1. cbn [snd] in Hd1.
  pose proof (durable_turns collate size_of _ _ Hd1 (send_chunks_turns c missing w1 (proj1 Hh))) as Hd1'.
  set (u := fc_userId c) in *. pose proof (proj2 Hh) as Hlen. cbn in Hlen. rewrite Forall_forall in Hlen.
  destruct (send_chunks_sent c missing w1) as [Ef El Ec Ea Ei Ho].
  { intros r (Hr & row & Hrow & Hst)%(md_missing _ _ _ _ _ _ _ _ Hdone). split; [by apply Hlen, distinctChunks_elem|].
    exists row. split; [done|]. split; [done|]. by eapply (so_sizes _ _ (proj2 Hd1)). }
  { pose proof (md_used _ _ _ _ _ _ _ _ Hdone). unfold u in *. lia. }
  set (w1' := send_chunks c missing w1) in *. destruct (md_row _ _ _ _ _ _ _ _ Hdone) as (Hu & Hpath & Hsz & Hfh & _).
  assert (fw_files w1' !! f_id file = Some file) as Hf by (by rewrite Ef, (md_file _ _ _ _ _ _ _ _ Hdone), lookup_insert_eq).
  assert (chunk_rows (f_id file) w1' = mn_chunks m) as Hrows
    by (unfold chunk_rows; by rewrite El, (md_list _ _ _ _ _ _ _ _ Hdone), lookup_insert_eq).
  destruct (run_complete c (f_id file) file w1') as (w2 & now & Ec2 & Ef2 & El2); [by apply (files_ok_same w1)|done|done|by rewrite Ea, Ea1| |].
  { rewrite Hrows. intros h Hin. destruct (md_known _ _ _ _ _ _ _ _ Hdone h Hin) as [row Hrow]. rewrite Ec. exists row. split; [done|].
    intros Hst. rewrite (so_sizes _ _ (proj2 Hd1) _ _ _ Hrow). apply Ho. left.
    apply distinctChunks_spec in Hin. apply list_elem_of_fmap in Hin as (r & -> & Hr). apply list_elem_of_fmap. exists r. split; [done|].
    apply (md_missing _ _ _ _ _ _ _ _ Hdone). split; [done|]. by exists row. }
  pose proof (durable_request collate size_of up (FComplete c (f_id file)) w1' Hd1' (conj (proj1 Hh) I)) as Hd2.
  cbn [handle_files] in Hd2. rewrite Ec2 in Hd2. cbn [snd] in Hd2.
  exists status, (fileEntryView file), missing, used, limit, w1, (fileEntryView (complete_file now file)), w2.
  split; [done|]. split; [exact Ec2|]. cbn [handle_files].
  rewrite (run_get_manifest c rawPath path (f_id file) (complete_file now file) w2 (mn_chunks m)); try done.
  - cbn. rewrite Hfh, Hsz. by destruct m.
  - exact (fv_files _ (proj1 Hd2)).
  - by rewrite Ef2, lookup_insert_eq.
  - unfold chunk_rows. by rewrite El2.
Qed.
End Roundtrip.
