(* ===== verification/FilesDemo.v ===== *)
(** * Runs of the Files API, and the witnesses

    Scheduled runs: an upload, a download to the cloud and requests of two
    accounts; then four races in which what single requests keep is lost. *)

From stdpp Require Import relations.
From S2P Require Export FilesRoundtrip Threads.
From Stdlib Require Import Ascii.

(** ** Moves outside the service *)

Inductive FilesMove := MvTime (nowMs : Z) | MvUpload (key : string) (n : Z).

Definition files_move (m : FilesMove) (w : FilesWorld) : option FilesWorld :=
  match m with
  | MvTime n => if fw_nowMs w <=? n then Some (with_time n w) else None
  | MvUpload key n => if bool_decide ((key, n) ∈ fw_grants w) then Some (upload key n w) else None
  end.

Lemma files_move_env m w w' : files_move m w = Some w' → files_env w w'.
Proof.
  destruct m as [n|key n]; cbn [files_move].
  - destruct (fw_nowMs w <=? n) eqn:E; [|discriminate]. intros [= <-]. bprop. by apply env_time.
  - destruct (decide ((key, n) ∈ fw_grants w)) as [E|E];
      rewrite ?(bool_decide_true _ E), ?(bool_decide_false _ E); [|discriminate]. intros [= <-]. by apply env_upload.
Qed.

Abbreviation FilesEvents := (list (Event FilesRequest BucketAnswer FilesMove)).

(** ** An empty service *)

Definition empty_world (nowMs : Z) (accounts : gmap string (list string)) : FilesWorld :=
  mkFilesWorld nowMs accounts ∅ ∅ ∅ ∅ ∅ [] ∅ [].

Lemma empty_durable size_of nowMs accounts : durable size_of (empty_world nowMs accounts).
Proof.
  assert (∀ A k (a : A), (∅ : gmap string A) !! k = Some a → False) as Hn by (by intros A k a ?%lookup_empty_Some).
  assert (∀ k c, (∅ : gmap (string * string) ChunkRow) !! k = Some c → False) as Hc by (by intros k c ?%lookup_empty_Some).
  split; split; cbn; try (by intros; exfalso; eauto); try by intros ? ? ?%not_elem_of_nil.
  split; cbn; try (by intros; exfalso; eauto).
  - by intros k [? ?%lookup_empty_Some].
  - by intros k c ?%lookup_empty_Some.
  - by intros k c ?%lookup_empty_Some.
  - intros u h. fold (empty_world nowMs accounts).
    assert (claimants u h (empty_world nowMs accounts) = ∅) as ->; [|reflexivity].
    apply set_eq. intros k. rewrite elem_claimants. split; [|by intros ?%not_elem_of_empty].
    intros (f & Hf & _). cbn in Hf. by apply lookup_empty_Some in Hf.
  - intros u. by vm_compute.
  - intros u. by vm_compute.
Qed.

(** ** The scenario *)

Module FilesDemo.
Definition U : FilesCaller := mkCaller "u" (Some "d1").
Definition V : FilesCaller := mkCaller "v" None.
Definition start : FilesWorld := empty_world 1000 (<["u" := ["cloud-fetch"]]> {["v" := []]}).

Definition hash (c : ascii) : string := of_chars (repeat c 64).
Definition A : string := hash "a".
Definition B : string := hash "b".
(** The length of what is behind a hash. *)
Definition size_of (h : string) : Z := if String.eqb h A then 100 else 200.

Definition m1 : Manifest := mkManifest (hash "1") 100 [mkRef A 0 100].
Definition m2 : Manifest := mkManifest (hash "2") 300 [mkRef A 0 100; mkRef B 100 200].
Definition m3 : Manifest := mkManifest (hash "3") 200 [mkRef B 0 200].

#[global] Instance parser : UrlParser := λ text,
  Some (mkURL "https:" "" "" "files.example.com" "/big.iso" [] "https://files.example.com").
#[global] Instance bare : UrlText := λ raw, Some (before_query raw).
#[global] Instance bare_plain : UrlTextLaws.
Proof. intros raw s [= <-]. apply before_query_plain. Qed.
Definition collate (a b : string) : Prop := String.leb a b = true.
#[global] Instance collate_dec : RelDecision collate.
Proof. intros a b. unfold collate. apply _. Defined.
Abbreviation serve := (handle_files collate).
Abbreviation FilesPool := (Config (World := FilesWorld) (Ext := BucketCall) (Answer := BucketAnswer)
  (Request := FilesRequest) (Response := FilesResponse)).
Definition run_demo (l : FilesEvents) (c : FilesPool) : option FilesPool := run_events serve files_move l c.
Definition run_from (w : FilesWorld) (l : FilesEvents) := run_demo l (initial w).
Definition outcome i (c : option FilesPool) : option FilesResponse := c ← c; response_of i c.

Definition ask (r : FilesRequest) (i n : nat) : FilesEvents := EvSpawn r :: repeat (EvRun i) n.
Definition get_url (i : nat) (c : FilesCaller) (h : string) : FilesEvents :=
  ask (FUploadUrl c h) i 2 ++ [EvAnswer i (BucketUp "https://bucket"); EvRun i; EvEnv (MvUpload (chunkObjectKey (fc_userId c) h) (size_of h))].

(** Both accounts post a manifest; the first uploads, completes its file and
    starts a transfer. *)
Definition upload_a : FilesEvents :=
  [EvSpawn (FManifest U "/a" None m1 "f1"); EvSpawn (FManifest V "/a" None m2 "f2"); EvRun 1; EvRun 0]
  ++ get_url 2 U A
  ++ ask (FComplete U "f1") 3 3 ++ [EvAnswer 3 (BucketUp "")] ++ repeat (EvRun 3) 7
  ++ ask (FCreateTransfer U "https://files.example.com/big.iso?sig=1" "/big" (Some 200000000) "t1") 4 3.

(** The transfer fetches, and is cancelled. *)
Definition fetch_and_cancel : FilesEvents :=
  [EvEnv (MvTime 2000)] ++ ask (FDeviceProgress U "t1" (mkProgress fetching 10 None None)) 5 2
  ++ ask (FCancel U "t1") 6 3 ++ ask (FListTransfers U None 10) 7 1.

Definition first : option FilesPool := run_from start upload_a.
Definition then_ : option FilesPool := c ← first; run_demo fetch_and_cancel c.

(** ** Races *)

(** A manifest replaces the file between the last check of complete and its
    update. *)
Definition replaced : FilesEvents :=
  ask (FManifest U "/a" None m1 "f1") 0 1 ++ get_url 1 U A
  ++ ask (FComplete U "f1") 2 3 ++ [EvAnswer 2 (BucketUp "")] ++ repeat (EvRun 2) 5
  ++ ask (FManifest U "/a" None m3 "f2") 3 1 ++ repeat (EvRun 2) 2.

(** A chunk is claimed, uploaded and confirmed again between the recheck of a
    deletion and its call of the bucket. *)
Definition reclaimed : FilesEvents :=
  ask (FManifest U "/a" None m1 "f1") 0 1 ++ ask (FDelete U "f1") 1 2
  ++ ask (FManifest U "/b" None m1 "f2") 2 1 ++ get_url 3 U A
  ++ ask (FComplete U "f2") 4 3 ++ [EvAnswer 4 (BucketUp "")] ++ repeat (EvRun 4) 7
  ++ [EvAnswer 1 (BucketUp "")] ++ repeat (EvRun 1) 2.

(** Two reports of one state cross. *)
Definition crossed : FilesEvents :=
  ask (FCreateTransfer U "https://files.example.com/big.iso" "/big" (Some 200000000) "t1") 0 3
  ++ ask (FDeviceProgress U "t1" (mkProgress fetching 0 None None)) 1 2
  ++ ask (FDeviceProgress U "t1" (mkProgress fetching 900 None None)) 2 1
  ++ ask (FDeviceProgress U "t1" (mkProgress fetching 100 None None)) 3 1
  ++ [EvRun 2; EvRun 3].

Definition state_after (l : FilesEvents) : option FilesWorld := cf_world <$> run_from start l.
End FilesDemo.

(** What the scenario answers. *)
Example files_demo_uploaded :
  match FilesDemo.outcome 3 FilesDemo.first with Some (mkFilesResp 200 (FbCompleted f)) => fe_path f = "/a" | _ => False end.
Proof. vm_compute. reflexivity. Qed.
Example files_demo_cancelled :
  match FilesDemo.outcome 7 FilesDemo.then_ with
  | Some (mkFilesResp 200 (FbTransfers [t])) => tv_state t = cancelled ∧ tv_url t = "https://files.example.com/big.iso"
  | _ => False
  end.
Proof. vm_compute. split; reflexivity. Qed.

(** The file is complete, and named complete to the client, but its chunk is
    not stored. *)
Example replaced_file_is_complete :
  match FilesDemo.state_after FilesDemo.replaced with
  | Some w =>
      match fw_files w !! "f1", fw_chunks w !! ("u", FilesDemo.B) with
      | Some f, Some c => f_fileHash f = mn_fileHash FilesDemo.m3 ∧ is_Some (f_completedAt f) ∧ c_storedAt c = None
      | _, _ => False
      end
  | None => False
  end.
Proof. vm_compute. split; [reflexivity|]. split; [by eexists|reflexivity]. Qed.

(** The file is complete and its chunk marked stored, but the bytes are gone. *)
Example reclaimed_bytes_are_lost :
  match FilesDemo.state_after FilesDemo.reclaimed with
  | Some w =>
      match fw_files w !! "f2", fw_chunks w !! ("u", FilesDemo.A) with
      | Some f, Some c => is_Some (f_completedAt f) ∧ is_Some (c_storedAt c) ∧ fw_objects w !! chunkObjectKey "u" FilesDemo.A = None
      | _, _ => False
      end
  | None => False
  end.
Proof. vm_compute. split; [by eexists|]. split; [by eexists|reflexivity]. Qed.

(** The counter went from 900 back to 100, and both reports were accepted. *)
Example crossed_reports_go_back :
  let c := FilesDemo.run_from FilesDemo.start FilesDemo.crossed in
  match FilesDemo.outcome 2 c, FilesDemo.outcome 3 c with
  | Some (mkFilesResp 200 (FbTransfer a)), Some (mkFilesResp 200 (FbTransfer b)) =>
      tv_receivedBytes a = 900 ∧ tv_receivedBytes b = 100
  | _, _ => False
  end.
Proof. vm_compute. split; reflexivity. Qed.

(** One hash with two lengths: the manifest is accepted, and only the first
    length is charged. *)
Example two_lengths_one_charge :
  let m := mkManifest (FilesDemo.hash "4") 300 [mkRef FilesDemo.A 0 100; mkRef FilesDemo.A 100 200] in
  manifestSchema m = true ∧ validateManifest m = None ∧ newBytes m (λ _, false) = 100.
Proof. vm_compute. split; [reflexivity|]. split; reflexivity. Qed.

(** Once the quota is filled to the byte, which a manifest may do, no chunk of
    it can be uploaded. *)
Lemma full_quota_blocks_upload c hash row answer w :
  fw_chunks w !! (fc_userId c, hash) = Some row → usedBytes (fc_userId c) (fw_chunks w) = PRO_QUOTA_BYTES →
  ∃ verdict, run_alone answer (upload_url c hash) w = (Some (mkFilesResp 413 (FbQuotaExceeded verdict)), w).
Proof.
  intros Hrow Hq. unfold upload_url. rewrite run_alone_reading, Hrow, run_alone_reading. cbv zeta.
  assert (qv_softBlocked (checkQuota (quotaState (fc_userId c) w) 0) = true) as ->; [|by eexists].
  unfold checkQuota, quotaState. cbn [qv_softBlocked qs_usedBytes qs_limitBytes]. rewrite Hq, Z.geb_leb. by apply Z.leb_refl.
Qed.

(** ** Witnesses *)

Lemma files_start_durable : durable FilesDemo.size_of FilesDemo.start.
Proof. apply empty_durable. Qed.

Lemma files_run_steps (l : FilesEvents) c c' :
  FilesDemo.run_demo l c = Some c' → rtc (pool_step FilesDemo.serve files_env) c c'.
Proof. apply run_events_steps, files_move_env. Qed.

Lemma files_first_then :
  ∃ c c', FilesDemo.first = Some c ∧ FilesDemo.run_demo FilesDemo.fetch_and_cancel c = Some c' ∧ FilesDemo.then_ = Some c'.
Proof.
  assert (is_Some FilesDemo.then_) as [c' Hc'].
  { assert (match FilesDemo.then_ with Some _ => true | None => false end = true) as H by (vm_compute; reflexivity).
    destruct FilesDemo.then_; [eauto|discriminate]. }
  unfold FilesDemo.then_ in *. destruct FilesDemo.first as [c|] eqn:E; [|discriminate].
  cbn [mbind option_bind] in *. exists c, c'. split; [reflexivity|]. split; exact Hc'.
Qed.

Lemma files_consistent_witness :
  ∃ c, FilesDemo.first = Some c
    ∧ (∀ u h, refs (fw_chunks (cf_world c)) u h = Z.of_nat (size (claimants u h (cf_world c))))
    ∧ (∀ u, usedBytes u (fw_chunks (cf_world c)) <= PRO_QUOTA_BYTES ∧ active_transfers u (cf_world c) <= maxActiveTransfers).
Proof.
  destruct files_first_then as (c & _ & Hc & _). exists c. split; [exact Hc|].
  destruct (files_consistent FilesDemo.collate FilesDemo.start c (proj1 files_start_durable) (files_run_steps _ _ _ Hc))
    as (Hrefs & _ & Hquota & _). split; [exact Hrefs|exact Hquota].
Defined.

Lemma files_accounts_isolated_witness :
  ∃ c r resp, FilesDemo.first = Some c ∧ cf_threads c !! 3%nat = Some r ∧ run_thread r = Ret resp
    ∧ ∀ w1 w2, (w1, w2) ∈ own_pieces 3 (cf_history c) → touches (request_user (run_request r)) w1 w2.
Proof.
  destruct files_first_then as (c & _ & Hc & _).
  assert (match FilesDemo.outcome 3 FilesDemo.first with Some _ => true | None => false end = true) as Hres
    by (vm_compute; reflexivity). rewrite Hc in Hres. unfold FilesDemo.outcome in Hres. cbn [mbind option_bind] in Hres.
  destruct (response_of 3 c) as [resp|] eqn:E; [|discriminate Hres]. apply response_of_thread in E as (r & Hl & Hret).
  exists c, r, resp. split; [exact Hc|]. split; [exact Hl|]. split; [exact Hret|].
  exact (proj1 (files_accounts_isolated FilesDemo.collate FilesDemo.start c 3%nat r resp (proj1 files_start_durable)
    (files_run_steps _ _ _ Hc) Hl Hret)).
Defined.

Lemma transfers_move_forward_witness :
  ∃ c' t', FilesDemo.then_ = Some c' ∧ fw_transfers (cf_world c') !! "t1" = Some t' ∧ t_destPath t' = "/big".
Proof.
  destruct files_first_then as (c & c' & Hc & Hc' & Ht).
  assert ((λ c, t_destPath <$> fw_transfers (cf_world c) !! "t1") <$> FilesDemo.first = Some (Some "/big")) as Hd
    by (vm_compute; reflexivity). rewrite Hc in Hd. injection Hd as Hd.
  destruct (fw_transfers (cf_world c) !! "t1") as [t|] eqn:Et; [|discriminate Hd]. injection Hd as Hd.
  destruct (transfers_move_forward FilesDemo.collate FilesDemo.start c c' "t1" t (proj1 files_start_durable)
    (files_run_steps _ _ _ Hc) (files_run_steps _ _ _ Hc') Et) as (t' & Ht' & _ & Hdest & _).
  exists c', t'. split; [exact Ht|]. split; [exact Ht'|]. by rewrite Hdest.
Defined.

(** The first account uploads its file alone. *)
Definition run_up (r : FilesRequest) (w : FilesWorld) := (run_alone (up "https://bucket") (handle_files FilesDemo.collate r) w).2.
Definition posted : FilesWorld := run_up (FManifest FilesDemo.U "/a" None FilesDemo.m1 "f1") FilesDemo.start.
Definition uploaded : FilesWorld := send_chunks "https://bucket" FilesDemo.U [mkRef FilesDemo.A 0 100] posted.
Definition finished : FilesWorld := run_up (FComplete FilesDemo.U "f1") uploaded.

Lemma demo_user : no_char "/" "u".
Proof. unfold no_char, all_chars. repeat constructor. discriminate. Qed.

Lemma demo_honest : honest FilesDemo.size_of (FManifest FilesDemo.U "/a" None FilesDemo.m1 "f1").
Proof. split; [exact demo_user|]. repeat constructor. Qed.

Lemma complete_files_durable_witness :
  ∃ f, fw_files finished !! "f1" = Some f ∧ is_Some (f_completedAt f)
    ∧ fw_objects finished !! chunkObjectKey (f_userId f) FilesDemo.A = Some (FilesDemo.size_of FilesDemo.A).
Proof.
  assert ((λ f, (f_userId f, bool_decide (is_Some (f_completedAt f)))) <$> fw_files finished !! "f1" = Some ("u", true)) as Hf
    by (vm_compute; reflexivity).
  destruct (fw_files finished !! "f1") as [f|] eqn:E; [|discriminate Hf]. injection Hf as Hu Hc. apply bool_decide_eq_true in Hc.
  exists f. split; [reflexivity|]. split; [exact Hc|].
  assert (rtc (files_turn FilesDemo.collate FilesDemo.size_of) FilesDemo.start finished) as Hr.
  { eapply rtc_l; [exact (turn_request _ _ (up "https://bucket") _ _ demo_honest)|].
    eapply rtc_r; [apply (send_chunks_turns FilesDemo.collate FilesDemo.size_of "https://bucket" FilesDemo.U [mkRef FilesDemo.A 0 100]); exact demo_user|].
    exact (turn_request FilesDemo.collate FilesDemo.size_of (up "https://bucket") (FComplete FilesDemo.U "f1") uploaded (conj demo_user I)). }
  refine (proj1 (complete_files_durable FilesDemo.collate FilesDemo.size_of FilesDemo.start finished "f1" f FilesDemo.A FilesDemo.U
    "https://bucket" files_start_durable Hr E Hc _ _)); [|by rewrite Hu].
  assert (bool_decide (FilesDemo.A ∈ map cr_hash (chunk_rows "f1" finished)) = true) as Hin by (vm_compute; reflexivity).
  by apply bool_decide_eq_true in Hin.
Defined.

Lemma upload_roundtrip_witness :
  ∃ status file missing used limit w1 done w2,
    run_alone (up "https://bucket") (handle_files FilesDemo.collate (FManifest FilesDemo.U "/a" None FilesDemo.m1 "f1")) FilesDemo.start
      = (Some (mkFilesResp status (FbAccepted file missing used limit)), w1)
    ∧ run_alone (up "https://bucket") (handle_files FilesDemo.collate (FComplete FilesDemo.U (fe_id file)))
        (send_chunks "https://bucket" FilesDemo.U missing w1) = (Some (mkFilesResp 200 (FbCompleted done)), w2)
    ∧ run_alone (up "https://bucket") (handle_files FilesDemo.collate (FGetManifest FilesDemo.U "/a")) w2
      = (Some (mkFilesResp 200 (FbManifest FilesDemo.m1)), w2).
Proof.
  refine (upload_roundtrip FilesDemo.collate FilesDemo.size_of "https://bucket" FilesDemo.U "/a" "/a" None FilesDemo.m1 "f1"
    FilesDemo.start files_start_durable demo_honest _ _ _ _ _ _); [by eexists|apply not_elem_of_empty|reflexivity..].
Defined.
