(* ===== verification/Lifecycle.v ===== *)
(** * When a machine may sleep
    (packages/protocol/src/machine.ts and lifecycle.ts, the verdicts of
    services/control/src/app.ts and the caps of abuse.ts)

    The states of a machine and their legal moves, the decision to suspend,
    and what the control plane believes of the last snapshot of the agent.
    Times are milliseconds; the dashes of the explanations are UTF-8 bytes. *)

From stdpp Require Import relations.
From S2P Require Export JsString.
From Stdlib Require Import Ascii.

(** ** States *)

Inductive MachineState :=
  provisioning | running | suspending | suspended | resuming | cold_booting | boosting | boosted | shrinking | error_state.

#[export] Instance MachineState_eq_dec : EqDecision MachineState.
Proof. solve_decision. Defined.

Definition MACHINE_STATES : list MachineState :=
  [provisioning; running; suspending; suspended; resuming; cold_booting; boosting; boosted; shrinking; error_state].

Definition MACHINE_TRANSITIONS (s : MachineState) : list MachineState :=
  match s with
  | provisioning => [running; error_state]
  | running => [suspending; boosting; error_state]
  | suspending => [suspended; error_state]
  | suspended => [resuming; cold_booting; error_state]
  | resuming => [running; cold_booting; error_state]
  | cold_booting => [running; error_state]
  | boosting => [boosted; error_state]
  | boosted => [shrinking; error_state]
  | shrinking => [running; error_state]
  | error_state => [provisioning; cold_booting]
  end.

Definition canTransition (from to : MachineState) : bool := bool_decide (to ∈ MACHINE_TRANSITIONS from).

Record MachineSpec := mkSpec { sp_cpuKind : string; sp_cpus : Z; sp_memoryMb : Z }.

(** ** The decision to suspend *)

Record ProcessTreeInfo := mkProcess {
  pi_ptyId : string; pi_command : string; pi_shellOnly : bool; pi_suspendOptIn : bool; pi_jobMode : bool
}.
Record LifecycleInputs := mkInputs {
  li_clientsAttached : Z; li_processes : list ProcessTreeInfo; li_idleMs : Z; li_activeTransfers : Z;
  li_idleSuspendAfterMs : Z
}.

(** The verdicts of [decideSuspend], and the one of a machine nobody can see. *)
Inductive LifecycleVerdict :=
| idle_shell
| client_attached
| active_transfer
| job_mode (ptyId : string)
| user_process_alive (ptyId : string)
| within_idle_grace
| activity_unknown.

Definition verdict_suspends (v : LifecycleVerdict) : bool := match v with idle_shell => true | _ => false end.

Definition DEFAULT_IDLE_SUSPEND_MS : Z := 5 * 60 * 1000.

Definition decideSuspend (inputs : LifecycleInputs) : LifecycleVerdict :=
  if li_clientsAttached inputs >? 0 then client_attached
  else if li_activeTransfers inputs >? 0 then active_transfer
  else match List.find pi_jobMode (li_processes inputs) with
       | Some job => job_mode (pi_ptyId job)
       | None =>
           match List.find (λ p, negb (pi_shellOnly p) && negb (pi_suspendOptIn p)) (li_processes inputs) with
           | Some working => user_process_alive (pi_ptyId working)
           | None => if li_idleMs inputs <? li_idleSuspendAfterMs inputs then within_idle_grace else idle_shell
           end
       end.

Definition ACTIVITY_UNKNOWN_EXPLANATION : string :=
  "Waiting for the machine to report in — staying awake until it does.".

Definition explainLifecycle (v : LifecycleVerdict) : string :=
  match v with
  | idle_shell => "Idle — suspending to stop billing."
  | client_attached => "Awake because this Mac is connected."
  | job_mode _ => "Awake because a job is set to keep running."
  | user_process_alive _ => "Awake because a process is still running in your terminal."
  | active_transfer => "Awake because a transfer is in progress."
  | within_idle_grace => "Idle — will suspend shortly."
  | activity_unknown => ACTIVITY_UNKNOWN_EXPLANATION
  end.

Definition verdictPtyId (v : LifecycleVerdict) : option string :=
  match v with job_mode p | user_process_alive p => Some p | _ => None end.

(** ** What the control plane believes *)

Record ActivityRow := mkActivity {
  ac_clientsAttached : Z; ac_processes : list ProcessTreeInfo; ac_activeTransfers : Z;
  ac_lastInteractionAt : Z; ac_awakeMsAccrued : Z; ac_lastReportAt : Z
}.

Definition ACTIVITY_SNAPSHOT_STALE_AFTER_MS : Z := 2 * 60000.

Definition activityVerdict (activity : ActivityRow) (nowMs : Z) : LifecycleVerdict :=
  if nowMs - ac_lastReportAt activity >? ACTIVITY_SNAPSHOT_STALE_AFTER_MS then activity_unknown
  else decideSuspend (mkInputs (ac_clientsAttached activity) (ac_processes activity)
         (Z.max 0 (nowMs - ac_lastInteractionAt activity)) (ac_activeTransfers activity) DEFAULT_IDLE_SUSPEND_MS).

Definition lifecycleVerdict (activity : option ActivityRow) (nowMs : Z) : LifecycleVerdict :=
  match activity with None => activity_unknown | Some a => activityVerdict a nowMs end.

(** ** The caps of abuse.ts *)

Definition maxBoostsPerDay : Z := 5.
Definition maxProxiedGbPerDay : Z := 20.
Definition BYTES_PER_GB : Z := 1000000000.

Definition checkBoost (boostsInLastDay : Z) : option (string * string) :=
  if boostsInLastDay >=? maxBoostsPerDay then
    Some ("boosts_per_day",
          "Boost limit reached: " +:+ toString10 boostsInLastDay +:+ " boosts in the last 24 hours (max "
          +:+ toString10 maxBoostsPerDay +:+ ").")
  else None.

Definition egressThrottled (proxiedBytesInLastDay : Z) : bool :=
  proxiedBytesInLastDay >? maxProxiedGbPerDay * BYTES_PER_GB.

(** ** Lemmas *)

(** Work that keeps a machine awake whatever the clock says. *)
Definition pinned (i : LifecycleInputs) : Prop :=
  0 < li_clientsAttached i ∨ 0 < li_activeTransfers i
  ∨ ∃ p, p ∈ li_processes i ∧ (pi_jobMode p = true ∨ pi_shellOnly p = false ∧ pi_suspendOptIn p = false).

Lemma decideSuspend_spec i :
  decideSuspend i = idle_shell ↔ ¬ pinned i ∧ li_idleSuspendAfterMs i <= li_idleMs i.
Proof.
  unfold decideSuspend, pinned. destruct (li_clientsAttached i >? 0) eqn:E1; bprop; [split; [done|]; intros [Hp _]; exfalso; apply Hp; left; lia|].
  destruct (li_activeTransfers i >? 0) eqn:E2; bprop; [split; [done|]; intros [Hp _]; exfalso; apply Hp; right; left; lia|].
  destruct (List.find pi_jobMode _) as [job|] eqn:E3.
  { apply find_some in E3 as [Hin Hj]. split; [done|]. intros [Hp _]. exfalso. apply Hp. right. right. exists job.
    split; [by apply list_elem_of_In|by left]. }
  destruct (List.find (λ p, negb (pi_shellOnly p) && negb (pi_suspendOptIn p)) (li_processes i)) as [p|] eqn:E4.
  { apply find_some in E4 as [Hin Hj]. bprop. split; [done|]. intros [Hp _]. exfalso. apply Hp. right. right. exists p.
    split; [by apply list_elem_of_In|by right]. }
  destruct (li_idleMs i <? li_idleSuspendAfterMs i) eqn:E5; bprop; [split; [done|]; intros [_ ?]; lia|].
  split; [intros _|done]. split; [|lia]. intros [?|[?|(p & Hin%list_elem_of_In & [Hj|[Hs Ho]])]]; [lia|lia| |].
  - pose proof (find_none _ _ E3 p Hin). congruence.
  - pose proof (find_none _ _ E4 p Hin) as Hn. cbn in Hn. rewrite Hs, Ho in Hn. discriminate.
Qed.

(** A verdict that names a terminal names one of the processes. *)
Lemma decideSuspend_pty i p : verdictPtyId (decideSuspend i) = Some p → ∃ x, x ∈ li_processes i ∧ pi_ptyId x = p.
Proof.
  unfold decideSuspend. destruct (_ >? 0); [done|]. destruct (_ >? 0); [done|].
  destruct (List.find pi_jobMode _) as [x|] eqn:E1.
  { intros [= <-]. apply find_some in E1 as [Hin _]. exists x. split; [by apply list_elem_of_In|done]. }
  destruct (List.find (λ p, negb (pi_shellOnly p) && negb (pi_suspendOptIn p)) (li_processes i)) as [x|] eqn:E2.
  { intros [= <-]. apply find_some in E2 as [Hin _]. exists x. split; [by apply list_elem_of_In|done]. }
  by destruct (_ <? _).
Qed.

(** A machine may sleep only on a fresh snapshot without work, idle for the
    grace period. *)
Lemma lifecycle_suspends activity nowMs : lifecycleVerdict activity nowMs = idle_shell ↔
  ∃ a, activity = Some a ∧ nowMs - ac_lastReportAt a <= ACTIVITY_SNAPSHOT_STALE_AFTER_MS
    ∧ ¬ pinned (mkInputs (ac_clientsAttached a) (ac_processes a) 0 (ac_activeTransfers a) 0)
    ∧ DEFAULT_IDLE_SUSPEND_MS <= nowMs - ac_lastInteractionAt a.
Proof.
  unfold lifecycleVerdict. destruct activity as [a|]; [|split; [done|by intros (a & ? & _)]].
  unfold activityVerdict. destruct (_ >? _) eqn:E; bprop.
  { split; [done|]. intros (a' & [= <-] & Hf & _). lia. }
  rewrite decideSuspend_spec. unfold pinned. cbn. split.
  - intros [Hn Hi]. exists a. repeat split; try done. unfold DEFAULT_IDLE_SUSPEND_MS in *. cbn in Hi. lia.
  - intros (a' & [= <-] & _ & Hn & Hi). split; [done|]. lia.
Qed.
