(* ===== verification/ControlMachine.v ===== *)
(** * The machine of an account (services/control/src/app.ts lines 1689-2245)

    The state of the virtual machine, what its agent reports, the guard of
    suspension, the boost, capability tokens and usage samples.  Agent routes
    are authenticated by a capability token, the egress route by the secret of
    the gateway, the others by a device (authenticated already).  Amounts of
    money (hourly rate and monthly estimate of the summary) are left out. *)

From stdpp Require Import relations.
From S2P Require Export Lifecycle Threads Tokens.
From Stdlib Require Import Ascii.
From Stdlib Require QArith.

(** Gigabytes of storage are a JavaScript number with a fraction. *)
Abbreviation Q := QArith_base.Q.

(** ** Tables *)

Record MachineAccount := mkAccount { ma_computeMode : string; ma_homeDeviceId : option string; ma_features : list string }.

Record Machine := mkMachine {
  mr_id : string; mr_userId : string; mr_state : MachineState; mr_region : string; mr_spec : MachineSpec;
  mr_agentAddress : option string; mr_updatedAt : Z; mr_lastTransitionAt : Z
}.
Record MachineEvent := mkEvent {
  me_machineId : string; me_fromState : MachineState; me_toState : MachineState; me_reconstructed : bool;
  me_detail : option string; me_createdAt : Z
}.

Inductive SampleSource := from_agent | from_gateway.
#[export] Instance SampleSource_eq_dec : EqDecision SampleSource.
Proof. solve_decision. Defined.

Record UsageSample := mkSample {
  us_userId : string; us_machineId : string; us_periodStart : Z; us_awakeMs : Z; us_proxiedBytes : Z;
  us_storageGb : Q; us_source : SampleSource; us_createdAt : Z
}.

Record AuditLine := mkLine { al_userId : string; al_type : string; al_payload : json; al_actor : option string }.

(** [mw_machines]: by identifier.  Events and samples in the order of their
    inserts.  [mw_homeOnline]: the accounts whose home machine is connected. *)
Record MachineWorld := mkMachineWorld {
  mw_nowMs : Z;
  mw_accounts : gmap string MachineAccount;
  mw_machines : gmap string Machine;
  mw_events : list MachineEvent;
  mw_activity : gmap string ActivityRow;
  mw_samples : list UsageSample;
  mw_homeOnline : gset string;
  mw_audit : list AuditLine
}.

Definition set_machine_rows x w := mkMachineWorld (mw_nowMs w) (mw_accounts w) x (mw_events w) (mw_activity w)
  (mw_samples w) (mw_homeOnline w) (mw_audit w).
Definition set_events x w := mkMachineWorld (mw_nowMs w) (mw_accounts w) (mw_machines w) x (mw_activity w)
  (mw_samples w) (mw_homeOnline w) (mw_audit w).
Definition set_activity x w := mkMachineWorld (mw_nowMs w) (mw_accounts w) (mw_machines w) (mw_events w) x
  (mw_samples w) (mw_homeOnline w) (mw_audit w).
Definition set_samples x w := mkMachineWorld (mw_nowMs w) (mw_accounts w) (mw_machines w) (mw_events w) (mw_activity w)
  x (mw_homeOnline w) (mw_audit w).
Definition set_lines x w := mkMachineWorld (mw_nowMs w) (mw_accounts w) (mw_machines w) (mw_events w) (mw_activity w)
  (mw_samples w) (mw_homeOnline w) x.

Definition machine_of (userId : string) (w : MachineWorld) : option Machine :=
  List.find (λ m, String.eqb (mr_userId m) userId) (table_rows (mw_machines w)).

(** ** Requests and responses *)

Record MachineCaller := mkMachineCaller { mc_userId : string; mc_deviceId : option string }.

Record TransitionBody := mkTransition {
  tb_to : MachineState; tb_reconstructed : option bool; tb_detail : option string; tb_force : option bool
}.
Record ActivityReport := mkReport {
  rp_clientsAttached : Z; rp_processes : list ProcessTreeInfo; rp_activeTransfers : Z; rp_lastInteractionAt : Z;
  rp_awakeMsAccrued : Z
}.
Record AgentSample := mkAgentSample {
  as_periodStart : Z; as_awakeMs : Z; as_storageGb : Q; as_proxiedBytes : option Q; as_source : option SampleSource
}.
Record GatewaySample := mkGatewaySample { gs_userId : string; gs_periodStart : Z; gs_proxiedBytes : Z }.

Inductive MachineRequest :=
| MGet (c : MachineCaller)
| MTransition (c : MachineCaller) (body : TransitionBody)
| MActivity (authorization : option string) (body : ActivityReport)
| MLifecycle (c : MachineCaller)
| MJobMode (c : MachineCaller) (ptyId : string) (enabled : bool)
| MCapabilityToken (c : MachineCaller) (caps : list Capability) (jti : string)
| MUsageSample (authorization : option string) (body : AgentSample)
| MUsageEgress (authorization : option string) (body : GatewaySample)
| MUsageSummary (c : MachineCaller) (days : Z)
| MBoost (c : MachineCaller) (memoryMb : Z).

Inductive MachineBody :=
| MbError (error : string) (reason : option string)
| MbLocal (homeDeviceId : option string) (homeOnline : bool)
| MbMachine (machine : Machine) (events : list MachineEvent)
| MbMove (error : string) (from to : MachineState)
| MbWouldInterrupt (reason : LifecycleVerdict) (ptyId : option string)
| MbMoved (machine : Machine) (event : MachineEvent)
| MbRange (field reason : string)
| MbVerdict (verdict : LifecycleVerdict)
| MbLifecycle (verdict : LifecycleVerdict) (explanation : string) (wouldSuspendAt reportedAt : option Z)
| MbJob (verdict : LifecycleVerdict) (explanation : string)
| MbRefusedCaps (caps : list Capability)
| MbToken (token : string) (exp : Z) (caps : list Capability)
| MbSample (sample : UsageSample)
| MbSummary (days awakeMs proxiedBytes : Z) (storageGb : Q) (throttled : bool)
| MbAbuse (limit reason : string).

Record MachineResponse := mkMachineResp { ms_status : Z; ms_body : MachineBody }.

(** The provider of virtual machines. *)
Inductive SandboxCall :=
| Provision (userId machineId region : string) (spec : MachineSpec)
| SuspendMachine (machineId : string) | ResumeMachine (machineId : string) | ColdBoot (machineId : string)
| UpdateSpec (machineId : string) (spec : MachineSpec).
Inductive SandboxAnswer := SandboxDone (agentAddress : option string) | SandboxThrows.

Abbreviation MachineHandler := (Thread MachineWorld SandboxCall SandboxAnswer).

Definition sandbox (call : SandboxCall) : MachineHandler (option string) :=
  answer ← external call;
  match answer with SandboxDone a => mret a | SandboxThrows => Raise end.

Definition m_reply (status : Z) (body : MachineBody) : MachineHandler MachineResponse := mret (mkMachineResp status body).
Definition m_deny (status : Z) (error : string) (reason : option string) : MachineHandler MachineResponse :=
  m_reply status (MbError error reason).

Definition m_audit (userId type : string) (payload : json) (actor : option string) : MachineHandler unit :=
  atomically (λ w, (tt, set_lines (mw_audit w ++ [mkLine userId type payload actor]) w)).

(** ** Statements *)

(** [update machines set ... where id and state returning]. *)
Definition move_machine (id : string) (from : MachineState) (change : Z → Machine → Machine) : MachineHandler (option Machine) :=
  atomically (λ w,
    match mw_machines w !! id with
    | Some row =>
        if bool_decide (mr_state row = from)
        then let row' := change (mw_nowMs w) row in (Some row', set_machine_rows (<[id := row']> (mw_machines w)) w)
        else (None, w)
    | None => (None, w)
    end).

Definition moved (to : MachineState) (now : Z) (m : Machine) : Machine :=
  mkMachine (mr_id m) (mr_userId m) to (mr_region m) (mr_spec m) (mr_agentAddress m) now now.
Definition boosted_to (memoryMb now : Z) (m : Machine) : Machine :=
  mkMachine (mr_id m) (mr_userId m) boosting (mr_region m)
    (mkSpec (sp_cpuKind (mr_spec m)) (sp_cpus (mr_spec m)) memoryMb) (mr_agentAddress m) now now.

Definition set_address (id address : string) : MachineHandler unit :=
  atomically (λ w, (tt, set_machine_rows (alter (λ m, mkMachine (mr_id m) (mr_userId m) (mr_state m) (mr_region m)
    (mr_spec m) (Some address) (mr_updatedAt m) (mr_lastTransitionAt m)) id (mw_machines w)) w)).

Definition insert_event (id : string) (from to : MachineState) (reconstructed : bool) (detail : option string)
    : MachineHandler MachineEvent :=
  atomically (λ w, let e := mkEvent id from to reconstructed detail (mw_nowMs w) in
    (e, set_events (mw_events w ++ [e]) w)).

(** ** The machine *)

(** Newest first. *)
Definition event_newer (a b : MachineEvent) : Prop := me_createdAt b <= me_createdAt a.
#[export] Instance event_newer_dec : RelDecision event_newer.
Proof. intros a b. unfold event_newer. apply _. Defined.

Definition get_machine (c : MachineCaller) : MachineHandler MachineResponse :=
  found ← reading (machine_of (mc_userId c));
  match found with
  | None =>
      user ← reading (λ w, mw_accounts w !! mc_userId c);
      match user with
      | Some u =>
          if String.eqb (ma_computeMode u) "local" then
            online ← reading (λ w, bool_decide (mc_userId c ∈ mw_homeOnline w));
            m_reply 200 (MbLocal (ma_homeDeviceId u) online)
          else m_deny 404 "not_found" None
      | None => m_deny 404 "not_found" None
      end
  | Some machine =>
      events ← reading (λ w, take 20 (merge_sort event_newer
        (List.filter (λ e, String.eqb (me_machineId e) (mr_id machine)) (mw_events w))));
      m_reply 200 (MbMachine machine events)
  end.

Definition machine_state_name (s : MachineState) : string :=
  match s with
  | provisioning => "provisioning" | running => "running" | suspending => "suspending" | suspended => "suspended"
  | resuming => "resuming" | cold_booting => "cold_booting" | boosting => "boosting" | boosted => "boosted"
  | shrinking => "shrinking" | error_state => "error"
  end.

(** The suspend guard: [Some v] refuses. *)
Definition suspend_guard (machine : Machine) (body : TransitionBody) : MachineHandler (option LifecycleVerdict) :=
  if bool_decide (tb_to body = suspending) && negb (bool_decide (tb_force body = Some true)) then
    v ← reading (λ w, lifecycleVerdict (mw_activity w !! mr_id machine) (mw_nowMs w));
    mret (if verdict_suspends v then None else Some v)
  else mret None.

(** What a transition asks of the provider. *)
Definition drive (machine : Machine) (to : MachineState) : MachineHandler unit :=
  let id := mr_id machine in
  match to with
  | provisioning =>
      address ← sandbox (Provision (mr_userId machine) id (mr_region machine) (mr_spec machine));
      match address with Some a => set_address id a | None => mret tt end
  | suspending => _ ← sandbox (SuspendMachine id); mret tt
  | resuming => _ ← sandbox (ResumeMachine id); mret tt
  | cold_booting => _ ← sandbox (ColdBoot id); mret tt
  | _ => mret tt
  end.

Definition transition_payload (machine : Machine) (body : TransitionBody) (reconstructed : bool) : json :=
  JObj ([("machineId", JStr (mr_id machine)); ("from", JStr (machine_state_name (mr_state machine)));
         ("to", JStr (machine_state_name (tb_to body))); ("reconstructed", JBool reconstructed)]
        ++ if bool_decide (tb_to body = suspending) then [("force", JBool (default false (tb_force body)))] else []).

(** The conditional write, the event and the call of the provider. *)
Definition make_transition (c : MachineCaller) (body : TransitionBody) (machine : Machine) : MachineHandler MachineResponse :=
  let from := mr_state machine in
  let to := tb_to body in
  let reconstructed := bool_decide (from = cold_booting ∧ to = running) || default false (tb_reconstructed body) in
  updated ← move_machine (mr_id machine) from (moved to);
  match updated with
  | None => m_reply 409 (MbMove "conflict" from to)
  | Some row =>
      event ← insert_event (mr_id machine) from to reconstructed (tb_detail body);
      _ ← drive machine to;
      _ ← m_audit (mc_userId c) "machine.transition" (transition_payload machine body reconstructed) None;
      m_reply 200 (MbMoved row event)
  end.

Definition transition (c : MachineCaller) (body : TransitionBody) : MachineHandler MachineResponse :=
  found ← reading (machine_of (mc_userId c));
  match found with
  | None => m_deny 404 "not_found" None
  | Some machine =>
      if negb (canTransition (mr_state machine) (tb_to body))
      then m_reply 422 (MbMove "illegal_transition" (mr_state machine) (tb_to body))
      else
        refused ← suspend_guard machine body;
        match refused with
        | Some v => m_reply 409 (MbWouldInterrupt v (verdictPtyId v))
        | None => make_transition c body machine
        end
  end.

(** ** Credentials of the planes *)

Section Machine.
Context `{W : WebCrypto}.
(** The signing keys of the control plane, and the secret of the gateway. *)
Context (signingKey verifyKey : CryptoKey) (EGRESS_GATEWAY_TOKEN : option string).

Definition token_refusal (e : TokenError) : string :=
  match e with
  | malformed => "malformed" | not_capability_token => "not_capability_token"
  | bad_signature => "bad_signature" | expired => "expired"
  end.

Record AgentIdentity := mkAgentIdentity { ai_machineId : string; ai_userId : string; ai_caps : list Capability }.

Definition seconds (nowMs : Z) : Z := nowMs / 1000.

Definition bearerAgent (authorization : option string) (next : AgentIdentity → MachineHandler MachineResponse)
    : MachineHandler MachineResponse :=
  match bearer authorization with
  | None | Some EmptyString => m_deny 401 "unauthorized" None
  | Some token =>
      nowMs ← reading mw_nowMs;
      match verifyCapabilityToken verifyKey token (seconds nowMs) with
      | inl e => m_deny 401 "unauthorized" (Some (token_refusal e))
      | inr claims =>
          machine ← reading (λ w, mw_machines w !! cc_mid claims);
          match machine with
          | Some m =>
              if String.eqb (mr_userId m) (cc_sub claims)
              then next (mkAgentIdentity (mr_id m) (mr_userId m) (cc_caps claims))
              else m_deny 401 "unauthorized" (Some "machine_binding")
          | None => m_deny 401 "unauthorized" (Some "machine_binding")
          end
      end
  end.

Definition bearerGateway (authorization : option string) (next : MachineHandler MachineResponse)
    : MachineHandler MachineResponse :=
  match EGRESS_GATEWAY_TOKEN with
  | None | Some EmptyString => m_deny 503 "unavailable" (Some "gateway_auth_unconfigured")
  | Some secret =>
      match bearer authorization with
      | None | Some EmptyString => m_deny 401 "unauthorized" None
      | Some token => if secretEquals token secret then next else m_deny 401 "unauthorized" None
      end
  end.

(** ** Activity *)

Definition DAY_MS : Z := 86400000.
Definition MAX_SAMPLE_AWAKE_MS : Z := DAY_MS.
Definition MAX_SAMPLE_PROXIED_BYTES : Z := 11000000000000.
Definition MAX_CLOCK_SKEW_MS : Z := 5 * 60000.
Definition MAX_SAMPLE_BACKFILL_MS : Z := 90 * DAY_MS.

Definition isFutureDated (epochMs nowMs : Z) : bool := epochMs >? nowMs + MAX_CLOCK_SKEW_MS.

Definition activity_of (body : ActivityReport) (now : Z) : ActivityRow :=
  mkActivity (rp_clientsAttached body) (rp_processes body) (rp_activeTransfers body) (rp_lastInteractionAt body)
    (rp_awakeMsAccrued body) now.

Definition machine_activity (agent : AgentIdentity) (body : ActivityReport) : MachineHandler MachineResponse :=
  match agentReportRefusal (ai_caps agent) with
  | Some refusal => m_deny 403 "capability_refused" (Some refusal)
  | None =>
      now ← reading mw_nowMs;
      if isFutureDated (rp_lastInteractionAt body) now then m_reply 400 (MbRange "lastInteractionAt" "in_future")
      else
        activity ← atomically (λ w, let a := activity_of body now in
          (a, set_activity (<[ai_machineId agent := a]> (mw_activity w)) w));
        m_reply 200 (MbVerdict (activityVerdict activity now))
  end.

Definition machine_lifecycle (c : MachineCaller) : MachineHandler MachineResponse :=
  found ← reading (machine_of (mc_userId c));
  match found with
  | None => m_deny 404 "not_found" None
  | Some machine =>
      '(activity, now) ← reading (λ w, (mw_activity w !! mr_id machine, mw_nowMs w));
      let verdict := lifecycleVerdict activity now in
      let wouldSuspendAt :=
        match activity with
        | Some a =>
            if verdict_suspends verdict || match verdict with within_idle_grace => true | _ => false end
            then Some (ac_lastInteractionAt a + DEFAULT_IDLE_SUSPEND_MS) else None
        | None => None
        end in
      m_reply 200 (MbLifecycle verdict (explainLifecycle verdict) wouldSuspendAt (ac_lastReportAt <$> activity))
  end.

Definition set_job (ptyId : string) (enabled : bool) (p : ProcessTreeInfo) : ProcessTreeInfo :=
  if String.eqb (pi_ptyId p) ptyId
  then mkProcess (pi_ptyId p) (pi_command p) (pi_shellOnly p) (pi_suspendOptIn p) enabled else p.

Definition set_processes (processes : list ProcessTreeInfo) (a : ActivityRow) : ActivityRow :=
  mkActivity (ac_clientsAttached a) processes (ac_activeTransfers a) (ac_lastInteractionAt a) (ac_awakeMsAccrued a)
    (ac_lastReportAt a).

Definition machine_job_mode (c : MachineCaller) (ptyId : string) (enabled : bool) : MachineHandler MachineResponse :=
  found ← reading (machine_of (mc_userId c));
  match found with
  | None => m_deny 404 "not_found" None
  | Some machine =>
      activity ← reading (λ w, mw_activity w !! mr_id machine);
      match activity with
      | None => m_deny 404 "no_activity_reported" None
      | Some a =>
          if negb (existsb (λ p, String.eqb (pi_ptyId p) ptyId) (ac_processes a)) then m_deny 404 "unknown_pty" None
          else
            let processes := map (set_job ptyId enabled) (ac_processes a) in
            updated ← atomically (λ w,
              match mw_activity w !! mr_id machine with
              | Some row => let row' := set_processes processes row in
                  (Some row', set_activity (<[mr_id machine := row']> (mw_activity w)) w)
              | None => (None, w)
              end);
            match updated with
            | None => m_deny 500 "internal" None
            | Some row =>
                _ ← m_audit (mc_userId c) "job.mode_changed"
                      (JObj [("machineId", JStr (mr_id machine)); ("ptyId", JStr ptyId); ("enabled", JBool enabled)])
                      (mc_deviceId c);
                now ← reading mw_nowMs;
                let verdict := activityVerdict row now in
                m_reply 200 (MbJob verdict (explainLifecycle verdict))
            end
      end
  end.

(** ** Capability tokens *)

(** [[...new Set(caps)]]. *)
Fixpoint set_order (caps seen : list Capability) : list Capability :=
  match caps with
  | [] => []
  | cap :: caps => if bool_decide (cap ∈ seen) then set_order caps seen else cap :: set_order caps (cap :: seen)
  end.

Definition capability_token (c : MachineCaller) (requested : list Capability) (jti : string) : MachineHandler MachineResponse :=
  let caps := set_order requested [] in
  found ← reading (machine_of (mc_userId c));
  match found with
  | None => m_deny 404 "not_found" None
  | Some machine =>
      features ← reading (λ w, match mw_accounts w !! mc_userId c with Some u => ma_features u | None => [] end);
      match refusedCaps caps features with
      | _ :: _ as refused => m_reply 403 (MbRefusedCaps refused)
      | [] =>
          nowMs ← reading mw_nowMs;
          let minted := mintCapabilityToken signingKey (mr_id machine) (mc_userId c) caps (seconds nowMs) jti in
          _ ← m_audit (mc_userId c) "capability.minted"
                (JObj [("machineId", JStr (mr_id machine)); ("caps", JArr (map (λ cap, JStr (capability_string cap)) caps));
                       ("jti", JStr (cc_jti minted.2))]) (mc_deviceId c);
          m_reply 201 (MbToken minted.1 (cc_exp minted.2) caps)
      end
  end.

(** ** Usage *)

Definition periodStartRefusal (periodStart nowMs : Z) : option string :=
  if isFutureDated periodStart nowMs then Some "in_future"
  else if periodStart <? nowMs - MAX_SAMPLE_BACKFILL_MS then Some "too_old"
  else None.

Definition insert_sample (sample : Z → UsageSample) : MachineHandler MachineResponse :=
  row ← atomically (λ w, let s := sample (mw_nowMs w) in (s, set_samples (mw_samples w ++ [s]) w));
  m_reply 201 (MbSample row).

Definition usage_sample (agent : AgentIdentity) (body : AgentSample) : MachineHandler MachineResponse :=
  match agentReportRefusal (ai_caps agent) with
  | Some refusal => m_deny 403 "capability_refused" (Some refusal)
  | None =>
      if bool_decide (is_Some (as_proxiedBytes body)) || bool_decide (as_source body = Some from_gateway)
      then m_deny 403 "egress_not_agent_reportable"
             (Some "Proxied egress is metered by the gateway plane, not by the machine agent.")
      else
        nowMs ← reading mw_nowMs;
        match periodStartRefusal (as_periodStart body) nowMs with
        | Some outOfRange => m_reply 400 (MbRange "periodStart" outOfRange)
        | None => insert_sample (mkSample (ai_userId agent) (ai_machineId agent) (as_periodStart body) (as_awakeMs body) 0
                    (as_storageGb body) from_agent)
        end
  end.

Definition usage_egress (body : GatewaySample) : MachineHandler MachineResponse :=
  nowMs ← reading mw_nowMs;
  match periodStartRefusal (gs_periodStart body) nowMs with
  | Some outOfRange => m_reply 400 (MbRange "periodStart" outOfRange)
  | None =>
      found ← reading (machine_of (gs_userId body));
      match found with
      | None => m_deny 404 "not_found" None
      | Some machine => insert_sample (mkSample (gs_userId body) (mr_id machine) (gs_periodStart body) 0 (gs_proxiedBytes body)
                          (QArith_base.Qmake 0 1) from_gateway)
      end
  end.

Definition sample_older (a b : UsageSample) : Prop :=
  us_periodStart a < us_periodStart b ∨ us_periodStart a = us_periodStart b ∧ us_createdAt a <= us_createdAt b.
#[export] Instance sample_older_dec : RelDecision sample_older.
Proof. intros a b. unfold sample_older. apply _. Defined.

Record UsageTotals := mkTotals { ut_awakeMs : Z; ut_storageGb : Q; ut_proxiedBytes : Z; ut_lastDayProxiedBytes : Z }.

(** One turn of the loop over the rows. *)
Definition add_row (nowMs : Z) (t : UsageTotals) (row : UsageSample) : UsageTotals :=
  match us_source row with
  | from_gateway =>
      mkTotals (ut_awakeMs t) (ut_storageGb t) (ut_proxiedBytes t + us_proxiedBytes row)
        (if us_periodStart row >=? nowMs - DAY_MS then ut_lastDayProxiedBytes t + us_proxiedBytes row
         else ut_lastDayProxiedBytes t)
  | from_agent =>
      mkTotals (ut_awakeMs t + us_awakeMs row) (us_storageGb row) (ut_proxiedBytes t) (ut_lastDayProxiedBytes t)
  end.

Definition usage_totals (nowMs : Z) (rows : list UsageSample) : UsageTotals :=
  fold_left (add_row nowMs) rows (mkTotals 0 (QArith_base.Qmake 0 1) 0 0).

Definition usage_rows (userId : string) (since : Z) (w : MachineWorld) : list UsageSample :=
  merge_sort sample_older (List.filter (λ s, String.eqb (us_userId s) userId && (us_periodStart s >=? since)) (mw_samples w)).

Definition usage_summary (c : MachineCaller) (days : Z) : MachineHandler MachineResponse :=
  found ← reading (machine_of (mc_userId c));
  match found with
  | None => m_deny 404 "not_found" None
  | Some machine =>
      nowMs ← reading mw_nowMs;
      rows ← reading (usage_rows (mc_userId c) (nowMs - days * DAY_MS));
      let t := usage_totals nowMs rows in
      m_reply 200 (MbSummary days (ut_awakeMs t) (ut_proxiedBytes t) (ut_storageGb t)
        (egressThrottled (ut_lastDayProxiedBytes t)))
  end.

(** ** Boost *)

Definition boosts_since (id : string) (since : Z) (w : MachineWorld) : Z :=
  Z.of_nat (length (List.filter (λ e, String.eqb (me_machineId e) id && bool_decide (me_toState e = boosting)
    && (me_createdAt e >=? since)) (mw_events w))).

Definition boost (c : MachineCaller) (memoryMb : Z) : MachineHandler MachineResponse :=
  found ← reading (machine_of (mc_userId c));
  match found with
  | None => m_deny 404 "not_found" None
  | Some machine =>
      let from := mr_state machine in
      if negb (canTransition from boosting) then m_reply 422 (MbMove "illegal_transition" from boosting)
      else
        boostsToday ← reading (λ w, boosts_since (mr_id machine) (mw_nowMs w - DAY_MS) w);
        match checkBoost boostsToday with
        | Some (limit, reason) =>
            _ ← m_audit (mc_userId c) "abuse.limit_hit"
                  (JObj [("limit", JStr limit); ("reason", JStr reason); ("count", JNum boostsToday);
                         ("max", JNum maxBoostsPerDay)]) (mc_deviceId c);
            m_reply 429 (MbAbuse limit reason)
        | None =>
            updated ← move_machine (mr_id machine) from (boosted_to memoryMb);
            match updated with
            | None => m_reply 409 (MbMove "conflict" from boosting)
            | Some row =>
                event ← insert_event (mr_id machine) from boosting false
                          (Some ("boost to " +:+ toString10 memoryMb +:+ " MB"));
                _ ← sandbox (UpdateSpec (mr_id machine)
                      (mkSpec (sp_cpuKind (mr_spec machine)) (sp_cpus (mr_spec machine)) memoryMb));
                _ ← m_audit (mc_userId c) "machine.boosted"
                      (JObj [("machineId", JStr (mr_id machine)); ("memoryMb", JNum memoryMb)]) (mc_deviceId c);
                m_reply 200 (MbMoved row event)
            end
        end
  end.

(** ** Dispatch

    A body its schema refuses is answered 400; identifiers are opaque. *)

Definition m_validated (ok : bool) (h : MachineHandler MachineResponse) : MachineHandler MachineResponse :=
  if ok then h else m_deny 400 "invalid_body" None.

Definition EPOCH_MS_MAX : Z := 1000000000000000.
Definition bounded (n hi : Z) : bool := (0 <=? n) && (n <=? hi).

Definition ptyIdSchema (ptyId : string) : bool := (1 <=? js_length ptyId) && (js_length ptyId <=? 128).

Definition transitionSchema (body : TransitionBody) : bool :=
  match tb_detail body with Some d => (1 <=? js_length d) && (js_length d <=? 200) | None => true end.
Definition processTreeSchema (p : ProcessTreeInfo) : bool := ptyIdSchema (pi_ptyId p) && (js_length (pi_command p) <=? 4096).
Definition jobModeSchema (ptyId : string) : bool := ptyIdSchema ptyId.
Definition capabilityRequestSchema (caps : list Capability) : bool :=
  (1 <=? Z.of_nat (length caps)) && (Z.of_nat (length caps) <=? 32).
Definition usageSummaryQuerySchema (days : Z) : bool := (1 <=? days) && (days <=? 90).
Definition activityReportSchema (body : ActivityReport) : bool :=
  bounded (rp_clientsAttached body) 10000 && forallb processTreeSchema (rp_processes body)
  && (Z.of_nat (length (rp_processes body)) <=? 500)
  && bounded (rp_activeTransfers body) 10000 && bounded (rp_lastInteractionAt body) EPOCH_MS_MAX
  && bounded (rp_awakeMsAccrued body) (90 * DAY_MS).
Definition agentUsageSampleSchema (body : AgentSample) : bool :=
  bounded (as_periodStart body) EPOCH_MS_MAX && bounded (as_awakeMs body) MAX_SAMPLE_AWAKE_MS
  && QArith_base.Qle_bool (QArith_base.Qmake 0 1) (as_storageGb body)
  && QArith_base.Qle_bool (as_storageGb body) (QArith_base.Qmake 10000 1).
Definition gatewayUsageSampleSchema (body : GatewaySample) : bool :=
  bounded (gs_periodStart body) EPOCH_MS_MAX && bounded (gs_proxiedBytes body) MAX_SAMPLE_PROXIED_BYTES.
Definition boostSchema (memoryMb : Z) : bool := (memoryMb =? 4096) || (memoryMb =? 8192).

Definition handle_machine (r : MachineRequest) : MachineHandler MachineResponse :=
  match r with
  | MGet c => get_machine c
  | MTransition c body => m_validated (transitionSchema body) (transition c body)
  | MActivity authorization body =>
      bearerAgent authorization (λ agent, m_validated (activityReportSchema body) (machine_activity agent body))
  | MLifecycle c => machine_lifecycle c
  | MJobMode c ptyId enabled => m_validated (jobModeSchema ptyId) (machine_job_mode c ptyId enabled)
  | MCapabilityToken c caps jti => m_validated (capabilityRequestSchema caps) (capability_token c caps jti)
  | MUsageSample authorization body =>
      bearerAgent authorization (λ agent, m_validated (agentUsageSampleSchema body) (usage_sample agent body))
  | MUsageEgress authorization body =>
      bearerGateway authorization (m_validated (gatewayUsageSampleSchema body) (usage_egress body))
  | MUsageSummary c days => m_validated (usageSummaryQuerySchema days) (usage_summary c days)
  | MBoost c memoryMb => m_validated (boostSchema memoryMb) (boost c memoryMb)
  end.
End Machine.
