(* ===== verification/MachineSafety.v ===== *)
(** * Every route of the machine keeps its tables consistent

    The invariant of machines, events and samples, the order in which the
    world only moves forward, and one lemma per route: under interference of
    every other request each statement keeps both, and an answer comes with
    the evidence of [promise]. *)

From stdpp Require Import relations.
From S2P Require Export ControlMachine Threads.
From Stdlib Require Import Ascii.
From Stdlib Require QArith.

(** ** The invariant *)

Record sample_ok (machines : gmap string Machine) (s : UsageSample) : Prop := {
  so_machine : ∃ m, machines !! us_machineId s = Some m ∧ mr_userId m = us_userId s;
  so_when : us_periodStart s <= us_createdAt s + MAX_CLOCK_SKEW_MS;
  so_plane : match us_source s with
    | from_agent => us_proxiedBytes s = 0 ∧ 0 <= us_awakeMs s <= MAX_SAMPLE_AWAKE_MS
    | from_gateway => us_awakeMs s = 0 ∧ 0 <= us_proxiedBytes s <= MAX_SAMPLE_PROXIED_BYTES
    end
}.

Definition legal (s s' : MachineState) : Prop := canTransition s s' = true.

Record machine_inv (w : MachineWorld) : Prop := {
  mi_keyed : ∀ k m, mw_machines w !! k = Some m → mr_id m = k;
  mi_unique : ∀ i j m n, mw_machines w !! i = Some m → mw_machines w !! j = Some n → mr_userId m = mr_userId n → i = j;
  mi_events : ∀ e, e ∈ mw_events w → legal (me_fromState e) (me_toState e) ∧ is_Some (mw_machines w !! me_machineId e);
  mi_activity : ∀ k a, mw_activity w !! k = Some a →
    ac_lastReportAt a <= mw_nowMs w ∧ ac_lastInteractionAt a <= ac_lastReportAt a + MAX_CLOCK_SKEW_MS;
  mi_samples : ∀ s, s ∈ mw_samples w → sample_ok (mw_machines w) s
}.

Record machine_row_le (m m' : Machine) : Prop := {
  rl_same : mr_id m' = mr_id m ∧ mr_userId m' = mr_userId m ∧ mr_region m' = mr_region m;
  rl_moves : rtc legal (mr_state m) (mr_state m')
}.

#[export] Instance machine_row_le_pre : PreOrder machine_row_le.
Proof.
  split; [by intros m; split; [|apply rtc_refl]|].
  intros m1 m2 m3 [(?&?&?) ?] [(?&?&?) ?]. split; [repeat split; congruence|by etrans].
Qed.

Record machine_le (w w' : MachineWorld) : Prop := {
  ml_now : mw_nowMs w <= mw_nowMs w';
  ml_accounts : mw_accounts w' = mw_accounts w;
  ml_machines : table_le machine_row_le (mw_machines w) (mw_machines w');
  ml_events : mw_events w `prefix_of` mw_events w';
  ml_samples : mw_samples w `prefix_of` mw_samples w'
}.

#[export] Instance machine_le_pre : PreOrder machine_le.
Proof.
  split; [by intros w; split; [lia| |reflexivity| |]|].
  intros w1 w2 w3 [] []; split; [lia|congruence|by etrans|by etrans|by etrans].
Qed.

Definition ahead (w w' : MachineWorld) : Prop := machine_inv w' ∧ machine_le w w'.

Lemma ahead_refl w : machine_inv w → ahead w w.
Proof. by intros Hi. Qed.

Lemma sample_ok_le ms ms' s : table_le machine_row_le ms ms' → sample_ok ms s → sample_ok ms' s.
Proof.
  intros Hle [(m & Hm & Hu) Hw Hp]. split; [|done|done]. destruct (Hle _ _ Hm) as (m' & Hm' & [(_ & Hu' & _) _]).
  exists m'. split; [done|congruence].
Qed.

Lemma machine_of_some w u m : machine_inv w → machine_of u w = Some m → mw_machines w !! mr_id m = Some m ∧ mr_userId m = u.
Proof.
  intros Hi [Hin Hu%String.eqb_eq]%find_some. unfold table_rows in Hin. apply list_elem_of_In, list_elem_of_fmap in Hin as ([k m'] & -> & Hin).
  apply elem_of_map_to_list in Hin. cbn in *. by rewrite (mi_keyed _ Hi _ _ Hin).
Qed.

(** ** The statements *)

Lemma ahead_lines w l : machine_inv w → ahead w (set_lines l w).
Proof. intros []. split; [split|split]; cbn; try done; try reflexivity; lia. Qed.

(** The row of a machine is replaced by one it may become. *)
Lemma ahead_row w k m m' : machine_inv w → mw_machines w !! k = Some m → machine_row_le m m' →
  ahead w (set_machine_rows (<[k := m']> (mw_machines w)) w).
Proof.
  intros [Hk Hu He Ha Hs] Hm Hle.
  assert (table_le machine_row_le (mw_machines w) (<[k := m']> (mw_machines w))) as Ht
    by (apply table_le_insert; [apply _|]; intros b Hb; congruence).
  assert (∀ j, is_Some (mw_machines w !! j) → is_Some (<[k := m']> (mw_machines w) !! j)) as Hsome.
  { intros j [n Hn]. destruct (Ht j n Hn) as (? & ? & _). eauto. }
  destruct Hle as [(Hid & Huser & _) _]. split; [split|split]; cbn; try done; try reflexivity; try lia.
  - intros j n [[<- <-]|[_ Hj]]%lookup_insert_Some; [rewrite Hid|]; by apply Hk.
  - intros i j a b [[<- <-]|[_ Hi]]%lookup_insert_Some [[<- <-]|[_ Hj]]%lookup_insert_Some Hab; [done| | |by eapply Hu].
    + eapply Hu; [exact Hm|exact Hj|congruence].
    + eapply Hu; [exact Hi|exact Hm|congruence].
  - intros e He'. destruct (He e He'). auto.
  - intros s Hin. eapply sample_ok_le; [|by apply Hs]. exact Ht.
Qed.

Lemma ahead_event w e : machine_inv w → legal (me_fromState e) (me_toState e) → is_Some (mw_machines w !! me_machineId e) →
  ahead w (set_events (mw_events w ++ [e]) w).
Proof.
  intros [Hk Hu He Ha Hs] Hl Hm. split; [split|split]; cbn; try done; try reflexivity; try lia; [|by apply prefix_app_r].
  intros x [Hx|Hx%list_elem_of_singleton]%elem_of_app; [by apply He|by subst].
Qed.

Lemma ahead_activity w k a : machine_inv w → ac_lastReportAt a <= mw_nowMs w →
  ac_lastInteractionAt a <= ac_lastReportAt a + MAX_CLOCK_SKEW_MS → ahead w (set_activity (<[k := a]> (mw_activity w)) w).
Proof.
  intros [Hk Hu He Ha Hs] H1 H2. split; [split|split]; cbn; try done; try reflexivity; try lia.
  intros j b [[<- <-]|[_ Hj]]%lookup_insert_Some; [done|by eapply Ha].
Qed.

Lemma ahead_sample w s : machine_inv w → sample_ok (mw_machines w) s → ahead w (set_samples (mw_samples w ++ [s]) w).
Proof.
  intros [Hk Hu He Ha Hs] Hok. split; [split|split]; cbn; try done; try reflexivity; try lia; [|by apply prefix_app_r].
  intros x [Hx|Hx%list_elem_of_singleton]%elem_of_app; [by apply Hs|by subst].
Qed.

(** ** What a request may do *)

Definition gateway_samples (w : MachineWorld) : list UsageSample :=
  List.filter (λ s, bool_decide (us_source s = from_gateway)) (mw_samples w).

Abbreviation MPieces := (Pieces (World := MachineWorld)).

(** A statement of a device or an agent leaves the samples of the gateway alone. *)
Definition same_egress (w1 w2 : MachineWorld) : Prop := gateway_samples w2 = gateway_samples w1.

#[export] Instance same_egress_refl : Reflexive same_egress.
Proof. by intros w. Qed.

Abbreviation msafe := (gsafe machine_inv machine_le same_egress).
Abbreviation quiet := (within same_egress).
Abbreviation msafe_ret := (gsafe_ret machine_inv machine_le same_egress).
Abbreviation msafe_bind := (gsafe_bind machine_inv machine_le same_egress).
Abbreviation msafe_atomically := (gsafe_atomically machine_inv machine_le same_egress).
Abbreviation msafe_reading := (gsafe_reading machine_inv machine_le same_egress).

Section Rules.
Context {A : Type}.
Implicit Types (own : MPieces) (P : MPieces → A → MachineWorld → Prop).

Lemma msafe_sandbox own call (k : option string → MachineHandler A) w P :
  (∀ a, msafe own (k a) w P) → msafe own (sandbox call ≫= k) w P.
Proof.
  intros Hx. apply msafe_bind. intros Hq answer. destruct answer as [a|]; [|done]. split; [done|apply Hx].
Qed.

Lemma msafe_audit own u type payload actor (k : unit → MachineHandler A) w P :
  (∀ w1 w2, machine_inv w2 → machine_le w w2 → msafe (own ++ [(w1, w2)]) (k tt) w2 P) →
  msafe own (m_audit u type payload actor ≫= k) w P.
Proof.
  intros Hx. apply msafe_bind, msafe_atomically. intros w1 Hi Hle. cbn.
  destruct (ahead_lines w1 (mw_audit w1 ++ [mkLine u type payload actor]) Hi) as [Hi' Hle'].
  split; [by split|]. split; [done|]. apply Hx; [done|by etrans].
Qed.

Lemma msafe_move own id from change (k : option Machine → MachineHandler A) w P :
  (∀ now m, mr_state m = from → machine_row_le m (change now m)) →
  (∀ w1 w2 o, machine_inv w2 → machine_le w w2 → is_Some (mw_machines w2 !! id) ∨ o = None →
     msafe (own ++ [(w1, w2)]) (k o) w2 P) →
  msafe own (move_machine id from change ≫= k) w P.
Proof.
  intros Hch Hx. apply msafe_bind, msafe_atomically. intros w1 Hi Hle.
  assert (msafe (own ++ [(w1, w1)]) (k None) w1 P) as Hnone by (apply Hx; auto).
  destruct (mw_machines w1 !! id) as [m|] eqn:Em; cbn; [|by split; [apply ahead_refl|]].
  case_bool_decide as Hs; cbn; [|by split; [apply ahead_refl|]].
  destruct (ahead_row w1 id m (change (mw_nowMs w1) m) Hi Em) as [Hi' Hle']; [by apply Hch|].
  split; [by split|]. split; [done|]. apply Hx; [done|by etrans|]. left. cbn. rewrite lookup_insert_eq. eauto.
Qed.

Lemma msafe_event own id from to r d (k : MachineEvent → MachineHandler A) w P :
  legal from to → is_Some (mw_machines w !! id) →
  (∀ e w1 w2, me_machineId e = id → machine_inv w2 → machine_le w w2 → msafe (own ++ [(w1, w2)]) (k e) w2 P) →
  msafe own (insert_event id from to r d ≫= k) w P.
Proof.
  intros Hl [m Hm] Hx. apply msafe_bind, msafe_atomically. intros w1 Hi Hle. cbn.
  destruct (ml_machines _ _ Hle _ _ Hm) as (m' & Hm' & _).
  destruct (ahead_event w1 (mkEvent id from to r d (mw_nowMs w1)) Hi) as [Hi' Hle']; [done|by eexists|].
  split; [by split|]. split; [done|]. apply Hx; [done|done|by etrans].
Qed.

Lemma msafe_address own id address w (P : MPieces → unit → MachineWorld → Prop) :
  (∀ w1 w2, machine_inv w2 → machine_le w w2 → P (own ++ [(w1, w2)]) tt w2) → msafe own (set_address id address) w P.
Proof.
  intros Hx. apply msafe_atomically. intros w1 Hi Hle. cbn.
  destruct (mw_machines w1 !! id) as [m|] eqn:Em.
  - destruct (ahead_row w1 id m (mkMachine (mr_id m) (mr_userId m) (mr_state m) (mr_region m) (mr_spec m) (Some address)
      (mr_updatedAt m) (mr_lastTransitionAt m)) Hi Em) as [Hi' Hle']; [by split; [|apply rtc_refl]|].
    rewrite (alter_alt_Some _ _ _ _ Em). split; [by split|]. split; [done|]. apply Hx; [done|by etrans].
  - rewrite alter_id by (intros x Hm; congruence). assert (set_machine_rows (mw_machines w1) w1 = w1) as -> by by destruct w1.
    split; [by apply ahead_refl|]. split; [done|]. by apply Hx.
Qed.
End Rules.

(** ** What an answer comes with *)

Section Routes.
Context `{W : WebCrypto}.
Context (signingKey verifyKey : CryptoKey) (EGRESS_GATEWAY_TOKEN : option string).
Abbreviation handle := (handle_machine signingKey verifyKey EGRESS_GATEWAY_TOKEN).

(** The request held a capability token that was valid when it was checked,
    for a machine of its subject. *)
Definition agent_evidence (authorization : option string) (own : MPieces) (agent : AgentIdentity) : Prop :=
  ∃ token claims w1 w2 m, bearer authorization = Some token
    ∧ (w1, w1) ∈ own ∧ verifyCapabilityToken verifyKey token (seconds (mw_nowMs w1)) = inr claims
    ∧ (w2, w2) ∈ own ∧ mw_machines w2 !! cc_mid claims = Some m ∧ mr_userId m = cc_sub claims
    ∧ agent = mkAgentIdentity (mr_id m) (mr_userId m) (cc_caps claims).

(** The machine of the account when the request looked it up. *)
Definition found_machine (u : string) (own : MPieces) (id : string) : Prop :=
  ∃ w m, (w, w) ∈ own ∧ machine_of u w = Some m ∧ mr_id m = id.

Lemma found_machine_mono u own own' id : (∀ x, x ∈ own → x ∈ own') → found_machine u own id → found_machine u own' id.
Proof. intros Hin (w & m & Hw & Hm). exists w, m. split; [by apply Hin|done]. Qed.

Definition granted (c : MachineCaller) (own : MPieces) (cap : Capability) : Prop :=
  is_terminal cap = true ∨ ∃ w u feature, (w, w) ∈ own ∧ mw_accounts w !! mc_userId c = Some u
    ∧ CAPABILITY_FEATURE cap = Some feature ∧ feature ∈ ma_features u.

Definition promise (r : MachineRequest) (own : MPieces) (resp : MachineResponse) : Prop :=
  match r, ms_body resp with
  | MTransition c body, MbMoved _ event =>
      found_machine (mc_userId c) own (me_machineId event)
      ∧ (tb_to body = suspending → tb_force body ≠ Some true →
         ∃ w, (w, w) ∈ own ∧ lifecycleVerdict (mw_activity w !! me_machineId event) (mw_nowMs w) = idle_shell)
  | MBoost c _, MbMoved _ event =>
      found_machine (mc_userId c) own (me_machineId event)
      ∧ ∃ w, (w, w) ∈ own ∧ boosts_since (me_machineId event) (mw_nowMs w - DAY_MS) w < maxBoostsPerDay
  | MActivity authorization _, MbVerdict _ =>
      ∃ agent, agent_evidence authorization own agent ∧ agentReportRefusal (ai_caps agent) = None
  | MUsageSample authorization _, MbSample s =>
      ∃ agent, agent_evidence authorization own agent ∧ agentReportRefusal (ai_caps agent) = None
        ∧ us_userId s = ai_userId agent ∧ us_machineId s = ai_machineId agent ∧ us_proxiedBytes s = 0
  | MCapabilityToken c _ _, MbToken _ _ caps => Forall (granted c own) caps
  | _, _ => True
  end.

(** ** The routes *)

Lemma get_machine_safe c own w : msafe own (get_machine c) w (λ own' resp _, promise (MGet c) own' resp).
Proof.
  unfold get_machine. apply msafe_reading. intros w1 _ _. destruct (machine_of _ w1) as [m|].
  - apply msafe_reading. intros w2 _ _. by apply msafe_ret.
  - apply msafe_reading. intros w2 _ _. destruct (mw_accounts w2 !! _) as [u|]; [|by apply msafe_ret].
    destruct (String.eqb _ _); [|by apply msafe_ret]. apply msafe_reading. intros w3 _ _. by apply msafe_ret.
Qed.

Lemma drive_safe own machine to w (P : MPieces → unit → MachineWorld → Prop) :
  (∀ own' w2, own ⊆ own' → P own' tt w2) → msafe own (drive machine to) w P.
Proof.
  intros Hx. assert (P own tt w) as H0 by by apply Hx. destruct to; cbn [drive]; try by apply msafe_ret.
  - apply msafe_sandbox. intros [a|]; [|by apply msafe_ret]. apply msafe_address. intros w1 w2 _ _. apply Hx.
    intros x Hxin. apply elem_of_app. by left.
  - apply msafe_sandbox. intros _. by apply msafe_ret.
  - apply msafe_sandbox. intros _. by apply msafe_ret.
  - apply msafe_sandbox. intros _. by apply msafe_ret.
Qed.

Lemma moved_le to now m : legal (mr_state m) to → machine_row_le m (moved to now m).
Proof. intros Hl. split; [done|]. by apply rtc_once. Qed.
Lemma boosted_le mb now m : legal (mr_state m) boosting → machine_row_le m (boosted_to mb now m).
Proof. intros Hl. split; [done|]. by apply rtc_once. Qed.

Lemma make_transition_safe c body m own w :
  legal (mr_state m) (tb_to body) → is_Some (mw_machines w !! mr_id m) → found_machine (mc_userId c) own (mr_id m) →
  (tb_to body = suspending → tb_force body ≠ Some true →
     ∃ wg, (wg, wg) ∈ own ∧ lifecycleVerdict (mw_activity wg !! mr_id m) (mw_nowMs wg) = idle_shell) →
  msafe own (make_transition c body m) w (λ own' resp _, promise (MTransition c body) own' resp).
Proof.
  intros Hl Hm Hf Hg. unfold make_transition. apply msafe_move.
  { intros now r Hr. apply moved_le. by rewrite Hr. }
  intros w1 w2 o Hi2 Hle2 [Hs| ->]; [|by apply msafe_ret]. destruct o as [row|]; [|by apply msafe_ret].
  apply msafe_event; [done|done|]. intros e w3 w4 He _ _. apply msafe_bind, drive_safe. intros own' w5 Hsub.
  apply msafe_audit. intros w6 w7 _ _. apply msafe_ret. cbn. rewrite He.
  assert (∀ x, x ∈ own → x ∈ own' ++ [(w6, w7)]) as Hin by (intros x Hx; apply elem_snoc_old, Hsub; by do 2 apply elem_snoc_old).
  split; [by eapply found_machine_mono|]. intros Ht Hn. destruct (Hg Ht Hn) as (wg & Hwg & Hv). exists wg. split; [by apply Hin|done].
Qed.

Lemma transition_safe c body own w : msafe own (transition c body) w (λ own' resp _, promise (MTransition c body) own' resp).
Proof.
  unfold transition. apply msafe_reading. intros w0 Hi0 _. destruct (machine_of _ w0) as [m|] eqn:Em; [|by apply msafe_ret].
  destruct (negb _) eqn:El; [by apply msafe_ret|]. apply negb_false_iff in El.
  destruct (machine_of_some _ _ _ Hi0 Em) as [Hm _].
  assert (found_machine (mc_userId c) (own ++ [(w0, w0)]) (mr_id m)) as Hf by (exists w0, m; split; [apply elem_snoc_new|done]).
  unfold suspend_guard. destruct (bool_decide (tb_to body = suspending) && _) eqn:Eg.
  - apply msafe_bind, msafe_reading. intros w1 Hi1 Hle1. apply msafe_ret.
    destruct (verdict_suspends _) eqn:Ev; [|by apply msafe_ret].
    apply make_transition_safe; [done| | |].
    + destruct (ml_machines _ _ Hle1 _ _ Hm) as (m' & Hm' & _). eauto.
    + eapply found_machine_mono; [|exact Hf]. intros x. apply elem_snoc_old.
    + intros _ _. exists w1. split; [apply elem_snoc_new|]. by destruct (lifecycleVerdict _ _).
  - apply msafe_bind, msafe_ret. apply make_transition_safe; [done|by eexists|done|]. intros Ht Hn. exfalso.
    rewrite bool_decide_true, bool_decide_false in Eg by done. discriminate.
Qed.

Lemma lifecycle_safe c own w : msafe own (machine_lifecycle c) w (λ own' resp _, promise (MLifecycle c) own' resp).
Proof.
  unfold machine_lifecycle. apply msafe_reading. intros w0 _ _. destruct (machine_of _ w0); [|by apply msafe_ret].
  apply msafe_reading. intros w1 _ _. by apply msafe_ret.
Qed.

Lemma summary_safe c days own w : msafe own (usage_summary c days) w (λ own' resp _, promise (MUsageSummary c days) own' resp).
Proof.
  unfold usage_summary. apply msafe_reading. intros w0 _ _. destruct (machine_of _ w0); [|by apply msafe_ret].
  do 2 (apply msafe_reading; intros ? _ _). by apply msafe_ret.
Qed.

Lemma job_mode_safe c pty enabled own w :
  msafe own (machine_job_mode c pty enabled) w (λ own' resp _, promise (MJobMode c pty enabled) own' resp).
Proof.
  unfold machine_job_mode. apply msafe_reading. intros w0 _ _. destruct (machine_of _ w0) as [m|]; [|by apply msafe_ret].
  apply msafe_reading. intros w1 _ _. destruct (mw_activity w1 !! _) as [a|]; [|by apply msafe_ret].
  destruct (negb _); [by apply msafe_ret|]. apply msafe_bind, msafe_atomically. intros w2 Hi2 _.
  destruct (mw_activity w2 !! mr_id m) as [row|] eqn:Er; cbn [fst snd].
  - destruct (mi_activity _ Hi2 _ _ Er) as [H1 H2].
    split; [by apply ahead_activity|]. split; [done|]. apply msafe_audit. intros w3 w4 _ _.
    apply msafe_reading. intros w5 _ _. by apply msafe_ret.
  - split; [by apply ahead_refl|]. split; [done|]. by apply msafe_ret.
Qed.

Lemma capability_token_safe c caps jti own w :
  msafe own (capability_token signingKey c caps jti) w (λ own' resp _, promise (MCapabilityToken c caps jti) own' resp).
Proof.
  unfold capability_token. apply msafe_reading. intros w0 _ _. destruct (machine_of _ w0) as [m|]; [|by apply msafe_ret].
  apply msafe_reading. intros w1 _ _. destruct (refusedCaps _ _) eqn:Er; [|by apply msafe_ret].
  apply msafe_reading. intros w2 _ _. apply msafe_audit. intros w3 w4 _ _. apply msafe_ret. cbn.
  apply Forall_forall. intros cap Hcap. unfold refusedCaps in Er.
  destruct (is_terminal cap) eqn:Et; [by left|right].
  assert (cap ∉ ([] : list Capability)) as Hn by apply not_elem_of_nil. rewrite <- Er in Hn.
  destruct (CAPABILITY_FEATURE cap) as [feature|] eqn:Ef.
  2:{ exfalso. apply Hn. apply In_filter_iff. split; [done|]. by rewrite Et, Ef. }
  destruct (mw_accounts w1 !! mc_userId c) as [u|] eqn:Eu.
  2:{ exfalso. apply Hn. apply In_filter_iff. split; [done|]. rewrite Et, Ef. by rewrite bool_decide_false by apply not_elem_of_nil. }
  destruct (decide (feature ∈ ma_features u)) as [Hin|Hin].
  - exists w1, u, feature. split; [|done]. by do 2 apply elem_snoc_old; apply elem_snoc_new.
  - exfalso. apply Hn. apply In_filter_iff. split; [done|]. rewrite Et, Ef. by rewrite bool_decide_false.
Qed.

Lemma boost_safe c mb own w : msafe own (boost c mb) w (λ own' resp _, promise (MBoost c mb) own' resp).
Proof.
  unfold boost. apply msafe_reading. intros w0 Hi0 _. destruct (machine_of _ w0) as [m|] eqn:Em; [|by apply msafe_ret].
  destruct (negb _) eqn:El; [by apply msafe_ret|]. apply negb_false_iff in El. destruct (machine_of_some _ _ _ Hi0 Em) as [Hm _].
  apply msafe_reading. intros w1 Hi1 Hle1. unfold checkBoost. destruct (_ >=? _) eqn:Ec.
  { apply msafe_audit. intros w2 w3 _ _. by apply msafe_ret. }
  bprop. apply msafe_move; [intros now r Hr; apply boosted_le; by rewrite Hr|].
  intros w2 w3 o Hi3 Hle3 [Hs| ->]; [|by apply msafe_ret]. destruct o as [row|]; [|by apply msafe_ret].
  apply msafe_event; [done|done|]. intros e w4 w5 He _ _. apply msafe_sandbox. intros _. apply msafe_audit. intros w6 w7 _ _.
  apply msafe_ret. cbn. rewrite He. split.
  - exists w0, m. split; [|done]. by do 4 apply elem_snoc_old; apply elem_snoc_new.
  - exists w1. split; [by do 3 apply elem_snoc_old; apply elem_snoc_new|]. lia.
Qed.

(** ** The agent *)

Lemma agent_safe authorization own w k (P : MPieces → MachineResponse → MachineWorld → Prop) :
  (∀ own' status e r w', P own' (mkMachineResp status (MbError e r)) w') →
  (∀ agent own' w' m, agent_evidence authorization own' agent → machine_inv w' → mw_machines w' !! ai_machineId agent = Some m →
     mr_userId m = ai_userId agent → msafe own' (k agent) w' P) →
  msafe own (bearerAgent verifyKey authorization k) w P.
Proof.
  intros Hd Hk. unfold bearerAgent. destruct (bearer authorization) as [[|a token]|] eqn:Eb; try by apply msafe_ret.
  apply msafe_reading. intros w1 _ _. destruct (verifyCapabilityToken _ _ _) as [e|claims] eqn:Ev; [by apply msafe_ret|].
  apply msafe_reading. intros w2 Hi2 _. destruct (mw_machines w2 !! cc_mid claims) as [m|] eqn:Em; [|by apply msafe_ret].
  destruct (String.eqb_spec (mr_userId m) (cc_sub claims)) as [Hu|Hu]; [|by apply msafe_ret].
  pose proof (mi_keyed _ Hi2 _ _ Em) as Hkey. apply (Hk _ _ _ m); [|done|by cbn; rewrite Hkey|done].
  exists (String a token), claims, w1, w2, m. split; [done|]. split; [by apply elem_snoc_old, elem_snoc_new|]. split; [done|].
  split; [apply elem_snoc_new|]. done.
Qed.

Lemma agent_evidence_mono authorization own own' agent : (∀ x, x ∈ own → x ∈ own') →
  agent_evidence authorization own agent → agent_evidence authorization own' agent.
Proof. intros Hin (t & cl & w1 & w2 & m & ? & H1 & ? & H2 & ? & ? & ?). exists t, cl, w1, w2, m. apply Hin in H1, H2. by split_and!. Qed.

Lemma activity_safe authorization body own w :
  msafe own (bearerAgent verifyKey authorization (λ agent, m_validated (activityReportSchema body) (machine_activity agent body))) w
    (λ own' resp _, promise (MActivity authorization body) own' resp).
Proof.
  apply agent_safe; [done|]. intros agent own1 w1 m Hev Hi1 Hm Hu. unfold m_validated. destruct (activityReportSchema body); [|by apply msafe_ret].
  unfold machine_activity. destruct (agentReportRefusal _) eqn:Er; [by apply msafe_ret|].
  apply msafe_reading. intros w2 Hi2 Hle2. destruct (isFutureDated _ _) eqn:Ef; [by apply msafe_ret|].
  apply msafe_bind, msafe_atomically. intros w3 Hi3 Hle3. unfold isFutureDated in Ef. bprop. cbn [fst snd]. split.
  { apply ahead_activity; [done|cbn; apply Hle3|done]. }
  split; [done|]. apply msafe_ret. cbn. exists agent. split; [|done].
  eapply agent_evidence_mono; [|exact Hev]. intros x Hx. by do 2 apply elem_snoc_old.
Qed.

Lemma usage_sample_safe authorization body own w :
  msafe own (bearerAgent verifyKey authorization (λ agent, m_validated (agentUsageSampleSchema body) (usage_sample agent body))) w
    (λ own' resp _, promise (MUsageSample authorization body) own' resp).
Proof.
  apply agent_safe; [done|]. intros agent own1 w1 m Hev Hi1 Hm Hu. unfold m_validated.
  destruct (agentUsageSampleSchema body) eqn:Es; [|by apply msafe_ret].
  unfold usage_sample. destruct (agentReportRefusal _) eqn:Er; [by apply msafe_ret|]. destruct (_ || _); [by apply msafe_ret|].
  apply msafe_reading. intros w2 Hi2 Hle2. unfold periodStartRefusal. destruct (isFutureDated _ _) eqn:Ef; [by apply msafe_ret|].
  destruct (_ <? _); [by apply msafe_ret|]. unfold insert_sample. apply msafe_bind, msafe_atomically. intros w3 Hi3 Hle3. cbn [fst snd]. split.
  { apply ahead_sample; [done|]. unfold isFutureDated in Ef. unfold agentUsageSampleSchema, bounded in Es. bprop. split; cbn.
    - destruct (ml_machines _ _ Hle2 _ _ Hm) as (m2 & Hm2 & [(_ & Hu2 & _) _]).
      destruct (ml_machines _ _ Hle3 _ _ Hm2) as (m3 & Hm3 & [(_ & Hu3 & _) _]). exists m3. split; [done|congruence].
    - pose proof (ml_now _ _ Hle3). lia.
    - lia. }
  split. { unfold same_egress, gateway_samples. cbn. rewrite List.filter_app. cbn. by rewrite app_nil_r. }
  apply msafe_ret. cbn. exists agent. split_and!; try done.
  eapply agent_evidence_mono; [|exact Hev]. intros x Hx. by do 2 apply elem_snoc_old.
Qed.

(** ** Every route *)

(** The secret of the gateway, presented as a bearer token. *)
Definition holds_secret (authorization : option string) : Prop :=
  ∃ secret, EGRESS_GATEWAY_TOKEN = Some secret ∧ secret ≠ "" ∧ bearer authorization = Some secret.

(** A piece leaves the samples of the gateway alone, or adds the one it
    reported. *)
Definition allowed (r : MachineRequest) (w1 w2 : MachineWorld) : Prop :=
  gateway_samples w2 = gateway_samples w1
  ∨ ∃ authorization body s, r = MUsageEgress authorization body ∧ holds_secret authorization
      ∧ gateway_samples w2 = gateway_samples w1 ++ [s] ∧ us_userId s = gs_userId body ∧ us_proxiedBytes s = gs_proxiedBytes body.

Definition machine_post (r : MachineRequest) (_ : MachineWorld) (own : MPieces) (resp : MachineResponse) (_ : MachineWorld) : Prop :=
  (∀ w1 w2, (w1, w2) ∈ own → allowed r w1 w2) ∧ promise r own resp.

Lemma msafe_post r (t : MachineHandler MachineResponse) w w0 : msafe [] t w (λ own' resp _, promise r own' resp) →
  tsafe machine_inv machine_le t [] w (machine_post r w0).
Proof.
  intros Ht. eapply tsafe_mono; [apply _| |apply Ht; by intros ? ? ?%not_elem_of_nil].
  intros own a w' _ [Hq Hp]. split; [|done]. intros w1 w2 Hin. left. by apply Hq.
Qed.

Lemma secretEquals_iff a b : secretEquals a b = true ↔ a = b.
Proof. unfold secretEquals. rewrite bytesEqual_iff. split; [apply utf8_inj|by intros ->]. Qed.

Lemma post_deny r w0 own status e x w' : quiet own → machine_post r w0 own (mkMachineResp status (MbError e x)) w'.
Proof. intros Hq. split; [|by destruct r]. intros w1 w2 Hin. left. by apply Hq. Qed.

Lemma usage_egress_safe authorization body w w0 :
  holds_secret authorization → gatewayUsageSampleSchema body = true →
  tsafe machine_inv machine_le (usage_egress body) [] w (machine_post (MUsageEgress authorization body) w0).
Proof.
  intros Hs Hschema. unfold usage_egress. apply tsafe_bind, tsafe_reading; [apply _|]. intros w1 Hi1 Hle1.
  assert (quiet ([] ++ [(w1, w1)])) as Hq1 by by apply within_snoc; [apply within_nil|].
  unfold periodStartRefusal. destruct (isFutureDated _ _) eqn:Ef.
  { split; [|done]. intros a b Hin. left. by apply Hq1. }
  destruct (_ <? _). { split; [|done]. intros a b Hin. left. by apply Hq1. }
  apply tsafe_bind, tsafe_reading; [apply _|]. intros w2 Hi2 Hle2.
  assert (quiet (([] ++ [(w1, w1)]) ++ [(w2, w2)])) as Hq2 by by apply within_snoc.
  destruct (machine_of _ w2) as [m|] eqn:Em; [|by apply post_deny].
  destruct (machine_of_some _ _ _ Hi2 Em) as [Hm Hu].
  unfold insert_sample. apply tsafe_bind, tsafe_atomically; [apply _|]. intros w3 Hi3 Hle3. cbn [fst snd].
  set (s := mkSample _ _ _ _ _ _ _ _).
  assert (ahead w3 (set_samples (mw_samples w3 ++ [s]) w3)) as [Hi' Hle'].
  { apply ahead_sample; [done|]. unfold isFutureDated in Ef. unfold gatewayUsageSampleSchema, bounded in Hschema. bprop.
    split; cbn.
    - destruct (ml_machines _ _ Hle3 _ _ Hm) as (m' & Hm' & [(_ & Hu' & _) _]). exists m'. split; [done|congruence].
    - pose proof (ml_now _ _ Hle2). pose proof (ml_now _ _ Hle3). lia.
    - lia. }
  split; [done|]. split; [done|]. split; [|done].
  intros a b [Hin|Hin]%elem_of_app; [left; by apply Hq2|]. apply list_elem_of_singleton in Hin as [= -> ->]. right.
  exists authorization, body, s. unfold gateway_samples. cbn. by rewrite List.filter_app.
Qed.

Lemma egress_safe authorization body w w0 :
  tsafe machine_inv machine_le (bearerGateway EGRESS_GATEWAY_TOKEN authorization
    (m_validated (gatewayUsageSampleSchema body) (usage_egress body))) [] w (machine_post (MUsageEgress authorization body) w0).
Proof.
  unfold bearerGateway. pose proof (λ status e r w', post_deny (MUsageEgress authorization body) w0 [] status e r w' (within_nil same_egress)) as Hd.
  destruct EGRESS_GATEWAY_TOKEN as [[|x secret]|] eqn:Es; try by apply Hd.
  destruct (bearer authorization) as [[|y token]|] eqn:Eb; try by apply Hd.
  destruct (secretEquals _ _) eqn:Eq; [|by apply Hd]. apply secretEquals_iff in Eq.
  destruct (gatewayUsageSampleSchema body) eqn:Eschema; [|by apply Hd].
  apply usage_egress_safe; [|done]. exists (String x secret). split; [done|]. split; [done|congruence].
Qed.

Lemma validated_safe (ok : bool) h own w (P : MPieces → MachineResponse → MachineWorld → Prop) :
  (∀ own', P own' (mkMachineResp 400 (MbError "invalid_body" None)) w) → msafe own h w P → msafe own (m_validated ok h) w P.
Proof. intros Hd Hh. unfold m_validated. destruct ok; [done|]. apply msafe_ret, Hd. Qed.

Lemma handle_machine_safe r w w0 : tsafe machine_inv machine_le (handle r) [] w (machine_post r w0).
Proof.
  destruct r; cbn [handle_machine].
  - apply msafe_post, get_machine_safe.
  - apply msafe_post, validated_safe; [done|apply transition_safe].
  - apply msafe_post, activity_safe.
  - apply msafe_post, lifecycle_safe.
  - apply msafe_post, validated_safe; [done|apply job_mode_safe].
  - apply msafe_post, validated_safe; [done|apply capability_token_safe].
  - apply msafe_post, usage_sample_safe.
  - apply egress_safe.
  - apply msafe_post, validated_safe; [done|apply summary_safe].
  - apply msafe_post, validated_safe; [done|apply boost_safe].
Qed.
End Routes.
