(* ===== verification/MachineProps.v ===== *)
(** * What the control plane guarantees of a machine

    For any number of requests of devices, agents and the gateway, interleaved
    at their awaits in any order, with a provider that may fail, the clock
    advancing and restarts of the service.  Scheduled runs at the end. *)

From stdpp Require Import relations.
From S2P Require Export MachineSafety.
From Stdlib Require Import Ascii.
From Stdlib Require QArith.

(** Time passes; home machines connect and disconnect. *)
Definition machine_elapse (n : Z) (online : gset string) (w : MachineWorld) : MachineWorld :=
  mkMachineWorld n (mw_accounts w) (mw_machines w) (mw_events w) (mw_activity w) (mw_samples w) online (mw_audit w).
Definition machine_env (w w' : MachineWorld) : Prop := ∃ n online, mw_nowMs w <= n ∧ w' = machine_elapse n online w.

Lemma machine_env_ok w w' : machine_env w w' → machine_inv w → machine_inv w' ∧ machine_le w w'.
Proof.
  intros (n & online & Hn & ->) [Hk Hu He Ha Hs]. split; [split|split]; cbn; try done; try reflexivity.
  intros k a Hka. destruct (Ha k a Hka). lia.
Qed.

(** ** The meter of egress *)

Definition sum_bytes (l : list UsageSample) : Z := foldr (λ s t, us_proxiedBytes s + t) 0 l.

Lemma sum_bytes_app l k : sum_bytes (l ++ k) = sum_bytes l + sum_bytes k.
Proof. unfold sum_bytes. induction l as [|s l IH]; cbn [foldr app]; lia. Qed.

Lemma sum_bytes_cons s l : sum_bytes (s :: l) = us_proxiedBytes s + sum_bytes l.
Proof. done. Qed.

Lemma sum_bytes_perm l k : l ≡ₚ k → sum_bytes l = sum_bytes k.
Proof. unfold sum_bytes. induction 1; cbn [foldr]; lia. Qed.

Definition by_gateway (s : UsageSample) : bool := bool_decide (us_source s = from_gateway).

Lemma usage_totals_bytes now l : ∀ t,
  ut_proxiedBytes (fold_left (add_row now) l t) = ut_proxiedBytes t + sum_bytes (List.filter by_gateway l)
  ∧ ut_lastDayProxiedBytes (fold_left (add_row now) l t) =
      ut_lastDayProxiedBytes t + sum_bytes (List.filter (λ s, by_gateway s && (us_periodStart s >=? now - DAY_MS)) l).
Proof.
  induction l as [|s l IH]; intros t; cbn [fold_left List.filter]; [unfold sum_bytes; cbn [foldr]; lia|].
  destruct (IH (add_row now t s)) as [-> ->]. unfold add_row, by_gateway. destruct (us_source s);
    [rewrite bool_decide_false by done|rewrite bool_decide_true by done]; cbn [andb ut_proxiedBytes ut_lastDayProxiedBytes]; [done|].
  destruct (us_periodStart s >=? now - DAY_MS); rewrite ?sum_bytes_cons; lia.
Qed.

(** What the summary says of egress. *)
Definition metered (u : string) (now since : Z) (w : MachineWorld) : Z * bool :=
  let t := usage_totals now (usage_rows u since w) in (ut_proxiedBytes t, egressThrottled (ut_lastDayProxiedBytes t)).

Lemma filter_perm (f : UsageSample → bool) l k : l ≡ₚ k → List.filter f l ≡ₚ List.filter f k.
Proof.
  induction 1 as [|x l k _ IH|x y l|l k m _ IH1 _ IH2]; cbn; [done| | |by etrans].
  - destruct (f x); [by constructor|done].
  - destruct (f x), (f y); try done. by constructor.
Qed.

Lemma filter_merge_sort_perm (f : UsageSample → bool) l : List.filter f (merge_sort sample_older l) ≡ₚ List.filter f l.
Proof. apply filter_perm, merge_sort_Permutation. Qed.

Lemma metered_same u now since w w' :
  List.filter (λ s, String.eqb (us_userId s) u) (gateway_samples w') = List.filter (λ s, String.eqb (us_userId s) u) (gateway_samples w) →
  metered u now since w' = metered u now since w.
Proof.
  intros Hg. unfold metered, usage_totals, usage_rows.
  assert (∀ p, sum_bytes (List.filter (λ s, by_gateway s && p s) (merge_sort sample_older (List.filter
            (λ s, String.eqb (us_userId s) u && (us_periodStart s >=? since)) (mw_samples w')))) =
          sum_bytes (List.filter (λ s, by_gateway s && p s) (merge_sort sample_older (List.filter
            (λ s, String.eqb (us_userId s) u && (us_periodStart s >=? since)) (mw_samples w))))) as Hsum.
  { intros p. rewrite !(sum_bytes_perm _ _ (filter_merge_sort_perm _ _)). f_equal.
    assert (∀ w, List.filter (λ s, by_gateway s && p s) (List.filter (λ s, String.eqb (us_userId s) u && (us_periodStart s >=? since)) (mw_samples w)) =
      List.filter (λ s, (us_periodStart s >=? since) && p s) (List.filter (λ s, String.eqb (us_userId s) u) (gateway_samples w))) as Hf.
    { intros v. unfold gateway_samples. rewrite !filter_filter_and. apply List.filter_ext. intros s. fold (by_gateway s).
      destruct (by_gateway s), (String.eqb _ _), (_ >=? _), (p s); reflexivity. }
    rewrite !Hf. by rewrite Hg. }
  destruct (usage_totals_bytes now (merge_sort sample_older (List.filter
     (λ s, String.eqb (us_userId s) u && (us_periodStart s >=? since)) (mw_samples w'))) (mkTotals 0 (QArith_base.Qmake 0 1) 0 0)) as [-> ->].
  destruct (usage_totals_bytes now (merge_sort sample_older (List.filter
     (λ s, String.eqb (us_userId s) u && (us_periodStart s >=? since)) (mw_samples w))) (mkTotals 0 (QArith_base.Qmake 0 1) 0 0)) as [-> ->].
  f_equal; [f_equal|do 2 f_equal; apply Hsum].
  assert (∀ l, List.filter by_gateway l = List.filter (λ s, by_gateway s && true) l) as Ht
    by (intros l; apply List.filter_ext; intros s; by rewrite andb_true_r).
  rewrite !Ht. apply Hsum.
Qed.

Section Pool.
Context `{W : WebCrypto}.
Context (signingKey verifyKey : CryptoKey) (EGRESS_GATEWAY_TOKEN : option string).

Abbreviation MachinePool := (Config (World := MachineWorld) (Ext := SandboxCall) (Answer := SandboxAnswer)
  (Request := MachineRequest) (Response := MachineResponse)).
Abbreviation step := (pool_step (Ext := SandboxCall) (Answer := SandboxAnswer)
  (handle_machine signingKey verifyKey EGRESS_GATEWAY_TOKEN) machine_env).
Abbreviation ok := (pool_ok (Ext := SandboxCall) (Answer := SandboxAnswer) machine_inv machine_le
  (machine_post verifyKey EGRESS_GATEWAY_TOKEN)).

Lemma machine_reachable w0 (c : MachinePool) : machine_inv w0 → rtc step (initial w0) c → ok c.
Proof.
  intros Hi Hr. eapply pool_reachable_ok; [apply _|exact machine_env_ok| |exact Hi|exact Hr].
  intros r w _. apply handle_machine_safe.
Qed.

Lemma machine_steps (c c' : MachinePool) : ok c → rtc step c c' → ok c' ∧ machine_le (cf_world c) (cf_world c').
Proof.
  intros Hok Hr. split.
  - eapply pool_steps_ok; [apply _|exact machine_env_ok| |exact Hr|exact Hok]. intros r w _. apply handle_machine_safe.
  - eapply pool_reachable_forward; [apply _|exact machine_env_ok| |exact Hok|exact Hr]. intros r w _. apply handle_machine_safe.
Qed.

Lemma machine_finished w0 (c : MachinePool) i r resp : machine_inv w0 → rtc step (initial w0) c →
  cf_threads c !! i = Some r → run_thread r = Ret resp →
  machine_post verifyKey EGRESS_GATEWAY_TOKEN (run_request r) (run_start r) (own_pieces i (cf_history c)) resp (cf_world c).
Proof.
  intros Hi Hr Hl Hret. pose proof (machine_reachable w0 c Hi Hr) as Hok.
  destruct (finished_ok (Ext := SandboxCall) (Answer := SandboxAnswer) _ _ _ c i r resp Hok Hl Hret) as (w & _ & _ & Hp). exact Hp.
Qed.

(** C33: a machine only moves along its state machine.  Whatever requests race,
    it stays with its account and region, goes from state to state by legal
    transitions only, every event records a legal transition of a machine that
    exists, an account has one machine, and every usage sample stays within
    its bounds, for a machine of its account, with bytes only from the gateway
    and awake time only from the agent. *)
Theorem machine_moves_legally w0 (c c' : MachinePool) k m :
  machine_inv w0 → rtc step (initial w0) c → rtc step c c' → mw_machines (cf_world c) !! k = Some m →
  let w' := cf_world c' in
  (∃ m', mw_machines w' !! k = Some m' ∧ mr_userId m' = mr_userId m ∧ mr_region m' = mr_region m
     ∧ rtc (λ s s', canTransition s s' = true) (mr_state m) (mr_state m'))
  ∧ (∀ e, e ∈ mw_events w' → canTransition (me_fromState e) (me_toState e) = true ∧ is_Some (mw_machines w' !! me_machineId e))
  ∧ (∀ i j a b, mw_machines w' !! i = Some a → mw_machines w' !! j = Some b → mr_userId a = mr_userId b → i = j)
  ∧ (∀ s, s ∈ mw_samples w' → sample_ok (mw_machines w') s).
Proof.
  intros Hi Hr Hr' Hm. destruct (machine_steps c c' (machine_reachable w0 c Hi Hr) Hr') as [Hok Hle].
  destruct (po_inv _ _ _ _ Hok) as [_ Hu He _ Hs]. destruct (ml_machines _ _ Hle k m Hm) as (m' & Hm' & [(_ & Hu' & Hreg) Hmoves]).
  split; [by exists m'|]. split; [exact He|]. split; [exact Hu|exact Hs].
Qed.

(** C34: the guards of the machine hold when they matter.  An answer that
    suspended a machine without force found, while the request ran, a snapshot
    of its agent at most two minutes old with no client, transfer, job or
    working process, and no interaction for five minutes; an answer that
    boosted one counted fewer than five boosts in the day before; a report was
    accepted only with a valid terminal-scoped capability token of a machine of
    its subject; and a capability is granted only as a terminal one or with
    its feature. *)
Theorem machine_guards_hold w0 (c : MachinePool) i r resp row event :
  machine_inv w0 → rtc step (initial w0) c → cf_threads c !! i = Some r → run_thread r = Ret resp →
  let own := own_pieces i (cf_history c) in
  (∀ caller body, run_request r = MTransition caller body → tb_to body = suspending → tb_force body ≠ Some true →
     ms_body resp = MbMoved row event →
     ∃ w a, (w, w) ∈ own ∧ mw_activity w !! me_machineId event = Some a
       ∧ mw_nowMs w - ac_lastReportAt a <= ACTIVITY_SNAPSHOT_STALE_AFTER_MS
       ∧ ¬ pinned (mkInputs (ac_clientsAttached a) (ac_processes a) 0 (ac_activeTransfers a) 0)
       ∧ DEFAULT_IDLE_SUSPEND_MS <= mw_nowMs w - ac_lastInteractionAt a)
  ∧ (∀ caller memoryMb, run_request r = MBoost caller memoryMb → ms_body resp = MbMoved row event →
     ∃ w, (w, w) ∈ own ∧ boosts_since (me_machineId event) (mw_nowMs w - DAY_MS) w < maxBoostsPerDay)
  ∧ (∀ authorization body verdict, run_request r = MActivity authorization body → ms_body resp = MbVerdict verdict →
     ∃ agent, agent_evidence verifyKey authorization own agent ∧ agentReportRefusal (ai_caps agent) = None)
  ∧ (∀ caller caps jti token exp given, run_request r = MCapabilityToken caller caps jti → ms_body resp = MbToken token exp given →
     Forall (granted caller own) given).
Proof.
  intros Hi Hr Hl Hret. destruct (machine_finished w0 c i r resp Hi Hr Hl Hret) as [_ Hp]. unfold promise in Hp. split_and!.
  - intros caller body Hreq Hto Hforce Hb. rewrite Hreq, Hb in Hp. destruct (proj2 Hp Hto Hforce) as (w & Hw & Hv).
    apply lifecycle_suspends in Hv as (a & Ha & Hrest). by exists w, a.
  - intros caller mb Hreq Hb. rewrite Hreq, Hb in Hp. exact (proj2 Hp).
  - intros authorization body verdict Hreq Hb. by rewrite Hreq, Hb in Hp.
  - intros caller caps jti token exp given Hreq Hb. by rewrite Hreq, Hb in Hp.
Qed.

(** C35: egress is metered by the gateway alone.  A statement of a request
    changes what the summary of any account says of proxied bytes and of
    throttling only if the request presented the secret of the gateway, and
    then only for the account it named. *)
Theorem egress_metered_by_gateway w0 (c : MachinePool) i r resp w1 w2 u now since :
  machine_inv w0 → rtc step (initial w0) c → cf_threads c !! i = Some r → run_thread r = Ret resp →
  (w1, w2) ∈ own_pieces i (cf_history c) → metered u now since w2 ≠ metered u now since w1 →
  ∃ authorization body, run_request r = MUsageEgress authorization body
    ∧ holds_secret EGRESS_GATEWAY_TOKEN authorization ∧ gs_userId body = u.
Proof.
  intros Hi Hr Hl Hret Hin Hne. destruct (machine_finished w0 c i r resp Hi Hr Hl Hret) as [Hq _].
  destruct (Hq w1 w2 Hin) as [Hg|(authorization & body & s & Hreq & Hsec & Hg & Hu & _)].
  { exfalso. apply Hne, metered_same. by rewrite Hg. }
  exists authorization, body. split; [done|]. split; [done|]. destruct (decide (gs_userId body = u)) as [|Hnu]; [done|].
  exfalso. apply Hne, metered_same. rewrite Hg, List.filter_app. cbn. rewrite Hu.
  destruct (String.eqb_spec (gs_userId body) u); [done|]. by rewrite app_nil_r.
Qed.
End Pool.

(** * Runs of the machine, and the witnesses

    Scheduled runs: an agent gets its token, reports and is suspended, usage
    is metered; then races and round trips in which a guard or a flag of the
    user does not hold. *)

(** ** Moves outside the service *)

Definition machine_move (n : Z) (w : MachineWorld) : option MachineWorld :=
  if mw_nowMs w <=? n then Some (machine_elapse n (mw_homeOnline w) w) else None.

Lemma machine_move_env n w w' : machine_move n w = Some w' → machine_env w w'.
Proof.
  unfold machine_move. destruct (mw_nowMs w <=? n) eqn:E; [|discriminate]. intros [= <-]. bprop.
  by exists n, (mw_homeOnline w).
Qed.

Abbreviation MachineEvents := (list (Event MachineRequest SandboxAnswer Z)).

(** ** The scenario *)

Module MachineRuns.
Abbreviation Pool := (Config (World := MachineWorld) (Ext := SandboxCall) (Answer := SandboxAnswer)
  (Request := MachineRequest) (Response := MachineResponse)).

Definition U : MachineCaller := mkMachineCaller "u" (Some "d1").
Definition t0 : Z := 1000000000.
Definition machine (state : MachineState) : Machine :=
  mkMachine "m" "u" state "iad" (mkSpec "shared" 2 2048) None t0 t0.
Definition start_in (state : MachineState) (activity : gmap string ActivityRow) : MachineWorld :=
  mkMachineWorld t0 {["u" := mkAccount "cloud" None []]} {["m" := machine state]} [] activity [] ∅ [].
Definition start : MachineWorld := start_in running ∅.

Definition serve := handle_machine (W := ToyCrypto) [1] [1] (Some "secret").
Definition run_demo := run_events serve machine_move.
Definition run_from (w : MachineWorld) (l : MachineEvents) := run_demo l (initial w).
Definition outcome (i : nat) (c : option Pool) : option MachineResponse := c ← c; response_of i c.

(** A request arrives and runs its first [n] pieces. *)
Definition ask (r : MachineRequest) (i n : nat) : MachineEvents := EvSpawn r :: repeat (EvRun i) n.

Definition token : string := (mintCapabilityToken (W := ToyCrypto) [1] "m" "u" [pty_io] (seconds t0) "j1").1.
Definition agent : option string := Some ("Bearer " +:+ token).
Definition shell : ProcessTreeInfo := mkProcess "p1" "zsh" true false false.
Definition build : ProcessTreeInfo := mkProcess "p2" "make" false false false.
Definition report (l : list ProcessTreeInfo) : ActivityReport := mkReport 0 l 0 (t0 - 600000) 0.
Definition to (s : MachineState) : TransitionBody := mkTransition s None None None.

(** A token is minted, the agent reports an idle shell, the machine is
    suspended; agent and gateway send samples. *)
Definition suspend : MachineEvents :=
  ask (MCapabilityToken U [pty_io; pty_io] "j1") 0 4
  ++ ask (MActivity agent (report [shell])) 1 4
  ++ ask (MTransition U (to suspending)) 2 4 ++ [EvAnswer 2 (SandboxDone None); EvRun 2]
  ++ ask (MUsageSample agent (mkAgentSample t0 1000 (QArith_base.Qmake 3 2) None None)) 3 4
  ++ ask (MUsageEgress (Some "Bearer secret") (mkGatewaySample "u" t0 21000000000)) 4 3
  ++ ask (MUsageSummary U 30) 5 3.

(** The machine goes on; the day after, it is boosted. *)
Definition go_on : MachineEvents :=
  ask (MTransition U (to suspended)) 6 4
  ++ ask (MTransition U (to resuming)) 7 3 ++ [EvAnswer 7 (SandboxDone None); EvRun 7]
  ++ ask (MTransition U (to running)) 8 4
  ++ [EvEnv (t0 + DAY_MS)] ++ ask (MBoost U 4096) 9 4 ++ [EvAnswer 9 (SandboxDone None); EvRun 9].

Definition first : option Pool := run_from start suspend.
Definition then_ : option Pool := c ← first; run_demo go_on c.

(** The whole life of a boost. *)
Definition boost_and_shrink : MachineEvents :=
  ask (MBoost U 8192) 0 4 ++ [EvAnswer 0 (SandboxDone None); EvRun 0]
  ++ ask (MTransition U (to boosted)) 1 4 ++ ask (MTransition U (to shrinking)) 2 4 ++ ask (MTransition U (to running)) 3 4.

(** The agent reports a build between the guard of a suspension and its
    update. *)
Definition guard_races : MachineEvents :=
  ask (MActivity agent (report [shell])) 0 4
  ++ ask (MTransition U (to suspending)) 1 2
  ++ ask (MActivity agent (report [build])) 2 4
  ++ repeat (EvRun 1) 2 ++ [EvAnswer 1 (SandboxDone None); EvRun 1].

(** The agent reports a build while the user keeps the shell running. *)
Definition job_races : MachineEvents :=
  ask (MActivity agent (report [shell])) 0 4
  ++ ask (MJobMode U "p1" true) 1 2
  ++ ask (MActivity agent (report [shell; build])) 2 4
  ++ repeat (EvRun 1) 3.

(** The next report of the agent. *)
Definition job_forgotten : MachineEvents :=
  ask (MActivity agent (report [shell])) 0 4
  ++ ask (MJobMode U "p1" true) 1 5
  ++ ask (MActivity agent (report [shell])) 2 4.

(** Five moves to [boosting], none of them a boost. *)
Definition one_round (i : nat) : MachineEvents :=
  ask (MTransition U (to boosting)) i 4 ++ ask (MTransition U (to boosted)) (i + 1) 4
  ++ ask (MTransition U (to shrinking)) (i + 2) 4 ++ ask (MTransition U (to running)) (i + 3) 4.
Definition empty_boosts : MachineEvents :=
  one_round 0 ++ one_round 4 ++ one_round 8 ++ one_round 12 ++ one_round 16 ++ ask (MBoost U 4096) 20 3.

Definition state_after (l : MachineEvents) : option MachineWorld := cf_world <$> run_from start l.
End MachineRuns.

(** What the scenario answers: one capability, however often it is asked for;
    the suspended machine; usage over the daily cap; and the boost. *)
Example machine_demo_answers :
  match MachineRuns.outcome 0 MachineRuns.first, MachineRuns.outcome 2 MachineRuns.first,
        MachineRuns.outcome 5 MachineRuns.first, MachineRuns.outcome 9 MachineRuns.then_ with
  | Some (mkMachineResp 201 (MbToken token _ caps)), Some (mkMachineResp 200 (MbMoved m e)),
    Some (mkMachineResp 200 (MbSummary _ awake bytes _ throttled)), Some (mkMachineResp 200 (MbMoved m' _)) =>
      token = MachineRuns.token ∧ caps = [pty_io] ∧ mr_state m = suspending ∧ me_fromState e = running
      ∧ awake = 1000 ∧ bytes = 21000000000 ∧ throttled = true ∧ sp_memoryMb (mr_spec m') = 4096
  | _, _, _, _ => False
  end.
Proof. vm_compute. repeat split. Qed.

(** Shrinking gives no memory back: the machine runs on with what the boost
    gave it, above what may be suspended or provisioned. *)
Example boost_is_never_undone :
  match MachineRuns.state_after MachineRuns.boost_and_shrink with
  | Some w => match mw_machines w !! "m" with
              | Some m => mr_state m = running ∧ sp_memoryMb (mr_spec m) = 8192 | None => False end
  | None => False
  end.
Proof. vm_compute. split; reflexivity. Qed.

(** The build was reported before the machine was told to sleep. *)
Example suspended_over_a_build :
  let c := MachineRuns.run_from MachineRuns.start MachineRuns.guard_races in
  match MachineRuns.outcome 2 c, MachineRuns.outcome 1 c with
  | Some (mkMachineResp 200 (MbVerdict v)), Some (mkMachineResp 200 (MbMoved m _)) =>
      v = user_process_alive "p2" ∧ mr_state m = suspending
  | _, _ => False
  end.
Proof. vm_compute. split; reflexivity. Qed.

(** The process of the newer report is gone from the snapshot. *)
Example job_mode_loses_a_report :
  match MachineRuns.state_after MachineRuns.job_races with
  | Some w => match mw_activity w !! "m" with
              | Some a => map pi_ptyId (ac_processes a) = ["p1"] | None => False end
  | None => False
  end.
Proof. vm_compute. reflexivity. Qed.

(** What the user pinned is unpinned by the next report. *)
Example report_forgets_job_mode :
  let c := MachineRuns.run_from MachineRuns.start MachineRuns.job_forgotten in
  match MachineRuns.outcome 1 c, MachineRuns.outcome 2 c with
  | Some (mkMachineResp 200 (MbJob before _)), Some (mkMachineResp 200 (MbVerdict after)) =>
      before = job_mode "p1" ∧ after = idle_shell
  | _, _ => False
  end.
Proof. vm_compute. split; reflexivity. Qed.

(** No resize was asked for, and the first boost is refused. *)
Example empty_boosts_use_up_the_cap :
  match MachineRuns.outcome 20 (MachineRuns.run_from MachineRuns.start MachineRuns.empty_boosts) with
  | Some (mkMachineResp 429 (MbAbuse limit _)) => limit = "boosts_per_day"
  | _ => False
  end.
Proof. vm_compute. reflexivity. Qed.

(** ** Witnesses *)

Lemma machine_start_inv : machine_inv MachineRuns.start.
Proof.
  split; cbn.
  - by intros k m [<- <-]%lookup_singleton_Some.
  - by intros i j a b [<- <-]%lookup_singleton_Some [<- <-]%lookup_singleton_Some.
  - by intros e ?%not_elem_of_nil.
  - by intros k a ?%lookup_empty_Some.
  - by intros s ?%not_elem_of_nil.
Qed.

Lemma machine_run_steps (l : MachineEvents) c c' :
  MachineRuns.run_demo l c = Some c' → rtc (pool_step MachineRuns.serve machine_env) c c'.
Proof. apply run_events_steps, machine_move_env. Qed.

Lemma machine_first_then :
  ∃ c c', MachineRuns.first = Some c ∧ MachineRuns.run_demo MachineRuns.go_on c = Some c' ∧ MachineRuns.then_ = Some c'.
Proof.
  assert (is_Some MachineRuns.then_) as [c' Hc'].
  { assert (match MachineRuns.then_ with Some _ => true | None => false end = true) as H by (vm_compute; reflexivity).
    destruct MachineRuns.then_; [eauto|discriminate]. }
  unfold MachineRuns.then_ in *. destruct MachineRuns.first as [c|] eqn:E; [|discriminate].
  cbn [mbind option_bind] in *. exists c, c'. split; [reflexivity|]. split; exact Hc'.
Qed.

Lemma machine_moves_legally_witness :
  ∃ c' m', MachineRuns.then_ = Some c' ∧ mw_machines (cf_world c') !! "m" = Some m' ∧ mr_userId m' = "u"
    ∧ ∀ e, e ∈ mw_events (cf_world c') → canTransition (me_fromState e) (me_toState e) = true.
Proof.
  destruct machine_first_then as (c & c' & Hc & Hc' & Ht).
  assert ((λ c, mr_userId <$> mw_machines (cf_world c) !! "m") <$> MachineRuns.first = Some (Some "u")) as Hu
    by (vm_compute; reflexivity). rewrite Hc in Hu. injection Hu as Hu.
  destruct (mw_machines (cf_world c) !! "m") as [m|] eqn:Em; [|discriminate Hu]. injection Hu as Hu.
  destruct (machine_moves_legally (W := ToyCrypto) [1] [1] (Some "secret") MachineRuns.start c c' "m" m machine_start_inv
    (machine_run_steps _ _ _ Hc) (machine_run_steps _ _ _ Hc') Em) as ((m' & Hm' & Hu' & _) & He & _).
  exists c', m'. split; [exact Ht|]. split; [exact Hm'|]. split; [by rewrite Hu'|]. intros e Hin. exact (proj1 (He e Hin)).
Defined.

Lemma machine_guards_hold_witness :
  ∃ c r resp row event w a, MachineRuns.first = Some c ∧ cf_threads c !! 2%nat = Some r ∧ run_thread r = Ret resp
    ∧ ms_body resp = MbMoved row event ∧ (w, w) ∈ own_pieces 2 (cf_history c)
    ∧ mw_activity w !! me_machineId event = Some a ∧ DEFAULT_IDLE_SUSPEND_MS <= mw_nowMs w - ac_lastInteractionAt a.
Proof.
  destruct machine_first_then as (c & _ & Hc & _).
  assert (match MachineRuns.outcome 2 MachineRuns.first with Some (mkMachineResp _ (MbMoved _ _)) => true | _ => false end = true) as Hres
    by (vm_compute; reflexivity). rewrite Hc in Hres.
  assert (match MachineRuns.first with Some c => run_request <$> cf_threads c !! 2%nat | None => None end
          = Some (MTransition MachineRuns.U (MachineRuns.to suspending))) as Hreq by (vm_compute; reflexivity). rewrite Hc in Hreq.
  unfold MachineRuns.outcome in Hres. cbn [mbind option_bind] in Hres.
  destruct (response_of 2 c) as [[status body]|] eqn:Eresp; [|discriminate Hres].
  destruct body as [| | | | |row event| | | | | | | | |]; try discriminate Hres.
  apply response_of_thread in Eresp as (r & Hl & Hret). rewrite Hl in Hreq. injection Hreq as Hreq.
  destruct (proj1 (machine_guards_hold (W := ToyCrypto) [1] [1] (Some "secret") MachineRuns.start c 2%nat r _ row event
    machine_start_inv (machine_run_steps _ _ _ Hc) Hl Hret) _ _ Hreq eq_refl (λ H, ltac:(discriminate H)) eq_refl)
    as (w & a & Hw & Ha & _ & _ & Hidle).
  exists c, r, (mkMachineResp status (MbMoved row event)), row, event, w, a.
  split; [exact Hc|]. split; [exact Hl|]. split; [exact Hret|]. split; [reflexivity|]. split; [exact Hw|]. split; [exact Ha|exact Hidle].
Defined.

Lemma egress_metered_by_gateway_witness :
  ∃ c w1 w2, MachineRuns.first = Some c ∧ (w1, w2) ∈ own_pieces 4 (cf_history c)
    ∧ metered "u" MachineRuns.t0 0 w2 ≠ metered "u" MachineRuns.t0 0 w1
    ∧ ∃ authorization body, MUsageEgress (Some "Bearer secret") (mkGatewaySample "u" MachineRuns.t0 21000000000) = MUsageEgress authorization body
        ∧ holds_secret (Some "secret") authorization ∧ gs_userId body = "u".
Proof.
  destruct machine_first_then as (c & _ & Hc & _).
  assert ((λ c, (λ p, (bool_decide (metered "u" MachineRuns.t0 0 p.2 = metered "u" MachineRuns.t0 0 p.1)))
            <$> (own_pieces 4 (cf_history c) !! 2%nat)) <$> MachineRuns.first = Some (Some false)) as Hp by (vm_compute; reflexivity).
  rewrite Hc in Hp. injection Hp as Hp.
  destruct (own_pieces 4 (cf_history c) !! 2%nat) as [[w1 w2]|] eqn:Ep; [|discriminate Hp]. injection Hp as Hne.
  apply bool_decide_eq_false in Hne. apply list_elem_of_lookup_2 in Ep.
  assert (match MachineRuns.outcome 4 MachineRuns.first with Some _ => true | _ => false end = true) as Hres
    by (vm_compute; reflexivity). rewrite Hc in Hres.
  assert (match MachineRuns.first with Some c => run_request <$> cf_threads c !! 4%nat | None => None end
          = Some (MUsageEgress (Some "Bearer secret") (mkGatewaySample "u" MachineRuns.t0 21000000000))) as Hreq
    by (vm_compute; reflexivity). rewrite Hc in Hreq.
  unfold MachineRuns.outcome in Hres. cbn [mbind option_bind] in Hres.
  destruct (response_of 4 c) as [resp|] eqn:Eresp; [|discriminate Hres].
  apply response_of_thread in Eresp as (r & Hl & Hret). rewrite Hl in Hreq. injection Hreq as Hreq.
  exists c, w1, w2. split; [exact Hc|]. split; [exact Ep|]. split; [exact Hne|]. rewrite <- Hreq.
  exact (egress_metered_by_gateway (W := ToyCrypto) [1] [1] (Some "secret") MachineRuns.start c 4%nat r resp w1 w2 "u"
    MachineRuns.t0 0 machine_start_inv (machine_run_steps _ _ _ Hc) Hl Hret Ep Hne).
Defined.
