(* ===== verification/AuditTrail.v ===== *)
(** * The audit trail (services/control/src/audit-format.ts, and the listing at
    the end of app.ts)

    The sentences shown for entries, and the pages in which the trail is
    listed: newest first, each page below the entry the last one ended at. *)

From stdpp Require Import relations sorting.
From S2P Require Export Threads Tokens.
From Stdlib Require Import Ascii.

(** ** Sentences *)

(** [None] is [null]. *)
Definition AuditPayload : Type := option json.

(** The non-ASCII dash of one sentence is its UTF-8 bytes; [quote] is the
    double quote. *)
Definition quote : string := of_chars [ascii_of_nat 34].
Definition quoted (s : string) : string := quote +:+ s +:+ quote.

Definition KNOWN_AUDIT_TYPES : list string :=
  ["account.created"; "auth.device_credential_registered"; "auth.passkey_registered"; "device.enrolled"; "device.revoked";
   "space.updated"; "keys.wrapper_added"; "keys.wrapper_rotated"; "keys.wrapper_removed"; "keys.recovery_set";
   "machine.transition"; "machine.boosted"; "job.mode_changed"; "capability.minted"; "abuse.limit_hit";
   "files.uploaded"; "files.deleted"; "files.quota_blocked"; "transfer.created"; "transfer.cancelled"].

Definition member (payload : AuditPayload) (key : string) : option json := payload ≫= jget key.
Definition str (payload : AuditPayload) (key : string) : option string := json_string (member payload key).
Definition num (payload : AuditPayload) (key : string) : option Z := json_number (member payload key).
Definition bool_of (payload : AuditPayload) (key : string) : option bool :=
  match member payload key with Some (JBool b) => Some b | _ => None end.

(** [o ? f(o) : other] of a string. *)
Definition if_text (o : option string) (f : string → string) (other : string) : string :=
  match o with None | Some EmptyString => other | Some s => f s end.

(** [n / 1024] as text, exact below 10^8. *)
Fixpoint fraction_digits (fuel : nat) (rest : Z) : string :=
  match fuel with
  | O => ""
  | S fuel => if rest =? 0 then "" else toString10 (rest * 10 / 1024) +:+ fraction_digits fuel (rest * 10 mod 1024)
  end.
Definition by_1024 (n : Z) : string :=
  (if n <? 0 then "-" else "") +:+ toString10 (Z.abs n / 1024)
  +:+ (if Z.abs n mod 1024 =? 0 then "" else "." +:+ fraction_digits 10 (Z.abs n mod 1024)).

Definition summarize (type : string) (payload : AuditPayload) : string :=
  if String.eqb type "account.created" then
    if_text (str payload "email") (λ email, "Account created for " +:+ email +:+ ".") "Account created."
  else if String.eqb type "auth.device_credential_registered" then
    "A device registered its identity key as a login credential."
  else if String.eqb type "auth.passkey_registered" then
    if default false (bool_of payload "prfCapable") then "A passkey was registered (PRF-capable)."
    else "A passkey was registered."
  else if String.eqb type "device.enrolled" then
    if_text (str payload "name") (λ name, "Device " +:+ quoted name +:+ " was enrolled.") "A device was enrolled."
  else if String.eqb type "device.revoked" then
    if_text (str payload "reason") (λ reason, "A device was revoked (reason: " +:+ reason +:+ ").") "A device was revoked."
  else if String.eqb type "space.updated" then
    match member payload "egressPolicy" with
    | Some egress =>
        match jget "from" egress, jget "to" egress with
        | Some (JStr from), Some (JStr to) => "A space's egress policy changed from " +:+ from +:+ " to " +:+ to +:+ "."
        | _, _ => "A space was updated."
        end
    | None => "A space was updated."
    end
  else if String.eqb type "keys.wrapper_added" then
    if_text (str payload "kind") (λ kind, "A wrapped key was stored (" +:+ kind +:+ ").") "A wrapped key was stored."
  else if String.eqb type "keys.wrapper_rotated" then
    if_text (str payload "kind") (λ kind, "A wrapped key was rotated (" +:+ kind +:+ ").") "A wrapped key was rotated."
  else if String.eqb type "keys.wrapper_removed" then
    if_text (str payload "kind") (λ kind, "A wrapped key was removed (" +:+ kind +:+ ").") "A wrapped key was removed."
  else if String.eqb type "keys.recovery_set" then "A recovery code was set for a space."
  else if String.eqb type "machine.transition" then
    if_text (str payload "from") (λ from, if_text (str payload "to") (λ to,
      let move := "Your machine moved from " +:+ from +:+ " to " +:+ to in
      if default false (bool_of payload "reconstructed") then move +:+ " (restored from cold start)." else move +:+ ".")
      "Your machine changed state.") "Your machine changed state."
  else if String.eqb type "machine.boosted" then
    match num payload "memoryMb" with
    | Some memoryMb => if memoryMb =? 0 then "Your machine was boosted."
                       else "Your machine was boosted to " +:+ by_1024 memoryMb +:+ " GB of memory."
    | None => "Your machine was boosted."
    end
  else if String.eqb type "job.mode_changed" then
    let where_ := if_text (str payload "ptyId") (λ ptyId, " for terminal " +:+ ptyId) "" in
    if default false (bool_of payload "enabled")
    then "Job Mode was turned on" +:+ where_ +:+ " — the machine will stay awake."
    else "Job Mode was turned off" +:+ where_ +:+ "."
  else if String.eqb type "capability.minted" then
    match member payload "caps" with
    | Some (JArr caps) =>
        match mapM (λ c, json_string (Some c)) caps with
        | Some names => "An agent capability token was issued (" +:+ str_join ", " names +:+ ")."
        | None => "An agent capability token was issued."
        end
    | _ => "An agent capability token was issued."
    end
  else if String.eqb type "abuse.limit_hit" then
    if_text (str payload "reason") (λ reason, "A usage limit was hit: " +:+ reason) "A usage limit was hit."
  else if String.eqb type "files.uploaded" then
    if_text (str payload "path") (λ path, "File " +:+ quoted path +:+ " finished uploading.") "A file finished uploading."
  else if String.eqb type "files.deleted" then
    if_text (str payload "path") (λ path, "File " +:+ quoted path +:+ " was deleted.") "A file was deleted."
  else if String.eqb type "files.quota_blocked" then
    "An upload was refused because it would exceed your Files quota. Existing files stay available."
  else if String.eqb type "transfer.created" then
    let where_ := if_text (str payload "destPath") (λ destPath, " to " +:+ quoted destPath) "" in
    if_text (str payload "host") (λ host, "A cloud download from " +:+ host +:+ " started" +:+ where_ +:+ ".")
      ("A cloud download started" +:+ where_ +:+ ".")
  else if String.eqb type "transfer.cancelled" then
    if_text (str payload "destPath") (λ destPath, "The cloud download to " +:+ quoted destPath +:+ " was cancelled.")
      "A cloud download was cancelled."
  else "Unrecognized event (" +:+ type +:+ ").".

(** ** Entries and pages *)

(** [ae_createdAt]: in the microseconds of the database. *)
Record AuditEvent := mkAuditEvent {
  ae_id : string; ae_userId : string; ae_actorDeviceId : option string; ae_type : string; ae_payload : AuditPayload;
  ae_createdAt : Z
}.

Abbreviation AuditTable := (gmap string AuditEvent).

(** [(b.createdAt, b.id) < (a.createdAt, a.id)] of the row comparison. *)
Definition newer (a b : AuditEvent) : Prop :=
  ae_createdAt b < ae_createdAt a ∨ ae_createdAt a = ae_createdAt b ∧ str_lt (ae_id b) (ae_id a).
#[export] Instance newer_dec : RelDecision newer.
Proof. intros a b. unfold newer, str_lt. apply _. Defined.

(** [orderBy(desc(createdAt), desc(id))] *)
Definition not_older (a b : AuditEvent) : Prop := ¬ newer b a.
#[export] Instance not_older_dec : RelDecision not_older.
Proof. intros a b. unfold not_older. apply _. Defined.

(** The condition on the cursor; a comparison with [NULL] selects nothing. *)
Definition below (cursor : option string) (t : AuditTable) (e : AuditEvent) : bool :=
  match cursor with
  | None => true
  | Some k => match t !! k with Some c => bool_decide (newer c e) | None => false end
  end.

Definition of_account (userId : string) (type : option string) (e : AuditEvent) : bool :=
  String.eqb (ae_userId e) userId && match type with Some y => String.eqb (ae_type e) y | None => true end.

Definition audit_rows (userId : string) (type cursor : option string) (t : AuditTable) : list AuditEvent :=
  merge_sort not_older (List.filter (λ e, of_account userId type e && below cursor t e) (table_rows t)).

(** The page, and the cursor of the next one. *)
Definition audit_page (userId : string) (limit : nat) (cursor type : option string) (t : AuditTable)
    : list AuditEvent * option string :=
  let rows := take (limit + 1) (audit_rows userId type cursor t) in
  let page := take limit rows in
  (page, if (limit <? length rows)%nat then ae_id <$> last page else None).

(** ** Order *)

Lemma newer_irrefl a : ¬ newer a a.
Proof. intros [H|[_ H]]; [lia|by apply (str_lt_irrefl (ae_id a))]. Qed.

Lemma newer_trans a b c : newer a b → newer b c → newer a c.
Proof.
  intros [H1|[E1 H1]] [H2|[E2 H2]]; [left; lia|left; lia|left; lia|].
  right. split; [congruence|]. by apply str_lt_trans with (ae_id b).
Qed.

Lemma newer_total a b : ae_id a ≠ ae_id b → newer a b ∨ newer b a.
Proof.
  intros Hne. destruct (Z.lt_trichotomy (ae_createdAt a) (ae_createdAt b)) as [?|[E|?]]; [by right; left| |by left; left].
  destruct (str_lt_total (ae_id a) (ae_id b)) as [?|[?|?]]; [right; right|done|left; right]; by split.
Qed.

#[export] Instance not_older_trans : Transitive not_older.
Proof.
  intros a b c Hab Hbc Hca. destruct (decide (ae_id b = ae_id c)) as [E|E].
  - apply Hab. unfold newer in *. rewrite E. assert (ae_createdAt b = ae_createdAt c ∨ ae_createdAt b < ae_createdAt c ∨ ae_createdAt c < ae_createdAt b) as [->|[H|H]] by lia;
      [done| |]; unfold not_older, newer in Hbc; [exfalso; apply Hbc; by left|]. destruct Hca as [?|[? ?]]; left; lia.
  - destruct (newer_total b c E) as [H|H]; [|by apply Hbc]. apply Hab. by eapply newer_trans.
Qed.

#[export] Instance not_older_total : Total not_older.
Proof.
  intros a b. destruct (decide (newer b a)) as [H|H]; [right|by left].
  intros H'. apply (newer_irrefl a). by eapply newer_trans.
Qed.

(** ** What the pages list *)

(** Entries lie under their own id. *)
Definition keyed (t : AuditTable) : Prop := ∀ k e, t !! k = Some e → ae_id e = k.

Lemma elem_table_rows {A} (t : gmap string A) a : a ∈ table_rows t ↔ ∃ k, t !! k = Some a.
Proof.
  unfold table_rows. rewrite list_elem_of_fmap. split.
  - intros ([k b] & -> & Hin). exists k. by apply elem_of_map_to_list.
  - intros [k Hk]. exists (k, a). split; [done|]. by apply elem_of_map_to_list.
Qed.

Lemma table_rows_nodup (t : AuditTable) : keyed t → NoDup (map ae_id (table_rows t)).
Proof.
  intros Hk. unfold table_rows. rewrite map_map. rewrite (map_ext_in _ fst).
  - apply NoDup_fst_map_to_list.
  - intros [k e] Hin%list_elem_of_In%elem_of_map_to_list. by apply Hk.
Qed.

Lemma elem_audit_rows u type cursor t e :
  e ∈ audit_rows u type cursor t ↔ (∃ k, t !! k = Some e) ∧ of_account u type e = true ∧ below cursor t e = true.
Proof.
  unfold audit_rows. rewrite merge_sort_Permutation, In_filter_iff, elem_table_rows, andb_true_iff. tauto.
Qed.

Lemma StronglySorted_weaken {A} (R S : relation A) l :
  (∀ a b, a ∈ l → b ∈ l → R a b → a ≠ b → S a b) → NoDup l → StronglySorted R l → StronglySorted S l.
Proof.
  induction l as [|a l IH]; intros HS Hn Hs; [constructor|]. apply NoDup_cons in Hn as [Ha Hn].
  apply StronglySorted_inv in Hs as [Hs Hf]. constructor.
  - apply IH; [|done|done]. intros x y Hx Hy. apply HS; by right.
  - apply Forall_forall. intros b Hb. rewrite Forall_forall in Hf. apply HS; [left|by right|by apply Hf|].
    intros ->. done.
Qed.

Lemma audit_rows_sorted u type cursor t : keyed t → StronglySorted newer (audit_rows u type cursor t).
Proof.
  intros Hk. assert (NoDup (map ae_id (audit_rows u type cursor t))) as Hn.
  { unfold audit_rows. rewrite (Permutation_map ae_id (merge_sort_Permutation _ _)).
    apply NoDup_map_filter. by apply table_rows_nodup. }
  apply (StronglySorted_weaken not_older); [|by eapply NoDup_fmap_1|apply StronglySorted_merge_sort; apply _].
  intros a b Ha Hb Hab Hne. apply elem_audit_rows in Ha as [[i Hi] _], Hb as [[j Hj] _].
  destruct (newer_total a b) as [H|H]; [|done|done]. rewrite (Hk _ _ Hi), (Hk _ _ Hj). congruence.
Qed.

(** The page is the first [limit] entries below the cursor; there is a next
    cursor exactly when there are more, and it names the last of the page. *)
Lemma audit_page_spec u limit cursor type t page next :
  audit_page u limit cursor type t = (page, next) → (0 < limit)%nat →
  let rows := audit_rows u type cursor t in
  page = take limit rows
  ∧ match next with
    | None => (length rows <= limit)%nat
    | Some k => (limit < length rows)%nat ∧ length page = limit ∧ ∃ e, last page = Some e ∧ ae_id e = k
    end.
Proof.
  unfold audit_page. rewrite length_take, take_take. set (rows := audit_rows u type cursor t).
  replace (limit `min` (limit + 1))%nat with limit by lia. intros [= <- <-] Hl. split; [done|].
  destruct (_ <? _)%nat eqn:E; [apply Nat.ltb_lt in E|apply Nat.ltb_ge in E; lia].
  assert (length (take limit rows) = limit) as Hlen by (rewrite length_take; lia).
  destruct (last (take limit rows)) as [e|] eqn:El; cbn.
  - split; [lia|]. split; [done|]. by exists e.
  - apply last_None in El. rewrite El in Hlen. cbn in Hlen. lia.
Qed.

(** Reading page after page while the table grows. *)
Inductive pages (u : string) (type : option string) (limit : nat) : option string → AuditTable → list AuditEvent → Prop :=
| pages_last cursor t t' page : t ⊆ t' → keyed t' →
    audit_page u limit cursor type t' = (page, None) → pages u type limit cursor t page
| pages_more cursor t t' page k rest : t ⊆ t' → keyed t' →
    audit_page u limit cursor type t' = (page, Some k) → pages u type limit (Some k) t' rest →
    pages u type limit cursor t (page ++ rest).

Lemma below_mono cursor t t' e : t ⊆ t' → below cursor t e = true → below cursor t' e = true.
Proof.
  intros Hs. unfold below. destruct cursor as [k|]; [|done]. destruct (t !! k) as [c|] eqn:E; [|done].
  by rewrite (lookup_weaken _ _ _ _ E Hs).
Qed.

Lemma below_back cursor t t' e : t ⊆ t' → (∀ k, cursor = Some k → is_Some (t !! k)) → below cursor t' e = true → below cursor t e = true.
Proof.
  intros Hs Hc. unfold below. destruct cursor as [k|]; [|done]. destruct (Hc k eq_refl) as [c Hk].
  by rewrite Hk, (lookup_weaken _ _ _ _ Hk Hs).
Qed.

Lemma StronglySorted_app_newer l1 l2 c :
  StronglySorted newer l1 → StronglySorted newer l2 → last l1 = Some c → (∀ e, e ∈ l2 → newer c e) → StronglySorted newer (l1 ++ l2).
Proof.
  intros H1 H2 Hl Hb. induction H1 as [|a l Hs IH Hf]; [done|]. cbn. constructor.
  - destruct l as [|b l]; [done|]. by apply IH.
  - apply Forall_app. split; [done|]. apply Forall_forall. intros e He. destruct l as [|b l].
    + injection Hl as ->. by apply Hb.
    + assert (newer a c) as Hac.
      { rewrite Forall_forall in Hf. apply Hf. cbn [last] in Hl. apply last_Some_elem_of in Hl. done. }
      eapply newer_trans; [exact Hac|by apply Hb].
Qed.

(** Every entry there was is listed, once, newest first. *)
Lemma pages_list u type limit cursor t l : (0 < limit)%nat → (∀ k, cursor = Some k → is_Some (t !! k)) →
  pages u type limit cursor t l →
  StronglySorted newer l
  ∧ (∀ e, e ∈ l → of_account u type e = true ∧ below cursor t e = true)
  ∧ (∀ k e, t !! k = Some e → of_account u type e = true → below cursor t e = true → e ∈ l).
Proof.
  intros Hl Hc Hp. induction Hp as [cursor t t' page Hs Hk Hpage|cursor t t' page k rest Hs Hk Hpage Hrest IH].
  - destruct (audit_page_spec _ _ _ _ _ _ _ Hpage Hl) as [-> Hlen]. rewrite take_ge by done.
    split; [by apply audit_rows_sorted|]. split.
    + intros e He. apply elem_audit_rows in He as (_ & Ha & Hb). split; [done|]. by eapply below_back.
    + intros k e He Ha Hb. apply elem_audit_rows. split; [exists k; by eapply lookup_weaken|]. split; [done|]. by eapply below_mono.
  - destruct (audit_page_spec _ _ _ _ _ _ _ Hpage Hl) as (Hpg & Hlen & _ & c & Hlast & Hck).
    set (rows := audit_rows u type cursor t') in *.
    assert (∀ e, e ∈ page → e ∈ rows) as Hin by (intros e He; rewrite Hpg in He; by eapply elem_of_take_in).
    pose proof (audit_rows_sorted u type cursor t' Hk) as Hsorted. fold rows in Hsorted.
    assert (c ∈ rows) as Hcin by (apply Hin; by apply last_Some_elem_of).
    apply elem_audit_rows in Hcin as ([k' Hk'] & Hca & Hcb). assert (k' = k) as -> by (rewrite <- Hck; symmetry; by apply Hk).
    destruct IH as (Hsr & Hbr & Hcr). { intros j [= <-]. by eexists. }
    assert (∀ e, below (Some k) t' e = true ↔ newer c e) as Hbelow.
    { intros e. cbn. rewrite Hk'. by rewrite bool_decide_eq_true. }
    assert (StronglySorted newer page) as Hsp.
    { rewrite Hpg. apply (StronglySorted_app_1_l _ _ (drop limit rows)). by rewrite take_drop. }
    split_and!.
    + apply (StronglySorted_app_newer page rest c); [done|done|done|]. intros e He. by apply Hbelow, Hbr.
    + intros e [He|He]%elem_of_app.
      * apply Hin, elem_audit_rows in He as (_ & Ha & Hb). split; [done|]. by eapply below_back.
      * destruct (Hbr e He) as [Ha Hb]. split; [done|]. apply Hbelow in Hb. apply (below_back cursor t t'); [done|done|].
        revert Hcb. unfold below. destruct cursor as [j|]; [|done]. destruct (t' !! j); [|done].
        rewrite !bool_decide_eq_true. intros H. by eapply newer_trans.
    + intros j e He Ha Hb. apply elem_of_app.
      assert (e ∈ rows) as Hr by (apply elem_audit_rows; split; [exists j; by eapply lookup_weaken|]; split; [done|]; by eapply below_mono).
      rewrite <- (take_drop limit rows) in Hr. apply elem_of_app in Hr as [Hr|Hr]; [left; by rewrite Hpg|right].
      eapply (Hcr j); [by eapply lookup_weaken|done|]. apply Hbelow.
      apply (StronglySorted_split newer limit rows c e Hsorted); [|done]. rewrite <- Hpg. by apply last_Some_elem_of.
Qed.

(** ** What the sentences say *)

(** The sentence of a known type is one of its own. *)
Lemma summarize_known type payload : type ∈ KNOWN_AUDIT_TYPES → summarize type payload ≠ "Unrecognized event (" +:+ type +:+ ").".
Proof.
  intros Hin Heq. apply (f_equal (String.get 0)) in Heq. revert Heq. cbn [String.append String.get].
  unfold KNOWN_AUDIT_TYPES in Hin. rewrite !elem_of_cons, elem_of_nil in Hin.
  repeat destruct Hin as [->|Hin]; [..|done]; unfold summarize, if_text; cbn [String.eqb Ascii.eqb Bool.eqb];
    repeat match goal with |- context [match ?x with _ => _ end] => destruct x end; discriminate.
Qed.
