(* ===== verification/ControlSpaces.v ===== *)
(** * Spaces, key wrappers and the audit trail
    (services/control/src/app.ts lines 1490-1687 and 3288-3337, recovery.ts)

    Of a key only its wrapped form is stored.  A handler interleaves at its
    statements; a device has authenticated its caller already.  Rows that an
    ordering leaves open come in the order of the table. *)

From stdpp Require Import relations sorting.
From S2P Require Export AuditTrail.
From Stdlib Require Import Ascii.

(** ** Tables *)

Inductive EgressChoice := suma_ip | direct.
#[export] Instance EgressChoice_eq_dec : EqDecision EgressChoice.
Proof. solve_decision. Defined.
Definition egress_name (e : EgressChoice) : string := match e with suma_ip => "suma-ip" | direct => "direct" end.

Inductive WrapperKind := passkey_prf | recovery_code | hardware_key | kms | enrollment_code.
#[export] Instance WrapperKind_eq_dec : EqDecision WrapperKind.
Proof. solve_decision. Defined.
Definition kind_name (k : WrapperKind) : string :=
  match k with
  | passkey_prf => "passkey-prf" | recovery_code => "recovery-code" | hardware_key => "hardware-key" | kms => "kms"
  | enrollment_code => "enrollment-code"
  end.

Record SpaceRow := mkSpaceRow {
  sr_id : string; sr_userId : string; sr_name : string; sr_color : string; sr_position : Z;
  sr_egressPolicy : EgressChoice; sr_createdAt : Z
}.
Record WrapperRow := mkWrapper {
  wr_id : string; wr_userId : string; wr_spaceId : string; wr_kind : WrapperKind; wr_credentialId : string;
  wr_salt : string; wr_wrapped : string; wr_createdAt : Z
}.

Record SpacesWorld := mkSpacesWorld {
  sw_now : Z;
  sw_users : gset string;
  sw_spaces : gmap string SpaceRow;
  sw_wrappers : gmap string WrapperRow;
  sw_audit : AuditTable
}.

Definition set_space_rows x w := mkSpacesWorld (sw_now w) (sw_users w) x (sw_wrappers w) (sw_audit w).
Definition set_wrappers x w := mkSpacesWorld (sw_now w) (sw_users w) (sw_spaces w) x (sw_audit w).
Definition set_trail x w := mkSpacesWorld (sw_now w) (sw_users w) (sw_spaces w) (sw_wrappers w) x.

(** ** Requests and responses *)

Record SpacePatch := mkPatch {
  sp_name : option string; sp_color : option string; sp_position : option Z; sp_egressPolicy : option EgressChoice
}.

#[export] Instance SpacePatch_eq_dec : EqDecision SpacePatch.
Proof. solve_decision. Defined.

(** The identifiers the database would draw are arguments; [entryId] is that
    of the audit entry. *)
Inductive SpacesRequest :=
| SList (userId : string)
| SCreate (userId name color : string) (egress : option EgressChoice) (newId : string)
| SPatch (userId id : string) (patch : SpacePatch) (entryId : string)
| SPutWrapper (userId id : string) (kind : WrapperKind) (credentialId salt wrapped newId entryId : string)
| SListWrappers (userId id : string) (kind : option WrapperKind)
| SRecovery (userId id saltB64 wrappedB64 newId entryId : string)
| SDeleteWrapper (userId id wrapperId entryId : string)
| SAudit (userId : string) (limit : Z) (cursor type : option string).

Record AuditEntryView := mkEntryView {
  ev_id : string; ev_type : string; ev_createdAt : Z; ev_actorDeviceId : option string; ev_summary : string
}.

Inductive SpacesBody :=
| SbError (error : string)
| SbSpaces (spaces : list SpaceRow)
| SbSpace (space : SpaceRow)
| SbWrapper (wrapper : WrapperRow)
| SbWrappers (wrappers : list WrapperRow)
| SbDeleted
| SbAudit (events : list AuditEvent) (entries : list AuditEntryView) (nextCursor : option string).

Record SpacesResponse := mkSpacesResp { ss_status : Z; ss_body : SpacesBody }.

Abbreviation SpacesHandler := (Thread SpacesWorld Empty_set Empty_set).

Definition s_reply (status : Z) (body : SpacesBody) : SpacesHandler SpacesResponse := mret (mkSpacesResp status body).
Definition s_deny (status : Z) (error : string) : SpacesHandler SpacesResponse := s_reply status (SbError error).

(** ** Statements *)

(** An insert raises when the id is taken or the account does not exist. *)
Definition insert_entry (userId type : string) (payload : json) (entryId : string) : SpacesHandler unit :=
  statement (λ w,
    if bool_decide (is_Some (sw_audit w !! entryId)) || bool_decide (userId ∉ sw_users w) then None
    else Some (tt, set_trail (<[entryId := mkAuditEvent entryId userId None type (Some payload) (sw_now w)]> (sw_audit w)) w)).

Definition ownedSpace (userId spaceId : string) : SpacesHandler (option SpaceRow) :=
  reading (λ w, match sw_spaces w !! spaceId with
                | Some s => if String.eqb (sr_userId s) userId then Some s else None
                | None => None
                end).

Definition spaces_of (userId : string) (w : SpacesWorld) : list SpaceRow :=
  List.filter (λ s, String.eqb (sr_userId s) userId) (table_rows (sw_spaces w)).

(** [max(position)], [null] without rows. *)
Definition max_position (rows : list SpaceRow) : option Z :=
  match rows with [] => None | s :: rows => Some (fold_right Z.max (sr_position s) (map sr_position rows)) end.

Definition insert_space_row (s : Z → SpaceRow) : SpacesHandler SpaceRow :=
  statement (λ w,
    let row := s (sw_now w) in
    if bool_decide (is_Some (sw_spaces w !! sr_id row)) || bool_decide (sr_userId row ∉ sw_users w) then None
    else Some (row, set_space_rows (<[sr_id row := row]> (sw_spaces w)) w)).

Definition patched (patch : SpacePatch) (s : SpaceRow) : SpaceRow :=
  mkSpaceRow (sr_id s) (sr_userId s) (default (sr_name s) (sp_name patch)) (default (sr_color s) (sp_color patch))
    (default (sr_position s) (sp_position patch)) (default (sr_egressPolicy s) (sp_egressPolicy patch)) (sr_createdAt s).

Definition same_slot (spaceId : string) (kind : WrapperKind) (credentialId : string) (x : WrapperRow) : bool :=
  String.eqb (wr_spaceId x) spaceId && bool_decide (wr_kind x = kind) && String.eqb (wr_credentialId x) credentialId.

(** [insert ... on conflict (space, kind, credential) do update]. *)
Definition put_wrapper (userId spaceId : string) (kind : WrapperKind) (credentialId salt wrapped newId : string)
    : SpacesHandler WrapperRow :=
  statement (λ w,
    match List.find (same_slot spaceId kind credentialId) (table_rows (sw_wrappers w)) with
    | Some x =>
        let row := mkWrapper (wr_id x) (wr_userId x) spaceId kind credentialId salt wrapped (wr_createdAt x) in
        Some (row, set_wrappers (<[wr_id x := row]> (sw_wrappers w)) w)
    | None =>
        if bool_decide (is_Some (sw_wrappers w !! newId)) || bool_decide (userId ∉ sw_users w)
           || negb (bool_decide (is_Some (sw_spaces w !! spaceId))) then None
        else
          let row := mkWrapper newId userId spaceId kind credentialId salt wrapped (sw_now w) in
          Some (row, set_wrappers (<[newId := row]> (sw_wrappers w)) w)
    end).

(** ** Spaces *)

Definition lower_position (a b : SpaceRow) : Prop := sr_position a <= sr_position b.
#[export] Instance lower_position_dec : RelDecision lower_position.
Proof. intros a b. unfold lower_position. apply _. Defined.

Definition list_spaces (userId : string) : SpacesHandler SpacesResponse :=
  rows ← reading (λ w, merge_sort lower_position (spaces_of userId w));
  s_reply 200 (SbSpaces rows).

Definition create_space (userId name color : string) (egress : option EgressChoice) (newId : string)
    : SpacesHandler SpacesResponse :=
  m ← reading (λ w, max_position (spaces_of userId w));
  let position := default (-1) m + 1 in
  space ← insert_space_row (mkSpaceRow newId userId name color position (default direct egress));
  s_reply 201 (SbSpace space).

Definition patch_space (userId id : string) (patch : SpacePatch) (entryId : string) : SpacesHandler SpacesResponse :=
  owned ← ownedSpace userId id;
  match owned with
  | None => s_deny 404 "not_found"
  | Some space =>
      updated ← atomically (λ w,
        match sw_spaces w !! id with
        | Some row => let row' := patched patch row in (Some row', set_space_rows (<[id := row']> (sw_spaces w)) w)
        | None => (None, w)
        end);
      match updated with
      | None => s_deny 500 "internal"
      | Some row =>
          _ ← match sp_egressPolicy patch with
              | Some policy =>
                  if bool_decide (policy = sr_egressPolicy space) then (mret tt : SpacesHandler unit)
                  else insert_entry userId "space.updated"
                         (JObj [("spaceId", JStr id);
                                ("egressPolicy", JObj [("from", JStr (egress_name (sr_egressPolicy space)));
                                                       ("to", JStr (egress_name policy))])]) entryId
              | None => mret tt
              end;
          s_reply 200 (SbSpace row)
      end
  end.

(** ** Key wrappers *)

Definition RECOVERY_WRAPPER_KIND : WrapperKind := recovery_code.
Definition RECOVERY_CREDENTIAL_ID : string := "recovery".

Definition setRecoveryWrapper (userId spaceId saltB64 wrappedB64 newId : string) : SpacesHandler WrapperRow :=
  put_wrapper userId spaceId RECOVERY_WRAPPER_KIND RECOVERY_CREDENTIAL_ID saltB64 wrappedB64 newId.

Definition post_wrapper (userId id : string) (kind : WrapperKind) (credentialId salt wrapped newId entryId : string)
    : SpacesHandler SpacesResponse :=
  owned ← ownedSpace userId id;
  match owned with
  | None => s_deny 404 "not_found"
  | Some _ =>
      existing ← reading (λ w, List.find (same_slot id kind credentialId) (table_rows (sw_wrappers w)));
      wrapper ← put_wrapper userId id kind credentialId salt wrapped newId;
      _ ← insert_entry userId match existing with Some _ => "keys.wrapper_rotated" | None => "keys.wrapper_added" end
            (JObj [("spaceId", JStr id); ("kind", JStr (kind_name kind)); ("credentialId", JStr credentialId)]) entryId;
      s_reply 200 (SbWrapper wrapper)
  end.

Definition older_wrapper (a b : WrapperRow) : Prop := wr_createdAt a <= wr_createdAt b.
#[export] Instance older_wrapper_dec : RelDecision older_wrapper.
Proof. intros a b. unfold older_wrapper. apply _. Defined.

Definition wrappers_of (id : string) (kind : option WrapperKind) (w : SpacesWorld) : list WrapperRow :=
  merge_sort older_wrapper (List.filter (λ x, String.eqb (wr_spaceId x) id
    && match kind with Some k => bool_decide (wr_kind x = k) | None => true end) (table_rows (sw_wrappers w))).

Definition list_wrappers (userId id : string) (kind : option WrapperKind) : SpacesHandler SpacesResponse :=
  owned ← ownedSpace userId id;
  match owned with
  | None => s_deny 404 "not_found"
  | Some _ => rows ← reading (wrappers_of id kind); s_reply 200 (SbWrappers rows)
  end.

Definition post_recovery (userId id saltB64 wrappedB64 newId entryId : string) : SpacesHandler SpacesResponse :=
  owned ← ownedSpace userId id;
  match owned with
  | None => s_deny 404 "not_found"
  | Some _ =>
      wrapper ← setRecoveryWrapper userId id saltB64 wrappedB64 newId;
      _ ← insert_entry userId "keys.recovery_set" (JObj [("spaceId", JStr id)]) entryId;
      s_reply 200 (SbWrapper wrapper)
  end.

Definition delete_wrapper (userId id wrapperId entryId : string) : SpacesHandler SpacesResponse :=
  deleted ← atomically (λ w,
    match sw_wrappers w !! wrapperId with
    | Some x => if String.eqb (wr_spaceId x) id && String.eqb (wr_userId x) userId
                then (Some x, set_wrappers (delete wrapperId (sw_wrappers w)) w) else (None, w)
    | None => (None, w)
    end);
  match deleted with
  | None => s_deny 404 "not_found"
  | Some x =>
      _ ← insert_entry userId "keys.wrapper_removed"
            (JObj [("wrapperId", JStr wrapperId); ("spaceId", JStr id); ("kind", JStr (kind_name (wr_kind x)));
                   ("credentialId", JStr (wr_credentialId x))]) entryId;
      s_reply 200 SbDeleted
  end.

(** ** The trail *)

Definition entry_view (e : AuditEvent) : AuditEntryView :=
  mkEntryView (ae_id e) (ae_type e) (ae_createdAt e) (ae_actorDeviceId e) (summarize (ae_type e) (ae_payload e)).

Definition list_audit (userId : string) (limit : Z) (cursor type : option string) : SpacesHandler SpacesResponse :=
  p ← reading (λ w, audit_page userId (Z.to_nat limit) cursor type (sw_audit w));
  s_reply 200 (SbAudit p.1 (map entry_view p.1) p.2).

(** ** Dispatch

    A body its schema refuses is answered 400; identifiers are opaque. *)

Definition s_validated (ok : bool) (h : SpacesHandler SpacesResponse) : SpacesHandler SpacesResponse :=
  if ok then h else s_deny 400 "invalid_body".

Definition sized (lo hi : Z) (s : string) : bool := (lo <=? js_length s) && (js_length s <=? hi).
Definition maybe {A} (p : A → bool) (o : option A) : bool := match o with Some a => p a | None => true end.
Definition base64String (maxChars : Z) (s : string) : bool :=
  (js_length s <=? maxChars) && bool_decide (is_Some (fromBase64 s)).

Definition createSpaceSchema (name color : string) : bool := sized 1 200 name && sized 1 32 color.
Definition patchSpaceSchema (patch : SpacePatch) : bool :=
  maybe (sized 1 200) (sp_name patch) && maybe (sized 1 32) (sp_color patch)
  && maybe (λ p, (0 <=? p) && (p <=? 100000)) (sp_position patch)
  && negb (bool_decide (patch = mkPatch None None None None)).
Definition wrapperSchema (credentialId salt wrapped : string) : bool :=
  sized 1 512 credentialId && base64String 1024 salt && base64String 16384 wrapped.
Definition recoverySchema (saltB64 wrappedB64 : string) : bool := base64String 1024 saltB64 && base64String 16384 wrappedB64.
Definition auditQuerySchema (limit : Z) (type : option string) : bool :=
  (1 <=? limit) && (limit <=? 200) && maybe (sized 1 100) type.

Definition handle_spaces (r : SpacesRequest) : SpacesHandler SpacesResponse :=
  match r with
  | SList u => list_spaces u
  | SCreate u name color egress newId => s_validated (createSpaceSchema name color) (create_space u name color egress newId)
  | SPatch u id patch entryId => s_validated (patchSpaceSchema patch) (patch_space u id patch entryId)
  | SPutWrapper u id kind credentialId salt wrapped newId entryId =>
      s_validated (wrapperSchema credentialId salt wrapped) (post_wrapper u id kind credentialId salt wrapped newId entryId)
  | SListWrappers u id kind => list_wrappers u id kind
  | SRecovery u id salt wrapped newId entryId =>
      s_validated (recoverySchema salt wrapped) (post_recovery u id salt wrapped newId entryId)
  | SDeleteWrapper u id wrapperId entryId => delete_wrapper u id wrapperId entryId
  | SAudit u limit cursor type => s_validated (auditQuerySchema limit type) (list_audit u limit cursor type)
  end.
