(* ===== verification/SpacesProps.v ===== *)
(** * What the control plane guarantees of spaces, wrappers and the trail

    The invariant of the tables, isolation of accounts under any interleaving,
    the reading of the trail page by page while others write, and the way of a
    recovery code through the server.  Scheduled runs at the end. *)

From stdpp Require Import relations sorting.
From S2P Require Export ControlSpaces Threads.
From Stdlib Require Import Ascii.

(** ** The invariant, and the order the world moves in *)

Record spaces_inv (w : SpacesWorld) : Prop := {
  si_spaces : ∀ k s, sw_spaces w !! k = Some s → sr_id s = k ∧ sr_userId s ∈ sw_users w;
  si_wrappers : ∀ k x, sw_wrappers w !! k = Some x →
    wr_id x = k ∧ ∃ s, sw_spaces w !! wr_spaceId x = Some s ∧ sr_userId s = wr_userId x;
  si_slot : ∀ i j x y, sw_wrappers w !! i = Some x → sw_wrappers w !! j = Some y →
    same_slot (wr_spaceId y) (wr_kind y) (wr_credentialId y) x = true → i = j;
  si_trail : ∀ k e, sw_audit w !! k = Some e → ae_id e = k ∧ ae_userId e ∈ sw_users w
}.

Definition same_owner (s s' : SpaceRow) : Prop := sr_id s' = sr_id s ∧ sr_userId s' = sr_userId s.
#[export] Instance same_owner_pre : PreOrder same_owner.
Proof. split; [by intros s; split|]. intros a b c [] []. split; congruence. Qed.

Record spaces_le (w w' : SpacesWorld) : Prop := {
  sl_now : sw_now w <= sw_now w';
  sl_users : sw_users w ⊆ sw_users w';
  sl_spaces : table_le same_owner (sw_spaces w) (sw_spaces w');
  sl_trail : sw_audit w ⊆ sw_audit w'
}.
#[export] Instance spaces_le_pre : PreOrder spaces_le.
Proof.
  split; [by intros w; split; [lia| |reflexivity|]|].
  intros w1 w2 w3 [] []; split; [lia|by etrans|by etrans|by etrans].
Qed.

(** Only rows of account [u] differ. *)
Record keeps_others (u : string) (w w' : SpacesWorld) : Prop := {
  ko_spaces : ∀ k s, sr_userId s ≠ u → sw_spaces w !! k = Some s ↔ sw_spaces w' !! k = Some s;
  ko_wrappers : ∀ k x, wr_userId x ≠ u → sw_wrappers w !! k = Some x ↔ sw_wrappers w' !! k = Some x;
  ko_trail : ∀ k e, ae_userId e ≠ u → sw_audit w !! k = Some e ↔ sw_audit w' !! k = Some e
}.
#[export] Instance keeps_others_refl u : Reflexive (keeps_others u).
Proof. by intros w. Qed.

(** Inserting a row over none, or over one of the same account. *)
Lemma insert_keeps {A} (owner : A → string) u (t : gmap string A) k a :
  owner a = u → (∀ b, t !! k = Some b → owner b = u) → ∀ j b, owner b ≠ u → t !! j = Some b ↔ <[k := a]> t !! j = Some b.
Proof.
  intros Ha Ht j b Hb. destruct (decide (k = j)) as [->|Hne]; [|by rewrite lookup_insert_ne].
  rewrite lookup_insert_eq. split; [intros Hj; exfalso; apply Hb; by apply Ht|intros [= ->]; done].
Qed.

Definition onward (u : string) (w w' : SpacesWorld) : Prop := (spaces_inv w' ∧ spaces_le w w') ∧ keeps_others u w w'.

Lemma onward_entry w e : spaces_inv w → sw_audit w !! ae_id e = None → ae_userId e ∈ sw_users w →
  onward (ae_userId e) w (set_trail (<[ae_id e := e]> (sw_audit w)) w).
Proof.
  intros [Hs Hw Hsl Ht] Hn Hu. split; [split; split; cbn; try done; try reflexivity; try lia|split; cbn; try done].
  - intros k x [[<- <-]|[_ Hk]]%lookup_insert_Some; [done|by apply Ht].
  - by apply insert_subseteq.
  - apply insert_keeps; [done|]. intros b Hb. congruence.
Qed.

Lemma onward_space w u s : spaces_inv w → sr_userId s = u → u ∈ sw_users w →
  (∀ b, sw_spaces w !! sr_id s = Some b → sr_userId b = u) → onward u w (set_space_rows (<[sr_id s := s]> (sw_spaces w)) w).
Proof.
  intros [Hs Hw Hsl Ht] Hu Huser Hb.
  assert (table_le same_owner (sw_spaces w) (<[sr_id s := s]> (sw_spaces w))) as Hle.
  { apply table_le_insert; [apply _|]. intros b Hbs. split; [symmetry; by apply Hs|rewrite Hu; symmetry; by apply Hb]. }
  split; [split; split; cbn; try done; try reflexivity; try lia|split; cbn; try done].
  - intros k x [[<- <-]|[_ Hk]]%lookup_insert_Some; [by rewrite Hu|by apply Hs].
  - intros k x Hx. destruct (Hw k x Hx) as (Hid & s' & Hs' & Ho). split; [done|].
    destruct (Hle _ _ Hs') as (s'' & Hs'' & _ & Ho''). exists s''. split; [done|congruence].
  - apply insert_keeps; [done|]. intros b. by apply Hb.
Qed.

Lemma same_slot_iff sp k c x : same_slot sp k c x = true ↔ wr_spaceId x = sp ∧ wr_kind x = k ∧ wr_credentialId x = c.
Proof. unfold same_slot. rewrite !andb_true_iff, !String.eqb_eq, bool_decide_eq_true. tauto. Qed.

(** A wrapper row of [u], with its own slot. *)
Lemma onward_wrapper w u x s : spaces_inv w → sw_spaces w !! wr_spaceId x = Some s → sr_userId s = u → wr_userId x = u →
  (∀ k y, sw_wrappers w !! k = Some y → k ≠ wr_id x → same_slot (wr_spaceId x) (wr_kind x) (wr_credentialId x) y = false) →
  (∀ y, sw_wrappers w !! wr_id x = Some y → wr_userId y = u) →
  onward u w (set_wrappers (<[wr_id x := x]> (sw_wrappers w)) w).
Proof.
  intros [Hs Hw Hsl Ht] Hsp Hu Hx Hslot Hold. split; [split; split; cbn; try done; try reflexivity; try lia|split; cbn; try done].
  - intros k y [[<- <-]|[_ Hk]]%lookup_insert_Some; [|by apply Hw]. split; [done|]. exists s. split; [done|congruence].
  - intros i j a b [[<- <-]|[Hi Ha]]%lookup_insert_Some [[<- <-]|[Hj Hb]]%lookup_insert_Some Hab; [done| | |by eapply Hsl].
    + exfalso. specialize (Hslot j b Hb (not_eq_sym Hj)). apply same_slot_iff in Hab as (E1 & E2 & E3).
      assert (same_slot (wr_spaceId x) (wr_kind x) (wr_credentialId x) b = true) by (by apply same_slot_iff). congruence.
    + exfalso. specialize (Hslot i a Ha (not_eq_sym Hi)). congruence.
  - apply insert_keeps; [done|exact Hold].
Qed.

Lemma onward_delete w u k x : spaces_inv w → sw_wrappers w !! k = Some x → wr_userId x = u →
  onward u w (set_wrappers (delete k (sw_wrappers w)) w).
Proof.
  intros [Hs Hw Hsl Ht] Hk Hu. split; [split; split; cbn; try done; try reflexivity; try lia|split; cbn; try done].
  - intros j y [_ Hj]%lookup_delete_Some. by apply Hw.
  - intros i j a b [_ Ha]%lookup_delete_Some [_ Hb]%lookup_delete_Some. by eapply Hsl.
  - intros j y Hy. destruct (decide (k = j)) as [<-|Hne]; [|by rewrite lookup_delete_ne].
    rewrite lookup_delete_eq. split; [intros H; congruence|done].
Qed.

(** ** What a response shows *)

Definition request_account (r : SpacesRequest) : string :=
  match r with
  | SList u | SCreate u _ _ _ _ | SPatch u _ _ _ | SPutWrapper u _ _ _ _ _ _ _ | SListWrappers u _ _
  | SRecovery u _ _ _ _ _ | SDeleteWrapper u _ _ _ | SAudit u _ _ _ => u
  end.

Definition shows_own (u : string) (body : SpacesBody) : Prop :=
  match body with
  | SbSpaces l => ∀ s, s ∈ l → sr_userId s = u
  | SbSpace s => sr_userId s = u
  | SbWrapper x => wr_userId x = u
  | SbWrappers l => ∀ x, x ∈ l → wr_userId x = u
  | SbAudit l views _ => (∀ e, e ∈ l → ae_userId e = u) ∧ views = map entry_view l
  | SbError _ | SbDeleted => True
  end.

Section Routes.
Context (u : string).
Abbreviation spsafe := (gsafe spaces_inv spaces_le (keeps_others u)).
Abbreviation spsafe_ret := (gsafe_ret spaces_inv spaces_le (keeps_others u)).
Abbreviation spsafe_bind := (gsafe_bind spaces_inv spaces_le (keeps_others u)).
Abbreviation spsafe_statement := (gsafe_statement spaces_inv spaces_le (keeps_others u)).
Abbreviation spsafe_atomically := (gsafe_atomically spaces_inv spaces_le (keeps_others u)).
Abbreviation spsafe_reading := (gsafe_reading spaces_inv spaces_le (keeps_others u)).
Abbreviation SPieces := (Pieces (World := SpacesWorld)).
Implicit Types own : SPieces.

Lemma spsafe_record own type payload id w (P : SPieces → unit → SpacesWorld → Prop) :
  (∀ own' w', P own' tt w') → spsafe own (insert_entry u type payload id) w P.
Proof.
  intros Hx. apply spsafe_statement. intros w1 Hi Hle.
  destruct (_ || _) eqn:E; [done|]. apply orb_false_iff in E as [E1 E2].
  apply bool_decide_eq_false in E1, E2. apply eq_None_not_Some in E1. apply dec_stable in E2.
  destruct (onward_entry w1 (mkAuditEvent id u None type (Some payload) (sw_now w1)) Hi E1 E2) as [? ?].
  split; [done|]. split; [done|apply Hx].
Qed.

Lemma spsafe_entry {A} own type payload id (k : unit → SpacesHandler A) w P :
  (∀ own' w', spsafe own' (k tt) w' P) → spsafe own (insert_entry u type payload id ≫= k) w P.
Proof. intros Hx. by apply spsafe_bind, spsafe_record. Qed.

Lemma spsafe_owned {A} own id (k : option SpaceRow → SpacesHandler A) w P :
  (∀ own' w', spsafe own' (k None) w' P) →
  (∀ own' w' s, spaces_inv w' → sw_spaces w' !! id = Some s → sr_userId s = u → spsafe own' (k (Some s)) w' P) →
  spsafe own (ownedSpace u id ≫= k) w P.
Proof.
  intros Hn Hs. unfold ownedSpace. apply spsafe_reading. intros w1 Hi Hle.
  destruct (sw_spaces w1 !! id) as [s|] eqn:E; [|apply Hn].
  destruct (String.eqb_spec (sr_userId s) u) as [Hu|]; [by apply Hs|apply Hn].
Qed.

Lemma spsafe_put {A} own id kind c salt wrapped newId (k : WrapperRow → SpacesHandler A) w P s :
  spaces_inv w → sw_spaces w !! id = Some s → sr_userId s = u →
  (∀ own' w' x, wr_userId x = u → spsafe own' (k x) w' P) →
  spsafe own (put_wrapper u id kind c salt wrapped newId ≫= k) w P.
Proof.
  intros _ Hs Hu Hx. apply spsafe_bind, spsafe_statement. intros w1 Hi Hle.
  destruct (sl_spaces _ _ Hle _ _ Hs) as (s' & Hs' & _ & Hu'). rewrite Hu in Hu'.
  destruct (List.find _ _) as [x|] eqn:Ef.
  - apply find_some in Ef as [Hin%list_elem_of_In%elem_table_rows Hsl]. destruct Hin as [j Hj].
    destruct (si_wrappers _ Hi _ _ Hj) as (Hid & s2 & Hs2 & Ho). apply same_slot_iff in Hsl as (E1 & E2 & E3).
    rewrite E1, Hs' in Hs2. injection Hs2 as <-.
    destruct (onward_wrapper w1 u (mkWrapper (wr_id x) (wr_userId x) id kind c salt wrapped (wr_createdAt x)) s' Hi) as [? ?];
      cbn; try done; try congruence.
    + intros i y Hy Hne. apply not_true_iff_false. intros Hsl. apply Hne. rewrite Hid.
      eapply (si_slot _ Hi i j y x); [done|done|]. by rewrite E1, E2, E3.
    + split; [done|]. split; [done|]. apply Hx. cbn. congruence.
  - destruct (_ || _) eqn:E; [done|]. apply orb_false_iff in E as [[E _]%orb_false_iff _].
    apply bool_decide_eq_false, eq_None_not_Some in E.
    destruct (onward_wrapper w1 u (mkWrapper newId u id kind c salt wrapped (sw_now w1)) s' Hi) as [? ?]; cbn; try done; try congruence.
    + intros i y Hy _. pose proof (find_none _ _ Ef y) as Hf. apply Hf, list_elem_of_In, elem_table_rows. by exists i.
    + split; [done|]. split; [done|]. by apply Hx.
Qed.

Definition own_only : SPieces → SpacesResponse → SpacesWorld → Prop := λ _ resp _, shows_own u (ss_body resp).

Lemma validated_spsafe ok (h : SpacesHandler SpacesResponse) own w : spsafe own h w own_only → spsafe own (s_validated ok h) w own_only.
Proof. intros Hh. unfold s_validated. destruct ok; [done|by apply spsafe_ret]. Qed.

Lemma create_space_safe name color egress newId own w : spsafe own (create_space u name color egress newId) w own_only.
Proof.
  unfold create_space. apply spsafe_reading. intros w1 Hi Hle. cbv zeta. apply spsafe_bind, spsafe_statement. intros w2 Hi2 Hle2. cbv zeta.
  set (s := mkSpaceRow _ _ _ _ _ _ _). destruct (_ || _) eqn:E; [done|]. apply orb_false_iff in E as [E1 E2].
  apply bool_decide_eq_false in E1, E2. apply eq_None_not_Some in E1. apply dec_stable in E2.
  destruct (onward_space w2 u s Hi2 eq_refl E2) as [? ?]; [intros b Hb; congruence|].
  split; [done|]. split; [done|]. by apply spsafe_ret.
Qed.

Lemma patch_space_safe id patch entryId own w : spsafe own (patch_space u id patch entryId) w own_only.
Proof.
  unfold patch_space. apply spsafe_owned; [intros; by apply spsafe_ret|]. intros own1 w1 s Hi1 Hs Hu.
  apply spsafe_bind, spsafe_atomically. intros w2 Hi2 Hle2.
  destruct (sl_spaces _ _ Hle2 _ _ Hs) as (row & Hrow & _ & Hu'). rewrite Hrow. cbn [fst snd].
  destruct (si_spaces _ Hi2 _ _ Hrow) as [Hid Huser].
  destruct (onward_space w2 u (patched patch row) Hi2) as [Hok Hko]; cbn; [congruence|congruence|intros b Hb; congruence|].
  cbn in Hok, Hko. rewrite Hid in Hok, Hko.
  split; [done|]. split; [done|].
  assert (∀ own' w', spsafe own' (s_reply 200 (SbSpace (patched patch row))) w' own_only) as Hend
    by (intros; apply spsafe_ret; unfold own_only; cbn; congruence).
  apply spsafe_bind. destruct (sp_egressPolicy patch) as [p|]; [|by apply spsafe_ret].
  destruct (bool_decide _); [by apply spsafe_ret|].
  by apply spsafe_record.
Qed.

Lemma post_wrapper_safe id kind c salt wrapped newId entryId own w :
  spsafe own (post_wrapper u id kind c salt wrapped newId entryId) w own_only.
Proof.
  unfold post_wrapper. apply spsafe_owned; [intros; by apply spsafe_ret|]. intros own1 w1 s Hi1 Hs Hu.
  apply spsafe_reading. intros w2 Hi2 Hle2. destruct (sl_spaces _ _ Hle2 _ _ Hs) as (s2 & Hs2 & _ & Hu2).
  eapply spsafe_put; [done|done|congruence|]. intros own3 w3 x Hx. apply spsafe_entry. intros. by apply spsafe_ret.
Qed.

Lemma post_recovery_safe id salt wrapped newId entryId own w : spsafe own (post_recovery u id salt wrapped newId entryId) w own_only.
Proof.
  unfold post_recovery. apply spsafe_owned; [intros; by apply spsafe_ret|]. intros own1 w1 s Hi1 Hs Hu.
  eapply spsafe_put; [done|done|done|]. intros own3 w3 x Hx. apply spsafe_entry. intros. by apply spsafe_ret.
Qed.

Lemma list_wrappers_safe id kind own w : spsafe own (list_wrappers u id kind) w own_only.
Proof.
  unfold list_wrappers. apply spsafe_owned; [intros; by apply spsafe_ret|]. intros own1 w1 s Hi1 Hs Hu.
  apply spsafe_reading. intros w2 Hi2 Hle2. apply spsafe_ret. unfold own_only, wrappers_of. cbn. intros x.
  rewrite merge_sort_Permutation, In_filter_iff, elem_table_rows. intros [[k Hk] [Hid%String.eqb_eq _]%andb_true_iff].
  destruct (si_wrappers _ Hi2 _ _ Hk) as (_ & s' & Hs' & Ho). destruct (sl_spaces _ _ Hle2 _ _ Hs) as (s2 & Hs2 & _ & Hu2).
  rewrite Hid in Hs'. congruence.
Qed.

Lemma delete_wrapper_safe id wid entryId own w : spsafe own (delete_wrapper u id wid entryId) w own_only.
Proof.
  unfold delete_wrapper. apply spsafe_bind, spsafe_atomically. intros w1 Hi1 Hle1.
  assert (spsafe (own ++ [(w1, w1)]) (s_deny 404 "not_found") w1 own_only) as Hd by by apply spsafe_ret.
  destruct (sw_wrappers w1 !! wid) as [x|] eqn:Ex; [|by split; [split|split; [reflexivity|]]].
  destruct (_ && _) eqn:E; [|by split; [split|split; [reflexivity|]]]. apply andb_true_iff in E as [_ E%String.eqb_eq]. cbn [fst snd].
  destruct (onward_delete w1 u wid x Hi1 Ex E) as [? ?]. split; [done|]. split; [done|].
  apply spsafe_entry. intros. by apply spsafe_ret.
Qed.
End Routes.

Definition spaces_post (r : SpacesRequest) (_ : SpacesWorld) (own : Pieces (World := SpacesWorld)) (resp : SpacesResponse)
    (_ : SpacesWorld) : Prop :=
  within (keeps_others (request_account r)) own ∧ shows_own (request_account r) (ss_body resp).

Lemma handle_spaces_safe r w w0 : tsafe spaces_inv spaces_le (handle_spaces r) [] w (spaces_post r w0).
Proof.
  set (u := request_account r). enough (gsafe spaces_inv spaces_le (keeps_others u) [] (handle_spaces r) w (own_only u)) as Hs
    by exact (Hs (within_nil _)).
  assert (∀ own w (h : SpacesHandler SpacesResponse) x, Ret x = h → shows_own u (ss_body x) →
    gsafe spaces_inv spaces_le (keeps_others u) own h w (own_only u)) as Hret by (intros own' w' h x <- Hx; by apply gsafe_ret).
  subst u. destruct r as [u|u n c e i|u i p e|u i k c s wr n e|u i k|u i s wr n e|u i wi e|u lim cur ty]; cbn [handle_spaces request_account] in *.
  - unfold list_spaces. apply gsafe_reading; [apply _..|]. intros w1 Hi Hle. eapply Hret; [done|]. cbn. intros s.
    rewrite merge_sort_Permutation. unfold spaces_of. rewrite In_filter_iff. by intros [_ ?%String.eqb_eq].
  - apply validated_spsafe, create_space_safe.
  - apply validated_spsafe, patch_space_safe.
  - apply validated_spsafe, post_wrapper_safe.
  - apply list_wrappers_safe.
  - apply validated_spsafe, post_recovery_safe.
  - apply delete_wrapper_safe.
  - apply validated_spsafe. unfold list_audit. apply gsafe_reading; [apply _..|]. intros w1 Hi Hle.
    eapply Hret; [done|]. cbn. split; [|done]. intros x Hx%elem_of_take_in%elem_of_take_in.
    apply elem_audit_rows in Hx as (_ & [Hx%String.eqb_eq _]%andb_true_iff & _). done.
Qed.

(** ** The pool *)

(** Time passes; other routes add accounts, spaces of them, and entries. *)
Inductive spaces_env : relation SpacesWorld :=
| env_spaces_time n w : sw_now w <= n →
    spaces_env w (mkSpacesWorld n (sw_users w) (sw_spaces w) (sw_wrappers w) (sw_audit w))
| env_spaces_user u w : spaces_env w (mkSpacesWorld (sw_now w) ({[u]} ∪ sw_users w) (sw_spaces w) (sw_wrappers w) (sw_audit w))
| env_spaces_space s w : sw_spaces w !! sr_id s = None → sr_userId s ∈ sw_users w →
    spaces_env w (set_space_rows (<[sr_id s := s]> (sw_spaces w)) w)
| env_spaces_entry e w : sw_audit w !! ae_id e = None → ae_userId e ∈ sw_users w →
    spaces_env w (set_trail (<[ae_id e := e]> (sw_audit w)) w).

Lemma spaces_env_ok w w' : spaces_env w w' → spaces_inv w → spaces_inv w' ∧ spaces_le w w'.
Proof.
  intros [n w1 Hn|u w1|s w1 Hn Hu|e w1 Hn Hu] Hi.
  - destruct Hi. split; split; cbn; try done; try reflexivity; lia.
  - destruct Hi as [Hs Hw Hsl Ht]. split; split; cbn; try done; try reflexivity; try lia; try set_solver.
  - apply (onward_space w1 (sr_userId s) s Hi eq_refl Hu). intros b Hb. congruence.
  - by apply onward_entry.
Qed.

Abbreviation SpacesPool := (Config (World := SpacesWorld) (Ext := Empty_set) (Answer := Empty_set)
  (Request := SpacesRequest) (Response := SpacesResponse)).
Abbreviation spaces_step := (pool_step (Ext := Empty_set) (Answer := Empty_set) handle_spaces spaces_env).
Abbreviation spaces_ok := (pool_ok (Ext := Empty_set) (Answer := Empty_set) spaces_inv spaces_le spaces_post).

Lemma spaces_reachable w0 (c : SpacesPool) : spaces_inv w0 → rtc spaces_step (initial w0) c → spaces_ok c.
Proof.
  intros Hi Hr. eapply pool_reachable_ok; [apply _|exact spaces_env_ok| |exact Hi|exact Hr]. intros r w _. apply handle_spaces_safe.
Qed.

Lemma spaces_steps (c c' : SpacesPool) : spaces_ok c → rtc spaces_step c c' → spaces_ok c' ∧ spaces_le (cf_world c) (cf_world c').
Proof.
  intros Hok Hr. split.
  - eapply pool_steps_ok; [apply _|exact spaces_env_ok| |exact Hr|exact Hok]. intros r w _. apply handle_spaces_safe.
  - eapply pool_reachable_forward; [apply _|exact spaces_env_ok| |exact Hok|exact Hr]. intros r w _. apply handle_spaces_safe.
Qed.

(** C37: spaces and wrapped keys stay with their account.  Whatever requests
    race, a wrapper lies in a space of its account, one wrapper at most has a
    kind and credential of a space, every statement of a request leaves the
    spaces, wrappers and entries of other accounts as they were, and what it
    answers shows only rows of its own. *)
Theorem spaces_isolated w0 (c : SpacesPool) i r resp :
  spaces_inv w0 → rtc spaces_step (initial w0) c → cf_threads c !! i = Some r → run_thread r = Ret resp →
  let w := cf_world c in let u := request_account (run_request r) in
  (∀ w1 w2, (w1, w2) ∈ own_pieces i (cf_history c) → keeps_others u w1 w2)
  ∧ shows_own u (ss_body resp)
  ∧ (∀ k x, sw_wrappers w !! k = Some x → ∃ s, sw_spaces w !! wr_spaceId x = Some s ∧ sr_userId s = wr_userId x)
  ∧ (∀ k k' x y, sw_wrappers w !! k = Some x → sw_wrappers w !! k' = Some y →
       (wr_spaceId x, wr_kind x, wr_credentialId x) = (wr_spaceId y, wr_kind y, wr_credentialId y) → k = k').
Proof.
  intros Hi Hr Hl Hret. pose proof (spaces_reachable w0 c Hi Hr) as Hok. pose proof (po_inv _ _ _ _ Hok) as Hinv.
  destruct (finished_ok (Ext := Empty_set) (Answer := Empty_set) _ _ _ c i r resp Hok Hl Hret) as (w & _ & _ & Hp & Hs).
  split; [exact Hp|]. split; [exact Hs|]. split.
  - intros k x Hx. exact (proj2 (si_wrappers _ Hinv k x Hx)).
  - intros k k' x y Hx Hy [= E1 E2 E3]. eapply (si_slot _ Hinv k k' x y); [done|done|]. by apply same_slot_iff.
Qed.

(** ** Reading the trail *)

Definition ask_alone (r : SpacesRequest) (w : SpacesWorld) : option SpacesResponse * SpacesWorld :=
  run_alone (λ e : Empty_set, e) (handle_spaces r) w.

(** A client that asks for page after page, while anything happens in between. *)
Inductive reads_trail (u : string) (limit : Z) (type : option string) : option string → SpacesPool → list AuditEvent → Prop :=
| reads_last cursor c c' events entries : rtc spaces_step c c' →
    (ask_alone (SAudit u limit cursor type) (cf_world c')).1 = Some (mkSpacesResp 200 (SbAudit events entries None)) →
    reads_trail u limit type cursor c events
| reads_more cursor c c' events entries k rest : rtc spaces_step c c' →
    (ask_alone (SAudit u limit cursor type) (cf_world c')).1 = Some (mkSpacesResp 200 (SbAudit events entries (Some k))) →
    reads_trail u limit type (Some k) c' rest → reads_trail u limit type cursor c (events ++ rest).

Lemma ask_audit u limit cursor type w events entries next :
  (ask_alone (SAudit u limit cursor type) w).1 = Some (mkSpacesResp 200 (SbAudit events entries next)) →
  (0 < Z.to_nat limit)%nat ∧ audit_page u (Z.to_nat limit) cursor type (sw_audit w) = (events, next).
Proof.
  unfold ask_alone. cbn [handle_spaces]. unfold s_validated. destruct (auditQuerySchema limit type) eqn:E; [|done].
  unfold list_audit. rewrite run_alone_bind. cbn. intros [= H1 _ H2]. unfold auditQuerySchema in E. bprop.
  split; [lia|]. rewrite <- H1, <- H2. by apply surjective_pairing.
Qed.

Lemma reads_trail_pages u limit type cursor c l : spaces_ok c → reads_trail u limit type cursor c l →
  (0 < Z.to_nat limit)%nat ∧ pages u type (Z.to_nat limit) cursor (sw_audit (cf_world c)) l.
Proof.
  intros Hok Hr. induction Hr as [cursor c c' events entries Hs Hask|cursor c c' events entries k rest Hs Hask Hrest IH];
    destruct (spaces_steps _ _ Hok Hs) as [Hok' Hle]; apply ask_audit in Hask as [Hl Hpage].
  - split; [done|]. eapply pages_last; [exact (sl_trail _ _ Hle)| |exact Hpage].
    intros k e Hk. exact (proj1 (si_trail _ (po_inv _ _ _ _ Hok') k e Hk)).
  - split; [done|]. eapply pages_more; [exact (sl_trail _ _ Hle)| |exact Hpage|by apply IH].
    intros j e Hk. exact (proj1 (si_trail _ (po_inv _ _ _ _ Hok') j e Hk)).
Qed.

(** C36: reading the audit trail page by page misses nothing.  Whatever is
    written in between, what a client has read after the page without a next
    cursor lists every entry of the account and type there was when it began,
    none twice, newest first, and no entry of another account. *)
Theorem audit_trail_read_in_full w0 (c : SpacesPool) u limit type l :
  spaces_inv w0 → rtc spaces_step (initial w0) c → reads_trail u limit type None c l →
  StronglySorted newer l ∧ NoDup l
  ∧ (∀ e, e ∈ l → ae_userId e = u)
  ∧ (∀ k e, sw_audit (cf_world c) !! k = Some e → of_account u type e = true → e ∈ l).
Proof.
  intros Hi Hr Hread. destruct (reads_trail_pages _ _ _ _ _ _ (spaces_reachable w0 c Hi Hr) Hread) as [Hl Hp].
  destruct (λ Hc, pages_list _ _ _ _ _ _ Hl Hc Hp) as (Hs & Ha & Hall); [done|]. split; [exact Hs|]. split.
  - clear -Hs. induction Hs as [|a l Hs IH Hf]; constructor; [|done]. intros Hin. rewrite Forall_forall in Hf.
    by apply (newer_irrefl a), Hf.
  - split; [|intros k e Hk Hacc; by eapply Hall]. intros e He. destruct (Ha e He) as [[Hu%String.eqb_eq _]%andb_true_iff _]. done.
Qed.

(** ** The recovery code *)

(** What an accepted put leaves, alone. *)
Lemma put_wrapper_alone u id kind c salt wrapped newId w s : spaces_inv w → sw_spaces w !! id = Some s → sr_userId s = u →
  sw_wrappers w !! newId = None → ∀ A (k : WrapperRow → SpacesHandler A), ∃ x w',
    run_alone (λ e, e) (put_wrapper u id kind c salt wrapped newId ≫= k) w = run_alone (λ e, e) (k x) w'
    ∧ spaces_inv w' ∧ spaces_le w w' ∧ sw_audit w' = sw_audit w
    ∧ sw_wrappers w' !! wr_id x = Some x ∧ same_slot id kind c x = true ∧ wr_salt x = salt ∧ wr_wrapped x = wrapped.
Proof.
  intros Hi Hs Hu Hnew A k.
  pose proof (spsafe_put u [] id kind c salt wrapped newId mret w (λ _ _ _, True) s Hi Hs Hu (λ own' w' x _, gsafe_ret _ _ _ own' x w' _ I)) as Hsafe.
  destruct (Hsafe (within_nil _) w Hi ltac:(reflexivity)) as (Hi' & Hle & _). revert Hi' Hle.
  unfold put_wrapper, statement. cbn [thread_bind mbind Thread_bind run_alone].
  destruct (List.find _ _) as [x|] eqn:Ef.
  - intros Hi' Hle. eexists _, _. split; [reflexivity|]. split; [exact Hi'|]. split; [exact Hle|]. cbn.
    split; [done|]. rewrite lookup_insert_eq. split; [done|]. split; [by apply same_slot_iff|done].
  - assert (u ∈ sw_users w) as Huser by (rewrite <- Hu; by eapply si_spaces).
    assert (bool_decide (is_Some (sw_wrappers w !! newId)) || bool_decide (u ∉ sw_users w)
            || negb (bool_decide (is_Some (sw_spaces w !! id))) = false) as ->.
    { rewrite Hnew, Hs, (bool_decide_false (is_Some None)) by (by intros [? ?]).
      by rewrite (bool_decide_false (u ∉ sw_users w)), (bool_decide_true (is_Some (Some s))) by eauto. }
    intros Hi' Hle. eexists _, _. split; [reflexivity|]. split; [exact Hi'|]. split; [exact Hle|]. cbn.
    split; [done|]. rewrite lookup_insert_eq. split; [done|]. split; [by apply same_slot_iff|done].
Qed.

Lemma NoDup_single {A} (l : list A) x : NoDup l → (∀ y, y ∈ l ↔ y = x) → l = [x].
Proof.
  intros Hn Hx. apply Permutation_singleton_r, NoDup_Permutation; [done|apply NoDup_singleton|].
  intros y. by rewrite Hx, list_elem_of_singleton.
Qed.

(** A slot is listed once. *)
Lemma wrappers_of_slot id kind c w x : spaces_inv w → sw_wrappers w !! wr_id x = Some x → same_slot id kind c x = true →
  List.filter (λ y, String.eqb (wr_credentialId y) c) (wrappers_of id (Some kind) w) = [x].
Proof.
  intros Hi Hx Hsl. apply NoDup_single.
  - apply NoDup_ListNoDup, List.NoDup_filter, NoDup_ListNoDup. unfold wrappers_of. rewrite merge_sort_Permutation.
    apply NoDup_ListNoDup, List.NoDup_filter, NoDup_ListNoDup. apply (NoDup_fmap_1 wr_id). unfold table_rows.
    rewrite <- list_fmap_compose, (list_fmap_ext _ fst).
    { apply NoDup_fst_map_to_list. }
    intros i [k y] Hk%list_elem_of_lookup_2%elem_of_map_to_list. cbn. by eapply si_wrappers.
  - intros y. rewrite In_filter_iff. unfold wrappers_of. rewrite merge_sort_Permutation, In_filter_iff, elem_table_rows.
    pose proof Hsl as (E1 & E2 & E3)%same_slot_iff. split.
    + intros [[[k Hk] [Hid%String.eqb_eq Hkind%bool_decide_eq_true]%andb_true_iff] Hc%String.eqb_eq].
      assert (k = wr_id x) as ->; [|congruence]. eapply (si_slot _ Hi); [exact Hk|exact Hx|]. apply same_slot_iff. split_and!; congruence.
    + intros ->. split; [|by apply String.eqb_eq]. split; [by eexists|]. apply andb_true_iff.
      split; [by apply String.eqb_eq|by apply bool_decide_eq_true].
Qed.

(** What a client stored under a recovery code comes back as it was.
    Setting it on an owned space is accepted, replaces an earlier one, and the
    wrappers of that kind then list it exactly once with the salt and the
    wrapped secret that were sent. *)
Theorem recovery_roundtrip u id salt wrapped newId entryId w s :
  spaces_inv w → sw_spaces w !! id = Some s → sr_userId s = u → recoverySchema salt wrapped = true →
  sw_wrappers w !! newId = None → sw_audit w !! entryId = None →
  ∃ x w', ask_alone (SRecovery u id salt wrapped newId entryId) w = (Some (mkSpacesResp 200 (SbWrapper x)), w')
    ∧ wr_salt x = salt ∧ wr_wrapped x = wrapped
    ∧ ∃ l, ask_alone (SListWrappers u id (Some recovery_code)) w' = (Some (mkSpacesResp 200 (SbWrappers l)), w')
        ∧ List.filter (λ y, String.eqb (wr_credentialId y) RECOVERY_CREDENTIAL_ID) l = [x].
Proof.
  intros Hi Hs Hu Hok Hnew Hentry. unfold ask_alone. cbn [handle_spaces]. rewrite Hok. unfold s_validated, post_recovery, ownedSpace.
  rewrite run_alone_reading, Hs, (proj2 (String.eqb_eq _ _) Hu). unfold setRecoveryWrapper.
  edestruct (put_wrapper_alone u id RECOVERY_WRAPPER_KIND RECOVERY_CREDENTIAL_ID salt wrapped newId w s Hi Hs Hu Hnew)
    as (x & w1 & -> & Hi1 & Hle & Htrail & Hx & Hslot & Hsalt & Hwrapped).
  assert (u ∈ sw_users w1) as Huser by (apply (sl_users _ _ Hle); rewrite <- Hu; by eapply si_spaces).
  set (w2 := set_trail (<[entryId := mkAuditEvent entryId u None "keys.recovery_set" (Some (JObj [("spaceId", JStr id)])) (sw_now w1)]> (sw_audit w1)) w1).
  exists x, w2. split.
  - unfold insert_entry. rewrite (run_alone_statement _ _ _ _ tt w2); [done|]. rewrite Htrail, Hentry.
    rewrite (bool_decide_false (is_Some None)) by (by intros [? ?]).
    rewrite (bool_decide_false (u ∉ sw_users w1)) by eauto. cbn [orb]. subst w2. by rewrite Htrail.
  - split; [done|]. split; [done|]. unfold list_wrappers, ownedSpace. rewrite run_alone_reading.
    destruct (sl_spaces _ _ Hle _ _ Hs) as (s' & Hs' & _ & Hu'). cbn [w2 set_trail sw_spaces]. rewrite Hs'.
    rewrite (proj2 (String.eqb_eq _ _)) by congruence. rewrite run_alone_reading. eexists. split; [reflexivity|].
    by apply (wrappers_of_slot id RECOVERY_WRAPPER_KIND RECOVERY_CREDENTIAL_ID w1).
Qed.

(** * Runs of spaces and the trail, and the witnesses *)

(** The clock, the only move of the runs below. *)
Definition spaces_tick (n : Z) (w : SpacesWorld) : option SpacesWorld :=
  if sw_now w <=? n then Some (mkSpacesWorld n (sw_users w) (sw_spaces w) (sw_wrappers w) (sw_audit w)) else None.

Lemma spaces_tick_env n w w' : spaces_tick n w = Some w' → spaces_env w w'.
Proof. unfold spaces_tick. destruct (sw_now w <=? n) eqn:E; [|discriminate]. intros [= <-]. bprop. by constructor. Qed.

Abbreviation SpacesEvents := (list (Event SpacesRequest Empty_set Z)).

Module SpacesRuns.
Definition space (id u : string) : SpaceRow := mkSpaceRow id u "Personal" "#3B82F6" 0 direct 1000.
Definition start : SpacesWorld :=
  mkSpacesWorld 1000 {["u"; "v"]} (<["s1" := space "s1" "u"]> {["s2" := space "s2" "v"]}) ∅ ∅.

Definition run_demo := run_events handle_spaces spaces_tick.
Definition run_from (w : SpacesWorld) (l : SpacesEvents) : option SpacesPool := run_demo l (initial w).
Definition outcome (i : nat) (c : option SpacesPool) : option SpacesResponse := c ← c; response_of i c.
Definition ask (r : SpacesRequest) (i n : nat) : SpacesEvents := EvSpawn r :: repeat (EvRun i) n.

Definition to_suma : SpacePatch := mkPatch None None None (Some suma_ip).
Definition to_direct : SpacePatch := mkPatch None None None (Some direct).

(** Two accounts store wrappers and change their spaces; [u] reads its trail. *)
Definition store_and_read : SpacesEvents :=
  ask (SPutWrapper "u" "s1" passkey_prf "c1" "" "AAAA" "w1" "a1") 0 4
  ++ [EvEnv 2000] ++ ask (SPutWrapper "v" "s2" passkey_prf "c1" "" "BBBB" "w2" "a2") 1 4
  ++ [EvEnv 3000] ++ ask (SPatch "u" "s1" to_suma "a3") 2 3
  ++ ask (SPatch "u" "s1" to_direct "a4") 3 3
  ++ ask (SPutWrapper "u" "s2" passkey_prf "c1" "" "CCCC" "w3" "a5") 4 1
  ++ ask (SListWrappers "u" "s1" None) 5 2.
Definition stored : option SpacesPool := run_from start store_and_read.

(** Two requests create a space at once. *)
Definition race : SpacesEvents :=
  [EvSpawn (SCreate "u" "Work" "red" None "s3"); EvSpawn (SCreate "u" "Home" "blue" None "s4");
   EvRun 0; EvRun 1; EvRun 0; EvRun 1].

Definition page (cursor : option string) (c : option SpacesPool) : option (list string * option string) :=
  c ← c; match (ask_alone (SAudit "u" 2 cursor None) (cf_world c)).1 with
         | Some (mkSpacesResp 200 (SbAudit l _ next)) => Some (map ae_id l, next)
         | _ => None
         end.
End SpacesRuns.

(** The owner sees its wrapper, and the stranger is refused. *)
Example spaces_demo_answers :
  match SpacesRuns.outcome 5 SpacesRuns.stored with
  | Some (mkSpacesResp 200 (SbWrappers [x])) => wr_wrapped x = "AAAA" | _ => False end
  ∧ SpacesRuns.outcome 4 SpacesRuns.stored = Some (mkSpacesResp 404 (SbError "not_found"))
  ∧ SpacesRuns.page None SpacesRuns.stored = Some (["a4"; "a3"], Some "a3")
  ∧ SpacesRuns.page (Some "a3") SpacesRuns.stored = Some (["a1"], None).
Proof. vm_compute. split_and!; reflexivity. Qed.

(** The cursor of another account is not an empty page. *)
Example foreign_cursor_is_accepted : SpacesRuns.page (Some "a2") SpacesRuns.stored = Some (["a1"], None).
Proof. vm_compute. reflexivity. Qed.

(** Both spaces got the same position. *)
Example created_at_one_position :
  match SpacesRuns.outcome 0 (SpacesRuns.run_from SpacesRuns.start SpacesRuns.race),
        SpacesRuns.outcome 1 (SpacesRuns.run_from SpacesRuns.start SpacesRuns.race) with
  | Some (mkSpacesResp 201 (SbSpace a)), Some (mkSpacesResp 201 (SbSpace b)) => sr_position a = 1 ∧ sr_position b = 1
  | _, _ => False
  end.
Proof. vm_compute. split; reflexivity. Qed.

(** Types app.ts records that the sentences do not know. *)
Example unrecognized_types :
  map (λ type, summarize type None)
    ["device.renamed"; "device.enrollment_code_minted"; "device.enrollment_code_redeemed"; "invite.redeemed"; "files.chunk_rejected"]
  = ["Unrecognized event (device.renamed)."; "Unrecognized event (device.enrollment_code_minted).";
     "Unrecognized event (device.enrollment_code_redeemed)."; "Unrecognized event (invite.redeemed).";
     "Unrecognized event (files.chunk_rejected)."].
Proof. vm_compute. reflexivity. Qed.

(** What the entries of these routes read. *)
Example spaces_sentences :
  summarize "space.updated" (Some (JObj [("egressPolicy", JObj [("from", JStr "direct"); ("to", JStr "suma-ip")])]))
    = "A space's egress policy changed from direct to suma-ip."
  ∧ summarize "machine.boosted" (Some (JObj [("memoryMb", JNum 4608)])) = "Your machine was boosted to 4.5 GB of memory.".
Proof. vm_compute. split; reflexivity. Qed.

(** ** Witnesses *)

Lemma spaces_start_inv : spaces_inv SpacesRuns.start.
Proof.
  split; cbn.
  - intros k s [[<- <-]|[_ [<- <-]%lookup_singleton_Some]]%lookup_insert_Some; split; [done|set_solver|done|set_solver].
  - by intros k x ?%lookup_empty_Some.
  - by intros i j x y ?%lookup_empty_Some.
  - by intros k e ?%lookup_empty_Some.
Qed.

Lemma spaces_run_steps (l : SpacesEvents) c c' : SpacesRuns.run_demo l c = Some c' → rtc spaces_step c c'.
Proof. apply run_events_steps, spaces_tick_env. Qed.

Lemma spaces_stored : ∃ c, SpacesRuns.stored = Some c.
Proof.
  assert (match SpacesRuns.stored with Some _ => true | None => false end = true) as H by (vm_compute; reflexivity).
  destruct SpacesRuns.stored; [eauto|discriminate].
Qed.

Lemma spaces_isolated_witness :
  ∃ c r resp, SpacesRuns.stored = Some c ∧ cf_threads c !! 5%nat = Some r ∧ run_thread r = Ret resp
    ∧ shows_own (request_account (run_request r)) (ss_body resp).
Proof.
  destruct spaces_stored as [c Hc].
  assert (match SpacesRuns.outcome 5 SpacesRuns.stored with Some _ => true | None => false end = true) as Hres
    by (vm_compute; reflexivity). rewrite Hc in Hres. unfold SpacesRuns.outcome in Hres. cbn [mbind option_bind] in Hres.
  destruct (response_of 5 c) as [resp|] eqn:E; [|discriminate Hres]. apply response_of_thread in E as (r & Hl & Hret).
  exists c, r, resp. split; [exact Hc|]. split; [exact Hl|]. split; [exact Hret|].
  exact (proj1 (proj2 (spaces_isolated SpacesRuns.start c 5%nat r resp spaces_start_inv (spaces_run_steps _ _ _ Hc) Hl Hret))).
Defined.

(** A trail of three entries of [u], read two at a time. *)
Definition entry (id u : string) (n : Z) : AuditEvent := mkAuditEvent id u None "keys.recovery_set" None n.
Definition trail_start : SpacesWorld :=
  set_trail (<["a1" := entry "a1" "u" 5]> (<["a2" := entry "a2" "v" 6]> (<["a3" := entry "a3" "u" 7]> {["a4" := entry "a4" "u" 7]})))
    SpacesRuns.start.

Lemma trail_start_inv : spaces_inv trail_start.
Proof.
  destruct spaces_start_inv. split; [done|done|done|]. cbn.
  intros k e [[<- <-]|[_ [[<- <-]|[_ [[<- <-]|[_ [<- <-]%lookup_singleton_Some]]%lookup_insert_Some]]%lookup_insert_Some]]%lookup_insert_Some;
    (split; [done|cbn; set_solver]).
Qed.

Lemma trail_is_read : reads_trail "u" 2 None None (initial trail_start) ([entry "a4" "u" 7; entry "a3" "u" 7] ++ [entry "a1" "u" 5]).
Proof.
  eapply reads_more; [apply rtc_refl|vm_compute; reflexivity|].
  eapply reads_last; [apply rtc_refl|vm_compute; reflexivity].
Qed.

Lemma audit_trail_read_in_full_witness :
  StronglySorted newer ([entry "a4" "u" 7; entry "a3" "u" 7] ++ [entry "a1" "u" 5])
  ∧ ∀ k e, sw_audit trail_start !! k = Some e → of_account "u" None e = true →
      e ∈ [entry "a4" "u" 7; entry "a3" "u" 7] ++ [entry "a1" "u" 5].
Proof.
  destruct (audit_trail_read_in_full trail_start (initial trail_start) "u" 2 None _ trail_start_inv (rtc_refl _ _) trail_is_read)
    as (Hs & _ & _ & Hall). split; [exact Hs|exact Hall].
Defined.

Lemma recovery_roundtrip_witness :
  ∃ x w', ask_alone (SRecovery "u" "s1" "AAAA" "BBBB" "w9" "a9") SpacesRuns.start = (Some (mkSpacesResp 200 (SbWrapper x)), w')
    ∧ wr_salt x = "AAAA" ∧ wr_wrapped x = "BBBB"
    ∧ ∃ l, ask_alone (SListWrappers "u" "s1" (Some recovery_code)) w' = (Some (mkSpacesResp 200 (SbWrappers l)), w')
        ∧ List.filter (λ y, String.eqb (wr_credentialId y) RECOVERY_CREDENTIAL_ID) l = [x].
Proof.
  refine (recovery_roundtrip "u" "s1" "AAAA" "BBBB" "w9" "a9" SpacesRuns.start (SpacesRuns.space "s1" "u") spaces_start_inv _ _ _ _ _);
    reflexivity.
Defined.
