(* ===== verification/NodeFs.v ===== *)
(** * The file system behind local-vfs.ts

    What the port asks of node:fs: directories, files and symbolic links on one
    disk, the resolution of a path through links, and the calls, each of which
    may fail at any point of its work.  A lookup (lstat, stat, realpath) answers
    what the disk says or fails for a reason of the platform; closing a file
    may fail as well. *)

From stdpp Require Import relations.
From S2P Require Export Effects Encoding.
From Stdlib Require Import Ascii.

(** ** The disk *)

(** The names from the root of the disk down; [[]] is that root. *)
Abbreviation path := (list string).

Inductive Content :=
| CFile (data : bytes)
| CDir
| CLink (absolute : bool) (target : path)
| COther.

(** [nd_size]: what stat says of a node that is no file. *)
Record Node := mkNode { nd_content : Content; nd_size : Z; nd_mtimeNs : Z }.

Abbreviation FileSystem := (gmap (list string) Node).

Definition disk_root : Node := mkNode CDir 0 0.
Definition node_at (fs : FileSystem) (p : path) : option Node := match p with [] => Some disk_root | _ => fs !! p end.
Definition is_dir_node (n : Node) : bool := match nd_content n with CDir => true | _ => false end.
Definition is_file_node (n : Node) : bool := match nd_content n with CFile _ => true | _ => false end.
Definition is_link_node (n : Node) : bool := match nd_content n with CLink _ _ => true | _ => false end.
Definition st_size (n : Node) : Z := match nd_content n with CFile d => Z.of_nat (length d) | _ => nd_size n end.

Inductive Errno :=
  ENOENT | EACCES | EPERM | ENOTDIR | EISDIR | ELOOP | EEXIST | ENOTEMPTY | EINVAL | EBUSY | EIO.
#[export] Instance Errno_eq_dec : EqDecision Errno.
Proof. solve_decision. Defined.

(** ** Resolution *)

Definition dot (s : string) : bool := String.eqb s "" || String.eqb s ".".

(** Where [rest] leads from directory [cur], through at most [hops] links; the
    last name need not exist.  [follow]: whether a link in last place is
    followed. *)
Fixpoint walk (hops : nat) (fs : FileSystem) (follow : bool) : path → path → Errno + path :=
  fix go (cur rest : path) : Errno + path :=
    match rest with
    | [] => inr cur
    | s :: rest' =>
        if dot s then go cur rest'
        else if String.eqb s ".." then go (removelast cur) rest'
        else
          match fs !! (cur ++ [s]) with
          | None => match rest' with [] => inr (cur ++ [s]) | _ => inl ENOENT end
          | Some n =>
              match nd_content n with
              | CDir => go (cur ++ [s]) rest'
              | CLink absolute target =>
                  match rest', follow with
                  | [], false => inr (cur ++ [s])
                  | _, _ =>
                      match hops with
                      | O => inl ELOOP
                      | S hops => walk hops fs follow (if absolute then [] else cur) (target ++ rest')
                      end
                  end
              | _ => match rest' with [] => inr (cur ++ [s]) | _ => inl ENOTDIR end
              end
          end
    end.

(** The links macOS follows in one lookup. *)
Definition MAXSYMLINKS : nat := 32.
Definition locate (fs : FileSystem) (follow : bool) (p : path) : Errno + path := walk MAXSYMLINKS fs follow [] p.

(** The same without the bound. *)
Inductive Walk (fs : FileSystem) (follow : bool) : path → path → path → Prop :=
| W_nil cur : Walk fs follow cur [] cur
| W_dot cur s rest loc : dot s = true → Walk fs follow cur rest loc → Walk fs follow cur (s :: rest) loc
| W_up cur rest loc : Walk fs follow (removelast cur) rest loc → Walk fs follow cur (".." :: rest) loc
| W_missing cur s : dot s = false → s ≠ ".." → fs !! (cur ++ [s]) = None → Walk fs follow cur [s] (cur ++ [s])
| W_dir cur s n rest loc : dot s = false → s ≠ ".." → fs !! (cur ++ [s]) = Some n → nd_content n = CDir →
    Walk fs follow (cur ++ [s]) rest loc → Walk fs follow cur (s :: rest) loc
| W_kept cur s n absolute target : dot s = false → s ≠ ".." → fs !! (cur ++ [s]) = Some n →
    nd_content n = CLink absolute target → follow = false → Walk fs follow cur [s] (cur ++ [s])
| W_link cur s n absolute target rest loc : dot s = false → s ≠ ".." → fs !! (cur ++ [s]) = Some n →
    nd_content n = CLink absolute target → rest ≠ [] ∨ follow = true →
    Walk fs follow (if absolute then [] else cur) (target ++ rest) loc → Walk fs follow cur (s :: rest) loc
| W_leaf cur s n : dot s = false → s ≠ ".." → fs !! (cur ++ [s]) = Some n →
    is_dir_node n = false → is_link_node n = false → Walk fs follow cur [s] (cur ++ [s]).

Lemma walk_sound hops fs follow : ∀ cur rest loc, walk hops fs follow cur rest = inr loc → Walk fs follow cur rest loc.
Proof.
  induction hops as [|hops IH]; intros cur rest; revert cur; induction rest as [|s rest IHr]; intros cur loc; cbn [walk];
    try (intros [= <-]; constructor).
  all: destruct (dot s) eqn:Ed; [intros H; by apply W_dot, IHr|].
  all: destruct (String.eqb_spec s "..") as [->|Hup]; [intros H; by apply W_up, IHr|].
  all: destruct (fs !! (cur ++ [s])) as [n|] eqn:En; [|destruct rest; [intros [= <-]; by apply W_missing|done]].
  all: destruct (nd_content n) as [d| |a t|] eqn:Ec.
  all: try (destruct rest; [intros [= <-]|done]; eapply W_leaf; try done; unfold is_dir_node, is_link_node; by rewrite Ec).
  all: try (intros H; eapply W_dir; try done; by apply IHr).
  - destruct rest as [|r rest]; [destruct follow|]; try done. intros [= <-]. by eapply W_kept.
  - destruct rest as [|r rest]; [destruct follow|].
    + intros H. eapply W_link; try done; [by right|by apply IH].
    + intros [= <-]. by eapply W_kept.
    + intros H. eapply W_link; try done; [by left|by apply IH].
Qed.

Lemma Walk_det fs follow cur rest loc loc' : Walk fs follow cur rest loc → Walk fs follow cur rest loc' → loc = loc'.
Proof.
  intros H. revert loc'. induction H; intros loc' H'; inversion H'; subst; simplify_eq; try congruence; auto;
    unfold is_dir_node, is_link_node in *;
    repeat match goal with E : nd_content ?n = _, F : context [nd_content ?n] |- _ => rewrite E in F end;
    simplify_eq; try discriminate; try naive_solver; auto.
Qed.

(** A path resolves through the directory its first part resolves to. *)
Lemma Walk_split fs follow cur rest loc : Walk fs follow cur rest loc → ∀ a b, rest = a ++ b → b ≠ [] →
  ∃ mid, Walk fs true cur a mid ∧ Walk fs follow mid b loc.
Proof.
  induction 1 as [cur|cur s rest loc Hd Hw IH|cur rest loc Hw IH|cur s Hd Hu Hn|cur s n rest loc Hd Hu Hn Hc Hw IH
    |cur s n ab t Hd Hu Hn Hc Hf|cur s n ab t rest loc Hd Hu Hn Hc Hf Hw IH|cur s n Hd Hu Hn Hnd Hnl]; intros a b E Hb.
  all: destruct a as [|x a]; cbn in E; [subst b; exists cur; split; [constructor|]; try done; by econstructor|].
  - discriminate.
  - injection E as <- E. destruct (IH a b E Hb) as (mid & ? & ?). exists mid. split; [by apply W_dot|done].
  - injection E as <- E. destruct (IH a b E Hb) as (mid & ? & ?). exists mid. split; [by apply W_up|done].
  - injection E as <- E. destruct a; [by destruct b|discriminate].
  - injection E as <- E. destruct (IH a b E Hb) as (mid & ? & ?). exists mid. split; [by eapply W_dir|done].
  - injection E as <- E. destruct a; [by destruct b|discriminate].
  - injection E as <- ->. destruct (IH (t ++ a) b (app_assoc _ _ _) Hb) as (mid & ? & ?). exists mid.
    split; [eapply W_link; try done; by right|done].
  - injection E as <- E. destruct a; [by destruct b|discriminate].
Qed.

Definition plain (s : string) : Prop := dot s = false ∧ s ≠ "..".

(** A link in last place is not followed: the entry itself is found. *)
Lemma Walk_entry fs cur a s loc : plain s → Walk fs false cur (a ++ [s]) loc → ∃ mid, Walk fs true cur a mid ∧ loc = mid ++ [s].
Proof.
  intros [Hd Hu] Hw. destruct (Walk_split _ _ _ _ _ Hw a [s] eq_refl) as (mid & Ha & Hs); [done|]. exists mid. split; [done|].
  inversion Hs as [|? ? ? ? Hd' ?|? ? ? ?|?|? ? ? ? ? ? ? ? ? Hrest|?|? ? ? ? ? ? ? ? ? ? ? Hr ?|?]; subst; try congruence; try done.
  - by inversion Hrest.
  - by destruct Hr.
Qed.

(** Without a link in last place the entry is where the path leads. *)
Lemma Walk_followed fs cur a s mid : plain s → Walk fs true cur a mid →
  (∀ n, fs !! (mid ++ [s]) = Some n → is_link_node n = false) →
  ∀ loc, Walk fs true cur (a ++ [s]) loc → loc = mid ++ [s].
Proof.
  intros [Hd Hu] Ha Hl loc Hw. destruct (Walk_split _ _ _ _ _ Hw a [s] eq_refl) as (mid' & Ha' & Hs); [done|].
  assert (mid' = mid) as -> by (by eapply Walk_det).
  inversion Hs as [|? ? ? ? Hd' ?|? ? ? ?|?|? ? ? ? ? ? ? ? ? Hrest|?|? ? n ? ? ? ? ? ? Hn Hc Hr ?|?]; subst; try congruence; try done.
  - by inversion Hrest.
  - specialize (Hl _ Hn). unfold is_link_node in Hl. by rewrite Hc in Hl.
Qed.

(** An entry that appears where there was none changes no path that did not
    end there. *)
Lemma Walk_insert fs follow cur rest loc l n : fs !! l = None → Walk fs follow cur rest loc → loc ≠ l →
  Walk (<[l := n]> fs) follow cur rest loc.
Proof.
  intros Hl Hw Hne. assert (∀ p m, fs !! p = Some m → <[l := n]> fs !! p = Some m) as Hold
    by (intros p m Hp; rewrite lookup_insert_ne; [done|]; intros ->; congruence).
  induction Hw; try (econstructor; eauto; fail).
  apply W_missing; [done|done|]. by rewrite lookup_insert_ne.
Qed.

(** ** Calls *)

(** [Fails e p]: the call fails with [e], with nothing done ([None]) or after
    so much of its work; [Short n]: a read returns at most [n] bytes. *)
Inductive Fault := Works | Fails (e : Errno) (progress : option nat) | Short (n : nat).

(** What happens to the calls to come, in order, and then all works:
    [dk_faults] to those that read or change directories and files,
    [dk_lookups] to the lookups, [dk_closes] to the closing of files ([Some e]:
    it fails with [e]). *)
Record Disk := mkDisk {
  dk_fs : FileSystem; dk_nowNs : Z; dk_faults : list Fault;
  dk_lookups : list (option Errno); dk_closes : list (option Errno)
}.

Abbreviation Io := (exn Disk).

Definition set_fs (fs : FileSystem) (d : Disk) : Disk :=
  mkDisk fs (dk_nowNs d) (dk_faults d) (dk_lookups d) (dk_closes d).
Definition set_faults (l : list Fault) (d : Disk) : Disk :=
  mkDisk (dk_fs d) (dk_nowNs d) l (dk_lookups d) (dk_closes d).
Definition set_lookups (l : list (option Errno)) (d : Disk) : Disk :=
  mkDisk (dk_fs d) (dk_nowNs d) (dk_faults d) l (dk_closes d).
Definition set_closes (l : list (option Errno)) (d : Disk) : Disk :=
  mkDisk (dk_fs d) (dk_nowNs d) (dk_faults d) (dk_lookups d) l.

Definition next_fault : Io Fault := exec (λ d,
  match dk_faults d with [] => (Some Works, d) | f :: l => (Some f, set_faults l d) end).
Definition next_lookup : Io (option Errno) := exec (λ d,
  match dk_lookups d with [] => (Some None, d) | f :: l => (Some f, set_lookups l d) end).

Definition found (fs : FileSystem) (follow : bool) (p : path) : Errno + path * Node :=
  match locate fs follow p with
  | inl e => inl e
  | inr loc => match node_at fs loc with Some n => inr (loc, n) | None => inl ENOENT end
  end.

(** A lookup: what the disk says, unless it fails. *)
Definition look_up {A} (f : FileSystem → Errno + A) : Io (Errno + A) :=
  failure ← next_lookup;
  match failure with Some e => mret (inl e) | None => gets (λ d, f (dk_fs d)) end.

Definition fs_lstat (p : path) : Io (Errno + Node) :=
  look_up (λ fs, match found fs false p with inl e => inl e | inr x => inr x.2 end).
Definition fs_stat (p : path) : Io (Errno + Node) :=
  look_up (λ fs, match found fs true p with inl e => inl e | inr x => inr x.2 end).
Definition fs_realpath (p : path) : Io (Errno + path) :=
  look_up (λ fs, match found fs true p with inl e => inl e | inr x => inr x.1 end).

(** A call that works does all of [f]; one that fails may have done [part]. *)
Definition call {A} (f : Disk → Errno + A * FileSystem) (part : nat → Disk → FileSystem) : Io (Errno + A) :=
  fault ← next_fault;
  match fault with
  | Fails e None => mret (inl e)
  | Fails e (Some n) => _ ← modify (λ d, set_fs (part n d) d); mret (inl e)
  | _ => exec (λ d, match f d with inl e => (Some (inl e), d) | inr (a, fs) => (Some (inr a), set_fs fs d) end)
  end.

(** Nothing is done when the work could not have begun. *)
Definition or_nothing {A} (f : Disk → Errno + A * FileSystem) (d : Disk) : FileSystem :=
  match f d with inl _ => dk_fs d | inr (_, fs) => fs end.

Definition new_file (data : bytes) (d : Disk) : Node := mkNode (CFile data) 0 (dk_nowNs d).

(** [writeFile] with the flag [wx]. *)
Definition create_file (p : path) (data : bytes) (d : Disk) : Errno + unit * FileSystem :=
  match locate (dk_fs d) false p with
  | inl e => inl e
  | inr loc =>
      match node_at (dk_fs d) loc with
      | Some _ => inl EEXIST
      | None => inr (tt, <[loc := new_file data d]> (dk_fs d))
      end
  end.
Definition fs_writeFile_wx (p : path) (data : bytes) : Io (Errno + unit) :=
  call (create_file p data) (λ n, or_nothing (create_file p (take n data))).

Definition append_file (p : path) (data : bytes) (d : Disk) : Errno + unit * FileSystem :=
  match locate (dk_fs d) true p with
  | inl e => inl e
  | inr loc =>
      match node_at (dk_fs d) loc with
      | None => inr (tt, <[loc := new_file data d]> (dk_fs d))
      | Some n =>
          match nd_content n with
          | CFile old => inr (tt, <[loc := new_file (old ++ data) d]> (dk_fs d))
          | CDir => inl EISDIR
          | _ => inl EIO
          end
      end
  end.
Definition fs_appendFile (p : path) (data : bytes) : Io (Errno + unit) :=
  call (append_file p data) (λ n, or_nothing (append_file p (take n data))).

(** ** Directories *)

(** [q] is [p] or lies below it. *)
Definition under (p q : path) : bool := bool_decide (p `prefix_of` q).

(** The entries of a directory, in the order of the disk. *)
Definition children (fs : FileSystem) (loc : path) : list (string * Node) :=
  omap (λ '(q, n), match last q with Some s => if bool_decide (q = loc ++ [s]) then Some (s, n) else None | None => None end)
    (map_to_list fs).

Definition fs_readdir (p : path) : Io (Errno + list (string * Node)) :=
  call (λ d, match found (dk_fs d) true p with
             | inl e => inl e
             | inr (loc, n) => if is_dir_node n then inr (children (dk_fs d) loc, dk_fs d) else inl ENOTDIR
             end) (λ _, dk_fs).

(** The subtree at [from] becomes the one at [to]. *)
Definition move_tree (from to : path) (fs : FileSystem) : FileSystem :=
  list_to_map (omap (λ '(q, n),
    if under from q then Some (to ++ drop (length from) q, n)
    else if under to q then None else Some (q, n)) (map_to_list fs)).

Definition do_rename (from to : path) (d : Disk) : Errno + unit * FileSystem :=
  let fs := dk_fs d in
  match found fs false from, locate fs false to with
  | inl e, _ | _, inl e => inl e
  | inr (lf, n), inr lt =>
      if bool_decide (lf = lt) then inr (tt, fs)
      else if under lf lt then inl EINVAL
      else
        match node_at fs lt with
        | None => inr (tt, move_tree lf lt fs)
        | Some t =>
            match is_dir_node n, is_dir_node t with
            | true, true => match children fs lt with [] => inr (tt, move_tree lf lt fs) | _ => inl ENOTEMPTY end
            | true, false => inl ENOTDIR
            | false, true => inl EISDIR
            | false, false => inr (tt, move_tree lf lt fs)
            end
        end
  end.
Definition fs_rename (from to : path) : Io (Errno + unit) := call (do_rename from to) (λ _, dk_fs).

Definition do_unlink (p : path) (d : Disk) : Errno + unit * FileSystem :=
  match found (dk_fs d) false p with
  | inl e => inl e
  | inr (loc, n) => if is_dir_node n then inl EPERM else inr (tt, delete loc (dk_fs d))
  end.
Definition fs_unlink (p : path) : Io (Errno + unit) := call (do_unlink p) (λ _, dk_fs).

Definition do_rmdir (p : path) (d : Disk) : Errno + unit * FileSystem :=
  match found (dk_fs d) false p with
  | inl e => inl e
  | inr ([], _) => inl EBUSY
  | inr (loc, n) =>
      if is_dir_node n then match children (dk_fs d) loc with [] => inr (tt, delete loc (dk_fs d)) | _ => inl ENOTEMPTY end
      else inl ENOTDIR
  end.
Definition fs_rmdir (p : path) : Io (Errno + unit) := call (do_rmdir p) (λ _, dk_fs).

(** [rm] of a subtree, the deepest entries first; some of them when it fails. *)
Definition deeper (a b : path * Node) : Prop := (length b.1 <= length a.1)%nat.
#[export] Instance deeper_dec : RelDecision deeper.
Proof. intros a b. unfold deeper. apply _. Defined.
Definition subtree (loc : path) (fs : FileSystem) : list path :=
  map fst (merge_sort deeper (List.filter (λ x, under loc x.1) (map_to_list fs))).
Definition delete_all (l : list path) (fs : FileSystem) : FileSystem := fold_left (λ fs q, delete q fs) l fs.
Definition do_rm (n : option nat) (p : path) (d : Disk) : Errno + unit * FileSystem :=
  match found (dk_fs d) false p with
  | inl e => inl e
  | inr ([], _) => inl EBUSY
  | inr (loc, _) =>
      let l := subtree loc (dk_fs d) in
      inr (tt, delete_all (match n with Some n => take n l | None => l end) (dk_fs d))
  end.
Definition fs_rm_recursive (p : path) : Io (Errno + unit) := call (do_rm None p) (λ n, or_nothing (do_rm (Some n) p)).

(** [rm] with [force]: nothing there is no failure. *)
Definition do_rm_force (p : path) (d : Disk) : Errno + unit * FileSystem :=
  match found (dk_fs d) false p with
  | inl ENOENT => inr (tt, dk_fs d)
  | inl e => inl e
  | inr (loc, n) => if is_dir_node n then inl EISDIR else inr (tt, delete loc (dk_fs d))
  end.
Definition fs_rm_force (p : path) : Io (Errno + unit) := call (do_rm_force p) (λ _, dk_fs).

Definition mkdir_one (p : path) (nowNs : Z) (fs : FileSystem) : Errno + FileSystem :=
  match locate fs false p with
  | inl e => inl e
  | inr loc => match node_at fs loc with Some _ => inl EEXIST | None => inr (<[loc := mkNode CDir 0 nowNs]> fs) end
  end.

(** [mkdir] with [recursive]; [fuel]: the names of [p]. *)
Fixpoint mkdirp (fuel : nat) (p : path) (nowNs : Z) (fs : FileSystem) : Errno + FileSystem :=
  match mkdir_one p nowNs fs with
  | inr fs' => inr fs'
  | inl ENOENT =>
      match fuel with
      | O => inl ENOENT
      | S fuel =>
          match mkdirp fuel (removelast p) nowNs fs with
          | inl e => inl e
          | inr fs' => mkdir_one p nowNs fs'
          end
      end
  | inl EEXIST => match found fs true p with inr (_, n) => if is_dir_node n then inr fs else inl EEXIST | inl e => inl e end
  | inl e => inl e
  end.
Definition do_mkdir (p : path) (d : Disk) : Errno + unit * FileSystem :=
  match mkdirp (length p) p (dk_nowNs d) (dk_fs d) with inl e => inl e | inr fs => inr (tt, fs) end.
Definition fs_mkdir (p : path) : Io (Errno + unit) := call (do_mkdir p) (λ n, or_nothing (do_mkdir (take n p))).

(** ** Reading *)

Definition fs_readFile (p : path) : Io (Errno + bytes) :=
  call (λ d, match found (dk_fs d) true p with
             | inl e => inl e
             | inr (_, n) => match nd_content n with CFile data => inr (data, dk_fs d) | CDir => inl EISDIR | _ => inl EIO end
             end) (λ _, dk_fs).

(** [open] for reading: the file stays the one found. *)
Definition fs_open (p : path) : Io (Errno + Node) :=
  call (λ d, match found (dk_fs d) true p with inl e => inl e | inr (_, n) => inr (n, dk_fs d) end) (λ _, dk_fs).

(** [handle.read(buf, ..., length, position)]: the bytes read. *)
Definition handle_read (n : Node) (length position : nat) : Io (Errno + bytes) :=
  fault ← next_fault;
  match fault with
  | Fails e _ => mret (inl e)
  | Works | Short _ =>
      match nd_content n with
      | CFile data =>
          let rest := drop position data in
          mret (inr (take (match fault with Short k => Nat.min k length | _ => length end) rest))
      | CDir => mret (inl EISDIR)
      | _ => mret (inl EIO)
      end
  end.

(** [handle.stat()] *)
Definition handle_stat (n : Node) : Io (Errno + Node) := look_up (λ _, inr n).

(** [handle.close()]: the failure, if any. *)
Definition handle_close : Io (option Errno) := exec (λ d,
  match dk_closes d with [] => (Some None, d) | f :: l => (Some f, set_closes l d) end).
