(* ===== verification/LocalVfs.v ===== *)
(** * The file system of the local machine
    (apps/desktop/src/main/compute/local-vfs.ts)

    What answers the vfs channel when this machine is the user's computer:
    paths are normalised, joined under a root and checked against links that
    lead out of it, then one of ten operations runs.  [dispatch] is one request
    from end to end; [vfs_step] interleaves requests at the lock, as the path of
    a request is resolved before it waits for the lock.  The text a platform
    error adds to a message is left out. *)

From stdpp Require Import relations sorting.
From S2P Require Export NodeFs CloudFetch.
From Stdlib Require Import Ascii.

(** ** Messages (protocol/src/files.ts) *)

Inductive VfsKind := kind_file | kind_dir | kind_other.
Record VfsEntry := mkVfsEntry {
  ve_name : string; ve_path : string; ve_kind : VfsKind; ve_sizeBytes : Z; ve_modifiedAtMs : Z
}.

Inductive VfsResponse :=
| RListing (path : string) (entries : list VfsEntry) (truncated : bool)
| RInfo (entry : VfsEntry)
| RData (path : string) (offset : Z) (dataB64 : string) (eof : bool)
| RWrote (path : string) (sizeBytes : Z)
| RDeleted (path : string)
| RCreated (path : string)
| RRenamed (from to : string)
| RPaths (path : string) (paths : list string) (truncated : bool)
| RError (code message : string).

Definition VFS_MAX_READ_BYTES : Z := 8 * 1024 * 1024.
Definition VFS_MAX_WRITE_BYTES : Z := 8 * 1024 * 1024.
Definition VFS_MAX_LIST_ENTRIES : nat := Z.to_nat 5000.
Definition VFS_MAX_TREE_ENTRIES : Z := 10000.
Definition VFS_MAX_TREE_DEPTH : nat := 12.
Definition VFS_TREE_SKIPPED_DIRS : list string :=
  [".git"; ".hg"; ".svn"; ".suma"; "node_modules"; ".pnpm-store"; ".npm"; ".cache"; ".cargo"; ".rustup"; ".Trash"; "Library"].
Definition VFS_TREE_SKIPPED_FILES : list string := [".DS_Store"].

Definition ioError (context : string) (e : Errno) : VfsResponse :=
  RError (match e with
          | ENOENT => "vfs_not_found"
          | EACCES | EPERM => "vfs_permission_denied"
          | _ => "vfs_io_failed"
          end) context.

Definition joinWirePath (dir name : string) : string :=
  if String.eqb dir "/" then "/" +:+ name else dir +:+ "/" +:+ name.

Definition node_kind (n : Node) : VfsKind :=
  if is_dir_node n then kind_dir else if is_file_node n then kind_file else kind_other.
Definition modifiedAtMs (n : Node) : Z := Z.max 0 (nd_mtimeNs n / 1000000).

(** ** Paths *)

Definition pathExists (p : path) : Io bool :=
  r ← fs_lstat p; mret (match r with inr _ => true | inl _ => false end).
Definition isDirectory (p : path) : Io bool :=
  r ← fs_stat p; mret (match r with inr n => is_dir_node n | inl _ => false end).

(** [real === rootReal || real.startsWith(rootReal + sep)]; under the root of
    the disk the separator is doubled, and nothing starts with it. *)
Definition inside_text (rootReal real : path) : bool :=
  bool_decide (real = rootReal) || (negb (bool_decide (rootReal = [])) && under rootReal real).

(** [path.dirname] *)
Definition dirname (p : path) : path := removelast p.

(** The loop over the parents: at most as many as [target] has names. *)
Fixpoint probe_loop (fuel : nat) (rootReal probe : path) : Io (option string) :=
  exists_ ← pathExists probe;
  if (exists_ : bool) then
    real ← fs_realpath probe;
    mret (match real with
          | inl _ => Some "path passes through a link that cannot be resolved"
          | inr real => if inside_text rootReal real then None else Some "path resolves outside the Files root"
          end)
  else if bool_decide (dirname probe = probe) then mret (Some "path has no resolvable parent")
  else match fuel with
       | O => throw
       | S fuel => probe_loop fuel rootReal (dirname probe)
       end.

Section Vfs.
(** The directory served, and the name of the temporary file of this request. *)
Context (root : path) (temp : string).

Definition checkNoSymlinkEscape (target : path) : Io (option string) :=
  rootReal ← fs_realpath root;
  match rootReal with
  | inl _ => mret None
  | inr rootReal => probe_loop (length target) rootReal target
  end.

(** The names of a normalised path. *)
Definition wire_names (wire : string) : path := List.filter (λ s, negb (String.eqb s "")) (split_char "/" wire).

(** The wire path and the target, or the reason of the refusal. *)
Definition resolve (requested : string) : Io (string + string * path) :=
  match normalizeVfsPath requested with
  | None => mret (inl "path escapes the Files root or contains a NUL")
  | Some normalized =>
      let target := root ++ wire_names normalized in
      escape ← checkNoSymlinkEscape target;
      mret (match escape with Some reason => inl reason | None => inr (normalized, target) end)
  end.

Definition resolveNewFile (destPath : string) : Io (string + string * path) :=
  resolved ← resolve destPath;
  match resolved with
  | inl reason => mret (inl reason)
  | inr (wire, target) =>
      if String.eqb wire "/" then mret (inl "the Files root is a directory, not a destination")
      else
        dir ← isDirectory (dirname target);
        mret (if (dir : bool) then inr (wire, target)
              else inl (wire +:+ ": parent directory does not exist (use vfs.mkdir first)"))
  end.

(** ** Operations *)

Definition entry_of (wire name : string) (n : Node) (meta : Errno + Node) : VfsEntry :=
  mkVfsEntry name (joinWirePath wire name) (node_kind n)
    (match meta with inr m => st_size m | inl _ => 0 end) (match meta with inr m => modifiedAtMs m | inl _ => 0 end).

Definition by_name (a b : VfsEntry) : Prop := str_ltb (ve_name b) (ve_name a) = false.
#[export] Instance by_name_dec : RelDecision by_name.
Proof. intros a b. unfold by_name. apply _. Defined.

Definition vfs_list (wire : string) (target : path) : Io VfsResponse :=
  names ← fs_readdir target;
  match names with
  | inl e => mret (ioError ("listing " +:+ wire) e)
  | inr names =>
      let truncated := (VFS_MAX_LIST_ENTRIES <? length names)%nat in
      entries ← forM (take VFS_MAX_LIST_ENTRIES names) (λ '(name, n),
        meta ← fs_lstat (target ++ [name]); mret (entry_of wire name n meta));
      mret (RListing wire (merge_sort by_name entries) truncated)
  end.

Definition vfs_stat (wire : string) (target : path) : Io VfsResponse :=
  r ← fs_lstat target;
  mret (match r with
        | inl e => ioError ("stat " +:+ wire) e
        | inr n => RInfo (mkVfsEntry (default "/" (last (wire_names wire))) wire (node_kind n) (st_size n) (modifiedAtMs n))
        end).

(** The loop that fills the buffer. *)
Fixpoint read_loop (fuel : nat) (n : Node) (want offset : nat) (got : bytes) : Io (Errno + bytes) :=
  if (want <=? length got)%nat then mret (inr got)
  else match fuel with
       | O => throw
       | S fuel =>
           r ← handle_read n (want - length got) (offset + length got);
           match r with
           | inl e => mret (inl e)
           | inr [] => mret (inr got)
           | inr more => read_loop fuel n want offset (got ++ more)
           end
       end.

(** What the [try] of a read answers, with the file open. *)
Definition read_open (wire : string) (n : Node) (offset length_ : Z) : Io VfsResponse :=
  stat ← handle_stat n;
  match stat with
  | inl e => mret (ioError ("reading " +:+ wire) e)
  | inr n =>
      if is_dir_node n then mret (RError "vfs_is_a_directory" (wire +:+ " is a directory"))
      else
        let size := st_size n in
        if offset >? size then
          mret (RError "invalid_request" ("offset " +:+ toString10 offset +:+ " is past the end of " +:+ wire +:+ " ("
            +:+ toString10 size +:+ " bytes)"))
        else
          let want := Z.to_nat (Z.min length_ (size - offset)) in
          r ← read_loop want n want (Z.to_nat offset) [];
          mret (match r with
                | inl e => ioError ("reading " +:+ wire) e
                | inr data => RData wire offset (toBase64 data) (offset + Z.of_nat (length data) >=? size)
                end)
  end.

(** The file is closed in a [finally]: when that fails the answer is lost and
    the error [inl e] escapes. *)
Definition vfs_read (wire : string) (target : path) (offset length_ : Z) : Io (Errno + VfsResponse) :=
  if (length_ =? 0) || (length_ >? VFS_MAX_READ_BYTES) then
    mret (inr (RError "invalid_request" ("length must be 1..=" +:+ toString10 VFS_MAX_READ_BYTES
      +:+ ": a larger read cannot fit one mux frame once base64-encoded")))
  else
    handle ← fs_open target;
    match handle with
    | inl e => mret (inr (ioError ("reading " +:+ wire) e))
    | inr n =>
        answer ← read_open wire n offset length_;
        closed ← handle_close;
        mret (match closed with Some e => inl e | None => inr answer end)
    end.

(** [(text.length / 4) * 3 > VFS_MAX_WRITE_BYTES] *)
Definition too_long (chars : Z) : bool := 3 * chars >? 4 * VFS_MAX_WRITE_BYTES.

Definition missing_parent (wire : string) : VfsResponse :=
  RError "vfs_not_found" (wire +:+ ": parent directory does not exist (use vfs.mkdir first)").
Definition size_conflict (wire : string) (expected : Z) (more : string) : VfsResponse :=
  RError "vfs_conflict" (wire +:+ " no longer has the expected size " +:+ toString10 expected +:+ more).

(** The temporary file beside the target, renamed over it. *)
Definition write_beside (context wire : string) (target : path) (data : bytes) : Io VfsResponse :=
  let tempPath := dirname target ++ [temp] in
  let failed := λ e, _ ← fs_rm_force tempPath; mret (ioError (context +:+ wire) e) in
  w ← fs_writeFile_wx tempPath data;
  match w with
  | inl e => failed e
  | inr _ =>
      r ← fs_rename tempPath target;
      match r with
      | inl e => failed e
      | inr _ => mret (RWrote wire (Z.of_nat (length data)))
      end
  end.

(** The check of the size a write expects: [Some] refuses. *)
Definition expected_size (wire : string) (target : path) (expectedSizeBytes : option Z) : Io (option VfsResponse) :=
  match expectedSizeBytes with
  | None => mret None
  | Some expected =>
      current ← fs_lstat target;
      mret (match current with
            | inl ENOENT => Some (size_conflict wire expected ": it is missing")
            | inl e => Some (ioError ("checking " +:+ wire +:+ " before writing") e)
            | inr n => if negb (is_file_node n) || negb (st_size n =? expected)
                       then Some (size_conflict wire expected "") else None
            end)
  end.

Definition vfs_write (wire : string) (target : path) (dataB64 : string) (expectedSizeBytes : option Z) : Io VfsResponse :=
  let tooLarge := RError "vfs_too_large" ("a single write is limited to " +:+ toString10 VFS_MAX_WRITE_BYTES +:+ " bytes") in
  if too_long (js_length dataB64) then mret tooLarge
  else
    match fromBase64 dataB64 with
    | None => mret (RError "invalid_request" "dataB64 is not base64: ")
    | Some data =>
        if Z.of_nat (length data) >? VFS_MAX_WRITE_BYTES then mret tooLarge
        else if String.eqb wire "/" then mret (RError "vfs_path_refused" "cannot write to the Files root itself")
        else
          conflict ← expected_size wire target expectedSizeBytes;
          match conflict with
          | Some r => mret r
          | None =>
              dir ← isDirectory (dirname target);
              if negb dir then mret (missing_parent wire) else write_beside "writing " wire target data
          end
    end.

Definition vfs_append (wire : string) (target : path) (dataB64 : string) (expectedSizeBytes : option Z) : Io VfsResponse :=
  let tooLarge := RError "vfs_too_large" ("a single append is limited to " +:+ toString10 VFS_MAX_WRITE_BYTES +:+ " bytes") in
  if too_long (js_length dataB64) then mret tooLarge
  else
    match fromBase64 dataB64 with
    | None => mret (RError "invalid_request" "dataB64 is not base64: ")
    | Some data =>
        if Z.of_nat (length data) >? VFS_MAX_WRITE_BYTES then mret tooLarge
        else
          before ← fs_lstat target;
          match before with
          | inl e => mret (ioError ("appending to " +:+ wire) e)
          | inr n =>
              if is_dir_node n then mret (RError "vfs_is_a_directory" (wire +:+ " is a directory"))
              else if match expectedSizeBytes with Some expected => negb (st_size n =? expected) | None => false end
              then mret (size_conflict wire (default 0 expectedSizeBytes) (" (now " +:+ toString10 (st_size n) +:+ ")"))
              else
                r ← fs_appendFile target data;
                mret (match r with
                      | inl e => ioError ("appending to " +:+ wire) e
                      | inr _ => RWrote wire (st_size n + Z.of_nat (length data))
                      end)
          end
    end.

(** [lstat] and [readFile] under one [try]: the data, or [None] for no file. *)
Definition current_data (target : path) : Io (Errno + option bytes) :=
  metadata ← fs_lstat target;
  match metadata with
  | inl e => mret (inl e)
  | inr n =>
      if negb (is_file_node n) then mret (inr None)
      else r ← fs_readFile target; mret (match r with inl e => inl e | inr data => inr (Some data) end)
  end.

Definition vfs_replace (wire : string) (target : path) (expectedDataB64 dataB64 : string) : Io VfsResponse :=
  let tooLarge := RError "vfs_too_large" ("a single replace is limited to " +:+ toString10 VFS_MAX_WRITE_BYTES
    +:+ " bytes across both payloads") in
  let changed := RError "vfs_conflict" (wire +:+ " no longer contains the expected data") in
  if too_long (js_length expectedDataB64 + js_length dataB64) then mret tooLarge
  else
    match fromBase64 expectedDataB64, fromBase64 dataB64 with
    | Some expected, Some data =>
        if Z.of_nat (length expected) + Z.of_nat (length data) >? VFS_MAX_WRITE_BYTES then mret tooLarge
        else if String.eqb wire "/" then mret (RError "vfs_path_refused" "cannot replace the Files root itself")
        else
          current ← current_data target;
          match current with
          | inl ENOENT => mret changed
          | inl e => mret (ioError ("checking " +:+ wire +:+ " before replacing") e)
          | inr None => mret changed
          | inr (Some current) =>
              if negb (bool_decide (current = expected)) then mret changed
              else write_beside "replacing " wire target data
          end
    | _, _ => mret (RError "invalid_request" "replace payload is not base64: ")
    end.

Definition vfs_delete (wire : string) (target : path) (recursive : bool) : Io VfsResponse :=
  if String.eqb wire "/" then mret (RError "vfs_path_refused" "the Files root cannot be deleted")
  else
    stat ← fs_lstat target;
    match stat with
    | inl e => mret (ioError ("deleting " +:+ wire) e)
    | inr n =>
        r ← (if is_dir_node n then if recursive then fs_rm_recursive target else fs_rmdir target else fs_unlink target);
        mret (match r with
              | inl ENOTEMPTY | inl EEXIST => RError "vfs_not_empty" (wire +:+ " is not empty: delete its entries first")
              | inl e => ioError ("deleting " +:+ wire) e
              | inr _ => RDeleted wire
              end)
    end.

Definition vfs_mkdir (wire : string) (target : path) : Io VfsResponse :=
  r ← fs_mkdir target;
  mret (match r with inl e => ioError ("creating " +:+ wire) e | inr _ => RCreated wire end).

(** What one entry of a directory adds to the walk. *)
Record TreeState := mkTree { tr_stack : list (path * string * nat); tr_paths : list string; tr_truncated : bool; tr_contributed : bool }.

Definition tree_entry (dir : path) (dirRel : string) (depth : nat) (s : TreeState) (dirent : string * Node) : TreeState :=
  let '(name, n) := dirent in
  let '(mkTree stack paths truncated contributed) := s in
  if is_dir_node n then
    if bool_decide (name ∈ VFS_TREE_SKIPPED_DIRS) then s
    else if (VFS_MAX_TREE_DEPTH <? depth + 1)%nat then mkTree stack paths true contributed
    else mkTree ((dir ++ [name], joinWirePath dirRel name, (depth + 1)%nat) :: stack) paths truncated true
  else if is_file_node n then
    if bool_decide (name ∈ VFS_TREE_SKIPPED_FILES) then s
    else mkTree stack (paths ++ [joinWirePath dirRel name]) truncated true
  else s.

Definition tree_full (paths : list string) : bool := Z.of_nat (length paths) >=? VFS_MAX_TREE_ENTRIES.

(** The loop over the entries, cut when the list is full. *)
Fixpoint tree_entries (dir : path) (dirRel : string) (depth : nat) (dirents : list (string * Node)) (s : TreeState) : TreeState :=
  match dirents with
  | [] => s
  | dirent :: dirents =>
      if tree_full (tr_paths s) then mkTree (tr_stack s) (tr_paths s) true (tr_contributed s)
      else tree_entries dir dirRel depth dirents (tree_entry dir dirRel depth s dirent)
  end.

(** The loop over the stack, whose top is the head. *)
Fixpoint tree_loop (fuel : nat) (wire : string) (stack : list (path * string * nat)) (paths : list string) (truncated : bool)
    : Io (list string * bool) :=
  match stack with
  | [] => mret (paths, truncated)
  | (dir, dirRel, depth) :: stack =>
      match fuel with
      | O => throw
      | S fuel =>
          if tree_full paths then mret (paths, true)
          else
            dirents ← fs_readdir dir;
            match dirents with
            | inl _ => tree_loop fuel wire stack paths truncated
            | inr dirents =>
                let s := tree_entries dir dirRel depth dirents (mkTree stack paths truncated false) in
                let paths := if negb (tr_contributed s) && negb (tr_truncated s) && negb (String.eqb dirRel wire)
                             then tr_paths s ++ [dirRel +:+ "/"] else tr_paths s in
                tree_loop fuel wire (tr_stack s) paths (tr_truncated s)
            end
      end
  end.

Definition str_not_after (a b : string) : Prop := str_ltb b a = false.
#[export] Instance str_not_after_dec : RelDecision str_not_after.
Proof. intros a b. unfold str_not_after. apply _. Defined.

Definition vfs_tree (wire : string) (target : path) : Io VfsResponse :=
  stat ← fs_lstat target;
  match stat with
  | inl e => mret (ioError ("walking " +:+ wire) e)
  | inr n =>
      if negb (is_dir_node n) then mret (RError "vfs_io_failed" (wire +:+ " is not a directory"))
      else
        fuel ← gets (λ d, S (size (dk_fs d)));
        '(paths, truncated) ← tree_loop fuel wire [(target, wire, 0%nat)] [] false;
        mret (RPaths wire (merge_sort str_not_after paths) truncated)
  end.

Definition vfs_rename (fromWire : string) (fromTarget : path) (to : string) : Io VfsResponse :=
  resolved ← resolve to;
  match resolved with
  | inl reason => mret (RError "vfs_path_refused" reason)
  | inr (toWire, toTarget) =>
      if String.eqb fromWire "/" then mret (RError "vfs_path_refused" "the Files root cannot be renamed")
      else if String.eqb toWire "/" then mret (RError "vfs_path_refused" "the Files root is a directory, not a destination")
      else
        there ← pathExists fromTarget;
        if negb there then mret (RError "vfs_not_found" (fromWire +:+ ": no such path"))
        else
          taken ← pathExists toTarget;
          if (taken : bool) then mret (RError "vfs_already_exists" (toWire +:+ " already exists: rename must not overwrite"))
          else
            dir ← isDirectory (dirname toTarget);
            if negb dir then mret (missing_parent toWire)
            else
              r ← fs_rename fromTarget toTarget;
              mret (match r with inl e => ioError ("renaming " +:+ fromWire) e | inr _ => RRenamed fromWire toWire end)
  end.

(** ** Dispatch *)

Definition primary (r : VfsRequest) : string :=
  match r with
  | VfsList p | VfsStat p | VfsRead p _ _ | VfsWrite p _ _ | VfsAppend p _ _ | VfsReplace p _ _ | VfsDelete p _
  | VfsMkdir p | VfsTree p => p
  | VfsRename from _ => from
  end.

Definition request_t (r : VfsRequest) : string :=
  match r with
  | VfsList _ => "vfs.list" | VfsStat _ => "vfs.stat" | VfsRead _ _ _ => "vfs.read" | VfsWrite _ _ _ => "vfs.write"
  | VfsAppend _ _ _ => "vfs.append" | VfsReplace _ _ _ => "vfs.replace" | VfsDelete _ _ => "vfs.delete"
  | VfsMkdir _ => "vfs.mkdir" | VfsTree _ => "vfs.tree" | VfsRename _ _ => "vfs.rename"
  end.

(** An operation that lets no error escape. *)
Definition answers (m : Io VfsResponse) : Io (Errno + VfsResponse) := a ← m; mret (inr a).

Definition operate (r : VfsRequest) (wire : string) (target : path) : Io (Errno + VfsResponse) :=
  match r with
  | VfsList _ => answers (vfs_list wire target)
  | VfsStat _ => answers (vfs_stat wire target)
  | VfsRead _ offset length => vfs_read wire target offset length
  | VfsWrite _ data expected => answers (vfs_write wire target data expected)
  | VfsAppend _ data expected => answers (vfs_append wire target data expected)
  | VfsReplace _ expected data => answers (vfs_replace wire target expected data)
  | VfsDelete _ recursive => answers (vfs_delete wire target (bool_decide (recursive = Some true)))
  | VfsMkdir _ => answers (vfs_mkdir wire target)
  | VfsTree _ => answers (vfs_tree wire target)
  | VfsRename _ to => answers (vfs_rename wire target to)
  end.

Definition dispatch (r : VfsRequest) : Io (Errno + VfsResponse) :=
  resolved ← resolve (primary r);
  match resolved with
  | inl reason => mret (inr (RError "vfs_path_refused" reason))
  | inr (wire, target) => operate r wire target
  end.

(** What escapes becomes an I/O failure. *)
Definition settle (r : VfsRequest) (m : Io (Errno + VfsResponse)) : Io VfsResponse :=
  catch (a ← m; mret (match a with inl e => ioError ("vfs " +:+ request_t r) e | inr a => a end))
    (mret (ioError ("vfs " +:+ request_t r) EIO)).
Definition vfs_handle (r : VfsRequest) : Io VfsResponse := settle r (dispatch r).
End Vfs.

(** ** Requests in flight

    The path of a request is resolved when it arrives; a mutation then waits
    for the lock, which one holds at a time, and runs.  What the lookups of a
    resolution see while others mutate is left open: it runs on any disk. *)

Inductive Phase := Arrived | Waiting (wire : string) (target : path) | Answered (response : VfsResponse).
Record Flight := mkFlight { fl_request : VfsRequest; fl_temp : string; fl_phase : Phase }.

Inductive vfs_step (root : path) : FileSystem * list Flight → FileSystem * list Flight → Prop :=
| V_arrives fs l r temp : plain temp → vfs_step root (fs, l) (fs, l ++ [mkFlight r temp Arrived])
| V_resolves fs l i r temp d resolved d' : l !! i = Some (mkFlight r temp Arrived) →
    resolve root (primary r) d = (Some resolved, d') →
    vfs_step root (fs, l)
      (fs, <[i := mkFlight r temp (match resolved with
                                   | inl reason => Answered (RError "vfs_path_refused" reason)
                                   | inr (wire, target) => Waiting wire target
                                   end)]> l)
| V_runs l i r temp wire target d response d' : l !! i = Some (mkFlight r temp (Waiting wire target)) →
    settle r (operate root temp r wire target) d = (Some response, d') →
    vfs_step root (dk_fs d, l) (dk_fs d', <[i := mkFlight r temp (Answered response)]> l).
