(* ===== verification/VfsPaths.v ===== *)
(** * Where paths lead, and what the calls change

    Facts of the file system: lookups against the unbounded resolution, the
    lookups of a moved tree, and for each call the entries it may change; what
    the check of a path accepts. *)

From stdpp Require Import relations sorting.
From S2P Require Export LocalVfs.
From Stdlib Require Import Ascii.

(** Every entry lies in a directory under a name that a directory can hold, and
    the root of the disk is no entry. *)
Record tree_wf (fs : FileSystem) : Prop := {
  tw_root : fs !! ([] : path) = None;
  tw_parent : ∀ p s n, fs !! (p ++ [s]) = Some n → ∃ m, node_at fs p = Some m ∧ is_dir_node m = true;
  tw_plain : ∀ p s n, fs !! (p ++ [s]) = Some n → plain s
}.

Lemma node_at_snoc fs p s : node_at fs (p ++ [s]) = fs !! (p ++ [s]).
Proof. by destruct p. Qed.

Lemma node_at_some fs p n : p ≠ [] → node_at fs p = Some n → fs !! p = Some n.
Proof. by destruct p. Qed.

Lemma found_walk fs follow p loc n : found fs follow p = inr (loc, n) → Walk fs follow [] p loc ∧ node_at fs loc = Some n.
Proof.
  unfold found, locate. destruct (walk _ _ _ _ _) as [e|l] eqn:E; [discriminate|].
  destruct (node_at fs l) as [m|] eqn:Em; [|discriminate]. intros [= <- <-]. split; [by eapply walk_sound|done].
Qed.

Lemma locate_walk fs follow p loc : locate fs follow p = inr loc → Walk fs follow [] p loc.
Proof. unfold locate. apply walk_sound. Qed.

Lemma node_at_init fs p n : tree_wf fs → node_at fs p = Some n → is_Some (node_at fs (removelast p)).
Proof.
  intros Hwf. destruct (decide (p = [])) as [->|Hne]; [by eexists|].
  rewrite (app_removelast_last "" Hne), node_at_snoc. intros Hn. rewrite removelast_last.
  destruct (tw_parent _ Hwf _ _ _ Hn) as (m & -> & _). by eexists.
Qed.

(** What a path leads to when links are followed, it has an entry for. *)
Lemma walk_nofollow hops fs : tree_wf fs → ∀ cur rest loc n, walk hops fs true cur rest = inr loc → node_at fs loc = Some n →
  is_Some (node_at fs cur) → ∃ loc' n', walk hops fs false cur rest = inr loc' ∧ node_at fs loc' = Some n'.
Proof.
  intros Hwf. induction hops as [|hops IH]; intros cur rest; revert cur; induction rest as [|s rest IHr]; intros cur loc n; cbn [walk];
    try (intros [= <-] Hn _; by eexists _, _).
  all: destruct (dot s) eqn:Ed; [by apply IHr|].
  all: destruct (String.eqb_spec s "..") as [->|Hup];
    [intros Hw Hn [m Hm]; eapply IHr; [exact Hw|exact Hn|by eapply node_at_init]|].
  all: destruct (fs !! (cur ++ [s])) as [x|] eqn:Ex;
    [|destruct rest; [intros [= <-]; by rewrite node_at_snoc, Ex|done]].
  all: assert (node_at fs (cur ++ [s]) = Some x) as Hx by by rewrite node_at_snoc.
  all: destruct (nd_content x) as [data| |ab t|] eqn:Ec.
  all: try (intros Hw Hn _; eapply IHr; [exact Hw|exact Hn|by eexists]; fail).
  all: try (destruct rest; [|done]; intros _ _ _; by eexists _, _).
  destruct rest as [|r rest]; [intros _ _ _; by eexists _, _|]. intros Hw Hn Hcur.
  eapply IH; [exact Hw|exact Hn|]. destruct ab; [by eexists|done].
Qed.

Lemma found_nofollow fs p x : tree_wf fs → found fs true p = inr x → ∃ y, found fs false p = inr y.
Proof.
  intros Hwf. unfold found, locate. destruct (walk _ _ true _ _) as [e|l] eqn:E; [discriminate|].
  destruct (node_at fs l) as [n|] eqn:En; [|discriminate]. intros _.
  destruct (walk_nofollow _ _ Hwf _ _ _ _ E En ltac:(by eexists)) as (l' & n' & -> & ->). by eexists.
Qed.

(** ** Moved trees *)

Lemma move_tree_other from to fs q : under from q = false → under to q = false → move_tree from to fs !! q = fs !! q.
Proof.
  intros Hf Ht. unfold move_tree.
  assert (∀ n, (q, n) ∈ omap (λ '(q, n), if under from q then Some (to ++ drop (length from) q, n)
      else if under to q then None else Some (q, n)) (map_to_list fs) → fs !! q = Some n) as Hin.
  { intros n ([q' n'] & Hq%elem_of_map_to_list & E)%list_elem_of_omap.
    destruct (under from q'); [|destruct (under to q'); [discriminate|by injection E as <- <-]].
    injection E as E _. exfalso. rewrite <- E in Ht. unfold under in Ht. apply bool_decide_eq_false in Ht. apply Ht. by apply prefix_app_r. }
  destruct (fs !! q) as [n|] eqn:E.
  - apply elem_of_list_to_map_1'; [intros m Hm; apply Hin in Hm; congruence|].
    apply list_elem_of_omap. exists (q, n). split; [by apply elem_of_map_to_list|]. by rewrite Hf, Ht.
  - apply not_elem_of_list_to_map_1. intros ([q' n] & -> & Hq)%list_elem_of_fmap. apply Hin in Hq. cbn in E. congruence.
Qed.

(** The entry itself, when nothing was below the place it goes to. *)
Lemma move_tree_entry from to fs n : fs !! from = Some n → (∀ q, under from q = true → under to q = false) →
  move_tree from to fs !! to = Some n.
Proof.
  intros Hf Hdis. unfold move_tree. apply elem_of_list_to_map_1'.
  - intros m ([q' n'] & Hq%elem_of_map_to_list & E)%list_elem_of_omap. destruct (under from q') eqn:Eu.
    + injection E as E <-. unfold under in Eu. apply bool_decide_eq_true in Eu as [k ->]. rewrite drop_app_length in E.
      assert (k = []) as -> by (destruct k; [done|]; apply (f_equal length) in E; rewrite length_app in E; cbn in E; lia).
      rewrite app_nil_r in Hq. congruence.
    + destruct (under to q') eqn:Et; [discriminate|]. injection E as -> <-. unfold under in Et. by rewrite bool_decide_true in Et.
  - apply list_elem_of_omap. exists (from, n). split; [by apply elem_of_map_to_list|].
    unfold under. rewrite bool_decide_true by done. by rewrite drop_ge, app_nil_r by done.
Qed.

Lemma under_spec p q : under p q = true ↔ p `prefix_of` q.
Proof. unfold under. apply bool_decide_eq_true. Qed.

Lemma delete_all_other l : ∀ fs q, q ∉ l → delete_all l fs !! q = fs !! q.
Proof.
  unfold delete_all. induction l as [|x l IH]; intros fs q Hq; [done|]. cbn. rewrite not_elem_of_cons in Hq. destruct Hq as [Hx Hl].
  by rewrite IH, lookup_delete_ne.
Qed.

Lemma elem_subtree loc fs q : q ∈ subtree loc fs → under loc q = true.
Proof.
  unfold subtree. intros ([q' n] & -> & Hin)%list_elem_of_fmap. rewrite merge_sort_Permutation in Hin.
  by apply In_filter_iff in Hin as [_ Hu].
Qed.

(** ** What a call changes *)

(** Outside [P] the disk stays as it is. *)
Definition leaves (P : path → Prop) (fs fs' : FileSystem) : Prop := ∀ q, ¬ P q → fs' !! q = fs !! q.

Lemma leaves_refl P fs : leaves P fs fs.
Proof. by intros q _. Qed.
Lemma leaves_trans P a b c : leaves P a b → leaves P b c → leaves P a c.
Proof. intros Hab Hbc q Hq. by rewrite Hbc, Hab. Qed.

(** What the first fault leaves of the call. *)
Lemma call_cases {A} (f : Disk → Errno + A * FileSystem) part d : ∃ l, let d0 := set_faults l d in
  (∃ e, call f part d = (Some (inl e), d0))
  ∨ (∃ e n, call f part d = (Some (inl e), set_fs (part n d0) d0))
  ∨ (∃ a fs, f d0 = inr (a, fs) ∧ call f part d = (Some (inr a), set_fs fs d0)).
Proof.
  assert (∀ l, call f part d = (match f (set_faults l d) with inl e => (Some (inl e), set_faults l d)
      | inr (a, fs) => (Some (inr a), set_fs fs (set_faults l d)) end) →
    let d0 := set_faults l d in (∃ e, call f part d = (Some (inl e), d0))
    ∨ (∃ e n, call f part d = (Some (inl e), set_fs (part n d0) d0))
    ∨ (∃ a fs', f d0 = inr (a, fs') ∧ call f part d = (Some (inr a), set_fs fs' d0))) as Hrun.
  { intros l ->. cbv zeta. destruct (f (set_faults l d)) as [e|[a fs']]; [left; by exists e|right; right; by exists a, fs']. }
  destruct d as [fs now faults looks closes]. destruct faults as [|[|e [n|]|k] faults].
  - exists []. by apply Hrun.
  - exists faults. by apply Hrun.
  - exists faults. right; left. by exists e, n.
  - exists faults. left. by exists e.
  - exists faults. by apply Hrun.
Qed.

(** The footprint of a call is that of its work and of its parts. *)
Lemma call_leaves {A} (f : Disk → Errno + A * FileSystem) part P d :
  (∀ l a fs, f (set_faults l d) = inr (a, fs) → leaves P (dk_fs d) fs) →
  (∀ l n, leaves P (dk_fs d) (part n (set_faults l d))) →
  leaves P (dk_fs d) (dk_fs (call f part d).2).
Proof.
  intros Hf Hp. destruct (call_cases f part d) as (l & [(e & ->)|[(e & n & ->)|(a & fs & E & ->)]]); cbn.
  - apply leaves_refl.
  - apply Hp.
  - by eapply Hf.
Qed.

Lemma or_nothing_leaves {A} (f : Disk → Errno + A * FileSystem) P d :
  (∀ a fs, f d = inr (a, fs) → leaves P (dk_fs d) fs) → leaves P (dk_fs d) (or_nothing f d).
Proof. intros Hf. unfold or_nothing. destruct (f d) as [e|[a fs]] eqn:E; [apply leaves_refl|by eapply Hf]. Qed.

(** ** Parts of a path *)

Lemma Walk_app fs follow cur a mid : Walk fs true cur a mid → ∀ b loc, b ≠ [] → Walk fs follow mid b loc →
  (∃ n, node_at fs mid = Some n ∧ is_dir_node n = true) → Walk fs follow cur (a ++ b) loc.
Proof.
  intros Ha b loc Hb Hw (n0 & Hn0 & Hd0).
  induction Ha as [cur|cur s rest l Hd Hr IH|cur rest l Hr IH|cur s Hd Hu Hn|cur s n rest l Hd Hu Hn Hc Hr IH
    |cur s n ab t Hd Hu Hn Hc Hf|cur s n ab t rest l Hd Hu Hn Hc Hf Hr IH|cur s n Hd Hu Hn Hnd Hnl]; cbn.
  - done.
  - apply W_dot; auto.
  - apply W_up; auto.
  - rewrite node_at_snoc in Hn0. congruence.
  - eapply W_dir; eauto.
  - discriminate.
  - eapply W_link; eauto; [left; by destruct rest|]. rewrite app_assoc. auto.
  - rewrite node_at_snoc in Hn0. congruence.
Qed.

(** Only directories have something behind them. *)
Lemma walk_prefix hops fs follow : tree_wf fs → ∀ cur a b loc, b ≠ [] → walk hops fs follow cur (a ++ b) = inr loc →
  (∃ n, node_at fs cur = Some n ∧ is_dir_node n = true) →
  ∃ mid n, walk hops fs true cur a = inr mid ∧ node_at fs mid = Some n ∧ is_dir_node n = true.
Proof.
  intros Hwf. assert (∀ cur, (∃ n, node_at fs cur = Some n ∧ is_dir_node n = true) →
    ∃ n, node_at fs (removelast cur) = Some n ∧ is_dir_node n = true) as Hup.
  { intros cur (n & Hn & Hd). destruct (decide (cur = [])) as [->|Hne]; [by eexists|].
    rewrite (app_removelast_last "" Hne), node_at_snoc in Hn. destruct (tw_parent _ Hwf _ _ _ Hn) as (m & Hm & Hdm). by exists m. }
  induction hops as [|hops IH]; intros cur a; revert cur; induction a as [|s a IHa]; intros cur b loc Hb Hw Hcur.
  all: try (destruct Hcur as (n & ? & ?); exists cur, n; by rewrite <- ?app_nil_l).
  all: rewrite <- app_comm_cons in Hw; cbn [walk] in *.
  all: destruct (dot s) eqn:Ed; [by eapply IHa|].
  all: destruct (String.eqb_spec s "..") as [->|]; [eapply IHa; eauto|].
  all: destruct (fs !! (cur ++ [s])) as [x|] eqn:Ex; [|by destruct a, b].
  all: assert (a ++ b ≠ []) as Hab by (by destruct a).
  all: destruct (nd_content x) as [data| |ab t|] eqn:Ec; try (by destruct a, b).
  all: try (eapply IHa; [exact Hb|exact Hw|]; exists x; rewrite node_at_snoc; split; [done|]; unfold is_dir_node; by rewrite Ec).
  destruct (a ++ b) as [|y l] eqn:El; [done|]. rewrite <- El, app_assoc in Hw.
  destruct (IH _ (t ++ a) b loc Hb Hw) as (mid & m & H1 & H2 & H3); [destruct ab; [by eexists|done]|].
  exists mid, m. split; [|done]. destruct a; done.
Qed.

Lemma found_locate fs follow p loc n : found fs follow p = inr (loc, n) ↔ locate fs follow p = inr loc ∧ node_at fs loc = Some n.
Proof.
  unfold found. destruct (locate fs follow p) as [e|l]; [naive_solver|]. destruct (node_at fs l) eqn:E; [|naive_solver].
  split; [intros [= <- <-]|intros [[= <-] ?]]; [done|congruence].
Qed.

Lemma locate_prefix fs follow a b loc : tree_wf fs → b ≠ [] → locate fs follow (a ++ b) = inr loc →
  ∃ mid n, found fs true a = inr (mid, n) ∧ is_dir_node n = true.
Proof.
  unfold locate at 1. intros Hwf Hb E. destruct (walk_prefix MAXSYMLINKS fs follow Hwf [] a b loc Hb E) as (mid & n & Hw & Hn & Hd); [by exists disk_root|].
  exists mid, n. split; [|exact Hd]. apply found_locate. split; [unfold locate; exact Hw|exact Hn].
Qed.

Lemma found_prefix fs follow a b x : tree_wf fs → b ≠ [] → found fs follow (a ++ b) = inr x →
  ∃ mid n, found fs true a = inr (mid, n) ∧ is_dir_node n = true.
Proof. intros Hwf Hb. destruct x as [loc n]. rewrite found_locate. intros [Hl _]. by eapply locate_prefix. Qed.

(** * Requests stay within the root

    For each call the entries it may change, for each operation the directory
    it works in, and together: a request changes nothing outside the root, on
    a disk where no path below the root walks out of it and back in. *)

(** ** Entries of a directory *)

Lemma locate_entry fs a s mid loc : plain s → Walk fs true [] a mid → locate fs false (a ++ [s]) = inr loc → loc = mid ++ [s].
Proof.
  intros Hs Ha Hl%walk_sound. destruct (Walk_entry _ _ _ _ _ Hs Hl) as (mid' & Ha' & ->).
  by rewrite (Walk_det _ _ _ _ _ _ Ha Ha').
Qed.

Lemma found_entry fs a s mid loc n : plain s → Walk fs true [] a mid → found fs false (a ++ [s]) = inr (loc, n) →
  loc = mid ++ [s] ∧ fs !! (mid ++ [s]) = Some n.
Proof.
  intros Hs Ha. unfold found. destruct (locate fs false (a ++ [s])) as [e|l] eqn:E; [discriminate|].
  apply (locate_entry _ _ _ mid) in E as ->; [|done|done]. rewrite node_at_snoc.
  destruct (fs !! (mid ++ [s])) as [m|] eqn:Em; [|discriminate]. by intros [= <- <-].
Qed.

Lemma create_file_spec a s mid data d u fs : plain s → Walk (dk_fs d) true [] a mid →
  create_file (a ++ [s]) data d = inr (u, fs) →
  dk_fs d !! (mid ++ [s]) = None ∧ fs = <[mid ++ [s] := new_file data d]> (dk_fs d).
Proof.
  intros Hs Ha. unfold create_file. destruct (locate _ _ _) as [e|l] eqn:E; [discriminate|].
  apply (locate_entry _ _ _ mid) in E as ->; [|done|done]. rewrite node_at_snoc.
  destruct (dk_fs d !! (mid ++ [s])) eqn:Em; [discriminate|]. by intros [= <- <-].
Qed.

Lemma do_rename_spec p q d u fs : do_rename p q d = inr (u, fs) →
  ∃ lf lt n, found (dk_fs d) false p = inr (lf, n) ∧ locate (dk_fs d) false q = inr lt
    ∧ (lf = lt ∧ fs = dk_fs d
       ∨ lf ≠ lt ∧ under lf lt = false ∧ fs = move_tree lf lt (dk_fs d)
         ∧ (∀ t, node_at (dk_fs d) lt = Some t → is_dir_node t = true → is_dir_node n = true)).
Proof.
  unfold do_rename. destruct (found _ _ _) as [e|[lf n]]; [discriminate|]. destruct (locate _ _ _) as [e|lt]; [discriminate|].
  intros H. exists lf, lt, n. do 2 (split; [done|]). case_bool_decide as E; [left; by injection H as <- <-|right].
  split; [done|]. destruct (under lf lt) eqn:Eu; [discriminate|]. split; [done|].
  destruct (node_at _ lt) as [t|] eqn:Et; [|by injection H as <- <-].
  destruct (is_dir_node n) eqn:En, (is_dir_node t) eqn:Ed; try discriminate.
  - destruct (children _ _); [|discriminate]. by injection H as <- <-.
  - injection H as <- <-. split; [done|]. intros t' [= ->]. congruence.
Qed.

Section Calls.
Context (a : path) (s : string) (mid : path) (d : Disk) (Hs : plain s) (Ha : Walk (dk_fs d) true [] a mid).

Lemma write_leaves data : leaves (λ q, q = mid ++ [s]) (dk_fs d) (dk_fs (fs_writeFile_wx (a ++ [s]) data d).2).
Proof using Hs Ha.
  assert (∀ l data u fs, create_file (a ++ [s]) data (set_faults l d) = inr (u, fs) →
    leaves (λ q, q = mid ++ [s]) (dk_fs d) fs) as Hc.
  { intros l dat u fs E. apply (create_file_spec a s mid) in E as [_ ->]; [|done|done].
    intros q Hq. by rewrite lookup_insert_ne. }
  apply call_leaves; [intros l u fs; apply Hc|]. intros l n.
  apply (or_nothing_leaves _ _ (set_faults l d)). intros u fs. apply Hc.
Qed.

Lemma force_leaves : leaves (λ q, q = mid ++ [s]) (dk_fs d) (dk_fs (fs_rm_force (a ++ [s]) d).2).
Proof using Hs Ha.
  apply call_leaves; [|intros; apply leaves_refl]. intros l u fs. unfold do_rm_force. cbn [dk_fs].
  destruct (found _ _ _) as [[]|[loc n]] eqn:E; try discriminate; [intros [= _ <-]; apply leaves_refl|].
  apply (found_entry _ _ _ mid) in E as [-> _]; [|done|done]. destruct (is_dir_node n); [discriminate|].
  intros [= _ <-] q Hq. by rewrite lookup_delete_ne.
Qed.

Lemma remove_leaves (n : Node) (recursive : bool) :
  leaves (λ q, under (mid ++ [s]) q = true) (dk_fs d)
    (dk_fs ((if is_dir_node n then if recursive then fs_rm_recursive (a ++ [s]) else fs_rmdir (a ++ [s]) else fs_unlink (a ++ [s])) d).2).
Proof using Hs Ha.
  assert (∀ fs, leaves (λ q, under (mid ++ [s]) q = true) fs (delete (mid ++ [s]) fs)) as Hdel.
  { intros fs q Hq. rewrite lookup_delete_ne; [done|]. intros <-. apply Hq. by apply under_spec. }
  assert (∀ m l u fs, do_rm m (a ++ [s]) (set_faults l d) = inr (u, fs) →
    leaves (λ q, under (mid ++ [s]) q = true) (dk_fs d) fs) as Hrm.
  { intros m l u fs. unfold do_rm. cbn [dk_fs]. destruct (found _ _ _) as [e|[loc x]] eqn:E; [discriminate|].
    apply (found_entry _ _ _ mid) in E as [-> _]; [|done|done]. destruct (mid ++ [s]) eqn:El; [discriminate|]. rewrite <- El in *.
    intros [= _ <-] q Hq. apply delete_all_other. intros Hin. apply Hq, (elem_subtree _ (dk_fs d)).
    destruct m; [by eapply elem_of_take_in|done]. }
  destruct (is_dir_node n); [destruct recursive|].
  - apply call_leaves; [apply Hrm|]. intros l k. apply (or_nothing_leaves _ _ (set_faults l d)).
    intros u fs. apply Hrm.
  - apply call_leaves; [|intros; apply leaves_refl]. intros l u fs. unfold do_rmdir. cbn [dk_fs].
    destruct (found _ _ _) as [e|[loc x]] eqn:E; [discriminate|]. apply (found_entry _ _ _ mid) in E as [-> _]; [|done|done].
    destruct (mid ++ [s]) eqn:El; [discriminate|]. rewrite <- El in *. destruct (is_dir_node x); [|discriminate].
    destruct (children _ _); [|discriminate]. intros [= _ <-]. apply Hdel.
  - apply call_leaves; [|intros; apply leaves_refl]. intros l u fs. unfold do_unlink. cbn [dk_fs].
    destruct (found _ _ _) as [e|[loc x]] eqn:E; [discriminate|]. apply (found_entry _ _ _ mid) in E as [-> _]; [|done|done].
    destruct (is_dir_node x); [discriminate|]. intros [= _ <-]. apply Hdel.
Qed.

Lemma rename_leaves b t mid' : plain t → Walk (dk_fs d) true [] b mid' →
  leaves (λ q, under (mid ++ [s]) q = true ∨ under (mid' ++ [t]) q = true) (dk_fs d) (dk_fs (fs_rename (a ++ [s]) (b ++ [t]) d).2).
Proof using Hs Ha.
  intros Ht Hb. apply call_leaves; [|intros; apply leaves_refl]. intros l u fs E.
  apply do_rename_spec in E as (lf & lt & n & Hf & Hl & Hfs). cbn [dk_fs] in *.
  apply (found_entry _ _ _ mid) in Hf as [-> _]; [|done|done]. apply (locate_entry _ _ _ mid') in Hl as ->; [|done|done].
  destruct Hfs as [[_ ->]|(_ & _ & -> & _)]; [apply leaves_refl|]. intros q Hq.
  apply move_tree_other; apply not_true_iff_false; tauto.
Qed.
End Calls.

(** ** A write beside the target *)

Section Beside.
Context (a : path) (s temp : string) (mid : path) (Hs : plain s) (Htemp : plain temp).

Definition beside (q : path) : Prop := under (mid ++ [temp]) q = true ∨ under (mid ++ [s]) q = true.

Lemma call_none {A} (f : Disk → Errno + A * FileSystem) part d : ∃ r d', call f part d = (Some r, d').
Proof. destruct (call_cases f part d) as (l & [(e & ->)|[(e & n & ->)|(x & fs & _ & ->)]]); by eexists _, _. Qed.

(** A rename that fails changes nothing. *)
Lemma rename_failed p q d e d' : fs_rename p q d = (Some (inl e), d') → dk_fs d' = dk_fs d.
Proof.
  unfold fs_rename. destruct (call_cases (do_rename p q) (λ _, dk_fs) d) as (l & [(e' & ->)|[(e' & n & ->)|(x & fs & _ & ->)]]);
    intros [=]; by subst.
Qed.

(** A file is created, in whole or in part, or not at all. *)
Lemma write_result d data r d' : Walk (dk_fs d) true [] a mid → fs_writeFile_wx (a ++ [temp]) data d = (Some r, d') →
  dk_nowNs d' = dk_nowNs d
  ∧ (dk_fs d' = dk_fs d ∧ (∃ e, r = inl e)
     ∨ dk_fs d !! (mid ++ [temp]) = None ∧ ∃ n, dk_fs d' = <[mid ++ [temp] := n]> (dk_fs d) ∧ (r = inr tt → n = new_file data d)
       ∧ is_dir_node n = false).
Proof using Htemp.
  intros Ha. unfold fs_writeFile_wx.
  destruct (call_cases (create_file (a ++ [temp]) data) (λ n, or_nothing (create_file (a ++ [temp]) (take n data))) d)
    as (l & [(e & ->)|[(e & n & ->)|(x & fs & E & ->)]]); intros [= <- <-]; (split; [done|]).
  - left. by split; [|eexists].
  - cbn [set_fs dk_fs]. unfold or_nothing. destruct (create_file _ _ _) as [e'|[u fs]] eqn:E; [left; by split; [|eexists]|].
    apply (create_file_spec a temp mid) in E as [Hn ->]; [|done|done]. right. split; [done|]. by eexists.
  - apply (create_file_spec a temp mid) in E as [Hn ->]; [|done|done]. right. split; [done|]. by eexists.
Qed.

Lemma beside_walk fs n : Walk fs true [] a mid → fs !! (mid ++ [temp]) = None → Walk (<[mid ++ [temp] := n]> fs) true [] a mid.
Proof.
  intros Ha Hn. apply Walk_insert; [done|done|]. intros E. apply (f_equal length) in E. rewrite length_app in E. cbn in E. lia.
Qed.

Lemma run_bind {A B} (m : Io A) (k : A → Io B) d r d' : m d = (Some r, d') → (m ≫= k) d = k r d'.
Proof. intros E. unfold mbind, exn_bind. by rewrite E. Qed.

(** What a write beside the target may do: fail with the target as it was, or
    succeed by a rename over it. *)
Lemma write_beside_run context wire data d : Walk (dk_fs d) true [] a mid →
  let res := write_beside temp context wire (a ++ [s]) data d in
  (∃ e, res.1 = Some (ioError (context +:+ wire) e) ∧ leaves (λ q, q = mid ++ [temp]) (dk_fs d) (dk_fs res.2))
  ∨ (res.1 = Some (RWrote wire (Z.of_nat (length data)))
     ∧ ∃ d1 d2, dk_fs d !! (mid ++ [temp]) = None ∧ dk_fs d1 = <[mid ++ [temp] := new_file data d]> (dk_fs d)
       ∧ fs_rename (a ++ [temp]) (a ++ [s]) d1 = (Some (inr tt), d2) ∧ res.2 = d2).
Proof using Hs Htemp.
  intros Ha. unfold write_beside, dirname. rewrite removelast_last. cbv zeta.
  assert (∀ d1 e, Walk (dk_fs d1) true [] a mid → leaves (λ q, q = mid ++ [temp]) (dk_fs d) (dk_fs d1) →
    let res := (fs_rm_force (a ++ [temp]) ≫= λ _, mret (ioError (context +:+ wire) e)) d1 in
    ∃ e, res.1 = Some (ioError (context +:+ wire) e) ∧ leaves (λ q, q = mid ++ [temp]) (dk_fs d) (dk_fs res.2)) as Hfail.
  { intros d1 e Hw Hl. exists e. pose proof (force_leaves a temp mid d1 Htemp Hw) as Hforce.
    destruct (call_none (do_rm_force (a ++ [temp])) (λ _, dk_fs) d1) as (r & d2 & E). cbv zeta. unfold fs_rm_force in *.
    rewrite (run_bind _ _ _ _ _ E). rewrite E in Hforce. split; [done|]. by eapply leaves_trans. }
  destruct (call_none (create_file (a ++ [temp]) data) (λ n, or_nothing (create_file (a ++ [temp]) (take n data))) d) as (r & d1 & E).
  rewrite (run_bind _ _ _ _ _ E). destruct (write_result _ _ _ _ Ha E) as [Hnow Hres].
  assert (Walk (dk_fs d1) true [] a mid ∧ leaves (λ q, q = mid ++ [temp]) (dk_fs d) (dk_fs d1)) as [Hw1 Hl1].
  { destruct Hres as [[-> _]|(Hn & n & -> & _)]; [split; [done|apply leaves_refl]|].
    split; [by apply beside_walk|]. intros q Hq. by rewrite lookup_insert_ne. }
  destruct r as [e|[]]; [left; by apply Hfail|].
  destruct Hres as [[_ [e He]]|(Hn & n & Hfs & Hnew & _)]; [done|].
  destruct (call_none (do_rename (a ++ [temp]) (a ++ [s])) (λ _, dk_fs) d1) as (r & d2 & E2). unfold fs_rename. rewrite (run_bind _ _ _ _ _ E2).
  destruct r as [e|[]]; [left|right].
  - apply rename_failed in E2. apply Hfail; by rewrite E2.
  - split; [done|]. exists d1, d2. split; [done|]. split; [by rewrite Hfs, Hnew|]. by split.
Qed.

Lemma write_beside_leaves context wire data d : Walk (dk_fs d) true [] a mid →
  leaves beside (dk_fs d) (dk_fs (write_beside temp context wire (a ++ [s]) data d).2).
Proof using Hs Htemp.
  intros Ha. assert (∀ fs fs', leaves (λ q, q = mid ++ [temp]) fs fs' → leaves beside fs fs') as Hsub.
  { intros fs fs' Hl q Hq. apply Hl. intros ->. apply Hq. left. by apply under_spec. }
  destruct (write_beside_run context wire data d Ha) as [(e & _ & Hl)|(_ & d1 & d2 & Hn & Hfs & Hr & ->)]; [by apply Hsub|].
  eapply leaves_trans; [apply Hsub|]. { intros q Hq. transitivity (dk_fs d1 !! q); [reflexivity|]. rewrite Hfs. by rewrite lookup_insert_ne. }
  assert (Walk (dk_fs d1) true [] a mid) as Hw by (rewrite Hfs; by apply beside_walk).
  pose proof (rename_leaves a temp mid d1 Htemp Hw a s mid Hs Hw) as Hl. by rewrite Hr in Hl.
Qed.
End Beside.

(** ** What the check of a path accepts *)

Definition below (R q : path) : Prop := ∃ x k, q = R ++ x :: k.

Lemma below_entry R mid s q : R `prefix_of` mid → under (mid ++ [s]) q = true → below R q.
Proof.
  intros [k ->] [k' ->]%under_spec. destruct k as [|x k].
  - exists s, k'. by rewrite app_nil_r, <- app_assoc.
  - exists x, (k ++ [s] ++ k'). by rewrite <- !app_assoc.
Qed.

Lemma inside_prefix R real : inside_text R real = true → R `prefix_of` real.
Proof.
  unfold inside_text. intros [H|[_ H]%andb_true_iff]%orb_true_iff; [apply bool_decide_eq_true in H as ->; done|by apply under_spec].
Qed.

(** The deepest part of the path that is there leads into the root. *)
Definition accepted (fs : FileSystem) (root R : path) (names : path) : Prop :=
  ∃ k loc n, (k <= length names)%nat ∧ found fs true (root ++ take k names) = inr (loc, n) ∧ R `prefix_of` loc
    ∧ ∀ j, (k < j <= length names)%nat → ∃ e, found fs false (root ++ take j names) = inl e.

Lemma dirname_take root names j : (j < length names)%nat → dirname (root ++ take (S j) names) = root ++ take j names.
Proof.
  intros Hj. destruct (lookup_lt_is_Some_2 names j Hj) as [x Hx]. unfold dirname.
  rewrite (take_S_r _ _ _ Hx), app_assoc. apply removelast_last.
Qed.

(** A lookup that does not fail. *)
Lemma look_up_sees {A} (f : FileSystem → Errno + A) d : dk_lookups d = [] → look_up f d = (Some (f (dk_fs d)), d).
Proof. intros H. unfold look_up, next_lookup, exec, mbind, exn_bind. by rewrite H. Qed.

Lemma probe_accepts fuel root R names d x0 : dk_lookups d = [] → tree_wf (dk_fs d) → found (dk_fs d) true root = inr x0 → ∀ j,
  (j <= length names)%nat →
  (∀ i, (j < i <= length names)%nat → ∃ e, found (dk_fs d) false (root ++ take i names) = inl e) →
  ∀ d', probe_loop fuel R (root ++ take j names) d = (Some None, d') → d' = d ∧ accepted (dk_fs d) root R names.
Proof.
  intros Hsee Hwf Hroot. induction fuel as [|fuel IH]; intros j Hj Hpast d'; cbn [probe_loop]; unfold pathExists, fs_lstat, fs_realpath;
    unfold mbind, exn_bind, mret, exn_ret, throw; rewrite ?(look_up_sees _ d Hsee).
  all: destruct (found (dk_fs d) false (root ++ take j names)) as [e|y] eqn:Ef; rewrite ?(look_up_sees _ d Hsee).
  all: try (destruct (found (dk_fs d) true (root ++ take j names)) as [e'|[loc n]] eqn:Et; [discriminate|]; cbn [snd fst];
    destruct (inside_text R loc) eqn:Ei; [|discriminate]; intros [= <-]; split; [done|];
    exists j, loc, n; split; [done|]; split; [done|]; split; [by apply inside_prefix|done]).
  all: case_bool_decide as Ed; [discriminate|].
  - discriminate.
  - destruct j as [|j].
    { rewrite take_0, app_nil_r in Ef. destruct (found_nofollow _ _ _ Hwf Hroot) as [y Hy]. congruence. }
    rewrite dirname_take by lia. apply IH; [lia|]. intros i Hi. destruct (decide (i = S j)) as [->|]; [by eexists|]. apply Hpast. lia.
Qed.

Lemma wire_names_parts parts : Forall (λ p, is_name p = true ∧ no_char "/" p ∧ no_char "000" p) parts →
  wire_names ("/" +:+ str_join "/" parts) = parts ∧ ("/" +:+ str_join "/" parts = "/" → parts = []) ∧ Forall plain parts.
Proof.
  intros Hp. assert (∀ p, p ∈ parts → is_name p = true ∧ no_char "/" p) as Hin.
  { intros p Hx. rewrite Forall_forall in Hp. by destruct (Hp p Hx) as (? & ? & _). }
  assert (∀ p, p ∈ parts → p ≠ "" ∧ plain p) as Hplain.
  { intros p Hx. destruct (Hin p Hx) as [Hn _]. unfold is_name in Hn. unfold plain, dot. bprop.
    repeat match goal with E : String.eqb _ _ = false |- _ => apply String.eqb_neq in E end.
    split; [done|]. split; [|done]. by apply orb_false_iff; split; apply String.eqb_neq. }
  split_and!.
  - unfold wire_names. change ("/" +:+ str_join "/" parts) with ("" +:+ String "/" (str_join "/" parts)).
    rewrite split_char_app by constructor. cbn [List.filter String.eqb negb].
    destruct parts as [|p ps]; [done|]. rewrite split_join; [|done|apply Forall_forall; intros q Hq; by apply Hin].
    apply filter_all. intros q Hq. apply negb_true_iff, String.eqb_neq. by apply Hplain.
  - intros E. destruct parts as [|p ps]; [done|]. exfalso. destruct (Hplain p) as [Hne _]; [left|].
    injection E as E. destruct ps; cbn in E; [done|]. by destruct p.
  - apply Forall_forall. intros p Hx. by apply Hplain.
Qed.

Lemma resolve_accepts root R n0 req d wire target d' : dk_lookups d = [] → tree_wf (dk_fs d) → found (dk_fs d) true root = inr (R, n0) →
  resolve root req d = (Some (inr (wire, target)), d') →
  d' = d ∧ ∃ names, target = root ++ names ∧ Forall plain names ∧ (wire ≠ "/" → names ≠ []) ∧ accepted (dk_fs d) root R names.
Proof.
  intros Hsee Hwf Hroot. unfold resolve. destruct (normalizeVfsPath req) as [q|] eqn:Eq; [|discriminate].
  pose proof (normalizeVfsPath_confined req) as Hc. rewrite Eq in Hc. destruct Hc as ((parts & -> & Hparts & _) & _).
  destruct (wire_names_parts parts Hparts) as (-> & Hslash & Hplain). unfold checkNoSymlinkEscape, fs_realpath.
  unfold mbind at 1 2, exn_bind. rewrite (look_up_sees _ d Hsee), Hroot. cbn [fst].
  destruct (probe_loop _ _ _ _) as [[[reason|]|] d1] eqn:Ep; try discriminate. intros [= <- <- <-].
  rewrite <- (firstn_all parts) in Ep at 2. eapply probe_accepts in Ep as [-> Hacc]; [|done|done|done|done|intros; lia].
  split; [done|]. exists parts. split; [done|]. split; [done|]. split; [|done]. intros Hw ->. by apply Hw.
Qed.

(** ** mkdir with its parents *)

Lemma mkdir_one_spec p now fs fs' : mkdir_one p now fs = inr fs' →
  ∃ loc, locate fs false p = inr loc ∧ node_at fs loc = None ∧ fs' = <[loc := mkNode CDir 0 now]> fs.
Proof.
  unfold mkdir_one. destruct (locate fs false p) as [e|loc]; [discriminate|]. destruct (node_at fs loc) eqn:E; [discriminate|].
  intros [= <-]. by exists loc.
Qed.

Lemma mkdirp_cases fuel p now fs fs' : mkdirp fuel p now fs = inr fs' →
  mkdir_one p now fs = inr fs'
  ∨ (∃ loc n, found fs true p = inr (loc, n) ∧ is_dir_node n = true ∧ fs' = fs)
  ∨ (∃ fuel' fs1, fuel = S fuel' ∧ mkdirp fuel' (removelast p) now fs = inr fs1 ∧ mkdir_one p now fs1 = inr fs').
Proof.
  destruct fuel as [|fuel]; cbn [mkdirp]; destruct (mkdir_one p now fs) as [e|fs1]; try (intros [= ->]; by left).
  all: destruct e; try discriminate.
  all: try (destruct (found fs true p) as [e|[loc n]]; [discriminate|]; destruct (is_dir_node n) eqn:Ed; [|discriminate]; intros [= <-];
    right; left; by exists loc, n).
  destruct (mkdirp fuel (removelast p) now fs) as [e|fs1] eqn:E; [discriminate|]. intros H. right; right. by exists fuel, fs1.
Qed.

(** What is there already is not made. *)
Lemma mkdirp_there fuel p now fs x fs' : tree_wf fs → found fs true p = inr x → mkdirp fuel p now fs = inr fs' →
  fs' = fs ∧ is_dir_node x.2 = true.
Proof.
  intros Hwf Hx. destruct (found_nofollow _ _ _ Hwf Hx) as [[l m] Hy]. apply found_locate in Hy as [Hl Hm].
  assert (mkdir_one p now fs = inl EEXIST) as E by by unfold mkdir_one; rewrite Hl, Hm.
  destruct fuel; cbn [mkdirp]; rewrite E, Hx; destruct x as [loc n]; cbn [snd]; destruct (is_dir_node n) eqn:Ed; try discriminate; by intros [= <-].
Qed.

Section Made.
Context (R base loc0 : path) (n0 : Node) (now : Z) (fs : FileSystem).
Context (Hwf : tree_wf fs) (Hbase : found fs true base = inr (loc0, n0)) (HR : R `prefix_of` loc0).

(** One directory more. *)
Lemma make_entry p s mid fs1 fs2 : plain s → Walk fs1 true [] p mid → R `prefix_of` mid →
  (∃ n, node_at fs1 mid = Some n ∧ is_dir_node n = true) → mkdir_one (p ++ [s]) now fs1 = inr fs2 →
  leaves (below R) fs1 fs2 ∧ ∃ mid', Walk fs2 true [] (p ++ [s]) mid' ∧ R `prefix_of` mid'
    ∧ ∃ n, node_at fs2 mid' = Some n ∧ is_dir_node n = true.
Proof using.
  intros Hs Hw Hin (n & Hn & Hd) (loc & Hl & Hnone & ->)%mkdir_one_spec.
  apply (locate_entry _ _ _ mid) in Hl as ->; [|done|done]. rewrite node_at_snoc in Hnone.
  assert (mid ≠ mid ++ [s]) as Hne by (intros E; apply (f_equal length) in E; rewrite length_app in E; cbn in E; lia).
  split; [|exists (mid ++ [s]); split_and!].
  - intros q Hq. rewrite lookup_insert_ne; [done|]. intros <-. apply Hq. apply (below_entry R mid s); [done|by apply under_spec].
  - eapply Walk_app; [apply Walk_insert; [done|exact Hw|done]|done| |].
    + eapply W_dir; [apply Hs|apply Hs|by rewrite lookup_insert_eq|done|constructor].
    + exists n. split; [|done]. destruct mid as [|y mid]; [done|]. cbn in *. by rewrite lookup_insert_ne.
  - by apply prefix_app_r.
  - eexists. by rewrite node_at_snoc, lookup_insert_eq.
Qed.

Lemma mkdirp_made fuel : ∀ rest fs', Forall plain rest →
  (∀ j, (0 < j <= length rest)%nat → ∃ e, found fs false (base ++ take j rest) = inl e) →
  mkdirp fuel (base ++ rest) now fs = inr fs' →
  leaves (below R) fs fs' ∧ ∃ mid, Walk fs' true [] (base ++ rest) mid ∧ R `prefix_of` mid
    ∧ ∃ n, node_at fs' mid = Some n ∧ is_dir_node n = true.
Proof using Hwf Hbase HR.
  pose proof (proj1 (found_walk _ _ _ _ _ Hbase)) as Hw0. pose proof (proj2 (found_walk _ _ _ _ _ Hbase)) as Hn0.
  induction fuel as [fuel IH] using lt_wf_ind; intros rest fs' Hplain Hmiss H. destruct rest as [|s rest _] using rev_ind.
  { rewrite app_nil_r in *. destruct (mkdirp_there _ _ _ _ _ _ Hwf Hbase H) as [-> Hd]. split; [apply leaves_refl|]. eauto 10. }
  apply Forall_app in Hplain as [Hplain Hs]. apply Forall_cons in Hs as [Hs _].
  assert (∀ y, found fs true (base ++ rest) = inr y → rest = []) as Hempty.
  { intros y Hy. destruct rest as [|r rest]; [done|]. exfalso. destruct (found_nofollow _ _ _ Hwf Hy) as [z Hz].
    destruct (Hmiss (length (r :: rest))) as [e He]; [rewrite length_app; cbn; lia|]. rewrite take_app_length in He. congruence. }
  rewrite app_assoc in H |- *. destruct (mkdirp_cases _ _ _ _ _ H) as [E|[(loc & n & E & _)|(fuel' & fs1 & -> & Em & E)]].
  - pose proof (mkdir_one_spec _ _ _ _ E) as (loc & Hl & _). destruct (locate_prefix fs _ (base ++ rest) [s] _ Hwf ltac:(done) Hl) as (mid & n & Hm & Hd).
    pose proof (Hempty _ Hm) as ->. rewrite app_nil_r in *. rewrite Hbase in Hm. injection Hm as <- <-. eapply make_entry; eauto.
  - exfalso. destruct (found_nofollow _ _ _ Hwf E) as [z Hz]. destruct (Hmiss (length (rest ++ [s]))) as [e He]; [rewrite length_app; cbn; lia|].
    rewrite firstn_all, app_assoc in He. congruence.
  - rewrite removelast_last in Em. destruct (IH fuel' ltac:(lia) rest fs1 Hplain) as [Hl (mid & Hw & Hin & Hd)]; [|done|].
    { intros j Hj. destruct (Hmiss j) as [e He]; [rewrite length_app; lia|]. rewrite take_app_le in He by lia. by exists e. }
    destruct (make_entry _ _ _ _ _ Hs Hw Hin Hd E) as [Hl2 H2]. split; [by eapply leaves_trans|done].
Qed.
End Made.

(** Nor is anything made outside the root on the way to an accepted path. *)
Lemma mkdirp_inside fs root R names fuel p now fs' : tree_wf fs → accepted fs root R names → Forall plain names →
  p `prefix_of` root ++ names → mkdirp fuel p now fs = inr fs' → leaves (below R) fs fs'.
Proof.
  intros Hwf (k & loc & n & Hk & Hf & HR & Hpast) Hplain Hp Hmk.
  assert (root ++ take k names `prefix_of` root ++ names) as Hpre by (apply prefix_app; exists (drop k names); by rewrite take_drop).
  destruct (prefix_weak_total _ _ _ Hp Hpre) as [[b Hb]|[rest Hrest]].
  - assert (∃ x, found fs true p = inr x) as [x Hx].
    { rewrite Hb in Hf. destruct b as [|y b]; [rewrite app_nil_r in Hf; by eexists|].
      destruct (found_prefix fs true p (y :: b) _ Hwf ltac:(done) Hf) as (mid & m & Hm & _). by eexists. }
    destruct (mkdirp_there _ _ _ _ _ _ Hwf Hx Hmk) as [-> _]. apply leaves_refl.
  - rewrite Hrest in Hmk. destruct Hp as [z Hz]. rewrite Hrest, <- !app_assoc in Hz. apply app_inv_head in Hz.
    rewrite Hz in Hplain. rewrite !Forall_app in Hplain. destruct Hplain as (_ & Hplain & _).
    eapply (mkdirp_made R _ loc n now fs Hwf Hf HR); [done| |done]. intros j Hj.
    destruct (Hpast (k + j)%nat) as [e He]; [apply (f_equal length) in Hz; rewrite !length_app, length_take in Hz; lia|].
    exists e. rewrite <- He, <- app_assoc. do 2 f_equal. symmetry. transitivity (take (k + j) (take k names ++ rest ++ z)); [by rewrite <- Hz|].
    replace (k + j)%nat with (length (take k names) + j)%nat by (rewrite length_take; lia).
    by rewrite take_app_add, take_app_le by lia.
Qed.
