(* ===== verification/VfsRequests.v ===== *)
(** * What a request may change

    A request that local-vfs.ts answers alone changes nothing outside the root
    on a disk where no path below the root walks out of it and back in, while
    its lookups answer what the disk says ([Section Requests]).  Requests that
    interleave at the lock change nothing outside a root without links below
    it, whatever their lookups answer ([Section Confined]). *)

From stdpp Require Import relations sorting.
From S2P Require Export VfsPaths.
From Stdlib Require Import Ascii.

(** ** Computations that read and then act *)

(** From states of [I], every outcome satisfies [Q]. *)
Definition ends {S A} (I : S → Prop) (m : exn S A) (Q : option A → S → Prop) : Prop := ∀ s, I s → Q (m s).1 (m s).2.

Lemma ends_ret {S A} (I : S → Prop) (a : A) (Q : option A → S → Prop) : (∀ s, I s → Q (Some a) s) → ends I (mret a) Q.
Proof. intros H s HI. by apply H. Qed.

Lemma ends_read {S A B} (I : S → Prop) (m : exn S A) (k : A → exn S B) P Q :
  keeps I m P → (∀ s, I s → Q None s) → (∀ a, P a → ends I (k a) Q) → ends I (m ≫= k) Q.
Proof.
  intros Hm Hnone Hk s HI. destruct (Hm s HI) as [HI' HP]. unfold mbind, exn_bind.
  destruct (m s) as [[a|] s']; cbn in *; [by apply Hk; [apply HP|]|by apply Hnone].
Qed.

Lemma ends_keeps {S A} (I : S → Prop) (m : exn S A) P (Q : option A → S → Prop) :
  keeps I m P → (∀ r s, I s → Q r s) → ends I m Q.
Proof. intros Hm HQ s HI. apply HQ. by destruct (Hm s HI). Qed.

(** A lookup is not to be unfolded into its 32 hops. *)
#[local] Opaque found locate.

Section Requests.
Context (root : path) (temp : string) (fs : FileSystem) (now : Z).
(** Whether the lookups answer what the disk says. *)
Context (sees : bool).

(** Nothing has been changed. *)
Definition here (d : Disk) : Prop := dk_fs d = fs ∧ dk_nowNs d = now ∧ (sees = true → dk_lookups d = []).

(** The answer of a lookup that should be [x]. *)
Definition saw {A} (x r : Errno + A) : Prop := r = x ∨ (sees = false ∧ ∃ e, r = inl e).

Lemma saw_inr {A} (x : Errno + A) a : saw x (inr a) → x = inr a.
Proof. intros [->|(_ & e & [=])]. done. Qed.

Lemma reads_look {A} (f : FileSystem → Errno + A) : keeps here (look_up f) (saw (f fs)).
Proof.
  intros d (Hfs & Hnow & Hs). unfold look_up, next_lookup, exec, mbind, exn_bind.
  destruct (dk_lookups d) as [|[e|] l] eqn:El; cbn.
  - split; [done|]. intros r [= <-]. left. by rewrite Hfs.
  - split; [split_and!; [done|done|intros Ht; by specialize (Hs Ht)]|]. intros r [= <-]. right.
    split; [|by exists e]. destruct sees; [by specialize (Hs eq_refl)|done].
  - split; [split_and!; [done|done|intros Ht; by specialize (Hs Ht)]|]. intros r [= <-]. left. by rewrite Hfs.
Qed.

Definition looked (follow : bool) (p : path) : Errno + Node := match found fs follow p with inl e => inl e | inr x => inr x.2 end.

Lemma reads_lstat p : keeps here (fs_lstat p) (saw (looked false p)).
Proof. apply (reads_look (λ fs, match found fs false p with inl e => inl e | inr x => inr x.2 end)). Qed.
Lemma reads_stat p : keeps here (fs_stat p) (saw (looked true p)).
Proof. apply (reads_look (λ fs, match found fs true p with inl e => inl e | inr x => inr x.2 end)). Qed.

Lemma saw_looked follow p n : saw (looked follow p) (inr n) → ∃ loc, found fs follow p = inr (loc, n).
Proof.
  intros H%saw_inr. unfold looked in H. destruct (found fs follow p) as [e|[loc m]]; [discriminate H|].
  injection H as <-. exists loc. reflexivity.
Qed.

Lemma reads_pathExists p : keeps here (pathExists p)
  (λ b, (b = true → ∃ x, found fs false p = inr x) ∧ (sees = true → b = false → ∃ e, found fs false p = inl e)).
Proof.
  eapply keeps_bind; [apply reads_lstat|]. intros r Hr. apply keeps_ret. split.
  - destruct r as [e|n]; [discriminate|]. intros _. apply saw_looked in Hr as [loc Hr]. exists (loc, n). exact Hr.
  - intros Hs. destruct Hr as [->|[? _]]; [|congruence]. unfold looked. destruct (found fs false p) as [e|x]; [|discriminate].
    intros _. exists e. reflexivity.
Qed.

Lemma reads_isDirectory p : keeps here (isDirectory p) (λ b, b = true → ∃ x, found fs true p = inr x ∧ is_dir_node x.2 = true).
Proof.
  eapply keeps_bind; [apply reads_stat|]. intros r Hr. apply keeps_ret. destruct r as [e|n]; [discriminate|]. intros Hd.
  apply saw_looked in Hr as [loc Hr]. exists (loc, n). split; [exact Hr|exact Hd].
Qed.

(** A call that only reads. *)
Lemma reads_call {A} (f : Disk → Errno + A * FileSystem) : (∀ d a fs', f d = inr (a, fs') → fs' = dk_fs d) →
  keeps here (call f (λ _, dk_fs)) (λ _, True).
Proof.
  intros Hf d (Hfs & Hnow & Hs). split; [|done].
  destruct (call_cases f (λ _, dk_fs) d) as (l & [(e & ->)|[(e & n & ->)|(a & fs' & E & ->)]]); cbn; [by split_and!..|].
  apply Hf in E. cbn in E. by split_and!; [rewrite E|..].
Qed.

Lemma reads_readdir p : keeps here (fs_readdir p) (λ _, True).
Proof.
  apply reads_call. intros d a fs'. destruct (found _ _ _) as [e|[loc n]]; [done|]. destruct (is_dir_node n); [|done]. by intros [= _ <-].
Qed.
Lemma reads_open p : keeps here (fs_open p) (λ _, True).
Proof. apply reads_call. intros d a fs'. destruct (found _ _ _) as [e|[loc n]]; [done|]. by intros [= _ <-]. Qed.
Lemma reads_readFile p : keeps here (fs_readFile p) (λ _, True).
Proof.
  apply reads_call. intros d a fs'. destruct (found _ _ _) as [e|[loc n]]; [done|]. destruct (nd_content n); try done. by intros [= _ <-].
Qed.
Lemma reads_handle n k o : keeps here (handle_read n k o) (λ _, True).
Proof.
  intros [fs0 now0 faults looks closes] (H1 & H2 & H3). cbn in H1, H2, H3. subst. split; [|done].
  destruct faults as [|[|e p|x] faults]; unfold handle_read, next_fault, exec, mbind, exn_bind; cbn; try done.
  all: by destruct (nd_content n).
Qed.

(** ** Accepted paths *)

Context (R : path) (n0 : Node) (Hwf : tree_wf fs) (Hroot : found fs true root = inr (R, n0)) (Hdir : is_dir_node n0 = true).

Definition target_ok (wire : string) (target : path) : Prop :=
  ∃ names, target = root ++ names ∧ Forall plain names ∧ (wire ≠ "/" → names ≠ []) ∧ (sees = true → accepted fs root R names).

Lemma reads_realpath p : keeps here (fs_realpath p) (λ _, True).
Proof. eapply keeps_weaken; [apply reads_look|done]. Qed.

Lemma reads_probe fuel real p : keeps here (probe_loop fuel real p) (λ _, True).
Proof.
  revert p. induction fuel as [|fuel IH]; intros p; cbn [probe_loop];
    (eapply keeps_bind; [apply reads_pathExists|intros [] _]);
    repeat (apply reads_realpath || apply IH || keeps_step); done.
Qed.

Lemma resolve_keeps req : keeps here (resolve root req) (λ _, True).
Proof using.
  unfold resolve, checkNoSymlinkEscape. destruct (normalizeVfsPath req) as [q|]; [|by apply keeps_ret].
  keeps_step; [|by apply keeps_ret]. eapply keeps_bind; [apply reads_realpath|]. intros [e|real] _; [by apply keeps_ret|apply reads_probe].
Qed.

Lemma resolve_names req d wire target d' : resolve root req d = (Some (inr (wire, target)), d') →
  normalizeVfsPath req = Some wire ∧ target = root ++ wire_names wire.
Proof using.
  unfold resolve. destruct (normalizeVfsPath req) as [q|]; [|done]. unfold mbind, exn_bind.
  destruct (checkNoSymlinkEscape _ _ _) as [[[reason|]|] d1]; try done. by intros [= <- <- _].
Qed.

Lemma resolve_plain req wire : normalizeVfsPath req = Some wire → Forall plain (wire_names wire) ∧ (wire ≠ "/" → wire_names wire ≠ []).
Proof using.
  intros Eq. pose proof (normalizeVfsPath_confined req) as Hc. rewrite Eq in Hc. destruct Hc as ((parts & -> & Hparts & _) & _).
  destruct (wire_names_parts parts Hparts) as (-> & Hslash & Hplain). split; [done|]. intros Hw ->. by apply Hw.
Qed.

Lemma reads_resolve req :
  keeps here (resolve root req) (λ r, ∀ wire target, r = inr (wire, target) →
    target_ok wire target ∧ normalizeVfsPath req = Some wire ∧ target = root ++ wire_names wire).
Proof using Hwf Hroot.
  intros d Hd. destruct (resolve_keeps req d Hd) as [Hd' _]. split; [done|]. intros r Hr wire target ->.
  destruct (resolve root req d) as [r' d'] eqn:E. cbn in Hr. subst r'. destruct (resolve_names _ _ _ _ _ E) as [Hn Ht].
  split; [|done]. destruct (resolve_plain _ _ Hn) as [Hplain Hslash]. exists (wire_names wire). do 3 (split; [done|]). intros Hs.
  destruct Hd as (Hfs & _ & Hsee). rewrite <- Hfs in Hwf, Hroot.
  apply (resolve_accepts _ _ _ _ _ _ _ _ (Hsee Hs) Hwf Hroot) in E as (_ & names & Hnames & _ & _ & Hacc).
  rewrite Ht in Hnames. apply app_inv_head in Hnames as <-. by rewrite Hfs in Hacc.
Qed.

(** ** The directory an operation works in *)

(** No path below the root comes back into what the root leads to after having
    left it. *)
Definition no_reentry : Prop := ∀ names s mid loc, Forall plain names → plain s →
  Walk fs true [] (root ++ names) mid → Walk fs true [] (root ++ names ++ [s]) loc → R `prefix_of` loc → R `prefix_of` mid.
Context (Hsees : sees = true) (Hno : no_reentry).

Lemma target_there wire target x : target_ok wire target → found fs false target = inr x →
  ∃ loc n, found fs true target = inr (loc, n) ∧ R `prefix_of` loc.
Proof using Hsees.
  intros (names & -> & _ & _ & Hacc) Hx. destruct (Hacc Hsees) as (k & loc & n & Hk & Hf & HR & Hpast). destruct (decide (k = length names)) as [->|Hne].
  - rewrite firstn_all in Hf. exists loc, n. split; [exact Hf|exact HR].
  - destruct (Hpast (length names)) as [e He]; [lia|]. rewrite firstn_all in He. congruence.
Qed.

(** The parent of a target that is there, or that has a parent. *)
Lemma parent_inside wire target : target_ok wire target → wire ≠ "/" →
  (∃ x, found fs false target = inr x) ∨ (∃ x, found fs true (dirname target) = inr x) →
  ∃ a s mid, target = a ++ [s] ∧ plain s ∧ Walk fs true [] a mid ∧ R `prefix_of` mid.
Proof using Hwf Hsees Hno.
  intros Hok Hw Hx. pose proof Hok as (names & -> & Hplain & Hne & Hacc). destruct (Hacc Hsees) as (k & loc & n & Hk & Hf & HR & Hpast).
  destruct (exists_last (Hne Hw)) as (a & s & ->). rewrite app_assoc in Hx. unfold dirname in Hx. rewrite removelast_last, <- app_assoc in Hx.
  apply Forall_app in Hplain as [Ha Hs]. apply Forall_cons in Hs as [Hs _].
  exists (root ++ a), s. rewrite length_app in Hk, Hpast. cbn in Hk, Hpast.
  assert (k = length a ∨ k = S (length a)) as [->| ->].
  { assert (¬ k < length a)%nat; [|lia]. intros Hlt. destruct Hx as [[x Hx]|[x Hx]].
    - destruct (Hpast (S (length a))) as [e He]; [lia|]. rewrite firstn_all2 in He by (rewrite length_app; cbn; lia). congruence.
    - destruct (Hpast (length a)) as [e He]; [lia|]. rewrite take_app_length in He.
      destruct (found_nofollow _ _ _ Hwf Hx) as [y Hy]. congruence. }
  - rewrite take_app_length in Hf. apply found_walk in Hf as [Hf _]. exists loc. by rewrite <- app_assoc.
  - rewrite firstn_all2 in Hf by (rewrite length_app; cbn; lia). apply found_walk in Hf as [Hf _].
    pose proof Hf as Hl. rewrite app_assoc in Hl. destruct (Walk_split _ _ _ _ _ Hl (root ++ a) [s] eq_refl) as (mid & Hm & _); [done|].
    exists mid. rewrite <- app_assoc. split; [done|]. split; [done|]. split; [done|]. by eapply Hno.
Qed.

(** ** The operations *)

Abbreviation inside := (λ (_ : option VfsResponse) (d : Disk), leaves (below R) fs (dk_fs d)).

Lemma inside_here r d : here d → inside r d.
Proof using. intros [-> _]. apply leaves_refl. Qed.

Lemma below_leaves mid s d : R `prefix_of` mid → leaves (λ q, under (mid ++ [s]) q = true) fs d → leaves (below R) fs d.
Proof using. intros HR Hl q Hq. apply Hl. intros Hu. by apply Hq, (below_entry R mid s). Qed.

Lemma write_beside_inside context wire a s mid data : plain temp → plain s → Walk fs true [] a mid → R `prefix_of` mid →
  ends here (write_beside temp context wire (a ++ [s]) data) inside.
Proof using.
  intros Ht Hs Ha HR d [Hfs _]. rewrite <- Hfs in Ha |- *. intros q Hq. eapply write_beside_leaves; [done|done|done|].
  intros [Hu|Hu]; by eapply Hq, below_entry.
Qed.

(** An operation that only reads. *)
Lemma reads_inside (m : Io VfsResponse) P : keeps here m P → ends here m inside.
Proof using. intros Hm. eapply ends_keeps; [exact Hm|]. intros r d. exact (inside_here r d). Qed.

Lemma reads_list wire target : keeps here (vfs_list wire target) (λ _, True).
Proof using.
  unfold vfs_list. eapply keeps_bind; [apply reads_readdir|]. intros [e|names] _; [by apply keeps_ret|].
  eapply keeps_bind; [|intros; by apply keeps_ret]. apply keeps_forM. intros [name n] _.
  eapply keeps_bind; [apply reads_lstat|]. intros r _. by apply keeps_ret.
Qed.

Lemma reads_entry wire target : keeps here (vfs_stat wire target) (λ _, True).
Proof using. eapply keeps_bind; [apply reads_lstat|]. intros r _. by apply keeps_ret. Qed.

Lemma reads_loop fuel n want offset got : keeps here (read_loop fuel n want offset got) (λ _, True).
Proof using.
  revert got. induction fuel as [|fuel IH]; intros got; cbn [read_loop]; destruct (want <=? length got)%nat;
    try by apply keeps_ret. { by apply keeps_throw. }
  eapply keeps_bind; [apply reads_handle|]. intros [e|[|x more]] _; [by apply keeps_ret..|apply IH].
Qed.

Lemma reads_close : keeps here handle_close (λ _, True).
Proof using.
  intros d (Hfs & Hnow & Hs). split; [|done]. unfold handle_close, exec. by destruct (dk_closes d).
Qed.

Lemma reads_open_file wire n offset len : keeps here (read_open wire n offset len) (λ _, True).
Proof using.
  unfold read_open. eapply keeps_bind; [apply reads_look|]. intros [e|m] _; [by apply keeps_ret|].
  destruct (is_dir_node m); [by apply keeps_ret|]. destruct (offset >? _); [by apply keeps_ret|].
  eapply keeps_bind; [apply reads_loop|]. intros r _. by apply keeps_ret.
Qed.

Lemma reads_read wire target offset len : keeps here (vfs_read wire target offset len) (λ _, True).
Proof using.
  unfold vfs_read. destruct (_ || _); [by apply keeps_ret|]. eapply keeps_bind; [apply reads_open|].
  intros [e|n] _; [by apply keeps_ret|]. eapply keeps_bind; [apply reads_open_file|]. intros answer _.
  eapply keeps_bind; [apply reads_close|]. intros closed _. by apply keeps_ret.
Qed.

Lemma reads_tree_loop fuel wire stack paths truncated : keeps here (tree_loop fuel wire stack paths truncated) (λ _, True).
Proof using.
  revert stack paths truncated. induction fuel as [|fuel IH]; intros [|[[dir rel] depth] stack] paths truncated; cbn [tree_loop];
    try by apply keeps_ret. { by apply keeps_throw. }
  destruct (tree_full paths); [by apply keeps_ret|]. eapply keeps_bind; [apply reads_readdir|]. intros [e|l] _; apply IH.
Qed.

Lemma reads_tree wire target : keeps here (vfs_tree wire target) (λ _, True).
Proof using.
  unfold vfs_tree. eapply keeps_bind; [apply reads_lstat|]. intros [e|n] _; [by apply keeps_ret|].
  destruct (negb _); [by apply keeps_ret|]. eapply keeps_bind; [by apply (keeps_gets _ _ (λ _, True))|]. intros fuel _.
  eapply keeps_bind; [apply reads_tree_loop|]. intros [paths truncated] _. by apply keeps_ret.
Qed.

Lemma reads_expected wire target expected : keeps here (expected_size wire target expected) (λ _, True).
Proof using.
  unfold expected_size. destruct expected; [|by apply keeps_ret]. eapply keeps_bind; [apply reads_lstat|]. intros r _. by apply keeps_ret.
Qed.

Lemma reads_current target : keeps here (current_data target) (λ r, ∀ c, r = inr (Some c) → ∃ x, found fs false target = inr x).
Proof using.
  unfold current_data. eapply keeps_bind; [apply reads_lstat|]. intros [e|n] Hr; [by apply keeps_ret|].
  apply saw_looked in Hr as [loc Hr]. destruct (negb _); [by apply keeps_ret|].
  eapply keeps_bind; [apply reads_readFile|]. intros r' _. apply keeps_ret. intros c _. exists (loc, n). exact Hr.
Qed.

Context (Htemp : plain temp).

Ltac answers := try (apply (reads_inside _ (λ _, True)); by apply keeps_ret).
Ltac first_reads H := eapply ends_read; [H|intros ?; exact (inside_here None _)|].

Lemma write_inside wire target dataB64 expected : target_ok wire target → ends here (vfs_write temp wire target dataB64 expected) inside.
Proof using Hwf Hsees Hno Htemp.
  intros Hok. unfold vfs_write. destruct (too_long _); answers. destruct (fromBase64 dataB64) as [data|]; answers.
  destruct (_ >? _); answers. destruct (String.eqb_spec wire "/") as [|Hw]; answers.
  first_reads ltac:(apply reads_expected). intros [r|] _; answers. first_reads ltac:(apply reads_isDirectory). intros [] Hp; answers.
  destruct (parent_inside _ _ Hok Hw) as (a & s & mid & -> & Hs & Ha & HR); [right; destruct (Hp eq_refl) as (x & Hx & _); by exists x|]. by eapply write_beside_inside.
Qed.

Lemma replace_inside wire target expected dataB64 : target_ok wire target →
  ends here (vfs_replace temp wire target expected dataB64) inside.
Proof using Hwf Hsees Hno Htemp.
  intros Hok. unfold vfs_replace. destruct (too_long _); answers. destruct (fromBase64 expected) as [old|]; answers.
  destruct (fromBase64 dataB64) as [data|]; answers. destruct (_ >? _); answers. destruct (String.eqb_spec wire "/") as [|Hw]; answers.
  first_reads ltac:(apply reads_current). intros [e|[c|]] Hc; [destruct e; answers| |answers].
  destruct (negb _); answers. specialize (Hc c eq_refl).
  destruct (parent_inside _ _ Hok Hw) as (a & s & mid & -> & Hs & Ha & HR); [by left|]. by eapply write_beside_inside.
Qed.

(** The last call of an operation, whose outcome is only reported. *)
Lemma ends_last {A} (m : Io A) (k : A → VfsResponse) P : (∀ d, here d → leaves P (dk_fs d) (dk_fs (m d).2)) →
  (∀ q, P q → below R q) → ends here (m ≫= λ a, mret (k a)) inside.
Proof using.
  intros Hm HP d Hd. specialize (Hm d Hd). destruct Hd as [Hfs _]. rewrite Hfs in Hm.
  assert (dk_fs ((m ≫= λ a, mret (k a)) d).2 = dk_fs (m d).2) as -> by (unfold mbind, exn_bind; by destruct (m d) as [[a|] d']).
  intros q Hq. apply Hm. intros HPq. by apply Hq, HP.
Qed.

Lemma delete_inside wire target recursive : target_ok wire target → ends here (vfs_delete wire target recursive) inside.
Proof using Hwf Hsees Hno.
  intros Hok. unfold vfs_delete. destruct (String.eqb_spec wire "/") as [|Hw]; answers.
  first_reads ltac:(apply reads_lstat). intros [e|n] Ef; answers. apply saw_looked in Ef as [loc Ef].
  destruct (parent_inside _ _ Hok Hw) as (a & s & mid & -> & Hs & Ha & HR); [left; exists (loc, n); exact Ef|].
  apply (ends_last _ _ (λ q, under (mid ++ [s]) q = true)); [|intros q; by eapply below_entry].
  intros d [Hfs _]. apply remove_leaves; [done|by rewrite Hfs].
Qed.

Lemma append_inside wire target dataB64 expected : target_ok wire target → ends here (vfs_append wire target dataB64 expected) inside.
Proof using Hroot Hdir Hsees.
  intros Hok. unfold vfs_append. destruct (too_long _); answers. destruct (fromBase64 dataB64) as [data|]; answers.
  destruct (_ >? _); answers. first_reads ltac:(apply reads_lstat).
  intros [e|x] Ef; answers. apply saw_looked in Ef as [l0 Ef]. destruct (is_dir_node x); answers.
  lazymatch goal with |- ends _ (if ?b then _ else _) _ => destruct b end; answers.
  apply (ends_last _ _ (below R)); [|done]. intros d [Hfs _]. destruct (target_there _ _ _ Hok Ef) as (loc & n & Hl & HR).
  assert (∀ data l u fs', append_file target data (set_faults l d) = inr (u, fs') → leaves (below R) (dk_fs d) fs') as Ha.
  { intros dat l u fs'. unfold append_file. cbn [dk_fs set_faults]. rewrite Hfs. apply found_locate in Hl as [-> Hn]. rewrite Hn.
    destruct (nd_content n) eqn:Ec; try done. intros [= _ <-] q Hq. rewrite lookup_insert_ne; [done|]. intros <-. apply Hq.
    destruct HR as [[|y k] ->]; [|by exists y, k]. exfalso. rewrite app_nil_r in Hn. apply found_locate in Hroot as [_ Hn0].
    assert (n = n0) as -> by congruence. unfold is_dir_node in Hdir. by rewrite Ec in Hdir. }
  apply call_leaves; [intros l u fs'; apply Ha|]. intros l m. apply (or_nothing_leaves _ _ (set_faults l d)).
  intros u fs'. apply Ha.
Qed.

Lemma mkdir_inside wire target : target_ok wire target → ends here (vfs_mkdir wire target) inside.
Proof using Hwf Hsees.
  intros (names & -> & Hplain & _ & Hacc). apply (ends_last _ _ (below R)); [|done]. intros d [Hfs _].
  assert (∀ m l u fs', do_mkdir (take m (root ++ names)) (set_faults l d) = inr (u, fs') → leaves (below R) (dk_fs d) fs') as Hmk.
  { intros m l u fs'. unfold do_mkdir. cbn [dk_fs dk_nowNs set_faults]. rewrite Hfs. destruct (mkdirp _ _ _ _) as [e|fs1] eqn:E; [discriminate|].
    intros [= _ <-]. eapply mkdirp_inside; [done|exact (Hacc Hsees)|done| |exact E]. exists (drop m (root ++ names)). by rewrite take_drop. }
  apply call_leaves.
  - intros l u fs' E. apply (Hmk (length (root ++ names)) l u). by rewrite firstn_all.
  - intros l m. apply (or_nothing_leaves _ _ (set_faults l d)). intros u fs'. apply Hmk.
Qed.

Lemma rename_inside wire target to : target_ok wire target → ends here (vfs_rename root wire target to) inside.
Proof using Hwf Hroot Hsees Hno.
  intros Hok. unfold vfs_rename. first_reads ltac:(apply reads_resolve). intros [reason|[toWire toTarget]] Hto; answers.
  destruct (Hto _ _ eq_refl) as [Hto' _]. clear Hto. rename Hto' into Hto. destruct (String.eqb_spec wire "/") as [|Hw]; answers. destruct (String.eqb_spec toWire "/") as [|Hw']; answers.
  first_reads ltac:(apply reads_pathExists). intros [] Hf; answers. first_reads ltac:(apply reads_pathExists). intros [] _; answers.
  first_reads ltac:(apply reads_isDirectory). intros [] Hp; answers.
  destruct (parent_inside _ _ Hok Hw) as (a & s & mid & -> & Hs & Ha & HR); [left; by apply (proj1 Hf)|].
  destruct (parent_inside _ _ Hto Hw') as (b & t & mid' & -> & Ht & Hb & HR'); [right; destruct (Hp eq_refl) as (x & Hx & _); by exists x|].
  apply (ends_last _ _ (λ q, under (mid ++ [s]) q = true ∨ under (mid' ++ [t]) q = true)).
  - intros d [Hfs _]. rewrite <- Hfs in Ha, Hb. exact (rename_leaves a s mid d Hs Ha b t mid' Ht Hb).
  - intros q [Hu|Hu]; [exact (below_entry R mid s q HR Hu)|exact (below_entry R mid' t q HR' Hu)].
Qed.

Lemma answers_inside m : ends here m inside → ends here (answers m) (λ _ d, leaves (below R) fs (dk_fs d)).
Proof using.
  intros Hm d Hd. specialize (Hm d Hd). unfold answers, mbind, exn_bind. by destruct (m d) as [[a|] d'].
Qed.

Lemma operate_inside r wire target : target_ok wire target →
  ends here (operate root temp r wire target) (λ _ d, leaves (below R) fs (dk_fs d)).
Proof using All.
  intros Hok. destruct r; cbn [operate]; try apply answers_inside.
  - eapply reads_inside, reads_list.
  - eapply reads_inside, reads_entry.
  - eapply ends_keeps; [apply reads_read|]. intros x d. exact (inside_here None d).
  - by apply write_inside.
  - by apply append_inside.
  - by apply replace_inside.
  - by apply delete_inside.
  - by apply mkdir_inside.
  - eapply reads_inside, reads_tree.
  - by apply rename_inside.
Qed.

Lemma handle_inside r : ends here (vfs_handle root temp r) inside.
Proof using All.
  assert (ends here (dispatch root temp r) (λ _ d, leaves (below R) fs (dk_fs d))) as Hd.
  { unfold dispatch. eapply ends_read; [apply reads_resolve|intros d; exact (inside_here None d)|]. intros [reason|[wire target]] Hok.
    - apply ends_ret. intros d. exact (inside_here None d).
    - destruct (Hok _ _ eq_refl) as [Hok' _]. by apply operate_inside. }
  intros d Hh. specialize (Hd d Hh). unfold vfs_handle, settle, catch, mbind, exn_bind.
  by destruct (dispatch root temp r d) as [[a|] d'].
Qed.
End Requests.

(** A request in steps. *)
Lemma handle_steps root temp r d : vfs_handle root temp r d =
  match resolve root (primary r) d with
  | (Some (inl reason), d1) => (Some (RError "vfs_path_refused" reason), d1)
  | (Some (inr (wire, target)), d1) => settle r (operate root temp r wire target) d1
  | (None, d1) => (Some (ioError ("vfs " +:+ request_t r) EIO), d1)
  end.
Proof.
  unfold vfs_handle, settle, catch, dispatch, mbind, exn_bind.
  by destruct (resolve root (primary r) d) as [[[reason|[wire target]]|] d1].
Qed.
Lemma settle_op r m d : settle r (answers m) d =
  match m d with (Some a, d') => (Some a, d') | (None, d') => (Some (ioError ("vfs " +:+ request_t r) EIO), d') end.
Proof. unfold settle, answers, catch, mbind, exn_bind. by destruct (m d) as [[a|] d']. Qed.

Lemma settle_answers r m d : ∃ response d', settle r m d = (Some response, d') ∧ (m d).2 = d'.
Proof. unfold settle, catch, mbind, exn_bind. destruct (m d) as [[a|] d']; by eexists _, _. Qed.

(** ** Properties *)

(** A request that the agent would serve for the capability [fs.read] changes
    nothing. *)
Theorem read_requests_change_nothing root temp r d : VFS_CAPABILITY r = fs_read → dk_fs (vfs_handle root temp r d).2 = dk_fs d.
Proof.
  intros Hr. assert (keeps (here (dk_fs d) (dk_nowNs d) false) (dispatch root temp r) (λ _, True)) as Hk.
  { unfold dispatch. eapply keeps_bind; [apply resolve_keeps|]. intros [reason|[wire target]] _; [by apply keeps_ret|].
    destruct r; try discriminate; cbn [operate]; [| |apply reads_read|].
    all: eapply keeps_bind; [apply reads_list || apply reads_entry || apply reads_tree|]; intros; by apply keeps_ret. }
  destruct (Hk d) as [(E & _) _]; [by split_and!|]. unfold vfs_handle.
  destruct (settle_answers r (dispatch root temp r) d) as (response & d' & -> & E'). by rewrite E' in E.
Qed.

(** ** Requests in flight over a directory without links

    When the served directory is given by its real path and no link lies below
    it, a path below it means the same at any time, so nothing depends on what
    a lookup saw or when: every call keeps the following invariant. *)

(** Every step of the path to [R] is a directory. *)
Definition dirs_to (fs : FileSystem) (R : path) : Prop :=
  ∀ a, a `prefix_of` R → ∃ n, node_at fs a = Some n ∧ is_dir_node n = true.
Definition no_links_below (fs : FileSystem) (R : path) : Prop :=
  ∀ q n, below R q → fs !! q = Some n → is_link_node n = false.

Section Confined.
Context (root : path) (fs0 : FileSystem) (Hplain : Forall plain root) (Hdirs : dirs_to fs0 root).

Definition confined (fs : FileSystem) : Prop := leaves (below root) fs0 fs ∧ no_links_below fs root.
Abbreviation safe := (λ d : Disk, confined (dk_fs d)).

Lemma not_below a : a `prefix_of` root → ¬ below root a.
Proof using. intros [k Hk] (x & j & ->). apply (f_equal length) in Hk. rewrite !length_app in Hk. cbn in Hk. lia. Qed.

Lemma confined_dirs fs : confined fs → dirs_to fs root.
Proof using Hdirs.
  intros [Hl _] a Ha. destruct (Hdirs a Ha) as (n & Hn & Hd). exists n. split; [|done].
  destruct a as [|x a]; [exact Hn|]. cbn in *. rewrite (Hl (x :: a)); [exact Hn|by apply not_below].
Qed.

(** What lies on a path below the root is no link. *)
Lemma confined_clear fs names a s n : confined fs → a ++ [s] `prefix_of` root ++ names → fs !! (a ++ [s]) = Some n → is_link_node n = false.
Proof using Hdirs.
  intros Hc Ha Hn. destruct (prefix_weak_total _ _ _ Ha (prefix_app_r root root names (reflexivity root))) as [Hp|[k Hk]].
  - destruct (confined_dirs fs Hc _ Hp) as (m & Hm & Hd). rewrite node_at_snoc, Hn in Hm. injection Hm as <-.
    unfold is_dir_node, is_link_node in *. by destruct (nd_content n).
  - destruct k as [|x k].
    + rewrite app_nil_r in Hk. destruct (confined_dirs fs Hc root) as (m & Hm & Hd); [done|].
      rewrite <- Hk, node_at_snoc, Hn in Hm. injection Hm as <-.
      unfold is_dir_node, is_link_node in *. by destruct (nd_content n).
    + destruct Hc as [_ Hno]. eapply Hno; [|exact Hn]. exists x, k. exact Hk.
Qed.

Lemma Walk_clear fs f cur rest loc : Walk fs f cur rest loc → Forall plain rest →
  (∀ a s n, a ++ [s] `prefix_of` rest → fs !! (cur ++ a ++ [s]) = Some n → is_link_node n = false) → loc = cur ++ rest.
Proof using.
  assert (∀ (x : string) l a s, a ++ [s] `prefix_of` l → (x :: a) ++ [s] `prefix_of` x :: l) as Hcons by (intros x l a s; apply prefix_cons).
  induction 1 as [cur|cur s rest loc Hd Hw IH|cur rest loc Hw IH|cur s Hd Hu Hn|cur s n rest loc Hd Hu Hn Hc Hw IH
    |cur s n ab t Hd Hu Hn Hc Hf|cur s n ab t rest loc Hd Hu Hn Hc Hf Hw IH|cur s n Hd Hu Hn Hnd Hnl]; intros Hp Hclear; try done.
  - by rewrite app_nil_r.
  - apply Forall_cons in Hp as [[Hd' _] _]. congruence.
  - by apply Forall_cons in Hp as [[_ ?] _].
  - apply Forall_cons in Hp as [_ Hp]. rewrite IH; [by rewrite <- app_assoc|done|]. intros a x m Ha Hm.
    apply (Hclear (s :: a) x m); [by apply Hcons|]. by rewrite <- app_assoc in Hm.
  - exfalso. enough (is_link_node n = false) as E by (unfold is_link_node in E; by rewrite Hc in E).
    apply (Hclear [] s n); [by exists rest|done].
Qed.

Lemma locate_clear fs f names p loc : confined fs → Forall plain names → p `prefix_of` root ++ names →
  locate fs f p = inr loc → loc = p.
Proof using Hplain Hdirs.
  intros Hc Hn [k Hk] Hl%locate_walk. rewrite (Walk_clear _ _ _ _ _ Hl); [done| |].
  - assert (Forall plain (root ++ names)) as Hall by (by apply Forall_app). rewrite Hk in Hall. by apply Forall_app in Hall as [? _].
  - intros a s n Ha Hm. eapply (confined_clear fs names a s n Hc); [|exact Hm]. etrans; [exact Ha|]. by exists k.
Qed.

(** ** What may change *)

Lemma below_root names : names ≠ [] → below root (root ++ names).
Proof using. destruct names as [|x k]; [done|]. intros _. by exists x, k. Qed.

Lemma confined_insert fs q n : confined fs → below root q → is_link_node n = false → confined (<[q := n]> fs).
Proof using.
  intros [Hl Hno] Hq Hn. split.
  - intros p Hp. rewrite lookup_insert_ne; [by apply Hl|]. by intros <-.
  - intros p m Hp [[<- <-]|[_ Hm]]%lookup_insert_Some; [done|by eapply Hno].
Qed.

Lemma confined_sub fs fs' : confined fs → leaves (below root) fs fs' → (∀ q n, fs' !! q = Some n → ∃ q', fs !! q' = Some n ∧ (below root q → below root q')) →
  confined fs'.
Proof using.
  intros [Hl Hno] Hl' Hsub. split; [by eapply leaves_trans|]. intros q n Hq Hn. destruct (Hsub q n Hn) as (q' & Hq' & Hb). by eapply Hno; [apply Hb|].
Qed.

Lemma confined_delete fs q : confined fs → below root q → confined (delete q fs).
Proof using.
  intros Hc Hq. apply (confined_sub fs); [done| |].
  - intros p Hp. rewrite lookup_delete_ne; [done|]. by intros <-.
  - intros p n [_ Hn]%lookup_delete_Some. by exists p.
Qed.

Lemma confined_delete_all l : ∀ fs, confined fs → (∀ q, q ∈ l → below root q) → confined (delete_all l fs).
Proof using.
  unfold delete_all. induction l as [|q l IH]; intros fs Hc Hl; [done|]. cbn. apply IH; [|intros p Hp; apply Hl; by right].
  apply confined_delete; [done|]. apply Hl. left.
Qed.

Lemma under_below names q : names ≠ [] → under (root ++ names) q = true → below root q.
Proof using. intros Hn [k ->]%under_spec. destruct names as [|x l]; [done|]. exists x, (l ++ k). by rewrite <- app_assoc, <- app_comm_cons. Qed.

Lemma confined_move fs a b : confined fs → a ≠ [] → b ≠ [] → confined (move_tree (root ++ a) (root ++ b) fs).
Proof using.
  intros Hc Ha Hb. apply (confined_sub fs); [done| |].
  - intros q Hq. apply move_tree_other; apply not_true_iff_false; intros Hu; apply Hq;
      [by apply (under_below a)|by apply (under_below b)].
  - intros q n Hn. unfold move_tree in Hn. apply elem_of_list_to_map_2, list_elem_of_omap in Hn as ([q' m] & Hq'%elem_of_map_to_list & E).
    destruct (under (root ++ a) q') eqn:Eu; [|destruct (under (root ++ b) q'); [discriminate|]]; injection E as <- <-; exists q'; split; try done.
    intros _. by apply (under_below a).
Qed.
(** ** The calls keep it *)

Lemma safe_reads {A} (m : Io A) Q : (∀ fs now, keeps (here fs now false) m Q) → keeps safe m Q.
Proof using.
  intros Hm d Hd. destruct (Hm (dk_fs d) (dk_nowNs d) d) as [(E & _) HQ]; [done|]. cbn in E. split; [cbn; by rewrite E|done].
Qed.

Lemma safe_call {A} (f : Disk → Errno + A * FileSystem) part :
  (∀ d a fs, safe d → f d = inr (a, fs) → confined fs) → (∀ d n, safe d → confined (part n d)) → keeps safe (call f part) (λ _, True).
Proof using.
  intros Hf Hp d Hd. split; [|done].
  destruct (call_cases f part d) as (l & [(e & ->)|[(e & n & ->)|(a & fs & E & ->)]]); cbn; [exact Hd| |].
  - exact (Hp (set_faults l d) n Hd).
  - exact (Hf (set_faults l d) a fs Hd E).
Qed.

Lemma safe_or_nothing {A} (f : Disk → Errno + A * FileSystem) d :
  (∀ a fs, f d = inr (a, fs) → confined fs) → safe d → confined (or_nothing f d).
Proof using. intros Hf Hd. unfold or_nothing. destruct (f d) as [e|[a fs]] eqn:E; [done|by eapply Hf]. Qed.

Section Calls.
Context (names : path) (Hn : Forall plain names).

Lemma found_clear fs f loc n : confined fs → found fs f (root ++ names) = inr (loc, n) → loc = root ++ names.
Proof using Hplain Hdirs Hn. intros Hc [Hl _]%found_locate. by eapply (locate_clear fs f names). Qed.

Lemma file_below fs data d : confined fs → names ≠ [] → confined (<[root ++ names := new_file data d]> fs).
Proof using. intros Hc Hne. apply confined_insert; [done|by apply below_root|done]. Qed.

Lemma safe_create data : names ≠ [] → keeps safe (fs_writeFile_wx (root ++ names) data) (λ _, True).
Proof using Hplain Hdirs Hn.
  intros Hne. assert (∀ dat d a fs, safe d → create_file (root ++ names) dat d = inr (a, fs) → confined fs) as Hf.
  { intros dat d a fs Hd. unfold create_file. destruct (locate _ _ _) as [e|loc] eqn:El; [discriminate|].
    apply (locate_clear _ _ names) in El as ->; [|done|done|done]. destruct (node_at _ _); [discriminate|].
    intros [= _ <-]. by apply file_below. }
  apply safe_call; [apply Hf|]. intros d n Hd. apply safe_or_nothing; [|done]. intros a fs. by apply Hf.
Qed.

Lemma safe_append data : keeps safe (fs_appendFile (root ++ names) data) (λ _, True).
Proof using Hplain Hdirs Hn.
  assert (∀ dat d a fs, safe d → append_file (root ++ names) dat d = inr (a, fs) → confined fs) as Hf.
  { intros dat d a fs Hd. unfold append_file. destruct (locate _ _ _) as [e|loc] eqn:El; [discriminate|].
    apply (locate_clear _ _ names) in El as ->; [|done|done|done]. destruct (decide (names = [])) as [->|Hne].
    - rewrite app_nil_r. destruct (confined_dirs _ Hd root) as (n & -> & Hdir); [done|].
      unfold is_dir_node in Hdir. by destruct (nd_content n).
    - destruct (node_at _ _) as [n|]; [destruct (nd_content n); try discriminate|]; intros [= _ <-]; by apply file_below. }
  apply safe_call; [apply Hf|]. intros d n Hd. apply safe_or_nothing; [|done]. intros a fs. by apply Hf.
Qed.

Lemma safe_unlink : names ≠ [] → keeps safe (fs_unlink (root ++ names)) (λ _, True).
Proof using Hplain Hdirs Hn.
  intros Hne. apply safe_call; [|done]. intros d a fs Hd. unfold do_unlink.
  destruct (found _ _ _) as [e|[loc n]] eqn:Ef; [discriminate|]. apply found_clear in Ef as ->; [|done].
  destruct (is_dir_node n); [discriminate|]. intros [= _ <-]. apply confined_delete; [done|by apply below_root].
Qed.

Lemma safe_rmdir : names ≠ [] → keeps safe (fs_rmdir (root ++ names)) (λ _, True).
Proof using Hplain Hdirs Hn.
  intros Hne. apply safe_call; [|done]. intros d a fs Hd. unfold do_rmdir.
  destruct (found _ _ _) as [e|[loc n]] eqn:Ef; [discriminate|]. apply found_clear in Ef as ->; [|done].
  assert (confined (delete (root ++ names) (dk_fs d))) as Hc by (apply confined_delete; [done|by apply below_root]).
  destruct (root ++ names); [discriminate|]. destruct (is_dir_node n); [|discriminate]. destruct (children _ _); [|discriminate].
  intros [= _ <-]. exact Hc.
Qed.

Lemma safe_rm : names ≠ [] → keeps safe (fs_rm_recursive (root ++ names)) (λ _, True).
Proof using Hplain Hdirs Hn.
  intros Hne. assert (∀ k d a fs, safe d → do_rm k (root ++ names) d = inr (a, fs) → confined fs) as Hf.
  { intros k d a fs Hd. unfold do_rm. destruct (found _ _ _) as [e|[loc n]] eqn:Ef; [discriminate|].
    apply found_clear in Ef as ->; [|done].
    assert (∀ l, (∀ q, q ∈ l → q ∈ subtree (root ++ names) (dk_fs d)) → confined (delete_all l (dk_fs d))) as Hl.
    { intros l Hl. apply confined_delete_all; [done|]. intros q Hq%Hl%elem_subtree. by apply (under_below names). }
    destruct (root ++ names) as [|x p] eqn:E; [discriminate|]. intros [= _ <-]. apply Hl. intros q.
    destruct k as [k|]; [|done]. intros Hq. by eapply elem_of_take_in. }
  apply safe_call; [apply Hf|]. intros d n Hd. apply safe_or_nothing; [|done]. intros a fs. by apply Hf.
Qed.

Lemma safe_rm_force : names ≠ [] → keeps safe (fs_rm_force (root ++ names)) (λ _, True).
Proof using Hplain Hdirs Hn.
  intros Hne. apply safe_call; [|done]. intros d a fs Hd. unfold do_rm_force.
  destruct (found _ _ _) as [e|[loc n]] eqn:Ef; [destruct e; try discriminate; by intros [= _ <-]|].
  apply found_clear in Ef as ->; [|done]. destruct (is_dir_node n); [discriminate|]. intros [= _ <-].
  apply confined_delete; [done|by apply below_root].
Qed.

Lemma safe_rename to : Forall plain to → names ≠ [] → to ≠ [] → keeps safe (fs_rename (root ++ names) (root ++ to)) (λ _, True).
Proof using Hplain Hdirs Hn.
  intros Ht Hne Hne'. apply safe_call; [|done]. intros d [] fs Hd Hr. apply do_rename_spec in Hr as (lf & lt & n & Hf & Hl & Hcase).
  apply found_clear in Hf as ->; [|done]. apply (locate_clear _ _ to) in Hl as ->; [|done|done|done].
  destruct Hcase as [(_ & ->)|(_ & _ & -> & _)]; [done|by apply confined_move].
Qed.

(** A directory is made only where none was: not on the way to the root. *)
Lemma mkdir_one_confined p now fs fs' : p `prefix_of` root ++ names → confined fs → mkdir_one p now fs = inr fs' → confined fs'.
Proof using Hplain Hdirs Hn.
  intros Hp Hc (loc & Hl & Hnone & ->)%mkdir_one_spec. apply (locate_clear _ _ names) in Hl as ->; [|done|done|done].
  apply confined_insert; [done| |done].
  destruct (prefix_weak_total _ _ _ Hp (prefix_app_r root root names (reflexivity root))) as [Hq|[[|x k] Hk]].
  - destruct (confined_dirs fs Hc p Hq) as (n & Hn' & _). congruence.
  - rewrite app_nil_r in Hk. subst p. destruct (confined_dirs fs Hc root) as (n & Hn' & _); [done|congruence].
  - by exists x, k.
Qed.

Lemma mkdirp_confined now fuel : ∀ p fs fs', p `prefix_of` root ++ names → confined fs → mkdirp fuel p now fs = inr fs' → confined fs'.
Proof using Hplain Hdirs Hn.
  induction fuel as [|fuel IH]; intros p fs fs' Hp Hc H.
  all: destruct (mkdirp_cases _ _ _ _ _ H) as [E|[(loc & n & E & _ & ->)|(fuel' & fs1 & Ef & Em & E)]];
    [by eapply mkdir_one_confined|done|].
  { discriminate Ef. }
  injection Ef as <-. eapply mkdir_one_confined; [exact Hp| |exact E]. eapply IH; [|exact Hc|exact Em].
  destruct (decide (p = [])) as [->|Hne]; [done|]. etrans; [|exact Hp]. exists [List.last p ""]. by apply app_removelast_last.
Qed.

Lemma safe_mkdir : keeps safe (fs_mkdir (root ++ names)) (λ _, True).
Proof using Hplain Hdirs Hn.
  assert (∀ p d a fs, p `prefix_of` root ++ names → safe d → do_mkdir p d = inr (a, fs) → confined fs) as Hf.
  { intros p d a fs Hp Hd. unfold do_mkdir. destruct (mkdirp _ _ _ _) as [e|fs1] eqn:E; [discriminate|]. intros [= _ <-].
    by eapply mkdirp_confined. }
  apply safe_call; [intros d a fs; by apply Hf|]. intros d n Hd. apply safe_or_nothing; [|done]. intros a fs. apply Hf; [|done].
  exists (drop n (root ++ names)). by rewrite take_drop.
Qed.
End Calls.
(** ** So do the operations *)

(** What a resolution hands on. *)
Definition named (wire : string) (target : path) : Prop :=
  ∃ names, target = root ++ names ∧ Forall plain names ∧ (wire ≠ "/" → names ≠ []).

Lemma resolve_named req d wire target d' : resolve root req d = (Some (inr (wire, target)), d') → named wire target.
Proof using.
  intros [Hn ->]%resolve_names. destruct (resolve_plain _ _ Hn) as [Hp Hs]. by exists (wire_names wire).
Qed.

Lemma safe_resolve req : keeps safe (resolve root req) (λ r, ∀ wire target, r = inr (wire, target) → named wire target).
Proof using.
  intros d Hd. destruct (safe_reads _ _ (λ fs now, resolve_keeps root fs now false req) d Hd) as [Hd' _].
  split; [done|]. intros r Hr wire target ->. destruct (resolve root req d) as [x d'] eqn:E. cbn in Hr. subst x. by eapply resolve_named.
Qed.

Context (temp : string) (Htemp : plain temp).

Ltac reads H := eapply keeps_bind; [apply (safe_reads _ (λ _, True)); intros fs now; eapply keeps_weaken; [apply H|done]|].
Ltac done_ := try by apply keeps_ret.

Lemma safe_beside context wire a s data : Forall plain (a ++ [s]) →
  keeps safe (write_beside temp context wire (root ++ a ++ [s]) data) (λ _, True).
Proof using Hplain Hdirs Htemp.
  intros Hp. unfold write_beside, dirname. rewrite app_assoc, removelast_last, <- !app_assoc. cbv zeta.
  assert (Forall plain (a ++ [temp])) as Ht.
  { apply Forall_app in Hp as [Ha _]. apply Forall_app. split; [done|]. by constructor. }
  assert (∀ e, keeps safe (fs_rm_force (root ++ a ++ [temp]) ≫= λ _, mret (ioError (context +:+ wire) e)) (λ _, True)) as Hfail.
  { intros e. eapply keeps_bind; [apply safe_rm_force; [done|by destruct a]|]. intros; by apply keeps_ret. }
  eapply keeps_bind; [apply safe_create; [done|by destruct a]|]. intros [e|[]] _; [apply Hfail|].
  eapply keeps_bind; [apply safe_rename; [done|done|by destruct a|by destruct a]|]. intros [e|[]] _; [apply Hfail|by apply keeps_ret].
Qed.

Lemma named_snoc wire target : named wire target → wire ≠ "/" → ∃ a s, target = root ++ a ++ [s] ∧ Forall plain (a ++ [s]).
Proof using.
  intros (names & -> & Hp & Hne) Hw. destruct (exists_last (Hne Hw)) as (a & s & ->). by exists a, s.
Qed.

Lemma safe_write wire target dataB64 expected : named wire target → keeps safe (vfs_write temp wire target dataB64 expected) (λ _, True).
Proof using Hplain Hdirs Htemp.
  intros Hn. unfold vfs_write. cbv zeta. destruct (too_long _); done_. destruct (fromBase64 dataB64) as [data|]; done_.
  destruct (_ >? _); done_. destruct (String.eqb_spec wire "/") as [|Hw]; done_. reads reads_expected. intros [r|] _; done_.
  reads reads_isDirectory. intros [] _; done_. destruct (named_snoc _ _ Hn Hw) as (a & s & -> & Hp). by apply safe_beside.
Qed.

Lemma safe_replace wire target expected dataB64 : named wire target →
  keeps safe (vfs_replace temp wire target expected dataB64) (λ _, True).
Proof using Hplain Hdirs Htemp.
  intros Hn. unfold vfs_replace. cbv zeta. destruct (too_long _); done_. destruct (fromBase64 expected) as [old|]; done_.
  destruct (fromBase64 dataB64) as [data|]; done_. destruct (_ >? _); done_. destruct (String.eqb_spec wire "/") as [|Hw]; done_.
  reads reads_current. intros [e|[c|]] _; [destruct e; done_| |done_]. destruct (negb _); done_.
  destruct (named_snoc _ _ Hn Hw) as (a & s & -> & Hp). by apply safe_beside.
Qed.

Lemma safe_append_op wire target dataB64 expected : named wire target →
  keeps safe (vfs_append wire target dataB64 expected) (λ _, True).
Proof using Hplain Hdirs.
  intros (names & -> & Hp & _). unfold vfs_append. cbv zeta. destruct (too_long _); done_. destruct (fromBase64 dataB64) as [data|]; done_.
  destruct (_ >? _); done_. reads reads_lstat. intros [e|n] _; done_. destruct (is_dir_node n); done_.
  lazymatch goal with |- keeps _ (if ?b then _ else _) _ => destruct b end; done_.
  eapply keeps_bind; [by apply safe_append|]. intros; by apply keeps_ret.
Qed.

Lemma safe_delete wire target recursive : named wire target → keeps safe (vfs_delete wire target recursive) (λ _, True).
Proof using Hplain Hdirs.
  intros (names & -> & Hp & Hne). unfold vfs_delete. destruct (String.eqb_spec wire "/") as [|Hw]; done_. specialize (Hne Hw).
  reads reads_lstat. intros [e|n] _; done_. eapply keeps_bind; [|intros; by apply keeps_ret].
  destruct (is_dir_node n); [destruct recursive|]; [by apply safe_rm|by apply safe_rmdir|by apply safe_unlink].
Qed.

Lemma safe_mkdir_op wire target : named wire target → keeps safe (vfs_mkdir wire target) (λ _, True).
Proof using Hplain Hdirs.
  intros (names & -> & Hp & _). unfold vfs_mkdir. eapply keeps_bind; [by apply safe_mkdir|]. intros; by apply keeps_ret.
Qed.

Lemma safe_rename_op wire target to : named wire target → keeps safe (vfs_rename root wire target to) (λ _, True).
Proof using Hplain Hdirs.
  intros Hn. unfold vfs_rename. eapply keeps_bind; [apply safe_resolve|]. intros [reason|[toWire toTarget]] Hto; done_.
  specialize (Hto _ _ eq_refl). destruct (String.eqb_spec wire "/") as [|Hw]; done_. destruct (String.eqb_spec toWire "/") as [|Hw']; done_.
  reads reads_pathExists. intros [] _; done_. reads reads_pathExists. intros [] _; done_. reads reads_isDirectory. intros [] _; done_.
  destruct Hn as (a & -> & Ha & Hane), Hto as (b & -> & Hb & Hbne).
  eapply keeps_bind; [apply safe_rename; auto|]. intros; by apply keeps_ret.
Qed.

Lemma safe_operate r wire target : named wire target → keeps safe (operate root temp r wire target) (λ _, True).
Proof using Hplain Hdirs Htemp.
  intros Hn. assert (∀ m : Io VfsResponse, keeps safe m (λ _, True) → keeps safe (answers m) (λ _, True)) as Ha
    by (intros m Hm; eapply keeps_bind; [exact Hm|]; intros; by apply keeps_ret).
  destruct r; cbn [operate]; try apply Ha.
  - apply safe_reads. intros. apply reads_list.
  - apply safe_reads. intros. apply reads_entry.
  - apply safe_reads. intros. apply reads_read.
  - by apply safe_write.
  - by apply safe_append_op.
  - by apply safe_replace.
  - by apply safe_delete.
  - by apply safe_mkdir_op.
  - apply safe_reads. intros. apply reads_tree.
  - by apply safe_rename_op.
Qed.
End Confined.

(** ** The system *)

Definition flight_ok (root : path) (f : Flight) : Prop :=
  plain (fl_temp f) ∧ ∀ wire target, fl_phase f = Waiting wire target → named root wire target.
Definition system_ok (root : path) (fs0 : FileSystem) (s : FileSystem * list Flight) : Prop :=
  confined root fs0 s.1 ∧ Forall (flight_ok root) s.2.

Lemma system_step root fs0 s s' : Forall plain root → dirs_to fs0 root → vfs_step root s s' → system_ok root fs0 s → system_ok root fs0 s'.
Proof.
  intros Hplain Hdirs Hstep [Hc Hl]. destruct Hstep as [fs l r temp Ht|fs l i r temp d resolved d' Hi Hr|l i r temp wire target d a d' Hi Hr]; cbn in *.
  - split; [done|]. apply Forall_app. split; [done|]. constructor; [by split|constructor].
  - split; [done|]. apply Forall_insert; [done|]. pose proof (Forall_lookup_1 _ _ _ _ Hl Hi) as [Ht _]. split; [done|].
    cbn. destruct resolved as [reason|[wire target]]; [done|]. intros ? ? [= <- <-]. by eapply resolve_named.
  - pose proof (Forall_lookup_1 _ _ _ _ Hl Hi) as [Ht Hn]. cbn in Ht. specialize (Hn wire target eq_refl).
    split; [|apply Forall_insert; [done|by split]]. cbn.
    destruct (safe_operate root fs0 Hplain Hdirs temp Ht r wire target Hn d Hc) as [Hd _].
    destruct (settle_answers r (operate root temp r wire target) d) as (? & d1 & E & <-). rewrite E in Hr. by injection Hr as _ <-.
Qed.

(** C38: nothing outside the served directory is changed, of all entries of the
    disk only those strictly below what the root leads to, in two settings.
    First, a request that runs alone, its lookups answering what the disk says,
    whichever other calls fail and how far they got: this holds on a disk where
    no path below the root that has left it comes back into it.  Second,
    requests in any number that interleave as the source lets them - a path is
    resolved before the lock, at a time when others may run - and whichever
    calls fail, lookups included: this holds when the root is given by its real
    path and no link lies below it at the start.  With links below the root
    neither a failing lookup nor a race is safe: [root_lookup_fails_open] and
    [link_moved_before_the_lock] of VfsDemo. *)
Theorem vfs_stays_in_root :
  (∀ root temp r d R n0,
     tree_wf (dk_fs d) → found (dk_fs d) true root = inr (R, n0) → is_dir_node n0 = true → no_reentry root (dk_fs d) R →
     plain temp → dk_lookups d = [] →
     ∃ response d', vfs_handle root temp r d = (Some response, d') ∧ leaves (below R) (dk_fs d) (dk_fs d'))
  ∧ (∀ root fs0 fs flights,
     Forall plain root → dirs_to fs0 root → no_links_below fs0 root →
     rtc (vfs_step root) (fs0, []) (fs, flights) → leaves (below root) fs0 fs ∧ no_links_below fs root).
Proof.
  split.
  - intros root temp r d R n0 Hwf Hroot Hdir Hno Htemp Hsee.
    pose proof (handle_inside root temp (dk_fs d) (dk_nowNs d) true R n0 Hwf Hroot Hdir eq_refl Hno Htemp r d) as Hl.
    destruct (settle_answers r (dispatch root temp r) d) as (response & d' & E & _). fold (vfs_handle root temp r) in E.
    exists response, d'. split; [exact E|]. rewrite E in Hl. apply Hl. by split_and!.
  - intros root fs0 fs flights Hplain Hdirs Hno Hr.
    assert (system_ok root fs0 (fs0, [])) as H0 by (split; [split; [apply leaves_refl|done]|constructor]).
    assert (∀ s s', rtc (vfs_step root) s s' → system_ok root fs0 s → system_ok root fs0 s') as Hsteps.
    { induction 1 as [|s1 s2 s3 Hs _ IH]; [done|]. intros Hok. apply IH. by eapply system_step. }
    destruct (Hsteps _ _ Hr H0) as [[Hl Hno'] _]. split; [exact Hl|exact Hno'].
Qed.
