(* ===== verification/VfsWrites.v ===== *)
(** * What a write, a replacement and a rename leave behind

    The new file is written beside its place and renamed over it, so that no
    failure leaves a part of it in place; a rename that succeeds found nothing
    where it went.  And every request is answered: the loops end. *)

From stdpp Require Import relations sorting.
From S2P Require Export VfsRequests.
From Stdlib Require Import Ascii.

(** ** A file moved over another *)

Lemma tree_above fs p k n : tree_wf fs → k ≠ [] → fs !! (p ++ k) = Some n → ∃ m, node_at fs p = Some m ∧ is_dir_node m = true.
Proof.
  intros Hwf. revert n. induction k as [|s k IH] using rev_ind; intros n Hk Hn; [done|]. rewrite app_assoc in Hn.
  destruct (tw_parent _ Hwf _ _ _ Hn) as (m & Hm & Hd). destruct k as [|x k]; [rewrite app_nil_r in Hm; by exists m|].
  apply (IH m); [done|]. apply node_at_some; [by destruct p|done].
Qed.

(** Where a tree has gone. *)
Lemma move_tree_lookup from to fs q :
  move_tree from to fs !! q
  = if under to q then fs !! (from ++ drop (length to) q) else if under from q then None else fs !! q.
Proof.
  set (rhs := λ q, if under to q then fs !! (from ++ drop (length to) q) else if under from q then None else fs !! q).
  change (move_tree from to fs !! q = rhs q). apply option_eq. intros m. unfold move_tree.
  assert (∀ q m, (q, m) ∈ omap (λ '(q, n), if under from q then Some (to ++ drop (length from) q, n)
      else if under to q then None else Some (q, n)) (map_to_list fs) ↔ rhs q = Some m) as Hin.
  { clear q m. intros q m. unfold rhs. rewrite list_elem_of_omap. split.
    - intros ([q' m'] & Hq%elem_of_map_to_list & E). destruct (under from q') eqn:Ef.
      + injection E as <- <-. apply under_spec in Ef as [k ->]. rewrite drop_app_length.
        rewrite (proj2 (under_spec to (to ++ k))) by by apply prefix_app_r. by rewrite drop_app_length.
      + destruct (under to q') eqn:Et; [done|]. injection E as <- <-. by rewrite Et, Ef.
    - destruct (under to q) eqn:Et.
      + intros Hq. apply under_spec in Et as [k ->]. rewrite drop_app_length in Hq. exists (from ++ k, m).
        split; [by apply elem_of_map_to_list|]. rewrite (proj2 (under_spec from (from ++ k))) by by apply prefix_app_r.
        by rewrite drop_app_length.
      + destruct (under from q) eqn:Ef; [done|]. intros Hq. exists (q, m). split; [by apply elem_of_map_to_list|]. by rewrite Ef, Et. }
  rewrite <- Hin. split; [apply elem_of_list_to_map_2|]. intros Hm. apply elem_of_list_to_map_1'; [|done].
  intros m' Hm'. apply Hin in Hm. apply Hin in Hm'. congruence.
Qed.

Lemma move_tree_file from to fs n : under to from = false → fs !! from = Some n →
  (∀ q, q ≠ from → under from q = true → fs !! q = None) → (∀ q, q ≠ to → under to q = true → fs !! q = None) →
  move_tree from to fs = <[to := n]> (delete from fs).
Proof.
  intros Htf Hn Hfrom Hto. apply map_eq. intros q. rewrite move_tree_lookup.
  destruct (decide (q = to)) as [->|Hq].
  - rewrite (proj2 (under_spec to to)), drop_ge, app_nil_r, lookup_insert_eq by done. done.
  - rewrite lookup_insert_ne by done. destruct (under to q) eqn:Et.
    + apply under_spec in Et as [k ->]. rewrite drop_app_length. rewrite Hfrom; [|destruct k; [by rewrite app_nil_r in Hq|]|by apply under_spec, prefix_app_r].
      * rewrite lookup_delete_ne; [symmetry; apply Hto; [done|by apply under_spec, prefix_app_r]|].
        intros ->. rewrite (proj2 (under_spec to (to ++ k))) in Htf; [done|by apply prefix_app_r].
      * intros E. apply (f_equal length) in E. rewrite length_app in E. cbn in E. lia.
    + destruct (decide (q = from)) as [->|Hqf]; [by rewrite lookup_delete_eq, (proj2 (under_spec from from))|].
      rewrite lookup_delete_ne by done. destruct (under from q) eqn:Ef; [symmetry; by apply Hfrom|done].
Qed.

(** The entry a name stands for in a directory. *)
Lemma Walk_name fs mid s : plain s → Walk fs false mid [s] (mid ++ [s]).
Proof.
  intros [Hd Hu]. destruct (fs !! (mid ++ [s])) as [n|] eqn:E; [|by apply W_missing].
  destruct (nd_content n) as [data| |ab t|] eqn:Ec; [| | |]; try (eapply W_leaf; try done; unfold is_dir_node, is_link_node; by rewrite Ec).
  - eapply W_dir; try done. constructor.
  - by eapply W_kept.
Qed.

Section Writes.
Context (root : path) (temp : string) (fs : FileSystem) (now : Z).
Context (R : path) (n0 : Node) (Hwf : tree_wf fs) (Hroot : found fs true root = inr (R, n0)) (Htemp : plain temp).

(** What the write of the bytes of [dataB64] to [wire] answers, and what it
    leaves. *)
Definition written (wire dataB64 : string) (r : option VfsResponse) (d : Disk) : Prop :=
  match r with
  | Some (RWrote wire' size) => wire' = wire
      ∧ ∃ data loc, fromBase64 dataB64 = Some data ∧ size = Z.of_nat (length data)
        ∧ Walk fs false [] (root ++ wire_names wire) loc ∧ dk_fs d = <[loc := mkNode (CFile data) 0 now]> fs
  | Some (RError _ _) | None => leaves (λ q, last q = Some temp) fs (dk_fs d)
  | _ => False
  end.

Lemma write_beside_written context wire names s mid dataB64 data : fromBase64 dataB64 = Some data → root ++ wire_names wire = names ++ [s] → plain s → s ≠ temp →
  Walk fs true [] names mid → (∃ n, node_at fs mid = Some n ∧ is_dir_node n = true) →
  ends (here fs now false) (write_beside temp context wire (names ++ [s]) data) (written wire dataB64).
Proof using Hwf Htemp.
  intros Hdata Hnames Hs Hne Ha Hd d (Hfs & Hnow & _). rewrite <- Hfs in Ha.
  destruct (write_beside_run names s temp mid Hs Htemp context wire data d Ha) as [(e & -> & Hl)|(-> & d1 & d2 & Hn & Hfs1 & Hr & ->)].
  { cbn. rewrite Hfs in Hl. intros q Hq. apply Hl. intros ->. apply Hq. apply last_snoc. }
  cbn. split; [done|]. exists data, (mid ++ [s]). do 2 (split; [done|]). rewrite Hfs in Ha, Hn, Hfs1.
  split; [rewrite Hnames; eapply Walk_app; [exact Ha|done|by apply Walk_name|done]|].
  destruct (call_cases (do_rename (names ++ [temp]) (names ++ [s])) (λ _, dk_fs) d1) as (l & [(e & E)|[(e & n & E)|(u & fs' & E & E')]]);
    unfold fs_rename in Hr; [congruence..|]. rewrite E' in Hr. injection Hr as _ <-. cbn [set_fs dk_fs].
  apply do_rename_spec in E as (lf & lt & n & Hf & Hlt & Hcase). cbn [dk_fs set_faults] in *. rewrite Hfs1 in *.
  set (new := new_file data d) in *. assert (Walk (<[mid ++ [temp] := new]> fs) true [] names mid) as Hw by by apply beside_walk.
  apply (found_entry _ _ _ mid) in Hf as [-> Hnew]; [|done|done]. apply (locate_entry _ _ _ mid) in Hlt as ->; [|done|done].
  rewrite lookup_insert_eq in Hnew. injection Hnew as <-.
  destruct Hcase as [[Heq _]|(Hneq & _ & -> & Hkind)]; [by apply app_inj_tail in Heq as [_ ?]|].
  assert (∀ q t, t ≠ [] → fs !! (mid ++ [q] ++ t) ≠ None → ∃ m, fs !! (mid ++ [q]) = Some m ∧ is_dir_node m = true) as Habove.
  { intros q t Ht Hq. rewrite app_assoc in Hq. destruct (fs !! ((mid ++ [q]) ++ t)) as [m|] eqn:Em; [|done].
    destruct (tree_above _ _ _ _ Hwf Ht Em) as (m' & Hm' & ?). rewrite node_at_snoc in Hm'. by exists m'. }
  assert (∀ q x, q ≠ mid ++ [x] → under (mid ++ [x]) q = true → fs !! q ≠ None → ∃ m, fs !! (mid ++ [x]) = Some m ∧ is_dir_node m = true) as Hbelow.
  { intros q x Hq [k ->]%under_spec Hk. apply (Habove x k); [by intros ->; rewrite app_nil_r in Hq|by rewrite app_assoc]. }
  assert (node_at (<[mid ++ [temp] := new]> fs) (mid ++ [s]) = fs !! (mid ++ [s])) as Hat by (rewrite node_at_snoc; by rewrite lookup_insert_ne).
  assert (∀ x y : string, x ≠ y → under (mid ++ [x]) (mid ++ [y]) = false) as Hsib.
  { intros x y Hxy. apply not_true_iff_false. intros [k E]%under_spec. rewrite <- app_assoc in E. apply app_inv_head in E. by injection E as ->. }
  rewrite (move_tree_file _ _ _ new); [|by apply Hsib|by rewrite lookup_insert_eq| |].
  - rewrite delete_insert_id by done. unfold new, new_file. by rewrite Hnow.
  - intros q Hq Hu. rewrite lookup_insert_ne by done. destruct (fs !! q) eqn:Eq; [|done]. exfalso.
    destruct (Hbelow q temp Hq Hu) as (m & Hm & _); congruence.
  - intros q Hq Hu. destruct (decide (q = mid ++ [temp])) as [->|Hqt].
    { exfalso. by rewrite Hsib in Hu. }
    rewrite lookup_insert_ne by done. destruct (fs !! q) eqn:Eq; [|done]. exfalso.
    destruct (Hbelow q s Hq Hu) as (m & Hm & Hmd); [congruence|]. rewrite Hm in Hat. by specialize (Hkind m Hat Hmd).
Qed.

Lemma written_none wire dataB64 d : here fs now false d → written wire dataB64 None d.
Proof using. intros [E _]. cbn. rewrite E. apply leaves_refl. Qed.

Lemma written_refused wire dataB64 code text : ends (here fs now false) (mret (RError code text)) (written wire dataB64).
Proof using. apply ends_ret. intros d [E _]. cbn. rewrite E. apply leaves_refl. Qed.

Ltac first_reads H := eapply ends_read; [H|intros d0 H0; by apply written_none|].
Ltac refused := try apply written_refused.

Lemma target_parent wire target : target_ok root fs false R wire target → target = root ++ wire_names wire → wire ≠ "/" →
  last (wire_names wire) ≠ Some temp → ∃ names s, target = names ++ [s] ∧ plain s ∧ s ≠ temp.
Proof using.
  intros (names & -> & Hplain & Hne & _) Hn Hw Ht. apply app_inv_head in Hn. rewrite <- Hn in Ht.
  destruct (exists_last (Hne Hw)) as (a & s & ->). apply Forall_app in Hplain as [_ Hs]. apply Forall_cons in Hs as [Hs _].
  exists (root ++ a), s. split; [by rewrite app_assoc|]. split; [done|]. intros ->. by rewrite last_snoc in Ht.
Qed.

Section Target.
Context (wire : string) (target : path) (dataB64 : string).
Context (Hok : target_ok root fs false R wire target) (Hnames : target = root ++ wire_names wire).
Context (Hnot : last (wire_names wire) ≠ Some temp).

(** The last steps, once the parent is known to be a directory. *)
Lemma beside_written context data : wire ≠ "/" → fromBase64 dataB64 = Some data →
  (∃ x, found fs true (dirname target) = inr x ∧ is_dir_node x.2 = true) →
  ends (here fs now false) (write_beside temp context wire target data) (written wire dataB64).
Proof using Hwf Htemp Hok Hnames Hnot.
  intros Hw Hdata ([mid n] & Hm & Hd). destruct (target_parent _ _ Hok Hnames Hw Hnot) as (names & s & E & Hs & Hne).
  rewrite E in Hm, Hnames |- *. unfold dirname in Hm. rewrite removelast_last in Hm. apply found_walk in Hm as [Hm Hn].
  eapply write_beside_written; [done|by rewrite Hnames|done|done|exact Hm|by exists n].
Qed.

Lemma write_written expected : ends (here fs now false) (vfs_write temp wire target dataB64 expected) (written wire dataB64).
Proof using Hwf Htemp Hok Hnames Hnot.
  unfold vfs_write. destruct (too_long _); refused. destruct (fromBase64 dataB64) as [data|] eqn:Ed; refused.
  destruct (_ >? _); refused. destruct (String.eqb_spec wire "/") as [|Hw]; refused.
  assert (keeps (here fs now false) (expected_size wire target expected) (λ r, ∀ a, r = Some a → ∃ code text, a = RError code text)) as He.
  { unfold expected_size. destruct expected; [|by apply keeps_ret]. eapply keeps_bind; [apply reads_lstat|]. intros r _. apply keeps_ret.
    intros a. repeat case_match; intros [= <-]; by eexists _, _. }
  first_reads ltac:(exact He). intros [r|] Hr; [destruct (Hr r eq_refl) as (code & text & ->); refused|].
  first_reads ltac:(apply reads_isDirectory). intros [] Hp; refused. apply beside_written; [done|done|by apply Hp].
Qed.

Lemma replace_written expected : ends (here fs now false) (vfs_replace temp wire target expected dataB64) (written wire dataB64).
Proof using Hwf Htemp Hok Hnames Hnot.
  unfold vfs_replace. destruct (too_long _); refused. destruct (fromBase64 expected) as [old|]; refused.
  destruct (fromBase64 dataB64) as [data|] eqn:Ed; refused. destruct (_ >? _); refused.
  destruct (String.eqb_spec wire "/") as [|Hw]; refused. first_reads ltac:(apply reads_current).
  intros [e|[c|]] Hc; [destruct e; refused| |refused]. destruct (negb _); refused. apply beside_written; [done|done|].
  destruct (Hc c eq_refl) as [x Hx]. destruct (target_parent _ _ Hok Hnames Hw Hnot) as (names & s & E & _). rewrite E in Hx |- *.
  unfold dirname. rewrite removelast_last. destruct (found_prefix fs false names [s] _ Hwf ltac:(done) Hx) as (mid & n & Hm & Hd). by exists (mid, n).
Qed.
End Target.

Lemma settle_written r m wire dataB64 : ends (here fs now false) m (written wire dataB64) →
  ends (here fs now false) (settle r (answers m)) (written wire dataB64).
Proof using. intros Hm d Hd. specialize (Hm d Hd). rewrite settle_op. destruct (m d) as [[a|] d']; exact Hm. Qed.

Lemma handle_written r p dataB64 wire : (∃ e, r = VfsWrite p dataB64 e) ∨ (∃ e, r = VfsReplace p e dataB64) →
  default wire (normalizeVfsPath p) = wire → last (wire_names wire) ≠ Some temp →
  ends (here fs now false) (vfs_handle root temp r) (written wire dataB64).
Proof using Hwf Hroot Htemp.
  intros Hr Hwire Hnot d Hd. assert (primary r = p) as E by by destruct Hr as [[e ->]|[e ->]]. rewrite handle_steps, E.
  destruct (reads_resolve root fs now false R n0 Hwf Hroot p d Hd) as [Hd1 Hres].
  destruct (resolve root p d) as [[[reason|[w target]]|] d1]; cbn [fst snd] in *.
  - destruct Hd1 as [E1 _]. cbn. rewrite E1. apply leaves_refl.
  - destruct (Hres _ eq_refl _ _ eq_refl) as (Htarget & Hnorm & Hnames). rewrite Hnorm in Hwire. cbn in Hwire. subst w.
    destruct Hr as [[e ->]|[e ->]]; cbn [operate]; apply settle_written; [by apply write_written|done|by apply replace_written|done].
  - destruct Hd1 as [E1 _]. cbn. rewrite E1. apply leaves_refl.
Qed.
End Writes.

(** C39: a write and a replacement are all or nothing. Whatever calls fail and
    however far they got, the request is answered; when the answer is an error
    every entry of the disk is as it was, the temporary file apart; when it is
    a success the file at the path has exactly the decoded bytes, and that is
    the only change to the disk. *)
Theorem vfs_write_atomic root temp r p dataB64 d R n0 :
  (∃ e, r = VfsWrite p dataB64 e) ∨ (∃ e, r = VfsReplace p e dataB64) →
  tree_wf (dk_fs d) → found (dk_fs d) true root = inr (R, n0) → plain temp →
  (∀ wire, normalizeVfsPath p = Some wire → last (wire_names wire) ≠ Some temp) →
  ∃ response d', vfs_handle root temp r d = (Some response, d') ∧
    match response with
    | RError _ _ => leaves (λ q, last q = Some temp) (dk_fs d) (dk_fs d')
    | RWrote wire size => normalizeVfsPath p = Some wire ∧ ∃ data loc, fromBase64 dataB64 = Some data ∧ size = Z.of_nat (length data)
        ∧ Walk (dk_fs d) false [] (root ++ wire_names wire) loc
        ∧ dk_fs d' = <[loc := mkNode (CFile data) 0 (dk_nowNs d)]> (dk_fs d)
    | _ => False
    end.
Proof.
  intros Hr Hwf Hroot Htemp Hnot.
  destruct (settle_answers r (dispatch root temp r) d) as (response & d' & E & _). fold (vfs_handle root temp r) in E.
  destruct (normalizeVfsPath p) as [wire|] eqn:En.
  - pose proof (handle_written root temp (dk_fs d) (dk_nowNs d) R n0 Hwf Hroot Htemp r p dataB64 wire Hr
      ltac:(by rewrite En) (Hnot _ eq_refl) d ltac:(by split_and!)) as H. rewrite E in H.
    exists response, d'. split; [done|]. cbn in H. destruct response; try done. by destruct H as [<- ?].
  - assert (primary r = p) as Ep by by destruct Hr as [[e ->]|[e ->]]. rewrite handle_steps, Ep in E.
    unfold resolve in E. rewrite En in E. injection E as <- <-. rewrite handle_steps, Ep. unfold resolve. rewrite En.
    eexists _, _. split; [done|]. apply leaves_refl.
Qed.

(** ** Renames *)

Section Renames.
Context (root : path) (temp : string) (fs : FileSystem) (now : Z).
Context (R : path) (n0 : Node) (Hwf : tree_wf fs) (Hroot : found fs true root = inr (R, n0)).

(** What a rename from [wire] answers, and what it leaves. *)
Definition renamed (wire to : string) (r : option VfsResponse) (d : Disk) : Prop :=
  match r with
  | Some (RRenamed from to') => from = wire ∧ normalizeVfsPath to = Some to'
      ∧ ∃ lf lt n, found fs false (root ++ wire_names wire) = inr (lf, n) ∧ locate fs false (root ++ wire_names to') = inr lt
        ∧ node_at fs lt = None
        ∧ ∀ q, dk_fs d !! q = if under lt q then fs !! (lf ++ drop (length lt) q) else if under lf q then None else fs !! q
  | Some (RError _ _) | None => dk_fs d = fs
  | _ => False
  end.

Lemma renamed_none wire to d : here fs now true d → renamed wire to None d.
Proof using. by intros [E _]. Qed.
Lemma renamed_refused wire to code text : ends (here fs now true) (mret (RError code text)) (renamed wire to).
Proof using. apply ends_ret. by intros d [E _]. Qed.

Ltac first_reads H := eapply ends_read; [H|intros d0 H0; by apply renamed_none|].
Ltac refused := try apply renamed_refused.

Lemma rename_renamed wire to : ends (here fs now true) (vfs_rename root wire (root ++ wire_names wire) to) (renamed wire to).
Proof using Hwf Hroot.
  unfold vfs_rename. first_reads ltac:(by eapply reads_resolve). intros [reason|[toWire toTarget]] Hto; refused.
  destruct (Hto _ _ eq_refl) as (_ & Hnorm & ->). destruct (String.eqb wire "/"); refused. destruct (String.eqb toWire "/"); refused.
  first_reads ltac:(apply reads_pathExists). intros [] _; refused. first_reads ltac:(apply reads_pathExists). intros [] Hfree; refused.
  first_reads ltac:(apply reads_isDirectory). intros [] _; refused. intros d (Hfs & Hnow & _).
  destruct (call_cases (do_rename (root ++ wire_names wire) (root ++ wire_names toWire)) (λ _, dk_fs) d)
    as (l & [(e & E)|[(e & n & E)|(u & fs' & E & E')]]); cbn [negb]; unfold fs_rename; [by rewrite (run_bind _ _ _ _ _ E)..|].
  rewrite (run_bind _ _ _ _ _ E'). cbn. split; [done|]. split; [done|].
  apply do_rename_spec in E as (lf & lt & n & Hf & Hl & Hcase). cbn [dk_fs set_faults] in *. rewrite Hfs in *.
  assert (node_at fs lt = None) as Hnone.
  { destruct (node_at fs lt) as [t|] eqn:Et; [|done]. exfalso. destruct (proj2 Hfree eq_refl eq_refl) as [e He].
    assert (found fs false (root ++ wire_names toWire) = inr (lt, t)) as Ht by (apply found_locate; by split). congruence. }
  exists lf, lt, n. do 3 (split; [done|]). destruct Hcase as [[-> _]|(_ & _ & -> & _)].
  - apply found_locate in Hf as [_ Hf]. congruence.
  - intros q. apply move_tree_lookup.
Qed.
End Renames.

(** A rename whose lookups answer what the disk says never overwrites. It is
    answered; when the answer is an error
    nothing has changed; when it is a success there was nothing where the path
    goes, all of the old subtree is there now, nothing is left of it, and no
    other entry has changed. *)
Theorem vfs_rename_no_overwrite root temp from to d R n0 :
  tree_wf (dk_fs d) → found (dk_fs d) true root = inr (R, n0) → dk_lookups d = [] →
  ∃ response d', vfs_handle root temp (VfsRename from to) d = (Some response, d') ∧
    match response with
    | RError _ _ => dk_fs d' = dk_fs d
    | RRenamed from' to' => normalizeVfsPath from = Some from' ∧ normalizeVfsPath to = Some to'
        ∧ ∃ lf lt n, found (dk_fs d) false (root ++ wire_names from') = inr (lf, n)
          ∧ locate (dk_fs d) false (root ++ wire_names to') = inr lt ∧ node_at (dk_fs d) lt = None
          ∧ ∀ q, dk_fs d' !! q
              = if under lt q then dk_fs d !! (lf ++ drop (length lt) q) else if under lf q then None else dk_fs d !! q
    | _ => False
    end.
Proof.
  intros Hwf Hroot Hsee. rewrite handle_steps. cbn [primary operate].
  destruct (reads_resolve root (dk_fs d) (dk_nowNs d) true R n0 Hwf Hroot from d ltac:(by split_and!)) as [Hd1 Hres].
  destruct (resolve root from d) as [[[reason|[wire target]]|] d1]; cbn [fst snd] in Hd1, Hres.
  - eexists _, _. split; [done|]. apply Hd1.
  - destruct (Hres _ eq_refl _ _ eq_refl) as (_ & Hnorm & ->). rewrite settle_op.
    pose proof (rename_renamed root (dk_fs d) (dk_nowNs d) R n0 Hwf Hroot wire to d1 Hd1) as H.
    destruct (vfs_rename _ _ _ _ d1) as [[response|] d2]; [|by eexists _, _].
    exists response, d2. split; [done|]. cbn in H. destruct response; try done. destruct H as [<- ?]. by split.
  - eexists _, _. split; [done|]. apply Hd1.
Qed.

(** * Every request is answered by its operation

    The loops of local-vfs.ts end: the walk to the deepest part of a path that
    is there, the reads that fill a buffer, and the walk of a tree, whose
    directories are all different. *)

(** ** Entries below a directory *)

Definition strictly (p q : path) : bool := under p q && negb (bool_decide (q = p)).
Definition count (f : path → bool) (fs : FileSystem) : nat := length (List.filter (λ x, f x.1) (map_to_list fs)).

(** One, and the entries below. *)
Definition weight (fs : FileSystem) (loc : path) : nat := S (count (strictly loc) fs).

Lemma sum_swap (cs : list string) (f : string → path → bool) (g : path → bool) (l : list (path * Node)) :
  (∀ x, length (List.filter (λ c, f c x) cs) ≤ (if g x then 1 else 0))%nat →
  (sum_list (map (λ c, length (List.filter (λ x, f c x.1) l)) cs) ≤ length (List.filter (λ x, g x.1) l))%nat.
Proof.
  intros Hf. induction l as [|[x n] l IH]; cbn [List.filter fst].
  - clear Hf. by induction cs.
  - assert (sum_list (map (λ c, length (if f c x then (x, n) :: List.filter (λ x, f c x.1) l else List.filter (λ x, f c x.1) l)) cs)
      = length (List.filter (λ c, f c x) cs) + sum_list (map (λ c, length (List.filter (λ x, f c x.1) l)) cs))%nat as ->.
    { clear. induction cs as [|c cs IHc]; cbn; [done|]. rewrite IHc. destruct (f c x); cbn; lia. }
    specialize (Hf x). cbn [fst] in *. destruct (g x); cbn [length]; lia.
Qed.

Lemma filter_one {A} (f : A → bool) (l : list A) : NoDup l → (∀ a b, f a = true → f b = true → a = b) → (length (List.filter f l) ≤ 1)%nat.
Proof.
  intros Hl Hf. induction Hl as [|a l Ha Hl IH]; cbn; [lia|]. destruct (f a) eqn:E; [|done]. cbn.
  destruct (List.filter f l) as [|b k] eqn:Ek; [done|]. exfalso. assert (b ∈ List.filter f l) as Hb by (rewrite Ek; left).
  apply In_filter_iff in Hb as [Hb Hfb]. by rewrite (Hf a b) in Ha.
Qed.

Lemma weight_entry fs p : is_Some (fs !! p) → (weight fs p ≤ count (under p) fs)%nat.
Proof.
  intros [n Hn]. apply elem_of_map_to_list, list_elem_of_split in Hn as (l1 & l2 & E). unfold weight, count.
  rewrite E, !List.filter_app, !length_app. cbn [List.filter fst].
  assert (under p p = true) as Hu by by apply under_spec.
  assert (strictly p p = false) as -> by (unfold strictly; by rewrite bool_decide_true, andb_false_r by done). rewrite Hu. cbn [length].
  assert (∀ l : list (path * Node), (length (List.filter (λ x, strictly p x.1) l) ≤ length (List.filter (λ x, under p x.1) l))%nat) as Hl.
  { clear. intros l. induction l as [|x l IH]; cbn; [done|]. unfold strictly at 1. destruct (under p x.1); cbn; [|done].
    destruct (negb _); cbn; lia. }
  pose proof (Hl l1). pose proof (Hl l2). lia.
Qed.

Lemma sum_map_le {A} (f g : A → nat) (l : list A) : (∀ a, a ∈ l → (f a ≤ g a)%nat) → (sum_list (map f l) ≤ sum_list (map g l))%nat.
Proof.
  induction l as [|a l IH]; intros H; cbn; [done|]. pose proof (H a ltac:(left)). specialize (IH ltac:(intros b Hb; apply H; by right)).
  unfold sum_list in *. lia.
Qed.

(** The subdirectories of a directory weigh less than it does. *)
Lemma weight_children fs loc (cs : list string) : NoDup cs → (∀ c, c ∈ cs → is_Some (fs !! (loc ++ [c]))) →
  (S (sum_list (map (λ c, weight fs (loc ++ [c])) cs)) ≤ weight fs loc)%nat.
Proof.
  intros Hcs Hin. unfold weight at 2. apply le_n_S.
  transitivity (sum_list (map (λ c, count (under (loc ++ [c])) fs) cs)).
  - apply sum_map_le. intros c Hc. by apply weight_entry, Hin.
  - apply (sum_swap cs (λ c, under (loc ++ [c])) (strictly loc)). intros q. destruct (strictly loc q) eqn:E.
    + apply filter_one; [done|]. intros a b [k Ha]%under_spec [k' Hb]%under_spec. rewrite Ha, <- !app_assoc in Hb.
      apply app_inv_head in Hb. by injection Hb as ->.
    + destruct (List.filter _ cs) as [|c l] eqn:Ef; [done|]. exfalso. assert (c ∈ List.filter (λ c, under (loc ++ [c]) q) cs) as Hc by (rewrite Ef; left).
      apply In_filter_iff in Hc as [_ [k ->]%under_spec]. unfold strictly in E.
      rewrite (proj2 (under_spec _ _)), bool_decide_false in E; [done| |by rewrite <- app_assoc; apply prefix_app_r].
      intros H. apply (f_equal length) in H. rewrite !length_app in H. cbn in H. lia.
Qed.

(** ** Computations that do not throw *)

Definition total {A} (m : Io A) : Prop := ∀ d, is_Some (m d).1.

Lemma total_ret {A} (a : A) : total (mret a).
Proof. by eexists. Qed.
Lemma total_gets {A} (f : Disk → A) : total (gets f).
Proof. by eexists. Qed.
Lemma total_look {A} (f : FileSystem → Errno + A) : total (look_up f).
Proof.
  intros d. unfold look_up, next_lookup, exec, mbind, exn_bind. destruct (dk_lookups d) as [|[e|] l]; by eexists.
Qed.
Lemma total_close : total handle_close.
Proof. intros d. unfold handle_close, exec. destruct (dk_closes d); by eexists. Qed.
Lemma total_bind {A B} (m : Io A) (k : A → Io B) : total m → (∀ a, total (k a)) → total (m ≫= k).
Proof. intros Hm Hk d. unfold mbind, exn_bind. destruct (Hm d) as [a Ha]. destruct (m d) as [r d']. cbn in Ha. subst r. apply Hk. Qed.
Lemma total_call {A} (f : Disk → Errno + A * FileSystem) part : total (call f part).
Proof. intros d. destruct (call_none f part d) as (r & d' & ->). by eexists. Qed.
Lemma total_forM {A B} (l : list A) (f : A → Io B) : (∀ x, total (f x)) → total (forM l f).
Proof.
  intros Hf. induction l as [|x l IH]; cbn; [apply total_ret|]. apply total_bind; [apply Hf|]. intros y.
  apply total_bind; [apply IH|]. intros ys. apply total_ret.
Qed.
Lemma total_readdir p : total (fs_readdir p).
Proof. apply total_call. Qed.
Lemma total_handle n k o : total (handle_read n k o).
Proof.
  intros [fs0 now0 faults looks closes]. destruct faults as [|[|e p|x] faults]; unfold handle_read, next_fault, exec, mbind, exn_bind; cbn; try by eexists.
  all: destruct (nd_content n); by eexists.
Qed.

(** ** The walk of a tree *)

Lemma children_names fs loc : NoDup (map fst (children fs loc)).
Proof.
  unfold children. pose proof (NoDup_fst_map_to_list fs) as Hnd. induction (map_to_list fs) as [|[q n] l IH]; cbn; [constructor|].
  apply NoDup_cons in Hnd as [Hq Hnd]. specialize (IH Hnd). destruct (last q) as [s|] eqn:El; [|done]. case_bool_decide as E; [|done].
  cbn. apply NoDup_cons. split; [|done]. intros ([s' m] & Hs & Hin)%list_elem_of_fmap. cbn in Hs. subst s'.
  apply list_elem_of_omap in Hin as ([q' m'] & Hin & Hc). destruct (last q') as [s'|] eqn:El'; [|done].
  case_bool_decide as E'; [|done]. injection Hc as -> ->. apply Hq. apply list_elem_of_fmap. exists (q', m). split; [cbn; congruence|done].
Qed.

Lemma children_entry fs loc s n : (s, n) ∈ children fs loc → fs !! (loc ++ [s]) = Some n.
Proof.
  unfold children. intros ([q m] & Hin%elem_of_map_to_list & H)%list_elem_of_omap. destruct (last q) as [s'|]; [|done].
  case_bool_decide as E; [|done]. injection H as <- <-. by rewrite <- E.
Qed.

(** What the entries of one directory push on the stack: subdirectories, each
    at most once. *)
Lemma tree_entries_stack dir rel depth dirents : ∀ s,
  ∃ names rels, tr_stack (tree_entries dir rel depth dirents s) = zip_with (λ c r, (dir ++ [c], r.1, r.2)) names rels ++ tr_stack s
    ∧ length rels = length names ∧ names ⊆+ map fst (List.filter (λ x, is_dir_node x.2) dirents).
Proof.
  induction dirents as [|[name n] dirents IH]; intros s; cbn [tree_entries]; [by exists [], []|].
  assert (∀ s', tr_stack s' = tr_stack s → ∃ names rels,
    tr_stack (tree_entries dir rel depth dirents s') = zip_with (λ c r, (dir ++ [c], r.1, r.2)) names rels ++ tr_stack s
    ∧ length rels = length names ∧ names ⊆+ map fst (List.filter (λ x, is_dir_node x.2) ((name, n) :: dirents))) as Hsame.
  { intros s' Hs. destruct (IH s') as (names & rels & E & Hl & Hsub). exists names, rels. rewrite E, Hs. do 2 (split; [done|]).
    cbn. destruct (is_dir_node n); [by apply submseteq_cons|done]. }
  destruct (tree_full _); [exists [], []; split_and!; [done|done|apply submseteq_nil_l]|].
  destruct s as [stack paths truncated contributed]. unfold tree_entry.
  destruct (is_dir_node n) eqn:Ed; [|destruct (is_file_node n); [case_bool_decide|]; by apply Hsame].
  case_bool_decide; [by apply Hsame|]. destruct (_ <? _)%nat; [by apply Hsame|].
  destruct (IH (mkTree ((dir ++ [name], joinWirePath rel name, (depth + 1)%nat) :: stack) paths truncated true)) as (names & rels & E & Hl & Hsub).
  exists (names ++ [name]), (rels ++ [(joinWirePath rel name, (depth + 1)%nat)]). rewrite E. cbn [tr_stack]. split_and!.
  - rewrite zip_with_app by done. by rewrite <- app_assoc.
  - rewrite !length_app. by rewrite Hl.
  - cbn. rewrite Ed. cbn. rewrite Permutation_app_comm. cbn. by apply submseteq_skip.
Qed.

Section Tree.
Context (fs : FileSystem) (now : Z) (Hwf : tree_wf fs).

(** The stack weighs at most [fuel]. *)
Definition stack_weight (stack : list (path * string * nat)) (fuel : nat) : Prop :=
  ∃ locs, Forall2 (λ (e : path * string * nat) loc, ∀ l n, found fs true e.1.1 = inr (l, n) → l = loc) stack locs
    ∧ (sum_list (map (weight fs) locs) ≤ fuel)%nat.

Lemma stack_push dir loc n names rels stack fuel : found fs true dir = inr (loc, n) →
  length rels = length names → names ⊆+ map fst (List.filter (λ x, is_dir_node x.2) (children fs loc)) →
  ∀ locs, Forall2 (λ (e : path * string * nat) loc, ∀ l n, found fs true e.1.1 = inr (l, n) → l = loc) stack locs →
  (weight fs loc + sum_list (map (weight fs) locs) ≤ S fuel)%nat →
  stack_weight (zip_with (λ (c : string) (r : string * nat), (dir ++ [c], r.1, r.2)) names rels ++ stack) fuel.
Proof using Hwf.
  intros Hdir Hlen Hsub locs Hlocs Hle. exists (map (λ c, loc ++ [c]) names ++ locs).
  assert (∀ c, c ∈ names → ∃ m, fs !! (loc ++ [c]) = Some m ∧ is_dir_node m = true) as Hin.
  { intros c Hc. apply (elem_of_submseteq _ _ _ Hc) in Hsub. apply list_elem_of_fmap in Hsub as ([c' m] & -> & Hm).
    apply In_filter_iff in Hm as [Hm Hd]. apply children_entry in Hm. by exists m. }
  split.
  - apply Forall2_app; [|done]. clear Hsub Hle. revert rels Hlen. induction names as [|c names IH]; intros [|r rels] Hlen; try done; cbn.
    constructor; [|apply IH; [intros; apply Hin; by right|by injection Hlen]]. intros l m Hl. cbn in Hl. apply found_walk in Hl as [Hl _].
    apply found_walk in Hdir as [Hdir _]. destruct (Hin c) as (m' & Hm & Hd); [left|].
    eapply Walk_followed; [by eapply tw_plain|exact Hdir| |exact Hl]. intros x Hx. rewrite Hm in Hx. injection Hx as <-.
    unfold is_dir_node, is_link_node in *. by destruct (nd_content m').
  - assert (NoDup names) as Hnd.
    { apply submseteq_Permutation in Hsub as [k Hk]. enough (NoDup (names ++ k)) as Happ by by apply NoDup_app in Happ as [? _].
      rewrite <- Hk. pose proof (children_names fs loc) as Hnd. clear -Hnd.
      induction (children fs loc) as [|[c m] l IH]; cbn; [constructor|]. apply NoDup_cons in Hnd as [Hc Hnd].
      destruct (is_dir_node m); cbn; [|by apply IH]. apply NoDup_cons. split; [|by apply IH].
      intros ([c' m'] & E & Hm)%list_elem_of_fmap. apply In_filter_iff in Hm as [Hm _]. apply Hc, list_elem_of_fmap. by eexists. }
    pose proof (weight_children fs loc names Hnd ltac:(intros c Hc; destruct (Hin c Hc) as (m & ? & _); by eexists)) as Hw.
    rewrite map_app, map_map, sum_list_with_app. unfold sum_list in *. lia.
Qed.

Lemma readdir_result dir : keeps (here fs now false) (fs_readdir dir)
  (λ r, ∀ l, r = inr l → ∃ loc n, found fs true dir = inr (loc, n) ∧ l = children fs loc).
Proof using.
  intros d Hd. destruct (reads_readdir fs now false dir d Hd) as [Hd' _]. split; [done|]. intros a Ha l ->. revert Ha. unfold fs_readdir.
  destruct Hd as [Hfs _]. destruct (call_cases (λ d, match found (dk_fs d) true dir with
         | inl e => inl e
         | inr (loc, n) => if is_dir_node n then inr (children (dk_fs d) loc, dk_fs d) else inl ENOTDIR
         end) (λ _, dk_fs) d) as (faults & [(e & ->)|[(e & m & ->)|(a & fs' & E & ->)]]); try done.
  intros [= ->]. cbn [dk_fs set_faults] in E. rewrite Hfs in E. destruct (found fs true dir) as [e|[loc n]]; [done|].
  destruct (is_dir_node n); [|done]. injection E as <- _. by exists loc, n.
Qed.

Lemma tree_loop_ends wire fuel : ∀ stack paths truncated, stack_weight stack fuel →
  ends (here fs now false) (tree_loop fuel wire stack paths truncated) (λ r _, is_Some r).
Proof using Hwf.
  induction fuel as [|fuel IH]; intros stack paths truncated (locs & Hlocs & Hle).
  - destruct Hlocs as [|[[dir rel] depth] loc stack locs _ _]; [|exfalso; change (weight fs loc + sum_list (map (weight fs) locs) <= 0)%nat in Hle; unfold weight in Hle; lia].
    cbn [tree_loop]. apply ends_ret. by intros d _.
  - destruct Hlocs as [|[[dir rel] depth] loc stack locs Hloc Hlocs]; cbn [tree_loop]; [apply ends_ret; by intros d _|].
    cbn [fst] in Hloc. change (weight fs loc + sum_list (map (weight fs) locs) <= S fuel)%nat in Hle.
    destruct (tree_full paths); [apply ends_ret; by intros d _|].
    intros d Hd. destruct (readdir_result dir d Hd) as [Hd' Hr]. unfold mbind, exn_bind.
    destruct (fs_readdir dir d) as [[[e|l]|] d1] eqn:Er; cbn in Hd', Hr.
    + apply IH; [|done]. exists locs. split; [done|]. unfold weight at 1 in Hle. lia.
    + destruct (Hr _ eq_refl l eq_refl) as (loc' & n & Hf & ->). pose proof (Hloc _ _ Hf) as ->.
      destruct (tree_entries_stack dir rel depth (children fs loc) (mkTree stack paths truncated false)) as (names & rels & E & Hlen & Hsub).
      apply IH; [|done]. rewrite E. by eapply stack_push.
    + exfalso. pose proof (total_readdir dir d) as [x Hx]. by rewrite Er in Hx.
Qed.
End Tree.

(** ** The other loops *)

Lemma total_probe fuel real p : (length p <= fuel)%nat → total (probe_loop fuel real p).
Proof.
  revert p. induction fuel as [|fuel IH]; intros p Hp; cbn [probe_loop]; (apply total_bind; [apply total_bind; [apply total_look|intros r; apply total_ret]|]);
    intros [].
  1,3: apply total_bind; [apply total_look|intros r; apply total_ret].
  all: case_bool_decide as Hd; [apply total_ret|].
  - exfalso. apply Hd. by destruct p; [|cbn in Hp; lia].
  - apply IH. unfold dirname. destruct p as [|x p] using rev_ind; [cbn; lia|]. rewrite removelast_last. rewrite length_app in Hp. cbn in Hp. lia.
Qed.

Lemma total_resolve root req : total (resolve root req).
Proof.
  unfold resolve, checkNoSymlinkEscape. destruct (normalizeVfsPath req) as [q|]; [|apply total_ret].
  apply total_bind; [|intros r; apply total_ret]. apply total_bind; [apply total_look|]. intros [e|real]; [apply total_ret|by apply total_probe].
Qed.

Lemma total_read_loop fuel n want offset : ∀ got, (want <= length got + fuel)%nat → total (read_loop fuel n want offset got).
Proof.
  induction fuel as [|fuel IH]; intros got Hf; cbn [read_loop]; (destruct (want <=? length got)%nat eqn:E; [apply total_ret|]);
    apply Nat.leb_gt in E; [lia|].
  apply total_bind; [apply total_handle|]. intros [e|[|x more]]; [apply total_ret..|]. apply IH. rewrite length_app. cbn. lia.
Qed.

Ltac total_step :=
  match goal with
  | |- total (mret _) => apply total_ret
  | |- total (gets _) => apply total_gets
  | |- total (call _ _) => apply total_call
  | |- total (look_up _) => apply total_look
  | |- total handle_close => apply total_close
  | |- total (resolve _ _) => apply total_resolve
  | |- total (forM _ _) => apply total_forM; intros ?
  | |- total (read_loop _ _ _ _ _) => apply total_read_loop; cbn; lia
  | |- total (_ ≫= _) => apply total_bind; [|intros ?]
  | |- total (if ?b then _ else _) => destruct b
  | |- total (match ?x with _ => _ end) => destruct x
  | |- total (let '(_, _) := ?x in _) => destruct x
  | |- total (?f _) => unfold f
  end.
Ltac totals := unfold answers, vfs_list, vfs_stat, vfs_read, read_open, handle_stat, vfs_write, vfs_append, vfs_replace, vfs_delete, vfs_mkdir, vfs_rename, write_beside,
  expected_size, current_data, isDirectory, pathExists, fs_lstat, fs_stat, fs_realpath, fs_readdir, fs_open, fs_readFile, fs_writeFile_wx,
  fs_rename, fs_rm_force, fs_appendFile, fs_unlink, fs_rmdir, fs_rm_recursive, fs_mkdir; cbv zeta; repeat total_step.

Lemma total_operate root temp r wire target : (∀ p, r ≠ VfsTree p) → total (operate root temp r wire target).
Proof. intros Hr. destruct r; cbn [operate]; try (exfalso; by eapply Hr); totals. Qed.

Lemma tree_ends fs now wire target : tree_wf fs → ends (here fs now false) (vfs_tree wire target) (λ r _, is_Some r).
Proof.
  intros Hwf. unfold vfs_tree. intros d Hd. destruct (total_look (λ fs, match found fs false target with inl e => inl e | inr x => inr x.2 end) d) as [x Hx].
  destruct (reads_lstat fs now false target d Hd) as [Hd1 _]. change (look_up _) with (fs_lstat target) in Hx.
  unfold mbind, exn_bind. destruct (fs_lstat target d) as [y d1]. cbn in Hx, Hd1. subst y.
  destruct x as [e|n]; [by eexists|]. destruct (negb _); [by eexists|]. unfold gets.
  assert (stack_weight fs [(target, wire, 0%nat)] (S (size (dk_fs d1)))) as Hw.
  { exists [match found fs true target with inl _ => [] | inr y => y.1 end]. split.
    - constructor; [|constructor]. cbn. intros l m ->. done.
    - cbn. unfold weight, count. destruct Hd1 as [-> _]. rewrite <- (length_map_to_list fs), Nat.add_0_r.
      apply le_n_S, List.filter_length_le. }
  pose proof (tree_loop_ends fs now Hwf wire _ _ [] false Hw d1 Hd1) as [[paths truncated] E].
  destruct (tree_loop _ _ _ _ _ d1) as [r d2]. cbn in E. subst r. by eexists.
Qed.

(** ** What escapes an operation *)

(** Only the closing of a file looks at the closes to come. *)
Section Closes.
Context (c : list (option Errno)).
Abbreviation open := (λ d : Disk, dk_closes d = c).

Lemma open_look {A} (f : FileSystem → Errno + A) : keeps open (look_up f) (λ _, True).
Proof.
  intros d Hd. split; [|done]. unfold look_up, next_lookup, exec, mbind, exn_bind. by destruct (dk_lookups d) as [|[e|] l].
Qed.
Lemma open_call {A} (f : Disk → Errno + A * FileSystem) part : keeps open (call f part) (λ _, True).
Proof. intros d Hd. split; [|done]. by destruct (call_cases f part d) as (l & [(e & ->)|[(e & n & ->)|(a & fs & _ & ->)]]). Qed.
Lemma open_handle n k o : keeps open (handle_read n k o) (λ _, True).
Proof.
  intros [fs0 now0 faults looks closes] Hd. split; [|done].
  destruct faults as [|[|e p|x] faults]; unfold handle_read, next_fault, exec, mbind, exn_bind; cbn; try done.
  all: by destruct (nd_content n).
Qed.

Lemma open_loop fuel n want offset got : keeps open (read_loop fuel n want offset got) (λ _, True).
Proof.
  revert got. induction fuel as [|fuel IH]; intros got; cbn [read_loop]; destruct (want <=? length got)%nat;
    try by apply keeps_ret. { by apply keeps_throw. }
  eapply keeps_bind; [apply open_handle|]. intros [e|[|x more]] _; [by apply keeps_ret..|apply IH].
Qed.

Lemma open_probe fuel real p : keeps open (probe_loop fuel real p) (λ _, True).
Proof.
  revert p. induction fuel as [|fuel IH]; intros p; cbn [probe_loop];
    (eapply keeps_bind; [eapply keeps_bind; [apply open_look|intros; by apply (keeps_ret _ _ (λ _, True))]|intros [] _]);
    repeat (apply open_look || apply IH || keeps_step); done.
Qed.

Lemma open_resolve root req : keeps open (resolve root req) (λ _, True).
Proof.
  unfold resolve, checkNoSymlinkEscape. destruct (normalizeVfsPath req) as [q|]; [|by apply keeps_ret].
  keeps_step; [|by apply keeps_ret]. eapply keeps_bind; [apply open_look|]. intros [e|real] _; [by apply keeps_ret|apply open_probe].
Qed.

Lemma read_escapes wire target offset len :
  ends open (vfs_read wire target offset len) (λ x _, ∀ e, x = Some (inl e) → ∃ rest, c = Some e :: rest).
Proof.
  unfold vfs_read. destruct (_ || _); [by apply ends_ret|]. eapply ends_read; [apply open_call|done|]. intros [e|n] _; [by apply ends_ret|].
  eapply ends_read; [|done|].
  { unfold read_open. eapply keeps_bind; [apply open_look|]. intros [e|m] _; [by apply (keeps_ret _ _ (λ _, True))|].
    destruct (is_dir_node m); [by apply keeps_ret|]. destruct (offset >? _); [by apply keeps_ret|].
    eapply keeps_bind; [apply open_loop|]. intros r _. by apply keeps_ret. }
  intros answer _ d Hd e. unfold handle_close, exec, mbind, exn_bind. rewrite Hd.
  destruct c as [|[e'|] rest]; cbn; try done. intros [= ->]. by exists rest.
Qed.
End Closes.

Lemma operate_escapes root temp r wire target d e d' : operate root temp r wire target d = (Some (inl e), d') →
  ∃ p o l rest, r = VfsRead p o l ∧ dk_closes d = Some e :: rest.
Proof.
  intros H. destruct r; cbn [operate] in H;
    try (unfold answers, mbind, exn_bind in H; by match type of H with context [match ?x with _ => _ end] => destruct x as [[?|] ?] end).
  pose proof (read_escapes (dk_closes d) wire target offset length d eq_refl e) as Hr. rewrite H in Hr.
  destruct (Hr eq_refl) as [rest Hc]. by eexists _, _, _, rest.
Qed.

(** C40: every request is answered, whatever calls fail: the loop over the
    parents of a path, the loop that fills a buffer from reads that may be
    short, and the walk of a tree all end.  The answer is the one of its
    operation, with one exception: when the file of a read cannot be closed,
    what was read is lost and [handle] answers that error. *)
Theorem vfs_dispatch_answers root temp r d : tree_wf (dk_fs d) →
  ∃ outcome d', dispatch root temp r d = (Some outcome, d')
    ∧ vfs_handle root temp r d = (Some (match outcome with inl e => ioError ("vfs " +:+ request_t r) e | inr a => a end), d')
    ∧ ∀ e, outcome = inl e → ∃ p offset length rest, r = VfsRead p offset length ∧ dk_closes d = Some e :: rest.
Proof.
  intros Hwf. assert (∃ outcome d', dispatch root temp r d = (Some outcome, d')
    ∧ ∀ e, outcome = inl e → ∃ p offset length rest, r = VfsRead p offset length ∧ dk_closes d = Some e :: rest) as (x & d' & E & He).
  { destruct (total_resolve root (primary r) d) as [x Hx].
    destruct (resolve_keeps root (dk_fs d) (dk_nowNs d) false (primary r) d ltac:(by split_and!)) as [Hd _].
    destruct (open_resolve (dk_closes d) root (primary r) d eq_refl) as [Hc _].
    unfold dispatch, mbind, exn_bind. destruct (resolve root (primary r) d) as [y d1]. cbn in Hx, Hd, Hc. subst y.
    destruct x as [reason|[wire target]]; [by eexists _, _|].
    assert (is_Some (operate root temp r wire target d1).1) as [outcome Hout].
    { destruct r; try (apply total_operate; intros ? E; discriminate E). cbn [operate].
      destruct (tree_ends (dk_fs d) (dk_nowNs d) wire target Hwf d1 Hd) as [a Ha]. unfold answers, mbind, exn_bind.
      destruct (vfs_tree wire target d1) as [z d2]. cbn in Ha. subst z. by eexists. }
    destruct (operate root temp r wire target d1) as [z d2] eqn:E. cbn in Hout. subst z. exists outcome, d2. split; [done|].
    intros e ->. apply operate_escapes in E. by rewrite Hc in E. }
  exists x, d'. split; [done|]. split; [|done]. unfold vfs_handle, settle, catch, mbind, exn_bind. by rewrite E.
Qed.
