(* ===== verification/VfsDemo.v ===== *)
(** * Runs of the local file system

    A disk to which the theorems apply, and runs that show what the code does
    with links inside the root, with lookups and closes that fail, and with a
    link that is moved while a request waits for the lock. *)

From stdpp Require Import relations sorting.
From S2P Require Export VfsWrites.
From Stdlib Require Import Ascii.

(** ** Deciding that a disk is a tree *)

Definition plainb (s : string) : bool := negb (dot s) && negb (String.eqb s "..").
Definition entry_wf (fs : FileSystem) (x : path * Node) : bool :=
  match last x.1, node_at fs (removelast x.1) with Some s, Some m => plainb s && is_dir_node m | _, _ => false end.
Definition tree_wfb (fs : FileSystem) : bool := forallb (entry_wf fs) (map_to_list fs).

Lemma tree_wfb_wf fs : tree_wfb fs = true → tree_wf fs.
Proof.
  intros H. assert (∀ p n, fs !! p = Some n → entry_wf fs (p, n) = true) as Hin.
  { intros p n Hn. unfold tree_wfb in H. rewrite forallb_forall in H. apply H, list_elem_of_In, elem_of_map_to_list, Hn. }
  assert (∀ p s n, fs !! (p ++ [s]) = Some n → plain s ∧ ∃ m, node_at fs p = Some m ∧ is_dir_node m = true) as Hsnoc.
  { intros p s n Hn. apply Hin in Hn. unfold entry_wf in Hn. cbn [fst] in Hn. rewrite last_snoc, removelast_last in Hn.
    destruct (node_at fs p) as [m|]; [|done]. apply andb_true_iff in Hn as [Hs Hm]. split; [|by exists m].
    unfold plainb in Hs. apply andb_true_iff in Hs as [H1 H2]. apply negb_true_iff in H1, H2. split; [done|].
    by intros ->. }
  split; [|intros p s n Hn; by eapply Hsnoc|intros p s n Hn; by eapply Hsnoc].
  destruct (fs !! ([] : path)) as [n|] eqn:E; [|done]. by apply Hin in E.
Qed.

(** ** Where the theorem of the root applies *)

(** Links may lead to the root, but none is below it. *)
Definition links_above (fs : FileSystem) (R : path) : bool :=
  forallb (λ x, negb (strictly R x.1 && is_link_node x.2)) (map_to_list fs).

Lemma links_above_spec fs R q n : links_above fs R = true → below R q → fs !! q = Some n → is_link_node n = false.
Proof.
  unfold links_above. rewrite forallb_forall. intros H (x & k & ->) Hn.
  specialize (H (_, n) ltac:(by apply list_elem_of_In, elem_of_map_to_list)). cbn in H.
  assert (strictly R (R ++ x :: k) = true) as Hs; [|by rewrite Hs in H; destruct (is_link_node n)].
  unfold strictly. rewrite (proj2 (under_spec R (R ++ x :: k))) by by apply prefix_app_r. rewrite bool_decide_false; [done|].
  intros E. apply (f_equal length) in E. rewrite length_app in E. cbn in E. lia.
Qed.

Lemma Walk_below fs R cur names mid : links_above fs R = true → R `prefix_of` cur → Forall plain names →
  Walk fs true cur names mid → R `prefix_of` mid.
Proof.
  intros Hl HR Hp Hw. revert HR. induction Hw as [cur|cur s rest loc Hd Hw IH|cur rest loc Hw IH|cur s Hd Hu Hn|cur s n rest loc Hd Hu Hn Hc Hw IH
    |cur s n ab t Hd Hu Hn Hc Hf|cur s n ab t rest loc Hd Hu Hn Hc Hf Hw IH|cur s n Hd Hu Hn Hnd Hnl]; intros HR; try done;
    try by apply prefix_app_r.
  - apply Forall_cons in Hp as [[Hd' _] _]. congruence.
  - by apply Forall_cons in Hp as [[_ ?] _].
  - apply Forall_cons in Hp as [_ Hp]. apply IH; [done|by apply prefix_app_r].
  - exfalso. enough (is_link_node n = false) as E by (unfold is_link_node in E; by rewrite Hc in E).
    eapply links_above_spec; [done| |done]. destruct HR as [[|x k] ->]; [exists s, []; by rewrite app_nil_r|].
    exists x, (k ++ [s]). by rewrite <- app_assoc.
Qed.

Lemma links_above_no_reentry fs root R n0 : found fs true root = inr (R, n0) → links_above fs R = true → no_reentry root fs R.
Proof.
  intros Hroot%found_walk Hl names s mid loc Hnames _ Hw _ _. destruct Hroot as [Hroot _]. destruct names as [|x names].
  - rewrite app_nil_r in Hw. by rewrite (Walk_det _ _ _ _ _ _ Hw Hroot).
  - destruct (Walk_split _ _ _ _ _ Hw root (x :: names) eq_refl) as (R' & HR' & Hn); [done|].
    rewrite (Walk_det _ _ _ _ _ _ HR' Hroot) in Hn. by eapply Walk_below.
Qed.

(** ** A disk *)

Definition folder : Node := mkNode CDir 96 5000000.
Definition file (data : bytes) : Node := mkNode (CFile data) 0 7000000.
Definition link (absolute : bool) (target : path) (size : Z) : Node := mkNode (CLink absolute target) size 5000000.

(** The root is reached through the link [/srv]. *)
Definition demo_fs : FileSystem := list_to_map [
  (["home"], folder); (["home"; "files"], folder); (["home"; "files"; "docs"], folder);
  (["home"; "files"; "docs"; "a.txt"], file (utf8 "abc")); (["home"; "secret"], file (utf8 "key"));
  (["srv"], link true ["home"; "files"] 11)].

Definition on (fs : FileSystem) (faults : list Fault) : Disk := mkDisk fs 9000000 faults [] [].
Definition looking (fs : FileSystem) (lookups : list (option Errno)) : Disk := mkDisk fs 9000000 [] lookups [].
Definition temp_name : string := ".suma-vfs-71-12345".

(** The write stops after one byte, and nothing is left of it. *)
Definition half_written : list Fault := [Fails EIO (Some 1%nat)].

Lemma demo_wf : tree_wf demo_fs.
Proof. apply tree_wfb_wf. vm_compute. reflexivity. Qed.
Lemma demo_root : found demo_fs true ["srv"] = inr (["home"; "files"], folder).
Proof. vm_compute. reflexivity. Qed.
Lemma demo_no_reentry : no_reentry ["srv"] demo_fs ["home"; "files"].
Proof. apply (links_above_no_reentry _ _ _ folder); [apply demo_root|]. vm_compute. reflexivity. Qed.
Lemma temp_plain : plain temp_name.
Proof. split; [reflexivity|discriminate]. Qed.

Lemma demo_dirs : dirs_to demo_fs ["home"; "files"].
Proof.
  intros a [k Hk]. assert (a = [] ∨ a = ["home"] ∨ a = ["home"; "files"]) as [-> |[-> | ->]].
  { destruct a as [|x [|y [|z a]]]; cbn in Hk; simplify_eq; auto. }
  - exists disk_root. split; reflexivity.
  - exists folder. split; [vm_compute; reflexivity|reflexivity].
  - exists folder. split; [vm_compute; reflexivity|reflexivity].
Qed.
Lemma demo_no_links : no_links_below demo_fs ["home"; "files"].
Proof. intros q n. apply links_above_spec. vm_compute. reflexivity. Qed.

Definition overwrite : VfsRequest := VfsWrite "/docs/a.txt" "aGVsbG8=" None.

(** A deletion alone, and a write that resolves its path and then runs. *)
Lemma vfs_stays_in_root_witness :
  (∃ response d', vfs_handle ["srv"] temp_name (VfsDelete "/docs" (Some true)) (on demo_fs []) = (Some response, d')
     ∧ leaves (below ["home"; "files"]) demo_fs (dk_fs d'))
  ∧ ∃ fs flights, rtc (vfs_step ["home"; "files"]) (demo_fs, []) (fs, flights)
     ∧ flights = [mkFlight overwrite temp_name (Answered (RWrote "/docs/a.txt" 5))]
     ∧ leaves (below ["home"; "files"]) demo_fs fs.
Proof.
  destruct vfs_stays_in_root as [Halone Hflights]. split.
  { exact (Halone ["srv"] temp_name (VfsDelete "/docs" (Some true)) (on demo_fs []) ["home"; "files"] folder
      demo_wf demo_root eq_refl demo_no_reentry temp_plain eq_refl). }
  set (target := ["home"; "files"; "docs"; "a.txt"]).
  destruct (settle_answers overwrite (operate ["home"; "files"] temp_name overwrite "/docs/a.txt" target) (on demo_fs []))
    as (response & d' & E & _).
  assert (response = RWrote "/docs/a.txt" 5) as ->.
  { assert ((settle overwrite (operate ["home"; "files"] temp_name overwrite "/docs/a.txt" target) (on demo_fs [])).1
      = Some (RWrote "/docs/a.txt" 5)) as H by (vm_compute; reflexivity). rewrite E in H. by injection H. }
  eexists _, _. assert (rtc (vfs_step ["home"; "files"]) (demo_fs, []) (dk_fs d', [mkFlight overwrite temp_name (Answered (RWrote "/docs/a.txt" 5))])) as Hr.
  { eapply rtc_l; [apply (V_arrives _ demo_fs [] overwrite temp_name temp_plain)|].
    eapply rtc_l; [apply (V_resolves ["home"; "files"] demo_fs [mkFlight overwrite temp_name Arrived] 0 overwrite temp_name (on demo_fs [])
      (inr ("/docs/a.txt", target)) (on demo_fs []) eq_refl)|].
    { replace (resolve ["home"; "files"] (primary overwrite) (on demo_fs [])) with (Some (inr ("/docs/a.txt", target)) : option (string + string * path), on demo_fs []);
        [reflexivity|]. vm_compute. reflexivity. }
    apply rtc_once. exact (V_runs ["home"; "files"] [mkFlight overwrite temp_name (Waiting "/docs/a.txt" target)] 0 overwrite temp_name
      "/docs/a.txt" target (on demo_fs []) _ d' eq_refl E). }
  split; [exact Hr|]. split; [reflexivity|].
  exact (proj1 (Hflights ["home"; "files"] demo_fs _ _ ltac:(repeat constructor; discriminate) demo_dirs demo_no_links Hr)).
Defined.

(** What that request does. *)
Example docs_deleted :
  let '(r, d') := vfs_handle ["srv"] temp_name (VfsDelete "/docs" (Some true)) (on demo_fs []) in
  (r, dk_fs d' !! ["home"; "files"; "docs"; "a.txt"], dk_fs d' !! ["home"; "secret"]) = (Some (RDeleted "/docs"), None, Some (file (utf8 "key"))).
Proof. vm_compute. reflexivity. Qed.

Lemma vfs_write_atomic_witness :
  ∃ response d', vfs_handle ["srv"] temp_name (VfsWrite "/docs/a.txt" "aGVsbG8=" None) (on demo_fs half_written) = (Some response, d') ∧
    match response with
    | RError _ _ => leaves (λ q, last q = Some temp_name) demo_fs (dk_fs d')
    | RWrote wire size => normalizeVfsPath "/docs/a.txt" = Some wire ∧ ∃ data loc, fromBase64 "aGVsbG8=" = Some data ∧ size = Z.of_nat (length data)
        ∧ Walk demo_fs false [] (["srv"] ++ wire_names wire) loc ∧ dk_fs d' = <[loc := mkNode (CFile data) 0 9000000]> demo_fs
    | _ => False
    end.
Proof.
  apply (vfs_write_atomic ["srv"] temp_name (VfsWrite "/docs/a.txt" "aGVsbG8=" None) "/docs/a.txt" "aGVsbG8=" (on demo_fs half_written)
    ["home"; "files"] folder (or_introl (ex_intro _ None eq_refl)) demo_wf demo_root temp_plain).
  intros wire Hw. vm_compute in Hw. injection Hw as <-. vm_compute. discriminate.
Defined.

(** Without the failure the file is there, with it nothing has changed. *)
Example written_or_not :
  let run faults := vfs_handle ["srv"] temp_name (VfsWrite "/docs/a.txt" "aGVsbG8=" (Some 3)) (on demo_fs faults) in
  let content d := nd_content <$> dk_fs d !! ["home"; "files"; "docs"; "a.txt"] in
  ((run []).1, content (run []).2) = (Some (RWrote "/docs/a.txt" 5), Some (CFile (utf8 "hello")))
  ∧ ((run half_written).1, content (run half_written).2) = (Some (RError "vfs_io_failed" "writing /docs/a.txt"), Some (CFile (utf8 "abc")))
  ∧ map_to_list (dk_fs (run half_written).2) = map_to_list demo_fs.
Proof. vm_compute. split_and!; reflexivity. Qed.

Lemma vfs_rename_no_overwrite_witness : tree_wf demo_fs ∧
  ∃ response d', vfs_handle ["srv"] temp_name (VfsRename "/docs" "/papers") (on demo_fs []) = (Some response, d') ∧
    match response with RError _ _ => dk_fs d' = demo_fs | RRenamed _ _ => True | _ => False end.
Proof.
  split; [apply demo_wf|]. destruct (vfs_rename_no_overwrite ["srv"] temp_name "/docs" "/papers" (on demo_fs []) _ _ demo_wf demo_root eq_refl)
    as (response & d' & E & H). exists response, d'. split; [exact E|]. destruct response; try exact H. exact I.
Defined.

Lemma vfs_dispatch_answers_witness : ∃ outcome d', dispatch ["srv"] temp_name (VfsTree "/") (on demo_fs []) = (Some outcome, d').
Proof.
  destruct (vfs_dispatch_answers ["srv"] temp_name (VfsTree "/") (on demo_fs []) demo_wf) as (x & d' & E & _). exists x, d'. exact E.
Defined.

(** ** Failing lookups and closes *)

(** A file that was read and cannot be closed: its bytes are not answered. *)
Example read_lost_on_close :
  let read closes := (vfs_handle ["srv"] temp_name (VfsRead "/docs/a.txt" 0 10) (mkDisk demo_fs 9000000 [] [] closes)).1 in
  read [] = Some (RData "/docs/a.txt" 0 "YWJj" true) ∧ read [Some EIO] = Some (RError "vfs_io_failed" "vfs vfs.read").
Proof. vm_compute. split; reflexivity. Qed.

(** The seventh lookup of a rename asks whether its destination is free: when
    it fails, the destination counts as free and is replaced. *)
Definition two_files : FileSystem := list_to_map [
  (["home"], folder); (["home"; "files"], folder); (["home"; "files"; "a.txt"], file (utf8 "abc"));
  (["home"; "files"; "b.txt"], file (utf8 "kept"))].

Example rename_overwrites_after_a_failing_lookup :
  let run lookups := vfs_handle ["home"; "files"] temp_name (VfsRename "/a.txt" "/b.txt") (looking two_files lookups) in
  let b lookups := nd_content <$> dk_fs (run lookups).2 !! ["home"; "files"; "b.txt"] in
  ((run []).1, b []) = (Some (RError "vfs_already_exists" "/b.txt already exists: rename must not overwrite"), Some (CFile (utf8 "kept")))
  ∧ ((run (replicate 7 None ++ [Some EIO])).1, b (replicate 7 None ++ [Some EIO])) = (Some (RRenamed "/a.txt" "/b.txt"), Some (CFile (utf8 "abc"))).
Proof. vm_compute. split; reflexivity. Qed.

(** ** Links inside the root *)

(** The link [/up] leads to the parent of the root. *)
Definition up_fs : FileSystem := list_to_map [
  (["home"], folder); (["home"; "files"], folder); (["home"; "files"; "a.txt"], file (utf8 "abc"));
  (["home"; "files"; "up"], link false [".."] 2)].

(** The root is deleted through it: its path ends in the root, so the check
    lets it pass, and its wire path is not the root's. *)
Example root_deleted_through_a_link :
  let '(r, d') := vfs_handle ["home"; "files"] temp_name (VfsDelete "/up/files" (Some true)) (on up_fs []) in
  tree_wf up_fs ∧ (r, dk_fs d' !! ["home"; "files"]) = (Some (RDeleted "/up/files"), None).
Proof. split; [apply tree_wfb_wf; vm_compute; reflexivity|]. vm_compute. reflexivity. Qed.

(** An append through a link counts the size of the link. *)
Definition link_fs : FileSystem := list_to_map [
  (["home"], folder); (["home"; "files"], folder); (["home"; "files"; "a.txt"], file (utf8 "abc"));
  (["home"; "files"; "l"], link false ["a.txt"] 5)].

Example append_counts_the_link :
  let run expected := vfs_handle ["home"; "files"] temp_name (VfsAppend "/l" "ZGU=" expected) (on link_fs []) in
  ((run None).1, st_size <$> dk_fs (run None).2 !! ["home"; "files"; "a.txt"]) = (Some (RWrote "/l" 7), Some 5)
  ∧ (run (Some 3)).1 = Some (RError "vfs_conflict" "/l no longer has the expected size 3 (now 5)").
Proof. vm_compute. split; reflexivity. Qed.

(** When the real path of the root cannot be had the check is left out, and a
    write goes through the link to the parent of the root. *)
Example root_lookup_fails_open :
  let run lookups := vfs_handle ["home"; "files"] temp_name (VfsWrite "/up/evil" "aGVsbG8=" None) (looking up_fs lookups) in
  let evil lookups := nd_content <$> dk_fs (run lookups).2 !! ["home"; "evil"] in
  ((run []).1, evil []) = (Some (RError "vfs_path_refused" "path resolves outside the Files root"), None)
  ∧ ((run [Some EIO]).1, evil [Some EIO]) = (Some (RWrote "/up/evil" 5), Some (CFile (utf8 "hello"))).
Proof. vm_compute. split; reflexivity. Qed.

(** A link that stays inside where it lies leads outside where it is moved to.
    A write to a path behind its new name resolves while nothing has that name,
    and runs after the move. *)
Definition moved_fs : FileSystem := list_to_map [
  (["home"], folder); (["home"; "files"], folder); (["home"; "files"; "docs"], folder); (["docs"], folder);
  (["home"; "files"; "a"], folder); (["home"; "files"; "a"; "b"], folder);
  (["home"; "files"; "a"; "b"; "l"], link false [".."; ".."; "docs"] 10)].

Example link_moved_before_the_lock :
  let write := VfsWrite "/l/x" "aGVsbG8=" None in
  let root := ["home"; "files"] in
  let '(resolved, d) := resolve root (primary write) (on moved_fs []) in
  let '(moved, d1) := vfs_handle root temp_name (VfsRename "/a/b/l" "/l") d in
  match resolved with
  | Some (inr (wire, target)) =>
      let '(answer, d2) := settle write (operate root temp_name write wire target) d1 in
      moved = Some (RRenamed "/a/b/l" "/l") ∧ answer = Some (RWrote "/l/x" 5)
      ∧ nd_content <$> dk_fs d2 !! ["docs"; "x"] = Some (CFile (utf8 "hello"))
      ∧ (resolve root (primary write) d1).1 = Some (inl "path resolves outside the Files root")
  | _ => False
  end.
Proof. vm_compute. split_and!; reflexivity. Qed.
